(* ===== verification/_CoqProject ===== *)
-Q . S2P
Prelude.v
ShCsum.v
ShStream.v
ShSha.v
ShCrc.v
ShKey.v
Heap.v
ShBuf.v
ShMap.v
ShBase64.v
ShBase58.v
ShBase32.v
ShCrypto.v
ShLock.v
ShLockSteps.v
ShPool.v
ShFs.v
ShFsAux.v
ShFsLink.v
ShMsg.v
ShTree.v
ShHmac.v
ShJson.v
ShJsonSafe.v
ShRipemd.v
ShShr.v
ShShz.v
ShShzData.v
ShShzIndex.v
ShShzTree.v
ShShzFile.v
ShShzArchive.v
ShShzList.v
ShShzRoundtrip.v
ShMpi.v
ShMpiVal.v
ShMpiArith.v
ShMpiBits.v
ShMpiDiv.v
ShMpiDivOk.v
ShMpiText.v
ShMpiTextOk.v
ShMpiExp.v
ShMpiExpOk.v
ShMpiNum.v
ShMpiNumOk.v
ShMpiPrime.v
