(* ===== verification/Prelude.v ===== *)
(** * The share library: a verification of its memory layer, its file blocks and its
    message queues

    libshare is a C library for sharing data between programs on one or several
    machines.  At its bottom is the memory layer ([src/share-lib/mem]):
    growable buffers, keys that name things, a hash map over keys, pools, trees,
    locks, checksums and digests, text encodings, JSON, encryption and
    multi-precision integers.  Above it
    are a file system kept in journals of blocks ([src/share-lib/fs]), sockets
    ([src/share-lib/net]) and services for messages, accounts and processes
    ([src/share-lib/sys]).  Every layer above hashes its names into keys,
    keeps its tables in the hash map, builds its records in buffers and
    encodes or encrypts them with the functions of the memory layer, which is
    why the development starts there and continues with the block layer of the
    file system and the message queues.

    ** Files

    Each file models one source file, or a part of one, and opens with the reading
    of its data.

    - [Prelude.v]: machine integers, bits, byte strings, little-endian images,
      [memcpy] on blocks, the outcome type, tactics and hint databases.
    - [ShCsum.v] ([shmem_csum.c]): modules [Crc32] and [Adler32].  The
      table-driven, unrolled CRC-32 equals the bit-serial definition, the
      deferred-modulo Adler-32 equals the byte-wise one without overflow, and
      both combine functions give the checksum of a concatenation.
    - [ShStream.v], [ShSha.v] ([shmem_alg_sha.c], the contexts): the theory of a
      digest that absorbs a message byte by byte, and its instances [Sha256],
      [Sha1] and [Sha512] with the code of SHA-1, SHA-224, SHA-256, SHA-384 and
      SHA-512.  A digest equals the block-wise definition, for one call and for
      any split of the message into pieces; no store leaves the message block.
    - [ShCrc.v] ([share.c], the checksum part): the 64-bit checksum and its
      text, which parses back.
    - [ShKey.v] ([shmem_key.c]): keys from bytes, strings and numbers,
      comparison, the two text forms and their round trips, certificates.
    - [Heap.v]: the C heap of the components that hold pointers: blocks,
      [calloc], [free], reads and writes through a pointer.
    - [ShBuf.v] ([shmem_buf.c]): buffers as byte strings; a refinement theorem
      for sequences of editing calls, and the errors the code does not handle.
    - [ShMap.v] ([shmem_map.c]): the hash map on the heap.  Set, replace and
      remove implement a finite map from key images to values, with an
      invariant for the table and for the ownership of copied values; lookup,
      iteration, release, histories; the print and load format and its round
      trip.
    - [ShBase64.v], [ShBase58.v], [ShBase32.v] ([shmem_base64.c],
      [shmem_base58.c], [shmem_base32.c]): encoders against the definition of
      the encoding, round trips, memory safety and termination of the decoders.
    - [ShCrypto.v] ([shmem_crypto.c]): the TEA cipher, the envelopes built on
      it over buffers, keys and base64, and their round trips.
    - [ShLock.v] ([shmem_lock.c]): locks over the key map, in the builds with
      and without POSIX threads.  The class [PtrTable] is what the locks ask of
      the map and [shmap_ptr_table] shows that the map of [ShMap.v] provides
      it.  Histories of whole calls are an inductive relation; mutual exclusion is
      an invariant of all of them.
    - [ShLockSteps.v] ([shmem_lock.c]): the same calls cut at every access to shared
      memory, with all interleavings of the steps of any number of threads.  The
      mutex keeps the threads apart once a lock exists; three schedules show what
      the unprotected accesses break.
    - [ShPool.v] ([shmem_pool.c]): pools of buffers against a list model.
    - [ShFs.v] ([shfs_journal.c] and the block functions of [shfs_inode.c]):
      journals that grow, the search for a free slot, blocks written and read.
    - [ShFsAux.v] ([shfs_aux.c] and the clearing and truncating functions of
      [shfs_inode.c]): file data in chains of blocks over [ShFs.v].  Writing at an
      offset and reading back, truncation, and the cases that lose data.
    - [ShFsLink.v] ([shfs_link.c]): directories as lists of inode blocks; linking
      and finding implement a map from names.
    - [ShMsg.v] ([shsys_msg.c]): the message queue in shared memory; as long as its
      ring of bytes does not wrap around, any interleaving of sends to one
      destination and receives implements a bounded first-in first-out list; and
      the state of an empty queue in which every longer message is refused.
    - [ShTree.v] ([shmem_tree.c]): trees of allocated nodes that may own their data;
      construction, release without leaks, the orders of the traversals.
    - [ShHmac.v] ([shmem_alg_sha.c], the rest): selection of a digest, HMAC and HKDF
      against RFC 2104 and RFC 5869, one-time pins.
    - [ShJson.v], [ShJsonSafe.v] ([shmem_json.c]): the JSON parser and printer with
      the sizes of their allocations, and the tree functions; the text of a tree
      parses back as long as its sizes fit an [int], objects are maps whose keys
      have no case, and the parser is safe on every text outside three described
      kinds.
    - [ShRipemd.v] ([shmem_alg_ripemd160.c]): the unrolled RIPEMD-160 against the
      definition of its designers, over the theory of [ShStream.v].
    - [ShShr.v] ([shmem_alg_shr.c]): keys of a RIPEMD-160 digest of a SHA-256 digest
      and their text; the library's 224-bit digest, its keyed form and keys, and
      the bytes they ignore; password signatures.
    - [ShShz.v], [ShShzData.v], [ShShzIndex.v], [ShShzTree.v], [ShShzFile.v],
      [ShShzArchive.v], [ShShzList.v], [ShShzRoundtrip.v] ([shmem_shz.c]): compressed
      archives, from the bottom up.  An archive is a buffer of pages of 1024 bytes,
      modelled with its bytes and with pointers that a growth of the buffer
      invalidates; on pages are raw and compressed segments (the class
      [segment_io] is what the index asks of both, the class [zlib] stands for
      the compressor), indexes of segments, tables that map keys to pages, and
      files.  A table implements a map from keys, an archive a map from names to
      contents; files written to an archive in a mapped file come back from an
      extraction after it was closed and opened again; and the cases in which
      segments, entries or pages are lost.
    - [ShMpi.v], [ShMpiDiv.v], [ShMpiText.v], [ShMpiExp.v], [ShMpiNum.v]
      ([shmem_mpi.c], [shmem_mpi.h]): multi-precision integers, with the limbs of
      64 bits, the blocks that grow, and the objects a call is given twice.  Their
      theorems are in [ShMpiVal.v] (values, copies, comparison), [ShMpiArith.v]
      (sums and products), [ShMpiBits.v] (bit counts and shifts),
      [ShMpiDivOk.v] (long division and remainders), [ShMpiTextOk.v] (text in
      every base and binary form), [ShMpiExpOk.v] (Montgomery products and the
      sliding-window power), [ShMpiNumOk.v] (greatest common divisors and
      inverses) and [ShMpiPrime.v] (small factors, Miller and Rabin).  Each
      operation gives the result of the integers, or reports that there is no
      memory, which the predicate [spec] allows only when a block of the size it
      names is refused.

    ** How the code is read

    A C function is a function on explicit state.  A fixed-width integer is a
    [Z]; where an operation may leave the range of its type the wrap-around of
    the type is written out ([u32], [u64], [sint]), and the overflow of a
    signed type is a [Fault].  A [Fault] is undefined behaviour: an access
    outside an allocation, a NULL dereference, a double [free], a signed
    overflow, a division by zero.  Memory is a list of bytes where a function
    works on one allocation, and a heap of blocks where pointers are kept
    (map values, locks, pool members, tree nodes).  A pointer that only moves
    forward through a text is the suffix it points to.  Integers in memory are
    little-endian.  A size the C code reads from a caller is a separate argument of
    the definition wherever the allocation can be larger than the size, so that
    over-reads are visible.

    What the sources take from elsewhere is an argument: whether an allocation
    succeeds, what [realloc] leaves in new memory, the page size, the time of
    day, the thread number, random numbers and bytes, uninitialised memory, the success of
    writes and of [mmap] (the record [env] of [ShBuf.v], the environments of
    [ShFs.v] and [ShMsg.v] and the [alloc_ok] arguments), and the floating-point
    operations of [ShJson.v] (the classes [Double] and [DoubleLaws], which ask
    for exact integers below 2^53).  Theorems name the hypotheses they need of
    them, chiefly that memory is available, and the error theorems show what
    happens when it is not.

    ** Fuel

    Loops that recur on data are structural.  The others count down: the
    decoding loops by the length of the text, each round consuming at least one
    character; the combining loop of CRC-32 by the 64 bits of its length
    argument; iteration over the hash map by its number of chains and entries;
    the loading loop of the hash map by the buffer length, since every record
    of a printed table advances by more than one byte; walks over the blocks of a
    file or directory and over a tree by an argument, with theorems for every fuel
    above the number of blocks or the depth; the JSON parser by three times the
    length of its text, since every third call consumes a byte; the search for an
    archive page by the number of pages of its buffer, since each nested call
    counts a page, and the walk over a table by one more than that, since it visits
    each page once; the loops of the multi-precision integers by the number of
    rounds their proofs give, which are the bits of the operands for divisors and
    inverses, and eight for the correction of a quotient limb.  Running out of
    fuel is a [Fault], so every theorem that a call is [Done] also shows that its
    fuel was enough; a theorem of [ShMap.v] gives the input on which the C loading
    loop does not end.

    ** What the theorems show

    Equivalence with a reference definition (checksums, digests, keyed hashes, key
    derivation, encodings), refinement of an abstract state (buffers to byte
    strings, the hash map, directories, archives and JSON objects to finite maps,
    pools to lists, message queues to bounded queues, multi-precision numbers to
    the integers), invariants of all histories (hash
    map, locks, directories, trees), round trips (key text, printed tables, file
    data, archives, JSON, base 32, 58 and 64, encryption, numbers as text), bounds, safety and termination,
    and theorems that pin down defects: appending to a mapped buffer overruns it,
    loading a truncated table reads past it, an expanded table still uses sixteen
    chains, a text that starts with the magic number is not encrypted, re-entering
    a lock with [shlock_tryopen] unlocks it early, pulling a buffer out of a pool
    loses the ones behind it, two new blocks of a file whose names select one
    journal share a slot, an empty message queue can refuse every message above a
    length, a lock that is closed while the next thread opens it is never released,
    the one-shot key derivation exchanges salt and key, a JSON text overruns the block
    its string is copied to, the last bytes of a message do not enter the 224-bit
    digest, making a password signature overruns the stack, one archive entry in
    240 cannot be stored, every 253rd segment of an archived file is lost, the last
    pages of a reopened archive are not mapped, two arrays can be added to a JSON
    object under one name, a number
    that is added to itself in place loses its carries, division in place and powers
    of negative numbers have wrong signs, the remainder by an integer of more than 32
    bits is wrong, the inverse modulo one is searched for ever, a negative number in
    base 16 is written one byte behind its buffer, and the primes above a power of
    two are rejected.

    ** What is not modelled, and the plan

    Next in the memory layer: RSA over the multi-precision integers, their line
    format in files, the algorithm tables and text formats of
    [shmem_alg.c], the version 1 encryption format with its signatures
    taken as an interface, the difference algorithm, and the release of JSON trees and references to
    their items.  In the file system: creation and removal of inodes, references,
    streams and access rights over the modelled blocks.  In the network layer the
    packet framing of [shnet_esl.c], and the accounts of the service layer.
    Bundled libraries (zlib, xdelta3, SQLite, ECDSA, X.509, Lua), gnulib, the
    generated language bindings, the command-line tools and functions that only
    perform I/O are outside the development. *)

From Stdlib Require Import ZArith Lia Ascii String.
From stdpp Require Import base numbers list gmap.

Open Scope Z_scope.

(** * Machine integers

    A w-bit unsigned integer is a [Z] in [0 <= z < 2^w]; arithmetic that may
    leave the range is followed by the wrap-around of its C type. *)

Definition wrap (w z : Z) : Z := z mod 2 ^ w.

Declare Scope share_scope.
Delimit Scope share_scope with share.

Abbreviation u8 := (wrap 8).
Abbreviation u16 := (wrap 16).
Abbreviation u32 := (wrap 32).
Abbreviation u64 := (wrap 64).

(** Conversion of a w-bit pattern to the signed type of the same width. *)
Definition sint (w z : Z) : Z :=
  let r := wrap w z in if r <? 2 ^ (w - 1) then r else r - 2 ^ w.

Definition INT_MAX : Z := 2147483647.

(** The unit of the files the library maps. *)
Definition SHARE_PAGE_SIZE : Z := 8192.

Definition is_uint (w z : Z) : Prop := 0 <= z < 2 ^ w.
Definition is_byte (z : Z) : Prop := is_uint 8 z.

#[global] Instance is_uint_dec w z : Decision (is_uint w z).
Proof. unfold is_uint. apply _. Defined.

#[global] Instance is_byte_dec z : Decision (is_byte z).
Proof. unfold is_byte. apply _. Defined.

(** A byte string of the program: an array of [unsigned char]. *)
Abbreviation bytes := (list Z).
Definition is_bytes (l : bytes) : Prop := Forall is_byte l.

(** The characters of a C string literal, without the terminator. *)
Definition cstr (s : string) : bytes :=
  map (fun a => Z.of_nat (Ascii.nat_of_ascii a)) (String.list_ascii_of_string s).
Arguments cstr s%_string_scope.

(** The C string stored at the start of a block: the bytes before the first
    NUL; [strlen] is its length. *)
Fixpoint cstring (l : bytes) : bytes :=
  match l with
  | [] => []
  | b :: l' => if b =? 0 then [] else b :: cstring l'
  end.

(** Outcome of code that touches memory: [Fault] stands for undefined
    behaviour (an access outside an allocation, a NULL dereference, a signed
    overflow), which C gives no meaning. *)
Inductive outcome (A : Type) : Type :=
| Done (a : A)
| Fault.
Arguments Done {A} a.
Arguments Fault {A}.

Definition obind {A B} (m : outcome A) (f : A -> outcome B) : outcome B :=
  match m with Done a => f a | Fault => Fault end.

Notation "x <-! m ; k" := (obind m (fun x => k))
  (at level 100, m at next level, right associativity) : share_scope.
Open Scope share_scope.

Definition no_fault {A} (m : outcome A) : bool :=
  match m with Done _ => true | Fault => false end.

(** * Error codes ([sherr.h]) *)
Definition SHERR_NOMEM : Z := -12.
Definition SHERR_INVAL : Z := -22.
Definition SHERR_NOBUFS : Z := -105.
Definition SHERR_OPNOTSUPP : Z := -95.

(** * Magic numbers ([shmem.h]) *)
Definition SHMEM_MAGIC : Z := 2488388474311837730.
Definition SHMEM32_MAGIC : Z := Z.land (Z.shiftr SHMEM_MAGIC 32) 4294967295.

(** * Memory blocks

    The C library calls the sources use on byte arrays. *)

(** [memcpy(dst + off, src, length src)], faulting outside the block. *)
Definition mem_write (dst : bytes) (off : nat) (src : bytes) : outcome bytes :=
  if decide (off + length src <= length dst)%nat
  then Done (take off dst ++ src ++ drop (off + length src) dst)
  else Fault.

(** Reads [n] bytes at [off], faulting outside the block. *)
Definition mem_read (src : bytes) (off n : nat) : outcome bytes :=
  if decide (off + n <= length src)%nat
  then Done (take n (drop off src))
  else Fault.

(** Little-endian image of a w-byte integer, and back. *)
Fixpoint le_bytes (n : nat) (z : Z) : bytes :=
  match n with
  | O => []
  | S n' => z mod 256 :: le_bytes n' (z / 256)
  end.

Fixpoint of_le (l : bytes) : Z :=
  match l with
  | [] => 0
  | b :: l' => b + 256 * of_le l'
  end.

(** [htons], [htonl] on a little-endian host. *)
Definition htons (z : Z) : Z := of_le (reverse (le_bytes 2 z)).
Definition htonl (z : Z) : Z := of_le (reverse (le_bytes 4 z)).

(** * Shared lemmas *)

Create HintDb share discriminated.
Create Rewrite HintDb wrap.
Create Rewrite HintDb len.

Lemma wrap_range w z : 0 <= w -> is_uint w (wrap w z).
Proof. intros. apply Z.mod_pos_bound. lia. Qed.

Lemma wrap_small w z : is_uint w z -> wrap w z = z.
Proof. intros. by apply Z.mod_small. Qed.

Lemma wrap_wrap w z : wrap w (wrap w z) = wrap w z.
Proof. unfold wrap. destruct (decide (2 ^ w = 0)) as [->|]; [by rewrite !Z.mod_0_r | by rewrite Z.mod_mod]. Qed.

Lemma wrap_add_l w a b : wrap w (wrap w a + b) = wrap w (a + b).
Proof. apply Zplus_mod_idemp_l. Qed.
Lemma wrap_add_r w a b : wrap w (a + wrap w b) = wrap w (a + b).
Proof. apply Zplus_mod_idemp_r. Qed.
Lemma wrap_sub_l w a b : wrap w (wrap w a - b) = wrap w (a - b).
Proof. apply Zminus_mod_idemp_l. Qed.
Lemma wrap_mul_l w a b : wrap w (wrap w a * b) = wrap w (a * b).
Proof. apply Zmult_mod_idemp_l. Qed.

#[export] Hint Rewrite wrap_wrap wrap_add_l wrap_add_r wrap_sub_l wrap_mul_l : wrap.
#[export] Hint Resolve wrap_range wrap_small : share.

Lemma wrap8_byte z : is_byte (u8 z).
Proof. by apply wrap_range. Qed.
#[export] Hint Resolve wrap8_byte : share.

(** [lia] with the defining equations of division and modulo. *)
Ltac mlia := Z.div_mod_to_equations; lia.

(** Unfold the integer ranges of the hypotheses and close with [lia]. *)
Ltac ranges := unfold is_bytes, is_byte, is_uint in *; change (2 ^ 8) with 256 in *;
  change (2 ^ 16) with 65536 in *; change (2 ^ 32) with 4294967296 in *;
  change (2 ^ 64) with 18446744073709551616 in *.
Ltac rlia := ranges; lia.

(** [lia] on the lengths of lists built from others. *)
Ltac llia := repeat rewrite ?length_app, ?length_take, ?length_drop, ?length_replicate,
  ?length_map, ?length_seq, ?length_reverse in *; cbn [length] in *; lia.

(** Closed byte strings. *)
Ltac byte_literal :=
  unfold is_bytes; repeat (apply List.Forall_cons; [split; [discriminate | reflexivity] |]);
  apply List.Forall_nil.

(** Case analysis on the boolean comparison that guards a branch. *)
Tactic Notation "case_cmp" "as" simple_intropattern(pat) :=
  match goal with
  | |- context [?a <? ?b] => destruct (Z.ltb_spec a b) as pat
  | |- context [?a <=? ?b] => destruct (Z.leb_spec a b) as pat
  | |- context [?a =? ?b] => destruct (Z.eqb_spec a b) as pat
  end.
Ltac case_cmp :=
  match goal with
  | |- context [?a <? ?b] => destruct (Z.ltb_spec a b)
  | |- context [?a <=? ?b] => destruct (Z.leb_spec a b)
  | |- context [?a =? ?b] => destruct (Z.eqb_spec a b)
  end.

(** ** Bits *)

Lemma land_range w a b : 0 <= w -> is_uint w a -> is_uint w (Z.land a b).
Proof.
  intros Hw [Ha1 Ha2]. split; [by apply Z.land_nonneg; left |].
  destruct (Z.eq_dec (Z.land a b) 0) as [->|Hne]; [lia |].
  assert (0 <= Z.land a b) by (apply Z.land_nonneg; by left).
  apply Z.log2_lt_pow2; [lia |].
  destruct (Z.eq_dec a 0) as [->|]; [by rewrite Z.land_0_l in Hne |].
  rewrite <- (Z.mod_small a (2 ^ w)) by lia. rewrite <- Z.land_ones by lia.
  rewrite <- Z.land_assoc, (Z.land_comm _ b), Z.land_assoc, Z.land_ones by lia.
  apply Z.log2_lt_pow2; [|apply Z.mod_pos_bound; lia].
  rewrite <- Z.land_ones by lia.
  rewrite <- Z.land_assoc, (Z.land_comm b), Z.land_assoc, Z.land_ones by lia.
  rewrite Z.mod_small by lia. lia.
Qed.

Lemma bits_above w a i : 0 <= w -> is_uint w a -> w <= i -> Z.testbit a i = false.
Proof.
  intros Hw [Ha1 Ha2] Hi.
  destruct (Z.eq_dec a 0) as [->|]; [apply Z.bits_0 |].
  apply Z.bits_above_log2; [done |].
  assert (Z.log2 a < w) by (apply Z.log2_lt_pow2; lia). lia.
Qed.

Lemma uint_of_bits w a :
  0 <= w -> 0 <= a -> (forall i, w <= i -> Z.testbit a i = false) -> is_uint w a.
Proof.
  intros Hw Ha Hbits. split; [done |].
  replace a with (a mod 2 ^ w); [apply Z.mod_pos_bound; lia |].
  apply Z.bits_inj'. intros i Hi. destruct (Z.lt_ge_cases i w).
  - by rewrite Z.mod_pow2_bits_low.
  - rewrite Z.mod_pow2_bits_high by lia. by rewrite Hbits.
Qed.

Lemma lxor_range w a b : 0 <= w -> is_uint w a -> is_uint w b -> is_uint w (Z.lxor a b).
Proof.
  intros Hw Ha Hb. apply uint_of_bits; [done | apply Z.lxor_nonneg; destruct Ha, Hb; lia |].
  intros i Hi. rewrite Z.lxor_spec, (bits_above w a), (bits_above w b); auto.
Qed.

Lemma lor_range w a b : 0 <= w -> is_uint w a -> is_uint w b -> is_uint w (Z.lor a b).
Proof.
  intros Hw Ha Hb. apply uint_of_bits; [done | apply Z.lor_nonneg; destruct Ha, Hb; lia |].
  intros i Hi. rewrite Z.lor_spec, (bits_above w a), (bits_above w b); auto.
Qed.

Lemma shiftr_range w a n : 0 <= w -> 0 <= n -> is_uint w a -> is_uint w (Z.shiftr a n).
Proof.
  intros Hw Hn [Ha1 Ha2]. split; [by apply Z.shiftr_nonneg |].
  rewrite Z.shiftr_div_pow2 by lia.
  assert (0 < 2 ^ n) by lia. apply Z.le_lt_trans with a; [|done].
  apply Z.div_le_upper_bound; nia.
Qed.
#[export] Hint Resolve land_range lxor_range lor_range shiftr_range : share.

(** Disjoint bit patterns: [lor] is addition. *)
Lemma lor_add a b n : 0 <= n -> is_uint n b -> Z.lor (Z.shiftl a n) b = a * 2 ^ n + b.
Proof.
  intros Hn [Hb1 Hb2]. rewrite <- Z.shiftl_mul_pow2 by done.
  symmetry. apply Z.bits_inj'. intros i Hi.
  rewrite Z.lor_spec, Z.shiftl_spec by done. rewrite Z.shiftl_mul_pow2 by done.
  destruct (Z.lt_ge_cases i n) as [Hlt|Hge].
  - rewrite (Z.testbit_neg_r a (i - n)) by lia. simpl.
    rewrite <- (Z.mod_pow2_bits_low _ n) by lia.
    rewrite Z.add_comm, Z.mod_add by lia. by rewrite Z.mod_small.
  - rewrite (bits_above n b i) by done. rewrite orb_false_r.
    replace i with ((i - n) + n) at 1 by lia.
    rewrite <- Z.div_pow2_bits by lia.
    rewrite Z.div_add_l, Z.div_small by lia. by rewrite Z.add_0_r.
Qed.

(** ** Little-endian images *)

Lemma length_le_bytes n z : length (le_bytes n z) = n.
Proof. revert z. induction n; intros; simpl; auto. Qed.

Lemma le_bytes_bytes n z : is_bytes (le_bytes n z).
Proof. revert z. induction n; intros; simpl; constructor; [apply Z.mod_pos_bound; lia | apply IHn]. Qed.

Lemma of_le_bytes n z : is_uint (8 * Z.of_nat n) z -> of_le (le_bytes n z) = z.
Proof.
  revert z. induction n as [|n IH]; intros z [H1 H2].
  - simpl in *. lia.
  - simpl. rewrite IH; [mlia |]. split; [mlia |].
    replace (8 * Z.of_nat (S n)) with (8 + 8 * Z.of_nat n) in H2 by lia.
    rewrite Z.pow_add_r in H2 by lia. apply Z.div_lt_upper_bound; lia.
Qed.

Lemma le_bytes_of_le l : is_bytes l -> le_bytes (length l) (of_le l) = l.
Proof.
  induction 1 as [|b l Hb Hl IH]; [done |]. simpl.
  assert (0 <= b < 256) by rlia.
  replace ((b + 256 * of_le l) mod 256) with b by mlia.
  replace ((b + 256 * of_le l) / 256) with (of_le l) by mlia. by rewrite IH.
Qed.

Lemma of_le_range l : is_bytes l -> is_uint (8 * Z.of_nat (length l)) (of_le l).
Proof.
  induction 1 as [|b l Hb Hl IH]; [by split |]. cbn [of_le length].
  replace (8 * Z.of_nat (S (length l))) with (8 + 8 * Z.of_nat (length l)) by lia.
  unfold is_byte, is_uint in *. rewrite Z.pow_add_r by lia. lia.
Qed.

Lemma le_bytes_inj n a b :
  is_uint (8 * Z.of_nat n) a -> is_uint (8 * Z.of_nat n) b ->
  le_bytes n a = le_bytes n b -> a = b.
Proof. intros Ha Hb H. rewrite <- (of_le_bytes n a), <- (of_le_bytes n b) by done. by rewrite H. Qed.

Lemma le_bytes_app n m a b :
  is_uint (8 * Z.of_nat n) a ->
  le_bytes (n + m) (a + 2 ^ (8 * Z.of_nat n) * b) = le_bytes n a ++ le_bytes m b.
Proof.
  revert a. induction n as [|n IH]; intros a [H1 H2].
  - simpl in *. f_equal. lia.
  - replace (8 * Z.of_nat (S n)) with (8 + 8 * Z.of_nat n) in * by lia.
    rewrite Z.pow_add_r in * by lia. change (2 ^ 8) with 256 in *. cbn [Nat.add le_bytes app].
    set (p := 2 ^ (8 * Z.of_nat n)) in *.
    replace ((a + 256 * p * b) mod 256) with (a mod 256) by (rewrite <- Z.mul_assoc; mlia).
    replace ((a + 256 * p * b) / 256) with (a / 256 + p * b)
      by (rewrite <- Z.mul_assoc; generalize (p * b); intros; mlia).
    f_equal. apply IH. split; [mlia |]. apply Z.div_lt_upper_bound; lia.
Qed.

Lemma le_bytes_4 x : le_bytes 4 x = [u8 x; u8 (Z.shiftr x 8); u8 (Z.shiftr x 16); u8 (Z.shiftr x 24)].
Proof.
  unfold wrap. rewrite !Z.shiftr_div_pow2 by lia. cbn [le_bytes].
  by rewrite !Z.div_div by lia.
Qed.

(** Byte order conversions reverse the bytes, twice is no change. *)
Lemma of_le_reverse_range n z : is_uint (8 * Z.of_nat n) (of_le (reverse (le_bytes n z))).
Proof.
  pose proof (of_le_range (reverse (le_bytes n z))) as Hr. rewrite length_reverse, length_le_bytes in Hr.
  apply Hr. apply Forall_reverse, le_bytes_bytes.
Qed.

Lemma le_bytes_reverse n z : le_bytes n (of_le (reverse (le_bytes n z))) = reverse (le_bytes n z).
Proof.
  pose proof (le_bytes_of_le (reverse (le_bytes n z))) as Hr. rewrite length_reverse, length_le_bytes in Hr.
  apply Hr. apply Forall_reverse, le_bytes_bytes.
Qed.

Lemma htons_range z : is_uint 16 (htons z).
Proof. apply (of_le_reverse_range 2). Qed.

Lemma htonl_range z : is_uint 32 (htonl z).
Proof. apply (of_le_reverse_range 4). Qed.

Lemma le_bytes_htonl z : le_bytes 4 (htonl z) = reverse (le_bytes 4 z).
Proof. apply le_bytes_reverse. Qed.

Lemma htonl_involutive z : is_uint 32 z -> htonl (htonl z) = z.
Proof. intros H. unfold htonl at 1. rewrite le_bytes_htonl, reverse_involutive. by apply of_le_bytes. Qed.

#[export] Hint Rewrite length_le_bytes : len.
#[export] Hint Resolve le_bytes_bytes of_le_range : share.

(** ** Memory blocks *)

Lemma mem_write_ok dst off src :
  (off + length src <= length dst)%nat ->
  mem_write dst off src = Done (take off dst ++ src ++ drop (off + length src) dst).
Proof. intros. unfold mem_write. by rewrite decide_True. Qed.

Lemma mem_write_length dst off src dst' :
  mem_write dst off src = Done dst' -> length dst' = length dst.
Proof.
  unfold mem_write. case_decide; [|done]. intros [= <-].
  rewrite !length_app, length_take, length_drop. lia.
Qed.

Lemma mem_read_ok src off n :
  (off + n <= length src)%nat -> mem_read src off n = Done (take n (drop off src)).
Proof. intros. unfold mem_read. by rewrite decide_True. Qed.

Lemma is_bytes_app l k : is_bytes (l ++ k) <-> is_bytes l /\ is_bytes k.
Proof. apply Forall_app. Qed.
