(* ===== verification/ShCsum.v ===== *)
(** * Checksums: CRC-32 and Adler-32

    Models [share-lib/mem/shmem_csum.c] and the table of
    [share-lib/mem/shmem_csum.h] in the configuration the library is built in
    ([Z_U4] is not defined where the file is compiled, so [BYFOUR] is off and
    [TBLS] is 1).  [unsigned long] is 64 bits wide.

    Module [Crc32] relates the table-driven, eight-fold unrolled loop to the
    bit-serial definition of the CRC and shows that [shcsum_crc32_combine]
    computes the checksum of a concatenation; module [Adler32] does the same
    for the deferred-modulo loops of Adler-32. *)

From Stdlib Require Import ZArith Lia.
From stdpp Require Import base numbers list.
From S2P Require Import Prelude.

Open Scope Z_scope.

Module Crc32.

(** The polynomial, reflected. *)
Definition CRC_POLY : Z := 0xedb88320.

Definition crc_table : list Z := [
  0x00000000; 0x77073096; 0xee0e612c; 0x990951ba;
  0x076dc419; 0x706af48f; 0xe963a535; 0x9e6495a3;
  0x0edb8832; 0x79dcb8a4; 0xe0d5e91e; 0x97d2d988;
  0x09b64c2b; 0x7eb17cbd; 0xe7b82d07; 0x90bf1d91;
  0x1db71064; 0x6ab020f2; 0xf3b97148; 0x84be41de;
  0x1adad47d; 0x6ddde4eb; 0xf4d4b551; 0x83d385c7;
  0x136c9856; 0x646ba8c0; 0xfd62f97a; 0x8a65c9ec;
  0x14015c4f; 0x63066cd9; 0xfa0f3d63; 0x8d080df5;
  0x3b6e20c8; 0x4c69105e; 0xd56041e4; 0xa2677172;
  0x3c03e4d1; 0x4b04d447; 0xd20d85fd; 0xa50ab56b;
  0x35b5a8fa; 0x42b2986c; 0xdbbbc9d6; 0xacbcf940;
  0x32d86ce3; 0x45df5c75; 0xdcd60dcf; 0xabd13d59;
  0x26d930ac; 0x51de003a; 0xc8d75180; 0xbfd06116;
  0x21b4f4b5; 0x56b3c423; 0xcfba9599; 0xb8bda50f;
  0x2802b89e; 0x5f058808; 0xc60cd9b2; 0xb10be924;
  0x2f6f7c87; 0x58684c11; 0xc1611dab; 0xb6662d3d;
  0x76dc4190; 0x01db7106; 0x98d220bc; 0xefd5102a;
  0x71b18589; 0x06b6b51f; 0x9fbfe4a5; 0xe8b8d433;
  0x7807c9a2; 0x0f00f934; 0x9609a88e; 0xe10e9818;
  0x7f6a0dbb; 0x086d3d2d; 0x91646c97; 0xe6635c01;
  0x6b6b51f4; 0x1c6c6162; 0x856530d8; 0xf262004e;
  0x6c0695ed; 0x1b01a57b; 0x8208f4c1; 0xf50fc457;
  0x65b0d9c6; 0x12b7e950; 0x8bbeb8ea; 0xfcb9887c;
  0x62dd1ddf; 0x15da2d49; 0x8cd37cf3; 0xfbd44c65;
  0x4db26158; 0x3ab551ce; 0xa3bc0074; 0xd4bb30e2;
  0x4adfa541; 0x3dd895d7; 0xa4d1c46d; 0xd3d6f4fb;
  0x4369e96a; 0x346ed9fc; 0xad678846; 0xda60b8d0;
  0x44042d73; 0x33031de5; 0xaa0a4c5f; 0xdd0d7cc9;
  0x5005713c; 0x270241aa; 0xbe0b1010; 0xc90c2086;
  0x5768b525; 0x206f85b3; 0xb966d409; 0xce61e49f;
  0x5edef90e; 0x29d9c998; 0xb0d09822; 0xc7d7a8b4;
  0x59b33d17; 0x2eb40d81; 0xb7bd5c3b; 0xc0ba6cad;
  0xedb88320; 0x9abfb3b6; 0x03b6e20c; 0x74b1d29a;
  0xead54739; 0x9dd277af; 0x04db2615; 0x73dc1683;
  0xe3630b12; 0x94643b84; 0x0d6d6a3e; 0x7a6a5aa8;
  0xe40ecf0b; 0x9309ff9d; 0x0a00ae27; 0x7d079eb1;
  0xf00f9344; 0x8708a3d2; 0x1e01f268; 0x6906c2fe;
  0xf762575d; 0x806567cb; 0x196c3671; 0x6e6b06e7;
  0xfed41b76; 0x89d32be0; 0x10da7a5a; 0x67dd4acc;
  0xf9b9df6f; 0x8ebeeff9; 0x17b7be43; 0x60b08ed5;
  0xd6d6a3e8; 0xa1d1937e; 0x38d8c2c4; 0x4fdff252;
  0xd1bb67f1; 0xa6bc5767; 0x3fb506dd; 0x48b2364b;
  0xd80d2bda; 0xaf0a1b4c; 0x36034af6; 0x41047a60;
  0xdf60efc3; 0xa867df55; 0x316e8eef; 0x4669be79;
  0xcb61b38c; 0xbc66831a; 0x256fd2a0; 0x5268e236;
  0xcc0c7795; 0xbb0b4703; 0x220216b9; 0x5505262f;
  0xc5ba3bbe; 0xb2bd0b28; 0x2bb45a92; 0x5cb36a04;
  0xc2d7ffa7; 0xb5d0cf31; 0x2cd99e8b; 0x5bdeae1d;
  0x9b64c2b0; 0xec63f226; 0x756aa39c; 0x026d930a;
  0x9c0906a9; 0xeb0e363f; 0x72076785; 0x05005713;
  0x95bf4a82; 0xe2b87a14; 0x7bb12bae; 0x0cb61b38;
  0x92d28e9b; 0xe5d5be0d; 0x7cdcefb7; 0x0bdbdf21;
  0x86d3d2d4; 0xf1d4e242; 0x68ddb3f8; 0x1fda836e;
  0x81be16cd; 0xf6b9265b; 0x6fb077e1; 0x18b74777;
  0x88085ae6; 0xff0f6a70; 0x66063bca; 0x11010b5c;
  0x8f659eff; 0xf862ae69; 0x616bffd3; 0x166ccf45;
  0xa00ae278; 0xd70dd2ee; 0x4e048354; 0x3903b3c2;
  0xa7672661; 0xd06016f7; 0x4969474d; 0x3e6e77db;
  0xaed16a4a; 0xd9d65adc; 0x40df0b66; 0x37d83bf0;
  0xa9bcae53; 0xdebb9ec5; 0x47b2cf7f; 0x30b5ffe9;
  0xbdbdf21c; 0xcabac28a; 0x53b39330; 0x24b4a3a6;
  0xbad03605; 0xcdd70693; 0x54de5729; 0x23d967bf;
  0xb3667a2e; 0xc4614ab8; 0x5d681b02; 0x2a6f2b94;
  0xb40bbe37; 0xc30c8ea1; 0x5a05df1b; 0x2d02ef8d].

(** ** The code *)

(** [DO1]: fold one byte into the running checksum. *)
Definition DO1 (crc b : Z) : Z :=
  Z.lxor (nth (Z.to_nat (Z.land (Z.lxor crc b) 0xff)) crc_table 0) (Z.shiftr crc 8).

(** [while (len >= 8) { DO8; len -= 8; }] followed by the [DO1] tail, where
    [DO8] is eight [DO1] in a row. *)
Section unrolled.
Variable DO1 : Z -> Z -> Z.

Fixpoint unrolled_loop (crc : Z) (buf : bytes) : Z :=
  match buf with
  | b0 :: b1 :: b2 :: b3 :: b4 :: b5 :: b6 :: b7 :: rest =>
      unrolled_loop (DO1 (DO1 (DO1 (DO1 (DO1 (DO1 (DO1 (DO1 crc b0) b1) b2) b3) b4) b5) b6) b7) rest
  | tail => fold_left DO1 tail crc
  end.

Lemma unrolled_loop_fold n crc buf :
  (length buf <= n)%nat -> unrolled_loop crc buf = fold_left DO1 buf crc.
Proof.
  revert crc buf. induction n as [|n IH]; intros crc buf Hn; [by destruct buf; simpl in Hn; [|lia] |].
  do 8 (destruct buf as [|? buf]; [done |]). cbn [unrolled_loop fold_left]. apply IH. simpl in Hn. lia.
Qed.
End unrolled.

Definition crc_loop (crc : Z) (buf : bytes) : Z := unrolled_loop DO1 crc buf.

(** [buf] is [None] for a NULL pointer; the length is the buffer's. *)
Definition shcsum_crc32 (crc : Z) (buf : option bytes) : Z :=
  match buf with
  | None => 0
  | Some data => Z.lxor (crc_loop (Z.lxor crc 0xffffffff) data) 0xffffffff
  end.

Definition GF2_DIM : nat := 32.

(** [while (vec) { if (vec & 1) sum ^= *mat; vec >>= 1; mat++; }]: reading past
    the last row of the matrix is a fault. *)
Fixpoint gf2_times_loop (mat : list Z) (vec sum : Z) : outcome Z :=
  if vec =? 0 then Done sum
  else match mat with
       | [] => Fault
       | row :: mat' =>
           gf2_times_loop mat' (Z.shiftr vec 1)
             (if Z.land vec 1 =? 0 then sum else Z.lxor sum row)
       end.

Definition gf2_matrix_times (mat : list Z) (vec : Z) : outcome Z :=
  gf2_times_loop mat vec 0.

(** [square[n] = gf2_matrix_times(mat, mat[n])] for every row. *)
Fixpoint gf2_square_rows (mat rows : list Z) : outcome (list Z) :=
  match rows with
  | [] => Done []
  | r :: rows' =>
      x <-! gf2_matrix_times mat r;
      xs <-! gf2_square_rows mat rows';
      Done (x :: xs)
  end.

Definition gf2_matrix_square (mat : list Z) : outcome (list Z) :=
  gf2_square_rows mat mat.

(** The operator for one zero bit: [odd[0]] is the polynomial and row [n] is
    [1 << (n-1)]. *)
Definition crc_odd_init : list Z :=
  CRC_POLY :: map (fun n => Z.shiftl 1 (Z.of_nat n)) (seq 0 31).

(** [if (len2 & 1) crc1 = gf2_matrix_times(mat, crc1);] *)
Definition apply_bit (mat : list Z) (len2 crc1 : Z) : outcome Z :=
  if Z.land len2 1 =? 0 then Done crc1 else gf2_matrix_times mat crc1.

(** The do-while loop, one round per fuel unit; a round consumes two bits of
    [len2], so 32 rounds suffice for a 64-bit length. *)
Fixpoint combine_loop (fuel : nat) (odd : list Z) (crc1 len2 : Z) : outcome Z :=
  match fuel with
  | O => Fault
  | S fuel' =>
      even <-! gf2_matrix_square odd;
      crc1 <-! apply_bit even len2 crc1;
      (let len2 := Z.shiftr len2 1 in
       if len2 =? 0 then Done crc1
       else
         odd <-! gf2_matrix_square even;
         crc1 <-! apply_bit odd len2 crc1;
         (let len2 := Z.shiftr len2 1 in
          if len2 =? 0 then Done crc1
          else combine_loop fuel' odd crc1 len2))
  end.

Definition crc32_combine_ (crc1 crc2 len2 : Z) : outcome Z :=
  if len2 <=? 0 then Done crc1
  else
    even <-! gf2_matrix_square crc_odd_init;
    odd <-! gf2_matrix_square even;
    crc1 <-! combine_loop 33 odd crc1 len2;
    Done (Z.lxor crc1 crc2).

Definition shcsum_crc32_combine (crc1 crc2 len2 : Z) : outcome Z :=
  crc32_combine_ crc1 crc2 len2.

(** ** Specification: the bit-serial CRC *)

Definition crc_bit (c : Z) : Z :=
  if Z.testbit c 0 then Z.lxor (Z.shiftr c 1) CRC_POLY else Z.shiftr c 1.

Definition crc_byte_ref (c b : Z) : Z := Nat.iter 8 crc_bit (Z.lxor c b).

Definition crc32_ref (crc : Z) (data : bytes) : Z :=
  Z.lxor (fold_left crc_byte_ref data (Z.lxor crc 0xffffffff)) 0xffffffff.

(** ** Linearity of the bit step over GF(2) *)

Definition linear (f : Z -> Z) : Prop := forall a b, f (Z.lxor a b) = Z.lxor (f a) (f b).
Definition closed32 (f : Z -> Z) : Prop := forall a, is_uint 32 a -> is_uint 32 (f a).

Lemma crc_bit_linear : linear crc_bit.
Proof.
  intros a b. unfold crc_bit. rewrite Z.lxor_spec, Z.shiftr_lxor.
  destruct (Z.testbit a 0), (Z.testbit b 0); simpl;
    apply Z.bits_inj'; intros i Hi; rewrite !Z.lxor_spec;
    destruct (Z.testbit (Z.shiftr a 1) i), (Z.testbit (Z.shiftr b 1) i), (Z.testbit CRC_POLY i); done.
Qed.

Lemma crc_bit_closed : closed32 crc_bit.
Proof.
  intros a Ha. unfold crc_bit. destruct (Z.testbit a 0); auto 10 with share lia.
  apply lxor_range; [lia | by apply shiftr_range | by vm_compute].
Qed.

Lemma iter_linear f n : linear f -> linear (Nat.iter n f).
Proof. intros Hf a b. induction n as [|n IH]; simpl; [done | by rewrite IH, Hf]. Qed.

Lemma iter_closed f n : closed32 f -> closed32 (Nat.iter n f).
Proof. intros Hf a Ha. induction n; simpl; auto. Qed.

Lemma linear_0 f : linear f -> f 0 = 0.
Proof. intros Hf. pose proof (Hf 0 0) as H. rewrite Z.lxor_0_l in H.
  by rewrite H, Z.lxor_nilpotent. Qed.

(** Eight bit steps on a value with a clear low byte only shift it. *)
Lemma iter_crc_bit_shift n c :
  (forall i, 0 <= i < Z.of_nat n -> Z.testbit c i = false) ->
  Nat.iter n crc_bit c = Z.shiftr c (Z.of_nat n).
Proof.
  induction n as [|n IH]; intros Hc; [done |]. rewrite Nat.iter_succ.
  rewrite IH by (intros; apply Hc; lia). unfold crc_bit.
  rewrite Z.shiftr_spec, Hc by lia. rewrite Z.shiftr_shiftr by lia. f_equal. lia.
Qed.

(** Every entry of the table is eight bit steps of its index. *)
Lemma crc_table_spec i :
  0 <= i < 256 -> nth (Z.to_nat i) crc_table 0 = Nat.iter 8 crc_bit i.
Proof.
  intros Hi.
  assert (forallb (fun k => nth k crc_table 0 =? Nat.iter 8 crc_bit (Z.of_nat k)) (seq 0 256) = true)
    as H by (vm_compute; reflexivity).
  rewrite forallb_forall in H. specialize (H (Z.to_nat i)). rewrite Z.eqb_eq, Z2Nat.id in H by lia.
  apply H. apply in_seq. lia.
Qed.

Lemma split_low_byte x : x = Z.lxor (Z.land x 0xff) (Z.shiftl (Z.shiftr x 8) 8).
Proof.
  apply Z.bits_inj'. intros i Hi.
  rewrite Z.lxor_spec, Z.land_spec, Z.shiftl_spec by lia. change 255 with (Z.ones 8).
  destruct (Z.lt_ge_cases i 8).
  - rewrite Z.ones_spec_low, (Z.testbit_neg_r _ (i - 8)) by lia. by rewrite andb_true_r, xorb_false_r.
  - rewrite Z.ones_spec_high, Z.shiftr_spec by lia. rewrite andb_false_r, xorb_false_l. f_equal. lia.
Qed.

Lemma DO1_ref c b : is_byte b -> DO1 c b = crc_byte_ref c b.
Proof.
  intros Hb. unfold crc_byte_ref, DO1.
  rewrite (split_low_byte (Z.lxor c b)) at 2. rewrite (iter_linear _ 8 crc_bit_linear).
  rewrite <- crc_table_spec.
  2:{ change 255 with (Z.ones 8). rewrite Z.land_ones by lia. apply Z.mod_pos_bound. lia. }
  f_equal. rewrite iter_crc_bit_shift.
  2:{ intros i Hi. rewrite Z.shiftl_spec_low by lia. done. }
  change (Z.of_nat 8) with 8.
  rewrite Z.shiftr_shiftl_l, Z.sub_diag, Z.shiftl_0_r, Z.shiftr_lxor by lia.
  replace (Z.shiftr b 8) with 0; [by rewrite Z.lxor_0_r |].
  rewrite Z.shiftr_div_pow2 by lia. symmetry. apply Z.div_small. apply Hb.
Qed.

Lemma fold_DO1_ref crc buf : is_bytes buf -> fold_left DO1 buf crc = fold_left crc_byte_ref buf crc.
Proof. intros H. revert crc. induction H; intros; simpl; [done |]. rewrite DO1_ref by done. auto. Qed.

Lemma shcsum_crc32_ref crc data :
  is_bytes data -> shcsum_crc32 crc (Some data) = crc32_ref crc data.
Proof.
  intros. unfold shcsum_crc32, crc32_ref, crc_loop.
  by rewrite (unrolled_loop_fold _ (length data)), fold_DO1_ref.
Qed.

(** ** The GF(2) matrix routines *)

(** The matrix of a linear map on 32-bit vectors: row [n] is the image of bit [n]. *)
Definition matrix (f : Z -> Z) : list Z := map (fun n => f (2 ^ Z.of_nat n)) (seq 0 GF2_DIM).

Lemma split_low_bit x : x = Z.lxor (Z.land x 1) (Z.shiftl (Z.shiftr x 1) 1).
Proof.
  apply Z.bits_inj'. intros i Hi.
  rewrite Z.lxor_spec, Z.land_spec, Z.shiftl_spec by lia. change 1 with (Z.ones 1) at 1.
  destruct (Z.lt_ge_cases i 1).
  - rewrite Z.ones_spec_low, (Z.testbit_neg_r _ (i - 1)) by lia. by rewrite andb_true_r, xorb_false_r.
  - rewrite Z.ones_spec_high, Z.shiftr_spec by lia. rewrite andb_false_r, xorb_false_l. f_equal. lia.
Qed.

Lemma shiftl_lxor x y n : Z.shiftl (Z.lxor x y) n = Z.lxor (Z.shiftl x n) (Z.shiftl y n).
Proof. apply Z.shiftl_lxor. Qed.

Lemma gf2_times_loop_spec f k off vec sum :
  linear f -> 0 <= vec < 2 ^ Z.of_nat k ->
  gf2_times_loop (map (fun n => f (2 ^ Z.of_nat n)) (seq off k)) vec sum
  = Done (Z.lxor sum (f (Z.shiftl vec (Z.of_nat off)))).
Proof.
  intros Hf. revert off vec sum. induction k as [|k IH]; intros off vec sum Hv.
  - assert (vec = 0) as -> by (simpl in Hv; lia). simpl.
    by rewrite Z.shiftl_0_l, (linear_0 f Hf), Z.lxor_0_r.
  - cbn [seq map gf2_times_loop]. case_cmp; [subst; by rewrite Z.shiftl_0_l, (linear_0 f Hf), Z.lxor_0_r |].
    rewrite IH.
    2:{ rewrite Z.shiftr_div_pow2 by lia. change (2 ^ 1) with 2.
        rewrite Nat2Z.inj_succ, Z.pow_succ_r in Hv by lia.
        split; [apply Z.div_pos; lia | apply Z.div_lt_upper_bound; lia]. }
    assert (f (Z.shiftl vec (Z.of_nat off)) =
            Z.lxor (f (Z.shiftl (Z.land vec 1) (Z.of_nat off)))
                   (f (Z.shiftl (Z.shiftr vec 1) (Z.of_nat (S off))))) as ->.
    { rewrite <- Hf. f_equal. rewrite (split_low_bit vec) at 1.
      rewrite Z.shiftl_lxor, Z.shiftl_shiftl by lia. do 2 f_equal. lia. }
    assert (Z.land vec 1 = 0 \/ Z.land vec 1 = 1) as [->| ->].
    { change 1 with (Z.ones 1). rewrite Z.land_ones by lia. change (2 ^ 1) with 2.
      change (Z.ones 1) with 1. mlia. }
    + simpl. by rewrite Z.shiftl_0_l, (linear_0 f Hf), Z.lxor_0_l.
    + simpl. rewrite Z.shiftl_1_l. by rewrite <- Z.lxor_assoc.
Qed.

Lemma gf2_matrix_times_spec f v :
  linear f -> is_uint 32 v -> gf2_matrix_times (matrix f) v = Done (f v).
Proof.
  intros Hf Hv. unfold gf2_matrix_times, matrix.
  rewrite gf2_times_loop_spec by done. simpl. by rewrite Z.shiftl_0_r.
Qed.

Lemma gf2_matrix_square_spec f :
  linear f -> closed32 f -> gf2_matrix_square (matrix f) = Done (matrix (fun x => f (f x))).
Proof.
  intros Hf Hc. unfold gf2_matrix_square.
  assert (forall l, (forall n, In n l -> (n < 32)%nat) ->
    gf2_square_rows (matrix f) (map (fun n => f (2 ^ Z.of_nat n)) l)
    = Done (map (fun n => f (f (2 ^ Z.of_nat n))) l)) as H.
  { induction l as [|n l IH]; intros Hl; [done |]. cbn [map gf2_square_rows].
    rewrite gf2_matrix_times_spec; [|done|].
    - simpl. rewrite IH; [done |]. intros; apply Hl; by right.
    - apply Hc. split; [lia |]. apply Z.pow_lt_mono_r; try lia. specialize (Hl n (or_introl eq_refl)). lia. }
  apply H. intros n Hn. apply in_seq in Hn. unfold GF2_DIM in Hn. lia.
Qed.

(** [n] zero bits fed to the checksum register. *)
Definition zeros (n : nat) : Z -> Z := Nat.iter n crc_bit.

Lemma zeros_linear n : linear (zeros n).
Proof. apply iter_linear, crc_bit_linear. Qed.
Lemma zeros_closed n : closed32 (zeros n).
Proof. apply iter_closed, crc_bit_closed. Qed.
Lemma zeros_add n m x : zeros (n + m) x = zeros n (zeros m x).
Proof. apply Nat.iter_add. Qed.
#[local] Hint Resolve zeros_linear zeros_closed : share.

Lemma square_zeros n : gf2_matrix_square (matrix (zeros n)) = Done (matrix (zeros (n + n))).
Proof.
  rewrite gf2_matrix_square_spec by auto with share. f_equal. unfold matrix. apply map_ext.
  intros. by rewrite zeros_add.
Qed.

Lemma apply_bit_zeros n len2 c :
  is_uint 32 c -> apply_bit (matrix (zeros n)) len2 c = Done (zeros (n * Z.to_nat (len2 mod 2)) c).
Proof.
  intros Hc. unfold apply_bit. change 1 with (Z.ones 1). rewrite Z.land_ones by lia. change (2 ^ 1) with 2.
  assert (len2 mod 2 = 0 \/ len2 mod 2 = 1) as [->| ->] by mlia; simpl.
  - by rewrite Nat.mul_0_r.
  - rewrite gf2_matrix_times_spec by auto with share. by rewrite Nat.mul_1_r.
Qed.

Lemma zeros_shift n c len2 :
  0 <= len2 ->
  zeros ((n + n) * Z.to_nat (len2 / 2)) (zeros (n * Z.to_nat (len2 mod 2)) c) = zeros (n * Z.to_nat len2) c.
Proof.
  intros H. rewrite <- zeros_add. f_equal. rewrite (Z.div_mod len2 2) at 3 by lia.
  rewrite Z2Nat.inj_add, Z2Nat.inj_mul by mlia. change (Z.to_nat 2) with 2%nat. lia.
Qed.

Lemma combine_loop_spec fuel n c len2 :
  is_uint 32 c -> 0 < len2 < 4 ^ Z.of_nat fuel ->
  combine_loop fuel (matrix (zeros n)) c len2 = Done (zeros ((n + n) * Z.to_nat len2) c).
Proof.
  revert n c len2. induction fuel as [|fuel IH]; intros n c len2 Hc Hl; [simpl in Hl; lia |].
  cbn [combine_loop]. rewrite square_zeros. cbn [obind].
  rewrite apply_bit_zeros by done. cbn [obind].
  rewrite (Z.shiftr_div_pow2 len2) by lia. change (2 ^ 1) with 2.
  rewrite Nat2Z.inj_succ, Z.pow_succ_r in Hl by lia.
  rewrite <- (zeros_shift _ c len2) by lia.
  set (c1 := zeros _ c). assert (is_uint 32 c1) by by apply zeros_closed.
  case_cmp as [E|E]; [by rewrite E, Nat.mul_0_r |].
  rewrite square_zeros. cbn [obind]. rewrite apply_bit_zeros by done. cbn [obind].
  rewrite (Z.shiftr_div_pow2 (len2 / 2)) by lia. change (2 ^ 1) with 2.
  rewrite <- (zeros_shift _ c1 (len2 / 2)) by mlia.
  set (c2 := zeros _ c1). assert (is_uint 32 c2) by by apply zeros_closed.
  case_cmp as [E'|E']; [by rewrite E', Nat.mul_0_r |].
  rewrite IH; [done | done | mlia].
Qed.

(** ** Folding data is affine in the register *)

Lemma crc_byte_affine c b : crc_byte_ref c b = Z.lxor (zeros 8 c) (crc_byte_ref 0 b).
Proof. unfold crc_byte_ref. rewrite Z.lxor_0_l. apply (zeros_linear 8). Qed.

Lemma fold_affine data c :
  fold_left crc_byte_ref data c
  = Z.lxor (zeros (8 * length data) c) (fold_left crc_byte_ref data 0).
Proof.
  revert c. induction data as [|b data IH] using rev_ind; intros c; [by rewrite Z.lxor_0_r |].
  rewrite !fold_left_app. cbn [fold_left]. rewrite IH, crc_byte_affine, zeros_linear.
  rewrite (crc_byte_affine (fold_left _ _ 0)), Z.lxor_assoc. f_equal.
  rewrite <- zeros_add. f_equal. rewrite length_app. simpl. lia.
Qed.

Lemma fold_closed data c :
  is_bytes data -> is_uint 32 c -> is_uint 32 (fold_left crc_byte_ref data c).
Proof.
  intros H. revert c. induction H as [|b data Hb H IH]; intros c Hc; [done |]. simpl. apply IH.
  unfold crc_byte_ref. apply (zeros_closed 8), lxor_range; [lia | done | rlia].
Qed.

Lemma crc32_ref_range data : is_bytes data -> is_uint 32 (crc32_ref 0 data).
Proof.
  intros. unfold crc32_ref. apply lxor_range; [lia | | by vm_compute].
  apply fold_closed; [done | by vm_compute].
Qed.

Lemma crc32_ref_app a b :
  crc32_ref 0 (a ++ b) = Z.lxor (zeros (8 * length b) (crc32_ref 0 a)) (crc32_ref 0 b).
Proof.
  unfold crc32_ref. rewrite Z.lxor_0_l, fold_left_app.
  set (ones := 0xffffffff). set (s := fold_left crc_byte_ref a ones).
  rewrite (fold_affine b s), (fold_affine b ones), zeros_linear.
  set (k := fold_left crc_byte_ref b 0). set (zo := zeros (8 * length b) ones).
  rewrite !Z.lxor_assoc. f_equal. rewrite <- !Z.lxor_assoc, Z.lxor_nilpotent, Z.lxor_0_l. done.
Qed.

(** ** Properties *)

(** the table-driven, unrolled [shcsum_crc32] computes the bit-serial
    CRC-32 (reflected polynomial 0xedb88320, complemented register) of any
    byte string from any running checksum. *)
Theorem shcsum_crc32_correct crc data :
  is_bytes data -> shcsum_crc32 crc (Some data) = crc32_ref crc data.
Proof. apply shcsum_crc32_ref. Qed.

Lemma shcsum_crc32_correct_witness :
  is_bytes [0x31; 0x32; 0x33; 0x34; 0x35; 0x36; 0x37; 0x38; 0x39] /\
  crc32_ref 0 [0x31; 0x32; 0x33; 0x34; 0x35; 0x36; 0x37; 0x38; 0x39] = 0xcbf43926 /\
  shcsum_crc32 0 (Some [0x31; 0x32; 0x33; 0x34; 0x35; 0x36; 0x37; 0x38; 0x39])
  = crc32_ref 0 [0x31; 0x32; 0x33; 0x34; 0x35; 0x36; 0x37; 0x38; 0x39].
Proof.
  split; [byte_literal | split; [vm_compute; reflexivity |]].
  apply shcsum_crc32_correct. byte_literal.
Defined.

(** C12: [shcsum_crc32_combine] of the checksums of two strings and the second
    one's length terminates without reading outside its matrices and yields the
    checksum of the concatenation, for every 64-bit length. *)
Theorem shcsum_crc32_combine_correct a b :
  is_bytes a -> is_bytes b -> is_uint 64 (Z.of_nat (length b)) ->
  shcsum_crc32_combine (shcsum_crc32 0 (Some a)) (shcsum_crc32 0 (Some b)) (Z.of_nat (length b))
  = Done (shcsum_crc32 0 (Some (a ++ b))).
Proof.
  intros Ha Hb Hl. rewrite !shcsum_crc32_ref by (try apply is_bytes_app; done).
  rewrite crc32_ref_app. unfold shcsum_crc32_combine, crc32_combine_. case_cmp.
  - assert (b = []) as -> by (destruct b; simpl in *; [done | lia]). simpl.
    by rewrite (eq_refl : crc32_ref 0 [] = 0), Z.lxor_0_r.
  - change crc_odd_init with (matrix (zeros 1)). rewrite !square_zeros. cbn [obind Nat.add].
    rewrite square_zeros. cbn [obind Nat.add].
    rewrite combine_loop_spec; [|by apply crc32_ref_range|].
    + cbn [obind Nat.add]. by rewrite Nat2Z.id.
    + split; [done |]. destruct Hl. change (4 ^ Z.of_nat 33) with (2 ^ 66). ranges. lia.
Qed.

Lemma shcsum_crc32_combine_correct_witness :
  shcsum_crc32_combine (shcsum_crc32 0 (Some [1; 2; 3])) (shcsum_crc32 0 (Some [4; 5])) 2
  = Done (shcsum_crc32 0 (Some [1; 2; 3; 4; 5])).
Proof. apply (shcsum_crc32_combine_correct [1; 2; 3] [4; 5]); [byte_literal | byte_literal | by split]. Defined.

End Crc32.

Module Adler32.

Definition BASE : Z := 65521.
Definition NMAX : nat := Z.to_nat 5552.

(** ** The code *)

(** The running pair: [adler] is a [uint32_t], [sum2] an [unsigned long]. *)
Definition sums : Type := Z * Z.

(** [DO1(buf,i)]: [adler += buf[i]; sum2 += adler;] *)
Definition DO1 (st : sums) (b : Z) : sums :=
  let '(adler, sum2) := st in
  let adler := u32 (adler + b) in
  (adler, u64 (sum2 + adler)).

(** [DO16(buf)]: sixteen [DO1] unrolled. *)
Definition DO16 (st : sums) (buf : bytes) : sums := fold_left DO1 (take 16 buf) st.

(** [n] times [DO16(buf); buf += 16;] *)
Fixpoint do16_loop (n : nat) (st : sums) (buf : bytes) : sums :=
  match n with
  | O => st
  | S n' => do16_loop n' (DO16 st buf) (drop 16 buf)
  end.

(** [while (len >= k) { body; buf += k; len -= k; }] *)
Fixpoint chunk_loop (k : nat) (body : sums -> bytes -> sums) (fuel : nat)
    (st : sums) (buf : bytes) : outcome (sums * bytes) :=
  if decide (length buf < k)%nat then Done (st, buf)
  else match fuel with
       | O => Fault
       | S fuel' => chunk_loop k body fuel' (body st (take k buf)) (drop k buf)
       end.

(** One block of [NMAX] bytes: 347 rounds of [DO16], then both modulos. *)
Definition nmax_block (st : sums) (buf : bytes) : sums :=
  let '(adler, sum2) := do16_loop (NMAX / 16) st buf in
  (adler mod BASE, sum2 mod BASE).

Definition adler_pack (st : sums) : Z := u32 (Z.lor (fst st) (Z.shiftl (snd st) 16)).

(** [buf] is [None] for a NULL pointer; [len] bytes of it are read. *)
Definition shcsum_adler32 (adler : Z) (buf : option bytes) (len : nat) : outcome Z :=
  let sum2 := Z.land (Z.shiftr adler 16) 0xffff in
  let adler := Z.land adler 0xffff in
  if decide (len = 1)%nat then
    match buf with
    | Some (b :: _) =>
        let adler := u32 (adler + b) in
        let adler := if BASE <=? adler then adler - BASE else adler in
        let sum2 := sum2 + adler in
        let sum2 := if BASE <=? sum2 then sum2 - BASE else sum2 in
        Done (adler_pack (adler, sum2))
    | _ => Fault
    end
  else
    match buf with
    | None => Done 1
    | Some data =>
        data <-! mem_read data 0 len;
        if decide (len < 16)%nat then
          let '(adler, sum2) := fold_left DO1 data (adler, sum2) in
          let adler := if BASE <=? adler then adler - BASE else adler in
          Done (adler_pack (adler, sum2 mod BASE))
        else
          r <-! chunk_loop NMAX nmax_block len (adler, sum2) data;
          (let '(st, data) := r in
           if decide (data = []) then Done (adler_pack st)
           else
             r <-! chunk_loop 16 DO16 len st data;
             (let '(st, data) := r in
              let '(adler, sum2) := fold_left DO1 data st in
              Done (adler_pack (adler mod BASE, sum2 mod BASE))))
    end.

(** [len2] is unsigned, so the "negative length" branch is dead. *)
Definition adler32_combine_ (adler1 adler2 len2 : Z) : Z :=
  let len2 := len2 mod BASE in
  let rem := len2 in
  let sum1 := Z.land adler1 0xffff in
  let sum2 := (rem * sum1) mod BASE in
  let sum1 := sum1 + (Z.land adler2 0xffff + BASE - 1) in
  let sum2 := sum2 + (Z.land (Z.shiftr adler1 16) 0xffff
                      + Z.land (Z.shiftr adler2 16) 0xffff + BASE - rem) in
  let sum1 := if BASE <=? sum1 then sum1 - BASE else sum1 in
  let sum1 := if BASE <=? sum1 then sum1 - BASE else sum1 in
  let sum2 := if 2 * BASE <=? sum2 then sum2 - 2 * BASE else sum2 in
  let sum2 := if BASE <=? sum2 then sum2 - BASE else sum2 in
  Z.lor sum1 (Z.shiftl sum2 16).

Definition shcsum_adler32_combine (adler1 adler2 len2 : Z) : Z :=
  u32 (adler32_combine_ adler1 adler2 len2).

(** ** Specification: reduce after every byte *)

Definition adler_step (st : sums) (d : Z) : sums :=
  let a := (fst st + d) mod BASE in (a, (snd st + a) mod BASE).

Definition adler_ref (st : sums) (data : bytes) : sums := fold_left adler_step data st.

Definition reduced (st : sums) : Prop := 0 <= fst st < BASE /\ 0 <= snd st < BASE.

(** The 32-bit value carrying the two reduced sums. *)
Definition encode (st : sums) : Z := fst st + 65536 * snd st.

(** ** Lemmas *)

Lemma pack_encode st : reduced st -> adler_pack st = encode st.
Proof.
  intros [H1 H2]. unfold adler_pack, encode, BASE in *. destruct st as [a b]; simpl in *.
  rewrite Z.lor_comm, lor_add by (try lia; rlia). rewrite wrap_small; rlia.
Qed.

Lemma low_encode st : reduced st -> Z.land (encode st) 0xffff = fst st.
Proof.
  intros [H1 H2]. unfold encode, BASE in *. change 0xffff with (Z.ones 16). rewrite Z.land_ones by lia.
  change (2 ^ 16) with 65536. mlia.
Qed.

Lemma high_encode st : reduced st -> Z.land (Z.shiftr (encode st) 16) 0xffff = snd st.
Proof.
  intros [H1 H2]. unfold encode, BASE in *. rewrite Z.shiftr_div_pow2 by lia.
  change 0xffff with (Z.ones 16). rewrite Z.land_ones by lia. change (2 ^ 16) with 65536. mlia.
Qed.

Lemma adler_step_reduced st d : reduced (adler_step st d).
Proof. unfold reduced, adler_step, BASE. simpl. mlia. Qed.

Lemma adler_ref_reduced st data : reduced st -> reduced (adler_ref st data).
Proof.
  revert st. induction data as [|d data IH]; intros st H; [done |]. simpl. apply IH, adler_step_reduced.
Qed.

(** The unreduced sums agree with the reference modulo [BASE] and do not
    overflow their machine words as long as the chunk is at most [NMAX] long. *)
Definition tracks (st ref : sums) : Prop :=
  0 <= fst st /\ 0 <= snd st /\ fst st mod BASE = fst ref /\ snd st mod BASE = snd ref.

Lemma fold_DO1_tracks data st ref :
  is_bytes data -> tracks st ref ->
  fst st + 255 * Z.of_nat (length data) < 2 ^ 32 ->
  snd st + 2 ^ 32 * Z.of_nat (length data) < 2 ^ 64 ->
  tracks (fold_left DO1 data st) (adler_ref ref data) /\
  fst (fold_left DO1 data st) <= fst st + 255 * Z.of_nat (length data) /\
  snd (fold_left DO1 data st) <= snd st + 2 ^ 32 * Z.of_nat (length data).
Proof.
  intros Hd. revert st ref. induction Hd as [|d data Hd Hds IH]; intros [a s] [ra rs] Ht H1 H2.
  { simpl in *. split; [done | lia]. }
  cbn [fold_left adler_ref length fst snd] in *. rewrite Nat2Z.inj_succ in *.
  destruct Ht as (Ha & Hs & Ea & Es). cbn [fst snd] in *. ranges.
  assert (DO1 (a, s) d = (a + d, s + (a + d))) as E.
  { unfold DO1. rewrite (wrap_small 32) by rlia. rewrite wrap_small by rlia. done. }
  rewrite E. destruct (IH (a + d, s + (a + d)) (adler_step (ra, rs) d)) as (T & B1 & B2); cbn [fst snd]; try lia.
  - unfold tracks, adler_step. cbn [fst snd]. subst ra rs. split; [lia | split; [lia |]].
    rewrite Z.add_mod_idemp_l by done. split; [done |].
    by rewrite Z.add_mod_idemp_l, Z.add_mod_idemp_r by done.
  - cbn [fst snd] in *. split; [done | lia].
Qed.

Lemma do16_loop_fold n st buf :
  length buf = (16 * n)%nat -> do16_loop n st buf = fold_left DO1 buf st.
Proof.
  revert st buf. induction n as [|n IH]; intros st buf H.
  - by destruct buf.
  - cbn [do16_loop]. rewrite IH by (rewrite length_drop; lia). unfold DO16.
    by rewrite <- fold_left_app, take_drop.
Qed.

Lemma chunk_loop_DO16 fuel st buf :
  (length buf <= fuel)%nat ->
  exists r buf', chunk_loop 16 DO16 fuel st buf = Done (r, buf') /\
    fold_left DO1 buf' r = fold_left DO1 buf st.
Proof.
  revert st buf. induction fuel as [|fuel IH]; intros st buf H; cbn [chunk_loop]; case_decide; eauto; [lia |].
  destruct (IH (DO16 st (take 16 buf)) (drop 16 buf)) as (r & buf' & -> & E); [rewrite length_drop; lia |].
  exists r, buf'. split; [done |]. rewrite E. unfold DO16.
  rewrite take_take, Nat.min_id. by rewrite <- fold_left_app, take_drop.
Qed.

Lemma reduced_tracks st : reduced st -> tracks st st.
Proof. intros [H1 H2]. unfold tracks. rewrite !Z.mod_small by done. lia. Qed.

Lemma tracks_mod st ref : tracks st ref -> (fst st mod BASE, snd st mod BASE) = ref.
Proof. intros (? & ? & ? & ?). destruct ref. simpl in *. by subst. Qed.

(** A tail of fewer than [NMAX] bytes, or one block of exactly [NMAX]. *)
Lemma fold_reduced st data :
  reduced st -> is_bytes data -> (length data <= NMAX)%nat ->
  tracks (fold_left DO1 data st) (adler_ref st data) /\
  fst (fold_left DO1 data st) <= fst st + 255 * Z.of_nat (length data).
Proof.
  intros Hr Hd Hl. destruct (fold_DO1_tracks data st st) as (T & B & _);
    auto using reduced_tracks; destruct Hr; unfold NMAX, BASE in *; lia.
Qed.

Lemma nmax_block_ref st data :
  reduced st -> is_bytes data -> length data = NMAX -> nmax_block st data = adler_ref st data.
Proof.
  intros Hr Hd Hl. unfold nmax_block. rewrite do16_loop_fold by (rewrite Hl; reflexivity).
  destruct (fold_reduced st data) as [T _]; [done | done | lia |].
  destruct (fold_left DO1 data st). by apply (tracks_mod (_, _)).
Qed.

Lemma chunk_loop_nmax fuel st data :
  reduced st -> is_bytes data -> (length data <= fuel)%nat ->
  exists st' rest, chunk_loop NMAX nmax_block fuel st data = Done (st', rest) /\
    reduced st' /\ is_bytes rest /\ (length rest < NMAX)%nat /\ (length rest <= length data)%nat /\
    adler_ref st' rest = adler_ref st data.
Proof.
  revert st data. induction fuel as [|fuel IH]; intros st data Hr Hd Hl; cbn [chunk_loop]; case_decide as E;
    [by eauto 12 | unfold NMAX in *; lia | by eauto 12 |].
  rewrite nmax_block_ref; [|done|by apply Forall_take|rewrite length_take; lia].
  destruct (IH (adler_ref st (take NMAX data)) (drop NMAX data)) as (st' & rest & H1 & H2 & H3 & H4 & H6 & H5).
  - by apply adler_ref_reduced.
  - by apply Forall_drop.
  - rewrite length_drop. unfold NMAX in *. lia.
  - rewrite length_drop in H6. exists st', rest. split_and!; auto; [lia |]. rewrite H5. unfold adler_ref. by rewrite <- fold_left_app, take_drop.
Qed.

Lemma shcsum_adler32_ref st data :
  reduced st -> is_bytes data ->
  shcsum_adler32 (encode st) (Some data) (length data) = Done (encode (adler_ref st data)).
Proof.
  intros Hr Hd. unfold shcsum_adler32. rewrite low_encode, high_encode by done.
  pose proof (adler_ref_reduced st data Hr) as Hr'. case_decide as E1.
  { destruct data as [|b [|]]; try done. f_equal. apply Forall_inv in Hd.
    rewrite <- (pack_encode (adler_ref st [b])) by done. unfold adler_ref, adler_step. cbn [fold_left].
    destruct st as [a s], Hr as [H1 H2]. unfold BASE in *. cbn [fst snd] in *.
    rewrite (wrap_small 32) by rlia. ranges. f_equal. f_equal; repeat case_cmp; mlia. }
  rewrite mem_read_ok by lia. rewrite drop_0, firstn_all. cbn [obind].
  destruct st as [a s]. cbn [fst snd]. case_decide as E2.
  - destruct (fold_reduced (a, s) data) as [T B]; [done | done | unfold NMAX; lia |].
    destruct (fold_left DO1 data (a, s)) as [a' s']. destruct T as (? & ? & Ea & Es), Hr. cbn [fst snd] in *.
    rewrite <- (pack_encode (adler_ref (a, s) data)) by done. do 2 f_equal.
    destruct (adler_ref (a, s) data) as [ra rs]. cbn [fst snd] in *. subst. f_equal.
    unfold BASE in *. case_cmp; mlia.
  - destruct (chunk_loop_nmax (length data) (a, s) data) as (st' & rest & -> & Hr2 & Hb2 & Hl & Hl2 & <-); [done.. |].
    cbn [obind]. case_decide as E3; [subst; by rewrite pack_encode |].
    destruct (chunk_loop_DO16 (length data) st' rest) as (r & buf' & -> & E); [lia |]. cbn [obind].
    rewrite E.
    destruct (fold_reduced st' rest) as [T _]; [done | done | lia |].
    destruct (fold_left DO1 rest st') as [a' s']. apply tracks_mod in T. cbn [fst snd] in T. rewrite T.
    rewrite pack_encode; [done |]. by apply adler_ref_reduced.
Qed.

(** *** Closed form of the reference *)

Definition bsum (data : bytes) : Z := fold_right Z.add 0 data.
Fixpoint tsum (data : bytes) : Z :=
  match data with [] => 0 | d :: l => Z.of_nat (length data) * d + tsum l end.

Lemma adler_ref_closed data st :
  reduced st ->
  adler_ref st data
  = ((fst st + bsum data) mod BASE,
     (snd st + Z.of_nat (length data) * fst st + tsum data) mod BASE).
Proof.
  revert st. induction data as [|d data IH]; intros [a s] Hr.
  - destruct Hr. simpl in *. rewrite !Z.add_0_r, !Z.mod_small by lia. done.
  - cbn [adler_ref fold_left]. fold (adler_ref (adler_step (a, s) d) data).
    rewrite IH by apply adler_step_reduced. unfold adler_step. cbn [fst snd bsum fold_right tsum length].
    fold (bsum data). rewrite Nat2Z.inj_succ. f_equal.
    + rewrite Z.add_mod_idemp_l by done. f_equal. lia.
    + unfold BASE. mlia.
Qed.

Lemma combine_encode s t n :
  reduced s -> reduced t -> 0 <= n ->
  shcsum_adler32_combine (encode s) (encode t) n
  = encode ((fst s + fst t - 1) mod BASE, (snd s + snd t + n * (fst s - 1)) mod BASE).
Proof.
  intros Hs Ht Hn. unfold shcsum_adler32_combine, adler32_combine_.
  rewrite !low_encode, !high_encode by done.
  destruct s as [a1 a2], t as [b1 b2]. destruct Hs as [Ha1 Ha2], Ht as [Hb1 Hb2]. cbn [fst snd] in *.
  assert ((a2 + b2 + n * (a1 - 1)) mod BASE
          = ((n mod BASE * a1) mod BASE + (a2 + b2 + BASE - n mod BASE)) mod BASE) as ->.
  { rewrite Z.add_mod_idemp_l by done. rewrite (Z.div_mod n BASE) at 1 by done.
    rewrite <- (Z.mod_add _ (1 - n / BASE * (a1 - 1)) BASE) by done. f_equal. ring. }
  set (r := n mod BASE). assert (0 <= r < BASE) by by apply Z.mod_pos_bound.
  set (q := (r * a1) mod BASE). assert (0 <= q < BASE) by by apply Z.mod_pos_bound.
  clearbody q. clearbody r.
  change (u32 (Z.lor ?x (Z.shiftl ?y 16))) with (adler_pack (x, y)).
  rewrite pack_encode; cbn [fst snd]; unfold BASE in *; [unfold encode; cbn [fst snd]; f_equal; [|f_equal] |
    unfold reduced, BASE; cbn [fst snd]]; repeat case_cmp; mlia.
Qed.

(** ** Properties *)

(** C36: [shcsum_adler32], which defers the modulo over blocks of 5552 bytes and
    adds in 32-bit and 64-bit words, equals the definition of Adler-32 that
    reduces after every byte, on every input and from every valid checksum: the
    block size never lets a sum overflow its word. *)
Theorem shcsum_adler32_correct st data :
  reduced st -> is_bytes data ->
  shcsum_adler32 (encode st) (Some data) (length data) = Done (encode (adler_ref st data)).
Proof. apply shcsum_adler32_ref. Qed.

Lemma shcsum_adler32_correct_witness :
  encode (adler_ref (1, 0) [0x57; 0x69; 0x6b; 0x69; 0x70; 0x65; 0x64; 0x69; 0x61]) = 0x11e60398 /\
  shcsum_adler32 1 (Some [0x57; 0x69; 0x6b; 0x69; 0x70; 0x65; 0x64; 0x69; 0x61]) 9
  = Done (encode (adler_ref (1, 0) [0x57; 0x69; 0x6b; 0x69; 0x70; 0x65; 0x64; 0x69; 0x61])).
Proof.
  split; [vm_compute; reflexivity |].
  apply (shcsum_adler32_correct (1, 0)); [by unfold reduced, BASE; simpl; lia | byte_literal].
Defined.

(** [shcsum_adler32_combine] of the Adler-32 sums of two strings is the
    sum of their concatenation. *)
Theorem shcsum_adler32_combine_correct a b x y :
  is_bytes a -> is_bytes b ->
  shcsum_adler32 1 (Some a) (length a) = Done x ->
  shcsum_adler32 1 (Some b) (length b) = Done y ->
  shcsum_adler32 1 (Some (a ++ b)) (length (a ++ b))
  = Done (shcsum_adler32_combine x y (Z.of_nat (length b))).
Proof.
  intros Ha Hb. assert (reduced (1, 0)) as H1 by (unfold reduced, BASE; simpl; lia).
  change 1 with (encode (1, 0)).
  rewrite !shcsum_adler32_ref by (try apply is_bytes_app; done). intros [= <-] [= <-]. f_equal.
  rewrite combine_encode by (try apply adler_ref_reduced; try done; lia). f_equal.
  unfold adler_ref at 1. rewrite fold_left_app. fold (adler_ref (1, 0) a). fold (adler_ref (adler_ref (1, 0) a) b).
  pose proof (adler_ref_reduced _ a H1) as Hr. destruct (adler_ref (1, 0) a) as [a1 a2].
  rewrite !adler_ref_closed by done. cbn [fst snd]. unfold BASE. f_equal; mlia.
Qed.

Lemma shcsum_adler32_combine_correct_witness :
  shcsum_adler32 1 (Some [1; 2; 3; 4]) 4 = Done (shcsum_adler32_combine 0x60004 0xc0008 2).
Proof.
  apply (shcsum_adler32_combine_correct [1; 2] [3; 4] _ _);
    [byte_literal | byte_literal | vm_compute; reflexivity..].
Defined.

End Adler32.
