(* ===== verification/ShStream.v ===== *)
(** * Streaming digests

    The SHA contexts of [share-lib/mem/shmem_alg_sha.c] differ in the block
    function, the block size and the width of the length field.  This file holds
    what they share: the context, the stores into the message block, and the
    theory of a context that absorbs a message byte by byte, for block functions
    and sizes given as section variables.

    The specification hashes the padded message block by block. *)

From Stdlib Require Import ZArith Lia.
From stdpp Require Import base numbers list.
From S2P Require Import Prelude.

Open Scope Z_scope.

Record sha_ctx : Type := mk_sha {
  Intermediate_Hash : list Z;
  Length_High : Z;
  Length_Low : Z;
  Message_Block_Index : nat;
  Message_Block : bytes;
  Computed : bool;
  Corrupted : Z
}.

(** [context->Message_Block[context->Message_Block_Index++] = b] *)
Definition store_byte (ctx : sha_ctx) (b : Z) : outcome sha_ctx :=
  if decide (Message_Block_Index ctx < length (Message_Block ctx))%nat
  then Done (mk_sha (Intermediate_Hash ctx) (Length_High ctx) (Length_Low ctx)
               (S (Message_Block_Index ctx)) (<[Message_Block_Index ctx := b]> (Message_Block ctx))
               (Computed ctx) (Corrupted ctx))
  else Fault.

(** [while (Message_Block_Index < bound) Message_Block[Message_Block_Index++] = 0;] *)
Fixpoint zero_fill (n : nat) (ctx : sha_ctx) : outcome sha_ctx :=
  match n with
  | O => Done ctx
  | S n' => ctx <-! store_byte ctx 0; zero_fill n' ctx
  end.

(** The loop of the write functions, over its body. *)
Fixpoint write_bytes (body : sha_ctx -> Z -> outcome sha_ctx) (ctx : sha_ctx) (message_array : bytes) : outcome sha_ctx :=
  match message_array with
  | [] => Done ctx
  | b :: rest => ctx <-! body ctx b; write_bytes body ctx rest
  end.

(** The successive calls of a streaming user. *)
Fixpoint write_all (write : sha_ctx -> bytes -> outcome (sha_ctx * Z)) (ctx : sha_ctx) (chunks : list bytes) : outcome sha_ctx :=
  match chunks with
  | [] => Done ctx
  | c :: rest => r <-! write ctx c; write_all write (fst r) rest
  end.

Definition set_corrupted (e : Z) (ctx : sha_ctx) : sha_ctx :=
  mk_sha (Intermediate_Hash ctx) (Length_High ctx) (Length_Low ctx) (Message_Block_Index ctx) (Message_Block ctx) (Computed ctx) e.
Definition set_block (b : bytes) (ctx : sha_ctx) : sha_ctx :=
  mk_sha (Intermediate_Hash ctx) (Length_High ctx) (Length_Low ctx) (Message_Block_Index ctx) b (Computed ctx) (Corrupted ctx).

(** Big-endian image of an [n]-byte integer. *)
Definition be_bytes (n : nat) (z : Z) : bytes := reverse (le_bytes n z).

Lemma length_be_bytes n z : length (be_bytes n z) = n.
Proof. unfold be_bytes. by rewrite length_reverse, length_le_bytes. Qed.

(** [BS] bytes in a block, the last [2 * LW] of them the bit length. *)
Section Stream.
Context (BS LW : nat) (compress : list Z -> bytes -> list Z).
Hypothesis sizes : (BS = 64 /\ LW = 4)%nat \/ (BS = 128 /\ LW = 8)%nat.

Definition lbits : Z := 8 * Z.of_nat LW.

(** ** The operations *)

Definition stream_reset (H0 : list Z) (ctx : sha_ctx) : sha_ctx := mk_sha H0 0 0 0 (Message_Block ctx) false 0.

Definition stream_process (ctx : sha_ctx) : sha_ctx :=
  mk_sha (compress (Intermediate_Hash ctx) (Message_Block ctx))
    (Length_High ctx) (Length_Low ctx) 0 (Message_Block ctx) (Computed ctx) (Corrupted ctx).

(** The bit counter kept as two words; overflowing it sets [Corrupted]. *)
Definition stream_add_length (ctx : sha_ctx) (length : Z) : sha_ctx :=
  let temp := Length_Low ctx in
  let low := wrap lbits (Length_Low ctx + length) in
  let carry := low <? temp in
  let high := if carry then wrap lbits (Length_High ctx + 1) else Length_High ctx in
  mk_sha (Intermediate_Hash ctx) high low (Message_Block_Index ctx) (Message_Block ctx)
    (Computed ctx) (if carry && (high =? 0) then SHERR_INVAL else Corrupted ctx).

Definition stream_byte (ctx : sha_ctx) (b : Z) : outcome sha_ctx :=
  ctx <-! store_byte ctx b;
  let ctx := stream_add_length ctx 8 in
  Done (if (Corrupted ctx =? 0) && (Message_Block_Index ctx =? BS)%nat then stream_process ctx else ctx).

Definition stream_write (ctx : sha_ctx) (m : bytes) : outcome (sha_ctx * Z) :=
  if decide (m = []) then Done (ctx, 0)
  else if Computed ctx then Done (set_corrupted SHERR_INVAL ctx, SHERR_INVAL)
  else if negb (Corrupted ctx =? 0) then Done (ctx, Corrupted ctx)
  else ctx <-! write_bytes stream_byte ctx m; Done (ctx, Corrupted ctx).

Definition stream_store_length (ctx : sha_ctx) : outcome sha_ctx :=
  blk <-! mem_write (Message_Block ctx) (BS - 2 * LW) (be_bytes LW (Length_High ctx) ++ be_bytes LW (Length_Low ctx));
  Done (set_block blk ctx).

Definition stream_pad (ctx : sha_ctx) (Pad_Byte : Z) : outcome sha_ctx :=
  ctx <-!
    (if decide (BS - 2 * LW <= Message_Block_Index ctx)%nat then
       ctx <-! store_byte ctx Pad_Byte;
       ctx <-! zero_fill (BS - Message_Block_Index ctx) ctx;
       Done (stream_process ctx)
     else store_byte ctx Pad_Byte);
  ctx <-! zero_fill (BS - 2 * LW - Message_Block_Index ctx) ctx;
  ctx <-! stream_store_length ctx;
  Done (stream_process ctx).

Definition stream_finalize (ctx : sha_ctx) (Pad_Byte : Z) : outcome sha_ctx :=
  ctx <-! stream_pad ctx Pad_Byte;
  Done (mk_sha (Intermediate_Hash ctx) 0 0 (Message_Block_Index ctx) (replicate BS 0) true (Corrupted ctx)).

(** The digest bytes are read from words of [LW] bytes. *)
Definition digest_byte (h : list Z) (i : nat) : Z :=
  u8 (Z.shiftr (nth (i / LW) h 0) (8 * (Z.of_nat LW - 1 - Z.of_nat (i mod LW)))).
Definition digest (h : list Z) (HashSize : nat) : bytes := map (digest_byte h) (seq 0 HashSize).

Definition stream_result (ctx : sha_ctx) (HashSize : nat) : outcome (sha_ctx * Z * bytes) :=
  if negb (Corrupted ctx =? 0) then Done (ctx, Corrupted ctx, [])
  else
    ctx <-! (if Computed ctx then Done ctx else stream_finalize ctx 0x80);
    Done (ctx, 0, digest (Intermediate_Hash ctx) HashSize).

(** ** Specification: hash the padded message block by block *)

Fixpoint hash_blocks (fuel : nat) (h : list Z) (l : bytes) : list Z :=
  match fuel with
  | O => h
  | S fuel' => if decide (length l < BS)%nat then h
               else hash_blocks fuel' (compress h (take BS l)) (drop BS l)
  end.
Definition hash_all (h : list Z) (l : bytes) : list Z := hash_blocks (length l) h l.

(** 0x80, zeros up to the length field, the bit length. *)
Definition padding (n : Z) : bytes :=
  0x80 :: replicate (Z.to_nat ((Z.of_nat (BS - 2 * LW) - 1 - n) mod Z.of_nat BS)) 0 ++ be_bytes (2 * LW) (8 * n).

Definition hash_spec (H0 : list Z) (HashSize : nat) (message : bytes) : bytes :=
  digest (hash_all H0 (message ++ padding (Z.of_nat (length message)))) HashSize.

(** ** The specification absorbs a byte at a time *)

Lemma hash_blocks_fuel f1 f2 h l :
  (length l <= f1)%nat -> (length l <= f2)%nat -> hash_blocks f1 h l = hash_blocks f2 h l.
Proof.
  revert f2 h l. induction f1 as [|f1 IH]; intros [|f2] h l H1 H2; cbn [hash_blocks]; [done | | |];
    case_decide; auto; try lia. apply IH; rewrite length_drop; lia.
Qed.

Lemma hash_all_short h l : (length l < BS)%nat -> hash_all h l = h.
Proof. intros. unfold hash_all. destruct (length l) eqn:E; [done |]. cbn [hash_blocks]. case_decide; [done | lia]. Qed.

Lemma hash_all_block h blk rest :
  length blk = BS -> hash_all h (blk ++ rest) = hash_all (compress h blk) rest.
Proof.
  intros H. unfold hash_all. rewrite (hash_blocks_fuel _ (S (BS - 1 + length rest))) by (rewrite length_app; lia).
  remember (BS - 1 + length rest)%nat as f. cbn [hash_blocks].
  rewrite decide_False by (rewrite length_app; lia).
  rewrite take_app_length', drop_app_length' by done. apply hash_blocks_fuel; lia.
Qed.

(** Absorbing one byte into the pair of running hash and partial block. *)
Definition absorb (s : list Z * bytes) (b : Z) : list Z * bytes :=
  let t := s.2 ++ [b] in if decide (length t = BS)%nat then (compress s.1 t, []) else (s.1, t).

Lemma absorb_all m h t :
  (length t < BS)%nat ->
  let s := fold_left absorb m (h, t) in
  (length s.2 < BS)%nat /\
  (Z.of_nat (length s.2) = (Z.of_nat (length t) + Z.of_nat (length m)) mod Z.of_nat BS) /\
  (forall x, hash_all h (t ++ m ++ x) = hash_all s.1 (s.2 ++ x)).
Proof.
  revert h t. induction m as [|b m IH]; intros h t Ht.
  - cbn [fold_left length fst snd app]. split_and!; [done | | done]. rewrite Z.add_0_r, Z.mod_small; lia.
  - cbn [fold_left length]. destruct (decide (length (t ++ [b]) = BS)%nat) as [E|E].
    + assert (absorb (h, t) b = (compress h (t ++ [b]), [])) as -> by (unfold absorb; by rewrite decide_True).
      destruct (IH (compress h (t ++ [b])) []) as (I1 & I2 & I3); [cbn; lia |].
      cbn zeta in *. split_and!; [done | |].
      * rewrite I2, length_app in *. cbn [length] in *. replace (Z.of_nat (length t) + Z.of_nat (S (length m))) with (Z.of_nat (length m) + 1 * Z.of_nat BS) by lia.
        rewrite Z.mod_add by lia. done.
      * intros x. rewrite <- I3. cbn [app]. rewrite <- hash_all_block by done. by rewrite <- app_assoc.
    + assert (absorb (h, t) b = (h, t ++ [b])) as -> by (unfold absorb; by rewrite decide_False).
      destruct (IH h (t ++ [b])) as (I1 & I2 & I3); [rewrite length_app in *; cbn [length] in *; lia |].
      cbn zeta in *. split_and!; [done | |].
      * rewrite I2, length_app. cbn [length]. f_equal. lia.
      * intros x. rewrite <- I3. by rewrite <- app_assoc.
Qed.

(** ** The context holds a hash and a partial block *)

Definition loaded (ctx : sha_ctx) (h : list Z) (t : bytes) : Prop :=
  Intermediate_Hash ctx = h /\ length (Message_Block ctx) = BS /\
  Message_Block_Index ctx = length t /\ take (length t) (Message_Block ctx) = t.

Definition meta (ctx : sha_ctx) : Z * Z * bool * Z :=
  (Length_High ctx, Length_Low ctx, Computed ctx, Corrupted ctx).

Lemma store_loaded ctx h t b :
  loaded ctx h t -> (length t < BS)%nat ->
  exists ctx', store_byte ctx b = Done ctx' /\ loaded ctx' h (t ++ [b]) /\ meta ctx' = meta ctx.
Proof.
  intros (Hh & Hl & Hi & Ht) H. unfold store_byte. rewrite decide_True by lia.
  eexists. split; [done |]. split; [|done]. unfold loaded. cbn [Intermediate_Hash Message_Block Message_Block_Index].
  rewrite length_insert, length_app, Hi. cbn [length]. split_and!; [done | done | lia |].
  rewrite Nat.add_1_r, (take_S_r _ _ b) by (by rewrite list_lookup_insert_eq by lia).
  rewrite take_insert_ge by lia. by rewrite Ht.
Qed.

Lemma zero_fill_loaded n ctx h t :
  loaded ctx h t -> (length t + n <= BS)%nat ->
  exists ctx', zero_fill n ctx = Done ctx' /\ loaded ctx' h (t ++ replicate n 0) /\ meta ctx' = meta ctx.
Proof.
  revert ctx t. induction n as [|n IH]; intros ctx t Hc Hn.
  - exists ctx. cbn. by rewrite app_nil_r.
  - destruct (store_loaded ctx h t 0) as (c1 & E1 & L1 & M1); [done | lia |].
    destruct (IH c1 (t ++ [0])) as (c2 & E2 & L2 & M2); [done | rewrite length_app; cbn; lia |].
    exists c2. cbn [zero_fill]. rewrite E1. cbn [obind]. split_and!; [done | | congruence].
    by rewrite <- app_assoc in L2.
Qed.

Lemma process_loaded ctx h t :
  loaded ctx h t -> length t = BS ->
  loaded (stream_process ctx) (compress h t) [] /\ meta (stream_process ctx) = meta ctx.
Proof.
  intros (Hh & Hl & Hi & Ht) H. split; [|done]. unfold loaded. cbn [stream_process Intermediate_Hash Message_Block Message_Block_Index]. split_and!; [|done..].
  rewrite H, <- Hl, firstn_all in Ht. by subst.
Qed.

(** The context after [n] bytes: a running hash, a partial block and the bit count
    in its two words. *)
Definition rep (ctx : sha_ctx) (s : list Z * bytes) (n : Z) : Prop :=
  loaded ctx s.1 s.2 /\ (length s.2 < BS)%nat /\ Computed ctx = false /\ Corrupted ctx = 0 /\
  is_uint lbits (Length_High ctx) /\ is_uint lbits (Length_Low ctx) /\
  Length_Low ctx + 2 ^ lbits * Length_High ctx = 8 * n.

Lemma lbits_pos : 16 < 2 ^ lbits /\ 2 ^ (2 * lbits) = 2 ^ lbits * 2 ^ lbits.
Proof. unfold lbits. destruct sizes as [[_ ->]|[_ ->]]; split; done. Qed.

Lemma add_length_rep ctx n :
  Corrupted ctx = 0 -> is_uint lbits (Length_High ctx) -> is_uint lbits (Length_Low ctx) ->
  Length_Low ctx + 2 ^ lbits * Length_High ctx = 8 * n -> 8 * (n + 1) < 2 ^ (2 * lbits) ->
  let ctx' := stream_add_length ctx 8 in
  Corrupted ctx' = 0 /\ is_uint lbits (Length_High ctx') /\ is_uint lbits (Length_Low ctx') /\
  Length_Low ctx' + 2 ^ lbits * Length_High ctx' = 8 * (n + 1).
Proof.
  intros Hc Hh Hl E B. unfold stream_add_length. cbn [Corrupted Length_High Length_Low]. destruct lbits_pos as [Hp Hq].
  rewrite Hq in B. unfold is_uint, wrap in *. set (P := 2 ^ lbits) in *.
  set (lh := Length_High ctx) in *. set (ll := Length_Low ctx) in *.
  destruct (Z.lt_ge_cases (ll + 8) P).
  - rewrite (Z.mod_small (ll + 8)) by lia. replace (ll + 8 <? ll) with false by (symmetry; apply Z.ltb_ge; lia).
    cbn [andb]. lia.
  - replace ((ll + 8) mod P) with (ll + 8 - P) by (rewrite <- (Z.mod_add (ll + 8) (-1)), Z.mod_small by lia; lia).
    replace (ll + 8 - P <? ll) with true by (symmetry; apply Z.ltb_lt; lia).
    assert (lh + 1 < P) by nia. rewrite (Z.mod_small (lh + 1)) by lia.
    replace (lh + 1 =? 0) with false by (symmetry; apply Z.eqb_neq; lia). cbn [andb]. lia.
Qed.

Lemma write_byte_rep ctx s n b :
  rep ctx s n -> 8 * (n + 1) < 2 ^ (2 * lbits) ->
  exists ctx', stream_byte ctx b = Done ctx' /\ rep ctx' (absorb s b) (n + 1).
Proof.
  intros (Ld & Ht & Hc & Hk & Hh & Hl & E) B. destruct s as [h t]. cbn [fst snd] in *.
  destruct (store_loaded ctx h t b Ld Ht) as (c1 & E1 & L1 & M1). unfold stream_byte. rewrite E1. cbn [obind].
  injection M1 as M1 M2 M3 M4.
  destruct (add_length_rep c1 n) as (A1 & A2 & A3 & A4); [congruence.. | done |].
  set (c2 := stream_add_length c1 8) in *. eexists. split; [done |].
  assert (loaded c2 h (t ++ [b])) as L2 by exact L1.
  assert (Computed c2 = false) as C2 by (unfold c2; cbn; congruence).
  rewrite A1. cbn [Z.eqb andb]. destruct L2 as (? & ? & Hi & ?).
  destruct (Nat.eqb_spec (Message_Block_Index c2) BS) as [E2|E2]; cbn [andb];
    rewrite Hi in E2; unfold absorb; cbn [fst snd].
  - rewrite decide_True by done. destruct (process_loaded c2 h (t ++ [b])) as [P1 P2]; [by split_and! | done |].
    unfold rep. cbn [fst snd length]. split_and!; try done. destruct sizes; lia.
  - rewrite decide_False by done. unfold rep. cbn [fst snd].
    split_and!; try done. rewrite length_app in *. cbn [length] in *. lia.
Qed.

Lemma write_bytes_rep m ctx s n :
  rep ctx s n -> 8 * (n + Z.of_nat (length m)) < 2 ^ (2 * lbits) ->
  exists ctx', write_bytes stream_byte ctx m = Done ctx' /\ rep ctx' (fold_left absorb m s) (n + Z.of_nat (length m)).
Proof.
  revert ctx s n. induction m as [|b m IH]; intros ctx s n Hr B.
  - exists ctx. cbn. by rewrite Z.add_0_r.
  - cbn [length] in *. rewrite Nat2Z.inj_succ in *.
    destruct (write_byte_rep ctx s n b) as (c1 & E1 & R1); [done | lia |].
    destruct (IH c1 (absorb s b) (n + 1)) as (c2 & E2 & R2); [done | lia |].
    exists c2. cbn [write_bytes fold_left]. rewrite E1. cbn [obind]. split; [done |].
    by replace (n + Z.succ (Z.of_nat (length m))) with (n + 1 + Z.of_nat (length m)) by lia.
Qed.

(** *** Padding *)

Lemma be_words lh ll : is_uint lbits ll -> be_bytes (2 * LW) (ll + 2 ^ lbits * lh) = be_bytes LW lh ++ be_bytes LW ll.
Proof.
  intros H. unfold be_bytes. replace (2 * LW)%nat with (LW + LW)%nat by lia. unfold lbits in *. rewrite le_bytes_app by done.
  apply reverse_app.
Qed.

Lemma store_length_process ctx h t n :
  loaded ctx h t -> length t = (BS - 2 * LW)%nat -> is_uint lbits (Length_Low ctx) ->
  Length_Low ctx + 2 ^ lbits * Length_High ctx = 8 * n ->
  exists ctx', stream_store_length ctx = Done ctx' /\
    Intermediate_Hash (stream_process ctx') = compress h (t ++ be_bytes (2 * LW) (8 * n)) /\
    meta ctx' = meta ctx.
Proof.
  intros (Hh & Hb & Hi & Ht) H Hl E. unfold stream_store_length. rewrite <- be_words, E by done.
  assert (2 * LW <= BS)%nat as Hs by (destruct sizes; lia).
  rewrite mem_write_ok by (rewrite length_be_bytes; lia). cbn [obind]. eexists. split; [done |].
  split; [|done]. unfold stream_process, set_block. cbn [Intermediate_Hash Message_Block].
  rewrite Hh. f_equal. rewrite length_be_bytes, (drop_ge _ (BS - 2 * LW + 2 * LW)), app_nil_r by lia.
  by rewrite <- H, Ht.
Qed.

(** The padding ends the partial block, or fills it and starts another. *)
Lemma hash_one_block h t n :
  length (t ++ n) = BS -> hash_all h (t ++ n) = compress h (t ++ n).
Proof.
  intros H. rewrite <- (app_nil_r (t ++ n)) at 1. rewrite hash_all_block by done. apply hash_all_short. destruct sizes; cbn; lia.
Qed.

Lemma pad_zeros (t : bytes) n :
  n mod Z.of_nat BS = Z.of_nat (length t) -> (length t < BS)%nat ->
  Z.to_nat ((Z.of_nat (BS - 2 * LW) - 1 - n) mod Z.of_nat BS) =
    if decide (BS - 2 * LW <= length t)%nat then ((BS - S (length t)) + (BS - 2 * LW))%nat else (BS - 2 * LW - S (length t))%nat.
Proof. intros Hn Ht. destruct sizes as [[-> ->]|[-> ->]]; cbn [Nat.mul Nat.add Nat.sub] in *; case_decide; mlia. Qed.

(** The code's padding, in one or two blocks, hashes 0x80, zeros and the bit
    length after the partial block. *)
Lemma pad_rep ctx h t n :
  rep ctx (h, t) n -> n mod Z.of_nat BS = Z.of_nat (length t) ->
  exists ctx', stream_pad ctx 0x80 = Done ctx' /\
    Intermediate_Hash ctx' = hash_all h (t ++ padding n) /\ Corrupted ctx' = 0.
Proof.
  intros (Ld & Ht & Hc & Hk & Hh & Hl & E) Hn. cbn [fst snd] in *.
  destruct (store_loaded ctx h t 0x80 Ld Ht) as (c1 & E1 & L1 & M1).
  assert (2 * LW < BS)%nat as Hs by (destruct sizes; lia).
  unfold stream_pad. destruct Ld as (_ & _ & Hi & _). rewrite Hi.
  assert (Message_Block_Index c1 = S (length t)) as Hidx by (destruct L1 as (_ & _ & -> & _); rewrite length_app; cbn; lia).
  unfold padding. rewrite (pad_zeros t n Hn Ht). case_decide as C; rewrite E1; cbn [obind]; rewrite Hidx.
  - destruct (zero_fill_loaded (BS - S (length t)) c1 h (t ++ [0x80])) as (c2 & E2 & L2 & M2); [done | rewrite length_app; cbn; lia |].
    rewrite E2. cbn [obind].
    assert (length ((t ++ [0x80]) ++ replicate (BS - S (length t)) 0) = BS) as Hlen by (rewrite !length_app, length_replicate; cbn; lia).
    destruct (process_loaded c2 _ _ L2 Hlen) as [L3 M3].
    set (c3 := stream_process c2) in *. change (Message_Block_Index c3) with 0%nat.
    destruct (zero_fill_loaded (BS - 2 * LW - 0) c3 _ _ L3) as (c4 & E4 & L4 & M4); [cbn [length]; lia |].
    rewrite E4. cbn [obind]. assert (meta c4 = meta ctx) as M by congruence. injection M as Ma Mb Mc Md.
    destruct (store_length_process c4 _ _ n L4) as (c5 & E5 & H5 & M5); [rewrite length_app, length_replicate; cbn; lia | congruence.. |].
    rewrite E5. cbn [obind]. eexists. split; [done |]. split; [|cbn; injection M5; congruence].
    rewrite H5. rewrite Nat.sub_0_r. cbn [app]. rewrite replicate_add.
    replace (t ++ 128 :: (replicate (BS - S (length t)) 0 ++ replicate (BS - 2 * LW) 0) ++ be_bytes (2 * LW) (8 * n))
      with (((t ++ [128]) ++ replicate (BS - S (length t)) 0) ++ replicate (BS - 2 * LW) 0 ++ be_bytes (2 * LW) (8 * n))
      by (rewrite <- !app_assoc; done).
    rewrite hash_all_block by done. rewrite hash_one_block; [done |]. rewrite length_app, length_replicate, length_be_bytes. lia.
  - destruct (zero_fill_loaded (BS - 2 * LW - S (length t)) c1 h (t ++ [0x80])) as (c4 & E4 & L4 & M4); [done | rewrite length_app; cbn; lia |].
    rewrite E4. cbn [obind]. assert (meta c4 = meta ctx) as M by congruence. injection M as Ma Mb Mc Md.
    destruct (store_length_process c4 _ _ n L4) as (c5 & E5 & H5 & M5); [rewrite !length_app, length_replicate; cbn; lia | congruence.. |].
    rewrite E5. cbn [obind]. eexists. split; [done |]. split; [|cbn; injection M5; congruence].
    rewrite H5. replace (t ++ 128 :: replicate (BS - 2 * LW - S (length t)) 0 ++ be_bytes (2 * LW) (8 * n))
      with (((t ++ [128]) ++ replicate (BS - 2 * LW - S (length t)) 0) ++ be_bytes (2 * LW) (8 * n)) by (rewrite <- !app_assoc; done).
    rewrite hash_one_block; [done |]. rewrite !length_app, length_replicate, length_be_bytes. cbn. lia.
Qed.

(** ** Init, writes and result *)

Lemma reset_rep H0 stack : length (Message_Block stack) = BS -> rep (stream_reset H0 stack) (H0, []) 0.
Proof.
  intros. destruct lbits_pos. unfold rep, loaded, is_uint. cbn [stream_reset Intermediate_Hash Message_Block Message_Block_Index Computed Corrupted Length_High Length_Low fst snd length].
  split_and!; try done; destruct sizes; lia.
Qed.

Lemma write_rep ctx s n m :
  rep ctx s n -> 8 * (n + Z.of_nat (length m)) < 2 ^ (2 * lbits) ->
  exists ctx', stream_write ctx m = Done (ctx', 0) /\ rep ctx' (fold_left absorb m s) (n + Z.of_nat (length m)).
Proof.
  intros Hr B. unfold stream_write. case_decide as E.
  { exists ctx. subst. cbn. by rewrite Z.add_0_r. }
  destruct (write_bytes_rep m ctx s n Hr B) as (ctx' & E' & R').
  destruct Hr as (_ & _ & -> & -> & _). cbn [Z.eqb negb]. rewrite E'. cbn [obind].
  exists ctx'. split; [|done]. destruct R' as (_ & _ & _ & -> & _). done.
Qed.

Lemma result_rep ctx H0 m N :
  rep ctx (fold_left absorb m (H0, [])) (Z.of_nat (length m)) ->
  exists ctx', stream_result ctx N = Done (ctx', 0, hash_spec H0 N m) /\
    Computed ctx' = true /\ Corrupted ctx' = 0 /\ length (Message_Block ctx') = BS /\
    digest (Intermediate_Hash ctx') N = hash_spec H0 N m.
Proof.
  intros Hr. destruct (absorb_all m H0 []) as (A1 & A2 & A3); [destruct sizes; cbn; lia |].
  destruct (fold_left absorb m (H0, [])) as [h t] eqn:Ef. cbn [fst snd] in *.
  destruct (pad_rep ctx h t (Z.of_nat (length m)) Hr) as (c & E & H & K0); [by rewrite A2 |].
  assert (Intermediate_Hash c = hash_all H0 (m ++ padding (Z.of_nat (length m)))) as HH.
  { rewrite H. symmetry. apply (A3 (padding (Z.of_nat (length m)))). }
  unfold stream_result. destruct Hr as (_ & _ & -> & -> & _). cbn [Z.eqb negb].
  unfold stream_finalize. rewrite E. cbn [obind Intermediate_Hash].
  unfold hash_spec. rewrite <- HH. eexists. split; [reflexivity |]. cbn [Message_Block Computed Corrupted Intermediate_Hash].
  split_and!; try done. apply length_replicate.
Qed.

Lemma write_all_rep chunks ctx s n :
  rep ctx s n -> 8 * (n + Z.of_nat (length (concat chunks))) < 2 ^ (2 * lbits) ->
  exists ctx', write_all stream_write ctx chunks = Done ctx' /\
    rep ctx' (fold_left absorb (concat chunks) s) (n + Z.of_nat (length (concat chunks))).
Proof.
  revert ctx s n. induction chunks as [|c chunks IH]; intros ctx s n Hr B.
  - exists ctx. cbn. by rewrite Z.add_0_r.
  - cbn [concat write_all] in *. rewrite length_app, Nat2Z.inj_add in *.
    destruct (write_rep ctx s n c) as (c1 & E1 & R1); [done | lia |].
    rewrite E1. cbn [obind fst]. destruct (IH c1 _ _ R1) as (c2 & E2 & R2); [lia |].
    exists c2. rewrite fold_left_app. split; [done |]. by rewrite Z.add_assoc.
Qed.

(** A message in any pieces gives the digest of the whole, again and again. *)
Lemma stream_correct stack H0 N chunks :
  length (Message_Block stack) = BS -> 8 * Z.of_nat (length (concat chunks)) < 2 ^ (2 * lbits) ->
  exists ctx ctx', write_all stream_write (stream_reset H0 stack) chunks = Done ctx /\
    stream_result ctx N = Done (ctx', 0, hash_spec H0 N (concat chunks)) /\
    stream_result ctx' N = Done (ctx', 0, hash_spec H0 N (concat chunks)).
Proof.
  intros Hs Hl. destruct (write_all_rep chunks _ _ _ (reset_rep H0 stack Hs)) as (c1 & E1 & R1); [lia |].
  destruct (result_rep c1 H0 _ N R1) as (c2 & E2 & C2 & K2 & _ & D2). exists c1, c2. split_and!; [done | done |].
  unfold stream_result. rewrite C2, K2. cbn [Z.eqb negb obind]. by rewrite <- D2.
Qed.

(** One write of the whole message. *)
Lemma stream_one stack H0 N m :
  length (Message_Block stack) = BS -> 8 * Z.of_nat (length m) < 2 ^ (2 * lbits) ->
  (r <-! stream_write (stream_reset H0 stack) m; r <-! stream_result (fst r) N; Done (snd r)) = Done (hash_spec H0 N m).
Proof.
  intros Hs Hl. destruct (write_rep _ _ _ m (reset_rep H0 stack Hs)) as (c1 & E1 & R1); [lia |].
  rewrite E1. cbn [obind fst]. by destruct (result_rep c1 H0 m N R1) as (c2 & -> & _).
Qed.

(** A context is single use. *)
Lemma stream_write_computed ctx m N :
  Computed ctx = true -> m <> [] ->
  exists ctx', stream_write ctx m = Done (ctx', SHERR_INVAL) /\ Intermediate_Hash ctx' = Intermediate_Hash ctx /\
    stream_result ctx' N = Done (ctx', SHERR_INVAL, []).
Proof. intros Hc Hm. unfold stream_write. rewrite decide_False, Hc by done. by eexists. Qed.

End Stream.
