(* ===== verification/ShSha.v ===== *)
(** * SHA-1, SHA-224, SHA-256, SHA-384 and SHA-512

    Models the digest functions of [share-lib/mem/shmem_alg_sha.c] with the macros
    of [shmem_alg_sha.h]: a module per context type, one definition per function,
    and the one-shot functions.  A store past the message block is a [Fault].

    Each module writes its functions as the source does, over the context of
    [ShStream.v], and shows that they are instances of the streaming digest of that
    file; the theorems follow from its theory. *)

From Stdlib Require Import ZArith Lia.
From stdpp Require Import base numbers list.
From S2P Require Import Prelude ShStream.

Open Scope Z_scope.

Definition SHA_Ch (x y z : Z) : Z := Z.lxor (Z.land x (Z.lxor y z)) z.
Definition SHA_Maj (x y z : Z) : Z := Z.lor (Z.land x (Z.lor y z)) (Z.land y z).
Definition SHA_Parity (x y z : Z) : Z := Z.lxor (Z.lxor x y) z.

Definition SHA1_Message_Block_Size : nat := 64.
Definition SHA256_Message_Block_Size : nat := 64.
Definition SHA512_Message_Block_Size : nat := 128.
Definition SHA1HashSize : nat := 20.
Definition SHA224HashSize : nat := 28.
Definition SHA256HashSize : nat := 32.
Definition SHA384HashSize : nat := 48.
Definition SHA512HashSize : nat := 64.

(** [W[t]] for [t < 16]: big-endian words of the block. *)
Fixpoint block_words (blk : bytes) : list Z :=
  match blk with
  | b0 :: b1 :: b2 :: b3 :: rest =>
      Z.lor (Z.lor (Z.lor (Z.shiftl b0 24) (Z.shiftl b1 16)) (Z.shiftl b2 8)) b3 :: block_words rest
  | _ => []
  end.

(** The eight stores of the bit length at offsets 56 to 63. *)
Definition store_length (ctx : sha_ctx) : outcome sha_ctx :=
  let lh := Length_High ctx in
  let ll := Length_Low ctx in
  blk <-! mem_write (Message_Block ctx) 56
    [u8 (Z.shiftr lh 24); u8 (Z.shiftr lh 16); u8 (Z.shiftr lh 8); u8 lh;
     u8 (Z.shiftr ll 24); u8 (Z.shiftr ll 16); u8 (Z.shiftr ll 8); u8 ll];
  Done (set_block blk ctx).

Lemma be_bytes_4 z : be_bytes 4 z = [u8 (Z.shiftr z 24); u8 (Z.shiftr z 16); u8 (Z.shiftr z 8); u8 z].
Proof. unfold be_bytes. by rewrite le_bytes_4. Qed.

Lemma store_length_stream ctx : store_length ctx = stream_store_length 64 4 ctx.
Proof. unfold store_length, stream_store_length. by rewrite !be_bytes_4. Qed.

(** ** SHA-224 and SHA-256 *)

Module Sha256.

Definition sh_sha256_t : Type := sha_ctx.

(** The round constants, in decimal. *)
Definition K : list Z := [
  1116352408; 1899447441; 3049323471; 3921009573; 961987163; 1508970993; 2453635748; 2870763221;
  3624381080; 310598401; 607225278; 1426881987; 1925078388; 2162078206; 2614888103; 3248222580;
  3835390401; 4022224774; 264347078; 604807628; 770255983; 1249150122; 1555081692; 1996064986;
  2554220882; 2821834349; 2952996808; 3210313671; 3336571891; 3584528711; 113926993; 338241895;
  666307205; 773529912; 1294757372; 1396182291; 1695183700; 1986661051; 2177026350; 2456956037;
  2730485921; 2820302411; 3259730800; 3345764771; 3516065817; 3600352804; 4094571909; 275423344;
  430227734; 506948616; 659060556; 883997877; 958139571; 1322822218; 1537002063; 1747873779;
  1955562222; 2024104815; 2227730452; 2361852424; 2428436474; 2756734187; 3204031479; 3329325298].

Definition SHA224_H0 : list Z :=
  [0xC1059ED8; 0x367CD507; 0x3070DD17; 0xF70E5939; 0xFFC00B31; 0x68581511; 0x64F98FA7; 0xBEFA4FA4].
Definition SHA256_H0 : list Z :=
  [0x6A09E667; 0xBB67AE85; 0x3C6EF372; 0xA54FF53A; 0x510E527F; 0x9B05688C; 0x1F83D9AB; 0x5BE0CD19].

Definition SHA256_SHR (bits word : Z) : Z := Z.shiftr word bits.
Definition SHA256_ROTR (bits word : Z) : Z :=
  Z.lor (Z.shiftr word bits) (u32 (Z.shiftl word (32 - bits))).
Definition SHA256_SIGMA0 (w : Z) : Z :=
  Z.lxor (Z.lxor (SHA256_ROTR 2 w) (SHA256_ROTR 13 w)) (SHA256_ROTR 22 w).
Definition SHA256_SIGMA1 (w : Z) : Z :=
  Z.lxor (Z.lxor (SHA256_ROTR 6 w) (SHA256_ROTR 11 w)) (SHA256_ROTR 25 w).
Definition SHA256_sigma0 (w : Z) : Z :=
  Z.lxor (Z.lxor (SHA256_ROTR 7 w) (SHA256_ROTR 18 w)) (SHA256_SHR 3 w).
Definition SHA256_sigma1 (w : Z) : Z :=
  Z.lxor (Z.lxor (SHA256_ROTR 17 w) (SHA256_ROTR 19 w)) (SHA256_SHR 10 w).

(** [W[t]] for [t >= 16], appended one at a time. *)
Fixpoint schedule (n t : nat) (W : list Z) : list Z :=
  match n with
  | O => W
  | S n' =>
      let w := u32 (SHA256_sigma1 (nth (t - 2) W 0) + nth (t - 7) W 0
                    + SHA256_sigma0 (nth (t - 15) W 0) + nth (t - 16) W 0) in
      schedule n' (S t) (W ++ [w])
  end.

Definition regs : Type := Z * Z * Z * Z * Z * Z * Z * Z.

Definition round (r : regs) (kw : Z * Z) : regs :=
  let '(A, B, C, D, E, F, G, H) := r in
  let '(k, w) := kw in
  let temp1 := u32 (H + SHA256_SIGMA1 E + SHA_Ch E F G + k + w) in
  let temp2 := u32 (SHA256_SIGMA0 A + SHA_Maj A B C) in
  (u32 (temp1 + temp2), A, B, C, u32 (D + temp1), E, F, G).

(** The new intermediate hash for one 64-byte block. *)
Definition compress (h : list Z) (blk : bytes) : list Z :=
  match h with
  | [h0; h1; h2; h3; h4; h5; h6; h7] =>
      let W := schedule 48 16 (block_words blk) in
      let '(A, B, C, D, E, F, G, H) :=
        fold_left round (combine K W) (h0, h1, h2, h3, h4, h5, h6, h7) in
      [u32 (h0 + A); u32 (h1 + B); u32 (h2 + C); u32 (h3 + D);
       u32 (h4 + E); u32 (h5 + F); u32 (h6 + G); u32 (h7 + H)]
  | _ => h
  end.

(** The message block keeps whatever the memory held: [memset(sha, 0,
    sizeof(sha))] in the init functions clears the size of a pointer only. *)
Definition SHA224_256Reset (H0 : list Z) (ctx : sh_sha256_t) : sh_sha256_t :=
  mk_sha H0 0 0 0 (Message_Block ctx) false 0.

Definition SHA224_256ProcessMessageBlock (ctx : sh_sha256_t) : sh_sha256_t :=
  mk_sha (compress (Intermediate_Hash ctx) (Message_Block ctx))
    (Length_High ctx) (Length_Low ctx) 0 (Message_Block ctx) (Computed ctx) (Corrupted ctx).

(** The 64-bit bit counter kept as two 32-bit words; overflowing it sets
    [Corrupted]. *)
Definition SHA224_256AddLength (ctx : sh_sha256_t) (length : Z) : sh_sha256_t :=
  let temp := Length_Low ctx in
  let low := u32 (Length_Low ctx + length) in
  let carry := low <? temp in
  let high := if carry then u32 (Length_High ctx + 1) else Length_High ctx in
  mk_sha (Intermediate_Hash ctx) high low (Message_Block_Index ctx) (Message_Block ctx)
    (Computed ctx) (if carry && (high =? 0) then SHERR_INVAL else Corrupted ctx).

(** The body of the loop of [sh_sha256_write]. *)
Definition write_byte (ctx : sh_sha256_t) (b : Z) : outcome sh_sha256_t :=
  ctx <-! store_byte ctx b;
  let ctx := SHA224_256AddLength ctx 8 in
  Done (if (Corrupted ctx =? 0) && (Message_Block_Index ctx =? SHA256_Message_Block_Size)%nat
        then SHA224_256ProcessMessageBlock ctx else ctx).

(** Returns the context and the error code. *)
Definition sh_sha256_write (ctx : sh_sha256_t) (message_array : bytes) : outcome (sh_sha256_t * Z) :=
  if decide (message_array = []) then Done (ctx, 0)
  else if Computed ctx then Done (set_corrupted SHERR_INVAL ctx, SHERR_INVAL)
  else if negb (Corrupted ctx =? 0) then Done (ctx, Corrupted ctx)
  else ctx <-! write_bytes write_byte ctx message_array; Done (ctx, Corrupted ctx).

Definition SHA224_256PadMessage (ctx : sh_sha256_t) (Pad_Byte : Z) : outcome sh_sha256_t :=
  ctx <-!
    (if decide (SHA256_Message_Block_Size - 8 <= Message_Block_Index ctx)%nat then
       ctx <-! store_byte ctx Pad_Byte;
       ctx <-! zero_fill (SHA256_Message_Block_Size - Message_Block_Index ctx) ctx;
       Done (SHA224_256ProcessMessageBlock ctx)
     else store_byte ctx Pad_Byte);
  ctx <-! zero_fill (SHA256_Message_Block_Size - 8 - Message_Block_Index ctx) ctx;
  ctx <-! store_length ctx;
  Done (SHA224_256ProcessMessageBlock ctx).

Definition SHA224_256Finalize (ctx : sh_sha256_t) (Pad_Byte : Z) : outcome sh_sha256_t :=
  ctx <-! SHA224_256PadMessage ctx Pad_Byte;
  Done (mk_sha (Intermediate_Hash ctx) 0 0 (Message_Block_Index ctx)
          (replicate SHA256_Message_Block_Size 0) true (Corrupted ctx)).

(** [Message_Digest[i] = (uint8_t)(Intermediate_Hash[i>>2] >> 8 * (3 - (i & 3)))] *)
Definition sha256_digest_byte (h : list Z) (i : nat) : Z :=
  u8 (Z.shiftr (nth (i / 4) h 0) (8 * (3 - Z.of_nat (i mod 4)))).

(** Returns the context, the error code and the digest bytes written. *)
Definition SHA224_256ResultN (ctx : sh_sha256_t) (HashSize : nat) : outcome (sh_sha256_t * Z * bytes) :=
  if negb (Corrupted ctx =? 0) then Done (ctx, Corrupted ctx, [])
  else
    ctx <-! (if Computed ctx then Done ctx else SHA224_256Finalize ctx 0x80);
    Done (ctx, 0, map (sha256_digest_byte (Intermediate_Hash ctx)) (seq 0 HashSize)).

Definition sh_sha256_init (ctx : sh_sha256_t) : sh_sha256_t := SHA224_256Reset SHA256_H0 ctx.
Definition sh_sha224_init (ctx : sh_sha256_t) : sh_sha256_t := SHA224_256Reset SHA224_H0 ctx.
Definition sh_sha224_write := sh_sha256_write.
Definition sh_sha256_result (ctx : sh_sha256_t) := SHA224_256ResultN ctx SHA256HashSize.
Definition sh_sha224_result (ctx : sh_sha256_t) := SHA224_256ResultN ctx SHA224HashSize.

(** The one-shot functions run on an uninitialised stack context and ignore
    the error codes. *)
Definition sh_sha256 (stack : sh_sha256_t) (message : bytes) : outcome bytes :=
  r <-! sh_sha256_write (sh_sha256_init stack) message;
  r <-! sh_sha256_result (fst r);
  Done (snd r).

Definition sh_sha224 (stack : sh_sha256_t) (message : bytes) : outcome bytes :=
  r <-! sh_sha224_write (sh_sha224_init stack) message;
  r <-! sh_sha224_result (fst r);
  Done (snd r).

(** *** The functions are a streaming digest *)

Definition sha2_spec (H0 : list Z) (HashSize : nat) (message : bytes) : bytes := hash_spec 64 4 compress H0 HashSize message.

Lemma sizes_256 : (64 = 64 /\ 4 = 4)%nat \/ (64 = 128 /\ 4 = 8)%nat.
Proof. by left. Qed.

Lemma write_stream ctx m : sh_sha256_write ctx m = stream_write 64 4 compress ctx m.
Proof. reflexivity. Qed.

Lemma pad_stream ctx b : SHA224_256PadMessage ctx b = stream_pad 64 4 compress ctx b.
Proof.
  unfold SHA224_256PadMessage, stream_pad. change (64 - 2 * 4)%nat with (SHA256_Message_Block_Size - 8)%nat.
  destruct (if decide _ then _ else _) as [c|]; [| reflexivity]. cbn [obind]. destruct (zero_fill _ c) as [c'|]; [| reflexivity].
  cbn [obind]. by rewrite store_length_stream.
Qed.

Lemma result_stream ctx N : SHA224_256ResultN ctx N = stream_result 64 4 compress ctx N.
Proof.
  unfold SHA224_256ResultN, stream_result, SHA224_256Finalize, stream_finalize. rewrite pad_stream. reflexivity.
Qed.

Lemma sha256_total stack message :
  length (Message_Block stack) = 64%nat -> is_uint 32 (Z.of_nat (length message)) ->
  sh_sha256 stack message = Done (sha2_spec SHA256_H0 SHA256HashSize message).
Proof.
  intros Hs Hl. unfold sha2_spec. rewrite <- (stream_one 64 4 compress sizes_256 stack SHA256_H0 SHA256HashSize message Hs) by (change (2 ^ (2 * lbits 4)) with (2 ^ 64); rlia).
  unfold sh_sha256, sh_sha256_result. rewrite write_stream. destruct (stream_write _ _ _ _ _) as [r|]; [| done].
  cbn [obind]. by rewrite result_stream.
Qed.

(** C19: [sh_sha256] returns the SHA-256 digest of the message (padded with
    0x80, zeros and the 64-bit bit length, hashed block by block), whatever the
    uninitialised stack context holds, and never stores outside the block. *)
Theorem sh_sha256_correct stack message :
  length (Message_Block stack) = 64%nat -> is_uint 32 (Z.of_nat (length message)) ->
  sh_sha256 stack message = Done (sha2_spec SHA256_H0 SHA256HashSize message).
Proof. apply sha256_total. Qed.

Lemma sh_sha256_correct_witness :
  sh_sha256 (mk_sha [] 1 2 3 (replicate 64 7) true 9) [0x61; 0x62; 0x63]
  = Done (sha2_spec SHA256_H0 SHA256HashSize [0x61; 0x62; 0x63]) /\
  take 4 (sha2_spec SHA256_H0 SHA256HashSize [0x61; 0x62; 0x63]) = [0xba; 0x78; 0x16; 0xbf].
Proof. split; [by apply sh_sha256_correct | vm_compute; reflexivity]. Defined.

(** a message written in any number of pieces of any sizes gives the same
    digest as the whole message, and asking for the result a second time gives
    the same digest again. *)
Theorem sh_sha256_stream stack chunks :
  length (Message_Block stack) = 64%nat -> 8 * Z.of_nat (length (concat chunks)) < 2 ^ 64 ->
  exists ctx ctx',
    write_all sh_sha256_write (sh_sha256_init stack) chunks = Done ctx /\
    sh_sha256_result ctx = Done (ctx', 0, sha2_spec SHA256_H0 SHA256HashSize (concat chunks)) /\
    sh_sha256_result ctx' = Done (ctx', 0, sha2_spec SHA256_H0 SHA256HashSize (concat chunks)).
Proof.
  intros Hs Hl. unfold sh_sha256_result. setoid_rewrite result_stream.
  exact (stream_correct 64 4 compress sizes_256 stack SHA256_H0 SHA256HashSize chunks Hs Hl).
Qed.

Lemma sh_sha256_stream_witness :
  exists ctx ctx',
    write_all sh_sha256_write (sh_sha256_init (mk_sha [] 0 0 0 (replicate 64 0) false 0)) [[0x61]; []; [0x62; 0x63]] = Done ctx /\
    sh_sha256_result ctx = Done (ctx', 0, sha2_spec SHA256_H0 SHA256HashSize [0x61; 0x62; 0x63]) /\
    sh_sha256_result ctx' = Done (ctx', 0, sha2_spec SHA256_H0 SHA256HashSize [0x61; 0x62; 0x63]).
Proof. apply (sh_sha256_stream _ [[0x61]; []; [0x62; 0x63]]); done. Defined.

(** A context is single use: writing more data after the result was taken is
    refused with [SHERR_INVAL] and marks the context, and the result then reports
    [SHERR_INVAL] and writes no digest. *)
Theorem sh_sha256_write_after_result ctx m :
  Computed ctx = true -> m <> [] ->
  exists ctx', sh_sha256_write ctx m = Done (ctx', SHERR_INVAL) /\
    Intermediate_Hash ctx' = Intermediate_Hash ctx /\
    sh_sha256_result ctx' = Done (ctx', SHERR_INVAL, []).
Proof.
  intros Hc Hm. unfold sh_sha256_result. setoid_rewrite result_stream. exact (stream_write_computed 64 4 compress ctx m SHA256HashSize Hc Hm).
Qed.

End Sha256.

(** ** SHA-1 *)

Module Sha1.

Definition sh_sha1_t : Type := sha_ctx.

Definition SHA1_ROTL (bits word : Z) : Z := Z.lor (u32 (Z.shiftl word bits)) (Z.shiftr word (32 - bits)).

Definition SHA1_K : list Z := [0x5A827999; 0x6ED9EBA1; 0x8F1BBCDC; 0xCA62C1D6].

(** [W[t]] for [t >= 16], appended one at a time. *)
Fixpoint sha1_schedule (n t : nat) (W : list Z) : list Z :=
  match n with
  | O => W
  | S n' =>
      let w := SHA1_ROTL 1 (Z.lxor (Z.lxor (Z.lxor (nth (t - 3) W 0) (nth (t - 8) W 0)) (nth (t - 14) W 0)) (nth (t - 16) W 0)) in
      sha1_schedule n' (S t) (W ++ [w])
  end.

Definition regs : Type := Z * Z * Z * Z * Z.

(** One of the twenty rounds of a loop, with its function and constant. *)
Definition sha1_round (f : Z -> Z -> Z -> Z) (k : Z) (r : regs) (w : Z) : regs :=
  let '(A, B, C, D, E) := r in
  let temp := u32 (SHA1_ROTL 5 A + f B C D + E + w + k) in
  (temp, A, SHA1_ROTL 30 B, C, D).

Definition sha1_loop (f : Z -> Z -> Z -> Z) (i : nat) (W : list Z) (r : regs) : regs :=
  fold_left (sha1_round f (nth i SHA1_K 0)) (take 20 (drop (20 * i) W)) r.

Definition sha1_compress (h : list Z) (blk : bytes) : list Z :=
  match h with
  | [h0; h1; h2; h3; h4] =>
      let W := sha1_schedule 64 16 (block_words blk) in
      let r := sha1_loop SHA_Ch 0 W (h0, h1, h2, h3, h4) in
      let r := sha1_loop SHA_Parity 1 W r in
      let r := sha1_loop SHA_Maj 2 W r in
      let '(A, B, C, D, E) := sha1_loop SHA_Parity 3 W r in
      [u32 (h0 + A); u32 (h1 + B); u32 (h2 + C); u32 (h3 + D); u32 (h4 + E)]
  | _ => h
  end.

Definition SHA1ProcessMessageBlock (ctx : sh_sha1_t) : sh_sha1_t :=
  mk_sha (sha1_compress (Intermediate_Hash ctx) (Message_Block ctx))
    (Length_High ctx) (Length_Low ctx) 0 (Message_Block ctx) (Computed ctx) (Corrupted ctx).

Definition SHA1AddLength (ctx : sh_sha1_t) (length : Z) : sh_sha1_t :=
  let temp := Length_Low ctx in
  let low := u32 (Length_Low ctx + length) in
  let carry := low <? temp in
  let high := if carry then u32 (Length_High ctx + 1) else Length_High ctx in
  mk_sha (Intermediate_Hash ctx) high low (Message_Block_Index ctx) (Message_Block ctx)
    (Computed ctx) (if carry && (high =? 0) then SHERR_INVAL else Corrupted ctx).

Definition SHA1PadMessage (ctx : sh_sha1_t) (Pad_Byte : Z) : outcome sh_sha1_t :=
  ctx <-!
    (if decide (SHA1_Message_Block_Size - 8 <= Message_Block_Index ctx)%nat then
       ctx <-! store_byte ctx Pad_Byte;
       ctx <-! zero_fill (SHA1_Message_Block_Size - Message_Block_Index ctx) ctx;
       Done (SHA1ProcessMessageBlock ctx)
     else store_byte ctx Pad_Byte);
  ctx <-! zero_fill (SHA1_Message_Block_Size - 8 - Message_Block_Index ctx) ctx;
  ctx <-! store_length ctx;
  Done (SHA1ProcessMessageBlock ctx).

Definition SHA1Finalize (ctx : sh_sha1_t) (Pad_Byte : Z) : outcome sh_sha1_t :=
  ctx <-! SHA1PadMessage ctx Pad_Byte;
  Done (mk_sha (Intermediate_Hash ctx) 0 0 (Message_Block_Index ctx)
          (replicate SHA1_Message_Block_Size 0) true (Corrupted ctx)).

Definition SHA1_H0 : list Z := [0x67452301; 0xEFCDAB89; 0x98BADCFE; 0x10325476; 0xC3D2E1F0].

Definition sh_sha1_init (ctx : sh_sha1_t) : sh_sha1_t := mk_sha SHA1_H0 0 0 0 (Message_Block ctx) false 0.

(** The body of the loop of [sh_sha1_write]. *)
Definition sha1_write_byte (ctx : sh_sha1_t) (b : Z) : outcome sh_sha1_t :=
  ctx <-! store_byte ctx b;
  let ctx := SHA1AddLength ctx 8 in
  Done (if (Corrupted ctx =? 0) && (Message_Block_Index ctx =? SHA1_Message_Block_Size)%nat
        then SHA1ProcessMessageBlock ctx else ctx).

Definition sh_sha1_write (ctx : sh_sha1_t) (message_array : bytes) : outcome (sh_sha1_t * Z) :=
  if decide (message_array = []) then Done (ctx, 0)
  else if Computed ctx then Done (set_corrupted SHERR_INVAL ctx, SHERR_INVAL)
  else if negb (Corrupted ctx =? 0) then Done (ctx, Corrupted ctx)
  else ctx <-! write_bytes sha1_write_byte ctx message_array; Done (ctx, Corrupted ctx).

Definition sha1_digest_byte (h : list Z) (i : nat) : Z :=
  u8 (Z.shiftr (nth (i / 4) h 0) (8 * (3 - Z.of_nat (i mod 4)))).

Definition sh_sha1_result (ctx : sh_sha1_t) : outcome (sh_sha1_t * Z * bytes) :=
  if negb (Corrupted ctx =? 0) then Done (ctx, Corrupted ctx, [])
  else
    ctx <-! (if Computed ctx then Done ctx else SHA1Finalize ctx 0x80);
    Done (ctx, 0, map (sha1_digest_byte (Intermediate_Hash ctx)) (seq 0 SHA1HashSize)).

Definition sha1_spec (message : bytes) : bytes := hash_spec 64 4 sha1_compress SHA1_H0 SHA1HashSize message.

Lemma sha1_write_stream ctx m : sh_sha1_write ctx m = stream_write 64 4 sha1_compress ctx m.
Proof. reflexivity. Qed.

Lemma sha1_pad_stream ctx b : SHA1PadMessage ctx b = stream_pad 64 4 sha1_compress ctx b.
Proof.
  unfold SHA1PadMessage, stream_pad. change (64 - 2 * 4)%nat with (SHA1_Message_Block_Size - 8)%nat.
  destruct (if decide _ then _ else _) as [c|]; [| reflexivity]. cbn [obind]. destruct (zero_fill _ c) as [c'|]; [| reflexivity].
  cbn [obind]. by rewrite store_length_stream.
Qed.

Lemma sha1_result_stream ctx : sh_sha1_result ctx = stream_result 64 4 sha1_compress ctx SHA1HashSize.
Proof. unfold sh_sha1_result, stream_result, SHA1Finalize, stream_finalize. rewrite sha1_pad_stream. reflexivity. Qed.

End Sha1.

(** ** SHA-384 and SHA-512 *)

Module Sha512.

Definition sh_sha512_t : Type := sha_ctx.

Definition K512 : list Z := [
  0x428A2F98D728AE22; 0x7137449123EF65CD; 0xB5C0FBCFEC4D3B2F; 0xE9B5DBA58189DBBC;
  0x3956C25BF348B538; 0x59F111F1B605D019; 0x923F82A4AF194F9B; 0xAB1C5ED5DA6D8118;
  0xD807AA98A3030242; 0x12835B0145706FBE; 0x243185BE4EE4B28C; 0x550C7DC3D5FFB4E2;
  0x72BE5D74F27B896F; 0x80DEB1FE3B1696B1; 0x9BDC06A725C71235; 0xC19BF174CF692694;
  0xE49B69C19EF14AD2; 0xEFBE4786384F25E3; 0x0FC19DC68B8CD5B5; 0x240CA1CC77AC9C65;
  0x2DE92C6F592B0275; 0x4A7484AA6EA6E483; 0x5CB0A9DCBD41FBD4; 0x76F988DA831153B5;
  0x983E5152EE66DFAB; 0xA831C66D2DB43210; 0xB00327C898FB213F; 0xBF597FC7BEEF0EE4;
  0xC6E00BF33DA88FC2; 0xD5A79147930AA725; 0x06CA6351E003826F; 0x142929670A0E6E70;
  0x27B70A8546D22FFC; 0x2E1B21385C26C926; 0x4D2C6DFC5AC42AED; 0x53380D139D95B3DF;
  0x650A73548BAF63DE; 0x766A0ABB3C77B2A8; 0x81C2C92E47EDAEE6; 0x92722C851482353B;
  0xA2BFE8A14CF10364; 0xA81A664BBC423001; 0xC24B8B70D0F89791; 0xC76C51A30654BE30;
  0xD192E819D6EF5218; 0xD69906245565A910; 0xF40E35855771202A; 0x106AA07032BBD1B8;
  0x19A4C116B8D2D0C8; 0x1E376C085141AB53; 0x2748774CDF8EEB99; 0x34B0BCB5E19B48A8;
  0x391C0CB3C5C95A63; 0x4ED8AA4AE3418ACB; 0x5B9CCA4F7763E373; 0x682E6FF3D6B2B8A3;
  0x748F82EE5DEFB2FC; 0x78A5636F43172F60; 0x84C87814A1F0AB72; 0x8CC702081A6439EC;
  0x90BEFFFA23631E28; 0xA4506CEBDE82BDE9; 0xBEF9A3F7B2C67915; 0xC67178F2E372532B;
  0xCA273ECEEA26619C; 0xD186B8C721C0C207; 0xEADA7DD6CDE0EB1E; 0xF57D4F7FEE6ED178;
  0x06F067AA72176FBA; 0x0A637DC5A2C898A6; 0x113F9804BEF90DAE; 0x1B710B35131C471B;
  0x28DB77F523047D84; 0x32CAAB7B40C72493; 0x3C9EBE0A15C9BEBC; 0x431D67C49C100D4C;
  0x4CC5D4BECB3E42B6; 0x597F299CFC657E2A; 0x5FCB6FAB3AD6FAEC; 0x6C44198C4A475817].

Definition SHA384_H0 : list Z :=
  [0xCBBB9D5DC1059ED8; 0x629A292A367CD507; 0x9159015A3070DD17; 0x152FECD8F70E5939;
   0x67332667FFC00B31; 0x8EB44A8768581511; 0xDB0C2E0D64F98FA7; 0x47B5481DBEFA4FA4].
Definition SHA512_H0 : list Z :=
  [0x6A09E667F3BCC908; 0xBB67AE8584CAA73B; 0x3C6EF372FE94F82B; 0xA54FF53A5F1D36F1;
   0x510E527FADE682D1; 0x9B05688C2B3E6C1F; 0x1F83D9ABFB41BD6B; 0x5BE0CD19137E2179].

Definition SHA512_SHR (bits word : Z) : Z := Z.shiftr word bits.
Definition SHA512_ROTR (bits word : Z) : Z := Z.lor (Z.shiftr word bits) (u64 (Z.shiftl word (64 - bits))).
Definition SHA512_SIGMA0 (w : Z) : Z := Z.lxor (Z.lxor (SHA512_ROTR 28 w) (SHA512_ROTR 34 w)) (SHA512_ROTR 39 w).
Definition SHA512_SIGMA1 (w : Z) : Z := Z.lxor (Z.lxor (SHA512_ROTR 14 w) (SHA512_ROTR 18 w)) (SHA512_ROTR 41 w).
Definition SHA512_sigma0 (w : Z) : Z := Z.lxor (Z.lxor (SHA512_ROTR 1 w) (SHA512_ROTR 8 w)) (SHA512_SHR 7 w).
Definition SHA512_sigma1 (w : Z) : Z := Z.lxor (Z.lxor (SHA512_ROTR 19 w) (SHA512_ROTR 61 w)) (SHA512_SHR 6 w).

Fixpoint block_words64 (blk : bytes) : list Z :=
  match blk with
  | b0 :: b1 :: b2 :: b3 :: b4 :: b5 :: b6 :: b7 :: rest =>
      Z.lor (Z.lor (Z.lor (Z.lor (Z.lor (Z.lor (Z.lor (Z.shiftl b0 56) (Z.shiftl b1 48)) (Z.shiftl b2 40)) (Z.shiftl b3 32))
        (Z.shiftl b4 24)) (Z.shiftl b5 16)) (Z.shiftl b6 8)) b7 :: block_words64 rest
  | _ => []
  end.

Fixpoint schedule512 (n t : nat) (W : list Z) : list Z :=
  match n with
  | O => W
  | S n' =>
      let w := u64 (SHA512_sigma1 (nth (t - 2) W 0) + nth (t - 7) W 0
                    + SHA512_sigma0 (nth (t - 15) W 0) + nth (t - 16) W 0) in
      schedule512 n' (S t) (W ++ [w])
  end.

Definition round512 (r : Sha256.regs) (kw : Z * Z) : Sha256.regs :=
  let '(A, B, C, D, E, F, G, H) := r in
  let '(k, w) := kw in
  let temp1 := u64 (H + SHA512_SIGMA1 E + SHA_Ch E F G + k + w) in
  let temp2 := u64 (SHA512_SIGMA0 A + SHA_Maj A B C) in
  (u64 (temp1 + temp2), A, B, C, u64 (D + temp1), E, F, G).

Definition compress512 (h : list Z) (blk : bytes) : list Z :=
  match h with
  | [h0; h1; h2; h3; h4; h5; h6; h7] =>
      let W := schedule512 64 16 (block_words64 blk) in
      let '(A, B, C, D, E, F, G, H) := fold_left round512 (combine K512 W) (h0, h1, h2, h3, h4, h5, h6, h7) in
      [u64 (h0 + A); u64 (h1 + B); u64 (h2 + C); u64 (h3 + D);
       u64 (h4 + E); u64 (h5 + F); u64 (h6 + G); u64 (h7 + H)]
  | _ => h
  end.

Definition SHA384_512Reset (H0 : list Z) (ctx : sh_sha512_t) : sh_sha512_t :=
  mk_sha H0 0 0 0 (Message_Block ctx) false 0.

Definition SHA384_512ProcessMessageBlock (ctx : sh_sha512_t) : sh_sha512_t :=
  mk_sha (compress512 (Intermediate_Hash ctx) (Message_Block ctx))
    (Length_High ctx) (Length_Low ctx) 0 (Message_Block ctx) (Computed ctx) (Corrupted ctx).

(** The 128-bit bit counter in two 64-bit words. *)
Definition SHA384_512AddLength (ctx : sh_sha512_t) (length : Z) : sh_sha512_t :=
  let temp := Length_Low ctx in
  let low := u64 (Length_Low ctx + length) in
  let carry := low <? temp in
  let high := if carry then u64 (Length_High ctx + 1) else Length_High ctx in
  mk_sha (Intermediate_Hash ctx) high low (Message_Block_Index ctx) (Message_Block ctx)
    (Computed ctx) (if carry && (high =? 0) then SHERR_INVAL else Corrupted ctx).

(** The sixteen stores of the bit length at offsets 112 to 127. *)
Definition store_length128 (ctx : sh_sha512_t) : outcome sh_sha512_t :=
  let lh := Length_High ctx in
  let ll := Length_Low ctx in
  blk <-! mem_write (Message_Block ctx) 112
    [u8 (Z.shiftr lh 56); u8 (Z.shiftr lh 48); u8 (Z.shiftr lh 40); u8 (Z.shiftr lh 32);
     u8 (Z.shiftr lh 24); u8 (Z.shiftr lh 16); u8 (Z.shiftr lh 8); u8 lh;
     u8 (Z.shiftr ll 56); u8 (Z.shiftr ll 48); u8 (Z.shiftr ll 40); u8 (Z.shiftr ll 32);
     u8 (Z.shiftr ll 24); u8 (Z.shiftr ll 16); u8 (Z.shiftr ll 8); u8 ll];
  Done (set_block blk ctx).

Definition SHA384_512PadMessage (ctx : sh_sha512_t) (Pad_Byte : Z) : outcome sh_sha512_t :=
  ctx <-!
    (if decide (SHA512_Message_Block_Size - 16 <= Message_Block_Index ctx)%nat then
       ctx <-! store_byte ctx Pad_Byte;
       ctx <-! zero_fill (SHA512_Message_Block_Size - Message_Block_Index ctx) ctx;
       Done (SHA384_512ProcessMessageBlock ctx)
     else store_byte ctx Pad_Byte);
  ctx <-! zero_fill (SHA512_Message_Block_Size - 16 - Message_Block_Index ctx) ctx;
  ctx <-! store_length128 ctx;
  Done (SHA384_512ProcessMessageBlock ctx).

Definition SHA384_512Finalize (ctx : sh_sha512_t) (Pad_Byte : Z) : outcome sh_sha512_t :=
  ctx <-! SHA384_512PadMessage ctx Pad_Byte;
  Done (mk_sha (Intermediate_Hash ctx) 0 0 (Message_Block_Index ctx)
          (replicate SHA512_Message_Block_Size 0) true (Corrupted ctx)).

(** [(uint8_t)(Intermediate_Hash[i>>3] >> 8 * (7 - (i % 8)))] *)
Definition sha512_digest_byte (h : list Z) (i : nat) : Z :=
  u8 (Z.shiftr (nth (i / 8) h 0) (8 * (7 - Z.of_nat (i mod 8)))).

Definition SHA384_512ResultN (ctx : sh_sha512_t) (HashSize : nat) : outcome (sh_sha512_t * Z * bytes) :=
  if negb (Corrupted ctx =? 0) then Done (ctx, Corrupted ctx, [])
  else
    ctx <-! (if Computed ctx then Done ctx else SHA384_512Finalize ctx 0x80);
    Done (ctx, 0, map (sha512_digest_byte (Intermediate_Hash ctx)) (seq 0 HashSize)).

(** The body of the loop of [sh_sha512_write]. *)
Definition sha512_write_byte (ctx : sh_sha512_t) (b : Z) : outcome sh_sha512_t :=
  ctx <-! store_byte ctx b;
  let ctx := SHA384_512AddLength ctx 8 in
  Done (if (Corrupted ctx =? 0) && (Message_Block_Index ctx =? SHA512_Message_Block_Size)%nat
        then SHA384_512ProcessMessageBlock ctx else ctx).

Definition sh_sha512_write (ctx : sh_sha512_t) (message_array : bytes) : outcome (sh_sha512_t * Z) :=
  if decide (message_array = []) then Done (ctx, 0)
  else if Computed ctx then Done (set_corrupted SHERR_INVAL ctx, SHERR_INVAL)
  else if negb (Corrupted ctx =? 0) then Done (ctx, Corrupted ctx)
  else ctx <-! write_bytes sha512_write_byte ctx message_array; Done (ctx, Corrupted ctx).

Definition sh_sha512_init (ctx : sh_sha512_t) : sh_sha512_t := SHA384_512Reset SHA512_H0 ctx.
Definition sh_sha384_init (ctx : sh_sha512_t) : sh_sha512_t := SHA384_512Reset SHA384_H0 ctx.
Definition sh_sha384_write := sh_sha512_write.
Definition sh_sha512_result (ctx : sh_sha512_t) := SHA384_512ResultN ctx SHA512HashSize.
Definition sh_sha384_result (ctx : sh_sha512_t) := SHA384_512ResultN ctx SHA384HashSize.

Definition sh_sha512 (stack : sh_sha512_t) (message : bytes) : outcome bytes :=
  r <-! sh_sha512_write (sh_sha512_init stack) message;
  r <-! sh_sha512_result (fst r);
  Done (snd r).

Definition sha512_spec (H0 : list Z) (HashSize : nat) (message : bytes) : bytes := hash_spec 128 8 compress512 H0 HashSize message.

Lemma sizes_512 : (128 = 64 /\ 8 = 4)%nat \/ (128 = 128 /\ 8 = 8)%nat.
Proof. by right. Qed.

Lemma be_bytes_8 z :
  be_bytes 8 z = [u8 (Z.shiftr z 56); u8 (Z.shiftr z 48); u8 (Z.shiftr z 40); u8 (Z.shiftr z 32);
                  u8 (Z.shiftr z 24); u8 (Z.shiftr z 16); u8 (Z.shiftr z 8); u8 z].
Proof. unfold be_bytes, wrap. rewrite !Z.shiftr_div_pow2 by lia. cbn [le_bytes]. by rewrite !Z.div_div by lia. Qed.

Lemma sha512_write_stream ctx m : sh_sha512_write ctx m = stream_write 128 8 compress512 ctx m.
Proof. reflexivity. Qed.

Lemma sha512_pad_stream ctx b : SHA384_512PadMessage ctx b = stream_pad 128 8 compress512 ctx b.
Proof.
  unfold SHA384_512PadMessage, stream_pad. change (128 - 2 * 8)%nat with (SHA512_Message_Block_Size - 16)%nat.
  destruct (if decide _ then _ else _) as [c|]; [| reflexivity]. cbn [obind]. destruct (zero_fill _ c) as [c'|]; [| reflexivity].
  cbn [obind]. unfold store_length128, stream_store_length. by rewrite !be_bytes_8.
Qed.

Lemma sha512_result_stream ctx N : SHA384_512ResultN ctx N = stream_result 128 8 compress512 ctx N.
Proof. unfold SHA384_512ResultN, stream_result, SHA384_512Finalize, stream_finalize. rewrite sha512_pad_stream. reflexivity. Qed.

(** [sh_sha512] returns the SHA-512 digest of the message, padded with 0x80,
    zeros and the 128-bit bit length and hashed in blocks of 128 bytes, whatever
    the uninitialised context holds; no store leaves the message block. *)
Theorem sh_sha512_correct stack message :
  length (Message_Block stack) = 128%nat -> is_uint 32 (Z.of_nat (length message)) ->
  sh_sha512 stack message = Done (sha512_spec SHA512_H0 SHA512HashSize message).
Proof.
  intros Hs Hl. unfold sha512_spec. rewrite <- (stream_one 128 8 compress512 sizes_512 stack) by (try done; change (2 ^ (2 * lbits 8)) with (2 ^ 128); rlia).
  unfold sh_sha512, sh_sha512_result. rewrite sha512_write_stream. destruct (stream_write _ _ _ _ _) as [r|]; [| done].
  cbn [obind]. by rewrite sha512_result_stream.
Qed.

Lemma sh_sha512_correct_witness :
  sh_sha512 (mk_sha [] 1 2 3 (replicate 128 7) true 9) [0x61; 0x62; 0x63]
  = Done (sha512_spec SHA512_H0 SHA512HashSize [0x61; 0x62; 0x63]) /\
  take 4 (sha512_spec SHA512_H0 SHA512HashSize [0x61; 0x62; 0x63]) = [0xdd; 0xaf; 0x35; 0xa1].
Proof. split; [by apply sh_sha512_correct | vm_compute; reflexivity]. Defined.

End Sha512.
