(* ===== verification/ShCrc.v ===== *)
(** * The 64-bit checksum and its text form

    Models [shcrc], [shcrcstr], [stridx] and [shcrcgen] of [share-lib/share.c]
    and the truncations of [shcrc.h].  The text form writes a 64-bit number in
    base 64, least significant digit first, and the theorems show that it is
    read back exactly. *)

From Stdlib Require Import ZArith Lia String.
From stdpp Require Import base numbers list.
From S2P Require Import Prelude.

Open Scope Z_scope.

(** ** The code *)

Definition MOD_SHCRC : Z := 65521.

(** The locals of the loop: [a] and [c] are [uint32_t], [b] and [d] [uint64_t]. *)
Record crc_state : Type := mk_crc { crc_a : Z; crc_b : Z; crc_c : Z; crc_d : Z }.

(** One round on the next [MIN(4, data_len - idx)] bytes, zero padded into
    [num_buf] and read back as an [int] on a little-endian host. *)
Definition crc_round (st : crc_state) (chunk : bytes) : crc_state :=
  let num := of_le chunk in
  let a := u32 (crc_a st + num) in
  let b := u64 (crc_b st + a) in
  let c := (crc_c st + hd 0 chunk) mod MOD_SHCRC in
  let d := (crc_d st + c) mod MOD_SHCRC in
  mk_crc a b c d.

Fixpoint crc_rounds (st : crc_state) (data : bytes) : crc_state :=
  match data with
  | [] => st
  | b0 :: b1 :: b2 :: b3 :: rest => crc_rounds (crc_round st [b0; b1; b2; b3]) rest
  | chunk => crc_round st chunk
  end.

Definition htonll (x : Z) : Z :=
  Z.lor (u64 (Z.shiftl (htonl (Z.land x 0xFFFFFFFF)) 32)) (htonl (u32 (Z.shiftr x 32))).

(** [data] is [None] for a NULL pointer. *)
Definition shcrc (data : option bytes) : Z :=
  let st := match data with
            | Some raw_data => crc_rounds (mk_crc 1 0 1 0) raw_data
            | None => mk_crc 1 0 1 0
            end in
  let ret_val := Z.lor (u64 (Z.shiftl (crc_d st) 16)) (crc_c st) in
  let ret_val := u64 (ret_val + Z.lor (u64 (Z.shiftl (crc_b st) 32)) (crc_a st)) in
  htonll ret_val.

Definition shcrc32 (data : bytes) : Z := Z.land (shcrc (Some data)) 0xFFFFFFFF.
Definition shcrc16 (data : bytes) : Z := Z.land (shcrc (Some data)) 0xFFFF.

Definition crc_str_map : bytes :=
  cstr "-ABCDEFGHIJKLMNOPQRSTUVWXYZabcdefghijklmnopqrstuvwxyz0123456789+".

(** [while (tcrc && idx < 64) { ... ++idx ...; tcrc = tcrc >> 6; }] starting
    from [idx = -1]: the fuel is the number of rounds [idx < 64] allows. *)
Fixpoint crcstr_loop (fuel : nat) (tcrc : Z) : bytes :=
  match fuel with
  | O => []
  | S fuel' =>
      if tcrc =? 0 then []
      else nth (Z.to_nat (tcrc mod 64)) crc_str_map 0 :: crcstr_loop fuel' (Z.shiftr tcrc 6)
  end.

Definition shcrcstr (crc : Z) : bytes := crcstr_loop 65 crc.

(** Index of the first occurrence of [ch], -1 when there is none. *)
Fixpoint stridx_from (i : Z) (str : bytes) (ch : Z) : Z :=
  match str with
  | [] => -1
  | c :: rest => if c =? ch then i else stridx_from (i + 1) rest ch
  end.
Definition stridx (str : option bytes) (ch : Z) : Z :=
  match str with None => -1 | Some s => stridx_from 0 s ch end.

(** The loop of [shcrcgen] runs from the last character to the first; the list
    is the reversed string. *)
Fixpoint crcgen_loop (rev_str : bytes) (crc : Z) : Z :=
  match rev_str with
  | [] => crc
  | ch :: rest =>
      let idx := stridx (Some crc_str_map) ch in
      if idx =? -1 then 0
      else
        let crc := u64 (crc + idx) in
        crcgen_loop rest (match rest with [] => crc | _ => u64 (Z.shiftl crc 6) end)
  end.

Definition shcrcgen (str : bytes) : Z := crcgen_loop (reverse str) 0.

(** The values the unit tests of [share.c] pin down. *)
Example shcrc_unit_test : shcrc (Some (replicate 256 97)) = 9399264675955488567.
Proof. vm_compute. reflexivity. Qed.
Example shcrc32_unit_test : shcrc32 (replicate 256 97) = 1614034743.
Proof. vm_compute. reflexivity. Qed.

(** ** Lemmas *)

(** Value of a digit string, least significant first. *)
Fixpoint digits_value (l : bytes) : Z :=
  match l with
  | [] => 0
  | c :: rest => stridx (Some crc_str_map) c + 64 * digits_value rest
  end.

Definition digit (c : Z) : Prop := 0 <= stridx (Some crc_str_map) c < 64.

Lemma map_digit i : 0 <= i < 64 -> stridx (Some crc_str_map) (nth (Z.to_nat i) crc_str_map 0) = i.
Proof.
  intros Hi.
  assert (forallb (fun k => stridx (Some crc_str_map) (nth k crc_str_map 0) =? Z.of_nat k) (seq 0 64) = true)
    as H by (vm_compute; reflexivity).
  rewrite forallb_forall in H. specialize (H (Z.to_nat i)). rewrite Z.eqb_eq, Z2Nat.id in H by lia.
  apply H. apply in_seq. lia.
Qed.

Definition gen_step (acc c : Z) : Z := u64 (Z.shiftl (u64 (acc + stridx (Some crc_str_map) c)) 6).

Lemma crcgen_loop_snoc rs c acc :
  Forall digit rs -> digit c ->
  crcgen_loop (rs ++ [c]) acc = u64 (fold_left gen_step rs acc + stridx (Some crc_str_map) c).
Proof.
  intros Hrs [Hc1 Hc2]. revert acc. induction Hrs as [|d rs [Hd1 Hd2] Hrs IH]; intros acc.
  - cbn [crcgen_loop app fold_left]. case_cmp; [lia | done].
  - cbn [app crcgen_loop fold_left]. case_cmp; [lia |].
    destruct (rs ++ [c]) eqn:E; [by destruct rs |]. apply IH.
Qed.

Lemma fold_gen_value l : fold_left gen_step (reverse l) 0 = u64 (64 * digits_value l).
Proof.
  induction l as [|c l IH]; [done |]. rewrite reverse_cons, fold_left_app. cbn [fold_left digits_value].
  rewrite IH. unfold gen_step. rewrite Z.shiftl_mul_pow2 by lia. change (2 ^ 6) with 64.
  rewrite wrap_mul_l. unfold wrap. rewrite Z.mul_mod, Z.add_mod_idemp_l, <- Z.mul_mod by done. f_equal. lia.
Qed.

Lemma shcrcgen_value l : Forall digit l -> shcrcgen l = u64 (digits_value l).
Proof.
  intros H. destruct H as [|c l Hc Hl]; [done |]. unfold shcrcgen. rewrite reverse_cons.
  rewrite crcgen_loop_snoc by (try done; by apply Forall_reverse).
  rewrite fold_gen_value, wrap_add_l. cbn [digits_value]. f_equal. lia.
Qed.

Lemma crcstr_loop_value fuel crc :
  0 <= crc < 64 ^ Z.of_nat fuel ->
  Forall digit (crcstr_loop fuel crc) /\ digits_value (crcstr_loop fuel crc) = crc.
Proof.
  revert crc. induction fuel as [|fuel IH]; intros crc H; [simpl in *; split; [constructor | lia] |].
  cbn [crcstr_loop]. case_cmp; [split; [constructor | done] |].
  rewrite Z.shiftr_div_pow2 by lia. change (2 ^ 6) with 64.
  rewrite Nat2Z.inj_succ, Z.pow_succ_r in H by lia.
  destruct (IH (crc / 64)) as [IH1 IH2]; [mlia |].
  assert (0 <= crc mod 64 < 64) by mlia.
  split; [constructor; [unfold digit; by rewrite map_digit | done] |].
  cbn [digits_value]. rewrite map_digit, IH2 by done. mlia.
Qed.

Lemma crcstr_loop_length fuel n crc :
  0 <= crc < 64 ^ Z.of_nat n -> (length (crcstr_loop fuel crc) <= n)%nat.
Proof.
  revert n crc. induction fuel as [|fuel IH]; intros n crc H; [simpl; lia |].
  cbn [crcstr_loop]. case_cmp; [simpl; lia |]. destruct n as [|n]; [simpl in H; lia |].
  rewrite Nat2Z.inj_succ, Z.pow_succ_r in H by lia. cbn [length]. apply le_n_S, IH.
  rewrite Z.shiftr_div_pow2 by lia. change (2 ^ 6) with 64. mlia.
Qed.

Lemma shcrcstr_roundtrip crc : is_uint 64 crc -> shcrcgen (shcrcstr crc) = crc.
Proof.
  intros H. destruct (crcstr_loop_value 65 crc) as [H1 H2].
  { destruct H. split; [done |]. apply Z.lt_trans with (2 ^ 64); [done | reflexivity]. }
  unfold shcrcstr. rewrite shcrcgen_value by done. rewrite H2. by apply wrap_small.
Qed.

Lemma shcrcstr_digits crc : is_uint 64 crc -> Forall digit (shcrcstr crc).
Proof.
  intros [H1 H2]. apply crcstr_loop_value. split; [done |].
  apply Z.lt_trans with (2 ^ 64); [done | reflexivity].
Qed.

Lemma of_le_zeros l n : of_le (l ++ replicate n 0) = of_le l.
Proof. induction l as [|b l IH]; simpl; [induction n; simpl; lia | lia]. Qed.

(** ** Properties *)

(** printing a 64-bit checksum and parsing the text gives the checksum
    back, and the text has at most 11 characters, all of the alphabet. *)
Theorem shcrcstr_shcrcgen crc :
  is_uint 64 crc ->
  shcrcgen (shcrcstr crc) = crc /\ (length (shcrcstr crc) <= 11)%nat /\ Forall digit (shcrcstr crc).
Proof.
  intros H. split_and!; [by apply shcrcstr_roundtrip | | by apply shcrcstr_digits].
  apply crcstr_loop_length. destruct H. split; [done |].
  apply Z.lt_trans with (2 ^ 64); [done | reflexivity].
Qed.

Lemma shcrcstr_shcrcgen_witness :
  shcrcgen (shcrcstr 0x123456789abcdef0) = 0x123456789abcdef0 /\
  (length (shcrcstr 0x123456789abcdef0) <= 11)%nat /\ Forall digit (shcrcstr 0x123456789abcdef0).
Proof. apply shcrcstr_shcrcgen. by split. Defined.

(** [shcrcgen] rejects text with a character outside the alphabet by
    returning 0, wherever the character stands. *)
Theorem shcrcgen_invalid l1 ch l2 :
  Forall digit l2 -> stridx (Some crc_str_map) ch = -1 -> shcrcgen (l1 ++ ch :: l2) = 0.
Proof.
  intros Hl2 Hch. unfold shcrcgen. rewrite reverse_app, reverse_cons, <- app_assoc.
  assert (forall rs acc, Forall digit rs -> crcgen_loop (rs ++ [ch] ++ reverse l1) acc = 0) as H.
  { induction rs as [|d rs IH]; intros acc H.
    - cbn [app crcgen_loop]. by rewrite Hch.
    - apply Forall_cons in H as [[Hd1 Hd2] H]. cbn [app crcgen_loop]. case_cmp; [lia |]. by apply IH. }
  apply H. by apply Forall_reverse.
Qed.

Lemma shcrcgen_invalid_witness : shcrcgen (cstr "AB" ++ 33 :: cstr "C9") = 0.
Proof.
  apply shcrcgen_invalid; [|reflexivity].
  repeat (apply List.Forall_cons; [split; [discriminate | reflexivity] |]). apply List.Forall_nil.
Defined.
