(* ===== verification/ShKey.v ===== *)
(** * Share keys

    Models [share-lib/mem/shmem_key.c]: the 224-bit key [shkey_t] of [shmem.h],
    its generation from data, comparison, text and hexadecimal forms, exclusive
    or, certificates, and the shared static key [_shmem_key] behind the
    [ashkey_*] functions.  A key pointer that may be NULL is an [option]. *)

From Stdlib Require Import ZArith Lia.
From stdpp Require Import base numbers list countable.
From S2P Require Import Prelude ShStream ShSha ShCrc.

Open Scope Z_scope.

Definition SHKEY_WORDS : nat := 7.
Definition SHALG_ECDSA160R : Z := Z.lor (Z.lor (Z.shiftl 1 11) (Z.shiftl 1 1)) (Z.shiftl 1 15).

(** [alg] is kept in network byte order, as stored. *)
Record shkey_t : Type := mk_key { alg : Z; crc : Z; code : list Z }.

#[global] Instance shkey_eq_dec : EqDecision shkey_t.
Proof. solve_decision. Defined.

#[global] Instance shkey_countable : Countable shkey_t :=
  inj_countable' (fun k => (alg k, crc k, code k)) (fun '(a, c, w) => mk_key a c w)
    (fun k => match k with mk_key _ _ _ => eq_refl end).

(** What fits the C structure. *)
Definition valid_key (k : shkey_t) : Prop :=
  is_uint 16 (alg k) /\ is_uint 16 (crc k) /\ length (code k) = SHKEY_WORDS /\ Forall (is_uint 32) (code k).

(** [ashkey_blank()], and what [calloc] leaves. *)
Definition key_blank : shkey_t := mk_key 0 0 (replicate SHKEY_WORDS 0).

(** The 32 bytes of the structure in memory. *)
Definition shkey_image (k : shkey_t) : bytes :=
  le_bytes 2 (alg k) ++ le_bytes 2 (crc k) ++ concat (map (le_bytes 4) (code k)).

(** ** Generation *)

(** The digest function as a total function; [sh_sha256_correct] shows that the
    one-shot call never faults. *)
Definition sha256 (data : bytes) : bytes :=
  match Sha256.sh_sha256 (mk_sha [] 0 0 0 (replicate 64 0) false 0) data with
  | Done d => d
  | Fault => []
  end.

(** Word [i]: the checksum of the 64-byte [hash] buffer whose first half is the
    SHA-256 of the [i]-th overlapping segment of the data. *)
Definition key_word (data : bytes) (i : nat) : Z :=
  let step := (length data / SHKEY_WORDS)%nat in
  let ofs := (step * i)%nat in
  let len := Nat.min (length data - ofs) (step + 8) in
  u32 (shcrc32 (sha256 (take len (drop ofs data)) ++ replicate 32 0)).

Definition shkey_bin_r (data : bytes) : shkey_t :=
  mk_key 0 0 (map (key_word data) (seq 0 SHKEY_WORDS)).

Definition shkey_bin (data : option bytes) : shkey_t :=
  match data with
  | Some (b :: l) => shkey_bin_r (b :: l)
  | _ => key_blank
  end.

Definition shkey_str (kvalue : option bytes) : shkey_t :=
  match kvalue with
  | None => shkey_bin None
  | Some s => shkey_bin (Some (cstring s))
  end.

(** [long] and [uint64_t] are both 8 bytes in memory. *)
Definition shkey_num (kvalue : Z) : shkey_t := shkey_bin_r (le_bytes 8 (u64 kvalue)).
Definition shkey_num64 (kvalue : Z) : shkey_t := shkey_bin_r (le_bytes 8 kvalue).

(** The functions that return the address of the static [_shmem_key]: each
    gives the new content of that one object. *)
Definition ashkey_bin (shmem_key : shkey_t) (data : option bytes) : shkey_t :=
  match data with
  | Some (b :: l) => shkey_bin_r (b :: l)
  | _ => shmem_key
  end.

Definition ashkey_str (name : option bytes) : shkey_t :=
  match name with
  | None => key_blank
  | Some s => match cstring s with [] => key_blank | l => shkey_bin_r l end
  end.

(** [shkey_bin_r(buf, strlen(buf), ...)] on a 256-byte buffer that starts with
    the 8 bytes of the number. *)
Definition ashkey_num (num : Z) : shkey_t :=
  shkey_bin_r (cstring (le_bytes 8 (u64 num) ++ replicate 248 0)).

(** ** Comparison and attributes *)

Definition shkey_alg (key : option shkey_t) : Z :=
  match key with None => SHERR_INVAL | Some k => htons (alg k) end.

Definition shkey_alg_set (key : shkey_t) (a : Z) : shkey_t :=
  mk_key (htons (u16 a)) (crc key) (code key).

(** The loop over the words returns FALSE at the first difference. *)
Fixpoint words_eqb (a b : list Z) : bool :=
  match a, b with
  | x :: a', y :: b' => if x =? y then words_eqb a' b' else false
  | _, _ => true
  end.

Definition shkey_cmp (key_1 key_2 : option shkey_t) : bool :=
  match key_1, key_2 with
  | Some k1, Some k2 =>
      if negb (shkey_alg (Some k1) =? shkey_alg (Some k2)) then false
      else if negb (crc k1 =? crc k2) then false
      else words_eqb (code k1) (code k2)
  | _, _ => false
  end.

Definition shkey_clone (key : option shkey_t) : option shkey_t :=
  match key with None => None | Some k => Some (mk_key (alg k) (crc k) (code k)) end.
Definition shkey_dup := shkey_clone.

Definition shkey_crc (key : option shkey_t) : Z :=
  match key with None => 0 | Some k => shcrc (Some (shkey_image k)) end.

(** ** Text form *)

(** [sprintf("%6.6s", s)]: at most six characters, right justified. *)
Definition field6 (s : bytes) : bytes :=
  let t := take 6 s in replicate (6 - length t) 32 ++ t.

Definition shkey_print (key : option shkey_t) : bytes :=
  match key with
  | None => []
  | Some k =>
      map (fun ch => if ch =? 32 then 46 else ch)
        (concat (map (fun w => field6 (shcrcstr w)) (code k)))
  end.

(** The loop that skips the leading '.' characters. *)
Fixpoint skip_dots (s : bytes) : bytes :=
  match s with
  | c :: s' => if c =? 46 then skip_dots s' else s
  | [] => []
  end.

Definition shkey_gen (str : option bytes) : option shkey_t :=
  match str with
  | None => None
  | Some s =>
      let s := cstring s in
      if decide (length s = 42)%nat then
        Some (mk_key 0 0 (map (fun i => u32 (shcrcgen (skip_dots (take 6 (drop (i * 6) s)))))
                            (seq 0 SHKEY_WORDS)))
      else None
  end.

(** ** Hexadecimal form *)

Definition hex_char (d : Z) : Z := if d <? 10 then 48 + d else 87 + d.

(** Digits of a number without leading zeros, most significant first. *)
Fixpoint hex_digits (fuel : nat) (w : Z) : bytes :=
  match fuel with
  | O => []
  | S fuel' => if w =? 0 then [] else hex_digits fuel' (w / 16) ++ [hex_char (w mod 16)]
  end.

(** [sprintf("%-P.Px", w)] for a 32-bit [w]. *)
Definition fmt_x (prec : nat) (w : Z) : bytes :=
  let d := hex_digits 8 w in replicate (prec - length d) 48 ++ d.

Fixpoint hex_words (is160 : bool) (i : nat) (ws : list Z) : bytes :=
  match ws with
  | [] => []
  | w :: rest =>
      (if is160 then
         if decide (i = 6)%nat then []
         else if decide (i = 5)%nat then fmt_x 2 w else fmt_x 8 w
       else fmt_x 8 w) ++ hex_words is160 (S i) rest
  end.

Definition shkey_hex (key : option shkey_t) : bytes :=
  match key with
  | None => []
  | Some k => hex_words (shkey_alg (Some k) =? SHALG_ECDSA160R) 0 (code k)
  end.

Definition hex_value (c : Z) : option Z :=
  if (48 <=? c) && (c <=? 57) then Some (c - 48)
  else if (97 <=? c) && (c <=? 102) then Some (c - 87)
  else if (65 <=? c) && (c <=? 70) then Some (c - 55)
  else None.

(** The digit loop of [strtoll] in base 16. *)
Fixpoint strto_digits (acc : Z) (s : bytes) : Z :=
  match s with
  | [] => acc
  | c :: s' => match hex_value c with Some d => strto_digits (acc * 16 + d) s' | None => acc end
  end.

Definition isspace (c : Z) : bool := (c =? 32) || ((9 <=? c) && (c <=? 13)).

Fixpoint skip_spaces (s : bytes) : bytes :=
  match s with
  | c :: s' => if isspace c then skip_spaces s' else s
  | [] => []
  end.

(** [strtoll(s, NULL, 16)] on at most eight characters (no range error can
    arise): spaces, a sign, an optional 0x prefix, then digits. *)
Definition strto_unprefixed (s : bytes) : Z :=
  match s with
  | z :: x :: d :: _ =>
      if (z =? 48) && ((x =? 120) || (x =? 88)) && (match hex_value d with Some _ => true | None => false end)
      then strto_digits 0 (drop 2 s) else strto_digits 0 s
  | _ => strto_digits 0 s
  end.

Definition strtoll16 (s : bytes) : Z :=
  match skip_spaces s with
  | [] => 0
  | c :: s' =>
      if c =? 45 then - strto_unprefixed s'
      else if c =? 43 then strto_unprefixed s'
      else strto_unprefixed (c :: s')
  end.

Definition shkey_hexgen (hex_str : option bytes) : option shkey_t :=
  match hex_str with
  | None => None
  | Some s =>
      let s := cstring s in
      if decide (length s = 56)%nat then
        Some (mk_key 0 0 (map (fun i => u32 (strtoll16 (take 8 (drop (8 * i) s)))) (seq 0 SHKEY_WORDS)))
      else None
  end.

(** ** Exclusive or and certificates *)

(** [memxor(dest, src, n)] on the first [n] bytes. *)
Definition memxor (dest src : bytes) : bytes := zip_with Z.lxor dest src.

Definition shkey_xor (key1 key2 : shkey_t) : shkey_t :=
  mk_key 0 0 (zip_with Z.lxor (code key1) (code key2)).

(** [htonl] on each 32-bit word of a buffer. *)
Fixpoint swap_words (l : bytes) : bytes :=
  match l with
  | b0 :: b1 :: b2 :: b3 :: rest => b3 :: b2 :: b1 :: b0 :: swap_words rest
  | _ => []
  end.

(** The 64-byte block: checksum, stamp, key image and '@' filler. *)
Definition cert_block (k : shkey_t) (crc stamp : Z) : bytes :=
  swap_words (le_bytes 8 crc ++ le_bytes 8 stamp ++ shkey_image k ++ replicate 16 64).

Definition shkey_cert (key : option shkey_t) (crc stamp : Z) : option shkey_t :=
  match key with
  | None => None
  | Some k => Some (shkey_bin (Some (sha256 (cert_block k crc stamp) ++ replicate 32 0)))
  end.

Definition shkey_verify (sig : option shkey_t) (crc : Z) (key : option shkey_t) (stamp : Z) : Z :=
  let sha_key := shkey_cert key crc stamp in
  if shkey_cmp sha_key sig then 0 else SHERR_INVAL.

(** ** Lemmas *)

Lemma words_eqb_eq a b : length a = length b -> words_eqb a b = true <-> a = b.
Proof.
  revert b. induction a as [|x a IH]; intros [|y b] H; simpl in *; try done.
  case_cmp; [subst; rewrite IH by lia; split; congruence | split; [done | congruence]].
Qed.

Lemma htons_swap a : htons a = a / 256 mod 256 + 256 * (a mod 256).
Proof. unfold htons, reverse. cbn [le_bytes rev_append of_le]. lia. Qed.

Lemma htons_involutive a : is_uint 16 a -> htons (htons a) = a.
Proof. intros H. rewrite !htons_swap. ranges. mlia. Qed.

Lemma htons_inj a b : is_uint 16 a -> is_uint 16 b -> htons a = htons b -> a = b.
Proof. intros Ha Hb E. by rewrite <- (htons_involutive a), <- (htons_involutive b), E. Qed.

Lemma shkey_cmp_eq a b :
  valid_key a -> valid_key b -> shkey_cmp (Some a) (Some b) = true <-> a = b.
Proof.
  intros (Aa & Ac & Al & _) (Ba & Bc & Bl & _). destruct a as [a1 a2 a3], b as [b1 b2 b3].
  cbn [shkey_cmp shkey_alg alg crc code] in *.
  destruct (Z.eqb_spec (htons a1) (htons b1)) as [E1|E1]; cbn [negb].
  2:{ split; [done | congruence]. }
  apply htons_inj in E1; [|done..]. destruct (Z.eqb_spec a2 b2) as [E2|E2]; cbn [negb].
  2:{ split; [done | congruence]. }
  rewrite words_eqb_eq by congruence. subst. split; congruence.
Qed.

Lemma sha256_bytes data :
  is_uint 32 (Z.of_nat (length data)) -> length (sha256 data) = 32%nat /\ is_bytes (sha256 data).
Proof.
  intros Hl. unfold sha256. rewrite Sha256.sha256_total by (done || apply length_replicate). unfold Sha256.sha2_spec, hash_spec, digest.
  rewrite length_map, length_seq. split; [done |]. apply List.Forall_forall. intros x Hx.
  apply in_map_iff in Hx as (i & <- & _). apply wrap8_byte.
Qed.

Lemma shcrc32_range data : is_uint 32 (shcrc32 data).
Proof.
  unfold shcrc32. change 0xFFFFFFFF with (Z.ones 32). rewrite Z.land_ones by lia.
  apply Z.mod_pos_bound. lia.
Qed.

Lemma valid_blank : valid_key key_blank.
Proof. unfold valid_key, key_blank. split_and!; [by split | by split | done |]. by apply Forall_replicate. Qed.

Lemma valid_bin_r data : valid_key (shkey_bin_r data).
Proof.
  unfold valid_key, shkey_bin_r. cbn [alg crc code]. split_and!; [by split | by split | |].
  - by rewrite length_map, length_seq.
  - apply Forall_map, Forall_true. intros. by apply wrap_range.
Qed.

Lemma valid_bin data : valid_key (shkey_bin data).
Proof. destruct data as [[|]|]; simpl; auto using valid_blank, valid_bin_r. Qed.

(** *** Text form *)

Lemma digit_not c : digit c -> c <> 46 /\ c <> 32 /\ c <> 0.
Proof. intros [H _]. split_and!; intros ->; revert H; vm_compute; congruence. Qed.

Lemma field_dots s :
  Forall digit s -> (length s <= 6)%nat ->
  map (fun ch => if ch =? 32 then 46 else ch) (field6 s) = replicate (6 - length s) 46 ++ s.
Proof.
  intros Hs Hl. unfold field6. rewrite take_ge by done. rewrite map_app. f_equal.
  - generalize (6 - length s)%nat. induction n; simpl; congruence.
  - clear Hl. induction Hs as [|c s Hc Hs IH]; [done |]. simpl. rewrite IH.
    apply digit_not in Hc. by case_cmp; [lia |].
Qed.

Lemma skip_dots_digits n s : Forall digit s -> skip_dots (replicate n 46 ++ s) = s.
Proof.
  intros Hs. induction n as [|n IH]; simpl; [|done].
  destruct Hs as [|c s Hc Hs]; [done |]. apply digit_not in Hc. simpl. by case_cmp; [lia |].
Qed.

(** The text of a word: six characters that parse back to the word. *)
Definition word_text (w : Z) : bytes := map (fun ch => if ch =? 32 then 46 else ch) (field6 (shcrcstr w)).

Lemma u32_u64 w : is_uint 32 w -> is_uint 64 w.
Proof. rlia. Qed.

Lemma word_digits w : is_uint 32 w -> Forall digit (shcrcstr w) /\ (length (shcrcstr w) <= 6)%nat.
Proof.
  intros H. split; [by apply shcrcstr_digits, u32_u64 |].
  apply crcstr_loop_length. change (64 ^ Z.of_nat 6) with 68719476736. rlia.
Qed.

Lemma word_text_spec w :
  is_uint 32 w ->
  length (word_text w) = 6%nat /\ Forall (fun c => c <> 0) (word_text w) /\
  shcrcgen (skip_dots (word_text w)) = w.
Proof.
  intros H. destruct (word_digits w H) as [Hd Hl]. unfold word_text. rewrite field_dots by done.
  split_and!.
  - rewrite length_app, length_replicate. lia.
  - apply Forall_app. split; [apply Forall_replicate; lia |].
    eapply List.Forall_impl; [|exact Hd]. intros c Hc. by apply digit_not.
  - rewrite skip_dots_digits by done. by apply shcrcstr_roundtrip, u32_u64.
Qed.

Lemma cstring_nonzero l : Forall (fun c => c <> 0) l -> cstring l = l.
Proof. induction 1 as [|c l Hc Hl IH]; simpl; [done |]. case_cmp; [done | by rewrite IH]. Qed.

Lemma cstring_zero l r : Forall (fun c => c <> 0) l -> cstring (l ++ 0 :: r) = l.
Proof. induction 1 as [|c l Hc Hl IH]; simpl; [done |]. case_cmp; [done | by rewrite IH]. Qed.

(** Reading back word by word a text made of fixed-size pieces. *)
Lemma read_pieces {A B} (n : nat) (f : A -> bytes) (g : bytes -> B) (ws : list A) pre :
  (forall w, In w ws -> length (f w) = n) ->
  map (fun i => g (take n (drop (n * i) (pre ++ concat (map f ws)))))
      (seq (length pre / n) (length ws)) = map (fun w => g (f w)) ws \/ (length pre mod n <> 0)%nat \/ n = 0%nat.
Proof.
  destruct (decide (n = 0)%nat) as [|Hn]; [tauto |]. destruct (decide (length pre mod n = 0)%nat) as [Hm|]; [|tauto].
  intros Hf. left. revert pre Hm. induction ws as [|w ws IH]; intros pre Hm; [done |].
  assert (length pre = n * (length pre / n))%nat as E by (by apply Nat.Div0.div_exact).
  cbn [length seq map]. f_equal.
  - f_equal. rewrite <- E, drop_app_length. cbn [map concat].
    rewrite take_app_length'; [done |]. rewrite Hf; [done | by left].
  - cbn [concat]. rewrite (app_assoc pre (f w)).
    assert (length (pre ++ f w) = n * S (length pre / n))%nat as E2.
    { rewrite length_app, (Hf w) by (by left). lia. }
    specialize (IH ltac:(intros; apply Hf; by right) (pre ++ f w)).
    rewrite E2, Nat.mul_comm, Nat.div_mul in IH by done. apply IH. by rewrite Nat.Div0.mod_mul.
Qed.

Lemma length_pieces {A} n (f : A -> bytes) ws :
  (forall w, In w ws -> length (f w) = n) -> length (concat (map f ws)) = (n * length ws)%nat.
Proof.
  induction ws as [|w ws IH]; intros H; simpl; [lia |]. rewrite length_app, IH, (H w); [lia | by left |].
  intros; apply H; by right.
Qed.

Lemma Forall_pieces {A} (P : Z -> Prop) (f : A -> bytes) ws :
  (forall w, In w ws -> Forall P (f w)) -> Forall P (concat (map f ws)).
Proof. induction ws as [|w ws IH]; intros H; simpl; [constructor |]. apply Forall_app. split.
  - apply H. by left.
  - apply IH. intros; apply H; by right.
Qed.

Lemma read_all {A B} (n : nat) (f : A -> bytes) (g : bytes -> B) (ws : list A) :
  n <> 0%nat -> (forall w, In w ws -> length (f w) = n) ->
  map (fun i => g (take n (drop (n * i) (concat (map f ws))))) (seq 0 (length ws)) = map (fun w => g (f w)) ws.
Proof.
  intros Hn Hf. destruct (read_pieces n f g ws [] Hf) as [H|[H|H]]; [|by rewrite Nat.Div0.mod_0_l in H|done].
  by rewrite Nat.Div0.div_0_l in H.
Qed.

Lemma map_id_on {A} (f : A -> A) ws : (forall w, In w ws -> f w = w) -> map f ws = ws.
Proof.
  induction ws as [|w ws IH]; intros H; [done |]. simpl. rewrite (H w) by (by left).
  f_equal. apply IH. intros; apply H; by right.
Qed.

Lemma shkey_print_pieces k : shkey_print (Some k) = concat (map word_text (code k)).
Proof. simpl. rewrite concat_map, map_map. done. Qed.

(** *** Hexadecimal form *)

Definition is_hex (c : Z) : Prop := exists d, hex_value c = Some d /\ 0 <= d < 16.

Lemma hex_char_value d : 0 <= d < 16 -> hex_value (hex_char d) = Some d.
Proof.
  intros Hd.
  assert (forallb (fun k => match hex_value (hex_char (Z.of_nat k)) with
                            | Some v => v =? Z.of_nat k | None => false end) (seq 0 16) = true)
    as H by (vm_compute; reflexivity).
  rewrite forallb_forall in H. specialize (H (Z.to_nat d)). rewrite Z2Nat.id in H by lia.
  specialize (H ltac:(apply in_seq; lia)). destruct (hex_value (hex_char d)); [|done].
  apply Z.eqb_eq in H. by subst.
Qed.

Lemma strto_app a b acc :
  Forall is_hex a -> strto_digits acc (a ++ b) = strto_digits (strto_digits acc a) b.
Proof.
  intros Ha. revert acc. induction Ha as [|c a (d & Hd & _) Ha IH]; intros acc; simpl; [done |].
  by rewrite Hd.
Qed.

Lemma hex_digits_spec fuel w :
  0 <= w < 16 ^ Z.of_nat fuel ->
  Forall is_hex (hex_digits fuel w) /\ strto_digits 0 (hex_digits fuel w) = w /\
  (length (hex_digits fuel w) <= fuel)%nat.
Proof.
  revert w. induction fuel as [|fuel IH]; intros w H; [simpl in *; split_and!; [constructor | lia | lia] |].
  cbn [hex_digits]. case_cmp; [subst; split_and!; [constructor | done | simpl; lia] |].
  rewrite Nat2Z.inj_succ, Z.pow_succ_r in H by lia.
  destruct (IH (w / 16)) as (I1 & I2 & I3); [mlia |]. assert (0 <= w mod 16 < 16) by mlia.
  split_and!.
  - apply Forall_app. split; [done |]. repeat constructor. exists (w mod 16). by rewrite hex_char_value.
  - rewrite strto_app by done. simpl. rewrite hex_char_value, I2 by done. mlia.
  - rewrite length_app. simpl. lia.
Qed.

Lemma strto_zeros n s : strto_digits 0 (replicate n 48 ++ s) = strto_digits 0 s.
Proof. induction n as [|n IH]; simpl; [done | apply IH]. Qed.

Lemma is_hex_48 : is_hex 48.
Proof. exists 0. split; [done | lia]. Qed.

Lemma fmt_x_spec prec w :
  is_uint 32 w ->
  Forall is_hex (fmt_x prec w) /\ strto_digits 0 (fmt_x prec w) = w /\
  (prec <= length (fmt_x prec w) <= Nat.max prec 8)%nat.
Proof.
  intros H. destruct (hex_digits_spec 8 w) as (H1 & H2 & H3); [change (16 ^ Z.of_nat 8) with (2 ^ 32); apply H |].
  unfold fmt_x. split_and!.
  - apply Forall_app. split; [by apply Forall_replicate, is_hex_48 | done].
  - by rewrite strto_zeros.
  - rewrite length_app, length_replicate. lia.
  - rewrite length_app, length_replicate. lia.
Qed.

Lemma is_hex_plain c : is_hex c -> isspace c = false /\ c <> 45 /\ c <> 43 /\ c <> 120 /\ c <> 88 /\ c <> 0.
Proof.
  intros (d & Hd & _). split_and!; [|by intros ->..].
  unfold hex_value in Hd. unfold isspace.
  destruct (Z.leb_spec 48 c), (Z.leb_spec c 57), (Z.leb_spec 97 c), (Z.leb_spec c 102), (Z.leb_spec 65 c),
    (Z.leb_spec c 70), (Z.eqb_spec c 32), (Z.leb_spec 9 c), (Z.leb_spec c 13); simpl in *; try done; lia.
Qed.

(** On a string of digits [strtoll] is the digit loop. *)
Lemma strtoll16_digits s : Forall is_hex s -> strtoll16 s = strto_digits 0 s.
Proof.
  intros Hs. unfold strtoll16. destruct Hs as [|c s Hc Hs]; [done |].
  apply is_hex_plain in Hc as (Hsp & H45 & H43 & _). cbn [skip_spaces]. rewrite Hsp.
  apply Z.eqb_neq in H45 as ->. apply Z.eqb_neq in H43 as ->. unfold strto_unprefixed.
  destruct Hs as [|x s Hx Hs]; [done |]. destruct Hs as [|y s Hy Hs]; [done |].
  apply is_hex_plain in Hx as (_ & _ & _ & H1 & H2 & _).
  apply Z.eqb_neq in H1 as ->. apply Z.eqb_neq in H2 as ->. by rewrite andb_false_r.
Qed.

Lemma hex_words_plain i ws : hex_words false i ws = concat (map (fmt_x 8) ws).
Proof. revert i. induction ws as [|w ws IH]; intros i; simpl; [done | by rewrite IH]. Qed.

(** The text of a key gives its words back. *)
Lemma print_gen_words k :
  valid_key k -> shkey_gen (Some (shkey_print (Some k))) = Some (mk_key 0 0 (code k)).
Proof.
  intros (_ & _ & Hl & Hw). rewrite Forall_forall in Hw. rewrite shkey_print_pieces.
  assert (forall w, In w (code k) -> length (word_text w) = 6%nat) as H6
    by (intros w Hin; by destruct (word_text_spec w (Hw w Hin))).
  unfold shkey_gen. rewrite cstring_nonzero by (apply Forall_pieces; intros w Hin; by destruct (word_text_spec w (Hw w Hin)) as (_ & ? & _)).
  rewrite (length_pieces 6), Hl by done. rewrite decide_True by done. do 2 f_equal.
  rewrite <- Hl. transitivity (map (fun w => u32 (shcrcgen (skip_dots (word_text w)))) (code k)).
  - rewrite <- (read_all 6 word_text (fun t => u32 (shcrcgen (skip_dots t)))) by done.
    apply map_ext. intros i. by rewrite Nat.mul_comm.
  - apply map_id_on. intros w Hin.
    destruct (word_text_spec w) as (_ & _ & ->); [by apply Hw |]. by apply wrap_small, Hw.
Qed.

(** ** Properties *)

(** [shkey_cmp] decides equality of keys: it is TRUE exactly when the two
    structures agree in every field, and FALSE for a NULL argument. *)
Theorem shkey_cmp_correct a b :
  valid_key a -> valid_key b ->
  (shkey_cmp (Some a) (Some b) = true <-> a = b) /\
  shkey_cmp None (Some b) = false /\ shkey_cmp (Some a) None = false.
Proof. intros. split; [by apply shkey_cmp_eq | done]. Qed.

Lemma shkey_cmp_correct_witness :
  (shkey_cmp (Some key_blank) (Some (shkey_num 5)) = true <-> key_blank = shkey_num 5) /\
  shkey_cmp None (Some (shkey_num 5)) = false /\ shkey_cmp (Some key_blank) None = false.
Proof. apply shkey_cmp_correct; [apply valid_blank | apply valid_bin_r]. Defined.

(** C31: the 42-character text of a key parses back to the key's words; since
    the text does not carry the algorithm and the checksum fields, the parsed
    key has them zero. *)
Theorem shkey_print_gen k :
  valid_key k -> shkey_gen (Some (shkey_print (Some k))) = Some (mk_key 0 0 (code k)).
Proof. apply print_gen_words. Qed.

Lemma shkey_print_gen_witness :
  shkey_gen (Some (shkey_print (Some (mk_key 0x1234 7 [0; 1; 63; 64; 0xffffffff; 0xdeadbeef; 5]))))
  = Some (mk_key 0 0 [0; 1; 63; 64; 0xffffffff; 0xdeadbeef; 5]).
Proof.
  apply (shkey_print_gen (mk_key 0x1234 7 [0; 1; 63; 64; 0xffffffff; 0xdeadbeef; 5])).
  unfold valid_key. split_and!; [by split | by split | done | by repeat constructor].
Defined.

(** the hexadecimal form of a key is 56 digits that parse back to the
    key's words, unless the key carries the ECDSA160R algorithm; for such a key
    the printed form is shorter and [shkey_hexgen] refuses it. *)
Theorem shkey_hex_hexgen k :
  valid_key k ->
  shkey_hexgen (Some (shkey_hex (Some k)))
  = if decide (shkey_alg (Some k) = SHALG_ECDSA160R) then None else Some (mk_key 0 0 (code k)).
Proof.
  intros (_ & _ & Hl & Hw). case_decide as E.
  - destruct k as [a c ws]. cbn [code] in *. do 7 (destruct ws as [|? ws]; [done |]). destruct ws; [|done].
    rewrite !List.Forall_cons_iff in Hw.
    destruct Hw as (? & ? & ? & ? & ? & ? & ? & _). unfold shkey_hexgen, shkey_hex. rewrite E, Z.eqb_refl.
    cbn [code hex_words]. repeat (rewrite decide_False by lia || rewrite decide_True by lia).
    repeat match goal with H : is_uint 32 ?w |- _ =>
      pose proof (fmt_x_spec 8 w H) as (? & _ & ?); pose proof (fmt_x_spec 2 w H) as (? & _ & ?); clear H end.
    rewrite cstring_nonzero.
    2:{ rewrite !List.Forall_app. split_and!; try (eapply List.Forall_impl; [|eassumption]; intros ch Hch;
          by apply is_hex_plain); by constructor. }
    rewrite decide_False; [done |]. rewrite !length_app. simpl. lia.
  - unfold shkey_hexgen, shkey_hex. apply Z.eqb_neq in E as ->. rewrite hex_words_plain.
    rewrite Forall_forall in Hw.
    assert (forall w, In w (code k) -> length (fmt_x 8 w) = 8%nat) as H8.
    { intros w Hin. destruct (fmt_x_spec 8 w) as (_ & _ & ?); [by apply Hw | lia]. }
    rewrite cstring_nonzero.
    2:{ apply Forall_pieces. intros w Hin. eapply List.Forall_impl; [|apply (fmt_x_spec 8 w (Hw w Hin))].
        intros ch Hch. by apply is_hex_plain. }
    rewrite (length_pieces 8), Hl, decide_True by done. do 2 f_equal. rewrite <- Hl.
    rewrite (read_all 8 (fmt_x 8) (fun t => u32 (strtoll16 t))) by done. apply map_id_on.
    intros w Hin. destruct (fmt_x_spec 8 w) as (H1 & H2 & _); [by apply Hw |].
    rewrite strtoll16_digits, H2 by done. by apply wrap_small, Hw.
Qed.

Lemma shkey_hex_hexgen_witness :
  shkey_hexgen (Some (shkey_hex (Some (mk_key 0 7 [0; 1; 63; 64; 0xffffffff; 0xdeadbeef; 5]))))
  = Some (mk_key 0 0 [0; 1; 63; 64; 0xffffffff; 0xdeadbeef; 5]).
Proof.
  rewrite (shkey_hex_hexgen (mk_key 0 7 [0; 1; 63; 64; 0xffffffff; 0xdeadbeef; 5])).
  - reflexivity.
  - unfold valid_key. split_and!; [by split | by split | done | by repeat constructor].
Defined.

(** a signature verifies exactly when it is the certificate key of the
    same key, checksum and stamp; a NULL key or signature is refused. *)
Theorem shkey_verify_correct sig c k stamp :
  valid_key sig ->
  (shkey_verify (Some sig) c (Some k) stamp = 0 <-> shkey_cert (Some k) c stamp = Some sig) /\
  shkey_verify (Some sig) c None stamp = SHERR_INVAL /\
  shkey_verify None c (Some k) stamp = SHERR_INVAL.
Proof.
  intros Hs. unfold shkey_verify. cbn [shkey_cert].
  generalize (valid_bin (Some (sha256 (cert_block k c stamp) ++ replicate 32 0))).
  generalize (shkey_bin (Some (sha256 (cert_block k c stamp) ++ replicate 32 0))). intros ck Hc.
  split; [|done].
  pose proof (shkey_cmp_eq ck sig Hc Hs) as H. destruct (shkey_cmp (Some ck) (Some sig)).
  - split; [intros _; f_equal; by apply H | done].
  - split; [done |]. intros [= E]. by apply H in E.
Qed.

Lemma shkey_verify_correct_witness :
  (shkey_verify (Some key_blank) 1 (Some key_blank) 0 = 0 <-> shkey_cert (Some key_blank) 1 0 = Some key_blank) /\
  shkey_verify (Some key_blank) 1 None 0 = SHERR_INVAL /\
  shkey_verify None 1 (Some key_blank) 0 = SHERR_INVAL.
Proof. apply (shkey_verify_correct key_blank 1 key_blank 0). apply valid_blank. Defined.

(** [shkey_xor] with the same key twice gives the words back, and a key
    with itself gives the blank key. *)
Theorem shkey_xor_involutive a b :
  valid_key a -> valid_key b ->
  code (shkey_xor (shkey_xor a b) b) = code a /\ shkey_xor a a = key_blank.
Proof.
  intros (_ & _ & La & _) (_ & _ & Lb & _). split.
  - unfold shkey_xor. cbn [code]. revert La Lb. generalize (code a) (code b). intros x y Hx Hy.
    assert (length x = length y) as H by congruence. clear Hx Hy. revert y H.
    induction x as [|u x IH]; intros [|v y] H; simpl in *; try done. rewrite IH by lia.
    by rewrite Z.lxor_assoc, Z.lxor_nilpotent, Z.lxor_0_r.
  - unfold shkey_xor, key_blank. f_equal. rewrite <- La. clear. induction (code a) as [|u x IH]; simpl; [done |].
    by rewrite IH, Z.lxor_nilpotent.
Qed.

Lemma shkey_xor_involutive_witness :
  code (shkey_xor (shkey_xor (shkey_num 3) (shkey_num 4)) (shkey_num 4)) = code (shkey_num 3) /\
  shkey_xor (shkey_num 3) (shkey_num 3) = key_blank.
Proof. apply shkey_xor_involutive; apply valid_bin_r. Defined.

(** the numeric keys kept in the static buffer take the length of the
    number's memory image as a C string, so every number whose low byte is zero
    gets the key of zero: [ashkey_num] does not separate numbers. *)
Theorem ashkey_num_collision n : ashkey_num (256 * n) = ashkey_num 0.
Proof.
  unfold ashkey_num. f_equal. cbn [le_bytes app cstring].
  replace (u64 (256 * n) mod 256) with 0; [done |].
  unfold wrap. change (2 ^ 64) with (256 * 2 ^ 56). rewrite Z.mul_mod_distr_l by done. mlia.
Qed.

(** the static key is one object: after [ashkey_bin] of an empty segment
    it still holds the key of the previous call, where [shkey_bin] of the same
    segment is the blank key. *)
Theorem ashkey_bin_stale prev data :
  data = None \/ data = Some [] ->
  ashkey_bin prev data = prev /\ shkey_bin data = key_blank.
Proof. intros [-> | ->]; done. Qed.

Lemma ashkey_bin_stale_witness :
  ashkey_bin (shkey_num 9) (Some []) = shkey_num 9 /\ shkey_bin (Some []) = key_blank.
Proof. apply ashkey_bin_stale. by right. Defined.
