(* ===== verification/Heap.v ===== *)
(** * The C heap

    Pointers, allocation and release as the container components use them.
    A pointer is NULL or an offset in a block; [calloc] hands out block numbers
    in increasing order, so a released block is never confused with a later
    one, and every use of a released block, a double [free] and every access
    outside a block is a [Fault]. *)

From Stdlib Require Import ZArith Lia.
From stdpp Require Import base numbers list gmap.
From S2P Require Import Prelude.

Open Scope Z_scope.

Abbreviation ptr := (option (Z * Z)).
Abbreviation NULL := (None (A := Z * Z)).

Record heap : Type := mk_heap { blocks : gmap Z bytes; brk : Z }.

Definition heap_empty : heap := mk_heap ∅ 1.

(** Offset arithmetic on a pointer. *)
Definition ptr_add (p : ptr) (n : Z) : ptr :=
  match p with None => None | Some (b, o) => Some (b, o + n) end.

Definition calloc (h : heap) (n : Z) : heap * ptr :=
  (mk_heap (<[brk h := replicate (Z.to_nat n) 0]> (blocks h)) (brk h + 1), Some (brk h, 0)).

Definition free (h : heap) (p : ptr) : outcome heap :=
  match p with
  | None => Done h
  | Some (b, o) =>
      if (o =? 0) && bool_decide (is_Some (blocks h !! b))
      then Done (mk_heap (delete b (blocks h)) (brk h)) else Fault
  end.

(** The bytes a [memcpy] of [n] bytes from [p] reads. *)
Definition load (h : heap) (p : ptr) (n : Z) : outcome bytes :=
  match p with
  | None => if n =? 0 then Done [] else Fault
  | Some (b, o) =>
      match blocks h !! b with
      | Some d => if 0 <=? o then mem_read d (Z.to_nat o) (Z.to_nat n) else Fault
      | None => Fault
      end
  end.

(** A [memcpy] of [src] to [p]. *)
Definition store (h : heap) (p : ptr) (src : bytes) : outcome heap :=
  match p with
  | None => match src with [] => Done h | _ => Fault end
  | Some (b, o) =>
      match blocks h !! b with
      | Some d =>
          if 0 <=? o then
            d' <-! mem_write d (Z.to_nat o) src; Done (mk_heap (<[b := d']> (blocks h)) (brk h))
          else Fault
      | None => Fault
      end
  end.

(** Block numbers not handed out yet are unused. *)
Definition heap_wf (h : heap) : Prop := forall b, is_Some (blocks h !! b) -> b < brk h.

Lemma heap_wf_empty : heap_wf heap_empty.
Proof. intros b. cbn [blocks heap_empty]. rewrite lookup_empty. by intros []. Qed.

Lemma heap_wf_fresh h : heap_wf h -> blocks h !! brk h = None.
Proof. intros Hwf. destruct (blocks h !! brk h) eqn:E; [|done]. specialize (Hwf (brk h)). rewrite E in Hwf. assert (brk h < brk h) by (apply Hwf; done). lia. Qed.

Lemma heap_wf_insert h b d n :
  heap_wf h -> b < n -> brk h <= n -> heap_wf (mk_heap (<[b := d]> (blocks h)) n).
Proof.
  intros Hwf Hb Hn c. cbn [blocks brk]. destruct (decide (c = b)) as [->|Hc]; [done |].
  rewrite lookup_insert_ne by done. intros H. specialize (Hwf c H). lia.
Qed.

Lemma heap_wf_free h p h' : heap_wf h -> free h p = Done h' -> heap_wf h'.
Proof.
  intros Hwf. destruct p as [[b o]|]; cbn [free]; [|by intros [= <-]].
  destruct (_ && _); [|done]. intros [= <-] c [x Hx]. cbn [blocks brk] in *.
  apply lookup_delete_Some in Hx as [_ Hx]. by apply Hwf.
Qed.

(** Allocate and copy: the new block is fresh and holds the source. *)
Lemma calloc_store h n src :
  heap_wf h -> length src = Z.to_nat n ->
  store (fst (calloc h n)) (snd (calloc h n)) src =
    Done (mk_heap (<[brk h := src]> (blocks h)) (brk h + 1)).
Proof.
  intros Hwf Hl. unfold calloc, store. cbn [fst snd blocks brk]. rewrite lookup_insert_eq. cbn [Z.leb].
  change (0 <=? 0) with true. cbn iota. change (Z.to_nat 0) with 0%nat.
  rewrite mem_write_ok by llia. cbn [obind].
  rewrite take_0, app_nil_l, drop_ge, app_nil_r, insert_insert_eq by llia. done.
Qed.

Lemma free_block h b d :
  blocks h !! b = Some d -> free h (Some (b, 0)) = Done (mk_heap (delete b (blocks h)) (brk h)).
Proof. intros H. cbn [free]. rewrite bool_decide_true by done. done. Qed.

#[export] Hint Resolve heap_wf_fresh heap_wf_free heap_wf_empty : share.
