(* ===== verification/ShBuf.v ===== *)
(** * Dynamic memory buffers

    Models [share-lib/mem/shmem_buf.c].  A buffer is the structure [shbuf_t];
    its [data] pointer is [None] for NULL and otherwise the bytes of the
    allocation it points to.  The C allocator, the page size, the mapped file
    and [mmap] are an environment of the model: an allocation may fail, and the
    bytes [realloc] adds are unspecified.  A file that is mapped shares its bytes
    with the buffer.  A write outside the allocation is a [Fault].

    The abstract value of a buffer is the byte string it holds; the theorems
    show which operations implement the operations on byte strings and under
    which conditions they fault. *)

From Stdlib Require Import ZArith Lia String.
From stdpp Require Import base numbers list.
From S2P Require Import Prelude.

Open Scope Z_scope.

Definition SHBUF_PREALLOC : Z := 1.
Definition SHBUF_FMAP : Z := 2.

Record shbuf_t : Type := mk_buf {
  data : option bytes;
  data_of : Z;
  data_max : Z;
  data_pos : Z;
  flags : Z;
  fd : Z
}.

(** What the code asks of the C library and the operating system. *)
Record env : Type := mk_env {
  calloc_ok : Z -> bool;        (* does an allocation of this size succeed *)
  realloc_ok : Z -> bool;
  junk : nat -> Z;              (* content of memory [realloc] adds *)
  page_size : Z;                (* sysconf(_SC_PAGE_SIZE) *)
  write_ok : Z -> bool;         (* can the file be extended at this offset *)
  write_errno : Z;
  mmap_ok : bool
}.

(** ** Operations *)

Definition shbuf_init : shbuf_t := mk_buf None 0 0 0 0 0.

Definition shbuf_map (d : bytes) : shbuf_t :=
  mk_buf (Some d) (Z.of_nat (length d)) (Z.of_nat (length d)) 0 SHBUF_PREALLOC 0.

(** The static buffer of [ashbuf_map] carries no flag. *)
Definition ashbuf_map (d : bytes) : shbuf_t :=
  mk_buf (Some d) (Z.of_nat (length d)) (Z.of_nat (length d)) 0 0 0.

Definition shbuf_data (buf : option shbuf_t) : option bytes :=
  match buf with None => None | Some b => data b end.

Definition shbuf_size (buf : option shbuf_t) : Z :=
  match buf with None => 0 | Some b => data_of b end.

Definition has_flag (f bit : Z) : bool := negb (Z.land f bit =? 0).

Section operations.
Context (E : env).

(** [realloc]: the old bytes and then unspecified ones. *)
Definition realloc (d : bytes) (n : Z) : bytes :=
  take (Z.to_nat n) d ++ map (junk E) (seq (length d) (Z.to_nat n - length d)).

(** The allocation branch of [shbuf_grow]; [new_max] is [block_len * 8192]. *)
Definition grow_alloc (buf : shbuf_t) (new_max : Z) : outcome (shbuf_t * Z) :=
  let orig_len := data_max buf in
  r <-! (match data buf with
         | None => if calloc_ok E new_max then Done (Some (replicate (Z.to_nat new_max) 0)) else Done None
         | Some d =>
             if realloc_ok E new_max then Done (Some (realloc d new_max))
             else if calloc_ok E new_max then
               src <-! mem_read d 0 (Z.to_nat orig_len);
               dst <-! mem_write (replicate (Z.to_nat new_max) 0) 0 src;
               Done (Some dst)
             else Done None
         end);
  match r with
  | None => Done (mk_buf None 0 0 (data_pos buf) (flags buf) (fd buf), SHERR_NOBUFS)
  | Some d => Done (mk_buf (Some d) (data_of buf) new_max (data_pos buf) (flags buf) (fd buf), 0)
  end.

(** Returns the buffer and the error code.  [block_len] is an [int], and so is
    the product [block_len * 8192], whose overflow is undefined. *)
Definition shbuf_grow (buf : shbuf_t) (data_len : Z) : outcome (shbuf_t * Z) :=
  let block_len := sint 32 (u64 (data_len + 1) / 8192 + 1) in
  let want := block_len * 8192 in
  if (INT_MAX <? want) || (want <? - INT_MAX - 1) then Fault
  else if u64 want <=? data_max buf then Done (buf, 0)
  else if has_flag (flags buf) SHBUF_FMAP then Done (buf, SHERR_OPNOTSUPP)
  else grow_alloc buf (u64 want).

(** The error of [shbuf_grow] is logged and otherwise ignored. *)
Definition shbuf_cat (buf : shbuf_t) (src : bytes) : outcome shbuf_t :=
  let data_len := Z.of_nat (length src) in
  r <-! shbuf_grow buf (u64 (u64 (data_of buf + data_len) + 1));
  let buf := fst r in
  d <-! (match data buf with
         | None => if decide (src = []) then Done None else Fault
         | Some d => d' <-! mem_write d (Z.to_nat (data_of buf)) src; Done (Some d')
         end);
  Done (mk_buf d (u64 (data_of buf + data_len)) (data_max buf) (data_pos buf) (flags buf) (fd buf)).

Definition shbuf_catstr (buf : shbuf_t) (str : bytes) : outcome shbuf_t := shbuf_cat buf (cstring str).

(** Copies the first [MIN(data_len, size)] bytes over the start of [dst]. *)
Definition shbuf_memcpy (buf : shbuf_t) (dst : bytes) (data_len : Z) : outcome bytes :=
  let buf_len := Z.min data_len (shbuf_size (Some buf)) in
  match data buf with
  | None => if buf_len =? 0 then Done dst else Fault
  | Some d => src <-! mem_read d 0 (Z.to_nat buf_len); mem_write dst 0 src
  end.

(** [for (i = 0; i < data_of; i++)] with an [int] index; the result -1 becomes
    SIZE_MAX. *)
Fixpoint idx_loop (i : Z) (l : bytes) (ch : Z) : outcome Z :=
  match l with
  | [] => Done (u64 (-1))
  | c :: l' => if INT_MAX <? i then Fault else if c =? ch then Done i else idx_loop (i + 1) l' ch
  end.
Definition shbuf_idx (buf : shbuf_t) (ch : Z) : outcome Z :=
  match data buf with
  | None => if data_of buf =? 0 then Done (u64 (-1)) else Fault
  | Some d => l <-! mem_read d 0 (Z.to_nat (data_of buf)); idx_loop 0 l ch
  end.

(** Three parts: the early returns, the clearing branch and the shift. *)
Definition shbuf_trim (buf : shbuf_t) (len : Z) : outcome shbuf_t :=
  match data buf with
  | None => Done buf
  | Some d =>
      let len := Z.min len (data_of buf) in
      if len =? 0 then Done buf
      else if data_of buf =? len then
        d <-! mem_write d 0 (replicate (Z.to_nat len) 0);
        Done (mk_buf (Some d) 0 (data_max buf) (data_pos buf) (flags buf) (fd buf))
      else
        let nlen := data_of buf - len in
        src <-! mem_read d (Z.to_nat len) (Z.to_nat nlen);
        d <-! mem_write d 0 src;
        d <-! mem_write d (Z.to_nat nlen) (replicate (Z.to_nat (data_max buf - nlen)) 0);
        Done (mk_buf (Some d) nlen (data_max buf) (data_pos buf) (flags buf) (fd buf))
  end.

Definition shbuf_clear (buf : shbuf_t) : outcome shbuf_t := shbuf_trim buf (data_of buf).

Definition shbuf_truncate (buf : shbuf_t) (len : Z) : outcome shbuf_t :=
  match data buf with
  | None => Done buf
  | Some d =>
      let len := Z.min len (data_of buf) in
      if len =? 0 then Done buf
      else if data_of buf =? len then Done buf
      else
        let nlen := data_of buf - len in
        d <-! mem_write d (Z.to_nat len) (replicate (Z.to_nat nlen) 0);
        Done (mk_buf (Some d) len (data_max buf) (data_pos buf) (flags buf) (fd buf))
  end.

(** The two buffers are distinct objects. *)
Definition shbuf_append (from_buff : option shbuf_t) (to_buff : shbuf_t) : outcome shbuf_t :=
  match from_buff with
  | None => Done to_buff
  | Some f =>
      match data f with
      | None => if data_of f =? 0 then shbuf_cat to_buff [] else Fault
      | Some d => src <-! mem_read d 0 (Z.to_nat (data_of f)); shbuf_cat to_buff src
      end
  end.

Definition shbuf_clone (buff : option shbuf_t) : outcome shbuf_t := shbuf_append buff shbuf_init.

Definition shbuf_pos (buff : shbuf_t) : Z := data_pos buff.
Definition shbuf_pos_set (buff : shbuf_t) (pos : Z) : shbuf_t :=
  mk_buf (data buff) (data_of buff) (data_max buff) (Z.min (data_of buff) pos) (flags buff) (fd buff).
Definition shbuf_pos_incr (buff : shbuf_t) (pos : Z) : shbuf_t :=
  shbuf_pos_set buff (u64 (shbuf_pos buff + pos)).

(** [memcmp] of the sizes' worth of bytes. *)
Definition shbuf_cmp (buff cmp_buff : shbuf_t) : outcome bool :=
  if negb (data_of buff =? data_of cmp_buff) then Done false
  else if data_of buff =? 0 then Done true
  else match data buff, data cmp_buff with
       | Some a, Some b =>
           x <-! mem_read a 0 (Z.to_nat (data_of buff));
           y <-! mem_read b 0 (Z.to_nat (data_of buff));
           Done (bool_decide (x = y))
       | _, _ => Fault
       end.

(** [for (of = shbuf_size(buff); of < len; of++) shbuf_cat(buff, null, 1);] *)
Fixpoint padd_loop (n : nat) (buff : shbuf_t) : outcome shbuf_t :=
  match n with
  | O => Done buff
  | S n' => buff <-! shbuf_cat buff [0]; padd_loop n' buff
  end.
Definition shbuf_padd (buff : shbuf_t) (len : Z) : outcome shbuf_t :=
  padd_loop (Z.to_nat (len - data_of buff)) buff.

(** The loop that writes zero blocks until the file reaches [map_newlen];
    every successful write adds one whole block. *)
Fixpoint extend_file (fuel : nat) (file : bytes) (map_newlen : Z) : outcome (bytes * bool) :=
  if Z.of_nat (length file) <? map_newlen then
    match fuel with
    | O => Fault
    | S fuel' =>
        if write_ok E (Z.of_nat (length file))
        then extend_file fuel' (file ++ replicate (Z.to_nat (page_size E)) 0) map_newlen
        else Done (file, false)
    end
  else Done (file, true).

(** [file] is the content of the file behind [fd]; the result is the buffer,
    the file and the error code. *)
Definition shbuf_growmap (buf : shbuf_t) (file : bytes) (data_len : Z) : outcome (shbuf_t * bytes * Z) :=
  let map_data := data buf in
  let map_len := match data buf with Some _ => data_max buf | None => 0 end in
  if data_len <=? map_len then Done (buf, file, 0)
  else
    let is_file := 0 <? fd buf in
    let buf := mk_buf None (if is_file then 0 else data_of buf) 0 (data_pos buf) (flags buf) (fd buf) in
    let block_size := page_size E in
    if is_file then
      let data_len := Z.max data_len block_size in
      let map_newlen := (data_len / block_size) * block_size in
      r <-! extend_file (Z.to_nat map_newlen) file map_newlen;
      (let '(file, ok) := r in
       if negb ok then Done (buf, file, - write_errno E)
       else if mmap_ok E then
         Done (mk_buf (Some (take (Z.to_nat map_newlen) file)) map_newlen map_newlen
                 (data_pos buf) (Z.lor (flags buf) SHBUF_FMAP) (fd buf), file, 0)
       else Done (buf, file, SHERR_NOBUFS))
    else
      let map_newlen := (data_len / block_size + 1) * block_size in
      if mmap_ok E then
        d <-! (match map_data with
               | None => Done (replicate (Z.to_nat map_newlen) 0)
               | Some d => src <-! mem_read d 0 (Z.to_nat map_len);
                           mem_write (replicate (Z.to_nat map_newlen) 0) 0 src
               end);
        Done (mk_buf (Some d) (data_of buf) map_newlen (data_pos buf)
                (Z.lor (flags buf) SHBUF_FMAP) (fd buf), file, 0)
      else Done (buf, file, SHERR_NOBUFS).

(** [shbuf_file]: [fdn] is the descriptor [open] returned, -1 when it failed,
    and [file] the content of the file, empty for one that was just created.
    The result is the buffer and the file.  The directories made on the way
    and the log are left out. *)
Definition shbuf_file (fdn : Z) (file : bytes) : outcome (option shbuf_t * bytes) :=
  if fdn =? -1 then Done (None, file)
  else
    let block_size := SHARE_PAGE_SIZE in
    let block_len := Z.max 1 (Z.max (Z.of_nat (length file) / block_size) 2) in
    let len := block_size * block_len in
    r <-! shbuf_growmap (mk_buf None 0 0 0 0 fdn) file len;
    (let '(buff, file, err) := r in
     if err =? 0 then Done (Some buff, file) else Done (None, file)).

End operations.

(** ** Well-formed buffers and their abstract value *)

Definition wf (buf : shbuf_t) : Prop :=
  0 <= data_of buf <= data_max buf /\
  match data buf with
  | None => data_max buf = 0
  | Some d => Z.of_nat (length d) = data_max buf
  end.

Definition contents (buf : shbuf_t) : bytes :=
  match data buf with None => [] | Some d => take (Z.to_nat (data_of buf)) d end.

(** Largest request whose block count times 8192 fits an [int]. *)
Definition GROW_LIMIT : Z := INT_MAX - 8193.

Lemma contents_length buf : wf buf -> Z.of_nat (length (contents buf)) = data_of buf.
Proof.
  intros [H1 H2]. unfold contents. destruct (data buf) as [d|]; [llia | simpl; lia].
Qed.

Lemma wf_init : wf shbuf_init.
Proof. split; [simpl; lia | done]. Qed.

(** The fields no operation below changes. *)
Definition same_attrs (a b : shbuf_t) : Prop := flags a = flags b /\ fd a = fd b.

Lemma same_attrs_trans a b c : same_attrs a b -> same_attrs b c -> same_attrs a c.
Proof. intros [H1 H2] [H3 H4]. split; congruence. Qed.

(** The fields of a constructed buffer. *)
Ltac buf_fields := unfold wf, contents, same_attrs;
  cbn [data data_of data_max data_pos flags fd].

Section lemmas.
Context (E : env).

Lemma grow_block n :
  0 <= n <= GROW_LIMIT -> sint 32 (u64 (n + 1) / 8192 + 1) = (n + 1) / 8192 + 1.
Proof.
  intros H. unfold GROW_LIMIT, INT_MAX in H. rewrite (wrap_small 64) by rlia.
  unfold sint. rewrite wrap_small by (ranges; mlia).
  change (2 ^ (32 - 1)) with 2147483648. case_cmp; [done | mlia].
Qed.

(** Below the limit the block count does not overflow. *)
Lemma grow_want buf n :
  0 <= n <= GROW_LIMIT ->
  exists want, n + 2 <= want <= INT_MAX /\
    shbuf_grow E buf n =
      (if want <=? data_max buf then Done (buf, 0)
       else if has_flag (flags buf) SHBUF_FMAP then Done (buf, SHERR_OPNOTSUPP)
       else grow_alloc E buf want).
Proof.
  intros Hn. exists (((n + 1) / 8192 + 1) * 8192). unfold shbuf_grow. rewrite grow_block by done.
  unfold GROW_LIMIT, INT_MAX in Hn. set (want := ((n + 1) / 8192 + 1) * 8192).
  assert (n + 2 <= want <= 2147483647) as Hw by (unfold want; mlia). clearbody want.
  split; [done |]. assert ((INT_MAX <? want) || (want <? - INT_MAX - 1) = false) as -> by (unfold INT_MAX; lia).
  by rewrite (wrap_small 64) by rlia.
Qed.

Lemma length_realloc d n : length (realloc E d n) = Z.to_nat n.
Proof. unfold realloc. llia. Qed.

Context (Hcalloc : forall n, calloc_ok E n = true).

(** Growing keeps the first bytes of the allocation. *)
Lemma grow_ok buf n :
  wf buf -> has_flag (flags buf) SHBUF_FMAP = false -> 0 <= n <= GROW_LIMIT ->
  exists buf', shbuf_grow E buf n = Done (buf', 0) /\ wf buf' /\ n + 2 <= data_max buf' /\
    contents buf' = contents buf /\ data_of buf' = data_of buf /\ data_pos buf' = data_pos buf /\
    same_attrs buf' buf.
Proof.
  intros [Hof Hd] Hf Hn. destruct (grow_want buf n Hn) as (want & Hw & ->). rewrite Hf.
  unfold INT_MAX in Hw. unfold grow_alloc. case_cmp.
  { exists buf. unfold wf, same_attrs. split_and!; (done || lia). }
  assert (forall d, length d = Z.to_nat want ->
    take (Z.to_nat (data_of buf)) d = contents buf ->
    let b' := mk_buf (Some d) (data_of buf) want (data_pos buf) (flags buf) (fd buf) in
    wf b' /\ n + 2 <= data_max b' /\ contents b' = contents buf /\ same_attrs b' buf) as Hb.
  { intros d Hl <- b'. unfold b', wf, same_attrs, contents. cbn [data data_of data_max flags fd]. split_and!; (done || lia). }
  unfold contents in Hb. destruct (data buf) as [d|] eqn:Ed; rewrite ?Hcalloc; cbn [obind].
  - destruct (realloc_ok E want); cbn [obind].
    + eexists. split; [done |]. destruct (Hb (realloc E d want)) as (? & ? & ? & ?); [apply length_realloc | |].
      * unfold realloc. rewrite take_app_le by llia. rewrite take_take. f_equal. lia.
      * by unfold contents; rewrite Ed.
    + rewrite mem_read_ok by lia. cbn [obind]. rewrite drop_0, take_ge by lia.
      rewrite mem_write_ok by llia. cbn [obind].
      eexists. split; [done |].
      destruct (Hb ([] ++ d ++ drop (0 + length d) (replicate (Z.to_nat want) 0))) as (? & ? & ? & ?).
      * simpl. llia.
      * simpl. rewrite take_app_le by lia. done.
      * by unfold contents; rewrite Ed.
  - eexists. split; [done |]. assert (data_of buf = 0) as E0 by lia.
    destruct (Hb (replicate (Z.to_nat want) 0)) as (? & ? & ? & ?); [apply length_replicate | by rewrite E0 |].
    by unfold contents; rewrite Ed.
Qed.

Lemma cat_ok buf src :
  wf buf -> has_flag (flags buf) SHBUF_FMAP = false ->
  data_of buf + Z.of_nat (length src) + 1 <= GROW_LIMIT ->
  exists buf', shbuf_cat E buf src = Done buf' /\ wf buf' /\ contents buf' = contents buf ++ src /\
    data_of buf' = data_of buf + Z.of_nat (length src) /\ data_pos buf' = data_pos buf /\ same_attrs buf' buf.
Proof.
  intros Hwf Hf Hn. pose proof Hwf as [Hof _]. unfold GROW_LIMIT, INT_MAX in Hn. unfold shbuf_cat.
  rewrite (wrap_small 64 (data_of buf + _)) by rlia. rewrite wrap_small by rlia.
  destruct (grow_ok buf (data_of buf + Z.of_nat (length src) + 1)) as (b & Eg & [Hb1 Hb2] & Hm & Hc & Ho & Hp & Ha);
    [done | done | unfold GROW_LIMIT, INT_MAX; lia |].
  rewrite Eg. cbn [obind fst]. unfold contents in Hc. destruct (data b) as [d|] eqn:Ed; [|lia].
  rewrite mem_write_ok by lia. cbn [obind]. rewrite Ho. rewrite wrap_small by rlia.
  eexists. split; [done |]. buf_fields.
  split_and!; try done; try lia; try apply Ha.
  - llia.
  - rewrite Ho in Hc. rewrite app_assoc, take_app_length'; [by rewrite Hc |].
    llia.
Qed.

Lemma trim_ok buf n :
  wf buf -> 0 <= n ->
  exists buf', shbuf_trim buf n = Done buf' /\ wf buf' /\
    contents buf' = drop (Z.to_nat n) (contents buf) /\ same_attrs buf' buf.
Proof.
  intros [Hof Hd] Hn. unfold shbuf_trim. destruct (data buf) as [d|] eqn:Ed.
  2:{ exists buf. unfold contents. rewrite Ed. split_and!; try done. unfold wf. rewrite Ed. done. by destruct (Z.to_nat n). }
  unfold contents at 2. rewrite Ed. case_cmp as [E0|E0].
  { exists buf. split_and!; try done; [unfold wf; by rewrite Ed |]. unfold contents. rewrite Ed.
    destruct (decide (n = 0)) as [->|]; [done |]. assert (data_of buf = 0) as -> by lia. by destruct (Z.to_nat n). }
  case_cmp as [E1|E1].
  - rewrite mem_write_ok by llia. cbn [obind]. eexists. split; [done |].
    buf_fields. split_and!; try done; try lia.
    + llia.
    + rewrite (drop_ge (take _ d)); [done | llia].
  - assert (0 < n < data_of buf) as Hn' by lia.
    replace (Z.min n (data_of buf)) with n in * by lia. rewrite mem_read_ok by lia. cbn [obind].
    set (src := take _ (drop _ d)). assert (length src = Z.to_nat (data_of buf - n)) as Hs.
    { unfold src. llia. }
    rewrite mem_write_ok by (rewrite Hs; lia). cbn [obind take app].
    rewrite mem_write_ok.
    2:{ llia. }
    cbn [obind]. eexists. split; [done |]. buf_fields. split_and!; try done; try lia.
    + llia.
    + rewrite take_app_le by llia.
      rewrite take_take, Nat.min_id, take_0, app_nil_l, take_app_length' by done. unfold src.
      rewrite take_drop_commute. do 2 f_equal. lia.
Qed.

Lemma truncate_ok buf n :
  wf buf -> 0 <= n ->
  exists buf', shbuf_truncate buf n = Done buf' /\ wf buf' /\
    contents buf' = (if n =? 0 then contents buf else take (Z.to_nat n) (contents buf)) /\ same_attrs buf' buf.
Proof.
  intros [Hof Hd] Hn. unfold shbuf_truncate. destruct (data buf) as [d|] eqn:Ed.
  2:{ exists buf. unfold contents. rewrite Ed. split_and!; try done; [unfold wf; by rewrite Ed |].
      rewrite take_nil. by destruct (n =? 0). }
  unfold contents at 2 3. rewrite Ed. case_cmp as [E0|E0].
  { exists buf. split_and!; try done; [unfold wf; by rewrite Ed |]. unfold contents. rewrite Ed.
    case_cmp; [done |]. assert (data_of buf = 0) as -> by lia. by destruct (Z.to_nat n). }
  destruct (Z.eqb_spec n 0); [lia |]. case_cmp as [E1|E1].
  - exists buf. split_and!; try done; [unfold wf; by rewrite Ed |]. unfold contents. rewrite Ed, take_take. f_equal. lia.
  - assert (0 < n < data_of buf) as Hn' by lia. replace (Z.min n (data_of buf)) with n in * by lia.
    rewrite mem_write_ok by llia. cbn [obind]. eexists. split; [done |].
    buf_fields. split_and!; try done; try lia.
    + llia.
    + rewrite take_app_le by llia. rewrite !take_take. f_equal. lia.
Qed.

Lemma padd_ok n buf :
  wf buf -> has_flag (flags buf) SHBUF_FMAP = false -> data_of buf + Z.of_nat n + 1 <= GROW_LIMIT ->
  exists buf', padd_loop E n buf = Done buf' /\ wf buf' /\ contents buf' = contents buf ++ replicate n 0 /\
    same_attrs buf' buf.
Proof.
  revert buf. induction n as [|n IH]; intros buf Hwf Hf Hn.
  - exists buf. simpl. by rewrite app_nil_r.
  - destruct (cat_ok buf [0]) as (b & Ec & Hb & Hc & Ho & _ & Ha); [done | done | simpl; lia |].
    destruct (IH b) as (b' & Ep & Hb' & Hc' & Ha'); [done | by rewrite (proj1 Ha) | simpl in Ho; lia |].
    exists b'. cbn [padd_loop]. rewrite Ec. cbn [obind]. split_and!; try done.
    + rewrite Hc', Hc, <- app_assoc. done.
    + by eapply same_attrs_trans.
Qed.
End lemmas.

Lemma read_contents buf d :
  wf buf -> data buf = Some d -> mem_read d 0 (Z.to_nat (data_of buf)) = Done (contents buf).
Proof.
  intros [Hof Hd] Ed. rewrite Ed in Hd. rewrite mem_read_ok by lia. unfold contents. by rewrite Ed, drop_0.
Qed.

Lemma wf_null buf : wf buf -> data buf = None -> data_of buf = 0 /\ contents buf = [].
Proof. intros [Hof Hd] Ed. unfold contents. rewrite Ed in *. split; [lia | done]. Qed.

(** ** Sequences of operations against byte strings *)

Inductive op : Type :=
| Cat (src : bytes)
| CatStr (str : bytes)
| Trim (len : Z)
| Clear
| Truncate (len : Z)
| Padd (len : Z).

Definition step (E : env) (o : op) (buf : shbuf_t) : outcome shbuf_t :=
  match o with
  | Cat src => shbuf_cat E buf src
  | CatStr str => shbuf_catstr E buf str
  | Trim len => shbuf_trim buf len
  | Clear => shbuf_clear buf
  | Truncate len => shbuf_truncate buf len
  | Padd len => shbuf_padd E buf len
  end.

Fixpoint run (E : env) (ops : list op) (buf : shbuf_t) : outcome shbuf_t :=
  match ops with
  | [] => Done buf
  | o :: ops' => buf <-! step E o buf; run E ops' buf
  end.

(** The specification: what each operation does to the byte string. *)
Definition spec_step (o : op) (l : bytes) : bytes :=
  match o with
  | Cat src => l ++ src
  | CatStr str => l ++ cstring str
  | Trim len => drop (Z.to_nat len) l
  | Clear => []
  | Truncate len => if len =? 0 then l else take (Z.to_nat len) l
  | Padd len => l ++ replicate (Z.to_nat len - length l) 0
  end.

Definition spec_run (ops : list op) (l : bytes) : bytes := fold_left (fun l o => spec_step o l) ops l.

Definition arg_ok (o : op) : bool :=
  match o with
  | Trim len | Truncate len | Padd len => 0 <=? len
  | _ => true
  end.

(** Every intermediate length leaves room for the terminator below the limit. *)
Fixpoint fits (ops : list op) (l : bytes) : bool :=
  match ops with
  | [] => true
  | o :: ops' =>
      arg_ok o && (Z.of_nat (length (spec_step o l)) + 1 <=? GROW_LIMIT) && fits ops' (spec_step o l)
  end.

Lemma step_ok E o buf :
  (forall n, calloc_ok E n = true) -> wf buf -> has_flag (flags buf) SHBUF_FMAP = false ->
  arg_ok o = true -> Z.of_nat (length (spec_step o (contents buf))) + 1 <= GROW_LIMIT ->
  exists buf', step E o buf = Done buf' /\ wf buf' /\ contents buf' = spec_step o (contents buf) /\
    same_attrs buf' buf.
Proof.
  intros Hc Hwf Hf Ha Hl. pose proof (contents_length buf Hwf) as Hlen.
  destruct o as [src|str|n| |n|n]; cbn [step spec_step arg_ok] in *.
  - destruct (cat_ok E Hc buf src) as (b & ? & ? & ? & _ & _ & ?); [done | done | llia |]. by exists b.
  - destruct (cat_ok E Hc buf (cstring str)) as (b & ? & ? & ? & _ & _ & ?); [done | done | llia |]. by exists b.
  - apply trim_ok; [done | lia].
  - destruct (trim_ok buf (data_of buf)) as (b & Eb & Hw & Hcn & Hat); [done | destruct Hwf; lia |].
    exists b. split_and!; try done. by rewrite Hcn, drop_ge by lia.
  - apply truncate_ok; [done | lia].
  - destruct (padd_ok E Hc (Z.to_nat (n - data_of buf)) buf) as (b & Eb & Hw & Hcn & Hat); [done | done | llia |].
    exists b. split_and!; try done. rewrite Hcn. do 2 f_equal. destruct Hwf. lia.
Qed.

Lemma run_ok E ops buf :
  (forall n, calloc_ok E n = true) -> wf buf -> has_flag (flags buf) SHBUF_FMAP = false ->
  fits ops (contents buf) = true ->
  exists buf', run E ops buf = Done buf' /\ wf buf' /\ contents buf' = spec_run ops (contents buf).
Proof.
  intros Hc. revert buf. induction ops as [|o ops IH]; intros buf Hwf Hf H; [by exists buf |].
  cbn [fits] in H. apply andb_prop in H as [[Ha Hl]%andb_prop Hr].
  destruct (step_ok E o buf) as (b & Eb & Hw & Hcn & Hat); [done.. | lia |].
  cbn [run]. rewrite Eb. cbn [obind]. rewrite <- Hcn in Hr.
  destruct (IH b Hw) as (b' & Er & Hw' & Hcn'); [by rewrite (proj1 Hat) | done |].
  exists b'. split_and!; try done. by rewrite Hcn', Hcn.
Qed.

(** C23: Starting from [shbuf_init], any sequence of the editing operations
    ([shbuf_cat], [shbuf_catstr], [shbuf_trim], [shbuf_clear],
    [shbuf_truncate], [shbuf_padd]) whose lengths stay below the 2 GB limit of
    the [int] block count never touches memory outside the allocation, keeps
    the buffer well formed, and leaves exactly the byte string that the
    specification computes, whether or not [realloc] succeeds. *)
Theorem shbuf_refines (E : env) (ops : list op) :
  (forall n, calloc_ok E n = true) -> fits ops [] = true ->
  exists buf, run E ops shbuf_init = Done buf /\ wf buf /\ contents buf = spec_run ops [].
Proof. intros Hc H. by apply run_ok; [| apply wf_init | |]. Qed.

Definition demo_env (ok : bool) : env := mk_env (fun _ => ok) (fun _ => false) (fun _ => 170) 4096 (fun _ => true) (-28) true.

Lemma shbuf_refines_witness :
  exists buf, run (demo_env true) [CatStr (cstr "share"); Padd 8; Trim 2; Truncate 4; Cat [7]; Truncate 0] shbuf_init = Done buf
    /\ wf buf /\ contents buf = [97; 114; 101; 0; 7].
Proof.
  apply (shbuf_refines (demo_env true) [CatStr (cstr "share"); Padd 8; Trim 2; Truncate 4; Cat [7]; Truncate 0]);
    [reflexivity | vm_compute; reflexivity].
Defined.

(** A copy made by [shbuf_clone] holds the bytes of the original, and
    [shbuf_cmp] recognises it. *)
Theorem shbuf_clone_cmp (E : env) (buf : shbuf_t) :
  (forall n, calloc_ok E n = true) -> wf buf -> data_of buf + 1 <= GROW_LIMIT ->
  exists buf', shbuf_clone E (Some buf) = Done buf' /\ contents buf' = contents buf /\
    shbuf_cmp buf buf' = Done true.
Proof.
  intros Hc Hwf Hn. pose proof (contents_length buf Hwf) as Hlen.
  destruct (cat_ok E Hc shbuf_init (contents buf)) as (b & Eb & Hw & Hcn & Ho & _);
    [apply wf_init | done | cbn [data_of shbuf_init]; lia |]. cbn [data_of shbuf_init] in Ho. cbn in Hcn.
  exists b. rewrite Hlen, Z.add_0_l in Ho. unfold shbuf_clone, shbuf_append, shbuf_cmp. rewrite Ho, Z.eqb_refl. cbn [negb].
  destruct (data buf) as [d|] eqn:Ed.
  - rewrite (read_contents buf) by done. cbn [obind]. split_and!; try done.
    case_cmp as [|H0]; [done |]. destruct (data b) as [e|] eqn:Ee; [|destruct (wf_null b Hw Ee); lia].
    pose proof (read_contents b e Hw Ee) as Hr. rewrite Ho in Hr. rewrite Hr. cbn [obind]. by rewrite Hcn, bool_decide_true.
  - destruct (wf_null buf Hwf Ed) as [E0 E1]. rewrite E1, E0 in *. by rewrite Eb.
Qed.

Lemma shbuf_clone_cmp_witness :
  exists buf', shbuf_clone (demo_env true) (Some (shbuf_map [1; 2; 0])) = Done buf' /\
    contents buf' = contents (shbuf_map [1; 2; 0]) /\ shbuf_cmp (shbuf_map [1; 2; 0]) buf' = Done true.
Proof.
  apply (shbuf_clone_cmp (demo_env true) (shbuf_map [1; 2; 0])); [reflexivity | by split | vm_compute; discriminate].
Defined.

Lemma idx_loop_spec l i ch :
  0 <= i -> i + Z.of_nat (length l) <= INT_MAX ->
  match list_find (fun c => c = ch) l with
  | Some (k, _) => idx_loop i l ch = Done (i + Z.of_nat k)
  | None => idx_loop i l ch = Done (2 ^ 64 - 1)
  end.
Proof.
  revert i. induction l as [|c l IH]; intros i Hi Hl; [done |]. cbn [idx_loop list_find length] in *.
  case_cmp; [lia |]. case_cmp as [->|Hne]; [rewrite decide_True by done; f_equal; lia |]. rewrite decide_False by done.
  specialize (IH (i + 1)). destruct (list_find _ l) as [[k y]|]; cbn; rewrite IH; (lia || f_equal; lia).
Qed.

(** [shbuf_idx] returns the position of the first occurrence of the byte,
    and SIZE_MAX (its -1) when the buffer does not hold it. *)
Theorem shbuf_idx_first (buf : shbuf_t) (ch : Z) :
  wf buf -> data_of buf <= INT_MAX ->
  shbuf_idx buf ch = Done (match list_find (fun c => c = ch) (contents buf) with
                           | Some (k, _) => Z.of_nat k
                           | None => 2 ^ 64 - 1
                           end).
Proof.
  intros Hwf Hn. pose proof (contents_length buf Hwf) as Hlen. unfold shbuf_idx.
  destruct (data buf) as [d|] eqn:Ed.
  - rewrite (read_contents buf) by done. cbn [obind].
    pose proof (idx_loop_spec (contents buf) 0 ch) as H.
    destruct (list_find _ (contents buf)) as [[k y]|]; rewrite H; (lia || done).
  - destruct (wf_null buf Hwf Ed) as [-> ->]. done.
Qed.

Lemma shbuf_idx_first_witness :
  shbuf_idx (shbuf_map (cstr "shared")) 114 = Done 3.
Proof. apply (shbuf_idx_first (shbuf_map (cstr "shared")) 114); [by split | discriminate]. Defined.

(** ** Errors that are not handled *)

Lemma grow_mapped E buf n :
  wf buf -> has_flag (flags buf) SHBUF_FMAP = true -> 0 <= n <= GROW_LIMIT -> data_max buf < n ->
  shbuf_grow E buf n = Done (buf, SHERR_OPNOTSUPP).
Proof.
  intros Hwf Hf Hn Hm. destruct (grow_want E buf n Hn) as (want & Hw & ->). rewrite Hf.
  by case_cmp; [lia |].
Qed.

(** [shbuf_grow] refuses to enlarge a mapped buffer, [shbuf_cat] ignores
    the refusal: appending bytes that do not fit the mapping writes past its
    end. *)
Theorem shbuf_cat_mapped_overrun (E : env) (buf : shbuf_t) (src : bytes) :
  wf buf -> data buf <> None -> has_flag (flags buf) SHBUF_FMAP = true ->
  data_max buf < data_of buf + Z.of_nat (length src) ->
  data_of buf + Z.of_nat (length src) + 1 <= GROW_LIMIT ->
  shbuf_cat E buf src = Fault.
Proof.
  intros Hwf Hd Hf Hover Hn. pose proof Hwf as [Hof Hl]. unfold shbuf_cat.
  unfold GROW_LIMIT, INT_MAX in Hn. rewrite (wrap_small 64 (data_of buf + _)) by rlia.
  rewrite wrap_small by rlia. rewrite grow_mapped; [| done | done | unfold GROW_LIMIT, INT_MAX; lia | lia].
  cbn [obind fst]. destruct (data buf) as [d|]; [|done].
  unfold mem_write. rewrite decide_False by lia. done.
Qed.

Definition mapped_page : shbuf_t := mk_buf (Some (replicate 4096 0)) 4090 4096 0 SHBUF_FMAP 0.

Lemma shbuf_cat_mapped_overrun_witness : shbuf_cat (demo_env true) mapped_page (cstr "overrun") = Fault.
Proof.
  apply shbuf_cat_mapped_overrun; [split; [vm_compute; by split | reflexivity] | discriminate | reflexivity
    | vm_compute; reflexivity | vm_compute; discriminate].
Defined.

(** When neither [realloc] nor [calloc] finds memory, [shbuf_grow] reports
    SHERR_NOBUFS and clears the pointer; [shbuf_cat] then copies to NULL. *)
Theorem shbuf_cat_out_of_memory (E : env) (src : bytes) :
  (forall n, calloc_ok E n = false) -> src <> [] -> Z.of_nat (length src) + 1 <= GROW_LIMIT ->
  shbuf_grow E shbuf_init (Z.of_nat (length src) + 1) = Done (shbuf_init, SHERR_NOBUFS) /\
  shbuf_cat E shbuf_init src = Fault.
Proof.
  intros Hc Hs Hn. assert (shbuf_grow E shbuf_init (Z.of_nat (length src) + 1) = Done (shbuf_init, SHERR_NOBUFS)) as Hg.
  { destruct (grow_want E shbuf_init (Z.of_nat (length src) + 1)) as (want & Hw & ->); [lia |].
    unfold grow_alloc. cbn [data_max data shbuf_init flags]. case_cmp; [lia |]. by rewrite Hc. }
  split; [done |]. unfold shbuf_cat. unfold GROW_LIMIT, INT_MAX in Hn. cbn [data_of shbuf_init].
  rewrite Z.add_0_l, (wrap_small 64 (Z.of_nat _)) by rlia. rewrite wrap_small by rlia. rewrite Hg.
  cbn [obind fst data shbuf_init]. by rewrite decide_False.
Qed.

Lemma shbuf_cat_out_of_memory_witness :
  shbuf_grow (demo_env false) shbuf_init 2 = Done (shbuf_init, SHERR_NOBUFS) /\
  shbuf_cat (demo_env false) shbuf_init [65] = Fault.
Proof. apply (shbuf_cat_out_of_memory (demo_env false) [65]); [reflexivity | discriminate | vm_compute; discriminate]. Defined.

Lemma extend_file_ok E fuel file n :
  0 < page_size E -> (forall k, write_ok E k = true) -> n <= Z.of_nat (length file) + Z.of_nat fuel ->
  exists k, extend_file E fuel file n = Done (file ++ replicate k 0, true) /\ n <= Z.of_nat (length file + k).
Proof.
  intros Hp Hw. revert file. induction fuel as [|fuel IH]; intros file Hn; cbn [extend_file];
    case_cmp as [Hlt|Hge]; try (exists 0%nat; rewrite app_nil_r; split; [done | lia]); [lia |].
  rewrite Hw. destruct (IH (file ++ replicate (Z.to_nat (page_size E)) 0)) as (k & Ep & Hle); [llia |].
  exists (Z.to_nat (page_size E) + k)%nat. rewrite replicate_add, app_assoc. split; [done |].
  rewrite length_app, length_replicate in Hle. lia.
Qed.

(** Growing the mapping of a file to a whole number of pages adds zero bytes:
    the code writes them to the file. *)
Lemma growmap_file_ok E buf file n :
  0 < page_size E -> (forall k, write_ok E k = true) -> mmap_ok E = true ->
  0 < fd buf -> (match data buf with Some _ => data_max buf | None => 0 end) < n -> page_size E <= n -> n mod page_size E = 0 ->
  exists k, n <= Z.of_nat (length file + k) /\
    shbuf_growmap E buf file n =
      Done (mk_buf (Some (take (Z.to_nat n) (file ++ replicate k 0))) n n (data_pos buf) (Z.lor (flags buf) SHBUF_FMAP) (fd buf),
            file ++ replicate k 0, 0).
Proof.
  intros Hp Hw Hm Hfd Hlt Hn Hr. unfold shbuf_growmap. destruct (Z.leb_spec n (match data buf with Some _ => data_max buf | None => 0 end)); [lia |].
  destruct (Z.ltb_spec 0 (fd buf)); [|lia]. rewrite Z.max_l by lia. assert (n / page_size E * page_size E = n) as ->.
  { rewrite Z.mul_comm. symmetry. by apply Z_div_exact_2; [lia |]. }
  destruct (extend_file_ok E (Z.to_nat n) file n) as (k & -> & Hle); [done | done | lia |].
  exists k. split; [done |]. cbn [obind negb]. by rewrite Hm.
Qed.

(** [shbuf_growmap] on a file rounds the requested length down to whole
    pages: for every length above one page that is not a multiple of the page
    size it succeeds with a mapping shorter than what was asked for. *)
Theorem shbuf_growmap_short (E : env) (buf : shbuf_t) (file : bytes) (n : Z) :
  0 < page_size E -> (forall k, write_ok E k = true) -> mmap_ok E = true ->
  0 < fd buf -> data buf = None -> page_size E < n -> n mod page_size E <> 0 ->
  exists buf' file', shbuf_growmap E buf file n = Done (buf', file', 0) /\
    data_max buf' = n - n mod page_size E /\ data_max buf' < n /\ wf buf'.
Proof.
  intros Hp Hw Hm Hfd Hd Hn Hr. unfold shbuf_growmap. rewrite Hd. case_cmp; [|lia]. case_cmp; [lia |].
  rewrite Z.max_l by lia. set (p := page_size E) in *. set (len := n / p * p).
  assert (len = n - n mod p) as Hlen by (unfold len; mlia).
  pose proof (Z.mod_pos_bound n p Hp). clearbody len.
  destruct (extend_file_ok E (Z.to_nat len) file len) as (k & -> & Hle); [done | done | lia |].
  cbn [obind negb]. rewrite Hm. eexists _, _. split; [done |]. buf_fields. split_and!; try lia. llia.
Qed.

Lemma shbuf_growmap_short_witness :
  exists buf' file', shbuf_growmap (demo_env true) (mk_buf None 0 0 0 0 3) [] 10000 = Done (buf', file', 0) /\
    data_max buf' = 8192 /\ data_max buf' < 10000 /\ wf buf'.
Proof.
  apply (shbuf_growmap_short (demo_env true) (mk_buf None 0 0 0 0 3) [] 10000);
    first [reflexivity | discriminate | vm_compute; discriminate].
Defined.
