(* ===== verification/ShMap.v ===== *)
(** * The key map

    Models [share-lib/mem/shmem_map.c]: a chained hash table from share keys
    to values the table either owns (a copy in the heap, [SHMAP_ALLOC]) or only
    refers to.  A chain is the list of its entries, a pointer into a chain the
    list from that entry on, and the update pointer [hep] of [find_entry] the
    bucket and the position in its chain.

    The abstract value of a table is a finite map from the 32 bytes of a key to
    the bytes it owns or the pointer it stores. *)

From Stdlib Require Import ZArith Lia String.
From stdpp Require Import base numbers list gmap.
From S2P Require Import Prelude ShCrc ShKey ShBuf Heap.

Open Scope Z_scope.

Definition INITIAL_MAX : Z := 15.
Definition SHMAP_ALLOC : Z := 1.
Definition SHMAP_STRING : Z := Z.shiftl 1 10.
Definition SHMAP_NUMBER : Z := Z.shiftl 1 11.
Definition SHMAP_BINARY : Z := Z.shiftl 1 13.

(** [next] is the rest of the chain the entry is an element of. *)
Record shmap_entry_t : Type := mk_entry {
  hash : Z;
  key : shkey_t;
  val : ptr;
  sz : Z;
  flag : Z
}.

(** [tthis] and [next] are pointers into chains. *)
Record shmap_index_t : Type := mk_index {
  tthis : list shmap_entry_t;
  next : list shmap_entry_t;
  index : Z
}.

(** A recycled entry keeps nothing but its stale hash. *)
Record shmap_t : Type := mk_map {
  array : list (list shmap_entry_t);
  count : Z;
  max : Z;
  free_list : list Z
}.

Section operations.
Context (alloc_ok : Z -> bool).   (* does [calloc] of a value of this size succeed *)

Definition alloc_array (max : Z) : list (list shmap_entry_t) := replicate (Z.to_nat (max + 1)) [].

Definition shmap_init : shmap_t := mk_map (alloc_array INITIAL_MAX) 0 INITIAL_MAX [].

(** ** Iteration *)

Fixpoint next_loop (fuel : nat) (ht : shmap_t) (this : list shmap_entry_t) (index : Z)
  : outcome (option shmap_index_t) :=
  match this with
  | e :: rest => Done (Some (mk_index this rest index))
  | [] =>
      if max ht <? index then Done None
      else match fuel with
           | O => Fault
           | S fuel' =>
               match array ht !! Z.to_nat index with
               | Some c => next_loop fuel' ht c (u32 (index + 1))
               | None => Fault
               end
           end
  end.

Definition shmap_next (ht : shmap_t) (hi : shmap_index_t) : outcome (option shmap_index_t) :=
  next_loop (S (length (array ht))) ht (next hi) (index hi).

Definition shmap_first (ht : option shmap_t) : outcome (option shmap_index_t) :=
  match ht with
  | None => Done None
  | Some ht => shmap_next ht (mk_index [] [] 0)
  end.

(** [for (hi = shmap_first(h); hi; hi = shmap_next(hi)) body] *)
Fixpoint for_each {A} (fuel : nat) (ht : shmap_t) (body : A -> shmap_entry_t -> outcome A)
    (hi : option shmap_index_t) (acc : A) : outcome A :=
  match hi with
  | None => Done acc
  | Some hi =>
      match fuel, tthis hi with
      | S fuel', e :: _ =>
          acc <-! body acc e;
          hi' <-! shmap_next ht hi;
          for_each fuel' ht body hi' acc
      | _, _ => Fault
      end
  end.

Definition for_entries {A} (ht : shmap_t) (body : A -> shmap_entry_t -> outcome A) (acc : A) : outcome A :=
  hi <-! shmap_first (Some ht);
  for_each (length (concat (array ht))) ht body hi acc.

(** ** Lookup and update *)

(** Moves one entry to the head of its chain in the new array. *)
Definition rehash (new_max : Z) (new_array : list (list shmap_entry_t)) (e : shmap_entry_t)
  : outcome (list (list shmap_entry_t)) :=
  let i := Z.to_nat (Z.land (hash e) new_max) in
  match new_array !! i with
  | Some c => Done (<[i := e :: c]> new_array)
  | None => Fault
  end.

Definition _expand_array (ht : shmap_t) : outcome shmap_t :=
  let new_max := u32 (max ht * 2) in
  new_array <-! for_entries ht (rehash new_max) (alloc_array new_max);
  Done (mk_map new_array (count ht) new_max (free_list ht)).

Definition shmap_hash_num (key : bytes) : Z := fold_left (fun hash p => u32 (hash * 33 + p)) key 0.

(** The scan of one chain: position of the entry, or of the terminating NULL. *)
Fixpoint scan (hash0 : Z) (img : bytes) (c : list shmap_entry_t) : nat :=
  match c with
  | [] => O
  | he :: c' =>
      if (hash he =? hash0) && bool_decide (shkey_image (key he) = img) then O
      else S (scan hash0 img c')
  end.

(** [None] for a NULL key.  An entry is added when the value is not NULL, from
    the free list when there is one. *)
Definition find_entry (ht : shmap_t) (k : option shkey_t) (v : ptr) : outcome (option (shmap_t * nat * nat)) :=
  match k with
  | None => Done None
  | Some k =>
      let h := shmap_hash_num (shkey_image k) in
      let i := Z.to_nat (Z.land h (max ht)) in
      match array ht !! i with
      | None => Fault
      | Some c =>
          let pos := scan h (shkey_image k) c in
          match c !! pos, v with
          | Some _, _ | None, None => Done (Some (ht, i, pos))
          | None, Some _ =>
              Done (Some (mk_map (<[i := c ++ [mk_entry h k v 0 0]]> (array ht)) (u32 (count ht + 1))
                            (max ht) (tail (free_list ht)), i, pos))
          end
      end
  end.

(** [*hep]: the chain of the bucket and the entry at the position. *)
Definition deref (ht : shmap_t) (i pos : nat) : outcome (list shmap_entry_t * option shmap_entry_t) :=
  match array ht !! i with Some c => Done (c, c !! pos) | None => Fault end.

(** The value pointer and the flag; a NULL key dereferences the NULL that
    [find_entry] returns. *)
Definition shmap_get_ent (ht : option shmap_t) (k : option shkey_t) : outcome (ptr * Z) :=
  match ht with
  | None => Done (NULL, 0)
  | Some ht =>
      r <-! find_entry ht k NULL;
      match r with
      | None => Fault
      | Some (ht, i, pos) =>
          ce <-! deref ht i pos;
          match snd ce with Some he => Done (val he, flag he) | None => Done (NULL, 0) end
      end
  end.

Definition shmap_get (ht : option shmap_t) (k : option shkey_t) : outcome ptr :=
  r <-! shmap_get_ent ht k; Done (fst r).
Definition shmap_get_str := shmap_get.
Definition shmap_get_ptr := shmap_get.
Definition shmap_get_void := shmap_get.

Definition set_array (ht : shmap_t) (a : list (list shmap_entry_t)) : shmap_t :=
  mk_map a (count ht) (max ht) (free_list ht).

(** Unlinks [*hep] and recycles it. *)
Definition delete_entry (h : heap) (ht : shmap_t) (i pos : nat) (c : list shmap_entry_t) (old : shmap_entry_t)
  : outcome (heap * shmap_t) :=
  let ht := mk_map (<[i := take pos c ++ drop (S pos) c]> (array ht)) (u32 (count ht - 1)) (max ht)
              (hash old :: free_list ht) in
  h <-! (if has_flag (flag old) SHMAP_ALLOC then free h (val old) else Done h);
  Done (h, ht).

Definition replace_entry (h : heap) (ht : shmap_t) (i pos : nat) (c : list shmap_entry_t) (cur : shmap_entry_t)
    (map_flag : Z) (data : ptr) (val_size : Z) : outcome (heap * shmap_t) :=
  h <-! (if has_flag (flag cur) SHMAP_ALLOC then free h (val cur) else Done h);
  let ht := set_array ht (<[i := <[pos := mk_entry (hash cur) (key cur) data val_size map_flag]> c]> (array ht)) in
  ht <-! (if max ht <? count ht then _expand_array ht else Done ht);
  Done (h, ht).

(** The value pointer to store: a copy when the flag asks for one.  [None] when
    there is no memory. *)
Definition copy_value (h : heap) (map_flag : Z) (v : ptr) (val_size : Z) : outcome (option (heap * ptr)) :=
  if has_flag map_flag SHMAP_ALLOC then
    if negb (alloc_ok (u64 val_size)) then Done None
    else
      src <-! load h v (u64 val_size);
      let '(h, data) := calloc h (u64 val_size) in
      h <-! store h data src;
      Done (Some (h, data))
  else Done (Some (h, v)).

Definition set_flags (map_flag : Z) (v : ptr) (val_size : Z) : Z * Z :=
  let '(map_flag, val_size) := match v with None => (0, 0) | Some _ => (map_flag, val_size) end in
  (if val_size =? 0 then Z.lor map_flag (Z.lnot SHMAP_ALLOC) else map_flag, val_size).

(** The caller holds a table: the code's test for NULL comes first and returns an
    error.  Of the allocations only that of the copied value can fail here; those
    of an entry and of the chain array succeed. *)
Definition shmap_set_ent (h : heap) (ht : shmap_t) (k : option shkey_t) (map_flag : Z) (v : ptr) (val_size : Z)
  : outcome (heap * shmap_t * Z) :=
  match k with
  | None => Done (h, ht, SHERR_INVAL)
  | Some _ =>
      let '(map_flag, val_size) := set_flags map_flag v val_size in
      cp <-! copy_value h map_flag v val_size;
      match cp with
      | None => Done (h, ht, SHERR_NOMEM)
      | Some (h, data) =>
          fe <-! find_entry ht k data;
          match fe with
          | None => Done (h, ht, SHERR_INVAL)
          | Some (ht, i, pos) =>
              ce <-! deref ht i pos;
              match snd ce, data with
              | None, _ => Done (h, ht, 0)
              | Some old, None => r <-! delete_entry h ht i pos (fst ce) old; Done (r, 0)
              | Some cur, Some _ =>
                  r <-! replace_entry h ht i pos (fst ce) cur map_flag data val_size; Done (r, 0)
              end
          end
      end
  end.

Definition shmap_set (h : heap) (ht : shmap_t) (k : option shkey_t) (v : ptr) : outcome (heap * shmap_t) :=
  r <-! shmap_set_ent h ht k 0 v 0; Done (fst r).
Definition shmap_unset (h : heap) (ht : shmap_t) (name : option shkey_t) : outcome (heap * shmap_t) :=
  shmap_set h ht name NULL.

(** [strlen] of the string a pointer points to: the block must hold a NUL. *)
Definition strlen (h : heap) (p : ptr) : outcome Z :=
  match p with
  | None => Fault
  | Some (b, o) =>
      match blocks h !! b with
      | Some d =>
          let s := cstring (drop (Z.to_nat o) d) in
          if decide (Z.to_nat o + length s < length d)%nat then Done (Z.of_nat (length s)) else Fault
      | None => Fault
      end
  end.

Definition set_string (flg : Z) (h : heap) (ht : shmap_t) (k : option shkey_t) (v : ptr) : outcome (heap * shmap_t) :=
  match v with
  | None => shmap_set h ht k NULL
  | Some _ => n <-! strlen h v; r <-! shmap_set_ent h ht k flg v (n + 1); Done (fst r)
  end.
Definition shmap_set_astr (h : heap) (ht : shmap_t) (k : option shkey_t) (v : ptr) : outcome (heap * shmap_t) :=
  match k with None => Done (h, ht) | Some _ => set_string (Z.lor SHMAP_STRING SHMAP_ALLOC) h ht k v end.
Definition shmap_set_str := set_string SHMAP_STRING.

Definition shmap_set_ptr (h : heap) (ht : shmap_t) (k : option shkey_t) (p : ptr) : outcome (heap * shmap_t) :=
  r <-! shmap_set_ent h ht k SHMAP_BINARY p 0; Done (fst r).
Definition shmap_set_bin (h : heap) (ht : shmap_t) (k : option shkey_t) (p : ptr) (n : Z) : outcome (heap * shmap_t) :=
  r <-! shmap_set_ent h ht k SHMAP_BINARY p n; Done (fst r).
Definition shmap_set_abin (h : heap) (ht : shmap_t) (k : option shkey_t) (p : ptr) (n : Z) : outcome (heap * shmap_t) :=
  r <-! shmap_set_ent h ht k (Z.lor SHMAP_BINARY SHMAP_ALLOC) p n; Done (fst r).
Definition shmap_set_void := shmap_set_abin.

Definition shmap_count (ht : option shmap_t) : Z := match ht with None => 0 | Some ht => count ht end.

(** [shmap_free] releases the owned values; the rest is the table's own memory. *)
Definition shmap_free (h : heap) (ht : shmap_t) : outcome heap :=
  foldl (fun h ent => h <-! h; if has_flag (flag ent) SHMAP_ALLOC then free h (val ent) else Done h)
    (Done h) (concat (array ht)).

(** The values of the binary entries, in iteration order, in an array of
    [count + 1] pointers. *)
Definition shmap_get_ptr_list (ht : option shmap_t) : outcome (option (list ptr)) :=
  match ht with
  | None => Done None
  | Some ht =>
      l <-! for_entries ht (fun acc e =>
              if negb (has_flag (flag e) SHMAP_BINARY) then Done acc
              else match val e with None => Done acc | Some _ => Done (acc ++ [val e]) end) [];
      Done (Some (l ++ replicate (Z.to_nat (count ht + 1) - length l) NULL))
  end.
End operations.

(** ** Serialisation *)

Definition SIZEOF_SHMAP_VALUE : Z := 72.

(** The 72 bytes of a [shmap_value_t]. *)
Definition value_header (k : shkey_t) (stamp crc pf sz : Z) : bytes :=
  le_bytes 4 SHMEM32_MAGIC ++ le_bytes 4 crc ++ le_bytes 4 stamp ++ le_bytes 4 pf ++
  shkey_image k ++ le_bytes 8 sz ++ le_bytes 8 0 ++ le_bytes 8 0.

(** One round of the loop of [shmap_print]. *)
Definition print_entry (E : env) (now : Z) (h : heap) (buff : shbuf_t) (e : shmap_entry_t) : outcome shbuf_t :=
  match sz e =? 0, val e with
  | true, _ | _, None => Done buff
  | false, Some _ =>
      data <-! load h (val e) (u64 (sz e));
      let hdr := value_header (key e) (u32 now) (u32 (shcrc (Some data))) (u32 (Z.land (flag e) (Z.lnot SHMAP_ALLOC)))
                   (u64 (sz e)) in
      buff <-! shbuf_cat E buff hdr;
      shbuf_cat E buff data
  end.
Definition shmap_print (E : env) (now : Z) (h : heap) (ht : shmap_t) (ret_buff : shbuf_t) : outcome shbuf_t :=
  for_entries ht (print_entry E now h) ret_buff.

(** The key stored at the start of a byte string. *)
Definition key_at (d : bytes) : shkey_t :=
  mk_key (of_le (take 2 d)) (of_le (take 2 (drop 2 d)))
    (map (fun i => of_le (take 4 (drop (4 * i) (take 28 (drop 4 d))))) (seq 0 SHKEY_WORDS)).

(** The loop of [shmap_load].  The offset is 64 bits wide and the size of a
    record is not checked against what is left of the buffer. *)
Fixpoint load_loop (alloc_ok : Z -> bool) (fuel : nat) (h : heap) (ht : shmap_t) (map_data : ptr) (b_len b_of : Z)
  : outcome (heap * shmap_t) :=
  if b_of <? b_len then
    match fuel with
    | O => Fault
    | S fuel' =>
        let hdr := ptr_add map_data b_of in
        let b_of := u64 (b_of + SIZEOF_SHMAP_VALUE) in
        if b_len <? b_of then Done (h, ht)
        else
          raw <-! load h hdr SIZEOF_SHMAP_VALUE;
          if negb (of_le (take 4 raw) =? SHMEM32_MAGIC) then load_loop alloc_ok fuel' h ht map_data b_len b_of
          else
            let size := of_le (take 8 (drop 48 raw)) in
            if size =? 0 then load_loop alloc_ok fuel' h ht map_data b_len b_of
            else
              let data := ptr_add map_data b_of in
              let b_of := u64 (b_of + size) in
              let pf := sint 32 (Z.lor (of_le (take 4 (drop 12 raw))) SHMAP_ALLOC) in
              r <-! shmap_set_ent alloc_ok h ht (Some (key_at (drop 16 raw))) pf data (sint 64 size);
              load_loop alloc_ok fuel' (fst (fst r)) (snd (fst r)) map_data b_len b_of
    end
  else Done (h, ht).
Definition shmap_load (alloc_ok : Z -> bool) (h : heap) (ht : shmap_t) (map_data : ptr) (b_len : Z)
  : outcome (heap * shmap_t) :=
  load_loop alloc_ok (Z.to_nat b_len) h ht map_data b_len 0.

(** ** Sanity checks on concrete tables *)

Definition test_heap : heap := mk_heap {[ 1 := cstr "share" ++ [0]; 2 := [9; 8; 7] ]} 3.
Definition test_key (n : Z) : shkey_t := mk_key 0 0 [n; 0; 0; 0; 0; 0; 0].

Example set_get_test :
  (r <-! shmap_set_astr (fun _ => true) test_heap shmap_init (Some (test_key 1)) (Some (1, 0));
   p <-! shmap_get_str (Some (snd r)) (Some (test_key 1));
   n <-! strlen (fst r) p;
   d <-! load (fst r) p n;
   Done (d, shmap_count (Some (snd r)))) = Done (cstr "share", 1).
Proof. vm_compute. reflexivity. Qed.

Fixpoint fill (n : nat) (h : heap) (ht : shmap_t) : outcome (heap * shmap_t) :=
  match n with
  | O => Done (h, ht)
  | S n' => r <-! fill n' h ht; shmap_set_abin (fun _ => true) (fst r) (snd r) (Some (test_key (Z.of_nat n))) (Some (2, 0)) 3
  end.

(** Forty insertions expand the table twice. *)
Example fill_test :
  (r <-! fill 40 test_heap shmap_init;
   p <-! shmap_get (Some (snd r)) (Some (test_key 17));
   d <-! load (fst r) p 3;
   Done (d, count (snd r), max (snd r))) = Done ([9; 8; 7], 40, 60).
Proof. vm_compute. reflexivity. Qed.

Definition no_junk : env := mk_env (fun _ => true) (fun _ => true) (fun _ => 0) 4096 (fun _ => true) 0 true.

Example print_load_test :
  (r <-! fill 3 test_heap shmap_init;
   b <-! shmap_print no_junk 5 (fst r) (snd r) shbuf_init;
   let h := mk_heap (<[50 := contents b]> (blocks (fst r))) 51 in
   r <-! shmap_load (fun _ => true) h shmap_init (Some (50, 0)) (data_of b);
   p <-! shmap_get_ent (Some (snd r)) (Some (test_key 2));
   d <-! load (fst r) (fst p) 3;
   Done (d, snd p, count (snd r))) = Done ([9; 8; 7], 8193, 3).
Proof. vm_compute. reflexivity. Qed.

(** ** Iteration visits the chains in order *)

(** What is left to visit from a cursor. *)
Definition remaining (ht : shmap_t) (this : list shmap_entry_t) (idx : Z) : list shmap_entry_t :=
  this ++ concat (drop (Z.to_nat idx) (array ht)).

Definition sized (ht : shmap_t) : Prop :=
  Z.of_nat (length (array ht)) = max ht + 1 /\ 0 <= max ht /\ max ht + 1 < 2 ^ 32.

Lemma next_loop_spec fuel ht this idx :
  sized ht -> 0 <= idx <= max ht + 1 -> (length (array ht) < fuel + Z.to_nat idx)%nat ->
  exists r, next_loop fuel ht this idx = Done r /\
    match r with
    | None => remaining ht this idx = []
    | Some hi => exists e, tthis hi = e :: next hi /\ 0 <= index hi <= max ht + 1 /\
                   remaining ht this idx = e :: remaining ht (next hi) (index hi)
    end.
Proof.
  intros (Hl & Hm & Hw). revert this idx. induction fuel as [|fuel IH]; intros [|e this] idx Hi Hf; cbn [next_loop].
  2,4: eexists; split; [done |]; by exists e.
  all: case_cmp; [eexists; split; [done |]; unfold remaining; by rewrite drop_ge by lia |].
  - lia.
  - destruct (lookup_lt_is_Some_2 (array ht) (Z.to_nat idx)) as [c Ec]; [lia |]. rewrite Ec.
    rewrite wrap_small by rlia. destruct (IH c (idx + 1)) as (r & -> & Hr); [lia | lia |].
    exists r. split; [done |]. unfold remaining in *. rewrite (drop_S _ c) by done.
    replace (S (Z.to_nat idx)) with (Z.to_nat (idx + 1)) by lia. cbn [app concat]. done.
Qed.

(** Monadic fold over a list. *)
Fixpoint ofold {A B} (f : A -> B -> outcome A) (acc : A) (l : list B) : outcome A :=
  match l with
  | [] => Done acc
  | x :: l' => acc <-! f acc x; ofold f acc l'
  end.

Lemma for_each_spec {A} ht (body : A -> shmap_entry_t -> outcome A) l fuel hi acc :
  sized ht -> (length l <= fuel)%nat ->
  match hi with
  | None => l = []
  | Some hi => exists e, tthis hi = e :: next hi /\ 0 <= index hi <= max ht + 1 /\
                 l = e :: remaining ht (next hi) (index hi)
  end ->
  for_each fuel ht body hi acc = ofold body acc l.
Proof.
  intros Hs. revert l hi acc. induction fuel as [|fuel IH]; intros l hi acc Hf Hhi;
    destruct hi as [hi|]; try (subst l; done); destruct Hhi as (e & Ht & Hi & ->); cbn [length] in Hf; [lia |].
  cbn [for_each ofold]. rewrite Ht. destruct (body acc e) as [acc'|]; [|done]. cbn [obind].
  unfold shmap_next. destruct (next_loop_spec (S (length (array ht))) ht (next hi) (index hi)) as (r & -> & Hr);
    [done | lia | lia |]. cbn [obind]. apply IH; [lia |]. destruct r; done.
Qed.

Lemma for_entries_ofold {A} ht (body : A -> shmap_entry_t -> outcome A) acc :
  sized ht -> for_entries ht body acc = ofold body acc (concat (array ht)).
Proof.
  intros Hs. unfold for_entries, shmap_first, shmap_next. cbn [next index].
  destruct (next_loop_spec (S (length (array ht))) ht [] 0) as (r & -> & Hr); [done | destruct Hs; lia | lia |].
  cbn [obind]. apply for_each_spec; [done | done |]. unfold remaining in Hr at 1. cbn [app] in Hr.
  change (Z.to_nat 0) with 0%nat in Hr. rewrite drop_0 in Hr. destruct r; done.
Qed.

(** ** The invariant and the abstract value *)

Definition img (e : shmap_entry_t) : bytes := shkey_image (key e).

Definition entries (ht : shmap_t) : list shmap_entry_t := concat (array ht).

(** Every entry hangs off the chain its hash selects. *)
Definition placed (mx : Z) (arr : list (list shmap_entry_t)) : Prop :=
  forall i c e, arr !! i = Some c -> e ∈ c ->
    hash e = shmap_hash_num (img e) /\ Z.to_nat (Z.land (hash e) mx) = i.

Definition wf (ht : shmap_t) : Prop :=
  sized ht /\ (exists k, 0 <= k /\ max ht = 15 * 2 ^ k) /\
  placed (max ht) (array ht) /\ NoDup (map img (entries ht)) /\
  count ht = Z.of_nat (length (entries ht)).

Definition is_alloc (e : shmap_entry_t) : bool := has_flag (flag e) SHMAP_ALLOC.

(** The block an entry owns. *)
Definition owned (e : shmap_entry_t) : list Z :=
  if is_alloc e then match val e with Some (b, _) => [b] | None => [] end else [].

Definition owns (h : heap) (e : shmap_entry_t) : Prop :=
  is_alloc e = true ->
  exists b d, val e = Some (b, 0) /\ blocks h !! b = Some d /\ Z.of_nat (length d) = u64 (sz e).

(** The owned blocks are live and no two entries share one. *)
Definition heap_inv (h : heap) (es : list shmap_entry_t) : Prop :=
  heap_wf h /\ NoDup (concat (map owned es)) /\ Forall (owns h) es.

Definition inv (h : heap) (ht : shmap_t) : Prop := wf ht /\ heap_inv h (entries ht).

(** A value: bytes the table owns, or a pointer it was given. *)
Inductive value : Type :=
| Owned (flag : Z) (data : bytes)
| Ref (flag : Z) (p : ptr) (sz : Z).

Definition view (h : heap) (e : shmap_entry_t) : value :=
  if is_alloc e then
    Owned (flag e) (match val e with Some (b, _) => default [] (blocks h !! b) | None => [] end)
  else Ref (flag e) (val e) (sz e).

Definition abs_of (h : heap) (es : list shmap_entry_t) : gmap bytes value :=
  list_to_map (map (fun e => (img e, view h e)) es).
Definition abs (h : heap) (ht : shmap_t) : gmap bytes value := abs_of h (entries ht).

Lemma map_fst_view h es : map fst (map (fun e => (img e, view h e)) es) = map img es.
Proof. rewrite map_map. done. Qed.

Lemma abs_of_perm h es es' : NoDup (map img es) -> es ≡ₚ es' -> abs_of h es = abs_of h es'.
Proof.
  intros Hn Hp. apply list_to_map_proper; [|by apply Permutation_map].
  change (NoDup (map fst (map (fun e => (img e, view h e)) es))). by rewrite map_fst_view.
Qed.

Lemma abs_of_frame h h' es : (forall e, e ∈ es -> view h' e = view h e) -> abs_of h' es = abs_of h es.
Proof.
  intros H. unfold abs_of. f_equal. apply map_ext_in. intros e He. rewrite H; [done | by apply list_elem_of_In].
Qed.

Lemma abs_of_notin h es k : k ∉ map img es -> abs_of h es !! k = None.
Proof. intros H. apply not_elem_of_list_to_map_1. change (k ∉ map fst (map (fun e => (img e, view h e)) es)). by rewrite map_fst_view. Qed.

Lemma owned_perm es es' b : es ≡ₚ es' -> b ∈ concat (map owned es) <-> b ∈ concat (map owned es').
Proof. intros Hp. rewrite <- !flat_map_concat_map. by rewrite (Permutation_flat_map owned Hp). Qed.

Lemma not_elem_of_owned_cons e es b :
  b ∉ concat (map owned (e :: es)) <-> (b ∉ owned e) /\ b ∉ concat (map owned es).
Proof. cbn [map concat]. by rewrite not_elem_of_app. Qed.

Lemma heap_inv_perm h es es' : es ≡ₚ es' -> heap_inv h es -> heap_inv h es'.
Proof.
  intros Hp (H1 & H2 & H3). split_and!; [done | | by rewrite <- Hp].
  assert (concat (map owned es) ≡ₚ concat (map owned es')) as Hq.
  { rewrite <- !flat_map_concat_map. by apply Permutation_flat_map. }
  by rewrite <- Hq.
Qed.

Lemma shmap_init_inv h : heap_wf h -> inv h shmap_init /\ abs h shmap_init = ∅.
Proof.
  intros Hh. assert (entries shmap_init = []) as Ee by done. unfold inv, wf, heap_inv, abs. rewrite Ee. split; [|done].
  split_and!; try done; [by exists 0 | | apply NoDup_nil_2 | apply NoDup_nil_2].
  intros i c e Hi He. apply lookup_replicate in Hi as [-> _]. by apply elem_of_nil in He.
Qed.

(** ** Chains *)

Lemma land_le h m : 0 <= m -> 0 <= Z.land h m <= m.
Proof.
  intros Hm. split; [apply Z.land_nonneg; by right |].
  assert (Z.land h m + Z.ldiff m h = m) as H; [|assert (0 <= Z.ldiff m h) by (apply Z.ldiff_nonneg; by left); lia].
  rewrite Z.add_nocarry_lxor.
  - apply Z.bits_inj'. intros i Hi. rewrite Z.lxor_spec, Z.land_spec, Z.ldiff_spec.
    by destruct (Z.testbit h i), (Z.testbit m i).
  - apply Z.bits_inj'. intros i Hi. rewrite !Z.land_spec, Z.ldiff_spec, Z.bits_0.
    by destruct (Z.testbit h i), (Z.testbit m i).
Qed.

Lemma scan_spec h k c :
  match c !! scan h k c with
  | Some e => hash e = h /\ img e = k
  | None => scan h k c = length c /\ forall e, e ∈ c -> hash e = h -> img e <> k
  end.
Proof.
  induction c as [|e c IH]; cbn [scan lookup list_lookup length].
  - split; [done |]. intros e He. by apply elem_of_nil in He.
  - destruct (Z.eqb_spec (hash e) h) as [Hh|Hh]; cbn [andb].
    1: destruct (bool_decide_reflect (shkey_image (key e) = k)) as [Hk|Hk]; [by split |].
    all: cbn; destruct (c !! scan h k c); [done |]; destruct IH as [-> IH]; split; [done |];
      intros e' [-> | He]%elem_of_cons; [done || unfold img in *; congruence | by apply IH].
Qed.

(** Replacing one chain. *)
Lemma concat_insert (arr : list (list shmap_entry_t)) i c :
  arr !! i = Some c ->
  exists rest, concat arr ≡ₚ c ++ rest /\ forall c', concat (<[i := c']> arr) ≡ₚ c' ++ rest.
Proof.
  intros Hi. exists (concat (take i arr) ++ concat (drop (S i) arr)).
  assert (forall c', concat (take i arr ++ c' :: drop (S i) arr) ≡ₚ c' ++ concat (take i arr) ++ concat (drop (S i) arr)) as H.
  { intros c'. rewrite concat_app. cbn [concat]. by rewrite Permutation_app_swap_app. }
  split; [by rewrite <- H, take_drop_middle |]. intros c'.
  rewrite insert_take_drop by (by eapply lookup_lt_Some). apply H.
Qed.

Lemma placed_insert mx arr i c :
  placed mx arr ->
  (forall e, e ∈ c -> hash e = shmap_hash_num (img e) /\ Z.to_nat (Z.land (hash e) mx) = i) ->
  placed mx (<[i := c]> arr).
Proof.
  intros Hp Hc j c' e Hj He. apply list_lookup_insert_Some in Hj as [(<- & <- & _)|[_ Hj]]; [by apply Hc | by eapply Hp].
Qed.

Lemma placed_hash ht e : wf ht -> e ∈ entries ht -> hash e = shmap_hash_num (img e).
Proof.
  intros (_ & _ & Hp & _) He. unfold entries in He. apply list_elem_of_In, in_concat in He as (c & Hc & He).
  apply list_elem_of_In in Hc, He. apply list_elem_of_lookup in Hc as [i Hi]. by apply (Hp i c e).
Qed.

(** The bucket of a key and what the scan of its chain finds. *)
Lemma locate ht k :
  wf ht ->
  let h := shmap_hash_num k in
  let i := Z.to_nat (Z.land h (max ht)) in
  exists c, array ht !! i = Some c /\
    match c !! scan h k c with
    | Some e => exists others,
        entries ht ≡ₚ e :: others /\ img e = k /\ hash e = h /\
        (forall e', concat (<[i := <[scan h k c := e']> c]> (array ht)) ≡ₚ e' :: others) /\
        concat (<[i := take (scan h k c) c ++ drop (S (scan h k c)) c]> (array ht)) ≡ₚ others
    | None =>
        (k ∉ map img (entries ht)) /\ scan h k c = length c /\
        forall e', concat (<[i := c ++ [e']]> (array ht)) ≡ₚ e' :: entries ht
    end.
Proof.
  intros Hwf h i. pose proof Hwf as ((Hl & Hm & _) & _ & Hp & _).
  pose proof (land_le h (max ht) Hm). destruct (lookup_lt_is_Some_2 (array ht) i) as [c Ec]; [unfold i; lia |].
  exists c. split; [done |]. destruct (concat_insert (array ht) i c Ec) as (rest & Hr & Hins).
  pose proof (scan_spec h k c) as Hs. destruct (c !! scan h k c) as [e|] eqn:Ee.
  - destruct Hs as [Hh Hk]. set (pos := scan h k c) in *. exists (take pos c ++ drop (S pos) c ++ rest).
    assert (forall e', take pos c ++ e' :: drop (S pos) c ++ rest ≡ₚ e' :: take pos c ++ drop (S pos) c ++ rest) as Hmid
      by (intros; symmetry; apply Permutation_middle).
    split_and!; try done.
    + unfold entries. rewrite Hr, <- Hmid. rewrite <- (take_drop_middle c pos e Ee) at 1. by rewrite <- app_assoc.
    + intros e'. rewrite Hins, insert_take_drop by (by eapply lookup_lt_Some). rewrite <- app_assoc. apply Hmid.
    + by rewrite Hins, <- app_assoc.
  - destruct Hs as [Hs Hne]. split_and!; [|done |].
    + intros (e & -> & He)%list_elem_of_fmap. pose proof (placed_hash ht e Hwf He) as Hh.
      unfold entries in He. apply list_elem_of_In, in_concat in He as (c' & Hc' & He).
      apply list_elem_of_In in Hc', He. apply list_elem_of_lookup in Hc' as [j Hj].
      destruct (Hp j c' e Hj He) as [_ Hidx]. rewrite Hh in Hidx. fold h in Hidx. fold i in Hidx. subst j.
      rewrite Ec in Hj. injection Hj as <-. by apply (Hne e He).
    + intros e'. rewrite Hins. unfold entries. rewrite Hr, <- app_assoc. by rewrite Permutation_middle.
Qed.

(** ** Expansion *)

Lemma rehash_all nm l acc :
  0 <= nm -> Z.of_nat (length acc) = nm + 1 -> placed nm acc ->
  (forall e, e ∈ l -> hash e = shmap_hash_num (img e)) ->
  exists acc', ofold (rehash nm) acc l = Done acc' /\ Z.of_nat (length acc') = nm + 1 /\
    placed nm acc' /\ concat acc' ≡ₚ l ++ concat acc.
Proof.
  intros Hm. revert acc. induction l as [|e l IH]; intros acc Hl Hp Hh; [by exists acc |]. cbn [ofold]. unfold rehash at 1.
  pose proof (land_le (hash e) nm Hm) as Hle. set (i := Z.to_nat (Z.land (hash e) nm)).
  destruct (lookup_lt_is_Some_2 acc i) as [c Ec]; [unfold i; lia |]. rewrite Ec. cbn [obind].
  destruct (IH (<[i := e :: c]> acc)) as (acc' & Ea & Hl' & Hp' & Hc).
  - by rewrite length_insert.
  - apply placed_insert; [done |]. intros e' [-> | He]%elem_of_cons; [split; [apply Hh, list_elem_of_here | done] | by apply (Hp i c)].
  - intros e' He. by apply Hh, list_elem_of_further.
  - exists acc'. split_and!; try done. destruct (concat_insert acc i c Ec) as (rest & Hr & Hins).
    rewrite Hc, Hins, Hr. symmetry. apply Permutation_middle.
Qed.

Lemma expand_ok ht :
  wf ht -> max ht * 2 + 1 < 2 ^ 32 ->
  exists ht', _expand_array ht = Done ht' /\ wf ht' /\ entries ht' ≡ₚ entries ht.
Proof.
  intros Hwf Hb. pose proof Hwf as (Hs & (k & Hk & Ek) & Hp & Hn & Hc). unfold _expand_array.
  rewrite wrap_small by (destruct Hs; rlia). rewrite for_entries_ofold by done.
  destruct Hs as (Hl & Hm & Hw).
  destruct (rehash_all (max ht * 2) (entries ht) (alloc_array (max ht * 2))) as (acc & Ea & Hla & Hpa & Hca).
  - lia.
  - unfold alloc_array. llia.
  - intros i c e Hi He. apply lookup_replicate in Hi as [-> _]. by apply elem_of_nil in He.
  - intros e He. by apply (placed_hash ht).
  - unfold entries in Ea, Hca. rewrite Ea. cbn [obind]. eexists. split; [done |].
    assert (concat (alloc_array (max ht * 2)) = []) as E0.
    { unfold alloc_array. induction (Z.to_nat (max ht * 2 + 1)); done. }
    rewrite E0, app_nil_r in Hca. split; [|exact Hca]. unfold wf, sized, entries. cbn [array max count].
    split_and!; try done; try lia.
    + exists (k + 1). split; [lia |]. rewrite Z.pow_add_r, Ek by lia. lia.
    + by rewrite Hca.
    + by rewrite Hca.
Qed.

(** ** Ownership *)

Lemma view_live h h' e :
  (forall b, b ∈ owned e -> blocks h' !! b = blocks h !! b) -> view h' e = view h e.
Proof.
  intros H. unfold view, owned in *. destruct (is_alloc e); [|done]. destruct (val e) as [[b o]|]; [|done].
  rewrite H; [done | set_solver].
Qed.

Lemma owns_live h h' e :
  (forall b, b ∈ owned e -> blocks h' !! b = blocks h !! b) -> owns h e -> owns h' e.
Proof.
  intros H Ho Ha. destruct (Ho Ha) as (b & d & Hv & Hb & Hl). exists b, d. split_and!; try done.
  rewrite H; [done |]. unfold owned. rewrite Ha, Hv. set_solver.
Qed.

Lemma owned_in es b e : e ∈ es -> b ∈ owned e -> b ∈ concat (map owned es).
Proof.
  intros He Hb. apply list_elem_of_In, in_concat. exists (owned e). split; [|by apply list_elem_of_In].
  apply in_map. by apply list_elem_of_In.
Qed.

Lemma owned_lt h es b : heap_inv h es -> b ∈ concat (map owned es) -> b < brk h.
Proof.
  intros (Hw & _ & Ho) Hb. apply list_elem_of_In, in_concat in Hb as (o & Ho' & Hb).
  apply in_map_iff in Ho' as (e & <- & He). rewrite Forall_forall in Ho.
  specialize (Ho e). unfold owned, owns in *. destruct (is_alloc e); [|by destruct Hb].
  destruct Ho as (b' & d & Hv & Hd & _); [by apply list_elem_of_In | done |]. rewrite Hv in Hb. destruct Hb as [<-|[]].
  by apply Hw.
Qed.

(** Releasing what an entry owns leaves the other entries alone. *)
Lemma release_ok h e others :
  heap_inv h (e :: others) ->
  exists h', (if is_alloc e then free h (val e) else Done h) = Done h' /\
    heap_inv h' others /\ (forall e', e' ∈ others -> view h' e' = view h e') /\
    forall b, b ∉ owned e -> blocks h' !! b = blocks h !! b.
Proof.
  intros (Hw & Hn & Ho). cbn [map concat] in Hn. apply NoDup_app in Hn as (_ & Hd & Hn).
  apply List.Forall_cons_iff in Ho as [He Ho]. unfold owned at 1. unfold owns, owned in He, Hd. destruct (is_alloc e) eqn:Ea.
  2:{ exists h. by split_and!. }
  destruct He as (b & d & Hv & Hb & _); [done |]. rewrite Hv in *. rewrite (free_block h b d) by done.
  eexists. split; [done |].
  assert (forall e' b', e' ∈ others -> b' ∈ owned e' -> delete b (blocks h) !! b' = blocks h !! b') as Hf.
  { intros e' b' He' Hb'. apply lookup_delete_ne. intros <-. apply (Hd b); [set_solver | by eapply owned_in]. }
  unfold heap_inv. split_and!.
  - eapply heap_wf_free; [exact Hw |]. by apply (free_block h b d).
  - done.
  - rewrite Forall_forall in *. intros e' He'. apply (owns_live h); [|by apply Ho]. intros b' Hb'.
    cbn [blocks]. by apply (Hf e').
  - intros e' He'. apply view_live. intros b' Hb'. cbn [blocks]. by apply (Hf e').
  - intros b' Hb'. cbn [blocks]. apply lookup_delete_ne. set_solver.
Qed.

(** An entry that owns nothing adds nothing to the invariant. *)
Lemma heap_inv_plain h e es : is_alloc e = false -> heap_inv h es -> heap_inv h (e :: es).
Proof.
  intros Ha (Hw & Hn & Ho). unfold heap_inv. split_and!; [done | |].
  - cbn [map concat]. unfold owned at 1. by rewrite Ha.
  - apply List.Forall_cons_iff. split; [|done]. intros Ha'. congruence.
Qed.

(** The abstract value [shmap_set_ent] stores. *)
Definition stored (flg : Z) (v : ptr) (size : Z) (src : bytes) : value :=
  if has_flag flg SHMAP_ALLOC then Owned flg src else Ref flg v size.

Section set.
Context (alloc_ok : Z -> bool).

(** When a copy is asked for, there is memory for it and the source can be read. *)
Definition readable (h : heap) (flg : Z) (v : ptr) (size : Z) (src : bytes) : Prop :=
  has_flag flg SHMAP_ALLOC = true -> alloc_ok (u64 size) = true /\ load h v (u64 size) = Done src.

Lemma load_length h p n src : 0 <= n -> load h p n = Done src -> Z.of_nat (length src) = n.
Proof.
  intros Hn. destruct p as [[b o]|]; cbn [load].
  - destruct (blocks h !! b) as [d|]; [|done]. case_cmp; [|done]. unfold mem_read.
    case_decide; [|done]. intros [= <-]. llia.
  - case_cmp as [->|]; [|done]. by intros [= <-].
Qed.

Lemma copy_ok h es flg v size src :
  heap_inv h es -> readable h flg v size src ->
  exists h1 data, copy_value alloc_ok h flg v size = Done (Some (h1, data)) /\
    (has_flag flg SHMAP_ALLOC = true \/ data = v) /\ (v <> NULL -> data <> NULL) /\
    (forall hs k, let e := mk_entry hs k data size flg in
       heap_inv h1 (e :: es) /\ view h1 e = stored flg v size src /\ (forall b, b ∈ owned e -> b = brk h)) /\
    (forall e, e ∈ es -> view h1 e = view h e) /\
    forall b, b <> brk h -> blocks h1 !! b = blocks h !! b.
Proof.
  intros Hi Hr. unfold copy_value, readable, stored in *. destruct (has_flag flg SHMAP_ALLOC) eqn:Ef.
  2:{ exists h, v. split_and!; try done; [by right |]. intros hs k. unfold view, owned, is_alloc. cbn [flag val sz].
      rewrite Ef. split_and!; [by apply heap_inv_plain | done | set_solver]. }
  destruct (Hr eq_refl) as [-> El]. rewrite El. cbn [negb obind].
  pose proof (wrap_range 64 size) as Hu. pose proof (load_length h v (u64 size) src) as Hl.
  pose proof (calloc_store h (u64 size) src) as Hcs. destruct (calloc h (u64 size)) as [h0 p0] eqn:Ec.
  injection Ec as Eh0 Ep0. pose proof Hi as (Hw & Hn & Ho).
  cbn [fst snd] in Hcs. rewrite Hcs by (done || (ranges; specialize (Hl ltac:(lia) El); lia)). subst p0.
  cbn [obind]. eexists _, _. split; [done |].
  assert (forall e, e ∈ es -> forall b, b ∈ owned e -> <[brk h := src]> (blocks h) !! b = blocks h !! b) as Hf.
  { intros e He b Hb. apply lookup_insert_ne. intros <-.
    assert (brk h < brk h); [|lia]. eapply owned_lt; [exact Hi | by eapply owned_in]. }
  split_and!; [by left | done | | |].
  2:{ intros e He. apply view_live. by apply (Hf e). }
  2:{ intros b Hb. cbn [blocks]. by apply lookup_insert_ne. }
  intros hs k. split_and!.
  2:{ unfold view, is_alloc. cbn [flag val blocks]. by rewrite Ef, lookup_insert_eq. }
  2:{ unfold owned, is_alloc. cbn [flag val]. rewrite Ef. by intros b ->%list_elem_of_singleton. }
  unfold heap_inv. split_and!.
  - apply heap_wf_insert; [done | lia | lia].
  - cbn [map concat]. unfold owned at 1, is_alloc. cbn [flag val]. rewrite Ef. apply NoDup_cons. split; [|done].
    intros Hb. assert (brk h < brk h); [|lia]. eapply owned_lt; [exact Hi | done].
  - apply List.Forall_cons_iff. split.
    + intros _. exists (brk h), src. cbn [blocks]. rewrite lookup_insert_eq. split_and!; try done.
      cbn [sz]. apply Hl; [ranges; lia | done].
    + rewrite Forall_forall in *. intros e' He'. apply (owns_live h); [|by apply Ho]. cbn [blocks].
      by apply Hf.
Qed.
End set.

Lemma wf_entries ht arr cnt fl es :
  wf ht -> length arr = length (array ht) -> placed (max ht) arr -> concat arr ≡ₚ es ->
  NoDup (map img es) -> cnt = Z.of_nat (length es) -> wf (mk_map arr cnt (max ht) fl).
Proof.
  intros ((Hl & Hm & Hw) & Hk & _) Hla Hp He Hn ->. unfold wf, sized, entries. cbn [array max count].
  split_and!; try done; [lia | by rewrite He | by rewrite He].
Qed.

(** After the update the table may expand; its value does not change. *)
Lemma settle h ht e others :
  wf ht -> count ht < 2 ^ 31 -> entries ht ≡ₚ e :: others -> heap_inv h (e :: others) ->
  exists ht', (if max ht <? count ht then _expand_array ht else Done ht) = Done ht' /\
    inv h ht' /\ abs h ht' = <[img e := view h e]> (abs_of h others) /\ entries ht' ≡ₚ e :: others.
Proof.
  intros Hwf Hb He Hi. assert (forall ht', wf ht' -> entries ht' ≡ₚ entries ht ->
    inv h ht' /\ abs h ht' = <[img e := view h e]> (abs_of h others) /\ entries ht' ≡ₚ e :: others) as Hfin.
  { intros ht' Hwf' He'. rewrite He in He'. split_and!; [split; [done | by eapply heap_inv_perm] | | done].
    unfold abs. rewrite (abs_of_perm h _ _ (proj1 (proj2 (proj2 (proj2 Hwf')))) He'). done. }
  case_cmp as [Hlt|Hge].
  - destruct (expand_ok ht Hwf) as (ht' & Ee & Hwf' & He'); [lia |]. exists ht'. split; [done |]. by apply Hfin.
  - exists ht. split; [done |]. by apply Hfin.
Qed.

Lemma has_flag_0 f : has_flag 0 f = false.
Proof. done. Qed.

Section set_correct.
Context (alloc_ok : Z -> bool).

(** Replacing the value of a present key. *)
Lemma replace_ok h ht k i pos c cur others data size flg :
  wf ht -> count ht < 2 ^ 31 ->
  array ht !! i = Some c -> c !! pos = Some cur -> img cur = k ->
  (forall e, e ∈ c -> hash e = shmap_hash_num (img e) /\ Z.to_nat (Z.land (hash e) (max ht)) = i) ->
  entries ht ≡ₚ cur :: others ->
  (forall e, concat (<[i := <[pos := e]> c]> (array ht)) ≡ₚ e :: others) ->
  let e1 := mk_entry (hash cur) (key cur) data size flg in
  heap_inv h (e1 :: cur :: others) ->
  exists h' ht', replace_entry h ht i pos c cur flg data size = Done (h', ht') /\ inv h' ht' /\
    abs h' ht' = <[k := view h' e1]> (abs_of h' others) /\
    (forall e, e ∈ e1 :: others -> view h' e = view h e) /\ entries ht' ≡ₚ e1 :: others /\
    forall b, b ∉ owned cur -> blocks h' !! b = blocks h !! b.
Proof.
  intros Hwf Hb Hi Hpos Hk Hc He Hins e1 Hh. unfold replace_entry. fold (is_alloc cur).
  assert (heap_inv h (cur :: e1 :: others)) as Hh' by (eapply heap_inv_perm; [apply perm_swap | done]).
  destruct (release_ok h cur (e1 :: others) Hh') as (h' & -> & Hh1 & Hv & Hfr). cbn [obind].
  set (ht1 := set_array _ _). assert (img e1 = k) as Hk1 by done.
  pose proof Hwf as (_ & _ & Hp & Hn & Hct). rewrite He in Hn, Hct. cbn [map] in Hn.
  assert (wf ht1) as Hwf1.
  { apply (wf_entries ht _ _ _ (e1 :: others)); [done | by rewrite length_insert | | apply Hins | | done].
    - apply placed_insert; [done |]. intros e [j Hj]%list_elem_of_lookup.
      apply list_lookup_insert_Some in Hj as [(<- & <- & _)|[_ Hj]].
      + apply (Hc cur). by eapply list_elem_of_lookup_2.
      + apply Hc. by eapply list_elem_of_lookup_2.
    - cbn [map]. by rewrite Hk1, <- Hk. }
  destruct (settle h' ht1 e1 others) as (ht' & -> & Hi' & Ha & He'); [done | done | apply Hins | done |].
  cbn [obind]. exists h', ht'. rewrite Hk1 in Ha. by split_and!.
Qed.

Lemma delete_ok h ht k i pos c cur others :
  wf ht -> count ht < 2 ^ 31 -> array ht !! i = Some c -> c !! pos = Some cur -> img cur = k ->
  (forall e, e ∈ c -> hash e = shmap_hash_num (img e) /\ Z.to_nat (Z.land (hash e) (max ht)) = i) ->
  entries ht ≡ₚ cur :: others ->
  concat (<[i := take pos c ++ drop (S pos) c]> (array ht)) ≡ₚ others ->
  heap_inv h (entries ht) ->
  exists h' ht', delete_entry h ht i pos c cur = Done (h', ht') /\ inv h' ht' /\
    abs h' ht' = delete k (abs h ht) /\ count ht' = count ht - 1.
Proof.
  intros Hwf Hb Hi Hpos Hk Hc He Hdel Hh. unfold delete_entry. fold (is_alloc cur).
  destruct (release_ok h cur others) as (h' & -> & Hh1 & Hv & _); [by eapply heap_inv_perm |]. cbn [obind].
  pose proof Hwf as ((Hl & Hm & Hw) & _ & Hp & Hn & Hct). pose proof Hn as Hn0. rewrite He in Hn0, Hct.
  cbn [map] in Hn0. apply NoDup_cons in Hn0 as [Hnin Hn0]. cbn [length] in Hct.
  assert (u32 (count ht - 1) = Z.of_nat (length others)) as Hcnt.
  { rewrite wrap_small; [lia | rlia]. }
  eexists _, _. split; [done |]. split_and!.
  - split.
    + apply (wf_entries ht _ _ _ others); [done | by rewrite length_insert | | done | done | done].
      apply placed_insert; [done |]. intros e He'. apply Hc.
      rewrite <- (take_drop_middle c pos cur Hpos), elem_of_app, elem_of_cons. apply elem_of_app in He'. tauto.
    + eapply heap_inv_perm; [symmetry; exact Hdel | done].
  - unfold abs, entries. cbn [array]. rewrite (abs_of_perm h' _ others); [|by rewrite Hdel | done].
    rewrite (abs_of_frame h h') by done. unfold entries in Hn, He. rewrite (abs_of_perm h _ _ Hn He).
    change (abs_of h (cur :: others)) with (<[img cur := view h cur]> (abs_of h others)).
    rewrite <- Hk, delete_insert_id; [done |]. by apply abs_of_notin.
  - cbn [count]. rewrite Hcnt. lia.
Qed.

(** What a call stores, by the key's bytes: a NULL value removes the key. *)
Definition spec_set (k : bytes) (flg : Z) (v : ptr) (size : Z) (src : bytes) (m : gmap bytes value) : gmap bytes value :=
  match v with
  | None => delete k m
  | Some _ => <[k := stored (fst (set_flags flg v size)) v size src]> m
  end.

Lemma set_null h ht k flg size :
  inv h ht -> count ht < 2 ^ 31 ->
  exists h' ht', shmap_set_ent alloc_ok h ht (Some k) flg NULL size = Done (h', ht', 0) /\ inv h' ht' /\
    abs h' ht' = delete (shkey_image k) (abs h ht) /\ count ht' <= count ht.
Proof.
  intros [Hwf Hh] Hb. unfold shmap_set_ent. change (set_flags flg NULL size) with (-2, 0). cbn iota beta.
  change (copy_value alloc_ok h (-2) NULL 0) with (Done (Some (h, NULL))). unfold find_entry, deref. cbn [obind].
  destruct (locate ht (shkey_image k) Hwf) as (c & Hc & Hm). cbn zeta in Hc, Hm. rewrite Hc.
  set (pos := scan _ _ c) in *. destruct (c !! pos) as [e|] eqn:Ee; cbn [obind]; rewrite Hc; cbn [obind snd fst]; rewrite Ee.
  - destruct Hm as (others & He & Hk & _ & _ & Hdel).
    edestruct (delete_ok h ht) as (h' & ht' & -> & Hi & Ha & Hct); [done | done | exact Hc | exact Ee | exact Hk | | exact He | exact Hdel | done |].
    { intros e' He'. by apply (proj1 (proj2 (proj2 Hwf)) _ c). }
    cbn [obind]. exists h', ht'. split_and!; try done. lia.
  - destruct Hm as (Hnin & _). exists h, ht. split_and!; try done.
    by rewrite delete_id by (by apply abs_of_notin).
Qed.

Lemma set_value h ht k flg p size src :
  inv h ht -> count ht + 1 < 2 ^ 31 -> let v := Some p in
  let flg' := fst (set_flags flg v size) in
  readable alloc_ok h flg' v size src ->
  exists h' ht', shmap_set_ent alloc_ok h ht (Some k) flg v size = Done (h', ht', 0) /\ inv h' ht' /\
    abs h' ht' = <[shkey_image k := stored flg' v size src]> (abs h ht) /\
    forall b, b <> brk h -> b ∉ concat (map owned (entries ht)) ->
      blocks h' !! b = blocks h !! b /\ b ∉ concat (map owned (entries ht')).
Proof.
  intros [Hwf Hh] Hb v flg' Hr. unfold shmap_set_ent.
  change (set_flags flg v size) with (flg', size). cbn iota beta. clearbody flg'.
  destruct (copy_ok alloc_ok h (entries ht) flg' v size src) as (h1 & data & -> & _ & Hnn & Hcp & Hv1 & Hfr1); [done | done |].
  cbn [obind]. destruct data as [d|]; [|by destruct Hnn]. unfold find_entry, deref. cbn zeta.
  pose proof Hwf as ((Hl & Hm & Hw) & _ & Hp & Hn & Hct).
  destruct (locate ht (shkey_image k) Hwf) as (c & Hc & Hloc). cbn zeta in Hc, Hloc.
  set (hs := shmap_hash_num (shkey_image k)) in *. set (i := Z.to_nat _) in *. rewrite Hc.
  set (pos := scan hs _ c) in *. destruct (c !! pos) as [cur|] eqn:Ee.
  - destruct Hloc as (others & He & Hk & Hhs & Hins & _). cbn [obind]. rewrite Hc. cbn [obind snd fst]. rewrite Ee.
    destruct (Hcp (hash cur) (key cur)) as (Hi1 & Hview & Hown).
    destruct (replace_ok h1 ht (shkey_image k) i pos c cur others (Some d) size flg') as (h' & ht' & -> & Hinv & Ha & Hv2 & Hent & Hfr2); try done.
    { lia. } { intros e' He'. by apply (Hp i c). }
    { eapply heap_inv_perm; [|exact Hi1]. by rewrite He. }
    cbn [obind]. exists h', ht'. split_and!; try done.
    2:{ intros b Hbrk Hnb. rewrite (owned_perm _ _ b He), not_elem_of_owned_cons in Hnb.
        rewrite (owned_perm _ _ b Hent), not_elem_of_owned_cons, Hfr2, Hfr1 by tauto. split_and!; try tauto.
        intros Hb'. by apply Hbrk, Hown. }
    rewrite Ha, Hv2, Hview by (apply list_elem_of_here). unfold abs. rewrite (abs_of_perm h _ _ Hn He).
    change (abs_of h (cur :: others)) with (<[img cur := view h cur]> (abs_of h others)).
    rewrite Hk, insert_insert_eq. f_equal. apply abs_of_frame. intros e' He'.
    rewrite Hv2 by (by apply list_elem_of_further). apply Hv1. rewrite He. by apply list_elem_of_further.
  - destruct Hloc as (Hnin & Hpos & Hins). cbn [obind array].
    assert (i < length (array ht))%nat as Hlt by (by eapply lookup_lt_Some).
    set (e0 := mk_entry hs k (Some d) 0 0). rewrite list_lookup_insert_eq by done. cbn [obind snd fst].
    rewrite Hpos, (lookup_app_r c) by lia. rewrite Nat.sub_diag. cbn [lookup list_lookup].
    set (ht1 := mk_map _ _ _ _).
    assert (entries ht1 ≡ₚ e0 :: entries ht) as He by apply Hins.
    assert (forall e, e ∈ c ++ [e0] -> hash e = shmap_hash_num (img e) /\ Z.to_nat (Z.land (hash e) (max ht)) = i) as Hpl.
    { intros e' [He'|He']%elem_of_app; [by apply (Hp i c) |]. apply list_elem_of_singleton in He' as ->. by split. }
    assert (u32 (count ht + 1) = Z.of_nat (S (length (entries ht)))) as Hcnt by (rewrite wrap_small by rlia; lia).
    assert (wf ht1) as Hwf1.
    { apply (wf_entries ht _ _ _ (e0 :: entries ht)); [done | by rewrite length_insert | by apply placed_insert | done | | done].
      cbn [map]. by apply NoDup_cons. }
    destruct (Hcp (hash e0) (key e0)) as (Hi1 & Hview & Hown).
    destruct (replace_ok h1 ht1 (shkey_image k) i (length c) (c ++ [e0]) e0 (entries ht) (Some d) size flg') as (h' & ht' & -> & Hinv & Ha & Hv2 & Hent & Hfr2); try done.
    { cbn [count ht1]. lia. } { cbn [array ht1]. by apply list_lookup_insert_eq. }
    { rewrite lookup_app_r, Nat.sub_diag by lia. done. }
    { intros e. cbn [array ht1]. rewrite list_insert_insert_eq, insert_app_r_alt, Nat.sub_diag by lia. apply Hins. }
    { eapply heap_inv_perm; [apply perm_swap | by apply heap_inv_plain]. }
    cbn [obind]. exists h', ht'. split_and!; try done.
    2:{ intros b Hbrk Hnb. rewrite (owned_perm _ _ b Hent), not_elem_of_owned_cons, Hfr2, Hfr1 by (done || set_solver).
        split_and!; try done. intros Hb'. by apply Hbrk, Hown. }
    rewrite Ha, Hv2, Hview by (apply list_elem_of_here). f_equal. unfold abs. apply abs_of_frame. intros e' He'. rewrite Hv2 by (by apply list_elem_of_further). by apply Hv1.
Qed.
End set_correct.

(** ** The table against finite maps *)

(** C1: [shmap_set_ent] on a well-formed table never faults, returns 0, keeps
    the invariant (every key on the chain of its hash, keys distinct, the count
    right, each owned block live and owned once), and implements update and
    removal of a finite map, also across an expansion of the table: a copied
    value is the bytes that were at the pointer, any other value the pointer
    itself, a NULL value removes the key. *)
Theorem shmap_set_ent_refines alloc_ok h ht k flg v size src :
  inv h ht -> count ht + 1 < 2 ^ 31 ->
  (v <> NULL -> readable alloc_ok h (fst (set_flags flg v size)) v size src) ->
  exists h' ht', shmap_set_ent alloc_ok h ht (Some k) flg v size = Done (h', ht', 0) /\ inv h' ht' /\
    abs h' ht' = spec_set (shkey_image k) flg v size src (abs h ht).
Proof.
  intros Hi Hc Hr. destruct v as [p|].
  - destruct (set_value alloc_ok h ht k flg p size src) as (h' & ht' & ? & ? & ? & _); [done | done | by apply Hr |].
    by exists h', ht'.
  - destruct (set_null alloc_ok h ht k flg size) as (h' & ht' & ? & ? & ? & _); [done | lia |]. by exists h', ht'.
Qed.

Lemma test_heap_wf : heap_wf test_heap.
Proof.
  intros b [d Hd]. cbn [blocks test_heap brk] in *. apply lookup_insert_Some in Hd as [[<- _]|[_ Hd]]; [done |].
  apply lookup_singleton_Some in Hd as [<- _]. done.
Qed.

Lemma shmap_set_ent_refines_witness :
  exists h' ht', shmap_set_ent (fun _ => true) test_heap shmap_init (Some (test_key 1)) 1025 (Some (1, 0)) 6 = Done (h', ht', 0) /\
    inv h' ht' /\ abs h' ht' = spec_set (shkey_image (test_key 1)) 1025 (Some (1, 0)) 6 (cstr "share" ++ [0]) (abs test_heap shmap_init).
Proof.
  apply (shmap_set_ent_refines (fun _ => true) test_heap shmap_init (test_key 1) 1025 (Some (1, 0)) 6 (cstr "share" ++ [0])).
  - apply shmap_init_inv, test_heap_wf.
  - reflexivity.
  - intros _ _. split; vm_compute; reflexivity.
Defined.

(** What a value looks like through [shmap_get_ent]. *)
Definition observes (h : heap) (v : option value) (r : ptr * Z) : Prop :=
  match v with
  | None => r = (NULL, 0)
  | Some (Ref f p _) => r = (p, f)
  | Some (Owned f d) => snd r = f /\ load h (fst r) (Z.of_nat (length d)) = Done d
  end.

Lemma abs_lookup h ht e : wf ht -> e ∈ entries ht -> abs h ht !! img e = Some (view h e).
Proof.
  intros (_ & _ & _ & Hn & _) He. apply elem_of_list_to_map_1.
  - change (NoDup (map fst (map (fun e => (img e, view h e)) (entries ht)))). by rewrite map_fst_view.
  - apply list_elem_of_fmap. by exists e.
Qed.

Lemma observes_view h e : owns h e -> observes h (Some (view h e)) (val e, flag e).
Proof.
  intros Ho. unfold view, owns in *. destruct (is_alloc e); [|done]. destruct (Ho eq_refl) as (b & d & -> & Hb & _).
  cbn [observes fst snd]. rewrite Hb. split; [done |]. cbn [load default]. rewrite Hb. cbn [Z.leb]. change (0 <=? 0) with true.
  cbn iota. unfold id. rewrite mem_read_ok by lia. change (Z.to_nat 0) with 0%nat. by rewrite drop_0, take_ge by lia.
Qed.

Lemma get_ent_observes h ht k :
  inv h ht -> exists r, shmap_get_ent (Some ht) (Some k) = Done r /\ observes h (abs h ht !! shkey_image k) r.
Proof.
  intros [Hwf (_ & _ & Ho)]. unfold shmap_get_ent, find_entry, deref.
  destruct (locate ht (shkey_image k) Hwf) as (c & Hc & Hm). cbn zeta in Hc, Hm. rewrite Hc.
  set (pos := scan _ _ c) in *. destruct (c !! pos) as [e|] eqn:Ee; cbn [obind]; rewrite Hc; cbn [obind snd fst]; rewrite Ee.
  - destruct Hm as (others & He & Hk & _). assert (e ∈ entries ht) as Hin by (rewrite He; apply list_elem_of_here).
    eexists. split; [done |]. rewrite <- Hk, abs_lookup by done. apply observes_view.
    rewrite Forall_forall in Ho. by apply Ho.
  - destruct Hm as (Hnin & _). eexists. split; [done |]. unfold abs. by rewrite abs_of_notin.
Qed.

(** [shmap_get_ent] returns what the finite map holds for the key: the
    pointer and flag stored for it, for a copied value a pointer to a block
    with its bytes, and NULL with a zero flag for an absent key. *)
Theorem shmap_get_ent_refines h ht k :
  inv h ht -> exists r, shmap_get_ent (Some ht) (Some k) = Done r /\ observes h (abs h ht !! shkey_image k) r.
Proof. apply get_ent_observes. Qed.

Lemma shmap_get_ent_refines_witness :
  exists r, shmap_get_ent (Some shmap_init) (Some (test_key 3)) = Done r /\
    observes test_heap (abs test_heap shmap_init !! shkey_image (test_key 3)) r.
Proof. apply (shmap_get_ent_refines test_heap shmap_init (test_key 3)). apply shmap_init_inv, test_heap_wf. Defined.

(** Histories of a table: calls of [shmap_set_ent] that had memory for their
    copies, interleaved with whatever the rest of the program does to blocks
    the table does not own. *)
Inductive reachable (alloc_ok : Z -> bool) : heap -> shmap_t -> gmap bytes value -> Prop :=
| reach_init h : heap_wf h -> reachable alloc_ok h shmap_init ∅
| reach_set h ht m k flg v size src h' ht' rc :
    reachable alloc_ok h ht m -> count ht + 1 < 2 ^ 31 ->
    (v <> NULL -> readable alloc_ok h (fst (set_flags flg v size)) v size src) ->
    shmap_set_ent alloc_ok h ht (Some k) flg v size = Done (h', ht', rc) ->
    reachable alloc_ok h' ht' (spec_set (shkey_image k) flg v size src m)
| reach_other h ht m h' :
    reachable alloc_ok h ht m -> heap_wf h' ->
    (forall b, b ∈ concat (map owned (entries ht)) -> blocks h' !! b = blocks h !! b) ->
    reachable alloc_ok h' ht m.

Lemma reachable_inv alloc_ok h ht m : reachable alloc_ok h ht m -> inv h ht /\ abs h ht = m.
Proof.
  induction 1 as [h Hh|h ht m k flg v size src h' ht' rc _ [Hi Ha] Hc Hr Hs|h ht m h' _ [Hi Ha] Hw Hf].
  - by apply shmap_init_inv.
  - destruct v as [p|].
    + destruct (set_value alloc_ok h ht k flg p size src) as (h1 & ht1 & E1 & Hi1 & Ha1 & _); [done | done | by apply Hr |].
      rewrite E1 in Hs. injection Hs as <- <- <-. by rewrite <- Ha.
    + destruct (set_null alloc_ok h ht k flg size) as (h1 & ht1 & E1 & Hi1 & Ha1 & _); [done | lia |].
      rewrite E1 in Hs. injection Hs as <- <- <-. by rewrite <- Ha.
  - destruct Hi as [Hwf (_ & Hn & Ho)].
    assert (forall e, e ∈ entries ht -> forall b, b ∈ owned e -> blocks h' !! b = blocks h !! b) as Hfe.
    { intros e He b Hb. apply Hf. by eapply owned_in. }
    split.
    + split; [done |]. unfold heap_inv. split_and!; try done. rewrite Forall_forall in *. intros e He.
      apply (owns_live h); [by apply Hfe | by apply Ho].
    + rewrite <- Ha. apply abs_of_frame. intros e He. apply view_live. by apply Hfe.
Qed.

(** C27: After any history of updates, interleaved with changes to memory the
    table does not own, the table holds exactly the finite map that the same
    updates give, its invariant holds, and [shmap_count] is the number of keys. *)
Theorem shmap_history alloc_ok h ht m :
  reachable alloc_ok h ht m -> inv h ht /\ abs h ht = m /\ shmap_count (Some ht) = Z.of_nat (size m).
Proof.
  intros Hr. destruct (reachable_inv alloc_ok h ht m Hr) as [Hi Ha]. split_and!; [done | done |].
  destruct Hi as [(_ & _ & _ & Hn & Hc) _]. cbn [shmap_count]. rewrite Hc, <- Ha. f_equal.
  unfold abs, abs_of. rewrite <- (map_fst_view h) in Hn.
  rewrite <- (length_map (fun e => (img e, view h e))), <- length_map_to_list. by rewrite map_to_list_to_map.
Qed.

Lemma shmap_history_witness :
  exists h ht m, reachable (fun _ => true) h ht m /\ inv h ht /\ abs h ht = m /\
    shmap_count (Some ht) = Z.of_nat (size m) /\ shmap_count (Some ht) = 1.
Proof.
  destruct (shmap_set_ent (fun _ => true) test_heap shmap_init (Some (test_key 1)) 1025 (Some (1, 0)) 6) as [[[h ht] rc]|] eqn:E;
    [|vm_compute in E; discriminate].
  assert (reachable (fun _ => true) h ht (spec_set (shkey_image (test_key 1)) 1025 (Some (1, 0)) 6 (cstr "share" ++ [0]) ∅)) as Hr.
  { eapply reach_set; [apply reach_init, test_heap_wf | reflexivity | | exact E].
    intros _ _. split; vm_compute; reflexivity. }
  eexists h, ht, _. split; [exact Hr |].
  destruct (shmap_history (fun _ => true) h ht _ Hr) as (Hi & Ha & Hc). split_and!; [exact Hi | exact Ha | exact Hc |].
  vm_compute in E. injection E as _ <- _. reflexivity.
Defined.

(** ** Iteration and release *)

Lemma ofold_snoc {A} (l acc : list A) :
  ofold (fun acc e => Done (acc ++ [e])) acc l = Done (acc ++ l).
Proof.
  revert acc. induction l as [|x l IH]; intros acc; cbn [ofold obind]; [by rewrite app_nil_r |].
  by rewrite IH, <- app_assoc.
Qed.

(** C37: The iteration [shmap_first], [shmap_next] ends and visits every entry
    of the table exactly once. *)
Theorem shmap_iteration h ht :
  inv h ht ->
  exists l, for_entries ht (fun acc e => Done (acc ++ [e])) [] = Done l /\
    NoDup (map img l) /\ abs_of h l = abs h ht /\ Z.of_nat (length l) = count ht.
Proof.
  intros [(Hs & _ & _ & Hn & Hc) _]. exists (entries ht). rewrite for_entries_ofold, ofold_snoc by done. by split_and!.
Qed.

Lemma shmap_iteration_witness :
  exists l, for_entries shmap_init (fun acc e => Done (acc ++ [e])) [] = Done l /\
    NoDup (map img l) /\ abs_of test_heap l = abs test_heap shmap_init /\ Z.of_nat (length l) = count shmap_init.
Proof. apply (shmap_iteration test_heap shmap_init). apply shmap_init_inv, test_heap_wf. Defined.

Lemma free_all h es :
  heap_inv h es ->
  exists h', foldl (fun h ent => h <-! h; if has_flag (flag ent) SHMAP_ALLOC then free h (val ent) else Done h) (Done h) es = Done h' /\
    forall b, blocks h' !! b = if decide (b ∈ concat (map owned es)) then None else blocks h !! b.
Proof.
  revert h. induction es as [|e es IH]; intros h Hh; [by exists h |]. cbn [foldl obind].
  destruct (release_ok h e es Hh) as (h1 & E1 & Hh1 & _ & _). unfold is_alloc in E1 at 1. rewrite E1.
  destruct (IH h1 Hh1) as (h' & Ef & Hb). exists h'. split; [done |]. intros b. rewrite Hb. cbn [map concat].
  assert (blocks h1 !! b = if decide (b ∈ owned e) then None else blocks h !! b) as Hb1.
  { destruct Hh as (_ & _ & [He _]%List.Forall_cons_iff). unfold owned, is_alloc, owns in *.
    destruct (has_flag (flag e) SHMAP_ALLOC) eqn:Ea; [|injection E1 as <-; by rewrite decide_False by set_solver].
    destruct He as (b0 & d & Hv & Hd & _); [done |]. rewrite Hv in *. rewrite (free_block h b0 d) in E1 by done.
    injection E1 as <-. cbn [blocks]. destruct (decide (b ∈ [b0])) as [Hin|Hin].
    - apply list_elem_of_singleton in Hin as ->. apply lookup_delete_eq.
    - apply lookup_delete_ne. set_solver. }
  rewrite Hb1. pose proof (elem_of_app (owned e) (concat (map owned es)) b) as Happ.
  repeat case_decide; tauto.
Qed.

(** [shmap_free] releases every block the table owns, once, and nothing
    else. *)
Theorem shmap_free_owned h ht :
  inv h ht ->
  exists h', shmap_free h ht = Done h' /\
    forall b, blocks h' !! b = if decide (b ∈ concat (map owned (entries ht))) then None else blocks h !! b.
Proof. intros [_ Hh]. by apply free_all. Qed.

Lemma shmap_free_owned_witness :
  exists h', shmap_free test_heap shmap_init = Done h' /\
    forall b, blocks h' !! b = if decide (b ∈ concat (map owned (entries shmap_init))) then None else blocks test_heap !! b.
Proof. apply (shmap_free_owned test_heap shmap_init). apply shmap_init_inv, test_heap_wf. Defined.

(** ** Expansion does not spread the entries *)

Lemma land_15 x k : 0 <= k -> exists j, 0 <= j < 16 /\ Z.land x (15 * 2 ^ k) = j * 2 ^ k.
Proof.
  intros Hk. exists (Z.land (Z.shiftr x k) 15). split.
  - change 15 with (Z.ones 4). rewrite Z.land_ones by lia. apply Z.mod_pos_bound. lia.
  - rewrite <- !Z.shiftl_mul_pow2 by done. apply Z.bits_inj'. intros i Hi.
    rewrite Z.land_spec, !Z.shiftl_spec by done. destruct (Z.lt_ge_cases i k) as [Hl|Hg].
    + rewrite !(Z.testbit_neg_r _ (i - k)) by lia. by rewrite andb_false_r.
    + rewrite Z.land_spec, Z.shiftr_spec by lia. by replace (i - k + k) with i by lia.
Qed.

(** However far the table expands, its entries hang off at most sixteen of
    its chains: the mask doubles from 15 to 30, 60, ... and so keeps four bits,
    where a table whose size is a power of two would use them all. *)
Theorem shmap_sixteen_chains alloc_ok h ht m :
  reachable alloc_ok h ht m ->
  exists used, (length used <= 16)%nat /\
    forall i c, array ht !! i = Some c -> c <> [] -> i ∈ used.
Proof.
  intros Hr. destruct (reachable_inv alloc_ok h ht m Hr) as [[(_ & (k & Hk & Ek) & Hp & _) _] _].
  exists (map (fun j => Z.to_nat (Z.of_nat j * 2 ^ k)) (seq 0 16)). split; [llia |].
  intros i c Hi Hc. destruct c as [|e c]; [done |]. destruct (Hp i _ e Hi (list_elem_of_here _ _)) as [_ <-].
  rewrite Ek. destruct (land_15 (hash e) k Hk) as (j & Hj & ->). apply list_elem_of_fmap.
  exists (Z.to_nat j). split; [do 2 f_equal; lia | apply elem_of_seq; lia].
Qed.

Lemma shmap_sixteen_chains_witness :
  exists used, (length used <= 16)%nat /\
    forall i c, array shmap_init !! i = Some c -> c <> [] -> i ∈ used.
Proof. apply (shmap_sixteen_chains (fun _ => true) test_heap shmap_init ∅). apply reach_init, test_heap_wf. Defined.

(** For a value of size zero the code means to clear [SHMAP_ALLOC] and
    instead sets every other flag: the request to copy is kept, and the entry
    is marked as a string, a number and a binary segment at once. *)
Theorem set_flags_not_muted flg p i :
  0 <= i ->
  Z.testbit (fst (set_flags flg (Some p) 0)) i = (if i =? 0 then Z.testbit flg 0 else true).
Proof.
  intros Hi. cbn [set_flags fst]. change (0 =? 0) with true. cbn iota. rewrite Z.lor_spec, Z.lnot_spec by done.
  unfold SHMAP_ALLOC. case_cmp as [->|Hne]; [by rewrite orb_false_r |].
  rewrite (bits_above 1 1) by (done || lia). by rewrite orb_true_r.
Qed.

Lemma set_flags_not_muted_witness : Z.testbit (fst (set_flags 1 (Some (1, 0)) 0)) 0 = true.
Proof. apply (set_flags_not_muted 1 (1, 0) 0). reflexivity. Defined.

(** Storing, without a copy, the pointer that the table itself returned for a
    copied value releases the block and keeps the pointer: the table then holds
    a dangling pointer. *)
Example shmap_set_own_pointer :
  (r <-! shmap_set_astr (fun _ => true) test_heap shmap_init (Some (test_key 1)) (Some (1, 0));
   p <-! shmap_get_str (Some (snd r)) (Some (test_key 1));
   d <-! load (fst r) p 6;
   r' <-! shmap_set_str (fun _ => true) (fst r) (snd r) (Some (test_key 1)) p;
   p' <-! shmap_get_str (Some (snd r')) (Some (test_key 1));
   Done (d, bool_decide (p = p'), load (fst r') p' 6)) = Done (cstr "share" ++ [0], true, Fault).
Proof. vm_compute. reflexivity. Qed.

(** ** Reading a printed table *)

(** One record: key, flag and bytes of a value. *)
Record rec : Type := mk_rec { r_key : shkey_t; r_flag : Z; r_data : bytes }.

Definition rec_ok (r : rec) : Prop :=
  valid_key (r_key r) /\ - 2 ^ 31 <= r_flag r < 2 ^ 31 /\ r_data r <> [] /\ is_bytes (r_data r).

Definition rec_bytes (now : Z) (r : rec) : bytes :=
  value_header (r_key r) (u32 now) (u32 (shcrc (Some (r_data r)))) (u32 (Z.land (r_flag r) (Z.lnot SHMAP_ALLOC)))
    (Z.of_nat (length (r_data r))) ++ r_data r.

Lemma length_words ws : length (concat (map (le_bytes 4) ws)) = (4 * length ws)%nat.
Proof. apply length_pieces. intros. apply length_le_bytes. Qed.

Lemma length_image k : length (code k) = SHKEY_WORDS -> length (shkey_image k) = 32%nat.
Proof. intros H. unfold shkey_image. by rewrite !length_app, !length_le_bytes, length_words, H. Qed.

Lemma take_app_eq {A} n (a b : list A) : length a = n -> take n (a ++ b) = a.
Proof. intros <-. apply take_app_length. Qed.
Lemma drop_app_eq {A} n (a b : list A) : length a = n -> drop n (a ++ b) = b.
Proof. intros <-. apply drop_app_length. Qed.

Lemma key_at_image k rest : valid_key k -> key_at (shkey_image k ++ rest) = k.
Proof.
  intros (Ha & Hc & Hl & Hw). destruct k as [a c ws]. cbn [alg crc code] in *. unfold key_at, shkey_image. cbn [alg crc code].
  rewrite <- !app_assoc. rewrite take_app_eq by apply length_le_bytes. rewrite of_le_bytes by done.
  rewrite drop_app_eq by apply length_le_bytes. rewrite take_app_eq by apply length_le_bytes. rewrite of_le_bytes by done.
  rewrite (app_assoc (le_bytes 2 a)), drop_app_eq by (by rewrite length_app, !length_le_bytes).
  rewrite take_app_eq by (by rewrite length_words, Hl). f_equal.
  rewrite <- Hl, (read_all 4 (le_bytes 4) of_le) by (done || intros; apply length_le_bytes).
  apply map_id_on. intros w Hin. apply of_le_bytes. rewrite Forall_forall in Hw. apply Hw. by apply list_elem_of_In.
Qed.

Lemma header_fields k stamp crc pf n :
  valid_key k -> is_uint 32 pf -> is_uint 64 n ->
  let raw := value_header k stamp crc pf n in
  length raw = 72%nat /\ of_le (take 4 raw) = SHMEM32_MAGIC /\ of_le (take 4 (drop 12 raw)) = pf /\
  key_at (drop 16 raw) = k /\ of_le (take 8 (drop 48 raw)) = n.
Proof.
  intros Hk Hpf Hn raw. pose proof (length_image k (proj1 (proj2 (proj2 Hk)))) as Hi. unfold raw, value_header.
  set (a := le_bytes 4 SHMEM32_MAGIC). set (b := le_bytes 4 crc). set (c := le_bytes 4 stamp). set (p := le_bytes 4 pf).
  assert (length a = 4%nat /\ length b = 4%nat /\ length c = 4%nat /\ length p = 4%nat) as (La & Lb & Lc & Lp)
    by (split_and!; apply length_le_bytes).
  split_and!.
  - rewrite !length_app, !length_le_bytes, La, Lb, Lc, Lp, Hi. done.
  - rewrite take_app_eq by done. by apply of_le_bytes.
  - rewrite (app_assoc b), (app_assoc a), drop_app_eq by (by rewrite !length_app, La, Lb, Lc).
    rewrite take_app_eq by done. by apply of_le_bytes.
  - rewrite (app_assoc c), (app_assoc b), (app_assoc a), drop_app_eq by (by rewrite !length_app, La, Lb, Lc, Lp).
    by apply key_at_image.
  - rewrite (app_assoc p), (app_assoc c), (app_assoc b), (app_assoc a), drop_app_eq
      by (by rewrite !length_app, La, Lb, Lc, Lp, Hi).
    rewrite take_app_eq by apply length_le_bytes. by apply of_le_bytes.
Qed.

(** The flag survives the trip through the unsigned header field. *)
Lemma land_lnot_1 f : Z.land f (Z.lnot 1) = f / 2 * 2.
Proof.
  rewrite <- Z.ldiff_land. change 1 with (Z.ones 1) at 1. rewrite Z.ldiff_ones_r by lia.
  rewrite Z.shiftl_mul_pow2, Z.shiftr_div_pow2 by lia. done.
Qed.

Lemma lor_1 a : Z.lor (a * 2) 1 = a * 2 + 1.
Proof. change (a * 2) with (a * 2 ^ 1). rewrite <- Z.shiftl_mul_pow2 at 1 by lia. rewrite lor_add by (done || by split). done. Qed.

Lemma lor_1_div f : Z.lor f 1 = f / 2 * 2 + 1.
Proof.
  rewrite <- lor_1. apply Z.bits_inj'. intros i Hi. rewrite !Z.lor_spec, <- land_lnot_1, Z.land_spec, Z.lnot_spec by done.
  by destruct (Z.testbit f i), (Z.testbit 1 i).
Qed.

Lemma flag_reload f :
  - 2 ^ 31 <= f < 2 ^ 31 -> sint 32 (Z.lor (u32 (Z.land f (Z.lnot SHMAP_ALLOC))) SHMAP_ALLOC) = Z.lor f SHMAP_ALLOC.
Proof.
  intros Hf. unfold SHMAP_ALLOC. rewrite land_lnot_1, lor_1_div, (lor_1_div f).
  change (2 ^ 31) with 2147483648 in Hf. unfold sint, wrap. change (2 ^ (32 - 1)) with 2147483648.
  change (2 ^ 32) with 4294967296. set (g := f / 2).
  assert (- 1073741824 <= g < 1073741824) as Hg by (unfold g; mlia). clearbody g.
  case_cmp; mlia.
Qed.

Lemma has_flag_lor f : has_flag (Z.lor f SHMAP_ALLOC) SHMAP_ALLOC = true.
Proof.
  unfold has_flag. replace (Z.land (Z.lor f SHMAP_ALLOC) SHMAP_ALLOC) with 1; [done |].
  unfold SHMAP_ALLOC. apply Z.bits_inj'. intros i Hi. rewrite Z.land_spec, Z.lor_spec.
  by destruct (Z.testbit f i), (Z.testbit 1 i).
Qed.

Lemma load_at h b pre x rest :
  blocks h !! b = Some (pre ++ x ++ rest) ->
  load h (ptr_add (Some (b, 0)) (Z.of_nat (length pre))) (Z.of_nat (length x)) = Done x.
Proof.
  intros Hb. cbn [ptr_add load]. rewrite Hb. case_cmp; [|lia]. rewrite mem_read_ok by llia.
  rewrite Z.add_0_l, !Nat2Z.id, drop_app_length. by rewrite take_app_length.
Qed.

Lemma count_size h ht : inv h ht -> count ht = Z.of_nat (size (abs h ht)).
Proof.
  intros [(_ & _ & _ & Hn & Hc) _]. rewrite Hc. f_equal. unfold abs, abs_of. rewrite <- (map_fst_view h) in Hn.
  rewrite <- (length_map (fun e => (img e, view h e))), <- length_map_to_list. by rewrite map_to_list_to_map.
Qed.

(** What a record becomes in the table it is loaded into. *)
Definition reload (r : rec) : bytes * value :=
  (shkey_image (r_key r), Owned (Z.lor (r_flag r) SHMAP_ALLOC) (r_data r)).
Definition add_rec (m : gmap bytes value) (r : rec) : gmap bytes value := <[fst (reload r) := snd (reload r)]> m.

Lemma length_rec now r :
  rec_ok r -> length (rec_bytes now r) = (72 + length (r_data r))%nat.
Proof.
  intros (Hk & _). unfold rec_bytes, value_header. rewrite !length_app, !length_le_bytes.
  rewrite length_image; [done | apply Hk].
Qed.

(** One round of the loop on a header with data. *)
Lemma load_round alloc_ok fuel h ht b pre k stamp crc pf n rest b_len :
  blocks h !! b = Some (pre ++ value_header k stamp crc pf n ++ rest) ->
  valid_key k -> is_uint 32 pf -> is_uint 64 n -> n <> 0 ->
  Z.of_nat (length pre) + 72 <= b_len -> b_len < 2 ^ 63 ->
  load_loop alloc_ok (S fuel) h ht (Some (b, 0)) b_len (Z.of_nat (length pre)) =
    (r <-! shmap_set_ent alloc_ok h ht (Some k) (sint 32 (Z.lor pf SHMAP_ALLOC))
             (Some (b, Z.of_nat (length pre) + 72)) (sint 64 n);
     load_loop alloc_ok fuel (fst (fst r)) (snd (fst r)) (Some (b, 0)) b_len (u64 (Z.of_nat (length pre) + 72 + n))).
Proof.
  intros Hb Hk Hpf Hn Hne Hlen Hlim. change (2 ^ 63) with 9223372036854775808 in *.
  destruct (header_fields k stamp crc pf n Hk Hpf Hn) as (Lh & Hmag & Hp & Hkey & Hsz).
  pose proof (load_at h b pre _ _ Hb) as Hload. rewrite Lh in Hload. change (Z.of_nat 72) with 72 in Hload.
  set (hdr := value_header _ _ _ _ _) in *. clearbody hdr. cbn [load_loop].
  destruct (Z.ltb_spec (Z.of_nat (length pre)) b_len); [|lia].
  unfold SIZEOF_SHMAP_VALUE. rewrite (wrap_small 64 (Z.of_nat (length pre) + 72)) by rlia.
  destruct (Z.ltb_spec b_len (Z.of_nat (length pre) + 72)); [lia |].
  rewrite Hload. cbn [obind]. rewrite Hmag, Z.eqb_refl. cbn [negb]. rewrite Hsz, Hp, Hkey.
  destruct (Z.eqb_spec n 0); [done |]. done.
Qed.

Lemma sint64_small n : 0 <= n < 2 ^ 63 -> sint 64 n = n.
Proof.
  intros Hn. change (2 ^ 63) with 9223372036854775808 in *. unfold sint. rewrite wrap_small by rlia.
  change (2 ^ (64 - 1)) with 9223372036854775808. case_cmp; lia.
Qed.

Section loading.
Context (alloc_ok : Z -> bool) (Halloc : forall n, alloc_ok n = true) (now : Z).

(** One round of the loop stores one record. *)
Lemma load_record fuel h ht b pre r rest b_len :
  inv h ht -> count ht + 1 < 2 ^ 31 -> rec_ok r ->
  blocks h !! b = Some (pre ++ rec_bytes now r ++ rest) -> b ∉ concat (map owned (entries ht)) ->
  b_len < 2 ^ 63 -> Z.of_nat (length pre) + Z.of_nat (length (rec_bytes now r)) <= b_len ->
  exists h' ht', load_loop alloc_ok (S fuel) h ht (Some (b, 0)) b_len (Z.of_nat (length pre)) =
      load_loop alloc_ok fuel h' ht' (Some (b, 0)) b_len (Z.of_nat (length (pre ++ rec_bytes now r))) /\
    inv h' ht' /\ abs h' ht' = add_rec (abs h ht) r /\ blocks h' !! b = blocks h !! b /\
    b ∉ concat (map owned (entries ht')).
Proof.
  intros Hi Hc Hr Hb Hnb Hlim Hlen. pose proof (length_rec now r Hr) as Hl. rewrite Hl in Hlen.
  pose proof Hr as (Hk & Hf & Hne & _). set (n := Z.of_nat (length (r_data r))) in *.
  assert (0 < n < 2 ^ 63) as Hn. { unfold n. destruct (r_data r); [done |]. cbn [length] in *. lia. }
  set (pf := u32 (Z.land (r_flag r) (Z.lnot SHMAP_ALLOC))).
  unfold rec_bytes in Hb at 1. rewrite <- app_assoc in Hb.
  rewrite (load_round _ _ _ _ _ _ (r_key r) _ _ _ _ _ _ Hb);
    [| done | by apply wrap_range | rlia | unfold n in Hn; lia | lia | done].
  rewrite sint64_small by lia. rewrite flag_reload by done. fold n.
  set (hdr := value_header _ _ _ _ _) in Hb.
  assert (length hdr = 72%nat) as Lh by (apply header_fields; [done | by apply wrap_range | rlia]).
  set (flg := Z.lor (r_flag r) SHMAP_ALLOC).
  assert (set_flags flg (Some (b, Z.of_nat (length pre) + 72)) n = (flg, n)) as Hsf.
  { cbn [set_flags]. destruct (Z.eqb_spec n 0); [lia | done]. }
  destruct (set_value alloc_ok h ht (r_key r) flg (b, Z.of_nat (length pre) + 72) n (r_data r)) as (h' & ht' & Es & Hi' & Ha & Hfr).
  - done.
  - done.
  - rewrite Hsf. cbn [fst]. intros _. split; [done |]. rewrite wrap_small by rlia.
    rewrite app_assoc in Hb. pose proof (load_at h b (pre ++ hdr) (r_data r) _ Hb) as Hd.
    rewrite length_app, Lh in Hd. replace (Z.of_nat (length pre + 72)) with (Z.of_nat (length pre) + 72) in Hd by lia. exact Hd.
  - rewrite Es. cbn [obind fst snd]. exists h', ht'.
    assert (b <> brk h) as Hbrk. { assert (b < brk h); [|lia]. apply (proj1 (proj2 Hi)). by rewrite Hb. }
    destruct (Hfr b Hbrk Hnb) as [Hb' Hnb']. split_and!; try done.
    + f_equal. change (2 ^ 63) with 9223372036854775808 in *. rewrite wrap_small by rlia. llia.
    + rewrite Ha, Hsf. cbn [fst]. unfold stored, flg. by rewrite has_flag_lor.
Qed.

Lemma load_records rs fuel h ht b pre post b_len :
  inv h ht -> count ht + Z.of_nat (length rs) < 2 ^ 31 -> Forall rec_ok rs -> (length rs <= fuel)%nat ->
  blocks h !! b = Some (pre ++ concat (map (rec_bytes now) rs) ++ post) -> b ∉ concat (map owned (entries ht)) ->
  b_len < 2 ^ 63 -> Z.of_nat (length (pre ++ concat (map (rec_bytes now) rs))) = b_len ->
  exists h' ht', load_loop alloc_ok fuel h ht (Some (b, 0)) b_len (Z.of_nat (length pre)) = Done (h', ht') /\
    inv h' ht' /\ abs h' ht' = fold_left add_rec rs (abs h ht).
Proof.
  revert fuel h ht pre. induction rs as [|r rs IH]; intros fuel h ht pre Hi Hc Hrs Hfuel Hb Hnb Hlim Hlen.
  - exists h, ht. cbn [map concat] in Hlen. rewrite app_nil_r in Hlen. split; [|done].
    destruct fuel; cbn [load_loop]; case_cmp; (lia || done).
  - apply List.Forall_cons_iff in Hrs as [Hr Hrs]. cbn [map concat length] in *. destruct fuel as [|fuel]; [lia |].
    rewrite <- app_assoc in Hb. rewrite app_assoc in Hlen.
    destruct (load_record fuel h ht b pre r (concat (map (rec_bytes now) rs) ++ post) b_len) as (h1 & ht1 & -> & Hi1 & Ha1 & Hb1 & Hnb1); try done; [lia | llia |].
    cbn [fold_left]. rewrite <- Ha1. apply IH; try done; [|lia | by rewrite Hb1, Hb, <- app_assoc].
    rewrite (count_size h1 ht1 Hi1), Ha1. unfold add_rec. rewrite (count_size h ht Hi) in Hc.
    rewrite map_size_insert. destruct (abs h ht !! fst (reload r)); unfold id; lia.
Qed.
End loading.

Definition opt_list {A} (o : option A) : list A := match o with Some x => [x] | None => [] end.

(** The record of an entry, when [shmap_print] writes one. *)
Definition entry_rec (h : heap) (e : shmap_entry_t) : option rec :=
  match sz e =? 0, val e with
  | true, _ | _, None => None
  | false, Some _ =>
      match load h (val e) (u64 (sz e)) with
      | Done d => Some (mk_rec (key e) (flag e) d)
      | Fault => None
      end
  end.

(** The entry can be printed: its value is readable and fits the record. *)
Definition entry_ok (h : heap) (e : shmap_entry_t) : Prop :=
  sz e <> 0 -> val e <> NULL ->
  exists d, load h (val e) (u64 (sz e)) = Done d /\ rec_ok (mk_rec (key e) (flag e) d).

Section printing.
Context (E : env) (Hcalloc : forall n, calloc_ok E n = true) (now : Z) (h : heap).

Lemma print_entry_ok buf e :
  ShBuf.wf buf -> has_flag (flags buf) SHBUF_FMAP = false -> entry_ok h e ->
  let out := concat (map (rec_bytes now) (opt_list (entry_rec h e))) in
  data_of buf + Z.of_nat (length out) + 1 <= GROW_LIMIT ->
  exists buf', print_entry E now h buf e = Done buf' /\ ShBuf.wf buf' /\ contents buf' = contents buf ++ out /\
    data_of buf' = data_of buf + Z.of_nat (length out) /\ same_attrs buf' buf.
Proof.
  intros Hw Hf He out Hl. subst out. unfold print_entry, entry_rec, entry_ok in *.
  assert (exists buf', Done buf = Done buf' /\ ShBuf.wf buf' /\ contents buf' = contents buf ++ [] /\
    data_of buf' = data_of buf + 0 /\ same_attrs buf' buf) as Hskip
    by (exists buf; rewrite app_nil_r, Z.add_0_r; by split_and!).
  destruct (Z.eqb_spec (sz e) 0) as [|Hz]; [done |]. destruct (val e) as [p|] eqn:Ev; [|done].
  destruct He as (d & Ed & Hr); [done.. |]. rewrite Ed in *. cbn [obind opt_list map concat] in *.
  assert (Z.of_nat (length d) = u64 (sz e)) as Hd.
  { eapply load_length; [|exact Ed]. pose proof (wrap_range 64 (sz e)). ranges. lia. }
  rewrite app_nil_r in *. unfold rec_bytes in *. cbn [r_key r_flag r_data] in *. rewrite Hd in Hl. rewrite Hd.
  set (hdr := value_header _ _ _ _ _) in *. rewrite length_app in Hl.
  destruct (cat_ok E Hcalloc buf hdr Hw Hf) as (b1 & -> & Hw1 & Hc1 & Ho1 & _ & Ha1); [lia |]. cbn [obind].
  destruct (cat_ok E Hcalloc b1 d Hw1) as (b2 & -> & Hw2 & Hc2 & Ho2 & _ & Ha2); [by rewrite (proj1 Ha1) | lia |].
  exists b2. split_and!; try done; [by rewrite Hc2, Hc1, <- app_assoc | rewrite length_app; lia |].
  by eapply same_attrs_trans.
Qed.

Definition recs (es : list shmap_entry_t) : list rec := concat (map (fun e => opt_list (entry_rec h e)) es).

Lemma print_entries es buf :
  ShBuf.wf buf -> has_flag (flags buf) SHBUF_FMAP = false -> Forall (entry_ok h) es ->
  data_of buf + Z.of_nat (length (concat (map (rec_bytes now) (recs es)))) + 1 <= GROW_LIMIT ->
  exists buf', ofold (print_entry E now h) buf es = Done buf' /\ ShBuf.wf buf' /\
    contents buf' = contents buf ++ concat (map (rec_bytes now) (recs es)).
Proof.
  revert buf. induction es as [|e es IH]; intros buf Hw Hf Hes Hl.
  - exists buf. cbn. by rewrite app_nil_r.
  - apply List.Forall_cons_iff in Hes as [He Hes]. unfold recs in *. cbn [map concat ofold] in *.
    rewrite map_app, concat_app, length_app in *.
    destruct (print_entry_ok buf e Hw Hf He) as (b1 & -> & Hw1 & Hc1 & Ho1 & Ha1); [cbn zeta; lia |]. cbn [obind].
    destruct (IH b1 Hw1) as (b2 & -> & Hw2 & Hc2); [by rewrite (proj1 Ha1) | done | rewrite Ho1; lia |].
    exists b2. split_and!; try done. by rewrite Hc2, Hc1, <- app_assoc.
Qed.

Lemma recs_ok es : Forall (entry_ok h) es -> Forall rec_ok (recs es).
Proof.
  intros Hes. induction Hes as [|e es He Hes IH]; [constructor |]. unfold recs. cbn [map concat]. apply Forall_app. split; [|done].
  unfold entry_rec, entry_ok in *. destruct (Z.eqb_spec (sz e) 0) as [|Hz]; [constructor |].
  destruct (val e) as [p|]; [|constructor]. destruct He as (d & -> & Hr); [done.. |]. cbn [opt_list].
  by apply List.Forall_cons; [| constructor].
Qed.
End printing.

(** What an abstract value becomes: every value that has a size comes back as a
    copy; references without a size are dropped. *)
Definition reload_value (h : heap) (v : value) : option value :=
  match v with
  | Owned f d => if decide (d = []) then None else Some (Owned (Z.lor f SHMAP_ALLOC) d)
  | Ref f p n =>
      match n =? 0, p with
      | true, _ | _, None => None
      | false, Some _ => match load h p (u64 n) with Done d => Some (Owned (Z.lor f SHMAP_ALLOC) d) | Fault => None end
      end
  end.

Lemma reload_entry h e :
  owns h e -> entry_ok h e -> - 2 ^ 63 <= sz e < 2 ^ 63 ->
  reload_value h (view h e) = snd ∘ reload <$> entry_rec h e.
Proof.
  intros Ho He Hs. unfold view, owns, entry_rec in *. destruct (is_alloc e).
  - destruct (Ho eq_refl) as (b & d & Ev & Hb & Hl). rewrite Ev. cbn [reload_value]. rewrite Hb. cbn [default].
    unfold id. destruct (Z.eqb_spec (sz e) 0) as [Hz|Hz].
    + rewrite Hz in Hl. change (u64 0) with 0 in Hl. destruct d; [done | cbn [length] in Hl; lia].
    + rewrite decide_False.
      2:{ intros ->. cbn [length] in Hl. unfold wrap in Hl. change (2 ^ 63) with 9223372036854775808 in Hs.
          change (2 ^ 64) with 18446744073709551616 in Hl. mlia. }
      pose proof (load_at h b [] d []) as Hld. cbn [length app ptr_add] in Hld. rewrite app_nil_r, Hl in Hld.
      change (0 + Z.of_nat 0) with 0 in Hld. by rewrite Hld.
  - cbn [reload_value]. destruct (sz e =? 0); [done |]. destruct (val e); [|done].
    by destruct (load h _ _).
Qed.

Lemma reload_entries h es :
  NoDup (map img es) -> Forall (owns h) es -> Forall (entry_ok h) es -> Forall (fun e => - 2 ^ 63 <= sz e < 2 ^ 63) es ->
  omap (reload_value h) (abs_of h es) = list_to_map (map reload (recs h es)).
Proof.
  induction es as [|e es IH]; intros Hn Ho He Hs; [apply omap_empty |].
  apply List.Forall_cons_iff in Ho as [Ho1 Ho], He as [He1 He], Hs as [Hs1 Hs]. cbn [map] in Hn. apply NoDup_cons in Hn as [Hnin Hn].
  specialize (IH Hn Ho He Hs). change (abs_of h (e :: es)) with (<[img e := view h e]> (abs_of h es)).
  rewrite omap_insert, IH, reload_entry by done. unfold recs. cbn [map concat].
  assert (forall r, entry_rec h e = Some r -> fst (reload r) = img e) as Hk.
  { unfold entry_rec. intros r. destruct (sz e =? 0); [done |]. destruct (val e); [|done].
    destruct (load h _ _); [|done]. by intros [= <-]. }
  destruct (entry_rec h e) as [r|] eqn:Er; cbn [opt_list fmap option_fmap option_map app map compose].
  - cbn [list_to_map foldr]. rewrite <- (Hk r eq_refl). unfold reload at 1 2 3. done.
  - change (concat (map (fun e0 => opt_list (entry_rec h e0)) es)) with (recs h es).
    rewrite <- IH. apply delete_id. rewrite lookup_omap, abs_of_notin; done.
Qed.

Lemma fold_add_rec rs :
  NoDup (map fst (map reload rs)) -> fold_left add_rec rs ∅ = list_to_map (map reload rs).
Proof.
  intros Hn. transitivity (list_to_map (rev (map reload rs)) : gmap bytes value).
  - rewrite <- map_rev. rewrite <- (rev_involutive rs) at 1. rewrite <- fold_left_rev_right. rewrite rev_involutive.
    by induction (rev rs) as [|r l IH]; [| cbn [fold_right map list_to_map foldr]; rewrite IH].
  - apply list_to_map_proper; [|by rewrite <- Permutation_rev].
    change (NoDup (map fst (rev (map reload rs)))). by rewrite map_rev, <- Permutation_rev.
Qed.

Lemma recs_keys h es : map fst (map reload (recs h es)) `sublist_of` map img es.
Proof.
  induction es as [|e es IH]; [constructor |]. unfold recs in *. cbn [map concat]. rewrite !map_app.
  unfold entry_rec at 1. destruct (sz e =? 0), (val e) as [p|]; cbn [opt_list map app]; try by apply sublist_cons.
  destruct (load h _ _); cbn [opt_list map app]; [by apply sublist_skip | by apply sublist_cons].
Qed.

(** The pointer the buffer hands to [shmap_load]. *)
Definition points_to (h : heap) (p : ptr) (buf : shbuf_t) : Prop :=
  match data buf with
  | None => p = NULL
  | Some d => exists b, p = Some (b, 0) /\ blocks h !! b = Some d
  end.

(** C11: A table written by [shmap_print] and read by [shmap_load] into a new
    table, possibly in another process, gives the map [omap (reload_value h)] of
    the old one: every value that has a size comes back under its key as a copy of
    its bytes with its flags and [SHMAP_ALLOC], sized references included;
    references without a size and values of size zero are dropped. *)
Theorem shmap_print_load E now h ht :
  (forall n, calloc_ok E n = true) -> inv h ht -> count ht < 2 ^ 31 ->
  Forall (entry_ok h) (entries ht) -> Forall (fun e => - 2 ^ 63 <= sz e < 2 ^ 63) (entries ht) ->
  Z.of_nat (length (concat (map (rec_bytes now) (recs h (entries ht))))) + 1 <= GROW_LIMIT ->
  exists buf, shmap_print E now h ht shbuf_init = Done buf /\
    forall alloc_ok h1 p, (forall n, alloc_ok n = true) -> heap_wf h1 -> points_to h1 p buf ->
    exists h2 ht2, shmap_load alloc_ok h1 shmap_init p (data_of buf) = Done (h2, ht2) /\ inv h2 ht2 /\
      abs h2 ht2 = omap (reload_value h) (abs h ht).
Proof.
  intros Hc [(Hs & _ & _ & Hn & Hct) (_ & _ & Ho)] Hb Hok Hsz Hlim. unfold shmap_print. rewrite for_entries_ofold by done.
  destruct (print_entries E Hc now h (entries ht) shbuf_init) as (buf & Ep & Hw & Hcn);
    [apply wf_init | done | done | cbn [data_of shbuf_init]; lia |].
  exists buf. split; [done |]. intros alloc_ok h1 p Ha Hh1 Hp. cbn [contents shbuf_init data app] in Hcn.
  set (rs := recs h (entries ht)) in *. pose proof (contents_length buf Hw) as Hlen. rewrite Hcn in Hlen.
  unfold abs at 2. rewrite reload_entries by done. fold rs.
  assert (NoDup (map fst (map reload rs))) as Hnd by (eapply sublist_NoDup; [done | apply recs_keys]).
  rewrite <- fold_add_rec by done.
  destruct (shmap_init_inv h1 Hh1) as [Hi0 Ha0]. rewrite <- Ha0.
  assert (Forall rec_ok rs) as Hrs by (by apply recs_ok).
  assert (length rs <= length (entries ht))%nat as Hcount.
  { pose proof (sublist_length _ _ (recs_keys h (entries ht))) as Hsub.
    by rewrite !length_map in Hsub. }
  assert (length rs <= length (concat (map (rec_bytes now) rs)))%nat as Hfuel.
  { clear -Hrs. induction Hrs as [|r rs Hr Hrs IH]; [done |]. cbn [map concat length]. rewrite length_app, length_rec by done. lia. }
  unfold GROW_LIMIT, INT_MAX in Hlim. unfold shmap_load, points_to in *. destruct (data buf) as [d|] eqn:Ed.
  - destruct Hp as (b & -> & Hb1).
    apply (load_records alloc_ok Ha now rs _ h1 shmap_init b [] (drop (Z.to_nat (data_of buf)) d)); try done.
    + cbn [count shmap_init]. lia.
    + lia.
    + cbn [app]. rewrite <- Hcn. unfold contents. by rewrite Ed, take_drop.
    + change (entries shmap_init) with (@nil shmap_entry_t). apply not_elem_of_nil.
    + change (2 ^ 63) with 9223372036854775808. lia.
  - subst p. unfold contents in Hcn. rewrite Ed in Hcn. rewrite <- Hcn in Hlen, Hfuel. cbn [length] in *.
    rewrite <- Hlen. destruct rs; [|cbn [length] in Hfuel; lia]. by exists h1, shmap_init.
Qed.

Definition one_heap : heap := mk_heap (<[3 := [9; 8; 7]]> (blocks test_heap)) 4.
Definition one_entry : shmap_entry_t :=
  mk_entry (shmap_hash_num (shkey_image (test_key 1))) (test_key 1) (Some (3, 0)) 3 8193.
Definition one_map : shmap_t := mk_map (<[1%nat := [one_entry]]> (alloc_array INITIAL_MAX)) 1 INITIAL_MAX [].

Lemma one_map_inv : inv one_heap one_map.
Proof.
  destruct (set_value (fun _ => true) test_heap shmap_init (test_key 1) 8193 (2, 0) 3 [9; 8; 7]) as (h & ht & Es & Hi & _);
    [apply shmap_init_inv, test_heap_wf | reflexivity | intros _; split; vm_compute; reflexivity |].
  assert (Done (one_heap, one_map, 0) = Done (h, ht, 0)) as [= -> ->]; [|done].
  rewrite <- Es. vm_compute. reflexivity.
Qed.

Lemma shmap_print_load_witness :
  exists buf, shmap_print no_junk 5 one_heap one_map shbuf_init = Done buf /\
    forall alloc_ok h1 p, (forall n, alloc_ok n = true) -> heap_wf h1 -> points_to h1 p buf ->
    exists h2 ht2, shmap_load alloc_ok h1 shmap_init p (data_of buf) = Done (h2, ht2) /\ inv h2 ht2 /\
      abs h2 ht2 = omap (reload_value one_heap) (abs one_heap one_map).
Proof.
  apply (shmap_print_load no_junk 5 one_heap one_map).
  - reflexivity.
  - apply one_map_inv.
  - reflexivity.
  - change (entries one_map) with [one_entry]. apply List.Forall_cons; [|constructor]. intros _ _. exists [9; 8; 7].
    split; [vm_compute; reflexivity |]. unfold rec_ok. cbn [r_key r_flag r_data key flag one_entry].
    split_and!; [by repeat constructor | done | done | done | byte_literal].
  - change (entries one_map) with [one_entry]. by repeat constructor.
  - vm_compute. discriminate.
Defined.

(** A header alone, announcing [n] bytes. *)
Definition bare_header (k : shkey_t) (n : Z) : bytes := value_header k 0 0 SHMAP_STRING n.

(** [shmap_load] does not check the announced size against the buffer: a
    header whose data is missing makes it copy from beyond the allocation. *)
Theorem shmap_load_overread alloc_ok h ht b k n :
  (forall n, alloc_ok n = true) -> valid_key k -> 0 < n < 2 ^ 63 -> blocks h !! b = Some (bare_header k n) ->
  shmap_load alloc_ok h ht (Some (b, 0)) 72 = Fault.
Proof.
  intros Ha Hk Hn Hb. unfold shmap_load. change (Z.to_nat 72) with (S 71).
  change 0 with (Z.of_nat (length (@nil Z))) at 2.
  rewrite (load_round _ _ _ _ _ [] k 0 0 SHMAP_STRING n []);
    [| by rewrite app_nil_r | done | by split | change (2 ^ 63) with 9223372036854775808 in Hn; rlia | lia | done | done].
  assert (length (bare_header k n) = 72%nat) as Lh
    by (apply header_fields; [done | by split | change (2 ^ 63) with 9223372036854775808 in Hn; rlia]).
  rewrite sint64_small by lia. change (sint 32 (Z.lor SHMAP_STRING SHMAP_ALLOC)) with 1025.
  unfold shmap_set_ent, set_flags. destruct (Z.eqb_spec n 0); [lia |]. unfold copy_value.
  change (has_flag 1025 SHMAP_ALLOC) with true. cbn iota. rewrite Ha. cbn [negb load]. rewrite Hb.
  destruct (Z.leb_spec 0 (Z.of_nat (length (@nil Z)) + 72)); [|cbn [length] in *; lia]. unfold mem_read.
  change (2 ^ 63) with 9223372036854775808 in Hn. rewrite wrap_small by rlia.
  rewrite decide_False by (rewrite Lh; lia). done.
Qed.

Lemma shmap_load_overread_witness :
  shmap_load (fun _ => true) (mk_heap {[ 1 := bare_header (test_key 1) 5 ]} 2) shmap_init (Some (1, 0)) 72 = Fault.
Proof.
  apply (shmap_load_overread (fun _ => true) _ shmap_init 1 (test_key 1) 5);
    [reflexivity | by repeat constructor | by split | vm_compute; reflexivity].
Defined.

(** A header that announces 2^64 - 72 bytes brings the 64-bit offset back
    to where it was: as long as the copy of that size fails for want of memory,
    the loop never ends, whatever number of rounds it is given. *)
Theorem shmap_load_no_progress alloc_ok h ht b k fuel :
  (forall n, 2 ^ 63 <= n -> alloc_ok n = false) -> valid_key k ->
  blocks h !! b = Some (bare_header k (2 ^ 64 - 72)) ->
  load_loop alloc_ok fuel h ht (Some (b, 0)) 72 0 = Fault.
Proof.
  intros Ha Hk Hb. induction fuel as [|fuel IH]; [done |].
  change 0 with (Z.of_nat (length (@nil Z))) at 2.
  rewrite (load_round _ _ _ _ _ [] k 0 0 SHMAP_STRING (2 ^ 64 - 72) []);
    [| by rewrite app_nil_r | done | by split | by split | done | done | done].
  change (sint 64 (2 ^ 64 - 72)) with (-72). change (sint 32 (Z.lor SHMAP_STRING SHMAP_ALLOC)) with 1025.
  unfold shmap_set_ent, set_flags. change (-72 =? 0) with false. cbn iota. unfold copy_value.
  change (has_flag 1025 SHMAP_ALLOC) with true. cbn iota. rewrite Ha by (vm_compute; discriminate). cbn [negb obind fst snd].
  exact IH.
Qed.

Lemma shmap_load_no_progress_witness :
  load_loop (fun n => n <? 2 ^ 63) 1000 (mk_heap {[ 1 := bare_header (test_key 1) (2 ^ 64 - 72) ]} 2) shmap_init (Some (1, 0)) 72 0 = Fault.
Proof.
  apply (shmap_load_no_progress _ _ _ 1 (test_key 1));
    [intros n Hn; by apply Z.ltb_ge | by repeat constructor | vm_compute; reflexivity].
Defined.
