(* ===== verification/ShBase64.v ===== *)
(** * Base64

    Models [share-lib/mem/shmem_base64.c].  A pointer into the input is the
    list of the bytes from there on, a pointer into the output block the bytes
    written so far; reading past the input or writing past the allocation is a
    [Fault].  The encoder is compared with the definition of the encoding by
    groups of three bytes and the decoder with its inverse. *)

From Stdlib Require Import ZArith Lia String.
From stdpp Require Import base numbers list.
From S2P Require Import Prelude.

Open Scope Z_scope.

(** 64 marks a character outside the alphabet. *)
Definition _shbase64_decode_table : list Z :=
  replicate 43 64 ++ [62] ++ replicate 3 64 ++ [63] ++
  map Z.of_nat (seq 52 10) ++ replicate 7 64 ++ map Z.of_nat (seq 0 26) ++
  replicate 6 64 ++ map Z.of_nat (seq 26 26) ++ replicate 133 64.

Definition dec (c : Z) : Z := nth (Z.to_nat c) _shbase64_decode_table 64.

Definition _shbase64_encode_table : list Z :=
  cstr "ABCDEFGHIJKLMNOPQRSTUVWXYZabcdefghijklmnopqrstuvwxyz0123456789+/".

Definition enc (d : Z) : Z := nth (Z.to_nat d) _shbase64_encode_table 0.

(** [*p++ = c] on a block of [cap] bytes. *)
Definition put (cap : Z) (out : bytes) (c : Z) : outcome bytes :=
  if Z.of_nat (length out) <? cap then Done (out ++ [c]) else Fault.

(** An [int] result: overflow is undefined. *)
Definition int (z : Z) : outcome Z :=
  if (- INT_MAX - 1 <=? z) && (z <=? INT_MAX) then Done z else Fault.

(** ** Encoding *)

Definition shbase64_encode_len (len : Z) : outcome Z :=
  n <-! int (len + 2);
  n <-! int (n / 3 * 4);
  int (n + 1).

Definition at_ (data : bytes) (i : Z) : outcome Z :=
  match data !! Z.to_nat i with Some b => Done b | None => Fault end.

(** [for (i = 0; i < data_len - 2; i += 3)]: the bound is a [size_t]. *)
Fixpoint encode_loop (fuel : nat) (cap : Z) (data : bytes) (data_len i : Z) (p : bytes) : outcome (Z * bytes) :=
  if u64 i <? u64 (data_len - 2) then
    match fuel with
    | O => Fault
    | S fuel' =>
        d0 <-! at_ data i;
        p <-! put cap p (enc (Z.land (Z.shiftr d0 2) 63));
        d1 <-! at_ data (i + 1);
        p <-! put cap p (enc (Z.lor (Z.shiftl (Z.land d0 3) 4) (Z.shiftr (Z.land d1 240) 4)));
        d2 <-! at_ data (i + 2);
        p <-! put cap p (enc (Z.lor (Z.shiftl (Z.land d1 15) 2) (Z.shiftr (Z.land d2 192) 6)));
        p <-! put cap p (enc (Z.land d2 63));
        i <-! int (i + 3);
        encode_loop fuel' cap data data_len i p
    end
  else Done (i, p).

Definition encode_tail (cap : Z) (data : bytes) (data_len i : Z) (p : bytes) : outcome bytes :=
  if u64 i <? data_len then
    d0 <-! at_ data i;
    p <-! put cap p (enc (Z.land (Z.shiftr d0 2) 63));
    p <-! (if u64 i =? u64 (data_len - 1) then
             p <-! put cap p (enc (Z.shiftl (Z.land d0 3) 4));
             put cap p 61
           else
             d1 <-! at_ data (i + 1);
             p <-! put cap p (enc (Z.lor (Z.shiftl (Z.land d0 3) 4) (Z.shiftr (Z.land d1 240) 4)));
             put cap p (enc (Z.shiftl (Z.land d1 15) 2)));
    put cap p 61
  else Done p.

(** The block: what was written, then the zeros [calloc] left.  [None] when
    there is no memory. *)
Definition shbase64_encode (alloc_ok : bool) (data : bytes) (data_len : Z) : outcome (option bytes * Z) :=
  alloc_len <-! shbase64_encode_len (sint 32 data_len);
  if negb alloc_ok then Done (None, SHERR_NOMEM)
  else
    let cap := alloc_len + 1 in
    r <-! encode_loop (length data) cap data data_len 0 [];
    p <-! encode_tail cap data data_len (fst r) (snd r);
    Done (Some (p ++ replicate (Z.to_nat cap - length p) 0), 0).

(** ** Decoding *)

(** [while (table[*(bufin++)] <= 63);] and the number of characters before the
    one that ends it. *)
Fixpoint count_chars (s : bytes) : outcome Z :=
  match s with
  | [] => Fault
  | c :: s' => if dec c <=? 63 then n <-! count_chars s'; Done (n + 1) else Done 0
  end.

Definition shbase64_decode_len (enc_data : bytes) : outcome Z :=
  nprbytes <-! count_chars enc_data;
  n <-! int (nprbytes + 3);
  n <-! int (n / 4 * 3);
  int (n + 1).

Definition byte0 (c0 c1 : Z) : Z := u8 (Z.lor (Z.shiftl (dec c0) 2) (Z.shiftr (dec c1) 4)).
Definition byte1 (c1 c2 : Z) : Z := u8 (Z.lor (Z.shiftl (dec c1) 4) (Z.shiftr (dec c2) 2)).
Definition byte2 (c2 c3 : Z) : Z := u8 (Z.lor (Z.shiftl (dec c2) 6) (dec c3)).

(** [while (nprbytes > 4)] *)
Fixpoint decode_loop (fuel : nat) (cap : Z) (bufin : bytes) (nprbytes : Z) (bufout : bytes)
  : outcome (bytes * Z * bytes) :=
  if 4 <? nprbytes then
    match fuel, bufin with
    | S fuel', c0 :: c1 :: c2 :: c3 :: rest =>
        bufout <-! put cap bufout (byte0 c0 c1);
        bufout <-! put cap bufout (byte1 c1 c2);
        bufout <-! put cap bufout (byte2 c2 c3);
        decode_loop fuel' cap rest (nprbytes - 4) bufout
    | _, _ => Fault
    end
  else Done (bufin, nprbytes, bufout).

Definition decode_tail (cap : Z) (bufin : bytes) (nprbytes : Z) (bufout : bytes) : outcome bytes :=
  bufout <-! (if 1 <? nprbytes then c0 <-! at_ bufin 0; c1 <-! at_ bufin 1; put cap bufout (byte0 c0 c1) else Done bufout);
  bufout <-! (if 2 <? nprbytes then c1 <-! at_ bufin 1; c2 <-! at_ bufin 2; put cap bufout (byte1 c1 c2) else Done bufout);
  if 3 <? nprbytes then c2 <-! at_ bufin 2; c3 <-! at_ bufin 3; put cap bufout (byte2 c2 c3) else Done bufout.

(** The block and the decoded length. *)
Definition shbase64_decode (alloc_ok : bool) (enc_data : bytes) : outcome (option (bytes * Z) * Z) :=
  alloc_len <-! shbase64_decode_len enc_data;
  if negb alloc_ok then Done (None, SHERR_NOMEM)
  else
    let cap := alloc_len + 1 in
    nprbytes <-! count_chars enc_data;
    let nbytesdecoded := (nprbytes + 3) / 4 * 3 in
    r <-! decode_loop (length enc_data) cap enc_data nprbytes [];
    (let '(bufin, nprbytes, bufout) := r in
     bufout <-! decode_tail cap bufin nprbytes bufout;
     bufout <-! put cap bufout 0;
     Done (Some (bufout ++ replicate (Z.to_nat cap - length bufout) 0,
                 nbytesdecoded - Z.land (4 - nprbytes) 3), 0)).

(** ** The encoding by groups *)

Definition s0 (a : Z) : Z := a / 4.
Definition s1 (a b : Z) : Z := a mod 4 * 16 + b / 16.
Definition s2 (b c : Z) : Z := b mod 16 * 4 + c / 64.
Definition s3 (c : Z) : Z := c mod 64.

(** RFC 4648, section 4. *)
Fixpoint base64 (l : bytes) : bytes :=
  match l with
  | a :: b :: c :: r => enc (s0 a) :: enc (s1 a b) :: enc (s2 b c) :: enc (s3 c) :: base64 r
  | [a; b] => [enc (s0 a); enc (s1 a b); enc (s2 b 0); 61]
  | [a] => [enc (s0 a); enc (s1 a 0); 61; 61]
  | [] => []
  end.

(** The characters before the padding. *)
Fixpoint nchars (l : bytes) : Z :=
  match l with
  | _ :: _ :: _ :: r => nchars r + 4
  | [_; _] => 3
  | [_] => 2
  | [] => 0
  end.

Example base64_encode_test :
  shbase64_encode true (cstr "share!!") 7 = Done (Some (cstr "c2hhcmUhIQ==" ++ [0; 0]), 0).
Proof. vm_compute. reflexivity. Qed.
Example base64_decode_test :
  shbase64_decode true (cstr "c2hhcmUhIQ==" ++ [0]) = Done (Some (cstr "share!!" ++ [0; 0; 0; 0], 7), 0).
Proof. vm_compute. reflexivity. Qed.

(** ** Lemmas *)

Lemma dec_enc d : 0 <= d < 64 -> dec (enc d) = d.
Proof.
  intros Hd. assert (forallb (fun d => dec (enc d) =? d) (map Z.of_nat (seq 0 64)) = true) as H by (vm_compute; reflexivity).
  rewrite forallb_forall in H. apply Z.eqb_eq, H. apply in_map_iff. exists (Z.to_nat d). rewrite in_seq. lia.
Qed.

Lemma dec_61 : dec 61 = 64.
Proof. reflexivity. Qed.
Lemma dec_0 : dec 0 = 64.
Proof. reflexivity. Qed.

Lemma dec_le c : (dec c <=? 63) = true -> 0 <= dec c < 64.
Proof.
  intros H. split; [|lia]. unfold dec. assert (Forall (fun x => 0 <= x) _shbase64_decode_table) as Hall.
  { apply Forall_forall. intros x Hx.
    assert (forallb (fun x => 0 <=? x) _shbase64_decode_table = true) as Hb by (vm_compute; reflexivity).
    rewrite forallb_forall in Hb. apply Z.leb_le, Hb. by apply list_elem_of_In. }
  rewrite Forall_forall in Hall. destruct (nth_in_or_default (Z.to_nat c) _shbase64_decode_table 64) as [Hin| ->]; [|lia].
  by apply Hall, list_elem_of_In.
Qed.

(** The sextets as the code computes them. *)
Lemma land_ones_mod z n : 0 <= n -> Z.land z (Z.ones n) = z mod 2 ^ n.
Proof. apply Z.land_ones. Qed.

Lemma sextet0 a : is_byte a -> Z.land (Z.shiftr a 2) 63 = s0 a.
Proof.
  intros Ha. change 63 with (Z.ones 6). rewrite land_ones_mod, Z.shiftr_div_pow2 by lia. unfold s0. ranges. change (2 ^ 2) with 4. change (2 ^ 6) with 64. mlia.
Qed.

Lemma low2 a : Z.shiftl (Z.land a 3) 4 = a mod 4 * 16.
Proof. change 3 with (Z.ones 2). by rewrite land_ones_mod, Z.shiftl_mul_pow2 by lia. Qed.

Lemma low4 b : Z.shiftl (Z.land b 15) 2 = b mod 16 * 4.
Proof. change 15 with (Z.ones 4). by rewrite land_ones_mod, Z.shiftl_mul_pow2 by lia. Qed.

Lemma high4 b : is_byte b -> Z.shiftr (Z.land b 240) 4 = b / 16.
Proof.
  intros Hb. rewrite Z.shiftr_land. change (Z.shiftr 240 4) with (Z.ones 4). rewrite land_ones_mod, Z.shiftr_div_pow2 by lia.
  ranges. change (2 ^ 4) with 16. mlia.
Qed.

Lemma high2 c : is_byte c -> Z.shiftr (Z.land c 192) 6 = c / 64.
Proof.
  intros Hc. rewrite Z.shiftr_land. change (Z.shiftr 192 6) with (Z.ones 2). rewrite land_ones_mod, Z.shiftr_div_pow2 by lia.
  ranges. change (2 ^ 6) with 64. change (2 ^ 2) with 4. mlia.
Qed.

Lemma sextet1 a b : is_byte b -> Z.lor (Z.shiftl (Z.land a 3) 4) (Z.shiftr (Z.land b 240) 4) = s1 a b.
Proof.
  intros Hb. rewrite high4 by done. rewrite lor_add; [|lia | ranges; change (2 ^ 4) with 16; mlia]. change 3 with (Z.ones 2).
  by rewrite land_ones_mod by lia.
Qed.

Lemma sextet2 b c : is_byte c -> Z.lor (Z.shiftl (Z.land b 15) 2) (Z.shiftr (Z.land c 192) 6) = s2 b c.
Proof.
  intros Hc. rewrite high2 by done. rewrite lor_add; [|lia | ranges; change (2 ^ 2) with 4; mlia]. change 15 with (Z.ones 4).
  by rewrite land_ones_mod by lia.
Qed.

Lemma sextet3 c : Z.land c 63 = s3 c.
Proof. change 63 with (Z.ones 6). by rewrite land_ones_mod by lia. Qed.

Lemma s0_range a : is_byte a -> 0 <= s0 a < 64.
Proof. intros Ha. unfold s0. ranges. mlia. Qed.
Lemma s1_range a b : is_byte a -> is_byte b -> 0 <= s1 a b < 64.
Proof. intros Ha Hb. unfold s1. ranges. mlia. Qed.
Lemma s2_range b c : is_byte b -> is_byte c -> 0 <= s2 b c < 64.
Proof. intros Hb Hc. unfold s2. ranges. mlia. Qed.
Lemma s3_range c : 0 <= s3 c < 64.
Proof. unfold s3. mlia. Qed.

(** Decoding a group gives its bytes. *)
Lemma byte0_enc a x : is_byte a -> 0 <= x < 64 -> x / 16 = a mod 4 -> byte0 (enc (s0 a)) (enc x) = a.
Proof.
  intros Ha Hx Hx'. unfold byte0. rewrite !dec_enc by (done || by apply s0_range). rewrite Z.shiftr_div_pow2 by lia.
  change (2 ^ 4) with 16. rewrite Hx', lor_add; [|lia | ranges; change (2 ^ 2) with 4; mlia].
  unfold s0, wrap. ranges. change (2 ^ 2) with 4. change (2 ^ 8) with 256. mlia.
Qed.

Lemma byte1_enc a b x : is_byte a -> is_byte b -> 0 <= x < 64 -> x / 4 = b mod 16 -> byte1 (enc (s1 a b)) (enc x) = b.
Proof.
  intros Ha Hb Hx Hx'. unfold byte1. rewrite !dec_enc by (done || by apply s1_range). rewrite Z.shiftr_div_pow2 by lia.
  change (2 ^ 2) with 4. rewrite Hx', lor_add; [|lia | ranges; change (2 ^ 4) with 16; mlia].
  unfold s1, wrap. ranges. change (2 ^ 4) with 16. change (2 ^ 8) with 256. mlia.
Qed.

Lemma byte2_enc b c : is_byte b -> is_byte c -> byte2 (enc (s2 b c)) (enc (s3 c)) = c.
Proof.
  intros Hb Hc. unfold byte2. rewrite !dec_enc by (apply s3_range || by apply s2_range). rewrite lor_add; [|lia | pose proof (s3_range c); ranges; change (2 ^ 6) with 64; lia].
  unfold s2, s3, wrap. ranges. change (2 ^ 6) with 64. change (2 ^ 8) with 256. mlia.
Qed.


Lemma list3_ind {A} (P : list A -> Prop) :
  P [] -> (forall a, P [a]) -> (forall a b, P [a; b]) -> (forall a b c r, P r -> P (a :: b :: c :: r)) -> forall l, P l.
Proof.
  intros H0 H1 H2 H3. refine (fix IH l := match l with [] => H0 | [a] => H1 a | [a; b] => H2 a b | a :: b :: c :: r => H3 a b c r (IH r) end).
Qed.

Lemma length_base64 l : Z.of_nat (length (base64 l)) = (Z.of_nat (length l) + 2) / 3 * 4.
Proof.
  induction l as [|a|a b|a b c r IH] using list3_ind; [done.. |]. cbn [base64 length]. rewrite !Nat2Z.inj_succ, IH.
  replace (Z.succ (Z.succ (Z.succ (Z.of_nat (length r)))) + 2) with (Z.of_nat (length r) + 2 + 1 * 3) by lia.
  rewrite Z.div_add by lia. lia.
Qed.

Lemma put_ok cap out c : Z.of_nat (length out) < cap -> put cap out c = Done (out ++ [c]).
Proof. intros H. unfold put. case_cmp; [done | lia]. Qed.

Lemma at_app pre rest i k b : i = Z.of_nat (length pre) -> 0 <= k -> rest !! Z.to_nat k = Some b -> at_ (pre ++ rest) (i + k) = Done b.
Proof.
  intros -> Hk Hb. unfold at_. rewrite lookup_app_r by lia.
  replace (Z.to_nat (Z.of_nat (length pre) + k) - length pre)%nat with (Z.to_nat k) by lia. by rewrite Hb.
Qed.

Lemma at_app0 pre b rest i : i = Z.of_nat (length pre) -> at_ (pre ++ b :: rest) i = Done b.
Proof. intros ->. unfold at_. rewrite lookup_app_r by lia. by rewrite Nat2Z.id, Nat.sub_diag. Qed.

Lemma int_ok z : - INT_MAX - 1 <= z <= INT_MAX -> int z = Done z.
Proof. intros H. unfold int. destruct (Z.leb_spec (- INT_MAX - 1) z), (Z.leb_spec z INT_MAX); done || lia. Qed.

(** Largest input whose encoded length is an [int]. *)
Definition BASE64_MAX : Z := 1610612731.

Ltac out_len := repeat rewrite length_app; cbn [length]; lia.

(** The loop stops when fewer than three bytes are left. *)
Lemma encode_loop_stop fuel cap data n i p :
  2 <= n < 2 ^ 31 -> 0 <= i < 2 ^ 31 -> n - 2 <= i -> encode_loop fuel cap data n i p = Done (i, p).
Proof.
  intros Hn Hi H. change (2 ^ 31) with 2147483648 in *.
  destruct fuel; cbn [encode_loop]; rewrite (wrap_small 64 i), wrap_small by rlia; (case_cmp; [lia | done]).
Qed.

Lemma encode_rest cap rest pre p fuel :
  is_bytes (pre ++ rest) -> 2 <= Z.of_nat (length (pre ++ rest)) <= BASE64_MAX -> (length rest <= fuel)%nat ->
  Z.of_nat (length p) + Z.of_nat (length (base64 rest)) <= cap ->
  (r <-! encode_loop fuel cap (pre ++ rest) (Z.of_nat (length (pre ++ rest))) (Z.of_nat (length pre)) p;
   encode_tail cap (pre ++ rest) (Z.of_nat (length (pre ++ rest))) (fst r) (snd r)) = Done (p ++ base64 rest).
Proof.
  unfold BASE64_MAX. revert pre p fuel. induction rest as [|a|a b|a b c r IH] using list3_ind; intros pre p fuel Hby Hn Hf Hcap;
    rewrite length_app in *; cbn [length] in *.
  - rewrite encode_loop_stop by lia. cbn [obind fst snd]. unfold encode_tail. rewrite wrap_small by rlia.
    case_cmp; [lia |]. by rewrite app_nil_r.
  - apply List.Forall_app in Hby as [_ [Ha _]%List.Forall_cons_iff]. cbn [base64 length] in Hcap.
    rewrite encode_loop_stop by lia. cbn [obind fst snd]. unfold encode_tail. rewrite !wrap_small by rlia. case_cmp; [|lia].
    rewrite at_app0 by done. cbn [obind]. rewrite put_ok by out_len. cbn [obind]. case_cmp; [|lia].
    rewrite put_ok by out_len. cbn [obind]. rewrite put_ok by out_len. cbn [obind]. rewrite put_ok by out_len.
    rewrite sextet0, low2 by done. rewrite <- !app_assoc. cbn [base64 app]. unfold s1. change (0 / 16) with 0. by rewrite Z.add_0_r.
  - apply List.Forall_app in Hby as [_ [Ha [Hb _]%List.Forall_cons_iff]%List.Forall_cons_iff]. cbn [base64 length] in Hcap.
    rewrite encode_loop_stop by lia. cbn [obind fst snd]. unfold encode_tail. rewrite !wrap_small by rlia. case_cmp; [|lia].
    rewrite at_app0 by done. cbn [obind]. rewrite put_ok by out_len. cbn [obind]. case_cmp; [lia |].
    rewrite (at_app _ _ _ 1 b) by done. cbn [obind]. rewrite put_ok by out_len. cbn [obind].
    rewrite put_ok by out_len. cbn [obind]. rewrite put_ok by out_len.
    rewrite sextet0, sextet1, low4 by done. rewrite <- !app_assoc. cbn [base64 app]. unfold s2. change (0 / 64) with 0. by rewrite Z.add_0_r.
  - pose proof Hby as [Hp [Ha [Hb [Hc Hr]%List.Forall_cons_iff]%List.Forall_cons_iff]%List.Forall_cons_iff]%List.Forall_app.
    cbn [base64 length] in Hcap. destruct fuel as [|fuel]; [lia |]. cbn [encode_loop].
    rewrite (wrap_small 64 (Z.of_nat (length pre))), wrap_small by rlia. case_cmp; [|lia].
    rewrite at_app0 by done. cbn [obind]. rewrite put_ok by out_len. cbn [obind].
    rewrite (at_app _ _ _ 1 b) by done. cbn [obind]. rewrite put_ok by out_len. cbn [obind].
    rewrite (at_app _ _ _ 2 c) by done. cbn [obind]. rewrite put_ok by out_len. cbn [obind].
    rewrite put_ok by out_len. cbn [obind]. rewrite int_ok by (unfold INT_MAX; lia). cbn [obind].
    rewrite sextet0, sextet1, sextet2, sextet3 by done.
    specialize (IH (pre ++ [a; b; c]) ((((p ++ [enc (s0 a)]) ++ [enc (s1 a b)]) ++ [enc (s2 b c)]) ++ [enc (s3 c)]) fuel).
    rewrite <- !app_assoc in IH. cbn [app] in IH. rewrite !length_app in IH. cbn [length] in IH.
    replace (Z.of_nat (length pre + 3)) with (Z.of_nat (length pre) + 3) in IH by lia.
    rewrite <- !app_assoc. cbn [app]. rewrite IH; [by cbn [base64] | done | lia | lia | lia].
Qed.

Lemma base64_encode_ok (data : bytes) :
  is_bytes data -> 2 <= Z.of_nat (length data) <= BASE64_MAX ->
  shbase64_encode true data (Z.of_nat (length data)) = Done (Some (base64 data ++ [0; 0]), 0).
Proof.
  intros Hb Hn. unfold shbase64_encode, shbase64_encode_len. unfold BASE64_MAX in Hn.
  assert (sint 32 (Z.of_nat (length data)) = Z.of_nat (length data)) as ->.
  { unfold sint. rewrite wrap_small by rlia. change (2 ^ (32 - 1)) with 2147483648. case_cmp; lia. }
  pose proof (length_base64 data) as Hl. set (m := (Z.of_nat (length data) + 2) / 3) in *.
  assert (0 <= m <= 536870911) as Hm by (unfold m; mlia). unfold INT_MAX in *.
  rewrite int_ok by (unfold INT_MAX; lia). cbn [obind]. fold m. rewrite int_ok by (unfold INT_MAX; lia). cbn [obind].
  rewrite int_ok by (unfold INT_MAX; lia). cbn [obind negb].
  pose proof (encode_rest (m * 4 + 1 + 1) data [] [] (length data)) as H. cbn [app length] in H.
  specialize (H Hb ltac:(unfold BASE64_MAX; lia) ltac:(lia) ltac:(lia)). change (Z.of_nat 0) with 0 in H.
  destruct (encode_loop _ _ _ _ 0 []) as [r|]; [|done]. cbn [obind] in *. rewrite H. cbn [obind].
  do 4 f_equal. replace (Z.to_nat (m * 4 + 1 + 1) - length (base64 data))%nat with 2%nat by lia. done.
Qed.

(** For every input of at least two bytes whose encoded length is an [int],
    [shbase64_encode] returns the standard encoding of RFC 4648, padding
    included, followed by the zeros of its allocation, and writes nowhere else. *)
Theorem shbase64_encode_correct (data : bytes) :
  is_bytes data -> 2 <= Z.of_nat (length data) <= BASE64_MAX ->
  shbase64_encode true data (Z.of_nat (length data)) = Done (Some (base64 data ++ [0; 0]), 0).
Proof. apply base64_encode_ok. Qed.

Lemma shbase64_encode_correct_witness :
  shbase64_encode true (cstr "share") 5 = Done (Some (base64 (cstr "share") ++ [0; 0]), 0).
Proof. apply (shbase64_encode_correct (cstr "share")); [byte_literal | vm_compute; split; discriminate]. Defined.

(** The bound of the encoding loop is an unsigned difference: for an empty
    input and for one byte it wraps, and the encoder reads past its input. *)
Theorem shbase64_encode_short (data : bytes) :
  Z.of_nat (length data) < 2 -> shbase64_encode true data (Z.of_nat (length data)) = Fault.
Proof. intros H. destruct data as [|a [|b data]]; [vm_compute; reflexivity | | cbn [length] in H; lia]. vm_compute. reflexivity. Qed.

Lemma shbase64_encode_short_witness : shbase64_encode true [65] 1 = Fault.
Proof. apply (shbase64_encode_short [65]). reflexivity. Defined.

(** ** Decoding *)

(** The bytes of a known prefix. *)
Ltac split_bytes := unfold is_bytes in *;
  repeat match goal with H : Forall _ (_ :: _) |- _ => apply List.Forall_cons_iff in H as [? H] end.

Lemma enc_alphabet d : 0 <= d < 64 -> (dec (enc d) <=? 63) = true.
Proof. intros H. rewrite dec_enc by done. lia. Qed.

Lemma count_chars_base64 l rest : is_bytes l -> count_chars (base64 l ++ 0 :: rest) = Done (nchars l).
Proof.
  induction l as [|a|a b|a b c r IH] using list3_ind; intros Hl;
    split_bytes;
    assert (is_byte 0) by (by split); cbn [base64 app count_chars nchars];
    rewrite ?enc_alphabet by (apply s3_range || by apply s0_range || by apply s1_range || by apply s2_range); try done.
  rewrite IH by done. cbn [obind]. f_equal. lia.
Qed.

Lemma nchars_bound l : 0 <= nchars l <= Z.of_nat (length (base64 l)) /\ (l <> [] -> 2 <= nchars l).
Proof.
  induction l as [|a|a b|a b c r IH] using list3_ind; cbn [nchars base64 length]; (split; [lia | intros; lia || done]).
Qed.

Lemma nchars_enough l : Z.of_nat (length l) <= (nchars l + 3) / 4 * 3.
Proof.
  induction l as [|a|a b|a b c r IH] using list3_ind; try done. cbn [nchars length].
  replace (nchars r + 4 + 3) with (nchars r + 3 + 1 * 4) by lia. rewrite Z.div_add by lia. lia.
Qed.

Lemma at_0 a s : at_ (a :: s) 0 = Done a.
Proof. reflexivity. Qed.
Lemma at_1 a b s : at_ (a :: b :: s) 1 = Done b.
Proof. reflexivity. Qed.
Lemma at_2 a b c s : at_ (a :: b :: c :: s) 2 = Done c.
Proof. reflexivity. Qed.
Lemma at_3 a b c d s : at_ (a :: b :: c :: d :: s) 3 = Done d.
Proof. reflexivity. Qed.

Lemma decode_base64 cap l rest fuel out :
  is_bytes l -> (length l <= fuel)%nat -> Z.of_nat (length out) + Z.of_nat (length l) <= cap ->
  exists s n out', decode_loop fuel cap (base64 l ++ rest) (nchars l) out = Done (s, n, out') /\
    decode_tail cap s n out' = Done (out ++ l) /\
    (nchars l + 3) / 4 * 3 - Z.land (4 - n) 3 = Z.of_nat (length l).
Proof.
  assert (is_byte 0) as H0 by (by split). revert fuel out.
  induction l as [|a|a b|a b c r IH] using list3_ind; intros fuel out Hl Hf Hc;
    split_bytes; cbn [length] in *.
  - exists rest, 0, out. rewrite app_nil_r. by destruct fuel.
  - eexists _, 2, out. split; [by destruct fuel |]. split; [|done]. unfold decode_tail. cbn [base64 app].
    change (1 <? 2) with true. change (2 <? 2) with false. change (3 <? 2) with false. rewrite at_0, at_1. cbn [obind].
    rewrite put_ok by lia. cbn [obind]. rewrite byte0_enc; [done | done | by apply s1_range | unfold s1; change (0 / 16) with 0; mlia].
  - eexists _, 3, out. split; [by destruct fuel |]. split; [|done]. unfold decode_tail. cbn [base64 app].
    change (1 <? 3) with true. change (2 <? 3) with true. change (3 <? 3) with false.
    rewrite at_0, at_1, at_2. cbn [obind].
    rewrite put_ok by lia. cbn [obind]. rewrite put_ok by out_len. cbn [obind].
    rewrite byte0_enc, byte1_enc; try done; (try by apply s1_range); (try by apply s2_range).
    { by rewrite <- app_assoc. } { unfold s2. change (0 / 64) with 0. mlia. } { unfold s1. ranges. mlia. }
  - assert (byte0 (enc (s0 a)) (enc (s1 a b)) = a /\ byte1 (enc (s1 a b)) (enc (s2 b c)) = b /\ byte2 (enc (s2 b c)) (enc (s3 c)) = c) as (E0 & E1 & E2).
    { split_and!; [apply byte0_enc | apply byte1_enc | by apply byte2_enc]; try done; (try by apply s1_range); (try by apply s2_range).
      - unfold s1. ranges. mlia.
      - unfold s2. ranges. mlia. }
    destruct (decide (r = [])) as [->|Hne].
    + eexists _, 4, out. split; [by destruct fuel |]. split; [|done]. unfold decode_tail. cbn [base64 app].
      change (1 <? 4) with true. change (2 <? 4) with true. change (3 <? 4) with true.
      rewrite at_0, at_1, at_2, at_3. cbn [obind].
      rewrite E0, E1, E2, put_ok by out_len. cbn [obind]. rewrite put_ok by out_len. cbn [obind]. rewrite put_ok by out_len.
      by rewrite <- !app_assoc.
    + destruct fuel as [|fuel]; [lia |]. destruct (nchars_bound r) as [Hn1 Hn2]. specialize (Hn2 Hne).
      destruct (IH fuel (((out ++ [a]) ++ [b]) ++ [c])) as (s & n & out' & El & Et & En); [done | lia | out_len |].
      exists s, n, out'. split_and!.
      * cbn [base64 app decode_loop nchars]. case_cmp; [|lia].
        rewrite E0, E1, E2, put_ok by out_len. cbn [obind]. rewrite put_ok by out_len. cbn [obind]. rewrite put_ok by out_len. cbn [obind].
        by replace (nchars r + 4 - 4) with (nchars r) by lia.
      * rewrite Et. by rewrite <- !app_assoc.
      * cbn [nchars length]. replace (nchars r + 4 + 3) with (nchars r + 3 + 1 * 4) by lia. rewrite Z.div_add by lia. lia.
Qed.

Lemma decode_len_ok s n :
  count_chars s = Done n -> 0 <= n -> n + 3 <= INT_MAX -> shbase64_decode_len s = Done ((n + 3) / 4 * 3 + 1).
Proof.
  intros Hc H0 Hn. unfold shbase64_decode_len. rewrite Hc. cbn [obind]. unfold INT_MAX in *.
  rewrite int_ok by (unfold INT_MAX; lia). cbn [obind]. set (m := (n + 3) / 4).
  assert (0 <= m * 3 < 1700000000) by (unfold m; mlia).
  rewrite int_ok by (unfold INT_MAX; lia). cbn [obind]. apply int_ok. unfold INT_MAX. lia.
Qed.

Lemma base64_decode_ok (data : bytes) :
  is_bytes data -> Z.of_nat (length data) <= BASE64_MAX ->
  exists tail, shbase64_decode true (base64 data ++ [0; 0]) = Done (Some (data ++ tail, Z.of_nat (length data)), 0).
Proof.
  intros Hb Hn. pose proof (length_base64 data) as Hl. destruct (nchars_bound data) as [Hc _]. unfold BASE64_MAX in Hn.
  assert (Z.of_nat (length (base64 data)) <= 2147483644) as Hm by (rewrite Hl; mlia).
  pose proof (count_chars_base64 data [0] Hb) as Hcc.
  destruct (decode_base64 ((nchars data + 3) / 4 * 3 + 1 + 1) data [0; 0] (length (base64 data ++ [0; 0])) []) as (s & n & out & El & Et & En).
  - done.
  - rewrite length_app. cbn [length]. clear -Hl. revert Hl. generalize (length (base64 data)). intros. mlia.
  - cbn [length]. pose proof (nchars_enough data). lia.
  - cbn [app] in Et. eexists.
    unfold shbase64_decode. rewrite (decode_len_ok _ (nchars data)); [| done | lia | unfold INT_MAX; lia].
    cbn [obind negb]. rewrite Hcc. cbn [obind]. rewrite El. cbn [obind]. rewrite Et. cbn [obind].
    rewrite put_ok by (pose proof (nchars_enough data); lia). cbn [obind]. rewrite En, <- app_assoc. reflexivity.
Qed.

(** ** Encoding the start of a larger block *)

Lemma at_more data more i b : at_ data i = Done b -> at_ (data ++ more) i = Done b.
Proof.
  unfold at_. destruct (data !! Z.to_nat i) as [x|] eqn:Ex; [|done]. intros [= <-].
  by rewrite (lookup_app_l_Some _ _ _ _ Ex).
Qed.

(** Case analysis on the first step of a computation that succeeds. *)
Ltac step_done H :=
  match type of H with
  | obind (at_ ?d ?i) _ = _ => let Ea := fresh in destruct (at_ d i) eqn:Ea; [|done]; rewrite (at_more _ _ _ _ Ea)
  | obind ?m _ = _ => destruct m; [|done]
  end; cbn [obind] in H |- *.

Lemma encode_loop_more fuel fuel' cap data more n i p r :
  (fuel <= fuel')%nat -> encode_loop fuel cap data n i p = Done r -> encode_loop fuel' cap (data ++ more) n i p = Done r.
Proof.
  revert fuel' i p. induction fuel as [|fuel IH]; intros fuel' i p Hf H.
  - destruct fuel'; cbn [encode_loop] in *; by destruct (_ <? _).
  - destruct fuel' as [|fuel']; [lia |]. cbn [encode_loop] in *. destruct (_ <? _); [|done].
    repeat step_done H. apply IH; [lia | done].
Qed.

Lemma encode_tail_more cap data more n i p r :
  encode_tail cap data n i p = Done r -> encode_tail cap (data ++ more) n i p = Done r.
Proof.
  unfold encode_tail. intros H. destruct (_ <? _); [|done]. do 2 step_done H.
  destruct (_ =? _); [done |]. destruct (at_ data (i + 1)) eqn:Ea; [|done]. by rewrite (at_more _ _ _ _ Ea).
Qed.

Lemma base64_encode_block (data more : bytes) :
  is_bytes data -> 2 <= Z.of_nat (length data) <= BASE64_MAX ->
  shbase64_encode true (data ++ more) (Z.of_nat (length data)) = Done (Some (base64 data ++ [0; 0]), 0).
Proof.
  intros Hb Hn. rewrite <- (base64_encode_ok data Hb Hn). pose proof (base64_encode_ok data Hb Hn) as H.
  unfold shbase64_encode in *. destruct (shbase64_encode_len _); [|done]. cbn [obind negb] in *.
  destruct (encode_loop (length data) _ data _ _ _) eqn:El; [|done].
  rewrite (encode_loop_more (length data) (length (data ++ more)) _ _ more _ _ _ _ ltac:(rewrite length_app; lia) El). cbn [obind] in *.
  destruct (encode_tail _ data _ _ _) eqn:Et; [|done]. by rewrite (encode_tail_more _ _ more _ _ _ _ Et).
Qed.

(** C38: Decoding what the encoder produced gives back the bytes and their
    number, for every input of at least two bytes (and at most [BASE64_MAX], where
    no size wraps).  The encoder does not reject shorter input; it reads behind it. *)
Theorem shbase64_roundtrip (data : bytes) :
  is_bytes data -> 2 <= Z.of_nat (length data) <= BASE64_MAX ->
  exists txt blk, shbase64_encode true data (Z.of_nat (length data)) = Done (Some txt, 0) /\
    shbase64_decode true txt = Done (Some (blk, Z.of_nat (length data)), 0) /\ take (length data) blk = data.
Proof.
  intros Hb Hn. destruct (base64_decode_ok data Hb) as [tail Hd]; [lia |].
  exists (base64 data ++ [0; 0]), (data ++ tail). split_and!; [by apply base64_encode_ok | done | apply take_app_length].
Qed.

Lemma shbase64_roundtrip_witness :
  exists txt blk, shbase64_encode true (cstr "share") 5 = Done (Some txt, 0) /\
    shbase64_decode true txt = Done (Some (blk, 5), 0) /\ take 5 blk = cstr "share".
Proof. apply (shbase64_roundtrip (cstr "share")); [byte_literal | vm_compute; split; discriminate]. Defined.

Lemma count_chars_le s n : count_chars s = Done n -> 0 <= n < Z.of_nat (length s).
Proof.
  revert n. induction s as [|c s IH]; intros n; cbn [count_chars length]; [done |].
  destruct (dec c <=? 63); [|intros [= <-]; lia]. destruct (count_chars s) as [m|]; [|done]. cbn [obind].
  intros [= <-]. specialize (IH m eq_refl). lia.
Qed.

Lemma decode_loop_safe cap fuel s n out :
  0 <= n <= Z.of_nat (length s) -> n <= Z.of_nat fuel -> Z.of_nat (length out) + (n + 3) / 4 * 3 <= cap ->
  exists s' n' out', decode_loop fuel cap s n out = Done (s', n', out') /\
    0 <= n' <= 4 /\ n' <= Z.of_nat (length s') /\
    Z.of_nat (length out') + (n' + 3) / 4 * 3 = Z.of_nat (length out) + (n + 3) / 4 * 3 /\ (0 < n -> 0 < n').
Proof.
  revert s n out. induction fuel as [|fuel IH]; intros s n out Hn Hf Hc; cbn [decode_loop]; case_cmp as [Hlt|Hge].
  2,4: exists s, n, out; split_and!; (done || lia).
  { lia. }
  destruct s as [|c0 [|c1 [|c2 [|c3 s]]]]; cbn [length] in Hn; try lia.
  assert ((n + 3) / 4 = (n - 4 + 3) / 4 + 1) as Hd by mlia. pose proof (Z.div_pos (n - 4 + 3) 4).
  rewrite put_ok by lia. cbn [obind]. rewrite put_ok by out_len. cbn [obind]. rewrite put_ok by out_len. cbn [obind].
  destruct (IH s (n - 4) (((out ++ [byte0 c0 c1]) ++ [byte1 c1 c2]) ++ [byte2 c2 c3])) as (s' & n' & out' & E & H1 & H2 & H3 & H4);
    [lia | lia | repeat rewrite length_app; cbn [length]; lia |].
  exists s', n', out'. repeat rewrite length_app in H3. cbn [length] in H3. split_and!; (done || lia).
Qed.

Lemma decode_tail_safe cap s n out :
  0 <= n <= 4 -> n <= Z.of_nat (length s) -> Z.of_nat (length out) + (n + 3) / 4 * 3 <= cap ->
  exists out', decode_tail cap s n out = Done out' /\
    Z.of_nat (length out') = Z.of_nat (length out) + (n + 3) / 4 * 3 - (if n =? 0 then 0 else 4 - n).
Proof.
  intros Hn Hs Hc. assert (n = 0 \/ n = 1 \/ n = 2 \/ n = 3 \/ n = 4) as Hcase by lia. unfold decode_tail.
  destruct Hcase as [-> | [-> | [-> | [-> | ->]]]]; cbn -[at_ put Z.of_nat] in *; change ((1 + 3) / 4) with 1 in *;
    change ((2 + 3) / 4) with 1 in *; change ((3 + 3) / 4) with 1 in *; change ((4 + 3) / 4) with 1 in *; change ((0 + 3) / 4) with 0 in *.
  - exists out. split; [done | lia].
  - exists out. split; [done | lia].
  - destruct s as [|c0 [|c1 s]]; cbn [length] in Hs; try lia. rewrite at_0, at_1. cbn [obind].
    rewrite put_ok by lia. cbn [obind]. eexists. split; [done |]. out_len.
  - destruct s as [|c0 [|c1 [|c2 s]]]; cbn [length] in Hs; try lia. rewrite at_0, at_1, at_2. cbn [obind].
    rewrite put_ok by lia. cbn [obind]. rewrite put_ok by out_len. cbn [obind]. eexists. split; [done |]. out_len.
  - destruct s as [|c0 [|c1 [|c2 [|c3 s]]]]; cbn [length] in Hs; try lia. rewrite at_0, at_1, at_2, at_3. cbn [obind].
    rewrite put_ok by lia. cbn [obind]. rewrite put_ok by out_len. cbn [obind]. rewrite put_ok by out_len. eexists. split; [done |]. out_len.
Qed.

(** [shbase64_decode] is safe on every text: whatever the characters, as
    long as one outside the alphabet ends them and their number is an [int], it
    stays inside its allocation, and the length it returns is the number of
    bytes it wrote, followed by a NUL. *)
Theorem shbase64_decode_safe (txt : bytes) (n : Z) :
  count_chars txt = Done n -> n + 3 <= INT_MAX ->
  exists out pad, shbase64_decode true txt = Done (Some (out ++ 0 :: pad, Z.of_nat (length out)), 0).
Proof.
  intros Hc Hn. pose proof (count_chars_le txt n Hc) as Hle. unfold shbase64_decode.
  rewrite (decode_len_ok txt n) by (done || lia). cbn [obind negb]. rewrite Hc. cbn [obind].
  set (cap := (n + 3) / 4 * 3 + 1 + 1).
  destruct (decode_loop_safe cap (length txt) txt n []) as (s & m & o1 & -> & Hm1 & Hm2 & Hm3 & Hm4);
    [lia | lia | cbn [length]; unfold cap; lia |]. cbn [obind].
  destruct (decode_tail_safe cap s m o1) as (o2 & -> & Hl); [done | done | cbn [length] in Hm3; unfold cap; lia |]. cbn [obind].
  assert (Z.of_nat (length o2) = (n + 3) / 4 * 3 - Z.land (4 - m) 3) as Hlen.
  { rewrite Hl. cbn [length] in Hm3. assert (Z.land (4 - m) 3 = if m =? 0 then 0 else 4 - m) as ->; [|lia].
    assert (m = 0 \/ m = 1 \/ m = 2 \/ m = 3 \/ m = 4) as Hcase by lia. by destruct Hcase as [-> | [-> | [-> | [-> | ->]]]]. }
  rewrite put_ok by (unfold cap; pose proof (Z.land_nonneg (4 - m) 3); lia). cbn [obind]. rewrite <- Hlen.
  exists o2, (replicate (Z.to_nat cap - length (o2 ++ [0])) 0). by rewrite <- app_assoc.
Qed.

Lemma shbase64_decode_safe_witness :
  exists out pad, shbase64_decode true (cstr "A~") = Done (Some (out ++ 0 :: pad, Z.of_nat (length out)), 0).
Proof. apply (shbase64_decode_safe (cstr "A~") 1); [reflexivity | discriminate]. Defined.
