(* ===== verification/ShBase58.v ===== *)
(** * Base58

    Models [share-lib/mem/shmem_base58.c].  The encoder converts a byte string
    to base 58 digit by digit in a fixed array, the decoder multiplies an array
    of 32-bit words; both arrays are lists in the order of the code (most
    significant entry first).  The theorems relate them to the numbers the
    strings denote. *)

From Stdlib Require Import ZArith Lia String.
From stdpp Require Import base numbers list.
From S2P Require Import Prelude ShSha ShKey.

Open Scope Z_scope.

Definition b58digits_map : list Z :=
  replicate 49 (-1) ++ map Z.of_nat (seq 0 9) ++ replicate 7 (-1) ++ map Z.of_nat (seq 9 8) ++ [-1] ++
  map Z.of_nat (seq 17 5) ++ [-1] ++ map Z.of_nat (seq 22 11) ++ replicate 6 (-1) ++ map Z.of_nat (seq 33 11) ++
  [-1] ++ map Z.of_nat (seq 44 14) ++ replicate 5 (-1).

Definition b58digits_ordered : list Z :=
  cstr "123456789ABCDEFGHJKLMNPQRSTUVWXYZabcdefghijkmnopqrstuvwxyz".

(** [b58digits_map[c]]; the table has 128 entries. *)
Definition digit_map (c : Z) : outcome Z :=
  match b58digits_map !! Z.to_nat c with Some d => Done d | None => Fault end.

(** ** Decoding *)

(** The loop that counts leading zeros; it reads the table before the range of
    the character is checked. *)
Fixpoint zero_loop (s : bytes) : outcome (Z * bytes) :=
  match s with
  | [] => Done (0, [])
  | c :: s' =>
      d <-! digit_map c;
      if d =? 0 then r <-! zero_loop s'; Done (u32 (fst r + 1), snd r) else Done (0, s)
  end.

(** [for (j = outisz; j--; )]: multiply the array by 58 and add a digit. *)
Fixpoint mul_words (outi : list Z) (c : Z) : Z * list Z :=
  match outi with
  | [] => (c, [])
  | w :: ws =>
      let '(c, ws) := mul_words ws c in
      let t := u64 (w * 58 + c) in
      (Z.shiftr (Z.land t 270582939648) 32, Z.land t 4294967295 :: ws)
  end.

(** [None] is the return of -1. *)
Fixpoint digit_loop (zeromask : Z) (s : bytes) (outi : list Z) : outcome (option (list Z)) :=
  match s with
  | [] => Done (Some outi)
  | ch :: s' =>
      if negb (Z.land ch 128 =? 0) then Done None
      else
        d <-! digit_map ch;
        if d =? -1 then Done None
        else
          let '(c, outi) := mul_words outi d in
          if negb (c =? 0) then Done None
          else match outi with
               | [] => Fault
               | o0 :: _ => if negb (Z.land o0 zeromask =? 0) then Done None else digit_loop zeromask s' outi
               end
  end.

Definition word_bytes (w : Z) : bytes :=
  [Z.land (Z.shiftr w 24) 255; Z.land (Z.shiftr w 16) 255; Z.land (Z.shiftr w 8) 255; Z.land (Z.shiftr w 0) 255].

(** The [switch] on the size of the first, partial word. *)
Definition first_bytes (bytesleft w : Z) : bytes :=
  if bytesleft =? 3 then [Z.shiftr (Z.land w 16711680) 16; Z.shiftr (Z.land w 65280) 8; Z.land w 255]
  else if bytesleft =? 2 then [Z.shiftr (Z.land w 65280) 8; Z.land w 255]
  else if bytesleft =? 1 then [Z.land w 255]
  else [].

Definition out_bytes (bytesleft : Z) (outi : list Z) : outcome bytes :=
  if bytesleft =? 0 then Done (concat (map word_bytes outi))
  else match outi with
       | [] => Fault
       | w :: ws => Done (first_bytes bytesleft w ++ concat (map word_bytes ws))
       end.

(** Leading zero bytes. *)
Fixpoint lead0 (l : bytes) : Z :=
  match l with
  | [] => 0
  | b :: l' => if b =? 0 then lead0 l' + 1 else 0
  end.

(** The common part of [shbase58_decode] and [shbase58_decode_size]: the bytes
    of the number, the leading '1's. *)
Definition decode_number (binsz : Z) (b58 : bytes) : outcome (option (bytes * Z)) :=
  let outisz := u64 (binsz + 3) / 4 in
  let bytesleft := binsz mod 4 in
  let zeromask := if bytesleft =? 0 then 0 else u32 (Z.shiftl 4294967295 (bytesleft * 8)) in
  z <-! zero_loop b58;
  r <-! digit_loop zeromask (snd z) (replicate (Z.to_nat outisz) 0);
  match r with
  | None => Done None
  | Some outi => binu <-! out_bytes bytesleft outi; Done (Some (binu, fst z))
  end.

(** The text is the C string [b58]; the result the bytes written and the new
    [*data_len]. *)
Definition shbase58_decode (binsz : Z) (b58 : bytes) : outcome (option (bytes * Z)) :=
  r <-! decode_number binsz (cstring b58);
  match r with
  | None => Done None
  | Some (binu, zerocount) => Done (Some (binu, u64 (binsz - lead0 binu + zerocount)))
  end.

Definition shbase58_decode_size (max_size : Z) (b58 : bytes) : outcome Z :=
  r <-! decode_number max_size (cstring b58);
  match r with
  | None => Done (-1)
  | Some (binu, zerocount) => Done (sint 32 (u64 (max_size - lead0 binu + zerocount)))
  end.

(** ** Encoding *)

(** [for (carry = bin[i], j = size - 1; (j > high) || carry; --j)] *)
Fixpoint carry_loop (fuel : nat) (buf : list Z) (j high carry : Z) : outcome (list Z * Z) :=
  if (high <? j) || negb (carry =? 0) then
    if j <? 0 then Fault
    else match fuel, buf !! Z.to_nat j with
         | S fuel', Some b =>
             let carry := carry + 256 * b in
             carry_loop fuel' (<[Z.to_nat j := carry mod 58]> buf) (j - 1) high (carry / 58)
         | _, _ => Fault
         end
  else Done (buf, j).

Fixpoint encode_bytes (bin : bytes) (size : Z) (buf : list Z) (high : Z) : outcome (list Z) :=
  match bin with
  | [] => Done buf
  | b :: bin' =>
      r <-! carry_loop (S (length buf)) buf (size - 1) high b;
      encode_bytes bin' size (fst r) (snd r)
  end.

(** Digits after the leading zeros of the array. *)
Fixpoint skip0 (l : list Z) : list Z :=
  match l with
  | [] => []
  | d :: l' => if d =? 0 then skip0 l' else l
  end.

(** [None] for the return of -1 with the size that is needed; otherwise the
    text with its NUL, whose length is the new [*b58sz]. *)
Definition shbase58_encode (b58sz : Z) (data : bytes) : outcome (option bytes * Z) :=
  let binsz := Z.of_nat (length data) in
  let zcount := lead0 data in
  let size := u64 ((binsz - zcount) * 138) / 100 + 1 in
  buf <-! encode_bytes (drop (Z.to_nat zcount) data) size (replicate (Z.to_nat size) 0) (size - 1);
  let digits := skip0 buf in
  let need := zcount + Z.of_nat (length digits) in
  if b58sz <=? need then Done (None, need + 1)
  else Done (Some (replicate (Z.to_nat zcount) 49 ++
                   map (fun d => nth (Z.to_nat d) b58digits_ordered 0) digits ++ [0]), need + 1).

(** ** Checked text *)

Definition sum4 (data : bytes) : bytes := take 4 (sha256 (sha256 data)).

(** 0 on every failure; otherwise the text and its size. *)
Definition shbase58_encode_check (data : bytes) (strsize : Z) : outcome (option bytes * Z) :=
  if 128 <? Z.of_nat (length data) then Done (None, 0)
  else
    r <-! shbase58_encode strsize (data ++ sum4 data);
    match r with
    | (Some txt, res) => Done (Some txt, res)
    | (None, _) => Done (None, 0)
    end.

(** The loop that walks over matching leading zeros. *)
Fixpoint zeros_agree (bin str : bytes) : outcome bool :=
  match bin, str with
  | b :: bin', c :: str' =>
      if (b =? 0) && (c =? 49) then zeros_agree bin' str' else Done (negb ((b =? 0) || (c =? 49)))
  | _, _ => Fault
  end.

Definition b58check (bin str : bytes) : outcome Z :=
  let binsz := Z.of_nat (length bin) in
  if binsz <? 4 then Done (-4)
  else
    let body := take (Z.to_nat (binsz - 4)) bin in
    if bool_decide (drop (Z.to_nat (binsz - 4)) bin = sum4 body) then
      ok <-! zeros_agree bin str;
      if ok then match bin with b :: _ => Done b | [] => Fault end else Done (-3)
    else Done (-1).

Definition shbase58_decode_check (str : bytes) (datalen : Z) : outcome (option bytes) :=
  if 128 <? datalen then Done None
  else
    r <-! shbase58_decode (datalen + 4) str;
    match r with
    | None => Done None
    | Some (d, res) =>
        if negb (res =? datalen + 4) then Done None
        else
          rc <-! b58check d str;
          if rc <? 0 then Done None else Done (Some (take (Z.to_nat datalen) d))
    end.

Example base58_encode_test : shbase58_encode 64 (cstr "hello") = Done (Some (cstr "Cn8eVZg" ++ [0]), 8).
Proof. vm_compute. reflexivity. Qed.

(** ** Numbers written most significant digit first *)

Fixpoint be (base : Z) (l : list Z) : Z :=
  match l with
  | [] => 0
  | d :: l' => d * base ^ Z.of_nat (length l') + be base l'
  end.

Abbreviation digits base := (Forall (fun d => 0 <= d < base)).

Lemma be_app base a b : be base (a ++ b) = be base a * base ^ Z.of_nat (length b) + be base b.
Proof.
  induction a as [|d a IH]; cbn [app be]; [lia |]. rewrite IH, length_app, Nat2Z.inj_add, Z.pow_add_r by lia. lia.
Qed.

Lemma be_snoc base a d : be base (a ++ [d]) = be base a * base + d.
Proof. rewrite be_app. cbn [be length]. change (Z.of_nat 0) with 0. change (Z.of_nat 1) with 1. rewrite Z.pow_0_r, Z.pow_1_r. lia. Qed.

Lemma be_range base l : 0 < base -> digits base l -> 0 <= be base l < base ^ Z.of_nat (length l).
Proof.
  intros Hb. induction 1 as [|d l Hd Hl IH]; cbn [be length]; [done |].
  rewrite Nat2Z.inj_succ, Z.pow_succ_r by lia. nia.
Qed.

Lemma be_zeros base n : be base (replicate n 0) = 0.
Proof. induction n as [|n IH]; cbn [replicate be]; [done |]. by rewrite IH, Z.mul_0_l. Qed.

Lemma be_zero_app base n l : be base (replicate n 0 ++ l) = be base l.
Proof. by rewrite be_app, be_zeros. Qed.

Lemma be_inj base a b :
  0 < base -> length a = length b -> digits base a -> digits base b -> be base a = be base b -> a = b.
Proof.
  intros Hb. revert b. induction a as [|x a IH]; intros [|y b] Hl Ha Hb' He; try done.
  apply List.Forall_cons_iff in Ha as [Hx Ha], Hb' as [Hy Hb']. cbn [be length] in *. injection Hl as Hl.
  pose proof (be_range base a Hb Ha). pose proof (be_range base b Hb Hb'). rewrite Hl in *.
  set (p := base ^ Z.of_nat (length b)) in *. assert (0 < p) by (unfold p; lia). clearbody p.
  assert (x = y) as <- by nia. f_equal. apply IH; (done || nia).
Qed.

(** A number has one representation without leading zeros. *)
Lemma digits_lower base d l : 0 < base -> digits base l -> 0 < d -> base ^ Z.of_nat (length l) <= be base (d :: l).
Proof. intros Hb Hl Hd. cbn [be]. pose proof (be_range base l Hb Hl). assert (0 < base ^ Z.of_nat (length l)) by lia. nia. Qed.

Lemma digits_unique base a b :
  1 < base -> digits base a -> digits base b ->
  match a with [] => True | d :: _ => d <> 0 end -> match b with [] => True | d :: _ => d <> 0 end ->
  be base a = be base b -> a = b.
Proof.
  intros Hb Ha Hb' Na Nb He. apply (be_inj base); try (done || lia).
  assert (forall a b : list Z, digits base a -> digits base b -> match a with [] => True | d :: _ => d <> 0 end ->
    be base a = be base b -> (length a <= length b)%nat) as Hle.
  { clear -Hb. intros [|d a] b Ha Hb' Na He; cbn [length]; [lia |]. apply List.Forall_cons_iff in Ha as [Hd Ha].
    pose proof (digits_lower base d a ltac:(lia) Ha ltac:(lia)) as H1. pose proof (be_range base b ltac:(lia) Hb') as H2.
    assert (Z.of_nat (length a) < Z.of_nat (length b)); [|lia]. apply (Z.pow_lt_mono_r_iff base); lia. }
  pose proof (Hle a b Ha Hb' Na He). pose proof (Hle b a Hb' Ha Nb (eq_sym He)). lia.
Qed.

(** ** The encoder *)

(** The array is long enough: 256^n <= 58^(138 n / 100 + 1). *)
Lemma size_table r : (r < 50)%nat -> 256 ^ Z.of_nat r <= 58 ^ (Z.of_nat r * 138 / 100 + 1).
Proof.
  intros Hr. assert (forallb (fun r => 256 ^ Z.of_nat r <=? 58 ^ (Z.of_nat r * 138 / 100 + 1)) (seq 0 50) = true) as H
    by (vm_compute; reflexivity).
  rewrite forallb_forall in H. apply Z.leb_le, H, in_seq. lia.
Qed.

Lemma size_enough n : 0 <= n -> 256 ^ n <= 58 ^ (n * 138 / 100 + 1).
Proof.
  intros Hn. assert (n = 50 * (n / 50) + n mod 50) as E by mlia. set (q := n / 50) in *. set (r := n mod 50) in *.
  assert (0 <= q /\ 0 <= r < 50) as [Hq Hr] by (unfold q, r; mlia).
  replace (n * 138 / 100 + 1) with (69 * q + (r * 138 / 100 + 1)) by (rewrite E; clearbody q r; mlia).
  assert (0 <= r * 138 / 100) as Hs by (clearbody q r; mlia).
  rewrite E, (Z.pow_add_r 256), (Z.pow_add_r 58 (69 * q)), !Z.pow_mul_r by lia.
  pose proof (size_table (Z.to_nat r)) as Ht. rewrite Z2Nat.id in Ht by lia. specialize (Ht ltac:(lia)).
  apply Z.mul_le_mono_nonneg; [lia | | lia | done]. apply Z.pow_le_mono_l. by vm_compute.
Qed.

(** The entries up to [high] are zero. *)
Definition zero_upto (high : Z) (buf : list Z) : Prop := Forall (fun d => d = 0) (take (Z.to_nat (high + 1)) buf).

(** The carry loop: [H] is still to do, [L] done. *)
Lemma carry_loop_ok H L high carry fuel :
  (length H < fuel)%nat -> -1 <= high -> 0 <= carry -> digits 58 H -> digits 58 L -> zero_upto high H ->
  be 58 L + (carry + 256 * be 58 H) * 58 ^ Z.of_nat (length L) < 58 ^ Z.of_nat (length H + length L) ->
  exists buf j, carry_loop fuel (H ++ L) (Z.of_nat (length H) - 1) high carry = Done (buf, j) /\
    length buf = (length H + length L)%nat /\ digits 58 buf /\ -1 <= j /\ zero_upto j buf /\
    be 58 buf = be 58 L + (carry + 256 * be 58 H) * 58 ^ Z.of_nat (length L).
Proof.
  revert L carry fuel. induction H as [|b H IH] using rev_ind; intros L carry fuel Hf Hh Hc HH HL Hz Hv.
  - cbn [length be app] in *. pose proof (be_range 58 L ltac:(lia) HL) as Hr. rewrite Z.mul_0_r, Z.add_0_r in *.
    assert (carry = 0) as -> by (clear -Hr Hv Hc; cbn [Nat.add] in Hv; nia).
    exists L, (-1). destruct fuel; [lia |]. cbn [carry_loop]. destruct (Z.ltb_spec high (Z.of_nat 0 - 1)); [lia |].
    cbn [orb negb Z.eqb]. split_and!; (done || constructor || lia).
  - rewrite length_app in *. cbn [length] in *. apply List.Forall_app in HH as [HH [Hb _]%List.Forall_cons_iff].
    rewrite be_snoc in *. replace (Z.of_nat (length H + 1) - 1) with (Z.of_nat (length H)) by lia.
    destruct fuel as [|fuel]; [lia |]. cbn [carry_loop].
    destruct ((high <? Z.of_nat (length H)) || negb (carry =? 0)) eqn:Ecnd.
    + case_cmp; [lia |]. rewrite <- app_assoc, Nat2Z.id. cbn [app]. rewrite list_lookup_middle by done.
      rewrite insert_app_r_alt, Nat.sub_diag by lia. cbn [insert list_insert].
      assert (carry + 256 * b = (carry + 256 * b) / 58 * 58 + (carry + 256 * b) mod 58) as Edm by mlia.
      set (q := (carry + 256 * b) / 58) in *. set (r := (carry + 256 * b) mod 58) in *.
      assert (0 <= q /\ 0 <= r < 58) as [Hq Hr] by (unfold q, r; mlia).
      assert (be 58 (r :: L) + (q + 256 * be 58 H) * 58 ^ Z.of_nat (length (r :: L)) =
              be 58 L + (carry + 256 * (be 58 H * 58 + b)) * 58 ^ Z.of_nat (length L)) as Ev.
      { cbn [be length]. rewrite Nat2Z.inj_succ, Z.pow_succ_r by lia. clearbody q r. set (P := 58 ^ Z.of_nat (length L)). nia. }
      destruct (IH (r :: L) q fuel) as (buf & j & E & Hl & Hd & Hj & Hz' & Hv');
        [lia | lia | lia | done | by apply List.Forall_cons | | |].
      * unfold zero_upto in *. destruct (decide (Z.to_nat (high + 1) <= length H)%nat).
        { by rewrite take_app_le in Hz by lia. }
        rewrite take_ge in Hz |- * by (rewrite ?length_app; cbn [length]; lia). by apply List.Forall_app in Hz as [Hz _].
      * rewrite Ev. cbn [length]. by replace (length H + S (length L))%nat with (length H + 1 + length L)%nat by lia.
      * exists buf, j. rewrite Ev in Hv'. cbn [length] in Hl. split_and!; (done || lia).
    + apply orb_false_elim in Ecnd as [Hge%Z.ltb_ge ->%negb_false_iff%Z.eqb_eq].
      unfold zero_upto in Hz. rewrite take_ge in Hz by (rewrite length_app; cbn [length]; lia).
      assert (be 58 H * 58 + b = 0) as E0.
      { rewrite <- be_snoc. clear -Hz. induction Hz as [|d l -> Hl IHl]; [done |]. cbn [be]. by rewrite IHl. }
      exists ((H ++ [b]) ++ L), (Z.of_nat (length H)). split_and!; try done; try lia.
      * rewrite !length_app. cbn [length]. lia.
      * rewrite !List.Forall_app, List.Forall_cons_iff. split_and!; (done || lia || constructor).
      * unfold zero_upto. rewrite take_app_le, take_ge by (rewrite length_app; cbn [length]; lia). done.
      * rewrite be_app, be_snoc, E0. lia.
Qed.

Lemma encode_bytes_ok bin size buf high v :
  is_bytes bin -> Z.of_nat (length buf) = size -> -1 <= high -> digits 58 buf -> zero_upto high buf ->
  be 58 buf = v -> v * 256 ^ Z.of_nat (length bin) + be 256 bin < 58 ^ size ->
  exists buf', encode_bytes bin size buf high = Done buf' /\ Z.of_nat (length buf') = size /\ digits 58 buf' /\
    be 58 buf' = v * 256 ^ Z.of_nat (length bin) + be 256 bin.
Proof.
  revert buf high v. induction bin as [|b bin IH]; intros buf high v Hby Hl Hh Hd Hz Hv Hlt.
  - exists buf. cbn [length be] in *. change (Z.of_nat 0) with 0. rewrite Z.pow_0_r, Z.mul_1_r, Z.add_0_r. by split_and!.
  - apply List.Forall_cons_iff in Hby as [Hb Hby]. cbn [encode_bytes length be] in *.
    rewrite Nat2Z.inj_succ, Z.pow_succ_r in * by lia. set (P := 256 ^ Z.of_nat (length bin)) in *.
    pose proof (be_range 256 bin ltac:(lia) Hby) as Hr. fold P in Hr. assert (0 < P) by (unfold P; lia).
    pose proof (be_range 58 buf ltac:(lia) Hd) as Hrb.
    assert (0 <= b < 256) as Hbr by rlia.
    destruct (carry_loop_ok buf [] high b (S (length buf))) as (buf1 & j & E & Hl1 & Hd1 & Hj & Hz1 & Hv1);
      [lia | lia | lia | done | constructor | done | |].
    { cbn [length be]. change (Z.of_nat 0) with 0. rewrite Z.pow_0_r, Nat.add_0_r, Hl. nia. }
    rewrite app_nil_r, Hl in E. rewrite E. cbn [obind fst snd]. cbn [length be] in Hl1, Hv1.
    change (Z.of_nat 0) with 0 in Hv1. rewrite Z.pow_0_r, Z.mul_1_r, Z.add_0_l, Hv in Hv1.
    destruct (IH buf1 j (b + 256 * v)) as (buf2 & E2 & Hl2 & Hd2 & Hv2); [done | lia | done | done | done | done | nia |].
    exists buf2. split_and!; try done. rewrite Hv2. nia.
Qed.

Lemma lead0_split l : exists n, lead0 l = Z.of_nat n /\ l = replicate n 0 ++ drop n l /\
  match drop n l with [] => True | b :: _ => b <> 0 end.
Proof.
  induction l as [|b l (n & Hn & Hl & Hh)]; [by exists 0%nat |]. cbn [lead0]. case_cmp as [->|Hne].
  - exists (S n). split; [lia |]. cbn [replicate app drop]. split; [by rewrite <- Hl | done].
  - by exists 0%nat.
Qed.

Lemma skip0_split l : exists n, l = replicate n 0 ++ skip0 l /\ match skip0 l with [] => True | d :: _ => d <> 0 end.
Proof.
  induction l as [|d l (n & Hl & Hh)]; [by exists 0%nat |]. cbn [skip0]. case_cmp as [->|Hne].
  - exists (S n). cbn [replicate app]. by rewrite <- Hl.
  - by exists 0%nat.
Qed.

Definition b58char (d : Z) : Z := nth (Z.to_nat d) b58digits_ordered 0.

(** The text of a number: a '1' for each leading zero byte, then its digits. *)
Definition b58text (z : nat) (ds : list Z) : bytes := replicate z 49 ++ map b58char ds.

Definition no_lead0 (ds : list Z) : Prop := match ds with [] => True | d :: _ => d <> 0 end.

Lemma encode_ok b58sz data :
  is_bytes data -> Z.of_nat (length data) < 2 ^ 31 ->
  exists z ds, lead0 data = Z.of_nat z /\ digits 58 ds /\ no_lead0 ds /\ be 58 ds = be 256 data /\
    Z.of_nat z + Z.of_nat (length ds) <= Z.of_nat (length data) * 138 / 100 + 1 /\
    shbase58_encode b58sz data =
      let need := Z.of_nat z + Z.of_nat (length ds) in
      if b58sz <=? need then Done (None, need + 1) else Done (Some (b58text z ds ++ [0]), need + 1).
Proof.
  intros Hby Hlen. change (2 ^ 31) with 2147483648 in Hlen. unfold shbase58_encode.
  destruct (lead0_split data) as (z & -> & Hd & Hh). rewrite Nat2Z.id. set (bin := drop z data) in *.
  assert (length data = z + length bin)%nat as Hl by (rewrite Hd at 1; rewrite length_app, length_replicate; lia).
  replace (Z.of_nat (length data) - Z.of_nat z) with (Z.of_nat (length bin)) by lia.
  rewrite wrap_small by rlia. set (size := Z.of_nat (length bin) * 138 / 100 + 1).
  assert (is_bytes bin) as Hbin by (unfold bin; by apply Forall_drop).
  assert (0 < size) as Hsz by (unfold size; mlia).
  destruct (encode_bytes_ok bin size (replicate (Z.to_nat size) 0) (size - 1) 0) as (buf & -> & Hlb & Hdb & Hvb).
  - done.
  - rewrite length_replicate. lia.
  - lia.
  - apply Forall_replicate. lia.
  - unfold zero_upto. rewrite take_replicate. by apply Forall_replicate.
  - apply be_zeros.
  - rewrite Z.mul_0_l, Z.add_0_l. pose proof (be_range 256 bin ltac:(lia) Hbin).
    pose proof (size_enough (Z.of_nat (length bin)) ltac:(lia)). unfold size. lia.
  - cbn [obind]. destruct (skip0_split buf) as (n & Hb & Hhd). exists z, (skip0 buf). split_and!; try done.
    + rewrite Hb in Hdb. by apply List.Forall_app in Hdb as [_ ?].
    + rewrite Hd, be_zero_app. rewrite Z.mul_0_l, Z.add_0_l in Hvb. rewrite <- Hvb. rewrite Hb at 2. by rewrite be_zero_app.
    + assert (length buf = n + length (skip0 buf))%nat by (rewrite Hb at 1; rewrite length_app, length_replicate; lia).
      unfold size in Hlb. mlia.
    + unfold b58text, b58char. by rewrite <- app_assoc.
Qed.

(** ** The decoder *)

Lemma char_facts d :
  0 <= d < 58 ->
  Z.land (b58char d) 128 = 0 /\ digit_map (b58char d) = Done d /\ b58char d <> 0.
Proof.
  intros Hd. assert (forallb (fun d => (Z.land (b58char d) 128 =? 0) &&
    match digit_map (b58char d) with Done e => e =? d | Fault => false end && negb (b58char d =? 0)) (map Z.of_nat (seq 0 58)) = true) as H
    by (vm_compute; reflexivity).
  rewrite forallb_forall in H. specialize (H d). destruct (digit_map (b58char d)) as [e|].
  - destruct (andb_prop _ _ (H ltac:(apply in_map_iff; exists (Z.to_nat d); rewrite in_seq; lia))) as [[H1%Z.eqb_eq H2%Z.eqb_eq]%andb_prop H3].
    subst e. split_and!; try done. intros E. by rewrite E in H3.
  - rewrite andb_false_r in H. discriminate H. apply in_map_iff. exists (Z.to_nat d). rewrite in_seq. lia.
Qed.

Lemma zero_loop_text z ds :
  Z.of_nat z < 2 ^ 32 -> digits 58 ds -> no_lead0 ds ->
  zero_loop (b58text z ds) = Done (Z.of_nat z, map b58char ds).
Proof.
  change (2 ^ 32) with 4294967296. intros Hz Hd Hn. unfold b58text. induction z as [|z IH]; cbn [replicate app].
  - destruct ds as [|d ds]; [done |]. apply List.Forall_cons_iff in Hd as [Hd _]. cbn [map zero_loop].
    destruct (char_facts d Hd) as (_ & -> & _). cbn [obind]. cbn [no_lead0] in Hn. case_cmp; [done |]. done.
  - cbn [zero_loop]. change (digit_map 49) with (Done 0). cbn [obind Z.eqb]. rewrite IH by lia. cbn [obind fst snd].
    rewrite wrap_small by rlia. do 2 f_equal. lia.
Qed.

Abbreviation W := 4294967296.

Lemma mul_words_ok ws d :
  digits W ws -> 0 <= d < 58 ->
  let '(c, ws') := mul_words ws d in
  length ws' = length ws /\ digits W ws' /\ 0 <= c < 58 /\ c * W ^ Z.of_nat (length ws) + be W ws' = 58 * be W ws + d.
Proof.
  intros Hw Hd. induction Hw as [|w ws Hw Hws IH]; cbn [mul_words].
  - cbn [length be]. change (Z.of_nat 0) with 0. rewrite Z.pow_0_r. split_and!; (done || lia || constructor).
  - destruct (mul_words ws d) as [c ws']. destruct IH as (Hl & Hds & Hc & Hv).
    rewrite wrap_small by (ranges; lia). set (t := w * 58 + c).
    assert (Z.land t 4294967295 = t mod W) as -> by (change 4294967295 with (Z.ones 32); by rewrite Z.land_ones by lia).
    assert (Z.shiftr (Z.land t 270582939648) 32 = t / W) as ->.
    { rewrite Z.shiftr_land. change (Z.shiftr 270582939648 32) with (Z.ones 6). rewrite Z.land_ones, Z.shiftr_div_pow2 by lia.
      change (2 ^ 32) with W. change (2 ^ 6) with 64. unfold t. mlia. }
    cbn [length be]. rewrite Hl. split_and!; [lia | apply List.Forall_cons; [mlia | done] | unfold t; mlia | unfold t; mlia |].
    rewrite Nat2Z.inj_succ, Z.pow_succ_r by lia. assert (t = t / W * W + t mod W) as Et by mlia.
    revert Hv Et. unfold t at 1. generalize (t / W) (t mod W) (W ^ Z.of_nat (length ws)). intros q r P Hv Et. nia.
Qed.

Definition mask_of (bl : Z) : Z := if bl =? 0 then 0 else u32 (Z.shiftl 4294967295 (bl * 8)).

Lemma mask_clear bl o : 0 <= bl < 4 -> 0 <= o -> (bl <> 0 -> o < 256 ^ bl) -> Z.land o (mask_of bl) = 0.
Proof.
  intros Hbl Ho Hlt. unfold mask_of. case_cmp as [->|Hne]; [apply Z.land_0_r |]. specialize (Hlt Hne).
  apply Z.bits_inj'. intros i Hi. rewrite Z.land_spec, Z.bits_0. destruct (Z.lt_ge_cases i (bl * 8)) as [Hl|Hg].
  - unfold wrap. rewrite Z.mod_pow2_bits_low by lia. rewrite Z.shiftl_spec by lia. rewrite (Z.testbit_neg_r 4294967295) by lia. apply andb_false_r.
  - rewrite (bits_above (bl * 8) o); [done | lia | | lia]. split; [done |]. change 256 with (2 ^ 8) in Hlt.
    rewrite <- Z.pow_mul_r in Hlt by lia. by rewrite Z.mul_comm.
Qed.

(** The number fits [binsz] bytes: no carry, and the first word fits its bytes. *)
Lemma digit_loop_ok ds ws bl k :
  0 <= bl < 4 -> digits 58 ds -> digits W ws -> length ws = S k ->
  let room := if bl =? 0 then W else 256 ^ bl in
  be W ws * 58 ^ Z.of_nat (length ds) + be 58 ds < room * W ^ Z.of_nat k ->
  exists ws', digit_loop (mask_of bl) (map b58char ds) ws = Done (Some ws') /\ length ws' = S k /\ digits W ws' /\
    be W ws' = be W ws * 58 ^ Z.of_nat (length ds) + be 58 ds.
Proof.
  intros Hbl. cbn zeta. set (room := if bl =? 0 then W else 256 ^ bl).
  assert (0 < room <= W) as Hroom.
  { unfold room. case_cmp; [lia |]. split; [lia |]. change W with (256 ^ 4). apply Z.pow_le_mono_r; lia. }
  set (P := W ^ Z.of_nat k). assert (0 < P) as HP by (unfold P; lia).
  revert ws. induction ds as [|d ds IH]; intros ws Hds Hws Hl Hlt; cbn [map digit_loop length be] in *.
  - exists ws. change (Z.of_nat 0) with 0. rewrite Z.pow_0_r, Z.mul_1_r, Z.add_0_r. by split_and!.
  - apply List.Forall_cons_iff in Hds as [Hd Hds]. destruct (char_facts d Hd) as (Hc1 & -> & _). rewrite Hc1. cbn [Z.eqb negb obind].
    case_cmp; [lia |]. pose proof (mul_words_ok ws d Hws Hd) as Hm. destruct (mul_words ws d) as [c ws1].
    destruct Hm as (Hl1 & Hw1 & Hc & Hv). rewrite Hl in Hv, Hl1. rewrite Nat2Z.inj_succ, Z.pow_succ_r in * by lia. fold P in Hv.
    set (Q := 58 ^ Z.of_nat (length ds)) in *. assert (0 < Q) as HQ by (unfold Q; lia).
    pose proof (be_range 58 ds ltac:(lia) Hds) as Hr. fold Q in Hr.
    pose proof (be_range W ws1 ltac:(lia) Hw1) as Hr1. pose proof (be_range W ws ltac:(lia) Hws) as Hr0.
    assert (58 * be W ws + d < room * P) as Hb by nia.
    assert (c = 0) as -> by nia. cbn [Z.eqb negb]. destruct ws1 as [|o0 ws1]; [done |].
    apply List.Forall_cons_iff in Hw1 as Hw1'. destruct Hw1' as [Ho Hw1']. cbn [length] in Hl1. injection Hl1 as Hl1.
    rewrite mask_clear; [cbn [Z.eqb negb] | done | lia |].
    2:{ intros Hne. assert (room = 256 ^ bl) as E by (unfold room; case_cmp; done). rewrite <- E. cbn [be] in Hv. rewrite Hl1 in Hv.
        fold P in Hv. pose proof (be_range W ws1 ltac:(lia) Hw1') as Hr2. nia. }
    destruct (IH (o0 :: ws1)) as (ws' & E & Hl' & Hw' & Hv'); [done | done | cbn [length]; lia | nia |].
    exists ws'. split_and!; try done. rewrite Hv'. nia.
Qed.

Lemma land_255 z : Z.land z 255 = z mod 256.
Proof. change 255 with (Z.ones 8). by rewrite Z.land_ones by lia. Qed.

Lemma byte_field z n : 0 <= n -> Z.shiftr (Z.land z (Z.shiftl 255 n)) n = z / 2 ^ n mod 256.
Proof.
  intros Hn. rewrite Z.shiftr_land, Z.shiftr_shiftl_l, Z.sub_diag, Z.shiftl_0_r, land_255, Z.shiftr_div_pow2 by lia. done.
Qed.

Lemma word_bytes_ok w : 0 <= w < W -> length (word_bytes w) = 4%nat /\ digits 256 (word_bytes w) /\ be 256 (word_bytes w) = w.
Proof.
  intros Hw. unfold word_bytes. rewrite !land_255, !Z.shiftr_div_pow2 by lia.
  change (2 ^ 24) with 16777216. change (2 ^ 16) with 65536. change (2 ^ 8) with 256. change (2 ^ 0) with 1.
  split; [done |]. split; [repeat (apply List.Forall_cons; [mlia |]); constructor |].
  cbn [be length]. change (256 ^ Z.of_nat 3) with 16777216. change (256 ^ Z.of_nat 2) with 65536. change (256 ^ Z.of_nat 1) with 256.
  change (256 ^ Z.of_nat 0) with 1. mlia.
Qed.

Lemma words_bytes ws :
  digits W ws -> length (concat (map word_bytes ws)) = (4 * length ws)%nat /\
    digits 256 (concat (map word_bytes ws)) /\ be 256 (concat (map word_bytes ws)) = be W ws.
Proof.
  induction 1 as [|w ws Hw Hws (Hl & Hd & Hv)]; [split_and!; (done || constructor) |].
  destruct (word_bytes_ok w Hw) as (Hl1 & Hd1 & Hv1). cbn [map concat length be].
  rewrite length_app, be_app, Hl, Hl1, Hv, Hv1. split_and!; [lia | by apply List.Forall_app |].
  do 2 f_equal. replace (Z.of_nat (4 * length ws)) with (4 * Z.of_nat (length ws)) by lia. by rewrite Z.pow_mul_r by lia.
Qed.

Lemma first_bytes_ok bl w :
  0 < bl < 4 -> 0 <= w < 256 ^ bl ->
  Z.of_nat (length (first_bytes bl w)) = bl /\ digits 256 (first_bytes bl w) /\ be 256 (first_bytes bl w) = w.
Proof.
  intros Hbl Hw. assert (bl = 1 \/ bl = 2 \/ bl = 3) as Hc by lia. unfold first_bytes.
  change 16711680 with (Z.shiftl 255 16). change 65280 with (Z.shiftl 255 8). rewrite !byte_field, land_255 by lia.
  change (2 ^ 16) with 65536. change (2 ^ 8) with 256.
  destruct Hc as [-> | [-> | ->]]; cbn [Z.eqb Pos.eqb length be];
    change (256 ^ Z.of_nat 2) with 65536; change (256 ^ Z.of_nat 1) with 256; change (256 ^ Z.of_nat 0) with 1;
    change (256 ^ 1) with 256 in Hw; change (256 ^ 2) with 65536 in Hw; change (256 ^ 3) with 16777216 in Hw;
    (split; [done |]); (split; [repeat (apply List.Forall_cons; [mlia |]); constructor | mlia]).
Qed.

Lemma out_bytes_ok bl ws k :
  0 <= bl < 4 -> digits W ws -> length ws = S k ->
  be W ws < (if bl =? 0 then W else 256 ^ bl) * W ^ Z.of_nat k ->
  exists bs, out_bytes bl ws = Done bs /\ Z.of_nat (length bs) = (if bl =? 0 then 4 else bl) + 4 * Z.of_nat k /\
    digits 256 bs /\ be 256 bs = be W ws.
Proof.
  intros Hbl Hw Hl Hlt. unfold out_bytes. case_cmp as [->|Hne].
  - eexists. split; [done |]. destruct (words_bytes ws Hw) as (H1 & H2 & H3). rewrite H1, Hl. split_and!; (done || lia).
  - destruct ws as [|w ws]; [done |]. injection Hl as Hl. apply List.Forall_cons_iff in Hw as [Hw Hws]. cbn [be] in Hlt. rewrite Hl in Hlt.
    pose proof (be_range W ws ltac:(lia) Hws) as Hr. rewrite Hl in Hr. set (P := W ^ Z.of_nat k) in *.
    assert (0 < P) by (unfold P; lia). destruct (first_bytes_ok bl w) as (F1 & F2 & F3); [lia | split; [lia | nia] |].
    destruct (words_bytes ws Hws) as (H1 & H2 & H3). eexists. split; [done |].
    rewrite length_app, be_app, F3, H1, H3, Hl. split_and!; [lia | by apply List.Forall_app |].
    cbn [be]. rewrite Hl. fold P. do 2 f_equal. unfold P. change W with (256 ^ 4). rewrite <- Z.pow_mul_r by lia. f_equal. lia.
Qed.

(** The words of [binsz] bytes: the room of the first and the number of others. *)
Lemma room_bytes binsz :
  0 < binsz -> exists k, Z.to_nat ((binsz + 3) / 4) = S k /\
    (if binsz mod 4 =? 0 then W else 256 ^ (binsz mod 4)) * W ^ Z.of_nat k = 256 ^ binsz /\
    (if binsz mod 4 =? 0 then 4 else binsz mod 4) + 4 * Z.of_nat k = binsz.
Proof.
  intros Hb. exists (Z.to_nat ((binsz + 3) / 4 - 1)). split; [mlia |].
  assert ((if binsz mod 4 =? 0 then 4 else binsz mod 4) + 4 * Z.of_nat (Z.to_nat ((binsz + 3) / 4 - 1)) = binsz) as E
    by (case_cmp; mlia).
  split; [|done]. set (k := Z.to_nat _) in *. assert (W ^ Z.of_nat k = 256 ^ (4 * Z.of_nat k)) as ->
    by (change W with (256 ^ 4); by rewrite Z.pow_mul_r by lia).
  destruct (binsz mod 4 =? 0).
  - transitivity (256 ^ (4 + 4 * Z.of_nat k)); [by rewrite Z.pow_add_r by lia | by rewrite E].
  - transitivity (256 ^ (binsz mod 4 + 4 * Z.of_nat k)); [rewrite Z.pow_add_r by mlia; done | by rewrite E].
Qed.

Lemma decode_number_text binsz z ds :
  0 <= binsz < 2 ^ 31 -> Z.of_nat z < 2 ^ 32 -> digits 58 ds -> no_lead0 ds -> be 58 ds < 256 ^ binsz ->
  exists bs, decode_number binsz (b58text z ds) = Done (Some (bs, Z.of_nat z)) /\ Z.of_nat (length bs) = binsz /\
    digits 256 bs /\ be 256 bs = be 58 ds.
Proof.
  change (2 ^ 31) with 2147483648. intros Hb Hz Hds Hn Hlt. unfold decode_number. rewrite zero_loop_text by done. cbn [obind fst snd].
  rewrite (wrap_small 64) by rlia. fold (mask_of (binsz mod 4)). destruct (decide (binsz = 0)) as [->|Hne].
  - destruct ds as [|d ds].
    + exists []. split_and!; (done || constructor).
    + exfalso. apply List.Forall_cons_iff in Hds as [Hd Hds]. cbn [no_lead0 be] in *. rewrite Z.pow_0_r in Hlt.
      pose proof (be_range 58 ds ltac:(lia) Hds). assert (0 < 58 ^ Z.of_nat (length ds)) by lia. nia.
  - destruct (room_bytes binsz) as (k & Ek & Er & El); [lia |]. rewrite Ek.
    destruct (digit_loop_ok ds (replicate (S k) 0) (binsz mod 4) k) as (ws & -> & Hl & Hw & Hv);
      [mlia | done | apply Forall_replicate; lia | apply length_replicate | |].
    { rewrite Er, be_zeros. lia. }
    cbn [obind]. rewrite be_zeros in Hv.
    destruct (out_bytes_ok (binsz mod 4) ws k) as (bs & -> & Hlb & Hdb & Hvb); [mlia | done | done | rewrite Er; lia |].
    cbn [obind]. exists bs. split_and!; (done || lia).
Qed.

Lemma text_cstring z ds rest : digits 58 ds -> cstring (b58text z ds ++ 0 :: rest) = b58text z ds.
Proof.
  intros Hds. apply cstring_zero. unfold b58text. apply List.Forall_app. split; [by apply Forall_replicate |].
  induction Hds as [|d ds Hd Hds IH]; cbn [map]; [constructor |]. apply List.Forall_cons; [|done]. by apply char_facts.
Qed.

Lemma decode_encoded data z ds :
  is_bytes data -> Z.of_nat (length data) < 2 ^ 31 ->
  lead0 data = Z.of_nat z -> digits 58 ds -> no_lead0 ds -> be 58 ds = be 256 data ->
  shbase58_decode (Z.of_nat (length data)) (b58text z ds ++ [0]) = Done (Some (data, Z.of_nat (length data))).
Proof.
  intros Hb Hlen Hz Hds Hn Hv. unfold shbase58_decode. rewrite text_cstring by done.
  change (2 ^ 31) with 2147483648 in Hlen.
  assert (Z.of_nat z <= Z.of_nat (length data)) as Hzl.
  { destruct (lead0_split data) as (n & Hn' & Hd & _). rewrite Hd, length_app, length_replicate. lia. }
  destruct (decode_number_text (Z.of_nat (length data)) z ds) as (bs & -> & Hl & Hd & Hvb); [lia | lia | done | done | |].
  { rewrite Hv. by apply be_range; [lia |]. }
  cbn [obind]. assert (bs = data) as ->; [|rewrite Hz; do 4 f_equal; rewrite wrap_small by rlia; lia].
  apply (be_inj 256); [lia | lia | done | done | lia].
Qed.

(** Text written by [shbase58_encode] decodes, with the length of the data
    as the size of the output, to the same bytes and the same length: the
    base conversion, its fixed-size array and the leading zeros agree in both
    directions for every byte string. *)
Theorem shbase58_roundtrip (b58sz : Z) (data : bytes) :
  is_bytes data -> Z.of_nat (length data) < 2 ^ 31 -> Z.of_nat (length data) * 138 / 100 + 2 <= b58sz ->
  exists txt n, shbase58_encode b58sz data = Done (Some txt, n) /\ n = Z.of_nat (length txt) /\
    shbase58_decode (Z.of_nat (length data)) txt = Done (Some (data, Z.of_nat (length data))).
Proof.
  intros Hb Hl Hsz. destruct (encode_ok b58sz data Hb Hl) as (z & ds & Hz & Hds & Hn & Hv & Hneed & ->). cbn zeta.
  case_cmp; [lia |]. eexists _, _. split; [done |]. split; [|by apply decode_encoded].
  unfold b58text. rewrite !length_app, length_replicate, length_map. cbn [length]. lia.
Qed.

Lemma shbase58_roundtrip_witness :
  exists txt n, shbase58_encode 16 [0; 0; 7; 255] = Done (Some txt, n) /\ n = Z.of_nat (length txt) /\
    shbase58_decode 4 txt = Done (Some ([0; 0; 7; 255], 4)).
Proof. apply (shbase58_roundtrip 16 [0; 0; 7; 255]); [byte_literal | reflexivity | discriminate]. Defined.

(** The conversion array of [shbase58_encode], 138 bytes for every 100 of
    input and one more, always suffices: encoding never touches memory outside
    it, and when the caller's buffer is too small the size it reports is enough
    for a second call. *)
Theorem shbase58_encode_total (b58sz : Z) (data : bytes) :
  is_bytes data -> Z.of_nat (length data) < 2 ^ 31 ->
  exists r n, shbase58_encode b58sz data = Done (r, n) /\
    match r with
    | Some txt => Z.of_nat (length txt) = n /\ n <= b58sz
    | None => b58sz < n /\ exists txt, shbase58_encode n data = Done (Some txt, n)
    end.
Proof.
  intros Hb Hl. destruct (encode_ok b58sz data Hb Hl) as (z & ds & Hz & Hds & Hn & Hv & Hneed & ->). cbn zeta.
  case_cmp; eexists _, _; (split; [done |]).
  - destruct (encode_ok (Z.of_nat z + Z.of_nat (length ds) + 1) data Hb Hl) as (z' & ds' & Hz' & Hds' & Hn' & Hv' & _ & ->).
    split; [lia |]. assert (z' = z) as -> by lia.
    assert (ds' = ds) as ->; [|cbn zeta; case_cmp; [lia | by eexists]].
    apply (digits_unique 58); (done || lia).
  - split; [|lia]. unfold b58text. rewrite !length_app, length_replicate, length_map. cbn [length]. lia.
Qed.

Lemma shbase58_encode_total_witness :
  exists r n, shbase58_encode 2 [0; 9] = Done (r, n) /\
    match r with
    | Some txt => Z.of_nat (length txt) = n /\ n <= 2
    | None => 2 < n /\ exists txt, shbase58_encode n [0; 9] = Done (Some txt, n)
    end.
Proof. apply (shbase58_encode_total 2 [0; 9]); [byte_literal | reflexivity]. Defined.

(** The loop that skips leading '1's indexes the 128-entry digit table
    before the high bit of the character is tested: text whose first character
    that is not a '1' is not ASCII makes the decoder read outside the table. *)
Theorem shbase58_decode_high_bit (binsz : Z) (z : nat) (c : Z) (rest : bytes) :
  128 <= c < 256 -> shbase58_decode binsz (replicate z 49 ++ c :: rest) = Fault.
Proof.
  intros Hc. unfold shbase58_decode, decode_number.
  assert (zero_loop (cstring (replicate z 49 ++ c :: rest)) = Fault) as ->; [|done].
  induction z as [|z IH]; cbn [replicate app cstring].
  - destruct (Z.eqb_spec c 0); [lia |]. cbn [zero_loop]. unfold digit_map. rewrite lookup_ge_None_2; [done |].
    change (length b58digits_map) with 128%nat. lia.
  - cbn [Z.eqb zero_loop]. change (digit_map 49) with (Done 0). cbn [obind Z.eqb]. by rewrite IH.
Qed.

Lemma shbase58_decode_high_bit_witness : shbase58_decode 8 (replicate 1 49 ++ 200 :: [65; 0]) = Fault.
Proof. apply shbase58_decode_high_bit. split; [discriminate | reflexivity]. Defined.


Lemma sum4_ok data : is_uint 32 (Z.of_nat (length data)) -> length (sum4 data) = 4%nat /\ is_bytes (sum4 data).
Proof.
  intros Hl. unfold sum4. destruct (sha256_bytes data Hl) as [H1 _]. destruct (sha256_bytes (sha256 data)) as [H2 H3].
  - rewrite H1. by split.
  - rewrite length_take, H2. split; [done | by apply Forall_take].
Qed.

Lemma zeros_agree_text z ds b rest rest' :
  digits 58 ds -> no_lead0 ds -> ds <> [] -> b <> 0 ->
  zeros_agree (replicate z 0 ++ b :: rest) (b58text z ds ++ rest') = Done true.
Proof.
  intros Hds Hn Hne Hb. unfold b58text. induction z as [|z IH]; cbn [replicate app zeros_agree].
  - destruct ds as [|d ds]; [done |]. cbn [map app]. apply List.Forall_cons_iff in Hds as [Hd _]. cbn [no_lead0] in Hn.
    destruct (char_facts d Hd) as (_ & Hc & _). destruct (Z.eqb_spec b 0); [done |]. cbn [andb orb].
    destruct (Z.eqb_spec (b58char d) 49) as [E|]; [|done]. rewrite E in Hc. change (digit_map 49) with (Done 0) in Hc. congruence.
  - cbn [Z.eqb andb]. apply IH.
Qed.

(** [shbase58_decode_check] accepts what [shbase58_encode_check] wrote and
    returns the data: the appended checksum verifies and the leading zeros
    match, for every string of at most 128 bytes, unless it and its checksum
    are all zeros. *)
Theorem shbase58_check_roundtrip (strsize : Z) (data : bytes) :
  is_bytes data -> Z.of_nat (length data) <= 128 -> 184 <= strsize ->
  Exists (fun b => b <> 0) (data ++ sum4 data) ->
  exists txt n, shbase58_encode_check data strsize = Done (Some txt, n) /\
    shbase58_decode_check txt (Z.of_nat (length data)) = Done (Some data).
Proof.
  intros Hb Hl Hsz Hex. destruct (sum4_ok data) as [Ls Bs]; [rlia |]. set (bin := data ++ sum4 data) in *.
  assert (length bin = length data + 4)%nat as Lb by (unfold bin; rewrite length_app, Ls; done).
  assert (is_bytes bin) as Bb by (by apply List.Forall_app).
  assert (take (length data) bin = data) as Ht by apply take_app_length.
  assert (drop (length data) bin = sum4 data) as Hd by apply drop_app_length.
  unfold shbase58_encode_check. fold bin. clearbody bin. case_cmp; [lia |].
  destruct (encode_ok strsize bin Bb) as (z & ds & Hz & Hds & Hn & Hv & Hneed & ->); [change (2 ^ 31) with 2147483648; lia |]. cbn zeta.
  case_cmp; [exfalso; rewrite Lb in Hneed; mlia |]. cbn [obind]. eexists _, _. split; [done |].
  unfold shbase58_decode_check. case_cmp; [lia |]. replace (Z.of_nat (length data) + 4) with (Z.of_nat (length bin)) by lia.
  rewrite decode_encoded by (done || (change (2 ^ 31) with 2147483648; lia)). cbn [obind]. rewrite Z.eqb_refl. cbn [negb].
  unfold b58check. destruct (Z.ltb_spec (Z.of_nat (length bin)) 4); [lia |].
  replace (Z.to_nat (Z.of_nat (length bin) - 4)) with (length data) by lia. rewrite Ht, Hd, bool_decide_true by done.
  destruct (lead0_split bin) as (m & Hm & Hbin & Hhd). assert (m = z) as -> by lia.
  destruct (drop z bin) as [|b rest] eqn:Ed.
  { exfalso. rewrite app_nil_r in Hbin. rewrite Hbin in Hex. apply Exists_exists in Hex as (x & Hx & Hx0).
    apply elem_of_replicate in Hx as [-> _]. done. }
  assert (ds <> []) as Hne.
  { intros ->. rewrite Hbin, be_zero_app in Hv. cbn [be] in Hv. rewrite Hbin in Bb.
    apply List.Forall_app in Bb as [_ [Bb1 Bb2]%List.Forall_cons_iff].
    pose proof (be_range 256 rest ltac:(lia) Bb2). assert (0 < 256 ^ Z.of_nat (length rest)) by lia. ranges. nia. }
  rewrite Hbin at 1. rewrite (zeros_agree_text z ds b rest [0]) by done. cbn [obind].
  destruct bin as [|b0 bin'] eqn:Eb; [done |]. cbn [obind]. apply List.Forall_cons_iff in Bb as [Bb0 _].
  case_cmp; [exfalso; rlia |]. by rewrite Nat2Z.id, Ht.
Qed.

Lemma shbase58_check_roundtrip_witness :
  exists txt n, shbase58_encode_check [0; 42] 200 = Done (Some txt, n) /\ shbase58_decode_check txt 2 = Done (Some [0; 42]).
Proof.
  apply (shbase58_check_roundtrip 200 [0; 42]); [byte_literal | discriminate | discriminate |].
  apply Exists_cons_tl, Exists_cons_hd. discriminate.
Defined.
