(* ===== verification/ShBase32.v ===== *)
(** * Base32

    Models [share-lib/mem/shmem_base32.c]: the encoder that fills whatever
    output space it is given, the eight-character decoder, the buffering of
    characters across newlines, and the decoding loop with and without a
    context.  Pointers are lists as in [ShBase64]. *)

From Stdlib Require Import ZArith Lia String.
From stdpp Require Import base numbers list.
From S2P Require Import Prelude ShBase64.

Open Scope Z_scope.

Definition BASE32_LENGTH (inlen : Z) : Z := (inlen + 4) / 5 * 8.

Definition b32str : list Z := cstr "ABCDEFGHIJKLMNOPQRSTUVWXYZ234567".
Definition e32 (d : Z) : Z := nth (Z.to_nat d) b32str 0.

(** ** Encoding *)

(** What the body of the loop changes. *)
Record enc_state : Type := mk_enc { e_inlen : Z; e_out : bytes; e_outlen : Z }.

(** [*out++ = c; if (!--outlen) break;]: [inl] leaves the loop. *)
Definition emit (s : enc_state) (c : Z) : enc_state + enc_state :=
  let s := mk_enc (e_inlen s) (e_out s ++ [c]) (e_outlen s - 1) in
  if e_outlen s =? 0 then inl s else inr s.

Definition use1 (s : enc_state) : enc_state := mk_enc (e_inlen s - 1) (e_out s) (e_outlen s).

Definition brk (m : enc_state + enc_state) (k : enc_state -> outcome (enc_state + enc_state)) : outcome (enc_state + enc_state) :=
  match m with inl s => Done (inl s) | inr s => k s end.
Notation "s <-? m ; k" := (brk m (fun s => k)) (at level 100, m at next level, right associativity).

(** [--inlen ? in[i] >> n : 0] *)
Definition peek (s : enc_state) (input : bytes) (i n : Z) : outcome Z :=
  if e_inlen s =? 0 then Done 0 else b <-! at_ input i; Done (Z.shiftr b n).

(** One round of the loop on the rest of the input. *)
Definition encode_round (input : bytes) (s : enc_state) : outcome (enc_state + enc_state) :=
  b0 <-! at_ input 0;
  s <-? emit s (e32 (Z.land (Z.shiftr b0 3) 31));
  let s := use1 s in
  p <-! peek s input 1 6;
  s <-? emit s (e32 (Z.land (Z.shiftl b0 2 + p) 31));
  c <-! (if e_inlen s =? 0 then Done 61 else b1 <-! at_ input 1; Done (e32 (Z.land (Z.shiftr b1 1) 31)));
  s <-? emit s c;
  r <-! (if e_inlen s =? 0 then Done (s, 61)
         else let s' := use1 s in b1 <-! at_ input 1; p <-! peek s' input 2 4; Done (s', e32 (Z.land (Z.shiftl b1 4 + p) 31)));
  s <-? emit (fst r) (snd r);
  r <-! (if e_inlen s =? 0 then Done (s, 61)
         else let s' := use1 s in b2 <-! at_ input 2; p <-! peek s' input 3 7; Done (s', e32 (Z.land (Z.shiftl b2 1 + p) 31)));
  s <-? emit (fst r) (snd r);
  c <-! (if e_inlen s =? 0 then Done 61 else b3 <-! at_ input 3; Done (e32 (Z.land (Z.shiftr b3 2) 31)));
  s <-? emit s c;
  r <-! (if e_inlen s =? 0 then Done (s, 61)
         else let s' := use1 s in b3 <-! at_ input 3; p <-! peek s' input 4 5; Done (s', e32 (Z.land (Z.shiftl b3 3 + p) 31)));
  s <-? emit (fst r) (snd r);
  c <-! (if e_inlen s =? 0 then Done 61 else b4 <-! at_ input 4; Done (e32 (Z.land b4 31)));
  s <-? emit s c;
  Done (inr (if e_inlen s =? 0 then s else use1 s)).

Fixpoint encode_loop (fuel : nat) (input : bytes) (s : enc_state) : outcome enc_state :=
  if (e_inlen s =? 0) || (e_outlen s =? 0) then Done s
  else match fuel with
       | O => Fault
       | S fuel' =>
           r <-! encode_round input s;
           match r with
           | inl s => Done s
           | inr s => encode_loop fuel' (if e_inlen s =? 0 then input else drop 5 input) s
           end
       end.

(** What is written to [out]. *)
Definition shbase32_encode (input : bytes) (inlen outlen : Z) : outcome bytes :=
  s <-! encode_loop (Z.to_nat inlen) input (mk_enc inlen [] outlen);
  Done (if e_outlen s =? 0 then e_out s else e_out s ++ [0]).

(** Returned length and block. *)
Definition shbase32_encode_alloc (alloc_ok : bool) (input : bytes) (inlen : Z) : outcome (Z * option bytes) :=
  let outlen := u64 (1 + u64 (u64 (inlen + 4) / 5 * 8)) in
  if outlen <? inlen then Done (0, None)
  else if negb alloc_ok then Done (outlen, None)
  else out <-! shbase32_encode input inlen outlen; Done (outlen - 1, Some out).

(** ** Decoding *)

Definition B32 (c : Z) : Z :=
  if (65 <=? c) && (c <=? 90) then c - 65 else if (50 <=? c) && (c <=? 55) then c - 24 else -1.

(** The table: two of its entries repeat another index. *)
Definition b32 (c : Z) : Z := if c =? 64 then B32 32 else if c =? 164 then B32 132 else B32 c.

Definition isbase32 (ch : Z) : bool := 0 <=? b32 ch.

(** [if ( *outleft) { *out++ = v; -- *outleft; }] *)
Definition dput (o : bytes * Z) (v : Z) : bytes * Z :=
  if snd o =? 0 then o else (fst o ++ [u8 v], snd o - 1).

(** Success, and the output with what is left of it. *)
Definition decode_8 (input : bytes) (inlen : Z) (o : bytes * Z) : outcome (bool * (bytes * Z)) :=
  if inlen <? 8 then Done (false, o)
  else
    match input with
    | c0 :: c1 :: c2 :: c3 :: c4 :: c5 :: c6 :: c7 :: _ =>
        if negb (isbase32 c0) || negb (isbase32 c1) then Done (false, o)
        else
          let o := dput o (Z.lor (Z.shiftl (b32 c0) 3) (Z.shiftr (b32 c1) 2)) in
          if c2 =? 61 then
            if negb (c3 =? 61) || negb (c4 =? 61) || negb (c5 =? 61) || negb (c6 =? 61) || negb (c7 =? 61)
            then Done (false, o) else Done (true, o)
          else if negb (isbase32 c2) || negb (isbase32 c3) then Done (false, o)
          else
            let o := dput o (Z.lor (Z.lor (Z.shiftl (b32 c1) 6) (Z.shiftl (b32 c2) 1)) (Z.shiftr (b32 c3) 4)) in
            if c4 =? 61 then
              if negb (c5 =? 61) || negb (c6 =? 61) || negb (c7 =? 61) then Done (false, o) else Done (true, o)
            else if negb (isbase32 c4) then Done (false, o)
            else
              let o := dput o (Z.lor (Z.shiftl (b32 c3) 4) (Z.shiftr (b32 c4) 1)) in
              if c5 =? 61 then
                if negb (c6 =? 61) || negb (c7 =? 61) then Done (false, o) else Done (true, o)
              else if negb (isbase32 c5) || negb (isbase32 c6) then Done (false, o)
              else
                let o := dput o (Z.lor (Z.lor (Z.shiftl (b32 c4) 7) (Z.shiftl (b32 c5) 2)) (Z.shiftr (b32 c6) 3)) in
                if c7 =? 61 then Done (true, o)
                else if negb (isbase32 c7) then Done (false, o)
                else Done (true, dput o (Z.lor (Z.shiftl (b32 c6) 5) (b32 c7)))
    | _ => Fault
    end.

Record shbase32_decode_context : Type := mk_ctx { ctx_i : Z; ctx_buf : bytes }.

Definition shbase32_decode_ctx_init (ctx : shbase32_decode_context) : shbase32_decode_context := mk_ctx 0 (ctx_buf ctx).

(** Copies non-newline bytes into the buffer until it holds eight. *)
Fixpoint fill_buf (ctx : shbase32_decode_context) (input : bytes) : outcome (shbase32_decode_context * bytes) :=
  match input with
  | [] => Done (ctx, [])
  | c :: rest =>
      if c =? 10 then fill_buf ctx rest
      else
        buf <-! mem_write (ctx_buf ctx) (Z.to_nat (ctx_i ctx)) [c];
        let ctx := mk_ctx (ctx_i ctx + 1) buf in
        if ctx_i ctx =? 8 then Done (ctx, rest) else fill_buf ctx rest
  end.

(** The context, the bytes to decode, the rest of the input, their number. *)
Definition get_8 (ctx : shbase32_decode_context) (input : bytes) : outcome (shbase32_decode_context * bytes * bytes * Z) :=
  let ctx := if ctx_i ctx =? 8 then mk_ctx 0 (ctx_buf ctx) else ctx in
  if (ctx_i ctx =? 0) && (8 <=? Z.of_nat (length input)) && negb (existsb (Z.eqb 10) (take 8 input))
  then Done (ctx, input, drop 8 input, 8)
  else
    r <-! fill_buf ctx input;
    Done (fst r, ctx_buf (fst r), snd r, ctx_i (fst r)).

(** [while (decode_8(...)) { in += 8; inlen -= 8; }]: the output is also
    returned as it was before the failing call. *)
Fixpoint decode_run (fuel : nat) (input : bytes) (o : bytes * Z) : outcome (bytes * (bytes * Z) * (bytes * Z)) :=
  r <-! decode_8 input (Z.of_nat (length input)) o;
  if negb (fst r) then Done (input, snd r, o)
  else match fuel with
       | O => Fault
       | S fuel' => decode_run fuel' (drop 8 input) (snd r)
       end.

(** The loop; the result is whether [inlen] ended at zero, the output and the
    context. *)
Fixpoint ctx_loop (fuel : nat) (ctx : option shbase32_decode_context) (flush : bool) (i0 : Z) (input : bytes) (o : bytes * Z)
  : outcome (bool * (bytes * Z) * option shbase32_decode_context) :=
  match fuel with
  | O => Fault
  | S fuel' =>
      r <-! (if (i0 =? 0) && negb flush then decode_run (length input) input o else Done (input, o, o));
      (let '(input, o, saved) := r in
       if (Z.of_nat (length input) =? 0) && negb flush then Done (true, o, ctx)
       else if match input, ctx with c :: _, Some _ => c =? 10 | _, _ => false end
       then ctx_loop fuel' ctx flush i0 (tail input) o
       else
         let o := saved in
         g <-! (match ctx with
                | Some x => g <-! get_8 x input; (let '(x, nl, rest, n) := g in Done (Some x, nl, rest, n))
                | None => Done (None, input, input, Z.of_nat (length input))
                end);
         (let '(ctx, nl, rest, n) := g in
          if (n =? 0) || ((n <? 8) && negb flush && match ctx with Some _ => true | None => false end)
          then Done (true, o, ctx)
          else
            d <-! decode_8 nl n o;
            if negb (fst d) then Done (n =? 0, snd d, ctx)
            else ctx_loop fuel' ctx flush i0 rest (snd d)))
  end.

(** Result, bytes written, context. *)
Definition shbase32_decode_ctx (ctx : option shbase32_decode_context) (input : bytes) (outlen : Z)
  : outcome (bool * bytes * option shbase32_decode_context) :=
  let flush := match ctx with Some _ => Z.of_nat (length input) =? 0 | None => false end in
  let i0 := match ctx with Some x => ctx_i x | None => 0 end in
  r <-! ctx_loop (S (S (length input))) ctx flush i0 input ([], outlen);
  Done (fst (fst r), fst (snd (fst r)), snd r).

Definition shbase32_decode (input : bytes) (out_len : Z) : outcome (bool * bytes) :=
  r <-! shbase32_decode_ctx None input out_len; Done (fst (fst r), snd (fst r)).

Definition shbase32_decode_alloc_ctx (alloc_ok : bool) (ctx : option shbase32_decode_context) (input : bytes)
  : outcome (bool * option bytes) :=
  let needlen := 5 * (Z.of_nat (length input) / 8) + 5 in
  if negb alloc_ok then Done (true, None)
  else
    r <-! shbase32_decode_ctx ctx input needlen;
    if fst (fst r) then Done (true, Some (snd (fst r))) else Done (false, None).

Definition shbase32_adecode (alloc_ok : bool) (input : bytes) : outcome (bool * option bytes) :=
  shbase32_decode_alloc_ctx alloc_ok None input.

Example enc_test : shbase32_encode (cstr "foobar") 6 64 = Done (cstr "MZXW6YTBOI======" ++ [0]).
Proof. vm_compute. reflexivity. Qed.
Example enc_short_test : shbase32_encode (cstr "foobar") 6 5 = Done (cstr "MZXW6").
Proof. vm_compute. reflexivity. Qed.
Example dec_test : shbase32_decode (cstr "MZXW6YTBOI======") 64 = Done (true, cstr "foobar").
Proof. vm_compute. reflexivity. Qed.
Example dec_nl_test :
  shbase32_decode_ctx (Some (mk_ctx 0 (replicate 8 0))) (cstr "MZXW6Y" ++ [10] ++ cstr "TBOI======" ++ [10]) 64 =
    Done (true, cstr "foobar", Some (mk_ctx 8 (cstr "MZXW6YTB"))).
Proof. vm_compute. reflexivity. Qed.

(** ** The encoding by groups *)

Definition q0 (a : Z) : Z := a / 8.
Definition q1 (a b : Z) : Z := a mod 8 * 4 + b / 64.
Definition q2 (b : Z) : Z := b / 2 mod 32.
Definition q3 (b c : Z) : Z := b mod 2 * 16 + c / 16.
Definition q4 (c d : Z) : Z := c mod 16 * 2 + d / 128.
Definition q5 (d : Z) : Z := d / 4 mod 32.
Definition q6 (d e : Z) : Z := d mod 4 * 8 + e / 32.
Definition q7 (e : Z) : Z := e mod 32.

(** The eight characters of the first group; RFC 4648, section 6. *)
Definition group (l : bytes) : bytes :=
  match l with
  | a :: b :: c :: d :: e :: _ => [e32 (q0 a); e32 (q1 a b); e32 (q2 b); e32 (q3 b c); e32 (q4 c d); e32 (q5 d); e32 (q6 d e); e32 (q7 e)]
  | [a; b; c; d] => [e32 (q0 a); e32 (q1 a b); e32 (q2 b); e32 (q3 b c); e32 (q4 c d); e32 (q5 d); e32 (q6 d 0); 61]
  | [a; b; c] => [e32 (q0 a); e32 (q1 a b); e32 (q2 b); e32 (q3 b c); e32 (q4 c 0); 61; 61; 61]
  | [a; b] => [e32 (q0 a); e32 (q1 a b); e32 (q2 b); e32 (q3 b 0); 61; 61; 61; 61]
  | [a] => [e32 (q0 a); e32 (q1 a 0); 61; 61; 61; 61; 61; 61]
  | [] => []
  end.

Fixpoint base32_groups (n : nat) (l : bytes) : bytes :=
  match n, l with
  | S n', _ :: _ => group l ++ base32_groups n' (drop 5 l)
  | _, _ => []
  end.
Definition base32 (l : bytes) : bytes := base32_groups (length l) l.

(** ** The encoder *)

Lemma land_31 z : Z.land z 31 = z mod 32.
Proof. change 31 with (Z.ones 5). by rewrite Z.land_ones by lia. Qed.

Lemma mod_mod_mul a m n r : 0 < m -> 0 < n -> 0 <= r < m -> (a * m + r) mod (n * m) = a mod n * m + r.
Proof.
  intros Hm Hn Hr. pose proof (Z.mod_pos_bound a n Hn). pose proof (Z.div_mod a n ltac:(lia)).
  symmetry. apply (Z.mod_unique_pos _ _ (a / n)); nia.
Qed.

Lemma code0 a : is_byte a -> Z.land (Z.shiftr a 3) 31 = q0 a.
Proof. intros Ha. rewrite land_31, Z.shiftr_div_pow2 by lia. unfold q0. ranges. change (2 ^ 3) with 8. mlia. Qed.
Lemma code1 a b : is_byte b -> Z.land (Z.shiftl a 2 + Z.shiftr b 6) 31 = q1 a b.
Proof.
  intros Hb. rewrite land_31, Z.shiftl_mul_pow2, Z.shiftr_div_pow2 by lia. change (2 ^ 2) with 4. change (2 ^ 6) with 64. change 32 with (8 * 4).
  apply mod_mod_mul; ranges; mlia.
Qed.
Lemma code2 a : Z.land (Z.shiftr a 1) 31 = q2 a.
Proof. rewrite land_31, Z.shiftr_div_pow2 by lia. done. Qed.
Lemma code3 a b : is_byte b -> Z.land (Z.shiftl a 4 + Z.shiftr b 4) 31 = q3 a b.
Proof.
  intros Hb. rewrite land_31, Z.shiftl_mul_pow2, Z.shiftr_div_pow2 by lia. change (2 ^ 4) with 16. change 32 with (2 * 16).
  apply mod_mod_mul; ranges; mlia.
Qed.
Lemma code4 a b : is_byte b -> Z.land (Z.shiftl a 1 + Z.shiftr b 7) 31 = q4 a b.
Proof.
  intros Hb. rewrite land_31, Z.shiftl_mul_pow2, Z.shiftr_div_pow2 by lia. change (2 ^ 1) with 2. change (2 ^ 7) with 128. change 32 with (16 * 2).
  apply mod_mod_mul; ranges; mlia.
Qed.
Lemma code5 a : Z.land (Z.shiftr a 2) 31 = q5 a.
Proof. rewrite land_31, Z.shiftr_div_pow2 by lia. done. Qed.
Lemma code6 a b : is_byte b -> Z.land (Z.shiftl a 3 + Z.shiftr b 5) 31 = q6 a b.
Proof.
  intros Hb. rewrite land_31, Z.shiftl_mul_pow2, Z.shiftr_div_pow2 by lia. change (2 ^ 3) with 8. change (2 ^ 5) with 32. change 32 with (4 * 8) at 2.
  apply mod_mod_mul; ranges; mlia.
Qed.
Lemma code7 a : Z.land a 31 = q7 a.
Proof. apply land_31. Qed.

Lemma is_byte_0 : is_byte 0.
Proof. by split. Qed.

Lemma code1_0 a : Z.land (Z.shiftl a 2 + 0) 31 = q1 a 0.
Proof. apply (code1 a 0 is_byte_0). Qed.
Lemma code3_0 a : Z.land (Z.shiftl a 4 + 0) 31 = q3 a 0.
Proof. apply (code3 a 0 is_byte_0). Qed.
Lemma code4_0 a : Z.land (Z.shiftl a 1 + 0) 31 = q4 a 0.
Proof. apply (code4 a 0 is_byte_0). Qed.
Lemma code6_0 a : Z.land (Z.shiftl a 3 + 0) 31 = q6 a 0.
Proof. apply (code6 a 0 is_byte_0). Qed.

(** One round writes a group, cut to the space that is left. *)
Definition round_spec (s : enc_state) (cs : bytes) (inlen' : Z) (r : outcome (enc_state + enc_state)) : Prop :=
  exists s', r = Done (if e_outlen s <=? 8 then inl s' else inr s') /\
    e_out s' = e_out s ++ take (Z.to_nat (e_outlen s)) cs /\
    e_outlen s' = Z.max 0 (e_outlen s - 8) /\ (8 < e_outlen s -> e_inlen s' = inlen').

Ltac close_out n s := replace (e_outlen s) with n by lia; rewrite <- ?app_assoc; reflexivity.
Ltac stop_round s :=
  eexists; split; [destruct (Z.leb_spec (e_outlen s) 8); [reflexivity | lia] |];
  cbn [e_out e_outlen e_inlen]; split_and!;
  [first [close_out 1 s | close_out 2 s | close_out 3 s | close_out 4 s | close_out 5 s | close_out 6 s | close_out 7 s | close_out 8 s] | lia | lia].
Ltac codes := rewrite ?code1_0, ?code3_0, ?code4_0, ?code6_0, ?code0, ?code1, ?code2, ?code3, ?code4, ?code5, ?code6,
  ?code7 by done.
Ltac emit_step s := codes;
  match goal with |- round_spec _ _ _ (brk (emit ?x _) _) =>
    unfold emit at 1; cbn [e_inlen e_out e_outlen use1 fst snd];
    match goal with |- context [if ?y =? 0 then inl _ else inr _] => destruct (Z.eqb_spec y 0) end;
    cbn [brk]; [solve [stop_round s] | cbn [e_inlen e_out e_outlen use1 fst snd obind]]
  end.
Ltac len_step :=
  cbn [obind fst snd e_inlen e_out e_outlen use1];
  match goal with |- context [if ?y =? 0 then _ else _] =>
    lazymatch y with context [e_inlen] => destruct (Z.eqb_spec y 0); try (exfalso; lia) end
  end; cbn [obind fst snd].
Ltac last_step :=
  cbn [obind fst snd e_inlen e_out e_outlen use1];
  match goal with s : enc_state |- round_spec _ _ _ (Done (inr _)) =>
    eexists; split; [destruct (Z.leb_spec (e_outlen s) 8); [lia | reflexivity] |];
    cbn [obind fst snd e_inlen e_out e_outlen use1]
  end.

Lemma at_4 a b c d e s : at_ (a :: b :: c :: d :: e :: s) 4 = Done e.
Proof. reflexivity. Qed.

Lemma round_ok input s :
  is_bytes input -> input <> [] -> e_inlen s = Z.of_nat (length input) -> 0 < e_outlen s ->
  round_spec s (group input) (Z.max 0 (e_inlen s - 5)) (encode_round input s).
Proof.
  intros Hb Hne Hi Ho. pose proof is_byte_0 as H0.
  destruct input as [|a [|b [|c [|d [|e r]]]]]; [done | ..]; split_bytes; cbn [length] in Hi;
    unfold encode_round, peek; rewrite ?at_0, ?at_1, ?at_2, ?at_3, ?at_4; cbn [obind];
    repeat first [emit_step s | len_step].
  all: last_step; split_and!; [rewrite take_ge by (cbn [group length]; lia); rewrite <- !app_assoc; reflexivity | lia | lia].
Qed.

Lemma length_group l : l <> [] -> length (group l) = 8%nat.
Proof. intros H. by destruct l as [|a [|b [|c [|d [|e r]]]]]. Qed.

Lemma groups_fuel n m l : (length l <= n)%nat -> (length l <= m)%nat -> base32_groups n l = base32_groups m l.
Proof.
  revert m l. induction n as [|n IH]; intros [|m] [|a l] Hn Hm; cbn [length] in *; try (done || lia). cbn [base32_groups].
  f_equal. apply IH; rewrite length_drop; cbn [length]; lia.
Qed.

Lemma base32_cons l : l <> [] -> base32 l = group l ++ base32 (drop 5 l).
Proof.
  intros Hl. destruct l as [|a l]; [done |]. unfold base32. cbn [length base32_groups]. f_equal.
  apply groups_fuel; rewrite length_drop; cbn [length]; lia.
Qed.

Lemma loop_ok fuel input s :
  is_bytes input -> e_inlen s = Z.of_nat (length input) -> 0 <= e_outlen s -> (length input <= fuel)%nat ->
  exists s', encode_loop fuel input s = Done s' /\ e_out s' = e_out s ++ take (Z.to_nat (e_outlen s)) (base32 input) /\
    e_outlen s' = Z.max 0 (e_outlen s - Z.of_nat (length (base32 input))).
Proof.
  revert input s. induction fuel as [|fuel IH]; intros input s Hb Hi Ho Hf;
    (destruct (decide (input = [])) as [->|Hne];
      [exists s; cbn [length] in Hi; change (base32 []) with (@nil Z); rewrite take_nil, app_nil_r; cbn [length];
       (split_and!; [cbn [encode_loop]; rewrite Hi; reflexivity | done | lia]) |]).
  { destruct input; cbn [length] in Hf; [done | lia]. }
  assert (0 < length input)%nat as Hlen by (destruct input; cbn [length]; [done | lia]).
  cbn [encode_loop]. destruct (Z.eqb_spec (e_inlen s) 0); [lia |]. cbn [orb]. case_cmp as [Hz|Hz].
  { exists s. rewrite Hz. cbn [Z.to_nat]. rewrite take_0, app_nil_r. split_and!; (done || lia). }
  destruct (round_ok input s Hb Hne Hi ltac:(lia)) as (s1 & -> & Hout & Hol & Hil). cbn [obind].
  rewrite (base32_cons input Hne), length_app, length_group by done.
  destruct (Z.leb_spec (e_outlen s) 8) as [Hle|Hgt].
  - exists s1. split_and!; [done | | lia]. rewrite take_app_le by (rewrite length_group by done; lia). done.
  - specialize (Hil Hgt). rewrite take_ge in Hout by (rewrite length_group by done; lia).
    rewrite take_app_ge by (rewrite length_group by done; lia). rewrite length_group by done.
    assert (exists s', encode_loop fuel (drop 5 input) s1 = Done s' /\ e_out s' = e_out s1 ++ take (Z.to_nat (e_outlen s1)) (base32 (drop 5 input)) /\
      e_outlen s' = Z.max 0 (e_outlen s1 - Z.of_nat (length (base32 (drop 5 input))))) as (s' & E & Ho' & Hl').
    { apply IH; [by apply Forall_drop | rewrite length_drop; lia | lia | rewrite length_drop; lia]. }
    exists s'. replace (Z.to_nat (e_outlen s) - 8)%nat with (Z.to_nat (e_outlen s1)) by lia.
    split_and!; [|by rewrite Ho', Hout, <- app_assoc | lia]. case_cmp as [E0|E0]; [|done].
    assert (drop 5 input = []) as Ed by (apply drop_ge; lia). rewrite Ed in E. destruct fuel; cbn [encode_loop] in *; by rewrite E0 in *.
Qed.

Lemma base32_encode_ok input outlen :
  is_bytes input -> 0 <= outlen ->
  shbase32_encode input (Z.of_nat (length input)) outlen =
    Done (take (Z.to_nat outlen) (base32 input) ++ (if Z.of_nat (length (base32 input)) <? outlen then [0] else [])).
Proof.
  intros Hb Ho. unfold shbase32_encode. rewrite Nat2Z.id.
  destruct (loop_ok (length input) input (mk_enc (Z.of_nat (length input)) [] outlen)) as (s & -> & Hout & Hl); [done | done | done | lia |].
  cbn [obind e_out e_outlen app] in *. rewrite Hout. f_equal.
  destruct (Z.ltb_spec (Z.of_nat (length (base32 input))) outlen), (Z.eqb_spec (e_outlen s) 0); try lia; by rewrite ?app_nil_r.
Qed.

(** [shbase32_encode] writes the encoding of RFC 4648 cut to the space it
    is given, never more, and terminates it with a NUL when there is room. *)
Theorem shbase32_encode_correct (input : bytes) (outlen : Z) :
  is_bytes input -> 0 <= outlen ->
  shbase32_encode input (Z.of_nat (length input)) outlen =
    Done (take (Z.to_nat outlen) (base32 input) ++ (if Z.of_nat (length (base32 input)) <? outlen then [0] else [])).
Proof. apply base32_encode_ok. Qed.

Lemma shbase32_encode_correct_witness :
  shbase32_encode (cstr "foo") 3 6 = Done (take 6 (base32 (cstr "foo")) ++ []).
Proof. apply (shbase32_encode_correct (cstr "foo") 6); [byte_literal | discriminate]. Defined.

Lemma length_base32 l : Z.of_nat (length (base32 l)) = BASE32_LENGTH (Z.of_nat (length l)).
Proof.
  unfold BASE32_LENGTH. remember (length l) as n eqn:Hn. revert l Hn. induction n as [n IH] using lt_wf_ind. intros l ->.
  destruct (decide (l = [])) as [->|Hne]; [done |]. rewrite base32_cons, length_app, length_group by done.
  rewrite Nat2Z.inj_add, (IH (length (drop 5 l))); [|destruct l; [done | rewrite length_drop; cbn [length]; lia] | done].
  rewrite length_drop. destruct (decide (5 <= length l)%nat) as [H5|H5].
  - replace (Z.of_nat (length l) + 4) with (Z.of_nat (length l - 5) + 4 + 1 * 5) by lia. rewrite Z.div_add by lia. lia.
  - replace (length l - 5)%nat with 0%nat by lia. assert (0 < length l)%nat by (destruct l; [done | cbn [length]; lia]). mlia.
Qed.

(** ** The decoder *)

Lemma e32_facts q : 0 <= q < 32 -> b32 (e32 q) = q /\ isbase32 (e32 q) = true /\ (e32 q =? 61) = false.
Proof.
  intros Hq. assert (forallb (fun q => (b32 (e32 q) =? q) && isbase32 (e32 q) && negb (e32 q =? 61)) (map Z.of_nat (seq 0 32)) = true) as H
    by (vm_compute; reflexivity).
  rewrite forallb_forall in H. specialize (H q ltac:(apply in_map_iff; exists (Z.to_nat q); rewrite in_seq; lia)).
  apply andb_prop in H as [[H1%Z.eqb_eq H2]%andb_prop H3%negb_true_iff]. done.
Qed.

Lemma lor3 a b c m n :
  0 <= m -> 0 <= n -> is_uint m b -> is_uint n c ->
  Z.lor (Z.lor (Z.shiftl a (m + n)) (Z.shiftl b n)) c = (a * 2 ^ m + b) * 2 ^ n + c.
Proof.
  intros Hm Hn Hb Hc. rewrite <- Z.shiftl_shiftl, <- Z.shiftl_lor by done. rewrite lor_add by done. by rewrite lor_add by done.
Qed.

Lemma q_ranges a b :
  is_byte a -> is_byte b ->
  0 <= q0 a < 32 /\ 0 <= q1 a b < 32 /\ 0 <= q2 a < 32 /\ 0 <= q3 a b < 32 /\ 0 <= q4 a b < 32 /\ 0 <= q5 a < 32 /\
  0 <= q6 a b < 32 /\ 0 <= q7 a < 32.
Proof. intros Ha Hb. unfold q0, q1, q2, q3, q4, q5, q6, q7. ranges. split_and!; mlia. Qed.

Lemma back0 a b : is_byte a -> is_byte b -> u8 (Z.lor (Z.shiftl (q0 a) 3) (Z.shiftr (q1 a b) 2)) = a.
Proof.
  intros Ha Hb.
  rewrite Z.shiftr_div_pow2, lor_add; [|lia | | lia].
  2:{ unfold q1. ranges. change (2 ^ 2) with 4. change (2 ^ 3) with 8. mlia. }
  unfold q0, q1, wrap. ranges. change (2 ^ 3) with 8. change (2 ^ 2) with 4. change (2 ^ 8) with 256. mlia.
Qed.

Lemma back1 a b c : is_byte a -> is_byte b -> is_byte c -> u8 (Z.lor (Z.lor (Z.shiftl (q1 a b) 6) (Z.shiftl (q2 b) 1)) (Z.shiftr (q3 b c) 4)) = b.
Proof.
  intros Ha Hb Hc.
  rewrite Z.shiftr_div_pow2 by lia. change 6 with (5 + 1). rewrite lor3; try lia.
  2:{ unfold q2. ranges. change (2 ^ 5) with 32. mlia. } 2:{ unfold q3. ranges. change (2 ^ 4) with 16. change (2 ^ 1) with 2. mlia. }
  unfold q1, q2, q3, wrap. ranges. change (2 ^ 5) with 32. change (2 ^ 4) with 16. change (2 ^ 1) with 2. change (2 ^ 8) with 256. mlia.
Qed.

Lemma back2 b c d : is_byte b -> is_byte c -> is_byte d -> u8 (Z.lor (Z.shiftl (q3 b c) 4) (Z.shiftr (q4 c d) 1)) = c.
Proof.
  intros Hb Hc Hd.
  rewrite Z.shiftr_div_pow2, lor_add; [|lia | | lia].
  2:{ unfold q4. ranges. change (2 ^ 1) with 2. change (2 ^ 4) with 16. mlia. }
  unfold q3, q4, wrap. ranges. change (2 ^ 4) with 16. change (2 ^ 1) with 2. change (2 ^ 8) with 256. mlia.
Qed.

Lemma back3 c d e : is_byte c -> is_byte d -> is_byte e -> u8 (Z.lor (Z.lor (Z.shiftl (q4 c d) 7) (Z.shiftl (q5 d) 2)) (Z.shiftr (q6 d e) 3)) = d.
Proof.
  intros Hc Hd He.
  rewrite Z.shiftr_div_pow2 by lia. change 7 with (5 + 2). rewrite lor3; try lia.
  2:{ unfold q5. ranges. change (2 ^ 5) with 32. mlia. } 2:{ unfold q6. ranges. change (2 ^ 3) with 8. change (2 ^ 2) with 4. mlia. }
  unfold q4, q5, q6, wrap. ranges. change (2 ^ 5) with 32. change (2 ^ 3) with 8. change (2 ^ 2) with 4. change (2 ^ 8) with 256. mlia.
Qed.

Lemma back4 d e : is_byte d -> is_byte e -> u8 (Z.lor (Z.shiftl (q6 d e) 5) (q7 e)) = e.
Proof.
  intros Hd He.
  rewrite lor_add; [|lia | unfold q7; ranges; change (2 ^ 5) with 32; mlia].
  unfold q6, q7, wrap. ranges. change (2 ^ 5) with 32. change (2 ^ 8) with 256. mlia.
Qed.

Lemma dput_ok out left v : 0 < left -> dput (out, left) v = (out ++ [u8 v], left - 1).
Proof. intros H. unfold dput. cbn [fst snd]. case_cmp; [lia | done]. Qed.

(** The characters of the goal that come from quintets. *)
Ltac quintet q := destruct (e32_facts q) as (?Hv & ?Hi & ?He);
  [first [by apply (q_ranges _ 0) | match goal with H : is_byte ?x, H' : is_byte ?y |- _ => by apply (q_ranges x y) end]
  | repeat match goal with
    | H : b32 (e32 q) = _ |- _ => rewrite ?H; clear H
    | H : isbase32 (e32 q) = _ |- _ => rewrite ?H; clear H
    | H : (e32 q =? 61) = _ |- _ => rewrite ?H; clear H
    end].

(** A group decodes to its bytes. *)
Lemma decode_group l rest n out left :
  is_bytes l -> l <> [] -> 8 <= n -> Z.of_nat (length (take 5 l)) <= left ->
  decode_8 (group l ++ rest) n (out, left) = Done (true, (out ++ take 5 l, left - Z.of_nat (length (take 5 l)))).
Proof.
  intros Hl Hne Hn Hleft. pose proof is_byte_0 as H0. unfold decode_8. case_cmp; [lia |].
  destruct l as [|a [|b [|c [|d [|e r]]]]]; [done | ..]; split_bytes; cbn [group app take length] in *;
    repeat match goal with |- context [e32 ?q] => quintet q end; cbn [negb orb Z.eqb Pos.eqb];
    rewrite !dput_ok by (cbn [fst snd]; lia);
    rewrite ?back0, ?back1, ?back2, ?back3, ?back4 by done; rewrite ?take_0, <- ?app_assoc; cbn [app length]; do 3 f_equal; lia.
Qed.

Lemma decode_run_base32 fuel l out left :
  is_bytes l -> (length l <= fuel)%nat -> Z.of_nat (length l) <= left ->
  let o := (out ++ l, left - Z.of_nat (length l)) in
  decode_run fuel (base32 l) (out, left) = Done ([], o, o).
Proof.
  revert l out left. induction fuel as [|fuel IH]; intros l out left Hl Hf Hleft;
    (destruct (decide (l = [])) as [->|Hne]; [cbn; by rewrite app_nil_r, Z.sub_0_r |]).
  { destruct l; cbn [length] in Hf; [done | lia]. }
  cbn [decode_run]. rewrite (base32_cons l Hne). pose proof (length_group l Hne) as Hg.
  rewrite decode_group; [| done | done | rewrite length_app, Hg; lia | rewrite length_take; lia]. cbn [obind fst snd negb].
  rewrite <- Hg at 1. rewrite drop_app_length. rewrite IH.
  - rewrite <- app_assoc, take_drop, length_take, length_drop. cbn zeta. do 2 f_equal; [f_equal |]; f_equal; lia.
  - by apply Forall_drop.
  - rewrite length_drop. destruct l; [done | cbn [length] in *; lia].
  - rewrite length_take, length_drop. lia.
Qed.

Lemma base32_long l : (length l <= length (base32 l))%nat.
Proof.
  pose proof (length_base32 l) as H. unfold BASE32_LENGTH in H.
  assert (Z.of_nat (length l) <= Z.of_nat (length (base32 l))); [rewrite H; mlia | lia].
Qed.

(** What [shbase32_encode] wrote decodes to the same bytes, without a
    context, whenever the output has room for them. *)
Theorem shbase32_roundtrip (data : bytes) (outlen : Z) :
  is_bytes data -> Z.of_nat (length data) <= outlen ->
  exists txt, shbase32_encode data (Z.of_nat (length data)) (BASE32_LENGTH (Z.of_nat (length data)) + 1) = Done (txt ++ [0]) /\
    shbase32_decode txt outlen = Done (true, data).
Proof.
  intros Hb Ho. exists (base32 data). pose proof (length_base32 data) as Hl. split.
  - rewrite base32_encode_ok by (done || lia). rewrite take_ge by lia. case_cmp; [done | lia].
  - unfold shbase32_decode, shbase32_decode_ctx. cbn [ctx_loop]. change ((0 =? 0) && negb false) with true. cbn iota.
    rewrite decode_run_base32 by (done || apply base32_long). done.
Qed.

Lemma shbase32_roundtrip_witness :
  exists txt, shbase32_encode (cstr "foobar") 6 17 = Done (txt ++ [0]) /\ shbase32_decode txt 6 = Done (true, cstr "foobar").
Proof. apply (shbase32_roundtrip (cstr "foobar") 6); [byte_literal | discriminate]. Defined.

(** Output space is respected. *)
Definition fits_out (outlen : Z) (o : bytes * Z) : Prop := 0 <= snd o /\ Z.of_nat (length (fst o)) + snd o = outlen.

Lemma dput_fits n o v : fits_out n o -> fits_out n (dput o v).
Proof.
  intros [H1 H2]. unfold dput, fits_out. case_cmp; [done |]. cbn [fst snd]. rewrite length_app. cbn [length]. lia.
Qed.

Lemma decode_8_total input o n :
  fits_out n o -> exists b o', decode_8 input (Z.of_nat (length input)) o = Done (b, o') /\ fits_out n o' /\
    (b = true -> (8 <= length input)%nat).
Proof.
  intros Ho. unfold decode_8. case_cmp as [Hlt|Hge]; [by exists false, o |].
  destruct input as [|c0 [|c1 [|c2 [|c3 [|c4 [|c5 [|c6 [|c7 r]]]]]]]]; cbn [length] in Hge; try lia.
  assert (8 <= length (c0 :: c1 :: c2 :: c3 :: c4 :: c5 :: c6 :: c7 :: r))%nat as H8 by (cbn [length]; lia).
  repeat match goal with
  | |- context [if ?b then _ else _] => destruct b
  end; eexists _, _; (split; [reflexivity |]); (split; [repeat apply dput_fits; done | done]).
Qed.

(** Whether a group decodes does not depend on the output. *)
Lemma decode_8_indep input n o o' b o1 :
  decode_8 input n o = Done (b, o1) -> exists o2, decode_8 input n o' = Done (b, o2).
Proof.
  unfold decode_8. destruct (n <? 8); [intros [= <- <-]; by eexists |].
  destruct input as [|c0 [|c1 [|c2 [|c3 [|c4 [|c5 [|c6 [|c7 r]]]]]]]]; try done.
  repeat match goal with |- context [if ?c then Done _ else _] => destruct c; [intros [= <- <-]; by eexists |]
  | |- context [if ?c then (if _ then _ else _) else _] => destruct c
  end; intros [= <- <-]; by eexists.
Qed.

Lemma decode_run_total fuel input o n :
  fits_out n o -> (length input <= fuel)%nat ->
  exists input' o1 o2, decode_run fuel input o = Done (input', o1, o2) /\ fits_out n o1 /\ fits_out n o2 /\
    (forall o', exists o'', decode_8 input' (Z.of_nat (length input')) o' = Done (false, o'')).
Proof.
  revert input o. induction fuel as [|fuel IH]; intros input o Ho Hf; cbn [decode_run];
    destruct (decode_8_total input o n Ho) as (b & o' & E & Ho' & Hb); rewrite E; cbn [obind fst snd].
  - destruct b; [specialize (Hb eq_refl); lia |]. cbn [negb]. exists input, o', o. split_and!; try done.
    destruct input; [|cbn [length] in Hf; lia]. intros o2. by exists o2.
  - destruct b; cbn [negb].
    + apply IH; [done |]. rewrite length_drop. specialize (Hb eq_refl). lia.
    + exists input, o', o. split_and!; try done. intros o2. by apply (decode_8_indep _ _ o _ _ o').
Qed.

(** Without a context, [shbase32_decode] always returns, whatever the text
    and the size of the output: it never reads past the text, writes at most
    [outlen] bytes, and its loop needs no more than two rounds. *)
Theorem shbase32_decode_total (input : bytes) (outlen : Z) :
  0 <= outlen -> exists ok out, shbase32_decode input outlen = Done (ok, out) /\ Z.of_nat (length out) <= outlen.
Proof.
  intros Ho. unfold shbase32_decode, shbase32_decode_ctx. cbn [ctx_loop]. change ((0 =? 0) && negb false) with true. cbn iota.
  assert (fits_out outlen ([], outlen)) as H0 by (split; cbn; lia).
  destruct (decode_run_total (length input) input ([], outlen) outlen H0 ltac:(lia)) as (rest & o1 & o2 & -> & [H1 H1'] & [H2 H2'] & Hstop).
  cbn [obind negb]. rewrite andb_true_r. destruct (Z.eqb_spec (Z.of_nat (length rest)) 0) as [E0|E0].
  { eexists _, _. split; [reflexivity |]. cbn [fst snd]. lia. }
  destruct (Hstop o2) as (o3 & E). destruct (decode_8_total rest o2 outlen (conj H2 H2')) as (b & o4 & E' & [H4 H4'] & _).
  rewrite E in E'. injection E' as <- <-.
  replace (match rest with c :: _ => false | [] => false end) with false by (by destruct rest). cbn [obind orb].
  rewrite andb_false_r. cbn [orb obind]. rewrite E. cbn [obind fst snd negb]. eexists _, _. split; [reflexivity | lia].
Qed.

Lemma shbase32_decode_total_witness :
  exists ok out, shbase32_decode (cstr "MZ!") 2 = Done (ok, out) /\ Z.of_nat (length out) <= 2.
Proof. apply (shbase32_decode_total (cstr "MZ!") 2). discriminate. Defined.
