(* ===== verification/ShCrypto.v ===== *)
(** * The TEA cipher and the encryption envelopes

    Models [share-lib/mem/shmem_crypto.c] up to the version 0 format: the
    block cipher, the chunked encryption into a buffer, the in-place and the
    allocating envelopes (magic number, length, whole blocks encrypted), their
    string and base64 variants and [_shencrypt_v0].

    The byte arrays the code casts to [uint32_t] arrays are read and written
    little-endian; every access outside an array is a [Fault].  The key is the
    array of words the caller passes.  [calloc] of the buffer structure in
    [shbuf_init] succeeds; the allocations of the buffer contents are those of
    the environment of ShBuf. *)

From Stdlib Require Import ZArith Lia String.
From stdpp Require Import base numbers list.
From S2P Require Import Prelude ShKey ShBuf ShBase64.

Open Scope Z_scope.

(** ** The block cipher *)

Definition delta : Z := 2654435769.
Definition ROUNDS : nat := 32.

(** [((v << 4) + ka) ^ (v + sum) ^ ((v >> 5) + kb)]. *)
Definition mix (v sum ka kb : Z) : Z :=
  Z.lxor (Z.lxor (u32 (u32 (Z.shiftl v 4) + ka)) (u32 (v + sum))) (u32 (Z.shiftr v 5 + kb)).

Record key128 : Type := mk_key128 { k0 : Z; k1 : Z; k2 : Z; k3 : Z }.

(** [k[0]] to [k[3]] of the array at word [k_of]. *)
Definition cache_key (k : list Z) (k_of : nat) : outcome key128 :=
  match drop k_of k with
  | a :: b :: c :: d :: _ => Done (mk_key128 a b c d)
  | _ => Fault
  end.

Fixpoint encrypt_cycles (i : nat) (k : key128) (sum v0 v1 : Z) : Z * Z :=
  match i with
  | O => (v0, v1)
  | S i' =>
      let sum := u32 (sum + delta) in
      let v0 := u32 (v0 + mix v1 sum (k0 k) (k1 k)) in
      let v1 := u32 (v1 + mix v0 sum (k2 k) (k3 k)) in
      encrypt_cycles i' k sum v0 v1
  end.

Fixpoint decrypt_cycles (i : nat) (k : key128) (sum v0 v1 : Z) : Z * Z :=
  match i with
  | O => (v0, v1)
  | S i' =>
      let v1 := u32 (v1 - mix v0 sum (k2 k) (k3 k)) in
      let v0 := u32 (v0 - mix v1 sum (k0 k) (k1 k)) in
      decrypt_cycles i' k (u32 (sum - delta)) v0 v1
  end.

(** The two words at byte [off] of [mem], replaced by [f] of them. *)
Definition on_words (f : Z -> Z -> Z * Z) (mem : bytes) (off : nat) : outcome bytes :=
  a <-! mem_read mem off 4;
  b <-! mem_read mem (off + 4) 4;
  let v := f (of_le a) (of_le b) in
  mem <-! mem_write mem off (le_bytes 4 (fst v));
  mem_write mem (off + 4) (le_bytes 4 (snd v)).

Definition TEA_encrypt (mem : bytes) (off : nat) (k : list Z) (k_of : nat) : outcome bytes :=
  key <-! cache_key k k_of;
  on_words (encrypt_cycles ROUNDS key 0) mem off.

Definition TEA_decrypt (mem : bytes) (off : nat) (k : list Z) (k_of : nat) : outcome bytes :=
  key <-! cache_key k k_of;
  on_words (decrypt_cycles ROUNDS key 3337565984) mem off.

(** ** Chunks into a buffer *)

Definition SHENCRYPT_BLOCK_SIZE : Z := 8.

Definition chunks (data_len : Z) : Z := data_len / 8 + (if data_len mod 8 =? 0 then 0 else 1).

(** [(j % k_len) * 4]; [j] and [i] are the same [int]. *)
Definition key_of (j k_len : Z) : outcome nat :=
  if k_len =? 0 then Fault else Done (Z.to_nat (j mod k_len * 4)).

Section chunked.
Context (E : env).

Fixpoint encrypt_loop (n : nat) (i : Z) (k : list Z) (k_len : Z) (data : bytes) (data_len : Z)
    (buff : shbuf_t) : outcome shbuf_t :=
  match n with
  | O => Done buff
  | S n' =>
      if INT_MAX <? 8 * i then Fault
      else
        let b_of := 8 * i in
        let len := Z.min SHENCRYPT_BLOCK_SIZE (u64 (data_len - b_of)) in
        src <-! mem_read data (Z.to_nat b_of) (Z.to_nat len);
        chunk <-! mem_write (replicate 8 0) 0 src;
        k_of <-! key_of i k_len;
        chunk <-! TEA_encrypt chunk 0 k k_of;
        buff <-! shbuf_cat E buff chunk;
        encrypt_loop n' (i + 1) k k_len data data_len buff
  end.

(** [data] is [None] for NULL. *)
Definition shencrypt_bin (buff : shbuf_t) (k : list Z) (k_len : Z) (data : option bytes) (data_len : Z)
    : outcome (shbuf_t * Z) :=
  match data with
  | None => Done (buff, SHERR_INVAL)
  | Some d =>
      buff <-! encrypt_loop (Z.to_nat (chunks data_len)) 0 k k_len d data_len buff;
      Done (buff, 0)
  end.

(** Reads eight bytes for every chunk, the last one included. *)
Fixpoint decrypt_loop (n : nat) (i : Z) (k : list Z) (k_len : Z) (data : bytes) (data_len : Z)
    (buff : shbuf_t) : outcome shbuf_t :=
  match n with
  | O => Done buff
  | S n' =>
      if INT_MAX <? 8 * i then Fault
      else
        v <-! mem_read data (Z.to_nat (8 * i)) 8;
        k_of <-! key_of i k_len;
        v <-! TEA_decrypt v 0 k k_of;
        buff <-! shbuf_cat E buff (take (Z.to_nat (Z.min SHENCRYPT_BLOCK_SIZE (u64 (data_len - 8 * i)))) v);
        decrypt_loop n' (i + 1) k k_len data data_len buff
  end.

Definition shdecrypt_bin (buff : shbuf_t) (k : list Z) (k_len : Z) (data : option bytes) (data_len : Z)
    : outcome (shbuf_t * Z) :=
  match data with
  | None => Done (buff, SHERR_INVAL)
  | Some d =>
      buff <-! decrypt_loop (Z.to_nat (chunks data_len)) 0 k k_len d data_len buff;
      Done (buff, 0)
  end.

End chunked.

(** ** Whole blocks in place *)

Fixpoint each_block (f : bytes -> nat -> outcome bytes) (blocks : nat) (data : bytes) (off : nat) : outcome bytes :=
  match blocks with
  | O => Done data
  | S n => data <-! f data off; each_block f n data (off + 8)
  end.

(** [data + base] of the allocation [data]. *)
Definition TEA_encrypt_data (data : bytes) (base : nat) (len : Z) (key : list Z) : outcome bytes :=
  each_block (fun d off => TEA_encrypt d off key 0) (Z.to_nat (len / 8)) data base.

Definition TEA_decrypt_data (data : bytes) (base : nat) (len : Z) (key : list Z) : outcome bytes :=
  each_block (fun d off => TEA_decrypt d off key 0) (Z.to_nat (len / 8)) data base.

(** ** The envelope *)

Definition _crypt_magic : bytes := le_bytes 4 SHMEM32_MAGIC.
Definition CRYPT_HEADER_SIZE : Z := 8.
Definition SHMEM_PAD_SIZE : Z := 32.

Definition IS_CRYPT_MAGIC (data : bytes) : outcome bool :=
  m <-! mem_read data 0 4; Done (bool_decide (m = _crypt_magic)).

Definition GET_CRYPT_LENGTH (data : bytes) : outcome Z := m <-! mem_read data 4 4; Done (of_le m).

(** The allocation, the new [*data_len_p] and the result. *)
Definition ashencode (data : bytes) (data_len_p : Z) (key : shkey_t) : outcome (bytes * Z * Z) :=
  let l := u32 data_len_p in
  if l <? 8 then Done (data, data_len_p, 0)
  else
    m <-! IS_CRYPT_MAGIC data;
    if m then Done (data, data_len_p, 0)
    else
      src <-! mem_read data 0 (Z.to_nat l);
      data <-! mem_write data 8 src;
      data <-! mem_write data 0 _crypt_magic;
      data <-! mem_write data 4 (le_bytes 4 l);
      data <-! TEA_encrypt_data data 8 l (code key);
      Done (data, l + CRYPT_HEADER_SIZE, 0).

Definition ashdecode (data : bytes) (data_len_p : Z) (key : shkey_t) : outcome (bytes * Z * Z) :=
  let data_len := u32 data_len_p in
  if data_len <? 8 then Done (data, data_len_p, 0)
  else
    m <-! IS_CRYPT_MAGIC data;
    if negb m then Done (data, data_len_p, 0)
    else
      n <-! GET_CRYPT_LENGTH data;
      let data_len := u32 (data_len - CRYPT_HEADER_SIZE) in
      src <-! mem_read data 8 (Z.to_nat data_len);
      data <-! mem_write data 0 src;
      data <-! TEA_decrypt_data data 0 data_len (code key);
      Done (data, n, 0).

(** What the allocating variants hand to the caller: the results stay unset
    ([None]) when the function returns early. *)
Definition outputs : Type := option (option bytes * Z).

Section envelopes.
Context (E : env).

Definition shencode (data : bytes) (data_len : Z) (key : shkey_t) : outcome (outputs * Z) :=
  let l := u32 data_len in
  if data_len <? 8 then
    src <-! mem_read data 0 (Z.to_nat data_len);
    buf <-! shbuf_cat E shbuf_init src;
    Done (Some (ShBuf.data buf, data_len), 0)
  else
    m <-! IS_CRYPT_MAGIC data;
    if m then Done (None, 0)
    else
      buf <-! shbuf_cat E shbuf_init _crypt_magic;
      buf <-! shbuf_cat E buf (le_bytes 4 l);
      src <-! mem_read data 0 (Z.to_nat l);
      buf <-! shbuf_cat E buf src;
      r <-! shbuf_grow E buf (CRYPT_HEADER_SIZE + l + SHMEM_PAD_SIZE);
      let buf := fst r in
      let l := u32 (u64 (u32 (data_of buf) - CRYPT_HEADER_SIZE)) in
      match ShBuf.data buf with
      | None => Fault
      | Some d =>
          d <-! TEA_encrypt_data d 8 l (code key);
          Done (Some (Some d, data_of buf), 0)
      end.

Definition shdecode (data : bytes) (data_len : Z) (key : shkey_t) : outcome (outputs * Z) :=
  let l := u32 data_len in
  if l <? 8 then
    src <-! mem_read data 0 (Z.to_nat l);
    buf <-! shbuf_cat E shbuf_init src;
    Done (Some (ShBuf.data buf, data_of buf), 0)
  else
    m <-! IS_CRYPT_MAGIC data;
    if negb m then Done (None, 0)
    else
      dec_len <-! GET_CRYPT_LENGTH data;
      src <-! mem_read data 8 (Z.to_nat (l - CRYPT_HEADER_SIZE));
      buf <-! shbuf_cat E shbuf_init src;
      let l := u32 (data_of buf) in
      match ShBuf.data buf with
      | None => Fault
      | Some d =>
          d <-! TEA_decrypt_data d 0 l (code key);
          Done (Some (Some d, dec_len), 0)
      end.

(** The key is made of the text before it is encrypted; [ashencode] never
    reports an error. *)
Definition shencode_str (data : bytes) : outcome (bytes * option shkey_t) :=
  let key := shkey_str (Some data) in
  let len := Z.of_nat (length (cstring data)) + 1 in
  r <-! ashencode data len key;
  let '(data, _, err) := r in
  if err =? 0 then Done (data, Some key) else Done (data, None).

Definition shdecode_str (data : bytes) (key : shkey_t) : outcome (bytes * Z) :=
  n <-! GET_CRYPT_LENGTH data;
  r <-! ashdecode data (n + CRYPT_HEADER_SIZE) key;
  let '(data, _, err) := r in Done (data, err).

(** Using an output that was left unset, or encoding from a NULL pointer, is
    undefined. *)
Definition shencode_b64 (alloc_ok : bool) (data : bytes) (data_len : Z) (key : shkey_t) : outcome (option bytes * Z) :=
  r <-! shencode data data_len key;
  let '(out, err) := r in
  if negb (err =? 0) then Done (None, err)
  else match out with
       | Some (Some enc_data, enc_data_len) => shbase64_encode alloc_ok enc_data enc_data_len
       | _ => Fault
       end.

Definition shdecode_b64 (alloc_ok : bool) (in_data : bytes) (key : shkey_t) : outcome (outputs * Z) :=
  r <-! shbase64_decode alloc_ok in_data;
  let '(out, err) := r in
  if negb (err =? 0) then Done (None, err)
  else match out with
       | Some (enc_data, enc_data_len) => shdecode enc_data (u32 enc_data_len) key
       | None => Fault
       end.

(** ** The version 0 format *)

(** [memcpy(k, key_data + 4, 16)] into [uint32_t k[8]]; the other words of [k]
    are never read. *)
Definition v0_key (key_data : bytes) : outcome (list Z) :=
  b <-! mem_read key_data 4 16;
  Done [of_le (take 4 b); of_le (take 4 (drop 4 b)); of_le (take 4 (drop 8 b)); of_le (take 4 (drop 12 b))].

Definition _shencrypt_v0 (out_buff : shbuf_t) (data : bytes) (data_len : Z) (key_data : bytes) (key_len : Z)
    : outcome (shbuf_t * Z) :=
  if key_len <? 20 then Done (out_buff, SHERR_INVAL)
  else
    out_buff <-! shbuf_padd E out_buff CRYPT_HEADER_SIZE;
    k <-! v0_key key_data;
    let l := u32 (data_len / 8 * 8) in
    r <-! shencrypt_bin E out_buff k 1 (Some data) l;
    let '(out_buff, err) := r in
    if negb (err =? 0) then Done (out_buff, err)
    else
      out_buff <-! (if l <? data_len then
                      src <-! mem_read data (Z.to_nat l) (Z.to_nat (data_len - l));
                      shbuf_cat E out_buff src
                    else Done out_buff);
      match ShBuf.data out_buff with
      | None => Fault
      | Some d =>
          d <-! mem_write d 0 _crypt_magic;
          d <-! mem_write d 4 (le_bytes 4 (u32 data_len));
          Done (mk_buf (Some d) (data_of out_buff) (data_max out_buff) (data_pos out_buff) (flags out_buff) (fd out_buff), 0)
      end.

Definition _shdecrypt_v0 (out_buff : shbuf_t) (data : bytes) (data_len : Z) (key_data : bytes) (key_len : Z)
    : outcome (shbuf_t * Z) :=
  if key_len <? 20 then Done (out_buff, SHERR_INVAL)
  else if data_len <? CRYPT_HEADER_SIZE then Done (out_buff, SHERR_INVAL)
  else
    magic <-! mem_read data 0 4;
    if negb (of_le magic =? SHMEM32_MAGIC) then Done (out_buff, SHERR_INVAL)
    else
      size <-! GET_CRYPT_LENGTH data;
      if data_len - CRYPT_HEADER_SIZE <? size then Done (out_buff, SHERR_INVAL)
      else
        k <-! v0_key key_data;
        let l := u32 ((data_len - CRYPT_HEADER_SIZE) / 8 * 8) in
        let data := drop 8 data in
        r <-! shdecrypt_bin E out_buff k 1 (Some data) l;
        let '(out_buff, err) := r in
        if negb (err =? 0) then Done (out_buff, err)
        else if l <? size then
          src <-! mem_read data (Z.to_nat l) (Z.to_nat (size - l));
          out_buff <-! shbuf_cat E out_buff src;
          Done (out_buff, 0)
        else Done (out_buff, 0).

End envelopes.

(** ** Decryption inverts encryption *)

Definition words_ok (v : Z * Z) : Prop := is_uint 32 (fst v) /\ is_uint 32 (snd v).

Lemma sub_add_cancel v m : is_uint 32 v -> u32 (u32 (v + m) - m) = v.
Proof. intros H. rewrite wrap_sub_l. replace (v + m - m) with v by lia. by apply wrap_small. Qed.

Lemma cycles_ok n k sum v0 v1 :
  is_uint 32 v0 -> is_uint 32 v1 -> words_ok (encrypt_cycles n k sum v0 v1) /\ words_ok (decrypt_cycles n k sum v0 v1).
Proof.
  revert sum v0 v1. assert (forall z, is_uint 32 (u32 z)) as Hu by (intros; by apply wrap_range).
  induction n as [|n IH]; intros sum v0 v1 H0 H1; [by split |].
  cbn [encrypt_cycles decrypt_cycles]. split; apply IH; apply Hu.
Qed.

(** One more decryption cycle at the end. *)
Lemma decrypt_cycles_last n k sum v0 v1 :
  decrypt_cycles (S n) k sum v0 v1 =
    let v := decrypt_cycles n k sum v0 v1 in
    decrypt_cycles 1 k (u32 (sum - Z.of_nat n * delta)) (fst v) (snd v).
Proof.
  revert sum v0 v1. induction n as [|n IH]; intros sum v0 v1.
  - cbn [decrypt_cycles fst snd]. f_equal; f_equal; f_equal; unfold mix; rewrite ?wrap_add_r; repeat f_equal; lia.
  - cbn [decrypt_cycles] in IH |- *. cbv zeta in *. rewrite IH. cbn [fst snd].
    rewrite wrap_sub_l. replace (sum - delta - Z.of_nat n * delta) with (sum - Z.of_nat (S n) * delta) by lia. reflexivity.
Qed.

Lemma decrypt_encrypt_cycles n k sum v0 v1 :
  is_uint 32 v0 -> is_uint 32 v1 ->
  let v := encrypt_cycles n k sum v0 v1 in
  decrypt_cycles n k (u32 (sum + Z.of_nat n * delta)) (fst v) (snd v) = (v0, v1).
Proof.
  revert sum v0 v1. induction n as [|n IH]; intros sum v0 v1 H0 H1; [done |].
  cbv zeta. rewrite decrypt_cycles_last. cbn [encrypt_cycles]. cbv zeta in *.
  specialize (IH (u32 (sum + delta)) (u32 (v0 + mix v1 (u32 (sum + delta)) (k0 k) (k1 k)))
    (u32 (v1 + mix (u32 (v0 + mix v1 (u32 (sum + delta)) (k0 k) (k1 k))) (u32 (sum + delta)) (k2 k) (k3 k)))).
  rewrite wrap_add_l in IH. replace (sum + delta + Z.of_nat n * delta) with (sum + Z.of_nat (S n) * delta) in IH by lia.
  rewrite IH by (by apply wrap_range). cbn [fst snd decrypt_cycles].
  rewrite (wrap_sub_l 32 (sum + _)). replace (sum + Z.of_nat (S n) * delta - Z.of_nat n * delta) with (sum + delta) by lia.
  by rewrite !sub_add_cancel.
Qed.

(** ** Blocks as byte strings *)

Definition block_of (f : Z -> Z -> Z * Z) (b : bytes) : bytes :=
  let v := f (of_le (take 4 b)) (of_le (take 4 (drop 4 b))) in le_bytes 4 (fst v) ++ le_bytes 4 (snd v).

Definition enc_block (k : key128) : bytes -> bytes := block_of (encrypt_cycles ROUNDS k 0).
Definition dec_block (k : key128) : bytes -> bytes := block_of (decrypt_cycles ROUNDS k 3337565984).

Lemma length_block f b : length (block_of f b) = 8%nat.
Proof. unfold block_of. by rewrite length_app, !length_le_bytes. Qed.

Lemma block_bytes f b : is_bytes (block_of f b).
Proof. apply is_bytes_app. split; apply le_bytes_bytes. Qed.

Lemma is_bytes_take n l : is_bytes l -> is_bytes (take n l).
Proof. apply Forall_take. Qed.
Lemma is_bytes_drop n l : is_bytes l -> is_bytes (drop n l).
Proof. apply Forall_drop. Qed.

Lemma word_ok b n : is_bytes b -> is_uint 32 (of_le (take 4 (drop n b))).
Proof.
  intros H. pose proof (of_le_range (take 4 (drop n b))) as Hr. unfold is_uint in *.
  destruct Hr as [H1 H2]; [by apply is_bytes_take, is_bytes_drop |]. split; [done |].
  eapply Z.lt_le_trans; [exact H2 |]. apply Z.pow_le_mono_r; [done |]. rewrite length_take. lia.
Qed.

Lemma dec_enc_block k b : is_bytes b -> length b = 8%nat -> dec_block k (enc_block k b) = b.
Proof.
  intros Hb Hl. unfold dec_block, enc_block, block_of.
  pose proof (word_ok b 0 Hb) as H0. rewrite drop_0 in H0. pose proof (word_ok b 4 Hb) as H1.
  set (a0 := of_le (take 4 b)) in *. set (a1 := of_le (take 4 (drop 4 b))) in *.
  destruct (cycles_ok ROUNDS k 0 a0 a1 H0 H1) as [[Hw0 Hw1] _].
  pose proof (decrypt_encrypt_cycles ROUNDS k 0 a0 a1 H0 H1) as Hd. cbv zeta in Hd.
  change (u32 (0 + Z.of_nat ROUNDS * delta)) with 3337565984 in Hd.
  set (v := encrypt_cycles ROUNDS k 0 a0 a1) in *.
  rewrite take_app_le, take_ge by (rewrite length_le_bytes; done).
  rewrite (drop_app_le (le_bytes 4 (fst v))), (drop_ge (le_bytes 4 (fst v))), app_nil_l, (take_ge (le_bytes 4 (snd v)))
    by (rewrite length_le_bytes; done).
  rewrite !of_le_bytes by done. rewrite Hd. cbn [fst snd]. unfold a0, a1.
  rewrite <- (take_drop 4 b) at 3. f_equal.
  - rewrite <- (le_bytes_of_le (take 4 b)) at 2 by (by apply is_bytes_take). f_equal. rewrite length_take. lia.
  - rewrite (take_ge (drop 4 b)) by (rewrite length_drop; lia).
    rewrite <- (le_bytes_of_le (drop 4 b)) at 2 by (by apply is_bytes_drop). f_equal. rewrite length_drop. lia.
Qed.

Lemma on_words_block f mem off :
  (off + 8 <= length mem)%nat ->
  on_words f mem off = Done (take off mem ++ block_of f (take 8 (drop off mem)) ++ drop (off + 8) mem).
Proof.
  intros H. unfold on_words, block_of. rewrite !mem_read_ok by lia. cbn [obind].
  rewrite take_take, <- drop_drop, skipn_firstn_comm, take_take, drop_drop. cbn [Nat.min Nat.sub].
  set (v := f _ _). rewrite mem_write_ok by (rewrite length_le_bytes; lia). cbn [obind].
  rewrite mem_write_ok by (rewrite !length_app, !length_le_bytes, length_take, length_drop; lia).
  rewrite !length_le_bytes. f_equal.
  rewrite (take_app_ge (take off mem)) by llia. rewrite length_take_le by lia.
  replace (off + 4 - off)%nat with 4%nat by lia.
  rewrite (take_app_le (le_bytes 4 (fst v))), (take_ge (le_bytes 4 (fst v))) by (by rewrite length_le_bytes).
  rewrite <- !app_assoc. do 3 f_equal.
  rewrite (drop_app_ge (take off mem)) by llia. rewrite length_take_le by lia.
  rewrite drop_app_ge by (rewrite length_le_bytes; lia). rewrite length_le_bytes, drop_drop. f_equal. lia.
Qed.

(** [n] blocks of [l] replaced by their image under [f] of the block number;
    what follows them is kept. *)
Fixpoint map_blocks (f : nat -> bytes -> bytes) (n i : nat) (l : bytes) : bytes :=
  match n with
  | O => l
  | S n' => f i (take 8 l) ++ map_blocks f n' (S i) (drop 8 l)
  end.

Lemma length_map_blocks f n i l :
  (forall i b, length (f i b) = 8%nat) -> (8 * n <= length l)%nat -> length (map_blocks f n i l) = length l.
Proof.
  intros Hf. revert i l. induction n as [|n IH]; intros i l H; [done |]. cbn [map_blocks].
  rewrite length_app, Hf, IH, length_drop by (rewrite ?length_drop; lia). lia.
Qed.

Lemma map_blocks_bytes f n i l :
  (forall i b, is_bytes (f i b)) -> is_bytes l -> is_bytes (map_blocks f n i l).
Proof.
  intros Hf. revert i l. induction n as [|n IH]; intros i l H; [done |]. cbn [map_blocks].
  apply is_bytes_app. split; [apply Hf |]. by apply IH, is_bytes_drop.
Qed.

(** Inverse functions on blocks give inverse functions on strings. *)
Lemma map_blocks_inverse f g n i l :
  (forall i b, length (f i b) = 8%nat) ->
  (forall i b, is_bytes b -> length b = 8%nat -> g i (f i b) = b) ->
  is_bytes l -> (8 * n <= length l)%nat -> map_blocks g n i (map_blocks f n i l) = l.
Proof.
  intros Hf Hg. revert i l. induction n as [|n IH]; intros i l Hb H; [done |]. cbn [map_blocks].
  rewrite take_app_le, take_ge by (rewrite Hf; done). rewrite drop_app_le, (drop_ge (f _ _)), app_nil_l by (rewrite Hf; done).
  rewrite Hg by (first [by apply is_bytes_take | rewrite length_take; lia]).
  rewrite IH by (first [by apply is_bytes_drop | rewrite length_drop; lia]). apply take_drop.
Qed.

Lemma map_blocks_shift g n i j l : map_blocks (fun _ => g) n i l = map_blocks (fun _ => g) n j l.
Proof. revert i j l. induction n as [|n IH]; intros i j l; [done |]. cbn [map_blocks]. f_equal. apply IH. Qed.

Lemma each_block_spec f g n data off :
  (forall d o, (o + 8 <= length d)%nat -> f d o = Done (take o d ++ g (take 8 (drop o d)) ++ drop (o + 8) d)) ->
  (forall b, length (g b) = 8%nat) -> (off + 8 * n <= length data)%nat ->
  each_block f n data off = Done (take off data ++ map_blocks (fun _ => g) n 0 (drop off data)).
Proof.
  intros Hf Hg. revert data off. induction n as [|n IH]; intros data off H.
  - cbn [each_block map_blocks]. by rewrite take_drop.
  - cbn [each_block map_blocks]. rewrite Hf by lia. cbn [obind].
    set (p := take off data ++ g (take 8 (drop off data))). rewrite app_assoc. fold p.
    assert (length p = (off + 8)%nat) as Hp by (unfold p; rewrite length_app, Hg, length_take; lia).
    rewrite IH by (rewrite length_app, Hp, length_drop; lia).
    rewrite take_app_le, (take_ge p), drop_app_ge by lia. rewrite Hp, Nat.sub_diag, drop_0.
    unfold p. rewrite <- app_assoc, drop_drop. do 3 f_equal. apply map_blocks_shift.
Qed.

(** The four words the cipher uses. *)
Definition key_words (k : list Z) (k_of : nat) : key128 :=
  match cache_key k k_of with Done x => x | Fault => mk_key128 0 0 0 0 end.

Lemma cache_key_ok k k_of : (k_of + 4 <= length k)%nat -> cache_key k k_of = Done (key_words k k_of).
Proof.
  intros H. unfold key_words. assert (4 <= length (drop k_of k))%nat as Hl by (rewrite length_drop; lia).
  unfold cache_key. destruct (drop k_of k) as [|a [|b [|c [|d r]]]]; cbn [length] in Hl; try lia. done.
Qed.

Lemma valid_key_length key : valid_key key -> (0 + 4 <= length (code key))%nat.
Proof. intros (_ & _ & H & _). rewrite H. unfold SHKEY_WORDS. lia. Qed.

Section data_blocks.
Context (key : shkey_t) (Hkey : valid_key key).

Let kw : key128 := key_words (code key) 0.

(** What the two loops compute on the bytes from [base] on. *)
Lemma TEA_encrypt_data_spec data base len :
  0 <= len -> Z.of_nat base + len <= Z.of_nat (length data) ->
  TEA_encrypt_data data base len (code key) =
    Done (take base data ++ map_blocks (fun _ => enc_block kw) (Z.to_nat (len / 8)) 0 (drop base data)).
Proof.
  intros H0 Hl. unfold TEA_encrypt_data. apply (each_block_spec _ (enc_block kw)).
  - intros d o Ho. unfold TEA_encrypt. rewrite cache_key_ok by (by apply valid_key_length). by apply on_words_block.
  - intros b. apply length_block.
  - mlia.
Qed.

Lemma TEA_decrypt_data_spec data base len :
  0 <= len -> Z.of_nat base + len <= Z.of_nat (length data) ->
  TEA_decrypt_data data base len (code key) =
    Done (take base data ++ map_blocks (fun _ => dec_block kw) (Z.to_nat (len / 8)) 0 (drop base data)).
Proof.
  intros H0 Hl. unfold TEA_decrypt_data. apply (each_block_spec _ (dec_block kw)).
  - intros d o Ho. unfold TEA_decrypt. rewrite cache_key_ok by (by apply valid_key_length). by apply on_words_block.
  - intros b. apply length_block.
  - mlia.
Qed.

(** The cipher text of a segment: whole blocks encrypted, the rest in clear. *)
Definition tea_text (l : bytes) : bytes := map_blocks (fun _ => enc_block kw) (length l / 8) 0 l.

Lemma length_tea_text l : length (tea_text l) = length l.
Proof.
  apply length_map_blocks; [intros; apply length_block |]. pose proof (Nat.div_mod_eq (length l) 8). lia.
Qed.

Lemma tea_text_bytes l : is_bytes l -> is_bytes (tea_text l).
Proof. apply map_blocks_bytes. intros. apply block_bytes. Qed.

Lemma map_blocks_app f n i l r :
  (8 * n <= length l)%nat -> map_blocks f n i (l ++ r) = map_blocks f n i l ++ r.
Proof.
  revert i l. induction n as [|n IH]; intros i l H; [done |]. cbn [map_blocks].
  rewrite take_app_le, drop_app_le by lia. rewrite IH by (rewrite length_drop; lia). by rewrite app_assoc.
Qed.

Lemma encrypt_segment pre l r :
  TEA_encrypt_data (pre ++ l ++ r) (length pre) (Z.of_nat (length l)) (code key) = Done (pre ++ tea_text l ++ r).
Proof.
  rewrite TEA_encrypt_data_spec by (rewrite ?length_app; lia). rewrite take_app_length, drop_app_length.
  do 2 f_equal. change 8 with (Z.of_nat 8). rewrite <- Nat2Z.inj_div, Nat2Z.id. apply map_blocks_app.
  pose proof (Nat.div_mod_eq (length l) 8). lia.
Qed.

Lemma decrypt_segment pre l r :
  is_bytes l ->
  TEA_decrypt_data (pre ++ tea_text l ++ r) (length pre) (Z.of_nat (length l)) (code key) = Done (pre ++ l ++ r).
Proof.
  intros Hb. pose proof (Nat.div_mod_eq (length l) 8). pose proof (length_tea_text l) as Hl.
  rewrite TEA_decrypt_data_spec by (rewrite ?length_app, ?Hl; lia). rewrite take_app_length, drop_app_length.
  do 2 f_equal. change 8 with (Z.of_nat 8). rewrite <- Nat2Z.inj_div, Nat2Z.id.
  rewrite map_blocks_app by (rewrite Hl; lia). f_equal.
  apply map_blocks_inverse; [intros; apply length_block | | done | lia]. intros _ b Hbb Hlb. by apply dec_enc_block.
Qed.

End data_blocks.

(** ** The envelope *)

Definition crypt_header (l : bytes) : bytes := _crypt_magic ++ le_bytes 4 (Z.of_nat (length l)).
Definition envelope (key : shkey_t) (l : bytes) : bytes := crypt_header l ++ tea_text key l.

(** Text the envelope functions take for already encrypted. *)
Definition looks_encrypted (l : bytes) : bool := bool_decide (take 4 l = _crypt_magic).

Lemma length_crypt_header l : length (crypt_header l) = 8%nat.
Proof. reflexivity. Qed.

Lemma length_envelope key l : length (envelope key l) = (8 + length l)%nat.
Proof. unfold envelope. by rewrite length_app, length_crypt_header, length_tea_text. Qed.

Lemma is_magic_spec d : (4 <= length d)%nat -> IS_CRYPT_MAGIC d = Done (looks_encrypted d).
Proof. intros H. unfold IS_CRYPT_MAGIC. by rewrite mem_read_ok by lia. Qed.

Lemma looks_app l r : (4 <= length l)%nat -> looks_encrypted (l ++ r) = looks_encrypted l.
Proof. intros H. unfold looks_encrypted. by rewrite take_app_le by lia. Qed.

Lemma envelope_magic key l r : IS_CRYPT_MAGIC (envelope key l ++ r) = Done true.
Proof. rewrite is_magic_spec by (rewrite length_app, length_envelope; lia). reflexivity. Qed.

Lemma envelope_length key l r :
  Z.of_nat (length l) < 2 ^ 32 -> GET_CRYPT_LENGTH (envelope key l ++ r) = Done (Z.of_nat (length l)).
Proof.
  intros H. unfold GET_CRYPT_LENGTH. rewrite mem_read_ok by (rewrite length_app, length_envelope; lia).
  cbn [obind]. f_equal. unfold envelope, crypt_header. rewrite <- !app_assoc.
  change 4%nat with (length _crypt_magic) at 2. rewrite drop_app_length.
  rewrite take_app_le, take_ge by (rewrite length_le_bytes; done). apply of_le_bytes. split; [lia | done].
Qed.

Lemma drop_envelope key l r : drop 8 (envelope key l ++ r) = tea_text key l ++ r.
Proof. unfold envelope. rewrite <- app_assoc. change 8%nat with (length (crypt_header l)). apply drop_app_length. Qed.

Lemma ashencode_ok key txt room :
  valid_key key -> 8 <= Z.of_nat (length txt) < 2 ^ 32 -> (8 <= length room)%nat -> looks_encrypted txt = false ->
  ashencode (txt ++ room) (Z.of_nat (length txt)) key =
    Done (envelope key txt ++ drop 8 room, Z.of_nat (length txt) + 8, 0).
Proof.
  intros Hk Hl Hr Hm. unfold ashencode. rewrite wrap_small by rlia. case_cmp; [lia |].
  rewrite is_magic_spec by (rewrite length_app; lia). cbn [obind]. rewrite looks_app, Hm by lia.
  rewrite mem_read_ok by (rewrite length_app; lia). cbn [obind]. rewrite drop_0, Nat2Z.id, take_app_length.
  rewrite mem_write_ok by (rewrite length_app; lia). cbn [obind].
  set (body := txt ++ drop _ _). assert (length (take 8 (txt ++ room)) = 8%nat) as Ht by (rewrite length_take, length_app; lia).
  rewrite mem_write_ok by (rewrite length_app, Ht; cbn [length _crypt_magic]; unfold _crypt_magic; rewrite length_le_bytes; lia).
  cbn [obind]. rewrite take_0, app_nil_l. change (0 + length _crypt_magic)%nat with 4%nat.
  rewrite drop_app_le by lia. rewrite mem_write_ok
    by (rewrite !length_app, length_le_bytes, length_drop, Ht; unfold _crypt_magic; rewrite length_le_bytes; lia).
  cbn [obind]. rewrite length_le_bytes. change 4%nat with (length _crypt_magic) at 1. rewrite take_app_length.
  change (4 + 4)%nat with (length _crypt_magic + 4)%nat. rewrite drop_app_add.
  rewrite drop_app_ge by (rewrite length_drop, Ht; lia). rewrite length_drop, Ht. cbn [Nat.sub]. rewrite drop_0.
  unfold body. rewrite app_assoc. fold (crypt_header txt).
  change 8%nat with (length (crypt_header txt)) at 1. rewrite encrypt_segment by done. cbn [obind].
  unfold envelope. rewrite <- app_assoc. by rewrite (Nat.add_comm 8), drop_app_add.
Qed.

Lemma ashdecode_ok key txt r :
  valid_key key -> is_bytes txt -> Z.of_nat (length txt) + 8 < 2 ^ 32 ->
  ashdecode (envelope key txt ++ r) (Z.of_nat (length txt) + 8) key =
    Done (txt ++ drop (length txt) (envelope key txt ++ r), Z.of_nat (length txt), 0).
Proof.
  intros Hk Hb Hl. unfold ashdecode. rewrite wrap_small by rlia. case_cmp; [lia |].
  rewrite envelope_magic. cbn [obind negb]. rewrite envelope_length by lia. cbn [obind].
  change CRYPT_HEADER_SIZE with 8. rewrite Z.add_simpl_r, wrap_small by rlia.
  rewrite mem_read_ok by (rewrite length_app, length_envelope; lia). cbn [obind].
  rewrite drop_envelope, Nat2Z.id, take_app_le, take_ge by (rewrite length_tea_text; done).
  rewrite mem_write_ok by (rewrite length_app, length_envelope, length_tea_text; lia). cbn [obind].
  rewrite take_0, app_nil_l, length_tea_text.
  pose proof (decrypt_segment key Hk [] txt (drop (0 + length txt) (envelope key txt ++ r)) Hb) as Hd.
  cbn [app length] in Hd. by rewrite Hd.
Qed.

(** ** The allocating variants *)

Section allocating.
Context (E : env) (Hcalloc : forall n, calloc_ok E n = true).

Lemma data_split buf :
  wf buf -> 0 < data_max buf -> exists tail, ShBuf.data buf = Some (contents buf ++ tail).
Proof.
  intros [H1 H2] Hm. unfold contents. destruct (ShBuf.data buf) as [d|]; [|lia].
  exists (drop (Z.to_nat (data_of buf)) d). by rewrite take_drop.
Qed.

(** The first append to a new buffer allocates. *)
Lemma cat_init src :
  Z.of_nat (length src) + 1 <= GROW_LIMIT ->
  exists buf tail, shbuf_cat E shbuf_init src = Done buf /\ ShBuf.data buf = Some (src ++ tail) /\
    wf buf /\ contents buf = src /\ data_of buf = Z.of_nat (length src) /\ has_flag (flags buf) SHBUF_FMAP = false.
Proof.
  intros Hl. destruct (cat_ok E Hcalloc shbuf_init src) as (buf & Ec & Hw & Hc & Ho & _ & Ha1 & _);
    [apply wf_init | done | cbn [data_of shbuf_init]; lia |]. cbn [data_of shbuf_init flags] in Ho, Ha1. cbn in Hc.
  assert (0 < data_max buf) as Hm.
  { destruct (grow_ok E Hcalloc shbuf_init (Z.of_nat (length src) + 1)) as (b & Eg & _ & Hm & _);
      [apply wf_init | done | lia |].
    unfold shbuf_cat in Ec. cbn [data_of shbuf_init] in Ec. unfold GROW_LIMIT, INT_MAX in Hl.
    rewrite Z.add_0_l in Ec. rewrite (wrap_small 64 (Z.of_nat (length src))), (wrap_small 64 (_ + 1)) in Ec by rlia.
    rewrite Eg in Ec. cbn [obind fst] in Ec.
    destruct (ShBuf.data b); [destruct (mem_write _ _ _); [|done] | case_decide; [|done]]; cbn [obind] in Ec;
      injection Ec as <-; cbn [data_max]; lia. }
  destruct (data_split buf Hw Hm) as [tail Ed]. rewrite Hc in Ed. exists buf, tail. rewrite Ha1. by split_and!.
Qed.

Lemma shencode_ok key txt room :
  valid_key key -> 8 <= Z.of_nat (length txt) -> Z.of_nat (length txt) + 40 <= GROW_LIMIT -> looks_encrypted txt = false ->
  exists tail, shencode E (txt ++ room) (Z.of_nat (length txt)) key =
    Done (Some (Some (envelope key txt ++ tail), Z.of_nat (length txt) + 8), 0).
Proof.
  intros Hk H8 Hl Hm. unfold GROW_LIMIT, INT_MAX in Hl. unfold shencode. case_cmp; [lia |].
  rewrite wrap_small by rlia. rewrite is_magic_spec by (rewrite length_app; lia). cbn [obind]. rewrite looks_app, Hm by lia.
  destruct (cat_init _crypt_magic) as (b1 & _ & -> & _ & Hw1 & Hc1 & Ho1 & Hf1);
    [unfold GROW_LIMIT, INT_MAX, _crypt_magic; rewrite length_le_bytes; lia |]. cbn [obind].
  change (Z.of_nat (length _crypt_magic)) with 4 in Ho1.
  destruct (cat_ok E Hcalloc b1 (le_bytes 4 (Z.of_nat (length txt)))) as (b2 & -> & Hw2 & Hc2 & Ho2 & _ & Ha2 & _);
    [done | done | rewrite length_le_bytes; unfold GROW_LIMIT, INT_MAX; lia |]. cbn [obind]. rewrite length_le_bytes in Ho2.
  rewrite mem_read_ok by (rewrite length_app; lia). cbn [obind]. rewrite drop_0, Nat2Z.id, take_app_length.
  destruct (cat_ok E Hcalloc b2 txt) as (b3 & -> & Hw3 & Hc3 & Ho3 & _ & Ha3 & _);
    [done | by rewrite Ha2 | unfold GROW_LIMIT, INT_MAX; lia |]. cbn [obind].
  destruct (grow_ok E Hcalloc b3 (CRYPT_HEADER_SIZE + Z.of_nat (length txt) + SHMEM_PAD_SIZE))
    as (b4 & -> & Hw4 & Hm4 & Hc4 & Ho4 & _);
    [done | by rewrite Ha3, Ha2 | unfold CRYPT_HEADER_SIZE, SHMEM_PAD_SIZE, GROW_LIMIT, INT_MAX; lia |]. cbn [obind fst].
  change CRYPT_HEADER_SIZE with 8 in *. change SHMEM_PAD_SIZE with 32 in *.
  destruct (data_split b4 Hw4) as [tail ->]; [lia |]. rewrite Ho4, Ho3, Ho2, Ho1.
  rewrite (wrap_small 32 (_ + _)) by rlia. rewrite (wrap_small 64) by rlia. rewrite wrap_small by rlia.
  rewrite Hc4, Hc3, Hc2, Hc1. fold (crypt_header txt). rewrite <- app_assoc. change 8%nat with (length (crypt_header txt)).
  replace (4 + Z.of_nat 4 + Z.of_nat (length txt) - 8) with (Z.of_nat (length txt)) by lia.
  rewrite encrypt_segment by done. cbn [obind]. exists tail. unfold envelope. rewrite <- app_assoc. do 4 f_equal. lia.
Qed.

Lemma shdecode_ok key txt r :
  valid_key key -> is_bytes txt -> Z.of_nat (length txt) + 40 <= GROW_LIMIT ->
  exists tail, shdecode E (envelope key txt ++ r) (Z.of_nat (length txt) + 8) key =
    Done (Some (Some (txt ++ tail), Z.of_nat (length txt)), 0).
Proof.
  intros Hk Hb Hl. unfold GROW_LIMIT, INT_MAX in Hl. unfold shdecode. rewrite wrap_small by rlia. case_cmp; [lia |].
  rewrite envelope_magic. cbn [obind negb]. rewrite envelope_length by lia. cbn [obind].
  change CRYPT_HEADER_SIZE with 8. rewrite Z.add_simpl_r.
  rewrite mem_read_ok by (rewrite length_app, length_envelope; lia). cbn [obind].
  rewrite drop_envelope, Nat2Z.id, take_app_le, take_ge by (rewrite length_tea_text; done).
  destruct (cat_init (tea_text key txt)) as (buf & tail & -> & Ed & _ & _ & Ho & _);
    [rewrite length_tea_text; unfold GROW_LIMIT, INT_MAX; lia |]. cbn [obind].
  rewrite Ed, Ho, length_tea_text, wrap_small by rlia.
  pose proof (decrypt_segment key Hk [] txt tail Hb) as Hd. cbn [app length] in Hd. rewrite Hd. by exists tail.
Qed.

(** Short texts are copied. *)
Lemma short_ok key txt room :
  Z.of_nat (length txt) < 8 ->
  exists tail, shencode E (txt ++ room) (Z.of_nat (length txt)) key = Done (Some (Some (txt ++ tail), Z.of_nat (length txt)), 0) /\
    shdecode E (txt ++ room) (Z.of_nat (length txt)) key = Done (Some (Some (txt ++ tail), Z.of_nat (length txt)), 0).
Proof.
  intros Hl. destruct (cat_init txt) as (buf & tail & Ec & Ed & _ & _ & Ho & _); [unfold GROW_LIMIT, INT_MAX; lia |].
  exists tail. unfold shencode, shdecode. rewrite !wrap_small by rlia. case_cmp; [|lia].
  rewrite mem_read_ok by (rewrite length_app; lia). cbn [obind]. rewrite drop_0, Nat2Z.id, take_app_length, Ec. cbn [obind].
  by rewrite Ed, Ho.
Qed.

End allocating.

(** ** Chunks into a buffer *)

(** The text cut to [n] bytes and filled with zeros to whole chunks. *)
Definition padded (l : bytes) : bytes := l ++ replicate (8 * Z.to_nat (chunks (Z.of_nat (length l))) - length l) 0.

Definition chunk_key (k : list Z) (k_len : Z) (i : nat) : key128 :=
  key_words k (Z.to_nat (Z.of_nat i mod k_len * 4)).

Definition enc_chunks (k : list Z) (k_len : Z) (n i : nat) : bytes -> bytes :=
  map_blocks (fun j => enc_block (chunk_key k k_len j)) n i.
Definition dec_chunks (k : list Z) (k_len : Z) (n i : nat) : bytes -> bytes :=
  map_blocks (fun j => dec_block (chunk_key k k_len j)) n i.

Lemma chunks_bound n : 0 <= n -> n <= 8 * chunks n < n + 8.
Proof. intros H. unfold chunks. case_cmp; mlia. Qed.

Lemma length_padded l : length (padded l) = (8 * Z.to_nat (chunks (Z.of_nat (length l))))%nat.
Proof.
  unfold padded. rewrite length_app, length_replicate. pose proof (chunks_bound (Z.of_nat (length l))). lia.
Qed.

Lemma padded_bytes l : is_bytes l -> is_bytes (padded l).
Proof. intros H. apply is_bytes_app. split; [done |]. apply Forall_replicate. by split. Qed.

(** The chunk the loop copies out of the text. *)
Lemma chunk_of l more i :
  (i < Z.to_nat (chunks (Z.of_nat (length l))))%nat ->
  (src <-! mem_read (l ++ more) (8 * i) (Nat.min 8 (length l - 8 * i)); mem_write (replicate 8 0) 0 src)
    = Done (take 8 (drop (8 * i) (padded l))).
Proof.
  intros Hi. pose proof (chunks_bound (Z.of_nat (length l)) ltac:(lia)) as Hc.
  rewrite mem_read_ok by llia. cbn [obind]. rewrite drop_app_le by lia.
  rewrite take_app_le by llia. rewrite mem_write_ok by llia. rewrite take_0, app_nil_l, Nat.add_0_l. f_equal.
  unfold padded. rewrite drop_app_le by lia. set (s := drop (8 * i) l).
  replace (length l - 8 * i)%nat with (length s) by (unfold s; by rewrite length_drop).
  destruct (Nat.le_gt_cases 8 (length s)) as [Hs|Hs].
  - rewrite Nat.min_l, take_app_le by lia. rewrite drop_ge, app_nil_r by llia. done.
  - rewrite Nat.min_r, (take_ge s), take_app_ge by lia. f_equal. rewrite drop_replicate, take_replicate. f_equal.
    unfold s in *. rewrite length_drop in *. lia.
Qed.

Section chunk_loops.
Context (E : env) (Hcalloc : forall n, calloc_ok E n = true).
Context (k : list Z) (k_len : Z) (Hk : 0 < k_len) (Hkl : k_len * 4 <= Z.of_nat (length k)).

Lemma key_of_ok i : exists o, key_of (Z.of_nat i) k_len = Done o /\ cache_key k o = Done (chunk_key k k_len i).
Proof.
  exists (Z.to_nat (Z.of_nat i mod k_len * 4)). unfold key_of. case_cmp; [lia |]. split; [done |].
  apply cache_key_ok. pose proof (Z.mod_pos_bound (Z.of_nat i) k_len Hk). lia.
Qed.

Lemma TEA_block_ok b i o :
  length b = 8%nat -> cache_key k o = Done (chunk_key k k_len i) ->
  TEA_encrypt b 0 k o = Done (enc_block (chunk_key k k_len i) b) /\
  TEA_decrypt b 0 k o = Done (dec_block (chunk_key k k_len i) b).
Proof.
  intros Hb Ho. unfold TEA_encrypt, TEA_decrypt. rewrite Ho. cbn [obind].
  by rewrite !on_words_block, take_0, drop_0, !app_nil_l, take_ge, drop_ge, !app_nil_r by lia.
Qed.

Lemma encrypt_loop_ok l more n i buff :
  (n + i = Z.to_nat (chunks (Z.of_nat (length l))))%nat -> wf buff -> has_flag (flags buff) SHBUF_FMAP = false ->
  data_of buff + 8 * Z.of_nat n + 1 <= GROW_LIMIT -> 8 * Z.of_nat (n + i) <= GROW_LIMIT ->
  exists buff', encrypt_loop E n (Z.of_nat i) k k_len (l ++ more) (Z.of_nat (length l)) buff = Done buff' /\ wf buff' /\
    same_attrs buff' buff /\ contents buff' = contents buff ++ enc_chunks k k_len n i (drop (8 * i) (padded l)).
Proof.
  revert i buff. induction n as [|n IH]; intros i buff Hn Hw Hf Hl Hl2.
  - exists buff. cbn [encrypt_loop enc_chunks map_blocks]. unfold enc_chunks. cbn [map_blocks].
    rewrite drop_ge, app_nil_r by (rewrite length_padded; lia). by split_and!.
  - pose proof (chunks_bound (Z.of_nat (length l)) ltac:(lia)) as Hc. destruct (Hw) as [Hd _].
    assert (Z.of_nat (length l) < INT_MAX) as Hmax by (unfold GROW_LIMIT in *; lia). unfold INT_MAX in Hmax.
    cbn [encrypt_loop]. case_cmp; [unfold INT_MAX in *; lia |]. cbv zeta.
    rewrite wrap_small by rlia. unfold SHENCRYPT_BLOCK_SIZE.
    replace (Z.to_nat (8 * Z.of_nat i)) with (8 * i)%nat by lia.
    replace (Z.to_nat (Z.min 8 (Z.of_nat (length l) - 8 * Z.of_nat i))) with (Nat.min 8 (length l - 8 * i)) by lia.
    pose proof (chunk_of l more i ltac:(lia)) as Hch.
    destruct (mem_read _ _ _) as [src|]; [|done]. cbn [obind] in Hch |- *. rewrite Hch. cbn [obind].
    destruct (key_of_ok i) as (o & -> & Ho). cbn [obind]. set (b := take 8 _) in *.
    assert (length b = 8%nat) as Hb by (unfold b; rewrite length_take, length_drop, length_padded; lia).
    destruct (TEA_block_ok b i o Hb Ho) as [-> _]. cbn [obind]. set (c := enc_block _ b).
    assert (length c = 8%nat) as Hlc by apply length_block.
    destruct (cat_ok E Hcalloc buff c) as (b1 & -> & Hw1 & Hc1 & Ho1 & _ & Ha1); [done | done | lia |]. cbn [obind].
    replace (Z.of_nat i + 1) with (Z.of_nat (S i)) by lia.
    destruct (IH (S i) b1) as (b2 & -> & Hw2 & Ha2 & Hc2); [lia | done | by destruct Ha1 as [-> _] | lia | lia |].
    exists b2. split_and!; [done | done | by eapply same_attrs_trans |].
    rewrite Hc2, Hc1, <- app_assoc. f_equal. unfold enc_chunks. cbn [map_blocks]. fold b. fold c. f_equal.
    rewrite drop_drop. do 2 f_equal. lia.
Qed.

Lemma decrypt_loop_ok d len n i buff :
  (n + i = Z.to_nat (chunks len))%nat -> 0 <= len -> 8 * chunks len <= Z.of_nat (length d) ->
  wf buff -> has_flag (flags buff) SHBUF_FMAP = false ->
  data_of buff + 8 * Z.of_nat n + 1 <= GROW_LIMIT -> 8 * Z.of_nat (n + i) <= GROW_LIMIT ->
  exists buff', decrypt_loop E n (Z.of_nat i) k k_len d len buff = Done buff' /\ wf buff' /\ same_attrs buff' buff /\
    contents buff' = contents buff ++ take (Z.to_nat len - 8 * i) (dec_chunks k k_len n i (drop (8 * i) d)).
Proof.
  intros Hn Hlen Hd. revert i buff Hn. induction n as [|n IH]; intros i buff Hn Hw Hf Hl Hl2;
    pose proof (chunks_bound len Hlen) as Hc.
  - exists buff. cbn [decrypt_loop]. replace (Z.to_nat len - 8 * i)%nat with 0%nat by lia.
    rewrite take_0, app_nil_r. by split_and!.
  - destruct (Hw) as [Hdo _]. assert (len < INT_MAX) as Hmax by (unfold GROW_LIMIT in *; lia). unfold INT_MAX in Hmax.
    cbn [decrypt_loop]. case_cmp; [unfold INT_MAX in *; lia |].
    rewrite wrap_small by rlia. unfold SHENCRYPT_BLOCK_SIZE.
    replace (Z.to_nat (8 * Z.of_nat i)) with (8 * i)%nat by lia.
    replace (Z.to_nat (Z.min 8 (len - 8 * Z.of_nat i))) with (Nat.min 8 (Z.to_nat len - 8 * i)) by lia.
    rewrite mem_read_ok by lia. cbn [obind].
    destruct (key_of_ok i) as (o & -> & Ho). cbn [obind]. set (b := take 8 _) in *.
    assert (length b = 8%nat) as Hb by (unfold b; rewrite length_take, length_drop; lia).
    destruct (TEA_block_ok b i o Hb Ho) as [_ ->]. cbn [obind]. set (c := dec_block _ b).
    assert (length c = 8%nat) as Hlc by apply length_block.
    set (m := (Z.to_nat len - 8 * i)%nat).
    destruct (cat_ok E Hcalloc buff (take (Nat.min 8 m) c)) as (b1 & -> & Hw1 & Hc1 & Ho1 & _ & Ha1);
      [done | done | rewrite length_take; lia |]. cbn [obind]. rewrite length_take in Ho1.
    replace (Z.of_nat i + 1) with (Z.of_nat (S i)) by lia.
    destruct (IH (S i) b1) as (b2 & -> & Hw2 & Ha2 & Hc2); [lia | done | by destruct Ha1 as [-> _] | lia | lia |].
    exists b2. split_and!; [done | done | by eapply same_attrs_trans |].
    rewrite Hc2, Hc1, <- app_assoc. f_equal. unfold dec_chunks. cbn [map_blocks]. fold b. fold c.
    rewrite take_app, Hlc. f_equal.
    + destruct (Nat.le_gt_cases m 8); [by rewrite Nat.min_r | by rewrite Nat.min_l, !take_ge by lia].
    + rewrite drop_drop. f_equal; [unfold m; lia |]. do 2 f_equal. lia.
Qed.

(** The two functions on a text [l], appended to [buff]. *)
Lemma shencrypt_bin_ok l more buff :
  wf buff -> has_flag (flags buff) SHBUF_FMAP = false -> data_of buff + Z.of_nat (length l) + 9 <= GROW_LIMIT ->
  exists buff', shencrypt_bin E buff k k_len (Some (l ++ more)) (Z.of_nat (length l)) = Done (buff', 0) /\ wf buff' /\
    same_attrs buff' buff /\
    contents buff' = contents buff ++ enc_chunks k k_len (Z.to_nat (chunks (Z.of_nat (length l)))) 0 (padded l).
Proof.
  intros Hw Hf Hl. pose proof (chunks_bound (Z.of_nat (length l)) ltac:(lia)) as Hc. destruct (Hw) as [Hd _].
  destruct (encrypt_loop_ok l more (Z.to_nat (chunks (Z.of_nat (length l)))) 0 buff)
    as (b & Eb & Hb & Ha & Hcn); [lia | done | done | lia | lia |].
  unfold shencrypt_bin. change 0 with (Z.of_nat 0) at 1. rewrite Eb. cbn [obind]. by exists b.
Qed.

Lemma shdecrypt_bin_ok l more buff :
  is_bytes l -> wf buff -> has_flag (flags buff) SHBUF_FMAP = false -> data_of buff + Z.of_nat (length l) + 9 <= GROW_LIMIT ->
  exists buff', shdecrypt_bin E buff k k_len
      (Some (enc_chunks k k_len (Z.to_nat (chunks (Z.of_nat (length l)))) 0 (padded l) ++ more)) (Z.of_nat (length l))
    = Done (buff', 0) /\ wf buff' /\ same_attrs buff' buff /\ contents buff' = contents buff ++ l.
Proof.
  intros Hb Hw Hf Hl. pose proof (chunks_bound (Z.of_nat (length l)) ltac:(lia)) as Hc. destruct (Hw) as [Hd _].
  set (n := Z.to_nat (chunks (Z.of_nat (length l)))) in *. pose proof (length_padded l) as Hp. fold n in Hp.
  assert (length (enc_chunks k k_len n 0 (padded l)) = (8 * n)%nat) as He
    by (unfold enc_chunks; rewrite length_map_blocks; [done | intros; apply length_block | lia]).
  destruct (decrypt_loop_ok (enc_chunks k k_len n 0 (padded l) ++ more) (Z.of_nat (length l)) n 0 buff)
    as (b & Eb & Hwb & Ha & Hcn); [lia | lia | rewrite length_app; lia | done | done | lia | lia |].
  unfold shdecrypt_bin. fold n. change 0 with (Z.of_nat 0) at 1. rewrite Eb. cbn [obind]. exists b. split_and!; [done.. |].
  rewrite Hcn. f_equal. rewrite Nat.mul_0_r, Nat.sub_0_r, drop_0, Nat2Z.id. unfold dec_chunks.
  rewrite map_blocks_app by lia. unfold enc_chunks. rewrite map_blocks_inverse;
    [| intros; apply length_block | intros; by apply dec_enc_block | by apply padded_bytes | lia].
  unfold padded. rewrite <- app_assoc. apply take_app_length.
Qed.

End chunk_loops.

(** ** Theorems *)

(** For every text the in-place functions take, [ashdecode] undoes
    [ashencode]: the length and the bytes are those of the text again, no
    access leaves the allocation (eight bytes of room are enough), and the
    bytes in between are the magic number, the length and the whole blocks
    encrypted.  A text of eight bytes or more that starts with the magic
    number is excluded. *)
Theorem ashencode_roundtrip (key : shkey_t) (txt room : bytes) :
  valid_key key -> is_bytes txt -> Z.of_nat (length txt) + 8 < 2 ^ 32 -> (8 <= length room)%nat ->
  (8 <=? Z.of_nat (length txt)) && looks_encrypted txt = false ->
  exists enc n dec,
    ashencode (txt ++ room) (Z.of_nat (length txt)) key = Done (enc, n, 0) /\
    take (Z.to_nat n) enc = (if 8 <=? Z.of_nat (length txt) then envelope key txt else txt) /\
    ashdecode enc n key = Done (dec, Z.of_nat (length txt), 0) /\ take (length txt) dec = txt.
Proof.
  intros Hk Hb Hl Hr Hm. destruct (Z.leb_spec 8 (Z.of_nat (length txt))) as [H8|H8].
  - exists (envelope key txt ++ drop 8 room), (Z.of_nat (length txt) + 8), (txt ++ drop (length txt) (envelope key txt ++ drop 8 room)).
    split_and!; [apply ashencode_ok; (done || lia) | | by apply ashdecode_ok | apply take_app_length].
    rewrite take_app_le, take_ge by (rewrite length_envelope; lia). done.
  - exists (txt ++ room), (Z.of_nat (length txt)), (txt ++ room). unfold ashencode, ashdecode. rewrite wrap_small by rlia.
    case_cmp; [|lia]. rewrite Nat2Z.id. by rewrite take_app_length.
Qed.

Definition demo_key : shkey_t := mk_key 0 7 [1; 2; 3; 4; 5; 6; 7].

Lemma demo_key_valid : valid_key demo_key.
Proof. split_and!; [by split | by split | done | repeat (constructor; [by split |]); constructor]. Qed.

Lemma ashencode_roundtrip_witness :
  exists enc n dec,
    ashencode (cstr "attack at dawn" ++ replicate 12 0) 14 demo_key = Done (enc, n, 0) /\
    take (Z.to_nat n) enc = envelope demo_key (cstr "attack at dawn") /\
    ashdecode enc n demo_key = Done (dec, 14, 0) /\ take 14 dec = cstr "attack at dawn".
Proof.
  apply (ashencode_roundtrip demo_key (cstr "attack at dawn") (replicate 12 0));
    [apply demo_key_valid | byte_literal | reflexivity | vm_compute; lia | reflexivity].
Defined.

(** A text that starts with the magic number is taken for encrypted:
    [ashencode] leaves it in clear and reports success, [shencode] reports
    success without setting its outputs, and [ashdecode] of that clear text
    returns a length read out of the text. *)
Theorem magic_text_not_encoded (E : env) (key : shkey_t) (txt : bytes) :
  valid_key key -> 8 <= Z.of_nat (length txt) < 2 ^ 32 -> looks_encrypted txt = true ->
  ashencode txt (Z.of_nat (length txt)) key = Done (txt, Z.of_nat (length txt), 0) /\
  shencode E txt (Z.of_nat (length txt)) key = Done (None, 0) /\
  exists dec, ashdecode txt (Z.of_nat (length txt)) key = Done (dec, of_le (take 4 (drop 4 txt)), 0).
Proof.
  intros Hk Hl Hm. unfold ashencode, shencode, ashdecode. rewrite wrap_small by rlia. case_cmp; [lia |].
  rewrite is_magic_spec by lia. cbn [obind]. rewrite Hm. cbn [negb]. split_and!; [done | done |].
  unfold GET_CRYPT_LENGTH. rewrite mem_read_ok by lia. cbn [obind]. change CRYPT_HEADER_SIZE with 8.
  rewrite wrap_small by rlia. rewrite mem_read_ok by lia. cbn [obind]. rewrite mem_write_ok by llia. cbn [obind].
  rewrite TEA_decrypt_data_spec by (done || lia || llia). cbn [obind]. by eexists.
Qed.

Lemma magic_text_not_encoded_witness :
  let txt := _crypt_magic ++ cstr "plain text" in
  ashencode txt 14 demo_key = Done (txt, 14, 0) /\ shencode (demo_env true) txt 14 demo_key = Done (None, 0) /\
  exists dec, ashdecode txt 14 demo_key = Done (dec, 1767992432, 0).
Proof.
  apply (magic_text_not_encoded (demo_env true) demo_key (_crypt_magic ++ cstr "plain text"));
    [apply demo_key_valid | vm_compute; by split | reflexivity].
Defined.

(** The bytes [shencode] hands out for a text. *)
Definition encoded (key : shkey_t) (txt : bytes) : bytes :=
  if 8 <=? Z.of_nat (length txt) then envelope key txt else txt.

Lemma shencode_shdecode E key txt room r :
  (forall n, calloc_ok E n = true) -> valid_key key -> is_bytes txt -> Z.of_nat (length txt) + 40 <= GROW_LIMIT ->
  (8 <=? Z.of_nat (length txt)) && looks_encrypted txt = false ->
  (exists tail, shencode E (txt ++ room) (Z.of_nat (length txt)) key =
     Done (Some (Some (encoded key txt ++ tail), Z.of_nat (length (encoded key txt))), 0)) /\
  (exists tail, shdecode E (encoded key txt ++ r) (Z.of_nat (length (encoded key txt))) key =
     Done (Some (Some (txt ++ tail), Z.of_nat (length txt)), 0)).
Proof.
  intros Hc Hk Hb Hl Hm. unfold encoded. destruct (Z.leb_spec 8 (Z.of_nat (length txt))) as [H8|H8].
  - rewrite length_envelope. replace (Z.of_nat (8 + length txt)) with (Z.of_nat (length txt) + 8) by lia.
    split; [by apply shencode_ok | by apply shdecode_ok].
  - destruct (short_ok E Hc key txt room H8) as (t1 & E1 & _). destruct (short_ok E Hc key txt r H8) as (t2 & _ & E2).
    split; by eexists.
Qed.

Lemma encoded_bytes key txt : is_bytes txt -> is_bytes (encoded key txt).
Proof.
  intros H. unfold encoded. case_cmp; [|done]. unfold envelope, crypt_header.
  apply is_bytes_app. split; [apply is_bytes_app; split; apply le_bytes_bytes | by apply tea_text_bytes].
Qed.

Lemma length_encoded key txt : (length txt <= length (encoded key txt) <= 8 + length txt)%nat.
Proof. unfold encoded. case_cmp; rewrite ?length_envelope; lia. Qed.

(** C30: [shdecode_b64] undoes [shencode_b64]: the text form of a text is the
    printable base64 of its envelope, and decoding gives back the length and the
    bytes.  The texts have at least two bytes, as the base64 encoder needs, and do
    not start with the magic number, which [shencode] takes for an encrypted text
    without setting its outputs.  Texts of two to seven bytes are not encrypted:
    their base64 is that of the text itself. *)
Theorem shencode_b64_roundtrip (E : env) (key : shkey_t) (txt room : bytes) :
  (forall n, calloc_ok E n = true) -> valid_key key -> is_bytes txt ->
  2 <= Z.of_nat (length txt) -> Z.of_nat (length txt) + 8 <= BASE64_MAX ->
  (8 <=? Z.of_nat (length txt)) && looks_encrypted txt = false ->
  shencode_b64 E true (txt ++ room) (Z.of_nat (length txt)) key = Done (Some (base64 (encoded key txt) ++ [0; 0]), 0) /\
  exists tail, shdecode_b64 E true (base64 (encoded key txt) ++ [0; 0]) key =
    Done (Some (Some (txt ++ tail), Z.of_nat (length txt)), 0).
Proof.
  intros Hc Hk Hb H2 Hl Hm. pose proof (length_encoded key txt) as Hle. unfold BASE64_MAX in Hl.
  destruct (base64_decode_ok (encoded key txt)) as [r Hd]; [by apply encoded_bytes | unfold BASE64_MAX; lia |].
  destruct (shencode_shdecode E key txt room r) as [[t1 E1] [t2 E2]]; [done | done | done | unfold GROW_LIMIT, INT_MAX; lia | done |].
  unfold shencode_b64, shdecode_b64. rewrite E1, Hd. cbn [obind]. change (0 =? 0) with true. cbn [negb].
  rewrite wrap_small by rlia. split; [|by exists t2].
  apply base64_encode_block; [by apply encoded_bytes | unfold BASE64_MAX; lia].
Qed.

Lemma shencode_b64_roundtrip_witness :
  shencode_b64 (demo_env true) true (cstr "attack at dawn") 14 demo_key =
    Done (Some (base64 (encoded demo_key (cstr "attack at dawn")) ++ [0; 0]), 0) /\
  exists tail, shdecode_b64 (demo_env true) true (base64 (encoded demo_key (cstr "attack at dawn")) ++ [0; 0]) demo_key =
    Done (Some (Some (cstr "attack at dawn" ++ tail), 14), 0).
Proof.
  pose proof (shencode_b64_roundtrip (demo_env true) demo_key (cstr "attack at dawn") []) as H.
  rewrite app_nil_r in H. apply H;
    [reflexivity | apply demo_key_valid | byte_literal | vm_compute; discriminate | vm_compute; discriminate | reflexivity].
Defined.

(** ** The version 0 format *)

Lemma v0_key_length key_data :
  (20 <= length key_data)%nat -> exists k, v0_key key_data = Done k /\ length k = 4%nat.
Proof. intros H. unfold v0_key. rewrite mem_read_ok by lia. by eexists. Qed.

(** Overwriting the reserved bytes at the start of a buffer. *)
Lemma write_header buf a b :
  wf buf -> 8 <= data_of buf -> length a = 4%nat -> length b = 4%nat ->
  exists d d1 d2, ShBuf.data buf = Some d /\ mem_write d 0 a = Done d1 /\ mem_write d1 4 b = Done d2 /\
    take (Z.to_nat (data_of buf)) d2 = a ++ b ++ drop 8 (contents buf) /\ Z.of_nat (length d2) = data_max buf.
Proof.
  intros [H1 H2] H8 Ha Hb. unfold contents. destruct (ShBuf.data buf) as [d|]; [|lia]. exists d.
  rewrite mem_write_ok by lia. eexists _, _. split_and!; [done | done | | |].
  - rewrite mem_write_ok by (rewrite !length_app, length_take, length_drop; lia). done.
  - rewrite take_0, app_nil_l, Ha, Hb. rewrite (take_app_le a), (take_ge a) by lia.
    rewrite (drop_app_ge a), Ha by lia. rewrite drop_drop. change (0 + 4 + (4 + 4 - 4))%nat with 8%nat.
    rewrite (take_app_ge a) by lia. f_equal. rewrite take_app_ge by lia. f_equal.
    rewrite Ha, Hb, skipn_firstn_comm. f_equal. lia.
  - rewrite !length_app, length_take, !length_drop, !length_app, length_take, length_drop. lia.
Qed.

(** The whole blocks of a text and the bytes after them. *)
Definition whole (txt : bytes) : bytes := take (Z.to_nat (Z.of_nat (length txt) / 8 * 8)) txt.
Definition rest (txt : bytes) : bytes := drop (Z.to_nat (Z.of_nat (length txt) / 8 * 8)) txt.

Definition v0_text (k : list Z) (txt : bytes) : bytes :=
  enc_chunks k 1 (Z.to_nat (chunks (Z.of_nat (length (whole txt))))) 0 (padded (whole txt)).

Lemma length_whole txt : Z.of_nat (length (whole txt)) = Z.of_nat (length txt) / 8 * 8.
Proof. unfold whole. rewrite length_take. mlia. Qed.

Lemma length_v0_text k txt : Z.of_nat (length (v0_text k txt)) = Z.of_nat (length (whole txt)).
Proof.
  unfold v0_text, enc_chunks. rewrite length_map_blocks; [|intros; apply length_block | rewrite length_padded; lia].
  rewrite length_padded, length_whole. unfold chunks. rewrite Z.mod_mul, Z.div_mul by lia. change (0 =? 0) with true. cbn iota. mlia.
Qed.

Section version0.
Context (E : env) (Hcalloc : forall n, calloc_ok E n = true).
Context (key_data : bytes) (k : list Z).
Hypothesis (Hv0 : v0_key key_data = Done k).
Hypothesis (Hk : length k = 4%nat).

(** The bytes after the whole blocks are appended in clear. *)
Lemma cat_rest buf txt more :
  wf buf -> has_flag (flags buf) SHBUF_FMAP = false -> data_of buf + 9 <= GROW_LIMIT ->
  exists buf', (if Z.of_nat (length (whole txt)) <? Z.of_nat (length txt)
     then src <-! mem_read (whole txt ++ rest txt ++ more) (Z.to_nat (Z.of_nat (length (whole txt))))
                   (Z.to_nat (Z.of_nat (length txt) - Z.of_nat (length (whole txt)))); shbuf_cat E buf src
     else Done buf) = Done buf' /\ wf buf' /\ contents buf' = contents buf ++ rest txt.
Proof.
  intros Hw Hf Hl. pose proof (length_whole txt) as Hlw.
  assert (length (rest txt) = Z.to_nat (Z.of_nat (length txt) - Z.of_nat (length (whole txt)))) as Hr
    by (rewrite Hlw; unfold rest; rewrite length_drop; mlia).
  destruct (Z.ltb_spec (Z.of_nat (length (whole txt))) (Z.of_nat (length txt))) as [Hlt|Hge].
  - rewrite mem_read_ok by (rewrite !length_app, Hr; lia). cbn [obind]. rewrite Nat2Z.id, drop_app_length, <- Hr, take_app_length.
    destruct (cat_ok E Hcalloc buf (rest txt)) as (b2 & ? & ? & ? & _); [done | done | mlia | by exists b2].
  - exists buf. replace (rest txt) with (@nil Z); [by rewrite app_nil_r |]. symmetry. apply nil_length_inv. lia.
Qed.

Lemma whole_rest txt more : txt ++ more = whole txt ++ rest txt ++ more.
Proof. unfold whole, rest. by rewrite app_assoc, take_drop. Qed.

Lemma encrypt_v0_ok txt more key_len :
  20 <= key_len -> Z.of_nat (length txt) + 24 <= GROW_LIMIT ->
  exists buf, _shencrypt_v0 E shbuf_init (txt ++ more) (Z.of_nat (length txt)) key_data key_len = Done (buf, 0) /\
    wf buf /\ contents buf = crypt_header txt ++ v0_text k txt ++ rest txt.
Proof.
  intros Hkl Hl. unfold _shencrypt_v0. case_cmp; [lia |]. pose proof (length_whole txt) as Hlw. unfold GROW_LIMIT, INT_MAX in Hl.
  destruct (padd_ok E Hcalloc 8 shbuf_init) as (b0 & E0 & Hw0 & Hc0 & Ha0 & _);
    [apply wf_init | done | unfold GROW_LIMIT, INT_MAX; cbn [data_of shbuf_init]; lia |].
  unfold shbuf_padd. cbn [data_of shbuf_init]. change (Z.to_nat (CRYPT_HEADER_SIZE - 0)) with 8%nat. rewrite E0. cbn [obind].
  rewrite Hv0. cbn [obind]. assert (data_of b0 = 8) as Ho0 by (rewrite <- contents_length, Hc0 by done; done).
  rewrite wrap_small by (ranges; mlia). rewrite <- Hlw, whole_rest.
  destruct (shencrypt_bin_ok E Hcalloc k 1 ltac:(lia) ltac:(lia) (whole txt) (rest txt ++ more) b0) as (b1 & -> & Hw1 & Ha1 & Hc1);
    [done | by rewrite Ha0 | unfold GROW_LIMIT, INT_MAX; mlia |]. cbn [obind]. change (0 =? 0) with true. cbn [negb].
  fold (v0_text k txt) in Hc1. assert (data_of b1 = 8 + Z.of_nat (length (whole txt))) as Ho1.
  { rewrite <- contents_length, Hc1, length_app, Hc0, Nat2Z.inj_add, length_v0_text by done. done. }
  destruct (cat_rest b1 txt more) as (b2 & -> & Hw2 & Hc2);
    [done | destruct Ha1 as [-> _]; by rewrite Ha0 | unfold GROW_LIMIT, INT_MAX; mlia |]. cbn [obind].
  destruct (write_header b2 _crypt_magic (le_bytes 4 (u32 (Z.of_nat (length txt))))) as (d & d1 & d2 & -> & Ed1 & Ed2 & Ht & Hd2);
    [done | rewrite <- contents_length, Hc2, Hc1, Hc0, !length_app, length_replicate by done; lia | done | done |].
  rewrite Ed1. cbn [obind]. rewrite Ed2. cbn [obind]. eexists. split; [done |]. split; [by destruct Hw2 |].
  unfold contents at 1. cbn [ShBuf.data data_of]. rewrite Ht, Hc2, Hc1, Hc0, wrap_small by rlia.
  unfold crypt_header. by rewrite <- !app_assoc.
Qed.

Lemma decrypt_v0_ok txt more key_len :
  is_bytes txt -> 20 <= key_len -> Z.of_nat (length txt) + 24 <= GROW_LIMIT ->
  exists buf, _shdecrypt_v0 E shbuf_init ((crypt_header txt ++ v0_text k txt ++ rest txt) ++ more)
      (Z.of_nat (length txt) + 8) key_data key_len = Done (buf, 0) /\ contents buf = txt.
Proof.
  intros Hb Hkl Hl. unfold _shdecrypt_v0. unfold GROW_LIMIT, INT_MAX in Hl. case_cmp; [lia |]. change CRYPT_HEADER_SIZE with 8.
  case_cmp; [lia |]. set (body := v0_text k txt ++ rest txt ++ more). rewrite <- !app_assoc. fold body.
  assert (mem_read (crypt_header txt ++ body) 0 4 = Done _crypt_magic) as -> by (rewrite mem_read_ok by (rewrite length_app, length_crypt_header; lia); reflexivity).
  cbn [obind]. change (negb (of_le _crypt_magic =? SHMEM32_MAGIC)) with false. cbn iota.
  assert (GET_CRYPT_LENGTH (crypt_header txt ++ body) = Done (Z.of_nat (length txt))) as ->.
  { unfold GET_CRYPT_LENGTH. rewrite mem_read_ok by (rewrite length_app, length_crypt_header; lia). cbn [obind]. f_equal.
    unfold crypt_header. rewrite <- app_assoc. change 4%nat with (length _crypt_magic) at 2. rewrite drop_app_length.
    rewrite take_app_le, take_ge by (rewrite length_le_bytes; done). apply of_le_bytes. change (8 * Z.of_nat 4) with 32. rlia. }
  cbn [obind]. case_cmp; [lia |]. rewrite Hv0. cbn [obind]. rewrite Z.add_simpl_r. pose proof (length_whole txt) as Hlw.
  rewrite wrap_small by (ranges; mlia). rewrite <- Hlw. change 8%nat with (length (crypt_header txt)). rewrite drop_app_length.
  destruct (shdecrypt_bin_ok E Hcalloc k 1 ltac:(lia) ltac:(lia) (whole txt) (rest txt ++ more) shbuf_init) as (b1 & E1 & Hw1 & Ha1 & Hc1);
    [by apply is_bytes_take | apply wf_init | done | unfold GROW_LIMIT, INT_MAX; cbn [data_of shbuf_init]; mlia |].
  unfold body, v0_text at 1. rewrite E1. cbn [obind]. change (0 =? 0) with true. cbn [negb]. cbn in Hc1.
  assert (length (rest txt) = Z.to_nat (Z.of_nat (length txt) - Z.of_nat (length (whole txt)))) as Hr
    by (rewrite Hlw; unfold rest; rewrite length_drop; mlia).
  assert (data_of b1 = Z.of_nat (length (whole txt))) as Ho1 by (rewrite <- contents_length, Hc1 by done; done).
  pose proof (length_v0_text k txt) as Hlv. case_cmp as [Hlt|Hge].
  - rewrite mem_read_ok by (rewrite !length_app, Hr; lia). cbn [obind].
    replace (Z.to_nat (Z.of_nat (length (whole txt)))) with (length (v0_text k txt)) by lia.
    rewrite drop_app_length, <- Hr, take_app_length.
    destruct (cat_ok E Hcalloc b1 (rest txt)) as (b2 & -> & _ & Hc2 & _);
      [done | by destruct Ha1 as [-> _] | unfold GROW_LIMIT, INT_MAX; mlia |]. cbn [obind].
    exists b2. split; [done |]. rewrite Hc2, Hc1. unfold whole, rest. apply take_drop.
  - exists b1. split; [done |]. rewrite Hc1. unfold whole. apply take_ge. mlia.
Qed.

End version0.

(** The version 0 format round-trips every text for every key of at least
    twenty bytes: [_shencrypt_v0] writes the header, the whole blocks
    encrypted by [shencrypt_bin] and the remaining bytes in clear, and
    [_shdecrypt_v0] of those bytes appends exactly the text. *)
Theorem shencrypt_v0_roundtrip (E : env) (key_data txt more tail : bytes) :
  (forall n, calloc_ok E n = true) -> (20 <= length key_data)%nat -> is_bytes txt ->
  Z.of_nat (length txt) + 24 <= GROW_LIMIT ->
  exists k enc dec,
    v0_key key_data = Done k /\
    _shencrypt_v0 E shbuf_init (txt ++ more) (Z.of_nat (length txt)) key_data (Z.of_nat (length key_data)) = Done (enc, 0) /\
    wf enc /\ contents enc = crypt_header txt ++ v0_text k txt ++ rest txt /\
    _shdecrypt_v0 E shbuf_init (contents enc ++ tail) (data_of enc) key_data (Z.of_nat (length key_data)) = Done (dec, 0) /\
    contents dec = txt.
Proof.
  intros Hc Hk Hb Hl. destruct (v0_key_length key_data Hk) as (k & Hv & Hkl).
  destruct (encrypt_v0_ok E Hc key_data k Hv Hkl txt more (Z.of_nat (length key_data))) as (enc & Ee & Hw & Hce); [lia | done |].
  destruct (decrypt_v0_ok E Hc key_data k Hv Hkl txt tail (Z.of_nat (length key_data))) as (dec & Ed & Hcd); [done | lia | done |].
  exists k, enc, dec. split_and!; try done. rewrite <- contents_length, Hce by done. rewrite <- Ed. f_equal.
  rewrite !length_app, length_crypt_header. pose proof (length_v0_text k txt). pose proof (length_whole txt).
  unfold rest. rewrite length_drop. mlia.
Qed.

Definition demo_secret : bytes := cstr "a secret of 20 bytes".

Lemma shencrypt_v0_roundtrip_witness :
  exists k enc dec,
    v0_key demo_secret = Done k /\
    _shencrypt_v0 (demo_env true) shbuf_init (cstr "attack at dawn" ++ []) 14 demo_secret 20 = Done (enc, 0) /\
    wf enc /\ contents enc = crypt_header (cstr "attack at dawn") ++ v0_text k (cstr "attack at dawn") ++ rest (cstr "attack at dawn") /\
    _shdecrypt_v0 (demo_env true) shbuf_init (contents enc ++ []) (data_of enc) demo_secret 20 = Done (dec, 0) /\
    contents dec = cstr "attack at dawn".
Proof.
  apply (shencrypt_v0_roundtrip (demo_env true) demo_secret (cstr "attack at dawn") [] []);
    [reflexivity | vm_compute; lia | byte_literal | vm_compute; discriminate].
Defined.

(** The bytes after the last whole block stay in clear in every format. *)
Theorem tea_text_tail key txt :
  drop (8 * (length txt / 8)) (tea_text key txt) = drop (8 * (length txt / 8)) txt.
Proof.
  unfold tea_text. set (n := (length txt / 8)%nat). set (f := fun _ => _).
  assert (8 * n <= length txt)%nat as Hn by (unfold n; pose proof (Nat.div_mod_eq (length txt) 8); lia).
  assert (forall i b, length (f i b) = 8%nat) as Hf by (intros; apply length_block).
  rewrite <- (take_drop (8 * n) txt) at 1. rewrite map_blocks_app by (rewrite length_take; lia).
  rewrite drop_app_ge, length_map_blocks by (rewrite ?length_map_blocks; rewrite ?length_take; auto; lia).
  rewrite length_take, Nat.min_l, Nat.sub_diag by lia. done.
Qed.

(** [shdecode_str] gives back a string encoded in place. *)
Theorem shencode_str_roundtrip (s room : bytes) :
  is_bytes s -> Forall (fun c => c <> 0) s -> 7 <= Z.of_nat (length s) -> Z.of_nat (length s) + 9 < 2 ^ 32 ->
  (8 <= length room)%nat -> looks_encrypted s = false ->
  exists enc key dec, shencode_str (s ++ 0 :: room) = Done (enc, Some key) /\
    shdecode_str enc key = Done (dec, 0) /\ cstring dec = s.
Proof.
  intros Hb Hnz H7 Hl Hr Hm. set (txt := s ++ [0]).
  assert (is_bytes txt) as Ht by (apply is_bytes_app; split; [done | byte_literal]).
  assert (Z.of_nat (length txt) = Z.of_nat (length s) + 1) as Hlt by (unfold txt; rewrite length_app; cbn [length]; lia).
  set (key := shkey_str (Some (s ++ 0 :: room))). assert (valid_key key) as Hk by apply valid_bin.
  exists (envelope key txt ++ drop 8 room), key. eexists. split_and!.
  - unfold shencode_str. fold key. rewrite cstring_zero, <- Hlt by done.
    replace (s ++ 0 :: room) with (txt ++ room) by (unfold txt; by rewrite <- app_assoc).
    rewrite ashencode_ok; [reflexivity | done | lia | done | unfold txt; rewrite looks_app by lia; done].
  - unfold shdecode_str. rewrite envelope_length by lia. cbn [obind]. change CRYPT_HEADER_SIZE with 8.
    rewrite ashdecode_ok by (done || lia). reflexivity.
  - unfold txt. rewrite <- app_assoc. by apply cstring_zero.
Qed.
