(* ===== verification/ShLock.v ===== *)
(** * Locks

    Models [share-lib/mem/shmem_lock.c]: the process-wide table of locks by
    key, and [shlock_open], [shlock_tryopen] and [shlock_close] in both builds,
    with and without the POSIX thread library (the flag [pthread]).

    The code reaches a lock through the hash map of [shmem_map.c].  What it
    needs of the map is the class [PtrTable]; [shmap_table] shows that the map
    of ShMap provides it, and the theorems on locks are proved against the
    class.  A lock is a structure in a store of its own, its pointer is what
    the map holds.  A mutex is the POSIX mutex of the default or the recursive
    type: [Blocks] is a call that waits for another owner, or for its own
    thread in the case of the default type.  A call is one transition here, as it
    is when the calls of the threads run one after the other; ShLockSteps cuts the
    calls into their accesses to shared memory. *)

From Stdlib Require Import ZArith Lia.
From stdpp Require Import base numbers list gmap.
From S2P Require Import Prelude ShKey Heap ShBuf ShMap.

Open Scope Z_scope.

(** ** What the locks ask of the map *)

Class PtrTable (T : Type) := {
  pt_init : T;
  pt_get : T -> shkey_t -> outcome ptr;
  pt_set : T -> shkey_t -> ptr -> outcome T;
  pt_inv : T -> Prop;
  pt_view : T -> gmap bytes ptr;
  pt_init_ok : pt_inv pt_init /\ pt_view pt_init = ∅;
  pt_get_ok t k : pt_inv t -> pt_get t k = Done (default NULL (pt_view t !! shkey_image k));
  pt_set_ok t k p :
    pt_inv t -> p <> NULL -> Z.of_nat (size (pt_view t)) + 1 < 2 ^ 31 ->
    exists t', pt_set t k p = Done t' /\ pt_inv t' /\ pt_view t' = <[shkey_image k := p]> (pt_view t)
}.

(** ** Locks *)

Definition SHLK_PRIVATE : Z := 128.

(** The fields the functions use; [held] is the mutex's owner and count. *)
Record shlock_t : Type := mk_lock {
  ref : Z;
  tid : Z;
  recursive : bool;
  held : option (Z * Z)
}.

(** [pthread_mutex_lock]: [None] waits. *)
Definition mutex_lock (lk : shlock_t) (t : Z) : option shlock_t :=
  match held lk with
  | None => Some (mk_lock (ref lk) (tid lk) (recursive lk) (Some (t, 1)))
  | Some (o, n) =>
      if (o =? t) && recursive lk then Some (mk_lock (ref lk) (tid lk) (recursive lk) (Some (t, n + 1))) else None
  end.

(** [pthread_mutex_trylock]: [None] is EBUSY. *)
Definition mutex_trylock (lk : shlock_t) (t : Z) : option shlock_t := mutex_lock lk t.

(** [pthread_mutex_unlock]: [None] is EPERM.  Unlocking a mutex of the default
    type that the thread does not own is undefined. *)
Definition mutex_unlock (lk : shlock_t) (t : Z) : outcome (option shlock_t) :=
  let free_or n := if n =? 1 then None else Some (t, n - 1) in
  match held lk with
  | Some (o, n) =>
      if o =? t then Done (Some (mk_lock (ref lk) (tid lk) (recursive lk) (free_or n)))
      else if recursive lk then Done None else Fault
  | None => if recursive lk then Done None else Fault
  end.

Section locks.
Context {T : Type} `{PtrTable T}.
Context (pthread : bool).

(** The static [_lock_map] and the allocated locks. *)
Record state : Type := mk_state {
  lock_map : option T;
  locks : gmap Z shlock_t;
  next_lk : Z
}.

Definition initial : state := mk_state None ∅ 1.

(** Ends of a call. *)
Inductive reply (A : Type) : Type :=
| Returns (st : state) (a : A)
| Blocks.
Arguments Returns {A} st a.
Arguments Blocks {A}.

Definition get_shlock_map (st : state) : state * T :=
  match lock_map st with
  | Some t => (st, t)
  | None => (mk_state (Some pt_init) (locks st) (next_lk st), pt_init)
  end.

(** [calloc], [shmap_set_ptr] and [pthread_mutex_init]. *)
Definition new_lock (st : state) (t : T) (key : shkey_t) (flags : Z) : outcome (state * ptr) :=
  let p := Some (next_lk st, 0) in
  t <-! pt_set t key p;
  let lk := mk_lock 0 0 (negb (has_flag flags SHLK_PRIVATE)) None in
  Done (mk_state (Some t) (<[next_lk st := lk]> (locks st)) (next_lk st + 1), p).

(** The lock of a key, made on first use; [None] without memory. *)
Definition find_lock (st : state) (alloc_ok : bool) (key : shkey_t) (flags : Z) : outcome (state * option ptr) :=
  let '(st, t) := get_shlock_map st in
  p <-! pt_get t key;
  match p with
  | Some _ => Done (st, Some p)
  | None =>
      if negb alloc_ok then Done (st, None)
      else r <-! new_lock st t key flags; Done (fst r, Some (snd r))
  end.

Definition deref_lock (st : state) (p : ptr) : outcome (Z * shlock_t) :=
  match p with
  | Some (b, _) => match locks st !! b with Some lk => Done (b, lk) | None => Fault end
  | None => Fault
  end.

Definition put_lock (st : state) (b : Z) (lk : shlock_t) : state :=
  mk_state (lock_map st) (<[b := lk]> (locks st)) (next_lk st).

(** [lk->tid = tid; lk->ref++;] *)
Definition taken (lk : shlock_t) (t : Z) : shlock_t :=
  mk_lock (u32 (ref lk + 1)) (u32 t) (recursive lk) (held lk).

(** Locked, and not open to this thread or not with these flags. *)
Definition busy (lk : shlock_t) (t flags : Z) : bool :=
  negb (ref lk =? 0) && (has_flag flags SHLK_PRIVATE || negb (u32 t =? tid lk)).

Definition shlock_open (st : state) (alloc_ok : bool) (t : Z) (key : shkey_t) (flags : Z) : outcome (reply ptr) :=
  r <-! find_lock st alloc_ok key flags;
  let '(st, p) := r in
  match p with
  | None => Done (Returns st NULL)
  | Some p =>
      r <-! deref_lock st p;
      let '(b, lk) := r in
      if pthread then
        match mutex_lock lk t with
        | None => Done Blocks
        | Some lk => Done (Returns (put_lock st b (taken lk t)) p)
        end
      else if busy lk t flags then Done (Returns st NULL)
      else Done (Returns (put_lock st b (taken lk t)) p)
  end.

(** The result and [*lock_p], which keeps its value on failure. *)
Definition shlock_tryopen (st : state) (alloc_ok : bool) (t : Z) (key : shkey_t) (flags : Z) (lock_p : ptr)
    : outcome (reply (Z * ptr)) :=
  r <-! find_lock st alloc_ok key flags;
  let '(st, p) := r in
  match p with
  | None => Done (Returns st (-1, lock_p))
  | Some p =>
      r <-! deref_lock st p;
      let '(b, lk) := r in
      if busy lk t flags then Done (Returns st (1, lock_p))
      else
        let r := if pthread && ((ref lk =? 0) || negb (tid lk =? u32 t)) then mutex_trylock lk t else Some lk in
        match r with
        | None => Done (Returns st (1, lock_p))
        | Some lk => Done (Returns (put_lock st b (taken lk t)) (0, p))
        end
  end.

Definition shlock_close (st : state) (t : Z) (key : shkey_t) : outcome (reply Z) :=
  let '(st, m) := get_shlock_map st in
  p <-! pt_get m key;
  match p with
  | None => Done (Returns st 0)
  | Some _ =>
      r <-! deref_lock st p;
      let '(b, lk) := r in
      if ref lk =? 0 then Done (Returns st 0)
      else if negb (u32 t =? tid lk) then Done (Returns st 0)
      else
        u <-! (if pthread then mutex_unlock lk t else Done (Some lk));
        match u with
        | None => Done (Returns st (-1))
        | Some lk =>
            let n := u32 (ref lk - 1) in
            Done (Returns (put_lock st b (mk_lock n (if n =? 0 then 0 else tid lk) (recursive lk) (held lk))) 0)
        end
  end.

End locks.
Arguments Returns {T A} st a.
Arguments Blocks {T A}.

(** ** The hash map provides the interface *)

Section shmap_table.
Context (alloc_ok : Z -> bool).

Definition ref_ptr (v : value) : ptr := match v with Ref _ p _ => p | Owned _ _ => NULL end.
Definition is_ref (v : value) : Prop := match v with Ref _ _ _ => True | Owned _ _ => False end.

Definition table_inv (t : heap * shmap_t) : Prop :=
  ShMap.inv (fst t) (snd t) /\ map_Forall (fun _ v => is_ref v) (abs (fst t) (snd t)).
Definition table_view (t : heap * shmap_t) : gmap bytes ptr := ref_ptr <$> abs (fst t) (snd t).

Lemma table_init_ok : table_inv (heap_empty, shmap_init) /\ table_view (heap_empty, shmap_init) = ∅.
Proof.
  destruct (shmap_init_inv heap_empty heap_wf_empty) as [Hi Ha]. unfold table_inv, table_view. cbn [fst snd].
  rewrite Ha. split_and!; [done | apply map_Forall_empty | apply fmap_empty].
Qed.

Lemma table_get_ok t k :
  table_inv t -> shmap_get_ptr (Some (snd t)) (Some k) = Done (default NULL (table_view t !! shkey_image k)).
Proof.
  intros [Hi Hr]. destruct (get_ent_observes (fst t) (snd t) k Hi) as (r & Er & Ho).
  unfold shmap_get_ptr, shmap_get. rewrite Er. cbn [obind]. f_equal. unfold table_view. rewrite lookup_fmap.
  destruct (abs (fst t) (snd t) !! shkey_image k) as [v|] eqn:Ev; cbn [observes fmap option_fmap option_map default] in *.
  - specialize (Hr _ _ Ev). destruct v; [done |]. by rewrite Ho.
  - by rewrite Ho.
Qed.

Lemma table_set_ok t k p :
  table_inv t -> p <> NULL -> Z.of_nat (size (table_view t)) + 1 < 2 ^ 31 ->
  exists t', shmap_set_ptr alloc_ok (fst t) (snd t) (Some k) p = Done t' /\ table_inv t' /\
    table_view t' = <[shkey_image k := p]> (table_view t).
Proof.
  intros [Hi Hr] Hp Hs. destruct p as [p|]; [|done]. unfold table_view in Hs. rewrite map_size_fmap, <- count_size in Hs by done.
  destruct (set_value alloc_ok (fst t) (snd t) k SHMAP_BINARY p 0 []) as (h' & ht' & Es & Hi' & Ha' & _); [done | done | |].
  { intros Hf. exfalso. revert Hf. vm_compute. done. }
  exists (h', ht'). unfold shmap_set_ptr. rewrite Es. split; [done |]. unfold table_inv, table_view. cbn [fst snd].
  rewrite Ha', fmap_insert. split_and!; [done | by apply map_Forall_insert_2 | done].
Qed.

#[global] Instance shmap_ptr_table : PtrTable (heap * shmap_t) := {
  pt_init := (heap_empty, shmap_init);
  pt_get t k := shmap_get_ptr (Some (snd t)) (Some k);
  pt_set t k p := shmap_set_ptr alloc_ok (fst t) (snd t) (Some k) p;
  pt_inv := table_inv;
  pt_view := table_view;
  pt_init_ok := table_init_ok;
  pt_get_ok := table_get_ok;
  pt_set_ok := table_set_ok
}.

End shmap_table.

(** ** Histories of calls *)

Inductive event : Type :=
| Open (t : Z) (key : shkey_t) (flags : Z)
| TryOpen (t : Z) (key : shkey_t) (flags : Z)
| Close (t : Z) (key : shkey_t).

Definition thread (ev : event) : Z := match ev with Open t _ _ | TryOpen t _ _ | Close t _ => t end.
Definition is_try (ev : event) : bool := match ev with TryOpen _ _ _ => true | _ => false end.

(** How often thread [t] holds the lock [k] by a trace of calls and successes
    alone: a successful open enters, a close leaves. *)
Definition depth_step (t : Z) (k : bytes) (d : Z) (er : event * bool) : Z :=
  match er with
  | (Open t' key _, r) | (TryOpen t' key _, r) =>
      if r && (t' =? t) && bool_decide (shkey_image key = k) then d + 1 else d
  | (Close t' key, _) =>
      if (t' =? t) && bool_decide (shkey_image key = k) then Z.max 0 (d - 1) else d
  end.
Definition depth (tr : list (event * bool)) (t : Z) (k : bytes) : Z := fold_left (depth_step t k) tr 0.

Lemma depth_snoc tr er t k : depth (tr ++ [er]) t k = depth_step t k (depth tr t k) er.
Proof. unfold depth. by rewrite fold_left_app. Qed.

Section histories.
Context {T : Type} `{PtrTable T}.

Definition success {A} (f : A -> bool) (r : reply (T := T) A) : reply bool :=
  match r with Returns st a => Returns st (f a) | Blocks => Blocks end.

(** One call and whether it succeeded; memory is available. *)
Definition exec (pthread : bool) (st : state) (ev : event) : outcome (reply bool) :=
  match ev with
  | Open t key flags =>
      r <-! shlock_open pthread st true t key flags; Done (success (fun p => bool_decide (p <> NULL)) r)
  | TryOpen t key flags =>
      r <-! shlock_tryopen pthread st true t key flags NULL; Done (success (fun rp => fst rp =? 0) r)
  | Close t key => r <-! shlock_close pthread st t key; Done (success (fun rc => rc =? 0) r)
  end.

Inductive history (pthread : bool) : list (event * bool) -> state -> Prop :=
| history_nil : history pthread [] initial
| history_step tr st ev st' r :
    history pthread tr st -> exec pthread st ev = Done (Returns st' r) ->
    history pthread (tr ++ [(ev, r)]) st'.

(** ** The store of locks *)

Definition view_of (st : state) : gmap bytes ptr :=
  match lock_map st with None => ∅ | Some t => pt_view t end.

(** The table maps distinct keys to distinct allocated locks. *)
Definition store_inv (st : state) : Prop :=
  (forall t, lock_map st = Some t -> pt_inv t) /\
  (forall k p, view_of st !! k = Some p -> exists b, p = Some (b, 0) /\ b < next_lk st /\ is_Some (locks st !! b)) /\
  (forall k1 k2 p, view_of st !! k1 = Some p -> view_of st !! k2 = Some p -> k1 = k2).

Definition lock_at (st : state (T := T)) (p : option ptr) : option shlock_t :=
  match p with Some (Some (b, _)) => locks st !! b | _ => None end.
Definition lock_of (st : state) (k : bytes) : option shlock_t := lock_at st (view_of st !! k).

Lemma store_inv_initial : store_inv initial.
Proof. unfold store_inv, view_of. cbn [lock_map initial]. split_and!; [done | |]; intros *; by rewrite lookup_empty. Qed.

Lemma lock_of_initial k : lock_of initial k = None.
Proof. unfold lock_of, view_of. cbn [lock_map initial]. by rewrite lookup_empty. Qed.

Lemma get_map_ok st :
  store_inv st -> exists st' t, get_shlock_map st = (st', t) /\ lock_map st' = Some t /\ pt_inv t /\
    view_of st' = view_of st /\ locks st' = locks st /\ next_lk st' = next_lk st /\ pt_view t = view_of st.
Proof.
  intros (Hi & _). unfold get_shlock_map. destruct (lock_map st) as [t|] eqn:Et.
  - exists st, t. unfold view_of. rewrite Et. split_and!; try done. by apply Hi.
  - eexists _, _. split; [done |]. destruct pt_init_ok as [H0 H1]. unfold view_of. cbn [lock_map locks next_lk]. rewrite Et, H1.
    by split_and!.
Qed.

(** Replacing the lock of a key changes no other key's lock. *)
Lemma put_lock_ok st k b lk :
  store_inv st -> view_of st !! k = Some (Some (b, 0)) ->
  store_inv (put_lock st b lk) /\ lock_of (put_lock st b lk) k = Some lk /\
  view_of (put_lock st b lk) = view_of st /\
  forall k', k' <> k -> lock_of (put_lock st b lk) k' = lock_of st k'.
Proof.
  intros (Hi & Hv & Hinj) Hk. assert (view_of (put_lock st b lk) = view_of st) as He by done. split_and!; [|  | done |].
  - split_and!; [done | | by rewrite He]. rewrite He. intros k' p Hp. destruct (Hv k' p Hp) as (c & -> & Hc & Hs).
    exists c. split_and!; [done | done |]. cbn [locks put_lock]. apply lookup_insert_is_Some. destruct (decide (b = c)); auto.
  - unfold lock_of. rewrite He, Hk. cbn [lock_at locks put_lock]. by rewrite lookup_insert_eq.
  - intros k' Hne. unfold lock_of. rewrite He. destruct (view_of st !! k') as [[[c o]|]|] eqn:Ek; [|done..].
    cbn [lock_at locks put_lock]. destruct (Hv k' _ Ek) as (c' & [= -> ->] & _). rewrite lookup_insert_ne; [done |].
    intros ->. apply Hne. by apply (Hinj k' k (Some (c', 0))).
Qed.

(** The lock a call works on: the one of the key, or a new one. *)
Definition fresh_lock (flags : Z) : shlock_t := mk_lock 0 0 (negb (has_flag flags SHLK_PRIVATE)) None.

Lemma find_lock_ok st key flags :
  store_inv st -> Z.of_nat (size (view_of st)) + 1 < 2 ^ 31 ->
  exists st' b, find_lock st true key flags = Done (st', Some (Some (b, 0))) /\ store_inv st' /\
    view_of st' !! shkey_image key = Some (Some (b, 0)) /\
    locks st' !! b = Some (default (fresh_lock flags) (lock_of st (shkey_image key))) /\
    (size (view_of st') <= S (size (view_of st)))%nat /\
    forall k', k' <> shkey_image key -> lock_of st' k' = lock_of st k'.
Proof.
  intros Hst Hs. unfold find_lock. destruct (get_map_ok st Hst) as (s1 & t & -> & Em & Ht & Ev & El & En & Et).
  destruct Hst as (Hi & Hv & Hinj). rewrite pt_get_ok by done. cbn [obind]. rewrite Et. set (k := shkey_image key) in *.
  assert (forall k', lock_of s1 k' = lock_of st k') as Hlo by (intros; unfold lock_of, lock_at; by rewrite Ev, El).
  destruct (view_of st !! k) as [p|] eqn:Ek; cbn [default].
  - destruct (Hv k p Ek) as (b & -> & Hb & [lk Hlk]). exists s1, b. unfold lock_of at 1. rewrite Ek, Ev, El. cbn [lock_at]. rewrite Hlk. cbn [default].
    split_and!; try done; [|lia]. unfold store_inv. rewrite Ev, El, En, Em. split_and!; [by intros ? [= <-] | done | done].
  - cbn [negb]. unfold new_lock. destruct (pt_set_ok t key (Some (next_lk s1, 0))) as (t' & -> & Ht' & Evt); [done | done | by rewrite Et |].
    cbn [obind fst snd]. rewrite Et in Evt. fold k in Evt. set (s2 := mk_state _ _ _).
    assert (view_of s2 = <[k := Some (next_lk st, 0)]> (view_of st)) as Ev2 by (unfold view_of at 1; cbn [lock_map s2]; by rewrite Evt, En).
    exists s2, (next_lk s1). unfold lock_of at 1. rewrite Ek, Ev2, En. cbn [lock_at default].
    split_and!; [done | | by rewrite lookup_insert_eq | by cbn [locks s2]; rewrite En, lookup_insert_eq | rewrite map_size_insert_None; lia || done |].
    + unfold store_inv. rewrite Ev2. cbn [lock_map locks next_lk s2]. rewrite El, En. split_and!; [by intros ? [= <-] | |].
      * intros k' p [[<- <-]|[Hne Hp]]%lookup_insert_Some; [exists (next_lk st); rewrite lookup_insert_eq; split_and!; [done | lia | done] |].
        destruct (Hv k' p Hp) as (c & -> & Hc & Hsm). exists c. rewrite lookup_insert_ne by lia. split_and!; [done | lia | done].
      * intros k1 k2 p [[<- <-]|[Hn1 H1]]%lookup_insert_Some [[<- Hq]|[Hn2 H2]]%lookup_insert_Some; try done.
        -- destruct (Hv k2 _ H2) as (c & [= <-] & ? & _). lia.
        -- subst p. destruct (Hv k1 _ H1) as (c & [= <-] & ? & _). lia.
        -- by apply (Hinj k1 k2 p).
    + intros k' Hne. unfold lock_of.
      assert (view_of s2 !! k' = view_of st !! k') as -> by (rewrite Ev2; by apply lookup_insert_ne).
      destruct (view_of st !! k') as [[[c o]|]|] eqn:Ek'; [|done..]. destruct (Hv k' _ Ek') as (c' & [= -> ->] & Hc & _).
      cbn [lock_at locks s2]. rewrite El, En, lookup_insert_ne by lia. done.
Qed.

(** ** Locks against depths

    [f t] is the depth of thread [t]; [n] bounds the number of calls. *)
Definition lock_rel (pthread : bool) (n : Z) (o : option shlock_t) (f : Z -> Z) : Prop :=
  match o with
  | None => forall t, f t = 0
  | Some lk =>
      0 <= ref lk <= n /\ 0 <= tid lk < 2 ^ 32 /\
      (forall t, is_uint 32 t -> f t = if negb (ref lk =? 0) && (tid lk =? t) then ref lk else 0) /\
      (pthread = true -> held lk = if ref lk =? 0 then None else Some (tid lk, ref lk))
  end.

Definition lock_inv (pthread : bool) (n : Z) (st : state) (d : Z -> bytes -> Z) : Prop :=
  store_inv st /\ Z.of_nat (size (view_of st)) <= n /\
  forall k, lock_rel pthread n (lock_of st k) (fun t => d t k).

Lemma lock_rel_ext pthread n m o f g :
  n <= m -> (forall t, is_uint 32 t -> f t = g t) -> (o = None -> forall t, f t = g t) ->
  lock_rel pthread n o f -> lock_rel pthread m o g.
Proof.
  intros Hn Hfg Hfg'. destruct o as [lk|]; cbn [lock_rel].
  - intros (H1 & H2 & H3 & H4). split_and!; [lia.. | | done]. intros t Ht. by rewrite <- Hfg, H3.
  - intros H0 t. by rewrite <- Hfg'.
Qed.

Lemma lock_rel_fresh pthread n flags f : 0 <= n -> (forall t, f t = 0) -> lock_rel pthread n (Some (fresh_lock flags)) f.
Proof. intros Hn Hf. cbn. split_and!; [lia.. | intros; apply Hf | done]. Qed.

(** The lock a call finds is related to the depths even when it is new. *)
Lemma lock_rel_default pthread n o f flags :
  0 <= n -> lock_rel pthread n o f -> lock_rel pthread n (Some (default (fresh_lock flags) o)) f.
Proof. intros Hn. destruct o as [lk|]; cbn [default]; [done |]. by apply lock_rel_fresh. Qed.

Lemma lock_rel_taken pthread n lk t f g h :
  lock_rel pthread n (Some lk) f -> is_uint 32 t -> n + 1 < 2 ^ 32 -> (ref lk = 0 \/ tid lk = t) ->
  (forall t', is_uint 32 t' -> g t' = if t' =? t then f t' + 1 else f t') ->
  (pthread = true -> h = Some (t, ref lk + 1)) ->
  lock_rel pthread (n + 1) (Some (taken (mk_lock (ref lk) (tid lk) (recursive lk) h) t)) g.
Proof.
  intros (H1 & H2 & H3 & H4) Ht Hn Hor Hg Hh. unfold taken. cbn [lock_rel ref tid recursive held].
  rewrite !wrap_small by rlia. destruct (Z.eqb_spec (ref lk + 1) 0); [lia |]. cbn [negb andb].
  split_and!; [lia | lia | rlia | rlia | | intros Hp; by apply Hh].
  intros t' Ht'. rewrite Hg, H3 by done. destruct (Z.eqb_spec (ref lk) 0), (Z.eqb_spec (tid lk) t'), (Z.eqb_spec t' t), (Z.eqb_spec t t');
    cbn [negb andb]; try lia; destruct Hor; lia.
Qed.

Lemma lock_rel_released pthread n lk t f g h :
  lock_rel pthread n (Some lk) f -> is_uint 32 t -> ref lk <> 0 -> tid lk = t -> n < 2 ^ 32 ->
  (forall t', is_uint 32 t' -> g t' = if t' =? t then Z.max 0 (f t' - 1) else f t') ->
  (pthread = true -> h = if ref lk =? 1 then None else Some (t, ref lk - 1)) ->
  lock_rel pthread (n + 1) (Some (mk_lock (u32 (ref lk - 1)) (if u32 (ref lk - 1) =? 0 then 0 else tid lk) (recursive lk) h)) g.
Proof.
  intros (H1 & H2 & H3 & H4) Ht Hr <- Hn Hg Hh. cbn [lock_rel ref tid recursive held]. rewrite !wrap_small by rlia.
  split_and!; [lia | lia | case_cmp; rlia | case_cmp; rlia | |].
  - intros t' Ht'. rewrite Hg, H3 by done. destruct (Z.eqb_spec (ref lk) 0), (Z.eqb_spec (tid lk) t'), (Z.eqb_spec t' (tid lk)),
      (Z.eqb_spec (ref lk - 1) 0); cbn [negb andb]; try lia.
    + destruct (Z.eqb_spec (tid lk) t'); lia.
    + destruct (Z.eqb_spec (tid lk) t'); lia.
  - intros Hp. rewrite Hh by done. destruct (Z.eqb_spec (ref lk) 1), (Z.eqb_spec (ref lk - 1) 0); try lia; done.
Qed.

Lemma lock_inv_initial pthread : lock_inv pthread 0 initial (fun _ _ => 0).
Proof.
  split_and!; [apply store_inv_initial | reflexivity |]. intros k. rewrite lock_of_initial. done.
Qed.

(** A call that works on one key. *)
Lemma lock_inv_update pthread n st d st1 k d' :
  lock_inv pthread n st d -> store_inv st1 -> (size (view_of st1) <= S (size (view_of st)))%nat ->
  (forall k', k' <> k -> lock_of st1 k' = lock_of st k') -> (forall t k', k' <> k -> d' t k' = d t k') ->
  lock_rel pthread (n + 1) (lock_of st1 k) (fun t => d' t k) -> lock_inv pthread (n + 1) st1 d'.
Proof.
  intros (_ & Hs & Hr) Hst Hs1 Ho Hd Hk. split_and!; [done | lia |]. intros k'.
  destruct (decide (k' = k)) as [->|Hne]; [done |]. rewrite Ho by done.
  eapply lock_rel_ext; [| | |apply Hr]; [lia | |]; intros; cbn beta; by rewrite Hd.
Qed.

Definition event_key (ev : event) : bytes :=
  shkey_image (match ev with Open _ key _ | TryOpen _ key _ | Close _ key => key end).

Lemma depth_step_other t k d ev r : k <> event_key ev -> depth_step t k d (ev, r) = d.
Proof.
  intros Hne. destruct ev; cbn [depth_step event_key] in *; rewrite bool_decide_eq_false_2 by (intros <-; by apply Hne);
    by rewrite ?andb_false_r.
Qed.

Lemma busy_spec pthread n lk t flags f :
  lock_rel pthread n (Some lk) f -> is_uint 32 t ->
  busy lk t flags = false <->
    (forall t', is_uint 32 t' -> t' <> t -> f t' = 0) /\ (has_flag flags SHLK_PRIVATE = true -> f t = 0).
Proof.
  intros (H1 & H2 & H3 & _) Ht. unfold busy. rewrite wrap_small by done.
  assert (is_uint 32 (tid lk)) as Hu by rlia. pose proof (H3 _ Hu) as Hown. rewrite Z.eqb_refl, andb_true_r in Hown.
  destruct (Z.eqb_spec (ref lk) 0) as [E0|E0]; cbn [negb andb] in *.
  - split; [|done]. intros _. split; intros; by rewrite H3.
  - destruct (Z.eqb_spec t (tid lk)) as [->|Hne]; cbn [negb].
    + rewrite orb_false_r. split.
      * intros ->. split; [|done]. intros t' Ht' Hn. rewrite H3 by done. by destruct (Z.eqb_spec (tid lk) t').
      * intros [_ Hp]. destruct (has_flag flags SHLK_PRIVATE); [|done]. lia.
    + rewrite orb_true_r. split; [done |]. intros [Ho _]. rewrite (Ho (tid lk)) in Hown by (done || congruence). lia.
Qed.

(** What follows once the lock of the key is found. *)
Lemma commit pthread n st d ev r st1 b lk :
  lock_inv pthread n st d -> store_inv st1 -> view_of st1 !! event_key ev = Some (Some (b, 0)) ->
  (size (view_of st1) <= S (size (view_of st)))%nat ->
  (forall k', k' <> event_key ev -> lock_of st1 k' = lock_of st k') ->
  lock_rel pthread (n + 1) (Some lk) (fun t => depth_step t (event_key ev) (d t (event_key ev)) (ev, r)) ->
  lock_inv pthread (n + 1) (put_lock st1 b lk) (fun t k => depth_step t k (d t k) (ev, r)).
Proof.
  intros Hi Hst Hv Hs Ho Hr. destruct (put_lock_ok st1 (event_key ev) b lk Hst Hv) as (H1 & H2 & H3 & H4).
  eapply (lock_inv_update _ _ st d _ (event_key ev)); [done | done | by rewrite H3 | | |].
  - intros k' Hne. by rewrite H4, Ho.
  - intros t k' Hne. by apply depth_step_other.
  - by rewrite H2.
Qed.

(** A refused call leaves every lock as it was. *)
Lemma refused pthread n st d ev st1 b lk :
  lock_inv pthread n st d -> store_inv st1 -> view_of st1 !! event_key ev = Some (Some (b, 0)) -> locks st1 !! b = Some lk ->
  (size (view_of st1) <= S (size (view_of st)))%nat ->
  (forall k', k' <> event_key ev -> lock_of st1 k' = lock_of st k') ->
  lock_rel pthread n (Some lk) (fun t => d t (event_key ev)) ->
  (forall t k, depth_step t k (d t k) (ev, false) = d t k) ->
  lock_inv pthread (n + 1) st1 (fun t k => depth_step t k (d t k) (ev, false)).
Proof.
  intros Hi Hst Hv Hl Hs Ho Hr Hd. eapply (lock_inv_update _ _ st d _ (event_key ev)); [done | done | done | done | |].
  - intros t k' Hne. by apply depth_step_other.
  - unfold lock_of. rewrite Hv. cbn [lock_at]. rewrite Hl. eapply lock_rel_ext; [| | |exact Hr]; [lia | |]; intros; by rewrite Hd.
Qed.

Lemma lock_eta lk : lk = mk_lock (ref lk) (tid lk) (recursive lk) (held lk).
Proof. by destruct lk. Qed.

Lemma busy_free lk t flags : busy lk t flags = false -> ref lk = 0 \/ tid lk = u32 t.
Proof.
  unfold busy. destruct (Z.eqb_spec (ref lk) 0); [by left |]. intros [_ Hb]%orb_false_elim. right. destruct (Z.eqb_spec (u32 t) (tid lk)); done.
Qed.

(** Opening without the thread library. *)
Lemma open_step n st d ev t key flags :
  ev = Open t key flags \/ ev = TryOpen t key flags ->
  lock_inv false n st d -> is_uint 32 t -> n + 2 < 2 ^ 31 ->
  exists st' r, exec false st ev = Done (Returns st' r) /\
    lock_inv false (n + 1) st' (fun t k => depth_step t k (d t k) (ev, r)) /\
    (r = true <-> (forall t', is_uint 32 t' -> t' <> t -> d t' (event_key ev) = 0) /\
                  (has_flag flags SHLK_PRIVATE = true -> d t (event_key ev) = 0)).
Proof.
  intros Hev Hi Ht Hn. pose proof Hi as (Hst & Hsz & Hrel). assert (event_key ev = shkey_image key) as Hk by (by destruct Hev as [->| ->]).
  destruct (find_lock_ok st key flags Hst) as (st1 & b & Ef & Hst1 & Hv1 & Hl1 & Hs1 & Ho1); [lia |]. rewrite <- Hk in *.
  set (lk := default _ _) in *. pose proof (lock_rel_default false n _ _ flags ltac:(lia) (Hrel (event_key ev))) as Hlk. fold lk in Hlk.
  pose proof (busy_spec _ _ lk t flags _ Hlk Ht) as Hb. cbn beta in Hb.
  exists (if busy lk t flags then st1 else put_lock st1 b (taken lk t)), (negb (busy lk t flags)).
  split; [|split].
  - destruct Hev as [->| ->]; cbn [exec]; unfold shlock_open, shlock_tryopen; rewrite Ef; cbn [obind deref_lock]; rewrite Hl1; cbn [obind];
      destruct (busy lk t flags); reflexivity.
  - destruct (busy lk t flags) eqn:Eb; cbn [negb].
    + apply (refused false n st d ev st1 b lk); try done. intros t' k'. by destruct Hev as [->| ->].
    + apply (commit false n st d ev true st1 b); try done. rewrite (lock_eta lk). apply (lock_rel_taken false n lk t (fun t' => d t' (event_key ev))); try done.
      * lia.
      * destruct (busy_free lk t flags Eb); [by left | right; by rewrite <- (wrap_small 32 t)].
      * intros t' _. rewrite (Z.eqb_sym t' t). destruct Hev as [->| ->]; cbn [depth_step]; rewrite bool_decide_true, andb_true_r by done;
          by destruct (t =? t').
  - rewrite <- Hb. by destruct (busy lk t flags).
Qed.

(** Opening with the thread library: the call may wait. *)
Lemma open_step_pthread n st d t key flags :
  lock_inv true n st d -> is_uint 32 t -> n + 2 < 2 ^ 31 ->
  exec true st (Open t key flags) = Done Blocks \/
  exists st', exec true st (Open t key flags) = Done (Returns st' true) /\
    lock_inv true (n + 1) st' (fun t' k => depth_step t' k (d t' k) (Open t key flags, true)).
Proof.
  intros Hi Ht Hn. pose proof Hi as (Hst & Hsz & Hrel). set (ev := Open t key flags). change (shkey_image key) with (event_key ev) in *.
  destruct (find_lock_ok st key flags Hst) as (st1 & b & Ef & Hst1 & Hv1 & Hl1 & Hs1 & Ho1); [lia |].
  change (shkey_image key) with (event_key ev) in *.
  set (lk := default _ _) in *. pose proof (lock_rel_default true n _ _ flags ltac:(lia) (Hrel (event_key ev))) as Hlk. fold lk in Hlk.
  pose proof Hlk as (_ & _ & _ & Hh). specialize (Hh eq_refl).
  cbn [exec ev]. unfold shlock_open. rewrite Ef. cbn [obind deref_lock]. rewrite Hl1. cbn [obind]. unfold mutex_lock. rewrite Hh.
  assert (forall h, h = Some (t, ref lk + 1) -> ref lk = 0 \/ tid lk = t ->
    lock_inv true (n + 1) (put_lock st1 b (taken (mk_lock (ref lk) (tid lk) (recursive lk) h) t))
      (fun t' k => depth_step t' k (d t' k) (ev, true))) as Hc.
  { intros h Eh Hor. apply (commit true n st d ev true st1 b); try done.
    apply (lock_rel_taken true n lk t (fun t' => d t' (event_key ev))); try done; [lia |].
    intros t' _. rewrite (Z.eqb_sym t' t). cbn [ev depth_step]. rewrite bool_decide_true, andb_true_r by done. by destruct (t =? t'). }
  destruct (Z.eqb_spec (ref lk) 0) as [E0|E0].
  - right. eexists. split; [reflexivity |]. apply Hc; [by rewrite E0 | by left].
  - destruct (Z.eqb_spec (tid lk) t) as [Et|]; [|by left]. cbn [andb]. destruct (recursive lk) eqn:Er; [|by left].
    right. eexists. split; [reflexivity |]. apply Hc; [done | by right].
Qed.

Lemma close_step pthread n st d t key :
  lock_inv pthread n st d -> is_uint 32 t -> n + 2 < 2 ^ 31 ->
  exists st', exec pthread st (Close t key) = Done (Returns st' true) /\
    lock_inv pthread (n + 1) st' (fun t' k => depth_step t' k (d t' k) (Close t key, true)).
Proof.
  intros Hi Ht Hn. pose proof Hi as (Hst & Hsz & Hrel). set (ev := Close t key). specialize (Hrel (event_key ev)).
  cbn [exec ev]. unfold shlock_close. destruct (get_map_ok st Hst) as (s1 & m & -> & Em & Hm & Ev & El & En & Et).
  rewrite pt_get_ok by done. cbn [obind]. rewrite Et. change (shkey_image key) with (event_key ev).
  assert (store_inv s1) as Hs1.
  { destruct Hst as (_ & Hv & Hinj). unfold store_inv. rewrite Ev, El, En, Em. split_and!; [by intros ? [= <-] | done | done]. }
  assert (forall k, lock_of s1 k = lock_of st k) as Hlo by (intros; unfold lock_of, lock_at; by rewrite Ev, El).
  assert (forall t', depth_step t' (event_key ev) (d t' (event_key ev)) (ev, true) =
    if t =? t' then Z.max 0 (d t' (event_key ev) - 1) else d t' (event_key ev)) as Hd.
  { intros t'. cbn [ev depth_step]. by rewrite bool_decide_true, andb_true_r. }
  (* nothing changes when the thread does not hold the lock *)
  assert (d t (event_key ev) = 0 -> lock_inv pthread (n + 1) s1 (fun t' k => depth_step t' k (d t' k) (ev, true))) as Hsame.
  { intros H0. eapply (lock_inv_update _ _ st d _ (event_key ev)); [done | done | rewrite Ev; lia | intros; apply Hlo | intros; by apply depth_step_other |].
    rewrite Hlo. eapply lock_rel_ext; [| | |exact Hrel]; [lia | |]; intros; rewrite Hd; (case_cmp as [<-|]; [lia | done]). }
  destruct (view_of st !! event_key ev) as [p|] eqn:Ep; cbn [default].
  2:{ exists s1. split; [done |]. apply Hsame. unfold lock_of in Hrel. rewrite Ep in Hrel. by apply Hrel. }
  destruct Hst as (_ & Hv & _). destruct (Hv _ _ Ep) as (b & -> & _ & [lk Hlk]). unfold lock_of in Hrel. rewrite Ep in Hrel.
  cbn [lock_at] in Hrel. rewrite Hlk in Hrel. pose proof Hrel as (H1 & H2 & H3 & H4). cbn [deref_lock id]. rewrite El, Hlk. cbn [obind].
  destruct (Z.eqb_spec (ref lk) 0) as [E0|E0].
  { exists s1. split; [done |]. apply Hsame. rewrite H3 by done. by rewrite E0. }
  rewrite wrap_small by done. destruct (Z.eqb_spec t (tid lk)) as [Etid|Hne]; cbn [negb].
  2:{ exists s1. split; [done |]. apply Hsame. rewrite H3 by done. destruct (Z.eqb_spec (tid lk) t); [congruence |]. by rewrite andb_false_r. }
  assert (exists h, (if pthread then mutex_unlock lk t else Done (Some lk)) = Done (Some (mk_lock (ref lk) (tid lk) (recursive lk) h)) /\
    (pthread = true -> h = if ref lk =? 1 then None else Some (t, ref lk - 1))) as (h & -> & Hh).
  { destruct pthread; [|exists (held lk); split; [by rewrite <- lock_eta | done]]. unfold mutex_unlock. rewrite H4 by done.
    destruct (Z.eqb_spec (ref lk) 0); [done |]. rewrite <- Etid, Z.eqb_refl. by eexists. }
  cbn [obind ref tid recursive held]. eexists. split; [reflexivity |].
  apply (commit pthread n st d ev true s1 b); try done; [by rewrite Ev | rewrite Ev; lia |].
  apply (lock_rel_released pthread n lk t (fun t' => d t' (event_key ev))); try done; [lia |].
  intros t' _. by rewrite Hd, Z.eqb_sym.
Qed.

(** ** The invariant of all histories *)

Definition threads_ok (tr : list (event * bool)) : Prop := Forall (fun er => is_uint 32 (thread (fst er))) tr.
Definition no_try (tr : list (event * bool)) : Prop := Forall (fun er => is_try (fst er) = false) tr.

Lemma lock_inv_ext pthread n st d d' :
  (forall t k, d t k = d' t k) -> lock_inv pthread n st d -> lock_inv pthread n st d'.
Proof.
  intros He (H1 & H2 & H3). split_and!; [done.. |]. intros k.
  eapply lock_rel_ext; [| | |apply H3]; [lia | |]; intros; apply He.
Qed.

Lemma history_inv pthread tr st :
  history pthread tr st -> threads_ok tr -> (pthread = true -> no_try tr) -> Z.of_nat (length tr) + 1 < 2 ^ 31 ->
  lock_inv pthread (Z.of_nat (length tr)) st (depth tr).
Proof.
  induction 1 as [|tr st ev st' r Hh IH Ex]; intros Ht Hnt Hl; [apply lock_inv_initial |].
  apply Forall_app in Ht as [Ht Hev]. apply List.Forall_cons_iff in Hev as [Hev _]. rewrite length_app in Hl |- *. cbn [length fst] in *.
  assert (pthread = true -> no_try tr /\ is_try ev = false) as Hnt'.
  { intros Hp. specialize (Hnt Hp). apply Forall_app in Hnt as [Hn1 Hn2]. apply List.Forall_cons_iff in Hn2 as [Hn2 _]. split; [exact Hn1 | exact Hn2]. }
  assert (lock_inv pthread (Z.of_nat (length tr)) st (depth tr)) as Hi by (apply IH; [done | intros Hp; by apply Hnt' | lia]).
  assert (lock_inv pthread (Z.of_nat (length tr) + 1) st' (fun t k => depth_step t k (depth tr t k) (ev, r))) as Hi'.
  { assert (forall t key flags, ev = Open t key flags \/ ev = TryOpen t key flags -> pthread = false ->
      lock_inv pthread (Z.of_nat (length tr) + 1) st' (fun t k => depth_step t k (depth tr t k) (ev, r))) as Hopen.
    { intros t key flags Hor ->. destruct (open_step (Z.of_nat (length tr)) st (depth tr) ev t key flags Hor) as (s & r' & Er & Hi' & _);
        [done | by destruct Hor as [->| ->] | lia |]. rewrite Er in Ex. by injection Ex as <- <-. }
    destruct ev as [t key flags|t key flags|t key].
    - destruct pthread; [|by eapply Hopen; [left |]].
      destruct (open_step_pthread (Z.of_nat (length tr)) st (depth tr) t key flags) as [Eb|(s & Er & Hi')]; [done | done | lia | congruence |].
      rewrite Er in Ex. by injection Ex as <- <-.
    - destruct pthread; [by destruct (Hnt' eq_refl) |]. by eapply Hopen; [right |].
    - destruct (close_step pthread (Z.of_nat (length tr)) st (depth tr) t key) as (s & Er & Hi'); [done | done | lia |].
      rewrite Er in Ex. by injection Ex as <- <-. }
  rewrite Nat2Z.inj_add. eapply lock_inv_ext; [|exact Hi']. intros. by rewrite depth_snoc.
Qed.

Lemma depth_exclusive pthread n st d k t1 t2 :
  lock_inv pthread n st d -> is_uint 32 t1 -> is_uint 32 t2 -> t1 <> t2 -> d t1 k = 0 \/ d t2 k = 0.
Proof.
  intros (_ & _ & Hr) H1 H2 Hne. specialize (Hr k). destruct (lock_of st k) as [lk|]; cbn [lock_rel] in Hr; [|by left].
  destruct Hr as (_ & _ & Hf & _). rewrite !Hf by done.
  destruct (Z.eqb_spec (tid lk) t1), (Z.eqb_spec (tid lk) t2), (ref lk =? 0); cbn; auto. congruence.
Qed.

(** ** Locks held by lock_of alone *)

Lemma try_pthread st t key flags lk' :
  store_inv st -> Z.of_nat (size (view_of st)) + 1 < 2 ^ 31 ->
  let lk := default (fresh_lock flags) (lock_of st (shkey_image key)) in
  busy lk t flags = false ->
  (if (ref lk =? 0) || negb (tid lk =? u32 t) then mutex_trylock lk t else Some lk) = Some lk' ->
  exists st', exec true st (TryOpen t key flags) = Done (Returns st' true) /\ store_inv st' /\
    lock_of st' (shkey_image key) = Some (taken lk' t) /\ (size (view_of st') <= S (size (view_of st)))%nat.
Proof.
  intros Hst Hs lk Hb Hl. destruct (find_lock_ok st key flags Hst Hs) as (st1 & b & Ef & Hst1 & Hv1 & Hl1 & Hs1 & _).
  destruct (put_lock_ok st1 (shkey_image key) b (taken lk' t) Hst1 Hv1) as (Hi & Hlo & Hv & _).
  exists (put_lock st1 b (taken lk' t)). rewrite Hv. split_and!; [|done..]. cbn [exec]. unfold shlock_tryopen. rewrite Ef.
  cbn [obind deref_lock]. rewrite Hl1. fold lk. cbn [obind]. rewrite Hb. cbn [andb]. by rewrite Hl.
Qed.

Lemma close_pthread st t key lk :
  store_inv st -> lock_of st (shkey_image key) = Some lk -> ref lk <> 0 -> tid lk = u32 t ->
  (forall lk', mutex_unlock lk t = Done (Some lk') ->
    exists st', exec true st (Close t key) = Done (Returns st' true) /\ store_inv st' /\ view_of st' = view_of st /\
      lock_of st' (shkey_image key) =
        Some (mk_lock (u32 (ref lk' - 1)) (if u32 (ref lk' - 1) =? 0 then 0 else tid lk') (recursive lk') (held lk'))) /\
  (mutex_unlock lk t = Done None ->
    exists st', exec true st (Close t key) = Done (Returns st' false) /\ store_inv st' /\ view_of st' = view_of st /\
      lock_of st' (shkey_image key) = Some lk).
Proof.
  intros Hst Hl Hr Ht. cbn [exec]. unfold shlock_close. destruct (get_map_ok st Hst) as (s1 & m & -> & Em & Hm & Ev & El & En & Et).
  rewrite pt_get_ok by done. cbn [obind]. rewrite Et. set (k := shkey_image key) in *.
  assert (store_inv s1) as Hs1.
  { destruct Hst as (_ & Hv & Hinj). unfold store_inv. rewrite Ev, El, En, Em. split_and!; [by intros ? [= <-] | done | done]. }
  pose proof Hl as Hl'. unfold lock_of in Hl'. destruct (view_of st !! k) as [p|] eqn:Ep; [|done]. destruct Hst as (_ & Hv & _).
  destruct (Hv _ _ Ep) as (b & -> & _ & _). cbn [lock_at] in Hl'. cbn [default id deref_lock]. rewrite El, Hl'. cbn [obind].
  destruct (Z.eqb_spec (ref lk) 0); [done |]. rewrite Ht, Z.eqb_refl. cbn [negb]. split.
  - intros lk' ->. cbn [obind]. eexists. split; [reflexivity |]. rewrite <- Ev in Ep.
    destruct (put_lock_ok s1 k b (mk_lock (u32 (ref lk' - 1)) (if u32 (ref lk' - 1) =? 0 then 0 else tid lk') (recursive lk') (held lk')) Hs1 Ep)
      as (Hi & Hlo & Hvv & _). rewrite Hvv, Ev. by split_and!.
  - intros ->. cbn [obind]. exists s1. split_and!; try done. unfold lock_of, lock_at in *. by rewrite Ev, El.
Qed.

End histories.

(** ** Theorems *)

(** Without the thread library, after any history of calls, [shlock_open]
    and [shlock_tryopen] return without waiting or faulting, and succeed
    exactly when no other thread holds the lock and, for SHLK_PRIVATE, the
    caller does not hold it either; holding is counted on the trace of calls
    and successes alone. *)
Theorem shlock_open_iff {T} `{PtrTable T} tr st ev t key flags :
  ev = Open t key flags \/ ev = TryOpen t key flags ->
  history false tr st -> threads_ok tr -> is_uint 32 t -> Z.of_nat (length tr) + 2 < 2 ^ 31 ->
  exists st' r, exec false st ev = Done (Returns st' r) /\
    (r = true <-> (forall t', is_uint 32 t' -> t' <> t -> depth tr t' (shkey_image key) = 0) /\
                  (has_flag flags SHLK_PRIVATE = true -> depth tr t (shkey_image key) = 0)).
Proof.
  intros Hev Hh Ht Hu Hl. assert (event_key ev = shkey_image key) as <- by (by destruct Hev as [->| ->]).
  destruct (open_step (Z.of_nat (length tr)) st (depth tr) ev t key flags Hev) as (st' & r & Ex & _ & Hr);
    [apply history_inv; (done || lia) | done | done |]. by exists st', r.
Qed.

#[global] Instance demo_table : PtrTable (heap * shmap_t) := shmap_ptr_table (fun _ => true).

Definition lock_key : shkey_t := mk_key 0 0 [1; 2; 3; 4; 5; 6; 7].

Definition demo_state : state (T := heap * shmap_t) :=
  match exec false initial (Open 7 lock_key 0) with Done (Returns st _) => st | _ => initial end.

Lemma demo_history : history false [(Open 7 lock_key 0, true)] demo_state.
Proof. apply (history_step false [] initial); [constructor | vm_compute; reflexivity]. Qed.

Lemma shlock_open_iff_witness :
  exists st' r, exec false demo_state (Open 8 lock_key 0) = Done (Returns st' r) /\
    (r = true <-> (forall t', is_uint 32 t' -> t' <> 8 -> depth [(Open 7 lock_key 0, true)] t' (shkey_image lock_key) = 0) /\
                  (has_flag 0 SHLK_PRIVATE = true -> depth [(Open 7 lock_key 0, true)] 8 (shkey_image lock_key) = 0)).
Proof.
  apply (shlock_open_iff [(Open 7 lock_key 0, true)] demo_state (Open 8 lock_key 0) 8 lock_key 0);
    [by left | apply demo_history | repeat constructor; done | by split | reflexivity].
Defined.

(** Mutual exclusion, in both builds, for calls that run one after the other: at
    every point of every history two different threads never hold the same lock;
    with the thread library this holds for histories without [shlock_tryopen].
    ShLockSteps has the calls interleave step by step. *)
Theorem shlock_exclusion {T} `{PtrTable T} pthread tr st k t1 t2 :
  history pthread tr st -> threads_ok tr -> (pthread = true -> no_try tr) -> Z.of_nat (length tr) + 1 < 2 ^ 31 ->
  is_uint 32 t1 -> is_uint 32 t2 -> t1 <> t2 -> depth tr t1 k = 0 \/ depth tr t2 k = 0.
Proof. intros. eapply depth_exclusive; [by apply history_inv | done..]. Qed.

(** Thread 7 enters twice, 8 is refused, 7 leaves twice, 8 enters. *)
Definition demo_calls : list event :=
  [Open 7 lock_key 0; Open 7 lock_key 0; Open 8 lock_key 0; Close 7 lock_key; Close 7 lock_key; Open 8 lock_key 0].

Fixpoint play (st : state (T := heap * shmap_t)) (l : list event) (tr : list (event * bool)) : list (event * bool) * state (T := heap * shmap_t) :=
  match l with
  | [] => (tr, st)
  | ev :: l' => match exec false st ev with Done (Returns st' r) => play st' l' (tr ++ [(ev, r)]) | _ => (tr, st) end
  end.

Lemma play_history l : forall st tr, history false tr st -> let '(tr', st') := play st l tr in history false tr' st'.
Proof.
  induction l as [|ev l IH]; intros st tr Hh; cbn [play]; [done |].
  destruct (exec false st ev) as [[st' r|]|] eqn:Ex; [|done..]. apply IH. by apply (history_step false tr st).
Qed.

Lemma shlock_exclusion_witness :
  let tr := fst (play initial demo_calls []) in
  map snd tr = [true; true; false; true; true; true] /\
  (depth tr 7 (shkey_image lock_key) = 0 \/ depth tr 8 (shkey_image lock_key) = 0).
Proof.
  pose proof (play_history demo_calls initial [] (history_nil false)) as Hh.
  intros tr. split; [vm_compute; reflexivity |]. unfold tr. destruct (play initial demo_calls []) as [tr' st'] eqn:E. cbn [fst].
  assert (tr' = [(Open 7 lock_key 0, true); (Open 7 lock_key 0, true); (Open 8 lock_key 0, false); (Close 7 lock_key, true); (Close 7 lock_key, true); (Open 8 lock_key 0, true)]) as ->
    by (change tr' with (fst (tr', st')); rewrite <- E; vm_compute; reflexivity).
  apply (shlock_exclusion false _ st'); [exact Hh | repeat constructor; done | done | reflexivity | by split | by split | done].
Defined.

(** With the thread library a second [shlock_tryopen] of the holder counts
    a reference without locking the recursive mutex again, and every
    [shlock_close] unlocks it: after as many closes as opens the last close
    reports an error, the lock keeps one reference, and its mutex is free. *)
Theorem shlock_tryopen_twice {T} `{PtrTable T} t key flags :
  is_uint 32 t -> has_flag flags SHLK_PRIVATE = false ->
  exists st lk, history true [(TryOpen t key flags, true); (TryOpen t key flags, true); (Close t key, true); (Close t key, false)] st /\
    lock_of st (shkey_image key) = Some lk /\ ref lk = 1 /\ tid lk = t /\ held lk = None.
Proof.
  intros Ht Hf. pose proof store_inv_initial as H0.
  assert (Z.of_nat (size (view_of (initial (T := T)))) = 0) as Hs0 by done.
  pose proof (lock_of_initial (shkey_image key)) as L0. change (2 ^ 31) with 2147483648 in *.
  assert (u32 t = t) as Hu by (by apply wrap_small).
  destruct (try_pthread initial t key flags (mk_lock 0 0 true (Some (t, 1)))) as (s1 & E1 & H1 & L1 & S1);
    [done | rewrite Hs0; done | by rewrite L0 | rewrite L0; unfold fresh_lock; rewrite Hf; reflexivity |].
  unfold taken in L1. cbn [ref tid recursive held] in L1. rewrite Hu in L1. change (u32 (0 + 1)) with 1 in L1.
  destruct (try_pthread s1 t key flags (mk_lock 1 t true (Some (t, 1)))) as (s2 & E2 & H2 & L2 & S2);
    [done | lia | rewrite L1; unfold busy | rewrite L1 |]; cbn [default id ref tid]; rewrite ?Hf, ?Hu, ?Z.eqb_refl; try reflexivity.
  unfold taken in L2. cbn [ref tid recursive held] in L2. rewrite Hu in L2. change (u32 (1 + 1)) with 2 in L2.
  destruct (close_pthread s2 t key _ H2 L2) as [Hc _]; [done | done |].
  destruct (Hc (mk_lock 2 t true None)) as (s3 & E3 & H3 & _ & L3); [unfold mutex_unlock; cbn [held]; by rewrite Z.eqb_refl |].
  cbn [ref tid recursive held] in L3. change (u32 (2 - 1)) with 1 in L3. cbn [Z.eqb] in L3.
  destruct (close_pthread s3 t key _ H3 L3) as [_ Hc']; [done | done |].
  destruct Hc' as (s4 & E4 & H4 & _ & L4); [done |].
  exists s4. eexists. split; [|split_and!; [exact L4 | done | done | done]].
  apply (history_step _ [_; _; _] s3); [|done]. apply (history_step _ [_; _] s2); [|done].
  apply (history_step _ [_] s1); [|done]. apply (history_step _ [] initial); [constructor | done].
Qed.

Lemma shlock_tryopen_twice_witness :
  exists (st : state (T := heap * shmap_t)) lk, history true [(TryOpen 7 lock_key 0, true); (TryOpen 7 lock_key 0, true); (Close 7 lock_key, true); (Close 7 lock_key, false)] st /\
    lock_of st (shkey_image lock_key) = Some lk /\ ref lk = 1 /\ tid lk = 7 /\ held lk = None.
Proof. apply (shlock_tryopen_twice 7 lock_key 0); [by split | reflexivity]. Defined.
