(* ===== verification/ShLockSteps.v ===== *)
(** * Interleavings of the steps of lock calls

    ShLock models the calls of [share-lib/mem/shmem_lock.c] as transitions of
    their own.  Here [shlock_open] and [shlock_close] are cut at every access to
    shared memory, and the steps of any number of threads interleave: the look-up
    of the lock, its creation, the mutex, and the loads and stores of [tid] and
    [ref], which the code leaves without protection before the mutex is locked and
    after it is unlocked.  The state is that of the lock of one key; the look-up
    and the update of the map are a step each, and memory is available.

    With the thread library and a lock that exists, the mutex alone keeps two
    threads from being inside, whatever the unprotected accesses do.  Three
    schedules show what they do break: the first use of a lock by two threads, the
    build without the thread library, and the release of a lock whose [ref] is
    decremented after another thread has locked it. *)

From Stdlib Require Import ZArith Lia.
From stdpp Require Import base numbers list gmap.
From S2P Require Import Prelude ShKey Heap ShBuf ShMap ShLock.

Open Scope Z_scope.

(** ** Threads *)

(** Where a thread is; [b] is the lock it has found and [r] the loaded [ref]. *)
Inductive pc : Type :=
| Idle
| OGet (flags : Z) | ONew (flags : Z) | OEnter (flags b : Z) | OTid (b : Z) | OLoad (b : Z) | OStore (b r : Z)
| CGet | CRef (b : Z) | CTid (b : Z) | CUnlock (b : Z) | CLoad (b : Z) | CStore (b r : Z) | CTest (b : Z) | CClear (b : Z).

(** A thread and how often it is inside the lock: an open that returns the lock
    enters; a close leaves when it unlocks, or returns without unlocking. *)
Record thr : Type := mk_thr { at_pc : pc; entered : Z }.

(** The entry of the key in the map, the locks and the threads. *)
Record lsys : Type := mk_lsys { slot : option Z; lks : gmap Z shlock_t; next_b : Z; thrs : gmap Z thr }.

Definition thr_of (s : lsys) (t : Z) : thr := default (mk_thr Idle 0) (thrs s !! t).
Definition inside (s : lsys) (t : Z) : Z := entered (thr_of s t).

Definition set_thr (t : Z) (x : thr) (s : lsys) : lsys := mk_lsys (slot s) (lks s) (next_b s) (<[t := x]> (thrs s)).
Definition set_lk (b : Z) (lk : shlock_t) (s : lsys) : lsys := mk_lsys (slot s) (<[b := lk]> (lks s)) (next_b s) (thrs s).
Definition at_lock (s : lsys) (b : Z) : outcome shlock_t := match lks s !! b with Some lk => Done lk | None => Fault end.

(** The thread goes on at [p]; the call returns, inside [d] times. *)
Definition goto (t : Z) (p : pc) (s : lsys) : outcome (option lsys) := Done (Some (set_thr t (mk_thr p (inside s t)) s)).
Definition back (t d : Z) (s : lsys) : outcome (option lsys) := Done (Some (set_thr t (mk_thr Idle d) s)).
Definition leave (d : Z) : Z := Z.max 0 (d - 1).

Definition with_ref (r : Z) (lk : shlock_t) : shlock_t := mk_lock r (tid lk) (recursive lk) (held lk).
Definition with_tid (t : Z) (lk : shlock_t) : shlock_t := mk_lock (ref lk) t (recursive lk) (held lk).

Section steps.
Context (pthread : bool).

(** A step of [shlock_open]; [None] waits for the mutex. *)
Definition shlock_open_step (s : lsys) (t : Z) (p : pc) : outcome (option lsys) :=
  match p with
  | OGet flags => goto t (match slot s with Some b => OEnter flags b | None => ONew flags end) s
  | ONew flags =>
      let b := next_b s in
      goto t (OEnter flags b) (mk_lsys (Some b) (<[b := fresh_lock flags]> (lks s)) (b + 1) (thrs s))
  | OEnter flags b =>
      lk <-! at_lock s b;
      if pthread then match mutex_lock lk t with None => Done None | Some lk => goto t (OTid b) (set_lk b lk s) end
      else if busy lk t flags then back t (inside s t) s else goto t (OTid b) s
  | OTid b => lk <-! at_lock s b; goto t (OLoad b) (set_lk b (with_tid (u32 t) lk) s)
  | OLoad b => lk <-! at_lock s b; goto t (OStore b (ref lk)) s
  | OStore b r => lk <-! at_lock s b; back t (inside s t + 1) (set_lk b (with_ref (u32 (r + 1)) lk) s)
  | _ => Done None
  end.

(** A step of [shlock_close]. *)
Definition shlock_close_step (s : lsys) (t : Z) (p : pc) : outcome (option lsys) :=
  match p with
  | CGet => match slot s with Some b => goto t (CRef b) s | None => back t (leave (inside s t)) s end
  | CRef b => lk <-! at_lock s b; if ref lk =? 0 then back t (leave (inside s t)) s else goto t (CTid b) s
  | CTid b => lk <-! at_lock s b; if negb (u32 t =? tid lk) then back t (leave (inside s t)) s else goto t (CUnlock b) s
  | CUnlock b =>
      lk <-! at_lock s b;
      u <-! (if pthread then mutex_unlock lk t else Done (Some lk));
      match u with
      | None => back t (leave (inside s t)) s
      | Some lk => Done (Some (set_thr t (mk_thr (CLoad b) (leave (inside s t))) (set_lk b lk s)))
      end
  | CLoad b => lk <-! at_lock s b; goto t (CStore b (ref lk)) s
  | CStore b r => lk <-! at_lock s b; goto t (CTest b) (set_lk b (with_ref (u32 (r - 1)) lk) s)
  | CTest b => lk <-! at_lock s b; if ref lk =? 0 then goto t (CClear b) s else back t (inside s t) s
  | CClear b => lk <-! at_lock s b; back t (inside s t) (set_lk b (with_tid 0 lk) s)
  | _ => Done None
  end.

(** A thread calls a function, or makes its next step. *)
Inductive act : Type := CallOpen (t flags : Z) | CallClose (t : Z) | Step (t : Z).

Definition exec_act (s : lsys) (a : act) : outcome (option lsys) :=
  match a with
  | CallOpen t flags => match at_pc (thr_of s t) with Idle => goto t (OGet flags) s | _ => Done None end
  | CallClose t => match at_pc (thr_of s t) with Idle => goto t CGet s | _ => Done None end
  | Step t =>
      match at_pc (thr_of s t) with
      | Idle => Done None
      | (OGet _ | ONew _ | OEnter _ _ | OTid _ | OLoad _ | OStore _ _) as p => shlock_open_step s t p
      | p => shlock_close_step s t p
      end
  end.

(** A schedule, in which every action is possible. *)
Fixpoint run (s : lsys) (l : list act) : outcome (option lsys) :=
  match l with
  | [] => Done (Some s)
  | a :: l' => r <-! exec_act s a; match r with Some s => run s l' | None => Done None end
  end.

Inductive reach (s0 : lsys) : lsys -> Prop :=
| reach_start : reach s0 s0
| reach_act s a s' : reach s0 s -> exec_act s a = Done (Some s') -> reach s0 s'.

Lemma run_reach s0 l : forall s s', reach s0 s -> run s l = Done (Some s') -> reach s0 s'.
Proof using.
  induction l as [|a l IH]; intros s s' Hr He; cbn [run] in He; [by injection He as <- |].
  destruct (exec_act s a) as [[s1|]|] eqn:E1; cbn [obind] in He; try done. by eapply IH; [eapply reach_act |].
Qed.
End steps.

(** No thread has called anything; the key has the lock made by flags, or none. *)
Definition fresh_sys (flags : Z) : lsys := mk_lsys (Some 0) {[ 0 := fresh_lock flags ]} 1 ∅.
Definition empty_sys : lsys := mk_lsys None ∅ 0 ∅.

(** ** The mutex keeps the threads apart *)

(** How often a thread has locked the mutex, and whether its open has yet to
    return. *)
Definition owned (lk : shlock_t) (t : Z) : Z :=
  match held lk with Some (o, n) => if o =? t then n else 0 | None => 0 end.
Definition opening (p : pc) : Z := match p with OTid _ | OLoad _ | OStore _ _ => 1 | _ => 0 end.
Definition pc_lock (p : pc) : option Z :=
  match p with
  | OEnter _ b | OTid b | OLoad b | OStore b _ | CRef b | CTid b | CUnlock b | CLoad b | CStore b _ | CTest b | CClear b => Some b
  | _ => None
  end.

Definition thr_ok (lk : shlock_t) (t : Z) (x : thr) : Prop :=
  0 <= entered x /\ entered x + opening (at_pc x) <= owned lk t /\
  (forall flags, at_pc x <> ONew flags) /\ (forall b, pc_lock (at_pc x) = Some b -> b = 0).

Definition steps_inv (s : lsys) : Prop :=
  slot s = Some 0 /\ exists lk, lks s !! 0 = Some lk /\ (forall o n, held lk = Some (o, n) -> 1 <= n) /\
    forall t, thr_ok lk t (thr_of s t).

Lemma thr_of_set t x s t' : thr_of (set_thr t x s) t' = if decide (t = t') then x else thr_of s t'.
Proof. unfold thr_of. cbn [set_thr thrs]. case_decide; [subst; by rewrite lookup_insert_eq | by rewrite lookup_insert_ne]. Qed.

(** A step that leaves the mutex alone, and one that changes it. *)
Lemma inv_set s lk t x lk' :
  slot s = Some 0 -> (forall o n, held lk' = Some (o, n) -> 1 <= n) ->
  (forall t', t' <> t -> thr_ok lk t' (thr_of s t')) -> (forall t', t' <> t -> owned lk t' <= owned lk' t') -> thr_ok lk' t x ->
  steps_inv (set_thr t x (set_lk 0 lk' s)).
Proof.
  intros Hs Hn Ho Hle Hx. split; [done |]. exists lk'. split; [apply lookup_insert_eq |]. split; [done |].
  intros t'. rewrite thr_of_set. case_decide as E; [by subst |]. destruct (Ho t' ltac:(congruence)) as (H1 & H2 & H3).
  split; [done |]. split; [|done]. specialize (Hle t' ltac:(congruence)). change (thr_of (set_lk 0 lk' s) t') with (thr_of s t'). lia.
Qed.

Lemma inv_goto s t x lk :
  slot s = Some 0 -> lks s !! 0 = Some lk -> (forall o n, held lk = Some (o, n) -> 1 <= n) ->
  (forall t', t' <> t -> thr_ok lk t' (thr_of s t')) -> thr_ok lk t x -> steps_inv (set_thr t x s).
Proof.
  intros Hs Hl Hn Ho Hx. split; [done |]. exists lk. split; [done |]. split; [done |].
  intros t'. rewrite thr_of_set. case_decide; [by subst | apply Ho; congruence].
Qed.

Lemma mutex_lock_owned lk t lk' :
  mutex_lock lk t = Some lk' -> (forall o n, held lk = Some (o, n) -> 1 <= n) ->
  owned lk' t = owned lk t + 1 /\ (forall t', t' <> t -> owned lk t' <= owned lk' t') /\ (forall o n, held lk' = Some (o, n) -> 1 <= n).
Proof.
  unfold mutex_lock, owned. intros Hl Hn. destruct (held lk) as [[o n]|] eqn:Eh; cbn in Hl.
  - destruct (Z.eqb_spec o t) as [->|]; cbn in Hl; [|done]. destruct (recursive lk); [|done]. injection Hl as <-. cbn [held].
    specialize (Hn _ _ eq_refl). rewrite Z.eqb_refl. split_and!; [done | intros t' Hne; destruct (Z.eqb_spec t t'); [congruence | done] | intros ? ? [= <- <-]; lia].
  - injection Hl as <-. cbn [held]. rewrite Z.eqb_refl.
    split_and!; [done | intros t' Hne; destruct (Z.eqb_spec t t'); [congruence | done] | intros ? ? [= <- <-]; lia].
Qed.

Lemma mutex_unlock_owned lk t lk' :
  mutex_unlock lk t = Done (Some lk') -> (forall o n, held lk = Some (o, n) -> 1 <= n) ->
  1 <= owned lk t /\ owned lk' t = owned lk t - 1 /\ (forall t', t' <> t -> owned lk t' <= owned lk' t') /\
  (forall o n, held lk' = Some (o, n) -> 1 <= n).
Proof.
  unfold mutex_unlock, owned. intros Hl Hn. destruct (held lk) as [[o n]|] eqn:Eh; [|by destruct (recursive lk)].
  destruct (Z.eqb_spec o t) as [->|]; [|by destruct (recursive lk)]. injection Hl as <-. cbn [held]. specialize (Hn _ _ eq_refl).
  destruct (Z.eqb_spec n 1) as [->|]; rewrite ?Z.eqb_refl.
  - split_and!; [done | done | intros t' Hne; destruct (Z.eqb_spec t t'); [congruence | done] | done].
  - split_and!; [done | done | intros t' Hne; destruct (Z.eqb_spec t t'); [congruence | done] | intros ? ? [= <- <-]; lia].
Qed.

(** The invariant, opened at a thread. *)
Lemma steps_inv_thr s t : steps_inv s -> exists lk, slot s = Some 0 /\ lks s !! 0 = Some lk /\
  (forall o n, held lk = Some (o, n) -> 1 <= n) /\ (forall t', t' <> t -> thr_ok lk t' (thr_of s t')) /\ thr_ok lk t (thr_of s t).
Proof. intros (Hs & lk & Hl & Hn & Ho). exists lk. by split_and!. Qed.

Lemma owned_tid x lk t : owned (with_tid x lk) t = owned lk t.
Proof. done. Qed.
Lemma owned_ref r lk t : owned (with_ref r lk) t = owned lk t.
Proof. done. Qed.

Ltac thr_done := unfold thr_ok in *; cbn [entered at_pc opening pc_lock] in *; unfold leave in *;
  rewrite ?owned_tid, ?owned_ref; split_and!; [lia | lia | discriminate | congruence].

Lemma open_step_inv s t s' :
  steps_inv s -> shlock_open_step true s t (at_pc (thr_of s t)) = Done (Some s') -> steps_inv s'.
Proof.
  intros Hi He. destruct (steps_inv_thr s t Hi) as (lk & Hs & Hl & Hn & Ho & Hx). unfold shlock_open_step, goto, back, inside in He.
  destruct (thr_of s t) as [p d] eqn:Ex. cbn [at_pc entered] in *. pose proof Hx as (Hd & Hle & Hnew & Hb). cbn [at_pc entered] in *.
  destruct p; cbn [opening pc_lock] in *; try discriminate He; try (specialize (Hb _ eq_refl); subst b; unfold at_lock in He; rewrite Hl in He; cbn [obind] in He).
  - rewrite Hs in He. injection He as <-. eapply inv_goto; try done. thr_done.
  - by destruct (Hnew flags).
  - destruct (mutex_lock lk t) as [lk'|] eqn:Em; [|done]. destruct (mutex_lock_owned _ _ _ Em Hn) as (H1 & H2 & H3).
    change (thr_of (set_lk 0 lk' s) t) with (thr_of s t) in He. rewrite ?Ex in He. injection He as <-. eapply inv_set; try done. thr_done.
  - injection He as <-. change (thr_of (set_lk 0 (with_tid (u32 t) lk) s) t) with (thr_of s t). rewrite ?Ex. eapply inv_set; try done. thr_done.
  - rewrite ?Ex in He. injection He as <-. eapply inv_goto; try done. thr_done.
  - injection He as <-. rewrite ?Ex. eapply (inv_set _ lk); try done. thr_done.
Qed.

Lemma close_step_inv s t s' :
  steps_inv s -> shlock_close_step true s t (at_pc (thr_of s t)) = Done (Some s') -> steps_inv s'.
Proof.
  intros Hi He. destruct (steps_inv_thr s t Hi) as (lk & Hs & Hl & Hn & Ho & Hx). unfold shlock_close_step, goto, back, inside in He.
  destruct (thr_of s t) as [p d] eqn:Ex. cbn [at_pc entered] in *. pose proof Hx as (Hd & Hle & Hnew & Hb). cbn [at_pc entered] in *.
  destruct p; cbn [opening pc_lock] in *; try discriminate He; try (specialize (Hb _ eq_refl); subst b; unfold at_lock in He; rewrite Hl in He; cbn [obind] in He).
  - rewrite Hs in He. injection He as <-. eapply inv_goto; try done. thr_done.
  - rewrite ?Ex in He. destruct (ref lk =? 0); injection He as <-; (eapply inv_goto; try done; thr_done).
  - rewrite ?Ex in He. destruct (negb _); injection He as <-; (eapply inv_goto; try done; thr_done).
  - destruct (mutex_unlock lk t) as [[lk'|]|] eqn:Em; cbn [obind] in He; [| |done].
    + destruct (mutex_unlock_owned _ _ _ Em Hn) as (H0 & H1 & H2 & H3). rewrite ?Ex in He. injection He as <-. eapply inv_set; try done. thr_done.
    + rewrite ?Ex in He. injection He as <-. eapply inv_goto; try done. thr_done.
  - rewrite ?Ex in He. injection He as <-. eapply inv_goto; try done. thr_done.
  - injection He as <-. change (thr_of (set_lk 0 (with_ref (u32 (r - 1)) lk) s) t) with (thr_of s t). rewrite ?Ex. eapply inv_set; try done. thr_done.
  - rewrite ?Ex in He. destruct (ref lk =? 0); injection He as <-; (eapply inv_goto; try done; thr_done).
  - rewrite ?Ex in He. injection He as <-. eapply (inv_set _ lk); try done; thr_done.
Qed.

Lemma exec_act_inv s a s' : steps_inv s -> exec_act true s a = Done (Some s') -> steps_inv s'.
Proof.
  intros Hi He. destruct a as [t flags|t|t]; cbn [exec_act] in He.
  1, 2: destruct (steps_inv_thr s t Hi) as (lk & Hs & Hl & Hn & Ho & Hx); unfold goto, inside in He;
    destruct (thr_of s t) as [p d] eqn:Ex; cbn [at_pc entered] in *; destruct p; try discriminate He; injection He as <-;
    eapply inv_goto; try done; destruct Hx as (? & ? & ? & ?); thr_done.
  pose proof (open_step_inv s t s' Hi) as H1. pose proof (close_step_inv s t s' Hi) as H2.
  destruct (at_pc (thr_of s t)); first [discriminate He | by apply H1 | by apply H2].
Qed.

Lemma reach_inv flags s : reach true (fresh_sys flags) s -> steps_inv s.
Proof.
  induction 1 as [|s a s' _ IH He]; [|by eapply exec_act_inv].
  split; [done |]. exists (fresh_lock flags). split; [apply lookup_singleton_eq |]. split; [done |].
  intros t. by split_and!.
Qed.

(** At most one thread has the mutex. *)
Lemma owned_exclusive lk t1 t2 : t1 <> t2 -> owned lk t1 = 0 \/ owned lk t2 = 0.
Proof.
  intros Hne. unfold owned. destruct (held lk) as [[o n]|]; [|by left].
  destruct (Z.eqb_spec o t1), (Z.eqb_spec o t2); auto. congruence.
Qed.

Lemma step_no_fault s t : steps_inv s -> 0 < inside s t -> exec_act true s (Step t) <> Fault.
Proof.
  intros Hi. destruct (steps_inv_thr s t Hi) as (lk & Hs & Hl & Hn & _ & (_ & Hle & _ & Hb)). unfold inside. cbn [exec_act]. intros Hd.
  unfold shlock_open_step, shlock_close_step, goto, back, at_lock.
  destruct (at_pc (thr_of s t)); cbn [opening pc_lock] in *; try discriminate; try (rewrite (Hb _ eq_refl), Hl; cbn [obind]); try (case_match; discriminate); try discriminate.
  unfold mutex_unlock. unfold owned in Hle. destruct (held lk) as [[o n]|]; [|lia].
  destruct (Z.eqb_spec o t) as [->|]; [discriminate | lia].
Qed.

(** A thread that may lock the mutex and runs alone enters. *)
Lemma open_alone s t flags lk lk' :
  slot s = Some 0 -> lks s !! 0 = Some lk -> at_pc (thr_of s t) = Idle -> mutex_lock lk t = Some lk' ->
  exists s', run true s (CallOpen t flags :: replicate 5 (Step t)) = Done (Some s') /\ inside s' t = inside s t + 1.
Proof.
  intros Hs Hl Hp Hm. set (d := inside s t).
  assert (forall p x s1, thr_of (set_thr t (mk_thr p x) s1) t = mk_thr p x) as Ht by (intros; rewrite thr_of_set; by case_decide).
  assert (forall l s1, thr_of (set_lk 0 l s1) t = thr_of s1 t) as Hk by done.
  assert (forall l s1, lks (set_lk 0 l s1) !! 0 = Some l) as Hlk by (intros; apply lookup_insert_eq).
  eexists. split.
  - cbn [run replicate exec_act]. rewrite Hp. unfold goto at 1. cbn [obind exec_act]. rewrite Ht. cbn [at_pc shlock_open_step].
    unfold goto at 1. cbn [slot set_thr]. rewrite Hs. cbn [obind exec_act]. rewrite Ht. cbn [at_pc shlock_open_step].
    unfold at_lock at 1. cbn [lks set_thr]. rewrite Hl. cbn [obind]. rewrite Hm. unfold goto at 1. cbn [obind exec_act]. rewrite Ht. cbn [at_pc shlock_open_step].
    unfold at_lock at 1. cbn [lks set_thr]. rewrite Hlk. cbn [obind]. unfold goto at 1. cbn [obind exec_act]. rewrite Ht. cbn [at_pc shlock_open_step].
    unfold at_lock at 1. cbn [lks set_thr]. rewrite Hlk. cbn [obind]. unfold goto at 1. cbn [obind exec_act]. rewrite Ht. cbn [at_pc shlock_open_step].
    unfold at_lock at 1. cbn [lks set_thr]. rewrite Hlk. cbn [obind]. unfold back at 1. reflexivity.
  - unfold inside at 1. rewrite Ht. cbn [entered]. unfold inside. repeat (rewrite ?Hk, ?Ht; cbn [entered]). done.
Qed.

(** C18: With the thread library, once the lock exists, the loads, stores and mutex
    operations of [shlock_open] and [shlock_close] keep mutual exclusion in every
    interleaving, by any number of threads: two threads are never inside the lock at
    once, where a thread is inside from the return of its open to the unlocking in
    its close.  A thread that is inside makes no step that is undefined, and a
    thread for which the mutex is free enters when it runs. *)
Theorem shlock_steps_exclusion flags s :
  reach true (fresh_sys flags) s ->
  (forall t1 t2, t1 <> t2 -> inside s t1 = 0 \/ inside s t2 = 0) /\
  (forall t, 0 < inside s t -> exec_act true s (Step t) <> Fault) /\
  exists lk, lks s !! 0 = Some lk /\
    forall t fl lk', at_pc (thr_of s t) = Idle -> mutex_lock lk t = Some lk' ->
      exists s', run true s (CallOpen t fl :: replicate 5 (Step t)) = Done (Some s') /\ inside s' t = inside s t + 1.
Proof.
  intros Hr. pose proof (reach_inv flags s Hr) as Hi. pose proof Hi as (Hs & lk & Hl & _ & Ho). split; [|split].
  - intros t1 t2 Hne. unfold inside. destruct (Ho t1) as (A1 & A2 & _), (Ho t2) as (B1 & B2 & _).
    assert (forall p, 0 <= opening p) as Hop by (by intros []). pose proof (Hop (at_pc (thr_of s t1))). pose proof (Hop (at_pc (thr_of s t2))).
    destruct (owned_exclusive lk t1 t2 Hne); [left | right]; lia.
  - intros t. by apply step_no_fault.
  - exists lk. split; [done |]. intros t fl lk' Hp Hm. by apply (open_alone s t fl lk lk').
Qed.

(** Two threads: 1 enters; 2 looks the lock up and waits; 1 unlocks, and 2 enters
    before 1 has decremented [ref]. *)
Definition handover : list act :=
  CallOpen 1 0 :: replicate 5 (Step 1) ++ [CallOpen 2 0; Step 2; CallClose 1; Step 1; Step 1; Step 1; Step 1] ++ replicate 4 (Step 2).
Definition handover_sys : lsys :=
  match run true (fresh_sys 0) handover with Done (Some s) => s | _ => empty_sys end.

Lemma shlock_steps_exclusion_witness :
  inside handover_sys 2 = 1 /\ (inside handover_sys 1 = 0 \/ inside handover_sys 2 = 0).
Proof.
  split; [vm_compute; reflexivity |].
  apply (shlock_steps_exclusion 0 handover_sys); [|discriminate].
  apply (run_reach true (fresh_sys 0) handover (fresh_sys 0)); [constructor | vm_compute; reflexivity].
Defined.

(** ** What the unprotected accesses break *)

(** Two threads that use a key for the first time both miss it in the map, each
    makes a lock of its own, and both are inside. *)
Theorem shlock_first_use_race :
  exists s, run true empty_sys ([CallOpen 1 0; Step 1; CallOpen 2 0; Step 2] ++ replicate 5 (Step 1) ++ replicate 5 (Step 2)) = Done (Some s) /\
    inside s 1 = 1 /\ inside s 2 = 1.
Proof. eexists. split; [vm_compute; reflexivity | split; vm_compute; reflexivity]. Qed.

(** Without the thread library the test of [ref] and its update are apart: both
    threads pass the test. *)
Theorem shlock_open_race flags :
  exists s, run false (fresh_sys flags) ([CallOpen 1 0; Step 1; Step 1; CallOpen 2 0; Step 2; Step 2] ++ replicate 3 (Step 1) ++ replicate 3 (Step 2)) = Done (Some s) /\
    inside s 1 = 1 /\ inside s 2 = 1.
Proof. eexists. split; [vm_compute; reflexivity | split; vm_compute; reflexivity]. Qed.

(** With the thread library, the thread that closes the lock decrements [ref] and
    clears [tid] after the mutex is unlocked, when the next thread has already
    set them: the close of that thread then finds a lock that is not its own and
    returns success without unlocking.  No thread is inside and every call has
    returned, and the next open of the lock by another thread waits for the mutex. *)
Definition lost_release : list act :=
  CallOpen 1 0 :: replicate 5 (Step 1) ++ [CallOpen 2 0; Step 2; CallClose 1; Step 1; Step 1; Step 1; Step 1] ++
  [Step 2; Step 2] ++ replicate 4 (Step 1) ++ [Step 2; Step 2] ++ [CallClose 2; Step 2; Step 2; Step 2].

Theorem shlock_lost_release :
  exists s, run true (fresh_sys 0) lost_release = Done (Some s) /\
    thr_of s 1 = mk_thr Idle 0 /\ thr_of s 2 = mk_thr Idle 0 /\
    run true s [CallOpen 1 0; Step 1; Step 1] = Done None /\ run true s [CallOpen 3 0; Step 3; Step 3] = Done None.
Proof. eexists. split; [vm_compute; reflexivity | split_and!; vm_compute; reflexivity]. Qed.
