(* ===== verification/ShPool.v ===== *)
(** * Memory pools

    Models [share-lib/mem/shmem_pool.c].  A pool is an array of pointers to
    buffers; the buffers live in a store by address, since callers keep
    pointers into it, and the round-robin counter is the static
    [_shpool_index] all pools share.  Allocations succeed; a read of an
    unallocated slot, a use of a released buffer and the division by an empty
    pool's size are [Fault]s. *)

From Stdlib Require Import ZArith Lia.
From stdpp Require Import base numbers list gmap.
From S2P Require Import Prelude ShBuf.

Open Scope Z_scope.

(** A pointer to a buffer; [None] is NULL. *)
Abbreviation bufptr := (option Z).

Record shpool_t : Type := mk_pool { pool : option (list bufptr); max : Z }.

Record world : Type := mk_world { bufs : gmap Z shbuf_t; next_buf : Z; _shpool_index : Z }.

(** [shbuf_init]: a new address. *)
Definition new_buf (w : world) : world * Z :=
  (mk_world (<[next_buf w := shbuf_init]> (bufs w)) (next_buf w + 1) (_shpool_index w), next_buf w).

(** [realloc] to [max + 1] slots and a store to the last one; slots between
    the old array and it would be indeterminate. *)
Definition shalloc_pool_incr (w : world) (p : shpool_t) (buff : bufptr) : outcome (world * shpool_t) :=
  let '(w, b) := match buff with Some b => (w, b) | None => new_buf w end in
  match pool p with
  | None => Done (w, mk_pool (Some [Some b]) 1)
  | Some a =>
      if (max p <? 0) || (INT_MAX <=? max p) || (Z.of_nat (length a) <? max p) then Fault
      else Done (w, mk_pool (Some (take (Z.to_nat (max p)) a ++ [Some b])) (max p + 1))
  end.

Definition shpool_init : shpool_t := mk_pool None 0.

Definition shpool_size (p : shpool_t) : Z := u64 (max p).

Definition slot (p : shpool_t) (i : Z) : outcome bufptr :=
  match pool p with
  | Some a => if 0 <=? i then match a !! Z.to_nat i with Some x => Done x | None => Fault end else Fault
  | None => Fault
  end.

(** [_shpool_index % pool->max; _shpool_index++]. *)
Definition next_index (w : world) (p : shpool_t) : outcome (world * Z) :=
  if u32 (max p) =? 0 then Fault
  else Done (mk_world (bufs w) (next_buf w) (u32 (_shpool_index w + 1)), _shpool_index w mod u32 (max p)).

(** The buffer and the index stored through [idx_p]. *)
Definition shpool_get (w : world) (p : shpool_t) : outcome (world * shpool_t * bufptr * Z) :=
  r <-! (if max p <? 2 then shalloc_pool_incr w p None else Done (w, p));
  let '(w, p) := r in
  r <-! next_index w p;
  let '(w, idx) := r in
  b <-! slot p idx;
  Done (w, p, b, idx).

Definition shpool_grow (w : world) (p : shpool_t) : outcome (world * shpool_t) := shalloc_pool_incr w p None.

Definition shpool_get_index (p : shpool_t) (index : Z) : outcome bufptr :=
  if (index <? 0) || (max p <=? index) then Done None else slot p (index mod max p).

Definition shpool_put (w : world) (p : shpool_t) (buff : bufptr) : outcome (world * shpool_t) := shalloc_pool_incr w p buff.

(** Releases the structure at an address and makes the pointer NULL. *)
Definition shbuf_free (w : world) (b : bufptr) : outcome world :=
  match b with
  | None => Done w
  | Some a =>
      match bufs w !! a with
      | Some _ => Done (mk_world (delete a (bufs w)) (next_buf w) (_shpool_index w))
      | None => Fault
      end
  end.

Fixpoint free_slots (n : nat) (i : Z) (w : world) (p : shpool_t) : outcome world :=
  match n with
  | O => Done w
  | S n' => b <-! slot p i; w <-! shbuf_free w b; free_slots n' (i + 1) w p
  end.

(** [None] is the pointer the caller keeps. *)
Definition shpool_free (w : world) (pool_p : option shpool_t) : outcome (world * option shpool_t) :=
  match pool_p with
  | None => Done (w, None)
  | Some p => w <-! free_slots (Z.to_nat (max p)) 0 w p; Done (w, None)
  end.

(** [for (j = i+1; j < max; j++)]: the first slot that is not NULL. *)
Fixpoint next_used (n : nat) (j : nat) (a : list bufptr) : outcome (option (nat * Z)) :=
  match n with
  | O => Done None
  | S n' =>
      match a !! j with
      | None => Fault
      | Some (Some b) => Done (Some (j, b))
      | Some None => next_used n' (S j) a
      end
  end.

(** [for (i = 0; i < pool->max; i++)] with [n] iterations left. *)
Fixpoint compact_loop (n : nat) (i : nat) (a : list bufptr) (mx : Z) : outcome (list bufptr * Z) :=
  match n with
  | O => Done (a, mx)
  | S n' =>
      match a !! i with
      | None => Fault
      | Some (Some _) => compact_loop n' (S i) a (Z.of_nat i + 1)
      | Some None =>
          r <-! next_used n' (S i) a;
          let a := match r with Some (j, b) => <[j := None]> (<[i := Some b]> a) | None => a end in
          compact_loop n' (S i) a mx
      end
  end.

Definition _shpool_compact (p : shpool_t) : outcome shpool_t :=
  match pool p with
  | None => if max p <=? 0 then Done (mk_pool None 0) else Fault
  | Some a => r <-! compact_loop (Z.to_nat (max p)) 0 a 0; Done (mk_pool (Some (fst r)) (snd r))
  end.

Definition set_slot (p : shpool_t) (i : Z) (b : bufptr) : shpool_t :=
  mk_pool (match pool p with Some a => Some (<[Z.to_nat i := b]> a) | None => None end) (max p).

Definition shpool_pull (w : world) (p : shpool_t) : outcome (world * shpool_t * bufptr) :=
  r <-! (if max p <? 2 then shalloc_pool_incr w p None else Done (w, p));
  let '(w, p) := r in
  r <-! next_index w p;
  let '(w, idx) := r in
  buff <-! slot p idx;
  p <-! _shpool_compact (set_slot p idx None);
  Done (w, p, buff).

(** [shbuf_clear] of NULL does nothing; [shpool_put] of NULL adds a new buffer. *)
Definition shpool_push (w : world) (p : shpool_t) (buff : bufptr) : outcome (world * shpool_t) :=
  w <-! (match buff with
         | None => Done w
         | Some a =>
             match bufs w !! a with
             | None => Fault
             | Some buf =>
                 buf <-! shbuf_clear buf;
                 Done (mk_world (<[a := buf]> (bufs w)) (next_buf w) (_shpool_index w))
             end
         end);
  shpool_put w p buff.

(** ** Sequences of calls *)

Inductive op : Type := Grow | Get | Pull | Put (b : Z) | Push (b : Z).

Definition step (o : op) (w : world) (p : shpool_t) : outcome (world * shpool_t * bufptr) :=
  match o with
  | Grow => r <-! shpool_grow w p; Done (r, None)
  | Get => r <-! shpool_get w p; let '(w, p, b, _) := r in Done (w, p, b)
  | Pull => shpool_pull w p
  | Put b => r <-! shpool_put w p (Some b); Done (r, None)
  | Push b => r <-! shpool_push w p (Some b); Done (r, None)
  end.

Fixpoint run (ops : list op) (w : world) (p : shpool_t) : outcome (world * shpool_t * list bufptr) :=
  match ops with
  | [] => Done (w, p, [])
  | o :: ops' =>
      r <-! step o w p;
      let '(w, p, b) := r in
      r <-! run ops' w p;
      let '(w, p, bs) := r in Done (w, p, b :: bs)
  end.

(** ** The pool as a list of buffers

    The abstract state: the addresses of the buffers in the pool, the next
    address and the counter.  A pull keeps the buffers before the one it takes
    out. *)
Record spec : Type := mk_spec { members : list Z; fresh : Z; counter : Z }.

Definition spec_new (s : spec) : spec := mk_spec (members s ++ [fresh s]) (fresh s + 1) (counter s).
Definition spec_two (s : spec) : spec := if Z.of_nat (length (members s)) <? 2 then spec_new s else s.
Definition spec_turn (s : spec) : nat := Z.to_nat (counter s mod Z.of_nat (length (members s))).
Definition spec_next (s : spec) : spec := mk_spec (members s) (fresh s) (u32 (counter s + 1)).

Definition spec_step (o : op) (s : spec) : spec * bufptr :=
  match o with
  | Grow => (spec_new s, None)
  | Get => let s := spec_two s in (spec_next s, members s !! spec_turn s)
  | Pull =>
      let s := spec_two s in
      let k := spec_turn s in
      (mk_spec (take k (members s)) (fresh s) (u32 (counter s + 1)), members s !! k)
  | Put b | Push b => (mk_spec (members s ++ [b]) (fresh s) (counter s), None)
  end.

Fixpoint spec_run (ops : list op) (s : spec) : spec * list bufptr :=
  match ops with
  | [] => (s, [])
  | o :: ops' =>
      let '(s, b) := spec_step o s in
      let '(s, bs) := spec_run ops' s in (s, b :: bs)
  end.

Example spec_example :
  spec_run [Grow; Grow; Grow; Get; Pull] (mk_spec [] 1 0) = (mk_spec [1] 4 2, [None; None; None; Some 1; Some 2]).
Proof. reflexivity. Qed.

Example pool_example :
  (r <-! run [Grow; Grow; Grow; Get; Pull] (mk_world ∅ 1 0) shpool_init;
   let '(_, p, bs) := r in Done (max p, bs)) = Done (1, [None; None; None; Some 1; Some 2]).
Proof. vm_compute. reflexivity. Qed.

(** ** Refinement *)

Definition pool_rel (p : shpool_t) (l : list Z) : Prop :=
  max p = Z.of_nat (length l) /\
  match pool p with None => l = [] | Some a => take (length l) a = map Some l end.

(** Addresses handed out are live, well-formed buffers. *)
Definition live (w : world) : Prop :=
  1 <= next_buf w /\ forall b, 1 <= b < next_buf w -> exists buf, bufs w !! b = Some buf /\ ShBuf.wf buf.

Definition rel (w : world) (p : shpool_t) (s : spec) : Prop :=
  pool_rel p (members s) /\ live w /\ next_buf w = fresh s /\ _shpool_index w = counter s /\ is_uint 32 (counter s).

Lemma pool_rel_slot p l i b : pool_rel p l -> l !! i = Some b -> slot p (Z.of_nat i) = Done (Some b).
Proof.
  intros [Hm Hp] Hi. unfold slot. destruct (pool p) as [a|]; [|by subst l]. case_cmp; [|lia].
  rewrite Nat2Z.id. rewrite <- (lookup_take_lt a (length l)) by (by eapply lookup_lt_Some).
  rewrite Hp. by rewrite list_lookup_fmap, Hi.
Qed.

Lemma pool_rel_length p l a : pool_rel p l -> pool p = Some a -> (length l <= length a)%nat.
Proof.
  intros [_ Hp] Ha. rewrite Ha in Hp. apply (f_equal length) in Hp. rewrite length_take, length_map in Hp. lia.
Qed.

Lemma incr_some w p l b :
  pool_rel p l -> Z.of_nat (length l) < INT_MAX ->
  exists p', shalloc_pool_incr w p (Some b) = Done (w, p') /\ pool_rel p' (l ++ [b]).
Proof.
  intros Hr Hl. pose proof (fun a => pool_rel_length p l a Hr) as Hlen. destruct Hr as [Hm Hp]. unfold shalloc_pool_incr.
  destruct (pool p) as [a|] eqn:Ea.
  - specialize (Hlen a eq_refl). rewrite Hm.
    destruct (Z.ltb_spec (Z.of_nat (length l)) 0), (Z.leb_spec INT_MAX (Z.of_nat (length l))),
      (Z.ltb_spec (Z.of_nat (length a)) (Z.of_nat (length l))); try lia. cbn [orb].
    eexists. split; [reflexivity |]. unfold pool_rel. cbn [max pool]. rewrite length_app, Nat2Z.id, Hp. cbn [length].
    split; [lia |]. rewrite take_ge by (rewrite length_app, length_map; cbn [length]; lia). by rewrite map_app.
  - subst l. eexists. split; [reflexivity |]. by split.
Qed.

Lemma live_new w : live w -> live (fst (new_buf w)).
Proof.
  intros [H1 H2]. unfold live, new_buf. cbn [fst bufs next_buf]. split; [lia |]. intros b Hb.
  destruct (decide (b = next_buf w)) as [->|Hne]; [rewrite lookup_insert_eq; exists shbuf_init; split; [done | apply wf_init] |].
  rewrite lookup_insert_ne by done. apply H2. lia.
Qed.

Lemma incr_none w p s :
  rel w p s -> Z.of_nat (length (members s)) < INT_MAX ->
  exists w' p', shalloc_pool_incr w p None = Done (w', p') /\ rel w' p' (spec_new s).
Proof.
  intros (Hp & Hl & Hf & Hc & Hu) Hn. destruct (incr_some (fst (new_buf w)) p (members s) (next_buf w) Hp Hn) as (p' & Ei & Hp').
  exists (fst (new_buf w)), p'. split; [exact Ei |]. unfold rel, spec_new. cbn [members fresh counter].
  split_and!; [by rewrite <- Hf | by apply live_new | cbn; by rewrite Hf | done | apply Hu..].
Qed.

Lemma two_ok w p s :
  rel w p s -> Z.of_nat (length (members s)) < INT_MAX ->
  exists w' p', (if max p <? 2 then shalloc_pool_incr w p None else Done (w, p)) = Done (w', p') /\ rel w' p' (spec_two s) /\
    (0 < length (members (spec_two s)))%nat /\ (length (members (spec_two s)) <= S (length (members s)))%nat.
Proof.
  intros Hr Hn. pose proof Hr as ((Hm & _) & _). unfold spec_two. rewrite Hm. case_cmp.
  - destruct (incr_none w p s Hr Hn) as (w' & p' & E & Hr'). exists w', p'. split_and!; try done; cbn [spec_new members]; llia.
  - exists w, p. split_and!; (done || lia).
Qed.

Lemma turn_lt s : (0 < length (members s))%nat -> (spec_turn s < length (members s))%nat.
Proof. intros H. unfold spec_turn. pose proof (Z.mod_pos_bound (counter s) (Z.of_nat (length (members s)))). lia. Qed.

Lemma next_index_ok w p s :
  rel w p s -> (0 < length (members s))%nat -> Z.of_nat (length (members s)) <= INT_MAX ->
  exists w', next_index w p = Done (w', Z.of_nat (spec_turn s)) /\ rel w' p (spec_next s).
Proof.
  intros (Hp & Hl & Hf & Hc & Hu) H0 Hn. pose proof Hp as [Hm _]. unfold next_index, INT_MAX in *. rewrite Hm, wrap_small by rlia.
  case_cmp; [lia |]. eexists. split.
  - unfold spec_turn. rewrite Z2Nat.id by (apply Z.mod_pos_bound; lia). by rewrite Hc.
  - unfold rel, spec_next. cbn [members fresh counter bufs next_buf _shpool_index]. split_and!; try done; try (by rewrite Hc);
      apply (wrap_range 32); lia.
Qed.

(** ** Compaction *)

(** Slots before the hole: the size follows the index. *)
Lemma compact_used n i a mx :
  (forall j, (i <= j < i + n)%nat -> exists b, a !! j = Some (Some b)) ->
  forall m, compact_loop (n + m) i a mx = compact_loop m (i + n) a (if decide (n = 0)%nat then mx else Z.of_nat (i + n)).
Proof.
  revert i mx. induction n as [|n IH]; intros i mx Hu m; [by rewrite Nat.add_0_r |].
  cbn [Nat.add compact_loop]. destruct (Hu i) as [b ->]; [lia |].
  rewrite IH by (intros; apply Hu; lia). replace (S i + n)%nat with (i + S n)%nat by lia. f_equal.
  destruct (decide (n = 0)%nat) as [->|]; case_decide; lia.
Qed.

(** From the hole on: every slot is filled by the next one, which becomes the
    hole, and the size is never raised. *)
Lemma compact_hole n i a mx k :
  (k <= i)%nat -> (n = 0%nat \/ a !! i = Some None) ->
  (forall j, (i < j < i + n)%nat -> exists b, a !! j = Some (Some b)) ->
  exists a', compact_loop n i a mx = Done (a', mx) /\ take k a' = take k a.
Proof.
  revert i a. induction n as [|n IH]; intros i a Hk Hi Hu; [by exists a |].
  destruct Hi as [|Hi]; [lia |]. cbn [compact_loop]. rewrite Hi. destruct n as [|n].
  - cbn [next_used obind compact_loop]. by exists a.
  - cbn [next_used]. destruct (Hu (S i)) as [b Hb]; [lia |]. rewrite Hb. cbn [obind].
    set (a1 := <[S i := None]> (<[i := Some b]> a)).
    assert (S i < length a)%nat as Hl by (by eapply lookup_lt_Some).
    destruct (IH (S i) a1) as (a' & Ea & Ht).
    + lia.
    + right. unfold a1. apply list_lookup_insert_eq. rewrite length_insert. lia.
    + intros j Hj. unfold a1. rewrite !list_lookup_insert_ne by lia. apply Hu. lia.
    + exists a'. split; [exact Ea |]. rewrite Ht. unfold a1. by rewrite !take_insert_ge by lia.
Qed.

(** Taking the buffer at [k] out of the pool leaves the ones before it. *)
Lemma compact_pull p l k :
  pool_rel p l -> (k < length l)%nat ->
  exists p', _shpool_compact (set_slot p (Z.of_nat k) None) = Done p' /\ pool_rel p' (take k l).
Proof.
  intros Hr Hk. pose proof (fun a => pool_rel_length p l a Hr) as Hlen. destruct Hr as [Hm Hp].
  unfold _shpool_compact, set_slot. cbn [pool max]. destruct (pool p) as [a|]; [|subst l; cbn [length] in Hk; lia].
  specialize (Hlen a eq_refl). rewrite Hm, !Nat2Z.id.
  assert (forall j, (j < length l)%nat -> exists b, a !! j = Some (Some b)) as Hu.
  { intros j Hj. destruct (lookup_lt_is_Some_2 l j Hj) as [b Hb]. exists b.
    rewrite <- (lookup_take_lt a (length l)) by done. rewrite Hp. by rewrite list_lookup_fmap, Hb. }
  set (a1 := <[k := None]> a). replace (length l) with (k + (length l - k))%nat by lia.
  rewrite compact_used by (intros j Hj; unfold a1; rewrite list_lookup_insert_ne by lia; apply Hu; lia).
  cbn [Nat.add]. destruct (compact_hole (length l - k) k a1 (if decide (k = 0)%nat then 0 else Z.of_nat k) k) as (a' & Ea & Ht).
  - lia.
  - right. apply list_lookup_insert_eq. lia.
  - intros j Hj. unfold a1. rewrite list_lookup_insert_ne by lia. apply Hu. lia.
  - rewrite Ea. cbn [obind fst snd]. eexists. split; [reflexivity |]. unfold pool_rel. cbn [max pool].
    rewrite length_take, Nat.min_l by lia. split; [destruct (decide (k = 0)%nat) as [->|]; lia |].
    rewrite Ht. unfold a1. rewrite take_insert_ge by lia.
    rewrite <- firstn_map, <- Hp, take_take. f_equal. lia.
Qed.

(** ** Every call implements its specification *)

Definition arg_ok (o : op) (s : spec) : bool := match o with Push b => (1 <=? b) && (b <? fresh s) | _ => true end.

Lemma pool_step_ok o w p s :
  rel w p s -> arg_ok o s = true -> Z.of_nat (length (members s)) < INT_MAX ->
  exists w' p', step o w p = Done (w', p', snd (spec_step o s)) /\ rel w' p' (fst (spec_step o s)) /\
    (length (members (fst (spec_step o s))) <= S (length (members s)))%nat.
Proof.
  intros Hr Ha Hn. destruct o as [| | |b|b]; cbn [step spec_step fst snd].
  - destruct (incr_none w p s Hr Hn) as (w' & p' & E & Hr'). exists w', p'. unfold shpool_grow. rewrite E. split_and!; [done | done |].
    cbn [spec_new members]. llia.
  - destruct (two_ok w p s Hr Hn) as (w1 & p1 & E1 & Hr1 & H0 & Hle). unfold shpool_get. rewrite E1. cbn [obind].
    destruct (next_index_ok w1 p1 (spec_two s) Hr1 H0) as (w2 & E2 & Hr2); [lia |]. rewrite E2. cbn [obind].
    destruct (lookup_lt_is_Some_2 (members (spec_two s)) (spec_turn (spec_two s))) as [b Hb]; [by apply turn_lt |].
    destruct Hr1 as [Hp1 _]. rewrite (pool_rel_slot _ _ _ _ Hp1 Hb). cbn [obind]. exists w2, p1. rewrite Hb. by split_and!.
  - destruct (two_ok w p s Hr Hn) as (w1 & p1 & E1 & Hr1 & H0 & Hle). unfold shpool_pull. rewrite E1. cbn [obind].
    destruct (next_index_ok w1 p1 (spec_two s) Hr1 H0) as (w2 & E2 & Hr2); [lia |]. rewrite E2. cbn [obind].
    pose proof (turn_lt _ H0) as Hlt. destruct (lookup_lt_is_Some_2 (members (spec_two s)) (spec_turn (spec_two s)) Hlt) as [b Hb].
    destruct Hr1 as [Hp1 _]. rewrite (pool_rel_slot _ _ _ _ Hp1 Hb). cbn [obind].
    destruct (compact_pull p1 _ _ Hp1 Hlt) as (p2 & -> & Hp2). cbn [obind]. exists w2, p2. rewrite Hb.
    destruct Hr2 as (_ & Hl & Hf & Hc & Hu). split_and!; [done | by split_and! | cbn [members]; llia].
  - destruct Hr as (Hp & Hrest). destruct (incr_some w p _ b Hp Hn) as (p' & E & Hp'). exists w, p'. unfold shpool_put. rewrite E.
    split_and!; [done | by split | cbn [members]; llia].
  - destruct Hr as (Hp & (Hn1 & Hlive) & Hf & Hc & Hu). cbn [arg_ok] in Ha. destruct (Hlive b) as (buf & Hb & Hw); [lia |].
    unfold shpool_push. rewrite Hb. destruct (trim_ok buf (data_of buf) Hw) as (buf' & Et & Hw' & _); [destruct Hw; lia |].
    unfold shbuf_clear. rewrite Et. cbn [obind]. unfold shpool_put.
    set (w1 := mk_world _ _ _). destruct (incr_some w1 p _ b Hp Hn) as (p' & E & Hp'). rewrite E. cbn [obind].
    exists w1, p'. split_and!; [done | | cbn [members]; llia]. unfold rel, live. cbn [members fresh counter bufs next_buf _shpool_index w1].
    split_and!; try done; [|apply Hu..]. intros c Hcc. destruct (decide (c = b)) as [->|Hne]; [rewrite lookup_insert_eq; by exists buf' |].
    rewrite lookup_insert_ne by done. by apply Hlive.
Qed.

Fixpoint args_ok (ops : list op) (s : spec) : bool :=
  match ops with [] => true | o :: ops' => arg_ok o s && args_ok ops' (fst (spec_step o s)) end.

Lemma pool_run_ok ops w p s :
  rel w p s -> args_ok ops s = true -> Z.of_nat (length (members s)) + Z.of_nat (length ops) <= INT_MAX ->
  exists w' p', run ops w p = Done (w', p', snd (spec_run ops s)) /\ rel w' p' (fst (spec_run ops s)).
Proof.
  revert w p s. induction ops as [|o ops IH]; intros w p s Hr Ha Hn; [by exists w, p |].
  cbn [args_ok length] in *. apply andb_prop in Ha as [Ha1 Ha2].
  destruct (pool_step_ok o w p s Hr Ha1) as (w1 & p1 & E1 & Hr1 & Hl1); [lia |]. cbn [run spec_run]. rewrite E1. cbn [obind].
  destruct (spec_step o s) as [s1 b]. cbn [fst snd] in *.
  destruct (IH w1 p1 s1 Hr1 Ha2) as (w2 & p2 & E2 & Hr2); [lia |]. rewrite E2. cbn [obind].
  destruct (spec_run ops s1) as [s2 bs]. by exists w2, p2.
Qed.

(** ** Theorems *)

Lemma rel_init idx : is_uint 32 idx -> rel (mk_world ∅ 1 idx) shpool_init (mk_spec [] 1 idx).
Proof. intros Hu. unfold rel, live. cbn [members fresh counter bufs next_buf _shpool_index]. split_and!; try done; [lia | apply Hu..]. Qed.

(** C32: Every sequence of calls on a pool, whatever the shared counter was, is
    free of undefined behaviour (no slot outside the array is read, the modulus
    is never zero, no NULL is handed out) and returns what the list model of
    the pool returns; [shpool_size] is the number of its buffers. *)
Theorem shpool_refines (ops : list op) (idx : Z) :
  is_uint 32 idx -> args_ok ops (mk_spec [] 1 idx) = true -> Z.of_nat (length ops) <= INT_MAX ->
  exists w p, run ops (mk_world ∅ 1 idx) shpool_init = Done (w, p, snd (spec_run ops (mk_spec [] 1 idx))) /\
    rel w p (fst (spec_run ops (mk_spec [] 1 idx))) /\
    shpool_size p = Z.of_nat (length (members (fst (spec_run ops (mk_spec [] 1 idx))))).
Proof.
  intros Hu Ha Hn. assert (forall ops s, (length (members (fst (spec_run ops s))) <= length (members s) + length ops)%nat) as Hlen.
  { clear. induction ops as [|o ops IH]; intros s; cbn [spec_run length]; [cbn; lia |].
    destruct (spec_step o s) as [s1 b] eqn:Es. specialize (IH s1). destruct (spec_run ops s1) as [s2 bs]. cbn [fst] in *.
    assert (length (members s1) <= S (length (members s)))%nat as H1; [|lia].
    destruct o; cbn [spec_step] in Es; injection Es as <- <-; cbn [members spec_new spec_next]; unfold spec_two; try case_cmp; cbn [spec_new members]; llia. }
  destruct (pool_run_ok ops _ _ _ (rel_init idx Hu) Ha) as (w & p & E & Hr); [cbn [members length]; lia |].
  exists w, p. split_and!; [done | done |]. destruct Hr as ((Hm & _) & _). unfold shpool_size. rewrite Hm.
  apply wrap_small. specialize (Hlen ops (mk_spec [] 1 idx)). cbn [members length] in Hlen. unfold INT_MAX in Hn. rlia.
Qed.

Lemma shpool_refines_witness :
  let ops := [Grow; Get; Grow; Grow; Pull; Push 2; Get] in
  exists w p, run ops (mk_world ∅ 1 4) shpool_init = Done (w, p, snd (spec_run ops (mk_spec [] 1 4))) /\
    rel w p (fst (spec_run ops (mk_spec [] 1 4))) /\ shpool_size p = 2.
Proof.
  apply (shpool_refines [Grow; Get; Grow; Grow; Pull; Push 2; Get] 4); [by split | reflexivity | vm_compute; discriminate].
Defined.

(** [shpool_pull] loses buffers: from a pool of at least two buffers it
    returns the one at the counter's position [k], but the pool that is left
    holds only the [k] buffers before it; the ones after it are neither handed
    out nor reachable through the pool any more. *)
Theorem shpool_pull_loses (w : world) (p : shpool_t) (s : spec) :
  rel w p s -> 2 <= Z.of_nat (length (members s)) < INT_MAX ->
  let k := spec_turn s in
  exists w' p', shpool_pull w p = Done (w', p', members s !! k) /\ pool_rel p' (take k (members s)) /\
    shpool_size p' = counter s mod Z.of_nat (length (members s)).
Proof.
  intros Hr Hl k. destruct (pool_step_ok Pull w p s Hr eq_refl) as (w' & p' & E & Hr' & _); [lia |].
  cbn [step spec_step fst snd] in *. unfold spec_two in *. destruct (Z.ltb_spec (Z.of_nat (length (members s))) 2); [lia |].
  exists w', p'. destruct Hr' as (Hp & _). cbn [members] in Hp. split_and!; [exact E | exact Hp |].
  destruct Hp as [Hm _]. unfold shpool_size. pose proof (turn_lt s ltac:(lia)). unfold INT_MAX in Hl.
  rewrite Hm, length_take, Nat.min_l by lia. unfold spec_turn in *. pose proof (Z.mod_pos_bound (counter s) (Z.of_nat (length (members s)))).
  rewrite Z2Nat.id by lia. apply wrap_small. rlia.
Qed.

Definition three_buffers : world * shpool_t :=
  match run [Grow; Grow; Grow] (mk_world ∅ 1 0) shpool_init with Done (w, p, _) => (w, p) | Fault => (mk_world ∅ 1 0, shpool_init) end.

Lemma three_rel : rel (fst three_buffers) (snd three_buffers) (mk_spec [1; 2; 3] 4 0).
Proof.
  destruct (pool_run_ok [Grow; Grow; Grow] _ _ _ (rel_init 0 ltac:(by split))) as (w & p & E & Hr); [done | done |].
  unfold three_buffers. rewrite E. exact Hr.
Qed.

Lemma shpool_pull_loses_witness :
  exists w' p', shpool_pull (fst three_buffers) (snd three_buffers) = Done (w', p', Some 1) /\ pool_rel p' [] /\ shpool_size p' = 0.
Proof.
  apply (shpool_pull_loses (fst three_buffers) (snd three_buffers) (mk_spec [1; 2; 3] 4 0)); [apply three_rel | by split].
Defined.
