(* ===== verification/ShFs.v ===== *)
(** * File system blocks and journals

    Models [share-lib/fs/shfs_journal.c] and the block layer of
    [share-lib/fs/shfs_inode.c].  A partition is a set of journal files; a
    journal is a sequence of blocks of 4096 bytes, mapped into memory, and a
    block is the structure [shfs_block_t] of a header and 3976 bytes.  Slot 0
    of a journal is never handed out: a position whose [ino] is 0 stands for
    "none".

    The journal cache of the C code holds mappings of the same files, so that
    evicting an entry and mapping its file again gives the same blocks; the
    model keeps one journal per number.  A mapping covers its whole file, whose
    size is a power of two times 16384 bytes; the page size is 4096.  Opening a
    file, enlarging it and the clock belong to the environment. *)

From Stdlib Require Import ZArith Lia.
From stdpp Require Import base numbers list gmap.
From S2P Require Import Prelude ShCrc ShKey.

Open Scope Z_scope.

(** ** Constants *)

Definition SHFS_MAX_BLOCK_SIZE : Z := 4096.
Definition SHFS_BLOCK_DATA_SIZE : Z := 3976.
Definition SHFS_MAX_BLOCK : Z := 57344.
Definition SHFS_MAX_JOURNAL : Z := 57344.
Definition SHFS_MAX_JOURNAL_SIZE : Z := SHFS_MAX_BLOCK * SHFS_MAX_BLOCK_SIZE.

Definition SHINODE_NULL : Z := 0.
Definition SHINODE_REFERENCE : Z := 105.
Definition SHINODE_DIRECTORY : Z := 107.
Definition SHINODE_AUX : Z := 108.
Definition SHINODE_FILE : Z := 109.
Definition SHINODE_BINARY : Z := 110.
Definition SHINODE_FILE_LOCK : Z := 116.
Definition SHINODE_LICENSE : Z := 117.
Definition SHINODE_EXTERNAL : Z := 118.
Definition SHINODE_OBJECT_KEY : Z := 131.

Definition IS_INODE_CONTAINER (t : Z) : bool :=
  negb ((t =? SHINODE_AUX) || (t =? SHINODE_REFERENCE) || (t =? SHINODE_EXTERNAL)
        || (t =? SHINODE_LICENSE) || (t =? SHINODE_FILE_LOCK) || (t =? SHINODE_OBJECT_KEY)).

Definition SHERR_NOENT : Z := -2.
Definition SHERR_IO : Z := -5.
Definition SHERR_NOTDIR : Z := -20.
Definition SHERR_NOSPC : Z := -28.

(** ** Blocks *)

Record shfs_idx_t : Type := mk_idx { jno : Z; ino : Z }.

#[global] Instance shfs_idx_eq_dec : EqDecision shfs_idx_t.
Proof. solve_decision. Defined.

Definition idx_none : shfs_idx_t := mk_idx 0 0.

Record shfs_hdr_t : Type := mk_hdr {
  hname : shkey_t;
  howner : shkey_t;
  hsize : Z;
  hctime : Z;
  hmtime : Z;
  hcrc : Z;
  hattr : Z;
  htype : Z;
  hformat : Z;
  pos : shfs_idx_t;
  npos : shfs_idx_t;
  fpos : shfs_idx_t;
  hsalt : Z
}.

Record shfs_block_t : Type := mk_blk { hdr : shfs_hdr_t; raw : bytes }.

(** The memory image: the fields in order, two bytes of padding, the data. *)
Definition idx_image (i : shfs_idx_t) : bytes := le_bytes 2 (jno i) ++ le_bytes 2 (ino i).

Definition block_image (b : shfs_block_t) : bytes :=
  let h := hdr b in
  shkey_image (hname h) ++ shkey_image (howner h) ++ le_bytes 8 (hsize h) ++ le_bytes 8 (hctime h)
  ++ le_bytes 8 (hmtime h) ++ le_bytes 8 (hcrc h) ++ le_bytes 4 (hattr h) ++ le_bytes 2 (htype h)
  ++ le_bytes 2 (hformat h) ++ idx_image (pos h) ++ idx_image (npos h) ++ idx_image (fpos h)
  ++ le_bytes 2 (hsalt h) ++ [0; 0] ++ raw b.

(** [memset(&blk, 0, sizeof(blk))]. *)
Definition blank_hdr : shfs_hdr_t :=
  mk_hdr key_blank key_blank 0 0 0 0 0 0 0 idx_none idx_none idx_none 0.
Definition blank_block : shfs_block_t := mk_blk blank_hdr (replicate (Z.to_nat SHFS_BLOCK_DATA_SIZE) 0).

(** Assignments to a field of a block. *)
Definition with_hdr (f : shfs_hdr_t -> shfs_hdr_t) (b : shfs_block_t) : shfs_block_t := mk_blk (f (hdr b)) (raw b).

Definition set_name (k : shkey_t) : shfs_block_t -> shfs_block_t := with_hdr (fun h =>
  mk_hdr k (howner h) (hsize h) (hctime h) (hmtime h) (hcrc h) (hattr h) (htype h) (hformat h) (pos h) (npos h) (fpos h) (hsalt h)).
Definition set_size (z : Z) : shfs_block_t -> shfs_block_t := with_hdr (fun h =>
  mk_hdr (hname h) (howner h) z (hctime h) (hmtime h) (hcrc h) (hattr h) (htype h) (hformat h) (pos h) (npos h) (fpos h) (hsalt h)).
Definition set_ctime (z : Z) : shfs_block_t -> shfs_block_t := with_hdr (fun h =>
  mk_hdr (hname h) (howner h) (hsize h) z (hmtime h) (hcrc h) (hattr h) (htype h) (hformat h) (pos h) (npos h) (fpos h) (hsalt h)).
Definition set_mtime (z : Z) : shfs_block_t -> shfs_block_t := with_hdr (fun h =>
  mk_hdr (hname h) (howner h) (hsize h) (hctime h) z (hcrc h) (hattr h) (htype h) (hformat h) (pos h) (npos h) (fpos h) (hsalt h)).
Definition set_crc (z : Z) : shfs_block_t -> shfs_block_t := with_hdr (fun h =>
  mk_hdr (hname h) (howner h) (hsize h) (hctime h) (hmtime h) z (hattr h) (htype h) (hformat h) (pos h) (npos h) (fpos h) (hsalt h)).
Definition set_type (z : Z) : shfs_block_t -> shfs_block_t := with_hdr (fun h =>
  mk_hdr (hname h) (howner h) (hsize h) (hctime h) (hmtime h) (hcrc h) (hattr h) z (hformat h) (pos h) (npos h) (fpos h) (hsalt h)).
Definition set_format (z : Z) : shfs_block_t -> shfs_block_t := with_hdr (fun h =>
  mk_hdr (hname h) (howner h) (hsize h) (hctime h) (hmtime h) (hcrc h) (hattr h) (htype h) z (pos h) (npos h) (fpos h) (hsalt h)).
Definition set_pos (i : shfs_idx_t) : shfs_block_t -> shfs_block_t := with_hdr (fun h =>
  mk_hdr (hname h) (howner h) (hsize h) (hctime h) (hmtime h) (hcrc h) (hattr h) (htype h) (hformat h) i (npos h) (fpos h) (hsalt h)).
Definition set_npos (i : shfs_idx_t) : shfs_block_t -> shfs_block_t := with_hdr (fun h =>
  mk_hdr (hname h) (howner h) (hsize h) (hctime h) (hmtime h) (hcrc h) (hattr h) (htype h) (hformat h) (pos h) i (fpos h) (hsalt h)).
Definition set_fpos (i : shfs_idx_t) : shfs_block_t -> shfs_block_t := with_hdr (fun h =>
  mk_hdr (hname h) (howner h) (hsize h) (hctime h) (hmtime h) (hcrc h) (hattr h) (htype h) (hformat h) (pos h) (npos h) i (hsalt h)).
Definition set_raw (r : bytes) (b : shfs_block_t) : shfs_block_t := mk_blk (hdr b) r.

(** ** Partitions *)

(** [mapped] is false after a failed enlargement, which drops the mapping. *)
Record journal : Type := mk_journal { jblocks : list shfs_block_t; mapped : bool }.

Record fs : Type := mk_fs { journals : gmap Z journal; ticks : nat }.

Record fsenv : Type := mk_fsenv {
  clock : nat -> Z;                 (* the readings of shtime() that are stored in a block *)
  jopen_ok : Z -> bool;             (* can the file of this journal be opened and mapped *)
  jgrow_ok : Z -> Z -> bool;        (* can it be enlarged to this many bytes *)
  jgrow_errno : Z
}.

(** Calls that return an error code and change the partition. *)
Inductive res (A : Type) : Type :=
| Ok (a : A)
| Err (e : Z).
Arguments Ok {A} a.
Arguments Err {A} e.

Definition fsm (A : Type) : Type := fs -> outcome (fs * res A).

Definition fret {A} (a : A) : fsm A := fun f => Done (f, Ok a).
Definition ferr {A} (e : Z) : fsm A := fun f => Done (f, Err e).
Definition fault {A} : fsm A := fun _ => Fault.
Definition fbind {A B} (m : fsm A) (k : A -> fsm B) : fsm B :=
  fun f => match m f with
           | Done (f', Ok a) => k a f'
           | Done (f', Err e) => Done (f', Err e)
           | Fault => Fault
           end.
Definition fcatch {A} (m : fsm A) : fsm (A + Z) :=
  fun f => match m f with
           | Done (f', Ok a) => Done (f', Ok (inl a))
           | Done (f', Err e) => Done (f', Ok (inr e))
           | Fault => Fault
           end.
Definition fpure {A} (m : outcome A) : fsm A :=
  fun f => match m with Done a => Done (f, Ok a) | Fault => Fault end.

Notation "x <~ m ; k" := (fbind m (fun x => k))
  (at level 100, m at next level, right associativity) : share_scope.

Section operations.
Context (E : fsenv).

Definition shtime : fsm Z := fun f => Done (mk_fs (journals f) (S (ticks f)), Ok (clock E (ticks f))).

(** ** Journals *)

(** [shbuf_file] of the journal's path: a new file has four blank blocks.  The
    path of a number outside the range is empty and cannot be opened. *)
Definition journal_buff (j : Z) (f : fs) : fs * option journal :=
  if (j <? 0) || (SHFS_MAX_JOURNAL <=? j) || negb (jopen_ok E j) then (f, None)
  else match journals f !! j with
       | Some jr => (f, Some jr)
       | None =>
           let jr := mk_journal (replicate 4 blank_block) true in
           (mk_fs (<[j := jr]> (journals f)) (ticks f), Some jr)
       end.

Definition journal_bytes (jr : journal) : Z :=
  if mapped jr then Z.of_nat (length (jblocks jr)) * SHFS_MAX_BLOCK_SIZE else 0.

Definition shfs_journal_size (j : Z) : fsm Z := fun f =>
  let '(f, o) := journal_buff j f in
  Done (f, Ok (match o with Some jr => journal_bytes jr | None => 0 end)).

(** Whether the result is a block; [shbuf_grow] refuses to enlarge a mapping. *)
Definition shfs_journal_block (j i : Z) : fsm bool := fun f =>
  if i <? 0 then Done (f, Ok false)
  else
    let '(f, o) := journal_buff j f in
    match o with
    | None => Done (f, Ok false)
    | Some jr =>
        let data_of := i * SHFS_MAX_BLOCK_SIZE in
        if SHFS_MAX_JOURNAL_SIZE <=? data_of then Done (f, Ok false)
        else if journal_bytes jr <? data_of then Done (f, Ok false)
        else Done (f, Ok (mapped jr))
    end.

(** Access through the pointer [shfs_journal_block] returned. *)
Definition load_block (j i : Z) : fsm shfs_block_t := fun f =>
  match journals f !! j with
  | Some jr => match jblocks jr !! Z.to_nat i with Some b => Done (f, Ok b) | None => Fault end
  | None => Fault
  end.

Definition store_block (j i : Z) (b : shfs_block_t) : fsm unit := fun f =>
  match journals f !! j with
  | Some jr =>
      if (Z.to_nat i <? length (jblocks jr))%nat
      then Done (mk_fs (<[j := mk_journal (<[Z.to_nat i := b]> (jblocks jr)) (mapped jr)]> (journals f)) (ticks f), Ok tt)
      else Fault
  | None => Fault
  end.

(** [for (ino_nr = n; ino_nr >= 1; ino_nr--)]: the first empty slot. *)
Fixpoint scan_down (j : Z) (n : nat) : fsm (option Z) :=
  match n with
  | O => fret None
  | S n' =>
      ok <~ shfs_journal_block j (Z.of_nat n);
      if negb ok then ferr SHERR_IO
      else
        b <~ load_block j (Z.of_nat n);
        if htype (hdr b) =? 0 then fret (Some (Z.of_nat n)) else scan_down j n'
  end.

(** [shbuf_growmap(jrnl->buff, len)]. *)
Definition grow_journal (j len : Z) : fsm unit := fun f =>
  match journals f !! j with
  | None => Fault
  | Some jr =>
      if len <=? journal_bytes jr then Done (f, Ok tt)
      else if jgrow_ok E j len then
        let more := (Z.to_nat (len / SHFS_MAX_BLOCK_SIZE) - length (jblocks jr))%nat in
        Done (mk_fs (<[j := mk_journal (jblocks jr ++ replicate more blank_block) true]> (journals f)) (ticks f), Ok tt)
      else Done (mk_fs (<[j := mk_journal (jblocks jr) false]> (journals f)) (ticks f), Err (jgrow_errno E))
  end.

(** The [retry] loop. *)
Fixpoint scan_retry (fuel : nat) (j jlen : Z) : fsm shfs_idx_t :=
  match fuel with
  | O => fault
  | S fuel' =>
      let ino_max := jlen / SHFS_MAX_BLOCK_SIZE in
      r <~ scan_down j (Z.to_nat (ino_max - 1));
      match r with
      | Some n => fret (mk_idx (u16 j) (u16 n))
      | None =>
          if SHFS_MAX_BLOCK <=? ino_max then ferr SHERR_NOSPC
          else
            let jlen := Z.max SHARE_PAGE_SIZE jlen * 2 in
            _ <~ grow_journal j jlen;
            scan_retry fuel' j jlen
      end
  end.

(** [None]: the function returned 0 and left [*idx] as it was. *)
Definition _shfs_journal_scan (j : Z) : fsm (option shfs_idx_t) :=
  jlen <~ shfs_journal_size j;
  if jlen <=? 0 then fret None
  else i <~ scan_retry 3 j jlen; fret (Some i).

Definition shfs_journal_index (key : shkey_t) : Z :=
  u16 (u16 (shcrc (Some (shkey_image key))) mod (SHFS_MAX_JOURNAL - 1) + 1).

Definition shfs_journal_scan (key : option shkey_t) : fsm (option shfs_idx_t) :=
  _shfs_journal_scan (match key with Some k => shfs_journal_index k | None => 0 end).

(** ** Inode blocks *)

Definition shfs_inode_read_block (p : shfs_idx_t) : fsm shfs_block_t :=
  ok <~ shfs_journal_block (jno p) (ino p);
  if negb ok then ferr SHERR_IO else load_block (jno p) (ino p).

(** The caller's block gets the time of the write. *)
Definition shfs_inode_write_block (b : shfs_block_t) : fsm shfs_block_t :=
  let p := pos (hdr b) in
  ok <~ shfs_journal_block (jno p) (ino p);
  if negb ok then ferr SHERR_IO
  else
    t <~ shtime;
    let b := set_mtime t b in
    _ <~ store_block (jno p) (ino p) b;
    fret b.

Definition shfs_inode_clear_block (p : shfs_idx_t) : fsm unit :=
  ok <~ shfs_journal_block (jno p) (ino p);
  if negb ok then ferr SHERR_IO else store_block (jno p) (ino p) blank_block.

(** An inode in memory is its block; the tree is the partition. *)
Definition shfs_inode_write_entity (ent : shfs_block_t) : fsm shfs_block_t := shfs_inode_write_block ent.

Definition shfs_crc_init (b : shfs_block_t) : Z :=
  let h := hdr b in
  if IS_INODE_CONTAINER (htype h) then shcrc (Some (shkey_image (hname h)))
  else if hsize h =? 0 then 0
  else u64 (shcrc (Some (shkey_image (hname h)))
            + shcrc (Some (take (Z.to_nat (Z.min SHFS_BLOCK_DATA_SIZE (hsize h))) (raw b)))).

End operations.

(** ** Well-formed partitions *)

(** The block stored at a position. *)
Definition get (f : fs) (p : shfs_idx_t) : option shfs_block_t :=
  if ino p <? 0 then None
  else match journals f !! jno p with
       | Some jr => if mapped jr then jblocks jr !! Z.to_nat (ino p) else None
       | None => None
       end.

(** Storing a block. *)
Definition put (f : fs) (p : shfs_idx_t) (b : shfs_block_t) : fs :=
  mk_fs (alter (fun jr => mk_journal (<[Z.to_nat (ino p) := b]> (jblocks jr)) (mapped jr)) (jno p) (journals f)) (ticks f).

Definition occupied (b : shfs_block_t) : bool := negb (htype (hdr b) =? 0).

(** The number of slots of a journal that are in use, slot 0 apart. *)
Definition used (f : fs) (j : Z) : nat :=
  match journals f !! j with
  | Some jr => length (filter (fun b => occupied b = true) (drop 1 (jblocks jr)))
  | None => 0
  end.

Definition journal_wf (jr : journal) : Prop :=
  mapped jr = true /\ (exists k, 0 <= k <= 13 /\ Z.of_nat (length (jblocks jr)) = 4 * 2 ^ k) /\
  Forall (fun b => length (raw b) = Z.to_nat SHFS_BLOCK_DATA_SIZE) (jblocks jr).

Definition fs_wf (f : fs) : Prop :=
  map_Forall (fun j jr => 0 <= j < SHFS_MAX_JOURNAL /\ journal_wf jr) (journals f).

(** Files can be opened and enlarged. *)
Definition env_ok (E : fsenv) : Prop :=
  (forall j, 0 <= j < SHFS_MAX_JOURNAL -> jopen_ok E j = true) /\
  (forall j n, 0 <= n <= 134217728 -> jgrow_ok E j n = true).

(** Every stored block is kept; new blocks are blank. *)
Definition grown (f f' : fs) : Prop :=
  (forall p b, get f p = Some b -> get f' p = Some b) /\
  (forall p b, get f' p = Some b -> get f p = Some b \/ b = blank_block).

Lemma grown_refl f : grown f f.
Proof. unfold grown; auto. Qed.

Lemma grown_trans f g h : grown f g -> grown g h -> grown f h.
Proof.
  intros (K1 & N1) (K2 & N2). split; [auto |].
  intros p b H. destruct (N2 p b H) as [H'|]; auto.
Qed.

Lemma pow_bound k : 0 <= k <= 13 -> 1 <= 2 ^ k <= 8192.
Proof. intros. change 1 with (2 ^ 0). change 8192 with (2 ^ 13). split; apply Z.pow_le_mono_r; lia. Qed.

Lemma journal_wf_bound jr : journal_wf jr -> 4 <= Z.of_nat (length (jblocks jr)) <= 32768.
Proof. intros (_ & (k & Hk & ->) & _). pose proof (pow_bound k Hk). lia. Qed.

(** ** Positions and stored blocks *)

Lemma get_inv f p b :
  get f p = Some b -> 0 <= ino p /\
  exists jr, journals f !! jno p = Some jr /\ mapped jr = true /\ jblocks jr !! Z.to_nat (ino p) = Some b.
Proof.
  unfold get. case_cmp; [done |]. intros Hg. split; [lia |].
  destruct (journals f !! jno p) as [jr|]; [|done]. exists jr. by destruct (mapped jr).
Qed.

Lemma get_intro f p jr b :
  0 <= ino p -> journals f !! jno p = Some jr -> mapped jr = true ->
  jblocks jr !! Z.to_nat (ino p) = Some b -> get f p = Some b.
Proof. intros H1 H2 H3 H4. unfold get. rewrite H2, H3. case_cmp; [lia | done]. Qed.

Lemma get_raw f p b : fs_wf f -> get f p = Some b -> length (raw b) = Z.to_nat SHFS_BLOCK_DATA_SIZE.
Proof.
  intros Hf (_ & jr & Hj & _ & Hb)%get_inv. destruct (Hf _ _ Hj) as (_ & _ & _ & Hraw).
  by eapply Forall_lookup_1 in Hraw.
Qed.

Lemma put_same f p b b0 : get f p = Some b0 -> get (put f p b) p = Some b.
Proof.
  intros (Hi & jr & Hj & Hm & Hb)%get_inv. eapply get_intro; [done | | | ].
  - cbn. by rewrite lookup_alter_eq, Hj.
  - done.
  - cbn. apply list_lookup_insert_eq. by eapply lookup_lt_Some.
Qed.

Lemma put_other f p q b : 0 <= ino p -> p <> q -> get (put f p b) q = get f q.
Proof.
  intros Hp Hne. unfold get. case_cmp; [done |]. cbn.
  destruct (Z.eq_dec (jno p) (jno q)) as [He|He]; [|by rewrite lookup_alter_ne].
  rewrite He, lookup_alter_eq. destruct (journals f !! jno q) as [jr|]; [|done]. cbn.
  destruct (mapped jr); [|done]. apply list_lookup_insert_ne.
  intros Hi. apply Hne. destruct p, q; cbn in *. f_equal; lia.
Qed.

Lemma put_wf f p b : fs_wf f -> length (raw b) = Z.to_nat SHFS_BLOCK_DATA_SIZE -> fs_wf (put f p b).
Proof.
  intros Hf Hb j jr. cbn. destruct (Z.eq_dec (jno p) j) as [<-|Hne].
  - rewrite lookup_alter_eq. destruct (journals f !! jno p) as [jr0|] eqn:Hj; [|done].
    intros [= <-]. destruct (Hf _ _ Hj) as (H1 & H2 & H3 & H4).
    split; [done |]. split; [done |]. cbn. rewrite length_insert. split; [done |]. by apply Forall_insert.
  - rewrite lookup_alter_ne by done. apply Hf.
Qed.

Lemma filter_insert_le {A} (P : A -> bool) (l : list A) i x :
  (length (filter (fun b => P b = true) (<[i := x]> l)) <= S (length (filter (fun b => P b = true) l)))%nat.
Proof.
  revert i. induction l as [|y l IH]; intros i; [destruct i; cbn; lia |].
  destruct i as [|i];
    [change (<[O := x]> (y :: l)) with (x :: l)
    |specialize (IH i); change (<[S i := x]> (y :: l)) with (y :: <[i := x]> l)];
    rewrite !filter_cons; repeat case_decide; cbn [length]; lia.
Qed.

Lemma filter_insert_same {A} (P : A -> bool) (l : list A) i x y :
  l !! i = Some y -> P y = true ->
  (length (filter (fun b => P b = true) (<[i := x]> l)) <= length (filter (fun b => P b = true) l))%nat.
Proof.
  revert i. induction l as [|z l IH]; intros i; [done |].
  destruct i as [|i];
    [intros [= <-] Hy; change (<[O := x]> (z :: l)) with (x :: l)
    |intros Hi Hy; specialize (IH i Hi Hy); change (<[S i := x]> (z :: l)) with (z :: <[i := x]> l)];
    rewrite !filter_cons; repeat case_decide; cbn [length]; (done || lia).
Qed.

Lemma drop_insert_1 {A} (l : list A) i x :
  drop 1 (<[i := x]> l) = match i with O => drop 1 l | S i' => <[i' := x]> (drop 1 l) end.
Proof. by destruct l, i. Qed.

(** Storing a block takes at most one slot, and none when the slot was in use. *)
Lemma used_put f p b j : (used (put f p b) j <= S (used f j))%nat.
Proof.
  unfold used. cbn. destruct (Z.eq_dec (jno p) j) as [<-|Hne]; [|rewrite lookup_alter_ne by done; lia].
  rewrite lookup_alter_eq. destruct (journals f !! jno p) as [jr|]; [|cbn; lia]. cbn.
  rewrite drop_insert_1. case_match; [lia | apply filter_insert_le].
Qed.

Lemma used_put_same f p b b0 j :
  get f p = Some b0 -> occupied b0 = true -> (used (put f p b) j <= used f j)%nat.
Proof.
  intros (Hi & jr & Hj & Hm & Hb)%get_inv Ho. unfold used. cbn.
  destruct (Z.eq_dec (jno p) j) as [<-|Hne]; [|rewrite lookup_alter_ne by done; lia].
  rewrite lookup_alter_eq, Hj. cbn. rewrite drop_insert_1. case_match; [lia |].
  eapply filter_insert_same; [|done]. rewrite lookup_drop. exact Hb.
Qed.

(** ** The operations on well-formed partitions *)

(** The partition one clock reading later. *)
Definition tick (f : fs) : fs := mk_fs (journals f) (S (ticks f)).

Lemma get_tick f p : get (tick f) p = get f p.
Proof. reflexivity. Qed.

Section lemmas.
Context (E : fsenv).

Lemma journal_buff_open f j jr :
  jopen_ok E j = true -> 0 <= j < SHFS_MAX_JOURNAL -> journals f !! j = Some jr -> journal_buff E j f = (f, Some jr).
Proof.
  intros Ho Hr Hj. unfold journal_buff. rewrite Ho, Hj.
  by assert ((j <? 0) || (SHFS_MAX_JOURNAL <=? j) || negb true = false) as -> by lia.
Qed.

Lemma journal_block_open f p b :
  jopen_ok E (jno p) = true -> fs_wf f -> get f p = Some b ->
  shfs_journal_block E (jno p) (ino p) f = Done (f, Ok true).
Proof.
  intros Ho Hf (Hi & jr & Hj & Hm & Hb)%get_inv. destruct (Hf _ _ Hj) as [Hr Hwf]. unfold shfs_journal_block.
  rewrite (journal_buff_open f _ jr) by done. unfold journal_bytes. rewrite Hm.
  pose proof (journal_wf_bound jr Hwf). apply lookup_lt_Some in Hb.
  unfold SHFS_MAX_JOURNAL_SIZE, SHFS_MAX_BLOCK, SHFS_MAX_BLOCK_SIZE.
  repeat (case_cmp; [lia |]). done.
Qed.

Lemma load_block_ok f p b : get f p = Some b -> load_block (jno p) (ino p) f = Done (f, Ok b).
Proof. intros (Hi & jr & Hj & Hm & Hb)%get_inv. unfold load_block. by rewrite Hj, Hb. Qed.

Lemma store_block_ok f p b b0 :
  get f p = Some b0 -> store_block (jno p) (ino p) b f = Done (put f p b, Ok tt).
Proof.
  intros (Hi & jr & Hj & Hm & Hb)%get_inv. unfold store_block. rewrite Hj.
  apply lookup_lt_Some in Hb. apply Nat.ltb_lt in Hb. rewrite Hb. unfold put.
  do 3 f_equal. apply map_eq. intros j. destruct (Z.eq_dec (jno p) j) as [<-|].
  - by rewrite lookup_insert_eq, lookup_alter_eq, Hj.
  - by rewrite lookup_insert_ne, lookup_alter_ne.
Qed.

Lemma write_block_open f b b0 :
  jopen_ok E (jno (pos (hdr b))) = true -> fs_wf f -> get f (pos (hdr b)) = Some b0 ->
  let b' := set_mtime (clock E (ticks f)) b in
  shfs_inode_write_block E b f = Done (put (tick f) (pos (hdr b)) b', Ok b').
Proof.
  intros Ho Hf Hg. unfold shfs_inode_write_block, fbind. rewrite (journal_block_open f _ b0) by done.
  cbn [negb shtime]. by rewrite (store_block_ok (tick f) (pos (hdr b)) _ b0).
Qed.

Context (HE : env_ok E).

Lemma get_open f p b : fs_wf f -> get f p = Some b -> jopen_ok E (jno p) = true.
Proof. intros Hf (_ & jr & Hj & _)%get_inv. apply HE, (Hf _ _ Hj). Qed.

Lemma journal_buff_present f j jr :
  fs_wf f -> journals f !! j = Some jr -> journal_buff E j f = (f, Some jr).
Proof. intros Hf Hj. destruct (Hf _ _ Hj) as [Hr _]. apply journal_buff_open; [by apply HE | done | done]. Qed.

Lemma journal_block_ok f p b :
  fs_wf f -> get f p = Some b -> shfs_journal_block E (jno p) (ino p) f = Done (f, Ok true).
Proof. intros Hf Hg. by eapply journal_block_open; [eapply get_open | |]. Qed.

Lemma read_block_ok f p b : fs_wf f -> get f p = Some b -> shfs_inode_read_block E p f = Done (f, Ok b).
Proof.
  intros Hf Hg. unfold shfs_inode_read_block, fbind. rewrite (journal_block_ok f p b) by done.
  by apply load_block_ok.
Qed.

Lemma write_block_ok f b b0 :
  fs_wf f -> get f (pos (hdr b)) = Some b0 ->
  let b' := set_mtime (clock E (ticks f)) b in
  shfs_inode_write_block E b f = Done (put (tick f) (pos (hdr b)) b', Ok b').
Proof. intros Hf Hg. by eapply write_block_open; [eapply get_open | |]. Qed.

Lemma clear_block_ok f p b0 :
  fs_wf f -> get f p = Some b0 -> shfs_inode_clear_block E p f = Done (put f p blank_block, Ok tt).
Proof.
  intros Hf Hg. unfold shfs_inode_clear_block, fbind. rewrite (journal_block_ok f _ b0) by done.
  by apply (store_block_ok f p _ b0).
Qed.

(** ** Allocation *)

Lemma blank_raw : length (raw blank_block) = Z.to_nat SHFS_BLOCK_DATA_SIZE.
Proof. apply length_replicate. Qed.

Lemma blank_free : occupied blank_block = false.
Proof. reflexivity. Qed.

Lemma filter_blank n : filter (fun b => occupied b = true) (replicate n blank_block) = [].
Proof. induction n; [done |]. cbn [replicate]. rewrite filter_cons_False; [done | by rewrite blank_free]. Qed.

Lemma filter_all {A} (P : A -> bool) (l : list A) :
  (forall i b, l !! i = Some b -> P b = true) -> filter (fun b => P b = true) l = l.
Proof.
  induction l as [|x l IH]; intros H; [done |].
  rewrite filter_cons_True by (by apply (H 0%nat)). rewrite IH; [done |]. intros i. apply (H (S i)).
Qed.

(** Replacing a journal by one that has more blank blocks. *)
Lemma extend_grown f j (jr : option journal) n :
  journals f !! j = jr -> (forall x, jr = Some x -> mapped x = true) ->
  let bs := match jr with Some x => jblocks x | None => [] end in
  let f' := mk_fs (<[j := mk_journal (bs ++ replicate n blank_block) true]> (journals f)) (ticks f) in
  (1 <= length bs \/ bs = [])%nat ->
  grown f f' /\ forall i, used f' i = used f i.
Proof.
  intros Hj Hm bs f' Hbs. assert (forall p, 0 <= ino p -> jno p = j ->
    get f' p = (bs ++ replicate n blank_block) !! Z.to_nat (ino p) /\ get f p = bs !! Z.to_nat (ino p)) as Hget.
  { intros p Hp <-. unfold get, f'. cbn. rewrite lookup_insert_eq, Hj. case_cmp; [lia |].
    split; [done |]. unfold bs. destruct jr as [x|]; [by rewrite (Hm x) | done]. }
  assert (forall p, jno p <> j -> get f' p = get f p) as Hother.
  { intros p Hp. unfold get, f'. cbn. by rewrite lookup_insert_ne by congruence. }
  split; [split |].
  - intros p b Hg. destruct (Z.eq_dec (jno p) j) as [He|He]; [|by rewrite Hother].
    pose proof (proj1 (get_inv _ _ _ Hg)) as Hp. destruct (Hget p Hp He) as [-> H2].
    rewrite H2 in Hg. by apply lookup_app_l_Some.
  - intros p b Hg. destruct (Z.eq_dec (jno p) j) as [He|He]; [|rewrite Hother in Hg; auto].
    pose proof (proj1 (get_inv _ _ _ Hg)) as Hp. destruct (Hget p Hp He) as [H1 ->].
    rewrite H1 in Hg. apply lookup_app_Some in Hg as [Hg|[_ Hg]]; [auto |].
    apply lookup_replicate in Hg as [-> _]. auto.
  - intros i. unfold used, f'. cbn. destruct (Z.eq_dec j i) as [<-|He]; [|by rewrite lookup_insert_ne].
    rewrite lookup_insert_eq, Hj. cbn. destruct Hbs as [Hbs|Hbs].
    + rewrite drop_app_le, filter_app, filter_blank, app_nil_r by lia. unfold bs. by destruct jr.
    + rewrite Hbs, app_nil_l, drop_replicate, filter_blank. unfold bs in Hbs. destruct jr as [x|]; [|done].
      by rewrite Hbs.
Qed.

Lemma journal_buff_ok f j :
  fs_wf f -> 0 <= j < SHFS_MAX_JOURNAL ->
  exists f' jr, journal_buff E j f = (f', Some jr) /\ journals f' !! j = Some jr /\
    grown f f' /\ fs_wf f' /\ forall i, used f' i = used f i.
Proof.
  intros Hf Hj. destruct (journals f !! j) as [jr|] eqn:Hl.
  { exists f, jr. split_and!; [by apply journal_buff_present | done | apply grown_refl | done | done]. }
  exists (mk_fs (<[j := mk_journal (replicate 4 blank_block) true]> (journals f)) (ticks f)),
    (mk_journal (replicate 4 blank_block) true).
  split; [|split].
  - unfold journal_buff. rewrite (proj1 HE), Hl by done.
    by assert ((j <? 0) || (SHFS_MAX_JOURNAL <=? j) || negb true = false) as -> by lia.
  - apply lookup_insert_eq.
  - destruct (extend_grown f j None 4 Hl) as [Hg Hu]; [done | by right |].
    split; [exact Hg |]. split; [|exact Hu].
    apply map_Forall_insert_2; [|done]. split; [done |]. split; [done |]. split.
    + exists 0. split; [lia | done].
    + apply Forall_replicate, blank_raw.
Qed.

(** The free slot with the largest number up to [n]. *)
Fixpoint find_free (bs : list shfs_block_t) (n : nat) : option Z :=
  match n with
  | O => None
  | S n' => match bs !! n with
            | Some b => if occupied b then find_free bs n' else Some (Z.of_nat n)
            | None => None
            end
  end.

Lemma find_free_Some bs n i :
  find_free bs n = Some i -> 1 <= i <= Z.of_nat n /\ exists b, bs !! Z.to_nat i = Some b /\ occupied b = false.
Proof.
  induction n as [|n IH]; [done |]. cbn [find_free]. destruct (bs !! S n) as [b|] eqn:Hb; [|done].
  destruct (occupied b) eqn:Ho; [intros H; destruct (IH H) as [? ?]; split; [lia | done] |].
  intros [= <-]. rewrite Nat2Z.id. split; [lia | eauto].
Qed.

Lemma find_free_None bs n i b :
  (n < length bs)%nat -> find_free bs n = None -> (1 <= i <= n)%nat -> bs !! i = Some b -> occupied b = true.
Proof.
  induction n as [|n IH]; [lia |]. intros Hn. cbn [find_free].
  destruct (lookup_lt_is_Some_2 bs (S n)) as [c Hc]; [lia |]. rewrite Hc.
  destruct (occupied c) eqn:Ho; [|done]. intros H Hi Hb.
  destruct (decide (i = S n)) as [->|]; [congruence |]. apply IH; [lia | done | lia | done].
Qed.

Lemma scan_down_eq f j jr n :
  fs_wf f -> journals f !! j = Some jr -> (n < length (jblocks jr))%nat ->
  scan_down E j n f = Done (f, Ok (find_free (jblocks jr) n)).
Proof.
  intros Hf Hj. induction n as [|n IH]; intros Hn; [done |].
  destruct (lookup_lt_is_Some_2 (jblocks jr) (S n)) as [b Hb]; [lia |].
  assert (get f (mk_idx j (Z.of_nat (S n))) = Some b) as Hg.
  { eapply get_intro; cbn [ino jno]; [lia | done | by apply (Hf _ _ Hj) | by rewrite Nat2Z.id]. }
  cbn [scan_down find_free]. unfold fbind. rewrite Hb.
  pose proof (journal_block_ok f _ b Hf Hg) as Hblk. cbn [jno ino] in Hblk. rewrite Hblk. cbn [negb].
  pose proof (load_block_ok f _ b Hg) as Hload. cbn [jno ino] in Hload. rewrite Hload.
  unfold occupied. destruct (htype (hdr b) =? 0); [done |]. apply IH. lia.
Qed.

(** A full journal. *)
Lemma used_full f j jr :
  journals f !! j = Some jr ->
  (forall i b, (1 <= i <= length (jblocks jr) - 1)%nat -> jblocks jr !! i = Some b -> occupied b = true) ->
  used f j = (length (jblocks jr) - 1)%nat.
Proof.
  intros Hj Hall. unfold used. rewrite Hj, filter_all, length_drop; [done |].
  intros i b Hi. rewrite lookup_drop in Hi. pose proof (lookup_lt_Some _ _ _ Hi). apply (Hall (1 + i)%nat b); [lia | done].
Qed.

(** The slot a scan of the journal finds. *)
Definition free_slot (f : fs) (j i : Z) : Prop :=
  exists jr, journals f !! j = Some jr /\ find_free (jblocks jr) (length (jblocks jr) - 1) = Some i.

Lemma free_slot_get f j i :
  fs_wf f -> free_slot f j i -> 1 <= i < 32768 /\ exists b, get f (mk_idx j i) = Some b /\ occupied b = false.
Proof.
  intros Hf (jr & Hj & Hi). destruct (Hf _ _ Hj) as [Hjr Hwf]. pose proof (journal_wf_bound jr Hwf).
  destruct (find_free_Some _ _ _ Hi) as (Hb & b & Hlk & Ho). split; [lia |].
  exists b. split; [|done]. eapply get_intro; [cbn; lia | done | apply Hwf | done].
Qed.

(** The slot [_shfs_journal_scan] hands out is free; growing the journal keeps
    every block. *)
Definition scanned (j : Z) (f f' : fs) (i : Z) : Prop :=
  free_slot f' j i /\ grown f f' /\ fs_wf f' /\ forall x, used f' x = used f x.

Lemma scan_found f j jr fuel i :
  fs_wf f -> journals f !! j = Some jr -> find_free (jblocks jr) (length (jblocks jr) - 1) = Some i ->
  scan_retry E (S fuel) j (Z.of_nat (length (jblocks jr)) * SHFS_MAX_BLOCK_SIZE) f = Done (f, Ok (mk_idx j i)).
Proof.
  intros Hf Hj Hi. destruct (Hf _ _ Hj) as [Hjr Hwf]. pose proof (journal_wf_bound jr Hwf).
  destruct (find_free_Some _ _ _ Hi) as (Hb & _). unfold SHFS_MAX_JOURNAL in *.
  cbn [scan_retry]. unfold fbind. rewrite Z.div_mul by done.
  replace (Z.to_nat (Z.of_nat (length (jblocks jr)) - 1)) with (length (jblocks jr) - 1)%nat by lia.
  rewrite (scan_down_eq f j jr) by (done || lia). rewrite Hi. unfold fret. by rewrite !wrap_small by rlia.
Qed.

Lemma grow_journal_ok f j jr k :
  fs_wf f -> journals f !! j = Some jr -> 0 <= k <= 12 -> Z.of_nat (length (jblocks jr)) = 4 * 2 ^ k ->
  exists jr', let f' := mk_fs (<[j := jr']> (journals f)) (ticks f) in
    grow_journal E j (Z.max SHARE_PAGE_SIZE (Z.of_nat (length (jblocks jr)) * SHFS_MAX_BLOCK_SIZE) * 2) f
      = Done (f', Ok tt) /\
    Z.of_nat (length (jblocks jr')) = 2 * Z.of_nat (length (jblocks jr)) /\
    jblocks jr' !! (length (jblocks jr') - 1)%nat = Some blank_block /\
    grown f f' /\ fs_wf f' /\ forall x, used f' x = used f x.
Proof.
  intros Hf Hj Hk Hl. destruct (Hf _ _ Hj) as [Hjr Hwf]. pose proof (journal_wf_bound jr Hwf).
  assert (2 ^ k <= 4096) by (change 4096 with (2 ^ 12); apply Z.pow_le_mono_r; lia).
  destruct Hwf as (Hm & _ & Hraw). set (n := length (jblocks jr)) in *.
  exists (mk_journal (jblocks jr ++ replicate n blank_block) true).
  destruct (extend_grown f j (Some jr) n Hj) as [Hg Hu]; [by intros x [= <-] | left; fold n; lia |].
  split_and!; [| | | exact Hg | | exact Hu].
  - unfold grow_journal. rewrite Hj. unfold journal_bytes, SHFS_MAX_BLOCK_SIZE, SHARE_PAGE_SIZE. rewrite Hm.
    fold n. rewrite Z.max_r by lia. case_cmp; [lia |]. rewrite (proj2 HE) by lia.
    by replace (Z.to_nat (Z.of_nat n * 4096 * 2 / 4096) - n)%nat with n
      by (replace (Z.of_nat n * 4096 * 2) with (Z.of_nat n * 2 * 4096) by ring; rewrite Z.div_mul by done; lia).
  - cbn [jblocks]. rewrite length_app, length_replicate. fold n. lia.
  - cbn [jblocks]. rewrite length_app, length_replicate, lookup_app_r by (fold n; lia). fold n.
    apply lookup_replicate. split; [done | lia].
  - apply map_Forall_insert_2; [|done]. split; [done |]. split; [done |]. cbn [jblocks]. split.
    + exists (k + 1). split; [lia |]. rewrite length_app, length_replicate, Z.pow_add_r by lia. fold n. lia.
    + apply Forall_app. split; [done | apply Forall_replicate, blank_raw].
Qed.

Lemma scan_retry_ok f j jr fuel :
  fs_wf f -> journals f !! j = Some jr -> (2 <= fuel)%nat -> Z.of_nat (used f j) < 32767 ->
  exists f' i, scan_retry E fuel j (Z.of_nat (length (jblocks jr)) * SHFS_MAX_BLOCK_SIZE) f
    = Done (f', Ok (mk_idx j i)) /\ scanned j f f' i.
Proof.
  intros Hf Hj Hfuel Hu. destruct (Hf _ _ Hj) as [Hjr Hwf]. pose proof (journal_wf_bound jr Hwf) as Hb.
  destruct fuel as [|[|fuel]]; [lia | lia |].
  destruct (find_free (jblocks jr) (length (jblocks jr) - 1)) as [i|] eqn:Hff.
  { exists f, i. split; [by apply (scan_found f j jr) |]. split; [by exists jr |]. split_and!; [apply grown_refl | done | done]. }
  rewrite (used_full f j jr) in Hu by (done || (intros i b Hi; apply (find_free_None _ (length (jblocks jr) - 1)); [lia | done | done])).
  destruct Hwf as (Hm & (k & Hk & Hlen) & Hraw).
  assert (k <> 13) by (intros ->; change (4 * 2 ^ 13) with 32768 in Hlen; lia).
  destruct (grow_journal_ok f j jr k) as (jr' & Hgrow & Hlen' & Hlast & Hg & Hf' & Hus); [done | done | lia | done |].
  set (f' := mk_fs (<[j := jr']> (journals f)) (ticks f)) in *.
  assert (journals f' !! j = Some jr') as Hj' by apply lookup_insert_eq.
  remember (S fuel) as fuel1 eqn:Hf1. cbn [scan_retry]. subst fuel1.
  unfold fbind at 1. rewrite Z.div_mul by done.
  replace (Z.to_nat (Z.of_nat (length (jblocks jr)) - 1)) with (length (jblocks jr) - 1)%nat by lia.
  rewrite (scan_down_eq f j jr), Hff by (done || lia). unfold SHFS_MAX_BLOCK.
  case_cmp; [lia |]. unfold fbind at 1. rewrite Hgrow. fold f'.
  replace (Z.max SHARE_PAGE_SIZE (Z.of_nat (length (jblocks jr)) * SHFS_MAX_BLOCK_SIZE) * 2)
    with (Z.of_nat (length (jblocks jr')) * SHFS_MAX_BLOCK_SIZE) by (unfold SHARE_PAGE_SIZE, SHFS_MAX_BLOCK_SIZE; lia).
  destruct (find_free (jblocks jr') (length (jblocks jr') - 1)) as [i|] eqn:Hff'.
  - exists f', i. split; [by apply (scan_found f' j jr') |]. split; [by exists jr' |]. by split_and!.
  - set (m := (length (jblocks jr') - 1)%nat) in *.
    assert (occupied blank_block = true) as Ho by (apply (find_free_None (jblocks jr') m m); [lia | done | lia | done]).
    by rewrite blank_free in Ho.
Qed.

Lemma journal_scan_eq f f1 j jr :
  journal_buff E j f = (f1, Some jr) -> fs_wf f1 -> journals f1 !! j = Some jr ->
  _shfs_journal_scan E j f =
    (i <~ scan_retry E 3 j (Z.of_nat (length (jblocks jr)) * SHFS_MAX_BLOCK_SIZE); fret (Some i)) f1.
Proof.
  intros Hb Hf1 Hl. unfold _shfs_journal_scan, fbind at 1. unfold shfs_journal_size. rewrite Hb. unfold journal_bytes.
  destruct (Hf1 _ _ Hl) as [_ Hwf]. rewrite (proj1 Hwf). pose proof (journal_wf_bound jr Hwf).
  unfold SHFS_MAX_BLOCK_SIZE in *. by case_cmp; [lia |].
Qed.

Lemma scan_ok f j :
  fs_wf f -> 0 <= j < SHFS_MAX_JOURNAL -> Z.of_nat (used f j) < 32767 ->
  exists f' i, _shfs_journal_scan E j f = Done (f', Ok (Some (mk_idx j i))) /\ scanned j f f' i.
Proof.
  intros Hf Hj Hu. destruct (journal_buff_ok f j Hf Hj) as (f1 & jr & Hb & Hl & Hg & Hf1 & Hus).
  destruct (scan_retry_ok f1 j jr 3) as (f2 & i & He & (H2 & H3 & H4 & H5)); [done | done | lia | by rewrite Hus |].
  exists f2, i. split.
  - rewrite (journal_scan_eq f f1 j jr) by done. unfold fbind. by rewrite He.
  - split; [done |]. split_and!; [by eapply grown_trans | done | intros x; by rewrite H5].
Qed.

(** A scan finds the same slot until something is stored. *)
Lemma scan_again f j i : fs_wf f -> free_slot f j i -> _shfs_journal_scan E j f = Done (f, Ok (Some (mk_idx j i))).
Proof.
  intros Hf (jr & Hj & Hi). rewrite (journal_scan_eq f f j jr) by (done || by apply journal_buff_present).
  unfold fbind. by rewrite (scan_found f j jr 2 i).
Qed.

Lemma journal_index_range k : 0 <= shfs_journal_index k < SHFS_MAX_JOURNAL.
Proof.
  unfold shfs_journal_index, SHFS_MAX_JOURNAL.
  pose proof (Z.mod_pos_bound (u16 (shcrc (Some (shkey_image k)))) (57344 - 1) ltac:(lia)).
  rewrite wrap_small by rlia. lia.
Qed.

End lemmas.

(** ** Properties *)

(** C29: A scan for a key hands out a free slot of the key's journal, enlarging
    the journal when it is full; a block written there is read back with the time
    of the write, and every block that was in use is still read as it was. *)
Theorem shfs_block_roundtrip E f key b :
  env_ok E -> fs_wf f -> Z.of_nat (used f (shfs_journal_index key)) < 32767 ->
  length (raw b) = Z.to_nat SHFS_BLOCK_DATA_SIZE ->
  exists f1 f2 p b', shfs_journal_scan E (Some key) f = Done (f1, Ok (Some p)) /\
    jno p = shfs_journal_index key /\ 1 <= ino p < 32768 /\
    shfs_inode_write_block E (set_pos p b) f1 = Done (f2, Ok b') /\
    b' = set_mtime (clock E (ticks f1)) (set_pos p b) /\
    fs_wf f2 /\ shfs_inode_read_block E p f2 = Done (f2, Ok b') /\
    forall q c, get f q = Some c -> occupied c = true -> shfs_inode_read_block E q f2 = Done (f2, Ok c).
Proof.
  intros HE Hf Hu Hb.
  destruct (scan_ok E HE f _ Hf (journal_index_range key) Hu) as (f1 & i & Hs & (Hslot & Hg & Hf1 & _)).
  destruct (free_slot_get f1 _ i Hf1 Hslot) as (Hi & b0 & Hb0 & Ho). set (p := mk_idx (shfs_journal_index key) i) in *.
  pose proof (write_block_ok E HE f1 (set_pos p b) b0 Hf1 Hb0) as Hw. cbn zeta in Hw.
  set (b' := set_mtime (clock E (ticks f1)) (set_pos p b)) in *.
  assert (fs_wf (put (tick f1) p b')) as Hf2 by (by apply (put_wf (tick f1))).
  exists f1, (put (tick f1) p b'), p, b'. split_and!; try done; try (unfold p; cbn; lia).
  - apply read_block_ok; [done | done |]. by apply (put_same (tick f1) p b' b0).
  - intros q c Hq Hc. apply read_block_ok; [done | done |]. apply Hg in Hq.
    rewrite put_other; [done | unfold p; cbn; lia |]. intros <-. congruence.
Qed.

Definition demo_fsenv : fsenv := mk_fsenv (fun n => 1000 + Z.of_nat n) (fun _ => true) (fun _ _ => true) (-28).

Lemma demo_fsenv_ok : env_ok demo_fsenv.
Proof. done. Qed.

Lemma fs_wf_empty t : fs_wf (mk_fs ∅ t).
Proof. apply map_Forall_empty. Qed.

Lemma used_empty t j : used (mk_fs ∅ t) j = 0%nat.
Proof. unfold used. cbn. by rewrite lookup_empty. Qed.

Lemma shfs_block_roundtrip_witness :
  exists f1 f2 p b', shfs_journal_scan demo_fsenv (Some key_blank) (mk_fs ∅ 0) = Done (f1, Ok (Some p)) /\
    shfs_inode_write_block demo_fsenv (set_pos p (set_type SHINODE_FILE blank_block)) f1 = Done (f2, Ok b') /\
    shfs_inode_read_block demo_fsenv p f2 = Done (f2, Ok b').
Proof.
  destruct (shfs_block_roundtrip demo_fsenv (mk_fs ∅ 0) key_blank (set_type SHINODE_FILE blank_block))
    as (f1 & f2 & p & b' & H1 & _ & _ & H2 & _ & _ & H3 & _).
  - exact demo_fsenv_ok.
  - apply fs_wf_empty.
  - rewrite used_empty. reflexivity.
  - apply blank_raw.
  - exists f1, f2, p, b'. auto.
Defined.

(** A journal of more than [SHFS_MAX_BLOCK] blocks cannot be scanned. *)
Lemma scan_too_long E f j jr :
  jopen_ok E j = true -> 0 <= j < SHFS_MAX_JOURNAL -> journals f !! j = Some jr -> mapped jr = true ->
  SHFS_MAX_BLOCK < Z.of_nat (length (jblocks jr)) ->
  forall fuel, scan_retry E (S fuel) j (Z.of_nat (length (jblocks jr)) * SHFS_MAX_BLOCK_SIZE) f = Done (f, Err SHERR_IO).
Proof.
  intros Ho Hr Hj Hm Hl fuel. cbn [scan_retry]. rewrite Z.div_mul by done. unfold SHFS_MAX_BLOCK in Hl.
  destruct (Z.to_nat (Z.of_nat (length (jblocks jr)) - 1)) as [|n] eqn:Hn; [lia |].
  cbn [scan_down]. unfold fbind, shfs_journal_block. rewrite (journal_buff_open E f j jr) by done.
  destruct (Z.ltb_spec (Z.of_nat (S n)) 0) as [|_]; [lia |].
  unfold SHFS_MAX_JOURNAL_SIZE, SHFS_MAX_BLOCK, SHFS_MAX_BLOCK_SIZE.
  destruct (Z.leb_spec (57344 * 4096) (Z.of_nat (S n) * 4096)); [done | lia].
Qed.

Lemma find_free_full bs n :
  (forall i b, (1 <= i)%nat -> bs !! i = Some b -> occupied b = true) -> find_free bs n = None.
Proof.
  intros Hall. destruct (find_free bs n) as [i|] eqn:Hi; [|done].
  apply find_free_Some in Hi as (Hi & b & Hb & Ho). rewrite (Hall (Z.to_nat i) b) in Ho; [done | lia | done].
Qed.

Lemma grow_full E f j jr :
  (forall n, jgrow_ok E j n = true) -> journals f !! j = Some jr -> journal_wf jr -> Z.of_nat (length (jblocks jr)) = 32768 ->
  grow_journal E j (Z.max SHARE_PAGE_SIZE (32768 * SHFS_MAX_BLOCK_SIZE) * 2) f =
    Done (mk_fs (<[j := mk_journal (jblocks jr ++ replicate (Z.to_nat 32768) blank_block) true]> (journals f)) (ticks f), Ok tt).
Proof.
  intros Hgr Hj Hwf Hlen. unfold grow_journal, journal_bytes. rewrite Hj, Hgr, (proj1 Hwf), Hlen.
  change (Z.max SHARE_PAGE_SIZE (32768 * SHFS_MAX_BLOCK_SIZE) * 2) with 268435456. unfold SHFS_MAX_BLOCK_SIZE.
  change (268435456 <=? 32768 * 4096) with false. cbv iota.
  by replace (Z.to_nat (268435456 / 4096) - length (jblocks jr))%nat with (Z.to_nat 32768)
    by (change (268435456 / 4096) with 65536; lia).
Qed.

(** A journal holds 32767 blocks, not the 57343 its limit allows: when they
    are in use the scan doubles the file to 65536 blocks, whose last ones
    [shfs_journal_block] refuses, and reports an I/O error instead of the lack of
    space; from then on every scan of the journal fails, whatever has been cleared
    in it. *)
Theorem shfs_journal_scan_exhausted E f j jr :
  env_ok E -> (forall n, jgrow_ok E j n = true) -> fs_wf f ->
  journals f !! j = Some jr -> Z.of_nat (length (jblocks jr)) = 32768 ->
  (forall i b, (1 <= i)%nat -> jblocks jr !! i = Some b -> occupied b = true) ->
  exists f' jr', _shfs_journal_scan E j f = Done (f', Err SHERR_IO) /\
    journals f' !! j = Some jr' /\ mapped jr' = true /\ Z.of_nat (length (jblocks jr')) = 65536 /\
    forall g jg, journals g !! j = Some jg -> mapped jg = true -> Z.of_nat (length (jblocks jg)) = 65536 ->
      _shfs_journal_scan E j g = Done (g, Err SHERR_IO).
Proof.
  intros HE Hgr Hf Hj Hlen Hall. destruct (Hf _ _ Hj) as [Hr Hwf].
  assert (jopen_ok E j = true) as Ho by (by apply HE).
  set (jr' := mk_journal (jblocks jr ++ replicate (Z.to_nat 32768) blank_block) true).
  set (f' := mk_fs (<[j := jr']> (journals f)) (ticks f)).
  assert (Z.of_nat (length (jblocks jr')) = 65536) as Hlen' by (unfold jr'; cbn [jblocks]; llia).
  assert (journals f' !! j = Some jr') as Hj' by apply lookup_insert_eq.
  exists f', jr'. split; [|split_and!; [done | done | done |]].
  - rewrite (journal_scan_eq E f f j jr) by (done || by apply journal_buff_open).
    rewrite Hlen. remember 2%nat as fuel. unfold fbind at 1. cbn [scan_retry]. unfold fbind at 1. rewrite Z.div_mul by done.
    rewrite (scan_down_eq E HE f j jr) by (done || lia). rewrite find_free_full by (done || lia).
    destruct (Z.leb_spec SHFS_MAX_BLOCK 32768) as [Hc|_]; [by apply Z.leb_le in Hc |].
    unfold fbind. rewrite (grow_full E f j jr) by done. fold jr' f'. subst fuel.
    pose proof (scan_too_long E f' j jr' Ho Hr Hj' eq_refl) as Ht. rewrite Hlen' in Ht.
    change (Z.max SHARE_PAGE_SIZE (32768 * SHFS_MAX_BLOCK_SIZE) * 2) with (65536 * SHFS_MAX_BLOCK_SIZE).
    by rewrite (Ht ltac:(done) 1%nat).
  - intros g jg Hg Hm Hl. unfold _shfs_journal_scan, shfs_journal_size, fbind.
    rewrite (journal_buff_open E g j jg) by done. unfold journal_bytes. rewrite Hm, Hl.
    pose proof (scan_too_long E g j jg Ho Hr Hg Hm) as Ht. rewrite Hl in Ht.
    destruct (Z.leb_spec (65536 * SHFS_MAX_BLOCK_SIZE) 0) as [Hc|_]; [by apply Z.leb_le in Hc |].
    by rewrite (Ht ltac:(done) 2%nat).
Qed.

(** A journal with every slot in use. *)
Definition full_journal : journal := mk_journal (replicate (Z.to_nat 32768) (set_type SHINODE_FILE blank_block)) true.
Definition full_fs : fs := mk_fs {[ 7 := full_journal ]} 0.

Lemma full_fs_wf : fs_wf full_fs.
Proof.
  apply map_Forall_singleton. split; [split; done |]. split; [done |]. split.
  - exists 13. split; [lia |]. unfold full_journal. cbn [jblocks]. by rewrite length_replicate, Z2Nat.id.
  - apply Forall_replicate, blank_raw.
Qed.

Lemma shfs_journal_scan_exhausted_witness :
  exists f' jr', _shfs_journal_scan demo_fsenv 7 full_fs = Done (f', Err SHERR_IO) /\ journals f' !! 7 = Some jr'.
Proof.
  destruct (shfs_journal_scan_exhausted demo_fsenv full_fs 7 full_journal) as (f' & jr' & H1 & H2 & _).
  - exact demo_fsenv_ok.
  - done.
  - exact full_fs_wf.
  - apply lookup_singleton_eq.
  - unfold full_journal. cbn [jblocks]. by rewrite length_replicate, Z2Nat.id.
  - intros i b _ [-> _]%lookup_replicate. reflexivity.
  - exists f', jr'. auto.
Defined.
