(* ===== verification/ShFsAux.v ===== *)
(** * File data: chains of auxiliary blocks

    Models [share-lib/fs/shfs_aux.c] and the clearing and truncating operations
    of [share-lib/fs/shfs_inode.c].  The data of an inode is a list of blocks
    linked by [npos] that starts at the inode's [fpos]; block [i] holds the bytes
    from [3976 * i] on.  A write walks the list, allocating a block when data is
    pending at its end; a read walks it to the end.

    An inode in memory is its block; operations return it with the error code,
    because the code changes it also when it fails.  Loops have fuel, which is an
    argument of every operation; running out is a [Fault]. *)

From Stdlib Require Import ZArith Lia String.
From stdpp Require Import base numbers list gmap.
From S2P Require Import Prelude ShCrc ShKey ShBuf ShFs.

Open Scope Z_scope.

#[global] Instance shfs_hdr_eq_dec : EqDecision shfs_hdr_t.
Proof. solve_decision. Defined.
#[global] Instance shfs_block_eq_dec : EqDecision shfs_block_t.
Proof. solve_decision. Defined.

(** The locals of the loop of [shfs_aux_pwrite]. *)
Record wstate : Type := mk_ws { w_blk : shfs_block_t; w_oblk : shfs_block_t; w_of : Z; w_wof : Z; w_crc : Z }.

Section operations.
Context (E : fsenv).

(** ** Writing *)

(** The steps that create a block named after [blk]; [*idx] is the position in
    [blk], which the name depends on, and keeps its value when the scan assigns
    none. *)
Definition aux_init (nblk : shfs_block_t) (p : shfs_idx_t) (image : bytes) : fsm shfs_block_t :=
  t <~ shtime E;
  fret (set_name (shkey_bin (Some image)) (set_ctime t (set_pos p (set_type SHINODE_AUX nblk)))).

(** Returns [blk] with its [npos], and [nblk]. *)
Definition shfs_aux_pwrite_create (blk nblk : shfs_block_t) : fsm (shfs_block_t * shfs_block_t) :=
  r <~ shfs_journal_scan E (Some (hname (hdr blk)));
  let blk := match r with Some i => set_npos i blk | None => blk end in
  nblk <~ aux_init nblk (npos (hdr blk)) (block_image blk);
  fret (blk, nblk).

(** Returns [blk] and [*write_of]. *)
Definition shfs_aux_pwrite_block (blk : shfs_block_t) (buff : shbuf_t) (data_of data_len write_of seek_of : Z)
    : outcome (shfs_block_t * Z) :=
  match shbuf_data (Some buff) with
  | None => Done (blk, write_of)
  | Some d =>
      let r_len := data_len in
      if u64 (write_of + r_len) <? seek_of then Done (blk, write_of + r_len)
      else
        let '(w_of, w_len) := if write_of <? seek_of then (seek_of - write_of, r_len - (seek_of - write_of))
                              else (0, r_len) in
        if w_len =? 0 then Done (blk, write_of + r_len)
        else
          src <-! mem_read d (Z.to_nat (data_of + w_of)) (Z.to_nat w_len);
          r <-! mem_write (raw blk) (Z.to_nat w_of) src;
          Done (set_raw r blk, write_of + r_len)
  end.

(** The first data block: created, or read ([oblk] is then a copy).  The inode
    has its [fpos] assigned when the block is created. *)
Definition pwrite_first (inode : shfs_block_t) : fsm (shfs_block_t * wstate) :=
  if ino (fpos (hdr inode)) =? 0 then
    r <~ shfs_journal_scan E (Some (hname (hdr inode)));
    let inode := match r with Some i => set_fpos i inode | None => inode end in
    blk <~ aux_init blank_block (fpos (hdr inode)) (block_image inode);
    fret (inode, mk_ws blk blank_block 0 0 0)
  else
    blk <~ shfs_inode_read_block E (fpos (hdr inode));
    fret (inode, mk_ws blk blk 0 0 0).

(** The next block: linked, created when data is pending, or blank. *)
Definition pwrite_next (buff : shbuf_t) (blk : shfs_block_t) (b_of b_len : Z) : fsm (shfs_block_t * shfs_block_t) :=
  if ino (npos (hdr blk)) =? 0 then
    if u64 (b_of + b_len) <? data_of buff then shfs_aux_pwrite_create blk blank_block
    else fret (blk, blank_block)
  else
    nblk <~ shfs_inode_read_block E (npos (hdr blk));
    fret (blk, nblk).

Definition pwrite_seal (blk : shfs_block_t) (b_len : Z) : shfs_block_t :=
  let blk := set_crc 0 (set_size b_len blk) in set_crc (shfs_crc_init blk) blk.

(** One iteration. *)
Definition pwrite_step (buff : shbuf_t) (seek_of : Z) (st : wstate) : fsm wstate :=
  let b_len := Z.min SHFS_BLOCK_DATA_SIZE (u64 (data_of buff - w_of st)) in
  n <~ pwrite_next buff (w_blk st) (w_of st) b_len;
  w <~ fpure (shfs_aux_pwrite_block (fst n) buff (w_of st) b_len (w_wof st) seek_of);
  let blk := pwrite_seal (fst w) b_len in
  let seg_crc := u64 (w_crc st + hcrc (hdr blk)) in
  _ <~ (if decide (w_oblk st = blk) then fret blk else shfs_inode_write_block E blk);
  fret (mk_ws (snd n) (snd n) (u64 (w_of st + b_len)) (snd w) seg_crc).

(** [while (blk.hdr.pos.ino)]: the checksum of the file. *)
Fixpoint pwrite_loop (fuel : nat) (buff : shbuf_t) (seek_of : Z) (st : wstate) : fsm Z :=
  if ino (pos (hdr (w_blk st))) =? 0 then fret (w_crc st)
  else match fuel with
       | O => fault
       | S fuel' => st <~ pwrite_step buff seek_of st; pwrite_loop fuel' buff seek_of st
       end.

(** The inode and the error code ([seek_max] is not used). *)
Definition shfs_aux_pwrite (fuel : nat) (inode : shfs_block_t) (buff : option shbuf_t) (seek_of : Z)
    : fsm (shfs_block_t * Z) :=
  match buff with
  | None => fret (inode, 0)
  | Some buff =>
      r <~ fcatch (pwrite_first inode);
      match r with
      | inr e => fret (inode, e)
      | inl (inode, st) =>
          r <~ fcatch (pwrite_loop fuel buff seek_of st);
          match r with
          | inr e => fret (inode, e)
          | inl seg_crc =>
              let inode := set_size (data_of buff) (set_crc seg_crc inode) in
              r <~ fcatch (shfs_inode_write_entity E inode);
              match r with
              | inr e => fret (inode, e)
              | inl inode => fret (inode, 0)
              end
          end
      end
  end.

Definition shfs_aux_write (fuel : nat) (inode : shfs_block_t) (buff : option shbuf_t) : fsm (shfs_block_t * Z) :=
  shfs_aux_pwrite fuel inode buff 0.

(** ** Reading *)

Context (B : env).

(** [shbuf_cat(ret_buff, blk.raw + of, len)]. *)
Definition cat_raw (buff : shbuf_t) (blk : shfs_block_t) (r_of len : Z) : outcome shbuf_t :=
  src <-! mem_read (raw blk) (Z.to_nat r_of) (Z.to_nat len);
  shbuf_cat B buff src.

(** The bytes of one block that are read. *)
Definition pread_block (buff : shbuf_t) (blk : shfs_block_t) (b_of b_len seek_of seek_max : Z) : outcome shbuf_t :=
  if (seek_of =? 0) || (seek_of <=? b_of) then
    let len := if has_flag (flags buff) SHBUF_FMAP && (u64 (data_max buff - data_of buff) <? b_len)
               then Z.min b_len (u64 (data_max buff - data_of buff)) else b_len in
    cat_raw buff blk 0 len
  else if negb (seek_of =? 0) && (seek_of <=? u64 (b_of + b_len)) then
    let r_len := Z.min b_len (u64 (b_of + b_len - seek_of)) in
    let r_of := b_len - r_len in
    let r_len := if negb (seek_max =? 0) && (u64 (seek_max - shbuf_size (Some buff)) <? r_len)
                 then u64 (seek_max - shbuf_size (Some buff)) else r_len in
    cat_raw buff blk r_of r_len
  else Done buff.

(** [while (idx.ino)]: the buffer and the error code. *)
Fixpoint pread_loop (fuel : nat) (data_len seek_of seek_max : Z) (idx : shfs_idx_t) (b_of : Z) (buff : shbuf_t)
    : fsm (shbuf_t * Z) :=
  if ino idx =? 0 then fret (buff, 0)
  else match fuel with
       | O => fault
       | S fuel' =>
           r <~ fcatch (shfs_inode_read_block E idx);
           match r with
           | inr e => fret (buff, e)
           | inl blk =>
               let b_len := Z.min SHFS_BLOCK_DATA_SIZE (u64 (data_len - b_of)) in
               buff <~ fpure (pread_block buff blk b_of b_len seek_of seek_max);
               let b_of := u64 (b_of + b_len) in
               if negb (seek_max =? 0) && (u64 (seek_max + seek_of) <? b_of) then fret (buff, 0)
               else pread_loop fuel' data_len seek_of seek_max (npos (hdr blk)) b_of buff
           end
       end.

Definition shfs_aux_pread (fuel : nat) (inode : shfs_block_t) (ret_buff : shbuf_t) (seek_of seek_max : Z)
    : fsm (shbuf_t * Z) :=
  let data_len := hsize (hdr inode) in
  if negb (seek_of =? 0) && (data_len <=? u64 seek_of) then fret (ret_buff, 0)
  else pread_loop fuel data_len seek_of seek_max (fpos (hdr inode)) 0 ret_buff.

Definition shfs_aux_read (fuel : nat) (inode : shfs_block_t) (ret_buff : shbuf_t) : fsm (shbuf_t * Z) :=
  shfs_aux_pread fuel inode ret_buff 0 0.

(** ** Clearing and truncating *)

(** The loop of [shfs_inode_clear]: [idx] is first the inode's [fpos] and then
    points into [blk], which starts as a copy of the inode. *)
Fixpoint clear_loop (fuel : nat) (idx : shfs_idx_t) (blk : shfs_block_t) : fsm unit :=
  if ino idx =? 0 then fret tt
  else match fuel with
       | O => fault
       | S fuel' =>
           _ <~ shfs_inode_clear_block E idx;
           nblk <~ (if ino (npos (hdr blk)) =? 0 then fret blank_block
                    else shfs_inode_read_block E (npos (hdr blk)));
           clear_loop fuel' (npos (hdr nblk)) nblk
       end.

Definition cleared_inode (inode : shfs_block_t) : shfs_block_t :=
  set_crc 0 (set_fpos idx_none (set_format 0 (set_size 0 (set_mtime 0 (set_ctime 0 inode))))).

Definition shfs_inode_clear (fuel : nat) (inode : shfs_block_t) : fsm (shfs_block_t * Z) :=
  r <~ fcatch (clear_loop fuel (fpos (hdr inode)) inode);
  match r with
  | inr e => fret (inode, e)
  | inl _ =>
      let inode := cleared_inode inode in
      r <~ fcatch (shfs_inode_write_entity E inode);
      match r with inr e => fret (inode, e) | inl inode => fret (inode, 0) end
  end.

(** One block of [shfs_inode_truncate]: the block as the loop leaves it. *)
Definition truncate_block (ino_len b_of : Z) (idx : shfs_idx_t) (blk : shfs_block_t) : fsm shfs_block_t :=
  if ino_len <=? b_of then
    _ <~ shfs_inode_clear_block E idx; fret blk
  else if ino_len <=? u64 (b_of + hsize (hdr blk)) then
    let b_len := Z.min SHFS_BLOCK_DATA_SIZE (u64 (ino_len - b_of)) in
    let blk := set_size b_len blk in
    r <~ fpure (if b_len =? SHFS_BLOCK_DATA_SIZE then Done (raw blk)
                else mem_write (raw blk) (Z.to_nat b_len) (replicate (Z.to_nat (SHFS_BLOCK_DATA_SIZE - b_len)) 0));
    let blk := set_raw r blk in
    shfs_inode_write_block E (set_crc (shfs_crc_init blk) blk)
  else fret blk.

Fixpoint truncate_loop (fuel : nat) (ino_len b_of seg_crc : Z) (idx : shfs_idx_t) : fsm Z :=
  if ino idx =? 0 then fret seg_crc
  else match fuel with
       | O => fault
       | S fuel' =>
           blk <~ shfs_inode_read_block E idx;
           let blk_len := hsize (hdr blk) in
           blk <~ truncate_block ino_len b_of idx blk;
           truncate_loop fuel' ino_len (u64 (b_of + blk_len)) (u64 (seg_crc + hcrc (hdr blk))) (npos (hdr blk))
       end.

Definition shfs_inode_truncate (fuel : nat) (inode : shfs_block_t) (ino_len : Z) : fsm (shfs_block_t * Z) :=
  if negb (htype (hdr inode) =? SHINODE_BINARY) then fret (inode, SHERR_INVAL)
  else if hsize (hdr inode) =? ino_len then fret (inode, 0)
  else
    r <~ fcatch (if ino_len <? hsize (hdr inode)
                 then c <~ truncate_loop fuel ino_len 0 0 (fpos (hdr inode)); fret (set_crc c inode)
                 else fret inode);
    match r with
    | inr e => fret (inode, e)
    | inl inode =>
        t <~ shtime E;
        let inode := set_size ino_len (set_mtime t inode) in
        r <~ fcatch (shfs_inode_write_entity E inode);
        match r with inr e => fret (inode, e) | inl inode => fret (inode, 0) end
    end.

End operations.

(** ** Block lists *)

Abbreviation DSIZE := (Z.to_nat SHFS_BLOCK_DATA_SIZE).

(** The data blocks from position [p] on. *)
Fixpoint chain (f : fs) (p : shfs_idx_t) (bs : list shfs_block_t) : Prop :=
  match bs with
  | [] => ino p = 0
  | b :: bs' => ino p <> 0 /\ get f p = Some b /\ pos (hdr b) = p /\ htype (hdr b) = SHINODE_AUX /\
                chain f (npos (hdr b)) bs'
  end.

(** The blocks a reader follows, whatever their headers say. *)
Fixpoint list_at (f : fs) (p : shfs_idx_t) (bs : list shfs_block_t) : Prop :=
  match bs with
  | [] => ino p = 0
  | b :: bs' => ino p <> 0 /\ get f p = Some b /\ list_at f (npos (hdr b)) bs'
  end.

Lemma chain_list f p bs : chain f p bs -> list_at f p bs.
Proof. revert p. induction bs as [|b bs IH]; intros p; [done |]. intros (? & ? & _ & _ & ?). cbn. auto. Qed.

Definition positions (bs : list shfs_block_t) : list shfs_idx_t := map (fun b => pos (hdr b)) bs.

(** Blocks in use other than those of the list are untouched. *)
Definition keeps (f f' : fs) (ps : list shfs_idx_t) : Prop :=
  forall p b, get f p = Some b -> occupied b = true -> p ∉ ps -> get f' p = Some b.

Lemma chain_fun f p bs bs' : chain f p bs -> chain f p bs' -> bs = bs'.
Proof.
  revert p bs'. induction bs as [|b bs IH]; intros p [|b' bs']; cbn; [done | tauto | tauto |].
  intros (_ & Hg & _ & _ & Hc) (_ & Hg' & _ & _ & Hc'). replace b' with b in * by congruence.
  by rewrite (IH _ _ Hc Hc').
Qed.

Lemma chain_suffix f p bs b : chain f p bs -> b ∈ bs ->
  exists bs', chain f (pos (hdr b)) (b :: bs') /\ (length (b :: bs') <= length bs)%nat.
Proof.
  revert p. induction bs as [|c bs IH]; intros p Hc; [by intros ?%elem_of_nil |].
  destruct Hc as (Hi & Hg & Hp & Ht & Hc). intros [->|Hin]%elem_of_cons.
  - exists bs. cbn. rewrite Hp. split_and!; (done || lia).
  - destruct (IH _ Hc Hin) as (bs' & H1 & H2). exists bs'. cbn in *. split; [done | lia].
Qed.

Lemma elem_of_positions bs p : p ∈ positions bs <-> exists b, b ∈ bs /\ pos (hdr b) = p.
Proof. unfold positions. rewrite list_elem_of_fmap. split; intros (b & H1 & H2); eauto. Qed.

(** A list that ends has no position twice. *)
Lemma chain_head f p b bs : chain f p (b :: bs) -> p ∉ positions bs.
Proof.
  intros Hc (b' & Hin & Hp)%elem_of_positions. pose proof Hc as (_ & _ & _ & _ & Hc').
  destruct (chain_suffix f _ bs b' Hc' Hin) as (bs' & H1 & H2). rewrite Hp in H1.
  pose proof (chain_fun f p _ _ Hc H1) as [= -> ->]. cbn in H2. lia.
Qed.

Lemma chain_frame f f' p bs :
  chain f p bs -> (forall q b, q ∈ positions bs -> get f q = Some b -> get f' q = Some b) -> chain f' p bs.
Proof.
  revert p. induction bs as [|b bs IH]; intros p; [done |]. intros (Hi & Hg & Hp & Ht & Hc) Hf.
  split; [done |]. split; [|split; [done |]; split; [done |]].
  - apply Hf; [|done]. rewrite <- Hp. apply list_elem_of_here.
  - apply IH; [done |]. intros q c Hq. apply Hf. by right.
Qed.

Lemma chain_occupied f p bs b : chain f p bs -> b ∈ bs -> get f (pos (hdr b)) = Some b /\ htype (hdr b) = SHINODE_AUX.
Proof. intros Hc Hin. destruct (chain_suffix f p bs b Hc Hin) as (? & (_ & ? & _ & ? & _) & _). done. Qed.

Lemma chain_grown f f' p bs : chain f p bs -> grown f f' -> chain f' p bs.
Proof. intros Hc (Hk & _). apply (chain_frame f); auto. Qed.

Lemma aux_occupied b : htype (hdr b) = SHINODE_AUX -> occupied b = true.
Proof. intros H. unfold occupied. by rewrite H. Qed.

Lemma chain_put f p bs q b : 0 <= ino q -> chain f p bs -> q ∉ positions bs -> chain (put f q b) p bs.
Proof.
  intros Hq Hc Hn. apply (chain_frame f); [done |]. intros r c Hr Hg.
  rewrite put_other; [done | done |]. by intros ->.
Qed.

(** ** Content *)

(** The first [n] bytes of [a], then those of [b]. *)
Definition overlay (n : nat) (a b : bytes) : bytes := take n a ++ drop n b.

Lemma overlay_app n a1 a2 b1 b2 :
  length a1 = length b1 -> overlay n (a1 ++ a2) (b1 ++ b2) = overlay n a1 b1 ++ overlay (n - length a1) a2 b2.
Proof.
  intros Hl. unfold overlay. rewrite take_app, drop_app, <- Hl.
  destruct (Nat.le_gt_cases n (length a1)).
  - replace (n - length a1)%nat with 0%nat by lia. by rewrite !take_0, !drop_0, !app_nil_r, app_assoc.
  - rewrite (drop_ge b1) by lia. by rewrite !app_nil_l, app_nil_r, app_assoc.
Qed.

Lemma length_overlay n a b : length a = length b -> length (overlay n a b) = length b.
Proof. intros. unfold overlay. llia. Qed.

(** The first [n] bytes the blocks hold, zeros following. *)
Definition stored_bytes (n : nat) (bs : list shfs_block_t) : bytes :=
  take n (concat (map raw bs) ++ replicate n 0).

Lemma length_stored n bs : length (stored_bytes n bs) = n.
Proof. unfold stored_bytes. llia. Qed.

Lemma take_zeros n m : (n <= m)%nat -> take n (replicate m 0) = replicate n 0.
Proof. intros. rewrite take_replicate. f_equal. lia. Qed.

Lemma stored_cons n b bs :
  length (raw b) = DSIZE ->
  stored_bytes n (b :: bs) = take (Nat.min DSIZE n) (raw b) ++ stored_bytes (n - DSIZE) bs.
Proof.
  intros Hb. unfold stored_bytes. cbn [map concat]. rewrite <- app_assoc, take_app, Hb. f_equal.
  - destruct (Nat.le_gt_cases n DSIZE).
    + by rewrite Nat.min_r by lia.
    + rewrite Nat.min_l by lia. by rewrite !take_ge by lia.
  - rewrite !take_app. f_equal. rewrite !take_zeros by lia. done.
Qed.

(** The blocks' sizes: each is full until [len] is used up. *)
Fixpoint sized (len : Z) (bs : list shfs_block_t) : Prop :=
  match bs with
  | [] => True
  | b :: bs' => hsize (hdr b) = Z.min SHFS_BLOCK_DATA_SIZE len /\ sized (len - Z.min SHFS_BLOCK_DATA_SIZE len) bs'
  end.

(** The sum of the blocks' checksums. *)
Definition crc_sum (bs : list shfs_block_t) : Z := foldr (fun b s => hcrc (hdr b) + s) 0 bs.

(** ** One block of a write *)

(** The number of bytes of the buffer that fall in the block at [b_of]. *)
Definition block_len (buff : shbuf_t) (b_of : Z) : Z := Z.min SHFS_BLOCK_DATA_SIZE (data_of buff - b_of).

(** A buffer that can be written: well formed, and a size that fits. *)
Definition writable (buff : shbuf_t) : Prop := ShBuf.wf buff /\ data_of buff < 2 ^ 63.

Lemma set_raw_id b : set_raw (raw b) b = b.
Proof. by destruct b. Qed.

Lemma take_mem_write (r src : bytes) w n :
  (w + length src = n)%nat -> (n <= length r)%nat ->
  exists r', mem_write r w src = Done r' /\ length r' = length r /\ take n r' = take w r ++ src.
Proof.
  intros Hn Hr. rewrite mem_write_ok by lia. eexists. split; [reflexivity |]. split; [llia |].
  rewrite app_assoc, take_app_le by llia. apply take_ge. llia.
Qed.

Lemma contents_chunk buff d o n :
  ShBuf.wf buff -> data buff = Some d -> 0 <= o -> 0 <= n -> o + n <= data_of buff ->
  mem_read d (Z.to_nat o) (Z.to_nat n) = Done (take (Z.to_nat n) (drop (Z.to_nat o) (contents buff))).
Proof.
  intros [Hof Hd] He Ho Hn Hle. rewrite He in Hd. rewrite mem_read_ok by lia. unfold contents. rewrite He.
  rewrite skipn_firstn_comm, take_take. do 2 f_equal. lia.
Qed.

Lemma chunk_length buff b_of n :
  ShBuf.wf buff -> 0 <= b_of -> 0 <= n -> b_of + n <= data_of buff ->
  length (take (Z.to_nat n) (drop (Z.to_nat b_of) (contents buff))) = Z.to_nat n.
Proof. intros Hw H1 H2 H3. pose proof (contents_length buff Hw). llia. Qed.

Lemma pwrite_block_ok blk buff b_of seek :
  writable buff -> length (raw blk) = DSIZE -> 0 <= b_of <= data_of buff -> 0 <= seek ->
  let n := block_len buff b_of in
  let chunk := take (Z.to_nat n) (drop (Z.to_nat b_of) (contents buff)) in
  exists r, shfs_aux_pwrite_block blk buff b_of n b_of seek = Done (set_raw r blk, b_of + n) /\
    length r = DSIZE /\
    take (Z.to_nat n) r = overlay (Z.to_nat (seek - b_of)) (take (Z.to_nat n) (raw blk)) chunk.
Proof.
  intros [Hw Hl] Hraw Hb Hs n chunk.
  assert (0 <= n <= SHFS_BLOCK_DATA_SIZE /\ b_of + n <= data_of buff) as [Hn Hbn] by (unfold n, block_len, SHFS_BLOCK_DATA_SIZE; lia).
  pose proof (chunk_length buff b_of n Hw (proj1 Hb) (proj1 Hn) Hbn) as Hchunk. fold chunk in Hchunk.
  assert (forall m, (Z.to_nat n <= m)%nat -> take (Z.to_nat n) (raw blk) = overlay m (take (Z.to_nat n) (raw blk)) chunk) as Hkeep.
  { intros m Hm. unfold overlay. rewrite drop_ge, app_nil_r by lia. by rewrite (take_ge (take _ _)) by llia. }
  unfold shfs_aux_pwrite_block. cbn [shbuf_data]. destruct (data buff) as [d|] eqn:Hd.
  2:{ exists (raw blk). rewrite set_raw_id. destruct Hw as [Hof Hmax]. rewrite Hd in Hmax.
      assert (n = 0) as Hn0 by lia. split; [by rewrite Hn0, Z.add_0_r |]. split; [done |]. apply Hkeep. lia. }
  rewrite wrap_small by (change (2 ^ 63) with 9223372036854775808 in Hl; rlia). case_cmp as [Hlt|Hge].
  { exists (raw blk). rewrite set_raw_id. split; [done |]. split; [done |]. apply Hkeep. lia. }
  set (w := Z.max 0 (seek - b_of)).
  assert ((if b_of <? seek then (seek - b_of, n - (seek - b_of)) else (0, n)) = (w, n - w)) as ->
    by (unfold w; case_cmp; f_equal; lia).
  assert (0 <= w <= n /\ Z.to_nat (seek - b_of) = Z.to_nat w) as [Hw1 Hw2] by (unfold w; lia).
  case_cmp as [Hz|Hnz].
  { exists (raw blk). rewrite set_raw_id. split; [done |]. split; [done |]. apply Hkeep. lia. }
  rewrite (contents_chunk buff d (b_of + w) (n - w)) by (done || lia). cbn [obind].
  pose proof (chunk_length buff (b_of + w) (n - w) Hw ltac:(lia) ltac:(lia) ltac:(lia)) as Hsrc.
  set (src := take _ (drop _ (contents buff))) in Hsrc |- *.
  destruct (take_mem_write (raw blk) src (Z.to_nat w) (Z.to_nat n)) as (r & -> & Hlr & Hr); [lia | lia |].
  unfold src in Hr.
  cbn [obind]. exists r. split; [done |]. split; [lia |]. rewrite Hr. unfold overlay.
  rewrite Hw2. f_equal.
  - rewrite take_take. f_equal. lia.
  - unfold chunk. rewrite skipn_firstn_comm, drop_drop. f_equal; [lia | f_equal; lia].
Qed.

(** ** Writing the list *)

Section writing.
Context (E : fsenv) (HE : env_ok E) (buff : shbuf_t) (Hbuff : writable buff) (seek : Z) (Hseek : 0 <= seek).

Abbreviation L := (data_of buff).

(** Must the iteration create a block, and is the slot of the block at hand,
    which is not stored yet, the one a scan for the next block finds? *)
Definition creates (st : wstate) : bool :=
  (ino (npos (hdr (w_blk st))) =? 0) && (w_of st + block_len buff (w_of st) <? L).

Definition stored (f : fs) (p : shfs_idx_t) : bool :=
  match get f p with Some b => occupied b | None => false end.

Definition clash (f : fs) (b : shfs_block_t) : bool :=
  negb (stored f (pos (hdr b))) && (shfs_journal_index (hname (hdr b)) =? jno (pos (hdr b))).

(** No iteration of the loop has a clash. *)
Fixpoint no_clash (fuel : nat) (st : wstate) (f : fs) : bool :=
  match fuel with
  | O => true
  | S fuel' =>
      if ino (pos (hdr (w_blk st))) =? 0 then true
      else negb (creates st && clash f (w_blk st)) &&
           match pwrite_step E buff seek st f with
           | Done (f', Ok st') => no_clash fuel' st' f'
           | _ => true
           end
  end.

(** The blocks from the one at hand on; it is stored, or new and last. *)
Definition new_block (f : fs) (st : wstate) (b0 : shfs_block_t) (bs : list shfs_block_t) : Prop :=
  occupied b0 = false /\ bs = [] /\ raw (w_blk st) = raw blank_block /\
  (htype (hdr (w_oblk st)) <> SHINODE_AUX \/ (hsize (hdr (w_oblk st)) = 0 /\ w_of st < L)).

Definition current (f : fs) (st : wstate) (bs : list shfs_block_t) : Prop :=
  match bs with
  | [] => ino (pos (hdr (w_blk st))) = 0 /\ w_of st = L
  | b :: bs' =>
      w_blk st = b /\ ino (pos (hdr b)) <> 0 /\ htype (hdr b) = SHINODE_AUX /\ length (raw b) = DSIZE /\
      chain f (npos (hdr b)) bs' /\ (pos (hdr b) ∉ positions bs') /\
      exists b0, get f (pos (hdr b)) = Some b0 /\
        ((b0 = b /\ w_oblk st = b) \/ new_block f st b0 bs')
  end.

(** A position that leads to the block at hand. *)
Definition leads (p : shfs_idx_t) (b : shfs_block_t) (bs : list shfs_block_t) : Prop :=
  match bs with [] => ino p = 0 | _ :: _ => p = pos (hdr b) end.

Lemma chain_wf f p b bs : fs_wf f -> chain f p (b :: bs) -> length (raw b) = DSIZE.
Proof. intros Hf (_ & Hg & _). by eapply get_raw. Qed.

Lemma current_chain f st b bs p :
  fs_wf f -> chain f p (b :: bs) -> w_blk st = b -> w_oblk st = b -> current f st (b :: bs).
Proof.
  intros Hf Hc Hb Ho. pose proof (chain_wf f p b bs Hf Hc). pose proof (chain_head f p b bs Hc).
  destruct Hc as (Hi & Hg & Hp & Ht & Hc). cbn. rewrite Hp. split_and!; try done.
  exists b. split; [done |]. by left.
Qed.

(** A block created next to another. *)
Definition created (f : fs) (p : shfs_idx_t) (n : shfs_block_t) : Prop :=
  pos (hdr n) = p /\ htype (hdr n) = SHINODE_AUX /\ npos (hdr n) = idx_none /\ raw n = raw blank_block /\
  hsize (hdr n) = 0 /\ 1 <= ino p /\ exists b0, get f p = Some b0 /\ occupied b0 = false.

Lemma scan_create f key :
  fs_wf f -> Z.of_nat (used f (shfs_journal_index key)) < 32767 ->
  exists f' i, shfs_journal_scan E (Some key) f = Done (f', Ok (Some (mk_idx (shfs_journal_index key) i))) /\
    scanned (shfs_journal_index key) f f' i.
Proof. intros Hf Hu. apply scan_ok; [done | done | apply journal_index_range | done]. Qed.

Lemma create_ok f b :
  fs_wf f -> Z.of_nat (used f (shfs_journal_index (hname (hdr b)))) < 32767 ->
  exists f' p n, shfs_aux_pwrite_create E b blank_block f = Done (f', Ok (set_npos p b, n)) /\
    created f' p n /\ jno p = shfs_journal_index (hname (hdr b)) /\
    grown f f' /\ fs_wf f' /\ forall j, used f' j = used f j.
Proof.
  intros Hf Hu. destruct (scan_create f _ Hf Hu) as (f1 & i & Hs & (Hslot & Hg & Hf1 & Hus)).
  destruct (free_slot_get f1 _ i Hf1 Hslot) as [Hi Hfree].
  eexists (tick f1), _, _. split; [|split_and!].
  - unfold shfs_aux_pwrite_create, fbind at 1. rewrite Hs. reflexivity.
  - split_and!; try reflexivity; [cbn; lia | exact Hfree].
  - reflexivity.
  - exact Hg.
  - exact Hf1.
  - exact Hus.
Qed.

(** What an iteration does before it writes: the block, its successor, and the
    blocks that follow. *)
Definition next_ok (f f1 : fs) (st : wstate) (bs : list shfs_block_t) (b1 n : shfs_block_t) (bs1 : list shfs_block_t) : Prop :=
  grown f f1 /\ fs_wf f1 /\ (forall j, used f1 j = used f j) /\
  (exists p, b1 = set_npos p (w_blk st)) /\ leads (npos (hdr b1)) n bs1 /\
  (pos (hdr (w_blk st)) ∉ positions bs1) /\
  (forall q, q ∈ positions bs1 -> q ∈ positions bs \/ get f q = None \/ stored f q = false) /\
  (bs1 = bs /\ bs <> [] /\ chain f1 (npos (hdr b1)) bs /\ hd_error bs = Some n /\ creates st = false /\ b1 = w_blk st \/
   bs = [] /\ bs1 = [] /\ n = blank_block /\ creates st = false /\ b1 = w_blk st \/
   bs = [] /\ bs1 = [n] /\ created f1 (pos (hdr n)) n /\ creates st = true).

Lemma set_npos_id b : set_npos (npos (hdr b)) b = b.
Proof. by destruct b as [[] ?]. Qed.

Lemma pwrite_next_ok f st b bs :
  fs_wf f -> current f st (b :: bs) -> 0 <= w_of st <= L ->
  Z.of_nat (used f (shfs_journal_index (hname (hdr b)))) < 32767 ->
  creates st && clash f b = false ->
  exists f1 b1 n bs1,
    pwrite_next E buff b (w_of st) (block_len buff (w_of st)) f = Done (f1, Ok (b1, n)) /\
    next_ok f f1 st bs b1 n bs1.
Proof.
  intros Hf (Hb & Hi & Ht & Hraw & Hc & Hnin & b0 & Hg & Hcase) Hof Hu Hnc. destruct Hbuff as [_ HL].
  change (2 ^ 63) with 9223372036854775808 in HL. unfold pwrite_next. unfold next_ok. rewrite Hb.
  destruct (Z.eqb_spec (ino (npos (hdr b))) 0) as [Hn|Hn].
  - assert (bs = []) as -> by (destruct bs; [done | by destruct Hc]).
    rewrite wrap_small by (unfold block_len, SHFS_BLOCK_DATA_SIZE; rlia).
    assert (creates st = (w_of st + block_len buff (w_of st) <? L)) as Hcr
      by (unfold creates; by rewrite Hb, Hn).
    destruct (Z.ltb_spec (w_of st + block_len buff (w_of st)) L) as [Hlt|Hge].
    + destruct (create_ok f b Hf Hu) as (f1 & p & n & He & Hn1 & Hj & Hg1 & Hf1 & Hus).
      assert (pos (hdr n) = p) as Hpn by apply Hn1. pose proof Hn1 as (_ & _ & _ & _ & _ & _ & bp & Hbp & Hbo).
      exists f1, (set_npos p b), n, [n]. split; [done |].
      assert (stored f p = false) as Hnst.
      { unfold stored. destruct (get f p) as [c|] eqn:Hc'; [|done]. apply Hg1 in Hc'. congruence. }
      assert (p <> pos (hdr b)) as Hne.
      { intros ->. rewrite Hcr in Hnc. unfold clash in Hnc. rewrite Hnst in Hnc. rewrite <- Hj in Hnc. cbn in Hnc. lia. }
      split_and!; try done; [by exists p | |  |].
      * unfold positions. cbn. intros Hin%list_elem_of_singleton. congruence.
      * intros q Hq. cbn in Hq. apply list_elem_of_singleton in Hq as ->. rewrite Hpn. auto.
      * right. right. rewrite Hpn. split_and!; (done || congruence).
    + exists f, b, blank_block, []. split; [done |].
      split_and!; try done; [apply grown_refl | exists (npos (hdr b)); by rewrite set_npos_id | by intros ? ?%elem_of_nil |].
      right. left. split_and!; (done || congruence).
  - destruct bs as [|n bs]; [done |].
    assert (get f (npos (hdr b)) = Some n) as Hgn by apply Hc.
    exists f, b, n, (n :: bs). unfold fbind. rewrite (read_block_ok E HE f _ n) by done. split; [done |].
    split_and!; try done.
    + apply grown_refl.
    + exists (npos (hdr b)). by rewrite set_npos_id.
    + cbn. symmetry. apply Hc.
    + auto.
    + left. split_and!; try done. unfold creates. rewrite Hb. by destruct (Z.eqb_spec (ino (npos (hdr b))) 0).
Qed.

(** Equal but for the time of the write. *)
Definition same_block (a b : shfs_block_t) : Prop := exists t, a = b \/ a = set_mtime t b.

Lemma same_block_fields a b : same_block a b ->
  pos (hdr a) = pos (hdr b) /\ npos (hdr a) = npos (hdr b) /\ htype (hdr a) = htype (hdr b) /\
  raw a = raw b /\ hsize (hdr a) = hsize (hdr b) /\ hcrc (hdr a) = hcrc (hdr b).
Proof. by intros (t & [-> | ->]). Qed.

Lemma store_changed f oblk s b0 :
  fs_wf f -> get f (pos (hdr s)) = Some b0 -> length (raw s) = DSIZE -> (oblk = s -> b0 = s) ->
  exists f' r b2, (if decide (oblk = s) then fret s else shfs_inode_write_block E s) f = Done (f', Ok r) /\
    get f' (pos (hdr s)) = Some b2 /\ same_block b2 s /\
    (forall q, q <> pos (hdr s) -> get f' q = get f q) /\ fs_wf f' /\
    (forall j, (used f' j <= S (used f j))%nat /\ (occupied b0 = true -> (used f' j <= used f j)%nat)).
Proof.
  intros Hf Hg Hr Ho. case_decide as Hd.
  { exists f, s, s. rewrite <- (Ho Hd) at 4. split_and!; try done; [by exists 0; left | split; lia]. }
  pose proof (write_block_ok E HE f s b0 Hf Hg) as He. cbn in He.
  pose proof (proj1 (get_inv _ _ _ Hg)) as Hpos. set (b2 := set_mtime (clock E (ticks f)) s) in *.
  exists (put (tick f) (pos (hdr s)) b2), b2, b2. split_and!.
  - exact He.
  - by apply (put_same (tick f) _ b2 b0).
  - eexists. by right.
  - intros q Hq. by rewrite put_other.
  - by apply (put_wf (tick f)).
  - intros j. split; [apply (used_put (tick f)) |]. intros Hoc. by apply (used_put_same (tick f) _ b2 b0 j).
Qed.

(** The block after an iteration, and what it leaves to the next. *)
Definition written (st : wstate) (b b2 : shfs_block_t) : Prop :=
  let n := block_len buff (w_of st) in
  pos (hdr b2) = pos (hdr b) /\ htype (hdr b2) = SHINODE_AUX /\ length (raw b2) = DSIZE /\
  hsize (hdr b2) = n /\
  take (Z.to_nat n) (raw b2) = overlay (Z.to_nat (seek - w_of st)) (take (Z.to_nat n) (raw b))
                                   (take (Z.to_nat n) (drop (Z.to_nat (w_of st)) (contents buff))).

(** The state of the loop: room for [K] new blocks, which are enough. *)
Definition inv (f : fs) (st : wstate) (bs : list shfs_block_t) (K : Z) : Prop :=
  fs_wf f /\ current f st bs /\ 0 <= w_of st <= L /\ w_wof st = w_of st /\ 0 <= K /\
  (forall j, Z.of_nat (used f j) + K <= 32766) /\ L - w_of st <= SHFS_BLOCK_DATA_SIZE * K /\
  (bs <> [] -> stored f (pos (hdr (w_blk st))) = false -> 1 <= K).

Lemma pwrite_step_eq f st b b1 n f1 b0 :
  w_blk st = b -> htype (hdr b) = SHINODE_AUX -> length (raw b) = DSIZE ->
  0 <= w_of st <= L -> w_wof st = w_of st -> fs_wf f1 ->
  pwrite_next E buff b (w_of st) (block_len buff (w_of st)) f = Done (f1, Ok (b1, n)) ->
  (exists p, b1 = set_npos p b) -> get f1 (pos (hdr b)) = Some b0 ->
  (b0 = w_oblk st \/ htype (hdr (w_oblk st)) <> SHINODE_AUX \/ hsize (hdr (w_oblk st)) = 0 /\ w_of st < L) ->
  exists f2 st1 b2, pwrite_step E buff seek st f = Done (f2, Ok st1) /\
    w_blk st1 = n /\ w_oblk st1 = n /\ w_of st1 = w_of st + block_len buff (w_of st) /\
    w_wof st1 = w_of st1 /\ w_crc st1 = u64 (w_crc st + hcrc (hdr b2)) /\
    written st b b2 /\ npos (hdr b2) = npos (hdr b1) /\
    get f2 (pos (hdr b)) = Some b2 /\ (forall q, q <> pos (hdr b) -> get f2 q = get f1 q) /\ fs_wf f2 /\
    (forall j, (used f2 j <= S (used f1 j))%nat /\ (occupied b0 = true -> (used f2 j <= used f1 j)%nat)).
Proof.
  intros Hb Ht Hraw Hof Hwof Hf1 Hnext [p Hb1] Hg Hcase.
  pose proof Hbuff as [Hwf HL]. change (2 ^ 63) with 9223372036854775808 in HL.
  destruct (pwrite_block_ok b1 buff (w_of st) seek) as (r & He & Hlr & Hr); [done | by subst b1 | done | done |].
  assert (0 <= block_len buff (w_of st) <= L - w_of st) as Hlen by (unfold block_len, SHFS_BLOCK_DATA_SIZE; lia).
  set (s := pwrite_seal (set_raw r b1) (block_len buff (w_of st))).
  assert (pos (hdr s) = pos (hdr b)) as Hps by (by subst b1).
  rewrite <- Hps in Hg.
  destruct (store_changed f1 (w_oblk st) s b0 Hf1 Hg Hlr) as (f2 & r2 & b2 & Hst & Hg2 & Hsame & Hoth & Hf2 & Hus).
  { intros Hos. destruct Hcase as [->|Hd]; [done |]. exfalso. destruct Hd as [Hd|[Hd Hlt]]; rewrite Hos in Hd.
    - apply Hd. by subst b1.
    - cbn in Hd. unfold block_len, SHFS_BLOCK_DATA_SIZE in Hd. lia. }
  destruct (same_block_fields _ _ Hsame) as (H1 & H2 & H3 & H4 & H5 & H6).
  exists f2, (mk_ws n n (w_of st + block_len buff (w_of st)) (w_of st + block_len buff (w_of st))
                (u64 (w_crc st + hcrc (hdr s)))), b2.
  rewrite Hps in *. split; [|split_and!; try done; [by rewrite <- H6 | ]].
  - unfold pwrite_step. rewrite Hb, Hwof.
    rewrite (wrap_small 64 (L - w_of st)) by rlia. fold (block_len buff (w_of st)).
    unfold fbind at 1. rewrite Hnext. unfold fbind at 1, fpure. cbn [fst snd]. rewrite He. cbn [fst snd].
    fold s. unfold fbind at 1. rewrite Hst. unfold fret. by rewrite (wrap_small 64 (w_of st + _)) by rlia.
  - split_and!.
    + congruence.
    + rewrite H3. by subst b1.
    + by rewrite H4.
    + by rewrite H5.
    + rewrite H4. change (raw s) with r. rewrite Hr. by subst b1.
Qed.

Lemma stored_new x n : raw n = raw blank_block -> stored_bytes x [n] = stored_bytes x [].
Proof.
  intros Hn. unfold stored_bytes. cbn [map concat]. rewrite Hn, app_nil_r. unfold blank_block. cbn [raw].
  rewrite <- replicate_add, app_nil_l, !take_zeros by lia. done.
Qed.

Lemma current_stored f st b bs b0 :
  current f st (b :: bs) -> get f (pos (hdr b)) = Some b0 ->
  (b0 = b /\ w_oblk st = b /\ occupied b0 = true) \/ (new_block f st b0 bs /\ stored f (pos (hdr b)) = false).
Proof.
  intros (Hb & _ & Ht & _ & _ & _ & b0' & Hg & Hcase) Hg'. replace b0' with b0 in * by congruence.
  destruct Hcase as [[-> Hw]|Hnew].
  - left. split_and!; [done | done | by apply aux_occupied].
  - right. split; [done |]. unfold stored. rewrite Hg'. apply Hnew.
Qed.

(** Preservation of [current] by the rest of an iteration. *)
Lemma current_next f f1 f2 st st1 b bs b1 n bs1 :
  current f st (b :: bs) -> next_ok f f1 st bs b1 n bs1 -> fs_wf f2 -> 0 <= w_of st <= L ->
  w_blk st1 = n -> w_oblk st1 = n -> w_of st1 = w_of st + block_len buff (w_of st) ->
  (forall q, q <> pos (hdr b) -> get f2 q = get f1 q) -> current f2 st1 bs1.
Proof.
  intros (Hb & Hi & Ht & Hraw & Hc & Hnin & _) (Hg & Hf1 & _ & _ & _ & Hn1 & _ & Hcase) Hf2 Hof Hblk Hoblk Hwof Hoth.
  rewrite Hb in Hn1. unfold creates in Hcase. rewrite Hb in Hcase.
  destruct Hcase as [(-> & Hne & Hch & Hhd & _)|[(-> & -> & -> & Hcr & _)|(-> & -> & Hn & Hcr)]].
  - destruct bs as [|n' bs]; [done |]. injection Hhd as ->.
    apply (current_chain f2 st1 n bs (npos (hdr b1))); [done | | done | done].
    apply (chain_frame f1); [done |]. intros q c Hq Hgq. rewrite Hoth; [done | by intros ->].
  - split; [by rewrite Hblk |]. cbn in Hc. rewrite Hc in Hcr. cbn in Hcr.
    rewrite Hwof. unfold block_len, SHFS_BLOCK_DATA_SIZE in *. lia.
  - destruct Hn as (_ & Hnt & Hnn & Hnr & Hns & Hnp & c & Hgc & Hoc).
    cbn [current]. rewrite Hnn. split_and!; try done; [lia | by rewrite Hnr; apply blank_raw | by intros ?%elem_of_nil |].
    exists c. rewrite Hoth; [|intros He; apply Hn1; cbn; rewrite He; apply list_elem_of_here].
    split; [done |]. right. split_and!; [done | done | by rewrite Hblk |].
    right. rewrite Hoblk. split; [done |]. lia.
Qed.

(** A new block that follows another has data pending. *)
Lemma current_pending f st bs K :
  current f st bs -> w_oblk st = w_blk st -> L - w_of st <= SHFS_BLOCK_DATA_SIZE * K ->
  bs <> [] -> stored f (pos (hdr (w_blk st))) = false -> 1 <= K.
Proof.
  intros Hcur Ho HK Hne Hst. destruct bs as [|b bs]; [done |].
  destruct Hcur as (Hb & _ & Ht & _ & _ & _ & b0 & Hg & [[-> _]|(_ & _ & _ & Hd)]).
  - unfold stored in Hst. by rewrite Hb, Hg, (aux_occupied b Ht) in Hst.
  - rewrite Ho, Hb in Hd. unfold SHFS_BLOCK_DATA_SIZE in HK. destruct Hd as [Hd|[_ Hd]]; [done | lia].
Qed.

(** The room left after an iteration. *)
Lemma room_next f f1 f2 st b bs b0 b1 n bs1 K :
  next_ok f f1 st bs b1 n bs1 -> 0 <= w_of st <= L -> 0 <= K -> w_blk st = b ->
  (occupied b0 = true \/ bs = [] /\ 1 <= K) ->
  (forall j, (used f2 j <= S (used f1 j))%nat /\ (occupied b0 = true -> (used f2 j <= used f1 j)%nat)) ->
  (forall j, Z.of_nat (used f j) + K <= 32766) -> L - w_of st <= SHFS_BLOCK_DATA_SIZE * K ->
  exists K1, 0 <= K1 /\ (forall j, Z.of_nat (used f2 j) + K1 <= 32766) /\
    L - (w_of st + block_len buff (w_of st)) <= SHFS_BLOCK_DATA_SIZE * K1 /\
    Z.of_nat (length bs1) + K1 < Z.of_nat (length (b :: bs)) + K.
Proof.
  intros (_ & _ & Hus & _ & _ & _ & _ & Hcase) Hof HK Hb Hocc Hused Hroom Hneed.
  unfold creates in Hcase. rewrite Hb in Hcase. unfold block_len, SHFS_BLOCK_DATA_SIZE in *.
  destruct Hcase as [(-> & Hne & _)|[(-> & -> & _ & _)|(-> & -> & _ & Hcr)]]; cbn [length].
  - exists K. split_and!; [done | | lia | lia].
    intros j. specialize (Hroom j). destruct (Hused j) as [_ Hj]. rewrite Hus in Hj.
    destruct Hocc as [Ho|[-> _]]; [|done]. specialize (Hj Ho). lia.
  - destruct Hocc as [Ho|[_ H1]].
    + exists K. split_and!; [done | | lia | lia].
      intros j. specialize (Hroom j). destruct (Hused j) as [_ Hj]. rewrite Hus in Hj. specialize (Hj Ho). lia.
    + exists (K - 1). split_and!; [lia | | lia | lia].
      intros j. specialize (Hroom j). destruct (Hused j) as [Hj _]. rewrite Hus in Hj. lia.
  - exists (K - 1). split_and!; [lia | | lia | lia].
    intros j. specialize (Hroom j). destruct (Hused j) as [Hj _]. rewrite Hus in Hj. lia.
Qed.

(** One iteration. *)
Lemma pwrite_step_inv f st b bs K :
  inv f st (b :: bs) K -> creates st && clash f b = false ->
  exists f2 st1 b2 bs1 K1, pwrite_step E buff seek st f = Done (f2, Ok st1) /\ inv f2 st1 bs1 K1 /\
    Z.of_nat (length bs1) + K1 < Z.of_nat (length (b :: bs)) + K /\
    written st b b2 /\ get f2 (pos (hdr b)) = Some b2 /\ leads (npos (hdr b2)) (w_blk st1) bs1 /\
    w_of st1 = w_of st + block_len buff (w_of st) /\ w_crc st1 = u64 (w_crc st + hcrc (hdr b2)) /\
    keeps f f2 [pos (hdr b)] /\ (pos (hdr b) ∉ positions bs1) /\
    (forall q, q ∈ positions bs1 -> q ∈ positions bs \/ stored f q = false) /\
    (bs1 = bs \/ bs = [] /\ length bs1 = 1%nat) /\
    forall x, stored_bytes x bs1 = stored_bytes x bs.
Proof.
  intros (Hf & Hcur & Hof & Hwof & HK & Hroom & Hneed & Hnew) Hnc.
  assert (w_blk st = b) as Hb by apply Hcur.
  assert (exists b0, get f (pos (hdr b)) = Some b0) as [b0 Hg0] by (destruct Hcur as (_ & _ & _ & _ & _ & _ & b0 & ? & _); eauto).
  assert (Z.of_nat (used f (shfs_journal_index (hname (hdr b)))) < 32767) as Hu by (specialize (Hroom (shfs_journal_index (hname (hdr b)))); lia).
  destruct (pwrite_next_ok f st b bs Hf Hcur Hof Hu Hnc) as (f1 & b1 & n & bs1 & Hnext & Hok).
  pose proof Hok as (Hg & Hf1 & Hus & Hset & Hlead & Hnin & Hsub & Hcase). rewrite Hb in Hset, Hnin.
  pose proof (current_stored f st b bs b0 Hcur Hg0) as Hst.
  assert (htype (hdr b) = SHINODE_AUX /\ length (raw b) = DSIZE) as [Htb Hrb] by (by destruct Hcur as (_ & _ & ? & ? & _)).
  destruct (pwrite_step_eq f st b b1 n f1 b0) as (f2 & st1 & b2 & He & H1 & H2 & H3 & H4 & H5 & Hwr & Hnp & Hg2 & Hoth & Hf2 & Hused);
    [done | done | done | done | done | done | done | done | by apply Hg | |].
  { destruct Hst as [(-> & -> & _)|[(_ & _ & _ & Hd) _]]; tauto. }
  pose proof (current_next f f1 f2 st st1 b bs b1 n bs1 Hcur Hok Hf2 Hof H1 H2 H3 Hoth) as Hcur1.
  exists f2, st1, b2, bs1.
  destruct (room_next f f1 f2 st b bs b0 b1 n bs1 K) as (K1 & G1 & G2 & G3 & G4); try done.
  { destruct Hst as [(_ & _ & Ho)|[(_ & -> & _) Hs]]; [by left |]. right. split; [done |].
    apply Hnew; [done | by rewrite Hb]. }
  rewrite <- H3 in G3.
  exists K1. split; [done |]. split.
  { split; [done |]. split; [done |]. split; [rewrite H3; unfold block_len, SHFS_BLOCK_DATA_SIZE; lia |].
    split_and!; try done. apply (current_pending f2); [done | by rewrite H1 | done]. }
  split_and!; try done.
  - by rewrite Hnp, H1.
  - intros q c Hq Hoc Hnq. rewrite Hoth; [by apply Hg | intros ->; apply Hnq, list_elem_of_here].
  - intros q Hq. destruct (Hsub q Hq) as [|[Hn|]]; [by left | right; unfold stored; by rewrite Hn | by right].
  - destruct Hcase as [(-> & _)|[(-> & -> & _)|(-> & -> & Hn & _)]]; auto.
  - intros x. destruct Hcase as [(-> & _)|[(-> & -> & _)|(-> & -> & Hn & _)]]; [done | done |]. apply stored_new. apply Hn.
Qed.

(** The bytes of one iteration followed by those of the next. *)
Lemma written_bytes st b b2 bs bs' :
  0 <= w_of st <= L -> length (raw b) = DSIZE -> written st b b2 ->
  let o := w_of st + block_len buff (w_of st) in
  take (Z.to_nat (L - o)) (concat (map raw bs')) =
    overlay (Z.to_nat (seek - o)) (stored_bytes (Z.to_nat (L - o)) bs) (drop (Z.to_nat o) (contents buff)) ->
  take (Z.to_nat (L - w_of st)) (concat (map raw (b2 :: bs'))) =
    overlay (Z.to_nat (seek - w_of st)) (stored_bytes (Z.to_nat (L - w_of st)) (b :: bs))
        (drop (Z.to_nat (w_of st)) (contents buff)).
Proof.
  intros Hof Hb (_ & _ & Hl2 & _ & Hr) o IH. pose proof (contents_length buff (proj1 Hbuff)) as Hlen.
  set (n := block_len buff (w_of st)) in *.
  assert (n = Z.min SHFS_BLOCK_DATA_SIZE (L - w_of st)) as Hn by reflexivity.
  assert (Z.to_nat n = Nat.min DSIZE (Z.to_nat (L - w_of st))) as Hnn by (unfold SHFS_BLOCK_DATA_SIZE in *; lia).
  assert (Z.to_nat (L - o) = Z.to_nat (L - w_of st) - DSIZE)%nat as Ho by (unfold o, SHFS_BLOCK_DATA_SIZE in *; lia).
  rewrite stored_cons, <- Hnn, <- Ho by done.
  rewrite <- (take_drop (Z.to_nat n) (drop (Z.to_nat (w_of st)) (contents buff))), drop_drop.
  replace (Z.to_nat (w_of st) + Z.to_nat n)%nat with (Z.to_nat o) by (unfold o, SHFS_BLOCK_DATA_SIZE in *; lia).
  rewrite overlay_app, <- Hr by (unfold SHFS_BLOCK_DATA_SIZE in *; llia).
  replace (Z.to_nat (seek - w_of st) - length (take (Z.to_nat n) (raw b)))%nat with (Z.to_nat (seek - o))
    by (unfold o, SHFS_BLOCK_DATA_SIZE in *; llia).
  rewrite <- IH, Ho. cbn [map concat]. rewrite take_app, Hl2. f_equal.
  destruct (Nat.le_gt_cases (Z.to_nat (L - w_of st)) DSIZE); [f_equal; lia |]. by rewrite !take_ge by lia.
Qed.

Lemma pwrite_loop_ok fuel f st bs K p :
  inv f st bs K -> leads p (w_blk st) bs -> is_uint 64 (w_crc st) ->
  Z.of_nat (length bs) + K <= Z.of_nat fuel -> no_clash fuel st f = true ->
  exists f' seg_crc bs', pwrite_loop E fuel buff seek st f = Done (f', Ok seg_crc) /\ fs_wf f' /\
    chain f' p bs' /\ keeps f f' (positions bs) /\
    take (Z.to_nat (L - w_of st)) (concat (map raw bs')) =
      overlay (Z.to_nat (seek - w_of st)) (stored_bytes (Z.to_nat (L - w_of st)) bs)
          (drop (Z.to_nat (w_of st)) (contents buff)) /\
    sized (L - w_of st) bs' /\ seg_crc = u64 (w_crc st + crc_sum bs') /\
    Z.of_nat (length bs') <= Z.of_nat (length bs) + K.
Proof.
  revert f st bs K p. induction fuel as [|fuel IH]; intros f st [|b bs] K p Hinv Hp Hcrc Hfuel Hnc.
  1, 3: destruct Hinv as (Hf & [Hend Hof] & _ & _ & HK & _); exists f, (w_crc st), [];
    cbn [pwrite_loop]; rewrite Hend; split; [reflexivity |]; pose proof (contents_length buff (proj1 Hbuff));
    rewrite Hof, Z.sub_diag, drop_ge by lia; split_and!; try done;
    [by intros ? | unfold overlay, stored_bytes; change (Z.to_nat 0) with O; by rewrite !take_0, drop_nil, take_nil
    | cbn; by rewrite Z.add_0_r, wrap_small].
  { exfalso. destruct Hinv as (_ & _ & _ & _ & HK & _). cbn [length] in Hfuel. lia. }
  assert (w_blk st = b /\ ino (pos (hdr b)) <> 0 /\ length (raw b) = DSIZE) as (Hb & Hi & Hraw)
    by (destruct Hinv as (_ & (? & ? & _ & ? & _) & _); done).
  assert (0 <= w_of st <= L) as Hof by apply Hinv.
  cbn [no_clash] in Hnc. rewrite Hb in Hnc. destruct (Z.eqb_spec (ino (pos (hdr b))) 0) as [|_]; [done |].
  apply andb_prop in Hnc as [Hnc1 Hnc2]. apply negb_true_iff in Hnc1.
  destruct (pwrite_step_inv f st b bs K Hinv Hnc1)
    as (f2 & st1 & b2 & bs1 & K1 & He & Hinv1 & Hdec & Hwr & Hg2 & Hlead & Hof1 & Hcrc1 & Hkeep & Hnin & Hsub & _ & Hold).
  rewrite He in Hnc2.
  destruct (IH f2 st1 bs1 K1 (npos (hdr b2))) as (f' & c & bs' & He' & Hf' & Hch & Hkeep' & Hby & Hsz & Hc & Hlen);
    [done | done | rewrite Hcrc1; by apply wrap_range | lia | done |].
  exists f', c, (b2 :: bs'). cbn [pwrite_loop]. rewrite Hb. destruct (Z.eqb_spec (ino (pos (hdr b))) 0) as [|_]; [done |].
  unfold fbind. rewrite He, He'. split; [done |]. split; [done |].
  pose proof Hwr as (Hp2 & Ht2 & Hl2 & Hs2 & _). cbn in Hp. rewrite Hb in Hp.
  split_and!.
  - cbn. rewrite Hp. split_and!; try done. apply Hkeep'; [done | by apply aux_occupied | done].
  - intros q x Hq Ho Hnq. apply Hkeep'; [apply Hkeep | done |]; try done.
    + intros ->%list_elem_of_singleton. apply Hnq. apply list_elem_of_here.
    + intros Hq1. destruct (Hsub q Hq1) as [Hq2|Hq2]; [apply Hnq; by right |].
      unfold stored in Hq2. rewrite Hq in Hq2. congruence.
  - apply written_bytes; [done | done | done |]. rewrite <- Hold, <- Hof1. exact Hby.
  - split; [by rewrite Hs2 |]. unfold block_len in Hof1.
    replace (L - w_of st - Z.min SHFS_BLOCK_DATA_SIZE (L - w_of st)) with (L - w_of st1) by lia. done.
  - by rewrite Hc, Hcrc1, wrap_add_l, <- Z.add_assoc.
  - cbn [length] in *. lia.
Qed.

(** A write that creates at most one block cannot clash: the block before the
    new one is stored. *)
Lemma no_clash_one_new fuel f st bs K :
  inv f st bs K ->
  L - w_of st <= SHFS_BLOCK_DATA_SIZE * (Z.of_nat (length bs) + (if stored f (pos (hdr (w_blk st))) then 1 else 0)) ->
  no_clash fuel st f = true.
Proof.
  revert f st bs K. induction fuel as [|fuel IH]; intros f st bs K Hinv Hlen; [done |]. cbn [no_clash].
  destruct bs as [|b bs]; [destruct Hinv as (_ & [Hend _] & _); by rewrite Hend |].
  pose proof Hinv as (_ & Hcur & Hof & _). pose proof Hcur as (Hb & Hi & Ht & _ & Hch & Hnin & b0 & Hg & _).
  rewrite Hb. destruct (Z.eqb_spec (ino (pos (hdr b))) 0) as [|_]; [done |].
  rewrite Hb in Hlen. cbn [length] in Hlen.
  assert (creates st && clash f b = false) as Hnc.
  { unfold clash. destruct (current_stored f st b bs b0 Hcur Hg) as [(_ & _ & Ho)|[(_ & -> & _) Hs]].
    - unfold stored. rewrite Hg, Ho. apply andb_false_r.
    - rewrite Hs in Hlen. unfold creates, block_len, SHFS_BLOCK_DATA_SIZE in *. cbn [length] in Hlen.
      destruct (Z.ltb_spec (w_of st + Z.min 3976 (L - w_of st)) L); [lia | by rewrite andb_false_r]. }
  rewrite Hnc. cbn [negb andb].
  destruct (pwrite_step_inv f st b bs K Hinv Hnc)
    as (f2 & st1 & b2 & bs1 & K1 & He & Hinv1 & _ & _ & _ & _ & Hof1 & _ & Hkeep & _ & _ & Hbs & _).
  rewrite He. apply (IH f2 st1 bs1 K1 Hinv1). rewrite Hof1. unfold block_len, SHFS_BLOCK_DATA_SIZE in *.
  destruct Hbs as [->|[-> ->]]; [|destruct (stored f _), (stored f2 _); cbn [length] in Hlen; lia].
  destruct bs as [|n bs].
  { destruct Hinv1 as (_ & [_ Hend] & _). destruct (stored f2 _); cbn [length]; lia. }
  assert (stored f2 (pos (hdr (w_blk st1))) = true) as ->; [|destruct (stored f _); cbn [length] in *; lia].
  assert (w_blk st1 = n) as -> by apply Hinv1. destruct Hch as (_ & Hgn & Hpn & Htn & _). rewrite <- Hpn in Hgn.
  unfold stored. rewrite (Hkeep (pos (hdr n)) n); [by apply aux_occupied | done | by apply aux_occupied |].
  intros Heq%list_elem_of_singleton. rewrite <- Heq in Hnin. apply Hnin, list_elem_of_here.
Qed.
End writing.

(** ** Reading the list *)

Section reading.
Context (E : fsenv) (HE : env_ok E) (B : env) (HB : forall n, calloc_ok B n = true).

(** A buffer that takes [n] more bytes. *)
Definition accepts (buf : shbuf_t) (n : Z) : Prop :=
  ShBuf.wf buf /\ has_flag (flags buf) SHBUF_FMAP = false /\ data_of buf + n + 1 <= GROW_LIMIT.

Lemma cat_raw_ok buf blk o n m :
  accepts buf m -> 0 <= o -> 0 <= n <= m -> o + n <= SHFS_BLOCK_DATA_SIZE -> length (raw blk) = DSIZE ->
  exists buf', cat_raw B buf blk o n = Done buf' /\ accepts buf' (m - n) /\
    contents buf' = contents buf ++ take (Z.to_nat n) (drop (Z.to_nat o) (raw blk)).
Proof.
  intros (Hw & Hf & Hm) Ho Hn Hon Hraw. unfold cat_raw. rewrite mem_read_ok by lia. cbn [obind].
  assert (length (take (Z.to_nat n) (drop (Z.to_nat o) (raw blk))) = Z.to_nat n) as Hl by llia.
  destruct (cat_ok B HB buf (take (Z.to_nat n) (drop (Z.to_nat o) (raw blk))) Hw Hf) as (buf' & He & Hw' & Hc & Hd & _ & Ha).
  { rewrite Hl. lia. }
  exists buf'. split; [done |]. split; [|done]. split; [done |]. split; [by rewrite (proj1 Ha) |]. rewrite Hd, Hl. lia.
Qed.

Lemma pread_block_ok buf blk b_of n seek m :
  accepts buf m -> 0 <= n <= m -> n <= SHFS_BLOCK_DATA_SIZE -> length (raw blk) = DSIZE ->
  0 <= b_of -> b_of + n < 2 ^ 63 -> 0 <= seek ->
  exists buf', pread_block B buf blk b_of n seek 0 = Done buf' /\ accepts buf' (m - n) /\
    contents buf' = contents buf ++ drop (Z.to_nat (seek - b_of)) (take (Z.to_nat n) (raw blk)).
Proof.
  intros Hacc Hn Hns Hraw Hb Hbn Hs. change (2 ^ 63) with 9223372036854775808 in Hbn. unfold pread_block.
  destruct ((seek =? 0) || (seek <=? b_of)) eqn:Hfull.
  - rewrite (proj1 (proj2 Hacc)). cbn [andb].
    destruct (cat_raw_ok buf blk 0 n m) as (buf' & He & Ha & Hc); [done | lia | lia | lia | done |].
    exists buf'. split; [done |]. split; [done |]. rewrite Hc. replace (Z.to_nat (seek - b_of)) with O by lia. done.
  - rewrite wrap_small by rlia. cbn [negb andb Z.eqb].
    destruct (negb (seek =? 0) && (seek <=? b_of + n)) eqn:Hpart.
    + rewrite wrap_small by rlia. rewrite Z.min_r by lia.
      replace (n - (b_of + n - seek)) with (seek - b_of) by lia.
      destruct (cat_raw_ok buf blk (seek - b_of) (b_of + n - seek) m) as (buf' & He & (Ha1 & Ha2 & Ha3) & Hc);
        [done | lia | lia | lia | done |].
      exists buf'. split; [done |]. split; [split_and!; (done || lia) |]. rewrite Hc, skipn_firstn_comm.
      do 2 f_equal. lia.
    + exists buf. split; [done |]. destruct Hacc as (Ha1 & Ha2 & Ha3). split; [split_and!; (done || lia) |].
      rewrite drop_ge, app_nil_r by llia. done.
Qed.

Lemma pread_loop_ok f len seek bs : fs_wf f -> 0 <= seek -> len < 2 ^ 63 ->
  forall fuel idx b_of buf, list_at f idx bs -> (length bs <= fuel)%nat -> 0 <= b_of <= len ->
  accepts buf (len - b_of) ->
  exists buf', pread_loop E B fuel len seek 0 idx b_of buf f = Done (f, Ok (buf', 0)) /\ ShBuf.wf buf' /\
    contents buf' = contents buf ++
      drop (Z.to_nat (seek - b_of)) (take (Z.to_nat (len - b_of)) (concat (map raw bs))).
Proof.
  intros Hf Hs Hlen. change (2 ^ 63) with 9223372036854775808 in Hlen.
  induction bs as [|b bs IH]; intros fuel idx b_of buf Hc Hfuel Hb Ha.
  { exists buf. cbn in Hc. split; [by destruct fuel; cbn [pread_loop]; rewrite Hc |]. split; [apply Ha |].
    cbn. by rewrite take_nil, drop_nil, app_nil_r. }
  destruct Hc as (Hi & Hg & Hc). pose proof (get_raw f idx b Hf Hg) as Hraw.
  destruct fuel as [|fuel]; [cbn in Hfuel; lia |]. set (n := Z.min SHFS_BLOCK_DATA_SIZE (len - b_of)).
  assert (0 <= n <= len - b_of /\ n <= SHFS_BLOCK_DATA_SIZE) as [Hn Hns] by (unfold n, SHFS_BLOCK_DATA_SIZE; lia).
  destruct (pread_block_ok buf b b_of n seek (len - b_of)) as (buf1 & He1 & Ha1 & Hc1);
    [done | done | done | done | lia | change (2 ^ 63) with 9223372036854775808; lia | done |].
  destruct (IH fuel (npos (hdr b)) (b_of + n) buf1) as (buf' & He' & Hw & Hc');
    [done | cbn in Hfuel; lia | lia | by replace (len - (b_of + n)) with (len - b_of - n) by lia |].
  exists buf'. split.
  - cbn [pread_loop]. destruct (Z.eqb_spec (ino idx) 0); [done |]. unfold fbind at 1, fcatch.
    rewrite (read_block_ok E HE f idx b) by done. rewrite (wrap_small 64 (len - b_of)) by rlia. fold n.
    unfold fbind at 1, fpure. rewrite He1. cbn [negb andb Z.eqb]. rewrite (wrap_small 64 (b_of + n)) by rlia. done.
  - split; [done |]. rewrite Hc', Hc1, <- app_assoc. f_equal. cbn [map concat].
    rewrite take_app, Hraw, drop_app.
    assert (length (take (Z.to_nat (len - b_of)) (raw b)) = Z.to_nat n) as Hl
      by (rewrite length_take, Hraw; unfold n, SHFS_BLOCK_DATA_SIZE; lia).
    rewrite Hl. f_equal; [f_equal | f_equal; [|f_equal]]; [|lia|unfold n, SHFS_BLOCK_DATA_SIZE; lia].
    destruct (Z.le_gt_cases (len - b_of) SHFS_BLOCK_DATA_SIZE); [f_equal; unfold n; lia |].
    by rewrite !take_ge by (unfold n; lia).
Qed.
End reading.

(** ** Files *)

(** The inode is stored, as something else than a data block. *)
Definition linked (f : fs) (inode : shfs_block_t) : Prop :=
  length (raw inode) = DSIZE /\
  exists b, get f (pos (hdr inode)) = Some b /\ occupied b = true /\ htype (hdr b) <> SHINODE_AUX.

(** The partition holds the bytes [d] as the data of the inode. *)
Definition holds (f : fs) (inode : shfs_block_t) (bs : list shfs_block_t) (d : bytes) : Prop :=
  chain f (fpos (hdr inode)) bs /\ hsize (hdr inode) = Z.of_nat (length d) /\
  take (length d) (concat (map raw bs)) = d /\ sized (Z.of_nat (length d)) bs.

(** No iteration of [shfs_aux_pwrite] has a clash. *)
Definition pwrite_no_clash (E : fsenv) (fuel : nat) (inode : shfs_block_t) (buff : shbuf_t) (seek : Z) (f : fs) : bool :=
  match pwrite_first E inode f with
  | Done (f', Ok (_, st)) => no_clash E buff seek fuel st f'
  | _ => true
  end.

(** Room for [K] blocks, which hold [len] bytes. *)
Definition room (f : fs) (len K : Z) : Prop :=
  1 <= K /\ len <= SHFS_BLOCK_DATA_SIZE * K /\ forall j, Z.of_nat (used f j) + K <= 32766.

Section files.
Context (E : fsenv) (HE : env_ok E).

Lemma pwrite_first_ok f inode buff bs K :
  fs_wf f -> writable buff -> chain f (fpos (hdr inode)) bs -> room f (data_of buff) K ->
  exists f1 p st bs1, pwrite_first E inode f = Done (f1, Ok (set_fpos p inode, st)) /\
    inv buff f1 st bs1 K /\ leads p (w_blk st) bs1 /\ w_crc st = 0 /\ w_of st = 0 /\ grown f f1 /\
    Z.of_nat (length bs1) <= Z.of_nat (length bs) + 1 /\
    (forall q, q ∈ positions bs1 -> q ∈ positions bs \/ stored f q = false) /\
    (bs = [] /\ length bs1 = 1%nat \/ bs1 = bs /\ stored f1 (pos (hdr (w_blk st))) = true) /\
    forall x, stored_bytes x bs1 = stored_bytes x bs.
Proof.
  intros Hf [Hw HL] Hc (HK & Hlen & Hroom). destruct Hw as [Hof _]. unfold pwrite_first.
  destruct (Z.eqb_spec (ino (fpos (hdr inode))) 0) as [Hz|Hz].
  - assert (bs = []) as -> by (destruct bs; [done | by destruct Hc]).
    destruct (scan_create E HE f (hname (hdr inode)) Hf) as (f1 & i & Hs & (Hslot & Hg & Hf1 & Hus)).
    { specialize (Hroom (shfs_journal_index (hname (hdr inode)))). lia. }
    destruct (free_slot_get f1 _ i Hf1 Hslot) as (Hi & b0 & Hb0 & Ho).
    set (p := mk_idx (shfs_journal_index (hname (hdr inode))) i) in *.
    set (blk := set_name (shkey_bin (Some (block_image (set_fpos p inode))))
      (set_ctime (clock E (ticks f1)) (set_pos p (set_type SHINODE_AUX blank_block)))).
    exists (tick f1), p, (mk_ws blk blank_block 0 0 0), [blk]. split; [|split].
    + unfold fbind at 1. rewrite Hs. reflexivity.
    + assert (forall j, Z.of_nat (used (tick f1) j) + K <= 32766) as Hr by (intros j; specialize (Hroom j); rewrite <- Hus in Hroom; exact Hroom).
      split_and!; try done; [|cbn; lia..]. cbn [current].
      split_and!; try done; [unfold p; cbn; lia | by intros ?%elem_of_nil |].
      exists b0. split; [exact Hb0 |]. right. split_and!; try done. left. done.
    + split_and!; try done.
      * intros q Hq. cbn in Hq. apply list_elem_of_singleton in Hq as ->. right.
        change (stored f p = false). unfold stored. destruct (get f p) as [c|] eqn:Hc'; [|done].
        apply Hg in Hc'. congruence.
      * auto.
      * intros x. by apply stored_new.
  - destruct bs as [|b bs]; [done |]. pose proof Hc as (_ & Hg & Hp & Ht & Hc').
    exists f, (fpos (hdr inode)), (mk_ws b b 0 0 0), (b :: bs). split; [|split].
    + unfold fbind. rewrite (read_block_ok E HE f _ b) by done. unfold fret. repeat f_equal. by destruct inode as [[] ?].
    + split_and!; try done; [by eapply current_chain | cbn; lia..].
    + split_and!; try done; [apply grown_refl | lia | auto | right; split; [done |]].
      cbn [w_blk]. unfold stored. rewrite Hp, Hg. by apply aux_occupied.
Qed.

(** The effect of a write. *)
Definition pwrite_result (f f' : fs) (inode inode' : shfs_block_t) (buff : shbuf_t) (seek K : Z)
    (bs bs' : list shfs_block_t) : Prop :=
  let len := Z.to_nat (data_of buff) in
  fs_wf f' /\ get f' (pos (hdr inode)) = Some inode' /\ linked f' inode' /\
  hname (hdr inode') = hname (hdr inode) /\ pos (hdr inode') = pos (hdr inode) /\
  htype (hdr inode') = htype (hdr inode) /\
  holds f' inode' bs' (overlay (Z.to_nat seek) (stored_bytes len bs) (contents buff)) /\
  hcrc (hdr inode') = u64 (crc_sum bs') /\
  Z.of_nat (length bs') <= Z.of_nat (length bs) + 1 + K /\
  keeps f f' (pos (hdr inode) :: positions bs).

Lemma pwrite_ok fuel f inode buff seek bs K :
  fs_wf f -> writable buff -> 0 <= seek -> linked f inode -> occupied inode = true -> htype (hdr inode) <> SHINODE_AUX ->
  chain f (fpos (hdr inode)) bs -> room f (data_of buff) K ->
  Z.of_nat (length bs) + K + 1 <= Z.of_nat fuel ->
  pwrite_no_clash E fuel inode buff seek f = true ->
  exists f' inode' bs', shfs_aux_pwrite E fuel inode (Some buff) seek f = Done (f', Ok (inode', 0)) /\
    pwrite_result f f' inode inode' buff seek K bs bs'.
Proof.
  intros Hf Hbuff Hs (Hraw & ib & Hib & Hio & Hit) Hocc Hty Hc Hroom Hfuel Hnc.
  destruct (pwrite_first_ok f inode buff bs K Hf Hbuff Hc Hroom)
    as (f1 & p & st & bs1 & He1 & Hinv & Hlead & Hcrc0 & Hof0 & Hg1 & Hlen1 & Hsub & _ & Hold).
  unfold pwrite_no_clash in Hnc. rewrite He1 in Hnc.
  destruct (pwrite_loop_ok E HE buff Hbuff seek Hs fuel f1 st bs1 K p Hinv Hlead)
    as (f2 & c & bs2 & He2 & Hf2 & Hch & Hkeep & Hby & Hsz & Hcrc & Hlen2); [by rewrite Hcrc0 | lia | done |].
  rewrite Hof0, !Z.sub_0_r in Hby. rewrite Hof0, Z.sub_0_r in Hsz. rewrite Hcrc0, Z.add_0_l in Hcrc.
  assert (pos (hdr inode) ∉ positions bs1) as Hnin.
  { intros Hin. destruct (Hsub _ Hin) as [Hin'|Hst].
    - apply elem_of_positions in Hin' as (b & Hb & Hp). destruct (chain_occupied f _ bs b Hc Hb) as [Hgb Htb].
      rewrite Hp in Hgb. congruence.
    - unfold stored in Hst. rewrite Hib in Hst. congruence. }
  assert (get f2 (pos (hdr inode)) = Some ib) as Hib2 by (apply Hkeep; [by apply Hg1 | done | done]).
  set (ino1 := set_size (data_of buff) (set_crc c (set_fpos p inode))).
  pose proof (write_block_ok E HE f2 ino1 ib Hf2 Hib2) as Hw. cbn zeta in Hw.
  set (ino2 := set_mtime (clock E (ticks f2)) ino1) in *. change (pos (hdr ino1)) with (pos (hdr inode)) in Hw.
  set (f3 := put (tick f2) (pos (hdr inode)) ino2) in *.
  pose proof (proj1 (get_inv _ _ _ Hib2)) as Hpos.
  assert (get f3 (pos (hdr inode)) = Some ino2) as Hg3 by (by apply (put_same (tick f2) _ ino2 ib)).
  assert (pos (hdr inode) ∉ positions bs2) as Hnin2.
  { intros (b & Hb & Hp)%elem_of_positions. destruct (chain_occupied f2 _ bs2 b Hch Hb) as [Hgb Htb].
    rewrite Hp in Hgb. congruence. }
  assert (length (overlay (Z.to_nat seek) (stored_bytes (Z.to_nat (data_of buff)) bs) (contents buff)) = Z.to_nat (data_of buff)) as Hml.
  { pose proof (contents_length buff (proj1 Hbuff)). rewrite length_overlay; [lia |]. rewrite length_stored. lia. }
  assert (0 <= data_of buff) by apply (proj1 Hbuff).
  exists f3, ino2, bs2. split.
  { unfold shfs_aux_pwrite. unfold fbind at 1, fcatch at 1. rewrite He1. unfold fbind at 1, fcatch at 1. rewrite He2.
    unfold fbind, fcatch, shfs_inode_write_entity. fold ino1. by rewrite Hw. }
  split; [by apply (put_wf (tick f2)) |]. split; [done |]. split; [split; [exact Hraw | by exists ino2] |].
  do 3 (split; [done |]). split; [|split; [exact Hcrc |]].
  - split; [by apply chain_put; [| apply (chain_frame f2) |] |]. rewrite Hml, Z2Nat.id by done. split; [done |]. split; [|done].
    rewrite Hby, Hold. done.
  - split; [lia |]. intros q x Hq Ho Hnq. unfold f3. rewrite put_other.
    + apply Hkeep; [by apply Hg1 | done |]. intros Hq1. destruct (Hsub q Hq1) as [Hq2|Hq2]; [apply Hnq; by right |].
      unfold stored in Hq2. rewrite Hq in Hq2. congruence.
    + done.
    + intros <-. apply Hnq, list_elem_of_here.
Qed.

Lemma pwrite_one_new fuel f inode buff seek bs K :
  fs_wf f -> writable buff -> 0 <= seek -> chain f (fpos (hdr inode)) bs -> room f (data_of buff) K ->
  data_of buff <= SHFS_BLOCK_DATA_SIZE * (Z.of_nat (length bs) + 1) ->
  pwrite_no_clash E fuel inode buff seek f = true.
Proof.
  intros Hf Hbuff Hs Hc Hroom Hlen.
  destruct (pwrite_first_ok f inode buff bs K Hf Hbuff Hc Hroom)
    as (f1 & p & st & bs1 & He1 & Hinv & Hlead & _ & Hof0 & _ & _ & _ & Hbs1 & _).
  unfold pwrite_no_clash. rewrite He1. apply (no_clash_one_new E HE buff Hbuff seek Hs fuel f1 st bs1 K Hinv).
  rewrite Hof0. unfold SHFS_BLOCK_DATA_SIZE in *. destruct Hbs1 as [[-> ->]|[-> ->]]; [|lia].
  destruct (stored f1 _); cbn [length] in Hlen; lia.
Qed.
End files.

(** Reading the bytes that a list of blocks holds. *)
Lemma pread_list E B f inode bs d fuel seek buf :
  env_ok E -> (forall n, calloc_ok B n = true) -> fs_wf f -> list_at f (fpos (hdr inode)) bs ->
  hsize (hdr inode) = Z.of_nat (length d) -> take (length d) (concat (map raw bs)) = d ->
  Z.of_nat (length d) < 2 ^ 63 -> (length bs <= fuel)%nat -> 0 <= seek < 2 ^ 63 -> accepts buf (Z.of_nat (length d)) ->
  exists buf', shfs_aux_pread E B fuel inode buf seek 0 f = Done (f, Ok (buf', 0)) /\
    contents buf' = contents buf ++ drop (Z.to_nat seek) d.
Proof.
  intros HE HB Hf Hc Hs Hd Hlen Hfuel Hseek Hacc. change (2 ^ 63) with 9223372036854775808 in *.
  unfold shfs_aux_pread. rewrite Hs, wrap_small by rlia.
  destruct (negb (seek =? 0) && (Z.of_nat (length d) <=? seek)) eqn:Hend.
  - exists buf. split; [done |]. rewrite drop_ge, app_nil_r by lia. done.
  - destruct (pread_loop_ok E HE B HB f (Z.of_nat (length d)) seek bs Hf (proj1 Hseek) Hlen fuel (fpos (hdr inode)) 0 buf)
      as (buf' & He & Hw & Hcon); [done | done | lia | by rewrite Z.sub_0_r |].
    exists buf'. split; [done |]. by rewrite Hcon, !Z.sub_0_r, Nat2Z.id, Hd.
Qed.

(** ** Properties *)

(** C4: A write at [seek] that has no clash gives the file the bytes it held
    before [seek] and those of the buffer from there on, whether its blocks exist,
    must be extended or must be created: it succeeds, and every later read of the
    inode from any offset returns the tail of that content.  The inode is stored
    with the new size and the sum of the block checksums, and no other block in use
    changes.  [pwrite_no_clash] says that no block the write creates is followed,
    before it is itself stored, by a second one in the journal it lies in, where
    the scan would hand out its slot again; this excludes exactly the loss of data
    shown further down for two new blocks, and holds for every write that creates
    at most one block ([pwrite_one_new]). *)
Theorem shfs_aux_pwrite_pread E B fuel f inode buff seek bs K :
  env_ok E -> (forall n, calloc_ok B n = true) -> fs_wf f -> writable buff -> 0 <= seek ->
  linked f inode -> occupied inode = true -> htype (hdr inode) <> SHINODE_AUX ->
  chain f (fpos (hdr inode)) bs -> room f (data_of buff) K ->
  Z.of_nat (length bs) + K + 1 <= Z.of_nat fuel -> pwrite_no_clash E fuel inode buff seek f = true ->
  let d := overlay (Z.to_nat seek) (stored_bytes (Z.to_nat (data_of buff)) bs) (contents buff) in
  exists f' inode' bs', shfs_aux_pwrite E fuel inode (Some buff) seek f = Done (f', Ok (inode', 0)) /\
    fs_wf f' /\ get f' (pos (hdr inode)) = Some inode' /\
    hsize (hdr inode') = data_of buff /\ hcrc (hdr inode') = u64 (crc_sum bs') /\
    chain f' (fpos (hdr inode')) bs' /\ sized (data_of buff) bs' /\
    keeps f f' (pos (hdr inode) :: positions bs) /\
    forall rfuel rseek rbuf, Z.of_nat (length bs) + K + 1 <= Z.of_nat rfuel -> 0 <= rseek < 2 ^ 63 ->
      accepts rbuf (data_of buff) ->
      exists rbuf', shfs_aux_pread E B rfuel inode' rbuf rseek 0 f' = Done (f', Ok (rbuf', 0)) /\
        contents rbuf' = contents rbuf ++ drop (Z.to_nat rseek) d.
Proof.
  intros HE HB Hf Hbuff Hseek Hlink Hocc Hty Hc Hroom Hfuel Hnc d.
  destruct (pwrite_ok E HE fuel f inode buff seek bs K) as (f' & inode' & bs' & He & (Hf' & Hg & Hl & _ & _ & _ & Hh & Hcrc & Hlen & Hk));
    [done.. |].
  assert (Z.of_nat (length d) = data_of buff) as Hd.
  { pose proof (contents_length buff (proj1 Hbuff)). unfold d. rewrite length_overlay; [done |]. rewrite length_stored. lia. }
  exists f', inode', bs'. pose proof Hh as (Hch & Hs & _ & Hsz). fold d in Hs, Hsz, Hh. rewrite Hd in Hs, Hsz.
  split_and!; try done.
  intros rfuel rseek rbuf Hrf Hrs Hacc.
  apply (pread_list E B f' inode' bs'); try done; rewrite ?Hd; [by apply chain_list | done | apply Hh | apply Hbuff | lia | done].
Qed.

(** The block layout of the example: an inode and nothing else. *)
Definition demo_inode : shfs_block_t := set_pos (mk_idx 1 3) (set_type SHINODE_FILE blank_block).
Definition demo_fs : fs := mk_fs {[ 1 := mk_journal [blank_block; blank_block; blank_block; demo_inode] true ]} 0.

Lemma demo_fs_wf : fs_wf demo_fs.
Proof.
  apply map_Forall_singleton. split; [split; done |]. split; [done |]. split; [exists 0; done |].
  cbn [jblocks]. repeat (apply List.Forall_cons; [apply blank_raw |]). apply List.Forall_nil.
Qed.

(** A block of journal 1. *)
Definition dir_blk (t slot next : Z) (size : Z) : shfs_block_t :=
  set_size size (set_npos (mk_idx 1 next) (set_pos (mk_idx 1 slot) (set_type t blank_block))).

(** A file of one full block, of zeros. *)
Definition whole_inode : shfs_block_t := set_npos idx_none (set_fpos (mk_idx 1 6) (dir_blk SHINODE_BINARY 7 0 3976)).
Definition whole_first : shfs_block_t := set_npos idx_none (dir_blk SHINODE_AUX 6 0 3976).
Definition whole_fs : fs :=
  mk_fs {[ 1 := mk_journal (replicate 6 blank_block ++ [whole_first; whole_inode]) true ]} 0.

Lemma whole_fs_wf : fs_wf whole_fs.
Proof.
  apply map_Forall_singleton. split; [split; done |]. split; [done |]. split; [exists 1; done |].
  cbn [jblocks]. repeat (apply List.Forall_cons; [apply blank_raw |]). apply List.Forall_nil.
Qed.

Lemma whole_linked : linked whole_fs whole_inode.
Proof. split; [apply blank_raw |]. exists whole_inode. split_and!; [reflexivity | reflexivity | discriminate]. Qed.

Lemma whole_chain : chain whole_fs (fpos (hdr whole_inode)) [whole_first].
Proof. cbn [chain]. split_and!; (exact eq_refl || (vm_compute; discriminate)). Qed.

Lemma whole_room : room whole_fs 4000 2.
Proof.
  split; [lia |]. split; [done |]. intros j. unfold used, whole_fs. cbn [journals].
  destruct (decide (j = 1)) as [->|Hne]; [|by rewrite lookup_singleton_ne].
  by vm_compute.
Qed.

(** 4000 bytes [65], written from offset 3974 on: the last two bytes of the block
    change and a second block is created. *)
Definition whole_data : shbuf_t := shbuf_map (replicate 4000 65).

Lemma whole_writable : writable whole_data.
Proof. split; [split; [done | reflexivity] | reflexivity]. Qed.

Lemma shfs_aux_pwrite_pread_witness :
  exists f' inode', shfs_aux_pwrite demo_fsenv 4 whole_inode (Some whole_data) 3974 whole_fs = Done (f', Ok (inode', 0)) /\
    exists rbuf', shfs_aux_pread demo_fsenv (demo_env true) 4 inode' shbuf_init 3972 0 f' = Done (f', Ok (rbuf', 0)) /\
      contents rbuf' = [0; 0] ++ replicate 26 65.
Proof.
  destruct (shfs_aux_pwrite_pread demo_fsenv (demo_env true) 4 whole_fs whole_inode whole_data 3974 [whole_first] 2)
    as (f' & inode' & bs' & H1 & _ & _ & _ & _ & _ & _ & _ & H2).
  - exact demo_fsenv_ok.
  - done.
  - exact whole_fs_wf.
  - exact whole_writable.
  - done.
  - exact whole_linked.
  - reflexivity.
  - discriminate.
  - exact whole_chain.
  - exact whole_room.
  - done.
  - apply (pwrite_one_new _ demo_fsenv_ok 4 whole_fs whole_inode whole_data 3974 [whole_first] 2);
      [exact whole_fs_wf | exact whole_writable | discriminate | exact whole_chain | exact whole_room | discriminate].
  - exists f', inode'. split; [exact H1 |].
    destruct (H2 4%nat 3972 shbuf_init) as (r & H3 & H4); [discriminate | split; [discriminate | reflexivity]
      | split; [apply wf_init | split; [reflexivity | discriminate]] |].
    exists r. split; [exact H3 |]. rewrite H4. vm_compute. reflexivity.
Defined.

Lemma pwrite_loop_S E fuel buff seek st f f' st' :
  pwrite_step E buff seek st f = Done (f', Ok st') -> ino (pos (hdr (w_blk st))) <> 0 ->
  pwrite_loop E (S fuel) buff seek st f = pwrite_loop E fuel buff seek st' f'.
Proof. intros He Hi. cbn [pwrite_loop]. apply Z.eqb_neq in Hi. rewrite Hi. unfold fbind. by rewrite He. Qed.

(** C39: While a new block is not stored yet, a scan of its own journal finds its
    slot again.  When the name of the first block of a file of two blocks selects
    the journal the block is in, the second block is given the same slot: the
    write reports success, and the list of the file is one block, which holds the
    second part of the data; the first 3976 bytes are lost. *)
Theorem shfs_aux_pwrite_clash E fuel f blk buff i :
  env_ok E -> fs_wf f -> writable buff ->
  SHFS_BLOCK_DATA_SIZE < data_of buff <= 2 * SHFS_BLOCK_DATA_SIZE ->
  htype (hdr blk) = SHINODE_AUX -> length (raw blk) = DSIZE -> npos (hdr blk) = idx_none ->
  pos (hdr blk) = mk_idx (shfs_journal_index (hname (hdr blk))) i ->
  free_slot f (shfs_journal_index (hname (hdr blk))) i ->
  exists f' seg_crc b, pwrite_loop E (S (S fuel)) buff 0 (mk_ws blk blank_block 0 0 0) f = Done (f', Ok seg_crc) /\
    chain f' (pos (hdr blk)) [b] /\
    take (Z.to_nat (data_of buff - SHFS_BLOCK_DATA_SIZE)) (raw b) = drop DSIZE (contents buff).
Proof.
  intros HE Hf Hbuff HL Ht Hraw Hnp Hpos Hslot. set (p := pos (hdr blk)) in *.
  set (N := SHFS_BLOCK_DATA_SIZE) in *. assert (N = 3976) as HN by reflexivity.
  assert (data_of buff < 9223372036854775808) as HL2 by apply Hbuff.
  destruct (free_slot_get f _ i Hf Hslot) as (Hi & b0 & Hb0 & Hfree). rewrite <- Hpos in Hb0.
  set (n := set_name (shkey_bin (Some (block_image (set_npos p blk))))
    (set_ctime (clock E (ticks f)) (set_pos p (set_type SHINODE_AUX blank_block)))).
  assert (block_len buff 0 = N) as Hlen0 by (unfold block_len; fold N; lia).
  assert (pwrite_next E buff blk 0 (block_len buff 0) f = Done (tick f, Ok (set_npos p blk, n))) as Hnext.
  { unfold pwrite_next. rewrite Hnp, Hlen0, wrap_small by rlia. cbn [ino idx_none Z.eqb].
    destruct (Z.ltb_spec (0 + N) (data_of buff)) as [_|]; [|lia].
    unfold shfs_aux_pwrite_create, fbind at 1. unfold shfs_journal_scan. rewrite (scan_again E HE f _ i Hf Hslot).
    rewrite <- Hpos. reflexivity. }
  set (st := mk_ws blk blank_block 0 0 0).
  destruct (pwrite_step_eq E HE buff Hbuff 0 ltac:(lia) f st blk (set_npos p blk) n (tick f) b0)
    as (f2 & st1 & b2 & He & H1 & H2 & H3 & H4 & H5 & Hwr & Hnp2 & Hg2 & Hoth & Hf2 & _);
    [done | done | done | cbn; lia | done | done | done | by exists p | done | right; left; discriminate |].
  cbn [w_of st] in H3. rewrite Hlen0, Z.add_0_l in H3.
  assert (block_len buff N = data_of buff - N) as Hlen1 by (unfold block_len; fold N; lia).
  assert (pwrite_next E buff n (w_of st1) (block_len buff (w_of st1)) f2 = Done (f2, Ok (n, blank_block))) as Hnext1.
  { rewrite H3, Hlen1. unfold pwrite_next. change (ino (npos (hdr n)) =? 0) with true.
    rewrite wrap_small by rlia. destruct (Z.ltb_spec (N + (data_of buff - N)) (data_of buff)) as [|_]; [lia | done]. }
  destruct (pwrite_step_eq E HE buff Hbuff 0 ltac:(lia) f2 st1 n n blank_block f2 b2)
    as (f3 & st2 & b3 & He' & H1' & H2' & H3' & _ & _ & Hwr' & Hnp3 & Hg3 & _);
    [done | done | apply blank_raw | lia | done | done | done | exists (npos (hdr n)); by rewrite set_npos_id | done
    | right; right; rewrite H2, H3; split; [done | lia] |].
  exists f3, (w_crc st2), b3. destruct Hwr' as (Hp3 & Ht3 & Hl3 & _ & Hr3). rewrite H3, Hlen1 in Hr3.
  split; [|split].
  - rewrite (pwrite_loop_S E (S fuel) buff 0 st f f2 st1 He) by (change (ino p <> 0); rewrite Hpos; cbn; lia).
    rewrite (pwrite_loop_S E fuel buff 0 st1 f2 f3 st2 He') by (rewrite H1; change (ino p <> 0); rewrite Hpos; cbn; lia).
    destruct fuel; cbn [pwrite_loop]; rewrite H1'; reflexivity.
  - cbn [chain]. change (pos (hdr n)) with p in *. split_and!; try done; [rewrite Hpos; cbn; lia | by rewrite Hnp3].
  - rewrite Hr3. unfold overlay. pose proof (contents_length buff (proj1 Hbuff)).
    replace (Z.to_nat (0 - N)) with O by lia. rewrite take_0, drop_0. cbn [app]. apply take_ge. fold N. llia.
Qed.

Definition clash_block : shfs_block_t :=
  set_pos (mk_idx (shfs_journal_index key_blank) 3) (set_type SHINODE_AUX blank_block).
Definition clash_fs : fs :=
  mk_fs {[ shfs_journal_index key_blank := mk_journal (replicate 4 blank_block) true ]} 0.

Lemma clash_fs_wf : fs_wf clash_fs.
Proof.
  apply map_Forall_singleton. split; [apply journal_index_range |]. split; [done |]. split; [exists 0; done |].
  apply Forall_replicate, blank_raw.
Qed.

Lemma shfs_aux_pwrite_clash_witness :
  exists f' seg_crc b, pwrite_loop demo_fsenv 2 (shbuf_map (replicate 4000 65)) 0 (mk_ws clash_block blank_block 0 0 0) clash_fs
      = Done (f', Ok seg_crc) /\ chain f' (pos (hdr clash_block)) [b].
Proof.
  destruct (shfs_aux_pwrite_clash demo_fsenv 0 clash_fs clash_block (shbuf_map (replicate 4000 65)) 3)
    as (f' & c & b & H1 & H2 & _).
  - exact demo_fsenv_ok.
  - exact clash_fs_wf.
  - split; [split; [done | reflexivity] | reflexivity].
  - done.
  - reflexivity.
  - apply blank_raw.
  - reflexivity.
  - reflexivity.
  - eexists. split; [apply lookup_singleton_eq | reflexivity].
  - exists f', c, b. split; [exact H1 | exact H2].
Defined.

(** When the journal of the inode's name cannot be opened the scan reports
    success without a position, and so does the write: the inode is stored with
    the size of the data, none of which is. *)
Theorem shfs_aux_pwrite_unopened E fuel f inode buff seek b0 :
  jopen_ok E (shfs_journal_index (hname (hdr inode))) = false -> jopen_ok E (jno (pos (hdr inode))) = true ->
  fs_wf f -> get f (pos (hdr inode)) = Some b0 -> ino (fpos (hdr inode)) = 0 ->
  exists f' inode', shfs_aux_pwrite E fuel inode (Some buff) seek f = Done (f', Ok (inode', 0)) /\
    get f' (pos (hdr inode)) = Some inode' /\ hsize (hdr inode') = data_of buff /\ ino (fpos (hdr inode')) = 0 /\
    forall q, q <> pos (hdr inode) -> get f' q = get f q.
Proof.
  intros Hno Ho Hf Hg Hz.
  assert (shfs_journal_scan E (Some (hname (hdr inode))) f = Done (f, Ok None)) as Hs.
  { unfold shfs_journal_scan, _shfs_journal_scan, shfs_journal_size, journal_buff, fbind. rewrite Hno.
    rewrite orb_true_r. reflexivity. }
  set (blk := set_name (shkey_bin (Some (block_image inode)))
    (set_ctime (clock E (ticks f)) (set_pos (fpos (hdr inode)) (set_type SHINODE_AUX blank_block)))).
  assert (pwrite_first E inode f = Done (tick f, Ok (inode, mk_ws blk blank_block 0 0 0))) as Hfirst.
  { unfold pwrite_first. apply Z.eqb_eq in Hz. rewrite Hz. unfold fbind at 1. rewrite Hs. reflexivity. }
  assert (pwrite_loop E fuel buff seek (mk_ws blk blank_block 0 0 0) (tick f) = Done (tick f, Ok 0)) as Hloop.
  { destruct fuel; cbn [pwrite_loop w_blk]; change (ino (pos (hdr blk))) with (ino (fpos (hdr inode))); by rewrite Hz. }
  set (ino1 := set_size (data_of buff) (set_crc 0 inode)).
  pose proof (write_block_open E (tick f) ino1 b0 Ho Hf Hg) as Hw. cbn zeta in Hw.
  change (pos (hdr ino1)) with (pos (hdr inode)) in Hw. set (ino2 := set_mtime (clock E (ticks (tick f))) ino1) in *.
  pose proof (proj1 (get_inv _ _ _ Hg)) as Hpos.
  exists (put (tick (tick f)) (pos (hdr inode)) ino2), ino2. split_and!.
  - unfold shfs_aux_pwrite. unfold fbind at 1, fcatch at 1. rewrite Hfirst. unfold fbind at 1, fcatch at 1. rewrite Hloop.
    unfold fbind, fcatch, shfs_inode_write_entity. fold ino1. by rewrite Hw.
  - by apply (put_same (tick (tick f)) _ ino2 b0).
  - reflexivity.
  - exact Hz.
  - intros q Hq. by rewrite put_other.
Qed.

Definition named_inode : shfs_block_t := set_name (mk_key 0 1 (replicate 7 1)) demo_inode.
Definition one_journal : fsenv := mk_fsenv (fun _ => 0) (fun j => j =? 1) (fun _ _ => true) 0.

Lemma shfs_aux_pwrite_unopened_witness :
  exists f' inode', shfs_aux_pwrite one_journal 1 named_inode (Some (shbuf_map (cstr "hello"))) 0 demo_fs
      = Done (f', Ok (inode', 0)) /\ hsize (hdr inode') = 5.
Proof.
  destruct (shfs_aux_pwrite_unopened one_journal 1 demo_fs named_inode (shbuf_map (cstr "hello")) 0 demo_inode)
    as (f' & inode' & H1 & _ & H2 & _).
  - vm_compute. reflexivity.
  - reflexivity.
  - exact demo_fs_wf.
  - reflexivity.
  - reflexivity.
  - exists f', inode'. split; [exact H1 | exact H2].
Defined.

(** [shfs_inode_clear] clears the first data block of an inode and then
    follows the inode's own link to the next inode of its directory: of a file of
    two blocks the second stays in use, and the inode two places further in the
    directory is wiped. *)
Theorem shfs_inode_clear_sibling E fuel f inode b1 b2 s1 s2 ib :
  env_ok E -> fs_wf f ->
  NoDup [pos (hdr inode); fpos (hdr inode); npos (hdr b1); npos (hdr inode); npos (hdr s1)] ->
  length (raw inode) = DSIZE ->
  ino (fpos (hdr inode)) <> 0 -> ino (npos (hdr b1)) <> 0 -> ino (npos (hdr inode)) <> 0 -> ino (npos (hdr s1)) <> 0 ->
  get f (pos (hdr inode)) = Some ib -> get f (fpos (hdr inode)) = Some b1 -> get f (npos (hdr b1)) = Some b2 ->
  get f (npos (hdr inode)) = Some s1 -> get f (npos (hdr s1)) = Some s2 ->
  exists f' inode', shfs_inode_clear E (S (S fuel)) inode f = Done (f', Ok (inode', 0)) /\
    get f' (fpos (hdr inode)) = Some blank_block /\ get f' (npos (hdr b1)) = Some b2 /\
    get f' (npos (hdr inode)) = Some s1 /\ get f' (npos (hdr s1)) = Some blank_block.
Proof.
  intros HE Hf Hnd Hraw Z1 Z2 Z3 Z4 Gi G1 G2 G3 G4.
  set (p := pos (hdr inode)) in *. set (p1 := fpos (hdr inode)) in *. set (p2 := npos (hdr b1)) in *.
  set (q1 := npos (hdr inode)) in *. set (q2 := npos (hdr s1)) in *.
  repeat (apply NoDup_cons in Hnd as [?Hn Hnd]).
  assert (p <> p1 /\ p <> p2 /\ p <> q1 /\ p <> q2 /\ p1 <> p2 /\ p1 <> q1 /\ p1 <> q2 /\ p2 <> q2 /\ q1 <> q2 /\ p2 <> q1)
    as (N1 & N2 & N3 & N4 & N5 & N6 & N7 & N8 & N9 & N10) by (rewrite !not_elem_of_cons in *; tauto).
  pose proof (proj1 (get_inv _ _ _ G1)). pose proof (proj1 (get_inv _ _ _ G4)). pose proof (proj1 (get_inv _ _ _ Gi)).
  set (f1 := put f p1 blank_block). set (f2 := put f1 q2 blank_block).
  assert (fs_wf f1) as Hf1 by (apply put_wf; [done | apply blank_raw]).
  assert (fs_wf f2) as Hf2 by (apply put_wf; [done | apply blank_raw]).
  assert (get f1 q2 = Some s2) as G4' by (unfold f1; by rewrite put_other).
  assert (get f2 p = Some ib) as Gi' by (unfold f2, f1; by rewrite !put_other by congruence).
  set (ino1 := cleared_inode inode). pose proof (write_block_ok E HE f2 ino1 ib Hf2 Gi') as Hw. cbn zeta in Hw.
  change (pos (hdr ino1)) with p in Hw. set (ino2 := set_mtime _ ino1) in Hw.
  exists (put (tick f2) p ino2), ino2. split; [|split_and!].
  - unfold shfs_inode_clear. unfold fbind at 1, fcatch at 1.
    assert (clear_loop E (S (S fuel)) p1 inode f = Done (f2, Ok tt)) as Hloop.
    { cbn [clear_loop]. apply Z.eqb_neq in Z1, Z3, Z4. fold q1. rewrite Z1. unfold fbind at 1.
      rewrite (clear_block_ok E HE f p1 b1) by done. fold f1. rewrite Z3. unfold fbind at 1.
      rewrite (read_block_ok E HE f1 q1 s1) by (done || (unfold f1; by rewrite put_other by congruence)).
      fold q2. rewrite Z4. unfold fbind at 1. rewrite (clear_block_ok E HE f1 q2 s2) by done. fold f2. unfold fbind at 1.
      rewrite (read_block_ok E HE f2 q2 blank_block) by (done || by apply (put_same f1 q2 blank_block s2)).
      destruct fuel; reflexivity. }
    fold p1. rewrite Hloop. unfold fbind, fcatch, shfs_inode_write_entity. fold ino1. by rewrite Hw.
  - rewrite put_other, get_tick by done. unfold f2. rewrite (put_other f1) by congruence. by apply (put_same f p1 _ b1).
  - rewrite put_other, get_tick by done. unfold f2, f1. by rewrite !put_other by congruence.
  - rewrite put_other, get_tick by done. unfold f2, f1. by rewrite !put_other by congruence.
  - rewrite put_other, get_tick by done. by apply (put_same f1 q2 _ s2).
Qed.

(** ** Truncating *)

Section truncating.
Context (E : fsenv) (HE : env_ok E) (n len : Z) (Hn : 0 <= n <= len) (Hlen : len < 2 ^ 63).

(** The block that straddles the new end. *)
Lemma truncate_block_ok f idx b b_of :
  fs_wf f -> get f idx = Some b -> pos (hdr b) = idx -> 0 <= b_of < n ->
  n <= b_of + hsize (hdr b) -> 0 <= hsize (hdr b) <= SHFS_BLOCK_DATA_SIZE -> b_of + hsize (hdr b) <= len ->
  exists b', truncate_block E n b_of idx b f = Done (put (tick f) idx b', Ok b') /\
    npos (hdr b') = npos (hdr b) /\ length (raw b') = DSIZE /\
    take (Z.to_nat (n - b_of)) (raw b') = take (Z.to_nat (n - b_of)) (raw b).
Proof.
  intros Hf Hg Hp Hb Hle Hs Hl. change (2 ^ 63) with 9223372036854775808 in Hlen.
  pose proof (get_raw f idx b Hf Hg) as Hraw. unfold truncate_block.
  destruct (Z.leb_spec n b_of) as [|_]; [lia |]. rewrite wrap_small by rlia.
  destruct (Z.leb_spec n (b_of + hsize (hdr b))) as [_|]; [|lia].
  rewrite wrap_small, Z.min_r by (unfold SHFS_BLOCK_DATA_SIZE in *; rlia).
  assert (exists r, (if n - b_of =? SHFS_BLOCK_DATA_SIZE then Done (raw (set_size (n - b_of) b))
      else mem_write (raw (set_size (n - b_of) b)) (Z.to_nat (n - b_of))
             (replicate (Z.to_nat (SHFS_BLOCK_DATA_SIZE - (n - b_of))) 0)) = Done r /\
      length r = DSIZE /\ take (Z.to_nat (n - b_of)) r = take (Z.to_nat (n - b_of)) (raw b)) as (r & Hr & Hlr & Htr).
  { change (raw (set_size (n - b_of) b)) with (raw b). destruct (Z.eqb_spec (n - b_of) SHFS_BLOCK_DATA_SIZE); [by exists (raw b) |].
    rewrite mem_write_ok by llia. eexists. split; [done |]. split; [llia |]. rewrite take_app_le by llia.
    rewrite take_take. f_equal. lia. }
  unfold fbind at 1, fpure. rewrite Hr. set (s := set_raw r (set_size (n - b_of) b)).
  pose proof (write_block_ok E HE f (set_crc (shfs_crc_init s) s) b Hf) as Hw. cbn zeta in Hw.
  change (pos (hdr (set_crc (shfs_crc_init s) s))) with (pos (hdr b)) in Hw. rewrite Hp in Hw.
  eexists. split; [by apply Hw |]. split_and!; [done | exact Hlr | exact Htr].
Qed.

(** Past the new end every block is cleared. *)
Lemma truncate_tail_ok bs : forall fuel f b_of c idx,
  fs_wf f -> chain f idx bs -> sized (len - b_of) bs -> n <= b_of <= len -> (length bs <= fuel)%nat ->
  exists f' c', truncate_loop E fuel n b_of c idx f = Done (f', Ok c') /\ fs_wf f' /\
    (forall q, q ∈ positions bs -> get f' q = Some blank_block) /\
    (forall q, q ∉ positions bs -> get f' q = get f q).
Proof.
  change (2 ^ 63) with 9223372036854775808 in Hlen.
  induction bs as [|b bs IH]; intros fuel f b_of c idx Hf Hc Hsz Hb Hfuel.
  { exists f, c. cbn in Hc. split; [by destruct fuel; cbn [truncate_loop]; rewrite Hc |].
    split_and!; [done | by intros q ?%elem_of_nil | done]. }
  destruct Hsz as [Hs Hsz].
  pose proof (chain_head f idx b bs Hc) as Hnin. pose proof Hc as (Hi & Hg & Hp & _ & Hc').
  destruct fuel as [|fuel]; [cbn in Hfuel; lia |]. pose proof (proj1 (get_inv _ _ _ Hg)) as Hpos.
  set (f1 := put f idx blank_block).
  assert (0 <= hsize (hdr b) <= len - b_of) as Hsb by (unfold SHFS_BLOCK_DATA_SIZE in *; lia).
  destruct (IH fuel f1 (b_of + hsize (hdr b)) (u64 (c + hcrc (hdr b))) (npos (hdr b))) as (f' & c' & He & Hf' & Hcl & Hfr).
  { apply put_wf; [done | apply blank_raw]. } { by apply chain_put. }
  { rewrite <- Hs in Hsz. by replace (len - (b_of + hsize (hdr b))) with (len - b_of - hsize (hdr b)) by lia. }
  { lia. } { cbn in Hfuel. lia. }
  assert (get f' idx = Some blank_block) as Hidx by (rewrite Hfr by done; by apply (put_same f idx _ b)).
  exists f', c'. split; [|split_and!; [done | |]].
  - cbn [truncate_loop]. apply Z.eqb_neq in Hi. rewrite Hi. unfold fbind at 1.
    rewrite (read_block_ok E HE f idx b) by done. unfold fbind at 1, truncate_block.
    destruct (Z.leb_spec n b_of) as [_|]; [|lia]. unfold fbind at 1.
    rewrite (clear_block_ok E HE f idx b) by done. fold f1. unfold fret at 1. by rewrite wrap_small by rlia.
  - intros q [->|Hq]%elem_of_cons; [by rewrite Hp | by apply Hcl].
  - intros q [Hq1 Hq2]%not_elem_of_cons. rewrite Hfr by done. apply put_other; [done | congruence].
Qed.

(** The list after truncation; the blocks past the new end are blank, the first
    of them still linked. *)
Definition truncated (f f' : fs) (b_of : Z) (idx : shfs_idx_t) (bs bs' : list shfs_block_t) : Prop :=
  fs_wf f' /\ (length bs' <= length bs)%nat /\
  (forall g, (forall q, q ∈ positions bs -> get g q = get f' q) -> list_at g idx bs') /\
  take (Z.to_nat (n - b_of)) (concat (map raw bs')) = take (Z.to_nat (n - b_of)) (concat (map raw bs)) /\
  (forall q, q ∉ positions bs -> get f' q = get f q).

Lemma truncated_tail f f' b_of idx bs :
  chain f idx bs -> n <= b_of -> fs_wf f' ->
  (forall q, q ∈ positions bs -> get f' q = Some blank_block) ->
  (forall q, q ∉ positions bs -> get f' q = get f q) ->
  truncated f f' b_of idx bs (match bs with [] => [] | _ => [blank_block] end).
Proof.
  intros Hc Hb Hf' Hcl Hfr. split_and!; [done | | | by replace (Z.to_nat (n - b_of)) with O by lia | done].
  - destruct bs; cbn; lia.
  - intros g Hg. destruct bs as [|b bs]; [done |]. destruct Hc as (Hi & _ & Hp & _).
    assert (idx ∈ positions (b :: bs)) as Hin by (cbn; rewrite Hp; apply list_elem_of_here).
    split; [done |]. rewrite Hg by done. split; [by apply Hcl | done].
Qed.

(** A block in front of a truncated list. *)
Lemma truncated_cons f f1 f' b_of idx b b' bs bs' :
  chain f idx (b :: bs) -> get f1 idx = Some b' -> npos (hdr b') = npos (hdr b) -> length (raw b) = DSIZE ->
  length (raw b') = DSIZE -> take (Z.to_nat (n - b_of)) (raw b') = take (Z.to_nat (n - b_of)) (raw b) ->
  (forall q, q <> idx -> get f1 q = get f q) ->
  (n <= b_of + hsize (hdr b) -> n - b_of <= SHFS_BLOCK_DATA_SIZE) ->
  (b_of + hsize (hdr b) < n -> hsize (hdr b) = SHFS_BLOCK_DATA_SIZE) ->
  truncated f1 f' (b_of + hsize (hdr b)) (npos (hdr b)) bs bs' ->
  truncated f f' b_of idx (b :: bs) (b' :: bs').
Proof.
  intros Hc Hg' Hnp Hr Hr' Ht Hfr1 Hs1 Hs2 (Hf' & Hl & Hlist & Htake & Hfr).
  pose proof (chain_head f idx b bs Hc) as Hnin. destruct Hc as (Hi & _ & Hp & _ & _).
  split_and!; [done | cbn; lia | | |].
  - intros g Hg. split; [done |]. split.
    + rewrite Hg; [by rewrite Hfr | cbn; rewrite Hp; apply list_elem_of_here].
    + rewrite Hnp. apply Hlist. intros q Hq. apply Hg. by right.
  - cbn [map concat]. rewrite !take_app, Ht, Hr, Hr'. f_equal.
    destruct (Z.le_gt_cases n (b_of + hsize (hdr b))) as [Hle|Hgt].
    + specialize (Hs1 Hle). by replace (Z.to_nat (n - b_of) - DSIZE)%nat with O by lia.
    + rewrite (Hs2 Hgt) in Htake. by replace (Z.to_nat (n - b_of) - DSIZE)%nat with (Z.to_nat (n - (b_of + SHFS_BLOCK_DATA_SIZE)))
        by (unfold SHFS_BLOCK_DATA_SIZE; lia).
  - intros q [Hq1 Hq2]%not_elem_of_cons. rewrite Hfr by done. apply Hfr1. congruence.
Qed.

Lemma truncate_loop_ok bs : forall fuel f b_of c idx,
  fs_wf f -> chain f idx bs -> sized (len - b_of) bs -> 0 <= b_of <= len -> (length bs <= fuel)%nat ->
  exists f' c' bs', truncate_loop E fuel n b_of c idx f = Done (f', Ok c') /\ truncated f f' b_of idx bs bs'.
Proof.
  induction bs as [|b bs IH]; intros fuel f b_of c idx Hf Hc Hsz Hb Hfuel;
    (destruct (Z.le_gt_cases n b_of) as [Hle|Hgt];
      [destruct (truncate_tail_ok _ fuel f b_of c idx Hf Hc Hsz (conj Hle (proj2 Hb)) Hfuel) as (f' & c' & He & Hf' & H1 & H2);
       eexists f', c', _; split; [exact He | by apply truncated_tail] |]).
  { exists f, c, []. cbn in Hc. split; [by destruct fuel; cbn [truncate_loop]; rewrite Hc |]. by split_and!. }
  change (2 ^ 63) with 9223372036854775808 in Hlen. destruct Hsz as [Hs Hsz]. rewrite <- Hs in Hsz.
  pose proof (chain_head f idx b bs Hc) as Hnin. pose proof Hc as (Hi & Hg & Hp & _ & Hc').
  pose proof (get_raw f idx b Hf Hg) as Hraw. pose proof (proj1 (get_inv _ _ _ Hg)) as Hpos.
  destruct fuel as [|fuel]; [cbn in Hfuel; lia |]. cbn [length] in Hfuel.
  assert (0 <= hsize (hdr b) <= len - b_of /\ hsize (hdr b) <= SHFS_BLOCK_DATA_SIZE) as [Hsb Hsb2]
    by (unfold SHFS_BLOCK_DATA_SIZE in *; lia).
  replace (len - b_of - hsize (hdr b)) with (len - (b_of + hsize (hdr b))) in Hsz by lia.
  cbn [truncate_loop]. apply Z.eqb_neq in Hi. rewrite Hi. unfold fbind at 1.
  rewrite (read_block_ok E HE f idx b) by done. unfold fbind at 1.
  destruct (Z.le_gt_cases n (b_of + hsize (hdr b))) as [Hin|Hout].
  - destruct (truncate_block_ok f idx b b_of Hf Hg Hp) as (b' & -> & Hnp & Hr' & Ht'); [lia | lia | lia | lia |].
    rewrite wrap_small, Hnp by rlia. set (f1 := put (tick f) idx b').
    assert (forall q, q <> idx -> get f1 q = get f q) as Hfr1 by (intros q Hq; unfold f1; by rewrite put_other).
    destruct (IH fuel f1 (b_of + hsize (hdr b)) (u64 (c + hcrc (hdr b'))) (npos (hdr b)))
      as (f' & c' & bs' & He & Htr); [by apply (put_wf (tick f)) | | done | lia | lia |].
    { apply (chain_frame f); [done |]. intros q x Hq. by rewrite Hfr1 by (by intros ->). }
    exists f', c', (b' :: bs'). split; [done |].
    apply (truncated_cons f f1); try done; [by apply (put_same (tick f) idx b' b) | lia | lia].
  - unfold truncate_block. destruct (Z.leb_spec n b_of) as [|_]; [lia |]. rewrite wrap_small by rlia.
    destruct (Z.leb_spec n (b_of + hsize (hdr b))) as [|_]; [lia |]. unfold fret at 1.
    destruct (IH fuel f (b_of + hsize (hdr b)) (u64 (c + hcrc (hdr b))) (npos (hdr b)))
      as (f' & c' & bs' & He & Htr); [done | done | done | lia | lia |].
    exists f', c', (b :: bs'). split; [done |]. apply (truncated_cons f f); try done; [lia |].
    intros _. unfold SHFS_BLOCK_DATA_SIZE in *. lia.
Qed.
End truncating.

(** C35: Truncating a file to fewer bytes succeeds, stores the inode with the new
    size, changes no block in use outside the file, and leaves the file with the
    first bytes of its data: that is what every later read returns. *)
Theorem shfs_inode_truncate_pread E B fuel f inode bs d n :
  env_ok E -> (forall m, calloc_ok B m = true) -> fs_wf f -> linked f inode -> htype (hdr inode) = SHINODE_BINARY ->
  holds f inode bs d -> 0 <= n < Z.of_nat (length d) -> Z.of_nat (length d) < 2 ^ 63 -> (length bs <= fuel)%nat ->
  exists f' inode', shfs_inode_truncate E fuel inode n f = Done (f', Ok (inode', 0)) /\
    fs_wf f' /\ get f' (pos (hdr inode)) = Some inode' /\ hsize (hdr inode') = n /\
    keeps f f' (pos (hdr inode) :: positions bs) /\
    forall rfuel rseek rbuf, (length bs <= rfuel)%nat -> 0 <= rseek < 2 ^ 63 -> accepts rbuf n ->
      exists rbuf', shfs_aux_pread E B rfuel inode' rbuf rseek 0 f' = Done (f', Ok (rbuf', 0)) /\
        contents rbuf' = contents rbuf ++ drop (Z.to_nat rseek) (take (Z.to_nat n) d).
Proof.
  intros HE HB Hf (Hraw & ib & Hib & Hio & Hit) Hty (Hc & Hs & Hd & Hsz) Hn Hlen Hfuel.
  destruct (truncate_loop_ok E HE n (Z.of_nat (length d)) ltac:(lia) Hlen bs fuel f 0 0 (fpos (hdr inode)))
    as (f1 & c & bs' & He & (Hf1 & Hl & Hlist & Htake & Hfr)); [done | done | by rewrite Z.sub_0_r | lia | done |].
  rewrite Z.sub_0_r in Htake.
  assert (pos (hdr inode) ∉ positions bs) as Hnin.
  { intros (b & Hb & Hp)%elem_of_positions. destruct (chain_occupied f _ bs b Hc Hb) as [Hgb Htb].
    rewrite Hp in Hgb. congruence. }
  set (ino1 := set_size n (set_mtime (clock E (ticks f1)) (set_crc c inode))).
  assert (get (tick f1) (pos (hdr ino1)) = Some ib) as Hib1 by (rewrite get_tick; change (pos (hdr ino1)) with (pos (hdr inode)); by rewrite Hfr).
  pose proof (write_block_ok E HE (tick f1) ino1 ib Hf1 Hib1) as Hw. cbn zeta in Hw.
  change (pos (hdr ino1)) with (pos (hdr inode)) in *. set (ino2 := set_mtime _ ino1) in Hw.
  set (f2 := put (tick (tick f1)) (pos (hdr inode)) ino2) in *. pose proof (proj1 (get_inv _ _ _ Hib)) as Hpos.
  assert (length (take (Z.to_nat n) d) = Z.to_nat n) as Hln by llia.
  assert (fs_wf f2) as Hf2 by (by apply (put_wf (tick (tick f1)))).
  assert (get f2 (pos (hdr inode)) = Some ino2) as Hg2 by (by apply (put_same (tick (tick f1)) _ ino2 ib)).
  exists f2, ino2. split; [|split_and!; try done].
  - unfold shfs_inode_truncate. rewrite Hs.
    assert (negb (htype (hdr inode) =? SHINODE_BINARY) = false) as -> by (by rewrite Hty).
    destruct (Z.eqb_spec (Z.of_nat (length d)) n); [lia |]. destruct (Z.ltb_spec n (Z.of_nat (length d))) as [_|]; [|lia].
    unfold fbind at 1, fcatch at 1. unfold fbind at 1. rewrite He. unfold fret at 1. unfold fbind at 1, shtime.
    unfold fbind, fcatch, shfs_inode_write_entity. fold (tick f1). fold ino1. by rewrite Hw.
  - intros q x Hq Ho [Hq1 Hq2]%not_elem_of_cons. unfold f2. rewrite put_other by congruence. rewrite !get_tick. by rewrite Hfr.
  - intros rfuel rseek rbuf Hrf Hrs Hacc.
    apply (pread_list E B f2 ino2 bs'); try done; rewrite ?Hln, ?Z2Nat.id; try lia; try done.
    + apply Hlist. intros q Hq. unfold f2. rewrite put_other by (congruence || by intros ->). by rewrite !get_tick.
    + rewrite Htake, <- Hd, take_take. f_equal. lia.
Qed.

(** A directory entry with two data blocks, followed by two other entries. *)
Definition two_inode : shfs_block_t := set_fpos (mk_idx 1 6) (dir_blk SHINODE_BINARY 7 4 4000).
Definition two_first : shfs_block_t := dir_blk SHINODE_AUX 6 5 3976.
Definition two_second : shfs_block_t := set_npos idx_none (dir_blk SHINODE_AUX 5 0 24).
Definition two_fs : fs :=
  mk_fs {[ 1 := mk_journal [blank_block; blank_block; blank_block; dir_blk SHINODE_FILE 3 0 0;
                            dir_blk SHINODE_FILE 4 3 0; two_second; two_first; two_inode] true ]} 0.

Lemma two_fs_wf : fs_wf two_fs.
Proof.
  apply map_Forall_singleton. split; [split; done |]. split; [done |]. split; [exists 1; done |].
  cbn [jblocks]. repeat (apply List.Forall_cons; [apply blank_raw |]). apply List.Forall_nil.
Qed.

Lemma two_holds : holds two_fs two_inode [two_first; two_second] (replicate 4000 0).
Proof.
  split; [|split; [reflexivity | split; [vm_compute; reflexivity |]]].
  2: split; [reflexivity | split; [reflexivity | exact I]].
  cbn [chain]. split_and!; (exact eq_refl || (vm_compute; discriminate)).
Qed.

Lemma two_linked : linked two_fs two_inode.
Proof. split; [apply blank_raw |]. exists two_inode. split_and!; [reflexivity | reflexivity | discriminate]. Qed.

Lemma shfs_inode_clear_sibling_witness :
  exists f' inode', shfs_inode_clear demo_fsenv 2 two_inode two_fs = Done (f', Ok (inode', 0)) /\
    get f' (mk_idx 1 5) = Some two_second /\ get f' (mk_idx 1 3) = Some blank_block.
Proof.
  destruct (shfs_inode_clear_sibling demo_fsenv 0 two_fs two_inode two_first two_second
    (dir_blk SHINODE_FILE 4 3 0) (dir_blk SHINODE_FILE 3 0 0) two_inode) as (f' & inode' & H1 & _ & H2 & _ & H3).
  - exact demo_fsenv_ok.
  - exact two_fs_wf.
  - apply (bool_decide_unpack _). reflexivity.
  - apply blank_raw.
  - discriminate.
  - discriminate.
  - discriminate.
  - discriminate.
  - reflexivity.
  - reflexivity.
  - reflexivity.
  - reflexivity.
  - reflexivity.
  - exists f', inode'. split; [exact H1 |]. split; [exact H2 | exact H3].
Defined.

Lemma shfs_inode_truncate_pread_witness :
  exists f' inode', shfs_inode_truncate demo_fsenv 2 two_inode 10 two_fs = Done (f', Ok (inode', 0)) /\
    exists rbuf', shfs_aux_pread demo_fsenv (demo_env true) 2 inode' shbuf_init 7 0 f' = Done (f', Ok (rbuf', 0)) /\
      contents rbuf' = [0; 0; 0].
Proof.
  destruct (shfs_inode_truncate_pread demo_fsenv (demo_env true) 2 two_fs two_inode [two_first; two_second] (replicate 4000 0) 10)
    as (f' & inode' & H1 & _ & _ & _ & _ & H2).
  - exact demo_fsenv_ok.
  - done.
  - exact two_fs_wf.
  - exact two_linked.
  - reflexivity.
  - exact two_holds.
  - split; [discriminate | reflexivity].
  - reflexivity.
  - constructor.
  - exists f', inode'. split; [exact H1 |].
    destruct (H2 2%nat 7 shbuf_init) as (r & H3 & H4); [constructor | split; [discriminate | reflexivity]
      | split; [apply wf_init | split; [reflexivity | discriminate]] |].
    exists r. split; [exact H3 |]. rewrite H4. reflexivity.
Defined.

(** A write to a file whose list goes on with a cleared block, as
    [shfs_inode_truncate] leaves it, ends at that block and reports success: of a
    buffer of two blocks only the first is stored, and reading the file returns
    zeros for the rest. *)
Theorem shfs_aux_write_cleared_link E B fuel f inode b1 buff rbuf rfuel :
  env_ok E -> (forall m, calloc_ok B m = true) -> fs_wf f -> writable buff ->
  SHFS_BLOCK_DATA_SIZE < data_of buff <= 2 * SHFS_BLOCK_DATA_SIZE ->
  linked f inode -> NoDup [pos (hdr inode); fpos (hdr inode); npos (hdr b1)] ->
  ino (fpos (hdr inode)) <> 0 -> get f (fpos (hdr inode)) = Some b1 -> pos (hdr b1) = fpos (hdr inode) ->
  htype (hdr b1) = SHINODE_AUX -> ino (npos (hdr b1)) <> 0 -> get f (npos (hdr b1)) = Some blank_block ->
  accepts rbuf (data_of buff) -> (2 <= rfuel)%nat ->
  exists f' inode' rbuf', shfs_aux_write E (S fuel) inode (Some buff) f = Done (f', Ok (inode', 0)) /\
    shfs_aux_read E B rfuel inode' rbuf f' = Done (f', Ok (rbuf', 0)) /\
    contents rbuf' = contents rbuf ++ take DSIZE (contents buff)
                       ++ replicate (Z.to_nat (data_of buff - SHFS_BLOCK_DATA_SIZE)) 0.
Proof.
  intros HE HB Hf Hbuff HL (Hraw & ib & Hib & Hio & Hit) Hnd Z1 G1 Hp Ht Z2 G2 Hacc Hrf.
  repeat (apply NoDup_cons in Hnd as [?Hn Hnd]). rewrite !not_elem_of_cons in *.
  set (p := pos (hdr inode)) in *. set (p1 := fpos (hdr inode)) in *. set (p2 := npos (hdr b1)) in *.
  assert (p <> p1 /\ p <> p2 /\ p1 <> p2) as (N1 & N2 & N3) by tauto.
  assert (data_of buff < 9223372036854775808) as HL2 by apply Hbuff.
  pose proof (contents_length buff (proj1 Hbuff)) as Hcl. pose proof (get_raw f p1 b1 Hf G1) as Hr1.
  assert (block_len buff 0 = SHFS_BLOCK_DATA_SIZE) as Hlen0 by (unfold block_len; lia).
  assert (pwrite_next E buff b1 0 (block_len buff 0) f = Done (f, Ok (b1, blank_block))) as Hnext.
  { unfold pwrite_next. fold p2. apply Z.eqb_neq in Z2. rewrite Z2. unfold fbind.
    by rewrite (read_block_ok E HE f p2 blank_block). }
  set (st := mk_ws b1 b1 0 0 0). rewrite <- Hp in G1.
  destruct (pwrite_step_eq E HE buff Hbuff 0 ltac:(lia) f st b1 b1 blank_block f b1)
    as (f2 & st1 & b2 & He & H1 & H2 & H3 & H4 & H5 & Hwr & Hnp2 & Hg2 & Hoth & Hf2 & _);
    [done | done | done | cbn [w_of st]; lia | done | done | done | exists p2; unfold p2; by rewrite set_npos_id | done | by left |].
  rewrite Hp in Hg2, Hoth, G1. fold p2 in Hnp2. destruct Hwr as (_ & _ & Hl2 & _ & Hby). cbn [w_of st] in Hby.
  rewrite Hlen0 in Hby. change (Z.to_nat (0 - 0)) with O in Hby. unfold overlay in Hby. rewrite !take_0, drop_0 in Hby.
  change (Z.to_nat 0) with O in Hby. rewrite drop_0, (take_ge (raw b2)) in Hby by lia. cbn [app] in Hby.
  set (ino1 := set_size (data_of buff) (set_crc (w_crc st1) inode)).
  assert (get f2 (pos (hdr ino1)) = Some ib) as Hib2 by (change (pos (hdr ino1)) with p; by rewrite Hoth).
  pose proof (write_block_ok E HE f2 ino1 ib Hf2 Hib2) as Hw. cbn zeta in Hw.
  change (pos (hdr ino1)) with p in *. set (ino2 := set_mtime _ ino1) in Hw. set (f3 := put (tick f2) p ino2) in *.
  pose proof (proj1 (get_inv _ _ _ Hib)) as Hpos. assert (fs_wf f3) as Hf3 by (by apply (put_wf (tick f2))).
  assert (forall q, q <> p -> get f3 q = get f2 q) as Hfr3 by (intros q Hq; unfold f3; by rewrite put_other by congruence).
  set (d := take DSIZE (contents buff) ++ replicate (Z.to_nat (data_of buff - SHFS_BLOCK_DATA_SIZE)) 0).
  assert (Z.of_nat (length d) = data_of buff) as Hd by (unfold d, SHFS_BLOCK_DATA_SIZE in *; llia).
  destruct (pread_list E B f3 ino2 [b2; blank_block] d rfuel 0 rbuf) as (rbuf' & Hr & Hcon); try done.
  { change (fpos (hdr ino2)) with p1. split; [done |]. split; [rewrite Hfr3 by congruence; done |]. rewrite Hnp2. split; [done |].
    split; [rewrite Hfr3, Hoth by congruence; done | done]. }
  { unfold d. cbn [map concat]. change (raw blank_block) with (replicate DSIZE 0). rewrite app_nil_r, take_app.
    assert (length d = (DSIZE + Z.to_nat (data_of buff - SHFS_BLOCK_DATA_SIZE))%nat) as Hld by (unfold SHFS_BLOCK_DATA_SIZE in *; lia).
    fold d. rewrite Hl2, Hld, take_zeros by (unfold SHFS_BLOCK_DATA_SIZE in *; lia).
    f_equal; [|f_equal; lia]. by rewrite (take_ge (raw b2)) by lia. }
  { rewrite Hd. apply Hbuff. } { by rewrite Hd. }
  exists f3, ino2, rbuf'. split; [|split; [exact Hr | exact Hcon]].
  unfold shfs_aux_write, shfs_aux_pwrite. unfold fbind at 1, fcatch at 1. unfold pwrite_first. fold p1.
  destruct (Z.eqb_spec (ino p1) 0) as [|_]; [done |]. unfold fbind at 1. rewrite (read_block_ok E HE f p1 b1) by done.
  unfold fret at 1. fold st. unfold fbind at 1, fcatch at 1.
  rewrite (pwrite_loop_S E fuel buff 0 st f f2 st1 He) by (cbn [st w_blk]; by rewrite Hp).
  assert (pwrite_loop E fuel buff 0 st1 f2 = Done (f2, Ok (w_crc st1))) as -> by (destruct fuel; cbn [pwrite_loop]; by rewrite H1).
  unfold fbind, fcatch, shfs_inode_write_entity. fold ino1. by rewrite Hw.
Qed.

Definition cut_fs : fs :=
  mk_fs {[ 1 := mk_journal (replicate 6 blank_block ++ [two_first; two_inode]) true ]} 0.

Lemma cut_fs_wf : fs_wf cut_fs.
Proof.
  apply map_Forall_singleton. split; [split; done |]. split; [done |]. split; [exists 1; done |].
  apply Forall_app. split; [apply Forall_replicate, blank_raw |].
  repeat (apply List.Forall_cons; [apply blank_raw |]). apply List.Forall_nil.
Qed.

Lemma shfs_aux_write_cleared_link_witness :
  exists f' inode' rbuf', shfs_aux_write demo_fsenv 1 two_inode (Some (shbuf_map (replicate 4000 65))) cut_fs = Done (f', Ok (inode', 0)) /\
    shfs_aux_read demo_fsenv (demo_env true) 2 inode' shbuf_init f' = Done (f', Ok (rbuf', 0)) /\
    contents rbuf' <> replicate 4000 65.
Proof.
  destruct (shfs_aux_write_cleared_link demo_fsenv (demo_env true) 0 cut_fs two_inode two_first (shbuf_map (replicate 4000 65)) shbuf_init 2)
    as (f' & inode' & rbuf' & H1 & H2 & H3).
  - exact demo_fsenv_ok.
  - done.
  - exact cut_fs_wf.
  - split; [split; [done | reflexivity] | reflexivity].
  - done.
  - split; [apply blank_raw |]. exists two_inode. split_and!; [reflexivity | reflexivity | discriminate].
  - apply (bool_decide_unpack _). reflexivity.
  - discriminate.
  - reflexivity.
  - reflexivity.
  - reflexivity.
  - discriminate.
  - reflexivity.
  - split; [apply wf_init | split; [reflexivity | discriminate]].
  - constructor.
  - exists f', inode', rbuf'. split; [exact H1 |]. split; [exact H2 |]. rewrite H3. vm_compute. discriminate.
Defined.

(** The limit of a read is not kept: from the start of a file of at least one
    block, any limit below a block's 3976 bytes returns 3976 bytes. *)
Theorem shfs_aux_pread_limit E B fuel f inode b bs d m rbuf :
  env_ok E -> (forall n, calloc_ok B n = true) -> fs_wf f -> holds f inode (b :: bs) d ->
  SHFS_BLOCK_DATA_SIZE <= Z.of_nat (length d) < 2 ^ 63 -> 0 < m < SHFS_BLOCK_DATA_SIZE ->
  accepts rbuf SHFS_BLOCK_DATA_SIZE ->
  exists rbuf', shfs_aux_pread E B (S fuel) inode rbuf 0 m f = Done (f, Ok (rbuf', 0)) /\
    contents rbuf' = contents rbuf ++ take DSIZE d.
Proof.
  intros HE HB Hf (Hc & Hs & Hd & _) Hlen Hm Hacc. change (2 ^ 63) with 9223372036854775808 in Hlen.
  pose proof (chain_wf f _ b bs Hf Hc) as Hraw. destruct Hc as (Hi & Hg & _).
  destruct (cat_raw_ok B HB rbuf b 0 SHFS_BLOCK_DATA_SIZE SHFS_BLOCK_DATA_SIZE) as (rbuf' & He & _ & Hcon); [done | lia | done | lia | done |].
  exists rbuf'. split.
  - unfold shfs_aux_pread. cbn [Z.eqb negb andb pread_loop]. apply Z.eqb_neq in Hi. rewrite Hi, Hs. unfold fbind at 1, fcatch.
    rewrite (read_block_ok E HE f _ b) by done. rewrite Z.sub_0_r, (wrap_small 64 (Z.of_nat _)), Z.min_l by rlia.
    unfold fbind at 1, fpure, pread_block. cbn [Z.eqb orb]. rewrite (proj1 (proj2 Hacc)). cbn [andb]. rewrite He.
    rewrite Z.add_0_r, Z.add_0_l, !wrap_small by (unfold SHFS_BLOCK_DATA_SIZE in *; rlia).
    destruct (Z.eqb_spec m 0); [lia |]. destruct (Z.ltb_spec m SHFS_BLOCK_DATA_SIZE); [done | lia].
  - rewrite Hcon. f_equal. change (Z.to_nat 0) with O. rewrite drop_0. rewrite <- Hd. cbn [map concat].
    rewrite take_take, take_app_le by lia. f_equal. lia.
Qed.

Lemma shfs_aux_pread_limit_witness :
  exists rbuf', shfs_aux_pread demo_fsenv (demo_env true) 1 two_inode shbuf_init 0 10 two_fs = Done (two_fs, Ok (rbuf', 0)) /\
    length (contents rbuf') = DSIZE.
Proof.
  destruct (shfs_aux_pread_limit demo_fsenv (demo_env true) 0 two_fs two_inode two_first [two_second] (replicate 4000 0) 10 shbuf_init)
    as (r & H1 & H2).
  - exact demo_fsenv_ok.
  - done.
  - exact two_fs_wf.
  - exact two_holds.
  - split; [discriminate | reflexivity].
  - split; reflexivity.
  - split; [apply wf_init | split; [reflexivity | discriminate]].
  - exists r. split; [exact H1 |]. rewrite H2. vm_compute. reflexivity.
Defined.
