(* ===== verification/ShFsLink.v ===== *)
(** * Directories: lists of linked inodes

    Models [share-lib/fs/shfs_link.c] and the name token of
    [share-lib/fs/shfs_inode.c].  The entries of a container inode are a list of
    inode blocks linked by [npos] that starts at the container's [fpos]; linking
    an inode stores it in a free slot and puts it in front of the list.

    The abstract value of a directory is the map from names to inode blocks; the
    theorems show that [shfs_link_find] looks a name up in it and that
    [shfs_link] adds to it. *)

From Stdlib Require Import ZArith Lia String.
From stdpp Require Import base numbers list gmap.
From S2P Require Import Prelude ShCrc ShKey ShFs ShFsAux.

Open Scope Z_scope.

Section operations.
Context (E : fsenv).

(** The list walk of [shfs_link_find]; an entry that is its own successor is an
    error. *)
Fixpoint find_loop (fuel : nat) (key : shkey_t) (idx : shfs_idx_t) : fsm shfs_block_t :=
  if ino idx =? 0 then ferr SHERR_NOENT
  else match fuel with
       | O => fault
       | S fuel' =>
           blk <~ shfs_inode_read_block E idx;
           if decide (npos (hdr blk) = idx) then ferr SHERR_IO
           else if decide (hname (hdr blk) = key) then fret blk
           else find_loop fuel' key (npos (hdr blk))
       end.

Definition shfs_link_find (fuel : nat) (parent : option shfs_block_t) (key : shkey_t) : fsm shfs_block_t :=
  match parent with
  | None => ferr SHERR_NOENT
  | Some parent =>
      if negb (IS_INODE_CONTAINER (htype (hdr parent))) then ferr SHERR_INVAL
      else find_loop fuel key (fpos (hdr parent))
  end.

Fixpoint count_loop (fuel : nat) (ret_tot : Z) (idx : shfs_idx_t) : fsm Z :=
  if ino idx =? 0 then fret ret_tot
  else match fuel with
       | O => fault
       | S fuel' =>
           blk <~ shfs_inode_read_block E idx;
           if decide (npos (hdr blk) = idx) then ferr SHERR_IO
           else count_loop fuel' (if htype (hdr blk) =? SHINODE_NULL then ret_tot else ret_tot + 1) (npos (hdr blk))
       end.

Definition shfs_link_count (fuel : nat) (parent : option shfs_block_t) : fsm Z :=
  match parent with
  | None => ferr SHERR_NOENT
  | Some parent =>
      if negb (IS_INODE_CONTAINER (htype (hdr parent))) then ferr SHERR_INVAL
      else count_loop fuel 0 (fpos (hdr parent))
  end.

(** The blocks of the parent and of the inode in memory, and the error code. *)
Definition link_result : Type := shfs_block_t * shfs_block_t * Z.

(** From the position on: the inode is stored and made the first entry. *)
Definition link_store (parent inode : shfs_block_t) : fsm link_result :=
  t <~ shtime E;
  let inode := set_ctime t (set_mtime t inode) in
  let inode := set_crc (shfs_crc_init inode) inode in
  r <~ fcatch (shfs_inode_write_block E inode);
  match r with
  | inr e => fret (parent, inode, e)
  | inl inode =>
      let parent := set_fpos (pos (hdr inode)) parent in
      r <~ fcatch (shfs_inode_write_block E parent);
      match r with
      | inr e => fret (parent, inode, e)
      | inl parent => fret (parent, inode, 0)
      end
  end.

Definition shfs_link (fuel : nat) (parent : option shfs_block_t) (inode : shfs_block_t)
    : fsm (option shfs_block_t * shfs_block_t * Z) :=
  match parent with
  | None => fret (None, inode, SHERR_NOENT)
  | Some parent =>
      if negb (IS_INODE_CONTAINER (htype (hdr parent))) then fret (Some parent, inode, SHERR_NOTDIR)
      else
        r <~ fcatch (shfs_link_find fuel (Some parent) (hname (hdr inode)));
        match r with
        | inl _ => fret (Some parent, inode, 0)
        | inr _ =>
            r <~ fcatch (if ino (fpos (hdr parent)) =? 0 then fret blank_block
                         else shfs_inode_read_block E (fpos (hdr parent)));
            match r with
            | inr e => fret (Some parent, inode, e)
            | inl nblk =>
                let inode := set_pos idx_none (set_npos (pos (hdr nblk)) inode) in
                r <~ fcatch (shfs_journal_scan E (Some (hname (hdr inode))));
                match r with
                | inr e => fret (Some parent, inode, e)
                | inl p =>
                    r <~ link_store parent (match p with Some i => set_pos i inode | None => inode end);
                    let '(parent, inode, e) := r in fret (Some parent, inode, e)
                end
            end
        end
  end.

End operations.

(** The key of an inode: parent name, mode, file name and the parent's salt. *)
Definition SHFS_PATH_MAX : Z := SHFS_BLOCK_DATA_SIZE - 34.

Definition token_image (parent : option shfs_block_t) (mode : Z) (fname : option bytes) : bytes :=
  match parent with Some p => shkey_image (hname (hdr p)) | None => [] end
  ++ le_bytes 4 mode
  ++ match fname with
     | Some s =>
         let s := cstring s in
         let fname_len := Z.to_nat (Z.min (SHFS_PATH_MAX + 1) (Z.of_nat (length s) + 1)) in
         take fname_len (s ++ [0])
     | None => []
     end
  ++ match parent with Some p => le_bytes 2 (hsalt (hdr p)) | None => [] end.

Definition shfs_token_init (parent : option shfs_block_t) (mode : Z) (fname : option bytes) : shkey_t :=
  shkey_bin (Some (token_image parent mode fname)).

(** ** Entry lists *)

Fixpoint entries (f : fs) (p : shfs_idx_t) (bs : list shfs_block_t) : Prop :=
  match bs with
  | [] => ino p = 0
  | b :: bs' => ino p <> 0 /\ get f p = Some b /\ pos (hdr b) = p /\ occupied b = true /\ npos (hdr b) <> p /\
                entries f (npos (hdr b)) bs'
  end.

Definition dir_find (key : shkey_t) (bs : list shfs_block_t) : option shfs_block_t :=
  List.find (fun b => bool_decide (hname (hdr b) = key)) bs.

Lemma entries_frame f f' p bs :
  entries f p bs -> (forall q b, q ∈ positions bs -> get f q = Some b -> occupied b = true -> get f' q = Some b) ->
  entries f' p bs.
Proof.
  revert p. induction bs as [|b bs IH]; intros p; [done |]. intros (Hi & Hg & Hp & Ho & Hn & He) Hf.
  split_and!; try done.
  - apply Hf; [|done..]. rewrite <- Hp. apply list_elem_of_here.
  - apply IH; [done |]. intros q c Hq. apply Hf. by right.
Qed.

Lemma entries_stored f p bs b : entries f p bs -> b ∈ bs -> get f (pos (hdr b)) = Some b /\ occupied b = true.
Proof.
  revert p. induction bs as [|c bs IH]; intros p He; [by intros ?%elem_of_nil |].
  destruct He as (_ & Hg & Hp & Ho & _ & He). intros [->|Hin]%elem_of_cons; [by rewrite Hp | by eapply IH].
Qed.

Section lemmas.
Context (E : fsenv) (HE : env_ok E).

Lemma find_loop_ok f key bs : fs_wf f -> forall fuel idx,
  entries f idx bs -> (length bs <= fuel)%nat ->
  find_loop E fuel key idx f =
    Done (f, match dir_find key bs with Some b => Ok b | None => Err SHERR_NOENT end).
Proof.
  intros Hf. induction bs as [|b bs IH]; intros fuel idx He Hfuel.
  { cbn in He. destruct fuel; cbn [find_loop]; by rewrite He. }
  destruct He as (Hi & Hg & Hp & Ho & Hn & He). destruct fuel as [|fuel]; [cbn in Hfuel; lia |].
  cbn [find_loop]. apply Z.eqb_neq in Hi. rewrite Hi. unfold fbind. rewrite (read_block_ok E HE f idx b) by done.
  rewrite decide_False by done. unfold dir_find. cbn [List.find]. case_decide as Hk.
  - by rewrite bool_decide_eq_true_2.
  - rewrite bool_decide_eq_false_2 by done. apply IH; [done | cbn in Hfuel; lia].
Qed.

Lemma count_loop_ok f bs : fs_wf f -> forall fuel idx n,
  entries f idx bs -> (length bs <= fuel)%nat ->
  count_loop E fuel n idx f = Done (f, Ok (n + Z.of_nat (length bs))).
Proof.
  intros Hf. induction bs as [|b bs IH]; intros fuel idx n He Hfuel.
  { cbn in He. destruct fuel; cbn [count_loop]; rewrite He; cbn; by rewrite Z.add_0_r. }
  destruct He as (Hi & Hg & Hp & Ho & Hn & He). destruct fuel as [|fuel]; [cbn in Hfuel; lia |].
  cbn [count_loop]. apply Z.eqb_neq in Hi. rewrite Hi. unfold fbind. rewrite (read_block_ok E HE f idx b) by done.
  rewrite decide_False by done. unfold occupied in Ho. apply negb_true_iff in Ho. unfold SHINODE_NULL. rewrite Ho.
  rewrite IH by (done || (cbn in Hfuel; lia)). do 3 f_equal. cbn [length]. lia.
Qed.

(** A stored container and its entries. *)
Definition directory (f : fs) (parent : shfs_block_t) (bs : list shfs_block_t) : Prop :=
  length (raw parent) = DSIZE /\ occupied parent = true /\ IS_INODE_CONTAINER (htype (hdr parent)) = true /\
  stored f (pos (hdr parent)) = true /\ entries f (fpos (hdr parent)) bs /\ (pos (hdr parent) ∉ positions bs).

Lemma stored_get f p : stored f p = true -> exists b, get f p = Some b /\ occupied b = true.
Proof. unfold stored. destruct (get f p); [eauto | done]. Qed.

Lemma free_not_stored f p b q : get f p = Some b -> occupied b = false -> stored f q = true -> p <> q.
Proof. intros Hg Ho (c & Hc & Hoc)%stored_get ->. congruence. Qed.

(** Storing the inode at a free position and the parent. *)
Lemma link_store_ok f parent inode bs b0 :
  fs_wf f -> directory f parent bs -> get f (pos (hdr inode)) = Some b0 -> occupied b0 = false ->
  ino (pos (hdr inode)) <> 0 -> occupied inode = true -> length (raw inode) = DSIZE ->
  npos (hdr inode) = match bs with [] => idx_none | b :: _ => pos (hdr b) end ->
  exists f' parent' inode', link_store E parent inode f = Done (f', Ok (parent', inode', 0)) /\ fs_wf f' /\
    directory f' parent' (inode' :: bs) /\ pos (hdr parent') = pos (hdr parent) /\
    hname (hdr inode') = hname (hdr inode) /\ raw inode' = raw inode /\ htype (hdr inode') = htype (hdr inode) /\
    keeps f f' [pos (hdr parent)] /\ forall j, (used f' j <= S (used f j))%nat.
Proof.
  intros Hf (Hpr & Hpo & Hpc & Hps & Hent & Hnin) Hg Ho Hz Hio Hraw Hnp. set (t := clock E (ticks f)).
  set (i1 := set_ctime t (set_mtime t inode)). set (i2 := set_crc (shfs_crc_init i1) i1).
  set (p := pos (hdr inode)) in *. set (q := pos (hdr parent)) in *.
  pose proof (write_block_ok E HE (tick f) i2 b0 Hf Hg) as Hw1. cbn zeta in Hw1.
  change (pos (hdr i2)) with p in Hw1. set (i3 := set_mtime _ i2) in Hw1. set (f1 := put (tick (tick f)) p i3) in *.
  pose proof (proj1 (get_inv _ _ _ Hg)) as Hp. destruct (stored_get f q Hps) as (pb & Hpb & Hpbo).
  pose proof (proj1 (get_inv _ _ _ Hpb)) as Hq. pose proof (free_not_stored f p b0 q Hg Ho Hps) as Hpq.
  assert (fs_wf f1) as Hf1 by (by apply (put_wf (tick (tick f)))).
  assert (get f1 q = Some pb) as Hpb1 by (unfold f1; by rewrite put_other).
  set (par1 := set_fpos p parent). pose proof (write_block_ok E HE f1 par1 pb Hf1 Hpb1) as Hw2. cbn zeta in Hw2.
  change (pos (hdr par1)) with q in Hw2. set (par2 := set_mtime _ par1) in Hw2. set (f2 := put (tick f1) q par2) in *.
  assert (get f2 q = Some par2) as Hgq by (by apply (put_same (tick f1) q par2 pb)).
  assert (get f2 p = Some i3) as Hgp.
  { unfold f2. rewrite put_other by congruence. rewrite get_tick. by apply (put_same (tick (tick f)) p i3 b0). }
  assert (forall x, x <> p -> x <> q -> get f2 x = get f x) as Hoth.
  { intros x Hx Hxq. unfold f2. rewrite put_other by congruence. rewrite get_tick. unfold f1. by rewrite put_other by congruence. }
  assert (p ∉ positions bs) as Hpn.
  { intros (b & Hb & Heq)%elem_of_positions. destruct (entries_stored f _ bs b Hent Hb) as [Hgb Hob]. rewrite Heq in Hgb. congruence. }
  exists f2, par2, i3. split; [|split; [by apply (put_wf (tick f1)) |]]; [|split; [|split_and!; try done]].
  - unfold link_store. unfold fbind at 1, shtime. fold t i1 i2 (tick f). unfold fbind at 1, fcatch at 1. rewrite Hw1.
    change (pos (hdr i3)) with p. fold par1. unfold fbind, fcatch. by rewrite Hw2.
  - split; [done |]. split; [done |]. split; [done |]. change (pos (hdr par2)) with q.
    split; [unfold stored; by rewrite Hgq |]. split.
    + change (fpos (hdr par2)) with p. split; [done |]. split; [done |]. split; [done |]. split; [done |].
      change (npos (hdr i3)) with (npos (hdr inode)). rewrite Hnp. split.
      * destruct bs as [|b bs]; [by intros <- |]. intros Heq. apply Hpn. cbn. rewrite Heq. apply list_elem_of_here.
      * apply (entries_frame f); [destruct bs as [|b bs]; [done |]; destruct Hent as (? & ? & Heq & Hrest); rewrite Heq; done |].
        intros x b Hx Hgx _. rewrite Hoth; [done | by intros -> | by intros ->].
    + intros [Heq|Hin]%elem_of_cons; [done | done].
  - intros x b Hx Hob Hnx. apply not_elem_of_cons in Hnx as [Hnx _]. rewrite Hoth; [done | | done].
    intros ->. congruence.
  - intros j. etrans; [apply (used_put_same (tick f1) q par2 pb j Hpb1 Hpbo) |]. apply (used_put (tick (tick f))).
Qed.

Lemma link_ok fuel f parent inode bs :
  fs_wf f -> directory f parent bs -> dir_find (hname (hdr inode)) bs = None ->
  occupied inode = true -> length (raw inode) = DSIZE ->
  Z.of_nat (used f (shfs_journal_index (hname (hdr inode)))) < 32767 -> (length bs <= fuel)%nat ->
  exists f' parent' inode', shfs_link E fuel (Some parent) inode f = Done (f', Ok (Some parent', inode', 0)) /\ fs_wf f' /\
    directory f' parent' (inode' :: bs) /\ pos (hdr parent') = pos (hdr parent) /\
    hname (hdr inode') = hname (hdr inode) /\ raw inode' = raw inode /\ htype (hdr inode') = htype (hdr inode) /\
    keeps f f' [pos (hdr parent)] /\ forall j, (used f' j <= S (used f j))%nat.
Proof.
  intros Hf Hdir Hfind Hio Hraw Hu Hfuel. pose proof Hdir as (Hpr & Hpo & Hpc & Hps & Hent & Hnin).
  set (nblk := match bs with [] => blank_block | b :: _ => b end).
  assert ((if ino (fpos (hdr parent)) =? 0 then fret blank_block else shfs_inode_read_block E (fpos (hdr parent))) f
          = Done (f, Ok nblk)) as Hread.
  { destruct bs as [|b bs]; cbn in Hent; [by rewrite Hent |]. destruct Hent as (Hi & Hg & _).
    apply Z.eqb_neq in Hi. rewrite Hi. by apply read_block_ok. }
  set (i1 := set_pos idx_none (set_npos (pos (hdr nblk)) inode)).
  destruct (scan_create E HE f (hname (hdr inode)) Hf Hu) as (f1 & i & Hs & (Hslot & Hg1 & Hf1 & Hus)).
  destruct (free_slot_get f1 _ i Hf1 Hslot) as (Hi & b0 & Hb0 & Ho). set (p := mk_idx (shfs_journal_index (hname (hdr inode))) i) in *.
  assert (directory f1 parent bs) as Hdir1.
  { split_and!; try done.
    - destruct (stored_get f _ Hps) as (b & Hb & Hob). unfold stored. by rewrite (proj1 Hg1 _ _ Hb).
    - apply (entries_frame f); [done |]. intros q b _ Hq _. by apply Hg1. }
  destruct (link_store_ok f1 parent (set_pos p i1) bs b0) as (f' & parent' & inode' & He & Hf' & Hd' & Hp' & Hn' & Hr' & Ht' & Hk & Hus');
    [done | done | done | done | cbn; lia | done | done | by destruct bs | ].
  exists f', parent', inode'. split; [|split_and!; try done].
  - unfold shfs_link. rewrite Hpc. cbn [negb]. unfold fbind at 1, fcatch at 1.
    assert (shfs_link_find E fuel (Some parent) (hname (hdr inode)) f = Done (f, Err SHERR_NOENT)) as ->.
    { unfold shfs_link_find. rewrite Hpc. cbn [negb]. by rewrite (find_loop_ok f _ bs), Hfind. }
    unfold fbind at 1, fcatch at 1. rewrite Hread. fold i1. unfold fbind at 1, fcatch at 1.
    change (hname (hdr i1)) with (hname (hdr inode)). rewrite Hs. unfold fbind. rewrite He. done.
  - intros q b Hq Hob Hnq. apply Hk; [by apply Hg1 | done | done].
  - intros j. rewrite <- (Hus j). apply Hus'.
Qed.
End lemmas.

(** ** Properties *)

(** What [shfs_link_find] and [shfs_link_count] return for a directory. *)
Lemma link_find_ok E fuel f parent bs key :
  env_ok E -> fs_wf f -> directory f parent bs -> (length bs <= fuel)%nat ->
  shfs_link_find E fuel (Some parent) key f =
    Done (f, match dir_find key bs with Some b => Ok b | None => Err SHERR_NOENT end).
Proof.
  intros HE Hf (_ & _ & Hc & _ & He & _) Hfuel. unfold shfs_link_find. rewrite Hc. by apply find_loop_ok.
Qed.

(** C10: Linking an inode whose name the directory does not have succeeds; after
    it the name is found and gives the stored inode, every other name gives what it
    gave before, the count is one more, and no other block in use has changed. *)
Theorem shfs_link_refines E fuel f parent inode bs :
  env_ok E -> fs_wf f -> directory f parent bs -> dir_find (hname (hdr inode)) bs = None ->
  occupied inode = true -> length (raw inode) = DSIZE ->
  Z.of_nat (used f (shfs_journal_index (hname (hdr inode)))) < 32767 -> (length bs < fuel)%nat ->
  exists f' parent' inode', shfs_link E fuel (Some parent) inode f = Done (f', Ok (Some parent', inode', 0)) /\
    fs_wf f' /\ directory f' parent' (inode' :: bs) /\
    hname (hdr inode') = hname (hdr inode) /\ raw inode' = raw inode /\ htype (hdr inode') = htype (hdr inode) /\
    get f' (pos (hdr inode')) = Some inode' /\
    (forall key, shfs_link_find E fuel (Some parent') key f' =
       if decide (key = hname (hdr inode)) then Done (f', Ok inode')
       else match shfs_link_find E fuel (Some parent) key f with Done (_, r) => Done (f', r) | Fault => Fault end) /\
    shfs_link_count E fuel (Some parent') f' = Done (f', Ok (Z.of_nat (length bs) + 1)) /\
    keeps f f' [pos (hdr parent)].
Proof.
  intros HE Hf Hdir Hnone Hocc Hraw Hu Hfuel.
  destruct (link_ok E HE fuel f parent inode bs) as (f' & parent' & inode' & He & Hf' & Hd' & _ & Hn & Hr & Ht & Hk & _);
    [done | done | done | done | done | done | lia |].
  exists f', parent', inode'. split_and!; try done.
  - destruct Hd' as (_ & _ & _ & _ & (_ & Hg & Hp & _) & _). by rewrite Hp.
  - intros key. rewrite (link_find_ok E fuel f parent bs) by (done || lia).
    rewrite (link_find_ok E fuel f' parent' (inode' :: bs)) by (done || (cbn; lia)).
    unfold dir_find. cbn [List.find]. rewrite Hn. case_decide as Hk'.
    + by rewrite bool_decide_eq_true_2.
    + by rewrite bool_decide_eq_false_2 by congruence.
  - unfold shfs_link_count. destruct Hd' as (_ & _ & Hc & _ & Hent & _). rewrite Hc. cbn [negb].
    rewrite (count_loop_ok E HE f' (inode' :: bs)) by (done || (cbn; lia)). do 3 f_equal. cbn [length]. lia.
Qed.

(** A directory without entries. *)
Definition demo_parent : shfs_block_t := set_pos (mk_idx 1 3) (set_type SHINODE_DIRECTORY blank_block).
Definition empty_dir : fs := mk_fs {[ 1 := mk_journal [blank_block; blank_block; blank_block; demo_parent] true ]} 0.

Lemma empty_dir_wf : fs_wf empty_dir.
Proof.
  apply map_Forall_singleton. split; [split; done |]. split; [done |]. split; [exists 0; done |].
  cbn [jblocks]. repeat (apply List.Forall_cons; [apply blank_raw |]). apply List.Forall_nil.
Qed.

Lemma empty_directory : directory empty_dir demo_parent [].
Proof. split_and!; (reflexivity || (apply blank_raw) || by intros ?%elem_of_nil). Qed.

Lemma shfs_link_refines_witness :
  exists f' parent' inode', shfs_link demo_fsenv 1 (Some demo_parent) named_inode empty_dir = Done (f', Ok (Some parent', inode', 0)) /\
    shfs_link_find demo_fsenv 1 (Some parent') (hname (hdr named_inode)) f' = Done (f', Ok inode').
Proof.
  destruct (shfs_link_refines demo_fsenv 1 empty_dir demo_parent named_inode []) as (f' & parent' & inode' & H1 & _ & _ & _ & _ & _ & _ & H2 & _).
  - exact demo_fsenv_ok.
  - exact empty_dir_wf.
  - exact empty_directory.
  - reflexivity.
  - reflexivity.
  - apply blank_raw.
  - vm_compute. reflexivity.
  - constructor.
  - exists f', parent', inode'. split; [exact H1 |]. rewrite H2. by rewrite decide_True.
Defined.

(** Names of the entries. *)
Definition names (bs : list shfs_block_t) : list shkey_t := map (fun b => hname (hdr b)) bs.

Lemma elem_of_names k bs : k ∈ names bs <-> exists b, b ∈ bs /\ hname (hdr b) = k.
Proof. unfold names. rewrite list_elem_of_fmap. split; intros (b & H1 & H2); eauto. Qed.

Lemma dir_find_None k bs : dir_find k bs = None <-> k ∉ names bs.
Proof.
  unfold dir_find. induction bs as [|b bs IH]; cbn [List.find names map].
  { split; [intros _ ?%elem_of_nil; done | done]. }
  rewrite not_elem_of_cons. case_bool_decide as Hb; [split; [done | intros [Hne _]; congruence] |].
  rewrite IH. unfold names. split; [intros; split; [congruence | done] | tauto].
Qed.

(** Successive calls of [shfs_link] on one directory. *)
Fixpoint link_all (E : fsenv) (fuel : nat) (parent : option shfs_block_t) (l : list shfs_block_t) {struct l} : fsm (option shfs_block_t) :=
  match l with
  | [] => fret parent
  | inode :: l' => r <~ shfs_link E fuel parent inode; link_all E fuel (fst (fst r)) l'
  end.

Definition linkable (b : shfs_block_t) : Prop := occupied b = true /\ length (raw b) = DSIZE.

Lemma link_existing E fuel f parent inode bs b :
  env_ok E -> fs_wf f -> directory f parent bs -> (length bs <= fuel)%nat -> dir_find (hname (hdr inode)) bs = Some b ->
  shfs_link E fuel (Some parent) inode f = Done (f, Ok (Some parent, inode, 0)).
Proof.
  intros HE Hf Hd Hfuel Hfind. unfold shfs_link. pose proof Hd as (_ & _ & Hc & _). rewrite Hc. cbn [negb].
  unfold fbind, fcatch. by rewrite (link_find_ok E fuel f parent bs), Hfind.
Qed.

(** C28: Any sequence of links into a directory keeps it a directory with no name
    twice, whose names are those it had and those of the linked inodes; linking a
    name again changes nothing. *)
Theorem shfs_link_sequence E fuel l f parent bs :
  env_ok E -> fs_wf f -> directory f parent bs -> NoDup (names bs) -> Forall linkable l ->
  (forall j, Z.of_nat (used f j) + Z.of_nat (length l) <= 32766) -> (length bs + length l <= fuel)%nat ->
  exists f' parent' bs', link_all E fuel (Some parent) l f = Done (f', Ok (Some parent')) /\
    fs_wf f' /\ directory f' parent' bs' /\ NoDup (names bs') /\
    (forall k, k ∈ names bs' <-> k ∈ names bs \/ k ∈ names l) /\
    shfs_link_count E fuel (Some parent') f' = Done (f', Ok (Z.of_nat (length bs'))) /\
    keeps f f' [pos (hdr parent)].
Proof.
  intros HE. revert f parent bs. induction l as [|inode l IH]; intros f parent bs Hf Hd Hnd Hl Hroom Hfuel.
  { exists f, parent, bs. split_and!; try done.
    - intros k. cbn. rewrite elem_of_nil. tauto.
    - unfold shfs_link_count. pose proof Hd as (_ & _ & Hc & _ & He & _). rewrite Hc. cbn [negb].
      by rewrite (count_loop_ok E HE f bs) by (done || (cbn in Hfuel; lia)).
    - by intros q b. }
  apply List.Forall_cons_iff in Hl as [[Hocc Hraw] Hl]. cbn [length] in *. cbn [link_all].
  destruct (dir_find (hname (hdr inode)) bs) as [b|] eqn:Hfind.
  - destruct (IH f parent bs) as (f' & parent' & bs' & He & H1 & H2 & H3 & H4 & H5 & H6);
      [done | done | done | done | intros j; specialize (Hroom j); lia | lia |].
    exists f', parent', bs'. unfold fbind. rewrite (link_existing E fuel f parent inode bs b) by (done || lia). split_and!; try done.
    intros k. rewrite H4. cbn. rewrite elem_of_cons. assert (hname (hdr inode) ∈ names bs) as Hin.
    { apply dec_stable. intros Hn. apply dir_find_None in Hn. congruence. }
    split; [tauto |]. intros [|[->|]]; tauto.
  - destruct (link_ok E HE fuel f parent inode bs) as (f1 & parent1 & inode1 & He1 & Hf1 & Hd1 & Hp1 & Hn1 & _ & _ & Hk1 & Hus);
      [done | done | done | done | done | specialize (Hroom (shfs_journal_index (hname (hdr inode)))); lia | lia |].
    destruct (IH f1 parent1 (inode1 :: bs)) as (f' & parent' & bs' & He & H1 & H2 & H3 & H4 & H5 & H6);
      [done | done | | done | intros j; specialize (Hroom j); specialize (Hus j); lia | cbn; lia |].
    { cbn. rewrite Hn1. apply NoDup_cons. split; [by apply dir_find_None | done]. }
    exists f', parent', bs'. unfold fbind. rewrite He1. split_and!; try done.
    + intros k. rewrite H4. cbn. rewrite !elem_of_cons, Hn1. tauto.
    + intros q b Hq Hob Hnq. apply H6; [by apply Hk1 | done | by rewrite Hp1].
Qed.

Lemma shfs_link_sequence_witness :
  exists f' parent' bs', link_all demo_fsenv 3 (Some demo_parent) [named_inode; named_inode; demo_inode] empty_dir = Done (f', Ok (Some parent')) /\
    directory f' parent' bs' /\ NoDup (names bs').
Proof.
  destruct (shfs_link_sequence demo_fsenv 3 [named_inode; named_inode; demo_inode] empty_dir demo_parent [])
    as (f' & parent' & bs' & H1 & _ & H2 & H3 & _).
  - exact demo_fsenv_ok.
  - exact empty_dir_wf.
  - exact empty_directory.
  - apply NoDup_nil_2.
  - repeat (apply List.Forall_cons; [split; [reflexivity | apply blank_raw] |]). apply List.Forall_nil.
  - intros j. unfold used, empty_dir. cbn [journals].
    destruct (decide (j = 1)) as [->|Hne]; [by vm_compute | by rewrite lookup_singleton_ne].
  - constructor.
  - exists f', parent', bs'. split; [exact H1 |]. split; [exact H2 | exact H3].
Defined.

(** The text a token is the digest of determines the mode and the name, for
    names of at most [SHFS_PATH_MAX] bytes in the same directory. *)
Theorem shfs_token_image_inj parent m1 m2 s1 s2 :
  is_uint 32 m1 -> is_uint 32 m2 -> Z.of_nat (length s1) <= SHFS_PATH_MAX -> Z.of_nat (length s2) <= SHFS_PATH_MAX ->
  Forall (fun c => c <> 0) s1 -> Forall (fun c => c <> 0) s2 ->
  token_image parent m1 (Some s1) = token_image parent m2 (Some s2) -> m1 = m2 /\ s1 = s2.
Proof.
  intros Hm1 Hm2 Hl1 Hl2 Hs1 Hs2. unfold token_image. rewrite !cstring_nonzero by done.
  rewrite !take_ge by (rewrite length_app; cbn [length]; lia). intros Heq.
  apply app_inj_1 in Heq as [_ Heq]; [|done]. apply app_inj_1 in Heq as [Hm Heq]; [|by rewrite !length_le_bytes].
  apply app_inj_2 in Heq as [Hs _]; [|done]. apply app_inj_2 in Hs as [Hs _]; [|done].
  split; [by apply (le_bytes_inj 4) | done].
Qed.

Lemma shfs_token_image_inj_witness :
  token_image (Some demo_parent) 109 (Some (cstr "share")) <> token_image (Some demo_parent) 109 (Some (cstr "shfs")).
Proof.
  intros H. destruct (shfs_token_image_inj (Some demo_parent) 109 109 (cstr "share") (cstr "shfs")) as [_ H'];
    [split; [discriminate | reflexivity] | split; [discriminate | reflexivity] | discriminate | discriminate | | | exact H | discriminate].
  all: repeat (apply List.Forall_cons; [discriminate |]); apply List.Forall_nil.
Defined.
