(* ===== verification/ShMsg.v ===== *)
(** * Message queues

    Models [share-lib/sys/shsys_msg.c].  A queue is a file mapped by every process
    that uses it: a header, a ring of 2048 message records and a ring of bytes.
    A record is free when its source key is blank.  The queues are shared; the
    peer table and the process's own key belong to the process.

    The clock, the time-out computation and whether a queue file can be mapped
    belong to the environment.  Unmapping a queue does not change its file, so the
    model keeps the content of every queue file. *)

From Stdlib Require Import ZArith Lia String.
From stdpp Require Import base numbers list gmap.
From S2P Require Import Prelude ShCrc ShKey ShBuf.

Open Scope Z_scope.

Definition MAX_MESSAGE_QUEUES : Z := 512.
Definition MESSAGE_QUEUE_SIZE : Z := 4096000.
Definition MAX_MESSAGES_PER_QUEUE : Z := 2048.
Definition SHMSGF_RMID : Z := 1.
Definition SHMSGF_OVERFLOW : Z := 2.
Definition SHMSGF_ANONYMOUS : Z := 4.
Definition SHERR_AGAIN : Z := -11.
Definition SHERR_NOMSG : Z := -42.

Record shmsg_t : Type := mk_msg {
  src_key : shkey_t;
  dest_key : shkey_t;
  msg_qid : Z;
  msg_size : Z;
  msg_of : Z
}.

Record shmsgq_t : Type := mk_queue {
  lock_t : Z;
  qflags : Z;
  read_idx : Z;
  write_idx : Z;
  read_of : Z;
  write_of : Z;
  msgs : list shmsg_t;
  qdata : bytes
}.

(** [sizeof(shmsgq_t)]: 32 bytes and 80 for each message. *)
Definition QUEUE_HEADER : Z := 32 + 80 * MAX_MESSAGES_PER_QUEUE.
Definition QUEUE_DATA : Z := MESSAGE_QUEUE_SIZE - QUEUE_HEADER.

Definition blank_msg : shmsg_t := mk_msg key_blank key_blank 0 0 0.

(** A new queue file is all zeros. *)
Definition blank_queue : shmsgq_t :=
  mk_queue 0 0 0 0 0 0 (replicate (Z.to_nat MAX_MESSAGES_PER_QUEUE) blank_msg) (replicate (Z.to_nat QUEUE_DATA) 0).

Definition shkey_is_blank (k : shkey_t) : bool := bool_decide (k = key_blank).

(** Assignments to a field. *)
Definition set_lock (t : Z) (q : shmsgq_t) : shmsgq_t :=
  mk_queue t (qflags q) (read_idx q) (write_idx q) (read_of q) (write_of q) (msgs q) (qdata q).
Definition set_qflags (v : Z) (q : shmsgq_t) : shmsgq_t :=
  mk_queue (lock_t q) v (read_idx q) (write_idx q) (read_of q) (write_of q) (msgs q) (qdata q).
Definition set_msgs (l : list shmsg_t) (q : shmsgq_t) : shmsgq_t :=
  mk_queue (lock_t q) (qflags q) (read_idx q) (write_idx q) (read_of q) (write_of q) l (qdata q).
Definition set_src (k : shkey_t) (m : shmsg_t) : shmsg_t := mk_msg k (dest_key m) (msg_qid m) (msg_size m) (msg_of m).

Record msgenv : Type := mk_msgenv {
  mclock : nat -> Z;            (* successive readings of shtime() *)
  timeout : Z -> Z;             (* shtime_adj(t, 1.0) *)
  queue_ok : Z -> bool          (* can the file of this queue be created and mapped *)
}.

(** The queues of the host; the table of peers by key of their queue id, the
    count of its users, and the process's own key. *)
Record msgsys : Type := mk_sys {
  queues : gmap Z shmsgq_t;
  mticks : nat;
  peer_map : option (list (shkey_t * shkey_t));
  peer_ref : Z;
  peer_key : shkey_t
}.

Definition with_queue (i : Z) (q : shmsgq_t) (s : msgsys) : msgsys :=
  mk_sys (<[i := q]> (queues s)) (mticks s) (peer_map s) (peer_ref s) (peer_key s).

(** The table as an association list; a later entry replaces an earlier one. *)
Definition peers_set (k v : shkey_t) (l : list (shkey_t * shkey_t)) : list (shkey_t * shkey_t) :=
  (k, v) :: List.filter (fun e => negb (bool_decide (e.1 = k))) l.
Definition peers_get (k : shkey_t) (l : list (shkey_t * shkey_t)) : option shkey_t :=
  match List.find (fun e => bool_decide (e.1 = k)) l with Some e => Some e.2 | None => None end.
Definition peers_unset (k : shkey_t) (l : list (shkey_t * shkey_t)) : list (shkey_t * shkey_t) :=
  List.filter (fun e => negb (bool_decide (e.1 = k))) l.

Definition shmsg_peer_set (qid : Z) (peer : shkey_t) (s : msgsys) : msgsys :=
  let l := default [] (peer_map s) in
  mk_sys (queues s) (mticks s) (Some (peers_set (ashkey_num qid) peer l)) (peer_ref s + 1) (peer_key s).

Definition shmsg_peer_get (qid : Z) (s : msgsys) : option shkey_t :=
  match peer_map s with None => None | Some l => peers_get (ashkey_num qid) l end.

Section operations.
Context (E : msgenv).

(** The index and the queue; [None] when it cannot be mapped.  The remainder of a
    negative identifier is outside the table. *)
Definition shmsg_queue_map (qid : Z) (s : msgsys) : outcome (option (Z * shmsgq_t)) :=
  let q_idx := Z.rem qid MAX_MESSAGE_QUEUES in
  if q_idx <? 0 then Fault
  else if negb (queue_ok E q_idx) then Done None
  else Done (Some (q_idx, default blank_queue (queues s !! q_idx))).

(** The reading of the clock is returned with the result. *)
Definition shmsg_lock (t : Z) (q : shmsgq_t) : option shmsgq_t :=
  if negb (lock_t q =? 0) && (t <? lock_t q) then None else Some (set_lock (timeout E t) q).

Definition shmsg_unlock (q : shmsgq_t) : shmsgq_t := set_lock 0 q.

(** [n] messages from [idx] on: the first that satisfies the test. *)
Fixpoint scan_msgs (P : shmsg_t -> bool) (l : list shmsg_t) (idx : Z) (n : nat) : outcome (option Z) :=
  match n with
  | O => Done None
  | S n' =>
      match l !! Z.to_nat idx with
      | None => Fault
      | Some m => if P m then Done (Some idx) else scan_msgs P l (idx + 1) n'
      end
  end.

Definition blank_src (m : shmsg_t) : bool := shkey_is_blank (src_key m).

Definition free_msg (q : shmsgq_t) : outcome (option Z) :=
  if read_idx q <=? write_idx q then
    r <-! scan_msgs blank_src (msgs q) (write_idx q) (Z.to_nat (MAX_MESSAGES_PER_QUEUE - write_idx q));
    match r with
    | Some i => Done (Some i)
    | None => scan_msgs blank_src (msgs q) 0 (Z.to_nat (read_idx q))
    end
  else scan_msgs blank_src (msgs q) (write_idx q) (Z.to_nat (read_idx q - write_idx q + 1)).

Definition next_idx (i : Z) : Z := (i + 1) mod MAX_MESSAGES_PER_QUEUE.

(** The index of the message slot, which is cleared. *)
Definition shmsg_write_map (q : shmsgq_t) : outcome (option (shmsgq_t * Z)) :=
  let take_slot q idx := Done (Some (mk_queue (lock_t q) (qflags q) (read_idx q) (next_idx idx) (read_of q) (write_of q)
                                 (<[Z.to_nat idx := blank_msg]> (msgs q)) (qdata q), idx)) in
  r <-! free_msg q;
  match r with
  | Some idx => take_slot q idx
  | None =>
      if negb (has_flag (qflags q) SHMSGF_OVERFLOW) then Done None
      else
        let idx := read_idx q in
        match msgs q !! Z.to_nat idx with
        | None => Fault
        | Some m =>
            take_slot (mk_queue (lock_t q) (qflags q) (next_idx idx) (write_idx q) (u32 (msg_of m + msg_size m)) (write_of q)
                         (msgs q) (qdata q)) idx
        end
  end.

(** The offset at which the bytes of a message are stored. *)
Definition data_slot (q : shmsgq_t) (size : Z) : option Z :=
  let reset := read_of q <=? write_of q in
  let '(start_of, end_of) := (write_of q, if reset then QUEUE_DATA else read_of q) in
  let '(start_of, end_of) := if reset && (u64 (end_of - start_of) <? size) then (0, read_of q) else (start_of, end_of) in
  if u64 (end_of - start_of) <? size then None else Some start_of.

(** The queue and the error code. *)
Definition shmsg_write_map_data (q : shmsgq_t) (idx : Z) (buff : shbuf_t) : outcome (shmsgq_t * Z) :=
  let size := shbuf_size (Some buff) in
  match data_slot q size with
  | None => Done (q, SHERR_AGAIN)
  | Some start_of =>
      d <-! (match shbuf_data (Some buff) with
             | Some d => src <-! mem_read d 0 (Z.to_nat size); mem_write (qdata q) (Z.to_nat start_of) src
             | None => if size =? 0 then Done (qdata q) else Fault
             end);
      match msgs q !! Z.to_nat idx with
      | None => Fault
      | Some m =>
          Done (mk_queue (lock_t q) (qflags q) (read_idx q) (write_idx q) (read_of q) (u32 (start_of + size))
                  (<[Z.to_nat idx := mk_msg (src_key m) (dest_key m) (msg_qid m) (u32 size) (u32 start_of)]> (msgs q)) d, 0)
      end
  end.

(** The part of [shmsg_write] that works on the locked queue; without a
    destination the code copies from NULL. *)
Definition write_locked (qid : Z) (self : shkey_t) (dest : option shkey_t) (buff : shbuf_t) (q : shmsgq_t)
    : outcome (shmsgq_t * Z) :=
  r <-! shmsg_write_map q;
  match r with
  | None => Done (shmsg_unlock q, SHERR_AGAIN)
  | Some (q, idx) =>
      match dest with
      | None => Fault
      | Some dest =>
          let q := set_msgs (<[Z.to_nat idx := mk_msg self dest (u32 qid) 0 0]> (msgs q)) q in
          r <-! shmsg_write_map_data q idx buff;
          let '(q, err) := r in
          if negb (err =? 0) then
            Done (shmsg_unlock (set_msgs (alter (set_src key_blank) (Z.to_nat idx) (msgs q)) q), err)
          else Done (shmsg_unlock q, 0)
      end
  end.

Definition with_tick (s : msgsys) : msgsys :=
  mk_sys (queues s) (S (mticks s)) (peer_map s) (peer_ref s) (peer_key s).

(** The state and the error code. *)
Definition shmsg_write (qid : Z) (buff : shbuf_t) (dest : option shkey_t) (s : msgsys) : outcome (msgsys * Z) :=
  if QUEUE_DATA <=? shbuf_size (Some buff) then Done (s, SHERR_INVAL)
  else
    r <-! shmsg_queue_map qid s;
    match r with
    | None => Done (s, SHERR_INVAL)
    | Some (i, q) =>
        match shmsg_lock (mclock E (mticks s)) q with
        | None => Done (with_tick (with_queue i q s), SHERR_AGAIN)
        | Some q =>
            r <-! write_locked qid (peer_key s) (match dest with Some d => Some d | None => shmsg_peer_get qid s end) buff q;
            let '(q, err) := r in Done (with_tick (with_queue i q s), err)
        end
    end.

Definition shmsgsnd (qid : Z) (msgp : option bytes) (s : msgsys) : outcome (msgsys * Z) :=
  match msgp with
  | None => Done (s, SHERR_INVAL)
  | Some d => shmsg_write qid (shbuf_map d) None s
  end.

Definition shmsg_read_valid (dest : option shkey_t) (m : shmsg_t) : bool :=
  if shkey_is_blank (src_key m) then false
  else if msg_size m =? 0 then false
  else match dest with
       | Some d => shkey_cmp (Some d) (Some (dest_key m))
       | None => true
       end.

(** The index of the message to read. *)
Definition shmsg_read_map (q : shmsgq_t) (dest : option shkey_t) : outcome (option Z) :=
  let start_of := read_idx q in
  let end_of := write_idx q in
  if end_of <=? start_of then
    r <-! scan_msgs (shmsg_read_valid dest) (msgs q) start_of (Z.to_nat (MAX_MESSAGES_PER_QUEUE - start_of));
    match r with
    | Some i => Done (Some i)
    | None => scan_msgs (shmsg_read_valid dest) (msgs q) 0 (Z.to_nat end_of)
    end
  else scan_msgs (shmsg_read_valid dest) (msgs q) start_of (Z.to_nat (end_of - start_of)).

(** The part of [shmsg_read] that works on the locked queue: the queue, and the
    message with its bytes. *)
Definition read_locked (dest : option shkey_t) (q : shmsgq_t) : outcome (shmsgq_t * option (shmsg_t * bytes)) :=
  r <-! shmsg_read_map q dest;
  match r with
  | None => Done (shmsg_unlock q, None)
  | Some idx =>
      match msgs q !! Z.to_nat idx with
      | None => Fault
      | Some m =>
          d <-! mem_read (qdata q) (Z.to_nat (msg_of m)) (Z.to_nat (msg_size m));
          let read_of' := if msg_of m =? read_of q then u32 (read_of q + msg_size m) else read_of q in
          Done (shmsg_unlock (mk_queue (lock_t q) (qflags q) (next_idx (read_idx q)) (write_idx q) read_of' (write_of q)
                  (<[Z.to_nat idx := set_src key_blank m]> (msgs q)) (qdata q)), Some (m, d))
      end
  end.

Context (B : env).

(** The state, the buffer, the source key and the error code. *)
Definition shmsg_read (qid : Z) (msg_buff : option shbuf_t) (s : msgsys)
    : outcome (msgsys * option shbuf_t * option shkey_t * Z) :=
  r <-! shmsg_queue_map qid s;
  match r with
  | None => Done (s, msg_buff, None, SHERR_INVAL)
  | Some (i, q) =>
      let dest := if has_flag (qflags q) SHMSGF_ANONYMOUS then None else Some (peer_key s) in
      match shmsg_lock (mclock E (mticks s)) q with
      | None => Done (with_tick (with_queue i q s), msg_buff, None, SHERR_AGAIN)
      | Some q =>
          r <-! read_locked dest q;
          let '(q, o) := r in
          match o with
          | None => Done (with_tick (with_queue i q s), msg_buff, None, SHERR_NOMSG)
          | Some (m, d) =>
              buf <-! (match msg_buff with None => Done None | Some b => b <-! shbuf_cat B b d; Done (Some b) end);
              Done (with_tick (with_queue i q s), buf, Some (src_key m), 0)
          end
      end
  end.

(** The bytes copied to the caller's memory of [msgsz] bytes, and the result. *)
Definition shmsgrcv (qid msgsz : Z) (s : msgsys) : outcome (msgsys * bytes * Z) :=
  r <-! shmsg_read qid (Some shbuf_init) s;
  let '(s, buf, _, err) := r in
  if negb (err =? 0) then Done (s, [], err)
  else
    let len := Z.min (shbuf_size buf) msgsz in
    d <-! (match shbuf_data buf with
           | Some d => mem_read d 0 (Z.to_nat len)
           | None => if len =? 0 then Done [] else Fault
           end);
    Done (s, d, sint 32 len).

(** [peer] and [self] are the public keys of the destination and of the process. *)
Definition shmsgget (peer self : shkey_t) (s : msgsys) : msgsys * Z :=
  let q_id := shcrc (Some (shkey_image peer)) mod INT_MAX in
  let s := shmsg_peer_set q_id peer s in
  (mk_sys (queues s) (mticks s) (peer_map s) (peer_ref s) self, q_id).

(** The queue file stays; the peer is looked up by the reduced index. *)
Definition shmsg_queue_free (qid : Z) (s : msgsys) : msgsys :=
  let q_idx := Z.rem qid MAX_MESSAGE_QUEUES in
  if (q_idx <? 0) || (MAX_MESSAGE_QUEUES <=? q_idx) then s
  else
    let pm := match peer_map s with Some l => Some (peers_unset (ashkey_num q_idx) l) | None => None end in
    let ref := Z.max 0 (peer_ref s - 1) in
    mk_sys (queues s) (mticks s) (if ref =? 0 then None else pm) ref (peer_key s).

Definition shmsgctl (qid cmd value : Z) (s : msgsys) : outcome msgsys :=
  if cmd =? SHMSGF_RMID then Done (shmsg_queue_free qid s)
  else if cmd =? SHMSGF_OVERFLOW then
    r <-! shmsg_queue_map qid s;
    match r with
    | None => Done s
    | Some (i, q) =>
        let f := if negb (value =? 0) then Z.lor (qflags q) SHMSGF_OVERFLOW
                 else Z.land (qflags q) (u32 (Z.lnot SHMSGF_OVERFLOW)) in
        Done (with_queue i (set_qflags f q) s)
    end
  else Done s.

End operations.

(** ** Queues as lists *)

Abbreviation NM := MAX_MESSAGES_PER_QUEUE.
Abbreviation idx_of i := (Z.to_nat (i mod MAX_MESSAGES_PER_QUEUE)).

Record amsg : Type := mk_amsg { a_src : shkey_t; a_dest : shkey_t; a_body : bytes }.

Definition a_len (a : amsg) : Z := Z.of_nat (length (a_body a)).
Definition total (l : list amsg) : Z := foldr (fun a n => a_len a + n) 0 l.

(** The records from index [i] on, whose bytes start at [o]. *)
Fixpoint recs (q : shmsgq_t) (i o : Z) (l : list amsg) : Prop :=
  match l with
  | [] => True
  | a :: l' =>
      (exists qid, msgs q !! idx_of i = Some (mk_msg (a_src a) (a_dest a) qid (a_len a) o)) /\
      take (length (a_body a)) (drop (Z.to_nat o) (qdata q)) = a_body a /\
      a_src a <> key_blank /\ 0 < a_len a /\ recs q (i + 1) (o + a_len a) l'
  end.

(** The queue holds the messages of [l], the first one next to be read; their
    bytes lie between [read_of] and [write_of]. *)
Record rep (q : shmsgq_t) (l : list amsg) : Prop := mk_rep {
  rep_msgs : Z.of_nat (length (msgs q)) = NM;
  rep_data : Z.of_nat (length (qdata q)) = QUEUE_DATA;
  rep_ridx : 0 <= read_idx q < NM;
  rep_len : Z.of_nat (length l) <= NM;
  rep_widx : write_idx q = (read_idx q + Z.of_nat (length l)) mod NM;
  rep_recs : recs q (read_idx q) (read_of q) l;
  rep_free : forall k, Z.of_nat (length l) <= k < NM ->
    exists m, msgs q !! idx_of (read_idx q + k) = Some m /\ src_key m = key_blank;
  rep_rof : 0 <= read_of q;
  rep_wof : write_of q = read_of q + total l;
  rep_fit : write_of q <= QUEUE_DATA
}.

Lemma a_len_nonneg a : 0 <= a_len a.
Proof. unfold a_len. lia. Qed.

Lemma total_nonneg l : 0 <= total l.
Proof. induction l as [|a l IH]; cbn; [done |]. pose proof (a_len_nonneg a). fold (total l). lia. Qed.

Lemma total_app l k : total (l ++ k) = total l + total k.
Proof. induction l as [|a l IH]; cbn; [done |]. fold (total (l ++ k)) (total l). lia. Qed.

Lemma recs_app q i o l k :
  recs q i o (l ++ k) <-> recs q i o l /\ recs q (i + Z.of_nat (length l)) (o + total l) k.
Proof.
  revert i o. induction l as [|a l IH]; intros i o; cbn [app recs length total foldr].
  { rewrite !Z.add_0_r. tauto. }
  rewrite IH. fold (total l).
  replace (i + 1 + Z.of_nat (length l)) with (i + Z.of_nat (S (length l))) by lia.
  replace (o + a_len a + total l) with (o + (a_len a + total l)) by lia. tauto.
Qed.

Lemma recs_frame q q' i i' o l :
  recs q i o l -> 0 <= o -> i mod NM = i' mod NM ->
  (forall k, 0 <= k < Z.of_nat (length l) -> msgs q' !! idx_of (i + k) = msgs q !! idx_of (i + k)) ->
  take (Z.to_nat (o + total l)) (qdata q') = take (Z.to_nat (o + total l)) (qdata q) ->
  recs q' i' o l.
Proof.
  revert i i' o. induction l as [|a l IH]; intros i i' o; [done |]. cbn [recs length total foldr]. fold (total l).
  intros ((qid & Hm) & Hd & Hs & Hp & Hr) Ho Hi Hfr Hdat. pose proof (total_nonneg l).
  split; [|split; [|split; [done | split; [done |]]]].
  - exists qid. rewrite <- Hi. specialize (Hfr 0 ltac:(lia)). rewrite Z.add_0_r in Hfr. by rewrite Hfr.
  - transitivity (take (length (a_body a)) (drop (Z.to_nat o) (qdata q))); [|exact Hd].
    rewrite !take_drop_commute. f_equal. unfold a_len in *.
    apply (f_equal (take (Z.to_nat o + length (a_body a)))) in Hdat. rewrite !take_take in Hdat.
    rewrite Nat.min_l in Hdat by lia. exact Hdat.
  - apply (IH (i + 1)); [done | unfold a_len; lia | | |].
    + rewrite (Zplus_mod i), (Zplus_mod i'), Hi. done.
    + intros k Hk. specialize (Hfr (k + 1) ltac:(lia)). by replace (i + 1 + k) with (i + (k + 1)) by lia.
    + by replace (o + a_len a + total l) with (o + (a_len a + total l)) by lia.
Qed.

Lemma rep_slot q l i a :
  rep q l -> l !! i = Some a ->
  exists qid o, msgs q !! idx_of (read_idx q + Z.of_nat i) = Some (mk_msg (a_src a) (a_dest a) qid (a_len a) o) /\
    a_src a <> key_blank /\ 0 < a_len a.
Proof.
  intros Hr Hi. apply take_drop_middle in Hi. pose proof (rep_recs _ _ Hr) as Hrec. rewrite <- Hi in Hrec.
  apply recs_app in Hrec as [_ Hrec]. pose proof (rep_len _ _ Hr).
  assert (length (take i l) = i) as Hl by (apply (f_equal length) in Hi; rewrite length_app in Hi; cbn [length] in Hi; llia).
  rewrite Hl in Hrec. destruct Hrec as ((qid & Hm) & _ & Hs & Hp & _). eauto 10.
Qed.

Lemma idx_inj r i j : 0 <= i < NM -> 0 <= j < NM -> idx_of (r + i) = idx_of (r + j) -> i = j.
Proof.
  unfold MAX_MESSAGES_PER_QUEUE. intros Hi Hj H.
  assert ((r + i) mod 2048 = (r + j) mod 2048) as H' by (pose proof (Z.mod_pos_bound (r + i) 2048); pose proof (Z.mod_pos_bound (r + j) 2048); lia).
  mlia.
Qed.

Lemma idx_small i : 0 <= i < NM -> idx_of i = Z.to_nat i.
Proof. intros. by rewrite Z.mod_small. Qed.

(** Every index is reached from the read index. *)
Lemma idx_reach r k : 0 <= r < NM -> 0 <= k < NM -> exists i, 0 <= i < NM /\ (r + i) mod NM = k.
Proof.
  unfold MAX_MESSAGES_PER_QUEUE. intros Hr Hk. exists ((k - r) mod 2048). split; [apply Z.mod_pos_bound; lia |]. mlia.
Qed.

Lemma scan_first P l i n m : l !! Z.to_nat i = Some m -> P m = true -> (0 < n)%nat -> scan_msgs P l i n = Done (Some i).
Proof. intros Hl HP Hn. destruct n; [lia |]. cbn. by rewrite Hl, HP. Qed.

Lemma scan_none P l n : forall i, 0 <= i -> i + Z.of_nat n <= Z.of_nat (length l) ->
  (forall k m, i <= k < i + Z.of_nat n -> l !! Z.to_nat k = Some m -> P m = false) -> scan_msgs P l i n = Done None.
Proof.
  induction n as [|n IH]; intros i Hi Hn Hall; [done |]. cbn [scan_msgs].
  destruct (lookup_lt_is_Some_2 l (Z.to_nat i)) as [m Hm]; [lia |]. rewrite Hm.
  rewrite (Hall i m) by (done || lia). apply IH; [lia | lia |]. intros k m' Hk. apply Hall. lia.
Qed.

Lemma widx_range q l : rep q l -> 0 <= write_idx q < NM.
Proof. intros Hr. rewrite (rep_widx _ _ Hr). by apply Z.mod_pos_bound. Qed.

(** The slot a write takes. *)
Lemma free_msg_ok q l : rep q l -> Z.of_nat (length l) < NM -> free_msg q = Done (Some (write_idx q)).
Proof.
  intros Hr Hl. pose proof (widx_range q l Hr). pose proof (rep_ridx _ _ Hr).
  destruct (rep_free _ _ Hr (Z.of_nat (length l)) ltac:(lia)) as (m & Hm & Hb).
  rewrite <- (rep_widx _ _ Hr) in Hm. assert (blank_src m = true) as HP by (unfold blank_src, shkey_is_blank; by rewrite bool_decide_eq_true_2).
  unfold free_msg. destruct (Z.leb_spec (read_idx q) (write_idx q)).
  - by rewrite (scan_first blank_src (msgs q) (write_idx q) _ m Hm HP) by lia.
  - by rewrite (scan_first blank_src (msgs q) (write_idx q) _ m Hm HP) by lia.
Qed.

Lemma full_slots q l k m : rep q l -> Z.of_nat (length l) = NM -> 0 <= k < NM -> msgs q !! Z.to_nat k = Some m -> blank_src m = false.
Proof.
  intros Hr Hl Hk Hm. destruct (idx_reach (read_idx q) k (rep_ridx _ _ Hr) Hk) as (i & Hi & He).
  destruct (lookup_lt_is_Some_2 l (Z.to_nat i)) as [a Ha]; [lia |].
  destruct (rep_slot q l _ a Hr Ha) as (qid & o & Hs & Hne & _). rewrite Z2Nat.id, He in Hs by lia.
  unfold blank_src, shkey_is_blank. apply bool_decide_eq_false_2. replace m with (mk_msg (a_src a) (a_dest a) qid (a_len a) o) by congruence.
  done.
Qed.

Lemma free_msg_full q l : rep q l -> Z.of_nat (length l) = NM -> free_msg q = Done None.
Proof.
  intros Hr Hl. pose proof (rep_ridx _ _ Hr). pose proof (rep_msgs _ _ Hr) as Hlen.
  assert (write_idx q = read_idx q) as Hw.
  { rewrite (rep_widx _ _ Hr), Hl. unfold MAX_MESSAGES_PER_QUEUE in *. mlia. }
  unfold free_msg. rewrite Hw, Z.leb_refl. rewrite scan_none; [cbn [obind]; apply scan_none | | |]; try lia.
  - intros k m Hk Hm. eapply full_slots; [done | done | | done]. lia.
  - intros k m Hk Hm. eapply full_slots; [done | done | | done]. lia.
Qed.

(** The message a read takes. *)
Lemma read_map_ok q a l dest :
  rep q (a :: l) -> (match dest with Some d => shkey_cmp (Some d) (Some (a_dest a)) | None => true end) = true ->
  shmsg_read_map q dest = Done (Some (read_idx q)).
Proof.
  intros Hr Hd. pose proof (rep_ridx _ _ Hr). pose proof (rep_len _ _ Hr) as Hl. cbn [length] in Hl.
  destruct (rep_slot q (a :: l) 0 a Hr eq_refl) as (qid & o & Hs & Hne & Hp). rewrite Z.add_0_r, idx_small in Hs by done.
  assert (shmsg_read_valid dest (mk_msg (a_src a) (a_dest a) qid (a_len a) o) = true) as HP.
  { unfold shmsg_read_valid, shkey_is_blank. cbn [src_key msg_size dest_key]. rewrite bool_decide_eq_false_2 by done.
    destruct (Z.eqb_spec (a_len a) 0); [lia | done]. }
  unfold shmsg_read_map. destruct (Z.leb_spec (write_idx q) (read_idx q)).
  - by rewrite (scan_first _ (msgs q) (read_idx q) _ _ Hs HP) by lia.
  - by rewrite (scan_first _ (msgs q) (read_idx q) _ _ Hs HP) by lia.
Qed.

(** A queue whose messages are all blank. *)
Definition idle (q : shmsgq_t) : Prop :=
  Z.of_nat (length (msgs q)) = NM /\ 0 <= read_idx q < NM /\ 0 <= write_idx q < NM /\
  forall k m, 0 <= k < NM -> msgs q !! Z.to_nat k = Some m -> src_key m = key_blank.

(** Nothing is read from it, and its next slot is free. *)
Lemma idle_read_map q dest : idle q -> shmsg_read_map q dest = Done None.
Proof.
  intros (Hlen & Hri & Hwi & Hall).
  assert (forall k m, 0 <= k < NM -> msgs q !! Z.to_nat k = Some m -> shmsg_read_valid dest m = false) as Hno.
  { intros k m Hk Hm. unfold shmsg_read_valid, shkey_is_blank. by rewrite bool_decide_eq_true_2 by (by eapply Hall). }
  unfold shmsg_read_map. destruct (Z.leb_spec (write_idx q) (read_idx q)).
  - rewrite scan_none; [cbn [obind]; apply scan_none | | |]; try lia; intros k m Hk; apply Hno; lia.
  - apply scan_none; try lia. intros k m Hk. apply Hno. lia.
Qed.

Lemma idle_free q : idle q -> free_msg q = Done (Some (write_idx q)).
Proof.
  intros (Hlen & Hri & Hwi & Hall). destruct (lookup_lt_is_Some_2 (msgs q) (Z.to_nat (write_idx q))) as [x Hx]; [lia |].
  assert (blank_src x = true) as Hb by (unfold blank_src, shkey_is_blank; apply bool_decide_eq_true_2; by eapply Hall).
  unfold free_msg. destruct (Z.leb_spec (read_idx q) (write_idx q)); by rewrite (scan_first blank_src (msgs q) (write_idx q) _ x Hx Hb) by lia.
Qed.

Lemma rep_idle q : rep q [] -> idle q.
Proof.
  intros Hr. pose proof (rep_ridx _ _ Hr) as Hri. pose proof (rep_msgs _ _ Hr) as Hlen.
  assert (write_idx q = read_idx q) as Hw.
  { rewrite (rep_widx _ _ Hr). cbn [length]. rewrite Z.add_0_r. by apply Z.mod_small. }
  split_and!; try (done || lia).
  intros k m Hk Hm. destruct (idx_reach (read_idx q) k Hri Hk) as (i & Hi & He).
  destruct (rep_free _ _ Hr i) as (m' & Hm' & Hb); [cbn; lia |]. rewrite He in Hm'. congruence.
Qed.

Lemma read_map_empty q dest : rep q [] -> shmsg_read_map q dest = Done None.
Proof. intros Hr. by apply idle_read_map, rep_idle. Qed.

(** ** The locked operations *)

Lemma write_locked_at qid self d body q w o :
  free_msg q = Done (Some w) -> data_slot q (Z.of_nat (length body)) = Some o ->
  Z.of_nat (length (msgs q)) = NM -> 0 <= w < NM -> Z.of_nat (length (qdata q)) = QUEUE_DATA ->
  0 <= o -> o + Z.of_nat (length body) <= QUEUE_DATA ->
  write_locked qid self (Some d) (shbuf_map body) q =
    Done (mk_queue 0 (qflags q) (read_idx q) (next_idx w) (read_of q) (o + Z.of_nat (length body))
            (<[Z.to_nat w := mk_msg self d (u32 qid) (Z.of_nat (length body)) o]> (msgs q))
            (take (Z.to_nat o) (qdata q) ++ body ++ drop (Z.to_nat o + length body) (qdata q)), 0).
Proof.
  intros Hw Ho Hm Hwr Hd Ho1 Ho2. unfold write_locked, shmsg_write_map. rewrite Hw. cbn [obind].
  unfold shmsg_write_map_data. cbn [shbuf_size shbuf_map data_of shbuf_data data].
  unfold data_slot in *. cbn [read_of write_of set_msgs msgs qdata lock_t qflags read_idx write_idx] in *. rewrite Ho.
  rewrite Nat2Z.id, mem_read_ok, drop_0, firstn_all by lia. cbn [obind]. rewrite mem_write_ok by lia. cbn [obind].
  rewrite list_lookup_insert_eq by (rewrite length_insert; lia). cbn [obind src_key dest_key ShMsg.msg_qid negb Z.eqb].
  rewrite !list_insert_insert_eq. unfold shmsg_unlock, set_lock. cbn [qflags read_idx write_idx read_of write_of msgs qdata].
  unfold QUEUE_DATA, MESSAGE_QUEUE_SIZE, QUEUE_HEADER, MAX_MESSAGES_PER_QUEUE in *.
  by rewrite (wrap_small 32 (Z.of_nat _)), (wrap_small 32 (o + _)), (wrap_small 32 o) by rlia.
Qed.

Lemma data_slot_end q l n : rep q l -> 0 <= n -> write_of q + n <= QUEUE_DATA -> data_slot q n = Some (write_of q).
Proof.
  intros Hr Hn Hfit. unfold data_slot. pose proof (total_nonneg l). pose proof (rep_rof _ _ Hr).
  rewrite (rep_wof _ _ Hr) in *. destruct (Z.leb_spec (read_of q) (read_of q + total l)); [|lia].
  cbn [andb]. unfold QUEUE_DATA, MESSAGE_QUEUE_SIZE, QUEUE_HEADER, MAX_MESSAGES_PER_QUEUE in *.
  rewrite wrap_small by rlia. destruct (Z.ltb_spec (4096000 - (32 + 80 * 2048) - (read_of q + total l)) n); [lia |].
  rewrite wrap_small by rlia. by destruct (Z.ltb_spec (4096000 - (32 + 80 * 2048) - (read_of q + total l)) n); [lia |].
Qed.

Lemma next_widx q l : rep q l -> next_idx (write_idx q) = (read_idx q + Z.of_nat (S (length l))) mod NM.
Proof.
  intros Hr. unfold next_idx. rewrite (rep_widx _ _ Hr), Zplus_mod_idemp_l. f_equal. lia.
Qed.

Lemma write_locked_ok qid self d body q l :
  rep q l -> Z.of_nat (length l) < NM -> self <> key_blank -> (0 < length body)%nat ->
  write_of q + Z.of_nat (length body) <= QUEUE_DATA ->
  exists q', write_locked qid self (Some d) (shbuf_map body) q = Done (q', 0) /\
    rep q' (l ++ [mk_amsg self d body]) /\ lock_t q' = 0 /\ qflags q' = qflags q /\
    write_of q' = write_of q + Z.of_nat (length body).
Proof.
  intros Hr Hl Hself Hb Hfit. pose proof (widx_range q l Hr) as Hw. pose proof (total_nonneg l) as Ht.
  pose proof (rep_rof _ _ Hr) as Hrof. pose proof (rep_wof _ _ Hr) as Hwof. pose proof (rep_msgs _ _ Hr) as Hm. pose proof (rep_data _ _ Hr) as Hdl.
  eexists. split.
  { apply (write_locked_at qid self d body q (write_idx q) (write_of q)); try done; try lia.
    - by apply (free_msg_ok q l).
    - apply (data_slot_end q l); [done | lia | done]. }
  split; [|done]. pose proof (rep_widx _ _ Hr) as Hwi.
  assert (forall k, 0 <= k < NM -> k <> Z.of_nat (length l) -> Z.to_nat (write_idx q) <> idx_of (read_idx q + k)) as Hne.
  { intros k Hk Hkn He. rewrite Hwi in He. apply idx_inj in He; lia. }
  constructor; cbn [msgs qdata read_idx write_idx read_of write_of].
  - by rewrite length_insert.
  - rewrite !length_app, length_take, length_drop. lia.
  - apply (rep_ridx _ _ Hr).
  - rewrite length_app. cbn [length]. lia.
  - rewrite (next_widx q l Hr), length_app. cbn [length]. do 2 f_equal. lia.
  - apply recs_app. split.
    + apply (recs_frame q _ (read_idx q)); [apply (rep_recs _ _ Hr) | done | done | |]; cbn [msgs qdata].
      * intros k Hk. apply list_lookup_insert_ne. apply Hne; lia.
      * rewrite Hwof, take_app_le by llia. by rewrite take_take, Nat.min_id.
    + cbn [recs a_src a_dest a_body]. unfold a_len. cbn [a_body]. rewrite <- Hwi, <- Hwof. split_and!; try done; try lia.
      * exists (u32 qid). cbn [msgs]. apply list_lookup_insert_eq. lia.
      * cbn [qdata]. rewrite drop_app_length', take_app_length; [done |]. llia.
  - intros k Hk. rewrite length_app in Hk. cbn [length] in Hk.
    rewrite list_lookup_insert_ne by (apply Hne; lia). apply (rep_free _ _ Hr). lia.
  - done.
  - rewrite total_app. cbn. unfold a_len. cbn [a_body]. lia.
  - lia.
Qed.

Lemma idx_next r k : idx_of (next_idx r + k) = idx_of (r + (k + 1)).
Proof. unfold next_idx. rewrite Zplus_mod_idemp_l. do 2 f_equal. lia. Qed.

Lemma read_locked_ok q a l dest :
  rep q (a :: l) -> (match dest with Some d => shkey_cmp (Some d) (Some (a_dest a)) | None => true end) = true ->
  exists q' m, read_locked dest q = Done (q', Some (m, a_body a)) /\ src_key m = a_src a /\
    rep q' l /\ lock_t q' = 0 /\ qflags q' = qflags q /\ write_of q' = write_of q.
Proof.
  intros Hr Hd. pose proof (rep_recs _ _ Hr) as Hrec. destruct Hrec as ((qid & Hm) & Hdat & Hne & Hpos & Hrec).
  pose proof (rep_ridx _ _ Hr) as Hri. rewrite idx_small in Hm by done. pose proof (total_nonneg l) as Ht.
  pose proof (rep_rof _ _ Hr) as Hrof. pose proof (rep_wof _ _ Hr) as Hwof. cbn in Hwof. fold (total l) in Hwof.
  pose proof (rep_fit _ _ Hr) as Hfit. pose proof (rep_data _ _ Hr) as Hdl. pose proof (rep_msgs _ _ Hr) as Hml.
  pose proof (rep_len _ _ Hr) as Hlen. cbn [length] in Hlen.
  eexists _, _. split.
  { unfold read_locked. rewrite (read_map_ok q a l dest Hr Hd). cbn [obind]. rewrite Hm.
    cbn [msg_of msg_size]. unfold a_len in *. rewrite mem_read_ok, Nat2Z.id, Hdat by lia. cbn [obind].
    rewrite Z.eqb_refl, wrap_small; [reflexivity |].
    unfold QUEUE_DATA, MESSAGE_QUEUE_SIZE, QUEUE_HEADER, MAX_MESSAGES_PER_QUEUE in *. rlia. }
  split; [done |]. split; [|done].
  assert (forall k, 0 <= k -> k + 1 < NM -> Z.to_nat (read_idx q) <> idx_of (read_idx q + (k + 1))) as Hoth.
  { intros k Hk Hk' He. rewrite <- (idx_small (read_idx q)) in He by done.
    replace (read_idx q) with (read_idx q + 0) in He at 1 by lia. apply idx_inj in He; lia. }
  constructor; cbn [shmsg_unlock set_lock msgs qdata read_idx write_idx read_of write_of].
  - by rewrite length_insert.
  - done.
  - by apply Z.mod_pos_bound.
  - lia.
  - unfold next_idx. rewrite Zplus_mod_idemp_l, (rep_widx _ _ Hr). cbn [length]. f_equal. lia.
  - apply (recs_frame q _ (read_idx q + 1)); [done | lia | unfold next_idx; by rewrite Zmod_mod | | done]; cbn [msgs].
    intros k Hk. replace (read_idx q + 1 + k) with (read_idx q + (k + 1)) by lia.
    apply list_lookup_insert_ne. apply Hoth; lia.
  - intros k Hk. rewrite idx_next. destruct (Z.eq_dec (k + 1) NM) as [He|Hne'].
    + rewrite He. replace (idx_of (read_idx q + NM)) with (Z.to_nat (read_idx q))
        by (rewrite <- (Z.mul_1_l NM) at 1; rewrite Z.mod_add by done; by rewrite Z.mod_small).
      eexists. split; [apply list_lookup_insert_eq; lia | done].
    + rewrite list_lookup_insert_ne by (apply Hoth; lia). apply (rep_free _ _ Hr). cbn [length]. lia.
  - unfold a_len in *. lia.
  - unfold a_len in *. lia.
  - done.
Qed.

(** ** The system calls *)

(** The file of the queue holds the messages of [l]; it is not locked and has no
    option set. *)
Definition sys_rep (i : Z) (s : msgsys) (l : list amsg) : Prop :=
  let q := default blank_queue (queues s !! i) in rep q l /\ lock_t q = 0 /\ qflags q = 0.

Lemma rep_lock q l t : rep q l -> rep (set_lock t q) l.
Proof. intros []. constructor; try done. apply (recs_frame q _ (read_idx q)); done. Qed.

Lemma rep_blank : rep blank_queue [].
Proof.
  constructor.
  - cbn [msgs blank_queue]. by rewrite length_replicate, Z2Nat.id.
  - cbn [qdata blank_queue]. by rewrite length_replicate, Z2Nat.id.
  - done.
  - done.
  - done.
  - done.
  - intros k Hk. exists blank_msg. split; [|done]. cbn [msgs blank_queue read_idx]. apply lookup_replicate. split; [done |].
    pose proof (Z.mod_pos_bound (0 + k) NM ltac:(done)). lia.
  - done.
  - done.
  - done.
Qed.

Lemma shkey_cmp_refl k : shkey_cmp (Some k) (Some k) = true.
Proof.
  cbn [shkey_cmp]. rewrite !Z.eqb_refl. cbn [negb]. induction (code k) as [|x l IH]; [done |]. cbn. by rewrite Z.eqb_refl.
Qed.

Section system.
Context (E : msgenv) (B : env) (HB : forall n, calloc_ok B n = true) (qid : Z) (Hqid : 0 <= qid)
  (Hmap : queue_ok E (Z.rem qid MAX_MESSAGE_QUEUES) = true).

Abbreviation qi := (Z.rem qid MAX_MESSAGE_QUEUES).

Lemma queue_map_ok s : shmsg_queue_map E qid s = Done (Some (qi, default blank_queue (queues s !! qi))).
Proof.
  unfold shmsg_queue_map. rewrite Hmap. destruct (Z.ltb_spec qi 0); [|done].
  pose proof (Z.rem_nonneg qid MAX_MESSAGE_QUEUES). unfold MAX_MESSAGE_QUEUES in *. lia.
Qed.

Lemma lock_ok t q : lock_t q = 0 -> shmsg_lock E t q = Some (set_lock (timeout E t) q).
Proof. intros H. unfold shmsg_lock. by rewrite H. Qed.

(** The process that makes the call. *)
Definition as_proc (k : shkey_t) (s : msgsys) : msgsys := mk_sys (queues s) (mticks s) (peer_map s) (peer_ref s) k.

Lemma write_ok_sys s l self d body :
  sys_rep qi s l -> Z.of_nat (length l) < NM -> self <> key_blank -> (0 < length body)%nat ->
  write_of (default blank_queue (queues s !! qi)) + Z.of_nat (length body) <= QUEUE_DATA ->
  Z.of_nat (length body) < QUEUE_DATA ->
  exists s', shmsg_write E qid (shbuf_map body) (Some d) (as_proc self s) = Done (s', 0) /\
    sys_rep qi s' (l ++ [mk_amsg self d body]) /\
    write_of (default blank_queue (queues s' !! qi)) = write_of (default blank_queue (queues s !! qi)) + Z.of_nat (length body).
Proof.
  intros (Hr & Hl0 & Hfl) Hl Hself Hb Hfit Hsz. set (q := default blank_queue (queues s !! qi)) in *.
  destruct (write_locked_ok qid self d body (set_lock (timeout E (mclock E (mticks s))) q) l)
    as (q' & He & Hr' & Hlk & Hfl' & Hwo); [by apply rep_lock | done | done | done | done |].
  eexists. split.
  - unfold shmsg_write. cbn [shbuf_size shbuf_map data_of]. destruct (Z.leb_spec QUEUE_DATA (Z.of_nat (length body))); [lia |].
    rewrite queue_map_ok. cbn [obind as_proc queues mticks peer_key]. fold q. rewrite lock_ok by done.
    rewrite He. cbn [obind]. reflexivity.
  - unfold sys_rep. cbn [with_tick with_queue queues as_proc]. rewrite lookup_insert_eq. cbn [from_option id].
    split; [|exact Hwo]. split; [done |]. split; [done |]. rewrite Hfl'. exact Hfl.
Qed.

(** A full queue. *)
Lemma write_full_sys s l self d body :
  sys_rep qi s l -> Z.of_nat (length l) = NM -> Z.of_nat (length body) < QUEUE_DATA ->
  exists s', shmsg_write E qid (shbuf_map body) (Some d) (as_proc self s) = Done (s', SHERR_AGAIN) /\ sys_rep qi s' l /\
    write_of (default blank_queue (queues s' !! qi)) = write_of (default blank_queue (queues s !! qi)).
Proof.
  intros (Hr & Hl0 & Hfl) Hl Hsz. set (q := default blank_queue (queues s !! qi)) in *.
  eexists. split.
  - unfold shmsg_write. cbn [shbuf_size shbuf_map data_of]. destruct (Z.leb_spec QUEUE_DATA (Z.of_nat (length body))); [lia |].
    rewrite queue_map_ok. cbn [obind as_proc queues mticks peer_key]. fold q. rewrite lock_ok by done.
    unfold write_locked, shmsg_write_map. rewrite (free_msg_full _ l) by (done || by apply rep_lock).
    cbn [obind set_lock qflags]. rewrite Hfl. reflexivity.
  - unfold sys_rep. cbn [with_tick with_queue queues as_proc]. rewrite lookup_insert_eq. cbn [from_option id].
    split; [|done]. split; [by apply rep_lock, rep_lock |]. split; [done | exact Hfl].
Qed.

Lemma read_ok_sys s a l d :
  sys_rep qi s (a :: l) -> a_dest a = d ->
  exists s' b, shmsg_read E B qid (Some shbuf_init) (as_proc d s) = Done (s', Some b, Some (a_src a), 0) /\
    contents b = a_body a /\ sys_rep qi s' l /\
    write_of (default blank_queue (queues s' !! qi)) = write_of (default blank_queue (queues s !! qi)).
Proof.
  intros (Hr & Hl0 & Hfl) Hd. set (q := default blank_queue (queues s !! qi)) in *.
  destruct (read_locked_ok (set_lock (timeout E (mclock E (mticks s))) q) a l (Some d))
    as (q' & m & He & Hs & Hr' & Hlk & Hfl' & Hwo); [by apply rep_lock | subst d; apply shkey_cmp_refl |].
  destruct (cat_ok B HB shbuf_init (a_body a)) as (b & Hb & _ & Hc & _); [apply wf_init | done | |].
  { pose proof (rep_fit _ _ Hr). pose proof (rep_wof _ _ Hr) as Hw. cbn in Hw. fold (total l) in Hw. pose proof (total_nonneg l).
    pose proof (rep_rof _ _ Hr). unfold a_len in *. cbn [data_of shbuf_init]. unfold GROW_LIMIT, INT_MAX.
    unfold QUEUE_DATA, MESSAGE_QUEUE_SIZE, QUEUE_HEADER, MAX_MESSAGES_PER_QUEUE in *. lia. }
  eexists _, b. split; [|split; [by rewrite Hc |]].
  - unfold shmsg_read. rewrite queue_map_ok. cbn [obind as_proc queues mticks peer_key]. fold q. rewrite Hfl, lock_ok by done. cbn [has_flag].
    change (if has_flag 0 SHMSGF_ANONYMOUS then None else Some d) with (Some d). rewrite He. cbn [obind]. rewrite Hb. cbn [obind]. rewrite Hs. reflexivity.
  - unfold sys_rep. cbn [with_tick with_queue queues as_proc]. rewrite lookup_insert_eq. cbn [from_option id].
    split; [|exact Hwo]. split; [done |]. split; [done |]. rewrite Hfl'. exact Hfl.
Qed.

Lemma read_empty_sys s d :
  sys_rep qi s [] ->
  exists s', shmsg_read E B qid (Some shbuf_init) (as_proc d s) = Done (s', Some shbuf_init, None, SHERR_NOMSG) /\ sys_rep qi s' [] /\
    write_of (default blank_queue (queues s' !! qi)) = write_of (default blank_queue (queues s !! qi)).
Proof.
  intros (Hr & Hl0 & Hfl). set (q := default blank_queue (queues s !! qi)) in *. eexists. split.
  - unfold shmsg_read. rewrite queue_map_ok. cbn [obind as_proc queues mticks peer_key]. fold q. rewrite Hfl, lock_ok by done.
    unfold read_locked. rewrite read_map_empty by (by apply rep_lock). cbn [obind]. reflexivity.
  - unfold sys_rep. cbn [with_tick with_queue queues as_proc]. rewrite lookup_insert_eq. cbn [from_option id].
    split; [|done]. split; [by apply rep_lock, rep_lock |]. split; [done | exact Hfl].
Qed.

(** Calls on the queue by several processes: senders with their own keys, all to
    the destination [d], and the process with that key, which receives. *)
Inductive call : Type :=
| Send (self : shkey_t) (body : bytes)
| Recv.

(** The code, and what a receive returns. *)
Definition answer : Type := Z * option (shkey_t * bytes).

Definition do_call (d : shkey_t) (c : call) (s : msgsys) : outcome (msgsys * answer) :=
  match c with
  | Send self body =>
      r <-! shmsg_write E qid (shbuf_map body) (Some d) (as_proc self s);
      Done (fst r, (snd r, None))
  | Recv =>
      r <-! shmsg_read E B qid (Some shbuf_init) (as_proc d s);
      let '(s, b, k, err) := r in
      Done (s, (err, match k, b with Some k, Some b => Some (k, contents b) | _, _ => None end))
  end.

Fixpoint do_calls (d : shkey_t) (cs : list call) (s : msgsys) : outcome (msgsys * list answer) :=
  match cs with
  | [] => Done (s, [])
  | c :: cs' =>
      r <-! do_call d c s;
      r' <-! do_calls d cs' (fst r);
      Done (fst r', snd r :: snd r')
  end.

(** The same calls on a list. *)
Definition fifo_call (d : shkey_t) (c : call) (l : list amsg) : list amsg * answer :=
  match c with
  | Send self body =>
      if decide (Z.of_nat (length l) < NM) then (l ++ [mk_amsg self d body], (0, None)) else (l, (SHERR_AGAIN, None))
  | Recv => match l with
            | [] => ([], (SHERR_NOMSG, None))
            | a :: l' => (l', (0, Some (a_src a, a_body a)))
            end
  end.

Fixpoint fifo_calls (d : shkey_t) (cs : list call) (l : list amsg) : list amsg * list answer :=
  match cs with
  | [] => (l, [])
  | c :: cs' => let r := fifo_call d c l in let r' := fifo_calls d cs' (fst r) in (fst r', snd r :: snd r')
  end.

Definition call_ok (c : call) : Prop :=
  match c with Send self body => self <> key_blank /\ (0 < length body)%nat | Recv => True end.

(** The bytes the calls send. *)
Definition sent (cs : list call) : Z :=
  foldr (fun c n => match c with Send _ body => Z.of_nat (length body) | Recv => 0 end + n) 0 cs.

Lemma sent_nonneg cs : 0 <= sent cs.
Proof. induction cs as [|c cs IH]; [done |]. cbn [sent foldr]. fold (sent cs). destruct c; lia. Qed.

Abbreviation used_bytes s := (write_of (default blank_queue (queues s !! qi))).

Lemma do_call_ok d c s l :
  sys_rep qi s l -> Forall (fun a => a_dest a = d) l -> call_ok c -> used_bytes s + sent [c] <= QUEUE_DATA ->
  sent [c] < QUEUE_DATA ->
  exists s', do_call d c s = Done (s', snd (fifo_call d c l)) /\ sys_rep qi s' (fst (fifo_call d c l)) /\
    Forall (fun a => a_dest a = d) (fst (fifo_call d c l)) /\ used_bytes s' <= used_bytes s + sent [c].
Proof.
  intros Hr Hall Hc Hfit Hlt. destruct c as [self body|]; cbn [sent foldr] in *; rewrite Z.add_0_r in *; cbn [do_call fifo_call].
  - destruct Hc as [Hs Hb]. pose proof (rep_len _ _ (proj1 Hr)) as Hlen. case_decide as Hn.
    + destruct (write_ok_sys s l self d body) as (s' & He & Hr' & Hw); try done.
      exists s'. rewrite He. cbn [obind fst snd]. split; [done |]. split; [done |]. split; [|lia].
      apply List.Forall_app. split; [done | by repeat constructor].
    + destruct (write_full_sys s l self d body) as (s' & He & Hr' & Hw); [done | lia | done |].
      exists s'. rewrite He. cbn [obind fst snd]. split_and!; try done. lia.
  - destruct l as [|a l].
    + destruct (read_empty_sys s d Hr) as (s' & He & Hr' & Hw). exists s'. rewrite He. cbn [obind fst snd]. split_and!; try done. lia.
    + apply List.Forall_cons_iff in Hall as [Ha Hall]. destruct (read_ok_sys s a l d Hr Ha) as (s' & b & He & Hb & Hr' & Hw).
      exists s'. rewrite He. cbn [obind fst snd]. rewrite Hb. split_and!; try done. lia.
Qed.

Lemma do_calls_ok d cs : forall s l,
  sys_rep qi s l -> Forall (fun a => a_dest a = d) l -> Forall call_ok cs -> used_bytes s + sent cs <= QUEUE_DATA ->
  sent cs < QUEUE_DATA ->
  exists s', do_calls d cs s = Done (s', snd (fifo_calls d cs l)) /\ sys_rep qi s' (fst (fifo_calls d cs l)).
Proof.
  induction cs as [|c cs IH]; intros s l Hr Hall Hok Hfit Hlt; [by exists s |].
  apply List.Forall_cons_iff in Hok as [Hc Hok]. pose proof (sent_nonneg cs). pose proof (sent_nonneg [c]).
  assert (sent (c :: cs) = sent [c] + sent cs) as Hs by (cbn; fold (sent cs); lia). rewrite Hs in *.
  destruct (do_call_ok d c s l) as (s1 & He1 & Hr1 & Hall1 & Hw1); [done | done | done | lia | lia |].
  destruct (IH s1 (fst (fifo_call d c l))) as (s2 & He2 & Hr2); [done | done | done | lia | lia |].
  exists s2. cbn [do_calls fifo_calls]. rewrite He1. cbn [obind fst snd]. rewrite He2. cbn [obind fst snd]. done.
Qed.
End system.

(** ** Properties *)

(** C6: On a queue that was never used, any interleaving of sends of non-empty
    messages by any processes to one destination, and of receives by that
    destination, behaves as a first-in first-out list of at most 2048 messages, as
    long as the bytes ever sent are fewer than the 3932128 of the data segment, so
    that its offsets do not wrap around: every receive returns the oldest message
    with its sender, and the full and the empty queue are reported. *)
Theorem shmsg_fifo E B qid d cs s :
  (forall n, calloc_ok B n = true) -> 0 <= qid -> queue_ok E (Z.rem qid MAX_MESSAGE_QUEUES) = true ->
  queues s !! Z.rem qid MAX_MESSAGE_QUEUES = None -> Forall call_ok cs -> sent cs < QUEUE_DATA ->
  exists s', do_calls E B qid d cs s = Done (s', snd (fifo_calls d cs [])) /\
    sys_rep (Z.rem qid MAX_MESSAGE_QUEUES) s' (fst (fifo_calls d cs [])).
Proof.
  intros HB Hq Hm Hnone Hok Hlt. apply (do_calls_ok E B HB qid Hq Hm); try done.
  - unfold sys_rep. rewrite Hnone. cbn [from_option]. split; [apply rep_blank | done].
  - rewrite Hnone. cbn [from_option blank_queue write_of]. lia.
Qed.

Definition key_a : shkey_t := mk_key 0 0 [1; 0; 0; 0; 0; 0; 0].
Definition key_b : shkey_t := mk_key 0 0 [2; 0; 0; 0; 0; 0; 0].
Definition demo_msgenv : msgenv := mk_msgenv (fun n => Z.of_nat n) (fun t => t + 1000) (fun _ => true).
Definition demo_sys : msgsys := mk_sys ∅ 0 None 0 key_blank.

Lemma shmsg_fifo_witness :
  exists s', do_calls demo_msgenv (demo_env true) 5 key_b [Send key_a (cstr "one"); Recv; Send key_b (cstr "two"); Recv; Recv] demo_sys
    = Done (s', [(0, None); (0, Some (key_a, cstr "one")); (0, None); (0, Some (key_b, cstr "two")); (SHERR_NOMSG, None)]).
Proof.
  destruct (shmsg_fifo demo_msgenv (demo_env true) 5 key_b [Send key_a (cstr "one"); Recv; Send key_b (cstr "two"); Recv; Recv] demo_sys)
    as (s' & H & _).
  - done.
  - done.
  - reflexivity.
  - reflexivity.
  - repeat (apply List.Forall_cons; [first [exact I | split; [discriminate | apply Nat.lt_0_succ]] |]). apply List.Forall_nil.
  - reflexivity.
  - exists s'. exact H.
Defined.

(** A process that receives a message which is not the first one moves the
    read index past the first message: that message stays in its slot and no
    process, nor one that reads every message, can receive it any more. *)
Theorem shmsg_read_loses q m1 m2 b :
  rep q [m1; m2] -> read_idx q = 0 ->
  shkey_cmp (Some b) (Some (a_dest m1)) = false -> shkey_cmp (Some b) (Some (a_dest m2)) = true ->
  exists q' m, read_locked (Some b) q = Done (q', Some (m, a_body m2)) /\
    (exists r, msgs q' !! 0%nat = Some r /\ src_key r = a_src m1 /\ msg_size r = a_len m1) /\
    forall dest, shmsg_read_map q' dest = Done None.
Proof.
  intros Hr H0 Hc1 Hc2. pose proof (rep_msgs _ _ Hr) as Hml. pose proof (rep_widx _ _ Hr) as Hw. rewrite H0 in Hw.
  change ((0 + Z.of_nat (length [m1; m2])) mod NM) with 2 in Hw.
  pose proof (rep_recs _ _ Hr) as ((q1 & Hm1) & Hd1 & Hs1 & Hp1 & (q2 & Hm2) & Hd2 & Hs2 & Hp2 & _). rewrite H0 in *.
  change (idx_of 0) with 0%nat in Hm1. change (idx_of (0 + 1)) with 1%nat in Hm2.
  pose proof (rep_wof _ _ Hr) as Hwo. cbn in Hwo. pose proof (rep_fit _ _ Hr). pose proof (rep_rof _ _ Hr). pose proof (rep_data _ _ Hr) as Hdl.
  set (r2 := mk_msg (a_src m2) (a_dest m2) q2 (a_len m2) (read_of q + a_len m1)) in *.
  set (r1 := mk_msg (a_src m1) (a_dest m1) q1 (a_len m1) (read_of q)) in *.
  assert (shmsg_read_map q (Some b) = Done (Some 1)) as Hmap.
  { unfold shmsg_read_map. rewrite H0, Hw. change (2 <=? 0) with false. cbv iota. change (Z.to_nat (2 - 0)) with 2%nat.
    cbn [scan_msgs]. change (Z.to_nat 0) with 0%nat. change (Z.to_nat (0 + 1)) with 1%nat. rewrite Hm1, Hm2.
    unfold shmsg_read_valid, shkey_is_blank, r1, r2. cbn [src_key msg_size dest_key]. rewrite !bool_decide_eq_false_2 by done.
    rewrite Hc1, Hc2. destruct (Z.eqb_spec (a_len m1) 0), (Z.eqb_spec (a_len m2) 0); (done || lia). }
  eexists _, r2. split; [|split].
  - unfold read_locked. rewrite Hmap. cbn [obind]. change (Z.to_nat 1) with 1%nat. rewrite Hm2. unfold r2 at 1 2. cbn [msg_of msg_size].
    unfold a_len in *. rewrite mem_read_ok, Nat2Z.id, Hd2 by lia. cbn [obind]. reflexivity.
  - exists r1. cbn [shmsg_unlock set_lock msgs]. split; [|done]. by rewrite list_lookup_insert_ne.
  - intros dest. unfold shmsg_read_map. cbn [shmsg_unlock set_lock msgs read_idx write_idx]. rewrite H0, Hw. change (next_idx 0) with 1.
    change (2 <=? 1) with false. cbv iota. change (Z.to_nat (2 - 1)) with 1%nat. cbn [scan_msgs]. change (Z.to_nat 1) with 1%nat.
    rewrite list_lookup_insert_eq by (unfold MAX_MESSAGES_PER_QUEUE in Hml; lia).
    unfold shmsg_read_valid, shkey_is_blank. cbn [src_key set_src].
    by rewrite bool_decide_eq_true_2.
Qed.

(** A queue with two messages. *)
Definition two_queue : shmsgq_t :=
  mk_queue 0 0 0 2 0 6
    (mk_msg key_a key_a 5 3 0 :: mk_msg key_a key_b 5 3 3 :: replicate (Z.to_nat 2046) blank_msg)
    (cstr "onetwo" ++ replicate (Z.to_nat (QUEUE_DATA - 6)) 0).

Lemma two_queue_rep : rep two_queue [mk_amsg key_a key_a (cstr "one"); mk_amsg key_a key_b (cstr "two")].
Proof.
  constructor.
  - cbn [msgs two_queue length]. rewrite length_replicate. done.
  - cbn [qdata two_queue]. rewrite length_app, length_replicate, Nat2Z.inj_add, Z2Nat.id by done. done.
  - done.
  - done.
  - done.
  - cbn [read_idx read_of two_queue recs]. split; [by exists 5 |]. split; [reflexivity |]. split; [discriminate |].
    split; [reflexivity |]. split; [by exists 5 |]. split; [reflexivity |]. split; [discriminate |]. split; [reflexivity | exact I].
  - intros k Hk. cbn [read_idx two_queue msgs] in *. cbn [length] in Hk. exists blank_msg. split; [|done].
    rewrite idx_small by lia. replace (Z.to_nat (0 + k)) with (S (S (Z.to_nat (k - 2)))) by lia. cbn [lookup list_lookup].
    apply lookup_replicate. split; [done |]. unfold MAX_MESSAGES_PER_QUEUE in Hk. lia.
  - done.
  - done.
  - done.
Qed.

Lemma shmsg_read_loses_witness :
  exists q' m, read_locked (Some key_b) two_queue = Done (q', Some (m, cstr "two")) /\ shmsg_read_map q' None = Done None.
Proof.
  destruct (shmsg_read_loses two_queue (mk_amsg key_a key_a (cstr "one")) (mk_amsg key_a key_b (cstr "two")) key_b)
    as (q' & m & H1 & _ & H2).
  - exact two_queue_rep.
  - reflexivity.
  - reflexivity.
  - reflexivity.
  - exists q', m. split; [exact H1 | exact (H2 None)].
Defined.

(** The data offsets of an empty queue that cannot take [n] bytes. *)
Definition jammed (q : shmsgq_t) (n : Z) : Prop := write_of q < read_of q /\ read_of q - write_of q < n.

Lemma jam_slot q n : jammed q n -> 0 <= write_of q -> read_of q <= QUEUE_DATA -> data_slot q n = None.
Proof.
  intros [H1 H2] H3 H4. unfold data_slot. destruct (Z.leb_spec (read_of q) (write_of q)); [lia |]. cbn [andb].
  unfold QUEUE_DATA, MESSAGE_QUEUE_SIZE, QUEUE_HEADER, MAX_MESSAGES_PER_QUEUE in *. rewrite wrap_small by rlia.
  destruct (Z.ltb_spec (read_of q - write_of q) n); [done | lia].
Qed.

Lemma gap_slot q n : write_of q + n = read_of q -> 0 < n -> 0 <= write_of q -> read_of q <= QUEUE_DATA -> data_slot q n = Some (write_of q).
Proof.
  intros H1 H2 H3 H4. unfold data_slot. destruct (Z.leb_spec (read_of q) (write_of q)); [lia |]. cbn [andb].
  unfold QUEUE_DATA, MESSAGE_QUEUE_SIZE, QUEUE_HEADER, MAX_MESSAGES_PER_QUEUE in *. rewrite wrap_small by rlia.
  destruct (Z.ltb_spec (read_of q - write_of q) n); [lia | done].
Qed.

Lemma data_slot_wrap q n :
  write_of q = read_of q -> 0 <= read_of q <= QUEUE_DATA -> QUEUE_DATA - read_of q < n <= read_of q -> data_slot q n = Some 0.
Proof.
  intros Hw Hr Hn. unfold data_slot. rewrite Hw, Z.leb_refl. cbn [andb].
  unfold QUEUE_DATA, MESSAGE_QUEUE_SIZE, QUEUE_HEADER, MAX_MESSAGES_PER_QUEUE in *. rewrite wrap_small by rlia.
  destruct (Z.ltb_spec (4096000 - (32 + 80 * 2048) - read_of q) n); [|lia]. rewrite Z.sub_0_r, wrap_small by rlia.
  destruct (Z.ltb_spec (read_of q) n); [lia | done].
Qed.

(** The last message of a queue: it is at the read index and the write index
    follows. *)
Lemma read_map_last q dest m :
  0 <= read_idx q < NM -> write_idx q = next_idx (read_idx q) ->
  msgs q !! Z.to_nat (read_idx q) = Some m -> shmsg_read_valid dest m = true ->
  shmsg_read_map q dest = Done (Some (read_idx q)).
Proof.
  intros Hr Hw Hm HP. unfold shmsg_read_map. rewrite Hw. unfold next_idx, MAX_MESSAGES_PER_QUEUE in *.
  destruct (Z.leb_spec ((read_idx q + 1) mod 2048) (read_idx q)).
  - by rewrite (scan_first _ (msgs q) (read_idx q) _ m Hm HP) by lia.
  - by rewrite (scan_first _ (msgs q) (read_idx q) _ m Hm HP) by lia.
Qed.

(** A message whose bytes are not at the read offset. *)
Lemma read_locked_at q dest m body :
  shmsg_read_map q dest = Done (Some (read_idx q)) -> msgs q !! Z.to_nat (read_idx q) = Some m -> msg_of m <> read_of q ->
  mem_read (qdata q) (Z.to_nat (msg_of m)) (Z.to_nat (msg_size m)) = Done body ->
  read_locked dest q = Done (mk_queue 0 (qflags q) (next_idx (read_idx q)) (write_idx q) (read_of q) (write_of q)
    (<[Z.to_nat (read_idx q) := set_src key_blank m]> (msgs q)) (qdata q), Some (m, body)).
Proof.
  intros Hmap Hm Hof Hd. unfold read_locked. rewrite Hmap. cbn [obind]. rewrite Hm, Hd. cbn [obind].
  by destruct (Z.eqb_spec (msg_of m) (read_of q)).
Qed.

(** Writing a slot of an idle queue with a blank message. *)
Lemma idle_insert q w m :
  idle q -> 0 <= w < NM -> src_key m = key_blank ->
  Z.of_nat (length (<[Z.to_nat w := m]> (msgs q))) = NM /\
  forall k x, 0 <= k < NM -> <[Z.to_nat w := m]> (msgs q) !! Z.to_nat k = Some x -> src_key x = key_blank.
Proof.
  intros (Hlen & _ & _ & Hall) Hw Hm. split; [by rewrite length_insert |]. intros k x Hk Hx.
  destruct (Z.eq_dec k w) as [->|Hne].
  - rewrite list_lookup_insert_eq in Hx by lia. congruence.
  - rewrite list_lookup_insert_ne in Hx by lia. by eapply Hall.
Qed.

(** A write whose bytes do not fit fails, keeps the offsets and the data, and
    leaves the queue idle. *)
Lemma write_locked_jam q qid self d body :
  idle q -> jammed q (Z.of_nat (length body)) -> 0 <= write_of q -> read_of q <= QUEUE_DATA ->
  exists q', write_locked qid self (Some d) (shbuf_map body) q = Done (q', SHERR_AGAIN) /\
    idle q' /\ read_of q' = read_of q /\ write_of q' = write_of q /\ qdata q' = qdata q.
Proof.
  intros Hi Hj H1 H2. pose proof (idle_free q Hi) as Hw. pose proof Hi as (_ & Hri & Hwi & _). eexists. split.
  - unfold write_locked, shmsg_write_map. rewrite Hw. cbn [obind]. unfold shmsg_write_map_data.
    cbn [shbuf_size shbuf_map data_of]. rewrite jam_slot by done. cbn [obind]. reflexivity.
  - split; [|done]. destruct Hi as (Hlen & _ & _ & Hall). unfold idle. unfold shmsg_unlock, set_lock, set_msgs. cbn [msgs read_idx write_idx].
    rewrite length_alter, !length_insert. split; [done |]. split; [done |]. split; [by apply Z.mod_pos_bound |]. intros k x Hk Hx.
    destruct (Z.eq_dec k (write_idx q)) as [->|Hne].
    + rewrite list_lookup_alter_eq in Hx. apply fmap_Some in Hx as (y & _ & ->). done.
    + rewrite list_lookup_alter_ne, !list_lookup_insert_ne in Hx by lia. by eapply Hall.
Qed.

(** Writes one after the other, each by its sender: the queue and the codes. *)
Fixpoint write_all (qid : Z) (d : shkey_t) (ws : list (shkey_t * bytes)) (q : shmsgq_t) : outcome (shmsgq_t * list Z) :=
  match ws with
  | [] => Done (q, [])
  | (self, body) :: ws' =>
      r <-! write_locked qid self (Some d) (shbuf_map body) q;
      let '(q, e) := r in
      r <-! write_all qid d ws' q;
      let '(q, es) := r in Done (q, e :: es)
  end.

Lemma write_all_jam qid d gap ws q :
  Forall (fun w => gap < Z.of_nat (length (snd w))) ws -> idle q -> 0 <= write_of q -> read_of q <= QUEUE_DATA ->
  0 < gap -> read_of q - write_of q = gap ->
  exists q', write_all qid d ws q = Done (q', map (fun _ => SHERR_AGAIN) ws) /\
    idle q' /\ read_of q' = read_of q /\ write_of q' = write_of q /\ qdata q' = qdata q.
Proof.
  intros Hws. revert q. induction Hws as [|[self body] ws Hw Hws IH]; intros q Hi H1 H2 Hgap Hg; [by exists q |].
  destruct (write_locked_jam q qid self d body) as (q1 & He & Hi1 & Hr1 & Hw1 & Hd1); [done | split; cbn in Hw; lia | done | done |].
  destruct (IH q1) as (q2 & He2 & Hi2 & Hr2 & Hw2 & Hd2); [done | lia | lia | done | lia |].
  exists q2. cbn [write_all map]. rewrite He. cbn [obind]. rewrite He2. cbn [obind]. split_and!; (done || congruence).
Qed.

(** C40: The bytes of a message that does not fit behind the others are stored at
    the start, and receiving it does not move the read offset, which stays where
    the bytes before it ended.  The queue is then empty, and yet it refuses any
    sequence of messages that are all longer than the gap between the end of the
    received message and that offset, however many are sent.  A message of exactly
    the length of the gap is still accepted, and ends this: the offsets are then
    equal and the space for messages is again that of the queue before. *)
Theorem shmsg_queue_jam q qid self d body dest :
  rep q [] -> self <> key_blank ->
  QUEUE_DATA - read_of q < Z.of_nat (length body) < read_of q ->
  (match dest with Some k => shkey_cmp (Some k) (Some d) | None => true end) = true ->
  exists q1 q2 m, write_locked qid self (Some d) (shbuf_map body) q = Done (q1, 0) /\
    read_locked dest q1 = Done (q2, Some (m, body)) /\
    let gap := read_of q - Z.of_nat (length body) in
    forall ws, Forall (fun w => gap < Z.of_nat (length (snd w))) ws ->
      exists q3, write_all qid d ws q2 = Done (q3, map (fun _ => SHERR_AGAIN) ws) /\
        (forall k, shmsg_read_map q3 k = Done None) /\
        forall self' body', Z.of_nat (length body') = gap ->
          exists q4, write_locked qid self' (Some d) (shbuf_map body') q3 = Done (q4, 0) /\
            forall n, data_slot q4 n = data_slot q n.
Proof.
  intros Hr Hself Hb Hd. pose proof (rep_ridx _ _ Hr) as Hri. pose proof (rep_wof _ _ Hr) as Hwo. cbn in Hwo. rewrite Z.add_0_r in Hwo.
  pose proof (rep_fit _ _ Hr) as Hfit. pose proof (rep_data _ _ Hr) as Hdl. pose proof (rep_msgs _ _ Hr) as Hml.
  pose proof (rep_rof _ _ Hr) as Hrof. pose proof (rep_idle _ Hr) as Hidle.
  assert (write_idx q = read_idx q) as Hw.
  { rewrite (rep_widx _ _ Hr). cbn [length]. rewrite Z.add_0_r. by apply Z.mod_small. }
  set (i := read_idx q) in *. set (n := Z.of_nat (length body)) in *. set (m := mk_msg self d (u32 qid) n 0).
  set (q1 := mk_queue 0 (qflags q) i (next_idx i) (read_of q) (0 + n) (<[Z.to_nat i := m]> (msgs q))
              (take (Z.to_nat 0) (qdata q) ++ body ++ drop (Z.to_nat 0 + length body) (qdata q))).
  assert (write_locked qid self (Some d) (shbuf_map body) q = Done (q1, 0)) as H1.
  { apply write_locked_at; try done; try lia.
    - rewrite <- Hw. by apply idle_free.
    - apply data_slot_wrap; [done | lia | fold n; lia]. }
  assert (msgs q1 !! Z.to_nat i = Some m) as Hm by (cbn [msgs q1]; apply list_lookup_insert_eq; lia).
  assert (shmsg_read_map q1 dest = Done (Some i)) as H2.
  { apply (read_map_last q1 dest m); [done | done | done |]. unfold shmsg_read_valid, shkey_is_blank. cbn [m src_key msg_size dest_key].
    rewrite bool_decide_eq_false_2 by done. destruct (Z.eqb_spec n 0); [unfold QUEUE_DATA, MESSAGE_QUEUE_SIZE, QUEUE_HEADER, MAX_MESSAGES_PER_QUEUE in *; lia | done]. }
  pose proof (read_locked_at q1 dest m body H2 Hm) as H3. cbn [m msg_of read_of q1] in H3.
  set (q2 := mk_queue 0 (qflags q1) (next_idx (read_idx q1)) (write_idx q1) (read_of q1) (write_of q1)
    (<[Z.to_nat (read_idx q1) := set_src key_blank m]> (msgs q1)) (qdata q1)) in *.
  assert (0 <= next_idx i < NM) as Hnx by (by apply Z.mod_pos_bound).
  assert (idle q2) as Hi2.
  { destruct (idle_insert q i (set_src key_blank m) Hidle Hri eq_refl) as [HL HB].
    unfold idle. cbn [q2 q1 msgs read_idx write_idx]. rewrite list_insert_insert_eq. done. }
  assert (Z.of_nat (length (qdata q2)) = QUEUE_DATA) as Hd2 by (cbn [q2 q1 qdata]; change (Z.to_nat 0) with 0%nat; llia).
  exists q1, q2, m. split; [exact H1 |]. split.
  { apply H3; [lia |]. cbn [q1 qdata msg_size m]. unfold n. rewrite Nat2Z.id. change (Z.to_nat 0) with 0%nat.
    rewrite take_0, app_nil_l, mem_read_ok by llia. by rewrite drop_0, take_app_length. }
  intros gap ws Hws.
  destruct (write_all_jam qid d gap ws q2 Hws Hi2) as (q3 & He & Hi3 & Hr3 & Hw3 & Hd3); cbn [q2 q1 read_of write_of]; try lia.
  exists q3. split; [done |]. split; [intros k; by apply idle_read_map |]. intros self' body' Hl.
  cbn [q2 q1 read_of write_of] in Hr3, Hw3. pose proof Hi3 as (HL3 & _ & Hwi3 & _).
  eexists. split.
  - apply write_locked_at; [by apply idle_free | apply gap_slot; lia | done | done | by rewrite Hd3 | lia | lia].
  - intros k. unfold data_slot. cbn [read_of write_of]. rewrite Hr3, Hw3, Hl, Hwo. by replace (0 + n + gap) with (read_of q) by lia.
Qed.

(** An empty queue whose offsets have moved to two million. *)
Definition moved_queue : shmsgq_t :=
  mk_queue 0 0 7 7 2000000 2000000 (msgs blank_queue) (qdata blank_queue).

Lemma moved_queue_rep : rep moved_queue [].
Proof.
  pose proof rep_blank as Hb. constructor.
  - exact (rep_msgs _ _ Hb).
  - exact (rep_data _ _ Hb).
  - done.
  - done.
  - done.
  - done.
  - intros k Hk. exists blank_msg. split; [|done]. cbn [msgs moved_queue blank_queue read_idx]. apply lookup_replicate. split; [done |].
    pose proof (Z.mod_pos_bound (7 + k) NM ltac:(done)). lia.
  - done.
  - done.
  - done.
Qed.

Lemma shmsg_queue_jam_witness :
  exists q1 q2 m, write_locked 5 key_a (Some key_b) (shbuf_map (replicate (Z.to_nat 1950000) 65)) moved_queue = Done (q1, 0) /\
    read_locked (Some key_b) q1 = Done (q2, Some (m, replicate (Z.to_nat 1950000) 65)) /\
    let long := replicate (Z.to_nat 50001) 65 in
    exists q3, write_all 5 key_b [(key_a, long); (key_b, long); (key_a, long)] q2 = Done (q3, [SHERR_AGAIN; SHERR_AGAIN; SHERR_AGAIN]) /\
      shmsg_read_map q3 None = Done None /\
      exists q4, write_locked 5 key_a (Some key_b) (shbuf_map (replicate (Z.to_nat 50000) 65)) q3 = Done (q4, 0).
Proof.
  destruct (shmsg_queue_jam moved_queue 5 key_a key_b (replicate (Z.to_nat 1950000) 65) (Some key_b)) as (q1 & q2 & m & H1 & H2 & H3).
  - exact moved_queue_rep.
  - discriminate.
  - rewrite length_replicate, Z2Nat.id by done. split; reflexivity.
  - apply shkey_cmp_refl.
  - exists q1, q2, m. split; [exact H1 |]. split; [exact H2 |]. intros long.
    destruct (H3 [(key_a, long); (key_b, long); (key_a, long)]) as (q3 & H4 & H5 & H6).
    { repeat (apply List.Forall_cons; [cbn [snd]; unfold long; rewrite !length_replicate, !Z2Nat.id by done; reflexivity |]). apply List.Forall_nil. }
    exists q3. split; [exact H4 |]. split; [exact (H5 None) |].
    destruct (H6 key_a (replicate (Z.to_nat 50000) 65)) as (q4 & H7 & _); [|exists q4; exact H7].
    rewrite !length_replicate, !Z2Nat.id by done. reflexivity.
Defined.
