(* ===== verification/ShTree.v ===== *)
(** * Trees

    Models [share-lib/mem/shmem_tree.c].  Nodes live in a store of allocations;
    a pointer is the number of its node.  The data segments of the caller are
    blocks of another store, which the tree may own; releasing a node or a block
    that is not allocated is a [Fault].  The recursive functions have fuel, which
    bounds the depth.

    The abstract value is a binary tree of node numbers and data pointers. *)

From Stdlib Require Import ZArith Lia.
From stdpp Require Import base numbers list gmap.
From S2P Require Import Prelude.

Open Scope Z_scope.

Definition SHTREE_ORDER_PRE : Z := 1.
Definition SHTREE_ORDER_IN : Z := 2.
Definition SHTREE_ORDER_POST : Z := 3.
Definition SHTREE_DEALLOC : Z := 4096.

Record shtree_t : Type := mk_tree {
  root : option nat;
  parent : option nat;
  left : option nat;
  right : option nat;
  tdata : option nat;
  stamp : Z;
  level : Z;
  tflags : Z
}.

Record store : Type := mk_store {
  nodes : gmap nat shtree_t;
  fresh : nat;                  (* the next node number *)
  blocks : gset nat;            (* the caller's blocks that are allocated *)
  sticks : nat
}.

Record treeenv : Type := mk_treeenv { tclock : nat -> Z; node_ok : nat -> bool }.

Definition set_left (p : option nat) (n : shtree_t) : shtree_t :=
  mk_tree (root n) (parent n) p (right n) (tdata n) (stamp n) (level n) (tflags n).
Definition set_right (p : option nat) (n : shtree_t) : shtree_t :=
  mk_tree (root n) (parent n) (left n) p (tdata n) (stamp n) (level n) (tflags n).
Definition set_stamp (t : Z) (n : shtree_t) : shtree_t :=
  mk_tree (root n) (parent n) (left n) (right n) (tdata n) t (level n) (tflags n).
Definition set_data (d : option nat) (n : shtree_t) : shtree_t :=
  mk_tree (root n) (parent n) (left n) (right n) d (stamp n) (level n) (tflags n).
Definition set_tflags (v : Z) (n : shtree_t) : shtree_t :=
  mk_tree (root n) (parent n) (left n) (right n) (tdata n) (stamp n) (level n) v.

(** Access through a pointer. *)
Definition deref (p : nat) (s : store) : outcome shtree_t :=
  match nodes s !! p with Some n => Done n | None => Fault end.
Definition update (p : nat) (f : shtree_t -> shtree_t) (s : store) : outcome store :=
  n <-! deref p s; Done (mk_store (<[p := f n]> (nodes s)) (fresh s) (blocks s) (sticks s)).

Section operations.
Context (E : treeenv).

Definition shtree_data_set (node : nat) (d : option nat) (s : store) : outcome store := update node (set_data d) s.
Definition shtree_data_get (node : option nat) (s : store) : outcome (option nat) :=
  match node with None => Done None | Some p => n <-! deref p s; Done (tdata n) end.

(** The node, [None] when no memory is left.  The clock is read for the parent
    and for the node. *)
Definition shtree_new (tree : option nat) (d : option nat) (s : store) : outcome (store * option nat) :=
  if negb (node_ok E (fresh s)) then Done (s, None)
  else
    let p := fresh s in
    match tree with
    | None =>
        let n := mk_tree (Some p) None None None d (tclock E (sticks s)) 0 0 in
        Done (mk_store (<[p := n]> (nodes s)) (S p) (blocks s) (S (sticks s)), Some p)
    | Some t =>
        tn <-! deref t s;
        let n := mk_tree (root tn) (Some t) None None d (tclock E (S (sticks s))) (level tn + 1) 0 in
        Done (mk_store (<[p := n]> (<[t := set_stamp (tclock E (sticks s)) tn]> (nodes s))) (S p) (blocks s)
                (S (S (sticks s))), Some p)
    end.

Definition shtree_init (flags : Z) (s : store) : outcome (store * option nat) :=
  r <-! shtree_new None None s;
  match snd r with
  | None => Done (fst r, None)
  | Some p => s <-! update p (set_tflags flags) (fst r); Done (s, Some p)
  end.

Definition shtree_root_flags (node : option nat) (s : store) : outcome Z :=
  match node with
  | None => Done 0
  | Some p =>
      n <-! deref p s;
      match root n with
      | None => Done 0
      | Some r => rn <-! deref r s; Done (tflags rn)
      end
  end.

Definition free_block (b : nat) (s : store) : outcome store :=
  if decide (b ∈ blocks s) then Done (mk_store (nodes s) (fresh s) (blocks s ∖ {[b]}) (sticks s)) else Fault.
Definition free_mem (p : nat) (s : store) : outcome store :=
  _ <-! deref p s; Done (mk_store (delete p (nodes s)) (fresh s) (blocks s) (sticks s)).

Fixpoint shtree_free_node (fuel : nat) (node : nat) (s : store) : outcome store :=
  match fuel with
  | O => Fault
  | S fuel' =>
      n <-! deref node s;
      s <-! (match left n with Some l => shtree_free_node fuel' l s | None => Done s end);
      s <-! (match right n with Some r => shtree_free_node fuel' r s | None => Done s end);
      fl <-! shtree_root_flags (Some node) s;
      s <-! (if Z.land fl SHTREE_DEALLOC =? 0 then Done s
             else match tdata n with Some d => free_block d s | None => Done s end);
      free_mem node s
  end.

Definition shtree_remove_branch := shtree_free_node.

Definition shtree_left_new (fuel : nat) (tree : nat) (d : option nat) (s : store) : outcome (store * option nat) :=
  n <-! deref tree s;
  s <-! (match left n with
         | Some l => s <-! shtree_remove_branch fuel l s; update tree (set_left None) s
         | None => Done s
         end);
  r <-! shtree_new (Some tree) d s;
  match snd r with
  | None => Done (fst r, None)
  | Some p => s <-! update p (set_data d) (fst r); s <-! update tree (set_left (Some p)) s; Done (s, Some p)
  end.

Definition shtree_right_new (fuel : nat) (tree : nat) (d : option nat) (s : store) : outcome (store * option nat) :=
  n <-! deref tree s;
  s <-! (match right n with
         | Some r => s <-! shtree_remove_branch fuel r s; update tree (set_right None) s
         | None => Done s
         end);
  r <-! shtree_new (Some tree) d s;
  match snd r with
  | None => Done (fst r, None)
  | Some p => s <-! update p (set_data d) (fst r); s <-! update tree (set_right (Some p)) s; Done (s, Some p)
  end.

Definition shtree_right (t : nat) (s : store) : outcome (option nat) := n <-! deref t s; Done (right n).
Definition shtree_left (t : nat) (s : store) : outcome (option nat) := n <-! deref t s; Done (left n).
Definition shtree_leaf (t : nat) (s : store) : outcome bool :=
  n <-! deref t s; Done (match left n, right n with None, None => true | _, _ => false end).
Definition shtree_root (t : nat) (s : store) : outcome (option nat) := n <-! deref t s; Done (root n).
Definition shtree_parent (t : nat) (s : store) : outcome (option nat) := n <-! deref t s; Done (parent n).
Definition shtree_flags (t : nat) (s : store) : outcome Z := n <-! deref t s; Done (tflags n).

(** The nodes a traversal passes to the callback, in order; the callback does not
    change the tree. *)
Fixpoint shtree_traverse_pre (fuel : nat) (node : option nat) (s : store) : outcome (list nat) :=
  match node with
  | None => Done []
  | Some p =>
      match fuel with
      | O => Fault
      | S fuel' =>
          n <-! deref p s;
          a <-! shtree_traverse_pre fuel' (left n) s;
          b <-! shtree_traverse_pre fuel' (right n) s;
          Done (p :: a ++ b)
      end
  end.

Definition shtree_traverse_in (fuel : nat) (node : option nat) (s : store) : outcome (list nat) :=
  match node with
  | None => Done []
  | Some p =>
      n <-! deref p s;
      a <-! shtree_traverse_pre fuel (left n) s;
      b <-! shtree_traverse_pre fuel (right n) s;
      Done (a ++ p :: b)
  end.

Definition shtree_traverse_post (fuel : nat) (node : option nat) (s : store) : outcome (list nat) :=
  match node with
  | None => Done []
  | Some p =>
      n <-! deref p s;
      a <-! shtree_traverse_pre fuel (left n) s;
      b <-! shtree_traverse_pre fuel (right n) s;
      Done (a ++ b ++ [p])
  end.

Definition shtree_traverse (fuel : nat) (node : option nat) (order : Z) (s : store) : outcome (list nat) :=
  if order =? SHTREE_ORDER_PRE then shtree_traverse_pre fuel node s
  else if order =? SHTREE_ORDER_IN then shtree_traverse_in fuel node s
  else if order =? SHTREE_ORDER_POST then shtree_traverse_post fuel node s
  else Done [].

Definition shtree_free (fuel : nat) (tree : option nat) (s : store) : outcome store :=
  match tree with None => Done s | Some p => shtree_free_node fuel p s end.

End operations.

(** ** Abstract trees *)

Inductive tree : Type :=
| Leaf
| Node (p : nat) (d : option nat) (l r : tree).

Fixpoint ids (t : tree) : list nat :=
  match t with Leaf => [] | Node p _ l r => p :: ids l ++ ids r end.
Fixpoint datas (t : tree) : list nat :=
  match t with Leaf => [] | Node _ d l r => (match d with Some x => [x] | None => [] end) ++ datas l ++ datas r end.
Fixpoint depth (t : tree) : nat :=
  match t with Leaf => 0 | Node _ _ l r => S (depth l `max` depth r) end.
Definition ptr_of (t : tree) : option nat := match t with Leaf => None | Node p _ _ _ => Some p end.

(** The nodes of the tree in the store: links, root, parent and level. *)
Fixpoint tree_at (m : gmap nat shtree_t) (rt par : option nat) (lv : Z) (t : tree) : Prop :=
  match t with
  | Leaf => True
  | Node p d l r =>
      (exists n, m !! p = Some n /\ root n = rt /\ parent n = par /\ level n = lv /\ tdata n = d /\
                 left n = ptr_of l /\ right n = ptr_of r) /\
      tree_at m rt (Some p) (lv + 1) l /\ tree_at m rt (Some p) (lv + 1) r
  end.

Lemma tree_at_frame m m' rt par lv t :
  tree_at m rt par lv t -> (forall p, p ∈ ids t -> m' !! p = m !! p) -> tree_at m' rt par lv t.
Proof.
  revert par lv. induction t as [|p d l IHl r IHr]; intros par lv; [done |]. intros ((n & Hn & Hf) & Hl & Hr) Hm.
  cbn [ids] in Hm. split_and!.
  - exists n. rewrite Hm by apply list_elem_of_here. done.
  - apply IHl; [done |]. intros q Hq. apply Hm. right. apply elem_of_app. by left.
  - apply IHr; [done |]. intros q Hq. apply Hm. right. apply elem_of_app. by right.
Qed.

Lemma tree_at_some m rt par lv t : tree_at m rt par lv t -> forall q, q ∈ ids t -> is_Some (m !! q).
Proof.
  revert par lv. induction t as [|p d l IHl r IHr]; intros par lv; [intros _ q Hq; by apply not_elem_of_nil in Hq |].
  intros ((n & Hn & _) & Hl & Hr) q. cbn [ids]. rewrite elem_of_cons, elem_of_app. intros [-> | [Hq | Hq]]; eauto.
Qed.

(** ** Releasing *)

(** The effect of releasing the nodes of [t] and, when [owned], their data. *)
Definition freed (owned : bool) (s s' : store) (t : tree) : Prop :=
  (forall q, q ∈ ids t -> nodes s' !! q = None) /\ (forall q, q ∉ ids t -> nodes s' !! q = nodes s !! q) /\
  blocks s' = blocks s ∖ (if owned then list_to_set (datas t) else ∅) /\ fresh s' = fresh s /\ sticks s' = sticks s.

Definition owns (rn : shtree_t) : bool := negb (Z.land (tflags rn) SHTREE_DEALLOC =? 0).

Definition data_ok (owned : bool) (s : store) (t : tree) : Prop :=
  owned = true -> NoDup (datas t) /\ forall x, x ∈ datas t -> x ∈ blocks s.

(** What releasing a branch requires. *)
Definition branch (r : nat) (rn : shtree_t) (s : store) (par : option nat) (lv : Z) (t : tree) : Prop :=
  tree_at (nodes s) (Some r) par lv t /\ NoDup (ids t) /\ nodes s !! r = Some rn /\ data_ok (owns rn) s t.

Definition free_opt (fuel : nat) (o : option nat) (s : store) : outcome store :=
  match o with Some p => shtree_free_node fuel p s | None => Done s end.

Lemma free_node_eq fuel p s n :
  nodes s !! p = Some n ->
  shtree_free_node (S fuel) p s =
    (s <-! free_opt fuel (left n) s;
     s <-! free_opt fuel (right n) s;
     fl <-! shtree_root_flags (Some p) s;
     s <-! (if Z.land fl SHTREE_DEALLOC =? 0 then Done s else match tdata n with Some d => free_block d s | None => Done s end);
     free_mem p s).
Proof. intros Hn. cbn [shtree_free_node]. unfold deref. by rewrite Hn. Qed.

(** The last steps for a node whose branches are released. *)
Lemma free_self p d r rn n s :
  nodes s !! p = Some n -> root n = Some r -> nodes s !! r = Some rn ->
  (owns rn = true -> forall x, d = Some x -> x ∈ blocks s) ->
  exists s', (fl <-! shtree_root_flags (Some p) s;
     s <-! (if Z.land fl SHTREE_DEALLOC =? 0 then Done s else match d with Some d => free_block d s | None => Done s end);
     free_mem p s) = Done s' /\
    nodes s' = delete p (nodes s) /\
    blocks s' = blocks s ∖ (if owns rn then match d with Some x => {[x]} | None => ∅ end else ∅) /\
    fresh s' = fresh s /\ sticks s' = sticks s.
Proof.
  intros Hn Hr Hrn Hd. unfold shtree_root_flags, deref. rewrite Hn. cbn [obind]. rewrite Hr, Hrn. cbn [obind].
  unfold owns in *. destruct (Z.land (tflags rn) SHTREE_DEALLOC =? 0) eqn:Hf; cbn [negb] in *.
  - cbn [obind]. unfold free_mem, deref. rewrite Hn. cbn [obind]. eexists. split; [done |]. split_and!; try done. cbn [blocks]. set_solver.
  - destruct d as [x|]; cbn [obind].
    + unfold free_block. rewrite decide_True by (by apply Hd). cbn [obind]. unfold free_mem, deref. cbn [nodes]. rewrite Hn. cbn [obind].
      eexists. by split.
    + unfold free_mem, deref. rewrite Hn. cbn [obind]. eexists. split; [done |]. split_and!; try done. cbn [blocks]. set_solver.
Qed.

(** The root is not below the node. *)
Definition root_above (r : nat) (t : tree) : Prop :=
  match t with Leaf => True | Node _ _ a b => r ∉ ids a ++ ids b end.

Lemma root_above_notin r t : r ∉ ids t -> root_above r t.
Proof. destruct t; [done |]. intros H. cbn in *. apply not_elem_of_cons in H as [_ H]. done. Qed.

(** Freeing one branch keeps what the other requires. *)
Lemma branch_freed r rn s s' par lv a b :
  branch r rn s par lv b -> freed (owns rn) s s' a -> (forall q, q ∈ ids b -> q ∉ ids a) -> r ∉ ids a ->
  (owns rn = true -> forall x, x ∈ datas b -> x ∉ datas a) -> branch r rn s' par lv b.
Proof.
  intros (Ht & Hnd & Hr & Hd) (_ & Hk & Hb & _) Hdis Hra Hdd. split_and!.
  - apply (tree_at_frame (nodes s)); [done |]. intros q Hq. apply Hk. by apply Hdis.
  - done.
  - by rewrite Hk.
  - intros Ho. destruct (Hd Ho) as [H1 H2]. split; [done |]. intros x Hx. rewrite Hb, Ho. apply elem_of_difference.
    split; [by apply H2 |]. rewrite elem_of_list_to_set. by apply Hdd.
Qed.

Lemma datas_node p d a b : datas (Node p d a b) = (match d with Some x => [x] | None => [] end) ++ datas a ++ datas b.
Proof. reflexivity. Qed.

Lemma free_ok r rn t : forall fuel s par lv,
  branch r rn s par lv t -> (depth t <= fuel)%nat -> root_above r t ->
  exists s', free_opt fuel (ptr_of t) s = Done s' /\ freed (owns rn) s s' t.
Proof.
  induction t as [|p d a IHa b IHb]; intros fuel s par lv Hbr Hfuel Hroot.
  { exists s. split; [done |]. split_and!; [| done | | done | done].
    - intros q Hq. by apply not_elem_of_nil in Hq.
    - cbn [datas]. destruct (owns rn); set_solver. }
  pose proof Hbr as (((n & Hn & Hrt & Hpar & Hlv & Hdt & Hle & Hri) & Ha & Hb) & Hnd & Hrn & Hd).
  cbn [depth] in Hfuel. destruct fuel as [|fuel]; [lia |]. cbn [ids] in Hnd.
  apply NoDup_cons in Hnd as [Hp Hnd]. apply NoDup_app in Hnd as (Hna & Hdis & Hnb).
  cbn [root_above] in Hroot. rewrite not_elem_of_app in Hp, Hroot. destruct Hp as [Hpa Hpb], Hroot as [Hra Hrb].
  assert (owns rn = true -> NoDup (datas a) /\ NoDup (datas b) /\ (forall x, x ∈ datas b -> x ∉ datas a) /\
    (forall x, d = Some x -> (x ∉ datas a) /\ (x ∉ datas b))) as Hdd.
  { intros Ho. destruct (Hd Ho) as [H1 _]. rewrite datas_node in H1. apply NoDup_app in H1 as (_ & H2 & H3).
    apply NoDup_app in H3 as (H4 & H5 & H6). split_and!; try done; [intros x Hx Hx'; by apply (H5 x) |].
    intros x ->. specialize (H2 x (list_elem_of_here _ _)). rewrite not_elem_of_app in H2. tauto. }
  assert (forall x, x ∈ datas a \/ x ∈ datas b \/ d = Some x -> x ∈ datas (Node p d a b)) as Hin.
  { intros x Hx. rewrite datas_node, !elem_of_app. destruct Hx as [ | [ | -> ]]; [tauto | tauto | left; apply list_elem_of_here]. }
  destruct (IHa fuel s (Some p) (lv + 1)) as (s1 & He1 & Hf1); [| lia | by apply root_above_notin |].
  { split_and!; try done. intros Ho. split; [by apply Hdd |]. intros x Hx. apply (proj2 (Hd Ho)). auto. }
  destruct (IHb fuel s1 (Some p) (lv + 1)) as (s2 & He2 & Hf2); [| lia | by apply root_above_notin |].
  { apply (branch_freed r rn s s1 _ _ a b); [| done | by intros q Hq Hq'; apply (Hdis q) | done | by intros Ho; apply Hdd].
    split_and!; try done. intros Ho. split; [by apply Hdd |]. intros x Hx. apply (proj2 (Hd Ho)). auto. }
  destruct Hf1 as (F1 & K1 & B1 & N1 & T1), Hf2 as (F2 & K2 & B2 & N2 & T2).
  destruct (free_self p d r rn n s2) as (s3 & He3 & Hn3 & B3 & N3 & T3).
  { by rewrite K2, K1. } { done. } { by rewrite K2, K1. }
  { intros Ho x ->. rewrite B2, B1, Ho, !elem_of_difference, !elem_of_list_to_set.
    destruct (Hdd Ho) as (_ & _ & _ & Hx). split; [split; [apply (proj2 (Hd Ho)); auto |] |]; by apply Hx. }
  exists s3. split.
  - cbn [ptr_of free_opt]. rewrite (free_node_eq fuel p s n Hn), Hle, He1. cbn [obind]. rewrite Hri, He2. cbn [obind].
    rewrite Hdt. exact He3.
  - split_and!; try congruence.
    + intros q. cbn [ids]. rewrite Hn3. intros [-> | [Hq | Hq]%elem_of_app]%elem_of_cons; [by rewrite lookup_delete_eq | |].
      * apply lookup_delete_None. right. rewrite K2 by (intros Hq'; by apply (Hdis q)). by apply F1.
      * apply lookup_delete_None. right. by apply F2.
    + intros q. cbn [ids]. rewrite not_elem_of_cons, not_elem_of_app. intros (Hq & Hqa & Hqb).
      rewrite Hn3, lookup_delete_ne by congruence. by rewrite K2, K1.
    + rewrite B3, B2, B1. destruct (owns rn); [|set_solver]. rewrite datas_node.
      destruct d; rewrite ?list_to_set_app_L; cbn [list_to_set]; set_solver.
Qed.

(** ** Replacing a branch *)

Fixpoint subtree (p : nat) (t : tree) : option tree :=
  match t with
  | Leaf => None
  | Node q _ l r => if decide (q = p) then Some t else match subtree p l with Some u => Some u | None => subtree p r end
  end.

Fixpoint graft (p : nat) (u t : tree) : tree :=
  match t with
  | Leaf => Leaf
  | Node q d l r => if decide (q = p) then u else Node q d (graft p u l) (graft p u r)
  end.

Lemma subtree_elem p t u : subtree p t = Some u -> p ∈ ids t.
Proof.
  induction t as [|q d l IHl r IHr]; cbn; [done |]. case_decide as Hq; [subst; intros _; apply list_elem_of_here |].
  rewrite elem_of_cons, elem_of_app. destruct (subtree p l); intros H; auto.
Qed.

Lemma graft_id p u t : p ∉ ids t -> graft p u t = t.
Proof.
  induction t as [|q d l IHl r IHr]; cbn; [done |]. rewrite not_elem_of_cons, not_elem_of_app. intros (Hq & Hl & Hr).
  rewrite decide_False by done. by rewrite IHl, IHr.
Qed.

Lemma ptr_graft p u t : ptr_of u = Some p -> ptr_of (graft p u t) = ptr_of t.
Proof. intros Hu. destruct t as [|q d l r]; cbn; [done |]. case_decide; [by subst | done]. Qed.

(** A list collected from a tree splits around the subtree that is replaced. *)
Lemma graft_split p u t t0 :
  NoDup (ids t) -> subtree p t = Some t0 ->
  exists i1 i2 d1 d2, ids t = i1 ++ ids t0 ++ i2 /\ ids (graft p u t) = i1 ++ ids u ++ i2 /\
    datas t = d1 ++ datas t0 ++ d2 /\ datas (graft p u t) = d1 ++ datas u ++ d2.
Proof.
  induction t as [|q d l IHl r IHr]; intros Hnd; cbn [subtree graft]; [done |]. case_decide as Hq.
  { intros [= <-]. exists [], [], [], []. cbn [app]. by rewrite !app_nil_r. }
  cbn [ids] in Hnd. apply NoDup_cons in Hnd as [_ Hnd]. apply NoDup_app in Hnd as (Hl & Hd & Hr).
  cbn [ids datas]. destruct (subtree p l) as [u'|] eqn:Hs.
  - intros [= ->]. destruct (IHl Hl eq_refl) as (i1 & i2 & d1 & d2 & -> & -> & -> & ->).
    rewrite (graft_id p u r) by (eapply Hd, subtree_elem; done).
    exists (q :: i1), (i2 ++ ids r), ((match d with Some x => [x] | None => [] end) ++ d1), (d2 ++ datas r).
    by rewrite <- !app_assoc.
  - intros Hs'. destruct (IHr Hr Hs') as (i1 & i2 & d1 & d2 & Hi & -> & -> & ->).
    rewrite (graft_id p u l) by (intros Hp; eapply (Hd p Hp), subtree_elem; done). rewrite Hi.
    exists (q :: ids l ++ i1), i2, ((match d with Some x => [x] | None => [] end) ++ datas l ++ d1), d2.
    cbn [app]. by rewrite <- !app_assoc.
Qed.

Lemma graft_at m m' rt p t0 u t :
  ptr_of u = Some p -> (forall par lv, tree_at m rt par lv t0 -> tree_at m' rt par lv u) ->
  forall par lv, NoDup (ids t) -> subtree p t = Some t0 -> tree_at m rt par lv t ->
  (forall q, q ∈ ids t -> (q ∉ ids t0) -> m' !! q = m !! q) -> tree_at m' rt par lv (graft p u t).
Proof.
  intros Hu Hrep. induction t as [|q d l IHl r IHr]; intros par lv Hnd; cbn [subtree graft]; [done |]. case_decide as Hq.
  { intros [= <-] Ht _. by apply Hrep. }
  cbn [ids] in Hnd. apply NoDup_cons in Hnd as [Hql Hnd]. pose proof Hnd as Hnd'. apply NoDup_app in Hnd' as (Hl & Hd & Hr).
  intros Hs ((n & Hn & Hroot & Hpar & Hlv & Hdt & Hle & Hri) & Htl & Htr) Hm. cbn [ids] in Hm.
  assert (forall x, x ∈ ids t0 -> x ∈ ids l ++ ids r) as Hsub.
  { destruct (subtree p l) as [u'|] eqn:Hs'; [injection Hs as -> |].
    - destruct (graft_split p Leaf l t0 Hl Hs') as (i1 & i2 & d1 & d2 & -> & _). intros x. rewrite !elem_of_app. tauto.
    - destruct (graft_split p Leaf r t0 Hr Hs) as (i1 & i2 & d1 & d2 & -> & _). intros x. rewrite !elem_of_app. tauto. }
  split; [| destruct (subtree p l) as [u'|] eqn:Hs'; [injection Hs as -> |]; split].
  - exists n. rewrite !ptr_graft by done. rewrite Hm; [done | apply list_elem_of_here |]. intros Hx. by apply Hql, Hsub.
  - apply IHl; try done. intros x Hx Hx0. apply Hm; [| done]. rewrite elem_of_cons, elem_of_app. tauto.
  - rewrite graft_id by (eapply Hd, subtree_elem; done). apply (tree_at_frame m); [done |]. intros x Hx. apply Hm.
    + rewrite elem_of_cons, elem_of_app. tauto.
    + intros Hx0. destruct (graft_split p Leaf l t0 Hl Hs') as (i1 & i2 & d1 & d2 & Hi & _).
      apply (Hd x); [rewrite Hi, !elem_of_app; tauto | done].
  - rewrite graft_id by (intros Hp; eapply (Hd p Hp), subtree_elem; done). apply (tree_at_frame m); [done |]. intros x Hx. apply Hm.
    + rewrite elem_of_cons, elem_of_app. tauto.
    + intros Hx0. destruct (graft_split p Leaf r t0 Hr Hs) as (i1 & i2 & d1 & d2 & Hi & _).
      apply (Hd x); [done | rewrite Hi, !elem_of_app; tauto].
  - apply IHr; try done. intros x Hx Hx0. apply Hm; [| done]. rewrite elem_of_cons, elem_of_app. tauto.
Qed.

(** The two sides share their code up to the field. *)
Inductive side : Type := L | R.
Definition get_side (b : side) (n : shtree_t) : option nat := match b with L => left n | R => right n end.
Definition set_side (b : side) (p : option nat) (n : shtree_t) : shtree_t := match b with L => set_left p n | R => set_right p n end.
Definition new_side (E : treeenv) (b : side) (fuel tree : nat) (d : option nat) (s : store) : outcome (store * option nat) :=
  match b with L => shtree_left_new E fuel tree d s | R => shtree_right_new E fuel tree d s end.
Definition sub_side (b : side) (t : tree) : tree :=
  match t with Leaf => Leaf | Node _ _ l r => match b with L => l | R => r end end.
Definition with_side (b : side) (u t : tree) : tree :=
  match t with Leaf => Leaf | Node p d l r => match b with L => Node p d u r | R => Node p d l u end end.

Lemma new_side_eq E b fuel t d s :
  new_side E b fuel t d s =
    (n <-! deref t s;
     s <-! (match get_side b n with Some l => s <-! shtree_free_node fuel l s; update t (set_side b None) s | None => Done s end);
     r <-! shtree_new E (Some t) d s;
     match snd r with
     | None => Done (fst r, None)
     | Some p => s <-! update p (set_data d) (fst r); s <-! update t (set_side b (Some p)) s; Done (s, Some p)
     end).
Proof. by destruct b. Qed.

(** What an update of the links keeps. *)
Definition kin (n n' : shtree_t) : Prop :=
  root n' = root n /\ parent n' = parent n /\ level n' = level n /\ tdata n' = tdata n /\ tflags n' = tflags n.

(** A new child of [t] once the branch is clear. *)
Lemma attach E b t d s tn :
  nodes s !! t = Some tn -> (forall q, is_Some (nodes s !! q) -> (q < fresh s)%nat) -> node_ok E (fresh s) = true ->
  exists s' tn' n', (r <-! shtree_new E (Some t) d s;
     match snd r with
     | None => Done (fst r, None)
     | Some p => s <-! update p (set_data d) (fst r); s <-! update t (set_side b (Some p)) s; Done (s, Some p)
     end) = Done (s', Some (fresh s)) /\
    nodes s' = <[t := tn']> (<[fresh s := n']> (nodes s)) /\ kin tn tn' /\
    get_side b tn' = Some (fresh s) /\ (forall c, c <> b -> get_side c tn' = get_side c tn) /\
    n' = mk_tree (root tn) (Some t) None None d (stamp n') (level tn + 1) 0 /\
    blocks s' = blocks s /\ fresh s' = S (fresh s).
Proof.
  intros Ht Hlt Hok. assert (t < fresh s)%nat as Hf by (apply Hlt; eauto).
  unfold shtree_new. rewrite Hok. cbn [negb]. unfold deref. rewrite Ht. cbn [obind fst snd].
  unfold update at 1. unfold deref. cbn [nodes]. rewrite lookup_insert_eq. cbn [obind].
  unfold update, deref. cbn [nodes]. rewrite lookup_insert_ne by lia. rewrite lookup_insert_ne by lia. rewrite lookup_insert_eq. cbn [obind].
  eexists _, _, _. split; [reflexivity |]. cbn [nodes fresh blocks sticks]. split.
  { apply map_eq. intros q. destruct (decide (q = t)) as [-> |]; [by rewrite !lookup_insert_eq |].
    rewrite !(lookup_insert_ne _ t) by done. destruct (decide (q = fresh s)) as [-> |]; [by rewrite !lookup_insert_eq |].
    rewrite !lookup_insert_ne by done. reflexivity. }
  destruct b; split_and!; try done; intros []; done.
Qed.

Lemma subtree_at m rt p t t0 : forall par lv, tree_at m rt par lv t -> subtree p t = Some t0 ->
  exists d l r par' lv', t0 = Node p d l r /\ tree_at m rt par' lv' t0.
Proof.
  induction t as [|q d l IHl r IHr]; intros par lv; [done |]. cbn [subtree]. case_decide as Hq.
  { intros Ht [= <-]. subst q. by eexists _, _, _, _, _. }
  intros (_ & Hl & Hr). destruct (subtree p l); intros Hs; [eapply IHl | eapply IHr]; done.
Qed.

Lemma subtree_depth p t t0 : subtree p t = Some t0 -> (depth t0 <= depth t)%nat.
Proof.
  induction t as [|q d l IHl r IHr]; [done |]. cbn [subtree]. case_decide; [by intros [= <-] |].
  cbn [depth]. destruct (subtree p l); intros Hs; [specialize (IHl Hs) | specialize (IHr Hs)]; lia.
Qed.

(** A tree of the library: its root, the flags given to [shtree_init], and
    numbers below the next one for every node of the store. *)
Definition tree_wf (r : nat) (fl : Z) (s : store) (t : tree) : Prop :=
  ptr_of t = Some r /\ (exists rn, branch r rn s None 0 t /\ tflags rn = fl) /\
  (forall q, is_Some (nodes s !! q) -> (q < fresh s)%nat).

Definition owned (fl : Z) : bool := negb (Z.land fl SHTREE_DEALLOC =? 0).

Lemma sub_side_ids b t : exists l1 l2, ids t = l1 ++ ids (sub_side b t) ++ l2.
Proof.
  destruct t as [|p d l r]; [by exists [], [] |]. destruct b; cbn [sub_side ids]; [exists [p], (ids r) | exists (p :: ids l), []]; [done |].
  by rewrite app_nil_r.
Qed.
Lemma sub_side_datas b t : exists l1 l2, datas t = l1 ++ datas (sub_side b t) ++ l2.
Proof.
  destruct t as [|p d l r]; [by exists [], [] |]. destruct b; cbn [sub_side datas].
  - by eexists _, (datas r).
  - exists ((match d with Some x => [x] | None => [] end) ++ datas l), []. by rewrite app_nil_r, <- app_assoc.
Qed.

(** Clearing a side releases its branch and keeps the node. *)
Lemma clear_side_ok b fuel p d l r s par lv rt rn n :
  let t0 := Node p d l r in
  tree_at (nodes s) (Some rt) par lv t0 -> NoDup (ids t0) -> nodes s !! rt = Some rn -> data_ok (owns rn) s t0 ->
  rt ∉ ids (sub_side b t0) -> (depth t0 <= fuel)%nat -> nodes s !! p = Some n ->
  exists s' n', (match get_side b n with Some l => s <-! shtree_free_node fuel l s; update p (set_side b None) s | None => Done s end) = Done s' /\
    nodes s' !! p = Some n' /\ kin n n' /\ (forall c, c <> b -> get_side c n' = get_side c n) /\
    (forall q, q ∈ ids (sub_side b t0) -> nodes s' !! q = None) /\
    (forall q, q <> p -> (q ∉ ids (sub_side b t0)) -> nodes s' !! q = nodes s !! q) /\
    blocks s' = blocks s ∖ (if owns rn then list_to_set (datas (sub_side b t0)) else ∅) /\ fresh s' = fresh s.
Proof.
  intros t0 Ht Hnd Hrn Hd Hrt Hdepth Hn.
  assert (get_side b n = ptr_of (sub_side b t0)) as Hg.
  { destruct Ht as ((n' & Hn' & _ & _ & _ & _ & Hle & Hri) & _). rewrite Hn in Hn'. injection Hn' as <-. by destruct b. }
  assert (p ∉ ids (sub_side b t0)) as Hp.
  { cbn [ids t0] in Hnd. apply NoDup_cons in Hnd as [Hp _]. rewrite not_elem_of_app in Hp. destruct b; tauto. }
  destruct (free_ok rt rn (sub_side b t0) fuel s (Some p) (lv + 1)) as (s1 & He & F & K & B & N & _).
  { split_and!; [by destruct b, Ht as (_ & ? & ?) | | done |].
    - destruct (sub_side_ids b t0) as (l1 & l2 & Hi). rewrite Hi in Hnd. apply NoDup_app in Hnd as (_ & _ & Hnd). by apply NoDup_app in Hnd as (? & _).
    - intros Ho. destruct (Hd Ho) as [H1 H2]. destruct (sub_side_datas b t0) as (l1 & l2 & Hi). rewrite Hi in H1, H2. split.
      + apply NoDup_app in H1 as (_ & _ & H1). by apply NoDup_app in H1 as (? & _).
      + intros x Hx. apply H2. rewrite !elem_of_app. tauto. }
  { unfold t0 in *. cbn [depth] in Hdepth. destruct b; cbn [sub_side]; lia. }
  { by apply root_above_notin. }
  rewrite Hg. destruct (ptr_of (sub_side b t0)) as [x|] eqn:Hx; cbn [free_opt] in He.
  - rewrite He. cbn [obind]. unfold update, deref. rewrite K, Hn by done. cbn [obind]. eexists _, _. split; [reflexivity |].
    cbn [nodes blocks fresh]. split_and!; [by rewrite lookup_insert_eq | by destruct b | by intros []; destruct b | | | done | done].
    + intros q Hq. rewrite lookup_insert_ne by (by intros ->). by apply F.
    + intros q Hq Hq'. rewrite lookup_insert_ne by done. by apply K.
  - injection He as <-. exists s, n. split_and!; auto. by split_and!.
Qed.

Lemma NoDup_splice {A} (a b b' c : list A) :
  NoDup (a ++ b ++ c) -> NoDup b' -> (forall x, x ∈ b' -> x ∈ b \/ ((x ∉ a) /\ (x ∉ c))) -> NoDup (a ++ b' ++ c).
Proof.
  rewrite !NoDup_app. intros (Ha & Hab & Hb & Hbc & Hc) Hb' Hx. split_and!; try done.
  - intros x Hxa. rewrite not_elem_of_app. specialize (Hab x Hxa). rewrite not_elem_of_app in Hab.
    split; [| tauto]. intros Hxb. destruct (Hx x Hxb) as [|[]]; tauto.
  - intros x Hxb. destruct (Hx x Hxb) as [|[]]; auto.
Qed.

(** The lists of the node with its new child. *)
Lemma with_side_ids b f d t0 x : x ∈ ids (with_side b (Node f d Leaf Leaf) t0) -> x = f \/ x ∈ ids t0.
Proof.
  destruct t0 as [|p d0 l r]; [by right |].
  destruct b; cbn [with_side ids app]; rewrite ?app_nil_r; rewrite ?elem_of_cons, ?elem_of_app, ?elem_of_cons, ?elem_of_nil; tauto.
Qed.

Lemma with_side_NoDup_ids b f d t0 : NoDup (ids t0) -> (f ∉ ids t0) -> NoDup (ids (with_side b (Node f d Leaf Leaf) t0)).
Proof.
  destruct t0 as [|p d0 l r]; [done |]. cbn [ids]. rewrite NoDup_cons, NoDup_app, not_elem_of_cons, !not_elem_of_app.
  intros ((Hp & Hp') & Hl & Hd & Hr) (Hf & Hfl & Hfr). destruct b; cbn [with_side ids app]; rewrite ?app_nil_r.
  - rewrite !NoDup_cons, not_elem_of_cons. split_and!; auto.
  - rewrite NoDup_cons, NoDup_app, not_elem_of_app, not_elem_of_cons. split_and!; auto.
    + apply not_elem_of_nil.
    + intros x Hx. rewrite not_elem_of_cons. split; [by intros -> | apply not_elem_of_nil].
    + apply NoDup_singleton.
Qed.

Lemma with_side_datas b f d p d0 l r :
  exists a c, datas (with_side b (Node f d Leaf Leaf) (Node p d0 l r)) = a ++ (match d with Some x => [x] | None => [] end) ++ c /\
    datas (Node p d0 l r) = a ++ datas (sub_side b (Node p d0 l r)) ++ c.
Proof.
  destruct b; cbn [with_side datas sub_side]; rewrite ?app_nil_r; [by eexists _, _ |].
  exists ((match d0 with Some x => [x] | None => [] end) ++ datas l), []. by rewrite !app_nil_r, <- !app_assoc.
Qed.

(** The data of the tree after the replacement. *)
Lemma graft_data_ok b f d s s' p d0 l r t (o : bool) :
  let t0 := Node p d0 l r in
  NoDup (ids t) -> subtree p t = Some t0 -> data_ok o s t -> (o = true -> forall x, d = Some x -> x ∈ blocks s /\ (x ∉ datas t)) ->
  blocks s' = blocks s ∖ (if o then list_to_set (datas (sub_side b t0)) else ∅) ->
  data_ok o s' (graft p (with_side b (Node f d Leaf Leaf) t0) t).
Proof.
  intros t0 Hnd Hs Hd Hx Hb Ho. destruct (Hd Ho) as [H1 H2]. specialize (Hx Ho). rewrite Hb, Ho.
  destruct (graft_split p (with_side b (Node f d Leaf Leaf) t0) t t0 Hnd Hs) as (_ & _ & d1 & d2 & _ & _ & Ht & ->).
  destruct (with_side_datas b f d p d0 l r) as (a & c & Hu & Ht0). fold t0 in Hu, Ht0. rewrite Hu. rewrite Ht, Ht0 in H1, H2, Hx.
  rewrite <- !app_assoc in *. rewrite (app_assoc d1 a) in *. split.
  - eapply (NoDup_splice (d1 ++ a) _ _ (c ++ d2)); [exact H1 | destruct d; [apply NoDup_singleton | constructor] |].
    intros x Hxd. destruct d as [y|]; [| by apply not_elem_of_nil in Hxd]. apply list_elem_of_singleton in Hxd as ->.
    right. destruct (Hx y eq_refl) as [_ Hy]. rewrite !not_elem_of_app in Hy. rewrite !not_elem_of_app. tauto.
  - intros x. rewrite elem_of_difference, elem_of_list_to_set. intros Hxd. apply elem_of_app in Hxd as [Hxd | [Hxd | Hxd]%elem_of_app].
    + split; [apply H2; rewrite elem_of_app; tauto |]. apply NoDup_app in H1 as (_ & H1 & _). specialize (H1 x Hxd).
      rewrite not_elem_of_app in H1. tauto.
    + destruct d as [y|]; [| by apply not_elem_of_nil in Hxd]. apply list_elem_of_singleton in Hxd as ->.
      destruct (Hx y eq_refl) as [Hy Hy']. rewrite !not_elem_of_app in Hy'. tauto.
    + split; [apply H2; rewrite !elem_of_app; rewrite elem_of_app in Hxd; tauto |]. intros Hc.
      apply NoDup_app in H1 as (_ & _ & H1). apply NoDup_app in H1 as (_ & H1 & _). by apply (H1 x).
Qed.

(** The node with its new child, in the store that results. *)
Lemma with_side_at b rt par lv p d0 l r f d m m' tn tn' n' :
  let t0 := Node p d0 l r in
  tree_at m rt par lv t0 -> NoDup (ids t0) -> (f ∉ ids t0) -> m !! p = Some tn ->
  m' !! p = Some tn' -> kin tn tn' -> get_side b tn' = Some f -> (forall c, c <> b -> get_side c tn' = get_side c tn) ->
  m' !! f = Some n' -> n' = mk_tree (root tn) (Some p) None None d (stamp n') (level tn + 1) 0 ->
  (forall q, q ∈ ids t0 -> q <> p -> (q ∉ ids (sub_side b t0)) -> m' !! q = m !! q) ->
  tree_at m' rt par lv (with_side b (Node f d Leaf Leaf) t0).
Proof.
  intros t0 ((n & Hn & Hrt & Hpar & Hlv & Hdt & Hle & Hri) & Hl & Hr) Hnd Hf Hp Hp' (K1 & K2 & K3 & K4 & K5) Hg Ho Hn' En Hm.
  rewrite Hp in Hn. injection Hn as <-. cbn [ids t0] in Hnd, Hm. apply NoDup_cons in Hnd as [Hpn Hnd].
  apply NoDup_app in Hnd as (Hnl & Hdis & Hnr). rewrite not_elem_of_app in Hpn.
  assert (tree_at m' rt (Some p) (lv + 1) (Node f d Leaf Leaf)) as Hnew.
  { split; [exists n'; rewrite En; cbn; split_and!; try done; congruence | done]. }
  destruct b; cbn [with_side t0 tree_at get_side sub_side] in *; (split; [exists tn'; split_and!; try congruence | split; [|]]); try done.
  - rewrite <- Hri. by apply (Ho R).
  - apply (tree_at_frame m); [done |]. intros q Hq. apply Hm; [rewrite elem_of_cons, elem_of_app; tauto | | by intros Hq'; apply (Hdis q)].
    intros ->. tauto.
  - rewrite <- Hle. by apply (Ho L).
  - apply (tree_at_frame m); [done |]. intros q Hq. apply Hm; [rewrite elem_of_cons, elem_of_app; tauto | | by apply Hdis].
    intros ->. tauto.
Qed.

(** The root is not on a branch below a node. *)
Lemma root_not_below b r p d0 l r0 t i1 i2 :
  ptr_of t = Some r -> NoDup (ids t) -> ids t = i1 ++ ids (Node p d0 l r0) ++ i2 -> r ∉ ids (sub_side b (Node p d0 l r0)).
Proof.
  intros Hr Hnd Hi Hx. destruct t as [|q d1 l1 r1]; [done |]. injection Hr as ->. rewrite Hi in Hnd. cbn [ids] in Hi, Hnd.
  assert (r ∈ ids l ++ ids r0) as Hx' by (rewrite elem_of_app; destruct b; tauto).
  destruct i1 as [|x i1]; cbn [app] in Hi, Hnd; injection Hi as -> Hi.
  - apply NoDup_cons in Hnd as [Hn _]. apply Hn. rewrite elem_of_app. tauto.
  - apply NoDup_cons in Hnd as [Hn _]. apply Hn. rewrite elem_of_app. right. right. rewrite elem_of_app. by left.
Qed.

Lemma tree_wf_fresh r fl s t q : tree_wf r fl s t -> q ∈ ids t -> q <> fresh s.
Proof.
  intros (_ & (rn & (Ht & _) & _) & Hlt) Hq ->. destruct (tree_at_some _ _ _ _ _ Ht _ Hq) as [x Hx].
  specialize (Hlt (fresh s) (ex_intro _ _ Hx)). lia.
Qed.

(** A store in which only the node [p], its new child and the released branch
    differ holds the tree with the new child. *)
Lemma attached_wf b d s s' r fl t p d0 l r0 tn tn' n' :
  let t0 := Node p d0 l r0 in
  tree_wf r fl s t -> subtree p t = Some t0 ->
  (owned fl = true -> forall x, d = Some x -> x ∈ blocks s /\ (x ∉ datas t)) ->
  nodes s !! p = Some tn -> nodes s' !! p = Some tn' -> kin tn tn' -> get_side b tn' = Some (fresh s) ->
  (forall c, c <> b -> get_side c tn' = get_side c tn) ->
  nodes s' !! fresh s = Some n' -> n' = mk_tree (root tn) (Some p) None None d (stamp n') (level tn + 1) 0 ->
  (forall q, q <> p -> q <> fresh s -> (q ∉ ids (sub_side b t0)) -> nodes s' !! q = nodes s !! q) ->
  blocks s' = blocks s ∖ (if owned fl then list_to_set (datas (sub_side b t0)) else ∅) ->
  (forall q, is_Some (nodes s' !! q) -> (q < fresh s')%nat) ->
  tree_wf r fl s' (graft p (with_side b (Node (fresh s) d Leaf Leaf) t0) t).
Proof.
  intros t0 Hwf Hs Hx Hp Hp' Hk Hg Hg' Hf En Hframe Hb Hlt'. pose proof (fun q => tree_wf_fresh r fl s t q Hwf) as Hfr.
  destruct Hwf as (Hr & (rn & (Ht & Hnd & Hrn & Hd) & Hfl) & Hlt).
  assert (owned fl = owns rn) as Ho by (unfold owned, owns; by rewrite Hfl). rewrite Ho in *.
  destruct (graft_split p (with_side b (Node (fresh s) d Leaf Leaf) t0) t t0 Hnd Hs) as (i1 & i2 & d1 & d2 & Hi & Hi' & Hdt & Hdt').
  assert (forall q, q ∈ ids t0 -> q ∈ ids t) as Hsub by (intros q Hq; rewrite Hi, !elem_of_app; tauto).
  assert (NoDup (ids t0)) as Hnd0.
  { rewrite Hi in Hnd. apply NoDup_app in Hnd as (_ & _ & Hnd). by apply NoDup_app in Hnd as (? & _). }
  assert (fresh s ∉ ids t0) as Hf0 by (intros Hq; by apply (Hfr (fresh s)); [apply Hsub |]).
  split_and!; [by rewrite ptr_graft by (by destruct b) | | done].
  assert (exists rn', nodes s' !! r = Some rn' /\ tflags rn' = fl) as (rn' & Hrn' & Hfl').
  { destruct (decide (r = p)) as [-> | Hrp].
    - exists tn'. split; [done |]. rewrite Hrn in Hp. injection Hp as ->. destruct Hk as (_ & _ & _ & _ & ->). done.
    - exists rn. split; [| done]. rewrite Hframe; try done; [| by eapply root_not_below].
      apply Hfr. destruct t; [done |]. injection Hr as ->. apply list_elem_of_here. }
  exists rn'. split; [| done]. split_and!; [| | done |].
  - apply (graft_at (nodes s) _ _ _ t0); [by destruct b | | done | done | done |].
    + intros par' lv' Ht'. apply (with_side_at b (Some r) par' lv' p d0 l r0 (fresh s) d (nodes s) (nodes s') tn tn' n'); try done.
      intros q Hq Hq' Hqs. apply Hframe; try done. apply Hfr. by apply Hsub.
    + intros q Hq Hq0. apply Hframe; [intros ->; apply Hq0, list_elem_of_here | by apply Hfr |].
      intros Hq'. apply Hq0. destruct (sub_side_ids b t0) as (l1 & l2 & ->). rewrite !elem_of_app. tauto.
  - rewrite Hi'. rewrite Hi in Hnd. apply (NoDup_splice _ (ids t0)); [done | by apply with_side_NoDup_ids |].
    intros x Hxu. apply with_side_ids in Hxu as [-> | Hxu]; [| by left].
    right. split; intros Hf'; apply (Hfr (fresh s)); try done; rewrite Hi, !elem_of_app; tauto.
  - replace (owns rn') with (owns rn) by (unfold owns; congruence). by apply (graft_data_ok b (fresh s) d s s' p d0 l r0).
Qed.

(** Giving a node a new child: the branch on that side is released, with its data
    when the tree owns it, and the tree has the new leaf in its place. *)
Lemma new_side_ok E b fuel p d s r fl t t0 :
  tree_wf r fl s t -> subtree p t = Some t0 -> (depth t <= fuel)%nat -> node_ok E (fresh s) = true ->
  (owned fl = true -> forall x, d = Some x -> x ∈ blocks s /\ (x ∉ datas t)) ->
  exists s', new_side E b fuel p d s = Done (s', Some (fresh s)) /\
    tree_wf r fl s' (graft p (with_side b (Node (fresh s) d Leaf Leaf) t0) t) /\
    (forall q, q ∈ ids (sub_side b t0) -> nodes s' !! q = None) /\
    (forall q, q <> fresh s -> (q ∉ ids t) -> nodes s' !! q = nodes s !! q) /\
    blocks s' = blocks s ∖ (if owned fl then list_to_set (datas (sub_side b t0)) else ∅).
Proof.
  intros Hwf Hs Hfuel Hok Hx. pose proof Hwf as (Hr & (rn & (Ht & Hnd & Hrn & Hd) & Hfl) & Hlt).
  assert (owned fl = owns rn) as Ho by (unfold owned, owns; by rewrite Hfl). rewrite Ho.
  destruct (subtree_at _ _ _ _ _ _ _ Ht Hs) as (d0 & l & r0 & par & lv & -> & Ht0). set (t0 := Node p d0 l r0) in *.
  destruct (graft_split p (with_side b (Node (fresh s) d Leaf Leaf) t0) t t0 Hnd Hs) as (i1 & i2 & d1 & d2 & Hi & Hi' & Hdt & Hdt').
  assert (NoDup (ids t0)) as Hnd0.
  { rewrite Hi in Hnd. apply NoDup_app in Hnd as (_ & _ & Hnd). by apply NoDup_app in Hnd as (? & _). }
  assert (r ∉ ids (sub_side b t0)) as Hrt by (eapply root_not_below; done).
  assert (forall q, q ∈ ids t0 -> q ∈ ids t) as Hsub by (intros q Hq; rewrite Hi, !elem_of_app; tauto).
  assert (forall q, q ∈ ids (sub_side b t0) -> q ∈ ids t0) as Hsub'.
  { intros q Hq. destruct (sub_side_ids b t0) as (l1 & l2 & ->). rewrite !elem_of_app. tauto. }
  pose proof Ht0 as ((tn & Hp & _) & _).
  destruct (clear_side_ok b fuel p d0 l r0 s par lv r rn tn) as (s1 & tn1 & He1 & Hp1 & Hk1 & Hg1 & F1 & K1 & B1 & N1); try done.
  { intros Hown. destruct (Hd Hown) as [H1 H2]. rewrite Hdt in H1, H2. split.
    - apply NoDup_app in H1 as (_ & _ & H1). by apply NoDup_app in H1 as (? & _).
    - intros x Hxd. apply H2. rewrite !elem_of_app. tauto. }
  { etrans; [by apply (subtree_depth p t) | done]. }
  rewrite new_side_eq. unfold deref at 1. rewrite Hp. cbn [obind]. rewrite He1. cbn [obind].
  assert (forall q, is_Some (nodes s1 !! q) -> (q < fresh s1)%nat) as Hlt1.
  { intros q [x Hq]. rewrite N1. apply Hlt. destruct (decide (q = p)) as [-> | Hqp]; [eauto |].
    destruct (decide (q ∈ ids (sub_side b t0))) as [Hin|Hin]; [by rewrite F1 in Hq | rewrite K1 in Hq; eauto]. }
  destruct (attach E b p d s1 tn1) as (s2 & tn2 & n2 & He2 & Hn2 & Hk2 & Hg2 & Hg2' & En & B2 & N2); [done | done | by rewrite N1 |].
  rewrite He2, N1. rewrite N1 in *. exists s2. split; [done |].
  assert (forall q, q ∈ ids t -> q <> fresh s) as Hfr by (intros q; by apply (tree_wf_fresh r fl s t q)).
  assert (p <> fresh s) as Hpf by (apply Hfr; eapply subtree_elem; done).
  assert (forall q, q <> p -> q <> fresh s -> (q ∉ ids (sub_side b t0)) -> nodes s2 !! q = nodes s !! q) as Hframe.
  { intros q Hq Hq' Hqs. rewrite Hn2, !lookup_insert_ne by done. by apply K1. }
  split_and!.
  - apply (attached_wf b d s s2 r fl t p d0 l r0 tn tn2 n2); try done.
    + by rewrite Hn2, lookup_insert_eq.
    + destruct Hk1 as (? & ? & ? & ? & ?), Hk2 as (? & ? & ? & ? & ?); split_and!; congruence.
    + intros c Hc. by rewrite Hg2', Hg1.
    + by rewrite Hn2, lookup_insert_ne, lookup_insert_eq.
    + destruct Hk1 as (<- & _ & <- & _). exact En.
    + by rewrite Ho, B2.
    + intros q [x Hq]. rewrite N2. destruct (decide (q = fresh s)) as [-> |]; [lia |]. apply Nat.lt_lt_succ_r, Hlt1.
      destruct (decide (q = p)) as [-> |]; [eauto |]. rewrite Hn2, !lookup_insert_ne in Hq by done. eauto.
  - intros q Hq. rewrite Hn2, !lookup_insert_ne; [by apply F1 | |]; [apply not_eq_sym, Hfr, Hsub, Hsub', Hq |].
    intros <-. pose proof Hnd0 as Hnd1. cbn [ids t0] in Hnd1. apply NoDup_cons in Hnd1 as [Hn _]. apply Hn. rewrite elem_of_app. destruct b; tauto.
  - intros q Hq Hqt. apply Hframe; [intros ->; by apply Hqt; eapply subtree_elem | done | by intros Hq'; apply Hqt, Hsub, Hsub'].
  - by rewrite B2.
Qed.

(** ** Traversals *)

Lemma traverse_pre_ok t : forall fuel s rt par lv,
  tree_at (nodes s) rt par lv t -> (depth t <= fuel)%nat -> shtree_traverse_pre fuel (ptr_of t) s = Done (ids t).
Proof.
  induction t as [|p d l IHl r IHr]; intros fuel s rt par lv Ht Hf; [by destruct fuel |].
  destruct Ht as ((n & Hn & _ & _ & _ & _ & Hle & Hri) & Hl & Hr). cbn [depth] in Hf. destruct fuel as [|fuel]; [lia |].
  cbn [shtree_traverse_pre ptr_of]. unfold deref. rewrite Hn. cbn [obind]. rewrite Hle, (IHl fuel s rt (Some p) (lv + 1) Hl ltac:(lia)).
  cbn [obind]. rewrite Hri, (IHr fuel s rt (Some p) (lv + 1) Hr ltac:(lia)). done.
Qed.

Fixpoint inorder (t : tree) : list nat :=
  match t with Leaf => [] | Node p _ l r => inorder l ++ p :: inorder r end.
Fixpoint postorder (t : tree) : list nat :=
  match t with Leaf => [] | Node p _ l r => postorder l ++ postorder r ++ [p] end.

(** No node has a left child; at most one node. *)
Fixpoint right_only (t : tree) : Prop := match t with Leaf => True | Node _ _ l r => l = Leaf /\ right_only r end.
Definition at_most_one (t : tree) : Prop := match t with Leaf => True | Node _ _ l r => l = Leaf /\ r = Leaf end.

Lemma elem_of_inorder t x : x ∈ inorder t <-> x ∈ ids t.
Proof. induction t as [|p d l IHl r IHr]; [done |]. cbn [inorder ids]. rewrite elem_of_app, !elem_of_cons, elem_of_app, IHl, IHr. tauto. Qed.
Lemma elem_of_postorder t x : x ∈ postorder t <-> x ∈ ids t.
Proof. induction t as [|p d l IHl r IHr]; [done |]. cbn [postorder ids]. rewrite !elem_of_app, list_elem_of_singleton, elem_of_cons, elem_of_app, IHl, IHr. tauto. Qed.
Lemma length_inorder t : length (inorder t) = length (ids t).
Proof. induction t as [|p d l IHl r IHr]; [done |]. cbn [inorder ids]. rewrite length_app. cbn [length]. rewrite length_app. lia. Qed.
Lemma length_postorder t : length (postorder t) = length (ids t).
Proof. induction t as [|p d l IHl r IHr]; [done |]. cbn [postorder ids]. rewrite !length_app. cbn [length]. rewrite length_app. lia. Qed.

Lemma ids_inorder t : NoDup (ids t) -> (ids t = inorder t <-> right_only t).
Proof.
  induction t as [|p d l IHl r IHr]; [done |]. cbn [ids]. intros [Hp Hnd]%NoDup_cons. apply NoDup_app in Hnd as (Hl & Hd & Hr).
  cbn [inorder right_only]. rewrite <- IHr by done. split.
  - destruct l as [|q d' a b]; [cbn; by intros [= H] |]. intros H. exfalso. apply Hp.
    assert (p ∈ inorder (Node q d' a b)) as Hi; [| rewrite elem_of_app; left; by apply elem_of_inorder].
    destruct (inorder (Node q d' a b)) as [|y ys] eqn:Hy; [apply (f_equal length) in Hy; rewrite length_inorder in Hy; done |].
    injection H as -> _. apply list_elem_of_here.
  - intros [-> H]. cbn. by rewrite <- H.
Qed.

Lemma ids_postorder t : NoDup (ids t) -> (ids t = postorder t <-> at_most_one t).
Proof.
  destruct t as [|p d l r]; [done |]. cbn [ids]. intros [Hp _]%NoDup_cons. cbn [postorder at_most_one]. split; [| by intros [-> ->]].
  intros H. assert (postorder l ++ postorder r = []) as He.
  { destruct (postorder l ++ postorder r) as [|y ys] eqn:Hy; [done |]. exfalso. rewrite app_assoc, Hy in H. injection H as -> _. apply Hp.
    assert (y ∈ postorder l ++ postorder r) as Hin by (rewrite Hy; apply list_elem_of_here).
    rewrite elem_of_app, !elem_of_postorder in Hin. by apply elem_of_app. }
  apply app_eq_nil in He as [Hl Hr]. apply (f_equal length) in Hl, Hr. rewrite length_postorder in Hl, Hr.
  by destruct l, r.
Qed.

(** ** Trees that a caller builds *)

Lemma shtree_init_ok E fl s :
  (forall q, is_Some (nodes s !! q) -> (q < fresh s)%nat) -> node_ok E (fresh s) = true ->
  exists s', shtree_init E fl s = Done (s', Some (fresh s)) /\ tree_wf (fresh s) fl s' (Node (fresh s) None Leaf Leaf) /\
    (forall q, q <> fresh s -> nodes s' !! q = nodes s !! q) /\ blocks s' = blocks s.
Proof.
  intros Hlt Hok. unfold shtree_init, shtree_new. rewrite Hok. cbn [negb obind fst snd]. unfold update, deref. cbn [nodes].
  rewrite lookup_insert_eq. cbn [obind]. eexists. split; [reflexivity |]. unfold tree_wf, branch, data_ok. cbn [nodes fresh blocks].
  split_and!; [done | | | | done].
  - eexists. split; [| shelve]. split_and!; [| apply NoDup_singleton | by rewrite lookup_insert_eq |].
    + cbn [tree_at]. split; [| done]. rewrite lookup_insert_eq. by eexists.
    + intros _. split; [constructor |]. cbn [datas app]. intros x Hx. by apply not_elem_of_nil in Hx.
    Unshelve. done.
  - intros q. destruct (decide (q = fresh s)) as [-> |]; [lia |]. rewrite !lookup_insert_ne by done. intros Hq. specialize (Hlt q Hq). lia.
  - intros q Hq. by rewrite !lookup_insert_ne.
Qed.

Definition data_set (d : option nat) : gset nat := match d with Some x => {[x]} | None => ∅ end.

(** The trees that [shtree_init] and the two operations build from [s0], with the
    data that was passed to them. *)
Inductive built (E : treeenv) (fuel : nat) (fl : Z) (s0 : store) : gset nat -> store -> nat -> tree -> Prop :=
| built_init s r : shtree_init E fl s0 = Done (s, Some r) -> built E fuel fl s0 ∅ s r (Node r None Leaf Leaf)
| built_new g s r t b p t0 d s' q :
    built E fuel fl s0 g s r t -> (depth t <= fuel)%nat -> subtree p t = Some t0 ->
    (owned fl = true -> forall x, d = Some x -> x ∈ blocks s /\ (x ∉ datas t)) ->
    new_side E b fuel p d s = Done (s', Some q) ->
    built E fuel fl s0 (g ∪ data_set d) s' r (graft p (with_side b (Node q d Leaf Leaf) t0) t).

Lemma new_node_ok E t d s : node_ok E (fresh s) = false -> shtree_new E t d s = Done (s, None).
Proof. intros H. unfold shtree_new. by rewrite H. Qed.

Lemma shtree_init_some E fl s s' p : shtree_init E fl s = Done (s', Some p) -> node_ok E (fresh s) = true.
Proof. destruct (node_ok E (fresh s)) eqn:H; [done |]. unfold shtree_init. by rewrite new_node_ok. Qed.

Lemma free_node_fresh fuel : forall p s s', shtree_free_node fuel p s = Done s' -> fresh s' = fresh s.
Proof.
  induction fuel as [|fuel IH]; intros p s s'; [done |]. cbn [shtree_free_node]. unfold deref. destruct (nodes s !! p) as [n|]; [| done]. cbn [obind].
  assert (forall o s1 s2, (match o with Some l => shtree_free_node fuel l s1 | None => Done s1 end) = Done s2 -> fresh s2 = fresh s1) as Ho.
  { intros [l|] s1 s2; [apply IH | by intros [= ->]]. }
  destruct (match left n with Some _ => _ | None => _ end) as [s1|] eqn:H1; [| done]. cbn [obind].
  destruct (match right n with Some _ => _ | None => _ end) as [s2|] eqn:H2; [| done]. cbn [obind].
  apply Ho in H1, H2. destruct (shtree_root_flags (Some p) s2) as [fl|]; [| done]. cbn [obind].
  destruct (if Z.land fl SHTREE_DEALLOC =? 0 then _ else _) as [s3|] eqn:H3; [| done]. cbn [obind].
  assert (fresh s3 = fresh s2) as H4.
  { destruct (Z.land fl SHTREE_DEALLOC =? 0); [by injection H3 as <- |]. destruct (tdata n); [| by injection H3 as <-].
    unfold free_block in H3. case_decide; [by injection H3 as <- | done]. }
  unfold free_mem, deref. destruct (nodes s3 !! p); [| done]. cbn [obind]. intros [= <-]. cbn. congruence.
Qed.

Lemma new_side_some E b fuel p d s s' q : new_side E b fuel p d s = Done (s', Some q) -> node_ok E (fresh s) = true.
Proof.
  rewrite new_side_eq. unfold deref at 1. destruct (nodes s !! p) as [n|]; [| done]. cbn [obind].
  destruct (match get_side b n with Some _ => _ | None => _ end) as [s1|] eqn:H1; [| done]. cbn [obind].
  assert (fresh s1 = fresh s) as <-.
  { destruct (get_side b n); [| by injection H1 as <-]. destruct (shtree_free_node _ _ _) as [s2|] eqn:H2; [| done]. cbn [obind] in H1.
    apply free_node_fresh in H2. unfold update, deref in H1. destruct (nodes s2 !! p); [| done]. cbn [obind] in H1. injection H1 as <-. done. }
  destruct (node_ok E (fresh s1)) eqn:Hok; [done |]. by rewrite new_node_ok.
Qed.

(** The blocks that were released are those passed to the tree and no longer in it. *)
Lemma released_step (b0 g dt dt' sub bs bs' : gset nat) (d : option nat) :
  dt ⊆ g -> bs = b0 ∖ (g ∖ dt) -> (forall x, d = Some x -> x ∈ bs /\ (x ∉ dt)) -> sub ⊆ dt ->
  (forall x, x ∈ dt' <-> (x ∈ dt /\ (x ∉ sub)) \/ d = Some x) -> bs' = bs ∖ sub ->
  dt' ⊆ g ∪ data_set d /\ bs' = b0 ∖ ((g ∪ data_set d) ∖ dt').
Proof.
  intros Hg -> Hd Hs Hdt ->. assert (forall x, x ∈ data_set d <-> d = Some x) as Hds.
  { intros x. destruct d; cbn [data_set]; [rewrite elem_of_singleton | rewrite elem_of_empty]; split; (done || congruence). }
  split.
  - intros x. rewrite Hdt, elem_of_union, Hds. set_solver.
  - apply leibniz_equiv. intros x. specialize (Hd x). specialize (Hds x). rewrite !elem_of_difference, elem_of_union, Hds, Hdt. rewrite !elem_of_difference in Hd.
    specialize (Hs x). specialize (Hg x). destruct (decide (x ∈ dt)), (decide (x ∈ sub)), (decide (d = Some x)); tauto.
Qed.

Lemma graft_datas b f d p d0 l r t x :
  let t0 := Node p d0 l r in
  NoDup (ids t) -> NoDup (datas t) -> subtree p t = Some t0 ->
  x ∈ datas (graft p (with_side b (Node f d Leaf Leaf) t0) t) <-> (x ∈ datas t /\ (x ∉ datas (sub_side b t0))) \/ d = Some x.
Proof.
  intros t0 Hi Hnd Hs. destruct (graft_split p (with_side b (Node f d Leaf Leaf) t0) t t0 Hi Hs) as (_ & _ & d1 & d2 & _ & _ & Ht & ->).
  destruct (with_side_datas b f d p d0 l r) as (a & c & Hu & Ht0). fold t0 in Hu, Ht0. rewrite Hu, Ht. rewrite Ht0 in Ht |- *. rewrite Ht in Hnd.
  set (sub := datas (sub_side b t0)) in *. rewrite <- !app_assoc in *. rewrite (app_assoc d1 a) in *.
  apply NoDup_app in Hnd as (_ & H1 & Hnd). apply NoDup_app in Hnd as (_ & H2 & _). specialize (H1 x). specialize (H2 x).
  rewrite !elem_of_app in *. assert (x ∈ (match d with Some x => [x] | None => [] end) <-> d = Some x) as ->.
  { destruct d; [rewrite list_elem_of_singleton | split; [intros H; by apply not_elem_of_nil in H | done]]. split; congruence. }
  tauto.
Qed.

(** The nodes left after the replacement. *)
Lemma graft_ids b f d p d0 l r t q :
  let t0 := Node p d0 l r in
  NoDup (ids t) -> subtree p t = Some t0 ->
  (q = f \/ q ∈ ids t) -> (q ∉ ids (graft p (with_side b (Node f d Leaf Leaf) t0) t)) -> (q <> f) /\ q ∈ ids (sub_side b t0).
Proof.
  intros t0 Hnd Hs. destruct (graft_split p (with_side b (Node f d Leaf Leaf) t0) t t0 Hnd Hs) as (i1 & i2 & _ & _ & -> & -> & _).
  unfold t0. rewrite !elem_of_app. destruct b; cbn [with_side ids app sub_side]; rewrite !elem_of_cons, ?elem_of_app, ?elem_of_cons, ?elem_of_nil; tauto.
Qed.

Lemma built_inv E fuel fl s0 g s r t :
  nodes s0 = ∅ -> built E fuel fl s0 g s r t ->
  tree_wf r fl s t /\ (forall q, (q ∉ ids t) -> nodes s !! q = None) /\
  (if owned fl then list_to_set (datas t) ⊆ g /\ blocks s = blocks s0 ∖ (g ∖ list_to_set (datas t)) else blocks s = blocks s0).
Proof.
  intros H0. induction 1 as [s r Hi | g s r t b p t0 d s' q _ (Hwf & Hnone & Hb) Hf Hs Hd Hn].
  - destruct (shtree_init_ok E fl s0) as (s1 & Hi' & Hwf & Hk & Hb); [intros q; rewrite H0, lookup_empty; by intros [] | by eapply shtree_init_some |].
    rewrite Hi in Hi'. injection Hi' as -> ->. split_and!; [done | |].
    + intros q Hq. cbn [ids app] in Hq. rewrite Hk, H0; [apply lookup_empty |]. intros ->. apply Hq, list_elem_of_here.
    + cbn [datas app list_to_set]. destruct (owned fl); [split; [done | set_solver] | done].
  - destruct (new_side_ok E b fuel p d s r fl t t0) as (s1 & Hn' & Hwf' & Hsub & Hk & Hb'); try done; [by eapply new_side_some |].
    rewrite Hn in Hn'. injection Hn' as -> ->. destruct Hwf as (_ & (rn & (Ht & Hnd & _ & Hdok) & Hfl) & _).
    destruct (subtree_at _ _ _ _ _ _ _ Ht Hs) as (d0 & l & r0 & par & lv & -> & _). set (t0 := Node p d0 l r0) in *. split_and!; [done | |].
    + intros q Hq. pose proof (graft_ids b (fresh s) d p d0 l r0 t q Hnd Hs) as Hgi. fold t0 in Hgi.
      destruct (decide (q ∈ ids t)) as [Hqt|Hqt]; [apply Hsub; tauto |].
      rewrite Hk; [by apply Hnone | | done]. intros ->. tauto.
    + destruct (owned fl) eqn:Ho; [| by rewrite Hb', difference_empty_L]. destruct Hb as [Hb1 Hb2]. unfold data_ok, owns in Hdok. rewrite Hfl in Hdok.
      destruct (Hdok Ho) as [Hndd _]. apply (released_step _ _ (list_to_set (datas t)) _ (list_to_set (datas (sub_side b t0))) (blocks s)); try done.
      * intros x Hx. rewrite elem_of_list_to_set. by apply Hd.
      * intros x. rewrite !elem_of_list_to_set. destruct (graft_split p Leaf t t0 Hnd Hs) as (_ & _ & d1 & d2 & _ & _ & -> & _).
        destruct (sub_side_datas b t0) as (a & c & ->). rewrite !elem_of_app. tauto.
      * intros x. rewrite !elem_of_list_to_set. by apply graft_datas.
Qed.

(** ** The claims *)

(** Giving a node a new left or right child releases the branch that was on
    that side, with its data exactly when the tree was made with [SHTREE_DEALLOC],
    never touches a node outside the tree, and leaves a well-formed tree (root,
    parents, levels, links, allocated data) with the new leaf in its place. *)
Theorem shtree_new_branch E b fuel p d s r fl t t0 :
  tree_wf r fl s t -> subtree p t = Some t0 -> (depth t <= fuel)%nat -> node_ok E (fresh s) = true ->
  (owned fl = true -> forall x, d = Some x -> x ∈ blocks s /\ (x ∉ datas t)) ->
  exists s', new_side E b fuel p d s = Done (s', Some (fresh s)) /\
    tree_wf r fl s' (graft p (with_side b (Node (fresh s) d Leaf Leaf) t0) t) /\
    (forall q, q ∈ ids (sub_side b t0) -> nodes s' !! q = None) /\
    (forall q, q <> fresh s -> (q ∉ ids t) -> nodes s' !! q = nodes s !! q) /\
    blocks s' = blocks s ∖ (if owned fl then list_to_set (datas (sub_side b t0)) else ∅).
Proof. apply new_side_ok. Qed.

(** C24: Whatever tree a caller builds from an empty store with [shtree_init],
    [shtree_left_new] and [shtree_right_new], [shtree_free] releases every node and
    exactly the data passed to the tree when it owns it, each block once. *)
Theorem shtree_no_leak E fuel fl s0 g s r t :
  nodes s0 = ∅ -> built E fuel fl s0 g s r t -> (depth t <= fuel)%nat ->
  exists s', shtree_free fuel (Some r) s = Done s' /\ nodes s' = ∅ /\
    blocks s' = blocks s0 ∖ (if owned fl then g else ∅).
Proof.
  intros H0 Hb Hf. destruct (built_inv E fuel fl s0 g s r t H0 Hb) as ((Hp & (rn & Hbr & Hfl) & _) & Hnone & Hbl).
  destruct (free_ok r rn t fuel s None 0 Hbr Hf) as (s' & He & F & K & B & _ & _).
  { destruct t as [|q d a b]; [done |]. injection Hp as ->. destruct Hbr as (_ & Hnd & _). by apply NoDup_cons in Hnd as [? _]. }
  exists s'. split; [by rewrite Hp in He |]. split.
  - apply map_eq. intros q. rewrite lookup_empty. destruct (decide (q ∈ ids t)); [by apply F | by rewrite K, Hnone].
  - assert (owns rn = owned fl) as Ho by (unfold owns, owned; by rewrite Hfl). rewrite B, Ho.
    destruct (owned fl); [| by rewrite Hbl]. destruct Hbl as [Hg ->]. apply leibniz_equiv. intros x. specialize (Hg x).
    rewrite !elem_of_difference. destruct (decide (x ∈ (list_to_set (datas t) : gset nat))); tauto.
Qed.

(** A pre-order traversal visits the nodes in pre-order; the in-order and
    post-order traversals visit the branches below the given node in pre-order, so
    that the first is in-order exactly when no node of either branch has a left
    child and the second is post-order exactly when neither branch has more than
    one node. *)
Theorem shtree_traverse_orders fuel s rt par lv p d l r :
  let t := Node p d l r in
  tree_at (nodes s) rt par lv t -> NoDup (ids t) -> (depth t <= fuel)%nat ->
  shtree_traverse fuel (Some p) SHTREE_ORDER_PRE s = Done (ids t) /\
  shtree_traverse fuel (Some p) SHTREE_ORDER_IN s = Done (ids l ++ p :: ids r) /\
  shtree_traverse fuel (Some p) SHTREE_ORDER_POST s = Done (ids l ++ ids r ++ [p]) /\
  (shtree_traverse fuel (Some p) SHTREE_ORDER_IN s = Done (inorder t) <-> right_only l /\ right_only r) /\
  (shtree_traverse fuel (Some p) SHTREE_ORDER_POST s = Done (postorder t) <-> at_most_one l /\ at_most_one r).
Proof.
  intros t Ht Hnd Hf. assert (shtree_traverse fuel (Some p) SHTREE_ORDER_PRE s = Done (ids t)) as Hpre.
  { exact (traverse_pre_ok t fuel s rt par lv Ht Hf). }
  destruct Ht as ((n & Hn & _ & _ & _ & _ & Hle & Hri) & Hl & Hr). unfold t in Hf. cbn [depth] in Hf.
  pose proof (traverse_pre_ok l fuel s _ _ _ Hl ltac:(lia)) as Tl. pose proof (traverse_pre_ok r fuel s _ _ _ Hr ltac:(lia)) as Tr.
  assert (shtree_traverse fuel (Some p) SHTREE_ORDER_IN s = Done (ids l ++ p :: ids r)) as Hin.
  { cbn. unfold deref. rewrite Hn. cbn [obind]. rewrite Hle, Tl. cbn [obind]. by rewrite Hri, Tr. }
  assert (shtree_traverse fuel (Some p) SHTREE_ORDER_POST s = Done (ids l ++ ids r ++ [p])) as Hpost.
  { cbn. unfold deref. rewrite Hn. cbn [obind]. rewrite Hle, Tl. cbn [obind]. by rewrite Hri, Tr. }
  split_and!; try done; [rewrite Hin | rewrite Hpost]; unfold t in *; cbn [ids] in Hnd; apply NoDup_cons in Hnd as [_ Hnd]; apply NoDup_app in Hnd as (Hnl & _ & Hnr).
  - rewrite <- (ids_inorder l), <- (ids_inorder r) by done. cbn [inorder]. split; [| by intros [<- <-]]. intros [= H].
    apply app_inj_1 in H as [? H]; [| by rewrite length_inorder]. by injection H.
  - rewrite <- (ids_postorder l), <- (ids_postorder r) by done. cbn [postorder]. split; [| by intros [<- <-]]. intros [= H].
    apply app_inj_1 in H as [? H]; [| by rewrite length_postorder]. apply app_inj_2 in H as [? _]; done.
Qed.

(** Concrete trees. *)
Definition ex_tenv : treeenv := mk_treeenv (fun _ => 7) (fun _ => true).
Definition ex_s0 : store := mk_store ∅ 1 {[10%nat; 11%nat; 12%nat]} 0.
Definition ex_get {A} (o : outcome A) (d : A) : A := match o with Done x => x | Fault => d end.
Definition ex_s1 : store := fst (ex_get (shtree_init ex_tenv SHTREE_DEALLOC ex_s0) (ex_s0, None)).
Definition ex_s2 : store := fst (ex_get (shtree_left_new ex_tenv 9 1 (Some 10%nat) ex_s1) (ex_s0, None)).
Definition ex_s3 : store := fst (ex_get (shtree_left_new ex_tenv 9 2 (Some 11%nat) ex_s2) (ex_s0, None)).

Lemma ex_built2 : built ex_tenv 9 SHTREE_DEALLOC ex_s0 (∅ ∪ data_set (Some 10%nat)) ex_s2 1 (Node 1 None (Node 2 (Some 10%nat) Leaf Leaf) Leaf).
Proof.
  apply (built_new ex_tenv 9 SHTREE_DEALLOC ex_s0 ∅ ex_s1 1 (Node 1 None Leaf Leaf) L 1 (Node 1 None Leaf Leaf) (Some 10%nat) ex_s2 2).
  - by apply built_init.
  - cbn. lia.
  - done.
  - intros _ x [= <-]. split; [by vm_compute | apply not_elem_of_nil].
  - done.
Qed.

Lemma ex_built3 : built ex_tenv 9 SHTREE_DEALLOC ex_s0 (∅ ∪ data_set (Some 10%nat) ∪ data_set (Some 11%nat)) ex_s3 1
  (Node 1 None (Node 2 (Some 10%nat) (Node 3 (Some 11%nat) Leaf Leaf) Leaf) Leaf).
Proof.
  apply (built_new ex_tenv 9 SHTREE_DEALLOC ex_s0 _ ex_s2 1 (Node 1 None (Node 2 (Some 10%nat) Leaf Leaf) Leaf) L 2
    (Node 2 (Some 10%nat) Leaf Leaf) (Some 11%nat) ex_s3 3).
  - exact ex_built2.
  - cbn. lia.
  - done.
  - intros _ x [= <-]. split; [by vm_compute |]. cbn. by rewrite list_elem_of_singleton.
  - done.
Qed.

Lemma ex_wf3 : tree_wf 1 SHTREE_DEALLOC ex_s3 (Node 1 None (Node 2 (Some 10%nat) (Node 3 (Some 11%nat) Leaf Leaf) Leaf) Leaf).
Proof. by eapply built_inv, ex_built3. Qed.

Lemma shtree_new_branch_witness : exists s', shtree_left_new ex_tenv 9 1 (Some 12%nat) ex_s3 = Done (s', Some 4%nat) /\
  nodes s' !! 3%nat = None /\ blocks s' = {[10%nat; 11%nat; 12%nat]} ∖ {[10%nat; 11%nat]}.
Proof.
  destruct (shtree_new_branch ex_tenv L 9 1 (Some 12%nat) ex_s3 1 SHTREE_DEALLOC _ _ ex_wf3 eq_refl) as (s' & H & _ & Hs & _ & Hb).
  - cbn. lia.
  - reflexivity.
  - intros _ x [= <-]. split; [by vm_compute |]. cbn. rewrite !not_elem_of_cons. split_and!; try done. apply not_elem_of_nil.
  - exists s'. split; [exact H |]. split; [apply Hs; right; left |]. rewrite Hb. by vm_compute.
Defined.

Lemma shtree_no_leak_witness : exists s', shtree_free 9 (Some 1%nat) ex_s3 = Done s' /\ nodes s' = ∅ /\
  blocks s' = {[10%nat; 11%nat; 12%nat]} ∖ (∅ ∪ {[10%nat]} ∪ {[11%nat]}).
Proof. apply (shtree_no_leak ex_tenv 9 SHTREE_DEALLOC ex_s0 _ ex_s3 1 _ eq_refl ex_built3). cbn. lia. Defined.

Lemma shtree_traverse_orders_witness :
  shtree_traverse 9 (Some 1%nat) SHTREE_ORDER_IN ex_s3 = Done [2; 3; 1]%nat /\
  ~ shtree_traverse 9 (Some 1%nat) SHTREE_ORDER_IN ex_s3 = Done [3; 2; 1]%nat.
Proof.
  destruct ex_wf3 as (_ & (rn & (Ht & Hnd & _) & _) & _).
  destruct (shtree_traverse_orders 9 ex_s3 _ _ _ _ _ _ _ Ht Hnd) as (_ & Hin & _ & Hiff & _); [cbn; lia |].
  split; [exact Hin |]. intros H. apply Hiff in H as [[H _] _]. discriminate.
Defined.
