(* ===== verification/ShHmac.v ===== *)
(** * Digest selection, HMAC, HKDF and one-time pins

    Models the second half of [share-lib/mem/shmem_alg_sha.c]: the functions that
    select a digest by algorithm ([shsha_init], [shsha_write], [shsha_result],
    [shsha]), the keyed hash ([shhmac]), the key derivation ([shhkdf]) and the
    time-based pins ([shsha_2fa]).  The contexts are those of [ShSha.v].

    A length argument that goes with a buffer is the length of the list; lengths
    are converted where the code converts them.  The errors joined by [||] in the
    code become 1, as there.  The memory of uninitialised stack contexts, the time
    of day and the random numbers are arguments.

    The specifications are the constructions of RFC 2104 and RFC 5869 over the
    digests of [ShSha.v]. *)

From Stdlib Require Import ZArith Lia String.
From stdpp Require Import base numbers list.
From S2P Require Import Prelude ShStream ShSha ShCrc ShBase32.

Open Scope Z_scope.

Definition SHALG_128BIT : Z := 1.
Definition SHALG_224BIT : Z := 4.
Definition SHALG_256BIT : Z := 8.
Definition SHALG_384BIT : Z := 16.
Definition SHALG_512BIT : Z := 32.
Definition SHALG_SHA : Z := 512.
Definition SHALG_SHA1 : Z := Z.lor SHALG_SHA SHALG_128BIT.
Definition SHALG_SHA224 : Z := Z.lor SHALG_SHA SHALG_224BIT.
Definition SHALG_SHA256 : Z := Z.lor SHALG_SHA SHALG_256BIT.
Definition SHALG_SHA384 : Z := Z.lor SHALG_SHA SHALG_384BIT.
Definition SHALG_SHA512 : Z := Z.lor SHALG_SHA SHALG_512BIT.
Definition SHERR_ACCESS : Z := -13.

Definition alg_has (alg bit : Z) : bool := negb (Z.land alg bit =? 0).

(** ** Selecting a digest *)

Definition shsha_size (alg : Z) : nat :=
  if alg_has alg SHALG_128BIT then 20
  else if alg_has alg SHALG_224BIT then 28
  else if alg_has alg SHALG_256BIT then 32
  else if alg_has alg SHALG_384BIT then 48
  else if alg_has alg SHALG_512BIT then 64
  else 0.

Definition shsha_blocksize (alg : Z) : nat :=
  if alg_has alg SHALG_128BIT then 64
  else if alg_has alg SHALG_224BIT then 64
  else if alg_has alg SHALG_256BIT then 64
  else if alg_has alg SHALG_384BIT then 128
  else if alg_has alg SHALG_512BIT then 128
  else 0.

(** The members of the union.  A member is only used after the init function of
    its algorithm has set every field but the message block. *)
Record sh_sha_t : Type := mk_sha_t { sha_alg : Z; u_sha1 : sha_ctx; u_sha256 : sha_ctx; u_sha512 : sha_ctx }.

Definition set_sha1 (alg : Z) (c : sha_ctx) (s : sh_sha_t) : sh_sha_t := mk_sha_t alg c (u_sha256 s) (u_sha512 s).
Definition set_sha256 (alg : Z) (c : sha_ctx) (s : sh_sha_t) : sh_sha_t := mk_sha_t alg (u_sha1 s) c (u_sha512 s).
Definition set_sha512 (alg : Z) (c : sha_ctx) (s : sh_sha_t) : sh_sha_t := mk_sha_t alg (u_sha1 s) (u_sha256 s) c.

(** The init functions also set the algorithm; [memset(sha, 0, sizeof(sha))]
    clears no more than it and the bytes that align the union. *)
Definition shsha_init (s : sh_sha_t) (alg : Z) : sh_sha_t * Z :=
  if alg_has alg SHALG_512BIT then (set_sha512 SHALG_SHA512 (Sha512.sh_sha512_init (u_sha512 s)) s, 0)
  else if alg_has alg SHALG_384BIT then (set_sha512 SHALG_SHA384 (Sha512.sh_sha384_init (u_sha512 s)) s, 0)
  else if alg_has alg SHALG_256BIT then (set_sha256 SHALG_SHA256 (Sha256.sh_sha256_init (u_sha256 s)) s, 0)
  else if alg_has alg SHALG_224BIT then (set_sha256 SHALG_SHA224 (Sha256.sh_sha224_init (u_sha256 s)) s, 0)
  else if alg_has alg SHALG_128BIT then (set_sha1 SHALG_SHA1 (Sha1.sh_sha1_init (u_sha1 s)) s, 0)
  else (s, SHERR_OPNOTSUPP).

(** A [size_t] length passed to an [unsigned int] parameter. *)
Definition uint_arg (data : bytes) : bytes := take (Z.to_nat (u32 (Z.of_nat (length data)))) data.

Definition shsha_write (s : sh_sha_t) (data : bytes) : outcome (sh_sha_t * Z) :=
  let alg := sha_alg s in
  if alg_has alg SHALG_512BIT then r <-! Sha512.sh_sha512_write (u_sha512 s) (uint_arg data); Done (set_sha512 alg (fst r) s, snd r)
  else if alg_has alg SHALG_384BIT then r <-! Sha512.sh_sha384_write (u_sha512 s) (uint_arg data); Done (set_sha512 alg (fst r) s, snd r)
  else if alg_has alg SHALG_256BIT then r <-! Sha256.sh_sha256_write (u_sha256 s) (uint_arg data); Done (set_sha256 alg (fst r) s, snd r)
  else if alg_has alg SHALG_224BIT then r <-! Sha256.sh_sha224_write (u_sha256 s) (uint_arg data); Done (set_sha256 alg (fst r) s, snd r)
  else if alg_has alg SHALG_128BIT then r <-! Sha1.sh_sha1_write (u_sha1 s) (uint_arg data); Done (set_sha1 alg (fst r) s, snd r)
  else Done (s, SHERR_OPNOTSUPP).

(** The context, the error code and the bytes written to the digest. *)
Definition shsha_result (s : sh_sha_t) : outcome (sh_sha_t * Z * bytes) :=
  let alg := sha_alg s in
  if alg_has alg SHALG_512BIT then r <-! Sha512.sh_sha512_result (u_sha512 s); Done (set_sha512 alg (fst (fst r)) s, snd (fst r), snd r)
  else if alg_has alg SHALG_384BIT then r <-! Sha512.sh_sha384_result (u_sha512 s); Done (set_sha512 alg (fst (fst r)) s, snd (fst r), snd r)
  else if alg_has alg SHALG_256BIT then r <-! Sha256.sh_sha256_result (u_sha256 s); Done (set_sha256 alg (fst (fst r)) s, snd (fst r), snd r)
  else if alg_has alg SHALG_224BIT then r <-! Sha256.sh_sha224_result (u_sha256 s); Done (set_sha256 alg (fst (fst r)) s, snd (fst r), snd r)
  else if alg_has alg SHALG_128BIT then r <-! Sha1.sh_sha1_result (u_sha1 s); Done (set_sha1 alg (fst (fst r)) s, snd (fst r), snd r)
  else Done (s, 0, []).

Definition shsha (stack : sh_sha_t) (alg : Z) (data : bytes) : outcome (Z * bytes) :=
  if negb (alg_has alg SHALG_SHA) then Done (SHERR_INVAL, [])
  else
    let '(s, err) := shsha_init stack alg in
    if negb (err =? 0) then Done (err, [])
    else
      r <-! shsha_write s data;
      if negb (snd r =? 0) then Done (snd r, [])
      else
        r <-! shsha_result (fst r);
        if negb (snd (fst r) =? 0) then Done (snd (fst r), []) else Done (0, snd r).

(** ** The keyed hash *)

Record sh_hmac_t : Type := mk_hmac {
  h_alg : Z;
  hashSize : nat;
  blockSize : nat;
  shaContext : sh_sha_t;
  k_opad : bytes;
  h_Computed : bool;
  h_Corrupted : Z
}.

(** A context cleared by [memset(context, 0, sizeof(sh_hmac_t))]. *)
Definition zero_ctx (words block : nat) : sha_ctx := mk_sha (replicate words 0) 0 0 0 (replicate block 0) false 0.
Definition zero_sha : sh_sha_t := mk_sha_t 0 (zero_ctx 5 64) (zero_ctx 8 64) (zero_ctx 8 128).

Definition h_corrupt (e : Z) (c : sh_hmac_t) : sh_hmac_t :=
  mk_hmac (h_alg c) (hashSize c) (blockSize c) (shaContext c) (k_opad c) (h_Computed c) e.
Definition h_sha (s : sh_sha_t) (c : sh_hmac_t) : sh_hmac_t :=
  mk_hmac (h_alg c) (hashSize c) (blockSize c) s (k_opad c) (h_Computed c) (h_Corrupted c).

(** [key[i] ^ c] for the bytes of the key, then [c], up to the block size. *)
Definition key_pad (c : Z) (blocksize : nat) (key : bytes) : bytes :=
  map (fun b => Z.lxor b c) key ++ replicate (blocksize - length key) c.

(** The digest of a key longer than a block: the error of the three calls, or the
    digest. *)
Definition hash_key (stack : sh_sha_t) (alg : Z) (key : bytes) : outcome (Z * bytes) :=
  let '(t, e) := shsha_init stack alg in
  if negb (e =? 0) then Done (1, [])
  else
    r <-! shsha_write t key;
    if negb (snd r =? 0) then Done (1, [])
    else
      r <-! shsha_result (fst r);
      if negb (snd (fst r) =? 0) then Done (1, []) else Done (0, snd r).

(** [stack] is the memory of the local context that hashes a long key. *)
Definition shhmac_init (stack : sh_sha_t) (alg : Z) (key : bytes) : outcome (sh_hmac_t * Z) :=
  let blocksize := shsha_blocksize alg in
  let hashsize := shsha_size alg in
  let ctx := mk_hmac alg hashsize blocksize zero_sha (replicate 128 0) false 0 in
  k <-! (if decide (blocksize < length key)%nat then hash_key stack alg key else Done (0, key));
  if negb (fst k =? 0) then Done (ctx, fst k)
  else
    let key := snd k in
    let ctx := mk_hmac alg hashsize blocksize zero_sha (key_pad 0x5c blocksize key ++ drop blocksize (replicate 128 0)) false 0 in
    let '(s, ret) := shsha_init (shaContext ctx) alg in
    if negb (ret =? 0) then Done (h_corrupt ret (h_sha s ctx), ret)
    else
      r <-! shsha_write s (key_pad 0x36 blocksize key);
      if negb (snd r =? 0) then Done (h_corrupt (snd r) (h_sha (fst r) ctx), snd r)
      else Done (h_sha (fst r) ctx, 0).

Definition shhmac_write (c : sh_hmac_t) (text : bytes) : outcome (sh_hmac_t * Z) :=
  if negb (h_Corrupted c =? 0) then Done (c, h_Corrupted c)
  else if h_Computed c then Done (h_corrupt SHERR_INVAL c, SHERR_INVAL)
  else r <-! shsha_write (shaContext c) text; Done (h_corrupt (snd r) (h_sha (fst r) c), snd r).

(** The two passes: the context, whether a call failed, the digest. *)
Definition hmac_passes (c : sh_hmac_t) : outcome (sh_sha_t * bool * bytes) :=
  r <-! shsha_result (shaContext c);
  (let '(s, e, digest) := r in
   if negb (e =? 0) then Done (s, true, digest)
   else
     let '(s, e) := shsha_init s (h_alg c) in
     if negb (e =? 0) then Done (s, true, digest)
     else
       r <-! shsha_write s (take (blockSize c) (k_opad c));
       if negb (snd r =? 0) then Done (fst r, true, digest)
       else
         r <-! shsha_write (fst r) (take (hashSize c) digest);
         if negb (snd r =? 0) then Done (fst r, true, digest)
         else
           r <-! shsha_result (fst r);
           Done (fst (fst r), negb (snd (fst r) =? 0), snd r)).

Definition shhmac_result (c : sh_hmac_t) : outcome (sh_hmac_t * Z * bytes) :=
  if negb (h_Corrupted c =? 0) then Done (c, h_Corrupted c, [])
  else if h_Computed c then Done (h_corrupt SHERR_INVAL c, SHERR_INVAL, [])
  else
    r <-! hmac_passes c;
    (let '(s, failed, digest) := r in
     let ret := if failed then 1 else 0 in
     Done (mk_hmac (h_alg c) (hashSize c) (blockSize c) s (k_opad c) true ret, ret, digest)).

(** A [size_t] length passed to an [int] parameter; a negative one is below every
    block size and runs no loop, like an empty key. *)
Definition int_arg (data : bytes) : bytes := take (Z.to_nat (sint 32 (Z.of_nat (length data)))) data.

Definition shhmac (stack : sh_sha_t) (alg : Z) (key message : bytes) : outcome (Z * bytes) :=
  r <-! shhmac_init stack alg (int_arg key);
  if negb (snd r =? 0) then Done (snd r, [])
  else
    r <-! shhmac_write (fst r) message;
    if negb (snd r =? 0) then Done (snd r, [])
    else
      r <-! shhmac_result (fst r);
      if negb (snd (fst r) =? 0) then Done (snd (fst r), snd r) else Done (0, snd r).

(** ** The digests as a family *)

(** The five algorithms and their parameters. *)
Inductive variant : Type := V1 | V224 | V256 | V384 | V512.

Definition alg_of (v : variant) : Z :=
  match v with V1 => SHALG_SHA1 | V224 => SHALG_SHA224 | V256 => SHALG_SHA256 | V384 => SHALG_SHA384 | V512 => SHALG_SHA512 end.
Definition v_block (v : variant) : nat := match v with V1 | V224 | V256 => 64 | V384 | V512 => 128 end.
Definition v_word (v : variant) : nat := match v with V1 | V224 | V256 => 4 | V384 | V512 => 8 end.
Definition v_size (v : variant) : nat := match v with V1 => 20 | V224 => 28 | V256 => 32 | V384 => 48 | V512 => 64 end.
Definition v_compress (v : variant) : list Z -> bytes -> list Z :=
  match v with V1 => Sha1.sha1_compress | V224 | V256 => Sha256.compress | V384 | V512 => Sha512.compress512 end.
Definition v_H0 (v : variant) : list Z :=
  match v with V1 => Sha1.SHA1_H0 | V224 => Sha256.SHA224_H0 | V256 => Sha256.SHA256_H0
             | V384 => Sha512.SHA384_H0 | V512 => Sha512.SHA512_H0 end.
Definition member (v : variant) (s : sh_sha_t) : sha_ctx :=
  match v with V1 => u_sha1 s | V224 | V256 => u_sha256 s | V384 | V512 => u_sha512 s end.

(** The digest of a message. *)
Definition H (v : variant) (m : bytes) : bytes := hash_spec (v_block v) (v_word v) (v_compress v) (v_H0 v) (v_size v) m.

Lemma v_sizes v : (v_block v = 64 /\ v_word v = 4)%nat \/ (v_block v = 128 /\ v_word v = 8)%nat.
Proof. destruct v; auto. Qed.

Lemma v_bits v : 2 ^ 64 <= 2 ^ (2 * lbits (v_word v)).
Proof. destruct v; done. Qed.

Lemma shsha_size_of v : shsha_size (alg_of v) = v_size v.
Proof. by destruct v. Qed.
Lemma shsha_blocksize_of v : shsha_blocksize (alg_of v) = v_block v.
Proof. by destruct v. Qed.

Lemma length_H v m : length (H v m) = v_size v.
Proof. unfold H, hash_spec, digest. by rewrite length_map, length_seq. Qed.
Lemma v_size_block v : (v_size v <= v_block v /\ v_block v <= 128)%nat.
Proof. destruct v; cbn; lia. Qed.

(** The message blocks have their sizes. *)
Definition sized (s : sh_sha_t) : Prop :=
  length (Message_Block (u_sha1 s)) = 64%nat /\ length (Message_Block (u_sha256 s)) = 64%nat /\
  length (Message_Block (u_sha512 s)) = 128%nat.

(** The context has absorbed [m]. *)
Definition holds (v : variant) (s : sh_sha_t) (m : bytes) : Prop :=
  sha_alg s = alg_of v /\ sized s /\
  rep (v_block v) (v_word v) (member v s) (fold_left (absorb (v_block v) (v_compress v)) m (v_H0 v, [])) (Z.of_nat (length m)).

Lemma sized_block v s : sized s -> length (Message_Block (member v s)) = v_block v.
Proof. intros (H1 & H2 & H3). by destruct v. Qed.

Lemma holds_init v s : sized s -> exists s', shsha_init s (alg_of v) = (s', 0) /\ holds v s' [].
Proof.
  intros Hs. pose proof (reset_rep (v_block v) (v_word v) (v_sizes v) (v_H0 v) (member v s) (sized_block v s Hs)) as Hr.
  destruct Hs as (H1 & H2 & H3). destruct v; (eexists; split; [reflexivity |]; split; [reflexivity |]; split; [by split_and! |]; exact Hr).
Qed.

Lemma uint_arg_id x : is_uint 32 (Z.of_nat (length x)) -> uint_arg x = x.
Proof. intros Hx. unfold uint_arg. rewrite wrap_small, Nat2Z.id by done. apply firstn_all. Qed.

Lemma holds_write v s m x :
  holds v s m -> 8 * (Z.of_nat (length m) + Z.of_nat (length x)) < 2 ^ 64 -> is_uint 32 (Z.of_nat (length x)) ->
  exists s', shsha_write s x = Done (s', 0) /\ holds v s' (m ++ x).
Proof.
  intros (Ha & Hs & Hr) Hl Hx.
  destruct (write_rep (v_block v) (v_word v) (v_compress v) (v_sizes v) _ _ _ x Hr) as (c & Hw & Hr').
  { pose proof (v_bits v). lia. }
  rewrite <- fold_left_app in Hr'. unfold shsha_write. rewrite Ha, uint_arg_id by done.
  assert (length (Message_Block c) = v_block v) as Hc by (by destruct Hr' as ((_ & ? & _) & _)).
  assert (Z.of_nat (length (m ++ x)) = Z.of_nat (length m) + Z.of_nat (length x)) as Hlen by (rewrite length_app; lia).
  destruct Hs as (H1 & H2 & H3). unfold holds. rewrite Hlen.
  destruct v; cbn -[Sha1.sh_sha1_write Sha256.sh_sha224_write Sha256.sh_sha256_write Sha512.sh_sha384_write Sha512.sh_sha512_write];
    cbn [v_block v_word v_compress v_H0 member] in *.
  - rewrite Sha1.sha1_write_stream, Hw. cbn [obind]. eexists. split; [reflexivity |]. by split_and!.
  - unfold Sha256.sh_sha224_write. rewrite Sha256.write_stream, Hw. cbn [obind]. eexists. split; [reflexivity |]. by split_and!.
  - rewrite Sha256.write_stream, Hw. cbn [obind]. eexists. split; [reflexivity |]. by split_and!.
  - unfold Sha512.sh_sha384_write. rewrite Sha512.sha512_write_stream, Hw. cbn [obind]. eexists. split; [reflexivity |]. by split_and!.
  - rewrite Sha512.sha512_write_stream, Hw. cbn [obind]. eexists. split; [reflexivity |]. by split_and!.
Qed.

Lemma holds_result v s m :
  holds v s m -> exists s', shsha_result s = Done (s', 0, H v m) /\ sized s'.
Proof.
  intros (Ha & Hs & Hr).
  destruct (result_rep (v_block v) (v_word v) (v_compress v) (v_sizes v) _ _ m (v_size v) Hr) as (c & Hw & _ & _ & Hc & _).
  destruct Hs as (H1 & H2 & H3). unfold shsha_result. rewrite Ha.
  destruct v; cbn -[Sha1.sh_sha1_result Sha256.sh_sha224_result Sha256.sh_sha256_result Sha512.sh_sha384_result Sha512.sh_sha512_result];
    cbn [v_block v_word v_compress v_H0 v_size member] in *.
  - rewrite Sha1.sha1_result_stream. unfold SHA1HashSize. rewrite Hw. cbn [obind]. eexists. split; [reflexivity |]. by split_and!.
  - unfold Sha256.sh_sha224_result. rewrite Sha256.result_stream. unfold SHA224HashSize. rewrite Hw. cbn [obind]. eexists. split; [reflexivity |]. by split_and!.
  - unfold Sha256.sh_sha256_result. rewrite Sha256.result_stream. unfold SHA256HashSize. rewrite Hw. cbn [obind]. eexists. split; [reflexivity |]. by split_and!.
  - unfold Sha512.sh_sha384_result. rewrite Sha512.sha512_result_stream. unfold SHA384HashSize. rewrite Hw. cbn [obind]. eexists. split; [reflexivity |]. by split_and!.
  - unfold Sha512.sh_sha512_result. rewrite Sha512.sha512_result_stream. unfold SHA512HashSize. rewrite Hw. cbn [obind]. eexists. split; [reflexivity |]. by split_and!.
Qed.

(** The digest of a whole message. *)
Lemma hash_key_ok v stack key :
  sized stack -> is_uint 32 (Z.of_nat (length key)) -> hash_key stack (alg_of v) key = Done (0, H v key).
Proof.
  intros Hs Hl. unfold hash_key. destruct (holds_init v stack Hs) as (s1 & -> & H1). cbn [Z.eqb negb].
  destruct (holds_write v s1 [] key H1) as (s2 & -> & H2); [cbn [length]; rlia | done |]. cbn [obind fst snd Z.eqb negb].
  destruct (holds_result v s2 _ H2) as (s3 & -> & _). done.
Qed.

(** ** HMAC: RFC 2104 *)

Definition xor_all (c : Z) (l : bytes) : bytes := map (fun b => Z.lxor b c) l.
Definition hmac_key (v : variant) (key : bytes) : bytes :=
  let k := if decide (v_block v < length key)%nat then H v key else key in k ++ replicate (v_block v - length k) 0.
Definition hmac_spec (v : variant) (key message : bytes) : bytes :=
  H v (xor_all 0x5c (hmac_key v key) ++ H v (xor_all 0x36 (hmac_key v key) ++ message)).

Lemma key_pad_xor c v key :
  key_pad c (v_block v) (if decide (v_block v < length key)%nat then H v key else key) = xor_all c (hmac_key v key).
Proof.
  unfold key_pad, xor_all, hmac_key. rewrite map_app. f_equal.
  assert (forall n, map (fun b => Z.lxor b c) (replicate n 0) = replicate n c) as Hr.
  { induction n as [|n IH]; [done |]. cbn [replicate map]. by rewrite IH, Z.lxor_0_l. }
  by rewrite Hr.
Qed.

Lemma length_hmac_key c v key : length (xor_all c (hmac_key v key)) = v_block v.
Proof.
  unfold xor_all, hmac_key. rewrite length_map, length_app, length_replicate. pose proof (v_size_block v).
  case_decide; rewrite ?length_H; lia.
Qed.

(** The context has been given the key and has absorbed [m]. *)
Definition keyed (v : variant) (c : sh_hmac_t) (key m : bytes) : Prop :=
  h_alg c = alg_of v /\ hashSize c = v_size v /\ blockSize c = v_block v /\
  take (v_block v) (k_opad c) = xor_all 0x5c (hmac_key v key) /\ h_Computed c = false /\ h_Corrupted c = 0 /\
  holds v (shaContext c) (xor_all 0x36 (hmac_key v key) ++ m).

Lemma sized_zero : sized zero_sha.
Proof. by split_and!. Qed.

Lemma keyed_init v stack key :
  sized stack -> is_uint 32 (Z.of_nat (length key)) ->
  exists c, shhmac_init stack (alg_of v) key = Done (c, 0) /\ keyed v c key [].
Proof.
  intros Hs Hl. unfold shhmac_init. rewrite shsha_blocksize_of, shsha_size_of.
  assert ((if decide (v_block v < length key)%nat then hash_key stack (alg_of v) key else Done (0, key))
    = Done (0, if decide (v_block v < length key)%nat then H v key else key)) as ->
    by (case_decide; [by apply hash_key_ok | done]).
  cbn [obind fst snd Z.eqb negb]. rewrite !key_pad_xor. cbn [shaContext].
  destruct (holds_init v zero_sha sized_zero) as (s1 & -> & H1). cbn [Z.eqb negb].
  destruct (holds_write v s1 [] (xor_all 0x36 (hmac_key v key)) H1) as (s2 & -> & H2);
    [rewrite length_hmac_key; destruct v; done | rewrite length_hmac_key; destruct v; done |].
  cbn [obind fst snd Z.eqb negb]. eexists. split; [reflexivity |]. split_and!; try done.
  - cbn [k_opad h_sha]. rewrite take_app_le by (rewrite length_hmac_key; lia). by rewrite <- (length_hmac_key 0x5c v key), firstn_all.
  - cbn [shaContext h_sha]. by rewrite app_nil_r.
Qed.

Lemma keyed_write v c key m x :
  keyed v c key m -> 8 * (128 + Z.of_nat (length m) + Z.of_nat (length x)) < 2 ^ 64 -> is_uint 32 (Z.of_nat (length x)) ->
  exists c', shhmac_write c x = Done (c', 0) /\ keyed v c' key (m ++ x).
Proof.
  intros (Ha & Hh & Hb & Hk & Hc & Hr & Hs) Hl Hx. unfold shhmac_write. rewrite Hr, Hc. cbn [Z.eqb negb].
  destruct (holds_write v _ _ x Hs) as (s & -> & Hs'); [| done |].
  { pose proof (v_size_block v). rewrite length_app, length_hmac_key. lia. }
  cbn [obind fst snd]. eexists. split; [reflexivity |]. split_and!; try done. cbn [shaContext h_corrupt h_sha]. by rewrite app_assoc.
Qed.

Lemma keyed_result v c key m :
  keyed v c key m -> exists c', shhmac_result c = Done (c', 0, hmac_spec v key m) /\ h_Computed c' = true.
Proof.
  intros (Ha & Hh & Hb & Hk & Hc & Hr & Hs). unfold shhmac_result. rewrite Hr, Hc. cbn [Z.eqb negb].
  unfold hmac_passes. destruct (holds_result v _ _ Hs) as (s1 & -> & Hz). cbn [obind Z.eqb negb]. rewrite Ha.
  destruct (holds_init v s1 Hz) as (s2 & -> & H2). cbn [Z.eqb negb]. rewrite Hb, Hk.
  destruct (holds_write v s2 [] (xor_all 0x5c (hmac_key v key)) H2) as (s3 & -> & H3);
    [rewrite length_hmac_key; destruct v; done | rewrite length_hmac_key; destruct v; done |].
  cbn [obind fst snd Z.eqb negb app]. rewrite Hh, <- (length_H v (xor_all 54 (hmac_key v key) ++ m)), firstn_all.
  destruct (holds_write v s3 _ (H v (xor_all 54 (hmac_key v key) ++ m)) H3) as (s4 & -> & H4);
    [rewrite length_H; cbn [app]; rewrite length_hmac_key; destruct v; done | rewrite length_H; destruct v; done |].
  cbn [obind fst snd Z.eqb negb]. destruct (holds_result v _ _ H4) as (s5 & -> & _). cbn [obind fst snd Z.eqb negb].
  eexists. by split.
Qed.

Lemma int_arg_id x : is_uint 31 (Z.of_nat (length x)) -> int_arg x = x.
Proof.
  intros Hx. unfold int_arg, sint. unfold is_uint in Hx. change (2 ^ 31) with 2147483648 in Hx. rewrite wrap_small by rlia.
  change (2 ^ (32 - 1)) with 2147483648. destruct (Z.ltb_spec (Z.of_nat (length x)) 2147483648); [| lia].
  rewrite Nat2Z.id. apply firstn_all.
Qed.

Lemma uint31_32 z : is_uint 31 z -> is_uint 32 z.
Proof. unfold is_uint. change (2 ^ 31) with 2147483648. change (2 ^ 32) with 4294967296. lia. Qed.

Lemma shhmac_ok v stack key message :
  sized stack -> is_uint 31 (Z.of_nat (length key)) -> is_uint 31 (Z.of_nat (length message)) ->
  shhmac stack (alg_of v) key message = Done (0, hmac_spec v key message).
Proof.
  intros Hs Hk Hm. unfold shhmac. rewrite int_arg_id by done.
  destruct (keyed_init v stack key Hs) as (c1 & -> & K1); [by apply uint31_32 |]. cbn [obind fst snd Z.eqb negb].
  destruct (keyed_write v c1 key [] message K1) as (c2 & -> & K2).
  { unfold is_uint in Hm. change (2 ^ 31) with 2147483648 in Hm. cbn [length]. lia. }
  { by apply uint31_32. }
  cbn [obind fst snd Z.eqb negb app]. destruct (keyed_result v c2 key _ K2) as (c3 & -> & _). done.
Qed.

(** ** Key derivation *)

(** One keyed hash of three pieces: whether a call failed, and the digest. *)
Definition hmac_round (stack : sh_sha_t) (alg : Z) (key t info : bytes) (c : Z) : outcome (bool * bytes) :=
  r <-! shhmac_init stack alg key;
  if negb (snd r =? 0) then Done (true, [])
  else
    r <-! shhmac_write (fst r) t;
    if negb (snd r =? 0) then Done (true, [])
    else
      r <-! shhmac_write (fst r) info;
      if negb (snd r =? 0) then Done (true, [])
      else
        r <-! shhmac_write (fst r) [c];
        if negb (snd r =? 0) then Done (true, [])
        else
          r <-! shhmac_result (fst r);
          Done (negb (snd (fst r) =? 0), snd r).

(** Rounds [i], [i + 1], ..., [N], [n] of them; [okm] holds what is written so far. *)
Fixpoint expand_loop (n : nat) (stack : sh_sha_t) (alg : Z) (prk info : bytes) (okm_len N i : Z) (T okm : bytes) : outcome (Z * bytes) :=
  match n with
  | O => Done (0, okm)
  | S n' =>
      r <-! hmac_round stack alg prk T info (u8 i);
      if fst r then Done (1, okm)
      else
        let T := snd r in
        let hash_len := Z.of_nat (shsha_size alg) in
        let len := if negb (i =? N) then hash_len else okm_len - Z.of_nat (length okm) in
        src <-! mem_read T 0 (Z.to_nat len);
        expand_loop n' stack alg prk info okm_len N (i + 1) T (okm ++ src)
  end.

Definition shhkdf_expand (stack : sh_sha_t) (alg : Z) (prk : bytes) (info : option bytes) (okm_len : Z) : outcome (Z * bytes) :=
  let info := match info with Some l => l | None => [] end in
  if okm_len <=? 0 then Done (SHERR_INVAL, [])
  else
    let hash_len := Z.of_nat (shsha_size alg) in
    if Z.of_nat (length prk) <? hash_len then Done (SHERR_INVAL, [])
    else if hash_len =? 0 then Fault
    else
      let N := okm_len / hash_len in
      let N := if negb (okm_len mod hash_len =? 0) then N + 1 else N in
      if 255 <? N then Done (SHERR_INVAL, [])
      else expand_loop (Z.to_nat N) stack alg prk info okm_len N 1 [] [].

Definition shhkdf_extract (stack : sh_sha_t) (alg : Z) (salt : option bytes) (ikm : bytes) : outcome (Z * bytes) :=
  let salt := match salt with Some l => l | None => replicate (shsha_size alg) 0 end in
  shhmac stack alg ikm salt.

Definition shhkdf (stack : sh_sha_t) (alg : Z) (salt : option bytes) (ikm : bytes) (info : option bytes) (okm_len : Z) : outcome (Z * bytes) :=
  r <-! shhkdf_extract stack alg salt ikm;
  if negb (fst r =? 0) then Done (1, [])
  else
    r <-! shhkdf_expand stack alg (take (shsha_size alg) (snd r)) info okm_len;
    Done (if fst r =? 0 then 0 else 1, snd r).

Record sh_hkdf_t : Type := mk_hkdf {
  hk_alg : Z;
  hmacContext : sh_hmac_t;
  hk_hashSize : nat;
  hk_Computed : bool;
  hk_Corrupted : Z
}.

Definition hk_corrupt (e : Z) (c : sh_hkdf_t) : sh_hkdf_t := mk_hkdf (hk_alg c) (hmacContext c) (hk_hashSize c) (hk_Computed c) e.
Definition hk_hmac (h : sh_hmac_t) (c : sh_hkdf_t) : sh_hkdf_t := mk_hkdf (hk_alg c) h (hk_hashSize c) (hk_Computed c) (hk_Corrupted c).

(** [Computed] and [Corrupted] keep what the memory held. *)
Definition shhkdf_init (stack : sh_sha_t) (mem : sh_hkdf_t) (alg : Z) (salt : option bytes) : outcome (sh_hkdf_t * Z) :=
  let size := shsha_size alg in
  let salt := match salt with Some l => l | None => replicate size 0 end in
  r <-! shhmac_init stack alg salt;
  Done (mk_hkdf alg (fst r) size (hk_Computed mem) (hk_Corrupted mem), snd r).

Definition shhkdf_write (c : sh_hkdf_t) (ikm : bytes) : outcome (sh_hkdf_t * Z) :=
  if negb (hk_Corrupted c =? 0) then Done (c, hk_Corrupted c)
  else if hk_Computed c then Done (hk_corrupt SHERR_INVAL c, SHERR_INVAL)
  else r <-! shhmac_write (hmacContext c) ikm; Done (hk_hmac (fst r) c, snd r).

(** The context, the error code, the extracted key and the derived bytes. *)
Definition shhkdf_result (stack : sh_sha_t) (c : sh_hkdf_t) (info : option bytes) (okm_len : Z) : outcome (sh_hkdf_t * Z * bytes * bytes) :=
  if negb (hk_Corrupted c =? 0) then Done (c, hk_Corrupted c, [], [])
  else if hk_Computed c then Done (hk_corrupt SHERR_INVAL c, SHERR_INVAL, [], [])
  else
    r <-! shhmac_result (hmacContext c);
    (let '(h, e, prk) := r in
     if negb (e =? 0) then Done (mk_hkdf (hk_alg c) h (hk_hashSize c) true 1, 1, prk, [])
     else
       x <-! shhkdf_expand stack (hk_alg c) (take (hk_hashSize c) prk) info okm_len;
       let ret := if fst x =? 0 then 0 else 1 in
       Done (mk_hkdf (hk_alg c) h (hk_hashSize c) true ret, ret, prk, snd x)).

(** *** RFC 5869 *)

Fixpoint hkdf_T (v : variant) (prk info : bytes) (n : nat) : bytes :=
  match n with
  | O => []
  | S n' => hmac_spec v prk (hkdf_T v prk info n' ++ info ++ [Z.of_nat (S n')])
  end.
Definition okm_blocks (v : variant) (prk info : bytes) (n : nat) : bytes := concat (map (hkdf_T v prk info) (seq 1 n)).

(** The first [okm_len] bytes of the 255 blocks. *)
Definition hkdf_expand_spec (v : variant) (prk info : bytes) (okm_len : nat) : bytes := take okm_len (okm_blocks v prk info 255).

(** The salt is the key of the extraction. *)
Definition hkdf_spec (v : variant) (salt ikm info : bytes) (okm_len : nat) : bytes :=
  hkdf_expand_spec v (hmac_spec v salt ikm) info okm_len.

Lemma length_hmac_spec v key m : length (hmac_spec v key m) = v_size v.
Proof. apply length_H. Qed.

Lemma length_hkdf_T v prk info n : length (hkdf_T v prk info n) = if decide (n = 0)%nat then 0%nat else v_size v.
Proof. destruct n; [done |]. cbn [hkdf_T]. by rewrite length_hmac_spec. Qed.

Lemma okm_blocks_S v prk info n : okm_blocks v prk info (S n) = okm_blocks v prk info n ++ hkdf_T v prk info (S n).
Proof. unfold okm_blocks. rewrite seq_S, map_app, concat_app. cbn [map concat Nat.add]. by rewrite app_nil_r. Qed.

Lemma length_okm_blocks v prk info n : length (okm_blocks v prk info n) = (n * v_size v)%nat.
Proof. induction n as [|n IH]; [done |]. rewrite okm_blocks_S, length_app, IH, length_hkdf_T, decide_False by done. lia. Qed.

Lemma okm_blocks_prefix v prk info n m : exists k, okm_blocks v prk info (n + m) = okm_blocks v prk info n ++ k.
Proof.
  induction m as [|m [k IH]]; [exists []; by rewrite Nat.add_0_r, app_nil_r |].
  rewrite Nat.add_succ_r, okm_blocks_S, IH, <- app_assoc. by eexists.
Qed.

Lemma take_okm_blocks v prk info n L :
  (n <= 255)%nat -> (L <= n * v_size v)%nat -> hkdf_expand_spec v prk info L = take L (okm_blocks v prk info n).
Proof.
  intros Hn HL. unfold hkdf_expand_spec. destruct (okm_blocks_prefix v prk info n (255 - n)) as [k Hk].
  replace (n + (255 - n))%nat with 255%nat in Hk by lia. rewrite Hk. apply take_app_le. rewrite length_okm_blocks. lia.
Qed.

Lemma hmac_round_ok v stack key t info c :
  sized stack -> is_uint 31 (Z.of_nat (length key)) -> is_uint 31 (Z.of_nat (length info)) -> (length t <= 64)%nat ->
  hmac_round stack (alg_of v) key t info c = Done (false, hmac_spec v key (t ++ info ++ [c])).
Proof.
  intros Hs Hk Hi Ht. unfold hmac_round. pose proof (uint31_32 _ Hi). unfold is_uint in Hi. change (2 ^ 31) with 2147483648 in Hi.
  destruct (keyed_init v stack key Hs) as (c1 & -> & K1); [by apply uint31_32 |]. cbn [obind fst snd Z.eqb negb].
  destruct (keyed_write v c1 key [] t K1) as (c2 & -> & K2); [cbn [length]; lia | rlia |]. cbn [obind fst snd Z.eqb negb app] in *.
  destruct (keyed_write v c2 key _ info K2) as (c3 & -> & K3); [lia | done |]. cbn [obind fst snd Z.eqb negb] in *.
  destruct (keyed_write v c3 key _ [c] K3) as (c4 & -> & K4); [rewrite length_app; cbn [length]; lia | done |]. cbn [obind fst snd Z.eqb negb] in *.
  destruct (keyed_result v c4 key _ K4) as (c5 & -> & _). cbn [obind fst snd Z.eqb negb]. by rewrite <- app_assoc.
Qed.

(** The loop from round [i]: the blocks before it are written. *)
Lemma expand_loop_ok v stack prk info L N n : forall i,
  sized stack -> is_uint 31 (Z.of_nat (length prk)) -> is_uint 31 (Z.of_nat (length info)) ->
  (i + n = N)%nat -> (0 < N <= 255)%nat -> (0 < n)%nat -> ((N - 1) * v_size v < L <= N * v_size v)%nat ->
  expand_loop n stack (alg_of v) prk info (Z.of_nat L) (Z.of_nat N) (Z.of_nat i + 1) (hkdf_T v prk info i) (okm_blocks v prk info i)
  = Done (0, take L (okm_blocks v prk info N)).
Proof.
  induction n as [|n IH]; intros i Hs Hp Hi Hin HN Hn HL; [lia |]. cbn [expand_loop].
  assert (length (hkdf_T v prk info i) <= 64)%nat as HT by (rewrite length_hkdf_T; case_decide; [lia | destruct v; cbn; lia]).
  rewrite hmac_round_ok by done.
  cbn [obind fst snd]. unfold wrap. change (2 ^ 8) with 256. rewrite Z.mod_small by lia.
  replace (Z.of_nat i + 1) with (Z.of_nat (S i)) by lia. change (hmac_spec v prk (hkdf_T v prk info i ++ info ++ [Z.of_nat (S i)])) with (hkdf_T v prk info (S i)).
  rewrite shsha_size_of, length_okm_blocks.
  assert (v_size v > 0)%nat as Hv by (destruct v; cbn; lia).
  destruct (Z.eqb_spec (Z.of_nat (S i)) (Z.of_nat N)) as [HiN|HiN]; cbn [negb].
  - assert (n = 0)%nat as -> by lia. assert (N = S i)%nat as -> by lia.
    rewrite mem_read_ok by (rewrite length_hkdf_T, decide_False by done; nia). cbn [obind drop expand_loop].
    rewrite okm_blocks_S. f_equal. f_equal. rewrite take_app_ge by (rewrite length_okm_blocks; nia).
    rewrite length_okm_blocks. do 2 f_equal. nia.
  - rewrite Nat2Z.id, mem_read_ok by (rewrite length_hkdf_T, decide_False by done; lia). cbn [obind]. rewrite drop_0.
    rewrite take_ge by (rewrite length_hkdf_T, decide_False by done; lia). rewrite <- okm_blocks_S.
    apply IH; try done; lia.
Qed.

Definition info_of (info : option bytes) : bytes := match info with Some l => l | None => [] end.
Definition salt_of (v : variant) (salt : option bytes) : bytes := match salt with Some l => l | None => replicate (v_size v) 0 end.

Lemma hkdf_expand_ok v stack prk info L :
  sized stack -> (v_size v <= length prk)%nat -> is_uint 31 (Z.of_nat (length prk)) -> is_uint 31 (Z.of_nat (length (info_of info))) ->
  (0 < L <= 255 * v_size v)%nat ->
  shhkdf_expand stack (alg_of v) prk info (Z.of_nat L) = Done (0, hkdf_expand_spec v prk (info_of info) L).
Proof.
  intros Hs Hp Hp' Hi HL. unfold shhkdf_expand. fold (info_of info). rewrite shsha_size_of.
  assert (0 < v_size v)%nat as Hv by (destruct v; cbn; lia).
  destruct (Z.leb_spec (Z.of_nat L) 0); [lia |]. destruct (Z.ltb_spec (Z.of_nat (length prk)) (Z.of_nat (v_size v))); [lia |].
  destruct (Z.eqb_spec (Z.of_nat (v_size v)) 0); [lia |]. cbv zeta.
  set (N := ((L + v_size v - 1) / v_size v)%nat).
  assert ((N - 1) * v_size v < L <= N * v_size v)%nat as HN.
  { pose proof (Nat.div_mod_eq (L + v_size v - 1) (v_size v)) as Hd. pose proof (Nat.mod_upper_bound (L + v_size v - 1) (v_size v)) as Hm. fold N in Hd. nia. }
  replace (if negb (Z.of_nat L mod Z.of_nat (v_size v) =? 0) then _ else _) with (Z.of_nat N).
  2:{ pose proof (Z.div_mod (Z.of_nat L) (Z.of_nat (v_size v)) ltac:(lia)) as Hd.
      pose proof (Z.mod_pos_bound (Z.of_nat L) (Z.of_nat (v_size v)) ltac:(lia)) as Hm.
      set (q := Z.of_nat L / Z.of_nat (v_size v)) in *. set (r := Z.of_nat L mod Z.of_nat (v_size v)) in *.
      assert (1 <= N)%nat by nia.
      destruct (Z.eqb_spec r 0) as [E|E]; cbn [negb]; nia. }
  destruct (Z.ltb_spec 255 (Z.of_nat N)) as [Hb|Hb]; [nia |].
  rewrite Nat2Z.id, (take_okm_blocks v prk (info_of info) N L) by lia.
  apply (expand_loop_ok v stack prk (info_of info) L N N 0); try done; nia.
Qed.

(** ** One-time pins *)

(** [(uint32_t)pow(10, secret_len - 4)]: the conversion of a double that does not
    fit is undefined, and the difference of a shorter secret wraps. *)
Definition PIN_2FA_MODULO (seclen : Z) : outcome Z :=
  let e := u64 (seclen - 4) in if e <? 10 then Done (10 ^ e) else Fault.

Definition SECRET_2FA_SIZE : nat := 10.

(** The pin of the counter [t]; [hash] is the uninitialised array. *)
Definition pin_at (stack : sh_sha_t) (hash : bytes) (alg : Z) (secret : bytes) (t : Z) : outcome Z :=
  r <-! shhmac stack alg secret (le_bytes 8 (htonll t));
  hash <-! mem_write hash 0 (snd r);
  b <-! mem_read hash 19 1;
  w <-! mem_read hash (Z.to_nat (Z.land (nth 0 b 0) 15)) 4;
  let hash32 := htonl (of_le w) in
  if Z.of_nat (length secret) <=? 16
  then m <-! PIN_2FA_MODULO (Z.of_nat (length secret)); Done (hash32 mod m)
  else Done hash32.

(** [(uint64_t)(time(NULL) / freq)] *)
Definition counter (now freq : Z) : outcome Z := if freq =? 0 then Fault else Done (u64 (Z.quot now freq)).

Definition shsha_2fa_bin (stack : sh_sha_t) (hash : bytes) (now : Z) (alg : Z) (secret : option bytes) (freq : Z) : outcome Z :=
  match secret with
  | None => Done 0
  | Some secret => t <-! counter now freq; pin_at stack hash alg secret t
  end.

(** [for (t = t_st; t <= t_end; t++)] *)
Fixpoint verify_loop (fuel : nat) (stack : sh_sha_t) (hash : bytes) (alg : Z) (secret : bytes) (pin t t_end : Z) : outcome Z :=
  match fuel with
  | O => Fault
  | S fuel' =>
      if t <=? t_end then
        p <-! pin_at stack hash alg secret t;
        if p =? pin then Done 0 else verify_loop fuel' stack hash alg secret pin (u64 (t + 1)) t_end
      else Done SHERR_ACCESS
  end.

Definition shsha_2fa_bin_verify (stack : sh_sha_t) (hash : bytes) (now : Z) (alg : Z) (secret : option bytes) (freq pin : Z) : outcome Z :=
  match secret with
  | None => Done SHERR_INVAL
  | Some secret =>
      t <-! counter now freq;
      let t_st := u64 (t - 1) in
      let t_end := u64 (t_st + 2) in
      verify_loop 4 stack hash alg secret pin t_st t_end
  end.

(** The ten bytes of the decoded secret; [mem] is the uninitialised array of 128. *)
Definition decode_secret (mem secret_str : bytes) : outcome bytes :=
  r <-! shbase32_decode secret_str (Z.of_nat SECRET_2FA_SIZE);
  mem <-! mem_write mem 0 (snd r);
  mem_read mem 0 SECRET_2FA_SIZE.

Definition shsha_2fa (stack : sh_sha_t) (hash mem : bytes) (now : Z) (secret_str : option bytes) : outcome Z :=
  match secret_str with
  | None => Done 0
  | Some str =>
      if negb (Z.of_nat (length str) =? 16) then Done 0
      else secret <-! decode_secret mem str; shsha_2fa_bin stack hash now SHALG_SHA1 (Some secret) 30
  end.

(** Decodes sixteen bytes of the argument. *)
Definition shsha_2fa_verify (stack : sh_sha_t) (hash mem : bytes) (now : Z) (secret_str : bytes) (pin : Z) : outcome Z :=
  str <-! mem_read secret_str 0 16;
  secret <-! decode_secret mem str;
  shsha_2fa_bin_verify stack hash now SHALG_SHA1 (Some secret) 30 pin.

(** The loop of [shsha_2fa_secret_bin]: [secret_len] is already divided by 8 and
    the random numbers come one per round. *)
Fixpoint secret_loop (n : nat) (i secret_len : Z) (rand : nat -> Z) (secret : bytes) : outcome bytes :=
  match n with
  | O => Done secret
  | S n' =>
      let off := i * 8 in
      let val := rand (Z.to_nat i) in
      let len := Z.min 8 (u64 (secret_len - off)) in
      secret <-! mem_write secret (Z.to_nat off) (take (Z.to_nat len) (le_bytes 8 val));
      secret_loop n' (i + 1) secret_len rand secret
  end.

(** [memset(secret, 0, secret_len)] and the loop. *)
Definition shsha_2fa_secret_bin (rand : nat -> Z) (secret : bytes) (secret_len : nat) : outcome bytes :=
  secret <-! mem_write secret 0 (replicate secret_len 0);
  let n := (secret_len / 8)%nat in
  secret_loop n 0 (Z.of_nat n) rand secret.

Definition shsha_2fa_secret (rand : nat -> Z) (mem : bytes) : outcome bytes :=
  secret <-! shsha_2fa_secret_bin rand mem SECRET_2FA_SIZE;
  secret <-! mem_read secret 0 SECRET_2FA_SIZE;
  out <-! shbase32_encode secret (Z.of_nat SECRET_2FA_SIZE) 16;
  mem_write (replicate 64 0) 0 out.

(** *** Counters and pins *)

(** The counter is hashed in network order. *)
Lemma htonll_be t : is_uint 64 t -> le_bytes 8 (htonll t) = be_bytes 8 t.
Proof.
  intros [H0 H1]. unfold htonll. change 4294967295 with (Z.ones 32). rewrite Z.land_ones, Z.shiftr_div_pow2 by lia.
  assert (0 <= t / 2 ^ 32 < 2 ^ 32) as Hq by (split; [apply Z.div_pos; lia | apply Z.div_lt_upper_bound; lia]).
  unfold u32, u64. rewrite (Z.mod_small (t / 2 ^ 32)) by exact Hq. pose proof (htonl_range (t mod 2 ^ 32)) as [Ha Ha'].
  rewrite (Z.mod_small (Z.shiftl _ _)) by (rewrite Z.shiftl_mul_pow2 by lia; lia).
  pose proof (htonl_range (t / 2 ^ 32)) as Hb. rewrite lor_add by (done || lia).
  rewrite Z.add_comm, Z.mul_comm. change (2 ^ 32) with (2 ^ (8 * Z.of_nat 4)). rewrite (le_bytes_app 4 4) by exact Hb. rewrite !le_bytes_htonl.
  unfold be_bytes. rewrite <- reverse_app. f_equal.
  rewrite <- (le_bytes_app 4 4) by (apply Z.mod_pos_bound; lia). cbn [Nat.add]. f_equal.
  pose proof (Z.div_mod t (2 ^ (8 * Z.of_nat 4)) ltac:(lia)). lia.
Qed.

(** The digits of a pin: the four digest bytes at the offset in the low half of
    byte 19, as a big-endian number, modulo a power of ten for a short secret. *)
Definition pin_spec (v : variant) (secret : bytes) (t : Z) : Z :=
  let h := hmac_spec v secret (be_bytes 8 t) in
  let code := of_le (reverse (take 4 (drop (Z.to_nat (Z.land (nth 19 h 0) 15)) h))) in
  if (length secret <=? 16)%nat then code mod 10 ^ (Z.of_nat (length secret) - 4) else code.

Definition good_secret (secret : bytes) : Prop := (4 <= length secret <= 13)%nat \/ (16 < length secret)%nat /\ is_uint 31 (Z.of_nat (length secret)).

Lemma take1_drop {A} (l : list A) n d : (n < length l)%nat -> take 1 (drop n l) = [nth n l d].
Proof.
  intros Hn. destruct (lookup_lt_is_Some_2 l n Hn) as [x Hx]. rewrite (drop_S _ x) by done. cbn [take]. f_equal.
  symmetry. by apply nth_lookup_Some.
Qed.

Lemma digest_bytes v m : is_bytes (H v m).
Proof. unfold H, hash_spec, digest. apply Forall_forall. intros x Hx. apply list_elem_of_fmap in Hx as (i & -> & _). apply wrap8_byte. Qed.
Lemma hmac_bytes v key m : is_bytes (hmac_spec v key m).
Proof. apply digest_bytes. Qed.

Lemma pin_ok v stack hash secret t :
  sized stack -> length hash = 256%nat -> good_secret secret -> is_uint 64 t ->
  pin_at stack hash (alg_of v) secret t = Done (pin_spec v secret t).
Proof.
  intros Hs Hh Hg Ht. unfold pin_at. rewrite htonll_be by done.
  assert (is_uint 31 (Z.of_nat (length secret))) as Hl by (destruct Hg as [Hg|[_ Hg]]; [unfold is_uint; change (2 ^ 31) with 2147483648; lia | done]).
  rewrite shhmac_ok; [| done | done |].
  2:{ rewrite length_be_bytes. done. }
  cbn [obind snd]. unfold pin_spec. set (h := hmac_spec v secret (be_bytes 8 t)).
  assert (20 <= length h <= 64)%nat as Hlen by (unfold h; rewrite length_hmac_spec; destruct v; cbn; lia).
  rewrite mem_write_ok by lia. cbn [obind]. rewrite take_0. cbn [app Nat.add]. set (rest := drop (length h) hash).
  assert (length (h ++ rest) = 256)%nat as Hr by (unfold rest; rewrite length_app, length_drop; lia).
  rewrite mem_read_ok by lia. cbn [obind].
  rewrite (take1_drop _ 19 0), app_nth1 by lia. cbn [nth].
  assert (0 <= Z.land (nth 19 h 0) 15 < 16) as Ho by (change 15 with (Z.ones 4); rewrite Z.land_ones by lia; apply Z.mod_pos_bound; lia).
  rewrite mem_read_ok by lia. cbn [obind]. set (o := Z.to_nat (Z.land (nth 19 h 0) 15)) in *.
  assert (take 4 (drop o (h ++ rest)) = take 4 (drop o h)) as ->.
  { rewrite drop_app_le by lia. apply take_app_le. rewrite length_drop. lia. }
  assert (htonl (of_le (take 4 (drop o h))) = of_le (reverse (take 4 (drop o h)))) as ->.
  { unfold htonl. f_equal. f_equal. assert (length (take 4 (drop o h)) = 4%nat) as Hw by (rewrite length_take, length_drop; lia).
    rewrite <- Hw at 1. apply le_bytes_of_le. apply Forall_take, Forall_drop, hmac_bytes. }
  destruct Hg as [Hg|[Hg _]].
  - destruct (Z.leb_spec (Z.of_nat (length secret)) 16); [| lia]. destruct (Nat.leb_spec (length secret) 16); [| lia].
    unfold PIN_2FA_MODULO. rewrite wrap_small by rlia. destruct (Z.ltb_spec (Z.of_nat (length secret) - 4) 10); [done | lia].
  - destruct (Z.leb_spec (Z.of_nat (length secret)) 16); [lia |]. destruct (Nat.leb_spec (length secret) 16); [lia | done].
Qed.

(** The verification tries the counters around the present one. *)
Lemma bin_verify_ok v stack hash now secret freq pin :
  sized stack -> length hash = 256%nat -> good_secret secret -> 0 < freq <= now -> now < 2 ^ 63 ->
  let t := now / freq in
  shsha_2fa_bin_verify stack hash now (alg_of v) (Some secret) freq pin =
    Done (if bool_decide (pin = pin_spec v secret (t - 1) \/ pin = pin_spec v secret t \/ pin = pin_spec v secret (t + 1)) then 0 else SHERR_ACCESS).
Proof.
  intros Hs Hh Hg Hf Hn t. unfold shsha_2fa_bin_verify, counter. destruct (Z.eqb_spec freq 0); [lia |].
  rewrite Z.quot_div_nonneg by lia. change (now / freq) with t. change (2 ^ 63) with 9223372036854775808 in Hn.
  assert (1 <= t <= now) as Ht by (unfold t; split; [apply Z.div_le_lower_bound; lia | apply Z.div_le_upper_bound; nia]).
  rewrite wrap_small by rlia. cbn [obind]. rewrite (wrap_small 64 (t - 1)) by rlia. replace (t - 1 + 2) with (t + 1) by lia. rewrite (wrap_small 64 (t + 1)) by rlia.
  assert (forall x, 0 <= x <= t + 1 -> pin_at stack hash (alg_of v) secret x = Done (pin_spec v secret x)) as Hp by (intros x Hx; apply pin_ok; try done; rlia).
  cbn [verify_loop]. destruct (Z.leb_spec (t - 1) (t + 1)); [| lia]. rewrite Hp by lia. cbn [obind].
  destruct (Z.eqb_spec (pin_spec v secret (t - 1)) pin) as [E1|E1]; [subst pin; rewrite bool_decide_true; [done | tauto] |].
  replace (t - 1 + 1) with t by lia. rewrite (wrap_small 64 t) by rlia. destruct (Z.leb_spec t (t + 1)); [| lia]. rewrite Hp by lia. cbn [obind].
  destruct (Z.eqb_spec (pin_spec v secret t) pin) as [E2|E2]; [subst pin; rewrite bool_decide_true; [done | tauto] |].
  rewrite (wrap_small 64 (t + 1)) by rlia. destruct (Z.leb_spec (t + 1) (t + 1)); [| lia]. rewrite Hp by lia. cbn [obind].
  destruct (Z.eqb_spec (pin_spec v secret (t + 1)) pin) as [E3|E3]; [subst pin; rewrite bool_decide_true; [done | tauto] |].
  rewrite (wrap_small 64 (t + 1 + 1)) by rlia. destruct (Z.leb_spec (t + 1 + 1) (t + 1)); [lia |].
  rewrite bool_decide_false; [done |]. intros [?|[?|?]]; congruence.
Qed.

(** ** The claims *)

(** The successive writes of a streaming user. *)
Fixpoint hmac_write_all (c : sh_hmac_t) (chunks : list bytes) : outcome sh_hmac_t :=
  match chunks with
  | [] => Done c
  | x :: rest => r <-! shhmac_write c x; hmac_write_all (fst r) rest
  end.

Lemma keyed_write_all v key chunks : forall c m,
  keyed v c key m -> 8 * (128 + Z.of_nat (length m) + Z.of_nat (length (concat chunks))) < 2 ^ 64 ->
  Forall (fun x => is_uint 32 (Z.of_nat (length x))) chunks ->
  exists c', hmac_write_all c chunks = Done c' /\ keyed v c' key (m ++ concat chunks).
Proof.
  induction chunks as [|x chunks IH]; intros c m Hk Hl Hx; [exists c; cbn; by rewrite app_nil_r |].
  cbn [concat] in *. rewrite length_app in Hl. apply Forall_cons in Hx as [Hx Hxs].
  destruct (keyed_write v c key m x Hk) as (c1 & E1 & K1); [lia | done |]. cbn [hmac_write_all]. rewrite E1. cbn [obind fst].
  destruct (IH c1 (m ++ x) K1) as (c2 & E2 & K2); [rewrite length_app; lia | done |]. exists c2. split; [done |]. by rewrite <- app_assoc in K2.
Qed.

(** C13: For each of the five digests the keyed hash is the construction of
    RFC 2104, for keys of any length (a key longer than a block is hashed first),
    whatever the stack holds; a message written in any pieces gives the same
    result, and the context refuses a second result. *)
Theorem shhmac_correct v stack key chunks :
  sized stack -> is_uint 31 (Z.of_nat (length key)) -> is_uint 31 (Z.of_nat (length (concat chunks))) ->
  shhmac stack (alg_of v) key (concat chunks) = Done (0, hmac_spec v key (concat chunks)) /\
  exists c c' c'', shhmac_init stack (alg_of v) key = Done (c, 0) /\ hmac_write_all c chunks = Done c' /\
    shhmac_result c' = Done (c'', 0, hmac_spec v key (concat chunks)) /\
    exists c3, shhmac_result c'' = Done (c3, SHERR_INVAL, []).
Proof.
  intros Hs Hk Hm. split; [by apply shhmac_ok |].
  destruct (keyed_init v stack key Hs) as (c1 & E1 & K1); [by apply uint31_32 |].
  assert (Forall (fun x => is_uint 32 (Z.of_nat (length x))) chunks) as Hf.
  { apply uint31_32 in Hm. clear -Hm. induction chunks as [|x chunks IH]; [constructor |]. cbn [concat] in Hm. rewrite length_app in Hm.
    constructor; [rlia | apply IH; rlia]. }
  destruct (keyed_write_all v key chunks c1 [] K1) as (c2 & E2 & K2); [| done |].
  { unfold is_uint in Hm. change (2 ^ 31) with 2147483648 in Hm. cbn [length]. lia. }
  destruct (keyed_result v c2 key _ K2) as (c3 & E3 & C3). exists c1, c2, c3. split_and!; try done.
  unfold shhmac_result. rewrite C3. destruct (negb (h_Corrupted c3 =? 0)) eqn:Hc; [| by eexists].
  exfalso. unfold shhmac_result in E3. destruct K2 as (_ & _ & _ & _ & Hc2 & Hr2 & _). rewrite Hc2, Hr2 in E3. cbn [Z.eqb negb] in E3.
  destruct (hmac_passes c2) as [[[s f] dg]|]; [| done]. cbn [obind] in E3. destruct f; injection E3 as <-; done.
Qed.

(** C34: [shsha] gives the digest of the selected algorithm, for messages of less
    than 4 GB: exactly [shsha_size(alg)] bytes, each in its range, whatever the
    memory of its context held. *)
Theorem shsha_correct v stack data :
  sized stack -> is_uint 32 (Z.of_nat (length data)) ->
  exists d, shsha stack (alg_of v) data = Done (0, d) /\ d = H v data /\ length d = shsha_size (alg_of v) /\ is_bytes d.
Proof.
  intros Hs Hl. exists (H v data). split_and!; [| done | by rewrite length_H, shsha_size_of |].
  - unfold shsha. replace (negb (alg_has (alg_of v) SHALG_SHA)) with false by (by destruct v).
    destruct (holds_init v stack Hs) as (s1 & -> & H1). cbn [Z.eqb negb].
    destruct (holds_write v s1 [] data H1) as (s2 & -> & H2); [cbn [length]; rlia | done |]. cbn [obind fst snd Z.eqb negb].
    destruct (holds_result v s2 _ H2) as (s3 & -> & _). done.
  - apply digest_bytes.
Qed.

Definition ex_stack : sh_sha_t := mk_sha_t 7 (zero_ctx 5 64) (zero_ctx 8 64) (zero_ctx 8 128).

Lemma shsha_correct_witness :
  exists d, shsha ex_stack SHALG_SHA384 (cstr "abc") = Done (0, d) /\ length d = 48%nat /\ take 4 d = [0xcb; 0x00; 0x75; 0x3f].
Proof.
  destruct (shsha_correct V384 ex_stack (cstr "abc")) as (d & Hd & -> & Hl & _); [by split_and! | done |].
  exists (H V384 (cstr "abc")). split_and!; [exact Hd | exact Hl | vm_compute; reflexivity].
Defined.

(** The key of the first test of the source has 64 bytes; the digest starts
    4f4ca3d5. *)
Lemma shhmac_correct_witness :
  shhmac ex_stack SHALG_SHA1 (map Z.of_nat (seq 0 64)) (cstr "Sample #1") = Done (0, hmac_spec V1 (map Z.of_nat (seq 0 64)) (cstr "Sample #1")) /\
  take 4 (hmac_spec V1 (map Z.of_nat (seq 0 64)) (cstr "Sample #1")) = [0x4f; 0x4c; 0xa3; 0xd5].
Proof.
  split; [| vm_compute; reflexivity].
  destruct (shhmac_correct V1 ex_stack (map Z.of_nat (seq 0 64)) [cstr "Sample"; cstr " #1"]) as [Hh _]; [by split_and! | done | done | exact Hh].
Defined.

Lemma hkdf_lengths v key m : length (take (v_size v) (hmac_spec v key m)) = v_size v /\ is_uint 31 (Z.of_nat (v_size v)).
Proof. rewrite length_take, length_hmac_spec. split; [lia | by destruct v]. Qed.

(** [shhkdf_expand] writes the first [okm_len] bytes of the blocks of
    RFC 5869, for every length up to 255 digests; a longer request, a short key
    or a length that is not positive is refused. *)
Theorem shhkdf_expand_correct v stack prk info okm_len :
  sized stack -> is_uint 31 (Z.of_nat (length prk)) -> is_uint 31 (Z.of_nat (length (info_of info))) ->
  shhkdf_expand stack (alg_of v) prk info okm_len =
    Done (if decide ((v_size v <= length prk)%nat /\ 0 < okm_len <= 255 * Z.of_nat (v_size v))
          then (0, hkdf_expand_spec v prk (info_of info) (Z.to_nat okm_len)) else (SHERR_INVAL, [])).
Proof.
  intros Hs Hp Hi. case_decide as Hd.
  - replace okm_len with (Z.of_nat (Z.to_nat okm_len)) at 1 by lia. apply hkdf_expand_ok; try done; lia.
  - unfold shhkdf_expand. fold (info_of info). rewrite shsha_size_of. assert (0 < v_size v)%nat as Hv by (destruct v; cbn; lia).
    destruct (Z.leb_spec okm_len 0); [done |]. destruct (Z.ltb_spec (Z.of_nat (length prk)) (Z.of_nat (v_size v))); [done |].
    destruct (Z.eqb_spec (Z.of_nat (v_size v)) 0); [lia |]. cbv zeta.
    destruct (Z.ltb_spec 255 (if negb (okm_len mod Z.of_nat (v_size v) =? 0) then okm_len / Z.of_nat (v_size v) + 1 else okm_len / Z.of_nat (v_size v))) as [|Hb]; [done |].
    exfalso. apply Hd. split; [lia |]. split; [lia |].
    pose proof (Z.div_mod okm_len (Z.of_nat (v_size v)) ltac:(lia)) as He.
    pose proof (Z.mod_pos_bound okm_len (Z.of_nat (v_size v)) ltac:(lia)) as Hm.
    set (q := okm_len / Z.of_nat (v_size v)) in *. set (r := okm_len mod Z.of_nat (v_size v)) in *.
    destruct (Z.eqb_spec r 0) as [E|E]; cbn [negb] in Hb; nia.
Qed.

Lemma shhkdf_expand_correct_witness :
  shhkdf_expand ex_stack SHALG_SHA256 (replicate 32 11) None 42 = Done (0, hkdf_expand_spec V256 (replicate 32 11) [] 42) /\
  shhkdf_expand ex_stack SHALG_SHA256 (replicate 32 11) None 8161 = Done (SHERR_INVAL, []).
Proof.
  split; (rewrite (shhkdf_expand_correct V256 ex_stack (replicate 32 11) None) by (done || by split_and!)).
  - rewrite decide_True; [done |]. cbn. lia.
  - rewrite decide_False; [done |]. cbn. lia.
Defined.

(** The one-shot derivation exchanges the salt and the input key: it is the
    function of RFC 5869 with the two arguments swapped, and the documented
    function is computed by the streaming calls, when the memory of their context
    was clear. *)
Theorem shhkdf_swaps_salt v stack mem salt ikm info L :
  sized stack -> is_uint 31 (Z.of_nat (length ikm)) -> is_uint 31 (Z.of_nat (length (salt_of v salt))) ->
  is_uint 31 (Z.of_nat (length (info_of info))) -> (0 < L <= 255 * v_size v)%nat ->
  hk_Computed mem = false -> hk_Corrupted mem = 0 ->
  shhkdf stack (alg_of v) salt ikm info (Z.of_nat L) = Done (0, hkdf_spec v ikm (salt_of v salt) (info_of info) L) /\
  exists c c' c'', shhkdf_init stack mem (alg_of v) salt = Done (c, 0) /\ shhkdf_write c ikm = Done (c', 0) /\
    shhkdf_result stack c' info (Z.of_nat L) =
      Done (c'', 0, hmac_spec v (salt_of v salt) ikm, hkdf_spec v (salt_of v salt) ikm (info_of info) L).
Proof.
  intros Hs Hk Hsl Hi HL Hc Hr. split.
  - unfold shhkdf, shhkdf_extract. rewrite shsha_size_of. fold (salt_of v salt). rewrite shhmac_ok by done. cbn [obind fst snd Z.eqb negb].
    destruct (hkdf_lengths v ikm (salt_of v salt)) as [Hl Hv].
    rewrite hkdf_expand_ok; [| done | by rewrite Hl | by rewrite Hl | done | done]. cbn [obind fst snd Z.eqb].
    by rewrite take_ge by (by rewrite length_hmac_spec).
  - unfold shhkdf_init. rewrite shsha_size_of. fold (salt_of v salt).
    destruct (keyed_init v stack (salt_of v salt) Hs) as (h1 & E1 & K1); [by apply uint31_32 |]. rewrite E1. cbn [obind fst snd].
    eexists _. destruct (keyed_write v h1 _ [] ikm K1) as (h2 & E2 & K2).
    { unfold is_uint in Hk. change (2 ^ 31) with 2147483648 in Hk. cbn [length]. lia. } { by apply uint31_32. }
    destruct (keyed_result v h2 _ _ K2) as (h3 & E3 & _). eexists _, _. split; [reflexivity |].
    unfold shhkdf_write. cbn [hk_Corrupted hk_Computed hmacContext]. rewrite Hr, Hc. cbn [Z.eqb negb]. rewrite E2. cbn [obind fst snd].
    split; [reflexivity |]. unfold shhkdf_result. cbn [hk_hmac hk_Corrupted hk_Computed hmacContext hk_alg hk_hashSize].
    rewrite ?Hr, ?Hc. cbn [Z.eqb negb]. rewrite E3. cbn [obind fst snd Z.eqb negb app].
    destruct (hkdf_lengths v (salt_of v salt) ikm) as [Hl Hv].
    rewrite hkdf_expand_ok; [| done | by rewrite Hl | by rewrite Hl | done | done]. cbn [obind fst snd Z.eqb].
    by rewrite take_ge by (by rewrite length_hmac_spec).
Qed.

Lemma shhkdf_swaps_salt_witness :
  shhkdf ex_stack SHALG_SHA1 (Some [1]) [2; 3] None 20 = Done (0, hkdf_spec V1 [2; 3] [1] [] 20) /\
  hkdf_spec V1 [2; 3] [1] [] 20 <> hkdf_spec V1 [1] [2; 3] [] 20.
Proof.
  split.
  2:{ intros Hd. assert (20 <= 1 * v_size V1)%nat as Hv by (vm_compute; lia).
      pose proof (take_okm_blocks V1 (hmac_spec V1 [2; 3] [1]) [] 1 20 ltac:(lia) Hv) as H1.
      pose proof (take_okm_blocks V1 (hmac_spec V1 [1] [2; 3]) [] 1 20 ltac:(lia) Hv) as H2.
      pose proof (eq_trans (eq_sym H1) (eq_trans Hd H2)) as Hn. apply (f_equal (fun l => hd 0 l)) in Hn. vm_compute in Hn. discriminate. }
  destruct (shhkdf_swaps_salt V1 ex_stack (mk_hkdf 0 (mk_hmac 0 0 0 zero_sha [] false 0) 0 false 0) (Some [1]) [2; 3] None 20) as [Hh _];
    [by split_and! | done | done | done | cbn; lia | done | done | exact Hh].
Defined.

(** A pin is accepted exactly when it is the pin of the half-minute of the
    verification or of one of its neighbours; in particular the pin that
    [shsha_2fa] gives is accepted for at least 30 seconds. *)
Theorem shsha_2fa_window stack stack' hash hash' mem mem' str secret now now' :
  sized stack -> sized stack' -> length hash = 256%nat -> length hash' = 256%nat -> length mem = 128%nat -> length mem' = 128%nat ->
  length str = 16%nat -> shbase32_decode str 10 = Done (true, secret) -> length secret = 10%nat ->
  0 <= now < 2 ^ 63 -> 30 <= now' < 2 ^ 63 ->
  shsha_2fa stack hash mem now (Some str) = Done (pin_spec V1 secret (now / 30)) /\
  forall pin, shsha_2fa_verify stack' hash' mem' now' str pin =
    Done (if bool_decide (pin = pin_spec V1 secret (now' / 30 - 1) \/ pin = pin_spec V1 secret (now' / 30) \/ pin = pin_spec V1 secret (now' / 30 + 1))
          then 0 else SHERR_ACCESS).
Proof.
  intros Hs Hs' Hh Hh' Hm Hm' Hl Hd Hsec Hn Hn'.
  assert (forall m, length m = 128%nat -> decode_secret m str = Done secret) as Hdec.
  { intros m Hlm. unfold decode_secret. change (Z.of_nat SECRET_2FA_SIZE) with 10. rewrite Hd. cbn [obind snd]. rewrite mem_write_ok by lia. cbn [obind].
    rewrite take_0. cbn [app]. rewrite mem_read_ok by (rewrite length_app; unfold SECRET_2FA_SIZE; lia). rewrite drop_0.
    unfold SECRET_2FA_SIZE. by rewrite <- Hsec, take_app_length. }
  assert (good_secret secret) as Hg by (left; lia). split.
  - unfold shsha_2fa. rewrite Hl. cbn [Z.of_nat Z.eqb negb Pos.of_succ_nat Pos.succ Pos.eqb]. rewrite Hdec by done. cbn [obind].
    unfold shsha_2fa_bin, counter. cbn [Z.eqb obind]. rewrite Z.quot_div_nonneg by lia.
    change (2 ^ 63) with 9223372036854775808 in Hn. assert (0 <= now / 30 <= now) as Ht by (split; [apply Z.div_pos | apply Z.div_le_upper_bound]; lia).
    rewrite wrap_small by rlia. change SHALG_SHA1 with (alg_of V1). apply pin_ok; try done. rlia.
  - intros pin. unfold shsha_2fa_verify. rewrite mem_read_ok by lia. cbn [obind]. rewrite drop_0, <- Hl, firstn_all, Hdec by done. cbn [obind].
    change SHALG_SHA1 with (alg_of V1). apply bin_verify_ok; try done; lia.
Qed.

Lemma shsha_2fa_window_witness :
  shsha_2fa_verify ex_stack (replicate 256 0) (replicate 128 9) 1000000029 (cstr "GEZDGNBVGY3TQOJQ") 0 =
    Done (if bool_decide (0 = pin_spec V1 (cstr "1234567890") 33333333 \/ 0 = pin_spec V1 (cstr "1234567890") 33333334 \/ 0 = pin_spec V1 (cstr "1234567890") 33333335) then 0 else SHERR_ACCESS).
Proof.
  destruct (shsha_2fa_window ex_stack ex_stack (replicate 256 0) (replicate 256 0) (replicate 128 9) (replicate 128 9)
    (cstr "GEZDGNBVGY3TQOJQ") (cstr "1234567890") 1000000000 1000000029) as [_ Hv]; [by split_and! | by split_and! | done.. | exact (Hv 0)].
Defined.

(** [shsha_2fa_secret] fills one byte of the ten: its result is determined by
    the low byte of one random number, so that it has at most 256 values. *)
Theorem shsha_2fa_secret_weak rand mem :
  length mem = 16%nat ->
  shsha_2fa_secret rand mem = Done (base32 (u8 (rand 0%nat) :: replicate 9 0) ++ replicate 48 0).
Proof.
  intros Hm. unfold shsha_2fa_secret, shsha_2fa_secret_bin, SECRET_2FA_SIZE. rewrite mem_write_ok by (rewrite length_replicate; lia). cbn [obind].
  change (10 / 8)%nat with 1%nat. cbn [secret_loop].
  change (Z.to_nat (Z.min 8 (u64 (Z.of_nat 1 - 0 * 8)))) with 1%nat. change (Z.to_nat (0 * 8)) with 0%nat. change (Z.to_nat 0) with 0%nat.
  change (take 1 (le_bytes 8 (rand 0%nat))) with [u8 (rand 0%nat)].
  rewrite take_0. cbn [app]. rewrite mem_write_ok by (rewrite length_app, length_replicate; cbn; lia). cbn [obind].
  rewrite take_0, length_replicate. set (x := u8 (rand 0%nat)). cbn [app Nat.add length drop replicate].
  rewrite mem_read_ok by (cbn [length]; lia). cbn [obind]. rewrite drop_0. cbn [take firstn]. rewrite take_0.
  assert (is_bytes [x; 0; 0; 0; 0; 0; 0; 0; 0; 0]) as Hb.
  { constructor; [apply wrap8_byte |]. repeat constructor; done. }
  pose proof (base32_encode_ok [x; 0; 0; 0; 0; 0; 0; 0; 0; 0] 16 Hb ltac:(lia)) as He. cbn [length] in He. rewrite He. cbn [obind].
  pose proof (length_base32 [x; 0; 0; 0; 0; 0; 0; 0; 0; 0]) as Hlen. change (BASE32_LENGTH _) with 16 in Hlen. rewrite Hlen. cbn [Z.ltb Z.compare Pos.compare Pos.compare_cont].
  assert (length (base32 [x; 0; 0; 0; 0; 0; 0; 0; 0; 0]) = 16%nat) as Hl by lia.
  rewrite app_nil_r, take_ge by lia. rewrite mem_write_ok by (cbn [length]; lia). rewrite Hl. reflexivity.
Qed.

Lemma shsha_2fa_secret_weak_witness :
  shsha_2fa_secret (fun _ => 0xABCD01) (replicate 16 5) = shsha_2fa_secret (fun n => 0xFF01 + Z.of_nat n) (replicate 16 6).
Proof. by rewrite !shsha_2fa_secret_weak. Defined.
