(* ===== verification/ShJson.v ===== *)
(** * JSON

    Models [share-lib/mem/shmem_json.c]: the parser and the printer with the sizes
    of the buffers they allocate, and the tree functions.  A text is a block of
    bytes that ends with its NUL; a pointer into it is the suffix it points to, so
    that reading the empty suffix is an over-read and a [Fault].  A list of siblings
    is a list, which stands for the [next] and [prev] links.

    Numbers are values of a type with the operations the code uses on [double] (the
    class [Double]); the laws a theorem needs of it are those of exact integer
    arithmetic below 2^53.  The sizes of blocks are computed in an [int] as in the
    code, and a text that does not fit the block of the computed size is a [Fault]
    ([fits_int]).  Memory is available: the branches taken when an allocation fails
    are not modelled. *)

From Stdlib Require Import ZArith Lia String.
From stdpp Require Import base numbers list gmap.
From S2P Require Import Prelude.

Open Scope Z_scope.

Definition shjson_False : Z := 0.
Definition shjson_True : Z := 1.
Definition shjson_NULL : Z := 2.
Definition shjson_Number : Z := 3.
Definition shjson_String : Z := 4.
Definition shjson_Array : Z := 5.
Definition shjson_Object : Z := 6.
Definition shjson_IsReference : Z := 256.

(** What the code uses of [double]: conversions from and to [int], arithmetic,
    [pow(10.0, x)], the test of [print_number] for an integer value, and the text
    [sprintf] gives other values. *)
Class Double (D : Type) : Type := {
  d_of_int : Z -> D;
  d_to_int : D -> Z;
  d_add : D -> D -> D;
  d_mul : D -> D -> D;
  d_pow10 : Z -> D;
  d_is_int : Z -> D -> bool;
  d_print : D -> bytes
}.

(** Exact integers. *)
Class DoubleLaws (D : Type) `{Double D} : Prop := {
  d_add_int a b : Z.abs (a + b) <= 2 ^ 53 -> d_add (d_of_int a) (d_of_int b) = d_of_int (a + b);
  d_mul_int a b : Z.abs (a * b) <= 2 ^ 53 -> d_mul (d_of_int a) (d_of_int b) = d_of_int (a * b);
  d_pow10_0 : d_pow10 0 = d_of_int 1;
  d_to_of_int z : - 2 ^ 31 <= z < 2 ^ 31 -> d_to_int (d_of_int z) = z;
  d_is_int_of z : - 2 ^ 31 <= z < 2 ^ 31 -> d_is_int z (d_of_int z) = true
}.

Section json.
Context {D : Type} `{Double D}.

Inductive shjson_t : Type :=
| mk_json (type : Z) (valuestring : option bytes) (valueint : Z) (valuedouble : D) (name : option bytes) (child : list shjson_t).

Definition jtype (j : shjson_t) : Z := let 'mk_json t _ _ _ _ _ := j in t.
Definition valuestring (j : shjson_t) : option bytes := let 'mk_json _ s _ _ _ _ := j in s.
Definition valueint (j : shjson_t) : Z := let 'mk_json _ _ i _ _ _ := j in i.
Definition valuedouble (j : shjson_t) : D := let 'mk_json _ _ _ d _ _ := j in d.
Definition jname (j : shjson_t) : option bytes := let 'mk_json _ _ _ _ n _ := j in n.
Definition child (j : shjson_t) : list shjson_t := let 'mk_json _ _ _ _ _ c := j in c.

(** [shjson_New_Item]: a cleared item. *)
Definition shjson_New_Item : shjson_t := mk_json 0 None 0 (d_of_int 0) None [].
Definition set_name (n : option bytes) (j : shjson_t) : shjson_t :=
  mk_json (jtype j) (valuestring j) (valueint j) (valuedouble j) n (child j).
Definition set_child (c : list shjson_t) (j : shjson_t) : shjson_t :=
  mk_json (jtype j) (valuestring j) (valueint j) (valuedouble j) (jname j) c.

(** ** The parser *)

Definition rd (p : bytes) : outcome Z := match p with [] => Fault | c :: _ => Done c end.
Definition isdigit (c : Z) : bool := (48 <=? c) && (c <=? 57).

Fixpoint skip (p : bytes) : outcome bytes :=
  match p with
  | [] => Fault
  | c :: p' => if c =? 0 then Done p else if c <=? 32 then skip p' else Done p
  end.

(** [!strncmp(value, lit, length lit)] *)
Fixpoint starts (lit p : bytes) : outcome bool :=
  match lit with
  | [] => Done true
  | c :: lit' => x <-! rd p; if x =? c then starts lit' (tail p) else Done false
  end.

(** The loops over digits. *)
Fixpoint scan_digits {A} (f : A -> Z -> A) (acc : A) (p : bytes) : outcome (A * bytes) :=
  match p with
  | [] => Fault
  | c :: p' => if isdigit c then scan_digits f (f acc (c - 48)) p' else Done (acc, p)
  end.

Definition push_digit (n : D) (c : Z) : D := d_add (d_mul n (d_of_int 10)) (d_of_int c).

(** The exponent, which overflows its [int] on more digits. *)
Definition parse_exponent (p : bytes) : outcome (Z * bytes) :=
  c <-! rd p;
  if (c =? 101) || (c =? 69) then
    let p := tail p in
    c <-! rd p;
    let '(sg, p) := if c =? 43 then (1, tail p) else if c =? 45 then (-1, tail p) else (1, p) in
    r <-! scan_digits (fun s c => s * 10 + c) 0 p;
    if fst r <=? INT_MAX then Done (fst r * sg, snd r) else Fault
  else Done (0, p).

(** The number behind its sign. *)
Definition parse_magnitude (sg : Z) (p : bytes) : outcome (shjson_t * bytes) :=
  c <-! rd p;
  let p := if c =? 48 then tail p else p in
  c <-! rd p;
  r <-! (if (49 <=? c) && (c <=? 57) then scan_digits push_digit (d_of_int 0) p else Done (d_of_int 0, p));
  let n := fst r in
  let p := snd r in
  c <-! rd p;
  r <-! (if c =? 46 then
           c <-! rd (tail p);
           if isdigit c then scan_digits (fun a c => (push_digit (fst a) c, snd a - 1)) (n, 0) (tail p) else Done ((n, 0), p)
         else Done ((n, 0), p));
  let n := fst (fst r) in
  let scale := snd (fst r) in
  r <-! parse_exponent (snd r);
  let n := d_mul (d_mul (d_of_int sg) n) (d_pow10 (scale + fst r)) in
  Done (mk_json shjson_Number None (d_to_int n) n None [], snd r).

Definition parse_number (p : bytes) : outcome (shjson_t * bytes) :=
  c <-! rd p;
  if c =? 45 then parse_magnitude (-1) (tail p) else parse_magnitude 1 p.

Definition hex4_value (c : Z) : option Z :=
  if (48 <=? c) && (c <=? 57) then Some (c - 48)
  else if (65 <=? c) && (c <=? 70) then Some (10 + c - 65)
  else if (97 <=? c) && (c <=? 102) then Some (10 + c - 97)
  else None.

Fixpoint hex4_digits (n : nat) (h : Z) (p : bytes) : outcome Z :=
  match n with
  | O => Done h
  | S n' => c <-! rd p; match hex4_value c with None => Done 0 | Some v => hex4_digits n' (h * 16 + v) (tail p) end
  end.
Definition parse_hex4 (p : bytes) : outcome Z := hex4_digits 4 0 p.

(** The first loop of [parse_string]: the size of the copy. *)
Fixpoint string_len (p : bytes) : outcome nat :=
  match p with
  | [] => Fault
  | c :: p' =>
      if (c =? 34) || (c =? 0) then Done 0%nat
      else if c =? 92 then match p' with [] => Fault | _ :: p'' => n <-! string_len p''; Done (S n) end
      else n <-! string_len p'; Done (S n)
  end.

Definition utf8 (uc : Z) : bytes :=
  let cont x := Z.land (Z.lor x 0x80) 0xBF in
  if uc <? 0x80 then [u8 uc]
  else if uc <? 0x800 then [u8 (Z.lor (Z.shiftr uc 6) 0xC0); cont uc]
  else if uc <? 0x10000 then [u8 (Z.lor (Z.shiftr uc 12) 0xE0); cont (Z.shiftr uc 6); cont uc]
  else [u8 (Z.lor (Z.shiftr uc 18) 0xF0); cont (Z.shiftr uc 12); cont (Z.shiftr uc 6); cont uc].

(** The case [\u] with [p] behind the letter: the bytes and the text behind the
    escape. *)
Definition parse_u (p : bytes) : outcome (bytes * bytes) :=
  uc <-! parse_hex4 p;
  if ((0xDC00 <=? uc) && (uc <=? 0xDFFF)) || (uc =? 0) then Done ([], drop 4 p)
  else if (0xD800 <=? uc) && (uc <=? 0xDBFF) then
    c1 <-! rd (drop 4 p);
    if negb (c1 =? 92) then Done ([], drop 4 p)
    else
      c2 <-! rd (drop 5 p);
      if negb (c2 =? 117) then Done ([], drop 4 p)
      else
        uc2 <-! parse_hex4 (drop 6 p);
        if (uc2 <? 0xDC00) || (0xDFFF <? uc2) then Done ([], drop 10 p)
        else Done (utf8 (0x10000 + Z.lor (Z.shiftl (Z.land uc 0x3FF) 10) (Z.land uc2 0x3FF)), drop 10 p)
  else Done (utf8 uc, drop 4 p).

Definition unescaped (c : Z) : Z :=
  if c =? 98 then 8 else if c =? 102 then 12 else if c =? 110 then 10 else if c =? 114 then 13 else if c =? 116 then 9 else c.

(** The second loop: the copy and the text at which it stops. *)
Fixpoint unescape (fuel : nat) (p : bytes) : outcome (bytes * bytes) :=
  match fuel with
  | O => Fault
  | S fuel' =>
      c <-! rd p;
      if (c =? 34) || (c =? 0) then Done ([], p)
      else if negb (c =? 92) then r <-! unescape fuel' (tail p); Done (c :: fst r, snd r)
      else
        let p := tail p in
        c <-! rd p;
        if c =? 117 then
          u <-! parse_u (tail p);
          r <-! unescape fuel' (snd u);
          Done (fst u ++ fst r, snd r)
        else r <-! unescape fuel' (tail p); Done (unescaped c :: fst r, snd r)
  end.

(** The string and the text behind it; [inr] is the error pointer.  The copy is
    written to [len + 1] bytes; [len] is an [int], whose overflow is undefined. *)
Definition parse_string (p : bytes) : outcome (bytes * bytes + bytes) :=
  c <-! rd p;
  if negb (c =? 34) then Done (inr p)
  else
    len <-! string_len (tail p);
    if INT_MAX <? Z.of_nat len + 1 then Fault else
    r <-! unescape (length p) (tail p);
    if decide (length (fst r) + 1 <= len + 1)%nat then
      c <-! rd (snd r);
      Done (inl (fst r, if c =? 34 then tail (snd r) else snd r))
    else Fault.

Definition string_item (s : bytes) : shjson_t := mk_json shjson_String (Some s) 0 (d_of_int 0) None [].

Definition presult : Type := shjson_t * bytes + bytes.

(** A parse step that ends with [skip], or fails. *)
Definition then_skip {A} (r : A * bytes + bytes) : outcome (A * bytes + bytes) :=
  match r with inl (a, p) => p <-! skip p; Done (inl (a, p)) | inr e => Done (inr e) end.

Fixpoint parse_value (fuel : nat) (p : bytes) {struct fuel} : outcome presult :=
  match fuel with
  | O => Fault
  | S fuel' =>
      b <-! starts (cstr "null") p;
      if b : bool then Done (inl (mk_json shjson_NULL None 0 (d_of_int 0) None [], drop 4 p)) else
      b <-! starts (cstr "false") p;
      if b : bool then Done (inl (mk_json shjson_False None 0 (d_of_int 0) None [], drop 5 p)) else
      b <-! starts (cstr "true") p;
      if b : bool then Done (inl (mk_json shjson_True None 1 (d_of_int 0) None [], drop 4 p)) else
      c <-! rd p;
      if c =? 34 then
        r <-! parse_string p;
        Done (match r with inl (s, p) => inl (string_item s, p) | inr e => inr e end)
      else if (c =? 45) || isdigit c then r <-! parse_number p; Done (inl r)
      else if c =? 91 then parse_array fuel' p
      else if c =? 123 then parse_object fuel' p
      else Done (inr p)
  end
with parse_array (fuel : nat) (p : bytes) {struct fuel} : outcome presult :=
  match fuel with
  | O => Fault
  | S fuel' =>
      p <-! skip (tail p);
      c <-! rd p;
      if c =? 93 then Done (inl (mk_json shjson_Array None 0 (d_of_int 0) None [], tail p))
      else
        p <-! skip p;
        r <-! parse_value fuel' p;
        r <-! then_skip r;
        match r with
        | inr e => Done (inr e)
        | inl (j, p) => array_loop fuel' [j] p
        end
  end
with array_loop (fuel : nat) (acc : list shjson_t) (p : bytes) {struct fuel} : outcome presult :=
  match fuel with
  | O => Fault
  | S fuel' =>
      c <-! rd p;
      if c =? 44 then
        p <-! skip (tail p);
        r <-! parse_value fuel' p;
        r <-! then_skip r;
        match r with
        | inr e => Done (inr e)
        | inl (j, p) => array_loop fuel' (acc ++ [j]) p
        end
      else if c =? 93 then Done (inl (mk_json shjson_Array None 0 (d_of_int 0) None acc, tail p))
      else Done (inr p)
  end
with parse_object (fuel : nat) (p : bytes) {struct fuel} : outcome presult :=
  match fuel with
  | O => Fault
  | S fuel' =>
      p <-! skip (tail p);
      c <-! rd p;
      if c =? 125 then Done (inl (mk_json shjson_Object None 0 (d_of_int 0) None [], tail p))
      else
        r <-! parse_member fuel' p;
        match r with
        | inr e => Done (inr e)
        | inl (j, p) => object_loop fuel' [j] p
        end
  end
with parse_member (fuel : nat) (p : bytes) {struct fuel} : outcome presult :=
  match fuel with
  | O => Fault
  | S fuel' =>
      p <-! skip p;
      r <-! parse_string p;
      r <-! then_skip r;
      match r with
      | inr e => Done (inr e)
      | inl (s, p) =>
          c <-! rd p;
          if negb (c =? 58) then Done (inr p)
          else
            p <-! skip (tail p);
            r <-! parse_value fuel' p;
            r <-! then_skip r;
            Done (match r with inl (j, p) => inl (set_name (Some s) j, p) | inr e => inr e end)
      end
  end
with object_loop (fuel : nat) (acc : list shjson_t) (p : bytes) {struct fuel} : outcome presult :=
  match fuel with
  | O => Fault
  | S fuel' =>
      c <-! rd p;
      if c =? 44 then
        r <-! parse_member fuel' (tail p);
        match r with
        | inr e => Done (inr e)
        | inl (j, p) => object_loop fuel' (acc ++ [j]) p
        end
      else if c =? 125 then Done (inl (mk_json shjson_Object None 0 (d_of_int 0) None acc, tail p))
      else Done (inr p)
  end.

(** The item and the end of the parsed text; [inr] is what [shjson_GetErrorPtr]
    returns. *)
Definition shjson_ParseWithOpts (value : bytes) (require_null_terminated : bool) : outcome presult :=
  p <-! skip value;
  r <-! parse_value (3 * length value) p;
  match r with
  | inr e => Done (inr e)
  | inl (j, p) =>
      if require_null_terminated then
        p <-! skip p;
        c <-! rd p;
        Done (if negb (c =? 0) then inr p else inl (j, p))
      else Done (inl (j, p))
  end.
Definition shjson_Parse (value : bytes) : outcome presult := shjson_ParseWithOpts value false.

(** ** The printer *)

(** A text written, with its NUL, to a block of the given size. *)
Definition fits (size : nat) (out : bytes) : outcome (option bytes) :=
  if decide (length out + 1 <= size)%nat then Done (Some out) else Fault.

(** The same for a size that is computed in an [int]: adding a [size_t] to it
    keeps the low 32 bits, and a negative size is one no allocation has, which is
    reported as a failure. *)
Definition fits_int (size : Z) (out : bytes) : outcome (option bytes) :=
  let len := sint 32 size in
  if len <? 0 then Done None else fits (Z.to_nat len) out.

(** The digits of a positive number, and [%d]. *)
Fixpoint dec_digits (fuel : nat) (n : Z) (acc : bytes) : bytes :=
  match fuel with
  | O => acc
  | S fuel' => if n =? 0 then acc else dec_digits fuel' (n / 10) (48 + n mod 10 :: acc)
  end.
Definition dec (z : Z) : bytes :=
  if z =? 0 then [48] else if z <? 0 then 45 :: dec_digits 20 (- z) [] else dec_digits 20 z [].

Definition print_number (j : shjson_t) : outcome (option bytes) :=
  if d_is_int (valueint j) (valuedouble j) then fits 21 (dec (valueint j)) else fits 64 (d_print (valuedouble j)).

(** The characters of the string that [strchr] looks them up in. *)
Definition has_short (c : Z) : bool :=
  (c =? 34) || (c =? 92) || (c =? 8) || (c =? 12) || (c =? 10) || (c =? 13) || (c =? 9).
Definition escape_size (c : Z) : nat := if has_short c then 2 else if c <? 32 then 6 else 1.

Definition hex_char (d : Z) : Z := if d <? 10 then 48 + d else 87 + d.

Definition escape (c : Z) : bytes :=
  if (31 <? c) && negb (c =? 34) && negb (c =? 92) then [c]
  else
    92 :: (if c =? 92 then [92] else if c =? 34 then [34] else if c =? 8 then [98] else if c =? 12 then [102]
           else if c =? 10 then [110] else if c =? 13 then [114] else if c =? 9 then [116]
           else [117; 48; 48; hex_char (c / 16); hex_char (c mod 16)]).

(** The size [len + 3] is counted in an [int], whose overflow is undefined. *)
Definition print_string_ptr (str : option bytes) : outcome (option bytes) :=
  match str with
  | None => Done (Some [34; 34])
  | Some s =>
      let len := (sum_list_with escape_size s + 3)%nat in
      if INT_MAX <? Z.of_nat len then Fault else fits len (34 :: concat (map escape s) ++ [34])
  end.
Definition print_string (j : shjson_t) : outcome (option bytes) := print_string_ptr (valuestring j).

(** The texts of the children of an array, up to one that fails. *)
Fixpoint array_entries (f : shjson_t -> outcome (option bytes)) (l : list shjson_t) : outcome (option (list bytes)) :=
  match l with
  | [] => Done (Some [])
  | c :: l' =>
      r <-! f c;
      match r with
      | None => Done None
      | Some t => r <-! array_entries f l'; Done (option_map (cons t) r)
      end
  end.

(** The names and texts of the children of an object. *)
Fixpoint object_entries (f : shjson_t -> outcome (option bytes)) (l : list shjson_t) : outcome (option (list (bytes * bytes))) :=
  match l with
  | [] => Done (Some [])
  | c :: l' =>
      n <-! print_string_ptr (jname c);
      t <-! f c;
      r <-! object_entries f l';
      Done (match n, t, r with Some n, Some t, Some r => Some ((n, t) :: r) | _, _, _ => None end)
  end.

Fixpoint join_array (fmt : bool) (l : list bytes) : bytes :=
  match l with
  | [] => []
  | [t] => t
  | t :: l' => t ++ 44 :: (if fmt then [32] else []) ++ join_array fmt l'
  end.

Definition print_array (fmt : bool) (entries : option (list bytes)) : outcome (option bytes) :=
  match entries with
  | None => Done None
  | Some [] => fits 3 [91; 93]
  | Some l => fits_int (Z.of_nat (5 + sum_list_with (fun t => length t + 2 + if fmt then 1 else 0)%nat l)) (91 :: join_array fmt l ++ [93])
  end.

Fixpoint join_object (fmt : bool) (depth : nat) (l : list (bytes * bytes)) : bytes :=
  match l with
  | [] => []
  | (n, t) :: l' =>
      (if fmt then replicate depth 9 else []) ++ n ++ 58 :: (if fmt then [9] else []) ++ t ++
      (match l' with [] => [] | _ => [44] end) ++ (if fmt then [10] else []) ++ join_object fmt depth l'
  end.

(** [depth] is that of the object. *)
Definition print_object (fmt : bool) (depth : nat) (entries : option (list (bytes * bytes))) : outcome (option bytes) :=
  match entries with
  | None => Done None
  | Some [] => fits_int (if fmt then Z.of_nat (depth + 4) else 3) (123 :: (if fmt then 10 :: replicate (depth - 1) 9 else []) ++ [125])
  | Some l =>
      let d := S depth in
      fits_int (Z.of_nat (7 + (if fmt then d else 0) + sum_list_with (fun e => length (snd e) + length (fst e) + 2 + if fmt then 2 + d else 0)%nat l))
        (123 :: (if fmt then [10] else []) ++ join_object fmt d l ++ (if fmt then replicate (d - 1) 9 else []) ++ [125])
  end.

Fixpoint print_value (fmt : bool) (depth : nat) (j : shjson_t) : outcome (option bytes) :=
  let 'mk_json type _ _ _ _ ch := j in
  let t := Z.land type 255 in
  if t =? shjson_NULL then Done (Some (cstr "null"))
  else if t =? shjson_False then Done (Some (cstr "false"))
  else if t =? shjson_True then Done (Some (cstr "true"))
  else if t =? shjson_Number then print_number j
  else if t =? shjson_String then print_string j
  else if t =? shjson_Array then es <-! array_entries (print_value fmt (S depth)) ch; print_array fmt es
  else if t =? shjson_Object then es <-! object_entries (print_value fmt (S depth)) ch; print_object fmt depth es
  else Done None.

Definition shjson_Print (item : option shjson_t) : outcome (option bytes) :=
  match item with None => Done None | Some j => print_value true 0 j end.
Definition shjson_PrintUnformatted (item : option shjson_t) : outcome (option bytes) :=
  match item with None => Done None | Some j => print_value false 0 j end.
Definition shjson_print (json : option shjson_t) : outcome (option bytes) := shjson_PrintUnformatted json.

(** ** The tree *)

Definition tolower (c : Z) : Z := if (65 <=? c) && (c <=? 90) then c + 32 else c.

Fixpoint casecmp (s1 s2 : bytes) : Z :=
  match s1, s2 with
  | [], [] => 0
  | [], c :: _ => 0 - tolower c
  | c :: _, [] => tolower c
  | c1 :: s1', c2 :: s2' => if tolower c1 =? tolower c2 then casecmp s1' s2' else tolower c1 - tolower c2
  end.
Definition shjson_strcasecmp (s1 s2 : option bytes) : Z :=
  match s1, s2 with
  | None, None => 0
  | None, Some _ => 1
  | Some _, None => 1
  | Some s1, Some s2 => casecmp s1 s2
  end.

(** The position of the first child with the name. *)
Fixpoint find_child (l : list shjson_t) (string : option bytes) : option nat :=
  match l with
  | [] => None
  | c :: l' => if negb (shjson_strcasecmp (jname c) string =? 0) then option_map S (find_child l' string) else Some 0%nat
  end.

Definition shjson_GetArraySize (array : shjson_t) : Z := Z.of_nat (length (child array)).
Definition shjson_GetArrayItem (array : shjson_t) (item : Z) : option shjson_t := child array !! Z.to_nat item.
Definition shjson_GetObjectItem (object : shjson_t) (string : option bytes) : option shjson_t :=
  match find_child (child object) string with Some i => child object !! i | None => None end.

Definition shjson_AddItemToArray (array item : shjson_t) : shjson_t := set_child (child array ++ [item]) array.
Definition shjson_AddItemToObject (object : shjson_t) (string : bytes) (item : shjson_t) : shjson_t :=
  shjson_AddItemToArray object (set_name (Some string) item).

(** The remaining tree and the item. *)
Definition shjson_DetachItemFromArray (array : shjson_t) (which : Z) : shjson_t * option shjson_t :=
  match child array !! Z.to_nat which with
  | None => (array, None)
  | Some c => (set_child (delete (Z.to_nat which) (child array)) array, Some c)
  end.
Definition shjson_DeleteItemFromArray (array : shjson_t) (which : Z) : shjson_t := fst (shjson_DetachItemFromArray array which).
Definition shjson_DetachItemFromObject (object : shjson_t) (string : option bytes) : shjson_t * option shjson_t :=
  match find_child (child object) string with
  | Some i => shjson_DetachItemFromArray object (Z.of_nat i)
  | None => (object, None)
  end.
Definition shjson_DeleteItemFromObject (object : shjson_t) (string : option bytes) : shjson_t := fst (shjson_DetachItemFromObject object string).

Definition shjson_ReplaceItemInArray (array : shjson_t) (which : Z) (newitem : shjson_t) : shjson_t :=
  set_child (<[Z.to_nat which := newitem]> (child array)) array.
Definition shjson_ReplaceItemInObject (object : shjson_t) (string : bytes) (newitem : shjson_t) : shjson_t :=
  match find_child (child object) (Some string) with
  | Some i => shjson_ReplaceItemInArray object (Z.of_nat i) (set_name (Some string) newitem)
  | None => object
  end.

Definition shjson_CreateNull : shjson_t := mk_json shjson_NULL None 0 (d_of_int 0) None [].
Definition shjson_CreateTrue : shjson_t := mk_json shjson_True None 0 (d_of_int 0) None [].
Definition shjson_CreateFalse : shjson_t := mk_json shjson_False None 0 (d_of_int 0) None [].
Definition shjson_CreateBool (b : Z) : shjson_t :=
  mk_json (if negb (b =? 0) then shjson_True else shjson_False) None 0 (d_of_int 0) None [].
Definition shjson_CreateNumber (num : D) : shjson_t := mk_json shjson_Number None (d_to_int num) num None [].
Definition shjson_CreateString (string : bytes) : shjson_t := mk_json shjson_String (Some string) 0 (d_of_int 0) None [].
Definition shjson_CreateArray : shjson_t := mk_json shjson_Array None 0 (d_of_int 0) None [].
Definition shjson_CreateObject : shjson_t := mk_json shjson_Object None 0 (d_of_int 0) None [].
Definition shjson_CreateIntArray (numbers : list Z) : shjson_t :=
  set_child (map (fun z => shjson_CreateNumber (d_of_int z)) numbers) shjson_CreateArray.
Definition shjson_CreateDoubleArray (numbers : list D) : shjson_t := set_child (map shjson_CreateNumber numbers) shjson_CreateArray.
Definition shjson_CreateStringArray (strings : list bytes) : shjson_t := set_child (map shjson_CreateString strings) shjson_CreateArray.

Fixpoint shjson_Duplicate (recurse : bool) (item : shjson_t) : shjson_t :=
  let 'mk_json type s i d n ch := item in
  mk_json (Z.land type (Z.lnot shjson_IsReference)) s i d n (if recurse then map (shjson_Duplicate true) ch else []).

(** The functions of the library over them. *)
Definition shjson_init (json_str : option bytes) : outcome (option shjson_t) :=
  match json_str with
  | None => Done (Some (mk_json shjson_Object None 0 (d_of_int 0) None []))
  | Some t => r <-! shjson_Parse t; Done (match r with inl (j, _) => Some j | inr _ => None end)
  end.

Definition add_child (tree : shjson_t) (name : option bytes) (node : shjson_t) : shjson_t :=
  match name with Some n => shjson_AddItemToObject tree n node | None => shjson_AddItemToArray tree node end.
Definition clear_name (tree : shjson_t) (name : option bytes) : shjson_t :=
  match name with Some _ => shjson_DeleteItemFromObject tree name | None => tree end.

Definition shjson_num_add (tree : shjson_t) (name : option bytes) (num : D) : shjson_t :=
  add_child (clear_name tree name) name (shjson_CreateNumber num).
Definition shjson_null_add (tree : shjson_t) (name : option bytes) : shjson_t :=
  add_child (clear_name tree name) name shjson_CreateNull.
Definition shjson_array_add (tree : shjson_t) (name : option bytes) : shjson_t := add_child tree name shjson_CreateArray.
Definition shjson_obj_add (tree : shjson_t) (name : option bytes) : shjson_t := add_child tree name shjson_CreateObject.
Definition shjson_bool_add (tree : shjson_t) (name : option bytes) (val : Z) : shjson_t :=
  add_child (clear_name tree name) name (shjson_CreateBool val).
Definition shjson_str_add (tree : shjson_t) (name : option bytes) (val : option bytes) : shjson_t :=
  match val with
  | None => shjson_null_add tree name
  | Some v => add_child (clear_name tree name) name (shjson_CreateString v)
  end.

(** The item a getter is about. *)
Definition shjson_obj (json : option shjson_t) (name : option bytes) : option shjson_t :=
  match json with
  | None => None
  | Some j => match name with Some _ => shjson_GetObjectItem j name | None => Some j end
  end.

Definition shjson_astr (json : option shjson_t) (name def_str : option bytes) : option bytes :=
  match json with
  | None => None
  | Some j =>
      match name with
      | Some _ => match shjson_GetObjectItem j name with None => def_str | Some item => valuestring item end
      | None => valuestring j
      end
  end.
Definition shjson_strlen (json : option shjson_t) (name : option bytes) : Z :=
  match shjson_astr json name (Some []) with None => 0 | Some s => Z.of_nat (length s) end.

Definition item_num (item : shjson_t) : D :=
  if d_is_int (valueint item) (valuedouble item) then d_of_int (valueint item) else valuedouble item.
Definition shjson_num (json : option shjson_t) (name : option bytes) (def_d : D) : D :=
  match json with
  | None => d_of_int 0
  | Some j =>
      match name with
      | Some _ => match shjson_GetObjectItem j name with None => def_d | Some item => item_num item end
      | None => item_num j
      end
  end.

(** The element of an array member; an index equal to the size passes the test and
    finds no element. *)
Definition array_elem (json : shjson_t) (name : option bytes) (idx : Z) : option shjson_t :=
  match shjson_obj (Some json) name with
  | None => None
  | Some item => if (idx <? 0) || (shjson_GetArraySize item <? idx) then None else shjson_GetArrayItem item idx
  end.
Definition shjson_array_astr (json : shjson_t) (name : option bytes) (idx : Z) : option bytes :=
  match array_elem json name idx with None => None | Some e => valuestring e end.
Definition shjson_array_num (json : shjson_t) (name : option bytes) (idx : Z) : D :=
  match array_elem json name idx with None => d_of_int 0 | Some e => item_num e end.
Definition shjson_array_count (json : shjson_t) (name : option bytes) : Z :=
  match shjson_obj (Some json) name with None => 0 | Some item => shjson_GetArraySize item end.
Definition shjson_obj_get (json : option shjson_t) (name : option bytes) : option shjson_t :=
  match json with None => None | Some j => shjson_GetObjectItem j name end.
Definition shjson_array_get (json : option shjson_t) (index : Z) : option shjson_t :=
  match json with None => None | Some j => shjson_GetArrayItem j index end.

(** *** Removing white space *)

Fixpoint skip_line (p : bytes) : outcome bytes :=
  match p with [] => Fault | c :: p' => if (c =? 0) || (c =? 10) then Done p else skip_line p' end.
Fixpoint skip_comment (p : bytes) : outcome bytes :=
  match p with
  | [] => Fault
  | c :: p' =>
      if c =? 0 then Done p
      else if c =? 42 then x <-! rd p'; if x =? 47 then Done p else skip_comment p'
      else skip_comment p'
  end.

(** The loop over a string literal, behind its quote: the copy and the text at its
    closing quote or NUL. *)
Fixpoint copy_literal (p : bytes) : outcome (bytes * bytes) :=
  match p with
  | [] => Fault
  | c :: p' =>
      if (c =? 0) || (c =? 34) then Done ([], p)
      else if c =? 92 then
        match p' with
        | [] => Fault
        | x :: p'' => r <-! copy_literal p''; Done (c :: x :: fst r, snd r)
        end
      else r <-! copy_literal p'; Done (c :: fst r, snd r)
  end.

Fixpoint minify_loop (fuel : nat) (json : bytes) : outcome bytes :=
  match fuel with
  | O => Fault
  | S fuel' =>
      c <-! rd json;
      let p := tail json in
      if c =? 0 then Done []
      else if (c =? 32) || (c =? 9) || (c =? 13) || (c =? 10) then minify_loop fuel' p
      else
        x <-! (if c =? 47 then rd p else Done 0);
        if (c =? 47) && (x =? 47) then p <-! skip_line json; minify_loop fuel' p
        else if (c =? 47) && (x =? 42) then p <-! skip_comment json; minify_loop fuel' (drop 2 p)
        else if c =? 34 then
          r <-! copy_literal p;
          e <-! rd (snd r);
          rest <-! minify_loop fuel' (tail (snd r));
          Done (c :: fst r ++ e :: rest)
        else rest <-! minify_loop fuel' p; Done (c :: rest)
  end.

(** The text without its NUL. *)
Definition shjson_Minify (json : bytes) : outcome bytes := minify_loop (length json) json.

(** ** Values and their text *)

Inductive jvalue : Type :=
| JNull | JBool (b : bool) | JInt (z : Z) | JStr (s : bytes) | JArr (l : list jvalue) | JObj (l : list (bytes * jvalue)).

Fixpoint jsize (v : jvalue) : nat :=
  match v with
  | JArr l => S (sum_list_with jsize l)
  | JObj l => S (sum_list_with (fun e => jsize (snd e)) l)
  | _ => 1
  end.

Lemma jsize_pos v : (0 < jsize v)%nat.
Proof. destruct v; cbn; lia. Qed.

Definition render_string (s : bytes) : bytes := 34 :: concat (map escape s) ++ [34].

(** Strings without a NUL, whose text an [int] can measure, and integers of their
    type. *)
Definition cbytes (s : bytes) : Prop := Forall (fun c => 0 < c < 256) s.
Definition jstring (s : bytes) : Prop := cbytes s /\ Z.of_nat (length (render_string s)) < INT_MAX.
Fixpoint jwf (v : jvalue) : Prop :=
  match v with
  | JInt z => - 2 ^ 31 <= z < 2 ^ 31
  | JStr s => jstring s
  | JArr l => fold_right (fun v P => jwf v /\ P) True l
  | JObj l => fold_right (fun e P => (jstring (fst e) /\ jwf (snd e)) /\ P) True l
  | _ => True
  end.

(** The item that holds a value, with a name. *)
Fixpoint item_of (n : option bytes) (v : jvalue) : shjson_t :=
  match v with
  | JNull => mk_json shjson_NULL None 0 (d_of_int 0) n []
  | JBool b => mk_json (if b then shjson_True else shjson_False) None (if b then 1 else 0) (d_of_int 0) n []
  | JInt z => mk_json shjson_Number None z (d_of_int z) n []
  | JStr s => mk_json shjson_String (Some s) 0 (d_of_int 0) n []
  | JArr l => mk_json shjson_Array None 0 (d_of_int 0) n (map (item_of None) l)
  | JObj l => mk_json shjson_Object None 0 (d_of_int 0) n (map (fun e => item_of (Some (fst e)) (snd e)) l)
  end.

Fixpoint render (fmt : bool) (depth : nat) (v : jvalue) : bytes :=
  match v with
  | JNull => cstr "null"
  | JBool b => if b then cstr "true" else cstr "false"
  | JInt z => dec z
  | JStr s => render_string s
  | JArr l => 91 :: join_array fmt (map (render fmt (S depth)) l) ++ [93]
  | JObj [] => 123 :: (if fmt then 10 :: replicate (depth - 1) 9 else []) ++ [125]
  | JObj l =>
      123 :: (if fmt then [10] else []) ++ join_object fmt (S depth) (map (fun e => (render_string (fst e), render fmt (S depth) (snd e))) l) ++
      (if fmt then replicate depth 9 else []) ++ [125]
  end.

(** *** The printer writes the text, within its allocations *)

Lemma fits_ok n out : (length out + 1 <= n)%nat -> fits n out = Done (Some out).
Proof. intros. unfold fits. by rewrite decide_True. Qed.
Lemma fits_int_ok n out : Z.of_nat (length out + 1) <= n <= INT_MAX -> fits_int n out = Done (Some out).
Proof.
  intros Hn. unfold fits_int, sint, INT_MAX in *. rewrite wrap_small by rlia. change (2 ^ (32 - 1)) with 2147483648.
  destruct (Z.ltb_spec n 2147483648); [|lia]. destruct (Z.ltb_spec n 0); [lia |]. apply fits_ok. lia.
Qed.

Lemma length_escape c : length (escape c) = escape_size c.
Proof.
  unfold escape, escape_size, has_short.
  destruct (Z.eqb_spec c 34) as [->|]; [cbn; lia |]. destruct (Z.eqb_spec c 92) as [->|]; [cbn; lia |].
  destruct (Z.eqb_spec c 8) as [->|]; [cbn; lia |]. destruct (Z.eqb_spec c 12) as [->|]; [cbn; lia |].
  destruct (Z.eqb_spec c 10) as [->|]; [cbn; lia |]. destruct (Z.eqb_spec c 13) as [->|]; [cbn; lia |].
  destruct (Z.eqb_spec c 9) as [->|]; [cbn; lia |]. cbn [orb negb andb].
  destruct (Z.ltb_spec 31 c), (Z.ltb_spec c 32); cbn; lia.
Qed.

Lemma length_escapes s : length (concat (map escape s)) = sum_list_with escape_size s.
Proof. induction s as [|c s IH]; [done |]. cbn [map concat sum_list_with]. rewrite length_app. pose proof (length_escape c). lia. Qed.

Lemma length_render_string s : length (render_string s) = (sum_list_with escape_size s + 2)%nat.
Proof. unfold render_string. cbn [length]. rewrite length_app, length_escapes. cbn [length]. lia. Qed.

Lemma print_string_ok s : Z.of_nat (length (render_string s)) < INT_MAX -> print_string_ptr (Some s) = Done (Some (render_string s)).
Proof.
  intros Hl. pose proof (length_render_string s) as E. unfold print_string_ptr. rewrite E in Hl.
  destruct (Z.ltb_spec INT_MAX (Z.of_nat (sum_list_with escape_size s + 3))); [lia |]. apply fits_ok. fold (render_string s). lia.
Qed.

Lemma length_dec_digits fuel : forall n acc k, 0 <= n < 10 ^ Z.of_nat k -> (length (dec_digits fuel n acc) <= length acc + k)%nat.
Proof.
  induction fuel as [|fuel IH]; intros n acc k Hn; cbn [dec_digits]; [lia |]. destruct (Z.eqb_spec n 0); [lia |].
  destruct k as [|k]; [cbn in Hn; lia |]. etrans; [apply (IH _ _ k) | cbn [length]; lia].
  replace (Z.of_nat (S k)) with (1 + Z.of_nat k) in Hn by lia. rewrite Z.pow_add_r in Hn by lia. change (10 ^ 1) with 10 in Hn.
  split; [apply Z.div_pos; lia | apply Z.div_lt_upper_bound; lia].
Qed.

Lemma length_dec z : - 2 ^ 31 <= z < 2 ^ 31 -> (length (dec z) <= 11)%nat.
Proof.
  intros Hz. unfold dec. destruct (Z.eqb_spec z 0); [cbn; lia |]. destruct (Z.ltb_spec z 0).
  - cbn [length]. pose proof (length_dec_digits 20 (- z) [] 10) as Hl. cbn [length] in Hl. change (10 ^ Z.of_nat 10) with 10000000000 in Hl. lia.
  - pose proof (length_dec_digits 20 z [] 10) as Hl. cbn [length] in Hl. change (10 ^ Z.of_nat 10) with 10000000000 in Hl. lia.
Qed.

Lemma length_join_array fmt l :
  (length (join_array fmt l) <= sum_list_with (fun t => length t + 2 + if fmt then 1 else 0)%nat l)%nat.
Proof.
  induction l as [|t l IH]; [done |]. destruct l as [|t' l]; [cbn; lia |].
  cbn [join_array sum_list_with] in *. rewrite length_app. cbn [length]. rewrite length_app. destruct fmt; cbn [length] in *; lia.
Qed.

Lemma length_join_object fmt d l :
  (length (join_object fmt d l) <= sum_list_with (fun e => length (snd e) + length (fst e) + 2 + if fmt then 2 + d else 0)%nat l)%nat.
Proof.
  induction l as [|[n t] l IH]; [done |]. cbn [join_object sum_list_with fst snd]. repeat (rewrite length_app || cbn [length]).
  destruct fmt, l; repeat (rewrite length_app || rewrite length_replicate || cbn [length] in * ); cbn [join_object length sum_list_with] in *; lia.
Qed.

(** The sizes are at most a multiple of the text. *)
Lemma join_array_size (fmt : bool) l : Forall (fun t : bytes => t <> []) l ->
  (sum_list_with (fun t => length t + 2 + if fmt then 1 else 0)%nat l <= 4 * length (join_array fmt l))%nat.
Proof.
  induction 1 as [|t l Ht _ IH]; [done |]. assert (1 <= length t)%nat as Hl by (destruct t; [done | cbn [length]; lia]).
  destruct l as [|t' l]; [cbn [sum_list_with join_array]; destruct fmt; lia |].
  change (join_array fmt (t :: t' :: l)) with (t ++ 44 :: (if fmt then [32] else []) ++ join_array fmt (t' :: l)).
  rewrite length_app. cbn [length]. rewrite length_app. cbn [sum_list_with] in *. destruct fmt; cbn [length]; lia.
Qed.

Lemma join_array_elem (fmt : bool) l t : t ∈ l -> (length t <= length (join_array fmt l))%nat.
Proof.
  induction l as [|x l IH]; [by intros ?%not_elem_of_nil |]. intros Hin. destruct l as [|y l].
  - apply list_elem_of_singleton in Hin as ->. done.
  - change (join_array fmt (x :: y :: l)) with (x ++ 44 :: (if fmt then [32] else []) ++ join_array fmt (y :: l)).
    rewrite length_app. cbn [length]. rewrite length_app. apply elem_of_cons in Hin as [->|Hin]; [lia |]. specialize (IH Hin). lia.
Qed.

Lemma join_object_size (fmt : bool) d l :
  (sum_list_with (fun e => length (snd e) + length (fst e) + 2 + if fmt then 2 + d else 0)%nat l <= 2 * length (join_object fmt d l))%nat /\
  (fmt = true -> l <> [] -> (d <= length (join_object fmt d l))%nat).
Proof.
  induction l as [|[n t] l [IH _]]; [done |]. cbn [join_object sum_list_with fst snd].
  repeat (rewrite length_app || cbn [length]). destruct fmt; repeat (rewrite length_app || rewrite length_replicate || cbn [length]); split; lia || done.
Qed.

Lemma join_object_elem (fmt : bool) d l n t : (n, t) ∈ l -> (length n <= length (join_object fmt d l) /\ length t <= length (join_object fmt d l))%nat.
Proof.
  induction l as [|[n' t'] l IH]; [by intros ?%not_elem_of_nil |]. intros Hin. cbn [join_object]. repeat (rewrite length_app || cbn [length]).
  apply elem_of_cons in Hin as [[= <- <-]|Hin]; [lia |]. specialize (IH Hin). lia.
Qed.

(** Texts for which no size overflows. *)
Definition sized (t : bytes) : Prop := 4 * Z.of_nat (length t) + 16 <= INT_MAX.

Lemma sized_le t u : (length t <= length u)%nat -> sized u -> sized t.
Proof. unfold sized. lia. Qed.

Lemma print_array_ok (fmt : bool) l : Forall (fun t : bytes => t <> []) l -> sized (91 :: join_array fmt l ++ [93]) ->
  print_array fmt (Some l) = Done (Some (91 :: join_array fmt l ++ [93])).
Proof.
  intros Hne Hs. destruct l as [|t l]; [done |]. unfold print_array. apply fits_int_ok.
  pose proof (length_join_array fmt (t :: l)). pose proof (join_array_size fmt (t :: l) Hne). unfold sized in Hs.
  cbn [length] in *. rewrite length_app in *. cbn [length] in *. lia.
Qed.

Lemma print_object_ok (fmt : bool) depth n t l :
  let out := 123 :: (if fmt then [10] else []) ++ join_object fmt (S depth) ((n, t) :: l) ++ (if fmt then replicate depth 9 else []) ++ [125] in
  sized out -> print_object fmt depth (Some ((n, t) :: l)) = Done (Some out).
Proof.
  intros out Hs. unfold print_object. cbn zeta. rewrite Nat.sub_succ, Nat.sub_0_r. fold out. apply fits_int_ok.
  pose proof (length_join_object fmt (S depth) ((n, t) :: l)) as H1. destruct (join_object_size fmt (S depth) ((n, t) :: l)) as [H2 H3].
  assert (length out = 2 + (if fmt then 1 else 0) + length (join_object fmt (S depth) ((n, t) :: l)) + (if fmt then depth else 0))%nat as E.
  { unfold out. cbn [length]. rewrite !length_app. destruct fmt; rewrite ?length_replicate; cbn [length]; lia. }
  unfold sized in Hs. destruct fmt; [specialize (H3 eq_refl ltac:(done)) |]; lia.
Qed.

(** The items that stand for a value: made by the parser or by the Create
    functions, whose unused fields differ. *)
Inductive represents : shjson_t -> jvalue -> Prop :=
| rep_null t s i d n ch : Z.land t 255 = shjson_NULL -> represents (mk_json t s i d n ch) JNull
| rep_bool t s i d n ch (b : bool) : Z.land t 255 = (if b then shjson_True else shjson_False) -> represents (mk_json t s i d n ch) (JBool b)
| rep_int t s z n ch : Z.land t 255 = shjson_Number -> represents (mk_json t s z (d_of_int z) n ch) (JInt z)
| rep_str t s i d n ch : Z.land t 255 = shjson_String -> represents (mk_json t (Some s) i d n ch) (JStr s)
| rep_arr t s i d n ch l : Z.land t 255 = shjson_Array -> Forall2 represents ch l -> represents (mk_json t s i d n ch) (JArr l)
| rep_obj t s i d n ch l : Z.land t 255 = shjson_Object ->
    Forall2 (fun c e => jname c = Some (fst e) /\ represents c (snd e)) ch l -> represents (mk_json t s i d n ch) (JObj l).

(** Induction over values, through their lists. *)
Lemma jvalue_ind' (P : jvalue -> Prop) :
  P JNull -> (forall b, P (JBool b)) -> (forall z, P (JInt z)) -> (forall s, P (JStr s)) ->
  (forall l, Forall P l -> P (JArr l)) -> (forall l, Forall (fun e => P (snd e)) l -> P (JObj l)) -> forall v, P v.
Proof.
  intros Hn Hb Hi Hs Ha Ho. fix IH 1. intros [| b | z | s | l | l]; [exact Hn | apply Hb | apply Hi | apply Hs | |].
  - apply Ha. induction l as [|v l IHl]; constructor; [apply IH | exact IHl].
  - apply Ho. induction l as [|e l IHl]; constructor; [apply IH | exact IHl].
Qed.

Lemma jwf_arr l : jwf (JArr l) <-> Forall jwf l.
Proof. cbn [jwf]. induction l as [|v l IH]; cbn [fold_right]; [split; [constructor | done] |]. rewrite Forall_cons. tauto. Qed.
Lemma jwf_obj l : jwf (JObj l) <-> Forall (fun e => jstring (fst e) /\ jwf (snd e)) l.
Proof. cbn [jwf]. induction l as [|v l IH]; cbn [fold_right]; [split; [constructor | done] |]. rewrite Forall_cons. tauto. Qed.

Lemma item_of_represents v : forall n, represents (item_of n v) v.
Proof.
  induction v as [| b | z | s | l IH | l IH] using jvalue_ind'; intros n; cbn [item_of]; try (constructor; done).
  - constructor. by destruct b.
  - constructor; [done |]. induction IH as [|v l Hv _ IHl]; cbn [map]; constructor; [apply Hv | exact IHl].
  - constructor; [done |]. induction IH as [|e l Hv _ IHl]; cbn [map]; constructor; [split; [by destruct (snd e) | apply Hv] | exact IHl].
Qed.

Context `{!DoubleLaws D}.

Lemma dec_nonempty z : dec z <> [].
Proof.
  assert (forall fuel n acc, acc <> [] -> dec_digits fuel n acc <> []) as Hd.
  { induction fuel as [|fuel IH]; intros n acc Ha; cbn [dec_digits]; [done |]. destruct (n =? 0); [done |]. by apply IH. }
  unfold dec. destruct (Z.eqb_spec z 0); [done |]. destruct (z <? 0); [done |]. cbn [dec_digits]. destruct (Z.eqb_spec z 0); [done |]. by apply (Hd 19%nat).
Qed.

Lemma render_nonempty fmt depth v : render fmt depth v <> [].
Proof. destruct v as [| [] | z | s | l | [|e l]]; try done. apply dec_nonempty. Qed.

Lemma print_ok v : forall j fmt depth, represents j v -> jwf v -> sized (render fmt depth v) -> print_value fmt depth j = Done (Some (render fmt depth v)).
Proof.
  induction v as [| b | z | s | l IH | l IH] using jvalue_ind'; intros j fmt depth Hr Hw Hz; inversion Hr; subst; cbn [print_value];
    match goal with Ht : Z.land _ 255 = _ |- _ => rewrite Ht end.
  - done.
  - by destruct b.
  - cbn -[dec]. unfold print_number. cbn [valueint valuedouble]. rewrite d_is_int_of by done. apply fits_ok. pose proof (length_dec z Hw). lia.
  - cbn -[render_string print_string]. unfold print_string. cbn [valuestring]. apply print_string_ok. apply Hw.
  - change (shjson_Array =? shjson_NULL) with false. change (shjson_Array =? shjson_False) with false. change (shjson_Array =? shjson_True) with false.
    change (shjson_Array =? shjson_Number) with false. change (shjson_Array =? shjson_String) with false. rewrite Z.eqb_refl. cbn iota.
    assert (Forall (fun v => sized (render fmt (S depth) v)) l) as Hzs.
    { apply Forall_forall. intros v Hv. apply (sized_le _ (render fmt depth (JArr l))); [|done]. cbn [render length]. rewrite length_app.
      pose proof (join_array_elem fmt (map (render fmt (S depth)) l) (render fmt (S depth) v)) as He.
      rewrite list_elem_of_fmap in He. specialize (He (ex_intro _ v (conj eq_refl Hv))). lia. }
    assert (array_entries (print_value fmt (S depth)) ch = Done (Some (map (render fmt (S depth)) l))) as ->.
    2: { apply print_array_ok; [|exact Hz]. apply Forall_map, Forall_forall. intros v _. apply render_nonempty. }
    apply jwf_arr in Hw. clear Hr Hz. match goal with Hf : Forall2 represents ch l |- _ => induction Hf as [|c v ch l Hc _ IHf] end; [done |].
    apply Forall_cons in IH as [Hv IH]. apply Forall_cons in Hw as [Hwv Hw]. apply Forall_cons in Hzs as [Hz1 Hzs]. cbn [array_entries map]. rewrite Hv by done. cbn [obind]. by rewrite IHf.
  - change (shjson_Object =? shjson_NULL) with false. change (shjson_Object =? shjson_False) with false. change (shjson_Object =? shjson_True) with false.
    change (shjson_Object =? shjson_Number) with false. change (shjson_Object =? shjson_String) with false. change (shjson_Object =? shjson_Array) with false.
    rewrite Z.eqb_refl. cbn iota.
    assert (Forall (fun e : bytes * jvalue => sized (render fmt (S depth) (snd e))) l) as Hzs.
    { destruct l as [|e0 l0]; [constructor |]. apply Forall_forall. intros e He.
      apply (sized_le _ (render fmt depth (JObj (e0 :: l0)))); [|done]. cbn [render length]. rewrite !length_app.
      destruct (join_object_elem fmt (S depth) (map (fun e => (render_string (fst e), render fmt (S depth) (snd e))) (e0 :: l0))
        (render_string (fst e)) (render fmt (S depth) (snd e))) as [_ Hl]; [apply list_elem_of_fmap; by exists e | lia]. }
    assert (object_entries (print_value fmt (S depth)) ch = Done (Some (map (fun e => (render_string (fst e), render fmt (S depth) (snd e))) l))) as ->.
    + apply jwf_obj in Hw. clear Hr Hz. match goal with Hf : Forall2 _ ch l |- _ => induction Hf as [|c e ch l [Hn Hc] _ IHf] end; [done |].
      apply Forall_cons in IH as [Hv IH]. apply Forall_cons in Hw as [[[_ Hsn] Hwv] Hw]. apply Forall_cons in Hzs as [Hz1 Hzs].
      cbn [object_entries map]. rewrite Hn, print_string_ok by done. cbn [obind].
      rewrite Hv by done. cbn [obind]. by rewrite IHf.
    + cbn [obind]. destruct l as [|e l]; [| by apply print_object_ok]. cbn [map print_object render] in *. apply fits_int_ok.
      unfold sized in Hz. cbn [length] in *. rewrite length_app in *. destruct fmt; cbn [length] in *; rewrite ?length_replicate in *; lia.
Qed.

(** *** The parser reads the text back *)

Definition blank (ws : bytes) : Prop := Forall (fun c => 0 < c <= 32) ws.
Definition solid (p : bytes) : Prop := match p with c :: _ => c = 0 \/ 32 < c | [] => False end.

Lemma skip_ws ws p : blank ws -> solid p -> skip (ws ++ p) = Done p.
Proof.
  intros Hw Hp. induction Hw as [|c ws Hc _ IH]; cbn [app].
  - destruct p as [|c p]; [done |]. cbn [skip]. destruct (Z.eqb_spec c 0); [done |]. destruct (Z.leb_spec c 32); [cbn in Hp; lia | done].
  - cbn [skip]. destruct (Z.eqb_spec c 0); [lia |]. destruct (Z.leb_spec c 32); [done | lia].
Qed.
Lemma skip_solid p : solid p -> skip p = Done p.
Proof. apply (skip_ws []). constructor. Qed.

Lemma blank_replicate n : blank (replicate n 9).
Proof. induction n; constructor; [lia | done]. Qed.

(** One character of a string. *)
Lemma unescape_escape c fuel q : 0 < c < 256 ->
  unescape (S fuel) (escape c ++ q) = (r <-! unescape fuel q; Done (c :: fst r, snd r)).
Proof.
  intros Hc. unfold escape. destruct ((31 <? c) && negb (c =? 34) && negb (c =? 92)) eqn:Hp.
  - apply andb_prop in Hp as [Hp H92]. apply andb_prop in Hp as [_ H34]. cbn [app unescape rd obind tail].
    apply negb_true_iff in H34, H92. rewrite H34, H92. destruct (Z.eqb_spec c 0); [lia | done].
  - assert (c < 32 \/ c = 34 \/ c = 92) as Hr.
    { destruct (Z.ltb_spec 31 c); [| lia]. cbn [andb] in Hp. destruct (Z.eqb_spec c 34); [lia |]. destruct (Z.eqb_spec c 92); [lia | done]. }
    assert (c = 1 \/ c = 2 \/ c = 3 \/ c = 4 \/ c = 5 \/ c = 6 \/ c = 7 \/ c = 8 \/ c = 9 \/ c = 10 \/ c = 11 \/ c = 12 \/ c = 13 \/ c = 14 \/ c = 15 \/
      c = 16 \/ c = 17 \/ c = 18 \/ c = 19 \/ c = 20 \/ c = 21 \/ c = 22 \/ c = 23 \/ c = 24 \/ c = 25 \/ c = 26 \/ c = 27 \/ c = 28 \/ c = 29 \/ c = 30 \/ c = 31 \/
      c = 34 \/ c = 92) as Hd by lia.
    repeat (destruct Hd as [-> | Hd]; [reflexivity |]). subst c. reflexivity.
Qed.

Lemma string_len_escape c q : 0 < c < 256 -> exists k, (S k <= length (escape c))%nat /\ string_len (escape c ++ q) = (n <-! string_len q; Done (S k + n)%nat).
Proof.
  intros Hc. assert (forall m : outcome nat, (n <-! m; Done (S n)) = (n <-! m; Done (1 + n)%nat)) as H1 by (by intros []).
  unfold escape. destruct ((31 <? c) && negb (c =? 34) && negb (c =? 92)) eqn:Hp.
  - apply andb_prop in Hp as [Hp H92]. apply andb_prop in Hp as [_ H34]. cbn [app string_len].
    apply negb_true_iff in H34, H92. rewrite H34, H92. destruct (Z.eqb_spec c 0); [lia |]. exists 0%nat. split; [cbn; lia | apply H1].
  - destruct (c =? 92); [exists 0%nat; split; [cbn; lia | apply H1] |]. destruct (c =? 34); [exists 0%nat; split; [cbn; lia | apply H1] |]. destruct (c =? 8); [exists 0%nat; split; [cbn; lia | apply H1] |].
    destruct (c =? 12); [exists 0%nat; split; [cbn; lia | apply H1] |]. destruct (c =? 10); [exists 0%nat; split; [cbn; lia | apply H1] |]. destruct (c =? 13); [exists 0%nat; split; [cbn; lia | apply H1] |].
    destruct (c =? 9); [exists 0%nat; split; [cbn; lia | apply H1] |].
    assert (forall d, 0 <= d < 16 -> (hex_char d =? 34) || (hex_char d =? 0) = false /\ (hex_char d =? 92) = false) as Hh.
    { intros d Hd. unfold hex_char. destruct (Z.ltb_spec d 10); split; rewrite ?orb_false_iff, ?Z.eqb_neq; lia. }
    destruct (Hh (c / 16)) as [Ha Ha']; [split; [apply Z.div_pos | apply Z.div_lt_upper_bound]; lia |].
    destruct (Hh (c mod 16)) as [Hb Hb']; [apply Z.mod_pos_bound; lia |].
    cbn [app string_len]. cbn [Z.eqb Pos.eqb orb]. rewrite Ha, Ha', Hb, Hb'. exists 4%nat. split; [cbn; lia |]. by destruct (string_len q).
Qed.

Lemma parse_string_ok s rest : jstring s -> parse_string (render_string s ++ rest) = Done (inl (s, rest)).
Proof.
  intros [Hs Hlen]. pose proof (length_render_string s) as El. rewrite <- length_escapes in El. unfold parse_string, render_string. cbn [app rd obind tail]. cbn [Z.eqb Pos.eqb negb]. rewrite <- app_assoc. cbn [app].
  assert (exists k, (length s + k <= length (concat (map escape s)))%nat /\ string_len (concat (map escape s) ++ 34 :: rest) = Done (length s + k)%nat) as (k & Hk & ->).
  { clear Hlen El. induction Hs as [|c s Hc _ (k & Hk & IH)]; [by exists 0%nat |]. cbn [map concat]. rewrite <- app_assoc.
    destruct (string_len_escape c (concat (map escape s) ++ 34 :: rest) Hc) as (k' & Hk' & ->). rewrite IH. cbn [obind length].
    exists (k' + k)%nat. rewrite length_app. split; [lia |]. f_equal. lia. }
  cbn [obind]. destruct (Z.ltb_spec INT_MAX (Z.of_nat (length s + k) + 1)); [lia |]. clear Hlen El Hk.
  assert (forall fuel, (length s < fuel)%nat -> unescape fuel (concat (map escape s) ++ 34 :: rest) = Done (s, 34 :: rest)) as Hu.
  { induction Hs as [|c s Hc _ IH]; intros fuel Hf; (destruct fuel as [|fuel]; [cbn in Hf; lia |]).
    - done.
    - cbn [map concat length] in *. rewrite <- app_assoc, unescape_escape by done. rewrite IH by lia. done. }
  rewrite Hu.
  - cbn [obind fst snd rd tail]. rewrite decide_True by lia. done.
  - cbn [length]. rewrite length_app. cbn [length]. clear -Hs. assert (length s <= length (concat (map escape s)))%nat; [| lia].
    induction s as [|c s IH]; [done |]. apply Forall_cons in Hs as [Hc Hs]. specialize (IH Hs). cbn [map concat length]. rewrite length_app.
    unfold escape at 1. destruct ((31 <? c) && negb (c =? 34) && negb (c =? 92)); cbn [length]; lia.
Qed.

(** A text behind a number does not continue it. *)
Definition stop (p : bytes) : Prop :=
  match p with c :: _ => isdigit c = false /\ c <> 46 /\ c <> 101 /\ c <> 69 | [] => False end.

Lemma scan_stop {A} (f : A -> Z -> A) acc p : stop p -> scan_digits f acc p = Done (acc, p).
Proof. destruct p as [|c p]; [done |]. intros [Hc _]. cbn [scan_digits]. by rewrite Hc. Qed.

Lemma dec_digits_app fuel : forall n acc, dec_digits fuel n acc = dec_digits fuel n [] ++ acc.
Proof.
  induction fuel as [|fuel IH]; intros n acc; [done |]. cbn [dec_digits]. destruct (n =? 0); [done |].
  rewrite IH, (IH _ [_]), <- app_assoc. done.
Qed.

Lemma isdigit_digit d : 0 <= d < 10 -> isdigit (48 + d) = true.
Proof. intros Hd. unfold isdigit. apply andb_true_intro. split; apply Z.leb_le; lia. Qed.

Lemma push_digit_int n c : 0 <= n -> 0 <= c < 10 -> n * 10 + c <= 2 ^ 53 -> push_digit (d_of_int n) c = d_of_int (n * 10 + c).
Proof. intros Hn Hc Hb. unfold push_digit. rewrite d_mul_int by lia. apply d_add_int. lia. Qed.

Lemma scan_dec fuel : forall n q, 0 <= n < 10 ^ Z.of_nat fuel -> n <= 2 ^ 53 ->
  scan_digits push_digit (d_of_int 0) (dec_digits fuel n [] ++ q) = scan_digits push_digit (d_of_int n) q.
Proof.
  induction fuel as [|fuel IH]; intros n q Hn Hb.
  { cbn in Hn. by replace n with 0 by lia. }
  cbn [dec_digits]. destruct (Z.eqb_spec n 0) as [->|Hn0]; [done |].
  rewrite dec_digits_app, <- app_assoc. cbn [app].
  replace (Z.of_nat (S fuel)) with (1 + Z.of_nat fuel) in Hn by lia. rewrite Z.pow_add_r in Hn by lia. change (10 ^ 1) with 10 in Hn.
  pose proof (Z.div_mod n 10 ltac:(lia)) as Hd. pose proof (Z.mod_pos_bound n 10 ltac:(lia)) as Hm.
  assert (0 <= n / 10) as Hq by (apply Z.div_pos; lia).
  rewrite IH; [| split; [done | apply Z.div_lt_upper_bound; lia] | lia]. cbn [scan_digits]. rewrite isdigit_digit by done.
  replace (48 + n mod 10 - 48) with (n mod 10) by lia. rewrite push_digit_int by lia. f_equal. f_equal. lia.
Qed.

(** The text of a positive number starts with a digit that is not 0. *)
Lemma dec_digits_head fuel : forall n acc, 0 < n < 10 ^ Z.of_nat fuel -> exists c l, dec_digits fuel n acc = c :: l /\ 49 <= c <= 57.
Proof.
  induction fuel as [|fuel IH]; intros n acc Hn; [cbn in Hn; lia |]. cbn [dec_digits]. destruct (Z.eqb_spec n 0); [lia |].
  pose proof (Z.div_mod n 10 ltac:(lia)) as Hd. pose proof (Z.mod_pos_bound n 10 ltac:(lia)) as Hm.
  replace (Z.of_nat (S fuel)) with (1 + Z.of_nat fuel) in Hn by lia. rewrite Z.pow_add_r in Hn by lia. change (10 ^ 1) with 10 in Hn.
  destruct (Z.eq_dec (n / 10) 0) as [He|He].
  - rewrite He. exists (48 + n mod 10), acc. split; [by destruct fuel | lia].
  - apply IH. split; [| apply Z.div_lt_upper_bound; lia]. assert (0 <= n / 10) by (apply Z.div_pos; lia). lia.
Qed.

Lemma parse_exponent_stop p : stop p -> parse_exponent p = Done (0, p).
Proof.
  destruct p as [|c p]; [done |]. intros (_ & _ & H1 & H2). unfold parse_exponent. cbn [rd obind]. apply Z.eqb_neq in H1, H2. by rewrite H1, H2.
Qed.

Lemma parse_magnitude_ok (sg n : Z) rest : 0 < n <= 2 ^ 31 -> sg = 1 \/ sg = -1 -> - 2 ^ 31 <= sg * n < 2 ^ 31 -> stop rest ->
  parse_magnitude sg (dec_digits 20 n [] ++ rest) = Done (item_of None (JInt (sg * n)), rest).
Proof.
  intros Hn Hsg Hr Hs. unfold parse_magnitude. assert (2 ^ 31 <= 2 ^ 53) as Hb by done. assert (2 ^ 31 < 10 ^ Z.of_nat 20) as Hb' by done.
  pose proof (scan_dec 20 n rest ltac:(lia) ltac:(lia)) as Hscan. rewrite (scan_stop _ _ rest Hs) in Hscan.
  destruct (dec_digits_head 20 n [] ltac:(lia)) as (c & l & Hd & Hc). rewrite Hd in *. cbn [app rd obind tail].
  destruct (Z.eqb_spec c 48); [lia |]. cbv zeta. cbn [rd obind]. destruct (Z.leb_spec 49 c); [| lia]. destruct (Z.leb_spec c 57); [| lia]. cbn [andb].
  cbn [app] in Hscan. rewrite Hscan. cbn [obind fst snd]. destruct rest as [|x rest]; [done |]. pose proof Hs as (_ & H46 & _). cbn [rd obind].
  apply Z.eqb_neq in H46. rewrite H46. cbn [obind fst snd]. rewrite parse_exponent_stop by done. cbn [obind fst snd].
  change (0 + 0) with 0. rewrite d_pow10_0, d_mul_int by (destruct Hsg as [-> | ->]; lia). rewrite d_mul_int by lia. rewrite Z.mul_1_r.
  by rewrite d_to_of_int.
Qed.

Lemma parse_number_ok z rest : - 2 ^ 31 <= z < 2 ^ 31 -> stop rest -> parse_number (dec z ++ rest) = Done (item_of None (JInt z), rest).
Proof.
  intros Hz Hs. unfold dec. destruct (Z.eqb_spec z 0) as [->|Hz0].
  { destruct rest as [|x rest]; [done |]. unfold parse_number, parse_magnitude. cbn [app rd obind tail Z.eqb Pos.eqb].
    pose proof Hs as (Hd & H46 & _). replace ((49 <=? x) && (x <=? 57)) with false.
    2:{ symmetry. unfold isdigit in Hd. destruct (Z.leb_spec 49 x); [| done]. destruct (Z.leb_spec 48 x); [| lia]. exact Hd. }
    cbn [obind fst snd rd]. apply Z.eqb_neq in H46. rewrite H46. cbn [obind fst snd]. rewrite parse_exponent_stop by done. cbn [obind fst snd].
    change (0 + 0) with 0. rewrite d_pow10_0, !d_mul_int by done. change (1 * 0 * 1) with 0. by rewrite d_to_of_int. }
  destruct (Z.ltb_spec z 0).
  - unfold parse_number. cbn [app rd obind tail]. cbn [Z.eqb Pos.eqb].
    pose proof (parse_magnitude_ok (-1) (- z) rest ltac:(lia) ltac:(lia) ltac:(lia) Hs) as Hp. replace (-1 * - z) with z in Hp by lia. exact Hp.
  - pose proof (parse_magnitude_ok 1 z rest ltac:(lia) ltac:(lia) ltac:(lia) Hs) as Hp. rewrite Z.mul_1_l in Hp.
    destruct (dec_digits_head 20 z []) as (c & l & Hd & Hc); [assert (2 ^ 31 < 10 ^ Z.of_nat 20) by done; lia |].
    unfold parse_number. assert (rd (dec_digits 20 z [] ++ rest) = Done c) as Hrd by (by rewrite Hd). rewrite Hrd at 1. cbn [obind].
    destruct (Z.eqb_spec c 45); [lia |]. exact Hp.
Qed.

(** A value that is not one of the three words. *)
Lemma parse_value_head fuel c p : c <> 110 -> c <> 102 -> c <> 116 ->
  parse_value (S fuel) (c :: p) =
    (if c =? 34 then r <-! parse_string (c :: p); Done (match r with inl (s, p) => inl (string_item s, p) | inr e => inr e end)
     else if (c =? 45) || isdigit c then r <-! parse_number (c :: p); Done (inl r)
     else if c =? 91 then parse_array fuel (c :: p)
     else if c =? 123 then parse_object fuel (c :: p)
     else Done (inr (c :: p))).
Proof.
  intros H1 H2 H3. apply Z.eqb_neq in H1, H2, H3. cbn [parse_value].
  change (cstr "null") with [110; 117; 108; 108]. change (cstr "false") with [102; 97; 108; 115; 101]. change (cstr "true") with [116; 114; 117; 101].
  cbn [starts rd obind]. rewrite H1. cbn [obind]. rewrite H2. cbn [obind]. rewrite H3. reflexivity.
Qed.

Definition reads (v : jvalue) : Prop := forall fmt depth fuel rest,
  jwf v -> stop rest -> (3 * jsize v <= fuel)%nat -> parse_value fuel (render fmt depth v ++ rest) = Done (inl (item_of None v, rest)).

Lemma render_solid fmt depth v rest : jwf v -> solid (render fmt depth v ++ rest).
Proof.
  intros Hw. destruct v as [| b | z | s | l | l].
  - hnf. by right.
  - destruct b; hnf; by right.
  - cbn [render]. unfold dec. destruct (Z.eqb_spec z 0); [cbn; lia |]. destruct (Z.ltb_spec z 0); [cbn; lia |]. cbn in Hw.
    destruct (dec_digits_head 20 z []) as (c & l & -> & Hc); [assert (2 ^ 31 < 10 ^ Z.of_nat 20) by done; lia |]. cbn. lia.
  - hnf. by right.
  - hnf. by right.
  - destruct l; hnf; by right.
Qed.

Lemma render_not_close fmt depth v rest c : jwf v -> rd (render fmt depth v ++ rest) = Done c -> (c =? 93) = false.
Proof.
  intros Hw Hc. apply Z.eqb_neq. destruct v as [| b | z | s | l | l].
  - by injection Hc as <-.
  - destruct b; by injection Hc as <-.
  - revert Hc. cbn [render]. unfold dec. destruct (Z.eqb_spec z 0); [by intros [= <-] |]. destruct (Z.ltb_spec z 0); [by intros [= <-] |]. cbn in Hw.
    destruct (dec_digits_head 20 z []) as (x & l & -> & Hx); [assert (2 ^ 31 < 10 ^ Z.of_nat 20) by done; lia |]. intros [= <-]. lia.
  - by injection Hc as <-.
  - by injection Hc as <-.
  - destruct l; by injection Hc as <-.
Qed.

(** What follows a value in an array: the rest of the list. *)
Definition array_tail (fmt : bool) (depth : nat) (l : list jvalue) (rest : bytes) : bytes :=
  match l with
  | [] => 93 :: rest
  | _ => 44 :: (if fmt then [32] else []) ++ join_array fmt (map (render fmt depth) l) ++ 93 :: rest
  end.

Lemma join_array_cons fmt depth v l rest :
  join_array fmt (map (render fmt depth) (v :: l)) ++ 93 :: rest = render fmt depth v ++ array_tail fmt depth l rest.
Proof.
  destruct l as [|v' l]; [done |]. cbn [map]. change (join_array fmt (render fmt depth v :: render fmt depth v' :: map (render fmt depth) l))
    with (render fmt depth v ++ 44 :: (if fmt then [32] else []) ++ join_array fmt (map (render fmt depth) (v' :: l))).
  unfold array_tail. rewrite <- app_assoc. cbn [app]. by rewrite <- app_assoc.
Qed.

Lemma array_tail_stop fmt depth l rest : stop (array_tail fmt depth l rest) /\ solid (array_tail fmt depth l rest).
Proof. destruct l; cbn; split; try split_and!; (done || lia). Qed.

Lemma blank_sep (fmt : bool) c : 0 < c <= 32 -> blank (if fmt then [c] else []).
Proof. intros Hc. destruct fmt; [constructor; [done | constructor] | constructor]. Qed.

(** An element and the blanks behind it. *)
Lemma read_element v fmt depth fuel l rest : reads v -> jwf v -> (3 * jsize v <= fuel)%nat ->
  (r <-! parse_value fuel (render fmt depth v ++ array_tail fmt depth l rest); then_skip r) = Done (inl (item_of None v, array_tail fmt depth l rest)).
Proof.
  intros Hv Hw Hf. destruct (array_tail_stop fmt depth l rest) as [Hst Hso]. rewrite Hv by done. cbn [obind then_skip]. by rewrite skip_solid.
Qed.

Lemma obind_assoc {A B C} (m : outcome A) (f : A -> outcome B) (g : B -> outcome C) : (x <-! (y <-! m; f y); g x) = (y <-! m; x <-! f y; g x).
Proof. by destruct m. Qed.

Lemma array_loop_ok fmt depth l rest : forall fuel acc,
  Forall reads l -> Forall jwf l -> (3 * sum_list_with jsize l + 1 <= fuel)%nat ->
  array_loop fuel acc (array_tail fmt depth l rest) = Done (inl (mk_json shjson_Array None 0 (d_of_int 0) None (acc ++ map (item_of None) l), rest)).
Proof.
  induction l as [|v l IH]; intros fuel acc Hl Hw Hf; (destruct fuel as [|fuel]; [cbn in Hf; lia |]).
  - cbn. by rewrite app_nil_r.
  - apply Forall_cons in Hl as [Hv Hl]. apply Forall_cons in Hw as [Hwv Hw]. cbn [sum_list_with] in Hf. pose proof (jsize_pos v).
    unfold array_tail at 1. cbn [array_loop rd obind tail]. change (44 =? 44) with true. cbn iota.
    rewrite join_array_cons, skip_ws; [| by apply blank_sep; lia | by apply render_solid]. cbn [obind].
    rewrite <- obind_assoc, read_element by (try done; lia). cbn [obind]. rewrite IH by (try done; lia).
    cbn [map]. by rewrite <- app_assoc.
Qed.

(** What follows a value in an object; [e] is the text behind the last member. *)
Definition nl (fmt : bool) : bytes := if fmt then [10] else [].
Definition tabs (fmt : bool) (d : nat) : bytes := if fmt then replicate d 9 else [].
Definition member (fmt : bool) (d : nat) (e : bytes * jvalue) : bytes * bytes := (render_string (fst e), render fmt d (snd e)).
Definition object_tail (fmt : bool) (d : nat) (l : list (bytes * jvalue)) (rest : bytes) : bytes :=
  (match l with [] => [] | _ => [44] end) ++ nl fmt ++ join_object fmt d (map (member fmt d) l) ++ tabs fmt (d - 1) ++ 125 :: rest.

Lemma object_tail_stop fmt d l rest : stop (object_tail fmt d l rest).
Proof. destruct l, fmt; cbn; split_and!; (done || lia). Qed.

Lemma blank_tabs fmt d : blank (nl fmt ++ tabs fmt d).
Proof. destruct fmt; cbn; [constructor; [lia | apply blank_replicate] | constructor]. Qed.

Lemma skip_object_tail fmt d l rest :
  skip (object_tail fmt d l rest) = Done (match l with [] => 125 :: rest | _ => object_tail fmt d l rest end).
Proof.
  destruct l as [|e l]; [| apply skip_solid; cbn; lia]. unfold object_tail. cbn [map join_object app].
  rewrite app_assoc. apply skip_ws; [apply blank_tabs | cbn; lia].
Qed.

Lemma join_object_cons fmt d e l rest :
  nl fmt ++ join_object fmt d (map (member fmt d) (e :: l)) ++ tabs fmt (d - 1) ++ 125 :: rest =
  (nl fmt ++ tabs fmt d) ++ render_string (fst e) ++ 58 :: (if fmt then [9] else []) ++ render fmt d (snd e) ++ object_tail fmt d l rest.
Proof.
  unfold object_tail, tabs at 1 3, nl at 1 2 3. cbn [map join_object member]. unfold member at 1.
  destruct l; cbn [map]; repeat (rewrite <- app_assoc || cbn [app]); done.
Qed.

(** The text of the object behind the blanks that follow a member. *)
Definition object_next (fmt : bool) (d : nat) (l : list (bytes * jvalue)) (rest : bytes) : bytes :=
  match l with [] => 125 :: rest | _ => object_tail fmt d l rest end.

Lemma set_name_item n v : set_name (Some n) (item_of None v) = item_of (Some n) v.
Proof. by destruct v. Qed.

Lemma parse_member_ok (fmt : bool) d (e : bytes * jvalue) l rest ws fuel : blank ws -> reads (snd e) -> jstring (fst e) -> jwf (snd e) -> (3 * jsize (snd e) <= fuel)%nat ->
  parse_member (S fuel) (ws ++ render_string (fst e) ++ 58 :: (if fmt then [9] else []) ++ render fmt d (snd e) ++ object_tail fmt d l rest) =
    Done (inl (item_of (Some (fst e)) (snd e), object_next fmt d l rest)).
Proof.
  intros Hws Hv Hn Hw Hf. cbn [parse_member]. rewrite skip_ws; [| done | cbn; lia]. cbn [obind].
  rewrite parse_string_ok by done. cbn [obind then_skip]. rewrite skip_solid by (cbn; lia). cbn [obind rd tail]. change (negb (58 =? 58)) with false. cbn iota.
  rewrite skip_ws; [| by apply blank_sep; lia | by apply render_solid]. cbn [obind].
  rewrite Hv by (done || apply object_tail_stop). cbn [obind then_skip]. rewrite skip_object_tail. cbn [obind]. by rewrite set_name_item.
Qed.

Lemma object_loop_ok fmt d (l : list (bytes * jvalue)) rest : forall fuel acc,
  Forall (fun e : bytes * jvalue => reads (snd e)) l -> Forall (fun e => jstring (fst e) /\ jwf (snd e)) l ->
  (3 * sum_list_with (fun e => jsize (snd e)) l + 2 <= fuel)%nat ->
  object_loop fuel acc (object_next fmt d l rest) =
    Done (inl (mk_json shjson_Object None 0 (d_of_int 0) None (acc ++ map (fun e => item_of (Some (fst e)) (snd e)) l), rest)).
Proof.
  induction l as [|e l IH]; intros fuel acc Hl Hw Hf; (destruct fuel as [|fuel]; [cbn in Hf; lia |]).
  - cbn. by rewrite app_nil_r.
  - apply Forall_cons in Hl as [Hv Hl]. apply Forall_cons in Hw as [[Hn Hwv] Hw]. cbn [sum_list_with] in Hf. pose proof (jsize_pos (snd e)).
    unfold object_next, object_tail. cbn [app object_loop rd obind tail]. change (44 =? 44) with true. cbn iota.
    rewrite join_object_cons. destruct fuel as [|fuel]; [lia |].
    rewrite parse_member_ok by (done || apply blank_tabs || lia). cbn [obind]. rewrite IH by (done || lia). cbn [map]. by rewrite <- app_assoc.
Qed.

Lemma parse_array_ok fmt d l rest fuel : Forall reads l -> Forall jwf l -> (3 * sum_list_with jsize l + 2 <= fuel)%nat ->
  parse_array fuel (91 :: join_array fmt (map (render fmt d) l) ++ 93 :: rest) =
    Done (inl (mk_json shjson_Array None 0 (d_of_int 0) None (map (item_of None) l), rest)).
Proof.
  intros Hl Hw Hf. destruct fuel as [|fuel]; [lia |]. destruct l as [|v l]; [done |].
  apply Forall_cons in Hl as [Hv Hl]. apply Forall_cons in Hw as [Hwv Hw]. cbn [sum_list_with] in Hf. pose proof (jsize_pos v).
  cbn [parse_array tail]. rewrite join_array_cons, skip_solid by (by apply render_solid). cbn [obind].
  destruct (rd _) as [c |] eqn:Hc; [| by pose proof (render_solid fmt d v (array_tail fmt d l rest) Hwv); destruct (render fmt d v ++ _)].
  cbn [obind]. replace (c =? 93) with false; [| symmetry; by apply (render_not_close fmt d v (array_tail fmt d l rest))].
  rewrite skip_solid by (by apply render_solid). cbn [obind]. rewrite <- obind_assoc, read_element by (done || lia). cbn [obind].
  rewrite array_loop_ok by (done || lia). done.
Qed.

Lemma parse_object_ok fmt d e l rest fuel : Forall (fun e : bytes * jvalue => reads (snd e)) (e :: l) ->
  Forall (fun e => jstring (fst e) /\ jwf (snd e)) (e :: l) -> (3 * sum_list_with (fun e => jsize (snd e)) (e :: l) + 2 <= fuel)%nat ->
  parse_object fuel (123 :: nl fmt ++ join_object fmt d (map (member fmt d) (e :: l)) ++ tabs fmt (d - 1) ++ 125 :: rest) =
    Done (inl (mk_json shjson_Object None 0 (d_of_int 0) None (map (fun e => item_of (Some (fst e)) (snd e)) (e :: l)), rest)).
Proof.
  intros Hl Hw Hf. destruct fuel as [|[|fuel]]; [lia | lia |].
  apply Forall_cons in Hl as [Hv Hl]. apply Forall_cons in Hw as [[Hn Hwv] Hw]. cbn [sum_list_with] in Hf. pose proof (jsize_pos (snd e)).
  rewrite join_object_cons. cbn [parse_object tail]. rewrite skip_ws; [| apply blank_tabs | cbn; lia]. cbn [obind]. unfold render_string at 1.
  cbn [app rd obind]. change (34 =? 125) with false. cbn iota.
  pose proof (parse_member_ok fmt d e l rest [] fuel) as Hm. cbn [app] in Hm. rewrite Hm by (done || constructor || lia). clear Hm. cbn [obind].
  rewrite object_loop_ok by (done || lia). done.
Qed.

Lemma parse_value_int z fuel rest : - 2 ^ 31 <= z < 2 ^ 31 -> stop rest ->
  parse_value (S fuel) (dec z ++ rest) = Done (inl (item_of None (JInt z), rest)).
Proof.
  intros Hz Hs. assert (exists c l, dec z ++ rest = c :: l /\ (c = 45 \/ 48 <= c <= 57)) as (c & l & He & Hc).
  { unfold dec. destruct (Z.eqb_spec z 0); [exists 48, rest; split; [done | lia] |]. destruct (Z.ltb_spec z 0); [eexists _, _; split; [done | lia] |].
    destruct (dec_digits_head 20 z []) as (c & l & -> & Hc); [assert (2 ^ 31 < 10 ^ Z.of_nat 20) by done; lia |]. exists c, (l ++ rest). split; [done | lia]. }
  rewrite He, parse_value_head by lia. rewrite <- He, parse_number_ok by done.
  destruct (Z.eqb_spec c 34); [lia |]. replace ((c =? 45) || isdigit c) with true; [done |]. symmetry. unfold isdigit.
  destruct Hc as [-> | Hc]; [done |]. apply orb_true_iff. right. apply andb_true_iff. split; apply Z.leb_le; lia.
Qed.

Lemma parse_render v : reads v.
Proof.
  induction v as [| b | z | s | l IH | l IH] using jvalue_ind'; intros fmt depth fuel rest Hw Hs Hf;
    (destruct fuel as [|fuel]; [pose proof (jsize_pos JNull); cbn in Hf; lia |]).
  - done.
  - by destruct b.
  - by apply parse_value_int.
  - cbn [render]. unfold render_string at 1. cbn [app]. rewrite parse_value_head by lia.
    change (34 =? 34) with true. cbn iota. pose proof (parse_string_ok s rest Hw) as Hp. unfold render_string in Hp. cbn [app] in Hp. rewrite Hp. done.
  - apply jwf_arr in Hw. cbn [render app jsize] in *. rewrite parse_value_head by lia. cbn [Z.eqb Pos.eqb isdigit Z.leb Z.compare Pos.compare Pos.compare_cont andb orb].
    rewrite <- app_assoc. cbn [app]. by apply parse_array_ok; [| | lia].
  - apply jwf_obj in Hw. destruct l as [|e l].
    + cbn [render app]. rewrite parse_value_head by lia. cbn [Z.eqb Pos.eqb isdigit Z.leb Z.compare Pos.compare Pos.compare_cont andb orb].
      cbn [jsize sum_list_with] in Hf. destruct fuel as [|fuel]; [lia |]. cbn [parse_object tail]. rewrite <- app_assoc. cbn [app].
      rewrite skip_ws; [done | | cbn; lia]. destruct fmt; [constructor; [lia | apply blank_replicate] | constructor].
    + cbn [render app]. rewrite parse_value_head by lia. cbn [Z.eqb Pos.eqb isdigit Z.leb Z.compare Pos.compare Pos.compare_cont andb orb].
      pose proof (parse_object_ok fmt (S depth) e l rest fuel IH Hw) as Hp. rewrite Nat.sub_succ, Nat.sub_0_r in Hp.
      rewrite <- !app_assoc. cbn [app]. apply Hp. cbn [jsize] in Hf. lia.
Qed.

(** The fuel of the parser suffices: a value has at most as many parts as bytes. *)
Lemma jsize_render v fmt : forall depth, (jsize v <= length (render fmt depth v))%nat.
Proof.
  assert (forall z, (1 <= length (dec z))%nat) as Hdec.
  { intros z. unfold dec. destruct (Z.eqb_spec z 0); [cbn; lia |]. destruct (Z.ltb_spec z 0); [cbn; lia |].
    assert (forall fuel, (1 <= length (dec_digits (S fuel) z []))%nat) as Hd; [| apply (Hd 19%nat)]. intros fuel. cbn [dec_digits].
    destruct (Z.eqb_spec z 0); [lia |]. rewrite dec_digits_app, length_app. cbn. lia. }
  induction v as [| b | z | s | l IH | l IH] using jvalue_ind'; intros depth.
  - cbn. lia.
  - destruct b; cbn; lia.
  - apply Hdec.
  - cbn. lia.
  - cbn [jsize render length]. rewrite length_app. apply le_n_S. etrans; [| apply Nat.le_add_r].
    induction IH as [|v l Hv _ IHl]; [done |]. cbn [map sum_list_with]. specialize (Hv (S depth)). destruct l as [|v' l]; [cbn in *; lia |].
    cbn [map] in *. change (join_array fmt (render fmt (S depth) v :: render fmt (S depth) v' :: map (render fmt (S depth)) l))
      with (render fmt (S depth) v ++ 44 :: (if fmt then [32] else []) ++ join_array fmt (render fmt (S depth) v' :: map (render fmt (S depth)) l)).
    rewrite length_app. cbn [length]. rewrite length_app. lia.
  - destruct l as [|e0 l0]; [cbn; lia |]. cbn [jsize render length]. rewrite !length_app. apply le_n_S. etrans; [| apply Nat.le_add_l]. etrans; [| apply Nat.le_add_r].
    induction IH as [|e l Hv _ IHl]; [done |]. cbn [map sum_list_with join_object]. specialize (Hv (S depth)).
    repeat (rewrite length_app || cbn [length]). lia.
Qed.

(** *** Removing white space from a text *)

Lemma minify_mono k : forall q r k', minify_loop k q = Done r -> (k <= k')%nat -> minify_loop k' q = Done r.
Proof.
  induction k as [|k IH]; intros q r k' Hr Hk; [done |]. destruct k' as [|k']; [lia |]. cbn [minify_loop] in *.
  destruct (rd q) as [c |]; [| done]. cbn [obind] in *. destruct (c =? 0); [done |].
  destruct ((c =? 32) || (c =? 9) || (c =? 13) || (c =? 10)); [apply IH; [done | lia] |].
  destruct (if c =? 47 then rd (tail q) else Done 0) as [x |]; [| done]. cbn [obind] in *.
  destruct ((c =? 47) && (x =? 47)); [destruct (skip_line q) as [p |]; [cbn [obind] in *; apply IH; [done | lia] | done] |].
  destruct ((c =? 47) && (x =? 42)); [destruct (skip_comment q) as [p |]; [cbn [obind] in *; apply IH; [done | lia] | done] |].
  destruct (c =? 34).
  - destruct (copy_literal (tail q)) as [[o p] |]; [| done]. cbn [obind fst snd] in *. destruct (rd p) as [e |]; [| done]. cbn [obind] in *.
    destruct (minify_loop k (tail p)) as [rest |] eqn:He; [| done]. by rewrite (IH _ _ k' He) by lia.
  - destruct (minify_loop k (tail q)) as [rest |] eqn:He; [| done]. by rewrite (IH _ _ k' He) by lia.
Qed.

(** In front of any text, [t] is reduced to [u]. *)
Definition mins (t u : bytes) : Prop := forall q k r, minify_loop k q = Done r -> minify_loop (length t + k) (t ++ q) = Done (u ++ r).

Lemma mins_nil : mins [] [].
Proof. by intros q k r Hr. Qed.
Lemma mins_app t u t' u' : mins t u -> mins t' u' -> mins (t ++ t') (u ++ u').
Proof. intros H1 H2 q k r Hr. rewrite length_app, <- !app_assoc, <- Nat.add_assoc. apply H1, H2, Hr. Qed.
Lemma mins_blank c : c = 32 \/ c = 9 \/ c = 13 \/ c = 10 -> mins [c] [].
Proof. intros Hc q k r Hr. by destruct Hc as [-> | [-> | [-> | ->]]]. Qed.
Lemma mins_blanks t : Forall (fun c => c = 32 \/ c = 9 \/ c = 13 \/ c = 10) t -> mins t [].
Proof. induction 1 as [|c t Hc _ IH]; [apply mins_nil |]. apply (mins_app [c] [] t []); [by apply mins_blank | done]. Qed.
Lemma mins_char c : 34 < c -> c <> 47 -> mins [c] [c].
Proof.
  intros Hc H47 q k r Hr. cbn [app length Nat.add minify_loop rd obind tail]. destruct (Z.eqb_spec c 0); [lia |]. destruct (Z.eqb_spec c 32); [lia |].
  destruct (Z.eqb_spec c 9); [lia |]. destruct (Z.eqb_spec c 13); [lia |]. destruct (Z.eqb_spec c 10); [lia |]. destruct (Z.eqb_spec c 47); [lia |].
  destruct (Z.eqb_spec c 34); [lia |]. cbn [orb andb obind]. by rewrite Hr.
Qed.
Lemma mins_chars t : Forall (fun c => 34 < c /\ c <> 47) t -> mins t t.
Proof. induction 1 as [|c t [Hc H47] _ IH]; [apply mins_nil |]. apply (mins_app [c] [c]); [by apply mins_char | done]. Qed.

Lemma copy_literal_escape c q : 0 < c < 256 -> copy_literal (escape c ++ q) = (r <-! copy_literal q; Done (escape c ++ fst r, snd r)).
Proof.
  intros Hc. unfold escape. destruct ((31 <? c) && negb (c =? 34) && negb (c =? 92)) eqn:Hp.
  - apply andb_prop in Hp as [Hp H92]. apply andb_prop in Hp as [_ H34]. cbn [app copy_literal].
    apply negb_true_iff in H34, H92. rewrite H34, H92. destruct (Z.eqb_spec c 0); [lia | done].
  - destruct (c =? 92); [done |]. destruct (c =? 34); [done |]. destruct (c =? 8); [done |]. destruct (c =? 12); [done |].
    destruct (c =? 10); [done |]. destruct (c =? 13); [done |]. destruct (c =? 9); [done |].
    assert (forall d, 0 <= d < 16 -> (hex_char d =? 0) || (hex_char d =? 34) = false /\ (hex_char d =? 92) = false) as Hh.
    { intros d Hd. unfold hex_char. destruct (Z.ltb_spec d 10); split; rewrite ?orb_false_iff, ?Z.eqb_neq; lia. }
    destruct (Hh (c / 16)) as [Ha Ha']; [split; [apply Z.div_pos | apply Z.div_lt_upper_bound]; lia |].
    destruct (Hh (c mod 16)) as [Hb Hb']; [apply Z.mod_pos_bound; lia |].
    cbn [app copy_literal]. cbn [Z.eqb Pos.eqb orb]. rewrite Ha, Ha', Hb, Hb'. by destruct (copy_literal q).
Qed.

Lemma mins_string s : cbytes s -> mins (render_string s) (render_string s).
Proof.
  intros Hs q k r Hr. unfold render_string. cbn [length Nat.add app minify_loop rd obind tail]. cbn [Z.eqb Pos.eqb orb andb obind].
  rewrite <- !app_assoc. cbn [app].
  assert (copy_literal (concat (map escape s) ++ 34 :: q) = Done (concat (map escape s), 34 :: q)) as ->.
  { induction Hs as [|c s Hc _ IH]; [done |]. cbn [map concat]. rewrite <- app_assoc, copy_literal_escape, IH by done. done. }
  cbn [obind fst snd rd tail]. rewrite (minify_mono k q r) by (done || lia). done.
Qed.

Lemma dec_chars z : - 2 ^ 31 <= z < 2 ^ 31 -> Forall (fun c => 34 < c /\ c <> 47) (dec z).
Proof.
  intros Hz. assert (forall fuel n acc, 0 <= n -> Forall (fun c => 34 < c /\ c <> 47) acc -> Forall (fun c => 34 < c /\ c <> 47) (dec_digits fuel n acc)) as Hd.
  { induction fuel as [|fuel IH]; intros n acc Hn Ha; [done |]. cbn [dec_digits]. destruct (n =? 0); [done |].
    apply IH; [apply Z.div_pos; lia |]. constructor; [pose proof (Z.mod_pos_bound n 10 ltac:(lia)); lia | done]. }
  unfold dec. destruct (Z.eqb_spec z 0); [constructor; [lia | constructor] |].
  destruct (Z.ltb_spec z 0); [constructor; [lia |] |]; apply Hd; (lia || constructor).
Qed.

Lemma mins_cons c t u : 34 < c -> c <> 47 -> mins t u -> mins (c :: t) (c :: u).
Proof. intros. apply (mins_app [c] [c]); [by apply mins_char | done]. Qed.
Lemma mins_skip t t' u : Forall (fun c => c = 32 \/ c = 9 \/ c = 13 \/ c = 10) t -> mins t' u -> mins (t ++ t') u.
Proof. intros. apply (mins_app t [] t' u); [by apply mins_blanks | done]. Qed.
Lemma tabs_blank n : Forall (fun c => c = 32 \/ c = 9 \/ c = 13 \/ c = 10) (replicate n 9).
Proof. induction n; constructor; [lia | done]. Qed.

Lemma mins_join_array (l : list (bytes * bytes)) : Forall (fun e => mins (fst e) (snd e)) l -> mins (join_array true (map fst l)) (join_array false (map snd l)).
Proof.
  induction 1 as [|[t u] l Hc _ IH]; [apply mins_nil |]. destruct l as [|[t' u'] l]; [exact Hc |].
  apply (mins_app t u); [exact Hc |]. apply mins_cons; [lia | lia |]. apply (mins_skip [32]); [constructor; [lia | constructor] | exact IH].
Qed.

Lemma mins_join_object d (l : list (bytes * bytes * bytes)) :
  Forall (fun e => mins (fst (fst e)) (fst (fst e)) /\ mins (snd (fst e)) (snd e)) l ->
  mins (join_object true d (map fst l)) (join_object false d (map (fun e => (fst (fst e), snd e)) l)).
Proof.
  induction 1 as [|[[n t] u] l [Hn Ht] _ IH]; [apply mins_nil |]. cbn [map fst snd join_object app] in *.
  apply mins_skip; [apply tabs_blank |]. apply mins_app; [done |]. apply mins_cons; [lia | lia |].
  apply (mins_skip [9]); [constructor; [lia | constructor] |]. apply mins_app; [done |].
  assert (mins (10 :: join_object true d (map fst l)) (join_object false d (map (fun e => (fst (fst e), snd e)) l))) as Hr
    by (apply (mins_skip [10]); [constructor; [lia | constructor] | done]).
  destruct l as [|e l]; [exact Hr |]. apply mins_cons; [lia | lia | exact Hr].
Qed.

Lemma mins_render v : forall d, jwf v -> mins (render true d v) (render false d v).
Proof.
  induction v as [| b | z | s | l IH | l IH] using jvalue_ind'; intros d Hw.
  - apply mins_chars. by repeat (constructor; [done |]).
  - destruct b; apply mins_chars; by repeat (constructor; [done |]).
  - by apply mins_chars, dec_chars.
  - by apply mins_string, Hw.
  - apply jwf_arr in Hw. cbn [render]. apply mins_cons; [lia | lia |]. apply mins_app; [| by apply mins_char].
    pose proof (mins_join_array (map (fun v => (render true (S d) v, render false (S d) v)) l)) as Hj. rewrite !map_map in Hj. apply Hj.
    apply Forall_map. rewrite Forall_forall in IH, Hw |- *. intros v Hv. by apply IH; [| apply Hw].
  - apply jwf_obj in Hw. destruct l as [|e0 l0].
    + cbn [render]. apply mins_cons; [lia | lia |]. change ([] ++ [125]) with (([] : bytes) ++ [125]).
      apply (mins_app _ [] [125] [125]); [| by apply mins_char]. apply mins_blanks. constructor; [lia | apply tabs_blank].
    + cbn [render]. apply mins_cons; [lia | lia |]. apply (mins_skip [10]); [constructor; [lia | constructor] |]. cbn [app].
      apply mins_app; [| apply mins_skip; [apply tabs_blank | by apply mins_char]].
      remember (e0 :: l0) as l eqn:El. clear El e0 l0.
      pose proof (mins_join_object (S d) (map (fun e => (render_string (fst e), render true (S d) (snd e), render false (S d) (snd e))) l)) as Hj.
      rewrite !map_map in Hj. apply Hj. apply Forall_map. rewrite Forall_forall in IH, Hw |- *. intros e He. destruct (Hw e He) as [Hn Hv].
      split; [by apply mins_string, Hn | by apply IH].
Qed.

Lemma minify_render v : jwf v -> shjson_Minify (render true 0 v ++ [0]) = Done (render false 0 v).
Proof.
  intros Hw. unfold shjson_Minify. rewrite length_app. pose proof (mins_render v 0 Hw [0] 1%nat [] eq_refl) as Hm. rewrite app_nil_r in Hm. exact Hm.
Qed.

Lemma parse_print fmt v : jwf v -> shjson_Parse (render fmt 0 v ++ [0]) = Done (inl (item_of None v, [0])).
Proof.
  intros Hw. unfold shjson_Parse, shjson_ParseWithOpts. rewrite skip_solid by (by apply render_solid). cbn [obind].
  rewrite parse_render; [done | done | done |]. rewrite length_app. pose proof (jsize_render v fmt 0). lia.
Qed.

(** ** Objects as maps *)

Definition lower (n : bytes) : bytes := map tolower n.
Definition lname (c : shjson_t) : option bytes := option_map lower (jname c).

Lemma casecmp_eq s1 : forall s2, cbytes s1 -> cbytes s2 -> casecmp s1 s2 = 0 <-> lower s1 = lower s2.
Proof.
  assert (forall c, 0 < c < 256 -> tolower c <> 0) as Hz.
  { intros c Hc. unfold tolower. destruct (Z.leb_spec 65 c), (Z.leb_spec c 90); cbn [andb]; lia. }
  induction s1 as [|c1 s1 IH]; intros [|c2 s2] H1 H2; cbn [casecmp].
  - done.
  - apply Forall_cons in H2 as [H2 _]. specialize (Hz _ H2). split; [lia | done].
  - apply Forall_cons in H1 as [H1 _]. specialize (Hz _ H1). split; [lia | done].
  - apply Forall_cons in H1 as [_ H1]. apply Forall_cons in H2 as [_ H2]. unfold lower in *. cbn [map].
    destruct (Z.eqb_spec (tolower c1) (tolower c2)) as [He|He].
    + rewrite IH by done. rewrite He. split; [by intros -> | by intros [= ->]].
    + split; [lia | by intros [= ?]].
Qed.

(** A child with a name. *)
Definition named (c : shjson_t) : Prop := exists n, jname c = Some n /\ cbytes n.

Lemma strcasecmp_named c k : named c -> cbytes k -> (shjson_strcasecmp (jname c) (Some k) =? 0) = bool_decide (lname c = Some (lower k)).
Proof.
  intros (n & Hn & Hc) Hk. unfold lname. rewrite Hn. cbn [shjson_strcasecmp option_map].
  case_bool_decide as He.
  - injection He as He. apply Z.eqb_eq. by apply casecmp_eq.
  - apply Z.eqb_neq. rewrite casecmp_eq by done. congruence.
Qed.

(** The child with a name, and the list without it. *)
Definition child_of (l : list shjson_t) (k : bytes) : option shjson_t := match find_child l (Some k) with Some i => l !! i | None => None end.
Definition without (l : list shjson_t) (k : bytes) : list shjson_t := match find_child l (Some k) with Some i => delete i l | None => l end.

Lemma child_of_cons c l k : named c -> cbytes k -> child_of (c :: l) k = if decide (lname c = Some (lower k)) then Some c else child_of l k.
Proof.
  intros Hc Hk. unfold child_of. cbn [find_child]. rewrite strcasecmp_named by done. case_bool_decide as He.
  - by rewrite decide_True.
  - rewrite decide_False by done. cbn [negb]. by destruct (find_child l (Some k)).
Qed.
Lemma without_cons c l k : named c -> cbytes k -> without (c :: l) k = if decide (lname c = Some (lower k)) then l else c :: without l k.
Proof.
  intros Hc Hk. unfold without. cbn [find_child]. rewrite strcasecmp_named by done. case_bool_decide as He.
  - by rewrite decide_True.
  - rewrite decide_False by done. cbn [negb]. by destruct (find_child l (Some k)).
Qed.

Lemma child_of_app l c k : Forall named l -> named c -> cbytes k ->
  child_of (l ++ [c]) k = match child_of l k with Some x => Some x | None => if decide (lname c = Some (lower k)) then Some c else None end.
Proof.
  intros Hl Hc Hk. induction Hl as [|x l Hx _ IH]; cbn [app]; rewrite child_of_cons by done; [done |].
  rewrite child_of_cons, IH by done. by destruct (decide (lname x = Some (lower k))).
Qed.

Lemma child_of_None l k : Forall named l -> cbytes k -> (Some (lower k) ∉ map lname l) -> child_of l k = None.
Proof.
  intros Hl Hk. induction Hl as [|c l Hc _ IH]; intros Hn; [done |]. rewrite child_of_cons by done. cbn [map] in Hn. apply not_elem_of_cons in Hn as [Hn1 Hn2].
  rewrite decide_False by congruence. by apply IH.
Qed.

Lemma without_sublist l k : without l k `sublist_of` l.
Proof. unfold without. destruct (find_child l (Some k)); [apply sublist_delete | done]. Qed.

Lemma without_elem l k c : c ∈ without l k -> c ∈ l.
Proof. intros Hc. exact (elem_of_sublist _ _ _ Hc (without_sublist l k)). Qed.
Lemma without_named l k : Forall named l -> Forall named (without l k).
Proof. rewrite !Forall_forall. intros Hl c Hc. apply Hl. by eapply without_elem. Qed.
Lemma without_names l k x : (x ∉ map lname l) -> (x ∉ map lname (without l k)).
Proof.
  intros Hn Hx. apply Hn. apply list_elem_of_fmap in Hx as (c & -> & Hc). apply list_elem_of_fmap. exists c. split; [done |]. by eapply without_elem.
Qed.

Lemma without_spec l k : Forall named l -> NoDup (map lname l) -> cbytes k ->
  NoDup (map lname (without l k)) /\ (Some (lower k) ∉ map lname (without l k)) /\
  forall k', cbytes k' -> child_of (without l k) k' = if decide (lower k' = lower k) then None else child_of l k'.
Proof.
  intros Hl Hnd Hk. induction Hl as [|c l Hc Hl IH].
  - split; [apply NoDup_nil_2 |]. split; [apply not_elem_of_nil |]. intros k' _. by case_decide.
  - cbn [map] in Hnd. apply NoDup_cons in Hnd as [Hn Hnd]. destruct (IH Hnd) as (IH0 & IH1 & IH2). clear IH. rewrite without_cons by done.
    destruct (decide (lname c = Some (lower k))) as [He|He].
    + rewrite He in Hn. split; [done |]. split; [done |]. intros k' Hk'. rewrite child_of_cons by done. destruct (decide (lower k' = lower k)) as [Ek|Ek].
      * apply child_of_None; [done | done |]. by rewrite Ek.
      * rewrite decide_False; [done |]. congruence.
    + split; [cbn [map]; apply NoDup_cons; split; [by apply without_names | done] |].
      split; [cbn [map]; apply not_elem_of_cons; split; [congruence | done] |]. intros k' Hk'.
      pose proof (without_named l k Hl) as Hw.
      rewrite !child_of_cons by done. destruct (decide (lname c = Some (lower k'))) as [Ec|Ec]; [| by apply IH2].
      rewrite decide_False; [done |]. congruence.
Qed.

(** The operations on a named member, and what they do to a map whose keys are the
    names without their case. *)
Inductive member_op : Type :=
| SetNum (name : bytes) (num : D)
| SetNull (name : bytes)
| SetBool (name : bytes) (val : Z)
| SetStr (name : bytes) (val : option bytes)
| Del (name : bytes).

Definition op_name (o : member_op) : bytes := match o with SetNum n _ | SetNull n | SetBool n _ | SetStr n _ | Del n => n end.

Definition run_op (t : shjson_t) (o : member_op) : shjson_t :=
  match o with
  | SetNum n d => shjson_num_add t (Some n) d
  | SetNull n => shjson_null_add t (Some n)
  | SetBool n b => shjson_bool_add t (Some n) b
  | SetStr n v => shjson_str_add t (Some n) v
  | Del n => shjson_DeleteItemFromObject t (Some n)
  end.

Definition op_node (o : member_op) : option shjson_t :=
  match o with
  | SetNum _ d => Some (shjson_CreateNumber d)
  | SetNull _ | SetStr _ None => Some shjson_CreateNull
  | SetBool _ b => Some (shjson_CreateBool b)
  | SetStr _ (Some v) => Some (shjson_CreateString v)
  | Del _ => None
  end.

Definition spec_op (m : gmap bytes shjson_t) (o : member_op) : gmap bytes shjson_t :=
  match op_node o with
  | Some node => <[lower (op_name o) := set_name (Some (op_name o)) node]> m
  | None => delete (lower (op_name o)) m
  end.

Definition object_inv (t : shjson_t) (m : gmap bytes shjson_t) : Prop :=
  Forall named (child t) /\ NoDup (map lname (child t)) /\ forall k, cbytes k -> shjson_GetObjectItem t (Some k) = m !! lower k.

Lemma child_delete t k : child (shjson_DeleteItemFromObject t (Some k)) = without (child t) k.
Proof.
  unfold shjson_DeleteItemFromObject, shjson_DetachItemFromObject, without. destruct (find_child (child t) (Some k)) as [i|]; [| done].
  unfold shjson_DetachItemFromArray. rewrite Nat2Z.id. destruct (child t !! i) as [c|] eqn:Hc; [done |].
  cbn [fst]. symmetry. rewrite delete_take_drop. apply lookup_ge_None in Hc. rewrite take_ge, drop_ge by lia. apply app_nil_r.
Qed.

(** Every operation removes the member and adds its node, if it has one. *)
Lemma child_run t o : child (run_op t o) =
  without (child t) (op_name o) ++ match op_node o with Some node => [set_name (Some (op_name o)) node] | None => [] end.
Proof.
  assert (forall n node, child (add_child (clear_name t (Some n)) (Some n) node) = without (child t) n ++ [set_name (Some n) node]) as Ha.
  { intros n node. cbn [add_child clear_name]. unfold shjson_AddItemToObject, shjson_AddItemToArray, set_child. cbn [child]. by rewrite child_delete. }
  destruct o as [n d | n | n b | n [v|] | n]; try apply Ha. cbn [op_node run_op op_name]. by rewrite app_nil_r, child_delete.
Qed.

Lemma run_op_inv t m o : cbytes (op_name o) -> object_inv t m -> object_inv (run_op t o) (spec_op m o).
Proof.
  intros Hn (Hl & Hnd & Hm). destruct (without_spec _ (op_name o) Hl Hnd Hn) as (H0 & H1 & H2). pose proof (without_named _ (op_name o) Hl) as Hw.
  unfold object_inv, shjson_GetObjectItem. rewrite child_run. unfold spec_op. destruct (op_node o) as [node|].
  - assert (named (set_name (Some (op_name o)) node)) as Hnm by (exists (op_name o); done). split; [by apply Forall_app; split; [| constructor] |].
    split.
    { rewrite map_app. apply NoDup_app. split; [done |]. split; [| apply NoDup_singleton]. intros x Hx Hx'. apply list_elem_of_singleton in Hx' as ->. done. }
    intros k Hk. pose proof (child_of_app _ _ k Hw Hnm Hk) as Ha. unfold child_of at 1 in Ha. rewrite Ha, H2 by done. clear Ha.
    change (lname (set_name (Some (op_name o)) node)) with (Some (lower (op_name o))).
    destruct (decide (lower k = lower (op_name o))) as [He|He].
    + rewrite decide_True by congruence. by rewrite He, lookup_insert_eq.
    + rewrite lookup_insert_ne by congruence. rewrite <- (Hm k Hk). unfold shjson_GetObjectItem, child_of. destruct (find_child (child t) (Some k)) as [i|].
      * destruct (child t !! i); [done |]. rewrite decide_False; [done |]. congruence.
      * rewrite decide_False; [done |]. congruence.
  - rewrite app_nil_r. split; [done |]. split; [done |]. intros k Hk. specialize (H2 k Hk). unfold child_of at 1 in H2. rewrite H2. clear H2.
    destruct (decide (lower k = lower (op_name o))) as [He|He]; [by rewrite He, lookup_delete_eq |].
    rewrite lookup_delete_ne by congruence. apply (Hm k Hk).
Qed.

(** C17: printing, formatted or not, stays within the memory it allocates, and parsing
    the text gives the value back and stops at the end of the text: for every tree
    of nulls, booleans, integers, strings, arrays and objects, made by the parser or
    by the Create functions, whatever bytes other than NUL its strings hold, whose
    two texts are of at most (2^31 - 17) / 4 bytes.  The sizes are computed in an
    [int]; of longer texts they can overflow. *)
Theorem shjson_roundtrip j v : represents j v -> jwf v -> (forall fmt, sized (render fmt 0 v)) -> exists t u,
  shjson_Print (Some j) = Done (Some t) /\ shjson_Parse (t ++ [0]) = Done (inl (item_of None v, [0])) /\
  shjson_PrintUnformatted (Some j) = Done (Some u) /\ shjson_Parse (u ++ [0]) = Done (inl (item_of None v, [0])) /\
  represents (item_of None v) v.
Proof.
  intros Hr Hw Hz. exists (render true 0 v), (render false 0 v). split; [by apply print_ok |]. split; [by apply parse_print |].
  split; [by apply print_ok |]. split; [by apply parse_print |]. apply item_of_represents.
Qed.

(** removing the white space from a formatted text gives the unformatted text of
    the same tree; strings keep theirs. *)
Theorem shjson_minify_print j v : represents j v -> jwf v -> (forall fmt, sized (render fmt 0 v)) -> exists t u,
  shjson_Print (Some j) = Done (Some t) /\ shjson_Minify (t ++ [0]) = Done u /\ shjson_PrintUnformatted (Some j) = Done (Some u).
Proof.
  intros Hr Hw Hz. exists (render true 0 v), (render false 0 v). split; [by apply print_ok |]. split; [by apply minify_render | by apply print_ok].
Qed.

(** C26: an object changed by the functions that add a number, a null, a boolean or a
    string and by the removal of members is a map whose keys are the names without
    their case: after any sequence of these operations on a new object every name is
    looked up as in the map, and no two members have one name. *)
Theorem shjson_object_refines ops t0 : Forall (fun o => cbytes (op_name o)) ops -> shjson_init None = Done (Some t0) ->
  let t := fold_left run_op ops t0 in
  NoDup (map lname (child t)) /\ forall k, cbytes k -> shjson_GetObjectItem t (Some k) = fold_left spec_op ops (∅ : gmap bytes shjson_t) !! lower k.
Proof.
  intros Ho [= <-]. cbv zeta.
  assert (forall t m, object_inv t m -> object_inv (fold_left run_op ops t) (fold_left spec_op ops m)) as Hi.
  { induction Ho as [|o ops Hn _ IH]; intros t m Hi; [done |]. cbn [fold_left]. by apply IH, run_op_inv. }
  destruct (Hi (mk_json shjson_Object None 0 (d_of_int 0) None []) ∅) as (_ & Hd & Hl); [| done].
  split; [constructor |]. split; [apply NoDup_nil_2 |]. intros k _. by rewrite lookup_empty.
Qed.

(** The functions that add an array or an object do not look for a member of the
    name: added twice it is there twice. *)
Theorem shjson_array_add_twice (t : shjson_t) (n : bytes) :
  let again (add : shjson_t -> option bytes -> shjson_t) := child (add (add t (Some n)) (Some n)) in
  ~ NoDup (map lname (again shjson_array_add)) /\ ~ NoDup (map lname (again shjson_obj_add)).
Proof.
  cbv zeta. split; intros Hd; destruct t as [ty vs vi vd nm ch]; cbn in Hd; rewrite <- app_assoc, map_app in Hd;
    apply NoDup_app in Hd as (_ & _ & Hd); cbn in Hd; apply NoDup_cons in Hd as [Hd _]; by apply Hd, list_elem_of_singleton.
Qed.

End json.

(** ** Integers as numbers *)

#[export] Instance int_double : Double Z := {|
  d_of_int z := z; d_to_int z := z; d_add := Z.add; d_mul := Z.mul; d_pow10 := Z.pow 10; d_is_int := Z.eqb; d_print _ := []
|}.
#[local] Instance int_double_laws : DoubleLaws Z.
Proof. split; [done | done | done | done |]. intros z _. apply Z.eqb_refl. Qed.

Definition sample : jvalue := JObj [([97], JArr [JInt (-12); JBool true; JNull; JObj []]); ([98; 10; 34; 31; 200], JStr [9; 92; 65])].

Lemma sample_wf : jwf sample.
Proof. cbn. unfold jstring, cbytes. repeat split; try (vm_compute; congruence); try lia; repeat (apply List.Forall_cons; [lia |]); apply List.Forall_nil. Qed.

Lemma shjson_roundtrip_witness : exists t u,
  shjson_Print (Some (item_of None sample)) = Done (Some t) /\ shjson_Parse (t ++ [0]) = Done (inl (item_of None sample, [0])) /\
  shjson_PrintUnformatted (Some (item_of None sample)) = Done (Some u) /\ shjson_Parse (u ++ [0]) = Done (inl (item_of None sample, [0])) /\
  represents (item_of None sample) sample.
Proof.
  apply (shjson_roundtrip (item_of None sample) sample); [apply item_of_represents | apply sample_wf |].
  intros []; vm_compute; discriminate.
Defined.

Lemma shjson_minify_print_witness : exists t u,
  shjson_Print (Some (item_of None sample)) = Done (Some t) /\ shjson_Minify (t ++ [0]) = Done u /\
  shjson_PrintUnformatted (Some (item_of None sample)) = Done (Some u).
Proof.
  apply (shjson_minify_print (item_of None sample) sample); [apply item_of_represents | apply sample_wf |].
  intros []; vm_compute; discriminate.
Defined.

Definition sample_ops : list (member_op (D := Z)) := [SetNum [75; 101; 121] 5; SetStr [107; 69; 89] (Some [120]); SetNull [98]; Del [66]].

Lemma shjson_object_refines_witness :
  let t := fold_left run_op sample_ops (mk_json shjson_Object None 0 0 None []) in
  NoDup (map lname (child t)) /\
  forall k, cbytes k -> shjson_GetObjectItem t (Some k) = fold_left spec_op sample_ops (∅ : gmap bytes shjson_t) !! lower k.
Proof.
  apply (shjson_object_refines sample_ops); [| reflexivity].
  unfold sample_ops, cbytes. repeat (apply List.Forall_cons; [cbn; repeat (apply List.Forall_cons; [lia |]); apply List.Forall_nil |]). apply List.Forall_nil.
Defined.

(** A text that shows the two sides of a key in another case. *)
Example sample_member : shjson_GetObjectItem (fold_left run_op sample_ops (mk_json shjson_Object None 0 0 None [])) (Some [75; 69; 89]) =
  Some (mk_json shjson_String (Some [120]) 0 0 (Some [107; 69; 89]) []).
Proof. reflexivity. Qed.

(** An escape [\u] without its digits: the measure of the string stops at the quote,
    the copy steps over it and writes behind the block it allocated. *)
Theorem shjson_parse_overflow s : Forall (fun c => 0 < c /\ c <> 34 /\ c <> 92) s -> (2 <= length s)%nat ->
  parse_string ([34; 92; 117; 34; 65; 65; 65] ++ s ++ [34; 0]) = Fault.
Proof.
  intros Hs Hl. unfold parse_string. cbn [app rd obind tail Z.eqb Pos.eqb negb string_len orb].
  assert (forall fuel, (length s < fuel)%nat -> unescape fuel (s ++ [34; 0]) = Done (s, [34; 0])) as Hu.
  { clear Hl. induction Hs as [|c s (Hc & H34 & H92) _ IH]; intros fuel Hf; (destruct fuel as [|fuel]; [cbn in Hf; lia |]); [done |].
    cbn [app unescape rd obind tail length] in *. destruct (Z.eqb_spec c 34); [lia |]. destruct (Z.eqb_spec c 0); [lia |]. destruct (Z.eqb_spec c 92); [lia |].
    cbn [orb negb]. rewrite IH by lia. done. }
  assert (forall fuel q, unescape (S fuel) (92 :: 117 :: 34 :: 65 :: 65 :: 65 :: q) = (r <-! unescape fuel q; Done ([] ++ fst r, snd r))) as Hq by reflexivity.
  cbn [length]. change (INT_MAX <? Z.of_nat 1 + 1) with false. cbn iota. rewrite Hq, Hu by (rewrite length_app; lia). cbn [obind fst snd app]. rewrite decide_False by lia. done.
Qed.
