(* ===== verification/ShJsonSafe.v ===== *)
(** * Parsing any text

    The parser of [share-lib/mem/shmem_json.c] on texts nobody printed: on every text
    of less than 2^31 bytes, without an escape [\u], without a backslash before its NUL
    and with runs of at most nine digits it returns, reads nothing behind the NUL and
    writes within the memory it allocates.  The conditions are those under which it does not
    have these properties. *)

From Stdlib Require Import ZArith Lia String.
From stdpp Require Import base numbers list.
From S2P Require Import Prelude ShJson.

Open Scope Z_scope.

Fixpoint digit_run (p : bytes) : nat := match p with c :: p' => if isdigit c then S (digit_run p') else 0 | [] => 0 end.

(** A text that ends with its NUL. *)
Fixpoint tame (p : bytes) : Prop :=
  match p with
  | [] => False
  | c :: p' =>
      match p' with
      | [] => c = 0
      | d :: _ => c <> 0 /\ (c = 92 -> d <> 117 /\ d <> 0) /\ (digit_run p <= 9)%nat /\ tame p'
      end
  end.

Lemma tame_tail c p : tame (c :: p) -> c <> 0 -> tame p.
Proof. destruct p as [|d p]; [done |]. by intros (_ & _ & _ & Hp) _. Qed.
Lemma tame_cons p : tame p -> exists c q, p = c :: q.
Proof. destruct p as [|c q]; [done |]. intros _. by exists c, q. Qed.
Lemma tame_run p : tame p -> (digit_run p <= 9)%nat.
Proof. destruct p as [|c [|d p]]; [done | intros ->; cbn; lia | by intros (_ & _ & Hr & _)]. Qed.
Lemma tame_escape c p : tame (92 :: c :: p) -> c <> 117 /\ c <> 0.
Proof. intros (_ & He & _). by apply He. Qed.

(** A pointer into the text [p]. *)
Definition within (p p' : bytes) : Prop := tame p' /\ p' `suffix_of` p.
Definition beyond (p p' : bytes) : Prop := within p p' /\ (length p' < length p)%nat.

Lemma within_refl p : tame p -> within p p.
Proof. by split. Qed.
Lemma within_trans p q r : within p q -> within q r -> within p r.
Proof. intros [_ H1] [Ht H2]. split; [done | by etrans]. Qed.
Lemma within_length p q : within p q -> (length q <= length p)%nat.
Proof. intros [_ Hs]. by apply suffix_length. Qed.
Lemma within_tail p c q : within p (c :: q) -> c <> 0 -> beyond p q.
Proof.
  intros [Ht Hs] Hc. pose proof (suffix_length _ _ Hs) as Hl. cbn [length] in Hl.
  split; [| lia]. split; [by eapply tame_tail |]. etrans; [| exact Hs]. by exists [c].
Qed.
Lemma beyond_within p q r : beyond p q -> within q r -> beyond p r.
Proof. intros [H1 Hl] H2. split; [by eapply within_trans |]. pose proof (within_length _ _ H2). lia. Qed.
Lemma within_beyond p q r : within p q -> beyond q r -> beyond p r.
Proof. intros H1 [H2 Hl]. split; [by eapply within_trans |]. pose proof (within_length _ _ H1). lia. Qed.
Lemma beyond_trans p q r : beyond p q -> beyond q r -> beyond p r.
Proof. intros H1 [H2 _]. by eapply beyond_within. Qed.

Create HintDb within.
#[export] Hint Resolve within_refl within_trans within_tail beyond_within within_beyond beyond_trans : within.

Lemma rd_within p q : within p q -> exists c q', q = c :: q' /\ rd q = Done c.
Proof. intros [Ht _]. destruct q as [|c q]; [done |]. by exists c, q. Qed.

Lemma skip_within p q : within p q -> exists q', skip q = Done q' /\ within q q'.
Proof.
  revert p. induction q as [|c q IH]; intros p Hq; [by destruct Hq |]. cbn [skip]. pose proof (proj1 Hq) as Ht.
  destruct (Z.eqb_spec c 0) as [_|Hc]; [eauto using within_refl |]. destruct (c <=? 32); [| eauto using within_refl].
  pose proof (within_tail _ _ _ (within_refl _ Ht) Hc) as [Hw _]. destruct (IH _ Hw) as (q' & -> & Hq'). exists q'. split; [done |]. by eapply within_trans.
Qed.

Lemma starts_within lit : forall q, tame q -> Forall (fun c => c <> 0) lit ->
  exists b, starts lit q = Done b /\ (b = true -> lit <> [] -> beyond q (drop (length lit) q)).
Proof.
  induction lit as [|c lit IH]; intros q Hq Hl; [by exists true |]. apply Forall_cons in Hl as [Hc Hl]. cbn [starts].
  destruct q as [|x q]; [done |]. cbn [rd obind tail]. destruct (Z.eqb_spec x c) as [->|_]; [| exists false; split; [done | by intros]].
  pose proof (within_tail _ _ _ (within_refl _ Hq) Hc) as Hb. destruct (IH q (proj1 (proj1 Hb)) Hl) as (b & -> & Hi). exists b. split; [done |].
  intros -> _. cbn [length drop]. destruct lit as [|y lit]; [by rewrite drop_0 |]. eapply beyond_trans; [exact Hb |]. by apply Hi.
Qed.

Lemma isdigit_nz c : isdigit c = true -> c <> 0.
Proof. by intros Hd ->. Qed.

Lemma scan_within {A} (f : A -> Z -> A) q : forall acc, tame q ->
  exists a q', scan_digits f acc q = Done (a, q') /\ within q q' /\ (isdigit (hd 0 q) = true -> beyond q q').
Proof.
  induction q as [|c q IH]; intros acc Hq; [done |]. cbn [scan_digits hd]. destruct (isdigit c) eqn:Hd.
  - pose proof (within_tail _ _ _ (within_refl _ Hq) (isdigit_nz _ Hd)) as Hb. destruct (IH (f acc (c - 48)) (proj1 (proj1 Hb))) as (a & q' & -> & Hw & _).
    exists a, q'. pose proof (beyond_within _ _ _ Hb Hw) as Hb'. split; [done |]. split; [by destruct Hb' | done].
  - exists acc, (c :: q). split; [done |]. split; [by apply within_refl | done].
Qed.

(** The exponent fits its type. *)
Lemma scan_value q : forall s a q', scan_digits (fun s c => s * 10 + c) s q = Done (a, q') -> 0 <= s ->
  0 <= a < (s + 1) * 10 ^ Z.of_nat (digit_run q).
Proof.
  induction q as [|c q IH]; intros s a q' Hs Hs0; [done |]. cbn [scan_digits digit_run] in *. destruct (isdigit c) eqn:Hd.
  - assert (48 <= c <= 57) as Hc by (unfold isdigit in Hd; apply andb_prop in Hd as [? ?]; lia).
    apply IH in Hs; [| lia]. replace (Z.of_nat (S (digit_run q))) with (1 + Z.of_nat (digit_run q)) by lia. rewrite Z.pow_add_r by lia.
    change (10 ^ 1) with 10. assert (0 < 10 ^ Z.of_nat (digit_run q)) by (apply Z.pow_pos_nonneg; lia). nia.
  - injection Hs as <- <-. cbn. lia.
Qed.

Lemma parse_exponent_within q : tame q -> exists e q', parse_exponent q = Done (e, q') /\ within q q'.
Proof.
  intros Hq. destruct q as [|c q]; [done |]. unfold parse_exponent. cbn [rd obind tail].
  destruct ((c =? 101) || (c =? 69)) eqn:He; [| eauto using within_refl].
  assert (c <> 0) as Hc by (intros ->; done). pose proof (within_tail _ _ _ (within_refl _ Hq) Hc) as [Hw _].
  destruct (rd_within _ _ Hw) as (x & r & -> & ->). cbn [obind tail].
  assert (exists sg r', (if x =? 43 then (1, r) else if x =? 45 then (-1, r) else (1, x :: r)) = (sg, r') /\ within (c :: x :: r) r') as (sg & r' & -> & Hw').
  { destruct (Z.eqb_spec x 43) as [->|]; [eexists _, _; split; [done | by eapply within_tail] |].
    destruct (Z.eqb_spec x 45) as [->|]; [eexists _, _; split; [done | by eapply within_tail] |]. by eexists _, _. }
  destruct (scan_within (fun s c => s * 10 + c) r' 0 (proj1 Hw')) as (a & q' & Hs & Hq' & _). rewrite Hs. cbn [obind fst snd].
  apply scan_value in Hs; [| done]. pose proof (tame_run _ (proj1 Hw')) as Hr.
  assert (10 ^ Z.of_nat (digit_run r') <= 10 ^ 9) as Hp by (apply Z.pow_le_mono_r; lia). change (10 ^ 9) with 1000000000 in Hp.
  destruct (Z.leb_spec a INT_MAX) as [_|Hgt]; [| unfold INT_MAX in Hgt; lia]. eexists _, _. split; [done |]. by eapply within_trans.
Qed.

Section safe.
Context {D : Type} `{Double D}.

(** The number behind its sign: at least a digit is taken when there is one. *)
Lemma parse_magnitude_within sg q : tame q ->
  exists j q', parse_magnitude sg q = Done (j, q') /\ within q q' /\ (isdigit (hd 0 q) = true -> beyond q q').
Proof.
  intros Hq. destruct q as [|c q]; [done |]. unfold parse_magnitude. cbn [rd obind tail hd].
  set (p := if c =? 48 then q else c :: q). assert (within (c :: q) p /\ (c = 48 -> beyond (c :: q) p)) as [Hp Hp0].
  { subst p. destruct (Z.eqb_spec c 48) as [->|Hc]; [| split; [by apply within_refl | done]].
    pose proof (within_tail _ _ _ (within_refl _ Hq) ltac:(done)) as Hb. split; [by destruct Hb | done]. }
  destruct (rd_within _ _ Hp) as (x & r & Hx & ->). cbn [obind].
  assert (exists n p1, (if (49 <=? x) && (x <=? 57) then scan_digits push_digit (d_of_int 0) p else Done (d_of_int 0, p)) = Done (n, p1) /\ within p p1 /\
    ((49 <=? x) && (x <=? 57) = true -> beyond p p1)) as (n & p1 & -> & Hp1 & Hb1).
  { destruct ((49 <=? x) && (x <=? 57)) eqn:Hd; [| eexists _, _; split; [done | split; [apply within_refl, Hp | done]]].
    destruct (scan_within push_digit p (d_of_int 0) (proj1 Hp)) as (n & p1 & -> & Hw & Hb). eexists _, _. split; [done |]. split; [done |].
    intros _. apply Hb. rewrite Hx. cbn [hd]. unfold isdigit. apply andb_prop in Hd as [H1 H2]. rewrite H2, andb_true_r. lia. }
  cbn [obind fst snd]. destruct (rd_within _ _ Hp1) as (y & p1' & Hy & ->). cbn [obind].
  assert (exists a p2, (if y =? 46 then c <-! rd (tail p1);
      if isdigit c then scan_digits (fun a c => (push_digit (fst a) c, snd a - 1)) (n, 0) (tail p1) else Done ((n, 0), p1) else Done ((n, 0), p1)) = Done (a, p2) /\
    within p1 p2) as (a & p2 & -> & Hp2).
  { destruct (Z.eqb_spec y 46) as [->|_]; [| eexists _, _; split; [done | apply within_refl, Hp1]].
    assert (within p1 (tail p1)) as Ht by (rewrite Hy in *; by eapply within_tail; [apply within_refl, Hp1 |]).
    destruct (rd_within _ _ Ht) as (z & t & _ & ->). cbn [obind]. destruct (isdigit z); [| eexists _, _; split; [done | apply within_refl, Hp1]].
    destruct (scan_within (fun a c => (push_digit (fst a) c, snd a - 1)) (tail p1) (n, 0) (proj1 Ht)) as (a & p2 & -> & Hw & _).
    eexists _, _. split; [done |]. by eapply within_trans. }
  cbn [obind fst snd]. destruct (parse_exponent_within p2 (proj1 Hp2)) as (e & p3 & -> & Hp3). cbn [obind fst snd].
  eexists _, _. split; [done |]. assert (within p1 p3) as H13 by (by eapply within_trans).
  split; [by eapply within_trans; [exact Hp | eapply within_trans] |].
  intros Hd. destruct (Z.eq_dec c 48) as [H48|H48].
  - eapply beyond_within; [by apply Hp0 |]. by eapply within_trans.
  - assert (p = c :: q) as Ep by (subst p; by apply Z.eqb_neq in H48 as ->). rewrite Ep in Hx. injection Hx as <- <-.
    eapply within_beyond; [exact Hp |]. eapply beyond_within; [| exact H13]. apply Hb1. unfold isdigit in Hd. apply andb_prop in Hd as [H1 H2]. rewrite H2, andb_true_r. lia.
Qed.

Lemma parse_number_within q : tame q -> (hd 0 q =? 45) || isdigit (hd 0 q) = true -> exists j q', parse_number q = Done (j, q') /\ beyond q q'.
Proof.
  intros Hq Hd. destruct q as [|c q]; [done |]. unfold parse_number. cbn [rd obind tail hd] in *. destruct (Z.eqb_spec c 45) as [->|_].
  - pose proof (within_tail _ _ _ (within_refl _ Hq) ltac:(done)) as Hb.
    destruct (parse_magnitude_within (-1) q (proj1 (proj1 Hb))) as (j & q' & -> & Hw & _). eauto using beyond_within.
  - destruct (parse_magnitude_within 1 (c :: q) Hq) as (j & q' & -> & _ & Hb). eauto.
Qed.

(** The copy of a string has the measured length. *)
Lemma unescape_within n : forall q fuel, (length q <= n)%nat -> tame q -> (length q <= fuel)%nat ->
  exists o q', string_len q = Done (length o) /\ (length o < length q)%nat /\ unescape fuel q = Done (o, q') /\ within q q'.
Proof.
  induction n as [|n IH]; intros q fuel Hn Hq Hf; (destruct q as [|c q]; [done |]; cbn [length] in *); [lia |].
  destruct fuel as [|fuel]; [lia |]. cbn [string_len unescape rd obind tail]. destruct ((c =? 34) || (c =? 0)) eqn:Hc.
  { exists [], (c :: q). split; [done |]. split; [cbn; lia |]. split; [done | by apply within_refl]. }
  apply orb_false_iff in Hc as [_ H0]. apply Z.eqb_neq in H0. pose proof (within_tail _ _ _ (within_refl _ Hq) H0) as [Hw _].
  destruct (Z.eqb_spec c 92) as [->|_]; cbn [negb].
  - destruct q as [|x q]; [by destruct Hw |]. destruct (tame_escape _ _ Hq) as [Hu Hx0]. apply Z.eqb_neq in Hu. cbn [rd obind tail]. rewrite Hu.
    pose proof (within_tail _ _ _ Hw Hx0) as [Hw' _]. cbn [length] in *. destruct (IH q fuel ltac:(lia) (proj1 Hw') ltac:(lia)) as (o & q' & -> & Hlo & -> & Hq').
    exists (unescaped x :: o), q'. split; [done |]. split; [cbn [length]; lia |]. split; [done |]. by eapply within_trans.
  - destruct (IH q fuel ltac:(lia) (proj1 Hw) ltac:(lia)) as (o & q' & -> & Hlo & -> & Hq'). exists (c :: o), q'. split; [done |]. split; [cbn [length]; lia |]. split; [done |]. by eapply within_trans.
Qed.

(** What a step of the parser returns on the text [q]. *)
Definition parsed {A} (q : bytes) (r : outcome (A * bytes + bytes)) : Prop :=
  match r with Done (inl (_, q')) => beyond q q' | Done (inr e) => within q e | Fault => False end.

Lemma parse_string_within q : tame q -> Z.of_nat (length q) <= INT_MAX -> parsed q (parse_string q).
Proof.
  intros Hq HL. destruct q as [|c q]; [done |]. unfold parse_string. cbn [rd obind tail]. destruct (Z.eqb_spec c 34) as [->|_]; cbn [negb]; [| by apply within_refl].
  pose proof (within_tail _ _ _ (within_refl _ Hq) ltac:(done)) as Hb. pose proof Hb as [[Ht _] _].
  destruct (unescape_within (length q) q (length (34 :: q)) ltac:(lia) Ht ltac:(cbn; lia)) as (o & q' & -> & Hlo & -> & Hq'). cbn [obind fst snd].
  cbn [length] in HL. destruct (Z.ltb_spec INT_MAX (Z.of_nat (length o) + 1)); [lia |]. cbn [obind fst snd]. rewrite decide_True by lia. destruct (rd_within _ _ Hq') as (x & r & -> & ->). cbn [obind tail]. pose proof (beyond_within _ _ _ Hb Hq') as Hb'.
  cbn [parsed]. destruct (Z.eqb_spec x 34) as [->|_]; [| done]. eapply beyond_trans; [exact Hb' |]. apply (within_tail _ 34); [apply within_refl, Hq' | done].
Qed.

Lemma then_skip_parsed {A} q (r : A * bytes + bytes) : parsed q (Done r) -> parsed q (then_skip r).
Proof.
  destruct r as [[a q'] | e]; [| done]. cbn [parsed then_skip]. intros Hb. pose proof (within_refl _ (proj1 (proj1 Hb))) as Hw.
  destruct (skip_within _ _ Hw) as (q'' & -> & Hs). by eapply beyond_within.
Qed.

(** Sequencing: the second step starts where the first one ended. *)
Lemma parsed_skip {A} q (m : outcome (A * bytes + bytes)) : parsed q m -> parsed q (r <-! m; then_skip r).
Proof. destruct m as [r |]; [apply then_skip_parsed | done]. Qed.

Lemma parsed_from {A} p q (m : outcome (A * bytes + bytes)) : within p q -> parsed q m -> parsed p m.
Proof. intros Hw. destruct m as [[[a q'] | e] |]; cbn [parsed]; eauto with within. Qed.

Lemma parsed_then {A B} q (m : outcome (A * bytes + bytes)) (f : A -> bytes -> outcome (B * bytes + bytes)) :
  parsed q m -> (forall a q', beyond q q' -> parsed q' (f a q')) ->
  parsed q (r <-! m; match r with inr e => Done (inr e) | inl (a, q') => f a q' end).
Proof.
  intros Hm Hf. destruct m as [[[a q'] | e] |]; cbn [parsed obind] in *; [| done | done]. eapply parsed_from; [apply Hm | by apply Hf].
Qed.

Lemma parsed_map {A B} q (m : outcome (A * bytes + bytes)) (f : A -> B) : parsed q m ->
  parsed q (r <-! m; Done (match r with inl (a, q') => inl (f a, q') | inr e => inr e end)).
Proof. by destruct m as [[[a q'] | e] |]. Qed.

Definition all_parsed (fuel : nat) : Prop :=
  (forall q, tame q -> (3 * length q <= fuel)%nat -> parsed q (parse_value fuel q)) /\
  (forall q, tame q -> hd 0 q <> 0 -> (3 * length q <= fuel + 1)%nat -> parsed q (parse_array fuel q)) /\
  (forall q acc, tame q -> (3 * length q <= fuel + 1)%nat -> parsed q (array_loop fuel acc q)) /\
  (forall q, tame q -> hd 0 q <> 0 -> (3 * length q <= fuel + 1)%nat -> parsed q (parse_object fuel q)) /\
  (forall q, tame q -> (3 * length q <= fuel + 1)%nat -> parsed q (parse_member fuel q)) /\
  (forall q acc, tame q -> (3 * length q <= fuel + 1)%nat -> parsed q (object_loop fuel acc q)).

Lemma beyond_tame p q : beyond p q -> tame q.
Proof. by intros [[Ht _] _]. Qed.
Lemma within_tame p q : within p q -> tame q.
Proof. by intros [Ht _]. Qed.
#[local] Hint Resolve beyond_tame within_tame : within.

Lemma value_step fuel q : Z.of_nat (S fuel) <= 3 * INT_MAX -> all_parsed fuel -> tame q -> (3 * length q <= S fuel)%nat -> parsed q (parse_value (S fuel) q).
Proof.
  intros HL (_ & Ha & _ & Ho & _ & _) Hq Hf. cbn [parse_value].
  destruct (starts_within (cstr "null") q Hq) as (b1 & -> & H1); [by repeat (constructor; [done |]) |]. cbn [obind]. destruct b1; [by apply H1 |].
  destruct (starts_within (cstr "false") q Hq) as (b2 & -> & H2); [by repeat (constructor; [done |]) |]. cbn [obind]. destruct b2; [by apply H2 |].
  destruct (starts_within (cstr "true") q Hq) as (b3 & -> & H3); [by repeat (constructor; [done |]) |]. cbn [obind]. destruct b3; [by apply H3 |].
  destruct (tame_cons _ Hq) as (c & q' & Eq). assert (rd q = Done c) as -> by (by rewrite Eq). assert (hd 0 q = c) as Hh by (by rewrite Eq). cbn [obind].
  destruct (Z.eqb_spec c 34) as [->|_].
  { exact (parsed_map _ _ string_item (parse_string_within q Hq ltac:(lia))). }
  destruct ((c =? 45) || isdigit c) eqn:Hd; [destruct (parse_number_within q Hq) as (j & p & -> & Hp); [by rewrite Hh | exact Hp] |].
  destruct (Z.eqb_spec c 91) as [->|_]; [apply Ha; [done | by rewrite Hh | lia] |].
  destruct (Z.eqb_spec c 123) as [->|_]; [apply Ho; [done | by rewrite Hh | lia] |]. by apply within_refl.
Qed.

(** The text behind the first byte, without blanks. *)
Lemma skip_tail q : tame q -> hd 0 q <> 0 -> exists c r, skip (tail q) = Done (c :: r) /\ beyond q (c :: r).
Proof.
  destruct q as [|x q]; [done |]. intros Hq Hx. pose proof (within_tail _ _ _ (within_refl _ Hq) Hx) as Hb.
  destruct (skip_within _ _ (proj1 Hb)) as (q' & Hs & Hq'). destruct (rd_within _ _ Hq') as (c & r & -> & _). exists c, r. split; [done |]. by eapply beyond_within.
Qed.

Lemma skip_self q : tame q -> exists q', skip q = Done q' /\ within q q'.
Proof. intros Hq. exact (skip_within _ _ (within_refl _ Hq)). Qed.

(** A byte other than NUL is followed by text. *)
Lemma tail_beyond c r : tame (c :: r) -> c <> 0 -> beyond (c :: r) r.
Proof. intros Hq Hc. by apply (within_tail _ c); [apply within_refl |]. Qed.

Lemma array_step fuel q : all_parsed fuel -> tame q -> hd 0 q <> 0 -> (3 * length q <= S fuel + 1)%nat -> parsed q (parse_array (S fuel) q).
Proof.
  intros (Hv & _ & Hl & _) Hq Hh Hf. cbn [parse_array]. destruct (skip_tail q Hq Hh) as (c & r & -> & Hb). cbn [obind rd tail].
  destruct (Z.eqb_spec c 93) as [->|_]; [exact (beyond_trans _ _ _ Hb (tail_beyond _ _ (beyond_tame _ _ Hb) ltac:(done))) |].
  destruct (skip_self _ (beyond_tame _ _ Hb)) as (q' & -> & Hq'). cbn [obind]. pose proof (beyond_within _ _ _ Hb Hq') as Hb'.
  rewrite <- obind_assoc. apply (parsed_from q q'); [apply Hb' |]. destruct Hb' as [_ Hlen].
  apply parsed_then; [apply parsed_skip, Hv; [by eapply within_tame | lia] |]. intros j p Hp. apply Hl; [by eapply beyond_tame |]. destruct Hp as [_ ?]. lia.
Qed.

Lemma array_loop_step fuel acc q : all_parsed fuel -> tame q -> (3 * length q <= S fuel + 1)%nat -> parsed q (array_loop (S fuel) acc q).
Proof.
  intros (Hv & _ & Hl & _) Hq Hf. cbn [array_loop]. destruct (tame_cons _ Hq) as (c & r & ->). cbn [rd obind].
  destruct (Z.eqb_spec c 44) as [->|_].
  - destruct (skip_tail _ Hq) as (x & q' & -> & Hb); [done |]. cbn [obind]. rewrite <- obind_assoc. apply (parsed_from _ (x :: q')); [apply Hb |].
    pose proof Hb as [_ Hlen]. apply parsed_then; [apply parsed_skip, Hv; [by eapply beyond_tame | lia] |].
    intros j p Hp. apply Hl; [by eapply beyond_tame |]. destruct Hp as [_ ?]. lia.
  - destruct (Z.eqb_spec c 93) as [->|_]; [by apply tail_beyond | by apply within_refl].
Qed.

Lemma object_step fuel q : all_parsed fuel -> tame q -> hd 0 q <> 0 -> (3 * length q <= S fuel + 1)%nat -> parsed q (parse_object (S fuel) q).
Proof.
  intros (_ & _ & _ & _ & Hm & Hl) Hq Hh Hf. cbn [parse_object]. destruct (skip_tail q Hq Hh) as (c & r & -> & Hb). cbn [obind rd tail].
  destruct (Z.eqb_spec c 125) as [->|_]; [exact (beyond_trans _ _ _ Hb (tail_beyond _ _ (beyond_tame _ _ Hb) ltac:(done))) |].
  apply (parsed_from q (c :: r)); [apply Hb |]. pose proof (beyond_tame _ _ Hb) as Ht. destruct Hb as [_ Hlen].
  apply parsed_then; [apply Hm; [done | lia] |]. intros j p Hp. apply Hl; [by eapply beyond_tame |]. destruct Hp as [_ ?]. lia.
Qed.

Lemma member_step fuel q : Z.of_nat (S fuel) <= 3 * INT_MAX -> all_parsed fuel -> tame q -> (3 * length q <= S fuel + 1)%nat -> parsed q (parse_member (S fuel) q).
Proof.
  intros HL (Hv & _) Hq Hf. cbn [parse_member]. destruct (skip_self _ Hq) as (q0 & -> & Hq0). cbn [obind]. apply (parsed_from _ q0); [done |].
  pose proof (within_length _ _ Hq0) as Hlen. rewrite <- obind_assoc. apply parsed_then; [apply parsed_skip, parse_string_within; [by apply (within_tame q) | lia] |].
  intros s p Hp. destruct (tame_cons _ (beyond_tame _ _ Hp)) as (c & r & ->). cbn [rd obind]. pose proof (beyond_tame _ _ Hp) as Ht.
  destruct (Z.eqb_spec c 58) as [->|_]; cbn [negb]; [| by apply within_refl].
  destruct (skip_tail _ Ht) as (x & q' & -> & Hb); [done |]. cbn [obind]. apply (parsed_from _ (x :: q')); [apply Hb |]. rewrite <- obind_assoc.
  assert (parsed (x :: q') (r <-! parse_value fuel (x :: q'); then_skip r)) as Hr.
  { apply parsed_skip, Hv; [by eapply beyond_tame |]. destruct Hp as [_ ?], Hb as [_ ?]. lia. }
  exact (parsed_map _ _ (set_name (Some s)) Hr).
Qed.

Lemma object_loop_step fuel acc q : all_parsed fuel -> tame q -> (3 * length q <= S fuel + 1)%nat -> parsed q (object_loop (S fuel) acc q).
Proof.
  intros (_ & _ & _ & _ & Hm & Hl) Hq Hf. cbn [object_loop]. destruct (tame_cons _ Hq) as (c & r & ->). cbn [rd obind tail].
  destruct (Z.eqb_spec c 44) as [->|_].
  - pose proof (tail_beyond _ _ Hq ltac:(done)) as Hb. apply (parsed_from _ r); [apply Hb |]. cbn [length] in Hf.
    apply parsed_then; [apply Hm; [by eapply beyond_tame | lia] |]. intros j p Hp. apply Hl; [by eapply beyond_tame |]. destruct Hp as [_ ?]. lia.
  - destruct (Z.eqb_spec c 125) as [->|_]; [by apply tail_beyond | by apply within_refl].
Qed.

Lemma all_parsed_ok fuel : Z.of_nat fuel <= 3 * INT_MAX -> all_parsed fuel.
Proof.
  induction fuel as [|fuel IH]; intros HL; [|specialize (IH ltac:(lia))].
  - assert (forall q, tame q -> (0 < length q)%nat) as Hp by (by intros [|c q] Hq; [| cbn; lia]).
    repeat split; intros q; intros; match goal with Ht : tame q |- _ => specialize (Hp q Ht); lia end.
  - repeat split; intros; [by apply value_step | by apply array_step | by apply array_loop_step | by apply object_step | by apply member_step | by apply object_loop_step].
Qed.

(** C25: on every text of less than 2^31 bytes that ends with a NUL, has no escape
    [\u] and no backslash before the NUL, and has runs of at most nine digits, the parser returns a tree or an
    error; it reads nothing behind the NUL, and the end or the error it reports is
    a place in the text. *)
Theorem shjson_parse_safe text strict : tame text -> Z.of_nat (length text) <= INT_MAX ->
  exists r, shjson_ParseWithOpts text strict = Done r /\ match r with inl (_, p) => within text p | inr e => within text e end.
Proof.
  intros Ht HL. unfold shjson_ParseWithOpts. destruct (skip_self _ Ht) as (q & -> & Hq). cbn [obind]. pose proof (within_length _ _ Hq) as Hl.
  destruct (all_parsed_ok (3 * length text) ltac:(lia)) as [Hv _]. specialize (Hv q (proj1 Hq) ltac:(lia)).
  destruct (parse_value (3 * length text) q) as [[[j p] | e] |]; cbn [parsed obind] in *; [| eexists; split; [done | by eapply within_trans] | done].
  pose proof (within_trans _ _ _ Hq (proj1 Hv)) as Hp. destruct strict; [| by eexists].
  destruct (skip_self _ (proj1 Hp)) as (p' & -> & Hp'). cbn [obind]. destruct (rd_within _ _ Hp') as (c & r & -> & ->). cbn [obind].
  pose proof (within_trans _ _ _ Hp Hp'). destruct (negb (c =? 0)); by eexists.
Qed.
End safe.

(** A text that is not JSON. *)
Lemma shjson_parse_safe_witness :
  let text := [123; 34; 97; 92; 110; 34; 58; 49; 50; 101; 57; 44; 93; 0] in
  tame text /\ exists r, shjson_ParseWithOpts (D := Z) (H := int_double) text true = Done r /\ match r with inl (_, p) => within text p | inr e => within text e end.
Proof. cbv zeta. assert (tame [123; 34; 97; 92; 110; 34; 58; 49; 50; 101; 57; 44; 93; 0]) as Ht by (cbn; lia). split; [exact Ht | apply (shjson_parse_safe _ true Ht); vm_compute; discriminate]. Defined.
