(* ===== verification/ShRipemd.v ===== *)
(** * RIPEMD-160

    Models [share-lib/mem/shmem_alg_ripemd160.c]: the block function with its eighty
    unrolled lines, as written, and the context that absorbs a message in pieces.
    The specification is the construction of the designers: five rounds in two
    lines, whose message words are permuted from round to round and whose shifts
    depend on the round and on the word, over the padded message of [ShStream.v]
    with the length in little-endian order. *)

From Stdlib Require Import ZArith Lia String.
From stdpp Require Import base numbers list.
From S2P Require Import Prelude ShStream.

Open Scope Z_scope.

Record ripemd160_context : Type := mk_rip {
  total : Z * Z;
  state : list Z;
  buffer : bytes
}.

(** ** The block function *)

Definition GET_UINT32_LE (b : bytes) (i : nat) : Z :=
  Z.lor (Z.lor (Z.lor (nth i b 0) (Z.shiftl (nth (i + 1) b 0) 8)) (Z.shiftl (nth (i + 2) b 0) 16)) (Z.shiftl (nth (i + 3) b 0) 24).
Definition PUT_UINT32_LE (n : Z) : bytes :=
  [Z.land n 0xFF; Z.land (Z.shiftr n 8) 0xFF; Z.land (Z.shiftr n 16) 0xFF; Z.land (Z.shiftr n 24) 0xFF].

Definition not32 (x : Z) : Z := u32 (Z.lnot x).
Definition F1 (x y z : Z) : Z := Z.lxor (Z.lxor x y) z.
Definition F2 (x y z : Z) : Z := Z.lor (Z.land x y) (Z.land (not32 x) z).
Definition F3 (x y z : Z) : Z := Z.lxor (Z.lor x (not32 y)) z.
Definition F4 (x y z : Z) : Z := Z.lor (Z.land x z) (Z.land y (not32 z)).
Definition F5 (x y z : Z) : Z := Z.lxor x (Z.lor y (not32 z)).
Definition S_ (x n : Z) : Z := Z.lor (u32 (Z.shiftl x n)) (Z.shiftr x (32 - n)).

(** The variables A to E are the places 0 to 4; a line of the code names them in one
    of five orders. *)
Definition ABCDE : list nat := [0; 1; 2; 3; 4]%nat.
Definition EABCD : list nat := [4; 0; 1; 2; 3]%nat.
Definition DEABC : list nat := [3; 4; 0; 1; 2]%nat.
Definition CDEAB : list nat := [2; 3; 4; 0; 1]%nat.
Definition BCDEA : list nat := [1; 2; 3; 4; 0]%nat.

(** The macro [P] with the variables named by [v]. *)
Definition P_ (X : list Z) (f : Z -> Z -> Z -> Z) (k : Z) (regs : list Z) (v : list nat) (r s : Z) : list Z :=
  let var i := nth (nth i v 0%nat) regs 0 in
  let a := u32 (var 0%nat + (f (var 1%nat) (var 2%nat) (var 3%nat) + nth (Z.to_nat r) X 0 + k)) in
  let a := u32 (S_ a s + var 4%nat) in
  <[nth 2 v 0%nat := S_ (var 2%nat) 10]> (<[nth 0 v 0%nat := a]> regs).

(** The arguments of [P2]: variables, word and shift of the left and of the right
    line. *)
Definition line : Type := list nat * Z * Z * Z * Z.

Definition P2 (F Fp : Z -> Z -> Z -> Z) (K Kp : Z) (X : list Z) (st : list Z * list Z) (l : line) : list Z * list Z :=
  let '(v, r, s, rp, sp) := l in (P_ X F K (fst st) v r s, P_ X Fp Kp (snd st) v rp sp).

Definition lines1 : list line := [
  (ABCDE, 0, 11, 5, 8);
  (EABCD, 1, 14, 14, 9);
  (DEABC, 2, 15, 7, 9);
  (CDEAB, 3, 12, 0, 11);
  (BCDEA, 4, 5, 9, 13);
  (ABCDE, 5, 8, 2, 15);
  (EABCD, 6, 7, 11, 15);
  (DEABC, 7, 9, 4, 5);
  (CDEAB, 8, 11, 13, 7);
  (BCDEA, 9, 13, 6, 7);
  (ABCDE, 10, 14, 15, 8);
  (EABCD, 11, 15, 8, 11);
  (DEABC, 12, 6, 1, 14);
  (CDEAB, 13, 7, 10, 14);
  (BCDEA, 14, 9, 3, 12);
  (ABCDE, 15, 8, 12, 6)
].
Definition lines2 : list line := [
  (EABCD, 7, 7, 6, 9);
  (DEABC, 4, 6, 11, 13);
  (CDEAB, 13, 8, 3, 15);
  (BCDEA, 1, 13, 7, 7);
  (ABCDE, 10, 11, 0, 12);
  (EABCD, 6, 9, 13, 8);
  (DEABC, 15, 7, 5, 9);
  (CDEAB, 3, 15, 10, 11);
  (BCDEA, 12, 7, 14, 7);
  (ABCDE, 0, 12, 15, 7);
  (EABCD, 9, 15, 8, 12);
  (DEABC, 5, 9, 12, 7);
  (CDEAB, 2, 11, 4, 6);
  (BCDEA, 14, 7, 9, 15);
  (ABCDE, 11, 13, 1, 13);
  (EABCD, 8, 12, 2, 11)
].
Definition lines3 : list line := [
  (DEABC, 3, 11, 15, 9);
  (CDEAB, 10, 13, 5, 7);
  (BCDEA, 14, 6, 1, 15);
  (ABCDE, 4, 7, 3, 11);
  (EABCD, 9, 14, 7, 8);
  (DEABC, 15, 9, 14, 6);
  (CDEAB, 8, 13, 6, 6);
  (BCDEA, 1, 15, 9, 14);
  (ABCDE, 2, 14, 11, 12);
  (EABCD, 7, 8, 8, 13);
  (DEABC, 0, 13, 12, 5);
  (CDEAB, 6, 6, 2, 14);
  (BCDEA, 13, 5, 10, 13);
  (ABCDE, 11, 12, 0, 13);
  (EABCD, 5, 7, 4, 7);
  (DEABC, 12, 5, 13, 5)
].
Definition lines4 : list line := [
  (CDEAB, 1, 11, 8, 15);
  (BCDEA, 9, 12, 6, 5);
  (ABCDE, 11, 14, 4, 8);
  (EABCD, 10, 15, 1, 11);
  (DEABC, 0, 14, 3, 14);
  (CDEAB, 8, 15, 11, 14);
  (BCDEA, 12, 9, 15, 6);
  (ABCDE, 4, 8, 0, 14);
  (EABCD, 13, 9, 5, 6);
  (DEABC, 3, 14, 12, 9);
  (CDEAB, 7, 5, 2, 12);
  (BCDEA, 15, 6, 13, 9);
  (ABCDE, 14, 8, 9, 12);
  (EABCD, 5, 6, 7, 5);
  (DEABC, 6, 5, 10, 15);
  (CDEAB, 2, 12, 14, 8)
].
Definition lines5 : list line := [
  (BCDEA, 4, 9, 12, 8);
  (ABCDE, 0, 15, 15, 5);
  (EABCD, 5, 5, 10, 12);
  (DEABC, 9, 11, 4, 9);
  (CDEAB, 7, 6, 1, 12);
  (BCDEA, 12, 8, 5, 5);
  (ABCDE, 2, 13, 8, 14);
  (EABCD, 10, 12, 7, 6);
  (DEABC, 14, 5, 6, 8);
  (CDEAB, 1, 12, 2, 13);
  (BCDEA, 3, 13, 13, 6);
  (ABCDE, 8, 14, 14, 5);
  (EABCD, 11, 11, 0, 15);
  (DEABC, 6, 8, 3, 13);
  (CDEAB, 15, 5, 9, 11);
  (BCDEA, 13, 6, 11, 11)
].

Definition mbedtls_ripemd160_process (st : list Z) (data : bytes) : list Z :=
  let X := map (fun i => GET_UINT32_LE data (4 * i)) (seq 0 16) in
  let r := (st, st) in
  let r := fold_left (P2 F1 F5 0 0x50A28BE6 X) lines1 r in
  let r := fold_left (P2 F2 F4 0x5A827999 0x5C4DD124 X) lines2 r in
  let r := fold_left (P2 F3 F3 0x6ED9EBA1 0x6D703EF3 X) lines3 r in
  let r := fold_left (P2 F4 F2 0x8F1BBCDC 0x7A6D76E9 X) lines4 r in
  let r := fold_left (P2 F5 F1 0xA953FD4E 0 X) lines5 r in
  let s i := nth i st 0 in
  let v i := nth i (fst r) 0 in
  let vp i := nth i (snd r) 0 in
  [u32 (s 1%nat + v 2%nat + vp 3%nat); u32 (s 2%nat + v 3%nat + vp 4%nat); u32 (s 3%nat + v 4%nat + vp 0%nat);
   u32 (s 4%nat + v 0%nat + vp 1%nat); u32 (s 0%nat + v 1%nat + vp 2%nat)].

(** ** The context *)

Definition mbedtls_ripemd160_init : ripemd160_context := mk_rip (0, 0) (replicate 5 0) (replicate 64 0).
Definition ripemd160_H0 : list Z := [0x67452301; 0xEFCDAB89; 0x98BADCFE; 0x10325476; 0xC3D2E1F0].
Definition mbedtls_ripemd160_starts (ctx : ripemd160_context) : ripemd160_context := mk_rip (0, 0) ripemd160_H0 (buffer ctx).

(** The loop over whole blocks of the input: the state and the rest of the input. *)
Fixpoint update_loop (fuel : nat) (st : list Z) (input : bytes) : list Z * bytes :=
  match fuel with
  | O => (st, input)
  | S fuel' =>
      if decide (64 <= length input)%nat then update_loop fuel' (mbedtls_ripemd160_process st (take 64 input)) (drop 64 input)
      else (st, input)
  end.

Definition mbedtls_ripemd160_update (ctx : ripemd160_context) (input : bytes) : outcome ripemd160_context :=
  if decide (length input = 0)%nat then Done ctx
  else
    let ilen := Z.of_nat (length input) in
    let lft := Z.to_nat (Z.land (fst (total ctx)) 0x3F) in
    let fill := (64 - lft)%nat in
    let total0 := Z.land (u32 (fst (total ctx) + u32 ilen)) 0xFFFFFFFF in
    let total1 := if total0 <? u32 ilen then u32 (snd (total ctx) + 1) else snd (total ctx) in
    r <-! (if decide (lft <> 0 /\ fill <= length input)%nat then
             buf <-! mem_write (buffer ctx) lft (take fill input);
             Done (mbedtls_ripemd160_process (state ctx) buf, buf, drop fill input, 0%nat)
           else Done (state ctx, buffer ctx, input, lft));
    let '(st, buf, input, lft) := r in
    let '(st, input) := update_loop (length input) st input in
    buf <-! (if decide (0 < length input)%nat then mem_write buf lft input else Done buf);
    Done (mk_rip (total0, total1) st buf).

Definition ripemd160_padding : bytes := 0x80 :: replicate 63 0.

Definition mbedtls_ripemd160_finish (ctx : ripemd160_context) : outcome bytes :=
  let '(t0, t1) := total ctx in
  let high := Z.lor (Z.shiftr t0 29) (u32 (Z.shiftl t1 3)) in
  let low := u32 (Z.shiftl t0 3) in
  let msglen := PUT_UINT32_LE low ++ PUT_UINT32_LE high in
  let last := Z.land t0 0x3F in
  let padn := if last <? 56 then 56 - last else 120 - last in
  ctx <-! mbedtls_ripemd160_update ctx (take (Z.to_nat padn) ripemd160_padding);
  ctx <-! mbedtls_ripemd160_update ctx msglen;
  Done (concat (map (fun i => PUT_UINT32_LE (nth i (state ctx) 0)) (seq 0 5))).

Definition mbedtls_ripemd160 (input : bytes) : outcome bytes :=
  let ctx := mbedtls_ripemd160_starts mbedtls_ripemd160_init in
  ctx <-! mbedtls_ripemd160_update ctx input;
  mbedtls_ripemd160_finish ctx.

(** [data] is [None] for a NULL pointer. *)
Definition sh_ripemd160 (data : option bytes) : outcome bytes :=
  match data with
  | None => Done (replicate 20 0)
  | Some d => if decide (length d = 0)%nat then Done (replicate 20 0) else mbedtls_ripemd160 d
  end.

(** The calls of a streaming user. *)
Fixpoint update_all (ctx : ripemd160_context) (chunks : list bytes) : outcome ripemd160_context :=
  match chunks with
  | [] => Done ctx
  | c :: rest => ctx <-! mbedtls_ripemd160_update ctx c; update_all ctx rest
  end.

(** The test vectors of the source. *)
Definition ripemd160_test_input : list bytes := map cstr [
  EmptyString;
  "a";
  "abc";
  "message digest";
  "abcdefghijklmnopqrstuvwxyz";
  "abcdbcdecdefdefgefghfghighijhijkijkljklmklmnlmnomnopnopq";
  "ABCDEFGHIJKLMNOPQRSTUVWXYZabcdefghijklmnopqrstuvwxyz0123456789";
  "12345678901234567890123456789012345678901234567890123456789012345678901234567890"
]%string.
Definition ripemd160_test_md : list bytes := [
  [0x9c; 0x11; 0x85; 0xa5; 0xc5; 0xe9; 0xfc; 0x54; 0x61; 0x28; 0x08; 0x97; 0x7e; 0xe8; 0xf5; 0x48; 0xb2; 0x25; 0x8d; 0x31];
  [0x0b; 0xdc; 0x9d; 0x2d; 0x25; 0x6b; 0x3e; 0xe9; 0xda; 0xae; 0x34; 0x7b; 0xe6; 0xf4; 0xdc; 0x83; 0x5a; 0x46; 0x7f; 0xfe];
  [0x8e; 0xb2; 0x08; 0xf7; 0xe0; 0x5d; 0x98; 0x7a; 0x9b; 0x04; 0x4a; 0x8e; 0x98; 0xc6; 0xb0; 0x87; 0xf1; 0x5a; 0x0b; 0xfc];
  [0x5d; 0x06; 0x89; 0xef; 0x49; 0xd2; 0xfa; 0xe5; 0x72; 0xb8; 0x81; 0xb1; 0x23; 0xa8; 0x5f; 0xfa; 0x21; 0x59; 0x5f; 0x36];
  [0xf7; 0x1c; 0x27; 0x10; 0x9c; 0x69; 0x2c; 0x1b; 0x56; 0xbb; 0xdc; 0xeb; 0x5b; 0x9d; 0x28; 0x65; 0xb3; 0x70; 0x8d; 0xbc];
  [0x12; 0xa0; 0x53; 0x38; 0x4a; 0x9c; 0x0c; 0x88; 0xe4; 0x05; 0xa0; 0x6c; 0x27; 0xdc; 0xf4; 0x9a; 0xda; 0x62; 0xeb; 0x2b];
  [0xb0; 0xe2; 0x0b; 0x6e; 0x31; 0x16; 0x64; 0x02; 0x86; 0xed; 0x3a; 0x87; 0xa5; 0x71; 0x30; 0x79; 0xb2; 0x1f; 0x51; 0x89];
  [0x9b; 0x75; 0x2e; 0x45; 0x57; 0x3d; 0x4b; 0x39; 0xf4; 0xdb; 0xd3; 0x32; 0x3c; 0xab; 0x82; 0xbf; 0x63; 0x32; 0x6b; 0xfb]
].

Example test_vectors : map mbedtls_ripemd160 ripemd160_test_input = map Done ripemd160_test_md.
Proof. vm_compute. reflexivity. Qed.

(** ** Specification *)

(** The words of a round, and the shifts by word. *)
Definition rho : list nat := [7; 4; 13; 1; 10; 6; 15; 3; 12; 0; 9; 5; 2; 14; 11; 8]%nat.
Definition pi_ (i : nat) : nat := ((9 * i + 5) mod 16)%nat.
Definition round_words (right : bool) (k : nat) : list nat :=
  Nat.iter k (map (fun i => nth i rho 0%nat)) (map (fun i => if right then pi_ i else i) (seq 0 16)).
Definition shifts : list (list Z) := [
  [11; 14; 15; 12; 5; 8; 7; 9; 11; 13; 14; 15; 6; 7; 9; 8];
  [12; 13; 11; 15; 6; 9; 9; 7; 12; 15; 11; 13; 7; 8; 7; 7];
  [13; 15; 14; 11; 7; 7; 6; 8; 13; 14; 13; 12; 5; 5; 6; 9];
  [14; 11; 12; 14; 8; 6; 5; 5; 15; 12; 15; 14; 9; 9; 8; 6];
  [15; 12; 13; 13; 9; 5; 8; 6; 14; 11; 12; 11; 8; 6; 5; 5]
].

(** One step: the variables move on by one place. *)
Definition ref_step (f : Z -> Z -> Z -> Z) (k x s : Z) (v : list Z) : list Z :=
  match v with
  | [a; b; c; d; e] => [e; u32 (S_ (u32 (a + (f b c d + x + k))) s + e); b; S_ c 10; d]
  | _ => v
  end.

Definition ref_round (X : list Z) (right : bool) (k : nat) (f : Z -> Z -> Z -> Z) (c : Z) (v : list Z) : list Z :=
  fold_left (fun v w => ref_step f c (nth w X 0) (nth w (nth k shifts []) 0) v) (round_words right k) v.

Definition ref_compress (h : list Z) (data : bytes) : list Z :=
  let X := map (fun i => of_le (take 4 (drop (4 * i) data))) (seq 0 16) in
  let l := ref_round X false 4 F5 0xA953FD4E (ref_round X false 3 F4 0x8F1BBCDC (ref_round X false 2 F3 0x6ED9EBA1
             (ref_round X false 1 F2 0x5A827999 (ref_round X false 0 F1 0 h)))) in
  let r := ref_round X true 4 F1 0 (ref_round X true 3 F2 0x7A6D76E9 (ref_round X true 2 F3 0x6D703EF3
             (ref_round X true 1 F4 0x5C4DD124 (ref_round X true 0 F5 0x50A28BE6 h)))) in
  map (fun i => u32 (nth ((i + 1) mod 5) h 0 + nth ((i + 2) mod 5) l 0 + nth ((i + 3) mod 5) r 0)) (seq 0 5).

Definition ripemd160_spec (m : bytes) : bytes :=
  let n := Z.of_nat (length m) in
  concat (map (le_bytes 4)
    (hash_all 64 ref_compress ripemd160_H0 (m ++ 0x80 :: replicate (Z.to_nat ((55 - n) mod 64)) 0 ++ le_bytes 8 (8 * n)))).

(** ** The unrolled lines *)

Definition view (v : list nat) (regs : list Z) : list Z := map (fun i => nth i regs 0) v.
Definition next_order (v : list nat) : list nat := match v with [a; b; c; d; e] => [e; a; b; c; d] | _ => v end.
Definition orders : list (list nat) := [ABCDE; EABCD; DEABC; CDEAB; BCDEA].

Lemma P_step X f k regs v r s : length regs = 5%nat -> In v orders ->
  length (P_ X f k regs v r s) = 5%nat /\
  view (next_order v) (P_ X f k regs v r s) = ref_step f k (nth (Z.to_nat r) X 0) s (view v regs).
Proof.
  intros Hl Hv. destruct regs as [|x0 [|x1 [|x2 [|x3 [|x4 [|]]]]]]; try done.
  destruct Hv as [<- | [<- | [<- | [<- | [<- | []]]]]]; split; reflexivity.
Qed.

Lemma next_order_in v : In v orders -> In (next_order v) orders.
Proof. intros [<- | [<- | [<- | [<- | [<- | []]]]]]; cbn; auto 6. Qed.

(** The lines of a round name the variables in turn, and have the words and shifts of
    the specification. *)
Fixpoint check_lines (v : list nat) (sh : list Z) (ls : list line) (ws wps : list nat) : bool :=
  match ls, ws, wps with
  | [], [], [] => true
  | (n, r, s, rp, sp) :: ls, w :: ws, wp :: wps =>
      bool_decide (n = v /\ r = Z.of_nat w /\ s = nth w sh 0 /\ rp = Z.of_nat wp /\ sp = nth wp sh 0) && check_lines (next_order v) sh ls ws wps
  | _, _, _ => false
  end.

Lemma lines_ok F Fp K Kp X sh ls : forall v ws wps L R,
  check_lines v sh ls ws wps = true -> In v orders -> length L = 5%nat -> length R = 5%nat ->
  let r := fold_left (P2 F Fp K Kp X) ls (L, R) in
  let w := Nat.iter (length ls) next_order v in
  length (fst r) = 5%nat /\ length (snd r) = 5%nat /\
  view w (fst r) = fold_left (fun v w => ref_step F K (nth w X 0) (nth w sh 0) v) ws (view v L) /\
  view w (snd r) = fold_left (fun v w => ref_step Fp Kp (nth w X 0) (nth w sh 0) v) wps (view v R).
Proof.
  induction ls as [|[[[[n r] s] rp] sp] ls IH]; intros v ws wps L R Hc Hv HL HR.
  - destruct ws, wps; done.
  - destruct ws as [|w ws]; [done |]. destruct wps as [|wp wps]; [done |]. cbn [check_lines] in Hc.
    apply andb_prop in Hc as [Hc1 Hc2]. apply bool_decide_eq_true in Hc1 as (-> & -> & -> & -> & ->).
    destruct (P_step X F K L v (Z.of_nat w) (nth w sh 0) HL Hv) as [HL' HVL]. destruct (P_step X Fp Kp R v (Z.of_nat wp) (nth wp sh 0) HR Hv) as [HR' HVR].
    cbn [fold_left P2 fst snd length]. rewrite Nat.iter_succ_r. rewrite Nat2Z.id in HVL, HVR. rewrite <- HVL, <- HVR.
    apply IH; [done | by apply next_order_in | done | done].
Qed.

(** The four bytes of a word. *)
Lemma get_uint32 data i : is_bytes data -> (i + 4 <= length data)%nat -> GET_UINT32_LE data i = of_le (take 4 (drop i data)).
Proof.
  intros Hb Hl. unfold GET_UINT32_LE.
  assert (forall k, (k < 4)%nat -> nth (i + k) data 0 = nth k (drop i data) 0 /\ is_byte (nth k (drop i data) 0)) as Hn.
  { intros k Hk. rewrite nth_skipn. split; [done |]. destruct (nth_in_or_default (i + k) data 0) as [Hi | ->]; [| done].
    unfold is_bytes in Hb. rewrite List.Forall_forall in Hb. by apply Hb. }
  destruct (Hn 0%nat) as [E0 B0], (Hn 1%nat) as [E1 B1], (Hn 2%nat) as [E2 B2], (Hn 3%nat) as [E3 B3]; [lia.. |].
  rewrite Nat.add_0_r in E0. rewrite E0, E1, E2, E3. assert (4 <= length (drop i data))%nat as Hd by (rewrite length_drop; lia).
  destruct (drop i data) as [|a [|b [|c [|d rest]]]]; cbn [length nth take of_le] in *; try lia.
  rewrite (Z.lor_comm a), lor_add by (done || lia). rewrite (Z.lor_comm _ (Z.shiftl c 16)), lor_add by (lia || rlia).
  rewrite (Z.lor_comm _ (Z.shiftl d 24)), lor_add by (lia || rlia). rewrite take_0. cbn [of_le]. lia.
Qed.

Lemma process_ref h data : length h = 5%nat -> is_bytes data -> length data = 64%nat -> mbedtls_ripemd160_process h data = ref_compress h data.
Proof.
  intros Hh Hb Hl. unfold mbedtls_ripemd160_process, ref_compress.
  assert (map (fun i => GET_UINT32_LE data (4 * i)) (seq 0 16) = map (fun i => of_le (take 4 (drop (4 * i) data))) (seq 0 16)) as ->.
  { apply map_ext_in. intros i Hi. apply in_seq in Hi. apply get_uint32; [done | lia]. }
  set (X := map _ _). cbv zeta. unfold ref_round.
  destruct (lines_ok F1 F5 0 0x50A28BE6 X (nth 0 shifts []) lines1 ABCDE (round_words false 0) (round_words true 0) h h) as (A1 & B1 & C1 & D1); [by vm_compute | cbn; auto | done | done |].
  destruct (fold_left _ lines1 _) as [L1 R1]. cbn [fst snd] in *.
  destruct (lines_ok F2 F4 0x5A827999 0x5C4DD124 X (nth 1 shifts []) lines2 EABCD (round_words false 1) (round_words true 1) L1 R1) as (A2 & B2 & C2 & D2); [by vm_compute | cbn; auto | done | done |].
  destruct (fold_left _ lines2 _) as [L2 R2]. cbn [fst snd] in *.
  destruct (lines_ok F3 F3 0x6ED9EBA1 0x6D703EF3 X (nth 2 shifts []) lines3 DEABC (round_words false 2) (round_words true 2) L2 R2) as (A3 & B3 & C3 & D3); [by vm_compute | cbn; auto | done | done |].
  destruct (fold_left _ lines3 _) as [L3 R3]. cbn [fst snd] in *.
  destruct (lines_ok F4 F2 0x8F1BBCDC 0x7A6D76E9 X (nth 3 shifts []) lines4 CDEAB (round_words false 3) (round_words true 3) L3 R3) as (A4 & B4 & C4 & D4); [by vm_compute | cbn; auto | done | done |].
  destruct (fold_left _ lines4 _) as [L4 R4]. cbn [fst snd] in *.
  destruct (lines_ok F5 F1 0xA953FD4E 0 X (nth 4 shifts []) lines5 BCDEA (round_words false 4) (round_words true 4) L4 R4) as (A5 & B5 & C5 & D5); [by vm_compute | cbn; auto 6 | done | done |].
  destruct (fold_left _ lines5 _) as [L5 R5]. cbn [fst snd] in *.
  assert (forall l, length l = 5%nat -> view ABCDE l = l) as Hv by (intros l E; destruct l as [|x0 [|x1 [|x2 [|x3 [|x4 [|]]]]]]; done).
  rewrite (Hv h Hh) in C1, D1. change (Nat.iter (length lines1) next_order ABCDE) with EABCD in *. change (Nat.iter (length lines2) next_order EABCD) with DEABC in *.
  change (Nat.iter (length lines3) next_order DEABC) with CDEAB in *. change (Nat.iter (length lines4) next_order CDEAB) with BCDEA in *.
  change (Nat.iter (length lines5) next_order BCDEA) with ABCDE in *. rewrite (Hv L5 A5) in C5. rewrite (Hv R5 B5) in D5.
  rewrite <- C1, <- C2, <- C3, <- C4, <- C5, <- D1, <- D2, <- D3, <- D4, <- D5. reflexivity.
Qed.

(** ** The context absorbs the message *)

Abbreviation compress := mbedtls_ripemd160_process.
Abbreviation absorb64 := (absorb 64 compress).

Lemma absorb_short m : forall h t, (length t + length m < 64)%nat -> fold_left absorb64 m (h, t) = (h, t ++ m).
Proof.
  induction m as [|b m IH]; intros h t Hl; cbn [fold_left length] in *; [by rewrite app_nil_r |].
  unfold absorb at 2. cbn [fst snd]. rewrite decide_False by (rewrite length_app; cbn; lia). rewrite IH by (rewrite length_app; cbn; lia). by rewrite <- app_assoc.
Qed.

Lemma absorb_block m h t : m <> [] -> (length t + length m = 64)%nat -> fold_left absorb64 m (h, t) = (compress h (t ++ m), []).
Proof.
  intros Hm Hl. destruct m as [|b m _] using rev_ind; [done |]. rewrite length_app in Hl. cbn [length] in Hl.
  rewrite fold_left_app, absorb_short by lia. cbn [fold_left]. unfold absorb. cbn [fst snd].
  rewrite decide_True by (rewrite !length_app; cbn; lia). by rewrite <- app_assoc.
Qed.

Lemma update_loop_ok fuel : forall h m, (length m <= fuel)%nat ->
  let r := update_loop fuel h m in (length (snd r) < 64)%nat /\ fold_left absorb64 m (h, []) = r.
Proof.
  induction fuel as [|fuel IH]; intros h m Hm; cbn [update_loop].
  - destruct m; [split; [cbn; lia | done] | cbn in Hm; lia].
  - case_decide as Hc; [| split; [cbn [snd]; lia | by rewrite absorb_short by (cbn [length]; lia)]].
    assert (fold_left absorb64 m (h, []) = fold_left absorb64 (drop 64 m) (compress h (take 64 m), [])) as ->; [| apply IH; rewrite length_drop; lia].
    rewrite <- (take_drop 64 m) at 1. rewrite fold_left_app, absorb_block; [done | | rewrite length_take; cbn [length]; lia].
    destruct m; [cbn in Hc; lia | done].
Qed.

(** The context after [n] bytes. *)
Definition holds (ctx : ripemd160_context) (s : list Z * bytes) (n : Z) : Prop :=
  state ctx = fst s /\ length (buffer ctx) = 64%nat /\ take (length (snd s)) (buffer ctx) = snd s /\ (length (snd s) < 64)%nat /\
  0 <= n /\ Z.of_nat (length (snd s)) = n mod 64 /\
  is_uint 32 (fst (total ctx)) /\ is_uint 32 (snd (total ctx)) /\ fst (total ctx) + 2 ^ 32 * snd (total ctx) = n mod 2 ^ 64.

Lemma holds_left ctx s n : holds ctx s n -> Z.land (fst (total ctx)) 0x3F = n mod 64.
Proof.
  intros (_ & _ & _ & _ & Hn & _ & H0 & _ & He). change 63 with (Z.ones 6). rewrite Z.land_ones by lia. change (2 ^ 6) with 64.
  transitivity ((fst (total ctx) + 2 ^ 32 * snd (total ctx)) mod 64).
  - replace (2 ^ 32 * snd (total ctx)) with (67108864 * snd (total ctx) * 64) by lia. by rewrite Z.mod_add by lia.
  - rewrite He. change (2 ^ 64) with (64 * 288230376151711744). rewrite Z.rem_mul_r by lia. rewrite Z.mul_comm, Z.mod_add by lia. by apply Z.mod_mod.
Qed.

(** The bytes behind the partial block are stored behind it. *)
Lemma store_rest buf t r : length buf = 64%nat -> take (length t) buf = t -> (length t + length r < 64)%nat ->
  exists buf', (if decide (0 < length r)%nat then mem_write buf (length t) r else Done buf) = Done buf' /\
    length buf' = 64%nat /\ take (length (t ++ r)) buf' = t ++ r.
Proof.
  intros Hb Ht Hl. case_decide as Hr.
  - rewrite mem_write_ok by lia. eexists. split; [done |]. rewrite Ht. split; [llia |]. rewrite app_assoc, take_app_length'; done.
  - assert (r = []) as -> by (destruct r; [done | cbn in Hr; lia]). exists buf. by rewrite app_nil_r.
Qed.

(** The message length in its two words. *)
Lemma count_bytes t0 t1 n k : is_uint 32 t0 -> is_uint 32 t1 -> t0 + 2 ^ 32 * t1 = n mod 2 ^ 64 -> 0 < k < 2 ^ 32 ->
  let t0' := Z.land (u32 (t0 + u32 k)) 0xFFFFFFFF in
  let t1' := if t0' <? u32 k then u32 (t1 + 1) else t1 in
  is_uint 32 t0' /\ is_uint 32 t1' /\ t0' + 2 ^ 32 * t1' = (n + k) mod 2 ^ 64.
Proof.
  intros H0 H1 He Hk. rewrite (wrap_small 32 k) by (split; lia). change 0xFFFFFFFF with (Z.ones 32). rewrite Z.land_ones by lia. cbv zeta.
  fold (u32 (u32 (t0 + k))). rewrite wrap_wrap. assert ((n + k) mod 2 ^ 64 = (n mod 2 ^ 64 + k) mod 2 ^ 64) as -> by (by rewrite Zplus_mod_idemp_l).
  rewrite <- He. clear He n. unfold wrap, is_uint in *. change (2 ^ 64) with (2 ^ 32 * 2 ^ 32).
  destruct (Z.lt_ge_cases (t0 + k) (2 ^ 32)) as [Hc|Hc].
  - rewrite (Z.mod_small (t0 + k)) by lia. replace (t0 + k <? k) with false by (symmetry; apply Z.ltb_ge; lia).
    rewrite Z.mod_small by nia. lia.
  - replace ((t0 + k) mod 2 ^ 32) with (t0 + k - 2 ^ 32) by (rewrite <- (Z.mod_add (t0 + k) (-1)), Z.mod_small by lia; lia).
    replace (t0 + k - 2 ^ 32 <? k) with true by (symmetry; apply Z.ltb_lt; lia).
    destruct (Z.eq_dec t1 (2 ^ 32 - 1)) as [->|Hn].
    + replace ((2 ^ 32 - 1 + 1) mod 2 ^ 32) with 0 by done.
      replace (t0 + 2 ^ 32 * (2 ^ 32 - 1) + k) with (t0 + k - 2 ^ 32 + 1 * (2 ^ 32 * 2 ^ 32)) by lia. rewrite Z.mod_add by lia.
      rewrite Z.mod_small by lia. lia.
    + rewrite (Z.mod_small (t1 + 1)) by lia. rewrite Z.mod_small by nia. lia.
Qed.

Lemma update_holds ctx s n m : holds ctx s n -> Z.of_nat (length m) < 2 ^ 32 ->
  exists ctx', mbedtls_ripemd160_update ctx m = Done ctx' /\ holds ctx' (fold_left absorb64 m s) (n + Z.of_nat (length m)).
Proof.
  intros Hh Hm. pose proof (holds_left _ _ _ Hh) as Hleft. destruct Hh as (Hst & Hb & Ht & Hl & Hn & Hmod & H0 & H1 & He). destruct s as [h t]. cbn [fst snd] in *.
  unfold mbedtls_ripemd160_update. case_decide as Hz.
  { destruct m; [| done]. exists ctx. split; [done |]. cbn [fold_left length Z.of_nat]. rewrite Z.add_0_r. unfold holds. cbn [fst snd]. by split_and!. }
  destruct (absorb_all 64 4 compress ltac:(auto) m h t Hl) as (Hal & Ham & _). cbv zeta in Hal, Ham.
  cbv zeta. rewrite Hleft, <- Hmod, Nat2Z.id.
  assert (exists st buf input lft t', (if decide (length t <> 0 /\ 64 - length t <= length m)%nat then
             buf <-! mem_write (buffer ctx) (length t) (take (64 - length t) m);
             Done (compress (state ctx) buf, buf, drop (64 - length t) m, 0%nat)
           else Done (state ctx, buffer ctx, m, length t)) = Done (st, buf, input, lft) /\ length buf = 64%nat /\ lft = length t' /\ take (length t') buf = t' /\
      (t' = [] \/ (length t' + length input < 64)%nat) /\
      fold_left absorb64 m (h, t) = fold_left absorb64 input (st, t')) as (st & buf & input & lft & t' & -> & Hb' & -> & Ht' & Hfit & Hfold).
  { case_decide as Hc.
    - rewrite mem_write_ok by llia. cbn [obind]. rewrite Ht, (drop_ge (buffer ctx)), app_nil_r by llia.
      eexists _, _, _, _, []. split; [done |]. split; [llia |]. split; [done |]. split; [done |]. split; [by left |].
      rewrite <- (take_drop (64 - length t) m) at 1. rewrite fold_left_app, absorb_block; [by rewrite Hst | | llia].
      destruct m; [done |]. destruct (64 - length t)%nat eqn:Ek; [lia | done].
    - eexists _, _, _, _, t. split; [done |]. split; [done |]. split; [done |]. split; [done |]. rewrite Hst. split; [| done].
      destruct t; [by left | right]. cbn [length] in *. lia. }
  cbn [obind]. assert (exists st' r, update_loop (length input) st input = (st', r) /\ fold_left absorb64 input (st, t') = (st', t' ++ r) /\ (length t' + length r < 64)%nat)
    as (st' & r & -> & Hfold' & Hlt).
  { destruct Hfit as [-> | Hfit].
    - destruct (update_loop_ok (length input) st input ltac:(done)) as [Hr1 Hr2]. destruct (update_loop (length input) st input) as [st' r]. cbn [snd] in Hr1.
      exists st', r. split; [done |]. split; [done | cbn [length]; lia].
    - exists st, input. split; [| split; [by apply absorb_short | done]].
      destruct (length input) eqn:El; [done |]. cbn [update_loop]. rewrite decide_False by lia. done. }
  destruct (store_rest buf t' r Hb' Ht' Hlt) as (buf' & -> & Hb'' & Ht''). cbn [obind]. eexists. split; [done |].
  rewrite Hfold, Hfold' in *. unfold holds. cbn [fst snd state buffer total] in *.
  pose proof (count_bytes _ _ _ (Z.of_nat (length m)) H0 H1 He ltac:(lia)) as (C0 & C1 & C2). cbv zeta in C0, C1, C2.
  split_and!; try done; [lia |]. rewrite Ham, Hmod. by rewrite Zplus_mod_idemp_l.
Qed.

(** ** The digest *)

Lemma put_uint32 n : PUT_UINT32_LE n = le_bytes 4 n.
Proof. rewrite le_bytes_4. unfold PUT_UINT32_LE. change 0xFF with (Z.ones 8). by rewrite !Z.land_ones by lia. Qed.

Lemma le_bytes_mod n : forall z, le_bytes n (z mod 2 ^ (8 * Z.of_nat n)) = le_bytes n z.
Proof.
  induction n as [|n IH]; intros z; [done |]. cbn [le_bytes]. replace (8 * Z.of_nat (S n)) with (8 + 8 * Z.of_nat n) by lia.
  rewrite Z.pow_add_r by lia. change (2 ^ 8) with 256. assert (0 < 2 ^ (8 * Z.of_nat n)) by (apply Z.pow_pos_nonneg; lia).
  rewrite Z.rem_mul_r by lia. rewrite (Z.mul_comm 256), Z.div_add, (Z.div_small (z mod 256)) by (lia || apply Z.mod_pos_bound; lia).
  rewrite Z.add_0_l, IH. f_equal. unfold wrap. change (2 ^ 8) with 256. rewrite Z.mod_add by lia. by apply Z.mod_mod.
Qed.

(** The length field. *)
Lemma msglen_ok t0 t1 n : is_uint 32 t0 -> is_uint 32 t1 -> t0 + 2 ^ 32 * t1 = n mod 2 ^ 64 ->
  PUT_UINT32_LE (u32 (Z.shiftl t0 3)) ++ PUT_UINT32_LE (Z.lor (Z.shiftr t0 29) (u32 (Z.shiftl t1 3))) = le_bytes 8 (8 * n).
Proof.
  intros [H0 H0'] [H1 H1'] He. rewrite !put_uint32. set (high := Z.lor _ _). assert (high = (t1 mod 2 ^ 29) * 8 + t0 / 2 ^ 29) as Eh.
  { subst high. rewrite Z.lor_comm. unfold wrap. rewrite !Z.shiftl_mul_pow2, Z.shiftr_div_pow2 by lia. change (2 ^ 32) with (2 ^ 29 * 2 ^ 3).
    rewrite Z.mul_mod_distr_r by lia. rewrite <- Z.shiftl_mul_pow2 by lia. rewrite lor_add; [done | lia |].
    split; [apply Z.div_pos; lia | apply Z.div_lt_upper_bound; lia]. }
  change 8%nat with (4 + 4)%nat. rewrite <- (le_bytes_app 4 4) by (apply wrap_range; lia).
  rewrite <- (le_bytes_mod (4 + 4) (8 * n)), <- (le_bytes_mod (4 + 4) (u32 _ + _)). f_equal.
  change (8 * Z.of_nat (4 + 4)) with 64. change (8 * Z.of_nat 4) with 32. rewrite <- (Z.mul_mod_idemp_r 8 n), <- He by lia.
  rewrite Eh. unfold wrap. rewrite Z.shiftl_mul_pow2 by lia. change (2 ^ 3) with 8. change (2 ^ 32) with 4294967296 in *. change (2 ^ 64) with 18446744073709551616.
  change (2 ^ 29) with 536870912. mlia.
Qed.

Lemma take_padding k : (1 <= k <= 64)%nat -> take k ripemd160_padding = 0x80 :: replicate (k - 1) 0.
Proof. intros Hk. destruct k as [|k]; [lia |]. unfold ripemd160_padding. cbn [take]. rewrite take_replicate. do 2 f_equal. lia. Qed.

Lemma absorb_words m : forall h t, length h = 5%nat -> length (fst (fold_left absorb64 m (h, t))) = 5%nat.
Proof. induction m as [|b m IH]; intros h t Hh; [done |]. cbn [fold_left]. unfold absorb at 2. cbn [fst snd]. case_decide; by apply IH. Qed.

Lemma finish_ok ctx m : holds ctx (fold_left absorb64 m (ripemd160_H0, [])) (Z.of_nat (length m)) ->
  mbedtls_ripemd160_finish ctx = Done (concat (map (le_bytes 4)
    (hash_all 64 compress ripemd160_H0 (m ++ 0x80 :: replicate (Z.to_nat ((55 - Z.of_nat (length m)) mod 64)) 0 ++ le_bytes 8 (8 * Z.of_nat (length m)))))).
Proof.
  intros Hh. pose proof (holds_left _ _ _ Hh) as Hleft. pose proof Hh as (_ & _ & _ & _ & _ & _ & H0 & H1 & He).
  unfold mbedtls_ripemd160_finish. destruct (total ctx) as [t0 t1]. cbn [fst snd] in *. rewrite Hleft, (msglen_ok _ _ _ H0 H1 He).
  set (n := Z.of_nat (length m)) in *. set (z := Z.to_nat ((55 - n) mod 64)).
  assert (Z.to_nat (if n mod 64 <? 56 then 56 - n mod 64 else 120 - n mod 64) = S z) as ->.
  { subst z. case_cmp; mlia. }
  assert (z <= 63)%nat as Hz by (subst z; mlia).
  rewrite take_padding, Nat.sub_succ, Nat.sub_0_r by lia. set (pad := 128 :: replicate z 0).
  assert (length pad = S z) as Hp by (subst pad; cbn [length]; by rewrite length_replicate).
  destruct (update_holds _ _ _ pad Hh) as (c1 & -> & Hh1); [lia |]. cbn [obind].
  destruct (update_holds _ _ _ (le_bytes 8 (8 * n)) Hh1) as (c2 & -> & Hh2); [rewrite length_le_bytes; lia |]. cbn [obind].
  rewrite <- !fold_left_app in Hh2. destruct (absorb_all 64 4 compress ltac:(auto) (m ++ pad ++ le_bytes 8 (8 * n)) ripemd160_H0 []) as (_ & Hlen & Hall); [cbn; lia |].
  pose proof (absorb_words (m ++ pad ++ le_bytes 8 (8 * n)) ripemd160_H0 [] eq_refl) as Hw. cbv zeta in Hlen, Hall. destruct (fold_left absorb64 (m ++ pad ++ le_bytes 8 (8 * n)) (ripemd160_H0, [])) as [h t]. cbn [fst snd] in *.
  assert (t = []) as ->.
  { assert (length t = 0%nat) as E; [| by destruct t]. rewrite !length_app, Hp, length_le_bytes in Hlen. cbn [length] in Hlen. subst z. fold n in Hlen. revert Hlen. unfold n. mlia. }
  specialize (Hall []). cbn [app] in Hall. rewrite app_nil_r, (hash_all_short 64 4 compress ltac:(auto) h []) in Hall by (cbn; lia).
  replace (m ++ 128 :: replicate z 0 ++ le_bytes 8 (8 * n)) with (m ++ pad ++ le_bytes 8 (8 * n)) by done. rewrite Hall.
  destruct Hh2 as (-> & _). cbn [fst].
  destruct h as [|x0 [|x1 [|x2 [|x3 [|x4 [|]]]]]]; try done. cbn [seq map nth]. by rewrite !put_uint32.
Qed.

Lemma update_all_holds chunks : forall ctx s n, holds ctx s n -> Forall (fun c => Z.of_nat (length c) < 2 ^ 32) chunks ->
  exists ctx', update_all ctx chunks = Done ctx' /\ holds ctx' (fold_left absorb64 (concat chunks) s) (n + Z.of_nat (length (concat chunks))).
Proof.
  induction chunks as [|c chunks IH]; intros ctx s n Hh Hc.
  - exists ctx. cbn. by rewrite Z.add_0_r.
  - apply Forall_cons in Hc as [Hc Hcs]. cbn [update_all concat]. destruct (update_holds _ _ _ c Hh Hc) as (c1 & -> & H1). cbn [obind].
    destruct (IH _ _ _ H1 Hcs) as (c2 & E2 & H2). exists c2. rewrite fold_left_app, length_app, Nat2Z.inj_add, Z.add_assoc. done.
Qed.

Lemma starts_holds ctx : length (buffer ctx) = 64%nat -> holds (mbedtls_ripemd160_starts ctx) (ripemd160_H0, []) 0.
Proof. intros Hb. unfold holds, mbedtls_ripemd160_starts. cbn [state buffer total fst snd length]. unfold is_uint. split_and!; (done || lia). Qed.

(** On bytes the blocks are those of the specification. *)
Lemma hash_ref fuel : forall h l, length h = 5%nat -> is_bytes l -> hash_blocks 64 compress fuel h l = hash_blocks 64 ref_compress fuel h l.
Proof.
  induction fuel as [|fuel IH]; intros h l Hh Hl; [done |]. cbn [hash_blocks]. case_decide; [done |].
  rewrite process_ref; [| done | by apply Forall_take | llia]. apply IH; [done | by apply Forall_drop].
Qed.

Lemma stream_ref ctx chunks : length (buffer ctx) = 64%nat -> Forall (fun c => Z.of_nat (length c) < 2 ^ 32) chunks -> is_bytes (concat chunks) ->
  (c <-! update_all (mbedtls_ripemd160_starts ctx) chunks; mbedtls_ripemd160_finish c) = Done (ripemd160_spec (concat chunks)).
Proof.
  intros Hb Hc Hbytes. destruct (update_all_holds chunks _ _ _ (starts_holds ctx Hb) Hc) as (c & -> & Hh). cbn [obind]. rewrite Z.add_0_l in Hh.
  rewrite (finish_ok _ _ Hh). unfold ripemd160_spec. cbv zeta. do 3 f_equal. unfold hash_all. apply hash_ref; [done |].
  apply is_bytes_app. split; [done |]. constructor; [done |]. apply is_bytes_app. split; [by apply Forall_replicate | apply le_bytes_bytes].
Qed.

Lemma ripemd160_total data : is_bytes data -> Z.of_nat (length data) < 2 ^ 32 -> mbedtls_ripemd160 data = Done (ripemd160_spec data).
Proof.
  intros Hd Hl. pose proof (stream_ref mbedtls_ripemd160_init [data] eq_refl) as Hs. cbn [concat update_all] in Hs. rewrite app_nil_r in Hs. unfold mbedtls_ripemd160.
  rewrite <- Hs; [| constructor; [lia | constructor] | done]. by destruct (mbedtls_ripemd160_update _ data).
Qed.

(** C33: the digest equals RIPEMD-160 as its designers define it, for a message given in
    any pieces of less than 2^32 bytes and for one call on bytes that are not
    empty; for no bytes the library function gives zeros, which is not the digest
    of the empty message. *)
Theorem sh_ripemd160_correct ctx chunks data : length (buffer ctx) = 64%nat ->
  Forall (fun c => is_bytes c /\ Z.of_nat (length c) < 2 ^ 32) chunks -> is_bytes data -> 0 < Z.of_nat (length data) < 2 ^ 32 ->
  (c <-! update_all (mbedtls_ripemd160_starts ctx) chunks; mbedtls_ripemd160_finish c) = Done (ripemd160_spec (concat chunks)) /\
  sh_ripemd160 (Some data) = Done (ripemd160_spec data) /\
  sh_ripemd160 (Some []) = Done (replicate 20 0) /\ ripemd160_spec [] <> replicate 20 0.
Proof.
  intros Hb Hc Hd Hl. split; [| split; [| split; [done | by vm_compute]]].
  - apply stream_ref; [done | by eapply Forall_impl; [exact Hc |]; intros c [_ H] |].
    clear -Hc. induction Hc as [|c chunks [Hb _] _ IH]; [constructor | by apply is_bytes_app].
  - unfold sh_ripemd160. rewrite decide_False by lia.
    by apply ripemd160_total; [| lia].
Qed.

Lemma sh_ripemd160_correct_witness :
  (c <-! update_all (mbedtls_ripemd160_starts mbedtls_ripemd160_init) [[97; 98]; [99]]; mbedtls_ripemd160_finish c) = Done (ripemd160_spec (concat [[97; 98]; [99]])) /\
  sh_ripemd160 (Some [97; 98; 99]) = Done (ripemd160_spec [97; 98; 99]) /\
  sh_ripemd160 (Some []) = Done (replicate 20 0) /\ ripemd160_spec [] <> replicate 20 0.
Proof.
  apply (sh_ripemd160_correct mbedtls_ripemd160_init [[97; 98]; [99]] [97; 98; 99]); [reflexivity | | byte_literal | cbn; lia].
  repeat (apply List.Forall_cons; [split; [byte_literal | cbn; lia] |]). apply List.Forall_nil.
Defined.
