(* ===== verification/ShShr.v ===== *)
(** * The SHR digests and the keys made with them

    Models [share-lib/mem/shmem_alg_shr.c]: keys of a RIPEMD-160 digest with their
    text, the library's own 224-bit digest as a context that absorbs a message in
    pieces, its keyed form, the keys made with it, and the password signatures of
    [shcr224_bin].  The functions that put salts and signatures into text go
    through [shmem_alg.c] and are not modelled.

    [block] in the write loop is eight bytes on the stack, [buff] the eight bytes
    of the context; a copy past either is a [Fault]. *)

From Stdlib Require Import ZArith Lia String.
From stdpp Require Import base numbers list.
From S2P Require Import Prelude ShStream ShSha ShCrc ShKey ShCrypto ShHmac ShRipemd.

Open Scope Z_scope.

Definition SHALG_160BIT : Z := 2.
Definition SHALG_SHR : Z := 256.
Definition SHALG_SHR160 : Z := Z.lor SHALG_SHR SHALG_160BIT.
Definition SHALG_SHR224 : Z := Z.lor SHALG_SHR SHALG_224BIT.
Definition SHERR_ILSEQ : Z := -84.

(** ** Keys of a 160-bit digest *)

Definition key_crc16 (key : shkey_t) : Z := u16 (Z.land (shkey_crc (Some (mk_key (alg key) 0 (code key)))) 0xFFFF).
Definition set_key_crc (key : shkey_t) : shkey_t := mk_key (alg key) (key_crc16 key) (code key).

(** The words of the 20 bytes, in front of the two words [calloc] cleared. *)
Definition shkey_shr160 (raw : bytes) : shkey_t :=
  let key := shkey_alg_set key_blank SHALG_SHR160 in
  set_key_crc (mk_key (alg key) (crc key) (map (fun i => of_le (take 4 (drop (4 * i) raw))) (seq 0 5) ++ drop 5 (code key))).

(** The content of the static key. *)
Definition ashkey_shr160 (raw : bytes) : shkey_t :=
  let key := mk_key 0 0 (map (fun i => of_le (take 4 (drop (4 * i) raw))) (seq 0 5) ++ replicate 2 0) in
  set_key_crc (shkey_alg_set key SHALG_SHR160).

(** [memset] clears as many bytes as a [size_t] has. *)
Definition sh160_key (in_key : shkey_t) (u160 : bytes) : outcome bytes :=
  u160 <-! mem_write u160 0 (replicate 8 0);
  if negb (shkey_alg (Some in_key) =? SHALG_SHR160) then Done u160
  else mem_write u160 0 (concat (map (le_bytes 4) (take 5 (code in_key)))).

Definition sha256_zero : Sha256.sh_sha256_t := mk_sha (replicate 8 0) 0 0 0 (replicate 64 0) false 0.

(** [ret_key] is given; the result is its new content. *)
Definition shkey_shr160_hash (data : option bytes) : outcome shkey_t :=
  let ctx := Sha256.sh_sha256_init sha256_zero in
  ctx <-! (match data with
           | Some (b :: l) => r <-! Sha256.sh_sha256_write ctx (b :: l); Done (fst r)
           | _ => Done ctx
           end);
  r <-! Sha256.sh_sha256_result ctx;
  d <-! sh_ripemd160 (Some (snd r));
  Done (ashkey_shr160 d).

Definition shkey_shr160_ver (key : option shkey_t) : Z :=
  match key with
  | None => SHERR_INVAL
  | Some k =>
      if negb (shkey_alg (Some k) =? SHALG_SHR160) then SHERR_INVAL
      else if negb (key_crc16 k =? crc k) then SHERR_ILSEQ
      else 0
  end.

(** [strncpy(dst, src, n)]: at most [n] characters, filled up with NUL. *)
Definition strncpy (n : nat) (src : bytes) : bytes := let s := take n (cstring src) in s ++ replicate (n - length s) 0.

Definition shkey_shr160_gen (key_str : option bytes) : option shkey_t :=
  let buf := match key_str with Some s => strncpy 30 s ++ replicate 12 46 | None => replicate 42 46 end in
  match shkey_gen (Some (buf ++ replicate 214 0)) with
  | None => None
  | Some k => Some (set_key_crc (shkey_alg_set k SHALG_SHR160))
  end.

Definition shkey_shr160_print (key : shkey_t) : bytes := cstring (strncpy 30 (shkey_print (Some key))).

(** ** The 224-bit digest *)

Definition SHR224_SIZE : nat := 28.
Definition SHR224_BLOCKS : nat := 12.
Definition SHMEM8_MAGIC : Z := Z.land (Z.shiftr SHMEM_MAGIC 16) 0xFF.
Definition SHR224_IPAD_MAGIC : Z := u8 SHMEM8_MAGIC.
Definition SHR224_OPAD_MAGIC : Z := u8 (Z.lnot SHMEM8_MAGIC).

Record shr224_t : Type := mk_shr {
  data : bytes; data_idx : Z; shr_crc_a : Z; shr_crc_b : Z;
  buff : bytes; buff_len : nat; suff : bytes; suff_len : nat
}.

Definition set_buff (b : bytes) (n : nat) (ctx : shr224_t) : shr224_t :=
  mk_shr (data ctx) (data_idx ctx) (shr_crc_a ctx) (shr_crc_b ctx) b n (suff ctx) (suff_len ctx).

(** [memxor(mem + off, src, length src)] *)
Definition xor_at (mem : bytes) (off : nat) (src : bytes) : outcome bytes :=
  old <-! mem_read mem off (length src);
  mem_write mem off (memxor old src).

Definition shr224_crc (ctx : shr224_t) : Z := htonll (u64 (shr_crc_a ctx + u64 (Z.shiftl (shr_crc_b ctx) 32))).

(** The loop over the words of the data; [b] of the code is never used. *)
Definition shrink_step (d : bytes) (st : outcome (Z * bytes)) (i : nat) : outcome (Z * bytes) :=
  st <-! st;
  w <-! mem_read d (4 * i) 4;
  let a := u32 (fst st + of_le w) in
  digest <-! xor_at (snd st) (i mod 7 * 4) (le_bytes 4 (htonl a));
  Done (a, digest).

Definition shr224_shrink (crc : Z) (d : bytes) : outcome bytes :=
  let a := if crc =? 0 then 1 else u32 (u32 (1 + Z.land crc 0xFFFFFFFF) + Z.shiftr crc 32) in
  st <-! fold_left (shrink_step d) (seq 0 (length d / 4)) (Done (a, replicate SHR224_SIZE 0));
  Done (snd st).

Definition expand_step (digest : bytes) (st : outcome (Z * bytes)) (i : nat) : outcome (Z * bytes) :=
  st <-! st;
  w <-! mem_read digest (i mod 7 * 4) 4;
  let a := u32 (fst st + of_le w) in
  d <-! xor_at (snd st) (i * 4) (le_bytes 4 (htonl a));
  Done (a, d).

(** [dst] is the array the result is written to. *)
Definition shr224_expand (digest dst : bytes) (data_len : nat) : outcome bytes :=
  dst <-! mem_write dst 0 (replicate data_len 0);
  st <-! fold_left (expand_step digest) (seq 0 (data_len / 4)) (Done (1, dst));
  Done (snd st).

Definition shr224_init : shr224_t :=
  mk_shr (replicate 96 (u8 (Z.land SHMEM_MAGIC 0xFF))) 0 1 0 (replicate 8 0) 0 (replicate SHR224_SIZE 0) 0.

(** One whole block: the hash and the checksum. *)
Definition hash_block (ctx : shr224_t) (block : bytes) : outcome shr224_t :=
  let val := of_le block in
  let idx := (Z.to_nat (data_idx ctx) mod SHR224_BLOCKS)%nat in
  d <-! xor_at (data ctx) (8 * idx) block;
  let a := u32 (shr_crc_a ctx + Z.land val 0xFFFFFFFF) in
  Done (mk_shr d (u64 (data_idx ctx + 1)) a (u64 (a + shr_crc_b ctx)) (buff ctx) (buff_len ctx) (suff ctx) (suff_len ctx)).

Fixpoint write_loop (fuel : nat) (ctx : shr224_t) (d : bytes) : outcome shr224_t :=
  match fuel with
  | O => Fault
  | S fuel' =>
      if decide (length d = 0)%nat then Done ctx
      else
        pending <-! mem_read (buff ctx) 0 (buff_len ctx);
        block <-! mem_write (replicate 8 0) 0 pending;
        let w_of := buff_len ctx in
        let ctx := set_buff (buff ctx) 0 ctx in
        let len := Nat.min (8 - w_of) (length d) in
        block <-! mem_write block w_of (take len d);
        let w_of := (w_of + len)%nat in
        if decide (w_of <> 8)%nat then Done (set_buff block w_of ctx)
        else ctx <-! hash_block ctx block; write_loop fuel' ctx (drop len d)
  end.

Definition shr224_write (ctx : shr224_t) (d : bytes) : outcome shr224_t := write_loop (S (length d)) ctx d.

(** The pending bytes are written as a message of their own. *)
Definition shr224_result (ctx : shr224_t) : outcome (shr224_t * bytes) :=
  ctx <-! (if decide (buff_len ctx <> 0)%nat then
             d <-! mem_read (buff ctx) 0 (buff_len ctx); shr224_write ctx d
           else Done ctx);
  digest <-! shr224_shrink (shr224_crc ctx) (data ctx);
  Done (ctx, digest).

Definition shr224 (d : bytes) : outcome bytes :=
  ctx <-! shr224_write shr224_init d;
  r <-! shr224_result ctx;
  Done (snd r).

(** *** Keyed digest *)

Definition shr224_hmac_init (key : bytes) : outcome shr224_t :=
  k_hash <-! (if decide (SHR224_SIZE < length key)%nat then shr224_shrink 0 key
              else mem_write (replicate SHR224_SIZE 0) 0 key);
  let key_len := Nat.min SHR224_SIZE (length key) in
  let pad m := map (fun i => if decide (i < key_len)%nat then Z.lxor (nth i k_hash 0) m else m) (seq 0 SHR224_SIZE) in
  let ctx := shr224_init in
  let ctx := mk_shr (data ctx) (data_idx ctx) (shr_crc_a ctx) (shr_crc_b ctx) (buff ctx) (buff_len ctx) (pad SHR224_OPAD_MAGIC) SHR224_SIZE in
  shr224_write ctx (pad SHR224_IPAD_MAGIC).

Definition shr224_hmac_write (ctx : shr224_t) (d : bytes) : outcome shr224_t := shr224_write ctx d.

Definition shr224_hmac_result (ctx : shr224_t) : outcome bytes :=
  let k_opad := suff ctx in
  r <-! shr224_result ctx;
  ctx <-! shr224_write shr224_init k_opad;
  ctx <-! shr224_write ctx (snd r);
  r <-! shr224_result ctx;
  Done (snd r).

Definition shr224_hmac (key d : bytes) : outcome bytes :=
  ctx <-! shr224_hmac_init key;
  ctx <-! shr224_hmac_write ctx d;
  shr224_hmac_result ctx.

(** *** Keys *)

Definition shr224_result_key (ctx : shr224_t) (key : shkey_t) : outcome shkey_t :=
  r <-! shr224_result ctx;
  let key := mk_key (alg key) (crc key) (map (fun i => of_le (take 4 (drop (4 * i) (snd r)))) (seq 0 SHKEY_WORDS)) in
  let key := shkey_alg_set key SHALG_SHR224 in
  Done (mk_key (alg key) (u16 (shr224_crc (fst r))) (code key)).

Definition shkey_shr224 (d : bytes) : outcome shkey_t :=
  ctx <-! shr224_write shr224_init d;
  shr224_result_key ctx key_blank.

Definition shkey_shr224_ver (key : shkey_t) (d : bytes) : outcome Z :=
  cmp_key <-! shkey_shr224 d;
  Done (if shkey_cmp (Some cmp_key) (Some key) then 0 else SHERR_ACCESS).

(** ** Password signatures *)

Definition SHCR224_SIZE : nat := 96.
Definition SHCR224_DEFAULT_ROUNDS : Z := 1000.

Definition shcr224_salt_bin_gen (d : option bytes) : outcome bytes :=
  match d with
  | Some (b :: l) => shr224_shrink 0 (b :: l)
  | _ => shr224_shrink 0 (replicate SHCR224_SIZE 0)
  end.

(** The loop over the words of the expanded digest, each encrypted with its
    successor under four words of the salt. *)
Fixpoint tea_loop (n i : nat) (salt : list Z) (enc_data : bytes) : outcome bytes :=
  match n with
  | O => Done enc_data
  | S n' => e <-! TEA_encrypt enc_data (4 * i) salt (i mod 12); tea_loop n' (S i) salt e
  end.

Definition words_of (b : bytes) : list Z := map (fun i => of_le (take 4 (drop (4 * i) b))) (seq 0 (length b / 4)).

Definition matrix_round (salt enc_data : bytes) (matrix : outcome (list Z)) : outcome (list Z) :=
  matrix <-! matrix;
  ctx <-! shr224_write shr224_init (le_bytes 8 SHMEM_MAGIC);
  s <-! mem_read salt 0 SHCR224_SIZE;
  ctx <-! shr224_write ctx s;
  ctx <-! shr224_write ctx (concat (map (le_bytes 4) matrix));
  ctx <-! shr224_write ctx enc_data;
  r <-! shr224_result ctx;
  Done (zip_with (fun m v => u32 (m + v)) matrix (words_of (snd r))).

Definition shcr224_bin (salt_key ret_key : bytes) (rounds : Z) (d : bytes) : outcome bytes :=
  salt <-! shr224_expand salt_key (replicate 64 0) SHCR224_SIZE;
  hash <-! shr224 d;
  enc_data <-! shr224_expand hash (replicate 4096 0) 4096;
  enc_data <-! tea_loop 1023 0 (words_of salt) enc_data;
  matrix <-! Nat.iter (Z.to_nat (Z.max rounds SHCR224_DEFAULT_ROUNDS)) (matrix_round salt enc_data) (Done (replicate 7 0));
  shr224_expand (concat (map (le_bytes 4) matrix)) ret_key SHCR224_SIZE.

(** The value the unit test of the source pins down, through SHA-256, RIPEMD-160 and
    the text of a key. *)
Example shr160_unit_test :
  (k <-! shkey_shr160_hash (Some (cstr "shkey_shr160_hash")); Done (shkey_shr160_print k)) = Done (cstr "j2xi1BhckErAH6SOcCMw7sBBZGEl8C").
Proof. vm_compute. reflexivity. Qed.

(** ** The 224-bit digest absorbs a message *)

Definition xor_range (mem : bytes) (off : nat) (src : bytes) : bytes :=
  take off mem ++ memxor (take (length src) (drop off mem)) src ++ drop (off + length src) mem.

Lemma xor_at_ok mem off src : (off + length src <= length mem)%nat ->
  xor_at mem off src = Done (xor_range mem off src) /\ length (xor_range mem off src) = length mem.
Proof.
  intros Hl. unfold xor_at, xor_range. rewrite mem_read_ok by done. cbn [obind].
  assert (length (memxor (take (length src) (drop off mem)) src) = length src) as He by (unfold memxor; rewrite length_zip_with, length_take, length_drop; lia).
  rewrite mem_write_ok by lia. rewrite He. split; [done |]. rewrite !length_app, He, length_take, length_drop. lia.
Qed.

(** The hashed part of a context. *)
Definition core : Type := bytes * Z * Z * Z.
Definition core_of (ctx : shr224_t) : core := (data ctx, data_idx ctx, shr_crc_a ctx, shr_crc_b ctx).
Definition core_data (c : core) : bytes := fst (fst (fst c)).
Definition core_idx (c : core) : Z := snd (fst (fst c)).

Definition step_core (c : core) (block : bytes) : core :=
  let '(d, idx, a, b) := c in
  let a := u32 (a + Z.land (of_le block) 0xFFFFFFFF) in
  (xor_range d (8 * (Z.to_nat idx mod SHR224_BLOCKS)) block, u64 (idx + 1), a, u64 (a + b)).

Definition good_core (c : core) : Prop := length (core_data c) = 96%nat.

Lemma step_core_good c block : good_core c -> length block = 8%nat -> good_core (step_core c block).
Proof.
  destruct c as [[[d idx] a] b]. unfold good_core, core_data. cbn [fst step_core]. intros Hd Hb.
  pose proof (Nat.mod_upper_bound (Z.to_nat idx) SHR224_BLOCKS ltac:(done)) as Hi. unfold SHR224_BLOCKS in *.
  by rewrite (proj2 (xor_at_ok d (8 * (Z.to_nat idx mod 12)) block ltac:(lia))).
Qed.

Lemma hash_block_ok ctx block : good_core (core_of ctx) -> length block = 8%nat ->
  exists ctx', hash_block ctx block = Done ctx' /\ core_of ctx' = step_core (core_of ctx) block /\
    buff ctx' = buff ctx /\ buff_len ctx' = buff_len ctx /\ suff ctx' = suff ctx.
Proof.
  intros Hd Hb. unfold hash_block. pose proof (Nat.mod_upper_bound (Z.to_nat (data_idx ctx)) SHR224_BLOCKS ltac:(done)) as Hi. unfold SHR224_BLOCKS in *.
  change (length (data ctx) = 96%nat) in Hd. destruct (xor_at_ok (data ctx) (8 * (Z.to_nat (data_idx ctx) mod 12)) block ltac:(lia)) as [-> _].
  cbn [obind]. eexists. done.
Qed.

(** One byte into the hashed part and the pending bytes. *)
Definition feed (s : core * bytes) (x : Z) : core * bytes :=
  let t := snd s ++ [x] in if decide (length t = 8)%nat then (step_core (fst s) t, []) else (fst s, t).

Lemma feed_short m : forall c t, (length t + length m < 8)%nat -> fold_left feed m (c, t) = (c, t ++ m).
Proof.
  induction m as [|b m IH]; intros c t Hl; cbn [fold_left length] in *; [by rewrite app_nil_r |].
  unfold feed at 2. cbn [fst snd]. rewrite decide_False by (rewrite length_app; cbn; lia). rewrite IH by (rewrite length_app; cbn; lia). by rewrite <- app_assoc.
Qed.

Lemma feed_block m c t : m <> [] -> (length t + length m = 8)%nat -> fold_left feed m (c, t) = (step_core c (t ++ m), []).
Proof.
  intros Hm Hl. destruct m as [|b m _] using rev_ind; [done |]. rewrite length_app in Hl. cbn [length] in Hl.
  rewrite fold_left_app, feed_short by lia. cbn [fold_left]. unfold feed. cbn [fst snd].
  rewrite decide_True by (rewrite !length_app; cbn; lia). by rewrite <- app_assoc.
Qed.

Lemma feed_length m : forall s, (length (snd s) < 8)%nat ->
  (length (snd (fold_left feed m s)) < 8)%nat /\ length (snd (fold_left feed m s)) = ((length (snd s) + length m) mod 8)%nat.
Proof.
  induction m as [|b m IH]; intros [c t] Hs; cbn [fold_left length snd] in *.
  - split; [done |]. rewrite Nat.add_0_r, Nat.mod_small; lia.
  - assert (exists c' t', feed (c, t) b = (c', t') /\ (length t' < 8)%nat /\ length t' = ((length t + 1) mod 8)%nat) as (c' & t' & -> & Hl & Hm).
    { unfold feed. cbn [fst snd]. rewrite length_app. cbn [length]. case_decide as Hc; eexists _, _; (split; [done |]); cbn [length].
      - rewrite Hc. split; [lia | done].
      - rewrite length_app. cbn [length]. split; [lia |]. rewrite Nat.mod_small; lia. }
    destruct (IH (c', t') Hl) as [H1 H2]. split; [done |]. cbn [snd] in H2. rewrite H2, Hm, Nat.Div0.add_mod_idemp_l. f_equal. lia.
Qed.

Definition keeps (ctx : shr224_t) (s : core * bytes) : Prop :=
  core_of ctx = fst s /\ good_core (fst s) /\ length (buff ctx) = 8%nat /\ (length (snd s) < 8)%nat /\
  buff_len ctx = length (snd s) /\ take (length (snd s)) (buff ctx) = snd s.

Lemma write_loop_ok fuel : forall ctx s d, keeps ctx s -> (length d < fuel)%nat ->
  exists ctx', write_loop fuel ctx d = Done ctx' /\ keeps ctx' (fold_left feed d s) /\ suff ctx' = suff ctx.
Proof.
  induction fuel as [|fuel IH]; intros ctx s d Hk Hf; [lia |]. cbn [write_loop]. case_decide as Hz.
  { destruct d; [| done]. by exists ctx. }
  destruct s as [c t]. destruct Hk as (Hc & Hg & Hb & Ht & Hbl & Hp). cbn [fst snd] in *. rewrite Hbl.
  rewrite mem_read_ok by lia. cbn [obind]. rewrite drop_0, Hp. rewrite mem_write_ok by (rewrite length_replicate; lia). cbn [obind].
  rewrite take_0, app_nil_l, Nat.add_0_l, drop_replicate. set (len := Nat.min (8 - length t) (length d)). cbv zeta.
  rewrite mem_write_ok by (rewrite length_app, length_replicate, length_take; lia). cbn [obind].
  rewrite take_app_length' by done. case_decide as Hw.
  - assert (len = length d) as El by lia. eexists. split; [done |]. split; [| done]. rewrite feed_short by lia.
    unfold keeps, set_buff. cbn [fst snd core_of data data_idx shr_crc_a shr_crc_b buff buff_len].
    rewrite (take_ge d) by lia. rewrite !length_app, length_drop, length_app, length_replicate.
    split_and!; try done; [lia | lia | lia |]. rewrite app_assoc, take_app_length'; [done | rewrite length_app; lia].
  - assert (len = 8 - length t)%nat as El by lia.
    assert (drop (length t + length (take len d)) (t ++ replicate (8 - length t) 0) = []) as -> by (apply drop_ge; rewrite length_app, length_replicate, length_take; lia).
    rewrite app_nil_r. set (block := t ++ take len d).
    assert (length block = 8%nat) as Hlb by (unfold block; rewrite length_app, length_take; lia).
    destruct (hash_block_ok (set_buff (buff ctx) 0 ctx) block) as (c1 & -> & Hc1 & Hb1 & Hl1 & Hs1); [by rewrite <- Hc in Hg | done |]. cbn [obind].
    destruct (IH c1 (step_core c block, []) (drop len d)) as (c2 & -> & Hk2 & Hs2); [| rewrite length_drop; lia |].
    { unfold keeps. cbn [fst snd length]. rewrite Hc1, Hb1, Hl1. cbn [buff buff_len set_buff].
      split_and!; try done; [by rewrite <- Hc | by apply step_core_good | lia]. }
    exists c2. split; [done |]. split; [| by rewrite Hs2, Hs1].
    rewrite <- (take_drop len d), fold_left_app, feed_block; [done | | rewrite length_take; lia].
    destruct d; [done |]. destruct len; [lia | done].
Qed.

Lemma write_ok ctx s d : keeps ctx s -> exists ctx', shr224_write ctx d = Done ctx' /\ keeps ctx' (fold_left feed d s) /\ suff ctx' = suff ctx.
Proof. intros Hk. apply write_loop_ok; [done | lia]. Qed.

Definition core0 : core := core_of shr224_init.
Lemma init_keeps : keeps shr224_init (core0, []).
Proof. unfold keeps. cbn [fst snd length]. split_and!; (done || lia). Qed.

(** ** The digest of a context *)

Lemma shrink_ok crc d : exists o, shr224_shrink crc d = Done o /\ length o = SHR224_SIZE.
Proof.
  unfold shr224_shrink. cbv zeta. generalize (if crc =? 0 then 1 else u32 (u32 (1 + Z.land crc 0xFFFFFFFF) + Z.shiftr crc 32)). intros a.
  assert (forall l a o, Forall (fun i => (4 * i + 4 <= length d)%nat) l -> length o = SHR224_SIZE ->
    exists a' o', fold_left (shrink_step d) l (Done (a, o)) = Done (a', o') /\ length o' = SHR224_SIZE) as Hf.
  { induction l as [|i l IH]; intros a0 o Hl Ho; [by exists a0, o |]. apply Forall_cons in Hl as [Hi Hl]. cbn [fold_left]. unfold shrink_step at 2. cbn [obind fst snd].
    rewrite mem_read_ok by lia. cbn [obind]. pose proof (Nat.mod_upper_bound i 7 ltac:(done)) as Hm.
    destruct (xor_at_ok o (i mod 7 * 4) (le_bytes 4 (htonl (u32 (a0 + of_le (take 4 (drop (4 * i) d))))))) as [-> Hx];
      [rewrite length_le_bytes, Ho; unfold SHR224_SIZE; lia |]. cbn [obind]. apply IH; [done |]. by rewrite Hx. }
  destruct (Hf (seq 0 (length d / 4)) a (replicate SHR224_SIZE 0)) as (a' & o' & -> & Ho); [| done |].
  - apply List.Forall_forall. intros i Hi. apply in_seq in Hi. pose proof (Nat.Div0.mul_div_le (length d) 4). lia.
  - by exists o'.
Qed.

Definition digest_of (c : core) : outcome bytes :=
  let '(d, _, a, b) := c in shr224_shrink (htonll (u64 (a + u64 (Z.shiftl b 32)))) d.

(** The pending bytes are fed once more. *)
Definition last_core (s : core * bytes) : core := fst (fold_left feed (snd s) s).

Lemma result_ok ctx s : keeps ctx s -> exists ctx' o,
  shr224_result ctx = Done (ctx', o) /\ core_of ctx' = last_core s /\ digest_of (last_core s) = Done o /\ length o = SHR224_SIZE.
Proof.
  intros Hk. destruct (Hk) as (Hc & _ & Hb & Ht & Hbl & Hp). unfold shr224_result.
  assert (exists ctx', (if decide (buff_len ctx <> 0)%nat then d <-! mem_read (buff ctx) 0 (buff_len ctx); shr224_write ctx d else Done ctx) = Done ctx' /\
    core_of ctx' = last_core s) as (ctx' & -> & Hl).
  { unfold last_core. case_decide as Hz.
    - rewrite mem_read_ok by lia. cbn [obind]. rewrite drop_0, Hbl, Hp. destruct (write_ok ctx s (snd s) Hk) as (c' & -> & (Hc' & _) & _). by exists c'.
    - exists ctx. split; [done |]. destruct (snd s); [done | cbn in Hbl; lia]. }
  cbn [obind]. destruct (shrink_ok (shr224_crc ctx') (data ctx')) as (o & Ho & Hlen). exists ctx', o. rewrite Ho. split; [done |]. split; [done |].
  split; [| done]. rewrite <- Hl. exact Ho.
Qed.

(** The calls of a streaming user. *)
Fixpoint shr224_write_all (ctx : shr224_t) (chunks : list bytes) : outcome shr224_t :=
  match chunks with
  | [] => Done ctx
  | c :: rest => ctx <-! shr224_write ctx c; shr224_write_all ctx rest
  end.

Lemma write_all_ok chunks : forall ctx s, keeps ctx s ->
  exists ctx', shr224_write_all ctx chunks = Done ctx' /\ keeps ctx' (fold_left feed (concat chunks) s).
Proof.
  induction chunks as [|c chunks IH]; intros ctx s Hk; [by exists ctx |]. cbn [shr224_write_all concat].
  destruct (write_ok ctx s c Hk) as (c1 & -> & Hk1 & _). cbn [obind]. rewrite fold_left_app. by apply IH.
Qed.

Definition state_of (m : bytes) : core * bytes := fold_left feed m (core0, []).

Lemma shr224_total m : exists o, shr224 m = Done o /\ length o = SHR224_SIZE /\ digest_of (last_core (state_of m)) = Done o.
Proof.
  unfold shr224. destruct (write_ok _ _ m init_keeps) as (c1 & -> & Hk & _). cbn [obind].
  destruct (result_ok _ _ Hk) as (c2 & o & -> & _ & Hd & Hl). by exists o.
Qed.

(** Up to three bytes behind whole blocks stay pending. *)
Lemma tail_core s t : (length (snd s) = 0)%nat -> (length t <= 3)%nat -> last_core (fold_left feed t s) = fst s.
Proof.
  intros Hs Ht. destruct s as [c p]. destruct p; [| done]. unfold last_core. rewrite feed_short by (cbn [length]; lia). cbn [snd app].
  by rewrite feed_short by lia.
Qed.

Lemma last_core_empty s : (length (snd s) = 0)%nat -> last_core s = fst s.
Proof. intros Hs. by apply (tail_core s []); [| cbn; lia]. Qed.

Lemma state_tail m t : (length m mod 8 = 0)%nat -> (length t <= 3)%nat -> last_core (state_of (m ++ t)) = last_core (state_of m).
Proof.
  intros Hm Ht. unfold state_of. rewrite fold_left_app. destruct (feed_length m (core0, [])) as [_ Hl]; [cbn; lia |]. cbn [snd length Nat.add] in Hl.
  rewrite tail_core, last_core_empty by lia. done.
Qed.

Lemma key_total m k0 : exists k, (ctx <-! shr224_write shr224_init m; shr224_result_key ctx k0) = Done k /\
  forall m', last_core (state_of m') = last_core (state_of m) -> (ctx <-! shr224_write shr224_init m'; shr224_result_key ctx k0) = Done k.
Proof.
  destruct (write_ok _ _ m init_keeps) as (c1 & E1 & Hk & _). destruct (result_ok _ _ Hk) as (c2 & o & E2 & Hc2 & Hd & _).
  rewrite E1. cbn [obind]. unfold shr224_result_key at 1. rewrite E2. cbn [obind fst snd]. eexists. split; [done |].
  intros m' Hm'. destruct (write_ok _ _ m' init_keeps) as (c1' & E1' & Hk' & _). destruct (result_ok _ _ Hk') as (c2' & o' & E2' & Hc2' & Hd' & _).
  rewrite E1'. cbn [obind]. unfold shr224_result_key. rewrite E2'. cbn [obind fst snd].
  assert (o' = o) as -> by (unfold state_of in Hm'; rewrite Hm' in Hd'; congruence).
  assert (shr224_crc c2' = shr224_crc c2) as ->; [| done]. unfold state_of in Hm'. rewrite Hm', <- Hc2 in Hc2'.
  unfold core_of in Hc2'. injection Hc2' as _ _ Ha Hb. unfold shr224_crc. by rewrite Ha, Hb.
Qed.

Lemma words_eqb_refl l : words_eqb l l = true.
Proof. induction l as [|x l IH]; [done |]. cbn [words_eqb]. by rewrite Z.eqb_refl. Qed.
Lemma key_cmp_refl k : shkey_cmp (Some k) (Some k) = true.
Proof. unfold shkey_cmp. by rewrite !Z.eqb_refl, words_eqb_refl. Qed.

(** The keyed digest depends on the key and on the digest of the inner message. *)
Lemma hmac_tail key m t : (length m mod 8 = 4)%nat -> (length t <= 3)%nat -> shr224_hmac key (m ++ t) = shr224_hmac key m.
Proof.
  intros Hm Ht. unfold shr224_hmac, shr224_hmac_init. destruct (if decide (SHR224_SIZE < length key)%nat then _ else _) as [kh |]; [| done]. cbn [obind]. cbv zeta.
  set (opad := map _ _). set (ipad := map _ _). set (ctx0 := mk_shr _ _ _ _ _ _ _ _).
  assert (keeps ctx0 (core0, [])) as Hk0 by exact init_keeps.
  destruct (write_ok _ _ ipad Hk0) as (c1 & -> & Hk1 & Hs1). cbn [obind]. unfold shr224_hmac_write, shr224_hmac_result.
  destruct (write_ok _ _ (m ++ t) Hk1) as (c2 & -> & Hk2 & Hs2). destruct (write_ok _ _ m Hk1) as (c3 & -> & Hk3 & Hs3). cbn [obind]. rewrite Hs2, Hs3.
  destruct (result_ok _ _ Hk2) as (c4 & o4 & -> & _ & Hd4 & _). destruct (result_ok _ _ Hk3) as (c5 & o5 & -> & _ & Hd5 & _). cbn [obind snd].
  assert (o4 = o5) as ->; [| done].
  destruct (feed_length ipad (core0, [])) as [Hi1 Hi2]; [cbn; lia |].
  assert (length ipad = 28%nat) as Hip by (subst ipad; rewrite length_map; apply length_seq). rewrite Hip in Hi2. cbn [snd length Nat.add] in Hi2.
  change (28 mod 8)%nat with 4%nat in Hi2. destruct (feed_length m (fold_left feed ipad (core0, []))) as [_ Hl]; [done |].
  rewrite Hi2 in Hl. assert ((4 + length m) mod 8 = 0)%nat as Hz by (rewrite <- Nat.Div0.add_mod_idemp_r, Hm; done). rewrite Hz in Hl.
  rewrite fold_left_app, tail_core in Hd4 by done. rewrite last_core_empty in Hd5 by done. congruence.
Qed.

(** the 224-bit digest of a message written in any pieces is that of one call on
    the whole message; it has 28 bytes and no copy leaves a block. *)
Theorem shr224_stream chunks : exists ctx ctx' digest,
  shr224_write_all shr224_init chunks = Done ctx /\ shr224_result ctx = Done (ctx', digest) /\
  shr224 (concat chunks) = Done digest /\ length digest = SHR224_SIZE.
Proof.
  destruct (write_all_ok chunks _ _ init_keeps) as (c1 & E1 & Hk). destruct (result_ok _ _ Hk) as (c2 & o & E2 & _ & Hd & Hl).
  exists c1, c2, o. split; [done |]. split; [done |]. split; [| done].
  destruct (shr224_total (concat chunks)) as (o' & -> & _ & Hd'). unfold state_of in Hd'. congruence.
Qed.

(** up to three bytes behind a whole number of eight-byte blocks do not enter the
    digest: messages that differ in them have one digest, a key made of one
    verifies the other, and the keyed digest authenticates both. *)
Theorem shr224_ignores_tail m t key m4 : (length m mod 8 = 0)%nat -> (length t <= 3)%nat -> (length m4 mod 8 = 4)%nat ->
  shr224 (m ++ t) = shr224 m /\
  (k <-! shkey_shr224 m; shkey_shr224_ver k (m ++ t)) = Done 0 /\
  shr224_hmac key (m4 ++ t) = shr224_hmac key m4.
Proof.
  intros Hm Ht Hm4. pose proof (state_tail m t Hm Ht) as Hs. split; [| split].
  - destruct (shr224_total (m ++ t)) as (o & -> & _ & Hd). destruct (shr224_total m) as (o' & -> & _ & Hd'). congruence.
  - destruct (key_total m key_blank) as (k & Hk & Hsame). unfold shkey_shr224_ver, shkey_shr224. rewrite Hk. cbn [obind].
    rewrite (Hsame (m ++ t) Hs). cbn [obind]. by rewrite key_cmp_refl.
  - by apply hmac_tail.
Qed.

Lemma shr224_ignores_tail_witness :
  shr224 ([] ++ [97; 98; 99]) = shr224 [] /\ (k <-! shkey_shr224 []; shkey_shr224_ver k ([] ++ [97; 98; 99])) = Done 0 /\
  shr224_hmac [1; 2; 3] ([112; 97; 121; 32] ++ [97; 98; 99]) = shr224_hmac [1; 2; 3] [112; 97; 121; 32].
Proof. apply (shr224_ignores_tail [] [97; 98; 99] [1; 2; 3] [112; 97; 121; 32]); [reflexivity | cbn; lia | reflexivity]. Defined.

(** Making a password signature writes 96 bytes to an array of 64, whatever the
    salt and the password. *)
Theorem shcr224_bin_overflow salt_key ret_key rounds d : shcr224_bin salt_key ret_key rounds d = Fault.
Proof. unfold shcr224_bin, shr224_expand at 1, mem_write at 1. rewrite decide_False; [done |]. rewrite !length_replicate. unfold SHCR224_SIZE. lia. Qed.

(** ** Keys of a 160-bit digest *)

Lemma ripemd160_spec_bytes m : length (ripemd160_spec m) = 20%nat /\ is_bytes (ripemd160_spec m).
Proof.
  unfold ripemd160_spec. cbv zeta. set (l := m ++ _).
  assert (forall fuel h l, length h = 5%nat -> length (hash_blocks 64 ref_compress fuel h l) = 5%nat) as Hh.
  { induction fuel as [|fuel IH]; intros h l' Hl; [done |]. cbn [hash_blocks]. case_decide; [done |]. by apply IH. }
  specialize (Hh (length l) ripemd160_H0 l eq_refl). unfold hash_all. destruct (hash_blocks 64 ref_compress (length l) ripemd160_H0 l) as [|a [|b [|c [|d [|e [|]]]]]]; try done.
  split; [done |]. cbn [map concat]. unfold is_bytes. rewrite !Forall_app. repeat split; try apply le_bytes_bytes. constructor.
Qed.

Definition raw_words (raw : bytes) : list Z := map (fun i => of_le (take 4 (drop (4 * i) raw))) (seq 0 5).

Lemma raw_words_ok raw : length raw = 20%nat -> is_bytes raw ->
  length (raw_words raw) = 5%nat /\ Forall (is_uint 32) (raw_words raw) /\ concat (map (le_bytes 4) (raw_words raw)) = raw.
Proof.
  intros Hl Hb. unfold raw_words. split; [done |].
  assert (forall i, (i < 5)%nat -> length (take 4 (drop (4 * i) raw)) = 4%nat /\ is_bytes (take 4 (drop (4 * i) raw))) as Hp.
  { intros i Hi. rewrite length_take, length_drop. split; [lia | by apply Forall_take, Forall_drop]. }
  split.
  - apply Forall_map, List.Forall_forall. intros i Hi. apply in_seq in Hi. destruct (Hp i ltac:(lia)) as [H4 Hbi].
    pose proof (of_le_range _ Hbi) as Hr. by rewrite H4 in Hr.
  - rewrite map_map. assert (forall i, (i < 5)%nat -> le_bytes 4 (of_le (take 4 (drop (4 * i) raw))) = take 4 (drop (4 * i) raw)) as He.
    { intros i Hi. destruct (Hp i Hi) as [H4 Hbi]. pose proof (le_bytes_of_le _ Hbi) as Hr. by rewrite H4 in Hr. }
    cbn [seq map concat]. rewrite !He by lia. clear He Hp Hb. do 20 (destruct raw as [|? raw]; [done |]). destruct raw; done.
Qed.

Lemma ashkey_shr160_code raw : code (ashkey_shr160 raw) = raw_words raw ++ [0; 0] /\ alg (ashkey_shr160 raw) = htons SHALG_SHR160.
Proof. split; reflexivity. Qed.

Lemma ashkey_shr160_ver raw : shkey_shr160_ver (Some (ashkey_shr160 raw)) = 0.
Proof. unfold shkey_shr160_ver. change (shkey_alg (Some (ashkey_shr160 raw))) with SHALG_SHR160. rewrite Z.eqb_refl. cbn [negb].
  unfold ashkey_shr160. cbn [set_key_crc crc]. unfold key_crc16. cbn [alg code]. by rewrite Z.eqb_refl. Qed.

Lemma ashkey_shr160_text raw : length raw = 20%nat -> is_bytes raw ->
  shkey_shr160_gen (Some (shkey_shr160_print (ashkey_shr160 raw))) = Some (ashkey_shr160 raw).
Proof.
  intros Hl Hb. destruct (raw_words_ok raw Hl Hb) as (Hw5 & Hwu & _). set (k := ashkey_shr160 raw).
  assert (code k = raw_words raw ++ [0; 0]) as Hc by reflexivity.
  assert (Forall (is_uint 32) (code k)) as Hu by (rewrite Hc; apply Forall_app; split; [done | repeat constructor; done]).
  assert (valid_key k) as Hk.
  { split; [by vm_compute |]. split; [| split; [by rewrite Hc, length_app, Hw5 | done]].
    unfold k, ashkey_shr160, set_key_crc. cbn [crc]. apply wrap_range. done. }
  set (a := concat (map word_text (raw_words raw))).
  assert (length a = 30%nat /\ Forall (fun c => c <> 0) a) as [Ha Hn].
  { rewrite List.Forall_forall in Hwu. split.
    - unfold a. rewrite (length_pieces 6), Hw5; [done |]. intros w Hin. by destruct (word_text_spec w (Hwu w Hin)).
    - apply Forall_pieces. intros w Hin. by destruct (word_text_spec w (Hwu w Hin)) as (_ & ? & _). }
  assert (shkey_print (Some k) = a ++ replicate 12 46) as Hp by (rewrite shkey_print_pieces, Hc, map_app, concat_app; done).
  assert (Forall (fun c => c <> 0) (a ++ replicate 12 46)) as Hnp by (apply Forall_app; split; [done | by apply Forall_replicate]).
  assert (shkey_shr160_print k = a) as Hpr.
  { unfold shkey_shr160_print, strncpy. rewrite Hp, (cstring_nonzero (a ++ _)) by done. rewrite take_app_length' by done. rewrite Ha, Nat.sub_diag. cbn [replicate]. rewrite app_nil_r. by apply cstring_nonzero. }
  unfold shkey_shr160_gen. rewrite Hpr. unfold strncpy. rewrite (cstring_nonzero a) by done. rewrite take_ge by lia. rewrite Ha, Nat.sub_diag. cbn [replicate app].
  rewrite app_nil_r. assert (shkey_gen (Some ((a ++ replicate 12 46) ++ replicate 214 0)) = Some (mk_key 0 0 (code k))) as Hg.
  { rewrite <- (print_gen_words k Hk), Hp. unfold shkey_gen. change (replicate 214 0) with (0 :: replicate 213 0). rewrite cstring_zero, cstring_nonzero by done. done. }
  cbn [replicate app] in Hg. rewrite Hg. reflexivity.
Qed.

Lemma shr160_hash_ok d : is_uint 32 (Z.of_nat (length d)) ->
  shkey_shr160_hash (Some d) = Done (ashkey_shr160 (ripemd160_spec (Sha256.sha2_spec Sha256.SHA256_H0 SHA256HashSize d))).
Proof.
  intros Hd. unfold shkey_shr160_hash. cbv zeta.
  assert ((match d with b :: l => r <-! Sha256.sh_sha256_write (Sha256.sh_sha256_init sha256_zero) (b :: l); Done (fst r) | [] => Done (Sha256.sh_sha256_init sha256_zero) end) =
    (r <-! Sha256.sh_sha256_write (Sha256.sh_sha256_init sha256_zero) d; Done (fst r))) as Hw by (by destruct d).
  pose proof (Sha256.sha256_total sha256_zero d eq_refl Hd) as Ht. unfold Sha256.sh_sha256 in Ht. rewrite Hw. clear Hw.
  destruct (Sha256.sh_sha256_write (Sha256.sh_sha256_init sha256_zero) d) as [r1 |]; [| done]. cbn [obind] in *.
  destruct (Sha256.sh_sha256_result (fst r1)) as [r2 |]; [| done]. cbn [obind] in *. injection Ht as ->.
  set (h := Sha256.sha2_spec Sha256.SHA256_H0 SHA256HashSize d).
  assert (length h = 32%nat /\ is_bytes h) as [Hl Hb].
  { destruct (sha256_bytes d Hd) as [H1 H2]. unfold sha256 in H1, H2. rewrite Sha256.sha256_total in H1, H2 by done. done. }
  unfold sh_ripemd160. rewrite decide_False by lia. rewrite (ripemd160_total h Hb) by lia. done.
Qed.

(** the key made of a message holds the RIPEMD-160 digest of its SHA-256 digest,
    which can be taken out again; it passes verification, and its 30-character
    text gives the whole key back, algorithm and checksum included. *)
Theorem shkey_shr160_roundtrip d out : is_uint 32 (Z.of_nat (length d)) -> length out = 20%nat -> exists k,
  shkey_shr160_hash (Some d) = Done k /\ shkey_shr160_ver (Some k) = 0 /\
  sh160_key k out = Done (ripemd160_spec (Sha256.sha2_spec Sha256.SHA256_H0 SHA256HashSize d)) /\
  shkey_shr160_gen (Some (shkey_shr160_print k)) = Some k.
Proof.
  intros Hd Ho. rewrite shr160_hash_ok by done. set (raw := ripemd160_spec _). destruct (ripemd160_spec_bytes (Sha256.sha2_spec Sha256.SHA256_H0 SHA256HashSize d)) as [Hl Hb].
  fold raw in Hl, Hb. eexists. split; [done |]. split; [apply ashkey_shr160_ver |]. split; [| by apply ashkey_shr160_text].
  unfold sh160_key. rewrite mem_write_ok by (rewrite length_replicate; lia). cbn [obind].
  change (shkey_alg (Some (ashkey_shr160 raw))) with SHALG_SHR160. rewrite Z.eqb_refl. cbn [negb].
  destruct (ashkey_shr160_code raw) as [-> _]. destruct (raw_words_ok raw Hl Hb) as (Hw & _ & Hc). rewrite take_app_length' by done. rewrite Hc.
  rewrite mem_write_ok by llia. rewrite take_0, drop_ge by llia. by rewrite app_nil_r.
Qed.

Lemma shkey_shr160_roundtrip_witness : exists k,
  shkey_shr160_hash (Some [97; 98; 99]) = Done k /\ shkey_shr160_ver (Some k) = 0 /\
  sh160_key k (replicate 20 7) = Done (ripemd160_spec (Sha256.sha2_spec Sha256.SHA256_H0 SHA256HashSize [97; 98; 99])) /\
  shkey_shr160_gen (Some (shkey_shr160_print k)) = Some k.
Proof. apply (shkey_shr160_roundtrip [97; 98; 99] (replicate 20 7)); [split; [cbn; lia | reflexivity] | reflexivity]. Defined.
