(* ===== verification/ShShz.v ===== *)
(** * Archives: pages, checksums and allocation

    Models the first part of [share-lib/mem/shmem_shz.c] and its structures in
    [shmem.h].  An archive is one buffer ([shbuf_t], of ShBuf) cut into pages
    of 1024 bytes; page 0 is the base with the size of the archive, the salt of
    the checksums and the roots of two tables, and every other page starts with
    a header: type, magic number, checksum and used size.

    The structure [shz_t] is the record below.  [z->base] is the start of the
    buffer; [shz_alloc] sets it again after every growth, so it is no separate
    field.  Growing the buffer frees the old block: a pointer to a page
    remembers the growth count [z_gen] it was made at, and using it after a
    growth is a [Fault].  The tables keep a tree of nodes that cache the page
    number of each map page they have visited; the page pointer a node caches is
    the one [shz_page] computes, and it is dropped at every growth.

    The theorems are on archives in mapped files, which the record [mapped_env]
    describes: the file can be extended and mapped, in pages whose size divides
    8192, and the bytes by which a file is extended are zeros.  (The bytes that
    [realloc] adds to a buffer in memory are arbitrary, and the code does not clear
    the pages it takes there.)  [z_file] is the content of the file; the mapping is
    shared, so the bytes of the buffer are those of the file.  The field [bpos] of the
    structure is used by no function. *)

From Stdlib Require Import ZArith Lia.
From stdpp Require Import base numbers list.
From S2P Require Import Prelude ShCrc ShKey ShBuf.

Open Scope Z_scope.
Open Scope share_scope.

(** ** Constants *)

Definition SHERR_NOENT : Z := -2.
Definition SHERR_IO : Z := -5.
Definition SHERR_EXIST : Z := -17.
Definition SHERR_ILSEQ : Z := -84.
Definition SHMEM16_MAGIC : Z := Z.land (Z.shiftr SHMEM_MAGIC 24) 65535.

Definition SHZ_PAGE_SIZE : Z := 1024.
Definition SHZ_ALLOC_SIZE : Z := 65536.
Definition SHZ_HASH_MASK : Z := 240.
Definition SHZ_MAX_INDEX_SIZE : Z := 252.
Definition MAX_SHZ_PAGE_MODES : Z := 24000.

Definition SHZ_PAGE_NONE : Z := 0.
Definition SHZ_PAGE_ROOT : Z := 1001.
Definition SHZ_PAGE_BRANCH : Z := 1002.
Definition SHZ_PAGE_DATA : Z := 1004.
Definition SHZ_PAGE_RAW : Z := 1006.
Definition SHZ_PAGE_INDEX : Z := 10011.
Definition SHZ_PAGE_ZLIB_DATA : Z := 10021.
Definition SHZ_PAGE_ZLIB : Z := 10022.
Definition SHZ_PAGE_DIR : Z := 10102.
Definition SHZ_PAGE_FILE : Z := 10104.
Definition SHZ_PAGE_BASE : Z := 23123.

Definition SHZ_CREATE : Z := 1.
Definition SHZ_TRUNC : Z := 8.
Definition SHZ_RAW : Z := 16.
Definition SHZ_ABSOLUTE : Z := 256.
Definition SHZ_ALLOC : Z := Z.shiftl 1 20.
Definition SHZ_FRESH : Z := Z.shiftl 1 21.

(** Sizes of the page structures, and offsets of their fields. *)
Definition sizeof_hdr : Z := 8.
Definition hdr_type : nat := 0.
Definition hdr_magic : nat := 2.
Definition hdr_crc : nat := 4.
Definition hdr_size : nat := 6.

Definition sizeof_base : Z := 64.
Definition base_salt : nat := 8.
Definition base_size : nat := 16.
Definition base_zsize : nat := 24.
Definition base_crc : nat := 32.
Definition base_ctime : nat := 40.
Definition base_mtime : nat := 48.
Definition base_dtable : nat := 56.
Definition base_ftable : nat := 60.

Definition sizeof_map : Z := 16.
Definition map_right : nat := 8.
Definition map_left : nat := 12.

Definition sizeof_mod : Z := 80.
Definition mod_id : nat := 8.
Definition mod_size : nat := 40.
Definition mod_crc : nat := 44.
Definition mod_seq : nat := 56.
Definition mod_name : nat := 60.
Definition mod_ctime : nat := 64.
Definition mod_mtime : nat := 72.

Definition sizeof_data : Z := 16.
Definition data_seq : nat := 8.

(** ** State *)

(** The nodes of a table: the page number of a map page and the two branches. *)
Inductive ztree : Type :=
| TNil
| TNode (seq : Z) (left right : ztree).

Record shz_t : Type := mk_shz {
  z_bseq : Z;
  z_flags : Z;
  z_buff : shbuf_t;
  z_file : bytes;
  z_gen : nat;
  z_dtable : ztree;
  z_ftable : ztree
}.

(** A pointer into the buffer, made at growth count [p_gen]. *)
Record ptr : Type := mk_ptr { p_gen : nat; p_off : nat }.

Definition set_bseq (n : Z) (z : shz_t) : shz_t :=
  mk_shz n (z_flags z) (z_buff z) (z_file z) (z_gen z) (z_dtable z) (z_ftable z).
Definition set_flags (n : Z) (z : shz_t) : shz_t :=
  mk_shz (z_bseq z) n (z_buff z) (z_file z) (z_gen z) (z_dtable z) (z_ftable z).
Definition set_buff (b : shbuf_t) (z : shz_t) : shz_t :=
  mk_shz (z_bseq z) (z_flags z) b (z_file z) (z_gen z) (z_dtable z) (z_ftable z).

(** The bytes the buffer holds; [z->base] is NULL exactly when there are none. *)
Definition z_data (z : shz_t) : option bytes := data (z_buff z).

Definition set_data (d : bytes) (z : shz_t) : shz_t :=
  let b := z_buff z in
  set_buff (mk_buf (Some d) (data_of b) (data_max b) (data_pos b) (ShBuf.flags b) (fd b)) z.

(** ** Computations on an archive *)

Definition M (A : Type) : Type := shz_t -> outcome (shz_t * A).

Definition zret {A} (a : A) : M A := fun z => Done (z, a).
Definition zfault {A} : M A := fun _ => Fault.
Definition zbind {A B} (m : M A) (f : A -> M B) : M B :=
  fun z => match m z with Done (z', a) => f a z' | Fault => Fault end.
Definition zget {A} (f : shz_t -> A) : M A := fun z => Done (z, f z).
Definition zset (f : shz_t -> shz_t) : M unit := fun z => Done (f z, tt).
Definition zlift {A} (o : outcome A) : M A :=
  fun z => match o with Done a => Done (z, a) | Fault => Fault end.

Notation "x <~ m ; k" := (zbind m (fun x => k))
  (at level 100, m at next level, right associativity) : share_scope.

(** Reads and writes at an offset of the buffer. *)
Definition rd (off n : nat) : M bytes := fun z =>
  match z_data z with
  | None => Fault
  | Some d => match mem_read d off n with Done l => Done (z, l) | Fault => Fault end
  end.
Definition wr (off : nat) (src : bytes) : M unit := fun z =>
  match z_data z with
  | None => Fault
  | Some d => match mem_write d off src with Done d' => Done (set_data d' z, tt) | Fault => Fault end
  end.

(** Reads and writes through a pointer, which a growth invalidates. *)
Definition deref (p : ptr) : M nat := fun z =>
  if Nat.eqb (p_gen p) (z_gen z) then Done (z, p_off p) else Fault.
Definition ld (p : ptr) (off n : nat) : M bytes := a <~ deref p; rd (a + off) n.
Definition st (p : ptr) (off : nat) (src : bytes) : M unit := a <~ deref p; wr (a + off) src.
Definition ldn (p : ptr) (off n : nat) : M Z := l <~ ld p off n; zret (of_le l).
Definition stn (p : ptr) (off n : nat) (v : Z) : M unit := st p off (le_bytes n v).

(** Fields of the base page. *)
Definition base_get (off n : nat) : M Z := l <~ rd off n; zret (of_le l).
Definition base_set (off n : nat) (v : Z) : M unit := wr off (le_bytes n v).

(** ** Headers and checksums *)

Definition shz_page_size (hdr : ptr) : M Z := v <~ ldn hdr hdr_size 2; zret (htons v).

Definition shz_page_size_set (hdr : ptr) (len : Z) : M Z :=
  if (len <? sizeof_hdr) || (SHZ_PAGE_SIZE <? len) then zret SHERR_INVAL
  else _ <~ stn hdr hdr_size 2 (htons (u16 len)); zret 0.

Definition shz_page_type_set (hdr : ptr) (type : Z) : M unit := stn hdr hdr_type 2 (htons (u16 type)).
Definition shz_page_type (hdr : ptr) : M Z := v <~ ldn hdr hdr_type 2; zret (htons v).

Definition shz_salt : M Z := fun z =>
  match z_data z with
  | None => Done (z, 0)
  | Some _ => (v <~ base_get base_salt 2; zret (htons v)) z
  end.

(** [for (idx = 0; idx < data_len; idx += 2)]: two bytes, or the last one, as a
    little-endian number; [a] has 16 bits and [b] 32. *)
Fixpoint crc16_loop (data : bytes) (a b : Z) : Z * Z :=
  match data with
  | x :: y :: rest => let a := u16 (a + of_le [x; y]) in crc16_loop rest a (u32 (b + a))
  | [x] => let a := u16 (a + of_le [x]) in (a, u32 (b + a))
  | [] => (a, b)
  end.

Definition shz_crc16 (data : bytes) (seed : Z) : Z :=
  let '(a, b) := crc16_loop data (u16 (1 + seed)) 0 in
  htons (u16 (a + u32 (Z.shiftl b 8))).

Definition shz_crc_get (hdr : ptr) : M Z :=
  size <~ shz_page_size hdr;
  if (size <? sizeof_hdr) || (SHZ_PAGE_SIZE <=? size) then zret 0
  else
    raw <~ ld hdr 0 (Z.to_nat size);
    salt <~ shz_salt;
    zret (shz_crc16 (take hdr_crc raw ++ [0; 0] ++ drop (hdr_crc + 2) raw) salt).

Definition shz_crc_set (hdr : ptr) : M unit :=
  _ <~ stn hdr hdr_crc 2 0;
  crc <~ shz_crc_get hdr;
  stn hdr hdr_crc 2 crc.

(** ** The base page *)

(** Sizes are returned as [ssize_t]; the time of an archive without a base is
    the undefined one, 0. *)
Definition base_or (off : nat) (na : Z) (f : Z -> Z) : M Z := fun z =>
  match z_data z with
  | None => Done (z, na)
  | Some _ => (v <~ base_get off 8; zret (f v)) z
  end.
Definition shz_size : M Z := base_or base_size SHERR_INVAL (fun v => sint 64 (htonll v)).
Definition shz_zsize : M Z := base_or base_zsize SHERR_INVAL (fun v => sint 64 (htonll v)).
Definition shz_ctime : M Z := base_or base_ctime 0 (fun v => v).
Definition shz_mtime : M Z := base_or base_mtime 0 (fun v => v).
Definition shz_crc : M Z := base_or base_crc (u64 SHERR_INVAL) (fun v => v).

Definition size_incr (off : nat) (len : Z) : M unit :=
  tot_len <~ base_get off 8;
  base_set off 8 (htonll (u64 (htonll tot_len + len))).
Definition shz_size_incr (len : Z) : M unit := size_incr base_size len.
Definition shz_zsize_incr (len : Z) : M unit := size_incr base_zsize len.

(** ** Allocation *)

(** [MAX(0, x)] of an unsigned difference is the difference. *)
Definition shz_avail (z : shz_t) : Z := u64 (data_max (z_buff z) - u32 (z_bseq z * SHZ_PAGE_SIZE)).

(** Counts the pages in use from the offset up to [max]. *)
Fixpoint scan_loop (fuel : nat) (s_of max : Z) : M unit :=
  if s_of <? max then
    match fuel with
    | O => zfault
    | S fuel' =>
        v <~ base_get (Z.to_nat s_of) 2;
        if htons v =? 0 then zret tt
        else
          _ <~ zset (fun z => set_bseq (u32 (z_bseq z + 1)) z);
          scan_loop fuel' (s_of + SHZ_PAGE_SIZE) max
    end
  else zret tt.
Definition shz_scan (from max : Z) : M unit := fun z =>
  let s_of := from / SHZ_PAGE_SIZE in
  if z_bseq z <=? s_of then Done (z, tt)
  else scan_loop (S (Z.to_nat (max / SHZ_PAGE_SIZE))) (s_of * SHZ_PAGE_SIZE) max z.

Section operations.
Context (E : env).

(** The growth of the buffer, of a mapped file or in memory.  The result is
    the archive with its growth count raised when the block was replaced. *)
Definition grow_buff (len : Z) : M Z := fun z =>
  let b := z_buff z in
  let done_with b' f' err :=
    Done (mk_shz (z_bseq z) (z_flags z) b' f'
            (if data_max b' =? data_max b then z_gen z else S (z_gen z)) (z_dtable z) (z_ftable z), err) in
  if 0 <? fd b then
    let now := match data b with Some d => d ++ drop (length d) (z_file z) | None => z_file z end in
    match shbuf_growmap E b now len with
    | Done (b', f', err) => done_with b' f' err
    | Fault => Fault
    end
  else
    match shbuf_grow E b len with
    | Done (b', err) => done_with b' (z_file z) err
    | Fault => Fault
    end.

(** [shz_arch_table_reset] drops the page pointer of every node; it looks the
    page of the node up first, with [pg] for [shz_page].  The code does so through
    [shz_tree_data], for nodes without a cached pointer only; the page of a node
    with one has been looked up before and is counted, so that its look-up changes
    nothing. *)
Fixpoint shz_arch_table_reset (pg : Z -> M (option ptr)) (tree : ztree) : M unit :=
  match tree with
  | TNil => zret tt
  | TNode seq l r =>
      _ <~ pg seq;
      _ <~ shz_arch_table_reset pg l;
      shz_arch_table_reset pg r
  end.

Definition reset_table (pg : Z -> M (option ptr)) (tree : ztree) (off : nat) : M unit :=
  match tree with
  | TNil => zret tt
  | _ => root <~ base_get off 4; if root =? 0 then zret tt else shz_arch_table_reset pg tree
  end.

(** [shz_alloc] and [shz_page] call each other through the reset of the tables. *)
Definition alloc_with (pg : Z -> M (option ptr)) (len : Z) : M Z := fun z =>
  let len := u64 ((u64 (len - 1) / SHZ_ALLOC_SIZE + 1) * SHZ_ALLOC_SIZE) in
  if len <? shz_avail z then Done (z, 0)
  else
    let s_len := data_max (z_buff z) in
    (err <~ grow_buff len;
     d <~ zget z_dtable;
     _ <~ reset_table pg d base_dtable;
     f <~ zget z_ftable;
     _ <~ reset_table pg f base_ftable;
     max <~ zget (fun z => data_max (z_buff z));
     _ <~ shz_scan s_len max;
     zret err) z.

(** The address of a page, which is computed with an [int]. *)
Definition page_ptr (bnum : Z) : M (option ptr) := fun z =>
  if (0 <=? bnum) && (bnum * SHZ_PAGE_SIZE <=? INT_MAX)
  then Done (z, Some (mk_ptr (z_gen z) (Z.to_nat (bnum * SHZ_PAGE_SIZE))))
  else Fault.

(** [bnum] is converted to an [int], and back for the comparisons. *)
Fixpoint page_loop (fuel : nat) (bnum : Z) : M (option ptr) := fun z =>
  let b := sint 32 bnum in
  if z_bseq z <=? u32 b then
    (size <~ shz_size;
     let max_seq := u64 (Z.quot size SHZ_PAGE_SIZE) in
     if max_seq <=? u64 b then zret None
     else
       match fuel with
       | O => zfault
       | S fuel' =>
           _ <~ zset (set_bseq (u32 (b + 1)));
           bseq <~ zget z_bseq;
           err <~ alloc_with (page_loop fuel') (u32 (u32 (bseq * SHZ_PAGE_SIZE) + SHZ_PAGE_SIZE));
           if err =? 0 then page_ptr b else zret None
       end) z
  else page_ptr b z.

(** Every nested call is for a page that was not counted yet, and counts it: the
    number of pages of the buffer is enough. *)
Definition page_fuel (z : shz_t) : nat := S (Z.to_nat (data_max (z_buff z) / SHZ_PAGE_SIZE)).

Definition shz_page (bnum : Z) : M (option ptr) := fun z => page_loop (page_fuel z) bnum z.
Definition shz_alloc (len : Z) : M Z := fun z => alloc_with (page_loop (page_fuel z)) len z.

(** The result is the page and its number. *)
Definition shz_page_new (type : Z) : M (option (ptr * Z)) :=
  avail <~ zget shz_avail;
  bseq <~ zget z_bseq;
  err <~ (if avail <=? SHZ_PAGE_SIZE
          then shz_alloc (u32 (u32 (bseq * SHZ_PAGE_SIZE) + SHZ_PAGE_SIZE))
          else zret 0);
  if negb (err =? 0) then zret None
  else
    bnum <~ zget z_bseq;
    _ <~ zset (set_bseq (u32 (bnum + 1)));
    _ <~ shz_size_incr SHZ_PAGE_SIZE;
    r <~ shz_page bnum;
    match r with
    | None => zret None
    | Some blk =>
        _ <~ stn blk hdr_magic 2 SHMEM16_MAGIC;
        _ <~ shz_page_type_set blk type;
        zret (Some (blk, bnum))
    end.

(** The checks of a page; nothing is copied to the caller. *)
Definition shz_read_page (bnum : Z) : M Z :=
  r <~ shz_page bnum;
  match r with
  | None => zret SHERR_IO
  | Some blk =>
      v <~ ldn blk hdr_type 2;
      let type := htons v in
      if type =? 0 then zret 0
      else if MAX_SHZ_PAGE_MODES <=? type then zret SHERR_INVAL
      else
        magic <~ ldn blk hdr_magic 2;
        if negb (magic =? SHMEM16_MAGIC) then zret SHERR_INVAL
        else
          size <~ shz_page_size blk;
          if SHZ_PAGE_SIZE <? size then zret SHERR_INVAL
          else if type =? SHZ_PAGE_BASE then zret 0
          else
            crc <~ shz_crc_get blk;
            stored <~ ldn blk hdr_crc 2;
            if crc =? stored then zret 0 else zret SHERR_ILSEQ
  end.

End operations.

(** ** Blocks of memory *)

Definition slice (l : bytes) (o n : nat) : bytes := take n (drop o l).
Definition splice (l : bytes) (o : nat) (src : bytes) : bytes := take o l ++ src ++ drop (o + length src) l.

Lemma length_slice l o n : (o + n <= length l)%nat -> length (slice l o n) = n.
Proof. intros. unfold slice. llia. Qed.

Lemma length_splice l o src : (o + length src <= length l)%nat -> length (splice l o src) = length l.
Proof. intros. unfold splice. llia. Qed.

Lemma slice_splice_same l o src : (o + length src <= length l)%nat -> slice (splice l o src) o (length src) = src.
Proof.
  intros. unfold slice, splice. rewrite drop_app_length' by llia. by rewrite take_app_length.
Qed.

Lemma slice_splice_before l o src o' n :
  (o + length src <= length l)%nat -> (o' + n <= o)%nat -> slice (splice l o src) o' n = slice l o' n.
Proof.
  intros. unfold slice, splice. rewrite drop_app_le, take_app_le by llia.
  rewrite skipn_firstn_comm, take_take. f_equal. lia.
Qed.

Lemma slice_splice_after l o src o' n :
  (o + length src <= length l)%nat -> (o + length src <= o')%nat -> slice (splice l o src) o' n = slice l o' n.
Proof.
  intros. unfold slice, splice. f_equal. rewrite app_assoc, drop_app_ge by llia.
  rewrite drop_drop. f_equal. llia.
Qed.

(** A field inside a page, and an update inside one. *)
Lemma slice_slice l o n o' n' : (o' + n' <= n)%nat -> slice (slice l o n) o' n' = slice l (o + o') n'.
Proof.
  intros. unfold slice. rewrite skipn_firstn_comm, drop_drop, take_take. f_equal. lia.
Qed.

Lemma slice_splice_inside l o src p n :
  (o + length src <= length l)%nat -> (p <= o)%nat -> (o + length src <= p + n)%nat ->
  slice (splice l o src) p n = splice (slice l p n) (o - p) src.
Proof.
  intros. unfold slice, splice. rewrite drop_app_le by llia.
  rewrite take_app, take_app. rewrite skipn_firstn_comm.
  rewrite (take_ge (take (o - p) _)) by llia. rewrite (take_ge src) by llia.
  rewrite take_take, Nat.min_l by lia. rewrite skipn_firstn_comm, drop_drop. do 2 f_equal.
  replace (p + (o - p + length src))%nat with (o + length src)%nat by lia. f_equal. llia.
Qed.

Lemma slice_app_l l k o n : (o + n <= length l)%nat -> slice (l ++ k) o n = slice l o n.
Proof. intros. unfold slice. by rewrite drop_app_le, take_app_le by llia. Qed.

#[export] Hint Rewrite length_slice length_splice using llia : len.

(** ** Pages as values

    [pg z b] is page [b] of the archive and [set_pg b P z] the archive with the
    page replaced by [P]; every store through a page pointer is such a
    replacement. *)

Definition dat (z : shz_t) : bytes := match z_data z with Some d => d | None => [] end.
Definition pg (z : shz_t) (b : Z) : bytes := slice (dat z) (Z.to_nat (b * 1024)) 1024.
Definition set_pg (b : Z) (P : bytes) (z : shz_t) : shz_t := set_data (splice (dat z) (Z.to_nat (b * 1024)) P) z.

(** The page lies in the buffer, and a pointer to it is still valid. *)
Definition inside (z : shz_t) (b : Z) : Prop :=
  z_data z = Some (dat z) /\ 0 <= b /\ (b + 1) * 1024 <= Z.of_nat (length (dat z)).
Definition points (p : ptr) (z : shz_t) (b : Z) : Prop := p = mk_ptr (z_gen z) (Z.to_nat (b * 1024)).

Lemma zbind_done {A B} {m : M A} {f : A -> M B} {z z' a} :
  m z = Done (z', a) -> zbind m f z = f a z'.
Proof. intros H. unfold zbind. by rewrite H. Qed.

Lemma length_pg z b : inside z b -> length (pg z b) = 1024%nat.
Proof. intros (_ & ? & ?). unfold pg. apply length_slice. lia. Qed.

Lemma inside_set_pg z b P c : inside z b -> length P = 1024%nat -> inside z c -> inside (set_pg b P z) c.
Proof.
  intros (H1 & H2 & H3) HP (H4 & H5 & H6). split_and!; [done | done |].
  change (dat (set_pg b P z)) with (splice (dat z) (Z.to_nat (b * 1024)) P). rewrite length_splice; lia.
Qed.

Lemma pg_set_same z b P : inside z b -> length P = 1024%nat -> pg (set_pg b P z) b = P.
Proof.
  intros (H1 & H2 & H3) HP. unfold pg. change (dat (set_pg b P z)) with (splice (dat z) (Z.to_nat (b * 1024)) P).
  rewrite <- HP at 1. apply slice_splice_same. lia.
Qed.

Lemma pg_set_other z b P c :
  inside z b -> length P = 1024%nat -> 0 <= c -> c <> b -> pg (set_pg b P z) c = pg z c.
Proof.
  intros (H1 & H2 & H3) HP Hc Hne. unfold pg.
  change (dat (set_pg b P z)) with (splice (dat z) (Z.to_nat (b * 1024)) P).
  destruct (Z_lt_le_dec c b); [apply slice_splice_before | apply slice_splice_after]; lia.
Qed.

Lemma splice_splice l o src p n :
  (p + n <= length l)%nat -> (o + length src <= n)%nat ->
  splice l p (splice (slice l p n) o src) = splice l (p + o) src.
Proof.
  intros. unfold splice, slice. rewrite length_app, length_app, !length_take, !length_drop, length_take, length_drop.
  rewrite take_take, Nat.min_l by lia.
  rewrite (skipn_firstn_comm (o + length src)), drop_drop.
  rewrite <- (take_take_drop l p o), <- !app_assoc. do 3 f_equal.
  replace (p + (o + length src))%nat with (p + o + length src)%nat by lia.
  etrans; [|apply (take_drop (n - (o + length src)))]. rewrite drop_drop. do 2 f_equal. lia.
Qed.

Lemma splice_twice l o src src' :
  (o + length src <= length l)%nat -> length src' = length src -> splice (splice l o src) o src' = splice l o src'.
Proof.
  intros H1 H2. unfold splice. rewrite take_app_length' by llia. do 2 f_equal.
  rewrite app_assoc, drop_app_length' by llia. by rewrite H2.
Qed.

Lemma set_pg_twice z b P Q :
  inside z b -> length P = 1024%nat -> length Q = 1024%nat -> set_pg b Q (set_pg b P z) = set_pg b Q z.
Proof.
  intros (H1 & H2 & H3) HP HQ. unfold set_pg.
  change (dat (set_data (splice (dat z) (Z.to_nat (b * 1024)) P) z)) with (splice (dat z) (Z.to_nat (b * 1024)) P).
  rewrite splice_twice by lia. done.
Qed.

Lemma ld_ok p z b o n :
  points p z b -> inside z b -> (o + n <= 1024)%nat -> ld p o n z = Done (z, slice (pg z b) o n).
Proof.
  intros -> (H1 & H2 & H3) Ho. unfold ld, zbind, deref. cbn [p_gen p_off]. rewrite Nat.eqb_refl.
  unfold rd. rewrite H1, mem_read_ok by lia. do 2 f_equal. unfold pg. by rewrite slice_slice by lia.
Qed.

Lemma st_ok p z b o src :
  points p z b -> inside z b -> (o + length src <= 1024)%nat ->
  st p o src z = Done (set_pg b (splice (pg z b) o src) z, tt).
Proof.
  intros -> (H1 & H2 & H3) Ho. unfold st, zbind, deref. cbn [p_gen p_off]. rewrite Nat.eqb_refl.
  unfold wr. rewrite H1, mem_write_ok by lia. do 2 f_equal. unfold set_pg. f_equal.
  unfold pg. rewrite splice_splice by lia. done.
Qed.

(** Numeric fields of a page. *)
Definition fget (P : bytes) (o n : nat) : Z := of_le (slice P o n).
Definition fput (P : bytes) (o n : nat) (v : Z) : bytes := splice P o (le_bytes n v).

Lemma length_fput P o n v : (o + n <= length P)%nat -> length (fput P o n v) = length P.
Proof. intros. unfold fput. apply length_splice. by rewrite length_le_bytes. Qed.

Lemma fget_fput_same P o n v :
  (o + n <= length P)%nat -> is_uint (8 * Z.of_nat n) v -> fget (fput P o n v) o n = v.
Proof.
  intros H Hv. unfold fget, fput. pose proof (slice_splice_same P o (le_bytes n v)) as E.
  rewrite length_le_bytes in E. rewrite E by done. by apply of_le_bytes.
Qed.

Lemma slice_fput_other P o n v o' n' :
  (o + n <= length P)%nat -> (o' + n' <= o)%nat \/ (o + n <= o')%nat -> slice (fput P o n v) o' n' = slice P o' n'.
Proof.
  intros H [H'|H']; unfold fput; [apply slice_splice_before | apply slice_splice_after]; by rewrite ?length_le_bytes.
Qed.

Lemma fget_fput_other P o n v o' n' :
  (o + n <= length P)%nat -> (o' + n' <= o)%nat \/ (o + n <= o')%nat -> fget (fput P o n v) o' n' = fget P o' n'.
Proof. intros. unfold fget. by rewrite slice_fput_other. Qed.

Lemma slice_splice_other P o src o' n' :
  (o + length src <= length P)%nat -> (o' + n' <= o)%nat \/ (o + length src <= o')%nat ->
  slice (splice P o src) o' n' = slice P o' n'.
Proof. intros H [H'|H']; [by apply slice_splice_before | by apply slice_splice_after]. Qed.

Lemma fget_splice_other P o src o' n' :
  (o + length src <= length P)%nat -> (o' + n' <= o)%nat \/ (o + length src <= o')%nat ->
  fget (splice P o src) o' n' = fget P o' n'.
Proof. intros. unfold fget. by rewrite slice_splice_other. Qed.

Lemma ldn_ok p z b o n :
  points p z b -> inside z b -> (o + n <= 1024)%nat -> ldn p o n z = Done (z, fget (pg z b) o n).
Proof. intros. unfold ldn. by rewrite (zbind_done (ld_ok p z b o n ltac:(done) ltac:(done) ltac:(done))). Qed.

Lemma stn_ok p z b o n v :
  points p z b -> inside z b -> (o + n <= 1024)%nat -> stn p o n v z = Done (set_pg b (fput (pg z b) o n v) z, tt).
Proof. intros. unfold stn. apply st_ok; [done | done | by rewrite length_le_bytes]. Qed.

Lemma htonll_involutive v : is_uint 64 v -> htonll (htonll v) = v.
Proof.
  intros Hv. assert (forall a, htonll a = htonl (a mod 2 ^ 32) * 2 ^ 32 + htonl (u32 (a / 2 ^ 32))) as E.
  { intros a. unfold htonll. change 0xFFFFFFFF with (Z.ones 32). rewrite Z.land_ones, Z.shiftr_div_pow2 by lia.
    pose proof (htonl_range (a mod 2 ^ 32)) as H1. rewrite (wrap_small 64) by (rewrite Z.shiftl_mul_pow2 by lia; ranges; lia).
    apply lor_add; [lia | apply htonl_range]. }
  rewrite (E (htonll v)), (E v). pose proof (htonl_range (u32 (v / 2 ^ 32))) as H1. pose proof (htonl_range (v mod 2 ^ 32)) as H2.
  assert (u32 (v / 2 ^ 32) = v / 2 ^ 32) as E1 by (apply wrap_small; ranges; mlia). rewrite E1 in *.
  set (x := htonl (v mod 2 ^ 32)) in *. set (y := htonl (v / 2 ^ 32)) in *.
  replace ((x * 2 ^ 32 + y) mod 2 ^ 32) with y by (ranges; mlia).
  replace ((x * 2 ^ 32 + y) / 2 ^ 32) with x by (ranges; mlia).
  rewrite (wrap_small 32 x) by done. unfold x, y. rewrite !htonl_involutive by (ranges; mlia). ranges; mlia.
Qed.

(** ** Headers as functions of the page *)

Definition p_type (P : bytes) : Z := htons (fget P hdr_type 2).
Definition p_size (P : bytes) : Z := htons (fget P hdr_size 2).
Definition set_size (P : bytes) (len : Z) : bytes := fput P hdr_size 2 (htons (u16 len)).
Definition set_type (P : bytes) (type : Z) : bytes := fput P hdr_type 2 (htons (u16 type)).

Definition crc_of (salt : Z) (P : bytes) : Z :=
  if (p_size P <? sizeof_hdr) || (SHZ_PAGE_SIZE <=? p_size P) then 0
  else let raw := slice P 0 (Z.to_nat (p_size P)) in
       shz_crc16 (take hdr_crc raw ++ [0; 0] ++ drop (hdr_crc + 2) raw) salt.
Definition set_crc (salt : Z) (P : bytes) : bytes :=
  let P0 := fput P hdr_crc 2 0 in fput P0 hdr_crc 2 (crc_of salt P0).

Definition z_salt (z : shz_t) : Z := htons (fget (pg z 0) base_salt 2).

(** The header offsets as numbers, for [lia]. *)
Ltac offs := unfold hdr_type, hdr_magic, hdr_crc, hdr_size, base_salt, base_size, base_zsize, base_crc, base_ctime,
  base_mtime, base_dtable, base_ftable, map_right, map_left, mod_id, mod_size, mod_crc, mod_seq, mod_name,
  mod_ctime, mod_mtime, data_seq, sizeof_hdr, sizeof_base, sizeof_map, sizeof_mod, sizeof_data, SHZ_PAGE_SIZE,
  SHZ_ALLOC_SIZE, SHZ_HASH_MASK, SHZ_MAX_INDEX_SIZE in *.
Ltac olia := offs; rewrite ?length_le_bytes; lia.

Lemma length_set_size P len : length P = 1024%nat -> length (set_size P len) = 1024%nat.
Proof. intros H. unfold set_size. rewrite length_fput; [done | olia]. Qed.
Lemma length_set_type P t : length P = 1024%nat -> length (set_type P t) = 1024%nat.
Proof. intros H. unfold set_type. rewrite length_fput; [done | olia]. Qed.
Lemma length_set_crc s P : length P = 1024%nat -> length (set_crc s P) = 1024%nat.
Proof. intros H. unfold set_crc. rewrite !length_fput; (done || rewrite ?length_fput; olia). Qed.

(** Outside their own bytes the header updates change nothing. *)
Lemma slice_set_size P len o n : length P = 1024%nat -> (8 <= o)%nat -> slice (set_size P len) o n = slice P o n.
Proof. intros. apply slice_fput_other; olia. Qed.
Lemma slice_set_crc s P o n : length P = 1024%nat -> (o + n <= 4)%nat \/ (6 <= o)%nat -> slice (set_crc s P) o n = slice P o n.
Proof. intros. unfold set_crc. rewrite !slice_fput_other; (done || rewrite ?length_fput; olia). Qed.

Lemma p_size_set_size P len : length P = 1024%nat -> 0 <= len <= 1024 -> p_size (set_size P len) = len.
Proof.
  intros HP Hl. unfold p_size, set_size. rewrite fget_fput_same; [|olia | apply htons_range].
  rewrite wrap_small by rlia. rewrite htons_involutive by rlia. done.
Qed.
Lemma p_type_set_type P t : length P = 1024%nat -> is_uint 16 t -> p_type (set_type P t) = t.
Proof.
  intros HP Ht. unfold p_type, set_type. rewrite fget_fput_same; [|olia | apply htons_range].
  rewrite wrap_small by done. by rewrite htons_involutive.
Qed.
Lemma p_size_set_crc s P : length P = 1024%nat -> p_size (set_crc s P) = p_size P.
Proof. intros. unfold p_size, fget. rewrite slice_set_crc; [done | done | offs; lia]. Qed.
Lemma p_type_set_crc s P : length P = 1024%nat -> p_type (set_crc s P) = p_type P.
Proof. intros. unfold p_type, fget. rewrite slice_set_crc; [done | done | offs; lia]. Qed.
Lemma p_type_set_size P len : length P = 1024%nat -> p_type (set_size P len) = p_type P.
Proof. intros. unfold p_type, set_size. rewrite fget_fput_other; [done | olia | offs; lia]. Qed.

(** The checksum is computed as if its own field were zero. *)
Lemma crc_of_crc salt P v : length P = 1024%nat -> crc_of salt (fput P hdr_crc 2 v) = crc_of salt P.
Proof.
  intros HP. unfold crc_of. assert (p_size (fput P hdr_crc 2 v) = p_size P) as ->.
  { unfold p_size. rewrite fget_fput_other; [done | olia | offs; lia]. }
  destruct ((p_size P <? sizeof_hdr) || (SHZ_PAGE_SIZE <=? p_size P)) eqn:E; [done |].
  apply orb_false_elim in E as [E1 E2]. f_equal.
  assert (8 <= p_size P < 1024) as Hs by (offs; lia). set (n := Z.to_nat (p_size P)). assert (8 <= n < 1024)%nat by lia.
  assert (forall Q, take hdr_crc (slice Q 0 n) = slice Q 0 4) as E3.
  { intros Q. unfold slice. rewrite take_take. f_equal. offs; lia. }
  assert (forall Q, drop (hdr_crc + 2) (slice Q 0 n) = slice Q 6 (n - 6)) as E4.
  { intros Q. unfold slice. rewrite drop_0, skipn_firstn_comm. done. }
  rewrite !E3, !E4, !slice_fput_other; (done || offs; lia).
Qed.

Lemma crc16_range data seed : is_uint 16 (shz_crc16 data seed).
Proof. unfold shz_crc16. destruct (crc16_loop _ _ _). apply htons_range. Qed.
Lemma crc_of_range s P : is_uint 16 (crc_of s P).
Proof. unfold crc_of. destruct (_ || _); [rlia | apply crc16_range]. Qed.

Lemma crc_verifies salt P : length P = 1024%nat -> crc_of salt (set_crc salt P) = fget (set_crc salt P) hdr_crc 2.
Proof.
  intros HP. unfold set_crc. rewrite fget_fput_same; [|rewrite length_fput; olia | apply crc_of_range].
  rewrite crc_of_crc; [done | rewrite length_fput; olia].
Qed.

(** ** Specifications of the header operations *)

(** Steps over the calls of a computation, with the specification of each. *)
Ltac zstep H := rewrite (zbind_done H).

Section headers.
Context {p : ptr} {z : shz_t} {b : Z} (Hp : points p z b) (Hb : inside z b).

Lemma page_size_ok : shz_page_size p z = Done (z, p_size (pg z b)).
Proof. unfold shz_page_size. zstep (ldn_ok p z b hdr_size 2 Hp Hb ltac:(olia)). done. Qed.

Lemma page_type_ok : shz_page_type p z = Done (z, p_type (pg z b)).
Proof. unfold shz_page_type. zstep (ldn_ok p z b hdr_type 2 Hp Hb ltac:(olia)). done. Qed.

Lemma page_type_set_ok t : shz_page_type_set p t z = Done (set_pg b (set_type (pg z b) t) z, tt).
Proof. apply stn_ok; [done | done | olia]. Qed.

Lemma page_size_set_ok len :
  8 <= len <= 1024 -> shz_page_size_set p len z = Done (set_pg b (set_size (pg z b) len) z, 0).
Proof.
  intros Hl. unfold shz_page_size_set. offs.
  destruct (Z.ltb_spec len 8); [lia|]. destruct (Z.ltb_spec 1024 len); [lia|]. cbn [orb].
  by zstep (stn_ok p z b 6 2 (htons (u16 len)) Hp Hb ltac:(lia)).
Qed.

Lemma salt_ok : inside z 0 -> shz_salt z = Done (z, z_salt z).
Proof.
  intros (H1 & H2 & H3). unfold shz_salt. rewrite H1. unfold base_get, rd, zbind. rewrite H1.
  rewrite mem_read_ok by olia. unfold zret. do 3 f_equal. unfold z_salt, fget, pg. by rewrite slice_slice by olia.
Qed.

Lemma crc_get_ok : inside z 0 -> shz_crc_get p z = Done (z, crc_of (z_salt z) (pg z b)).
Proof.
  intros H0. unfold shz_crc_get. zstep page_size_ok. unfold crc_of.
  destruct (_ || _) eqn:E; [done |]. apply orb_false_elim in E as [E1 E2].
  zstep (ld_ok p z b 0 (Z.to_nat (p_size (pg z b))) Hp Hb ltac:(olia)). by zstep (salt_ok H0).
Qed.
End headers.

Lemma crc_set_ok p z b :
  points p z b -> inside z b -> inside z 0 -> b <> 0 ->
  shz_crc_set p z = Done (set_pg b (set_crc (z_salt z) (pg z b)) z, tt).
Proof.
  intros Hp Hb H0 Hne. unfold shz_crc_set. zstep (stn_ok p z b hdr_crc 2 0 Hp Hb ltac:(olia)).
  set (P0 := fput (pg z b) hdr_crc 2 0). assert (length P0 = 1024%nat) as HP.
  { unfold P0. rewrite length_fput; rewrite length_pg by done; [done | olia]. }
  assert (inside (set_pg b P0 z) b) as Hb1 by (by apply inside_set_pg).
  assert (inside (set_pg b P0 z) 0) as H01 by (by apply inside_set_pg).
  zstep (@crc_get_ok p (set_pg b P0 z) b Hp Hb1 H01). rewrite pg_set_same by done.
  rewrite (stn_ok p (set_pg b P0 z) b) by (done || olia). rewrite pg_set_same by done.
  rewrite set_pg_twice by (done || rewrite length_fput; (done || olia)). do 3 f_equal. unfold set_crc. fold P0. f_equal.
  unfold z_salt. rewrite pg_set_other by (done || lia). done.
Qed.

(** ** Well-formed archives *)

Fixpoint tree_below (N : Z) (t : ztree) : Prop :=
  match t with TNil => True | TNode seq l r => 0 <= seq < N /\ tree_below N l /\ tree_below N r end.

(** The largest archive considered, one gigabyte: beyond two the code computes
    addresses that an [int] cannot hold. *)
Definition MAX_PAGES : Z := 1048576.

(** An archive of [N] pages in a mapped file: the recorded size is that of the
    pages, the file behind them holds zeros, and the count [bseq] is at most [N];
    it is smaller when an existing archive was opened, which counts a page when
    it is first used. *)
Record arch (N : Z) (z : shz_t) : Prop := mk_arch {
  a_data : z_data z = Some (dat z);
  a_len : Z.of_nat (length (dat z)) = data_max (z_buff z);
  a_of : 0 <= data_of (z_buff z) <= data_max (z_buff z);
  a_fd : 0 < fd (z_buff z);
  a_file : exists k, drop (length (dat z)) (z_file z) = replicate k 0;
  a_N : 1 <= N <= MAX_PAGES;
  a_room : N * 1024 <= data_max (z_buff z) <= INT_MAX;
  a_bseq : 0 <= z_bseq z <= N;
  a_size : fget (pg z 0) base_size 8 = htonll (N * 1024);
  a_trees : tree_below N (z_dtable z) /\ tree_below N (z_ftable z);
  a_free : drop (Z.to_nat (N * 1024)) (dat z) = replicate (length (dat z) - Z.to_nat (N * 1024)) 0
}.

(** What a growth and the counting of pages leave: the pages and the tables. *)
Record grown (z z' : shz_t) : Prop := mk_grown {
  g_dat : exists k, dat z' = dat z ++ replicate k 0;
  g_flags : z_flags z' = z_flags z;
  g_dtable : z_dtable z' = z_dtable z;
  g_ftable : z_ftable z' = z_ftable z;
  g_bseq : z_bseq z <= z_bseq z';
  g_gen : (z_gen z <= z_gen z')%nat;
  g_max : z_gen z' = z_gen z -> data_max (z_buff z') = data_max (z_buff z)
}.

#[global] Instance grown_preorder : PreOrder grown.
Proof.
  split.
  - intros z. split; (done || lia || exists 0%nat; by rewrite app_nil_r).
  - intros x y z [[k1 H1] ? ? ? ? ? M1] [[k2 H2] ? ? ? ? ? M2]. split; (congruence || lia || idtac).
    exists (k1 + k2)%nat. by rewrite H2, H1, replicate_add, app_assoc.
Qed.

Lemma arch_inside N z b : arch N z -> 0 <= b < N -> inside z b.
Proof. intros H Hb. destruct H. split_and!; [done | lia | lia]. Qed.

Lemma grown_pg N z z' b : arch N z -> grown z z' -> 0 <= b < N -> pg z' b = pg z b.
Proof.
  intros Ha [[k Hk] _ _ _ _ _ _] Hb. destruct (arch_inside N z b Ha Hb) as (_ & _ & Hi).
  unfold pg. rewrite Hk. apply slice_app_l. lia.
Qed.

Lemma arch_set_bseq N z n : arch N z -> 0 <= n <= N -> arch N (set_bseq n z).
Proof. intros [] Hn. by split. Qed.

Lemma grown_set_bseq z n : z_bseq z <= n -> grown z (set_bseq n z).
Proof. intros. split; (done || exists 0%nat; by rewrite app_nil_r). Qed.

Lemma arch_set_pg N z b P :
  arch N z -> 0 < b < N -> length P = 1024%nat -> arch N (set_pg b P z).
Proof.
  intros Ha Hb HP. pose proof (arch_inside N z b Ha ltac:(lia)) as Hi. pose proof (arch_inside N z 0 Ha ltac:(lia)) as H0.
  pose proof (inside_set_pg z b P b Hi HP Hi) as (Hs1 & _ & Hs2). pose proof Hi as (_ & _ & Hl). destruct Ha.
  assert (dat (set_pg b P z) = splice (dat z) (Z.to_nat (b * 1024)) P) as Ed by done.
  assert (length (dat (set_pg b P z)) = length (dat z)) as El by (rewrite Ed, length_splice; lia).
  split; try done.
  - by rewrite El.
  - by rewrite El.
  - rewrite pg_set_other by (done || lia). done.
  - rewrite El, <- a_free0, Ed. unfold splice. rewrite app_assoc, drop_app_ge by llia. rewrite drop_drop. f_equal. llia.
Qed.

(** Rounding up to the allocation unit. *)
Lemma round_up len :
  1 <= len <= INT_MAX -> exists k, u64 ((u64 (len - 1) / SHZ_ALLOC_SIZE + 1) * SHZ_ALLOC_SIZE) = k /\ len <= k < len + 65536 /\ (SHARE_PAGE_SIZE | k).
Proof.
  intros H. unfold INT_MAX in H. offs. eexists. split; [done |].
  rewrite (wrap_small 64 (len - 1)) by rlia. rewrite wrap_small by (ranges; mlia).
  split; [mlia |]. change 65536 with (8 * SHARE_PAGE_SIZE). rewrite Z.mul_assoc. apply Z.divide_factor_r.
Qed.

(** The environment of a mapped file: pages of a size that divides the block
    size of the library, a file that can be extended, and a mapping that
    succeeds.  Nothing is assumed of the memory [realloc] returns. *)
Record mapped_env (E : env) : Prop := mk_mapped_env {
  me_pos : 0 < page_size E;
  me_div : (page_size E | SHARE_PAGE_SIZE);
  me_write : forall k, write_ok E k = true;
  me_mmap : mmap_ok E = true
}.

Section allocation.
Context (E : env) (Hmenv : mapped_env E).

(** The archive with a longer mapping. *)
Definition regrow (k : nat) (file : bytes) (z : shz_t) : shz_t :=
  let b := z_buff z in
  let max := data_max b + Z.of_nat k in
  mk_shz (z_bseq z) (z_flags z)
    (mk_buf (Some (dat z ++ replicate k 0)) max max (data_pos b) (Z.lor (ShBuf.flags b) SHBUF_FMAP) (fd b))
    file (S (z_gen z)) (z_dtable z) (z_ftable z).

Lemma regrow_grown k file z : grown z (regrow k file z).
Proof. split; try done; [by exists k | cbn [regrow z_gen]; lia..]. Qed.

Lemma regrow_arch N k j z :
  arch N z -> data_max (z_buff z) + Z.of_nat k <= INT_MAX -> arch N (regrow k (dat z ++ replicate j 0) z).
Proof.
  intros Ha Hk. pose proof (grown_pg N z _ 0 Ha (regrow_grown k (dat z ++ replicate j 0) z)) as Hp.
  assert (dat (regrow k (dat z ++ replicate j 0) z) = dat z ++ replicate k 0) as Ed by done. destruct Ha.
  split; try done; try (cbn [regrow z_buff data_of data_max]; lia).
  - rewrite Ed. cbn [regrow z_buff data_max]. llia.
  - rewrite Ed. cbn [regrow z_file]. exists (j - k)%nat. rewrite length_app, length_replicate, <- drop_drop, drop_app_length.
    apply drop_replicate.
  - rewrite Hp by lia. done.
  - rewrite Ed, drop_app_le by lia. rewrite a_free0, <- replicate_add. f_equal. llia.
Qed.

Lemma take_app_zeros (l : bytes) k j : (k <= j)%nat -> take (length l + k) (l ++ replicate j 0) = l ++ replicate k 0.
Proof. intros H. rewrite take_app_add, take_replicate. do 2 f_equal. lia. Qed.

Lemma grow_buff_ok N z len :
  arch N z -> 0 < len <= GROW_LIMIT -> (SHARE_PAGE_SIZE | len) ->
  exists z', grow_buff E len z = Done (z', 0) /\ arch N z' /\ grown z z' /\ z_bseq z' = z_bseq z /\
    len <= data_max (z_buff z').
Proof.
  intros Ha Hl Hd. destruct Hmenv as [Hp Hdiv Hw Hm]. assert (page_size E | len) as Hpl by (by etrans).
  unfold grow_buff. pose proof (a_data _ _ Ha) as Hda. unfold z_data in Hda. rewrite Hda.
  destruct (Z.ltb_spec 0 (fd (z_buff z))); [|destruct Ha; lia]. destruct (a_file _ _ Ha) as [j Hj]. rewrite Hj.
  destruct (Z_lt_le_dec (data_max (z_buff z)) len) as [Hlt|Hge].
  - destruct (growmap_file_ok E (z_buff z) (dat z ++ replicate j 0) len) as (k & Hk & ->); try done.
    { by rewrite Hda. }
    { apply Z.divide_pos_le; [lia | done]. }
    { by apply Z.mod_divide; [lia |]. }
    pose proof (a_len _ _ Ha) as Hal. set (m := Z.to_nat (len - data_max (z_buff z))).
    rewrite <- app_assoc, <- replicate_add. rewrite length_app, length_replicate in Hk.
    assert (Z.to_nat len = length (dat z) + m)%nat as Em by lia. rewrite Em, take_app_zeros by lia. cbn [data_max].
    destruct (Z.eqb_spec len (data_max (z_buff z))); [lia |].
    exists (regrow m (dat z ++ replicate (j + k) 0) z). split_and!.
    + unfold regrow. by replace (data_max (z_buff z) + Z.of_nat m) with len by lia.
    + apply regrow_arch; [done |]. unfold GROW_LIMIT in Hl. lia.
    + apply regrow_grown.
    + done.
    + cbn [regrow z_buff data_max]. lia.
  - unfold shbuf_growmap. rewrite Hda. destruct (Z.leb_spec len (data_max (z_buff z))); [|lia]. rewrite Z.eqb_refl.
    eexists. split; [reflexivity |]. split_and!; try (done || lia).
    + destruct Ha. split; try done. exists j. change (drop (length (dat z)) (dat z ++ replicate j 0) = replicate j 0). by rewrite drop_app_length.
    + split; (done || exists 0%nat; by rewrite app_nil_r).
Qed.

(** The result of looking a page up. *)
Definition at_page (z : shz_t) (b : Z) : ptr := mk_ptr (z_gen z) (Z.to_nat (b * 1024)).

Lemma points_at z b : points (at_page z b) z b.
Proof. done. Qed.

Lemma base_get_ok z o n : inside z 0 -> (o + n <= 1024)%nat -> base_get o n z = Done (z, fget (pg z 0) o n).
Proof.
  intros (H1 & H2 & H3) Ho. unfold base_get, rd, zbind. rewrite H1, mem_read_ok by lia. unfold zret. do 3 f_equal.
  unfold fget, pg. by rewrite slice_slice by lia.
Qed.

Lemma size_ok N z : arch N z -> shz_size z = Done (z, N * 1024).
Proof.
  intros Ha. pose proof (arch_inside N z 0 Ha) as Hi. destruct Ha. unfold MAX_PAGES in *.
  unfold shz_size, base_or. rewrite a_data0. rewrite (zbind_done (base_get_ok z base_size 8 ltac:(apply Hi; lia) ltac:(olia))).
  rewrite a_size0, htonll_involutive by rlia. unfold sint. rewrite wrap_small by rlia.
  change (2 ^ (64 - 1)) with 9223372036854775808. destruct (Z.ltb_spec (N * 1024) 9223372036854775808); [done | lia].
Qed.

Lemma avail_ok N z : arch N z -> shz_avail z = data_max (z_buff z) - z_bseq z * 1024.
Proof.
  intros []. unfold shz_avail, MAX_PAGES, INT_MAX in *. offs. rewrite (wrap_small 32) by rlia. by rewrite wrap_small by rlia.
Qed.

Lemma page_ptr_ok N z b : arch N z -> 0 <= b < N -> page_ptr b z = Done (z, Some (at_page z b)).
Proof.
  intros [] Hb. unfold page_ptr, MAX_PAGES, INT_MAX in *. offs.
  destruct (Z.leb_spec 0 b); [|lia]. destruct (Z.leb_spec (b * 1024) 2147483647); [|lia]. done.
Qed.

(** [pgf] looks up any page of an archive that has counted [B] of them. *)
Definition looks_up (N B : Z) (pgf : Z -> M (option ptr)) : Prop :=
  forall z b, arch N z -> B <= z_bseq z -> 0 <= b < N ->
  exists z', pgf b z = Done (z', Some (at_page z' b)) /\ arch N z' /\ grown z z' /\ b < z_bseq z'.

Lemma table_reset_ok N B pgf t z :
  looks_up N B pgf -> arch N z -> B <= z_bseq z -> tree_below N t ->
  exists z', shz_arch_table_reset pgf t z = Done (z', tt) /\ arch N z' /\ grown z z'.
Proof.
  intros Hp. revert z. induction t as [|s l IHl r IHr]; intros z Ha HB Ht; [by exists z |].
  destruct Ht as (Hs & Hl & Hr). cbn [shz_arch_table_reset].
  destruct (Hp z s Ha HB Hs) as (z1 & E1 & A1 & G1 & _). zstep E1.
  destruct (IHl z1 A1) as (z2 & E2 & A2 & G2); [destruct G1; lia | done |]. zstep E2.
  destruct (IHr z2 A2) as (z3 & E3 & A3 & G3); [destruct G1, G2; lia | done |].
  exists z3. split_and!; [done | done |]. by do 2 (etrans; [eassumption |]).
Qed.

Lemma reset_table_ok N B pgf t off z :
  looks_up N B pgf -> arch N z -> B <= z_bseq z -> tree_below N t -> (off + 4 <= 1024)%nat ->
  exists z', reset_table pgf t off z = Done (z', tt) /\ arch N z' /\ grown z z'.
Proof.
  intros Hp Ha HB Ht Ho. unfold reset_table. destruct t as [|s l r]; [by exists z |].
  zstep (base_get_ok z off 4 ltac:(apply (arch_inside N); [done | destruct Ha; lia]) Ho).
  case_cmp; [by exists z |]. by apply (table_reset_ok N B).
Qed.

Lemma alloc_with_ok N pgf len z :
  looks_up N (z_bseq z) pgf -> arch N z -> 1 <= len -> len + 65536 <= GROW_LIMIT ->
  exists z', alloc_with E pgf len z = Done (z', 0) /\ arch N z' /\ grown z z' /\ len <= data_max (z_buff z').
Proof.
  intros Hp Ha H1 H2. unfold alloc_with, GROW_LIMIT in *. destruct (round_up len) as (k & -> & Hk & Hkd); [lia |].
  case_cmp as [Hlt|Hge].
  { exists z. rewrite (avail_ok N) in Hlt by done. destruct Ha. split_and!; try (done || lia). }
  destruct (grow_buff_ok N z k Ha) as (z1 & E1 & A1 & G1 & B1 & M1); [unfold GROW_LIMIT; lia | done |]. zstep E1. cbn [zget].
  destruct (reset_table_ok N (z_bseq z) pgf (z_dtable z1) base_dtable z1) as (z2 & E2 & A2 & G2);
    [done | done | lia | apply (a_trees _ _ A1) | olia |].
  unfold zbind at 1, zget at 1. zstep E2.
  destruct (reset_table_ok N (z_bseq z) pgf (z_ftable z2) base_ftable z2) as (z3 & E3 & A3 & G3);
    [done | done | destruct G2; lia | apply (a_trees _ _ A2) | olia |].
  unfold zbind at 1, zget at 1. zstep E3. unfold zbind at 1, zget at 1.
  assert (grown z z3) as G by (do 2 (etrans; [eassumption |]); done).
  exists z3. split_and!; try done.
  - unfold shz_scan, zbind. offs. destruct (Z.leb_spec (z_bseq z3) (data_max (z_buff z) / 1024)) as [|Hc]; [done |].
    destruct Ha, A3. mlia.
  - destruct (g_dat _ _ G3) as [k3 D3], (g_dat _ _ G2) as [k2 D2]. rewrite <- (a_len _ _ A3), D3, D2.
    rewrite <- (a_len _ _ A1) in M1. llia.
Qed.

Lemma sint_small b : 0 <= b < 2147483648 -> sint 32 b = b.
Proof.
  intros H. unfold sint. rewrite wrap_small by rlia. change (2 ^ (32 - 1)) with 2147483648.
  destruct (Z.ltb_spec b 2147483648); lia.
Qed.

(** Pages that were counted are found without any effect. *)
Lemma page_loop_seen N f z b : arch N z -> 0 <= b < z_bseq z -> page_loop E f b z = Done (z, Some (at_page z b)).
Proof.
  intros Ha Hb. pose proof (page_ptr_ok N z b Ha) as Hp. destruct Ha. unfold MAX_PAGES in *.
  destruct f; cbn [page_loop]; rewrite sint_small by lia; rewrite wrap_small by rlia;
    (destruct (Z.leb_spec (z_bseq z) b); [lia |]); apply Hp; lia.
Qed.

Lemma page_loop_ok N f B : N <= Z.of_nat f + B -> looks_up N B (page_loop E f).
Proof.
  revert B. induction f as [|f IH]; intros B HB z b Ha Hz Hb.
  { exists z. split_and!; try (done || lia). apply (page_loop_seen N); [done | lia]. }
  destruct (Z_lt_le_dec b (z_bseq z)) as [Hlt|Hge].
  { exists z. split_and!; try (done || lia). apply (page_loop_seen N); [done | lia]. }
  pose proof (a_N _ _ Ha) as HN. unfold MAX_PAGES in HN.
  cbn [page_loop]. rewrite sint_small by lia. rewrite (wrap_small 32 b) by rlia. destruct (Z.leb_spec (z_bseq z) b); [|lia].
  zstep (size_ok N z Ha). unfold SHZ_PAGE_SIZE. rewrite Z.quot_mul by lia. rewrite !(wrap_small 64) by rlia.
  destruct (Z.leb_spec N b); [lia |]. unfold zbind at 1, zset, zget at 1. unfold zbind at 1. cbn [z_bseq set_bseq].
  rewrite (wrap_small 32 (b + 1)), (wrap_small 32 ((b + 1) * 1024)), (wrap_small 32 ((b + 1) * 1024 + 1024)) by rlia.
  assert (arch N (set_bseq (b + 1) z)) as A0 by (apply arch_set_bseq; [done | lia]).
  destruct (alloc_with_ok N (page_loop E f) ((b + 1) * 1024 + 1024) (set_bseq (b + 1) z)) as (z1 & E1 & A1 & G1 & _);
    [apply IH; cbn [z_bseq set_bseq]; lia | done | lia | unfold GROW_LIMIT, INT_MAX; lia |].
  zstep E1. cbn [Z.eqb]. exists z1. split_and!; [by apply (page_ptr_ok N) | done | |].
  - etrans; [|exact G1]. apply grown_set_bseq. lia.
  - pose proof (g_bseq _ _ G1) as HG. cbn [z_bseq set_bseq] in HG. lia.
Qed.

Lemma page_fuel_ok N z : arch N z -> N <= Z.of_nat (page_fuel z) + 0.
Proof.
  intros Ha. destruct (a_room _ _ Ha) as [Hr _]. pose proof (a_N _ _ Ha). unfold page_fuel, SHZ_PAGE_SIZE.
  pose proof (Z.div_le_lower_bound (data_max (z_buff z)) 1024 N). lia.
Qed.

Lemma page_ok N z b :
  arch N z -> 0 <= b < N ->
  exists z', shz_page E b z = Done (z', Some (at_page z' b)) /\ arch N z' /\ grown z z' /\ b < z_bseq z'.
Proof.
  intros Ha Hb. unfold shz_page. apply (page_loop_ok N _ 0); [by apply page_fuel_ok | done | destruct Ha; lia | done].
Qed.

Lemma page_seen N z b : arch N z -> 0 <= b < z_bseq z -> shz_page E b z = Done (z, Some (at_page z b)).
Proof. intros. by apply (page_loop_seen N). Qed.

Lemma alloc_ok N z len :
  arch N z -> 1 <= len -> len + 65536 <= GROW_LIMIT ->
  exists z', shz_alloc E len z = Done (z', 0) /\ arch N z' /\ grown z z' /\ len <= data_max (z_buff z').
Proof.
  intros Ha H1 H2. unfold shz_alloc. apply (alloc_with_ok N); [|done..].
  apply page_loop_ok. pose proof (page_fuel_ok N z Ha). destruct Ha. lia.
Qed.

End allocation.

(** ** New pages *)

(** What the operations that add to an archive of [N] pages keep: its pages but
    the base, the salt of the checksums, the roots of the tables and the flags. *)
Record keeps (N : Z) (z z' : shz_t) : Prop := mk_keeps {
  k_pg : forall c, 0 < c < N -> pg z' c = pg z c;
  k_magic : fget (pg z' 0) hdr_magic 2 = fget (pg z 0) hdr_magic 2;
  k_salt : z_salt z' = z_salt z;
  k_dt : fget (pg z' 0) base_dtable 4 = fget (pg z 0) base_dtable 4;
  k_ft : fget (pg z' 0) base_ftable 4 = fget (pg z 0) base_ftable 4;
  k_flags : z_flags z' = z_flags z
}.

Definition same_tables (z z' : shz_t) : Prop := z_dtable z' = z_dtable z /\ z_ftable z' = z_ftable z.

(** An archive whose pages are all counted. *)
Definition full (N : Z) (z : shz_t) : Prop := arch N z /\ z_bseq z = N.

Lemma keeps_refl N z : keeps N z z.
Proof. by split. Qed.
Lemma keeps_trans N N' z1 z2 z3 : N <= N' -> keeps N z1 z2 -> keeps N' z2 z3 -> keeps N z1 z3.
Proof. intros HN [H1] [H2]. split; try congruence. intros c Hc. rewrite H2, H1 by lia. done. Qed.
Lemma same_tables_trans z1 z2 z3 : same_tables z1 z2 -> same_tables z2 z3 -> same_tables z1 z3.
Proof. intros [] []. split; congruence. Qed.
Lemma grown_keeps N z z' : arch N z -> grown z z' -> keeps N z z'.
Proof.
  intros Ha Hg. pose proof (a_N _ _ Ha). split.
  - intros c Hc. apply (grown_pg N); [done | done | lia].
  - rewrite (grown_pg N z z' 0); (done || lia).
  - unfold z_salt. rewrite (grown_pg N z z' 0); (done || lia).
  - rewrite (grown_pg N z z' 0); (done || lia).
  - rewrite (grown_pg N z z' 0); (done || lia).
  - apply g_flags, Hg.
Qed.
Lemma grown_tables z z' : grown z z' -> same_tables z z'.
Proof. intros []. by split. Qed.
Lemma keeps_set_pg N z b P : arch N z -> 0 < b < N -> length P = 1024%nat -> keeps b z (set_pg b P z).
Proof.
  intros Ha Hb HP. pose proof (arch_inside N z b Ha ltac:(lia)) as Hi. split; try done.
  - intros c Hc. apply pg_set_other; (done || lia).
  - rewrite pg_set_other; (done || lia).
  - unfold z_salt. rewrite pg_set_other; (done || lia).
  - rewrite pg_set_other; (done || lia).
  - rewrite pg_set_other; (done || lia).
Qed.

Lemma full_set_pg N z b P : full N z -> 0 < b < N -> length P = 1024%nat -> full N (set_pg b P z).
Proof. intros [Ha Hs] Hb HP. split; [by apply arch_set_pg | done]. Qed.

(** The same but for page [x]. *)
Record keeps_but (N x : Z) (z z' : shz_t) : Prop := mk_keeps_but {
  kb_pg : forall c, 0 < c < N -> c <> x -> pg z' c = pg z c;
  kb_rest : keeps 1 z z'
}.

Lemma keeps_weaken N N' z z' : N' <= N -> keeps N z z' -> keeps N' z z'.
Proof. intros HN []. split; try done. intros c Hc. apply k_pg0. lia. Qed.
Lemma keeps_keeps_but N x z z' : 1 <= N -> keeps N z z' -> keeps_but N x z z'.
Proof. intros HN H. split; [|by apply (keeps_weaken N)]. intros c Hc _. by apply (k_pg _ _ _ H). Qed.
Lemma keeps_but_keeps N x z z' : x <= 0 \/ N <= x -> keeps_but N x z z' -> keeps N z z'.
Proof. intros Hx [H1 H2]. split; try apply H2. intros c Hc. apply H1; lia. Qed.
Lemma keeps_but_trans N x N' y z1 z2 z3 :
  N <= N' -> y = x \/ y <= 0 \/ N <= y -> keeps_but N x z1 z2 -> keeps_but N' y z2 z3 -> keeps_but N x z1 z3.
Proof.
  intros HN Hy [H1 H2] [H3 H4]. split; [|by apply (keeps_trans 1 1 z1 z2)].
  intros c Hc Hx. rewrite H3, H1; (done || lia).
Qed.
Lemma keeps_but_set_pg N z b P : arch N z -> 0 < b < N -> length P = 1024%nat -> keeps_but N b z (set_pg b P z).
Proof.
  intros Ha Hb HP. pose proof (keeps_set_pg N z b P Ha Hb HP) as HK. split; [|apply (keeps_weaken b); [lia | done]].
  intros c Hc Hne. apply pg_set_other; [|done | lia | done]. apply (arch_inside N); [done | lia].
Qed.

Lemma tree_below_mono N N' t : N <= N' -> tree_below N t -> tree_below N' t.
Proof. intros HN. induction t as [|s l IHl r IHr]; [done |]. intros (H1 & H2 & H3). split_and!; (lia || auto). Qed.

(** A page more: the base records its size, and it is zero. *)
Lemma arch_more N z n :
  arch N z -> (N + 1) * 1024 <= data_max (z_buff z) -> N + 1 <= MAX_PAGES -> 0 <= n <= N + 1 ->
  let z' := set_pg 0 (fput (pg z 0) base_size 8 (htonll ((N + 1) * 1024))) (set_bseq n z) in
  arch (N + 1) z' /\ keeps N z z' /\ pg z' N = replicate 1024 0.
Proof.
  intros Ha Hr HM Hn z'. pose proof (arch_inside N z 0 Ha ltac:(destruct Ha; lia)) as Hi.
  set (P := fput (pg z 0) base_size 8 (htonll ((N + 1) * 1024))) in z'.
  assert (length P = 1024%nat) as HP by (unfold P; rewrite length_fput; rewrite length_pg by done; [done | olia]).
  assert (inside (set_bseq n z) 0) as Hi' by done.
  assert (pg z' 0 = P) as E0 by (by apply pg_set_same).
  assert (forall c, 0 < c -> pg z' c = pg z c) as Ec by (intros c Hc; apply (pg_set_other (set_bseq n z)); (done || lia)).
  assert (length (dat z') = length (dat z)) as El.
  { change (dat z') with (splice (dat z) (Z.to_nat (0 * 1024)) P). rewrite length_splice; [done |]. destruct Hi; lia. }
  assert (forall o k, (o + k <= 16)%nat \/ (24 <= o)%nat -> fget P o k = fget (pg z 0) o k) as Ef.
  { intros o k Ho. unfold P. rewrite fget_fput_other; [done | rewrite length_pg by done; olia | olia]. }
  split_and!.
  - destruct Ha. split; try done.
    + by rewrite El.
    + by rewrite El.
    + lia.
    + destruct a_room0. done.
    + rewrite E0. unfold P. rewrite fget_fput_same; [done | rewrite length_pg by done; olia |].
      unfold htonll. apply lor_range; [lia | apply wrap_range; lia |]. pose proof (htonl_range (u32 (Z.shiftr ((N + 1) * 1024) 32))). rlia.
    + destruct a_trees0. split; (eapply tree_below_mono; [|eassumption]; lia).
    + rewrite El. change (dat z') with (splice (dat z) (Z.to_nat (0 * 1024)) P). unfold splice.
      rewrite app_assoc, drop_app_ge by llia. rewrite drop_drop.
      replace (drop _ (dat z)) with (drop 1024 (drop (Z.to_nat (N * 1024)) (dat z))) by (rewrite drop_drop; f_equal; llia).
      rewrite a_free0, drop_replicate. f_equal. lia.
  - split; try done.
    + intros c Hc. apply Ec. lia.
    + rewrite E0, Ef; [done | olia].
    + unfold z_salt. rewrite E0, Ef; [done | olia].
    + rewrite E0, Ef; [done | olia].
    + rewrite E0, Ef; [done | olia].
  - destruct Ha. rewrite Ec by lia. unfold pg, slice.
    replace (drop _ _) with (replicate (length (dat z) - Z.to_nat (N * 1024)) 0) by (rewrite <- a_free0; done).
    rewrite take_replicate. f_equal. lia.
Qed.

Definition new_page (type : Z) : bytes := set_type (fput (replicate 1024 0) hdr_magic 2 SHMEM16_MAGIC) type.

Lemma length_new_page t : length (new_page t) = 1024%nat.
Proof. apply length_set_type. by rewrite length_fput by (rewrite length_replicate; olia). Qed.

Lemma new_page_zero t o n : (4 <= o)%nat -> (o + n <= 1024)%nat -> slice (new_page t) o n = replicate n 0.
Proof.
  intros Ho Hn. unfold new_page, set_type.
  rewrite slice_fput_other by (rewrite ?length_fput; rewrite ?length_replicate; olia).
  rewrite slice_fput_other by (rewrite ?length_replicate; olia).
  unfold slice. rewrite drop_replicate, take_replicate. f_equal. lia.
Qed.

Lemma p_type_new_page t : is_uint 16 t -> p_type (new_page t) = t.
Proof. intros. apply p_type_set_type; [|done]. rewrite length_fput; rewrite length_replicate; (done || olia). Qed.

Lemma zget_step {A B} (f : shz_t -> A) (k : A -> M B) z : zbind (zget f) k z = k (f z) z.
Proof. done. Qed.
Lemma zset_step {B} f (k : unit -> M B) z : zbind (zset f) k z = k tt (f z).
Proof. done. Qed.
Lemma zret_step {A B} (a : A) (k : A -> M B) z : zbind (zret a) k z = k a z.
Proof. done. Qed.

Lemma base_set_ok z o n v : inside z 0 -> (o + n <= 1024)%nat -> base_set o n v z = Done (set_pg 0 (fput (pg z 0) o n v) z, tt).
Proof.
  intros Hi Ho. pose proof (st_ok (at_page z 0) z 0 o (le_bytes n v) eq_refl Hi) as E.
  rewrite length_le_bytes in E. unfold fput. rewrite <- E by done. unfold st, zbind, deref, at_page. cbn [p_gen p_off].
  by rewrite Nat.eqb_refl.
Qed.

(** A field of the base page other than the size. *)
Lemma arch_set_base N z o n v :
  arch N z -> (o + n <= 16)%nat \/ (24 <= o)%nat -> (o + n <= 1024)%nat ->
  arch N (set_pg 0 (fput (pg z 0) o n v) z) /\
  (forall c, 0 < c -> pg (set_pg 0 (fput (pg z 0) o n v) z) c = pg z c) /\
  (forall o' n', (o' + n' <= o)%nat \/ (o + n <= o')%nat ->
    fget (pg (set_pg 0 (fput (pg z 0) o n v) z) 0) o' n' = fget (pg z 0) o' n').
Proof.
  intros Ha Ho Ho'. pose proof (arch_inside N z 0 Ha ltac:(destruct Ha; lia)) as Hi.
  set (P := fput (pg z 0) o n v). pose proof (length_pg z 0 Hi) as Hl.
  assert (length P = 1024%nat) as HP by (unfold P; rewrite length_fput; lia).
  assert (pg (set_pg 0 P z) 0 = P) as E0 by (by apply pg_set_same).
  assert (forall c, 0 < c -> pg (set_pg 0 P z) c = pg z c) as Ec by (intros c Hc; apply pg_set_other; (done || lia)).
  assert (forall o' n', (o' + n' <= o)%nat \/ (o + n <= o')%nat -> fget P o' n' = fget (pg z 0) o' n') as Ef.
  { intros o' n' H. unfold P. apply fget_fput_other; lia. }
  assert (dat (set_pg 0 P z) = splice (dat z) (Z.to_nat (0 * 1024)) P) as Ed by done.
  assert (length (dat (set_pg 0 P z)) = length (dat z)) as El by (rewrite Ed, length_splice; [done |]; destruct Hi; lia).
  rewrite E0. split_and!; try done. destruct Ha. split; try done.
  - by rewrite El.
  - by rewrite El.
  - rewrite E0, Ef; [done | olia].
  - rewrite El, Ed. unfold splice. rewrite app_assoc, drop_app_ge by llia. rewrite drop_drop, <- a_free0. f_equal. llia.
Qed.

Lemma zsize_incr_ok N z len :
  arch N z -> exists z', shz_zsize_incr len z = Done (z', tt) /\ arch N z' /\ keeps N z z' /\ same_tables z z' /\
    z_bseq z' = z_bseq z /\ z_gen z' = z_gen z /\ data_max (z_buff z') = data_max (z_buff z).
Proof.
  intros Ha. pose proof (arch_inside N z 0 Ha ltac:(destruct Ha; lia)) as Hi. unfold shz_zsize_incr, size_incr.
  zstep (base_get_ok z base_zsize 8 Hi ltac:(olia)). rewrite base_set_ok by (done || olia).
  set (v := htonll (u64 (htonll (fget (pg z 0) base_zsize 8) + len))). clearbody v.
  destruct (arch_set_base N z base_zsize 8 v Ha) as (A1 & C1 & F1); [olia | olia |].
  eexists. split; [done |]. split_and!; try done. split; try done.
  - intros c Hc. apply C1. lia.
  - apply F1. olia.
  - unfold z_salt. rewrite F1; [done | olia].
  - apply F1. olia.
  - apply F1. olia.
Qed.

Section new_pages.
Context (E : env) (Hmenv : mapped_env E).

(** With room for another page the buffer is not replaced. *)
Lemma page_new_ok N z type :
  full N z -> N + 1 <= MAX_PAGES ->
  exists z', shz_page_new E type z = Done (z', Some (at_page z' N, N)) /\ full (N + 1) z' /\
    pg z' N = new_page type /\ keeps N z z' /\ same_tables z z' /\
    ((N + 1) * 1024 < data_max (z_buff z) -> z_gen z' = z_gen z /\ data_max (z_buff z') = data_max (z_buff z)) /\
    (z_gen z <= z_gen z')%nat /\ (z_gen z' = z_gen z -> data_max (z_buff z') = data_max (z_buff z)).
Proof.
  intros [Ha Hs] HN. pose proof (a_N _ _ Ha) as HN1. unfold MAX_PAGES in HN, HN1. unfold shz_page_new. rewrite !zget_step.
  assert (exists z1, (if shz_avail z <=? SHZ_PAGE_SIZE
          then shz_alloc E (u32 (u32 (z_bseq z * SHZ_PAGE_SIZE) + SHZ_PAGE_SIZE))
          else zret 0) z = Done (z1, 0) /\ arch N z1 /\ grown z z1 /\ (N + 1) * 1024 <= data_max (z_buff z1) /\
          ((N + 1) * 1024 < data_max (z_buff z) -> z1 = z)) as (z1 & E1 & A1 & G1 & R1 & S1).
  { rewrite (avail_ok N) by done. unfold SHZ_PAGE_SIZE. rewrite Hs. case_cmp.
    - rewrite (wrap_small 32 (N * 1024)), (wrap_small 32) by rlia.
      destruct (alloc_ok E Hmenv N z (N * 1024 + 1024) Ha) as (z1 & ? & ? & ? & ?);
        [lia | unfold GROW_LIMIT, INT_MAX; lia |]. exists z1. split_and!; (done || lia).
    - exists z. split_and!; (done || lia). }
  zstep E1. cbn [Z.eqb negb]. rewrite zget_step, zset_step.
  assert (z_bseq z1 = N) as Hs1 by (destruct G1, A1; lia). rewrite Hs1, (wrap_small 32) by rlia.
  destruct (arch_more N z1 (N + 1) A1 R1) as (A2 & K2 & P2); [done | lia |].
  pose proof (arch_inside N z1 0 A1 ltac:(lia)) as Hi.
  set (z2 := set_pg 0 (fput (pg z1 0) base_size 8 (htonll ((N + 1) * 1024))) (set_bseq (N + 1) z1)) in *.
  assert (shz_size_incr SHZ_PAGE_SIZE (set_bseq (N + 1) z1) = Done (z2, tt)) as E2.
  { unfold shz_size_incr, size_incr. assert (inside (set_bseq (N + 1) z1) 0) as Hi' by done.
    zstep (base_get_ok _ base_size 8 Hi' ltac:(olia)). rewrite base_set_ok by (done || olia).
    change (pg (set_bseq (N + 1) z1) 0) with (pg z1 0). rewrite (a_size _ _ A1), htonll_involutive by rlia.
    rewrite wrap_small by (offs; rlia). do 5 f_equal. offs; lia. }
  zstep E2. assert (z_bseq z2 = N + 1) as Hs2 by done.
  zstep (page_seen E (N + 1) z2 N A2 ltac:(lia)).
  assert (inside z2 N) as HiN by (apply (arch_inside (N + 1)); [done | lia]).
  zstep (stn_ok (at_page z2 N) z2 N hdr_magic 2 SHMEM16_MAGIC eq_refl HiN ltac:(olia)). rewrite P2.
  set (P := fput (replicate 1024 0) hdr_magic 2 SHMEM16_MAGIC).
  assert (length P = 1024%nat) as HP by (unfold P; rewrite length_fput; rewrite length_replicate; (done || olia)).
  assert (inside (set_pg N P z2) N) as Hi3 by (by apply inside_set_pg).
  zstep (@page_type_set_ok (at_page z2 N) (set_pg N P z2) N eq_refl Hi3 type).
  rewrite pg_set_same by done. change (set_type P type) with (new_page type).
  rewrite set_pg_twice by (done || apply length_new_page).
  assert (grown z z1 /\ same_tables z z1) as [_ T1] by (split; [done | by apply grown_tables]).
  exists (set_pg N (new_page type) z2). split_and!.
  - done.
  - split; [|done]. apply arch_set_pg; [done | lia | apply length_new_page].
  - apply pg_set_same; [done | apply length_new_page].
  - apply (keeps_trans N N z z1); [lia | by apply grown_keeps |]. apply (keeps_trans N N z1 z2); [lia | done |].
    apply (keeps_set_pg (N + 1)); [done | lia | apply length_new_page].
  - done.
  - intros Hr. apply S1 in Hr as ->. done.
  - apply (g_gen _ _ G1).
  - apply (g_max _ _ G1).
Qed.
End new_pages.

(** ** Editing one page

    A sequence of stores to one page is a sequence of functions of the page. *)

Lemma set_pg_self z b : inside z b -> set_pg b (pg z b) z = z.
Proof.
  intros (H1 & H2 & H3). unfold set_pg, set_data, set_buff, pg. 
  assert (splice (dat z) (Z.to_nat (b * 1024)) (slice (dat z) (Z.to_nat (b * 1024)) 1024) = dat z) as ->.
  { unfold splice. rewrite length_slice by lia. unfold slice. rewrite <- drop_drop, take_drop, take_drop. done. }
  rewrite <- H1. unfold z_data. destruct z as [? ? [] ? ? ? ?]. done.
Qed.

Section edit.
Context {z : shz_t} {b : Z} (Hb : inside z b) {P : bytes} (HP : length P = 1024%nat).

Let Hb' : inside (set_pg b P z) b := inside_set_pg z b P b Hb HP Hb.
Let Hat : points (at_page z b) (set_pg b P z) b := eq_refl.

Lemma st_at o src :
  (o + length src <= 1024)%nat -> st (at_page z b) o src (set_pg b P z) = Done (set_pg b (splice P o src) z, tt).
Proof.
  intros Ho. rewrite (st_ok _ _ b) by done. rewrite pg_set_same by done.
  rewrite set_pg_twice; [done | done | done | rewrite length_splice; lia].
Qed.

Lemma stn_at o n v :
  (o + n <= 1024)%nat -> stn (at_page z b) o n v (set_pg b P z) = Done (set_pg b (fput P o n v) z, tt).
Proof. intros Ho. unfold stn. rewrite st_at; [done | by rewrite length_le_bytes]. Qed.

Lemma ld_at o n : (o + n <= 1024)%nat -> ld (at_page z b) o n (set_pg b P z) = Done (set_pg b P z, slice P o n).
Proof. intros Ho. rewrite (ld_ok _ _ b) by done. by rewrite pg_set_same. Qed.

Lemma ldn_at o n : (o + n <= 1024)%nat -> ldn (at_page z b) o n (set_pg b P z) = Done (set_pg b P z, fget P o n).
Proof. intros Ho. rewrite (ldn_ok _ _ b) by done. by rewrite pg_set_same. Qed.

Lemma size_set_at len :
  8 <= len <= 1024 -> shz_page_size_set (at_page z b) len (set_pg b P z) = Done (set_pg b (set_size P len) z, 0).
Proof.
  intros Hl. rewrite (@page_size_set_ok _ _ b) by done. rewrite pg_set_same by done.
  rewrite set_pg_twice; [done | done | done | by apply length_set_size].
Qed.

Lemma crc_set_at :
  inside z 0 -> b <> 0 -> shz_crc_set (at_page z b) (set_pg b P z) = Done (set_pg b (set_crc (z_salt z) P) z, tt).
Proof.
  intros H0 Hne. rewrite (crc_set_ok _ _ b) by (done || by apply inside_set_pg). rewrite pg_set_same by done.
  assert (z_salt (set_pg b P z) = z_salt z) as ->.
  { unfold z_salt. rewrite pg_set_other; (done || lia). }
  rewrite set_pg_twice; [done | done | done | by apply length_set_crc].
Qed.
End edit.
