(* ===== verification/ShShzData.v ===== *)
(** * Archives: data pages and indexes

    Models the part of [share-lib/mem/shmem_shz.c] that stores byte strings:
    [shzenc] and [shzdec] around the zlib library, raw pages, chains of
    compressed pages, and the index pages that list the segments of a file.

    The zlib library is a parameter, the class [zlib]: the results of the
    successive calls of [z_deflate] and [z_inflate] on one input, each with an
    output buffer of [MAX_BUFFER_SIZE] bytes.  What the code relies on is
    [zlib_ok]: deflating delivers a stream whose inflation delivers the input,
    every call fills its buffer but the last one.

    The theorems show that what the index writer stores the index reader gives
    back, for raw and for compressed segments, also after the archive has grown
    and after it was opened again, and what happens to the segment that does not
    fit an index page. *)

From Stdlib Require Import ZArith Lia.
From stdpp Require Import base numbers list.
From S2P Require Import Prelude ShCrc ShKey ShBuf ShShz.

Open Scope Z_scope.
Open Scope share_scope.

Definition MAX_BUFFER_SIZE : Z := 16384.
Definition Z_STREAM_END : Z := 1.
Definition Z_NEED_DICT : Z := 2.
Definition Z_ERRNO : Z := -1.
Definition Z_STREAM_ERROR : Z := -2.
Definition Z_DATA_ERROR : Z := -3.
Definition Z_MEM_ERROR : Z := -4.
Definition Z_VERSION_ERROR : Z := -6.

(** The library: what [deflateInit] and [inflateInit2] return, and for an input
    the results and the output of the calls on it. *)
Class zlib : Type := {
  deflateInit : Z;
  z_deflate : bytes -> list (Z * bytes);
  inflateInit2 : Z;
  z_inflate : bytes -> list (Z * bytes)
}.

Definition _shz_err (errno code : Z) : Z :=
  if code =? Z_MEM_ERROR then SHERR_NOMEM
  else if code =? Z_STREAM_ERROR then SHERR_IO
  else if code =? Z_ERRNO then - errno
  else if code =? Z_DATA_ERROR then SHERR_INVAL
  else if code =? Z_VERSION_ERROR then SHERR_INVAL
  else if code =? Z_NEED_DICT then SHERR_INVAL
  else -1.

Section operations.
Context (E : env) {zl : zlib}.

(** [avail_out == 0]: the call filled its buffer. *)
Definition filled (out : bytes) : bool := Z.of_nat (length out) =? MAX_BUFFER_SIZE.

Fixpoint enc_loop (calls : list (Z * bytes)) (buff : shbuf_t) : outcome (shbuf_t * Z) :=
  match calls with
  | [] => Fault
  | (err, out) :: calls' =>
      if err <? 0 then Done (buff, -1)
      else
        buff <-! shbuf_cat E buff out;
        if filled out then enc_loop calls' buff else Done (buff, 0)
  end.
Definition shzenc (buff : shbuf_t) (data : bytes) : outcome (shbuf_t * Z) :=
  if negb (deflateInit =? 0) then Done (buff, -1)
  else enc_loop (z_deflate data) buff.

Fixpoint dec_loop (calls : list (Z * bytes)) (buff : shbuf_t) : outcome (shbuf_t * Z) :=
  match calls with
  | [] => Fault
  | (ret, out) :: calls' =>
      if (ret =? Z_NEED_DICT) || (ret =? Z_DATA_ERROR) || (ret =? Z_MEM_ERROR) then Done (buff, _shz_err 0 ret)
      else
        buff <-! shbuf_cat E buff out;
        if filled out then dec_loop calls' buff
        else Done (buff, if ret =? Z_STREAM_END then 0 else SHERR_INVAL)
  end.
Definition shzdec (buff : shbuf_t) (data : bytes) : outcome (shbuf_t * Z) :=
  if decide (data = []) then Done (buff, 0)
  else if negb (inflateInit2 =? 0) then Done (buff, inflateInit2)
  else dec_loop (z_inflate data) buff.

(** ** Raw pages *)

(** The result is the number of bytes written and the page, which is not set
    when no page can be had. *)
Definition shz_raw_write (data : bytes) : M (Z * option Z) :=
  r <~ shz_page_new E SHZ_PAGE_DATA;
  match r with
  | None => zret (0, None)
  | Some (blk, ret_idx) =>
      let w_len := Z.min (SHZ_PAGE_SIZE - sizeof_data) (Z.of_nat (length data)) in
      _ <~ st blk (Z.to_nat sizeof_data) (take (Z.to_nat w_len) data);
      _ <~ shz_page_size_set blk (w_len + sizeof_data);
      _ <~ shz_crc_set blk;
      zret (w_len, Some ret_idx)
  end.

Definition shz_raw_read (bnum : Z) (buff : shbuf_t) : M (Z * shbuf_t) :=
  r <~ shz_page E bnum;
  match r with
  | None => zret (SHERR_INVAL, buff)
  | Some blk =>
      size <~ shz_page_size blk;
      let r_len := sint 64 (u64 (size - sizeof_data)) in
      if r_len <? 0 then zret (SHERR_IO, buff)
      else
        raw <~ ld blk (Z.to_nat sizeof_data) (Z.to_nat r_len);
        buff <~ zlift (shbuf_cat E buff raw);
        zret (0, buff)
  end.

(** ** Index pages *)

(** The offset of a slot behind the header of an index or a map page. *)
Definition seg_off (i : Z) : nat := Z.to_nat (sizeof_data + 4 * i).

(** The first free slot from [i] on. *)
Fixpoint free_seg (n : nat) (idx : ptr) (i : Z) : M Z :=
  match n with
  | O => zret i
  | S n' => v <~ ldn idx (seg_off i) 4; if v =? 0 then zret i else free_seg n' idx (i + 1)
  end.

Definition shz_index_append (idx : ptr) (bnum : Z) : M Z :=
  i <~ free_seg (Z.to_nat SHZ_MAX_INDEX_SIZE) idx 0;
  if i =? SHZ_MAX_INDEX_SIZE then zret SHERR_NOBUFS
  else
    _ <~ stn idx (seg_off i) 4 (htonl bnum);
    _ <~ shz_page_size_set idx (sizeof_data + (i + 1) * 4);
    zret 0.

(** The next page of page [l], when there is one, becomes page [m]. *)
Definition link_before (off : nat) (l m : Z) : M unit :=
  if l =? 0 then zret tt
  else r <~ shz_page E l;
       match r with
       | None => zret tt
       | Some blk => _ <~ stn blk off 4 (htonl m); shz_crc_set blk
       end.

(** The index page of the round: the current one, or a new one that is chained
    to the one before.  The result is the page, [seq] and [ret_idx]. *)
Definition index_page (seq l_seq ret_idx : Z) : M (option (ptr * Z * Z)) :=
  if negb (seq =? 0) then
    r <~ shz_page E seq;
    match r with None => zret None | Some idx => zret (Some (idx, seq, ret_idx)) end
  else
    r <~ shz_page_new E SHZ_PAGE_INDEX;
    match r with
    | None => zret None
    | Some (idx, seq) =>
        let ret_idx := if ret_idx =? 0 then seq else ret_idx in
        _ <~ link_before data_seq l_seq seq;
        zret (Some (idx, seq, ret_idx))
    end.

(** [while (of < max_len)]: [raw] is the rest of the buffer; [bnum] keeps its
    value when the writer does not set it. *)
Fixpoint index_loop (fuel : nat) (f : bytes -> M (Z * option Z)) (raw : bytes) (seq l_seq ret_idx bnum : Z) : M (Z * Z) :=
  match raw with
  | [] => zret (0, ret_idx)
  | _ =>
      match fuel with
      | O => zfault
      | S fuel' =>
          r <~ f raw;
          let '(w_len, nb) := r in
          if w_len <? 0 then zret (sint 32 w_len, ret_idx)
          else
            let bnum := match nb with Some b => b | None => bnum end in
            r <~ index_page seq l_seq ret_idx;
            match r with
            | None => zret (SHERR_IO, ret_idx)
            | Some (idx, seq, ret_idx) =>
                err <~ shz_index_append idx bnum;
                if err =? SHERR_NOBUFS then
                  _ <~ shz_crc_set idx;
                  index_loop fuel' f (drop (Z.to_nat w_len) raw) 0 seq ret_idx bnum
                else if negb (err =? 0) then zret (err, ret_idx)
                else index_loop fuel' f (drop (Z.to_nat w_len) raw) seq l_seq ret_idx bnum
            end
      end
  end.

(** [bnum] is the value of the uninitialised variable.  A round that writes
    something shortens the rest, and at most one index page's worth of rounds
    writes nothing. *)
Definition shz_index_add (f : bytes -> M (Z * option Z)) (data : bytes) (idx bnum : Z) : M (Z * Z) :=
  index_loop (S (length data) + Z.to_nat SHZ_MAX_INDEX_SIZE) f data idx 0 0 bnum.

Definition shz_index_write (f : bytes -> M (Z * option Z)) (data : bytes) (bnum : Z) : M (Z * Z) :=
  shz_index_add f data 0 bnum.

(** The slots of one index page, up to the first free one. *)
Fixpoint index_segs (n : nat) (f : Z -> shbuf_t -> M (Z * shbuf_t)) (bnum i : Z) (buff : shbuf_t) : M (Z * shbuf_t) :=
  match n with
  | O => zret (0, buff)
  | S n' =>
      r <~ shz_page E bnum;
      match r with
      | None => zret (SHERR_INVAL, buff)
      | Some idx =>
          v <~ ldn idx (seg_off i) 4;
          let ref_bnum := htonl v in
          if ref_bnum =? 0 then zret (0, buff)
          else
            err <~ shz_alloc E (u32 (u32 (ref_bnum * SHZ_PAGE_SIZE) + SHZ_PAGE_SIZE));
            if negb (err =? 0) then zret (err, buff)
            else
              r <~ f ref_bnum buff;
              let '(err, buff) := r in
              if negb (err =? 0) then zret (err, buff) else index_segs n' f bnum (i + 1) buff
      end
  end.

(** [while (bnum)] along the chain of index pages; a chain without a cycle has
    no more pages than the buffer. *)
Fixpoint index_chain (fuel : nat) (f : Z -> shbuf_t -> M (Z * shbuf_t)) (buff : shbuf_t) (bnum : Z) : M (Z * shbuf_t) :=
  if bnum =? 0 then zret (0, buff)
  else
    match fuel with
    | O => zfault
    | S fuel' =>
        r <~ index_segs (Z.to_nat SHZ_MAX_INDEX_SIZE) f bnum 0 buff;
        let '(err, buff) := r in
        if negb (err =? 0) then zret (err, buff)
        else
          r <~ shz_page E bnum;
          match r with
          | None => zret (SHERR_INVAL, buff)
          | Some idx => v <~ ldn idx data_seq 4; index_chain fuel' f buff (htonl v)
          end
    end.
Definition shz_index_read (f : Z -> shbuf_t -> M (Z * shbuf_t)) (buff : shbuf_t) (bnum : Z) : M (Z * shbuf_t) :=
  fun z => index_chain (S (page_fuel z)) f buff bnum z.

(** ** Compressed segments *)

Definition shz_zlib_new (raw_bnum raw_len : Z) (z_id : shkey_t) : M (Z * option Z) :=
  r <~ shz_page_new E SHZ_PAGE_ZLIB;
  match r with
  | None => zret (SHERR_IO, None)
  | Some (blk, bnum) =>
      _ <~ stn blk mod_size 4 (htonl raw_len);
      _ <~ stn blk mod_seq 4 (htonl raw_bnum);
      _ <~ st blk mod_id (shkey_image z_id);
      _ <~ shz_page_size_set blk sizeof_mod;
      _ <~ shz_crc_set blk;
      zret (0, Some bnum)
  end.

Definition zlib_step : Z := SHZ_PAGE_SIZE - sizeof_mod.

(** [while (of < z_len)]: [rest] are the bytes from [z_data + of]; the result is
    the error and the first page. *)
Fixpoint zlib_loop (fuel : nat) (rest : bytes) (f_bnum l_bnum : Z) : M (Z * Z) :=
  match rest with
  | [] => zret (0, f_bnum)
  | _ =>
      match fuel with
      | O => zfault
      | S fuel' =>
          let len := Z.min zlib_step (Z.of_nat (length rest)) in
          r <~ shz_page_new E SHZ_PAGE_ZLIB_DATA;
          match r with
          | None => zret (SHERR_IO, f_bnum)
          | Some (_, z_bnum) =>
              let f_bnum := if f_bnum =? 0 then z_bnum else f_bnum in
              _ <~ link_before mod_seq l_bnum z_bnum;
              r <~ shz_page E z_bnum;
              match r with
              | None => zret (SHERR_IO, f_bnum)
              | Some blk =>
                  err <~ shz_page_size_set blk (sizeof_mod + len);
                  if negb (err =? 0) then zret (err, f_bnum)
                  else
                    _ <~ st blk (Z.to_nat sizeof_mod) (take (Z.to_nat len) rest);
                    _ <~ shz_crc_set blk;
                    zlib_loop fuel' (drop (Z.to_nat len) rest) f_bnum z_bnum
              end
          end
      end
  end.

Definition shz_zlib_write (data : bytes) : M (Z * option Z) :=
  let data := take (Z.to_nat 1048576) data in
  r <~ zlift (shzenc shbuf_init data);
  let '(buff, err) := r in
  if negb (err =? 0) then zret (err, None)
  else
    let z_data := contents buff in
    r <~ zlib_loop (length z_data) z_data 0 0;
    let '(err, f_bnum) := r in
    if negb (err =? 0) then zret (err, None)
    else
      r <~ shz_zlib_new f_bnum (Z.of_nat (length z_data)) (shkey_bin (Some data));
      let '(err, z_bnum) := r in
      if negb (err =? 0) then zret (err, None)
      else
        _ <~ shz_zsize_incr (Z.of_nat (length data));
        zret (Z.of_nat (length data), z_bnum).

(** [while (page)] along the chain of compressed pages. *)
Fixpoint zlib_chain (fuel : nat) (page : option ptr) (buff : shbuf_t) : M (Z * shbuf_t) :=
  match page with
  | None => zret (0, buff)
  | Some page =>
      match fuel with
      | O => zfault
      | S fuel' =>
          page_size <~ shz_page_size page;
          if (page_size <? sizeof_mod) || (SHZ_PAGE_SIZE <? page_size) then zret (SHERR_IO, buff)
          else
            raw <~ ld page (Z.to_nat sizeof_mod) (Z.to_nat (page_size - sizeof_mod));
            buff <~ zlift (shbuf_cat E buff raw);
            v <~ ldn page mod_seq 4;
            let bnum := htonl v in
            if bnum =? 0 then zret (0, buff)
            else page <~ shz_page E bnum; zlib_chain fuel' page buff
      end
  end.

Definition shz_zlib_read (page_bnum : Z) (dec_buff : shbuf_t) : M (Z * shbuf_t) :=
  r <~ shz_page E page_bnum;
  match r with
  | None => zret (SHERR_IO, dec_buff)
  | Some blk =>
      type <~ shz_page_type blk;
      if negb (type =? SHZ_PAGE_ZLIB) then zret (SHERR_IO, dec_buff)
      else
        v <~ ldn blk mod_seq 4;
        page <~ shz_page E (htonl v);
        fuel <~ zget page_fuel;
        r <~ zlib_chain (S fuel) page shbuf_init;
        let '(err, buff) := r in
        if negb (err =? 0) then zret (err, dec_buff)
        else
          r <~ zlift (shzdec dec_buff (contents buff));
          let '(dec_buff, err) := r in
          zret (err, dec_buff)
  end.

Definition shz_data_read (page_bnum : Z) (ret_buff : shbuf_t) : M (Z * shbuf_t) :=
  r <~ shz_page E page_bnum;
  match r with
  | None => zret (SHERR_INVAL, ret_buff)
  | Some hdr =>
      type <~ shz_page_type hdr;
      if type =? SHZ_PAGE_ZLIB then shz_zlib_read page_bnum ret_buff else zret (SHERR_OPNOTSUPP, ret_buff)
  end.

End operations.

(** ** Buffers that receive data *)

Definition rbuf (buff : shbuf_t) : Prop := wf buff /\ has_flag (ShBuf.flags buff) SHBUF_FMAP = false.

Lemma rbuf_init : rbuf shbuf_init.
Proof. split; [apply wf_init | done]. Qed.

Lemma sint_u64_small v : 0 <= v < 2 ^ 63 -> sint 64 (u64 v) = v.
Proof.
  intros Hv. unfold sint. rewrite wrap_wrap, wrap_small by rlia. change (2 ^ (64 - 1)) with 9223372036854775808. case_cmp; lia.
Qed.

Definition room_for (n : nat) : Prop := Z.of_nat n + 1 <= GROW_LIMIT.

(** Lengths of edited pages. *)
Ltac plen := lazymatch goal with
  | |- length (set_crc _ _) = _ => apply length_set_crc; plen
  | |- length (set_size _ _) = _ => apply length_set_size; plen
  | |- length (set_type _ _) = _ => apply length_set_type; plen
  | |- length (new_page _) = _ => apply length_new_page
  | |- length (pg _ _) = _ => apply length_pg; done
  | |- length (replicate _ _) = _ => apply length_replicate
  | |- length (fput ?P ?o ?n ?v) = _ =>
      rewrite (length_fput P o n v); [plen | replace (length P) with 1024%nat by (symmetry; plen); offs; lia]
  | |- length (splice ?P ?o ?s) = _ =>
      rewrite (length_splice P o s); [plen | replace (length P) with 1024%nat by (symmetry; plen); offs; rewrite ?length_le_bytes; lia]
  | |- _ => done || lia
  end.

(** Two archives with the same pages from [lo] to [hi]. *)
Definition agree (lo hi : Z) (z z' : shz_t) : Prop := forall c, lo <= c < hi -> pg z' c = pg z c.

Lemma agree_trans lo hi z1 z2 z3 : agree lo hi z1 z2 -> agree lo hi z2 z3 -> agree lo hi z1 z3.
Proof. intros H1 H2 c Hc. by rewrite H2, H1. Qed.
Lemma agree_sub lo hi lo' hi' z z' : lo <= lo' -> hi' <= hi -> agree lo hi z z' -> agree lo' hi' z z'.
Proof. intros H1 H2 H c Hc. apply H. lia. Qed.
Lemma keeps_agree N z z' : keeps N z z' -> agree 1 N z z'.
Proof. intros [H] c Hc. apply H. lia. Qed.
Lemma grown_agree N z z' : arch N z -> grown z z' -> agree 0 N z z'.
Proof. intros Ha Hg c Hc. by apply (grown_pg N). Qed.

(** ** The interface between the index and the segments

    A kind of segment: how many bytes a segment takes, how many pages it needs
    at most, what pages [lo] to [hi] hold when segment [b] is stored there, and
    that the writer stores and the reader gives back. *)
Class segment_io (E : env) (write : bytes -> M (Z * option Z)) (read : Z -> shbuf_t -> M (Z * shbuf_t)) : Type := {
  seg_max : nat;
  seg_cost : Z;
  stored : shz_t -> Z -> Z -> Z -> bytes -> Prop;
  seg_max_pos : (0 < seg_max)%nat;
  seg_cost_pos : 0 < seg_cost;
  stored_range : forall z lo hi b d, stored z lo hi b d -> lo <= b < hi;
  stored_agree : forall z z' lo hi b d, stored z lo hi b d -> agree lo hi z z' -> stored z' lo hi b d;
  write_ok : forall N z raw, full N z -> raw <> [] -> N + seg_cost <= MAX_PAGES ->
    exists z' N' b, write raw z = Done (z', (Z.of_nat (Nat.min seg_max (length raw)), Some b)) /\
      full N' z' /\ N < N' <= N + seg_cost /\ keeps N z z' /\ same_tables z z' /\
      stored z' N N' b (take seg_max raw);
  read_ok : forall N z lo hi b d buff, arch N z -> 0 < lo -> hi <= N -> stored z lo hi b d ->
    rbuf buff -> room_for (length (contents buff ++ d)) ->
    exists z' buff', read b buff z = Done (z', (0, buff')) /\ arch N z' /\ grown z z' /\
      rbuf buff' /\ contents buff' = contents buff ++ d
}.

(** ** Raw segments *)

Section raw.
Context (E : env) (Hcalloc : forall n, calloc_ok E n = true) (Hmenv : mapped_env E).

Definition raw_page (salt : Z) (d : bytes) : bytes :=
  set_crc salt (set_size (splice (new_page SHZ_PAGE_DATA) 16 d) (Z.of_nat (length d) + 16)).

(** A page whose used part behind the header is [d]. *)
Definition raw_at (P : bytes) (d : bytes) : Prop :=
  (length d <= 1008)%nat /\ p_size P = Z.of_nat (length d) + 16 /\ slice P 16 (length d) = d.

Lemma raw_page_at salt d : (length d <= 1008)%nat -> raw_at (raw_page salt d) d.
Proof.
  intros Hd. split_and!; [done | |]; unfold raw_page.
  - rewrite p_size_set_crc by plen. apply p_size_set_size; [plen | lia].
  - rewrite slice_set_crc by (plen || lia). rewrite slice_set_size by (plen || lia).
    apply slice_splice_same. rewrite length_new_page. lia.
Qed.

Lemma raw_write_ok N z data :
  full N z -> N + 1 <= MAX_PAGES ->
  exists z', shz_raw_write E data z = Done (z', (Z.of_nat (Nat.min 1008 (length data)), Some N)) /\
    full (N + 1) z' /\ keeps N z z' /\ same_tables z z' /\ pg z' N = raw_page (z_salt z) (take 1008 data) /\
    ((N + 1) * 1024 < data_max (z_buff z) -> z_gen z' = z_gen z /\ data_max (z_buff z') = data_max (z_buff z)).
Proof.
  intros Hf HN. assert (1 <= N) as HN1 by (destruct Hf as [[] _]; lia).
  unfold shz_raw_write. destruct (page_new_ok E Hmenv N z SHZ_PAGE_DATA Hf HN) as (z1 & E1 & F1 & P1 & K1 & T1 & R1 & _).
  zstep E1. cbn beta iota zeta. set (w := Z.min (SHZ_PAGE_SIZE - sizeof_data) (Z.of_nat (length data))).
  assert (Z.to_nat w = Nat.min 1008 (length data)) as Ew by (unfold w; offs; lia). rewrite Ew.
  assert (take (1008 `min` length data) data = take 1008 data) as Et.
  { destruct (Nat.min_spec 1008 (length data)) as [[? ->]|[? ->]]; [done |]. rewrite !take_ge by lia. done. }
  rewrite Et. set (d := take 1008 data).
  assert (length d <= 1008)%nat as Hd by (unfold d; llia).
  assert (w = Z.of_nat (length d)) as Hw by (unfold d, w; offs; llia).
  destruct F1 as [A1 B1]. assert (inside z1 N) as HiN by (apply (arch_inside (N + 1)); [done | lia]).
  assert (inside z1 0) as Hi0 by (apply (arch_inside (N + 1)); [done | lia]).
  change (Z.to_nat sizeof_data) with 16%nat.
  zstep (st_ok (at_page z1 N) z1 N 16 d eq_refl HiN ltac:(lia)). rewrite P1.
  zstep (size_set_at HiN (P := splice (new_page SHZ_PAGE_DATA) 16 d) ltac:(plen) (w + sizeof_data) ltac:(offs; lia)).
  zstep (crc_set_at HiN (P := set_size (splice (new_page SHZ_PAGE_DATA) 16 d) (w + sizeof_data)) ltac:(plen) Hi0 ltac:(lia)).
  rewrite (k_salt _ _ _ K1), Hw. change sizeof_data with 16. change (set_crc _ _) with (raw_page (z_salt z) d).
  assert (length (raw_page (z_salt z) d) = 1024%nat) as HP by (unfold raw_page; plen).
  exists (set_pg N (raw_page (z_salt z) d) z1). split_and!; try done.
  - unfold zret. do 3 f_equal. lia.
  - apply full_set_pg; [done | lia | done].
  - apply (keeps_trans N N z z1); [lia | done |]. by apply (keeps_set_pg (N + 1)); [| lia |].
  - by apply pg_set_same.
Qed.

Lemma raw_read_ok N z b d buff :
  arch N z -> 0 <= b < N -> raw_at (pg z b) d -> rbuf buff -> room_for (length (contents buff ++ d)) ->
  exists z' buff', shz_raw_read E b buff z = Done (z', (0, buff')) /\ arch N z' /\ grown z z' /\
    rbuf buff' /\ contents buff' = contents buff ++ d.
Proof.
  intros Ha Hb (Hd & Hs & Hc) [Hw Hfl] Hr. unfold shz_raw_read.
  destruct (page_ok E Hmenv N z b Ha Hb) as (z1 & E1 & A1 & G1 & _). zstep E1.
  assert (inside z1 b) as Hi by (by apply (arch_inside N)). zstep (@page_size_ok (at_page z1 b) z1 b eq_refl Hi).
  rewrite (grown_pg N z z1 b), Hs by done. change sizeof_data with 16. rewrite Z.add_simpl_r.
  rewrite sint_u64_small by lia.
  destruct (Z.ltb_spec (Z.of_nat (length d)) 0); [lia |]. rewrite Nat2Z.id.
  zstep (ld_ok (at_page z1 b) z1 b (Z.to_nat 16) (length d) eq_refl Hi ltac:(lia)).
  rewrite (grown_pg N z z1 b) by done. change (Z.to_nat 16) with 16%nat. rewrite Hc.
  destruct (cat_ok E Hcalloc buff d Hw Hfl) as (buff' & Ec & Hw' & Hc' & _ & _ & Hfl' & _).
  { unfold room_for in Hr. rewrite length_app, Nat2Z.inj_add, (contents_length buff Hw) in Hr. lia. }
  unfold zlift, zbind. rewrite Ec. exists z1, buff'. split_and!; try done. by split; [| rewrite Hfl'].
Qed.

#[export] Instance raw_segment_io : segment_io E (shz_raw_write E) (shz_raw_read E).
Proof.
  refine {| seg_max := 1008; seg_cost := 1;
            stored := fun z lo hi b d => lo <= b < hi /\ raw_at (pg z b) d |}.
  - lia.
  - lia.
  - by intros z lo hi b d [].
  - intros z z' lo hi b d [Hb Hr] Hag. split; [done |]. by rewrite Hag.
  - intros N z raw Hf Hne HN. destruct (raw_write_ok N z raw Hf HN) as (z' & E1 & F1 & K1 & T1 & P1 & _).
    exists z', (N + 1), N. split_and!; try (done || lia). rewrite P1. apply raw_page_at. llia.
  - intros N z lo hi b d buff Ha Hlo Hhi [Hb Hr] Hbuf Hroom. apply raw_read_ok; (done || lia).
Defined.
End raw.

(** ** Chains of pages *)

Lemma link_before_ok E off l m N z :
  full N z -> 0 <= l < N -> (8 <= off)%nat -> (off + 4 <= 1024)%nat ->
  exists z', link_before E off l m z = Done (z', tt) /\ full N z' /\ keeps_but N l z z' /\ same_tables z z' /\ z_gen z' = z_gen z /\
    (l <> 0 -> pg z' l = set_crc (z_salt z) (fput (pg z l) off 4 (htonl m))).
Proof.
  intros Hf Hl Ho Ho'. unfold link_before. destruct (Z.eqb_spec l 0) as [->|Hl0].
  { exists z. by split_and!. }
  assert (inside z l /\ inside z 0) as [Hil Hi0] by (split; (apply (arch_inside N); [apply Hf | lia])).
  zstep (page_seen E N z l (proj1 Hf) ltac:(rewrite (proj2 Hf); lia)).
  zstep (stn_ok (at_page z l) z l off 4 (htonl m) eq_refl Hil ltac:(lia)).
  rewrite (crc_set_at Hil (P := fput (pg z l) off 4 (htonl m)) ltac:(plen) Hi0 Hl0).
  set (Q := set_crc _ _). assert (length Q = 1024%nat) as HQ by (unfold Q; plen).
  exists (set_pg l Q z). split_and!; try done.
  - apply full_set_pg; (done || lia).
  - apply keeps_but_set_pg; [apply Hf | lia | done].
  - intros _. by apply pg_set_same.
Qed.

(** ** Compressed segments *)

(** The calls deliver [d]: each fills its buffer but the last one, with results
    in [ok], and with a result in [last] at the end. *)
Inductive delivers (ok last : Z -> Prop) : list (Z * bytes) -> bytes -> Prop :=
| del_last err out calls : ok err -> last err -> Z.of_nat (length out) < MAX_BUFFER_SIZE -> delivers ok last ((err, out) :: calls) out
| del_more err out calls d : ok err -> Z.of_nat (length out) = MAX_BUFFER_SIZE -> delivers ok last calls d ->
    delivers ok last ((err, out) :: calls) (out ++ d).

(** What the code relies on: the documented behaviour of zlib, with the bound of
    its [compressBound]. *)
Class zlib_ok (zl : zlib) : Type := {
  compress : bytes -> bytes;
  compress_bound : forall d, let n := Z.of_nat (length d) in
    Z.of_nat (length (compress d)) <= n + n / 2 ^ 12 + n / 2 ^ 14 + n / 2 ^ 25 + 13;
  compress_nonempty : forall d, compress d <> [];
  deflate_init : deflateInit = 0;
  inflate_init : inflateInit2 = 0;
  deflate_delivers : forall d, delivers (fun err => 0 <= err) (fun _ => True) (z_deflate d) (compress d);
  inflate_delivers : forall d, delivers (fun err => err = 0 \/ err = Z_STREAM_END) (fun err => err = Z_STREAM_END)
    (z_inflate (compress d)) d
}.

Section zlib_segments.
Context (E : env) (Hcalloc : forall n, calloc_ok E n = true) (Hmenv : mapped_env E).
Context {zl : zlib} {zlo : zlib_ok zl}.

Lemma rcat_ok buff d :
  rbuf buff -> room_for (length (contents buff ++ d)) ->
  exists buff', shbuf_cat E buff d = Done buff' /\ rbuf buff' /\ contents buff' = contents buff ++ d.
Proof.
  intros [Hw Hf] Hr. destruct (cat_ok E Hcalloc buff d Hw Hf) as (b & Ec & Hw' & Hc' & _ & _ & Hf' & _).
  { unfold room_for in Hr. rewrite length_app, Nat2Z.inj_add, (contents_length buff Hw) in Hr. lia. }
  exists b. split_and!; try done. by split; [| rewrite Hf'].
Qed.

Lemma room_prefix (a b : bytes) : room_for (length (a ++ b)) -> room_for (length a).
Proof. unfold room_for. llia. Qed.

Lemma enc_loop_ok calls d buff :
  delivers (fun err => 0 <= err) (fun _ => True) calls d -> rbuf buff -> room_for (length (contents buff ++ d)) ->
  exists buff', enc_loop E calls buff = Done (buff', 0) /\ rbuf buff' /\ contents buff' = contents buff ++ d.
Proof.
  intros Hd. revert buff. induction Hd as [err out calls Hok _ Hl | err out calls d Hok Hl Hd IH]; intros buff Hb Hr;
    cbn [enc_loop]; (destruct (Z.ltb_spec err 0); [lia |]).
  - destruct (rcat_ok buff out Hb Hr) as (b & -> & Hb' & Hc). cbn [obind].
    unfold filled. destruct (Z.eqb_spec (Z.of_nat (length out)) MAX_BUFFER_SIZE); [lia |]. by exists b.
  - rewrite app_assoc in Hr. destruct (rcat_ok buff out Hb (room_prefix _ _ Hr)) as (b & -> & Hb' & Hc). cbn [obind].
    unfold filled. rewrite Hl, Z.eqb_refl. rewrite <- Hc in Hr.
    destruct (IH b Hb' Hr) as (b2 & E2 & Hb2 & Hc2). exists b2. by rewrite Hc2, Hc, app_assoc.
Qed.

Lemma dec_loop_ok calls d buff :
  delivers (fun err => err = 0 \/ err = Z_STREAM_END) (fun err => err = Z_STREAM_END) calls d ->
  rbuf buff -> room_for (length (contents buff ++ d)) ->
  exists buff', dec_loop E calls buff = Done (buff', 0) /\ rbuf buff' /\ contents buff' = contents buff ++ d.
Proof.
  intros Hd. revert buff. induction Hd as [err out calls Hok -> Hl | err out calls d Hok Hl Hd IH]; intros buff Hb Hr;
    cbn [dec_loop].
  - cbn [orb Z.eqb Z_STREAM_END Z_NEED_DICT Z_DATA_ERROR Z_MEM_ERROR Pos.eqb].
    destruct (rcat_ok buff out Hb Hr) as (b & -> & Hb' & Hc). cbn [obind].
    unfold filled. destruct (Z.eqb_spec (Z.of_nat (length out)) MAX_BUFFER_SIZE); [lia |]. by exists b.
  - assert ((err =? Z_NEED_DICT) || (err =? Z_DATA_ERROR) || (err =? Z_MEM_ERROR) = false) as -> by (by destruct Hok as [-> | ->]).
    rewrite app_assoc in Hr. destruct (rcat_ok buff out Hb (room_prefix _ _ Hr)) as (b & -> & Hb' & Hc). cbn [obind].
    unfold filled. rewrite Hl, Z.eqb_refl. rewrite <- Hc in Hr.
    destruct (IH b Hb' Hr) as (b2 & E2 & Hb2 & Hc2). exists b2. by rewrite Hc2, Hc, app_assoc.
Qed.

(** Encoding and decoding, of data that fits a buffer. *)
Lemma shzenc_ok d :
  room_for (length (compress d)) ->
  exists buff, shzenc E shbuf_init d = Done (buff, 0) /\ rbuf buff /\ contents buff = compress d.
Proof.
  intros Hr. unfold shzenc. rewrite deflate_init. cbn [Z.eqb negb].
  destruct (enc_loop_ok (z_deflate d) (compress d) shbuf_init) as (b & Eb & Hb & Hc);
    [apply deflate_delivers | apply rbuf_init | done |]. by exists b.
Qed.

Lemma shzdec_ok d buff :
  rbuf buff -> room_for (length (contents buff ++ d)) ->
  exists buff', shzdec E buff (compress d) = Done (buff', 0) /\ rbuf buff' /\ contents buff' = contents buff ++ d.
Proof.
  intros Hb Hr. unfold shzdec. rewrite decide_False by apply compress_nonempty. rewrite inflate_init. cbn [Z.eqb negb].
  by apply dec_loop_ok; [apply inflate_delivers | |].
Qed.


(** A page of a compressed stream: its bytes and the next page. *)
Definition zlink (P : bytes) (n : Z) (d : bytes) : Prop :=
  (length d <= 944)%nat /\ p_size P = 80 + Z.of_nat (length d) /\ slice P 80 (length d) = d /\
  htonl (fget P mod_seq 4) = n.

(** A chain of such pages from [b] on, below [hi] and ascending. *)
Inductive zchain (z : shz_t) (hi : Z) : Z -> bytes -> Prop :=
| zc_last b d : 0 < b < hi -> zlink (pg z b) 0 d -> zchain z hi b d
| zc_more b n d d' : 0 < b < n -> zlink (pg z b) n d -> zchain z hi n d' -> zchain z hi b (d ++ d').

Lemma zchain_range z hi b d : zchain z hi b d -> 0 < b < hi.
Proof. induction 1; lia. Qed.

Lemma zchain_agree z z' lo hi b d : lo <= b -> agree lo hi z z' -> zchain z hi b d -> zchain z' hi b d.
Proof.
  intros Hlo Hag Hc. induction Hc as [b d Hb Hl | b n d d' Hb Hl Hc IH].
  - apply zc_last; [done |]. by rewrite Hag by lia.
  - pose proof (zchain_range _ _ _ _ Hc). apply (zc_more _ _ b n); [done | by rewrite Hag by lia | apply IH; lia].
Qed.

Definition zdata_page (salt : Z) (d : bytes) : bytes :=
  set_crc salt (splice (set_size (new_page SHZ_PAGE_ZLIB_DATA) (80 + Z.of_nat (length d))) 80 d).

Lemma fget_zero P o n : slice P o n = replicate n 0 -> fget P o n = 0.
Proof. intros H. unfold fget. rewrite H. clear. induction n as [|n IH]; [done |]. cbn [replicate of_le]. rewrite IH. done. Qed.

Lemma zdata_page_link salt d : (length d <= 944)%nat -> zlink (zdata_page salt d) 0 d.
Proof.
  intros Hd. assert (length (set_size (new_page SHZ_PAGE_ZLIB_DATA) (80 + Z.of_nat (length d))) = 1024%nat) as HQ by plen.
  split_and!; [done | | |]; unfold zdata_page.
  - rewrite p_size_set_crc by plen. unfold p_size. rewrite fget_splice_other by (offs; lia).
    apply p_size_set_size; [plen | lia].
  - rewrite slice_set_crc by (plen || lia). apply slice_splice_same. lia.
  - rewrite fget_zero; [done |]. rewrite slice_set_crc by (plen || offs; lia).
    rewrite slice_splice_other by (offs; lia). rewrite slice_set_size by (plen || offs; lia). apply new_page_zero; offs; lia.
Qed.

Lemma zlink_next salt P n m d :
  length P = 1024%nat -> is_uint 32 m -> zlink P n d -> zlink (set_crc salt (fput P mod_seq 4 (htonl m))) m d.
Proof.
  intros HP Hm (Hd & Hs & Hc & Hn). split_and!; [done | | |].
  - rewrite p_size_set_crc by plen. unfold p_size. rewrite fget_fput_other by (offs; lia). done.
  - rewrite slice_set_crc by (plen || offs; lia). rewrite slice_fput_other by (offs; lia). done.
  - unfold fget. rewrite slice_set_crc by (plen || offs; lia). change (of_le (slice ?Q ?o ?k)) with (fget Q o k).
    rewrite fget_fput_same by (offs; lia || apply htonl_range). by apply htonl_involutive.
Qed.

(** One round of the loop: a page is added and linked to the one before. *)
Lemma zlib_round fuel N z rest f l :
  full N z -> rest <> [] -> N + 1 <= MAX_PAGES -> 0 <= l < N ->
  exists z', zlib_loop E (S fuel) rest f l z = zlib_loop E fuel (drop 944 rest) (if f =? 0 then N else f) N z' /\
    full (N + 1) z' /\ keeps_but N l z z' /\ same_tables z z' /\ zlink (pg z' N) 0 (take 944 rest) /\
    (forall d, l <> 0 -> zlink (pg z l) 0 d -> zlink (pg z' l) N d).
Proof.
  intros Hf Hne HN Hl. assert (1 <= N) as HN1 by (destruct Hf as [[] _]; lia). unfold MAX_PAGES in HN.
  destruct rest as [|r0 rest']; [done |]. cbn [zlib_loop]. set (rest := r0 :: rest') in *.
  set (len := Z.min zlib_step (Z.of_nat (length rest))).
  assert (take (Z.to_nat len) rest = take 944 rest /\ drop (Z.to_nat len) rest = drop 944 rest /\
          len = Z.of_nat (length (take 944 rest))) as (Et & Ed & El).
  { unfold len, zlib_step. offs. destruct (Z.min_spec (1024 - 80) (Z.of_nat (length rest))) as [[Hm ->]|[Hm ->]].
    - change (Z.to_nat (1024 - 80)) with 944%nat. split_and!; [done | done | llia].
    - rewrite Nat2Z.id, !take_ge, !drop_ge by lia. done. }
  rewrite Et, Ed. set (d := take 944 rest) in *. assert (length d <= 944)%nat as Hd by (unfold d; llia).
  destruct (page_new_ok E Hmenv N z SHZ_PAGE_ZLIB_DATA Hf HN) as (z1 & E1 & F1 & P1 & K1 & T1 & _).
  zstep E1. cbn beta iota zeta.
  assert (inside z1 N /\ inside z1 0 /\ inside z1 l) as (HiN & Hi0 & Hil)
    by (split_and!; (apply (arch_inside (N + 1)); [apply F1 | lia])).
  destruct (link_before_ok E mod_seq l N (N + 1) z1 F1) as (z2 & E2 & F2 & K12 & T12 & _ & L12); [lia | offs; lia | offs; lia |].
  assert (keeps_but N l z z2) as K2.
  { apply (keeps_but_trans N l (N + 1) l z z1); [lia | by left | by apply keeps_keeps_but | done]. }
  assert (same_tables z z2) as T2 by (by apply (same_tables_trans z z1)).
  assert (pg z2 N = new_page SHZ_PAGE_ZLIB_DATA) as P2 by (rewrite (kb_pg _ _ _ _ K12); (done || lia)).
  assert (forall d, l <> 0 -> zlink (pg z l) 0 d -> zlink (pg z2 l) N d) as L2.
  { intros d' Hl0 Hd'. rewrite L12 by done. apply (zlink_next _ _ 0); [plen | rlia |]. by rewrite (k_pg _ _ _ K1) by lia. }
  zstep E2. clear HiN Hi0 Hil E1 E2 P1.
  assert (inside z2 N /\ inside z2 0) as (HiN & Hi0)
    by (split_and!; (apply (arch_inside (N + 1)); [apply F2 | lia])).
  zstep (page_seen E (N + 1) z2 N (proj1 F2) ltac:(rewrite (proj2 F2); lia)). cbn beta iota.
  zstep (@page_size_set_ok (at_page z2 N) z2 N eq_refl HiN (sizeof_mod + len) ltac:(offs; lia)). cbn [Z.eqb negb].
  rewrite P2, El. change sizeof_mod with 80. change (Z.to_nat 80) with 80%nat.
  zstep (st_at HiN (P := set_size (new_page SHZ_PAGE_ZLIB_DATA) (80 + Z.of_nat (length d))) ltac:(plen) 80 d ltac:(lia)).
  zstep (crc_set_at HiN (P := splice (set_size (new_page SHZ_PAGE_ZLIB_DATA) (80 + Z.of_nat (length d))) 80 d) ltac:(plen) Hi0 ltac:(lia)).
  change (set_crc _ _) with (zdata_page (z_salt z2) d).
  assert (length (zdata_page (z_salt z2) d) = 1024%nat) as HP by (unfold zdata_page; plen).
  exists (set_pg N (zdata_page (z_salt z2) d) z2). split_and!; try done.
  - apply full_set_pg; (done || lia).
  - apply (keeps_but_trans N l (N + 1) N z z2); [lia | lia | done |]. apply keeps_but_set_pg; [apply F2 | lia | done].
  - rewrite pg_set_same by done. by apply zdata_page_link.
  - intros d' Hl0 Hd'. rewrite pg_set_other by (done || lia). by apply L2.
Qed.

Definition zpages (n : nat) : Z := (Z.of_nat n + 943) / 944.

Lemma zpages_round n : (0 < n)%nat -> zpages n = 1 + zpages (n - 944).
Proof. intros Hn. unfold zpages. destruct (le_lt_dec 944 n); [mlia |]. replace (n - 944)%nat with 0%nat by lia. mlia. Qed.

(** With a page before, the rest is chained to it. *)
Lemma zlib_loop_tail fuel N z rest f l d :
  full N z -> (length rest <= fuel)%nat -> N + zpages (length rest) <= MAX_PAGES -> f <> 0 -> 0 < l < N ->
  zlink (pg z l) 0 d ->
  exists z' N', zlib_loop E fuel rest f l z = Done (z', (0, f)) /\ full N' z' /\
    N <= N' <= N + zpages (length rest) /\ keeps_but N l z z' /\ same_tables z z' /\ zchain z' N' l (d ++ rest).
Proof.
  revert N z rest l d. induction fuel as [|fuel IH]; intros N z rest l d Hf Hr HN Hf0 Hl Hd.
  all: destruct rest as [|r0 rest']; [|try (cbn [length] in Hr; lia)].
  1,2: exists z, N; cbn [zlib_loop length]; rewrite app_nil_r; change (zpages 0) with 0; split_and!; try done; try lia;
    first [by apply zc_last | apply keeps_keeps_but; [destruct Hf as [[] _]; lia | apply keeps_refl]].
  set (rest := r0 :: rest') in *. assert (0 < length rest)%nat as Hr0 by (unfold rest; cbn [length]; lia).
  rewrite (zpages_round (length rest)) in * by done. assert (0 <= zpages (length rest - 944)) as Hz by (unfold zpages; mlia).
  destruct (zlib_round fuel N z rest f l) as (z1 & E1 & F1 & K1 & T1 & L1 & L2); [done | done | lia | lia |].
  destruct (Z.eqb_spec f 0); [done |]. rewrite E1.
  destruct (IH (N + 1) z1 (drop 944 rest) N (take 944 rest)) as (z2 & N2 & E2 & F2 & B2 & K2 & T2 & C2);
    [done | llia | rewrite length_drop; lia | done | destruct F1 as [[] _]; lia | done |].
  rewrite length_drop in B2. exists z2, N2. split_and!; try (done || lia).
  - apply (keeps_but_trans N l (N + 1) N z z1); (done || lia).
  - by apply (same_tables_trans z z1).
  - rewrite take_drop in C2. apply (zc_more _ _ l N); [lia | | done].
    rewrite (kb_pg _ _ _ _ K2) by lia. apply L2; [lia | done].
Qed.

Lemma zlib_loop_ok N z rest :
  full N z -> rest <> [] -> N + zpages (length rest) <= MAX_PAGES ->
  exists z' N', zlib_loop E (length rest) rest 0 0 z = Done (z', (0, N)) /\ full N' z' /\
    N < N' <= N + zpages (length rest) /\ keeps N z z' /\ same_tables z z' /\ zchain z' N' N rest.
Proof.
  intros Hf Hne HN. pose proof (a_N _ _ (proj1 Hf)) as HN1. destruct rest as [|r0 rest']; [done |]. set (rest := r0 :: rest') in *.
  assert (0 < length rest)%nat as Hr0 by (unfold rest; cbn [length]; lia).
  rewrite (zpages_round (length rest)) in * by done. assert (0 <= zpages (length rest - 944)) as Hz by (unfold zpages; mlia).
  destruct (zlib_round (length rest') N z rest 0 0) as (z1 & E1 & F1 & K1 & T1 & L1 & _); [done | done | lia | lia |].
  change (zlib_loop E (length rest)) with (zlib_loop E (S (length rest'))). rewrite E1. cbn [Z.eqb].
  destruct (zlib_loop_tail (length rest') (N + 1) z1 (drop 944 rest) N N (take 944 rest)) as (z2 & N2 & E2 & F2 & B2 & K2 & T2 & C2);
    [done | unfold rest; rewrite length_drop; cbn [length]; lia | rewrite length_drop; lia | lia | lia | done |].
  rewrite length_drop in B2. exists z2, N2. rewrite take_drop in C2. pose proof (zchain_range _ _ _ _ C2).
  split_and!; try (done || lia || by apply (same_tables_trans z z1)).
  apply (keeps_but_keeps N 0); [lia |]. apply (keeps_but_trans N 0 (N + 1) N z z1); (done || lia).
Qed.

Lemma length_key_image k : valid_key k -> length (shkey_image k) = 32%nat.
Proof.
  intros (_ & _ & Hl & _). unfold shkey_image. rewrite !length_app, !length_le_bytes, (length_pieces 4), Hl; [done |].
  intros w _. apply length_le_bytes.
Qed.

Definition zlib_page (salt raw_bnum raw_len : Z) (k : shkey_t) : bytes :=
  set_crc salt (set_size (splice (fput (fput (new_page SHZ_PAGE_ZLIB) mod_size 4 (htonl raw_len)) mod_seq 4 (htonl raw_bnum))
    mod_id (shkey_image k)) sizeof_mod).

Lemma zlib_new_ok N z raw_bnum raw_len k :
  full N z -> N + 1 <= MAX_PAGES -> valid_key k ->
  exists z', shz_zlib_new E raw_bnum raw_len k z = Done (z', (0, Some N)) /\ full (N + 1) z' /\ keeps N z z' /\
    same_tables z z' /\ pg z' N = zlib_page (z_salt z) raw_bnum raw_len k.
Proof.
  intros Hf HN Hk. pose proof (a_N _ _ (proj1 Hf)) as HN1. pose proof (length_key_image k Hk) as Hi.
  unfold shz_zlib_new. destruct (page_new_ok E Hmenv N z SHZ_PAGE_ZLIB Hf HN) as (z1 & E1 & F1 & P1 & K1 & T1 & _).
  zstep E1. cbn beta iota. assert (inside z1 N /\ inside z1 0) as (HiN & Hi0)
    by (split_and!; (apply (arch_inside (N + 1)); [apply F1 | lia])).
  zstep (stn_ok (at_page z1 N) z1 N mod_size 4 (htonl raw_len) eq_refl HiN ltac:(olia)). rewrite P1.
  set (P2 := fput (new_page SHZ_PAGE_ZLIB) mod_size 4 (htonl raw_len)). assert (length P2 = 1024%nat) as H2 by (unfold P2; plen).
  zstep (stn_at HiN H2 mod_seq 4 (htonl raw_bnum) ltac:(olia)).
  set (P3 := fput P2 mod_seq 4 (htonl raw_bnum)). assert (length P3 = 1024%nat) as H3 by (unfold P3; plen).
  zstep (st_at HiN H3 mod_id (shkey_image k) ltac:(offs; lia)).
  set (P4 := splice P3 mod_id (shkey_image k)). assert (length P4 = 1024%nat) as H4 by (unfold P4; plen).
  zstep (size_set_at HiN H4 sizeof_mod ltac:(offs; lia)).
  zstep (crc_set_at HiN (P := set_size P4 sizeof_mod) ltac:(plen) Hi0 ltac:(lia)).
  rewrite (k_salt _ _ _ K1). change (set_crc _ _) with (zlib_page (z_salt z) raw_bnum raw_len k).
  assert (length (zlib_page (z_salt z) raw_bnum raw_len k) = 1024%nat) as HP by (apply length_set_crc, length_set_size; done).
  exists (set_pg N (zlib_page (z_salt z) raw_bnum raw_len k) z1). split_and!; try done.
  - apply full_set_pg; (done || lia).
  - apply (keeps_trans N N z z1); [lia | done |]. apply (keeps_set_pg (N + 1)); [apply F1 | lia | done].
  - by apply pg_set_same.
Qed.

(** The header page of a segment names the first page of its stream. *)
Lemma zlib_page_fields salt b len k :
  valid_key k -> is_uint 32 b ->
  p_type (zlib_page salt b len k) = SHZ_PAGE_ZLIB /\ htonl (fget (zlib_page salt b len k) mod_seq 4) = b.
Proof.
  intros Hk Hb. pose proof (length_key_image k Hk) as Hi. unfold zlib_page.
  set (P2 := fput (new_page SHZ_PAGE_ZLIB) mod_size 4 (htonl len)). assert (length P2 = 1024%nat) as H2 by (unfold P2; plen).
  set (P3 := fput P2 mod_seq 4 (htonl b)). assert (length P3 = 1024%nat) as H3 by (unfold P3; plen).
  set (P4 := splice P3 mod_id (shkey_image k)). assert (length P4 = 1024%nat) as H4 by (unfold P4; plen). split.
  - rewrite p_type_set_crc, p_type_set_size by plen. unfold p_type, P4. rewrite fget_splice_other by (offs; lia).
    unfold P3, P2. rewrite !fget_fput_other by (rewrite ?length_fput; rewrite ?length_new_page; offs; lia).
    by apply p_type_new_page.
  - unfold fget. rewrite slice_set_crc by (plen || offs; lia). rewrite slice_set_size by (plen || offs; lia).
    unfold P4. rewrite slice_splice_other by (offs; lia). change (of_le (slice ?Q ?o ?n)) with (fget Q o n).
    unfold P3. rewrite fget_fput_same by (offs; lia || apply htonl_range). by apply htonl_involutive.
Qed.

Definition zstored (z : shz_t) (lo hi b : Z) (d : bytes) : Prop :=
  lo <= b < hi /\ p_type (pg z b) = SHZ_PAGE_ZLIB /\
  exists n, htonl (fget (pg z b) mod_seq 4) = n /\ lo <= n /\ zchain z hi n (compress d).

Lemma zstored_agree z z' lo hi b d : zstored z lo hi b d -> agree lo hi z z' -> zstored z' lo hi b d.
Proof.
  intros (Hb & Ht & n & Hn & Hlo & Hc) Hag. split_and!; try lia; rewrite (Hag b) by done; [done |].
  exists n. split_and!; [done | done |]. by apply (zchain_agree z z' lo).
Qed.

(** Pages a segment of one megabyte can take. *)
Definition ZLIB_COST : Z := 1113.

Lemma zlib_write_ok N z raw :
  full N z -> raw <> [] -> N + ZLIB_COST <= MAX_PAGES ->
  exists z' N' b, shz_zlib_write E raw z = Done (z', (Z.of_nat (Nat.min (Z.to_nat 1048576) (length raw)), Some b)) /\
    full N' z' /\ N < N' <= N + ZLIB_COST /\ keeps N z z' /\ same_tables z z' /\
    zstored z' N N' b (take (Z.to_nat 1048576) raw).
Proof.
  intros Hf Hne HN. pose proof (a_N _ _ (proj1 Hf)) as HN1. unfold ZLIB_COST in *. unfold shz_zlib_write.
  set (d := take (Z.to_nat 1048576) raw). cbn zeta.
  assert (length d = Nat.min (Z.to_nat 1048576) (length raw)) as Hd by (unfold d; llia).
  pose proof (compress_bound d) as Hcb. cbn zeta in Hcb. change (2 ^ 12) with 4096 in Hcb.
  change (2 ^ 14) with 16384 in Hcb. change (2 ^ 25) with 33554432 in Hcb.
  assert (Z.of_nat (length (compress d)) <= 1048909) as Hc by mlia. clear Hcb.
  destruct (shzenc_ok d) as (b & Eb & Hb & Hcon); [unfold room_for, GROW_LIMIT, INT_MAX; lia |].
  unfold zlift at 1, zbind at 1. rewrite Eb. cbn [Z.eqb negb]. rewrite Hcon.
  assert (zpages (length (compress d)) <= 1112) as Hz by (unfold zpages; mlia).
  destruct (zlib_loop_ok N z (compress d)) as (z1 & N1 & E1 & F1 & B1 & K1 & T1 & C1); [done | apply compress_nonempty | lia |].
  zstep E1. cbn [Z.eqb negb].
  assert (valid_key (shkey_bin (Some d))) as Hk by apply valid_bin.
  destruct (zlib_new_ok N1 z1 N (Z.of_nat (length (compress d))) (shkey_bin (Some d)) F1) as (z2 & E2 & F2 & K2 & T2 & P2); [lia | done |].
  zstep E2. cbn [Z.eqb negb].
  destruct (zsize_incr_ok (N1 + 1) z2 (Z.of_nat (length d)) (proj1 F2)) as (z3 & E3 & A3 & K3 & T3 & B3 & _ & _). zstep E3.
  exists z3, (N1 + 1), N1. unfold MAX_PAGES in *. split_and!; try lia.
  - unfold zret. by rewrite Hd.
  - split; [done |]. rewrite B3. apply F2.
  - apply (keeps_trans N N1 z z1); [lia | done |]. apply (keeps_trans N1 (N1 + 1) z1 z2); (done || lia).
  - by do 2 (eapply same_tables_trans; [eassumption |]).
  - destruct (zlib_page_fields (z_salt z1) N (Z.of_nat (length (compress d))) (shkey_bin (Some d)) Hk) as [Q1 Q2]; [rlia |].
    split_and!; [lia | lia | |]; rewrite (k_pg _ _ _ K3), P2 by lia; [done |].
    exists N. split_and!; [done | lia |].
    assert (zchain z3 N1 N (compress d)) as C3.
    { apply (zchain_agree z1 z3 N); [lia | | done]. intros c Hc'. rewrite (k_pg _ _ _ K3), (k_pg _ _ _ K2) by lia. done. }
    clear -C3. induction C3; [apply zc_last; (done || lia) | by apply (zc_more _ _ b n)].
Qed.

(** Reading a chain: the pages are the same in every archive the reads lead to. *)
Lemma zlib_chain_ok z0 N hi b d fuel z buff :
  zchain z0 hi b d -> arch N z0 -> hi <= N -> arch N z -> grown z0 z -> hi - b <= Z.of_nat fuel -> 
  rbuf buff -> room_for (length (contents buff ++ d)) ->
  exists z' buff', zlib_chain E fuel (Some (at_page z b)) buff z = Done (z', (0, buff')) /\ arch N z' /\ grown z0 z' /\
    rbuf buff' /\ contents buff' = contents buff ++ d.
Proof.
  intros Hc A0 Hhi. revert fuel z buff.
  assert (forall b n d fuel z buff, 0 < b < hi -> zlink (pg z0 b) n d -> arch N z -> grown z0 z ->
    rbuf buff -> room_for (length (contents buff ++ d)) ->
    exists buff', rbuf buff' /\ contents buff' = contents buff ++ d /\
      zlib_chain E (S fuel) (Some (at_page z b)) buff z =
      (if n =? 0 then zret (0, buff') z else (page <~ shz_page E n; zlib_chain E fuel page buff') z)) as Hround.
  { clear b d Hc. intros b n d fuel z buff Hb (Hd & Hs & Hp & Hn) Ha Hg Hw Hr. cbn [zlib_chain].
    assert (inside z b) as Hi by (apply (arch_inside N); [done | lia]).
    assert (pg z b = pg z0 b) as Ep by (apply (grown_pg N); [done | done | lia]).
    zstep (@page_size_ok (at_page z b) z b eq_refl Hi). rewrite Ep, Hs. offs.
    destruct (Z.ltb_spec (80 + Z.of_nat (length d)) 80); [lia |].
    destruct (Z.ltb_spec 1024 (80 + Z.of_nat (length d))); [lia |]. cbn [orb].
    replace (80 + Z.of_nat (length d) - 80) with (Z.of_nat (length d)) by lia. rewrite Nat2Z.id.
    zstep (ld_ok (at_page z b) z b (Z.to_nat 80) (length d) eq_refl Hi ltac:(lia)). rewrite Ep. change (Z.to_nat 80) with 80%nat. rewrite Hp.
    destruct (rcat_ok buff d Hw Hr) as (buff' & Ec & Hb' & Hc'). exists buff'. split_and!; [done | done |].
    unfold zbind at 1, zlift. rewrite Ec. zstep (ldn_ok (at_page z b) z b 56 4 eq_refl Hi ltac:(lia)). rewrite Ep.
    unfold mod_seq in Hn. rewrite Hn. by case_cmp. }
  induction Hc as [b d Hb Hl | b n d d' Hb Hl Hc IH]; intros fuel z buff Ha Hg Hfuel Hw Hr;
    (destruct fuel as [|fuel]; [try pose proof (zchain_range _ _ _ _ Hc); lia |]).
  - destruct (Hround b 0 d fuel z buff Hb Hl Ha Hg Hw Hr) as (buff' & Hb' & Hc' & ->). by exists z, buff'.
  - pose proof (zchain_range _ _ _ _ Hc) as Hn. rewrite app_assoc in Hr.
    destruct (Hround b n d fuel z buff ltac:(lia) Hl Ha Hg Hw (room_prefix _ _ Hr)) as (buff' & Hb' & Hc' & ->).
    destruct (Z.eqb_spec n 0); [lia |].
    destruct (page_ok E Hmenv N z n Ha ltac:(lia)) as (z1 & E1 & A1 & G1 & _). zstep E1.
    rewrite <- Hc' in Hr. destruct (IH fuel z1 buff' A1 ltac:(by etrans) ltac:(lia) Hb' Hr) as (z2 & b2 & E2 & A2 & G2 & W2 & C2).
    exists z2, b2. split_and!; try done. by rewrite C2, Hc', app_assoc.
Qed.

Lemma zlib_read_ok N z lo hi b d buff :
  arch N z -> 0 < lo -> hi <= N -> (length d <= Z.to_nat 1048576)%nat -> zstored z lo hi b d -> rbuf buff -> room_for (length (contents buff ++ d)) ->
  exists z' buff', shz_zlib_read E b buff z = Done (z', (0, buff')) /\ arch N z' /\ grown z z' /\
    rbuf buff' /\ contents buff' = contents buff ++ d.
Proof.
  intros Ha Hlo Hhi Hlen (Hb & Ht & n & Hn & Hln & Hc) Hw Hr. unfold shz_zlib_read. pose proof (zchain_range _ _ _ _ Hc) as Hrg.
  destruct (page_ok E Hmenv N z b Ha ltac:(lia)) as (z1 & E1 & A1 & G1 & _). zstep E1.
  assert (inside z1 b) as Hi by (apply (arch_inside N); [done | lia]).
  assert (pg z1 b = pg z b) as Ep by (apply (grown_pg N); [done | done | lia]).
  zstep (@page_type_ok (at_page z1 b) z1 b eq_refl Hi). rewrite Ep, Ht, Z.eqb_refl. cbn [negb].
  zstep (ldn_ok (at_page z1 b) z1 b mod_seq 4 eq_refl Hi ltac:(olia)). rewrite Ep, Hn.
  destruct (page_ok E Hmenv N z1 n A1 ltac:(lia)) as (z2 & E2 & A2 & G2 & _). zstep E2. rewrite zget_step.
  pose proof (compress_bound d) as Hcb. cbn zeta in Hcb. change (2 ^ 12) with 4096 in Hcb.
  change (2 ^ 14) with 16384 in Hcb. change (2 ^ 25) with 33554432 in Hcb.
  assert (grown z z2) as G02 by (by etrans).
  destruct (zlib_chain_ok z N hi n (compress d) (S (page_fuel z2)) z2 shbuf_init) as (z3 & b3 & E3 & A3 & G3 & W3 & C3);
    [done | done | done | done | done | pose proof (page_fuel_ok N z2 A2); lia | apply rbuf_init | |].
  { unfold room_for, GROW_LIMIT, INT_MAX. change (contents shbuf_init) with (@nil Z). rewrite app_nil_l. mlia. }
  zstep E3. cbn [Z.eqb negb]. change (contents shbuf_init) with (@nil Z) in C3. rewrite app_nil_l in C3. rewrite C3.
  destruct (shzdec_ok d buff Hw Hr) as (b4 & E4 & W4 & C4). unfold zbind, zlift. rewrite E4.
  exists z3, b4. by split_and!.
Qed.

#[export] Instance zlib_segment_io : segment_io E (shz_zlib_write E) (shz_zlib_read E).
Proof.
  refine {| seg_max := Z.to_nat 1048576; seg_cost := ZLIB_COST;
            stored := fun z lo hi b d => (length d <= Z.to_nat 1048576)%nat /\ zstored z lo hi b d |}.
  - lia.
  - done.
  - by intros z lo hi b d [_ [? _]].
  - intros z z' lo hi b d [Hd Hs] Hag. split; [done |]. by apply (zstored_agree z).
  - intros N z raw Hf Hne HN. destruct (zlib_write_ok N z raw Hf Hne HN) as (z' & N' & b & E1 & F1 & B1 & K1 & T1 & S1).
    exists z', N', b. split_and!; try (done || lia). rewrite length_take. lia.
  - intros N z lo hi b d buff Ha Hlo Hhi [Hd Hs] Hbuf Hroom. by apply (zlib_read_ok N z lo hi).
Defined.
End zlib_segments.
