(* ===== verification/ShShzIndex.v ===== *)
(** * Archives: the index of a file

    The correctness of [shz_index_write] and [shz_index_read] of
    [share-lib/mem/shmem_shz.c], proved once against the interface
    [segment_io] of ShShzData, which the raw and the compressed segments
    implement.  An index page holds 252 segment numbers; pages are chained.  The
    code gives up the segment that does not fit a full page: of every 253
    segments the last one is lost, and what is read back is the rest. *)

From Stdlib Require Import ZArith Lia.
From stdpp Require Import base numbers list.
From S2P Require Import Prelude ShCrc ShKey ShBuf ShShz ShShzData.

Open Scope Z_scope.
Open Scope share_scope.

(** ** Index pages as lists of segment numbers *)

Definition slots (P : bytes) (refs : list Z) : Prop :=
  (length refs <= 252)%nat /\ Forall (fun r => 0 < r < 2 ^ 32) refs /\
  forall i, 0 <= i < 252 -> fget P (seg_off i) 4 = htonl (nth (Z.to_nat i) refs 0).

(** The segments a page lists, and the page that follows. *)
Definition ilink (P : bytes) (n : Z) (refs : list Z) : Prop :=
  slots P refs /\ htonl (fget P data_seq 4) = n.

Inductive ichain (z : shz_t) (hi : Z) : Z -> list Z -> Prop :=
| ic_last b refs : 0 < b < hi -> ilink (pg z b) 0 refs -> ichain z hi b refs
| ic_more b n refs rest : 0 < b < n -> ilink (pg z b) n refs -> ichain z hi n rest -> ichain z hi b (refs ++ rest).

Lemma ichain_range z hi b refs : ichain z hi b refs -> 0 < b < hi.
Proof. induction 1; lia. Qed.

Lemma ichain_agree z z' lo hi b refs : lo <= b -> agree lo hi z z' -> ichain z hi b refs -> ichain z' hi b refs.
Proof.
  intros Hlo Hag Hc. induction Hc as [b refs Hb Hl | b n refs rest Hb Hl Hc IH].
  - apply ic_last; [done |]. by rewrite Hag by lia.
  - pose proof (ichain_range _ _ _ _ Hc). apply (ic_more _ _ b n); [done | by rewrite Hag by lia | apply IH; lia].
Qed.

Lemma htonl_nonzero v : 0 < v < 2 ^ 32 -> htonl v <> 0.
Proof. intros Hv H. pose proof (htonl_involutive v ltac:(rlia)) as Hi. rewrite H in Hi. change (htonl 0) with 0 in Hi. lia. Qed.

Lemma seg_off_val i : 0 <= i -> seg_off i = (16 + 4 * Z.to_nat i)%nat.
Proof. intros. unfold seg_off. offs. lia. Qed.

Lemma slots_new t : slots (new_page t) [].
Proof.
  split_and!; [cbn [length]; lia | constructor |]. intros i Hi. rewrite seg_off_val by lia.
  rewrite fget_zero; [by destruct (Z.to_nat i) |]. apply new_page_zero; lia.
Qed.

Lemma ilink_new : ilink (new_page SHZ_PAGE_INDEX) 0 [].
Proof. split; [apply slots_new |]. rewrite fget_zero; [done |]. apply new_page_zero; offs; lia. Qed.

(** Updates of a page outside the slots and the link. *)
Lemma ilink_eq P Q n refs :
  ilink P n refs -> (forall o k, (8 <= o)%nat -> slice Q o k = slice P o k) -> ilink Q n refs.
Proof.
  intros [(H1 & H2 & H3) H4] HQ. split; [split_and!; [done | done |] |].
  - intros i Hi. unfold fget. rewrite HQ by (rewrite seg_off_val; lia). by apply H3.
  - unfold fget. rewrite HQ by (offs; lia). done.
Qed.

Lemma ilink_crc s P n refs : length P = 1024%nat -> ilink P n refs -> ilink (set_crc s P) n refs.
Proof. intros HP H. apply (ilink_eq P); [done |]. intros o k Ho. apply slice_set_crc; [done | lia]. Qed.

Lemma ilink_next s P n m refs :
  length P = 1024%nat -> is_uint 32 m -> ilink P n refs -> ilink (set_crc s (fput P data_seq 4 (htonl m))) m refs.
Proof.
  intros HP Hm [(H1 & H2 & H3) H4]. apply ilink_crc; [plen |]. split; [split_and!; [done | done |] |].
  - intros i Hi. rewrite fget_fput_other by (rewrite ?seg_off_val; offs; lia). by apply H3.
  - rewrite fget_fput_same by (offs; lia || apply htonl_range). by apply htonl_involutive.
Qed.

(** ** Appending to an index page *)

Lemma free_seg_ok p z b n refs k i :
  points p z b -> inside z b -> ilink (pg z b) n refs -> 0 <= i <= Z.of_nat (length refs) -> i + Z.of_nat k = 252 ->
  free_seg k p i z = Done (z, Z.of_nat (length refs)).
Proof.
  intros Hp Hb [(Hl & Hr & Hs) _]. revert i. induction k as [|k IH]; intros i Hi Hk; cbn [free_seg].
  { unfold zret. do 2 f_equal. lia. }
  zstep (ldn_ok p z b (seg_off i) 4 Hp Hb ltac:(rewrite seg_off_val; lia)). rewrite Hs by lia.
  destruct (Z_lt_le_dec i (Z.of_nat (length refs))) as [Hlt|Hge].
  - assert (In (nth (Z.to_nat i) refs 0) refs) as Hin by (apply nth_In; lia).
    rewrite List.Forall_forall in Hr. pose proof (htonl_nonzero _ (Hr _ Hin)) as Hnz.
    destruct (Z.eqb_spec (htonl (nth (Z.to_nat i) refs 0)) 0); [done |]. apply IH; lia.
  - rewrite nth_overflow by lia. change (htonl 0) with 0. cbn [Z.eqb]. unfold zret. do 2 f_equal. lia.
Qed.

Definition appended (P : bytes) (k : nat) (b : Z) : bytes :=
  set_size (fput P (seg_off (Z.of_nat k)) 4 (htonl b)) (16 + (Z.of_nat k + 1) * 4).

Lemma length_appended P k b : length P = 1024%nat -> (k < 252)%nat -> length (appended P k b) = 1024%nat.
Proof.
  intros HP Hk. unfold appended. apply length_set_size. rewrite length_fput; [done |]. rewrite seg_off_val; lia.
Qed.

Lemma ilink_appended P n refs b :
  length P = 1024%nat -> ilink P n refs -> (length refs < 252)%nat -> 0 < b < 2 ^ 32 ->
  ilink (appended P (length refs) b) n (refs ++ [b]).
Proof.
  intros HP [(H1 & H2 & H3) H4] Hl Hb. unfold appended.
  assert ((seg_off (Z.of_nat (length refs)) + 4 <= length P)%nat) as Ho by (rewrite seg_off_val; lia).
  apply (ilink_eq (fput P (seg_off (Z.of_nat (length refs))) 4 (htonl b))).
  2:{ intros o k Hk. apply slice_set_size; [|done]. by rewrite length_fput. }
  split; [split_and! |].
  - rewrite length_app. cbn [length]. lia.
  - apply Forall_app. by split; [| constructor].
  - intros i Hi. destruct (Z.eq_dec i (Z.of_nat (length refs))) as [->|Hne].
    + rewrite fget_fput_same by (done || apply htonl_range). by rewrite Nat2Z.id, nth_middle.
    + rewrite fget_fput_other by (done || rewrite !seg_off_val by lia; lia). rewrite H3 by done. f_equal.
      destruct (Z_lt_le_dec i (Z.of_nat (length refs))); [by rewrite app_nth1 by lia |].
      rewrite !nth_overflow by (rewrite ?length_app; cbn [length]; lia). done.
  - rewrite fget_fput_other by (done || rewrite ?seg_off_val by lia; offs; lia). done.
Qed.

Lemma index_append_ok z b n refs r :
  inside z b -> ilink (pg z b) n refs -> (length refs < 252)%nat ->
  shz_index_append (at_page z b) r z = Done (set_pg b (appended (pg z b) (length refs) r) z, 0).
Proof.
  intros Hb Hl Hlen. unfold shz_index_append. change (Z.to_nat SHZ_MAX_INDEX_SIZE) with 252%nat.
  zstep (free_seg_ok (at_page z b) z b n refs 252 0 eq_refl Hb Hl ltac:(lia) ltac:(lia)). offs.
  destruct (Z.eqb_spec (Z.of_nat (length refs)) 252); [lia |].
  zstep (stn_ok (at_page z b) z b (seg_off (Z.of_nat (length refs))) 4 (htonl r) eq_refl Hb ltac:(rewrite seg_off_val; lia)).
  assert (length (fput (pg z b) (seg_off (Z.of_nat (length refs))) 4 (htonl r)) = 1024%nat) as HP.
  { rewrite length_fput; rewrite length_pg by done; [done |]. rewrite seg_off_val; lia. }
  by zstep (size_set_at Hb HP (16 + (Z.of_nat (length refs) + 1) * 4) ltac:(lia)).
Qed.

Lemma index_append_full z b n refs r :
  inside z b -> ilink (pg z b) n refs -> length refs = 252%nat ->
  shz_index_append (at_page z b) r z = Done (z, SHERR_NOBUFS).
Proof.
  intros Hb Hl Hlen. unfold shz_index_append. change (Z.to_nat SHZ_MAX_INDEX_SIZE) with 252%nat.
  zstep (free_seg_ok (at_page z b) z b n refs 252 0 eq_refl Hb Hl ltac:(lia) ltac:(lia)). by rewrite Hlen.
Qed.

(** ** Segments *)

(** The data in pieces of [n] bytes. *)
Fixpoint cut (fuel n : nat) (l : bytes) : list bytes :=
  match fuel with
  | O => []
  | S fuel' => match l with [] => [] | _ => take n l :: cut fuel' n (drop n l) end
  end.

(** What an index keeps of the segments: the one that comes when the current
    page lists [k = 252] is dropped, and the next one starts a page. *)
Fixpoint kept (k : nat) (ds : list bytes) : list bytes :=
  match ds with
  | [] => []
  | d :: ds' => if Nat.eqb k 252 then kept 0 ds' else d :: kept (S k) ds'
  end.

Lemma concat_cut fuel n l : (0 < n)%nat -> (length l <= fuel)%nat -> concat (cut fuel n l) = l.
Proof.
  intros Hn. revert l. induction fuel as [|fuel IH]; intros l Hl; cbn [cut]; [by destruct l; [| cbn [length] in Hl; lia] |].
  destruct l as [|x l]; [done |]. cbn [concat]. rewrite IH; [apply take_drop |]. rewrite length_drop. cbn [length] in *. lia.
Qed.

Lemma length_cut fuel n l : (0 < n)%nat -> (n * (length (cut fuel n l) - 1) < length l + 1)%nat.
Proof.
  intros Hn. revert l. induction fuel as [|fuel IH]; intros l; cbn [cut]; [cbn [length]; lia |].
  destruct l as [|x l]; [cbn [length]; lia |]. cbn [length]. specialize (IH (drop n (x :: l))). rewrite length_drop in IH.
  cbn [length] in IH. destruct (length (cut fuel n (drop n (x :: l)))) as [|c] eqn:E; [lia |].
  assert (drop n (x :: l) <> []) as Hne.
  { intros H. rewrite H in E. by destruct fuel. }
  assert (n < length (x :: l))%nat by (destruct (le_lt_dec (length (x :: l)) n); [by rewrite drop_ge in Hne | done]).
  cbn [length] in *. nia.
Qed.

(** Up to 252 segments nothing is lost. *)
Lemma kept_all ds k : (length ds + k <= 252)%nat -> kept k ds = ds.
Proof.
  revert k. induction ds as [|d ds IH]; intros k H; [done |]. cbn [kept length] in *.
  destruct (Nat.eqb_spec k 252); [lia |]. rewrite IH by lia. done.
Qed.

(** The 253rd segment is lost. *)
Lemma kept_loses ds ds' d k :
  (length ds + k = 252)%nat -> kept k (ds ++ d :: ds') = ds ++ kept 0 ds'.
Proof.
  revert k. induction ds as [|x ds IH]; intros k H; cbn [kept app length] in *.
  - by destruct (Nat.eqb_spec k 252); [| lia].
  - destruct (Nat.eqb_spec k 252); [lia |]. rewrite IH by lia. done.
Qed.

Section index.
Context (E : env) (Hcalloc : forall n, calloc_ok E n = true) (Hmenv : mapped_env E).
Context {write : bytes -> M (Z * option Z)} {read : Z -> shbuf_t -> M (Z * shbuf_t)} {SIO : segment_io E write read}.

(** A segment stored somewhere from page [lo] to page [hi]. *)
Definition held (z : shz_t) (lo hi r : Z) (d : bytes) : Prop :=
  exists a b, lo <= a /\ b <= hi /\ stored z a b r d.

Lemma held_agree z z' lo hi lo' hi' r d :
  agree lo hi z z' -> lo' <= lo -> hi <= hi' -> held z lo hi r d -> held z' lo' hi' r d.
Proof.
  intros Hag Hlo Hhi (a & b & Ha & Hb & Hs). exists a, b. split_and!; [lia | lia |].
  apply (stored_agree z); [done |]. by apply (agree_sub lo hi).
Qed.

(** The pages that [n] segments and their index can take. *)
Definition index_cost (n : nat) : Z := (seg_cost + 1) * Z.of_nat n.

Lemma index_cost_pos n : 0 <= index_cost n.
Proof. unfold index_cost. pose proof seg_cost_pos. nia. Qed.

(** A new index page, chained to the one before. *)
Lemma index_page_new N z l ret :
  full N z -> N + 1 <= MAX_PAGES -> 0 <= l < N ->
  exists z', index_page E 0 l ret z = Done (z', Some (at_page z' N, N, if ret =? 0 then N else ret)) /\
    full (N + 1) z' /\ keeps_but N l z z' /\ same_tables z z' /\ ilink (pg z' N) 0 [] /\
    (forall refs, l <> 0 -> ilink (pg z l) 0 refs -> ilink (pg z' l) N refs).
Proof.
  intros Hf HN Hl. pose proof (a_N _ _ (proj1 Hf)) as HN1. unfold MAX_PAGES in *. unfold index_page. cbn [Z.eqb negb].
  destruct (page_new_ok E Hmenv N z SHZ_PAGE_INDEX Hf HN) as (z1 & E1 & F1 & P1 & K1 & T1 & _). zstep E1. cbn beta iota zeta.
  destruct (link_before_ok E data_seq l N (N + 1) z1 F1) as (z2 & E2 & F2 & K2 & T2 & G2 & L2); [lia | offs; lia | offs; lia |].
  zstep E2. exists z2. split_and!; try done.
  - unfold zret, at_page. by rewrite G2.
  - apply (keeps_but_trans N l (N + 1) l z z1); [lia | by left | by apply keeps_keeps_but; [lia |] | done].
  - by apply (same_tables_trans z z1).
  - rewrite (kb_pg _ _ _ _ K2) by lia. rewrite P1. apply ilink_new.
  - intros refs Hl0 Hlk. rewrite L2 by done. rewrite (k_pg _ _ _ K1) by lia.
    apply (ilink_next _ _ 0); [|rlia | done]. apply length_pg, (arch_inside N); [apply Hf | lia].
Qed.

(** The segment of a round stays where it was stored. *)
Lemma held_later N N1 N2 x z1 z' r d :
  full N1 z1 -> 0 < N -> N <= N1 <= N2 -> x < N \/ N1 <= x -> stored z1 N N1 r d -> keeps_but N1 x z1 z' -> held z' N N2 r d.
Proof.
  intros Hf HN H12 Hx Hs HK. exists N, N1. split_and!; [lia | lia |]. apply (stored_agree z1); [done |].
  intros c Hc. apply (kb_pg _ _ _ _ HK); lia.
Qed.

(** A round with a current index page that has room, with a full one, and
    without one. *)
Lemma round_append N z b cur r l ret :
  full N z -> 0 < b < N -> ilink (pg z b) 0 cur -> (length cur < 252)%nat -> 0 < r < 2 ^ 32 ->
  exists z', index_page E b l ret z = Done (z, Some (at_page z b, b, ret)) /\
    shz_index_append (at_page z b) r z = Done (z', 0) /\ full N z' /\ keeps_but N b z z' /\ same_tables z z' /\
    ilink (pg z' b) 0 (cur ++ [r]).
Proof.
  intros Hf Hb Hlk Hc Hr. assert (inside z b) as Hi by (apply (arch_inside N); [apply Hf | lia]).
  assert (length (appended (pg z b) (length cur) r) = 1024%nat) as HP by (apply length_appended; [by apply length_pg | done]).
  exists (set_pg b (appended (pg z b) (length cur) r) z). split_and!; try done.
  - unfold index_page. destruct (Z.eqb_spec b 0); [lia |]. cbn [negb].
    by zstep (page_seen E N z b (proj1 Hf) ltac:(rewrite (proj2 Hf); lia)).
  - by apply (index_append_ok z b 0).
  - by apply full_set_pg.
  - apply keeps_but_set_pg; [apply Hf | done | done].
  - rewrite pg_set_same by done. apply ilink_appended; (done || by apply length_pg).
Qed.

Lemma round_full N z b cur r l ret :
  full N z -> 0 < b < N -> ilink (pg z b) 0 cur -> length cur = 252%nat ->
  exists z', index_page E b l ret z = Done (z, Some (at_page z b, b, ret)) /\
    shz_index_append (at_page z b) r z = Done (z, SHERR_NOBUFS) /\ shz_crc_set (at_page z b) z = Done (z', tt) /\
    full N z' /\ keeps_but N b z z' /\ same_tables z z' /\ ilink (pg z' b) 0 cur.
Proof.
  intros Hf Hb Hlk Hc. assert (inside z b /\ inside z 0) as [Hi H0] by (split; (apply (arch_inside N); [apply Hf | lia])).
  assert (length (pg z b) = 1024%nat) as HP by (by apply length_pg).
  assert (length (set_crc (z_salt z) (pg z b)) = 1024%nat) as HQ by (by apply length_set_crc).
  exists (set_pg b (set_crc (z_salt z) (pg z b)) z). split_and!; try done.
  - unfold index_page. destruct (Z.eqb_spec b 0); [lia |]. cbn [negb].
    by zstep (page_seen E N z b (proj1 Hf) ltac:(rewrite (proj2 Hf); lia)).
  - by apply (index_append_full z b 0 cur).
  - apply crc_set_ok; (done || lia).
  - by apply full_set_pg.
  - apply keeps_but_set_pg; [apply Hf | done | done].
  - rewrite pg_set_same by done. by apply ilink_crc.
Qed.

Lemma round_new N z l r ret :
  full N z -> N + 1 <= MAX_PAGES -> 0 <= l < N -> 0 < r < 2 ^ 32 ->
  exists z1 z', index_page E 0 l ret z = Done (z1, Some (at_page z1 N, N, if ret =? 0 then N else ret)) /\
    shz_index_append (at_page z1 N) r z1 = Done (z', 0) /\ full (N + 1) z' /\ keeps_but N l z z' /\ same_tables z z' /\
    ilink (pg z' N) 0 [r] /\ (forall refs, l <> 0 -> ilink (pg z l) 0 refs -> ilink (pg z' l) N refs).
Proof.
  intros Hf HN Hl Hr. destruct (index_page_new N z l ret Hf HN Hl) as (z1 & E1 & F1 & K1 & T1 & L1 & L1').
  assert (inside z1 N) as Hi by (apply (arch_inside (N + 1)); [apply F1 | destruct Hf as [[] _]; lia]).
  assert (length (appended (pg z1 N) 0 r) = 1024%nat) as HP by (apply length_appended; [by apply length_pg | lia]).
  assert (0 < N < N + 1) as HN1 by (destruct Hf as [[] _]; lia).
  exists z1, (set_pg N (appended (pg z1 N) 0 r) z1). split_and!; try done.
  - apply (index_append_ok z1 N 0 []); [done | done | cbn [length]; lia].
  - by apply full_set_pg.
  - apply (keeps_but_trans N l (N + 1) N z z1); [lia | lia | done |]. apply keeps_but_set_pg; [apply F1 | done | done].
  - rewrite pg_set_same by done. apply (ilink_appended _ 0 [] r); [by apply length_pg | done | cbn [length]; lia | done].
  - intros refs Hl0 Hlk. rewrite pg_set_other by (done || lia). by apply L1'.
Qed.

(** With a current or a preceding index page, [tail]. *)
Lemma index_loop_ok fuel N z raw seq l_seq ret bnum cur tail :
  full N z -> (length raw <= fuel)%nat -> N + index_cost (length (cut fuel seg_max raw)) <= MAX_PAGES ->
  tail = (if seq =? 0 then l_seq else seq) -> 0 < tail < N -> ilink (pg z tail) 0 cur ->
  (seq = 0 -> length cur = 252%nat) -> ret <> 0 ->
  exists z' N' refs, index_loop E fuel write raw seq l_seq ret bnum z = Done (z', (0, ret)) /\ full N' z' /\
    N <= N' <= N + index_cost (length (cut fuel seg_max raw)) /\ keeps_but N tail z z' /\ same_tables z z' /\ ichain z' N' tail (cur ++ refs) /\
    Forall2 (held z' N N') refs (kept (if seq =? 0 then 0 else length cur) (cut fuel seg_max raw)).
Proof.
  revert N z raw seq l_seq ret bnum cur tail. induction fuel as [|fuel IH].
  all: intros N z raw seq l_seq ret bnum cur tail Hf Hr HN Ht Htail Hlk Hcur Hret.
  all: destruct raw as [|r0 raw']; [|try (cbn [length] in Hr; lia)].
  1,2: exists z, N, []; cbn [index_loop cut length]; rewrite app_nil_r; change (index_cost 0) with ((seg_cost + 1) * 0);
    split_and!; try done; try lia; first [by apply ic_last | by constructor | by apply keeps_keeps_but; [lia | apply keeps_refl]].
  cbn [index_loop cut] in *. set (raw := r0 :: raw') in *. set (ds := cut fuel seg_max (drop seg_max raw)) in *.
  assert (index_cost (length (take seg_max raw :: ds)) = seg_cost + 1 + index_cost (length ds)) as Ec
    by (unfold index_cost; cbn [length]; lia). rewrite Ec in HN |- *.
  assert (length raw <> 0)%nat as Hr0 by (unfold raw; cbn [length]; lia). pose proof seg_max_pos as Hsm.
  destruct (write_ok N z raw Hf) as (z1 & N1 & b & E1 & F1 & B1 & K1 & T1 & S1); [done | |].
  { pose proof (index_cost_pos (length ds)). lia. }
  pose proof (index_cost_pos (length ds)) as Hc0. pose proof (stored_range _ _ _ _ _ S1) as Hb.
  pose proof (a_N _ _ (proj1 F1)) as HN1. pose proof (a_N _ _ (proj1 Hf)) as HN0. unfold MAX_PAGES in HN1, HN.
  zstep E1. set (w := Z.of_nat (seg_max `min` length raw)). cbn beta iota zeta.
  destruct (Z.ltb_spec w 0); [lia |].
  assert (drop (Z.to_nat w) raw = drop seg_max raw) as ->.
  { unfold w. rewrite Nat2Z.id. destruct (Nat.min_spec seg_max (length raw)) as [[? ->]|[? ->]]; [done |]. by rewrite !drop_ge by lia. }
  assert (length (drop seg_max raw) <= fuel)%nat as Hr' by (rewrite length_drop; lia).
  assert (ilink (pg z1 tail) 0 cur) as Hlk1 by (rewrite (k_pg _ _ _ K1); (done || lia)).
  destruct (Z.eqb_spec seq 0) as [->|Hs0].
  - (* a new index page *)
    assert (tail = l_seq) as -> by done. clear Ht.
    destruct (round_new N1 z1 l_seq b ret F1) as (z2 & z3 & E2 & E3 & F3 & K3 & T3 & L3 & L3'); [unfold MAX_PAGES; lia | lia | lia |].
    zstep E2. cbn beta iota zeta. zstep E3. cbn [Z.eqb negb SHERR_NOBUFS].
    destruct (Z.eqb_spec ret 0); [done |].
    destruct (IH (N1 + 1) z3 (drop seg_max raw) N1 l_seq ret b [b] N1) as (z4 & N4 & refs & E4 & F4 & B4 & K4 & T4 & C4 & H4);
      [done | done | unfold MAX_PAGES; fold ds; lia | destruct (Z.eqb_spec N1 0); lia | lia | done | lia | done |].
    fold ds in B4, H4. destruct (Z.eqb_spec N1 0) as [|_]; [lia |]. cbn [length] in H4.
    exists z4, N4, (b :: refs). split_and!; try done; try lia.
    + apply (keeps_but_trans N l_seq N1 l_seq z z1); [lia | by left | by apply keeps_keeps_but; [lia |] |].
      apply (keeps_but_trans N1 l_seq (N1 + 1) N1 z1 z3); (done || lia).
    + by do 2 (eapply same_tables_trans; [eassumption |]).
    + apply (ic_more _ _ l_seq N1); [lia | | done]. rewrite (kb_pg _ _ _ _ K4) by lia. by apply L3'; [lia |].
    + cbn [kept Nat.eqb]. constructor.
      * apply (held_later N N1 N4 l_seq z1); try (done || lia).
        apply (keeps_but_trans N1 l_seq (N1 + 1) N1 z1 z3); (done || lia).
      * eapply Forall2_impl; [exact H4 |]. intros r d Hh. apply (held_agree z4 z4 (N1 + 1) N4); (done || lia).
  - assert (tail = seq) as -> by (rewrite Ht; by destruct (Z.eqb_spec seq 0)). clear Ht.
    destruct (decide (length cur = 252%nat)) as [Hfull|Hroom].
    + (* the page is full: the segment is lost *)
      destruct (round_full N1 z1 seq cur b l_seq ret F1) as (z2 & E2 & E3 & E4 & F2 & K2 & T2 & L2); [lia | done | done |].
      zstep E2. cbn beta iota zeta. zstep E3. rewrite Z.eqb_refl. zstep E4.
      destruct (IH N1 z2 (drop seg_max raw) 0 seq ret b cur seq) as (z4 & N4 & refs & E5 & F4 & B4 & K4 & T4 & C4 & H4);
        [done | done | unfold MAX_PAGES; fold ds; lia | done | lia | done | done | done |].
      fold ds in B4, H4. cbn [Z.eqb] in H4. exists z4, N4, refs. split_and!; try done; try lia.
      * apply (keeps_but_trans N seq N1 seq z z1); [lia | by left | by apply keeps_keeps_but; [lia |] |].
        by apply (keeps_but_trans N1 seq N1 seq z1 z2); [lia | left | |].
      * by do 2 (eapply same_tables_trans; [eassumption |]).
      * cbn [kept]. rewrite Hfull. cbn [Nat.eqb]. eapply Forall2_impl; [exact H4 |].
        intros r d Hh. apply (held_agree z4 z4 N1 N4); (done || lia).
    + assert (length cur < 252)%nat as Hlt by (destruct Hlk as [[? _] _]; lia).
      destruct (round_append N1 z1 seq cur b l_seq ret F1) as (z2 & E2 & E3 & F2 & K2 & T2 & L2); [lia | done | done | lia |].
      zstep E2. cbn beta iota zeta. zstep E3. cbn [Z.eqb negb SHERR_NOBUFS].
      destruct (IH N1 z2 (drop seg_max raw) seq l_seq ret b (cur ++ [b]) seq) as (z4 & N4 & refs & E5 & F4 & B4 & K4 & T4 & C4 & H4);
        [done | done | unfold MAX_PAGES; fold ds; lia | by destruct (Z.eqb_spec seq 0) | lia | done | done | done |].
      fold ds in B4, H4. destruct (Z.eqb_spec seq 0) as [|_]; [done |]. rewrite length_app, Nat.add_1_r in H4. rewrite <- app_assoc in C4.
      exists z4, N4, (b :: refs). split_and!; try done; try lia.
      * apply (keeps_but_trans N seq N1 seq z z1); [lia | by left | by apply keeps_keeps_but; [lia |] |].
        by apply (keeps_but_trans N1 seq N1 seq z1 z2); [lia | left | |].
      * by do 2 (eapply same_tables_trans; [eassumption |]).
      * cbn [kept]. destruct (Nat.eqb_spec (length cur) 252); [lia |]. constructor.
        -- apply (held_later N N1 N4 seq z1); try (done || lia).
           by apply (keeps_but_trans N1 seq N1 seq z1 z2); [lia | left | |].
        -- eapply Forall2_impl; [exact H4 |]. intros r d Hh. apply (held_agree z4 z4 N1 N4); (done || lia).
Qed.

(** The data [ds] in segments, stored from page [lo] to page [hi] under index
    page [b]; no data has no index. *)
Definition indexed (z : shz_t) (lo hi b : Z) (ds : list bytes) : Prop :=
  (b = 0 /\ ds = []) \/
  (lo <= b /\ exists refs, ichain z hi b refs /\ Forall2 (held z lo hi) refs ds).

Lemma indexed_agree z z' lo hi b ds : agree lo hi z z' -> indexed z lo hi b ds -> indexed z' lo hi b ds.
Proof.
  intros Hag [H | (Hb & refs & Hc & Hh)]; [by left | right]. split; [done |]. exists refs. split; [by apply (ichain_agree z z' lo) |].
  eapply Forall2_impl; [exact Hh |]. intros r d Hrd. apply (held_agree z z' lo hi); (done || lia).
Qed.

(** The segments of the data, by the loop's own bound. *)
Definition segs (data : bytes) : list bytes := cut (Datatypes.S (length data) + Z.to_nat SHZ_MAX_INDEX_SIZE) seg_max data.

Lemma concat_segs data : concat (segs data) = data.
Proof. apply concat_cut; [apply seg_max_pos | lia]. Qed.

Lemma index_write_ok N z data bnum :
  full N z -> N + index_cost (length (segs data)) <= MAX_PAGES ->
  exists z' N' b, shz_index_write E write data bnum z = Done (z', (0, b)) /\ full N' z' /\
    N <= N' <= N + index_cost (length (segs data)) /\ keeps N z z' /\ same_tables z z' /\ indexed z' N N' b (kept 0 (segs data)) /\ (b = 0 \/ N <= b < N').
Proof.
  intros Hf. unfold shz_index_write, shz_index_add, segs. set (fuel := (length data + Z.to_nat SHZ_MAX_INDEX_SIZE)%nat).
  change (Datatypes.S (length data) + Z.to_nat SHZ_MAX_INDEX_SIZE)%nat with (Datatypes.S fuel). intros HN.
  destruct data as [|r0 raw'].
  { exists z, N, 0. cbn [index_loop cut length]. pose proof (index_cost_pos 0). split_and!; try (done || lia); by left. }
  cbn [index_loop cut] in *. set (raw := r0 :: raw') in *. set (ds := cut fuel seg_max (drop seg_max raw)) in *.
  assert (index_cost (length (take seg_max raw :: ds)) = seg_cost + 1 + index_cost (length ds)) as Ec
    by (unfold index_cost; cbn [length]; lia). rewrite Ec in HN |- *. pose proof (index_cost_pos (length ds)) as Hc0.
  assert (length raw <> 0)%nat as Hr0 by (unfold raw; cbn [length]; lia). pose proof seg_max_pos as Hsm.
  destruct (write_ok N z raw Hf) as (z1 & N1 & b & E1 & F1 & B1 & K1 & T1 & S1); [done | lia |].
  pose proof (stored_range _ _ _ _ _ S1) as Hb.
  pose proof (a_N _ _ (proj1 F1)) as HN1. pose proof (a_N _ _ (proj1 Hf)) as HN0. unfold MAX_PAGES in HN1, HN.
  zstep E1. set (w := Z.of_nat (seg_max `min` length raw)). cbn beta iota zeta. destruct (Z.ltb_spec w 0); [lia |].
  assert (drop (Z.to_nat w) raw = drop seg_max raw) as ->.
  { unfold w. rewrite Nat2Z.id. destruct (Nat.min_spec seg_max (length raw)) as [[? ->]|[? ->]]; [done |]. by rewrite !drop_ge by lia. }
  destruct (round_new N1 z1 0 b 0 F1) as (z2 & z3 & E2 & E3 & F3 & K3 & T3 & L3 & _); [unfold MAX_PAGES; lia | lia | lia |].
  zstep E2. cbn beta iota zeta. zstep E3. cbn [Z.eqb negb SHERR_NOBUFS].
  destruct (index_loop_ok fuel (N1 + 1) z3 (drop seg_max raw) N1 0 N1 b [b] N1) as (z4 & N4 & refs & E4 & F4 & B4 & K4 & T4 & C4 & H4);
    [done | rewrite length_drop; unfold fuel; lia | unfold MAX_PAGES; fold ds; lia | destruct (Z.eqb_spec N1 0); lia | lia | done | lia | lia |].
  fold ds in B4, H4. destruct (Z.eqb_spec N1 0) as [|_]; [lia |]. cbn [length] in H4.
  assert (keeps_but N1 0 z1 z4) as K14 by (apply (keeps_but_trans N1 0 (N1 + 1) N1 z1 z3); (done || lia)).
  pose proof (ichain_range _ _ _ _ C4). exists z4, N4, N1. split_and!; try (done || lia).
  - apply (keeps_trans N N1 z z1); [lia | done |]. by apply (keeps_but_keeps N1 0); [lia |].
  - by do 2 (eapply same_tables_trans; [eassumption |]).
  - right. split; [lia |]. exists (b :: refs). split; [done |]. cbn [kept Nat.eqb]. constructor.
    + apply (held_later N N1 N4 0 z1); (done || lia).
    + eapply Forall2_impl; [exact H4 |]. intros r d Hh. apply (held_agree z4 z4 (N1 + 1) N4); (done || lia).
Qed.

(** ** Reading *)

(** One page: the segments it lists are appended in order. *)
Lemma index_segs_ok z0 N lo hi b n refs k z buff ds i :
  arch N z0 -> 0 < lo -> hi <= N -> 0 < b < N -> ilink (pg z0 b) n refs ->
  Forall2 (held z0 lo hi) (drop i refs) ds -> (i + k = 252)%nat -> (i <= length refs)%nat ->
  arch N z -> grown z0 z -> rbuf buff -> room_for (length (contents buff ++ concat ds)) ->
  exists z' buff', index_segs E k read b (Z.of_nat i) buff z = Done (z', (0, buff')) /\ arch N z' /\ grown z0 z' /\
    rbuf buff' /\ contents buff' = contents buff ++ concat ds.
Proof.
  intros A0 Hlo Hhi Hb Hlk. revert z buff ds i. induction k as [|k IH]; intros z buff ds i Hd Hik Hi Ha Hg Hw Hr; cbn [index_segs].
  { assert (drop i refs = []) as E0 by (apply drop_ge; destruct Hlk as [[? _] _]; lia). rewrite E0 in Hd.
    apply Forall2_nil_inv_l in Hd as ->. exists z, buff. by rewrite app_nil_r. }
  destruct (page_ok E Hmenv N z b Ha ltac:(lia)) as (z1 & E1 & A1 & G1 & _). zstep E1.
  assert (inside z1 b) as Hin by (apply (arch_inside N); [done | lia]). assert (grown z0 z1) as G01 by (by etrans).
  zstep (ldn_ok (at_page z1 b) z1 b (seg_off (Z.of_nat i)) 4 eq_refl Hin ltac:(rewrite seg_off_val; lia)).
  rewrite (grown_pg N z0 z1) by (done || lia). destruct Hlk as [(H1 & H2 & H3) H4]. rewrite H3, Nat2Z.id by lia.
  destruct (decide (i = length refs)) as [->|Hlt].
  { rewrite drop_ge in Hd by lia. apply Forall2_nil_inv_l in Hd as ->. rewrite nth_overflow by lia.
    change (htonl (htonl 0)) with 0. cbn [Z.eqb]. exists z1, buff. by rewrite app_nil_r. }
  destruct (drop i refs) as [|r rest] eqn:Ed.
  { assert (length (drop i refs) = 0)%nat as Hl by (by rewrite Ed). rewrite length_drop in Hl. lia. }
  assert (nth i refs 0 = r) as ->.
  { rewrite <- (take_drop i refs), Ed. rewrite app_nth2 by llia. rewrite length_take.
    replace (i - i `min` length refs)%nat with 0%nat by lia. done. }
  assert (0 < r < 2 ^ 32) as Hrr.
  { rewrite List.Forall_forall in H2. apply H2. rewrite <- (take_drop i refs), Ed. apply in_or_app. right. by left. }
  rewrite htonl_involutive by rlia. destruct (Z.eqb_spec r 0); [lia |].
  apply Forall2_cons_inv_l in Hd as (d & ds' & (a & c & Ha1 & Hc1 & Hs) & Hd & ->).
  pose proof (stored_range _ _ _ _ _ Hs) as Hrange. pose proof (a_N _ _ A0) as HN. unfold MAX_PAGES in HN.
  unfold SHZ_PAGE_SIZE. rewrite (wrap_small 32 (r * 1024)), (wrap_small 32) by rlia.
  destruct (alloc_ok E Hmenv N z1 (r * 1024 + 1024) A1) as (z2 & E2 & A2 & G2 & _); [lia | unfold GROW_LIMIT, INT_MAX; lia |].
  zstep E2. cbn [Z.eqb negb]. assert (grown z0 z2) as G02 by (by etrans). cbn [concat] in Hr. rewrite app_assoc in Hr.
  destruct (read_ok N z2 a c r d buff A2) as (z3 & b3 & E3 & A3 & G3 & W3 & C3); [lia | lia | | done | by apply (room_prefix _ (concat ds')) |].
  { apply (stored_agree z0); [done |]. intros x Hx. apply (grown_pg N); (done || lia). }
  zstep E3. cbn [Z.eqb negb]. replace (Z.of_nat i + 1) with (Z.of_nat (Datatypes.S i)) by lia.
  rewrite <- C3 in Hr. destruct (IH z3 b3 ds' (Datatypes.S i)) as (z4 & b4 & E4 & A4 & G4 & W4 & C4);
    [| lia | lia | done | by etrans | done | done |].
  { replace (drop (Datatypes.S i) refs) with rest; [done |]. rewrite <- Nat.add_1_r, <- drop_drop, Ed. done. }
  exists z4, b4. split_and!; try done. rewrite C4, C3. cbn [concat]. by rewrite app_assoc.
Qed.

Lemma index_chain_ok z0 N lo hi b refs ds fuel z buff :
  ichain z0 hi b refs -> Forall2 (held z0 lo hi) refs ds -> arch N z0 -> 0 < lo -> hi <= N ->
  hi - b < Z.of_nat fuel -> arch N z -> grown z0 z -> rbuf buff -> room_for (length (contents buff ++ concat ds)) ->
  exists z' buff', index_chain E fuel read buff b z = Done (z', (0, buff')) /\ arch N z' /\ grown z0 z' /\
    rbuf buff' /\ contents buff' = contents buff ++ concat ds.
Proof.
  intros Hc Hd A0 Hlo Hhi. revert ds Hd fuel z buff.
  assert (forall b n refs ds fuel z buff, 0 < b < hi -> ilink (pg z0 b) n refs -> Forall2 (held z0 lo hi) refs ds ->
    arch N z -> grown z0 z -> rbuf buff -> room_for (length (contents buff ++ concat ds)) ->
    exists z' buff', arch N z' /\ grown z0 z' /\ rbuf buff' /\ contents buff' = contents buff ++ concat ds /\
      index_chain E (Datatypes.S fuel) read buff b z = index_chain E fuel read buff' n z') as Hround.
  { clear b refs Hc. intros b n refs ds fuel z buff Hb Hlk Hd Ha Hg Hw Hr. cbn [index_chain]. destruct (Z.eqb_spec b 0); [lia |].
    change (Z.to_nat SHZ_MAX_INDEX_SIZE) with 252%nat.
    destruct (index_segs_ok z0 N lo hi b n refs 252 z buff ds 0) as (z1 & b1 & E1 & A1 & G1 & W1 & C1);
      [done | done | done | lia | done | by rewrite drop_0 | done | lia | done | done | done | done |].
    change (Z.of_nat 0) with 0 in E1. zstep E1. cbn [Z.eqb negb].
    destruct (page_ok E Hmenv N z1 b A1 ltac:(lia)) as (z2 & E2 & A2 & G2 & _). zstep E2.
    assert (inside z2 b) as Hin by (apply (arch_inside N); [done | lia]). assert (grown z0 z2) as G02 by (by etrans).
    zstep (ldn_ok (at_page z2 b) z2 b data_seq 4 eq_refl Hin ltac:(olia)). rewrite (grown_pg N z0 z2) by (done || lia).
    rewrite (proj2 Hlk). exists z2, b1. by split_and!. }
  induction Hc as [b refs Hb Hl | b n refs rest Hb Hl Hc IH]; intros ds Hd fuel z buff Hfuel Ha Hg Hw Hr;
    (destruct fuel as [|fuel]; [try pose proof (ichain_range _ _ _ _ Hc); lia |]).
  - destruct (Hround b 0 refs ds fuel z buff Hb Hl Hd Ha Hg Hw Hr) as (z1 & b1 & A1 & G1 & W1 & C1 & ->).
    exists z1, b1. split_and!; try done. by destruct fuel.
  - pose proof (ichain_range _ _ _ _ Hc) as Hn. apply Forall2_app_inv_l in Hd as (ds1 & ds2 & Hd1 & Hd2 & ->).
    rewrite concat_app, app_assoc in Hr.
    destruct (Hround b n refs ds1 fuel z buff ltac:(lia) Hl Hd1 Ha Hg Hw (room_prefix _ _ Hr)) as (z1 & b1 & A1 & G1 & W1 & C1 & ->).
    rewrite <- C1 in Hr. destruct (IH ds2 Hd2 fuel z1 b1 ltac:(lia) A1 G1 W1 Hr) as (z2 & b2 & E2 & A2 & G2 & W2 & C2).
    exists z2, b2. split_and!; try done. by rewrite C2, C1, concat_app, app_assoc.
Qed.

Lemma index_read_ok N z lo hi b ds buff :
  arch N z -> 0 < lo -> hi <= N -> indexed z lo hi b ds -> rbuf buff -> room_for (length (contents buff ++ concat ds)) ->
  exists z' buff', shz_index_read E read buff b z = Done (z', (0, buff')) /\ arch N z' /\ grown z z' /\
    rbuf buff' /\ contents buff' = contents buff ++ concat ds.
Proof.
  intros Ha Hlo Hhi Hx Hw Hr. unfold shz_index_read. destruct Hx as [[-> ->] | (Hb & refs & Hc & Hh)].
  { exists z, buff. cbn [index_chain Z.eqb concat]. by rewrite app_nil_r. }
  pose proof (ichain_range _ _ _ _ Hc). pose proof (page_fuel_ok N z Ha).
  apply (index_chain_ok z N lo hi b refs); (done || lia).
Qed.

End index.
