(* ===== verification/ShShzTree.v ===== *)
(** * Archives: the tables of data and files

    Models the map pages of [share-lib/mem/shmem_shz.c] and the two tables kept
    in them.  A map page has a slot for each of 240 hash numbers and the numbers
    of a left and a right page; an entry is put at the first page, from the root
    along the side its checksum selects, where its slot is free.  The code walks
    nodes in memory ([shtree_t]) that it creates as it goes; a node is named here
    by its path from the root.

    The abstract value of a table is a tree of slots, [dtree]; the theorems show
    that adding and looking up implement insertion and search in it, that every
    entry added is found under its key, that an entry whose hash number is 0 can
    never be added, and what happens when the buffer is replaced while a page is
    being linked. *)

From Stdlib Require Import ZArith Lia.
From stdpp Require Import base numbers list sets gmap.
From S2P Require Import Prelude ShCrc ShKey ShBuf ShShz ShShzData ShShzIndex.

Open Scope Z_scope.
Open Scope share_scope.

(** ** Nodes *)

Inductive table : Type := DTable | FTable.

Definition get_table (tb : table) (z : shz_t) : ztree :=
  match tb with DTable => z_dtable z | FTable => z_ftable z end.
Definition set_table (tb : table) (t : ztree) (z : shz_t) : shz_t :=
  match tb with
  | DTable => mk_shz (z_bseq z) (z_flags z) (z_buff z) (z_file z) (z_gen z) t (z_ftable z)
  | FTable => mk_shz (z_bseq z) (z_flags z) (z_buff z) (z_file z) (z_gen z) (z_dtable z) t
  end.
Definition table_off (tb : table) : nat := match tb with DTable => base_dtable | FTable => base_ftable end.

(** [false] is the left side, for an even checksum. *)
Definition side : Type := bool.
Definition side_off (d : side) : nat := if d then map_right else map_left.
Definition child (d : side) (t : ztree) : ztree :=
  match t with TNil => TNil | TNode _ l r => if d then r else l end.

(** The node at the end of a path, and the tree with that node replaced. *)
Fixpoint node_at (t : ztree) (path : list side) : ztree :=
  match path with [] => t | d :: path' => node_at (child d t) path' end.
Fixpoint put_at (t : ztree) (path : list side) (s : ztree) {struct path} : ztree :=
  match path with
  | [] => s
  | d :: path' =>
      match t with
      | TNil => TNil
      | TNode seq l r => if d then TNode seq l (put_at r path' s) else TNode seq (put_at l path' s) r
      end
  end.

Definition hash_side (id : shkey_t) : side := negb (shkey_crc (Some id) mod 2 =? 0).
Definition hash_num (id : shkey_t) : Z := shkey_crc (Some id) / 2 mod SHZ_HASH_MASK.

(** The key stored in a page. *)
Definition key_of (l : bytes) : shkey_t :=
  mk_key (of_le (slice l 0 2)) (of_le (slice l 2 2)) (map (fun i => of_le (slice l (4 + 4 * i) 4)) (seq 0 SHKEY_WORDS)).

(** ** Map pages *)

Definition shz_map_set (map : ptr) (hnum ref_bnum : Z) : M Z :=
  if (hnum <=? 0) || (SHZ_HASH_MASK <=? hnum) then zret SHERR_INVAL
  else
    v <~ ldn map (seg_off hnum) 4;
    if negb (v =? 0) then (if htonl v =? ref_bnum then zret 0 else zret SHERR_EXIST)
    else _ <~ stn map (seg_off hnum) 4 (htonl ref_bnum); zret 0.

(** The result is the error and the page number. *)
Definition shz_map_get (map : ptr) (hnum : Z) : M (Z * Z) :=
  if (hnum <=? 0) || (SHZ_HASH_MASK <=? hnum) then zret (SHERR_INVAL, 0)
  else
    v <~ ldn map (seg_off hnum) 4;
    if v =? 0 then zret (SHERR_NOENT, 0) else zret (0, htonl v).

Section operations.
Context (E : env).

(** [shz_tree_new], [shz_tree_left_new] and [shz_tree_right_new] allocate the
    node and its information. *)
Definition node_ok : bool := calloc_ok E 16 && calloc_ok E 56.

Definition shz_tree_new (bnum : Z) : ztree := if node_ok then TNode bnum TNil TNil else TNil.

Definition new_child (tb : table) (path : list side) (d : side) (bnum : Z) : M Z :=
  if node_ok then
    _ <~ zset (fun z => set_table tb (put_at (get_table tb z) (path ++ [d]) (TNode bnum TNil TNil)) z);
    zret 0
  else zret SHERR_NOMEM.

(** The page of a node. *)
Definition shz_tree_data (seq : Z) : M (option ptr) := shz_page E seq.

(** The child of the node that is loaded from its page. *)
Definition load_child (tb : table) (path : list side) (d : side) (map : ptr) : M Z :=
  t <~ zget (get_table tb);
  match child d (node_at t path) with
  | TNode _ _ _ => zret 0
  | TNil => v <~ ldn map (side_off d) 4; if v =? 0 then zret 0 else new_child tb path d (htonl v)
  end.

Definition shz_map_load (tb : table) (path : list side) : M Z :=
  t <~ zget (get_table tb);
  match node_at t path with
  | TNil => zret SHERR_IO
  | TNode seq _ _ =>
      r <~ shz_tree_data seq;
      match r with
      | None => zret SHERR_IO
      | Some map =>
          err <~ load_child tb path false map;
          if negb (err =? 0) then zret err else load_child tb path true map
      end
  end.

(** The child of a node on side [d], with a new page when there is none. *)
Definition grow_child (tb : table) (path : list side) (d : side) (blk : ptr) : M Z :=
  t <~ zget (get_table tb);
  match child d (node_at t path) with
  | TNode _ _ _ => zret 0
  | TNil =>
      v <~ ldn blk (side_off d) 4;
      err <~ (if v =? 0 then
                r <~ shz_page_new E SHZ_PAGE_BRANCH;
                match r with
                | None => zret SHERR_IO
                | Some (_, bnum) =>
                    _ <~ stn blk (side_off d) 4 (htonl bnum);
                    _ <~ shz_crc_set blk;
                    zret 0
                end
              else zret 0);
      if negb (err =? 0) then zret err
      else v <~ ldn blk (side_off d) 4; new_child tb path d (htonl v)
  end.

(** [while (node)]. *)
Fixpoint add_loop (fuel : nat) (tb : table) (path : list side) (d : side) (hnum ref_bnum : Z) : M Z :=
  t <~ zget (get_table tb);
  match node_at t path with
  | TNil => zret 0
  | TNode seq _ _ =>
      match fuel with
      | O => zfault
      | S fuel' =>
          r <~ shz_tree_data seq;
          match r with
          | None => zret SHERR_IO
          | Some blk =>
              err <~ shz_map_set blk hnum ref_bnum;
              if err =? 0 then zret 0
              else
                err <~ grow_child tb path d blk;
                if negb (err =? 0) then zret err else add_loop fuel' tb (path ++ [d]) d hnum ref_bnum
          end
      end
  end.

(** The rounds of a walk: it visits each page once, unless pages are linked in
    a circle, which the code follows for ever. *)
Definition walk_fuel (z : shz_t) : nat := S (page_fuel z).

Definition shz_tree_add (tb : table) (ref_bnum : Z) (ref_id : shkey_t) : M Z := fun z =>
  match get_table tb z with
  | TNil => Done (z, SHERR_INVAL)
  | _ => add_loop (walk_fuel z) tb [] (hash_side ref_id) (hash_num ref_id) ref_bnum z
  end.

Definition is_shz_mod_type (type : Z) : bool :=
  (type =? SHZ_PAGE_FILE) || (type =? SHZ_PAGE_DIR) || (type =? SHZ_PAGE_ZLIB).

(** The result is the error and the pointer to the key. *)
Definition shz_mod_id (bnum : Z) : M (Z * option ptr) :=
  r <~ shz_page E bnum;
  match r with
  | None => zret (SHERR_NOENT, None)
  | Some blk =>
      type <~ shz_page_type blk;
      if is_shz_mod_type type then zret (0, Some (mk_ptr (p_gen blk) (p_off blk + mod_id))) else zret (SHERR_INVAL, None)
  end.

Fixpoint get_loop (fuel : nat) (tb : table) (path : list side) (d : side) (hnum : Z) (id : shkey_t) : M (Z * Z) :=
  t <~ zget (get_table tb);
  match node_at t path with
  | TNil => zret (SHERR_NOENT, 0)
  | TNode seq _ _ =>
      match fuel with
      | O => zfault
      | S fuel' =>
          r <~ shz_tree_data seq;
          match r with
          | None => zret (SHERR_IO, 0)
          | Some blk =>
              r <~ shz_map_get blk hnum;
              let '(err, ref_bnum) := r in
              if negb (err =? 0) then zret (err, 0)
              else
                r <~ shz_mod_id ref_bnum;
                match r with
                | (_, Some ref_id) =>
                    l <~ ld ref_id 0 32;
                    if shkey_cmp (Some (key_of l)) (Some id) then zret (0, ref_bnum)
                    else
                      err <~ load_child tb path d blk;
                      if negb (err =? 0) then zret (err, 0) else get_loop fuel' tb (path ++ [d]) d hnum id
                | (err, None) => zret (err, 0)
                end
          end
      end
  end.

Definition shz_tree_get (tb : table) (id : shkey_t) : M (Z * Z) := fun z =>
  match get_table tb z with
  | TNil => Done (z, (SHERR_INVAL, 0))
  | _ => get_loop (walk_fuel z) tb [] (hash_side id) (hash_num id) id z
  end.

Definition shz_dtable_get (id : shkey_t) : M (Z * Z) := shz_tree_get DTable id.
Definition shz_dtable_set (id : shkey_t) (pnum : Z) : M Z := shz_tree_add DTable pnum id.
Definition shz_ftable_get (filename : bytes) : M (Z * Z) := shz_tree_get FTable (shkey_bin (Some filename)).
Definition shz_ftable_set (filename : bytes) (pnum : Z) : M Z := shz_tree_add FTable pnum (shkey_bin (Some filename)).

(** ** Opening an archive *)

(** [shz_arch_dtable_init] and [shz_arch_ftable_init]. *)
Definition table_init (tb : table) : M unit :=
  _ <~ zset (set_table tb TNil);
  v <~ base_get (table_off tb) 4;
  blk <~ (if v =? 0 then zret None else shz_page E (htonl v));
  r <~ (match blk with
        | Some _ => zret (Some (htonl v))
        | None =>
            r <~ shz_page_new E SHZ_PAGE_ROOT;
            match r with
            | None => zret None
            | Some (blk, bnum) =>
                _ <~ base_set (table_off tb) 4 (htonl bnum);
                _ <~ shz_page_size_set blk sizeof_map;
                _ <~ shz_crc_set blk;
                zret (Some bnum)
            end
        end);
  match r with
  | None => zret tt
  | Some bnum => zset (set_table tb (shz_tree_new bnum))
  end.
Definition shz_arch_dtable_init : M unit := table_init DTable.
Definition shz_arch_ftable_init : M unit := table_init FTable.

(** The base page of a fresh archive; [rand] and [now] are what [shrand] and
    [shtime] return. *)
Definition fresh_base (rand now : Z) : M unit :=
  _ <~ zset (set_bseq 0);
  r <~ shz_page_new E SHZ_PAGE_BASE;
  match r with
  | None => zfault
  | Some (base, _) =>
      _ <~ stn base hdr_magic 2 SHMEM16_MAGIC;
      _ <~ stn base base_salt 2 (htons (u16 (rand mod 65535)));
      _ <~ stn base base_size 8 (htonll SHZ_PAGE_SIZE);
      _ <~ stn base base_zsize 8 (htonll 0);
      _ <~ stn base base_mtime 8 now;
      _ <~ stn base base_ctime 8 now;
      _ <~ shz_page_size_set base sizeof_base;
      zret tt
  end.

Definition shz_arch_init (buff : option shbuf_t) (file : bytes) (flags rand now : Z) : outcome (shz_t * Z) :=
  let '(b, flags) :=
    match buff with
    | Some b => (b, if data_of b <? SHZ_PAGE_SIZE then Z.lor flags SHZ_FRESH else flags)
    | None => (shbuf_init, Z.lor (Z.lor flags SHZ_FRESH) SHZ_ALLOC)
    end in
  let flags := if has_flag flags SHZ_TRUNC then Z.lor flags SHZ_FRESH else flags in
  (_ <~ shz_scan 0 (data_max b);
   bseq <~ zget z_bseq;
   err <~ shz_alloc E (Z.max (u32 (bseq * SHZ_PAGE_SIZE)) SHZ_ALLOC_SIZE);
   if negb (err =? 0) then zret err
   else
     err <~ (if has_flag flags SHZ_FRESH then _ <~ fresh_base rand now; zret 0
             else
               magic <~ base_get hdr_magic 2;
               if negb (magic =? SHMEM16_MAGIC) then zret SHERR_ILSEQ
               else size <~ base_get base_size 8; if size =? 0 then zret SHERR_ILSEQ else zret 0);
     if negb (err =? 0) then zret err
     else
       _ <~ shz_arch_dtable_init;
       _ <~ shz_arch_ftable_init;
       _ <~ zset (set_flags flags);
       zret 0) (mk_shz 0 0 b file 0 TNil TNil).

(** [ftruncate] of the file behind a mapped buffer, whose bytes are those of the
    mapping. *)
Definition truncate_file (z : shz_t) (len : Z) : bytes :=
  let now := match z_data z with Some d => d ++ drop (length d) (z_file z) | None => z_file z end in
  take (Z.to_nat len) now ++ replicate (Z.to_nat len - length now) 0.

(** The buffer of the caller holds the archive afterwards, an own buffer is
    released; the result is the buffer and the file. *)
Definition shz_arch_free (z : shz_t) : outcome (option shbuf_t * bytes) :=
  r <-! shz_size z;
  let len := u64 (snd r) in
  let b := z_buff z in
  let file := if fd b =? 0 then z_file z else truncate_file z len in
  if has_flag (z_flags z) SHZ_ALLOC then Done (None, file)
  else Done (Some (mk_buf (data b) len (data_max b) (data_pos b) (ShBuf.flags b) (fd b)), file).

(** [stat_errno] is 0 when the path exists, [fdn] the descriptor of [open] and
    [file] the content of the file, empty for a new one.  The archive is [None]
    when the call fails. *)
Definition shz_arch_fopen (stat_errno fdn : Z) (file : bytes) (flags rand now : Z) : outcome (option shz_t * Z) :=
  if negb (stat_errno =? 0) && negb (has_flag flags SHZ_CREATE) then Done (None, - stat_errno)
  else
    let flags := if stat_errno =? 0 then flags else Z.lor flags SHZ_FRESH in
    r <-! shbuf_file E fdn file;
    match r with
    | (None, _) => Done (None, SHERR_NOENT)
    | (Some buff, file) =>
        r <-! shz_arch_init (Some buff) file (Z.lor flags SHZ_ALLOC) rand now;
        (let '(z, err) := r in if negb (err =? 0) then Done (None, err) else Done (Some z, 0))
    end.

End operations.

(** ** Tables as trees of slots *)

Inductive dtree : Type :=
| DNil
| DNode (p : Z) (sl : list Z) (l r : dtree).

#[global] Instance ztree_eq_dec : EqDecision ztree.
Proof. solve_decision. Defined.
#[global] Instance dtree_eq_dec : EqDecision dtree.
Proof. solve_decision. Defined.
#[global] Instance table_eq_dec : EqDecision table.
Proof. solve_decision. Defined.

Definition blank_slots : list Z := replicate 240 0.
Definition slot (sl : list Z) (h : Z) : Z := nth (Z.to_nat h) sl 0.
Definition dchild (d : side) (t : dtree) : dtree :=
  match t with DNil => DNil | DNode _ _ l r => if d then r else l end.
Definition droot (t : dtree) : Z := match t with DNil => 0 | DNode p _ _ _ => p end.

Fixpoint dpages (t : dtree) : list Z :=
  match t with DNil => [] | DNode p _ l r => p :: dpages l ++ dpages r end.

(** All entries, in the order in which a listing visits them. *)
Fixpoint drefs (t : dtree) : list Z :=
  match t with DNil => [] | DNode _ sl l r => drefs l ++ drefs r ++ List.filter (fun r => negb (r =? 0)) sl end.

(** The entries a lookup visits. *)
Fixpoint dcol (d : side) (h : Z) (t : dtree) : list Z :=
  match t with
  | DNil => []
  | DNode _ sl l r => if slot sl h =? 0 then [] else slot sl h :: dcol d h (if d then r else l)
  end.

(** Insertion, with page [n] for a new node; and whether there is one. *)
Fixpoint dadd (d : side) (h ref n : Z) (t : dtree) : dtree :=
  match t with
  | DNil => DNode n (<[Z.to_nat h := ref]> blank_slots) DNil DNil
  | DNode p sl l r =>
      if slot sl h =? 0 then DNode p (<[Z.to_nat h := ref]> sl) l r
      else if slot sl h =? ref then t
      else if d then DNode p sl l (dadd d h ref n r) else DNode p sl (dadd d h ref n l) r
  end.
Fixpoint dgrows (d : side) (h ref : Z) (t : dtree) : bool :=
  match t with
  | DNil => true
  | DNode _ sl l r =>
      if slot sl h =? 0 then false
      else if slot sl h =? ref then false
      else dgrows d h ref (if d then r else l)
  end.

(** The slots of a map page. *)
Definition mslots (P : bytes) (sl : list Z) : Prop :=
  length sl = 240%nat /\ Forall (fun r => 0 <= r < 2 ^ 32) sl /\
  forall h, 0 <= h < 240 -> fget P (seg_off h) 4 = htonl (slot sl h).

(** The tree stored in the pages of an archive. *)
Fixpoint rep (z : shz_t) (hi : Z) (t : dtree) : Prop :=
  match t with
  | DNil => True
  | DNode p sl l r =>
      0 < p < hi /\ mslots (pg z p) sl /\
      fget (pg z p) map_left 4 = htonl (droot l) /\ fget (pg z p) map_right 4 = htonl (droot r) /\
      rep z hi l /\ rep z hi r
  end.

(** The nodes in memory are the upper part of the tree. *)
Fixpoint cached (c : ztree) (t : dtree) : Prop :=
  match c with
  | TNil => True
  | TNode seq cl cr => match t with DNil => False | DNode p _ l r => seq = p /\ cached cl l /\ cached cr r end
  end.

(** Everything but the pages [ps] of an archive of [N] pages. *)
Definition keeps_out (N : Z) (ps : list Z) (z z' : shz_t) : Prop :=
  (forall c, 0 < c < N -> c ∉ ps -> pg z' c = pg z c) /\ keeps 1 z z'.

Lemma rep_pages z hi t : rep z hi t -> Forall (fun p => 0 < p < hi) (dpages t).
Proof.
  induction t as [|p sl l IHl r IHr]; [constructor |]. intros (Hp & _ & _ & _ & Hl & Hr). cbn [dpages].
  constructor; [done |]. apply Forall_app. auto.
Qed.

Lemma rep_frame z z' hi hi' t :
  hi <= hi' -> (forall p, p ∈ dpages t -> pg z' p = pg z p) -> rep z hi t -> rep z' hi' t.
Proof.
  intros Hhi. induction t as [|p sl l IHl r IHr]; intros Hpg; [done |]. intros (Hp & Hm & Hl & Hr & Rl & Rr). cbn [dpages] in Hpg.
  cbn [rep]. rewrite (Hpg p) by set_solver. split_and!; try (done || lia).
  - apply IHl; [|done]. set_solver.
  - apply IHr; [|done]. set_solver.
Qed.

Lemma keeps_out_refl N ps z : keeps_out N ps z z.
Proof. split; [done | apply keeps_refl]. Qed.
Lemma keeps_out_trans N N' ps ps' z1 z2 z3 :
  N <= N' -> (forall c, 0 < c < N -> c ∈ ps' -> c ∈ ps) -> keeps_out N ps z1 z2 -> keeps_out N' ps' z2 z3 -> keeps_out N ps z1 z3.
Proof.
  intros HN Hps [H1 H2] [H3 H4]. split; [|by apply (keeps_trans 1 1 z1 z2)].
  intros c Hc Hn. rewrite H3, H1; [done | done | done | lia | auto].
Qed.
Lemma keeps_out_but N b z z' : keeps_but N b z z' <-> keeps_out N [b] z z'.
Proof.
  split; intros [H1 H2]; split; try done; intros c Hc Hn; apply H1; try done; set_solver.
Qed.
Lemma keeps_out_weaken N ps ps' z z' : (forall c, c ∈ ps -> c ∈ ps') -> keeps_out N ps z z' -> keeps_out N ps' z z'.
Proof. intros Hp [H1 H2]. split; [|done]. intros c Hc Hn. apply H1; auto. Qed.
Lemma keeps_keeps_out N ps z z' : 1 <= N -> keeps N z z' -> keeps_out N ps z z'.
Proof. intros HN H. split; [|by apply (keeps_weaken N)]. intros c Hc _. by apply (k_pg _ _ _ H). Qed.

(** Nodes by path. *)
Lemma node_at_app t p d : node_at t (p ++ [d]) = child d (node_at t p).
Proof. revert t. induction p as [|x p IH]; intros t; [done | apply IH]. Qed.

Lemma node_at_nil p : node_at TNil p = TNil.
Proof. by induction p. Qed.

Lemma node_at_put t p s : node_at t p <> TNil -> node_at (put_at t p s) p = s.
Proof.
  revert t. induction p as [|x p IH]; intros t H; [done |]. cbn [node_at put_at] in *.
  destruct t as [|q l r]; [exfalso; apply H, node_at_nil |]. destruct x; cbn [child] in *; by apply IH.
Qed.

Definition with_child (d : side) (t s : ztree) : ztree :=
  match t with TNil => TNil | TNode q l r => if d then TNode q l s else TNode q s r end.

Lemma put_at_app t p d s : put_at t (p ++ [d]) s = put_at t p (with_child d (node_at t p) s).
Proof.
  revert t. induction p as [|x p IH]; intros t; cbn [app put_at node_at].
  - destruct t; [done |]. by destruct d.
  - destruct t as [|q l r]; [done |]. destruct x; cbn [child]; by rewrite IH.
Qed.

Lemma put_at_nil t s : put_at t [] s = s.
Proof. done. Qed.

Lemma put_at_twice t p s s' : put_at (put_at t p s) p s' = put_at t p s'.
Proof.
  revert t. induction p as [|x p IH]; intros t; [done |]. cbn [put_at]. destruct t as [|q l r]; [done |].
  destruct x; cbn [put_at]; by rewrite IH.
Qed.

Lemma put_at_self t p : put_at t p (node_at t p) = t.
Proof.
  revert t. induction p as [|x p IH]; intros t; [done |]. cbn [put_at node_at]. destruct t as [|q l r]; [done |].
  destruct x; cbn [child]; by rewrite IH.
Qed.

Lemma tree_below_put N t p s : tree_below N t -> tree_below N s -> tree_below N (put_at t p s).
Proof.
  intros Ht Hs. revert t Ht. induction p as [|x p IH]; intros t Ht; [done |]. cbn [put_at].
  destruct t as [|q l r]; [done |]. destruct Ht as (? & ? & ?). destruct x; cbn [tree_below]; (split; [done | split; auto]).
Qed.

Lemma cached_below z N c t : rep z N t -> cached c t -> tree_below N c.
Proof.
  revert t. induction c as [|q l IHl r IHr]; intros t Hr Hc; [done |]. destruct t as [|p sl tl tr]; [done |].
  destruct Hr as (Hp & _ & _ & _ & Rl & Rr), Hc as (-> & Cl & Cr). cbn [tree_below]. split_and!; [lia | lia | by apply (IHl tl) | by apply (IHr tr)].
Qed.

(** ** The nodes in memory and the pages *)

Lemma set_table_pg tb t z b : pg (set_table tb t z) b = pg z b.
Proof. by destruct tb. Qed.
Lemma get_set_table tb t z : get_table tb (set_table tb t z) = t.
Proof. by destruct tb. Qed.
Lemma get_set_other tb tb' t z : tb' <> tb -> get_table tb' (set_table tb t z) = get_table tb' z.
Proof. by destruct tb, tb'. Qed.
Lemma set_table_bseq tb t z : z_bseq (set_table tb t z) = z_bseq z.
Proof. by destruct tb. Qed.
Lemma set_table_buff tb t z : z_buff (set_table tb t z) = z_buff z.
Proof. by destruct tb. Qed.
Lemma set_table_gen tb t z : z_gen (set_table tb t z) = z_gen z.
Proof. by destruct tb. Qed.
Lemma set_table_keeps tb t N z : keeps N z (set_table tb t z).
Proof. by destruct tb. Qed.

Lemma arch_set_table tb t N z : arch N z -> tree_below N t -> arch N (set_table tb t z).
Proof. intros [? ? ? ? ? ? ? ? ? [? ?] ?] Ht. by destruct tb; split. Qed.
Lemma full_set_table tb t N z : full N z -> tree_below N t -> full N (set_table tb t z).
Proof. intros [Ha Hb] Ht. split; [by apply arch_set_table | by rewrite set_table_bseq]. Qed.

Lemma arch_below tb N z : arch N z -> tree_below N (get_table tb z).
Proof. intros Ha. destruct (a_trees _ _ Ha). by destruct tb. Qed.
Lemma same_tables_get tb z z' : same_tables z z' -> get_table tb z' = get_table tb z.
Proof. intros [H1 H2]. by destruct tb. Qed.
Lemma grown_get tb z z' : grown z z' -> get_table tb z' = get_table tb z.
Proof. intros []. by destruct tb. Qed.

(** ** Slots *)

Lemma mslots_new t : mslots (new_page t) blank_slots.
Proof.
  split_and!; [done | apply Forall_replicate; lia |]. intros h Hh. rewrite seg_off_val by lia.
  rewrite fget_zero by (apply new_page_zero; lia). unfold slot, blank_slots.
  rewrite nth_lookup, lookup_replicate_2 by lia. done.
Qed.

Lemma slot_insert sl h h' r :
  length sl = 240%nat -> 0 <= h < 240 -> 0 <= h' -> slot (<[Z.to_nat h := r]> sl) h' = if h' =? h then r else slot sl h'.
Proof.
  intros Hl Hh Hh'. unfold slot. rewrite !nth_lookup. destruct (Z.eqb_spec h' h) as [->|Hne].
  - rewrite list_lookup_insert_eq by lia. done.
  - rewrite list_lookup_insert_ne by lia. done.
Qed.

Lemma slot_range sl h : Forall (fun r => 0 <= r < 2 ^ 32) sl -> 0 <= slot sl h < 2 ^ 32.
Proof.
  intros Hf. unfold slot. rewrite nth_lookup. destruct (sl !! Z.to_nat h) as [x|] eqn:E; [|by split].
  cbn [default]. by apply (Forall_lookup_1 _ _ _ _ Hf E).
Qed.

Lemma mslots_set P sl h r :
  length P = 1024%nat -> mslots P sl -> 0 <= h < 240 -> 0 <= r < 2 ^ 32 ->
  mslots (fput P (seg_off h) 4 (htonl r)) (<[Z.to_nat h := r]> sl).
Proof.
  intros HP (H1 & H2 & H3) Hh Hr. assert (seg_off h + 4 <= length P)%nat as Ho by (rewrite seg_off_val; lia).
  split_and!; [by rewrite length_insert | by apply Forall_insert |].
  intros h' Hh'. rewrite slot_insert by (done || lia). destruct (Z.eqb_spec h' h) as [->|Hne].
  - apply fget_fput_same; [done | apply htonl_range].
  - rewrite fget_fput_other by (done || rewrite !seg_off_val by lia; lia). by apply H3.
Qed.

(** A page update that leaves the slots and the links. *)
Lemma mslots_eq P Q sl : mslots P sl -> (forall o k, (16 <= o)%nat -> slice Q o k = slice P o k) -> mslots Q sl.
Proof.
  intros (H1 & H2 & H3) HQ. split_and!; [done | done |]. intros h Hh. unfold fget. rewrite HQ by (rewrite seg_off_val; lia).
  by apply H3.
Qed.

(** The result of [shz_map_set] on a page. *)
Lemma map_set_ok z b sl h r :
  inside z b -> mslots (pg z b) sl -> 0 < h < 240 -> 0 < r < 2 ^ 32 ->
  shz_map_set (at_page z b) h r z =
    if slot sl h =? 0 then Done (set_pg b (fput (pg z b) (seg_off h) 4 (htonl r)) z, 0)
    else Done (z, if slot sl h =? r then 0 else SHERR_EXIST).
Proof.
  intros Hi (H1 & H2 & H3) Hh Hr. unfold shz_map_set, SHZ_HASH_MASK.
  destruct (Z.leb_spec h 0); [lia |]. destruct (Z.leb_spec 240 h); [lia |]. cbn [orb].
  zstep (ldn_ok (at_page z b) z b (seg_off h) 4 eq_refl Hi ltac:(rewrite seg_off_val; lia)). rewrite H3 by lia.
  pose proof (slot_range sl h H2) as Hs. destruct (Z.eqb_spec (slot sl h) 0) as [->|Hne].
  - change (htonl 0) with 0. cbn [Z.eqb negb].
    by zstep (stn_ok (at_page z b) z b (seg_off h) 4 (htonl r) eq_refl Hi ltac:(rewrite seg_off_val; lia)).
  - pose proof (htonl_nonzero (slot sl h) ltac:(lia)). destruct (Z.eqb_spec (htonl (slot sl h)) 0); [done |]. cbn [negb].
    rewrite htonl_involutive by rlia. by case_cmp.
Qed.

Section adding.
Context (E : env) (Hcalloc : forall n, calloc_ok E n = true) (Hmenv : mapped_env E).

Lemma node_ok_true : node_ok E = true.
Proof. unfold node_ok. by rewrite !Hcalloc. Qed.

(** A round at a node: the page is found and its slot examined. *)
Lemma add_round fuel tb path d h ref N z p cl cr sl l r :
  full N z -> node_at (get_table tb z) path = TNode p cl cr -> rep z N (DNode p sl l r) ->
  0 < h < 240 -> 0 < ref < 2 ^ 32 ->
  add_loop E (S fuel) tb path d h ref z =
    if slot sl h =? 0 then Done (set_pg p (fput (pg z p) (seg_off h) 4 (htonl ref)) z, 0)
    else if slot sl h =? ref then Done (z, 0)
    else (err <~ grow_child E tb path d (at_page z p);
          if negb (err =? 0) then zret err else add_loop E fuel tb (path ++ [d]) d h ref) z.
Proof.
  intros Hf Hn (Hp & Hm & _) Hh Hr. cbn [add_loop]. rewrite zget_step, Hn. cbn iota. unfold shz_tree_data.
  zstep (page_seen E N z p (proj1 Hf) ltac:(rewrite (proj2 Hf); lia)).
  assert (inside z p) as Hi by (apply (arch_inside N); [apply Hf | lia]).
  unfold zbind at 1. rewrite (map_set_ok z p sl h ref Hi Hm Hh Hr).
  destruct (slot sl h =? 0); [done |]. by destruct (slot sl h =? ref).
Qed.

(** The page with a free slot takes the entry. *)
Lemma rep_set_slot N z p sl l r h ref :
  full N z -> rep z N (DNode p sl l r) -> NoDup (dpages (DNode p sl l r)) -> 0 < h < 240 -> 0 < ref < 2 ^ 32 ->
  let z' := set_pg p (fput (pg z p) (seg_off h) 4 (htonl ref)) z in
  full N z' /\ keeps_out N [p] z z' /\ rep z' N (DNode p (<[Z.to_nat h := ref]> sl) l r).
Proof.
  intros Hf (Hp & Hm & Hl & Hr & Rl & Rr) Hnd Hh Href z'.
  assert (inside z p) as Hi by (apply (arch_inside N); [apply Hf | lia]).
  assert (seg_off h + 4 <= length (pg z p))%nat as Ho by (rewrite seg_off_val, length_pg by (done || lia); lia).
  set (Q := fput (pg z p) (seg_off h) 4 (htonl ref)) in z'.
  assert (length Q = 1024%nat) as HQ by (unfold Q; rewrite length_fput by done; by apply length_pg).
  assert (keeps_out N [p] z z') as HK by (apply keeps_out_but, keeps_but_set_pg; [apply Hf | done | done]).
  cbn [dpages] in Hnd. apply NoDup_cons in Hnd as [Hnp _].
  assert (forall q, q ∈ dpages l ++ dpages r -> pg z' q = pg z q) as Hq.
  { intros q Hq. pose proof (rep_pages _ _ _ Rl) as P1. pose proof (rep_pages _ _ _ Rr) as P2.
    rewrite Forall_forall in P1, P2. apply (proj1 HK); [|set_solver].
    apply elem_of_app in Hq as [?|?]; [apply P1 | apply P2]; done. }
  split_and!; [by apply full_set_pg | done |]. assert (pg z' p = Q) as EQ by (by apply pg_set_same).
  cbn [rep]. rewrite EQ. unfold Q.
  split_and!; try (done || lia).
  - apply mslots_set; (done || lia || by apply length_pg).
  - rewrite fget_fput_other by (done || rewrite seg_off_val by lia; offs; lia). done.
  - rewrite fget_fput_other by (done || rewrite seg_off_val by lia; offs; lia). done.
  - apply (rep_frame z z' N N); [lia | | done]. set_solver.
  - apply (rep_frame z z' N N); [lia | | done]. set_solver.
Qed.

(** A child that is in memory, one that is only stored, and a new one. *)
Lemma grow_child_cached tb path d blk z p cl cr :
  node_at (get_table tb z) path = TNode p cl cr -> child d (TNode p cl cr) <> TNil ->
  grow_child E tb path d blk z = Done (z, 0).
Proof. intros Hn Hc. unfold grow_child. rewrite zget_step, Hn. by destruct (child d (TNode p cl cr)). Qed.

Lemma link_of z hi p sl l r d : rep z hi (DNode p sl l r) -> fget (pg z p) (side_off d) 4 = htonl (droot (if d then r else l)).
Proof. intros (_ & _ & Hl & Hr & _). by destruct d. Qed.

Lemma grow_child_stored tb path d N z p cl cr sl l r :
  full N z -> rep z N (DNode p sl l r) -> node_at (get_table tb z) path = TNode p cl cr -> child d (TNode p cl cr) = TNil ->
  (if d then r else l) <> DNil ->
  grow_child E tb path d (at_page z p) z =
    Done (set_table tb (put_at (get_table tb z) (path ++ [d]) (TNode (droot (if d then r else l)) TNil TNil)) z, 0).
Proof.
  intros Hf Hr Hn Hc Hne. pose proof (link_of z N p sl l r d Hr) as Hlk. pose proof Hr as (Hp & _ & _ & _ & Rl & Rr).
  assert (0 < droot (if d then r else l) < N) as Hrt.
  { assert (rep z N (if d then r else l)) as Rd by (by destruct d). destruct (if d then r else l); [done |]. by destruct Rd. }
  pose proof (a_N _ _ (proj1 Hf)) as HN. unfold MAX_PAGES in HN.
  assert (inside z p) as Hi by (apply (arch_inside N); [apply Hf | lia]).
  assert (side_off d + 4 <= 1024)%nat as Hso by (destruct d; offs; cbn [side_off]; unfold map_right, map_left; lia).
  unfold grow_child. rewrite zget_step, Hn, Hc. cbn iota.
  zstep (ldn_ok (at_page z p) z p (side_off d) 4 eq_refl Hi Hso). rewrite Hlk.
  pose proof (htonl_nonzero (droot (if d then r else l)) ltac:(lia)).
  destruct (Z.eqb_spec (htonl (droot (if d then r else l))) 0); [done |]. rewrite zret_step. cbn [Z.eqb negb].
  zstep (ldn_ok (at_page z p) z p (side_off d) 4 eq_refl Hi Hso). rewrite Hlk, htonl_involutive by rlia.
  unfold new_child. rewrite node_ok_true. by rewrite zset_step.
Qed.

(** With room for it a new page leaves the mapping where it is. *)
Lemma page_new_fits N z type :
  full N z -> N + 1 <= MAX_PAGES -> (N + 1) * 1024 < data_max (z_buff z) ->
  forall z1 x, shz_page_new E type z = Done (z1, x) -> z_gen z1 = z_gen z.
Proof.
  intros Hf HN Hr z1 x E1. destruct (page_new_ok E Hmenv N z type Hf HN) as (z2 & E2 & _ & _ & _ & _ & R2 & _).
  rewrite E1 in E2. injection E2 as <- _. by apply R2.
Qed.

Lemma grow_child_new tb path d N z p cl cr sl l r :
  full N z -> rep z N (DNode p sl l r) -> NoDup (dpages (DNode p sl l r)) ->
  node_at (get_table tb z) path = TNode p cl cr -> child d (TNode p cl cr) = TNil ->
  (if d then r else l) = DNil -> N + 1 <= MAX_PAGES ->
  (forall z1 x, shz_page_new E SHZ_PAGE_BRANCH z = Done (z1, x) -> z_gen z1 = z_gen z) ->
  exists z', grow_child E tb path d (at_page z p) z = Done (z', 0) /\ full (N + 1) z' /\ keeps_out N [p] z z' /\
    get_table tb z' = put_at (get_table tb z) (path ++ [d]) (TNode N TNil TNil) /\
    (forall tb', tb' <> tb -> get_table tb' z' = get_table tb' z) /\ data_max (z_buff z') = data_max (z_buff z) /\
    rep z' (N + 1) (if d then DNode p sl l (DNode N blank_slots DNil DNil) else DNode p sl (DNode N blank_slots DNil DNil) r).
Proof.
  intros Hf Hr Hnd Hn Hc Hnil HN Hroom. pose proof (link_of z N p sl l r d Hr) as Hlk. rewrite Hnil in Hlk. cbn [droot] in Hlk.
  pose proof Hr as (Hp & Hm & Hl & Hrr & Rl & Rr).
  pose proof (a_N _ _ (proj1 Hf)) as HN1. unfold MAX_PAGES in HN1.
  assert (inside z p) as Hi by (apply (arch_inside N); [apply Hf | lia]).
  assert (8 <= side_off d /\ side_off d + 4 <= 16)%nat as Hso by (destruct d; cbn [side_off]; offs; lia).
  unfold grow_child. rewrite zget_step, Hn, Hc. cbn iota.
  zstep (ldn_ok (at_page z p) z p (side_off d) 4 eq_refl Hi ltac:(lia)). rewrite Hlk. change (htonl 0) with 0. cbn [Z.eqb].
  destruct (page_new_ok E Hmenv N z SHZ_PAGE_BRANCH Hf HN) as (z1 & E1 & F1 & P1 & K1 & T1 & _ & _ & R1).
  pose proof (Hroom z1 _ E1) as G1. pose proof (R1 G1) as D1.
  assert (at_page z p = at_page z1 p) as Eat by (unfold at_page; by rewrite G1).
  assert (inside z1 p /\ inside z1 0 /\ inside z1 N) as (Hi1 & Hi0 & HiN) by (split_and!; (apply (arch_inside (N + 1)); [apply F1 | lia])).
  set (Q := set_crc (z_salt z1) (fput (pg z p) (side_off d) 4 (htonl N))).
  assert (length (pg z p) = 1024%nat) as Hlp by (by apply length_pg).
  assert (length (fput (pg z p) (side_off d) 4 (htonl N)) = 1024%nat) as Hlq by (rewrite length_fput; lia).
  assert (length Q = 1024%nat) as HQ by (by apply length_set_crc).
  set (z2 := set_pg p Q z1).
  assert ((r <~ shz_page_new E SHZ_PAGE_BRANCH;
           match r with
           | None => zret SHERR_IO
           | Some (_, bnum) => _ <~ stn (at_page z p) (side_off d) 4 (htonl bnum); _ <~ shz_crc_set (at_page z p); zret 0
           end) z = Done (z2, 0)) as E2.
  { zstep E1. cbn beta iota. rewrite Eat. zstep (stn_ok (at_page z1 p) z1 p (side_off d) 4 (htonl N) eq_refl Hi1 ltac:(lia)).
    rewrite (k_pg _ _ _ K1) by lia. by zstep (crc_set_at Hi1 Hlq Hi0 ltac:(lia)). }
  zstep E2. cbn [Z.eqb negb].
  assert (inside z2 p) as Hi2 by (by apply inside_set_pg). assert (pg z2 p = Q) as P2 by (by apply pg_set_same).
  assert (forall o k, (16 <= o)%nat -> slice Q o k = slice (pg z p) o k) as HQs.
  { intros o k Ho. unfold Q. rewrite slice_set_crc by (done || lia). apply slice_fput_other; lia. }
  assert (fget Q (side_off d) 4 = htonl N) as HQd.
  { unfold fget, Q. rewrite slice_set_crc by (done || lia). change (of_le (slice ?A ?o ?n)) with (fget A o n).
    apply fget_fput_same; [lia | apply htonl_range]. }
  assert (forall o, o <> side_off d -> o = map_left \/ o = map_right -> fget Q o 4 = fget (pg z p) o 4) as HQo.
  { intros o Ho Hs. unfold fget, Q. rewrite slice_set_crc by (done || offs; lia).
    rewrite slice_fput_other; [done | lia |]. destruct d, Hs as [-> | ->]; cbn [side_off] in *; offs; lia. }
  rewrite Eat. zstep (ldn_ok (at_page z1 p) z2 p (side_off d) 4 eq_refl Hi2 ltac:(lia)). rewrite P2, HQd, htonl_involutive by rlia.
  unfold new_child. rewrite node_ok_true, zset_step.
  assert (get_table tb z2 = get_table tb z) as Et by (transitivity (get_table tb z1); [by destruct tb | by apply same_tables_get]).
  rewrite Et. set (c' := put_at (get_table tb z) (path ++ [d]) (TNode N TNil TNil)).
  exists (set_table tb c' z2). assert (full (N + 1) z2) as F2 by (apply full_set_pg; (done || lia)).
  assert (keeps_out N [p] z z2) as K2.
  { apply (keeps_out_trans N (N + 1) [p] [p] z z1); [lia | set_solver | by apply keeps_keeps_out; [lia |] |].
    apply keeps_out_but, keeps_but_set_pg; [apply F1 | lia | done]. }
  split_and!.
  - done.
  - apply full_set_table; [done |]. apply tree_below_put; [|cbn [tree_below]; lia].
    apply (tree_below_mono N); [lia |]. apply (arch_below tb), Hf.
  - apply (keeps_out_trans N (N + 1) [p] [] z z2); [lia | set_solver | done |].
    apply keeps_keeps_out; [lia | apply set_table_keeps].
  - apply get_set_table.
  - intros tb' Hne. rewrite get_set_other by done. transitivity (get_table tb' z1); [by destruct tb' | by apply same_tables_get].
  - by rewrite set_table_buff.
  - assert (pg z2 N = new_page SHZ_PAGE_BRANCH) as PN by (unfold z2; rewrite pg_set_other by (done || lia); done).
    cbn [dpages] in Hnd. apply NoDup_cons in Hnd as [Hnp _].
    assert (forall t, rep z N t -> (forall q, q ∈ dpages t -> q <> p) -> rep (set_table tb c' z2) (N + 1) t) as Hframe.
    { intros t Ht Hq. apply (rep_frame z _ N); [lia | | done]. intros q Hqt. rewrite set_table_pg.
      pose proof (rep_pages _ _ _ Ht) as Hps. rewrite Forall_forall in Hps. apply (proj1 K2); [by apply Hps |].
      pose proof (Hq q Hqt). set_solver. }
    assert (rep (set_table tb c' z2) (N + 1) (DNode N blank_slots DNil DNil)) as RN.
    { cbn [rep droot]. rewrite set_table_pg, PN. change (htonl 0) with 0. split_and!; try (done || lia);
        first [apply mslots_new | apply fget_zero, new_page_zero; offs; lia]. }
    destruct d; (split; [lia |]); rewrite set_table_pg, P2; (split; [by apply (mslots_eq (pg z p)) |]).
    + rewrite (HQo map_left) by (cbn [side_off]; offs; lia || by left). split_and!; [done | done | | done].
      apply Hframe; [done |]. set_solver.
    + rewrite (HQo map_right) by (cbn [side_off]; offs; lia || by right). split_and!; [done | done | done |].
      apply Hframe; [done |]. set_solver.
Qed.

(** The tree of nodes with a child put at a path. *)
Lemma put_child t path d s q l r :
  node_at t path = TNode q l r -> node_at (put_at t (path ++ [d]) s) (path ++ [d]) = s.
Proof.
  intros Hn. rewrite put_at_app, node_at_app, node_at_put by (by rewrite Hn). rewrite Hn. by destruct d.
Qed.
Lemma put_child_twice t path d s s' q l r :
  node_at t path = TNode q l r ->
  put_at (put_at t (path ++ [d]) s) (path ++ [d]) s' = put_at t path (with_child d (TNode q l r) s').
Proof.
  intros Hn. rewrite !put_at_app, Hn. rewrite node_at_put by (by rewrite Hn). rewrite put_at_twice. by destruct d.
Qed.

Definition added (tb : table) (path : list side) (z z' : shz_t) (N N' : Z) (ps : list Z) (t' : dtree) : Prop :=
  full N' z' /\ N <= N' <= N + 1 /\ keeps_out N ps z z' /\ rep z' N' t' /\
  (forall tb', tb' <> tb -> get_table tb' z' = get_table tb' z) /\
  exists c', get_table tb z' = put_at (get_table tb z) path c' /\ c' <> TNil /\ cached c' t'.

Definition with_dchild (d : side) (t s : dtree) : dtree :=
  match t with DNil => DNil | DNode p sl l r => if d then DNode p sl l s else DNode p sl s r end.

(** The rest of the walk, below a node whose slot is taken: [z1] is the archive
    with the child in place. *)
Lemma added_below tb path d z z1 z' N N1 N' p cl cr sl l r t' x ps :
  node_at (get_table tb z) path = TNode p cl cr -> cached (TNode p cl cr) (DNode p sl l r) ->
  rep z1 N1 (DNode p sl l r) -> NoDup (dpages (DNode p sl l r)) -> N <= N1 -> keeps_out N [p] z z1 ->
  (forall tb', tb' <> tb -> get_table tb' z1 = get_table tb' z) ->
  get_table tb z1 = put_at (get_table tb z) (path ++ [d]) x ->
  added tb (path ++ [d]) z1 z' N1 N' (dpages (if d then r else l)) t' -> droot t' = droot (if d then r else l) -> N' <= N + 1 ->
  (forall q, 0 < q < N -> q ∈ dpages (DNode p sl l r) -> q ∈ ps) ->
  added tb path z z' N N' ps (with_dchild d (DNode p sl l r) t').
Proof.
  intros Hn Hc Hr Hnd HN K1 T1 G1 (F' & B' & K' & R' & T' & c' & G' & Hc' & C') Hrt HN' Hps.
  pose proof Hr as (Hp & Hm & Hl & Hrr & Rl & Rr). pose proof (NoDup_cons_1_1 _ _ Hnd) as Hnp. cbn [dpages] in Hnd, Hps.
  apply NoDup_cons in Hnd as [_ Hnd]. apply NoDup_app in Hnd as (_ & Hdis & _).
  assert (pg z' p = pg z1 p) as Ep by (apply (proj1 K'); [done |]; destruct d; set_solver).
  assert (forall t, rep z1 N1 t -> (forall q, q ∈ dpages t -> q ∈ dpages (if d then r else l) -> False) -> rep z' N' t) as Hframe.
  { intros t Ht Hq. apply (rep_frame z1 z' N1 N'); [lia | | done]. intros q Hqt.
    pose proof (rep_pages _ _ _ Ht) as Hps'. rewrite Forall_forall in Hps'. apply (proj1 K'); [by apply Hps' | eauto]. }
  split_and!.
  - done.
  - lia.
  - lia.
  - apply (keeps_out_trans N N1 ps (dpages (if d then r else l)) z z1); [done | | | done].
    + intros q Hq Hin. apply Hps; [done |]. destruct d; set_solver.
    + split; [|apply K1]. intros q Hq Hin. apply (proj1 K1); [done |]. intros ->%list_elem_of_singleton. apply Hin, Hps; [done | set_solver].
  - cbn [with_dchild]. destruct d; (split; [lia |]); rewrite Ep; rewrite Hrt; split_and!; try done; apply Hframe; try done;
      intros q H1 H2; apply (Hdis q); done.
  - intros tb' Hne. rewrite T', T1; done.
  - exists (with_child d (TNode p cl cr) c'). split_and!.
    + rewrite G', G1. by apply put_child_twice.
    + by destruct d.
    + destruct Hc as (_ & Cl & Cr). destruct d; cbn [with_child with_dchild cached]; by split_and!.
Qed.

Lemma droot_dadd d h ref n t : t <> DNil -> droot (dadd d h ref n t) = droot t.
Proof. destruct t; [done |]. intros _. cbn [dadd]. by repeat case_match. Qed.

Lemma dadd_below d h ref n p sl l r :
  slot sl h <> 0 -> slot sl h <> ref -> dadd d h ref n (DNode p sl l r) = with_dchild d (DNode p sl l r) (dadd d h ref n (if d then r else l)).
Proof.
  intros H1 H2. cbn [dadd with_dchild]. destruct (Z.eqb_spec (slot sl h) 0); [done |]. destruct (Z.eqb_spec (slot sl h) ref); [done |].
  by destruct d.
Qed.

Lemma add_loop_ok tb d h ref t : forall fuel path N z,
  0 < h < 240 -> 0 < ref < 2 ^ 32 -> t <> DNil -> full N z -> node_at (get_table tb z) path <> TNil ->
  cached (node_at (get_table tb z) path) t -> rep z N t -> NoDup (dpages t) -> (length (dpages t) < fuel)%nat ->
  (dgrows d h ref t = true -> N + 1 <= MAX_PAGES /\ (N + 1) * 1024 < data_max (z_buff z)) ->
  exists z' N', add_loop E fuel tb path d h ref z = Done (z', 0) /\ added tb path z z' N N' (dpages t) (dadd d h ref N t).
Proof.
  intros fuel path N z Hh Href. revert fuel path N z. induction t as [|p sl l IHl r IHr]; intros fuel path N z Ht Hf Hn0 Hc Hr Hnd Hfuel Hroom; [done |].
  destruct (node_at (get_table tb z) path) as [|q cl cr] eqn:Hn; [done |]. assert (q = p) as -> by apply Hc.
  destruct fuel as [|fuel]; [lia |]. rewrite (add_round fuel tb path d h ref N z p cl cr sl l r) by done.
  cbn [dgrows] in Hroom. destruct (Z.eqb_spec (slot sl h) 0) as [H0|H0].
  { destruct (rep_set_slot N z p sl l r h ref Hf Hr Hnd Hh Href) as (F1 & K1 & R1).
    eexists _, N. split; [done |]. cbn [dadd]. rewrite H0, Z.eqb_refl. split_and!; try (done || lia).
    - apply (keeps_out_weaken N [p]); [|done]. cbn [dpages]. set_solver.
    - exists (TNode p cl cr). rewrite <- Hn at 1. rewrite put_at_self. split_and!; [by destruct tb | done |]. done. }
  destruct (Z.eqb_spec (slot sl h) ref) as [Hs|Hs].
  { exists z, N. split; [done |]. cbn [dadd]. rewrite Hs, Z.eqb_refl. destruct (Z.eqb_spec ref 0); [lia |].
    split_and!; try (done || lia || apply keeps_out_refl). exists (TNode p cl cr). rewrite <- Hn at 1. by rewrite put_at_self. }
  rewrite dadd_below by done. assert (length (dpages (if d then r else l)) < fuel)%nat as Hfuel'.
  { cbn [dpages length] in Hfuel. rewrite length_app in Hfuel. destruct d; lia. }
  assert (NoDup (dpages (if d then r else l))) as Hnd'.
  { cbn [dpages] in Hnd. apply NoDup_cons in Hnd as [_ Hnd]. apply NoDup_app in Hnd as (? & _ & ?). by destruct d. }
  assert (forall fuel path N z,
    (if d then r else l) <> DNil -> full N z -> node_at (get_table tb z) path <> TNil ->
    cached (node_at (get_table tb z) path) (if d then r else l) -> rep z N (if d then r else l) -> NoDup (dpages (if d then r else l)) ->
    (length (dpages (if d then r else l)) < fuel)%nat ->
    (dgrows d h ref (if d then r else l) = true -> N + 1 <= MAX_PAGES /\ (N + 1) * 1024 < data_max (z_buff z)) ->
    exists z' N', add_loop E fuel tb path d h ref z = Done (z', 0) /\
      added tb path z z' N N' (dpages (if d then r else l)) (dadd d h ref N (if d then r else l))) as IH by (by destruct d).
  assert (cached (child d (TNode p cl cr)) (if d then r else l)) as Hcd by (destruct Hc as (_ & ? & ?); by destruct d).
  destruct (decide ((if d then r else l) = DNil)) as [Hnil|Hnn].
  - (* a new page *)
    destruct Hroom as [HM Hroom]; [by rewrite Hnil |].
    assert (child d (TNode p cl cr) = TNil) as Hcn by (rewrite Hnil in Hcd; by destruct (child d (TNode p cl cr))).
    destruct (grow_child_new tb path d N z p cl cr sl l r Hf Hr Hnd Hn Hcn Hnil HM (page_new_fits N z SHZ_PAGE_BRANCH Hf HM Hroom)) as (z1 & E1 & F1 & K1 & G1 & T1 & _ & R1).
    zstep E1. cbn [Z.eqb negb]. set (nd := DNode N blank_slots DNil DNil) in *.
    set (l1 := if d then l else nd). set (r1 := if d then nd else r).
    assert (rep z1 (N + 1) (DNode p sl l1 r1)) as R1' by (unfold l1, r1; by destruct d).
    assert (rep z1 (N + 1) nd) as Rnd by (destruct d; apply R1).
    assert (N ∉ dpages (DNode p sl l r)) as HNn.
    { intros Hin. pose proof (rep_pages _ _ _ Hr) as Hps. rewrite Forall_forall in Hps. pose proof (Hps N Hin). lia. }
    assert (dpages nd = [N]) as Edn by done.
    assert (NoDup (dpages (DNode p sl l1 r1))) as Hnd1.
    { apply (NoDup_Permutation_proper _ (N :: dpages (DNode p sl l r))); [|by apply NoDup_cons].
      cbn [dpages]. unfold l1, r1. destruct d; subst; cbn [dpages]; rewrite Edn, ?app_nil_r, ?app_nil_l; cbn [app].
      - rewrite (Permutation_app_comm (dpages l) [N]). apply Permutation_swap.
      - apply Permutation_swap. }
    destruct fuel as [|fuel]; [lia |].
    assert (node_at (get_table tb z1) (path ++ [d]) = TNode N TNil TNil) as Hn1 by (rewrite G1; by apply (put_child _ _ _ _ p cl cr)).
    rewrite (add_round fuel tb (path ++ [d]) d h ref (N + 1) z1 N TNil TNil blank_slots DNil DNil) by done.
    assert (slot blank_slots h = 0) as Hsb by (unfold slot, blank_slots; rewrite nth_lookup, lookup_replicate_2 by lia; done).
    rewrite Hsb. cbn [Z.eqb].
    destruct (rep_set_slot (N + 1) z1 N blank_slots DNil DNil h ref F1 Rnd) as (F2 & K2 & R2); [apply NoDup_singleton | done | done |].
    set (z2 := set_pg N _ z1) in *. exists z2, (N + 1). split; [done |].
    replace (with_dchild d (DNode p sl l r) (dadd d h ref N (if d then r else l)))
      with (with_dchild d (DNode p sl l1 r1) (dadd d h ref N DNil)) by (rewrite Hnil; unfold l1, r1; by destruct d).
    apply (added_below tb path d z z1 z2 N (N + 1) (N + 1) p cl cr sl l1 r1 _ (TNode N TNil TNil)); try (done || lia).
    + unfold l1, r1. destruct Hc as (_ & ? & ?). destruct d; cbn [child] in Hcn; subst; by split_and!.
    + replace (if d then r1 else l1) with nd by (unfold l1, r1; by destruct d). split_and!; try (done || lia).
      exists (TNode N TNil TNil). rewrite <- Hn1 at 1. rewrite put_at_self. split_and!; [by destruct tb | done |]. by split_and!.
    + unfold l1, r1. by destruct d.
    + intros q Hq Hin. cbn [dpages] in *. unfold l1, r1 in Hin. destruct d; rewrite Edn in Hin; set_unfold; intuition lia.
  - (* a child that is stored, in memory or not *)
    assert (exists z1 x, grow_child E tb path d (at_page z p) z = Done (z1, 0) /\ full N z1 /\ keeps_out N [p] z z1 /\ rep z1 N (DNode p sl l r) /\
      (forall tb', tb' <> tb -> get_table tb' z1 = get_table tb' z) /\ get_table tb z1 = put_at (get_table tb z) (path ++ [d]) x /\
      node_at (get_table tb z1) (path ++ [d]) <> TNil /\ cached (node_at (get_table tb z1) (path ++ [d])) (if d then r else l) /\
      z_buff z1 = z_buff z) as (z1 & x & E1 & F1 & K1 & R1 & T1 & G1 & N1 & C1 & B1).
    { destruct (decide (child d (TNode p cl cr) = TNil)) as [Hcn|Hcn].
      - eexists _, _. rewrite (grow_child_stored tb path d N z p cl cr sl l r) by done. split; [done |].
        set (x := TNode _ TNil TNil). assert (tree_below N x) as Hx.
        { assert (rep z N (if d then r else l)) as Rd by (destruct Hr as (_ & _ & _ & _ & ? & ?); by destruct d).
          unfold x. destruct (if d then r else l); [done |]. destruct Rd. cbn [tree_below droot]. lia. }
        rewrite get_set_table. rewrite (put_child _ _ _ _ p cl cr) by done. split_and!; try done.
        + apply full_set_table; [done |]. apply tree_below_put; [apply (arch_below tb), Hf | done].
        + apply keeps_keeps_out; [destruct Hf as [[] _]; lia | apply set_table_keeps].
        + apply (rep_frame z _ N N); [lia | | done]. intros q _. apply set_table_pg.
        + intros tb' Hne. by apply get_set_other.
        + unfold x. destruct (if d then r else l); [done |]. by split_and!.
        + apply set_table_buff.
      - exists z, (child d (TNode p cl cr)). rewrite (grow_child_cached tb path d _ z p cl cr) by done.
        rewrite <- Hn, <- node_at_app, put_at_self, node_at_app, Hn. by split_and!. }
    zstep E1. cbn [Z.eqb negb].
    destruct (IH fuel (path ++ [d]) N z1) as (z2 & N2 & E2 & A2); try done.
    { destruct R1 as (_ & _ & _ & _ & ? & ?). by destruct d. }
    { rewrite B1. exact Hroom. }
    exists z2, N2. split; [done |].
    apply (added_below tb path d z z1 z2 N N N2 p cl cr sl l r _ x); try (done || lia).
    + by apply droot_dadd.
    + apply A2.
Qed.
End adding.

(** ** Insertion and search in the tree of slots *)

Fixpoint dwf (t : dtree) : Prop :=
  match t with DNil => True | DNode _ sl l r => length sl = 240%nat /\ dwf l /\ dwf r end.

Lemma rep_dwf z hi t : rep z hi t -> dwf t.
Proof. induction t as [|p sl l IHl r IHr]; [done |]. intros (_ & [Hl _] & _ & _ & Rl & Rr). cbn [dwf]. auto. Qed.

Lemma slot_blank h : slot blank_slots h = 0.
Proof.
  unfold slot, blank_slots. rewrite nth_lookup. destruct (replicate 240 0 !! Z.to_nat h) as [x|] eqn:Ex; [|done].
  by apply lookup_replicate in Ex as [-> _].
Qed.

Lemma dcol_dadd_new d h ref n t : dwf t -> 0 < h < 240 -> ref <> 0 -> ref ∈ dcol d h (dadd d h ref n t).
Proof.
  intros Hw Hh Hr. induction t as [|p sl l IHl r IHr]; cbn [dadd].
  - cbn [dcol]. rewrite slot_insert, Z.eqb_refl by (done || lia). destruct (Z.eqb_spec ref 0); [done | set_solver].
  - destruct Hw as (Hl & Wl & Wr). destruct (Z.eqb_spec (slot sl h) 0) as [H0|H0].
    { cbn [dcol]. rewrite slot_insert, Z.eqb_refl by (done || lia). destruct (Z.eqb_spec ref 0); [done | set_solver]. }
    destruct (Z.eqb_spec (slot sl h) ref) as [Hs|Hs].
    { cbn [dcol]. destruct (Z.eqb_spec (slot sl h) 0); [done |]. rewrite Hs. set_solver. }
    destruct d; cbn [dcol]; (destruct (Z.eqb_spec (slot sl h) 0); [done |]); apply elem_of_cons; right; auto.
Qed.

Lemma dcol_dadd_old d h ref n t d' h' r :
  dwf t -> 0 < h < 240 -> 0 <= h' -> r ∈ dcol d' h' t -> r ∈ dcol d' h' (dadd d h ref n t).
Proof.
  intros Hw Hh Hh'. induction t as [|p sl l IHl rt IHr]; cbn [dadd dcol]; [set_solver |].
  destruct Hw as (Hl & Wl & Wr). destruct (Z.eqb_spec (slot sl h') 0) as [H0|H0]; [set_solver |]. intros Hr.
  destruct (Z.eqb_spec (slot sl h) 0) as [H1|H1].
  { cbn [dcol]. rewrite slot_insert by (done || lia). destruct (Z.eqb_spec h' h) as [->|Hne]; [done |].
    by destruct (Z.eqb_spec (slot sl h') 0). }
  destruct (Z.eqb_spec (slot sl h) ref) as [Hs|Hs].
  { cbn [dcol]. by destruct (Z.eqb_spec (slot sl h') 0). }
  apply elem_of_cons in Hr as [->|Hr].
  - destruct d; cbn [dcol]; (destruct (Z.eqb_spec (slot sl h') 0); [done |]); set_solver.
  - destruct d, d'; cbn [dcol]; (destruct (Z.eqb_spec (slot sl h') 0); [done |]); apply elem_of_cons; right; auto.
Qed.

Lemma filter_insert sl i ref :
  sl !! i = Some 0 -> ref <> 0 ->
  List.filter (fun r => negb (r =? 0)) (<[i := ref]> sl) ≡ₚ ref :: List.filter (fun r => negb (r =? 0)) sl.
Proof.
  intros Hi Hr. revert i Hi. induction sl as [|x sl IH]; intros i Hi; [done |]. destruct i as [|i].
  - injection Hi as ->. cbn. by destruct (Z.eqb_spec ref 0).
  - cbn [lookup list_lookup] in Hi. change (<[S i := ref]> (x :: sl)) with (x :: <[i := ref]> sl). cbn [List.filter].
    destruct (negb (x =? 0)); [|by apply IH]. rewrite IH by done. apply Permutation_swap.
Qed.

Lemma drefs_dadd d h ref n t :
  dwf t -> 0 < h < 240 -> ref <> 0 -> ref ∉ drefs t -> drefs (dadd d h ref n t) ≡ₚ ref :: drefs t.
Proof.
  intros Hw Hh Hr. induction t as [|p sl l IHl r IHr]; intros Hn; cbn [dadd].
  - cbn [drefs app]. rewrite filter_insert; [done | | done]. apply lookup_replicate_2. lia.
  - destruct Hw as (Hl & Wl & Wr). cbn [drefs] in Hn. destruct (Z.eqb_spec (slot sl h) 0) as [H0|H0].
    { cbn [drefs]. rewrite filter_insert; [| | done].
      - rewrite <- !Permutation_middle. done.
      - unfold slot in H0. rewrite nth_lookup in H0. destruct (sl !! Z.to_nat h) as [x|] eqn:Ex; [cbn in H0; by subst |].
        apply lookup_ge_None in Ex. lia. }
    destruct (Z.eqb_spec (slot sl h) ref) as [Hs|Hs].
    { exfalso. apply Hn. apply elem_of_app; right. apply elem_of_app; right. apply list_elem_of_In, filter_In.
      rewrite <- Hs. split; [|by destruct (Z.eqb_spec (slot sl h) 0)]. apply nth_In. lia. }
    destruct d; cbn [drefs].
    + rewrite IHr by (done || set_solver). cbn [app]. by rewrite <- Permutation_middle.
    + rewrite IHl by (done || set_solver). done.
Qed.

Lemma dpages_dadd d h ref n t : dpages (dadd d h ref n t) ≡ₚ (if dgrows d h ref t then n :: dpages t else dpages t).
Proof.
  induction t as [|p sl l IHl r IHr]; cbn [dadd dgrows]; [done |]. destruct (slot sl h =? 0); [done |]. destruct (slot sl h =? ref); [done |].
  destruct d; cbn [dpages].
  - rewrite IHr. destruct (dgrows true h ref r); [|done]. rewrite <- Permutation_middle. apply Permutation_swap.
  - rewrite IHl. destruct (dgrows false h ref l); [|done]. cbn [app]. apply Permutation_swap.
Qed.

Lemma dcol_drefs d h t : forall r, r ∈ dcol d h t -> r ∈ drefs t.
Proof.
  induction t as [|p sl l IHl rt IHr]; intros r; cbn [dcol drefs]; [set_solver |].
  destruct (Z.eqb_spec (slot sl h) 0) as [H0|H0]; [set_solver |]. intros [->|Hr]%elem_of_cons.
  - apply elem_of_app; right. apply elem_of_app; right. apply list_elem_of_In, filter_In.
    split; [|by destruct (Z.eqb_spec (slot sl h) 0)]. unfold slot in *. destruct (le_lt_dec (length sl) (Z.to_nat h)); [|by apply nth_In].
    by rewrite nth_overflow in H0.
  - destruct d; set_solver.
Qed.

Section lookup.
Context (E : env) (Hcalloc : forall n, calloc_ok E n = true) (Hmenv : mapped_env E).

(** Only nodes in memory were added, below [path]. *)
Definition recached (tb : table) (path : list side) (t : dtree) (z z' : shz_t) : Prop :=
  exists c', z' = set_table tb (put_at (get_table tb z) path c') z /\ c' <> TNil /\ cached c' t.

Lemma set_table_self tb z : set_table tb (get_table tb z) z = z.
Proof. destruct tb, z; done. Qed.
Lemma set_table_twice tb t t' z : set_table tb t (set_table tb t' z) = set_table tb t z.
Proof. by destruct tb. Qed.

Lemma recached_refl tb path t z :
  node_at (get_table tb z) path <> TNil -> cached (node_at (get_table tb z) path) t -> recached tb path t z z.
Proof. intros H1 H2. exists (node_at (get_table tb z) path). by rewrite put_at_self, set_table_self. Qed.

Lemma recached_full tb path t N z z' : full N z -> rep z N t -> recached tb path t z z' -> full N z'.
Proof.
  intros Hf Hr (c' & -> & _ & Hc). apply full_set_table; [done |]. apply tree_below_put; [apply (arch_below tb), Hf |].
  by apply (cached_below z N c' t).
Qed.
Lemma recached_pg tb path t z z' b : recached tb path t z z' -> pg z' b = pg z b.
Proof. intros (c' & -> & _). apply set_table_pg. Qed.
Lemma recached_rep tb path t z z' hi t' : recached tb path t z z' -> rep z hi t' -> rep z' hi t'.
Proof. intros H. apply rep_frame; [lia |]. intros p _. by apply (recached_pg tb path t). Qed.

(** The child on side [d] is brought into memory, when there is one. *)
Lemma load_child_ok tb path d N z p cl cr sl l r :
  arch N z -> rep z N (DNode p sl l r) -> node_at (get_table tb z) path = TNode p cl cr -> cached (TNode p cl cr) (DNode p sl l r) ->
  exists z', load_child E tb path d (at_page z p) z = Done (z', 0) /\ recached tb path (DNode p sl l r) z z' /\
    exists cd, node_at (get_table tb z') path = with_child d (TNode p cl cr) cd /\ cached cd (if d then r else l) /\
      (cd = TNil -> (if d then r else l) = DNil).
Proof.
  intros Ha Hr Hn Hc. pose proof (link_of z N p sl l r d Hr) as Hlk. pose proof Hr as (Hp & _ & _ & _ & Rl & Rr).
  assert (inside z p) as Hi by (apply (arch_inside N); [done | lia]).
  assert (side_off d + 4 <= 1024)%nat as Hso by (destruct d; cbn [side_off]; offs; lia).
  assert (rep z N (if d then r else l)) as Rd by (by destruct d).
  assert (cached (child d (TNode p cl cr)) (if d then r else l)) as Hcd by (destruct Hc as (_ & ? & ?); by destruct d).
  assert (node_at (get_table tb z) path <> TNil /\ cached (node_at (get_table tb z) path) (DNode p sl l r)) as [Hnn Hcc] by (by rewrite Hn).
  unfold load_child. rewrite zget_step, Hn. destruct (child d (TNode p cl cr)) as [|q ql qr] eqn:Hch.
  - zstep (ldn_ok (at_page z p) z p (side_off d) 4 eq_refl Hi Hso). rewrite Hlk.
    destruct (if d then r else l) as [|q qsl ql qr] eqn:Hd.
    + change (htonl (droot DNil)) with 0. cbn [Z.eqb]. exists z. split_and!; [done | by apply recached_refl |].
      exists TNil. split_and!; [|done | done]. rewrite Hn. destruct d; cbn [child with_child] in *; congruence.
    + cbn [droot]. pose proof Rd as (Hq & _). pose proof (a_N _ _ Ha) as HN. unfold MAX_PAGES in HN.
      pose proof (htonl_nonzero q ltac:(lia)). destruct (Z.eqb_spec (htonl q) 0); [done |].
      rewrite htonl_involutive by rlia. unfold new_child. rewrite (node_ok_true E Hcalloc), zset_step. eexists. split; [done |].
      rewrite put_at_app, Hn. split.
      * exists (with_child d (TNode p cl cr) (TNode q TNil TNil)). split_and!; [done | by destruct d |].
        destruct Hc as (_ & Cl & Cr). destruct d; cbn [with_child cached]; split_and!; try done; rewrite Hd; by split_and!.
      * exists (TNode q TNil TNil). rewrite get_set_table, node_at_put by done. by split_and!.
  - exists z. split_and!; [done | by apply recached_refl |]. exists (TNode q ql qr). split_and!; [|done | done].
    rewrite Hn. destruct d; cbn [child with_child] in *; congruence.
Qed.

(** An entry whose key can be compared. *)
Definition mod_key (z : shz_t) (N : Z) (r : Z) (k : shkey_t) : Prop :=
  0 < r < N /\ is_shz_mod_type (p_type (pg z r)) = true /\ key_of (slice (pg z r) mod_id 32) = k.

Definition search (K : Z -> shkey_t) (id : shkey_t) (l : list Z) : Z * Z :=
  match List.find (fun r => shkey_cmp (Some (K r)) (Some id)) l with Some r => (0, r) | None => (SHERR_NOENT, 0) end.

Lemma map_get_ok z b sl h :
  inside z b -> mslots (pg z b) sl -> 0 < h < 240 ->
  shz_map_get (at_page z b) h z = Done (z, if slot sl h =? 0 then (SHERR_NOENT, 0) else (0, slot sl h)).
Proof.
  intros Hi (H1 & H2 & H3) Hh. unfold shz_map_get, SHZ_HASH_MASK.
  destruct (Z.leb_spec h 0); [lia |]. destruct (Z.leb_spec 240 h); [lia |]. cbn [orb].
  zstep (ldn_ok (at_page z b) z b (seg_off h) 4 eq_refl Hi ltac:(rewrite seg_off_val; lia)). rewrite H3 by lia.
  pose proof (slot_range sl h H2) as Hs. destruct (Z.eqb_spec (slot sl h) 0) as [->|Hne]; [done |].
  pose proof (htonl_nonzero (slot sl h) ltac:(lia)). destruct (Z.eqb_spec (htonl (slot sl h)) 0); [done |].
  by rewrite htonl_involutive by rlia.
Qed.

Lemma get_loop_ok tb d h id K t : forall fuel path N z,
  0 < h < 240 -> full N z -> (t = DNil -> node_at (get_table tb z) path = TNil) -> (t <> DNil -> node_at (get_table tb z) path <> TNil) ->
  cached (node_at (get_table tb z) path) t -> rep z N t -> (length (dpages t) < fuel)%nat ->
  (forall r, r ∈ dcol d h t -> mod_key z N r (K r)) ->
  exists z', get_loop E fuel tb path d h id z = Done (z', search K id (dcol d h t)) /\ (z' = z \/ recached tb path t z z').
Proof.
  induction t as [|p sl l IHl r IHr]; intros fuel path N z Hh Hf Hnil Hnn Hc Hr Hfuel HK.
  { exists z. split; [|by left]. destruct fuel; cbn [get_loop]; rewrite zget_step, Hnil; done. }
  destruct (node_at (get_table tb z) path) as [|q cl cr] eqn:Hn; [by specialize (Hnn ltac:(done)) |]. assert (q = p) as -> by apply Hc.
  destruct fuel as [|fuel]; [lia |]. cbn [get_loop]. rewrite zget_step, Hn. cbn iota. unfold shz_tree_data.
  pose proof Hr as (Hp & Hm & _ & _ & Rl & Rr).
  zstep (page_seen E N z p (proj1 Hf) ltac:(rewrite (proj2 Hf); lia)).
  assert (inside z p) as Hi by (apply (arch_inside N); [apply Hf | lia]).
  zstep (map_get_ok z p sl h Hi Hm Hh). cbn [dcol] in *. destruct (Z.eqb_spec (slot sl h) 0) as [H0|H0].
  { exists z. split; [done | by left]. }
  cbn beta iota. cbn [Z.eqb negb]. destruct (HK (slot sl h)) as (Hrr & Hrt & Hrk); [set_solver |].
  assert (inside z (slot sl h)) as His by (apply (arch_inside N); [apply Hf | lia]).
  assert (shz_mod_id E (slot sl h) z = Done (z, (0, Some (mk_ptr (z_gen z) (Z.to_nat (slot sl h * 1024) + mod_id))))) as Eid.
  { unfold shz_mod_id. zstep (page_seen E N z (slot sl h) (proj1 Hf) ltac:(rewrite (proj2 Hf); lia)).
    zstep (@page_type_ok (at_page z (slot sl h)) z (slot sl h) eq_refl His). by rewrite Hrt. }
  zstep Eid. cbn beta iota.
  assert (ld (mk_ptr (z_gen z) (Z.to_nat (slot sl h * 1024) + mod_id)) 0 32 z = Done (z, slice (pg z (slot sl h)) mod_id 32)) as Eld.
  { rewrite <- (ld_ok (at_page z (slot sl h)) z (slot sl h) mod_id 32 eq_refl His ltac:(offs; lia)).
    unfold ld, zbind, deref, at_page. cbn [p_gen p_off]. rewrite Nat.eqb_refl. by rewrite Nat.add_0_r. }
  zstep Eld. rewrite Hrk. unfold search. cbn [List.find]. destruct (shkey_cmp (Some (K (slot sl h))) (Some id)) eqn:Ecmp.
  { exists z. split; [done | by left]. }
  destruct (load_child_ok tb path d N z p cl cr sl l r (proj1 Hf) Hr Hn Hc) as (z1 & E1 & C1 & cd & Hn1 & Hcd & Hcd0). zstep E1. cbn [Z.eqb negb].
  assert (full N z1) as F1 by (by apply (recached_full tb path (DNode p sl l r) N z z1)).
  assert (node_at (get_table tb z1) (path ++ [d]) = cd) as Hn2 by (rewrite node_at_app, Hn1; by destruct d).
  assert (forall fuel path N z,
    0 < h < 240 -> full N z -> ((if d then r else l) = DNil -> node_at (get_table tb z) path = TNil) ->
    ((if d then r else l) <> DNil -> node_at (get_table tb z) path <> TNil) ->
    cached (node_at (get_table tb z) path) (if d then r else l) -> rep z N (if d then r else l) -> (length (dpages (if d then r else l)) < fuel)%nat ->
    (forall r0, r0 ∈ dcol d h (if d then r else l) -> mod_key z N r0 (K r0)) ->
    exists z', get_loop E fuel tb path d h id z = Done (z', search K id (dcol d h (if d then r else l))) /\
      (z' = z \/ recached tb path (if d then r else l) z z')) as IH by (by destruct d).
  destruct (IH fuel (path ++ [d]) N z1) as (z2 & E2 & C2); try (done || rewrite Hn2).
  - intros Hd. rewrite Hd in Hcd. by destruct cd.
  - intros Hd Hz. by apply Hd, Hcd0.
  - done.
  - apply (recached_rep tb path _ z z1 N _ C1). by destruct d.
  - cbn [dpages length] in Hfuel. rewrite length_app in Hfuel. destruct d; lia.
  - intros r0 Hr0. unfold mod_key. rewrite (recached_pg tb path _ z z1 _ C1). apply HK. set_solver.
  - exists z2. split; [done |]. right. destruct C2 as [->|(c2 & -> & Hc2 & Cc2)]; [done |]. destruct C1 as (c1 & -> & Hc1 & Cc1).
    rewrite get_set_table in Hn1 |- *. rewrite node_at_put in Hn1 by (by rewrite Hn). subst c1.
    rewrite set_table_twice, put_at_app, node_at_put by (by rewrite Hn). rewrite put_at_twice.
    exists (with_child d (TNode p cl cr) c2). split_and!.
    + f_equal. f_equal. by destruct d.
    + by destruct d.
    + destruct Hc as (_ & Cl & Cr). destruct d; by split_and!.
Qed.
End lookup.

(** ** A table as a map from keys to pages *)

Definition tab_ok (tb : table) (z : shz_t) (N : Z) (t : dtree) : Prop :=
  t <> DNil /\ get_table tb z <> TNil /\ cached (get_table tb z) t /\ rep z N t /\ NoDup (dpages t).

(** The key of entry [r] is [K r]; it is stored in the page of the entry, which
    is no page of the table, and the entry is where a search for it looks. *)
Definition entry_ok (z : shz_t) (N : Z) (t : dtree) (K : Z -> shkey_t) (r : Z) : Prop :=
  mod_key z N r (K r) /\ valid_key (K r) /\ (r ∉ dpages t) /\ r ∈ dcol (hash_side (K r)) (hash_num (K r)) t.

Definition table_inv (tb : table) (z : shz_t) (N : Z) (t : dtree) (K : Z -> shkey_t) : Prop :=
  tab_ok tb z N t /\ (forall r, r ∈ drefs t -> entry_ok z N t K r) /\ NoDup (map K (drefs t)).

Definition entries (K : Z -> shkey_t) (t : dtree) : gmap shkey_t Z :=
  list_to_map (map (fun r => (K r, r)) (drefs t)).

Lemma entries_lookup K t id r : NoDup (map K (drefs t)) -> ((entries K t !! id = Some r) <-> (r ∈ drefs t /\ K r = id)).
Proof.
  intros Hnd. unfold entries. rewrite <- elem_of_list_to_map.
  - rewrite list_elem_of_fmap. split; [by intros (x & [= -> ->] & Hx) | intros [Hr <-]; by exists r].
  - rewrite <- list_fmap_compose. done.
Qed.

Lemma hash_num_range id : 0 <= hash_num id < 240.
Proof. unfold hash_num, SHZ_HASH_MASK. apply Z.mod_pos_bound. lia. Qed.

(** The walk has enough rounds for a tree of distinct pages. *)
Lemma walk_fuel_ok N z t : arch N z -> rep z N t -> NoDup (dpages t) -> (length (dpages t) < walk_fuel z)%nat.
Proof.
  intros Ha Hr Hnd. pose proof (page_fuel_ok N z Ha) as Hf. pose proof (a_N _ _ Ha). unfold walk_fuel.
  assert (length (dpages t) <= length (seqZ 0 N))%nat as Hl.
  { apply submseteq_length, NoDup_submseteq; [done |]. intros x Hx. apply elem_of_seqZ.
    pose proof (rep_pages _ _ _ Hr) as Hp. rewrite Forall_forall in Hp. pose proof (Hp x Hx). lia. }
  rewrite length_seqZ in Hl. lia.
Qed.

Section tables.
Context (E : env) (Hcalloc : forall n, calloc_ok E n = true) (Hmenv : mapped_env E).

(** A lookup returns the entry of the key, and changes nothing but the nodes in
    memory. *)
Lemma tree_get_ok tb N z t K id :
  full N z -> table_inv tb z N t K -> valid_key id -> hash_num id <> 0 ->
  exists z', shz_tree_get E tb id z =
      Done (z', match entries K t !! id with Some r => (0, r) | None => (SHERR_NOENT, 0) end) /\
    full N z' /\ table_inv tb z' N t K /\ (forall b, pg z' b = pg z b) /\ z_buff z' = z_buff z /\
    z_flags z' = z_flags z /\ z_gen z' = z_gen z /\ (forall tb', tb' <> tb -> get_table tb' z' = get_table tb' z).
Proof.
  intros Hf ((Ht & Hg & Hc & Hr & Hnd) & He & Hk) Hid Hh. pose proof (hash_num_range id) as Hhr.
  destruct (get_loop_ok E Hcalloc Hmenv tb (hash_side id) (hash_num id) id K t (walk_fuel z) [] N z) as (z' & E1 & C1); try done.
  { lia. }
  { apply (walk_fuel_ok N); [apply Hf | done | done]. }
  { intros r Hrc. apply He. by apply (dcol_drefs (hash_side id) (hash_num id)). }
  assert (recached tb [] t z z') as C2 by (destruct C1 as [->|?]; [by apply recached_refl | done]).
  exists z'. split_and!.
  - unfold shz_tree_get. destruct (get_table tb z); [done |]. rewrite E1. do 2 f_equal.
    assert (forall r, r ∈ drefs t -> (shkey_cmp (Some (K r)) (Some id) = true <-> K r = id)) as Hcmp.
    { intros r Hrr. apply shkey_cmp_eq; [|done]. apply He; done. }
    unfold search. destruct (entries K t !! id) as [r|] eqn:Ee.
    + apply entries_lookup in Ee as [Hin HK]; [|done].
      destruct (List.find _ _) as [r'|] eqn:Ef.
      * apply List.find_some in Ef as [Hin' Hcm]. apply list_elem_of_In, dcol_drefs in Hin'. apply Hcmp in Hcm; [|done].
        do 2 f_equal. assert (entries K t !! id = Some r') as E2 by (by apply entries_lookup).
        assert (entries K t !! id = Some r) as E3 by (by apply entries_lookup). congruence.
      * exfalso. pose proof (He r Hin) as (_ & _ & _ & Hcol). rewrite HK in Hcol. apply list_elem_of_In in Hcol.
        pose proof (List.find_none _ _ Ef r Hcol) as Hn. cbn beta in Hn. apply Hcmp in HK; [congruence | done].
    + destruct (List.find _ _) as [r'|] eqn:Ef; [|done]. exfalso.
      apply List.find_some in Ef as [Hin' Hcm]. apply list_elem_of_In, dcol_drefs in Hin'. apply Hcmp in Hcm; [|done].
      assert (entries K t !! id = Some r') as E2 by (by apply entries_lookup). congruence.
  - by apply (recached_full tb [] t N z).
  - split; [split_and!; [done | | | |done] | split; [|done]].
    + destruct C2 as (c' & -> & Hc' & _). by rewrite get_set_table.
    + destruct C2 as (c' & -> & _ & Hc'). by rewrite get_set_table.
    + by apply (recached_rep tb [] t z).
    + intros r Hrr. destruct (He r Hrr) as (M1 & ? & ? & ?). split_and!; try done. unfold mod_key. by rewrite (recached_pg tb [] t z).
  - intros b. by apply (recached_pg tb [] t).
  - destruct C2 as (c' & -> & _). apply set_table_buff.
  - destruct C2 as (c' & -> & _). by destruct tb.
  - destruct C2 as (c' & -> & _). apply set_table_gen.
  - intros tb' Hne. destruct C2 as (c' & -> & _). by apply get_set_other.
Qed.

(** An addition inserts the entry in the tree of slots. *)
Lemma tree_add_ok tb N z t id ref :
  full N z -> tab_ok tb z N t -> hash_num id <> 0 -> 0 < ref < 2 ^ 32 ->
  (dgrows (hash_side id) (hash_num id) ref t = true -> N + 1 <= MAX_PAGES /\ (N + 1) * 1024 < data_max (z_buff z)) ->
  exists z' N', shz_tree_add E tb ref id z = Done (z', 0) /\ full N' z' /\ N <= N' <= N + 1 /\
    tab_ok tb z' N' (dadd (hash_side id) (hash_num id) ref N t) /\ keeps_out N (dpages t) z z' /\
    (forall tb', tb' <> tb -> get_table tb' z' = get_table tb' z).
Proof.
  intros Hf (Ht & Hg & Hc & Hr & Hnd) Hh Href Hroom. pose proof (hash_num_range id) as Hhr.
  destruct (add_loop_ok E Hcalloc Hmenv tb (hash_side id) (hash_num id) ref t (walk_fuel z) [] N z)
    as (z' & N' & E1 & F1 & B1 & K1 & R1 & T1 & c' & G1 & Hc' & C1); try done.
  { lia. }
  { apply (walk_fuel_ok N); [apply Hf | done | done]. }
  exists z', N'. split_and!; try (done || lia).
  - unfold shz_tree_add. by destruct (get_table tb z).
  - rewrite put_at_nil in G1. split_and!; [|by rewrite G1 | by rewrite G1 | done |].
    { destruct t; [done |]. cbn [dadd]. by repeat case_match. }
    assert (N ∉ dpages t) as HN.
    { intros Hin. pose proof (rep_pages _ _ _ Hr) as Hp. rewrite Forall_forall in Hp. pose proof (Hp N Hin). lia. }
    rewrite dpages_dadd. destruct (dgrows _ _ _ _); [by apply NoDup_cons | done].
Qed.

(** The keys with the new entry. *)
Definition key_upd (K : Z -> shkey_t) (ref : Z) (id : shkey_t) : Z -> shkey_t := fun r => if r =? ref then id else K r.

Lemma map_key_upd K ref id l : ref ∉ l -> map (key_upd K ref id) l = map K l.
Proof.
  intros Hn. apply map_ext_in. intros r Hr. apply list_elem_of_In in Hr. unfold key_upd. destruct (Z.eqb_spec r ref); [by subst | done].
Qed.

(** What a table holds when a new entry was put into it, once its page has the key. *)
Lemma table_inv_add tb z N z' N' n t K id ref :
  table_inv tb z N t K -> valid_key id -> hash_num id <> 0 -> entries K t !! id = None -> ref ∉ drefs t -> 0 < ref < N' ->
  N <= n -> N <= N' -> ref ∉ dpages t -> ref <> n ->
  tab_ok tb z' N' (dadd (hash_side id) (hash_num id) ref n t) ->
  (forall c, c ∈ drefs t -> pg z' c = pg z c) -> mod_key z' N' ref id ->
  let t' := dadd (hash_side id) (hash_num id) ref n t in
  table_inv tb z' N' t' (key_upd K ref id) /\ entries (key_upd K ref id) t' = <[id := ref]> (entries K t).
Proof.
  intros ((Ht & Hg & Hc & Hr & Hnd) & He & Hk) Hid Hh Hnew Href Hrr Hn HN Hrp HrN Ht' Hpg Hmk t'.
  pose proof (hash_num_range id) as Hhr. pose proof (rep_dwf _ _ _ Hr) as Hw.
  assert (drefs t' ≡ₚ ref :: drefs t) as Hp by (apply drefs_dadd; (done || lia)).
  assert (map (key_upd K ref id) (drefs t') ≡ₚ id :: map K (drefs t)) as Hpk.
  { rewrite Hp. cbn [map]. rewrite map_key_upd by done. unfold key_upd. by rewrite Z.eqb_refl. }
  assert (NoDup (map (key_upd K ref id) (drefs t'))) as Hnd'.
  { rewrite Hpk. apply NoDup_cons. split; [|done]. intros (r & Hkr & Hrin)%list_elem_of_fmap.
    assert (entries K t !! id = Some r) as Ee by (by apply entries_lookup). congruence. }
  split; [split_and!; [done | | done] |].
  - intros r Hrin. rewrite Hp in Hrin. unfold entry_ok, key_upd. destruct (Z.eqb_spec r ref) as [->|Hne].
    + split_and!; [done | done | |].
      * unfold t'. rewrite dpages_dadd. destruct (dgrows _ _ _ _); [|done]. by apply not_elem_of_cons.
      * apply dcol_dadd_new; (done || lia).
    + assert (r ∈ drefs t) as Hin by set_solver. destruct (He r Hin) as ((Mr & Mt & Mk) & Hv & Hnp & Hcol). split_and!; try done.
      * split_and!; [lia | lia | |]; by rewrite Hpg.
      * unfold t'. rewrite dpages_dadd. destruct (dgrows _ _ _ _); [|done]. apply not_elem_of_cons. split; [lia | done].
      * apply dcol_dadd_old; (done || lia || apply hash_num_range).
  - apply map_eq. intros k. destruct (decide (k = id)) as [->|Hne].
    + rewrite lookup_insert_eq. apply entries_lookup; [done |]. rewrite Hp. unfold key_upd. rewrite Z.eqb_refl. split; [set_solver | done].
    + rewrite lookup_insert_ne by done. destruct (entries K t !! k) as [r|] eqn:Ee.
      * apply entries_lookup in Ee as [Hin HK]; [|done]. apply entries_lookup; [done |]. rewrite Hp. split; [set_solver |].
        unfold key_upd. destruct (Z.eqb_spec r ref); [by subst | done].
      * destruct (entries (key_upd K ref id) t' !! k) as [r|] eqn:Ee'; [|done]. exfalso.
        apply entries_lookup in Ee' as [Hin HK]; [|done]. rewrite Hp in Hin. unfold key_upd in HK.
        destruct (Z.eqb_spec r ref) as [->|Hnr]; [done |]. assert (r ∈ drefs t) as Hin' by set_solver.
        assert (entries K t !! k = Some r) as E2 by (by apply entries_lookup). congruence.
Qed.

(** C9: A table of an archive is a map from keys to pages.  A lookup returns the
    page of the key, or that there is none; adding a key that is not in the table
    inserts it and keeps every other entry, also when its slot is taken and a
    page has to be added, provided the buffer has room for that page; nothing
    else of the archive changes.  Keys whose hash number is 0 are excluded. *)
Theorem shz_table_refines (tb : table) (N : Z) (z : shz_t) (t : dtree) (K : Z -> shkey_t) (id : shkey_t) (ref : Z) :
  full N z -> table_inv tb z N t K -> valid_key id -> hash_num id <> 0 ->
  (exists z', shz_tree_get E tb id z =
      Done (z', match entries K t !! id with Some r => (0, r) | None => (SHERR_NOENT, 0) end) /\
    full N z' /\ table_inv tb z' N t K /\ forall b, pg z' b = pg z b) /\
  (entries K t !! id = None -> mod_key z N ref id -> ref ∉ dpages t -> ref ∉ drefs t ->
   N + 1 <= MAX_PAGES -> (N + 1) * 1024 < data_max (z_buff z) ->
   exists z' N' t', shz_tree_add E tb ref id z = Done (z', 0) /\ full N' z' /\ N <= N' <= N + 1 /\
     table_inv tb z' N' t' (key_upd K ref id) /\ entries (key_upd K ref id) t' = <[id := ref]> (entries K t) /\
     forall b, 0 < b < N -> b ∉ dpages t -> pg z' b = pg z b).
Proof.
  intros Hf Hinv Hid Hh. split.
  - destruct (tree_get_ok tb N z t K id Hf Hinv Hid Hh) as (z' & H1 & H2 & H3 & H4 & _). by exists z'.
  - intros Hnew Hmk Hrp Hrr HM Hroom. pose proof (a_N _ _ (proj1 Hf)) as HN. unfold MAX_PAGES in HN.
    destruct (tree_add_ok tb N z t id ref Hf (proj1 Hinv) Hh) as (z' & N' & E1 & F1 & B1 & T1 & K1 & _);
      [destruct Hmk; lia | done |].
    destruct (table_inv_add tb z N z' N' N t K id ref Hinv Hid Hh Hnew Hrr) as [I1 I2]; try done.
    + destruct Hmk; lia.
    + lia.
    + destruct Hmk; lia.
    + intros c Hc. destruct (proj1 (proj2 Hinv) c Hc) as ((Hr & _) & _ & Hnp & _). by apply (proj1 K1).
    + destruct Hmk as (Hr & Hm). split; [lia |]. by rewrite (proj1 K1).
    + exists z', N', (dadd (hash_side id) (hash_num id) ref N t). split_and!; try (done || lia). apply K1.
Qed.

(** ** Additions that fail *)

(** When the mapping is replaced while the page pointer is in use. *)
Lemma grow_child_stale tb path d N z p cl cr sl l r z1 x :
  full N z -> rep z N (DNode p sl l r) -> node_at (get_table tb z) path = TNode p cl cr -> child d (TNode p cl cr) = TNil ->
  (if d then r else l) = DNil -> shz_page_new E SHZ_PAGE_BRANCH z = Done (z1, Some x) -> z_gen z1 <> z_gen z ->
  grow_child E tb path d (at_page z p) z = Fault.
Proof.
  intros Hf Hr Hn Hc Hnil E1 Hroom. pose proof (link_of z N p sl l r d Hr) as Hlk. rewrite Hnil in Hlk.
  pose proof Hr as (Hp & _). assert (inside z p) as Hi by (apply (arch_inside N); [apply Hf | lia]).
  assert (side_off d + 4 <= 1024)%nat as Hso by (destruct d; cbn [side_off]; offs; lia).
  unfold grow_child. rewrite zget_step, Hn, Hc. cbn iota.
  zstep (ldn_ok (at_page z p) z p (side_off d) 4 eq_refl Hi Hso). rewrite Hlk. change (htonl (droot DNil)) with 0. cbn [Z.eqb].
  unfold zbind at 1 2. rewrite E1. destruct x as [blk bnum]. cbn beta iota. unfold stn, st, zbind at 1, zbind at 1, deref, at_page. cbn [p_gen].
  by destruct (Nat.eqb_spec (z_gen z) (z_gen z1)); [lia |].
Qed.

(** The walk for hash number 0 finds no slot on any page and goes on until the
    room is used up. *)
Lemma add_loop_zero tb d ref : forall fuel path N z t,
  t <> DNil -> full N z -> node_at (get_table tb z) path <> TNil -> cached (node_at (get_table tb z) path) t -> rep z N t ->
  NoDup (dpages t) -> data_max (z_buff z) < MAX_PAGES * 1024 -> add_loop E fuel tb path d 0 ref z = Fault.
Proof.
  induction fuel as [|fuel IH]; intros path N z t Ht Hf Hn0 Hc Hr Hnd Hdm.
  all: destruct (node_at (get_table tb z) path) as [|q cl cr] eqn:Hn; [done |].
  { cbn [add_loop]. by rewrite zget_step, Hn. }
  destruct t as [|p sl l r]; [done |]. assert (q = p) as -> by apply Hc.
  cbn [add_loop]. rewrite zget_step, Hn. cbn iota. unfold shz_tree_data. pose proof Hr as (Hp & _ & _ & _ & Rl & Rr).
  zstep (page_seen E N z p (proj1 Hf) ltac:(rewrite (proj2 Hf); lia)).
  change (shz_map_set (at_page z p) 0 ref) with (zret SHERR_INVAL). rewrite zret_step. cbn [Z.eqb SHERR_INVAL].
  assert (N * 1024 <= data_max (z_buff z)) as HN by (destruct Hf as [[] _]; lia).
  assert (NoDup (dpages (if d then r else l))) as Hnd'.
  { cbn [dpages] in Hnd. apply NoDup_cons in Hnd as [_ Hnd]. apply NoDup_app in Hnd as (? & _ & ?). by destruct d. }
  assert (rep z N (if d then r else l)) as Rd by (by destruct d).
  assert (cached (child d (TNode p cl cr)) (if d then r else l)) as Hcd by (destruct Hc as (_ & ? & ?); by destruct d).
  destruct (decide (child d (TNode p cl cr) = TNil)) as [Hcn|Hcn]; [destruct (decide ((if d then r else l) = DNil)) as [Hnil|Hnn] |].
  - destruct (page_new_ok E Hmenv N z SHZ_PAGE_BRANCH Hf ltac:(lia)) as (z0 & E0 & _).
    destruct (Nat.eq_dec (z_gen z0) (z_gen z)) as [Hroom|Hroom].
    + destruct (grow_child_new E Hcalloc Hmenv tb path d N z p cl cr sl l r Hf Hr Hnd Hn Hcn Hnil ltac:(lia)) as (z1 & E1 & F1 & _ & G1 & _ & D1 & R1).
      { intros z2 y E2. rewrite E0 in E2. by injection E2 as <- _. }
      zstep E1. cbn [Z.eqb negb].
      assert (node_at (get_table tb z1) (path ++ [d]) = TNode N TNil TNil) as Hn1 by (rewrite G1; by apply (put_child _ _ _ _ p cl cr)).
      apply (IH (path ++ [d]) (N + 1) z1 (DNode N blank_slots DNil DNil)); try done.
      * by rewrite Hn1.
      * by rewrite Hn1.
      * destruct d; apply R1.
      * apply NoDup_singleton.
      * by rewrite D1.
    + unfold zbind. by rewrite (grow_child_stale tb path d N z p cl cr sl l r z0 _ Hf Hr Hn Hcn Hnil E0 Hroom).
  - zstep (grow_child_stored E Hcalloc tb path d N z p cl cr sl l r Hf Hr Hn Hcn Hnn). cbn [Z.eqb negb].
    set (x := TNode _ TNil TNil). assert (tree_below N x) as Hx.
    { unfold x. destruct (if d then r else l); [done |]. destruct Rd. cbn [tree_below droot]. lia. }
    apply (IH (path ++ [d]) N _ (if d then r else l)); try done.
    + apply full_set_table; [done |]. apply tree_below_put; [apply (arch_below tb), Hf | done].
    + rewrite get_set_table. by rewrite (put_child _ _ _ _ p cl cr).
    + rewrite get_set_table. rewrite (put_child _ _ _ _ p cl cr) by done. unfold x. destruct (if d then r else l); [done |]. by split_and!.
    + apply (rep_frame z _ N N); [lia | | done]. intros c _. apply set_table_pg.
    + by rewrite set_table_buff.
  - zstep (grow_child_cached E tb path d (at_page z p) z p cl cr Hn Hcn). cbn [Z.eqb negb].
    apply (IH (path ++ [d]) N z (if d then r else l)); rewrite ?node_at_app, ?Hn; try done.
    intros Hd. rewrite Hd in Hcd. by destruct (child d (TNode p cl cr)).
Qed.

(** One key in 240 cannot be added to a table: for hash number 0 no page has
    a slot, so the walk links page after page, on one side of the tree, until the
    buffer is replaced, and then uses a pointer into the old one.  It never
    returns a result, whatever the table holds. *)
Theorem shz_tree_add_hash_zero (tb : table) (N : Z) (z : shz_t) (t : dtree) (id : shkey_t) (ref : Z) :
  full N z -> tab_ok tb z N t -> data_max (z_buff z) < MAX_PAGES * 1024 -> hash_num id = 0 ->
  shz_tree_add E tb ref id z = Fault.
Proof.
  intros Hf (Ht & Hg & Hc & Hr & Hnd) Hdm Hh. unfold shz_tree_add. rewrite Hh.
  pose proof (add_loop_zero tb (hash_side id) ref (walk_fuel z) [] N z t Ht Hf Hg Hc Hr Hnd Hdm). by destruct (get_table tb z).
Qed.
End tables.
