(* ===== verification/ShShzFile.v ===== *)
(** * Archives: files

    Models the files of an archive, the last part of
    [share-lib/mem/shmem_shz.c]: a file is a page with its key, size and
    checksum, the page of its name and the index of its data; the file table
    finds it by the key of its name.

    The lemmas show that [shz_arch_fopen] makes a new file an archive of three
    pages with two empty tables; [ShShzArchive] has the theorems on files. *)

From Stdlib Require Import ZArith Lia String.
From stdpp Require Import base numbers list sets gmap.
From S2P Require Import Prelude ShCrc ShKey ShBuf ShShz ShShzData ShShzIndex ShShzTree.

Open Scope Z_scope.
Open Scope share_scope.

Definition PATH_MAX : Z := 4096.

Definition _shz_type_label : list (Z * bytes) :=
  [ (SHZ_PAGE_NONE, cstr "none"); (SHZ_PAGE_ROOT, cstr "root"); (SHZ_PAGE_BRANCH, cstr "branch"); (SHZ_PAGE_DATA, cstr "data");
    (SHZ_PAGE_RAW, cstr "raw"); (SHZ_PAGE_INDEX, cstr "index"); (SHZ_PAGE_ZLIB, cstr "zlib"); (SHZ_PAGE_ZLIB_DATA, cstr "zlib-data");
    (SHZ_PAGE_DIR, cstr "dir"); (SHZ_PAGE_FILE, cstr "file"); (SHZ_PAGE_BASE, cstr "base") ].

Definition shz_type_label (type : Z) : bytes :=
  if (0 <=? type) && (type <? MAX_SHZ_PAGE_MODES) then
    match List.find (fun e => fst e =? type) _shz_type_label with Some e => snd e | None => cstr "n/a" end
  else cstr "n/a".

Section operations.
Context (E : env) {zl : zlib}.

(** The times and the kind of an entry; [shutime] converts a time stamp. *)
Definition mod_time (off : nat) (shutime : Z -> Z) (bnum : Z) : M Z :=
  r <~ shz_page E bnum;
  match r with
  | None => zret SHERR_INVAL
  | Some md =>
      type <~ shz_page_type md;
      if is_shz_mod_type type then v <~ ldn md off 8; zret (shutime v) else zret SHERR_INVAL
  end.
Definition shz_mod_ctime (shutime : Z -> Z) (bnum : Z) : M Z := mod_time mod_ctime shutime bnum.
Definition shz_mod_mtime (shutime : Z -> Z) (bnum : Z) : M Z := mod_time mod_mtime shutime bnum.
Definition shz_mod_label (bnum : Z) : M (option bytes) :=
  r <~ shz_page E bnum;
  match r with
  | None => zret None
  | Some md => type <~ shz_page_type md; if is_shz_mod_type type then zret (Some (shz_type_label type)) else zret None
  end.
Definition shz_uctime (shutime : Z -> Z) : M Z := t <~ shz_ctime; zret (shutime t).
Definition shz_umtime (shutime : Z -> Z) : M Z := t <~ shz_mtime; zret (shutime t).

(** [strncpy(filename, shbuf_data(buff), max_len)]: the name ends at the first
    NUL; a buffer without one is read beyond its end. *)
Definition shz_filename (mod_bnum max_len : Z) : M (Z * bytes) :=
  r <~ shz_page E mod_bnum;
  match r with
  | None => zret (SHERR_INVAL, [])
  | Some md =>
      v <~ ldn md mod_name 4;
      r <~ shz_raw_read E (htonl v) shbuf_init;
      let '(err, buff) := r in
      if negb (err =? 0) then zret (err, [])
      else match data buff with
           | None => zfault
           | Some d =>
               if (Z.of_nat (length d) <? max_len) && bool_decide (cstring d = d) then zfault
               else zret (0, take (Z.to_nat max_len) (cstring d))
           end
  end.

(** The writer and the reader the flags of the archive select. *)
Definition shz_write_f (fl : Z) : bytes -> M (Z * option Z) :=
  if has_flag fl SHZ_RAW then shz_raw_write E else shz_zlib_write E.
Definition shz_read_f (fl : Z) : Z -> shbuf_t -> M (Z * shbuf_t) :=
  if has_flag fl SHZ_RAW then shz_raw_read E else shz_zlib_read E.

(** [junk_bnum] is the value of an uninitialised variable, [now] the time. *)
Definition shz_mod_write (mod_bnum : Z) (content : bytes) (junk_bnum now : Z) : M Z :=
  fl <~ zget z_flags;
  r <~ shz_index_write E (shz_write_f fl) content junk_bnum;
  let '(err, bnum) := r in
  if negb (err =? 0) then zret err
  else
    r <~ shz_page E mod_bnum;
    match r with
    | None => zret SHERR_IO
    | Some md =>
        _ <~ stn md mod_seq 4 (htonl bnum);
        _ <~ stn md mod_size 4 (htonl (u32 (Z.of_nat (length content))));
        _ <~ stn md mod_crc 4 (shcrc32 content);
        _ <~ stn md mod_mtime 8 now;
        _ <~ stn md mod_ctime 8 now;
        _ <~ shz_page_size_set md sizeof_mod;
        _ <~ shz_crc_set md;
        zret 0
    end.

Definition shz_mod_read (md : ptr) (buff : shbuf_t) : M (Z * shbuf_t) :=
  v <~ ldn md mod_seq 4;
  let bnum := htonl v in
  err <~ shz_alloc E (u32 (u32 (bnum * SHZ_PAGE_SIZE) + SHZ_PAGE_SIZE));
  if negb (err =? 0) then zret (err, buff)
  else
    fl <~ zget z_flags;
    shz_index_read E (shz_read_f fl) buff bnum.

(** The result is the error and the page of the file; [junk_bidx] is the value
    of the uninitialised [bidx], which an existing file is given. *)
Definition shz_entity_get (filename : bytes) (page_type junk_bidx : Z) : M (Z * Z) :=
  r <~ shz_ftable_get E filename;
  let '(err, _) := r in
  if err =? 0 then zret (0, junk_bidx)
  else
    r <~ shz_page_new E page_type;
    match r with
    | None => zret (SHERR_IO, junk_bidx)
    | Some (_, bidx) =>
        r <~ shz_raw_write E filename;
        let '(_, name_bidx) := r in
        err <~ shz_ftable_set E filename bidx;
        if negb (err =? 0) then zret (err, bidx)
        else
          r <~ shz_page E bidx;
          match r with
          | None => zfault
          | Some file =>
              _ <~ stn file mod_name 4 (htonl (match name_bidx with Some n => n | None => junk_bidx end));
              _ <~ st file mod_id (shkey_image (shkey_bin (Some filename)));
              _ <~ shz_crc_set file;
              zret (0, bidx)
          end
    end.
Definition shz_file_get (filename : bytes) (junk_bidx : Z) : M (Z * Z) := shz_entity_get filename SHZ_PAGE_FILE junk_bidx.
Definition shz_dir_get (dirname : bytes) (junk_bidx : Z) : M (Z * Z) := shz_entity_get dirname SHZ_PAGE_DIR junk_bidx.

Definition shz_file_append : M Z := zret SHERR_OPNOTSUPP.

Definition shz_file_write (filename content : bytes) (junk_bidx junk_bnum now : Z) : M Z :=
  r <~ shz_file_get filename junk_bidx;
  let '(err, bidx) := r in
  if negb (err =? 0) then zret err
  else
    err <~ shz_mod_write bidx content junk_bnum now;
    if negb (err =? 0) then zret err else zret 0.

Definition shz_file_read (filename : bytes) (buff : shbuf_t) : M (Z * shbuf_t) :=
  r <~ shz_tree_get E FTable (shkey_bin (Some filename));
  let '(err, bidx) := r in
  if negb (err =? 0) then zret (err, buff)
  else
    r <~ shz_page E bidx;
    match r with
    | None => zret (SHERR_IO, buff)
    | Some file =>
        v <~ ldn file mod_seq 4;
        r <~ shz_data_read E (htonl v) buff;
        let '(err, buff) := r in
        if negb (err =? 0) then zret (err, buff)
        else
          size <~ ldn file mod_size 4;
          if negb (htonl size =? data_of buff) then zret (SHERR_INVAL, buff)
          else
            crc <~ ldn file mod_crc 4;
            if shcrc32 (contents buff) =? crc then zret (0, buff) else zret (SHERR_ILSEQ, buff)
    end.

(** [content] is what [shfs_mem_read] reads, or its error; a leading slash of the
    name is dropped unless the archive keeps absolute names. *)
Definition shz_file_add (filename : bytes) (content : Z + bytes) (junk_bidx junk_bnum now : Z) : M Z :=
  match content with
  | inl err => zret err
  | inr content =>
      fl <~ zget z_flags;
      let filename :=
        if has_flag fl SHZ_ABSOLUTE then filename
        else match filename with c :: rest => if c =? 47 then rest else filename | [] => [] end in
      shz_file_write filename content junk_bidx junk_bnum now
  end.

(** ** Listing *)

(** [fnmatch] of the pattern, and what the callback returns for a file, its path
    and its content. *)
Context (fnmatch : bytes -> bytes -> bool) (op : Z -> bytes -> bytes -> Z).

Definition list_call : Type := Z * bytes * bytes.

(** One slot of a map page.  The result is the error and the call made. *)
Definition list_slot (path : list side) (rel_path : bytes) (fspec : option bytes) (hnum : Z) : M (Z * list list_call) :=
  t <~ zget z_ftable;
  match node_at t path with
  | TNil => zret (SHERR_IO, [])
  | TNode seq _ _ =>
      r <~ shz_tree_data E seq;
      match r with
      | None => zret (SHERR_IO, [])
      | Some map =>
          v <~ ldn map (seg_off hnum) 4;
          if v =? 0 then zret (0, [])
          else
            let bnum := htonl v in
            r <~ shz_filename bnum PATH_MAX;
            let '(err, filename) := r in
            if negb (err =? 0) then zret (err, [])
            else
              r <~ shz_page E bnum;
              match r with
              | None => zret (SHERR_IO, [])
              | Some md =>
                  if match filename with [] => true | _ => false end then zret (0, [])
                  else if match fspec with Some p => negb (fnmatch p filename) | None => false end then zret (0, [])
                  else
                    r <~ shz_mod_read md shbuf_init;
                    let '(err, buff) := r in
                    if negb (err =? 0) then zret (err, [])
                    else
                      r <~ shz_page E bnum;
                      match r with
                      | None => zret (SHERR_IO, [])
                      | Some md =>
                          size <~ ldn md mod_size 4;
                          if negb (htonl size =? data_of buff) then zret (SHERR_INVAL, [])
                          else
                            crc <~ ldn md mod_crc 4;
                            if negb (shcrc32 (contents buff) =? crc) then zret (SHERR_ILSEQ, [])
                            else if PATH_MAX <? Z.of_nat (length rel_path) + 1 + Z.of_nat (length filename) then zfault
                            else
                              let p := rel_path ++ 47 :: filename in
                              zret (op bnum p (contents buff), [(bnum, p, contents buff)])
                      end
              end
      end
  end.

(** [for (hnum = 0; hnum < SHZ_HASH_MASK; hnum++)]. *)
Fixpoint list_slots (n : nat) (path : list side) (rel_path : bytes) (fspec : option bytes) (hnum : Z) : M (Z * list list_call) :=
  match n with
  | O => zret (0, [])
  | S n' =>
      r <~ list_slot path rel_path fspec hnum;
      let '(err, calls) := r in
      if negb (err =? 0) then zret (err, calls)
      else
        r <~ list_slots n' path rel_path fspec (hnum + 1);
        let '(err, calls') := r in
        zret (err, calls ++ calls')
  end.

Fixpoint shz_list_r (fuel : nat) (path : list side) (rel_path : bytes) (fspec : option bytes) : M (Z * list list_call) :=
  match fuel with
  | O => zfault
  | S fuel' =>
      err <~ shz_map_load E FTable path;
      if negb (err =? 0) then zret (err, [])
      else
        let sub d :=
          t <~ zget z_ftable;
          match child d (node_at t path) with
          | TNil => zret (0, [])
          | _ => shz_list_r fuel' (path ++ [d]) rel_path fspec
          end in
        r <~ sub false;
        let '(err, calls1) := r in
        if negb (err =? 0) then zret (err, calls1)
        else
          r <~ sub true;
          let '(err, calls2) := r in
          if negb (err =? 0) then zret (err, calls1 ++ calls2)
          else
            r <~ list_slots (Z.to_nat SHZ_HASH_MASK) path rel_path fspec 0;
            let '(err, calls3) := r in
            zret (err, calls1 ++ calls2 ++ calls3)
  end.

(** The path loses a trailing slash; [cwd] is the working directory, used when
    there is no path. *)
Definition list_dir (cwd : bytes) (rel_path : option bytes) : bytes :=
  let pwd := match rel_path with None => cwd | Some p => take (Z.to_nat PATH_MAX) p end in
  match last pwd with Some 47 => removelast pwd | _ => pwd end.
Definition shz_list (cwd : bytes) (rel_path : option bytes) (fspec : option bytes) : M (Z * list list_call) := fun z =>
  shz_list_r (walk_fuel z) [] (list_dir cwd rel_path) fspec z.

End operations.

(** The callback of an extraction; [shfs_mem_write] writes the content to the
    path and returns an error. *)
Definition shz_list_write (shfs_mem_write : bytes -> bytes -> Z) : Z -> bytes -> bytes -> Z := fun _ f_path content => shfs_mem_write f_path content.

Section extraction.
Context (E : env) {zl : zlib} (fnmatch : bytes -> bytes -> bool) (shfs_mem_write : bytes -> bytes -> Z).

Definition shz_file_extract (cwd : bytes) (rel_path fspec : option bytes) : M (Z * list list_call) :=
  shz_list E fnmatch (shz_list_write shfs_mem_write) cwd rel_path fspec.
Definition shz_extract (cwd : bytes) (fspec : option bytes) : M (Z * list list_call) := shz_file_extract cwd None fspec.
End extraction.

(** ** A fresh archive *)

Section fresh.
Context (E : env) (Hcalloc : forall n, calloc_ok E n = true) (Hmenv : mapped_env E).

(** The mapping of a new file: two blocks of zeros, and 64 pages after the
    first allocation.  The file has [m] zero bytes. *)
Definition new_map (fdn : Z) : shbuf_t := mk_buf (Some (replicate (Z.to_nat 16384) 0)) 16384 16384 0 SHBUF_FMAP fdn.
Definition first_alloc (fdn : Z) (m : nat) : shz_t :=
  mk_shz 0 0 (mk_buf (Some (replicate (Z.to_nat 65536) 0)) 65536 65536 0 SHBUF_FMAP fdn) (replicate m 0) 1 TNil TNil.

Lemma page_divides n : (SHARE_PAGE_SIZE | n) -> 0 < n -> page_size E <= n /\ n mod page_size E = 0.
Proof.
  intros Hd Hn. destruct Hmenv as [Hp Hdiv _ _]. assert (page_size E | n) as H by (by etrans).
  split; [by apply Z.divide_pos_le | by apply Z.mod_divide; [lia |]].
Qed.

Lemma new_file_ok fdn : 0 < fdn -> exists m, shbuf_file E fdn [] = Done (Some (new_map fdn), replicate m 0).
Proof.
  intros Hfd. unfold shbuf_file. destruct (Z.eqb_spec fdn (-1)); [lia |].
  change (SHARE_PAGE_SIZE * _) with 16384. destruct (page_divides 16384) as [H1 H2]; [by exists 2 | done |].
  destruct (growmap_file_ok E (mk_buf None 0 0 0 0 fdn) [] 16384) as (k & Hk & ->); try (done || apply Hmenv).
  exists k. cbn [obind Z.eqb length app] in *. rewrite take_replicate, Nat.min_l by lia. done.
Qed.

Lemma first_alloc_ok fdn m :
  0 < fdn -> exists m', shz_alloc E (Z.max (u32 (0 * SHZ_PAGE_SIZE)) SHZ_ALLOC_SIZE) (mk_shz 0 0 (new_map fdn) (replicate m 0) 0 TNil TNil) =
    Done (first_alloc fdn m', 0).
Proof.
  intros Hfd. destruct (page_divides 65536) as [H1 H2]; [by exists 8 | done |].
  change (Z.max (u32 (0 * SHZ_PAGE_SIZE)) SHZ_ALLOC_SIZE) with 65536. unfold shz_alloc, alloc_with.
  change (u64 ((u64 (65536 - 1) / SHZ_ALLOC_SIZE + 1) * SHZ_ALLOC_SIZE)) with 65536.
  set (z0 := mk_shz 0 0 (new_map fdn) (replicate m 0) 0 TNil TNil). change (65536 <? shz_avail z0) with false. cbn iota.
  set (now := replicate (Z.to_nat 16384) 0 ++ drop (length (replicate (Z.to_nat 16384) 0)) (replicate m 0)).
  assert (exists n, now = replicate n 0) as [n Hn].
  { exists (Z.to_nat 16384 + (m - Z.to_nat 16384))%nat. unfold now. rewrite length_replicate, drop_replicate. by rewrite replicate_add. }
  destruct (growmap_file_ok E (new_map fdn) now 65536) as (k & Hk & Eg); try (done || apply Hmenv).
  rewrite Hn, length_replicate in Hk. rewrite Hn, <- replicate_add, take_replicate, Nat.min_l in Eg by lia.
  exists (n + k)%nat.
  assert (grow_buff E 65536 z0 = Done (first_alloc fdn (n + k), 0)) as E1.
  { unfold grow_buff. change (z_buff z0) with (new_map fdn). change (fd (new_map fdn)) with fdn.
    destruct (Z.ltb_spec 0 fdn); [|lia]. change (data (new_map fdn)) with (Some (replicate (Z.to_nat 16384) 0)). cbn iota.
    change (z_file z0) with (replicate m 0). fold now. rewrite Hn. by rewrite Eg. }
  zstep E1. rewrite zget_step. change (reset_table _ (z_dtable (first_alloc fdn (n + k))) base_dtable) with (@zret unit tt).
  rewrite zret_step, zget_step. change (reset_table _ (z_ftable (first_alloc fdn (n + k))) base_ftable) with (@zret unit tt).
  rewrite zret_step, zget_step. done.
Qed.

(** The base page of a fresh archive. *)
Definition fresh_page (rand now : Z) : bytes :=
  let P := fput (replicate 1024 0) base_size 8 (htonll 1024) in
  let P := set_type (fput P hdr_magic 2 SHMEM16_MAGIC) SHZ_PAGE_BASE in
  let P := fput P hdr_magic 2 SHMEM16_MAGIC in
  let P := fput P base_salt 2 (htons (u16 (rand mod 65535))) in
  let P := fput P base_size 8 (htonll 1024) in
  let P := fput P base_zsize 8 (htonll 0) in
  let P := fput P base_mtime 8 now in
  let P := fput P base_ctime 8 now in
  set_size P sizeof_base.

Lemma length_fresh_page rand now : length (fresh_page rand now) = 1024%nat.
Proof. unfold fresh_page. plen. Qed.

Lemma dat_first_alloc fdn m : dat (first_alloc fdn m) = replicate (Z.to_nat 65536) 0.
Proof. done. Qed.

Lemma pg_first_alloc fdn m n b : 0 <= b < 64 -> pg (set_bseq n (first_alloc fdn m)) b = replicate 1024 0.
Proof.
  intros Hb. unfold pg. change (dat (set_bseq n (first_alloc fdn m))) with (replicate (Z.to_nat 65536) 0).
  unfold slice. rewrite drop_replicate, take_replicate. f_equal. lia.
Qed.

Lemma inside_first_alloc fdn m n b : 0 <= b < 64 -> inside (set_bseq n (first_alloc fdn m)) b.
Proof.
  intros Hb. split_and!; [done | lia |]. change (dat (set_bseq n (first_alloc fdn m))) with (replicate (Z.to_nat 65536) 0).
  rewrite length_replicate. lia.
Qed.

Lemma fresh_base_ok fdn m rand now :
  fresh_base E rand now (first_alloc fdn m) = Done (set_pg 0 (fresh_page rand now) (set_bseq 1 (first_alloc fdn m)), tt).
Proof.
  unfold fresh_base. rewrite zset_step. set (z0 := first_alloc fdn m). set (z1 := set_bseq 1 z0).
  assert (inside z1 0) as Hi by (apply inside_first_alloc; lia). assert (pg z1 0 = replicate 1024 0) as Hp by (apply pg_first_alloc; lia).
  set (P0 := fput (replicate 1024 0) base_size 8 (htonll 1024)). assert (length P0 = 1024%nat) as H0 by (unfold P0; plen).
  set (P1 := set_type (fput P0 hdr_magic 2 SHMEM16_MAGIC) SHZ_PAGE_BASE). assert (length P1 = 1024%nat) as H1 by (unfold P1; plen).
  assert (shz_page_new E SHZ_PAGE_BASE (set_bseq 0 z0) = Done (set_pg 0 P1 z1, Some (at_page z1 0, 0))) as En.
  { unfold shz_page_new. rewrite !zget_step. change (shz_avail (set_bseq 0 z0) <=? SHZ_PAGE_SIZE) with false. cbn iota.
    rewrite zret_step. cbn [Z.eqb negb]. rewrite zget_step, zset_step. change (set_bseq (u32 (z_bseq (set_bseq 0 z0) + 1)) (set_bseq 0 z0)) with z1.
    assert (shz_size_incr SHZ_PAGE_SIZE z1 = Done (set_pg 0 P0 z1, tt)) as Es.
    { unfold shz_size_incr, size_incr. zstep (base_get_ok z1 base_size 8 Hi ltac:(olia)). rewrite base_set_ok by (done || olia).
      rewrite Hp. do 4 f_equal. }
    zstep Es. change (z_bseq (set_bseq 0 z0)) with 0.
    change (shz_page E 0) with (fun z => page_loop E (page_fuel z) 0 z). unfold zbind at 1.
    change (page_loop E (page_fuel (set_pg 0 P0 z1)) 0 (set_pg 0 P0 z1)) with (Done (set_pg 0 P0 z1, Some (at_page z1 0))).
    cbn beta iota. zstep (stn_at Hi H0 hdr_magic 2 SHMEM16_MAGIC ltac:(olia)).
    assert (length (fput P0 hdr_magic 2 SHMEM16_MAGIC) = 1024%nat) as H0' by plen.
    unfold shz_page_type_set. by zstep (stn_at Hi H0' hdr_type 2 (htons (u16 SHZ_PAGE_BASE)) ltac:(olia)). }
  zstep En. cbn beta iota.
  zstep (stn_at Hi H1 hdr_magic 2 SHMEM16_MAGIC ltac:(olia)).
  set (P2 := fput P1 hdr_magic 2 SHMEM16_MAGIC). assert (length P2 = 1024%nat) as H2 by (unfold P2; plen).
  zstep (stn_at Hi H2 base_salt 2 (htons (u16 (rand mod 65535))) ltac:(olia)).
  set (P3 := fput P2 base_salt 2 (htons (u16 (rand mod 65535)))). assert (length P3 = 1024%nat) as H3 by (unfold P3; plen).
  zstep (stn_at Hi H3 base_size 8 (htonll SHZ_PAGE_SIZE) ltac:(olia)). change SHZ_PAGE_SIZE with 1024.
  set (P4 := fput P3 base_size 8 (htonll 1024)). assert (length P4 = 1024%nat) as H4 by (unfold P4; plen).
  zstep (stn_at Hi H4 base_zsize 8 (htonll 0) ltac:(olia)).
  set (P5 := fput P4 base_zsize 8 (htonll 0)). assert (length P5 = 1024%nat) as H5 by (unfold P5; plen).
  zstep (stn_at Hi H5 base_mtime 8 now ltac:(olia)).
  set (P6 := fput P5 base_mtime 8 now). assert (length P6 = 1024%nat) as H6 by (unfold P6; plen).
  zstep (stn_at Hi H6 base_ctime 8 now ltac:(olia)).
  set (P7 := fput P6 base_ctime 8 now). assert (length P7 = 1024%nat) as H7 by (unfold P7; plen).
  by zstep (size_set_at Hi H7 sizeof_base ltac:(offs; lia)).
Qed.

Lemma fresh_fields rand now :
  fget (fresh_page rand now) base_size 8 = htonll 1024 /\ fget (fresh_page rand now) base_dtable 4 = 0 /\
  fget (fresh_page rand now) base_ftable 4 = 0 /\ fget (fresh_page rand now) hdr_magic 2 = SHMEM16_MAGIC.
Proof.
  unfold fresh_page. set (P1 := fput (replicate 1024 0) base_size 8 (htonll 1024)). assert (length P1 = 1024%nat) as H1 by (unfold P1; plen).
  set (P2 := set_type (fput P1 hdr_magic 2 SHMEM16_MAGIC) SHZ_PAGE_BASE). assert (length P2 = 1024%nat) as H2 by (unfold P2; plen).
  set (P3 := fput P2 hdr_magic 2 SHMEM16_MAGIC). assert (length P3 = 1024%nat) as H3 by (unfold P3; plen).
  set (P4 := fput P3 base_salt 2 _). assert (length P4 = 1024%nat) as H4 by (unfold P4; plen).
  set (P5 := fput P4 base_size 8 (htonll 1024)). assert (length P5 = 1024%nat) as H5 by (unfold P5; plen).
  set (P6 := fput P5 base_zsize 8 (htonll 0)). assert (length P6 = 1024%nat) as H6 by (unfold P6; plen).
  set (P7 := fput P6 base_mtime 8 now). assert (length P7 = 1024%nat) as H7 by (unfold P7; plen).
  set (P8 := fput P7 base_ctime 8 now). assert (length P8 = 1024%nat) as H8 by (unfold P8; plen).
  assert (forall o n, (16 <= o)%nat -> (o + n <= 24)%nat \/ (56 <= o)%nat -> fget (set_size P8 sizeof_base) o n = fget P5 o n) as Hf.
  { intros o n Ho Hn. unfold set_size. rewrite fget_fput_other by (rewrite ?H8; offs; lia).
    unfold P8. rewrite fget_fput_other by (rewrite ?H7; offs; lia). unfold P7. rewrite fget_fput_other by (rewrite ?H6; offs; lia).
    unfold P6. rewrite fget_fput_other by (rewrite ?H5; offs; lia). done. }
  assert (forall o n, (56 <= o)%nat -> (o + n <= 1024)%nat -> fget P5 o n = 0) as Hz.
  { intros o n Ho Hn. unfold P5. rewrite fget_fput_other by (rewrite ?H4; offs; lia). unfold P4. rewrite fget_fput_other by (rewrite ?H3; offs; lia).
    unfold P3. rewrite fget_fput_other by (rewrite ?H2; offs; lia). unfold P2, set_type.
    rewrite fget_fput_other by (rewrite ?length_fput; rewrite ?H1; offs; lia). rewrite fget_fput_other by (rewrite ?H1; offs; lia).
    unfold P1. rewrite fget_fput_other by (rewrite ?length_replicate; offs; lia).
    apply fget_zero. unfold slice. rewrite drop_replicate, take_replicate. f_equal. lia. }
  split_and!.
  - rewrite Hf by (offs; lia). unfold P5. apply fget_fput_same; [rewrite H4; offs; lia |]. vm_compute. by split.
  - rewrite Hf, Hz by (offs; lia). done.
  - rewrite Hf, Hz by (offs; lia). done.
  - unfold set_size. rewrite fget_fput_other by (rewrite ?H8; offs; lia).
    unfold P8. rewrite fget_fput_other by (rewrite ?H7; offs; lia). unfold P7. rewrite fget_fput_other by (rewrite ?H6; offs; lia).
    unfold P6. rewrite fget_fput_other by (rewrite ?H5; offs; lia). unfold P5. rewrite fget_fput_other by (rewrite ?H4; offs; lia).
    unfold P4. rewrite fget_fput_other by (rewrite ?H3; offs; lia). unfold P3. apply fget_fput_same; [rewrite H2; offs; lia |]. vm_compute. by split.
Qed.

Lemma fresh_full fdn m rand now : 0 < fdn -> full 1 (set_pg 0 (fresh_page rand now) (set_bseq 1 (first_alloc fdn m))).
Proof.
  intros Hfd. set (z0 := set_bseq 1 (first_alloc fdn m)). pose proof (inside_first_alloc fdn m 1 0 ltac:(lia)) as Hi.
  pose proof (length_fresh_page rand now) as HP. destruct (fresh_fields rand now) as (F1 & _).
  assert (dat (set_pg 0 (fresh_page rand now) z0) = splice (replicate (Z.to_nat 65536) 0) (Z.to_nat (0 * 1024)) (fresh_page rand now)) as Ed by done.
  assert (length (dat (set_pg 0 (fresh_page rand now) z0)) = Z.to_nat 65536) as El.
  { rewrite Ed, length_splice; rewrite length_replicate; [done | lia]. }
  split; [|reflexivity]. split.
  - reflexivity.
  - rewrite El. reflexivity.
  - cbn. lia.
  - exact Hfd.
  - rewrite El. exists (m - Z.to_nat 65536)%nat. apply drop_replicate.
  - unfold MAX_PAGES. lia.
  - cbn. unfold INT_MAX. lia.
  - cbn. lia.
  - rewrite (pg_set_same z0 0) by assumption. exact F1.
  - split; exact I.
  - rewrite El, Ed. unfold splice. change (Z.to_nat (0 * 1024)) with 0%nat. rewrite take_0, app_nil_l, drop_app_ge by lia.
    rewrite drop_drop, drop_replicate. f_equal.
Qed.

(** A table of an archive that has none yet. *)
Lemma root_init_ok tb N z :
  full N z -> N + 1 <= MAX_PAGES -> fget (pg z 0) (table_off tb) 4 = 0 ->
  exists z', table_init E tb z = Done (z', tt) /\ full (N + 1) z' /\
    (forall c, 0 < c < N -> pg z' c = pg z c) /\ z_salt z' = z_salt z /\ z_flags z' = z_flags z /\
    fget (pg z' 0) hdr_magic 2 = fget (pg z 0) hdr_magic 2 /\
    (forall tb', tb' <> tb -> get_table tb' z' = get_table tb' z /\ fget (pg z' 0) (table_off tb') 4 = fget (pg z 0) (table_off tb') 4) /\
    fget (pg z' 0) (table_off tb) 4 = htonl N /\
    tab_ok tb z' (N + 1) (DNode N blank_slots DNil DNil) /\
    ((N + 1) * 1024 < data_max (z_buff z) -> data_max (z_buff z') = data_max (z_buff z)).
Proof.
  intros Hf HM Hv. unfold table_init. rewrite zset_step.
  assert (full N (set_table tb TNil z)) as F0 by (by apply full_set_table). set (z0 := set_table tb TNil z) in *.
  pose proof (a_N _ _ (proj1 Hf)) as HN.
  assert (inside z0 0) as Hi by (apply (arch_inside N); [apply F0 | lia]).
  assert (table_off tb + 4 <= 1024 /\ 56 <= table_off tb)%nat as Ho by (destruct tb; cbn [table_off]; offs; lia).
  zstep (base_get_ok z0 (table_off tb) 4 Hi ltac:(lia)). unfold z0 at 1. rewrite set_table_pg, Hv. cbn [Z.eqb]. rewrite zret_step.
  destruct (page_new_ok E Hmenv N z0 SHZ_PAGE_ROOT F0 HM) as (z1 & E1 & F1 & P1 & K1 & T1 & R1 & _).
  assert (inside z1 0) as Hi1 by (apply (arch_inside (N + 1)); [apply F1 | lia]).
  destruct (arch_set_base (N + 1) z1 (table_off tb) 4 (htonl N) (proj1 F1)) as (A2 & C2 & Q2); [lia | lia |].
  set (z2 := set_pg 0 _ z1) in *.
  assert (inside z2 N /\ inside z2 0) as [HiN Hi2] by (split; (apply (arch_inside (N + 1)); [done | lia])).
  assert (pg z2 N = new_page SHZ_PAGE_ROOT) as P2 by (rewrite C2 by lia; done).
  set (P3 := set_crc (z_salt z2) (set_size (new_page SHZ_PAGE_ROOT) sizeof_map)). assert (length P3 = 1024%nat) as H3 by (unfold P3; plen).
  set (z3 := set_pg N P3 z2).
  assert ((r <~ shz_page_new E SHZ_PAGE_ROOT;
           match r with
           | None => zret None
           | Some (blk, bnum) =>
               _ <~ base_set (table_off tb) 4 (htonl bnum);
               _ <~ shz_page_size_set blk sizeof_map; _ <~ shz_crc_set blk; zret (Some bnum)
           end) z0 = Done (z3, Some N)) as E3.
  { zstep E1. cbn beta iota. zstep (base_set_ok z1 (table_off tb) 4 (htonl N) Hi1 ltac:(lia)). fold z2.
    change (at_page z1 N) with (at_page z2 N).
    zstep (@page_size_set_ok (at_page z2 N) z2 N eq_refl HiN sizeof_map ltac:(offs; lia)). rewrite P2.
    zstep (crc_set_at HiN (P := set_size (new_page SHZ_PAGE_ROOT) sizeof_map) ltac:(plen) Hi2 ltac:(lia)). done. }
  zstep E3. cbn beta iota. unfold zset, shz_tree_new. rewrite (node_ok_true E Hcalloc).
  assert (pg z3 N = P3) as PN by (by apply pg_set_same).
  assert (forall c, 0 <= c -> c <> N -> pg z3 c = pg z2 c) as C3 by (intros c Hc Hne; by apply pg_set_other).
  assert (full (N + 1) z3) as F3 by (split; [apply arch_set_pg; (done || lia) | apply F1]).
  exists (set_table tb (TNode N TNil TNil) z3). split_and!.
  - done.
  - apply full_set_table; [done |]. cbn [tree_below]. lia.
  - intros c Hc. rewrite set_table_pg, C3, C2 by lia. rewrite (k_pg _ _ _ K1) by lia. apply set_table_pg.
  - unfold z_salt. rewrite set_table_pg, C3 by lia. rewrite Q2 by (offs; lia). pose proof (k_salt _ _ _ K1) as Ks. unfold z_salt in Ks.
    rewrite Ks. unfold z0. by rewrite set_table_pg.
  - transitivity (z_flags z1); [by destruct tb |]. rewrite (k_flags _ _ _ K1). by destruct tb.
  - rewrite set_table_pg, C3 by lia. rewrite Q2 by (destruct tb; cbn [table_off]; offs; lia). rewrite (k_magic _ _ _ K1).
    unfold z0. by rewrite set_table_pg.
  - intros tb' Hne. rewrite get_set_other by done. split.
    + transitivity (get_table tb' z1); [by destruct tb' |]. rewrite (same_tables_get tb' z0 z1 T1). by apply get_set_other.
    + rewrite set_table_pg, C3 by lia. rewrite Q2 by (destruct tb, tb'; try done; cbn [table_off]; offs; lia).
      transitivity (fget (pg z0 0) (table_off tb') 4); [|unfold z0; by rewrite set_table_pg].
      destruct tb'; [apply (k_dt _ _ _ K1) | apply (k_ft _ _ _ K1)].
  - rewrite set_table_pg, C3 by lia. unfold z2. rewrite pg_set_same by (done || rewrite length_fput; rewrite length_pg by done; lia).
    apply fget_fput_same; [rewrite length_pg by done; lia | apply htonl_range].
  - unfold tab_ok. rewrite get_set_table. split_and!; try done.
    + cbn [rep droot]. rewrite set_table_pg, PN. change (htonl 0) with 0.
      assert (forall o k, (8 <= o)%nat -> (o + k <= 1024)%nat -> slice P3 o k = replicate k 0) as Hz.
      { intros o k Hok Hok'. unfold P3. rewrite slice_set_crc by (plen || lia). rewrite slice_set_size by (plen || lia). apply new_page_zero; lia. }
      split_and!; try (done || lia).
      * apply (mslots_eq (new_page SHZ_PAGE_ROOT)); [apply mslots_new |]. intros o k Hok. unfold P3.
        rewrite slice_set_crc by (plen || lia). rewrite slice_set_size by (plen || lia). done.
    + apply NoDup_singleton.
  - intros Hroom. rewrite set_table_buff. unfold z0 in R1. rewrite set_table_buff in R1. transitivity (data_max (z_buff z1)); [done | by apply R1].
Qed.

(** A new file becomes an archive of three pages with two empty tables. *)
Definition new_flags (fl : Z) : Z := Z.lor (Z.lor fl SHZ_FRESH) SHZ_ALLOC.

Lemma new_flag fl bit : Z.land SHZ_FRESH bit = 0 -> Z.land SHZ_ALLOC bit = 0 -> has_flag (new_flags fl) bit = has_flag fl bit.
Proof. intros H1 H2. unfold has_flag, new_flags. by rewrite !Z.land_lor_distr_l, H1, H2, !Z.lor_0_r. Qed.
Lemma new_flags_fresh fl : has_flag (new_flags fl) SHZ_FRESH = true.
Proof.
  unfold has_flag, new_flags. apply negb_true_iff, Z.eqb_neq. intros H. apply (f_equal (fun v => Z.testbit v 21)) in H.
  rewrite Z.bits_0 in H. revert H. rewrite Z.land_spec, !Z.lor_spec. change (Z.testbit SHZ_FRESH 21) with true. by rewrite ?orb_true_r.
Qed.
Lemma new_flags_alloc fl : has_flag (new_flags fl) SHZ_ALLOC = true.
Proof.
  unfold has_flag, new_flags. apply negb_true_iff, Z.eqb_neq. intros H. apply (f_equal (fun v => Z.testbit v 20)) in H.
  rewrite Z.bits_0 in H. revert H. rewrite Z.land_spec, !Z.lor_spec. change (Z.testbit SHZ_ALLOC 20) with true. by rewrite ?orb_true_r.
Qed.

Lemma fopen_new_ok e fdn fl rand now :
  e <> 0 -> 0 < fdn -> has_flag fl SHZ_CREATE = true -> has_flag fl SHZ_TRUNC = false ->
  exists z, shz_arch_fopen E e fdn [] fl rand now = Done (Some z, 0) /\ full 3 z /\ z_flags z = new_flags fl /\
    tab_ok DTable z 3 (DNode 1 blank_slots DNil DNil) /\ tab_ok FTable z 3 (DNode 2 blank_slots DNil DNil) /\
    fget (pg z 0) base_dtable 4 = htonl 1 /\ fget (pg z 0) base_ftable 4 = htonl 2 /\ fget (pg z 0) hdr_magic 2 = SHMEM16_MAGIC /\
    data_max (z_buff z) = 65536.
Proof.
  intros He Hfd Hcr Ht. unfold shz_arch_fopen. rewrite Hcr. destruct (Z.eqb_spec e 0); [done |]. cbn [negb andb].
  destruct (new_file_ok fdn Hfd) as (m0 & ->). cbn [obind]. fold (new_flags fl). set (fl' := new_flags fl).
  assert (has_flag fl' SHZ_TRUNC = false) as Hft by (unfold fl'; by rewrite new_flag).
  assert (has_flag fl' SHZ_FRESH = true) as Hff by apply new_flags_fresh.
  enough (exists z, shz_arch_init E (Some (new_map fdn)) (replicate m0 0) fl' rand now = Done (z, 0) /\ full 3 z /\ z_flags z = fl' /\
    tab_ok DTable z 3 (DNode 1 blank_slots DNil DNil) /\ tab_ok FTable z 3 (DNode 2 blank_slots DNil DNil) /\
    fget (pg z 0) base_dtable 4 = htonl 1 /\ fget (pg z 0) base_ftable 4 = htonl 2 /\ fget (pg z 0) hdr_magic 2 = SHMEM16_MAGIC /\
    data_max (z_buff z) = 65536) as (z & -> & H) by (exists z; by split).
  unfold shz_arch_init. change (data_of (new_map fdn) <? SHZ_PAGE_SIZE) with false. cbn iota. rewrite Hft, Hff.
  change (data_max (new_map fdn)) with 16384. unfold zbind at 1.
  change (shz_scan 0 16384 (mk_shz 0 0 (new_map fdn) (replicate m0 0) 0 TNil TNil))
    with (Done (mk_shz 0 0 (new_map fdn) (replicate m0 0) 0 TNil TNil, tt)). cbn beta iota. rewrite zget_step. cbn [z_bseq].
  destruct (first_alloc_ok fdn m0 Hfd) as (m & E0). zstep E0. cbn [Z.eqb negb].
  assert ((_ <~ fresh_base E rand now; zret 0) (first_alloc fdn m) = Done (set_pg 0 (fresh_page rand now) (set_bseq 1 (first_alloc fdn m)), 0)) as E1
    by (by zstep (fresh_base_ok fdn m rand now)).
  zstep E1. cbn [Z.eqb negb]. pose proof (fresh_full fdn m rand now Hfd) as F1. destruct (fresh_fields rand now) as (_ & D1 & D2 & D3).
  assert (pg (set_pg 0 (fresh_page rand now) (set_bseq 1 (first_alloc fdn m))) 0 = fresh_page rand now) as P1.
  { apply (pg_set_same (set_bseq 1 (first_alloc fdn m))); [apply inside_first_alloc; lia | apply length_fresh_page]. }
  set (z1 := set_pg 0 (fresh_page rand now) (set_bseq 1 (first_alloc fdn m))) in *.
  assert (data_max (z_buff z1) = 65536) as R1 by reflexivity. clearbody z1.
  destruct (root_init_ok DTable 1 z1 F1) as (z2 & E2 & F2 & C2 & _ & _ & M2 & O2 & B2 & T2 & R2); [unfold MAX_PAGES; lia | by rewrite P1 |].
  unfold shz_arch_dtable_init. zstep E2.
  destruct (O2 FTable ltac:(done)) as [_ O2f]. cbn [table_off] in O2f, B2.
  destruct (root_init_ok FTable (1 + 1) z2 F2) as (z3 & E3 & F3 & C3 & _ & _ & M3 & O3 & B3 & T3 & R3); [unfold MAX_PAGES; lia | cbn [table_off]; by rewrite O2f, P1 |].
  unfold shz_arch_ftable_init. zstep E3. rewrite zset_step.
  destruct (O3 DTable ltac:(done)) as [O3t O3f]. cbn [table_off] in O3f, B3.
  assert (forall c, pg (set_flags fl' z3) c = pg z3 c) as Ep by done.
  assert (forall t, rep z3 3 t -> rep (set_flags fl' z3) 3 t) as Hrep by (intros t; by apply rep_frame).
  exists (set_flags fl' z3).
  split; [reflexivity |]. split; [destruct F3 as [[] B]; by split |]. split; [reflexivity |]. split; [|split; [|split; [|split; [|split]]]].
  - destruct T2 as (Hn & Hg & Hc & Hr & Hnd). unfold tab_ok. cbn [get_table set_flags z_dtable] in *. rewrite O3t. split_and!; [assumption.. | | assumption].
    apply Hrep. apply (rep_frame z2 z3 2 3); [lia | | assumption]. intros p Hp. apply C3. apply list_elem_of_singleton in Hp as ->. lia.
  - destruct T3 as (Hn & Hg & Hc & Hr & Hnd). unfold tab_ok. change (get_table FTable (set_flags fl' z3)) with (get_table FTable z3).
    split_and!; [assumption.. | | assumption]. apply Hrep. exact Hr.
  - rewrite Ep, O3f. exact B2.
  - rewrite Ep. exact B3.
  - rewrite Ep, M3, M2, P1. exact D3.
  - transitivity (data_max (z_buff z3)); [reflexivity |]. rewrite R3, R2; [exact R1 | rewrite R1; reflexivity |].
    rewrite R2, R1; [reflexivity | rewrite R1; reflexivity].
Qed.
End fresh.
