(* ===== verification/ShShzArchive.v ===== *)
(** * Archives: the map of files

    The theorems on the archives of [share-lib/mem/shmem_shz.c], whose layers the
    files ShShz, ShShzData, ShShzIndex, ShShzTree and ShShzFile model: an archive
    made by [shz_arch_fopen] holds no file, writing a new file adds it to the map
    from names to contents and changes no other, and listing or extracting the
    archive gives exactly the files of the map. *)

From Stdlib Require Import ZArith Lia.
From stdpp Require Import base numbers list sets gmap.
From S2P Require Import Prelude ShCrc ShKey ShBuf ShShz ShShzData ShShzIndex ShShzTree ShShzFile.

Open Scope Z_scope.
Open Scope share_scope.

(** ** The page of a file *)

Lemma key_of_image k : valid_key k -> key_of (shkey_image k) = k.
Proof.
  intros (Ha & Hc & Hl & Hw). destruct k as [a c w]. cbn [alg crc code] in *. unfold shkey_image, key_of. cbn [alg crc code].
  unfold SHKEY_WORDS in *. do 7 (destruct w as [|? w]; [done |]). destruct w; [|done]. repeat (apply Forall_cons in Hw as [? Hw]).
  f_equal; [ | | cbn [seq map]; repeat f_equal].
  1,2: match goal with |- _ = ?v => transitivity (of_le (le_bytes 2 v)); [reflexivity | by apply of_le_bytes] end.
  all: match goal with |- _ = ?v => transitivity (of_le (le_bytes 4 v)); [reflexivity | by apply of_le_bytes] end.
Qed.

(** The page after [shz_entity_get], and after [shz_mod_write]. *)
Definition named_page (type salt n : Z) (k : shkey_t) : bytes :=
  set_crc salt (splice (fput (new_page type) mod_name 4 (htonl n)) mod_id (shkey_image k)).
Definition file_page (salt : Z) (P : bytes) (b : Z) (content : bytes) (now : Z) : bytes :=
  set_crc salt (set_size (fput (fput (fput (fput (fput P mod_seq 4 (htonl b)) mod_size 4 (htonl (u32 (Z.of_nat (length content)))))
    mod_crc 4 (shcrc32 content)) mod_mtime 8 now) mod_ctime 8 now) sizeof_mod).

Lemma length_named_page type salt n k : valid_key k -> length (named_page type salt n k) = 1024%nat.
Proof. intros Hk. pose proof (length_key_image k Hk). unfold named_page. plen. Qed.
Lemma length_file_page salt P b content now : length P = 1024%nat -> length (file_page salt P b content now) = 1024%nat.
Proof. intros HP. unfold file_page. plen. Qed.

Lemma named_page_fields type salt n k :
  valid_key k -> is_uint 16 type ->
  p_type (named_page type salt n k) = type /\ key_of (slice (named_page type salt n k) mod_id 32) = k /\
  fget (named_page type salt n k) mod_name 4 = htonl n.
Proof.
  intros Hk Ht. pose proof (length_key_image k Hk) as Hi. unfold named_page.
  set (P1 := fput (new_page type) mod_name 4 (htonl n)). assert (length P1 = 1024%nat) as H1 by (unfold P1; plen).
  set (P2 := splice P1 mod_id (shkey_image k)). assert (length P2 = 1024%nat) as H2 by (unfold P2; plen).
  split_and!.
  - rewrite p_type_set_crc by done. unfold p_type, P2. rewrite fget_splice_other by (offs; lia).
    unfold P1. rewrite fget_fput_other by (rewrite ?length_new_page; offs; lia). by apply p_type_new_page.
  - rewrite slice_set_crc by (done || offs; lia). unfold P2. rewrite <- Hi. rewrite slice_splice_same by (offs; lia). by apply key_of_image.
  - unfold fget. rewrite slice_set_crc by (done || offs; lia). unfold P2. rewrite slice_splice_other by (offs; lia).
    change (of_le (slice P1 mod_name 4)) with (fget P1 mod_name 4). unfold P1. apply fget_fput_same; [rewrite length_new_page; offs; lia | apply htonl_range].
Qed.

Lemma file_page_fields salt P b content now :
  length P = 1024%nat ->
  p_type (file_page salt P b content now) = p_type P /\
  slice (file_page salt P b content now) mod_id 32 = slice P mod_id 32 /\
  fget (file_page salt P b content now) mod_name 4 = fget P mod_name 4 /\
  fget (file_page salt P b content now) mod_seq 4 = htonl b /\
  fget (file_page salt P b content now) mod_size 4 = htonl (u32 (Z.of_nat (length content))) /\
  fget (file_page salt P b content now) mod_crc 4 = shcrc32 content.
Proof.
  intros HP. unfold file_page.
  set (P1 := fput P mod_seq 4 (htonl b)). assert (length P1 = 1024%nat) as H1 by (unfold P1; plen).
  set (P2 := fput P1 mod_size 4 _). assert (length P2 = 1024%nat) as H2 by (unfold P2; plen).
  set (P3 := fput P2 mod_crc 4 (shcrc32 content)). assert (length P3 = 1024%nat) as H3 by (unfold P3; plen).
  set (P4 := fput P3 mod_mtime 8 now). assert (length P4 = 1024%nat) as H4 by (unfold P4; plen).
  set (P5 := fput P4 mod_ctime 8 now). assert (length P5 = 1024%nat) as H5 by (unfold P5; plen).
  assert (forall o k, (8 <= o)%nat -> (o + k <= 64)%nat -> slice (set_crc salt (set_size P5 sizeof_mod)) o k = slice P3 o k) as Hs.
  { intros o k Ho Hk. rewrite slice_set_crc by (plen || lia). rewrite slice_set_size by (done || lia).
    unfold P5. rewrite slice_fput_other by (rewrite ?H4; offs; lia). unfold P4. rewrite slice_fput_other by (rewrite ?H3; offs; lia). done. }
  assert (forall o k, (o + k <= 40)%nat \/ (48 <= o)%nat -> slice P3 o k = slice P1 o k) as Hs3.
  { intros o k Ho. unfold P3. rewrite slice_fput_other by (rewrite ?H2; offs; lia). unfold P2. rewrite slice_fput_other by (rewrite ?H1; offs; lia). done. }
  split_and!.
  - rewrite p_type_set_crc by plen. rewrite p_type_set_size by done. unfold p_type, P5.
    rewrite fget_fput_other by (rewrite ?H4; offs; lia). unfold P4. rewrite fget_fput_other by (rewrite ?H3; offs; lia).
    unfold fget. rewrite Hs3 by (offs; lia). unfold P1. rewrite slice_fput_other by (rewrite ?HP; offs; lia). done.
  - rewrite Hs, Hs3 by (offs; lia). unfold P1. apply slice_fput_other; rewrite ?HP; offs; lia.
  - unfold fget. rewrite Hs, Hs3 by (offs; lia). unfold P1. rewrite slice_fput_other by (rewrite ?HP; offs; lia). done.
  - unfold fget. rewrite Hs, Hs3 by (offs; lia). apply fget_fput_same; [rewrite HP; offs; lia | apply htonl_range].
  - unfold fget. rewrite Hs by (offs; lia). unfold P3. rewrite slice_fput_other by (rewrite ?H2; offs; lia).
    apply fget_fput_same; [rewrite H1; offs; lia | apply htonl_range].
  - unfold fget. rewrite Hs by (offs; lia). apply fget_fput_same; [rewrite H2; offs; lia | apply shcrc32_range].
Qed.

(** The names of files with different keys are different. *)
Lemma names_nodup (nm : Z -> bytes) K l :
  (forall r, r ∈ l -> K r = shkey_bin (Some (nm r))) -> NoDup (map K l) -> NoDup (map nm l).
Proof.
  induction l as [|r l IH]; intros HK Hnd; [constructor |]. cbn [map] in *. apply NoDup_cons in Hnd as [Hn Hnd]. apply NoDup_cons. split.
  - intros (r' & Hr' & Hin)%list_elem_of_fmap. apply Hn. apply list_elem_of_fmap. exists r'. split; [|done].
    rewrite !HK by set_solver. by rewrite Hr'.
  - apply IH; [|done]. intros r' Hr'. apply HK. set_solver.
Qed.

Section files.
Context (E : env) (Hcalloc : forall n, calloc_ok E n = true) (Hmenv : mapped_env E).
Context {zl : zlib} {zlo : zlib_ok zl}.

(** The kind of segment the flags select. *)
Definition io_of (raw : bool) :
  segment_io E (if raw then shz_raw_write E else shz_zlib_write E) (if raw then shz_raw_read E else shz_zlib_read E) :=
  match raw with true => raw_segment_io E Hcalloc Hmenv | false => zlib_segment_io E Hcalloc Hmenv end.
Definition sel_io (fl : Z) : segment_io E (shz_write_f E fl) (shz_read_f E fl) := io_of (has_flag fl SHZ_RAW).

(** A file of an archive with table [t]: its page [r], the page of its name, and
    its data from page [lo] to page [hi]. *)
Definition file_at (fl : Z) (z : shz_t) (N : Z) (t : dtree) (r : Z) (name content : bytes) : Prop :=
  exists n lo hi b ds,
    (fget (pg z r) mod_name 4 = htonl n /\ 0 < n < N /\ (n ∉ dpages t) /\ raw_at (pg z n) name) /\
    (fget (pg z r) mod_size 4 = htonl (Z.of_nat (length content)) /\ fget (pg z r) mod_crc 4 = shcrc32 content /\ room_for (length content)) /\
    (fget (pg z r) mod_seq 4 = htonl b /\ (b = 0 \/ lo <= b < hi)) /\ 0 < lo <= hi /\ hi <= N /\ (forall p, p ∈ dpages t -> p < lo \/ hi <= p) /\
    indexed (SIO := sel_io fl) E z lo hi b ds /\ concat ds = content.

Lemma file_at_flags fl fl' z N t r name content :
  has_flag fl SHZ_RAW = has_flag fl' SHZ_RAW -> file_at fl z N t r name content -> file_at fl' z N t r name content.
Proof. intros H. unfold file_at, sel_io, shz_write_f, shz_read_f. by rewrite H. Qed.

Definition good_name (name : bytes) : Prop :=
  name <> [] /\ (length name <= 1008)%nat /\ Forall (fun c => c <> 0) name.

(** The base page of an archive with table [t] of files. *)
Definition based (N : Z) (z : shz_t) (t : dtree) : Prop :=
  fget (pg z 0) hdr_magic 2 = SHMEM16_MAGIC /\ fget (pg z 0) base_ftable 4 = htonl (droot t) /\
  exists d, 0 < d < N /\ fget (pg z 0) base_dtable 4 = htonl d.

(** The archive holds the files. *)
Definition archive (N : Z) (z : shz_t) (t : dtree) (K : Z -> shkey_t) (files : gmap bytes bytes) : Prop :=
  table_inv FTable z N t K /\ based N z t /\
  exists nm ct : Z -> bytes,
    (forall r, r ∈ drefs t -> K r = shkey_bin (Some (nm r)) /\ good_name (nm r) /\ file_at (z_flags z) z N t r (nm r) (ct r)) /\
    files = list_to_map (map (fun r => (nm r, ct r)) (drefs t)).

Lemma file_at_frame fl z z' N N' t t' r name content :
  N <= N' -> (forall p, p ∈ dpages t' -> p ∈ dpages t \/ N <= p) ->
  (forall c, 0 < c < N -> c ∉ dpages t -> pg z' c = pg z c) -> 0 < r < N -> r ∉ dpages t ->
  file_at fl z N t r name content -> file_at fl z' N' t' r name content.
Proof.
  intros HN Ht Hpg Hr Hrt (n & lo & hi & b & ds & (H1 & H2 & H3 & H4) & (H5 & H6 & H7) & (H8 & H9) & H10 & H11 & H12 & H13 & H14).
  exists n, lo, hi, b, ds. rewrite !(Hpg r), (Hpg n) by done. split_and!; try (done || lia).
  - intros Hin. apply Ht in Hin as [?|?]; [done | lia].
  - intros p Hp. apply Ht in Hp as [Hp|Hp]; [by apply H12 | lia].
  - apply (indexed_agree (SIO := sel_io fl) E z); [|done]. intros c Hc. apply Hpg; [lia |]. intros Hin. apply H12 in Hin. lia.
Qed.

(** ** Creating the entry of a file *)

Lemma entity_get_new type N z t K name junk :
  full N z -> table_inv FTable z N t K -> is_uint 16 type -> is_shz_mod_type type = true ->
  let id := shkey_bin (Some name) in
  entries K t !! id = None -> hash_num id <> 0 -> (length name <= 1008)%nat -> N + 3 <= MAX_PAGES ->
  (dgrows (hash_side id) (hash_num id) N t = true -> (N + 3) * 1024 < data_max (z_buff z)) ->
  let t' := dadd (hash_side id) (hash_num id) N (N + 2) t in
  exists z' N' salt, shz_entity_get E name type junk z = Done (z', (0, N)) /\ full N' z' /\ N + 2 <= N' <= N + 3 /\
    tab_ok FTable z' N' t' /\ (forall c, 0 < c < N -> c ∉ dpages t -> pg z' c = pg z c) /\
    pg z' N = named_page type salt (N + 1) id /\ raw_at (pg z' (N + 1)) name /\ keeps 1 z z'.
Proof.
  intros Hf Hinv Ht16 Htm id Hnew Hh Hlen HM Hroom t'. pose proof (a_N _ _ (proj1 Hf)) as HN. unfold MAX_PAGES in HM, HN.
  assert (valid_key id) as Hid by apply valid_bin.
  unfold shz_entity_get, shz_ftable_get, shz_ftable_set. fold id.
  destruct (tree_get_ok E Hcalloc Hmenv FTable N z t K id Hf Hinv Hid Hh) as (z1 & E1 & F1 & I1 & C1 & B1 & L1 & G1 & _).
  rewrite Hnew in E1. zstep E1. cbn [Z.eqb SHERR_NOENT].
  destruct (page_new_ok E Hmenv N z1 type F1 ltac:(unfold MAX_PAGES; lia)) as (z2 & E2 & F2 & P2 & K2 & T2 & R2 & _). zstep E2. cbn beta iota.
  destruct (raw_write_ok E Hmenv (N + 1) z2 name F2 ltac:(unfold MAX_PAGES; lia)) as (z3 & E3 & F3 & K3 & T3 & P3 & R3). zstep E3. cbn beta iota.
  replace (N + 1 + 1) with (N + 2) in * by lia.
  assert (tab_ok FTable z3 (N + 2) t) as T3ok.
  { destruct I1 as ((Hn & Hg & Hc & Hr & Hnd) & _). unfold tab_ok. rewrite (same_tables_get FTable z2 z3 T3), (same_tables_get FTable z1 z2 T2).
    split_and!; try done. apply (rep_frame z1 z3 N); [lia | | done]. intros p Hp. pose proof (rep_pages _ _ _ Hr) as Hps.
    rewrite Forall_forall in Hps. pose proof (Hps p Hp). rewrite (k_pg _ _ _ K3), (k_pg _ _ _ K2) by lia. done. }
  destruct (tree_add_ok E Hcalloc Hmenv FTable (N + 2) z3 t id N F3 T3ok Hh) as (z4 & N4 & E4 & F4 & B4 & T4 & K4 & _); [lia | |].
  { intros Hg. specialize (Hroom Hg). rewrite <- B1 in Hroom. split; [unfold MAX_PAGES; lia |]. destruct R2 as [_ D2]; [lia |].
    destruct R3 as [_ D3]; [lia |]. rewrite D3, D2. lia. }
  zstep E4. cbn [Z.eqb negb]. zstep (page_seen E N4 z4 N (proj1 F4) ltac:(rewrite (proj2 F4); lia)). cbn beta iota.
  assert (inside z4 N /\ inside z4 0) as [HiN Hi0] by (split; (apply (arch_inside N4); [apply F4 | lia])).
  assert (forall q, q ∈ dpages t -> 0 < q < N) as Hpt.
  { intros q Hq. destruct I1 as ((_ & _ & _ & Hr & _) & _). pose proof (rep_pages _ _ _ Hr) as Hps. rewrite Forall_forall in Hps. by apply Hps. }
  assert (pg z4 N = new_page type) as P4.
  { rewrite (proj1 K4) by (lia || intros Hin%Hpt; lia). rewrite (k_pg _ _ _ K3) by lia. done. }
  pose proof (length_key_image id Hid) as Hli.
  zstep (stn_ok (at_page z4 N) z4 N mod_name 4 (htonl (N + 1)) eq_refl HiN ltac:(olia)). rewrite P4.
  set (Q1 := fput (new_page type) mod_name 4 (htonl (N + 1))). assert (length Q1 = 1024%nat) as HQ1 by (unfold Q1; plen).
  zstep (st_at HiN HQ1 mod_id (shkey_image id) ltac:(offs; lia)).
  zstep (crc_set_at HiN (P := splice Q1 mod_id (shkey_image id)) ltac:(plen) Hi0 ltac:(lia)).
  change (set_crc _ _) with (named_page type (z_salt z4) (N + 1) id). pose proof (length_named_page type (z_salt z4) (N + 1) id Hid) as HP.
  set (z5 := set_pg N (named_page type (z_salt z4) (N + 1) id) z4).
  assert (forall c, 0 <= c -> c <> N -> pg z5 c = pg z4 c) as C5 by (intros c Hc Hne; by apply pg_set_other).
  exists z5, N4, (z_salt z4). split_and!; try (done || lia).
  - apply full_set_pg; (done || lia).
  - destruct T4 as (Hn & Hg & Hc & Hr & Hnd). split_and!; try done. apply (rep_frame z4 z5 N4); [lia | | done].
    intros p Hp. unfold t' in Hp. rewrite dpages_dadd in Hp. apply C5.
    + destruct (dgrows _ _ _ _); [apply elem_of_cons in Hp as [->|Hp%Hpt]; lia | apply Hpt in Hp; lia].
    + destruct (dgrows _ _ _ _); [apply elem_of_cons in Hp as [->|Hp%Hpt]; lia | apply Hpt in Hp; lia].
  - intros c Hc Hn. rewrite C5 by lia. rewrite (proj1 K4) by (done || lia). rewrite (k_pg _ _ _ K3), (k_pg _ _ _ K2) by lia. apply C1.
  - by apply pg_set_same.
  - rewrite C5 by lia. rewrite (proj1 K4) by (lia || intros Hin%Hpt; lia). rewrite P3, take_ge by lia. apply raw_page_at. done.
  - apply (keeps_trans 1 1 z z1); [lia | split; (done || intros; lia || unfold z_salt; by rewrite C1) |].
    apply (keeps_trans 1 1 z1 z2); [lia | by apply (keeps_weaken N); [lia |] |]. apply (keeps_trans 1 1 z2 z3); [lia | by apply (keeps_weaken (N + 1)); [lia |] |].
    apply (keeps_trans 1 1 z3 z4); [lia | apply K4 |]. apply (keeps_weaken N); [lia |]. apply (keeps_set_pg N4); (done || lia || apply F4).
Qed.

(** ** Writing the content *)

(** The segments of a content, and the pages they can take. *)
Definition file_segs (fl : Z) (content : bytes) : list bytes := segs E (SIO := sel_io fl) content.
Definition file_cost (fl : Z) (content : bytes) : Z := index_cost E (SIO := sel_io fl) (length (file_segs fl content)).

(** The longest content whose segments one index page lists, and the pages a file
    of that length can take. *)
Definition max_content (fl : Z) : Z := 252 * (if has_flag fl SHZ_RAW then 1008 else 1048576).
Definition max_pages (fl : Z) : Z := 3 + 252 * (if has_flag fl SHZ_RAW then 2 else ZLIB_COST + 1).

Lemma cut_le fuel n l k : (length l <= k * n)%nat -> (length (cut fuel n l) <= k)%nat.
Proof.
  revert l k. induction fuel as [|fuel IH]; intros l k Hl; cbn [cut]; [cbn [length]; lia |].
  destruct l as [|x l]; [cbn [length]; lia |]. destruct k as [|k]; [cbn [length] in Hl; lia |]. cbn [length]. apply le_n_S, IH.
  rewrite length_drop. lia.
Qed.

Lemma file_segs_le fl content :
  Z.of_nat (length content) <= max_content fl ->
  (length (file_segs fl content) <= 252)%nat /\ 3 + file_cost fl content <= max_pages fl /\ room_for (length content).
Proof.
  intros Hl. assert (length (file_segs fl content) <= 252)%nat as Hs.
  { unfold file_segs, segs. apply cut_le. unfold max_content in Hl. unfold sel_io, io_of, shz_write_f, shz_read_f. destruct (has_flag fl SHZ_RAW); unfold raw_segment_io, zlib_segment_io; cbn [seg_max]; lia. }
  split_and!; [done | |].
  - unfold file_cost, max_pages, index_cost. unfold sel_io, io_of, shz_write_f, shz_read_f. destruct (has_flag fl SHZ_RAW); unfold raw_segment_io, zlib_segment_io; cbn [seg_cost]; unfold ZLIB_COST; lia.
  - unfold max_content in Hl. unfold room_for, GROW_LIMIT, INT_MAX. destruct (has_flag fl SHZ_RAW); lia.
Qed.

Lemma mod_write_ok N z m content junk now :
  full N z -> 0 < m < N -> N + file_cost (z_flags z) content <= MAX_PAGES ->
  exists z' N' b salt, shz_mod_write E m content junk now z = Done (z', 0) /\ full N' z' /\ N <= N' <= N + file_cost (z_flags z) content /\
    (forall c, 0 < c < N -> c <> m -> pg z' c = pg z c) /\ pg z' m = file_page salt (pg z m) b content now /\
    indexed (SIO := sel_io (z_flags z)) E z' N N' b (kept 0 (file_segs (z_flags z) content)) /\ (b = 0 \/ N <= b < N') /\
    same_tables z z' /\ keeps 1 z z'.
Proof.
  intros Hf Hm HM. pose proof (a_N _ _ (proj1 Hf)) as HN. unfold shz_mod_write. rewrite zget_step.
  destruct (index_write_ok (SIO := sel_io (z_flags z)) E Hmenv N z content junk Hf HM) as (z1 & N1 & b & E1 & F1 & B1 & K1 & T1 & I1 & R1).
  zstep E1. cbn [Z.eqb negb]. zstep (page_seen E N1 z1 m (proj1 F1) ltac:(rewrite (proj2 F1); lia)).
  assert (inside z1 m /\ inside z1 0) as [Him Hi0] by (split; (apply (arch_inside N1); [apply F1 | lia])).
  assert (pg z1 m = pg z m) as Pm by (rewrite (k_pg _ _ _ K1) by lia; done).
  zstep (stn_ok (at_page z1 m) z1 m mod_seq 4 (htonl b) eq_refl Him ltac:(olia)). rewrite Pm.
  assert (length (pg z m) = 1024%nat) as Hlm by (apply length_pg, (arch_inside N); [apply Hf | lia]).
  set (P1 := fput (pg z m) mod_seq 4 (htonl b)). assert (length P1 = 1024%nat) as H1 by (unfold P1; rewrite length_fput; offs; lia).
  zstep (stn_at Him H1 mod_size 4 (htonl (u32 (Z.of_nat (length content)))) ltac:(olia)).
  set (P2 := fput P1 mod_size 4 _). assert (length P2 = 1024%nat) as H2 by (unfold P2; plen).
  zstep (stn_at Him H2 mod_crc 4 (shcrc32 content) ltac:(olia)).
  set (P3 := fput P2 mod_crc 4 _). assert (length P3 = 1024%nat) as H3 by (unfold P3; plen).
  zstep (stn_at Him H3 mod_mtime 8 now ltac:(olia)).
  set (P4 := fput P3 mod_mtime 8 now). assert (length P4 = 1024%nat) as H4 by (unfold P4; plen).
  zstep (stn_at Him H4 mod_ctime 8 now ltac:(olia)).
  set (P5 := fput P4 mod_ctime 8 now). assert (length P5 = 1024%nat) as H5 by (unfold P5; plen).
  zstep (size_set_at Him H5 sizeof_mod ltac:(offs; lia)).
  zstep (crc_set_at Him (P := set_size P5 sizeof_mod) ltac:(plen) Hi0 ltac:(lia)).
  assert (set_crc (z_salt z1) (set_size P5 sizeof_mod) = file_page (z_salt z1) (pg z m) b content now) as -> by (unfold file_page, P5, P4, P3, P2, P1; reflexivity).
  assert (length (file_page (z_salt z1) (pg z m) b content now) = 1024%nat) as HP by (by apply length_file_page).
  set (z2 := set_pg m _ z1). assert (forall c, 0 <= c -> c <> m -> pg z2 c = pg z1 c) as C2 by (intros c Hc Hne; by apply pg_set_other).
  assert (N1 <= N + file_cost (z_flags z) content) as B1' by apply B1.
  exists z2, N1, b, (z_salt z1). split_and!; try (done || lia).
  - apply full_set_pg; (done || lia).
  - intros c Hc Hne. rewrite C2 by lia. apply (k_pg _ _ _ K1). lia.
  - by apply pg_set_same.
  - apply (indexed_agree (SIO := sel_io (z_flags z)) E z1); [|done]. intros c Hc. apply C2; lia.
  - apply (keeps_trans 1 1 z z1); [lia | by apply (keeps_weaken N); [lia |] |]. apply (keeps_weaken m); [lia |].
    apply (keeps_set_pg N1); (done || lia || apply F1).
Qed.

(** A file whose key is not that of a stored one is in no entry. *)
Lemma archive_new N z t K files name :
  archive N z t K files -> (forall f, f ∈ dom files -> shkey_bin (Some f) <> shkey_bin (Some name)) ->
  entries K t !! shkey_bin (Some name) = None.
Proof.
  intros ((_ & _ & Hnd) & _ & nm & ct & Hf & ->) Hnew. destruct (entries K t !! shkey_bin (Some name)) as [r|] eqn:Ee; [exfalso | done].
  apply entries_lookup in Ee as [Hin HK]; [|done]. destruct (Hf r Hin) as (Hk & _). apply (Hnew (nm r)); [|congruence].
  apply elem_of_dom. exists (ct r). apply elem_of_list_to_map_1.
  - rewrite <- list_fmap_compose. apply (names_nodup nm K); [|done]. intros r' Hr'. by apply Hf.
  - apply list_elem_of_fmap. by exists r.
Qed.

(** ** Writing a file *)

Lemma file_write_ok N z t K files name content junk1 junk2 now :
  let id := shkey_bin (Some name) in
  full N z -> archive N z t K files -> good_name name -> hash_num id <> 0 ->
  (forall f, f ∈ dom files -> shkey_bin (Some f) <> id) ->
  (length (file_segs (z_flags z) content) <= 252)%nat -> room_for (length content) ->
  N + 3 + file_cost (z_flags z) content <= MAX_PAGES ->
  (dgrows (hash_side id) (hash_num id) N t = true -> (N + 3) * 1024 < data_max (z_buff z)) ->
  exists z' N', shz_file_write E name content junk1 junk2 now z = Done (z', 0) /\ full N' z' /\ N < N' <= N + 3 + file_cost (z_flags z) content /\ z_flags z' = z_flags z /\
    archive N' z' (dadd (hash_side id) (hash_num id) N (N + 2) t) (key_upd K N id) (<[name := content]> files).
Proof.
  intros id Hf Harch Hgn Hh Hnew Hsegs Hrf HM Hroom. pose proof (archive_new N z t K files name Harch Hnew) as Hent. fold id in Hent.
  pose proof (a_N _ _ (proj1 Hf)) as HN. destruct Harch as (Hinv & (Hbm & Hbf & bd & Hbd & Hbd') & nm & ct & Hfiles & Hmap).
  assert (valid_key id) as Hid by apply valid_bin. set (t' := dadd (hash_side id) (hash_num id) N (N + 2) t).
  assert (0 <= file_cost (z_flags z) content) as Hc0 by apply index_cost_pos.
  destruct (entity_get_new SHZ_PAGE_FILE N z t K name junk1 Hf Hinv) as (z1 & N1 & salt & E1 & F1 & B1 & T1 & C1 & P1 & R1 & KK1);
    [vm_compute; by split | done | done | done | apply Hgn | lia | done |]. fold id t' in T1, P1. pose proof (k_flags _ _ _ KK1) as L1.
  unfold shz_file_write, shz_file_get. zstep E1. cbn [Z.eqb negb].
  destruct (mod_write_ok N1 z1 N content junk2 now F1 ltac:(lia)) as (z2 & N2 & b & salt2 & E2 & F2 & B2 & C2 & P2 & I2 & R2 & T2 & KK2); [rewrite L1; lia |]. rewrite L1 in B2.
  pose proof (k_flags _ _ _ KK2) as L2. pose proof (keeps_trans 1 1 z z1 z2 ltac:(lia) KK1 KK2) as KK.
  zstep E2. cbn [Z.eqb negb]. rewrite L1 in L2, I2.
  assert (forall q, q ∈ dpages t -> 0 < q < N) as Hpt.
  { intros q Hq. destruct Hinv as ((_ & _ & _ & Hr & _) & _). pose proof (rep_pages _ _ _ Hr) as Hps. rewrite Forall_forall in Hps. by apply Hps. }
  assert (forall q, q ∈ dpages t' -> q ∈ dpages t \/ q = N + 2 /\ N1 = N + 3) as Hpt'.
  { intros q Hq. destruct (decide (q ∈ dpages t)) as [?|Hn]; [by left | right]. pose proof Hq as Hq'. unfold t' in Hq'. rewrite dpages_dadd in Hq'.
    assert (q = N + 2) as -> by (destruct (dgrows _ _ _ _); [by apply elem_of_cons in Hq' as [?|?] | done]). split; [done |].
    destruct T1 as (_ & _ & _ & Hr & _). pose proof (rep_pages _ _ _ Hr) as Hps. rewrite Forall_forall in Hps. pose proof (Hps _ Hq). lia. }
  assert (length (named_page SHZ_PAGE_FILE salt (N + 1) id) = 1024%nat) as HlP by (by apply length_named_page).
  destruct (named_page_fields SHZ_PAGE_FILE salt (N + 1) id Hid) as (Q1 & Q2 & Q3); [vm_compute; by split |].
  destruct (file_page_fields salt2 _ b content now HlP) as (W1 & W2 & W3 & W4 & W5 & W6). rewrite P1 in P2. rewrite <- P2 in W1, W2, W3, W4, W5, W6.
  rewrite Q1 in W1. rewrite Q3 in W3.
  assert (forall c, 0 < c < N -> c ∉ dpages t -> pg z2 c = pg z c) as Cz by (intros c Hc Hn; rewrite C2 by lia; by apply C1).
  assert (tab_ok FTable z2 N2 t') as T2ok.
  { destruct T1 as (Hn & Hg & Hc & Hr & Hnd). unfold tab_ok. rewrite (same_tables_get FTable z1 z2 T2). split_and!; try done.
    apply (rep_frame z1 z2 N1); [lia | | done]. intros p Hp. pose proof (rep_pages _ _ _ Hr) as Hps. rewrite Forall_forall in Hps.
    pose proof (Hps p Hp). apply C2; [done |]. apply Hpt' in Hp as [Hp%Hpt|[? ?]]; lia. }
  assert (N ∉ dpages t) as HNt by (intros Hin%Hpt; lia).
  assert (N ∉ drefs t) as HNr by (intros Hin; destruct (proj1 (proj2 Hinv) N Hin) as ((? & _) & _); lia).
  destruct (table_inv_add E Hcalloc Hmenv FTable z N z2 N2 (N + 2) t K id N Hinv Hid Hh Hent HNr) as [Inv2 Ent2]; try (done || lia).
  { intros c Hc. destruct (proj1 (proj2 Hinv) c Hc) as ((Hr & _) & _ & Hnp & _). by apply Cz. }
  { split_and!; [lia | lia | by rewrite W1 | by rewrite W2]. }
  exists z2, N2. split_and!; try (done || lia). split; [done |]. split.
  { split_and!; [by rewrite (k_magic _ _ _ KK) | | exists bd; split; [lia | by rewrite (k_dt _ _ _ KK)]].
    rewrite (k_ft _ _ _ KK). unfold t'. rewrite droot_dadd; [done | apply Hinv]. }
  pose proof Hinv as ((_ & _ & _ & Hr0 & _) & _ & Hnd0).
  assert (drefs t' ≡ₚ N :: drefs t) as Hp.
  { apply drefs_dadd; [by apply (rep_dwf z N) | | lia | done]. pose proof (hash_num_range id). lia. }
  exists (fun r => if r =? N then name else nm r), (fun r => if r =? N then content else ct r). split.
  - intros r Hr. rewrite Hp in Hr. unfold key_upd. cbn beta. destruct (Z.eqb_spec r N) as [->|Hne].
    + split; [done |]. split; [done |]. exists (N + 1), N1, N2, b, (kept 0 (file_segs (z_flags z) content)). rewrite L2.
      rewrite kept_all in * by lia. split_and!; try (done || lia).
      * intros Hin. apply Hpt' in Hin as [Hin%Hpt|[? ?]]; lia.
      * rewrite C2 by lia. done.
      * rewrite W5, wrap_small; [done |]. unfold room_for, GROW_LIMIT, INT_MAX in Hrf. rlia.
      * intros p Hin. apply Hpt' in Hin as [Hin%Hpt|[? ?]]; lia.
      * apply concat_segs.
    + assert (r ∈ drefs t) as Hin by (by apply elem_of_cons in Hr as [?|?]). destruct (Hfiles r Hin) as (H1 & H2 & H3). split; [done |]. split; [done |].
      destruct (proj1 (proj2 Hinv) r Hin) as ((Hrr & _) & _ & Hnp & _). rewrite L2.
      apply (file_at_frame (z_flags z) z z2 N N2 t t'); (done || lia || idtac).
      intros p Hp'. apply Hpt' in Hp' as [?|[? ?]]; [by left | right; lia].
  - set (g := fun r => (if r =? N then name else nm r, if r =? N then content else ct r)).
    assert (map g (drefs t) = map (fun r => (nm r, ct r)) (drefs t)) as Hg.
    { apply map_ext_in. intros r Hr. apply list_elem_of_In in Hr. unfold g. destruct (Z.eqb_spec r N) as [->|_]; done. }
    symmetry. rewrite (list_to_map_proper (map g (drefs t')) (map g (N :: drefs t))).
    + cbn [map]. rewrite Hg, Hmap. unfold g. by rewrite Z.eqb_refl.
    + rewrite <- list_fmap_compose. destruct Inv2 as (_ & _ & Hnd2). apply (names_nodup _ (key_upd K N id)); [|done].
      intros r Hr. rewrite Hp in Hr. unfold key_upd, g. cbn. destruct (Z.eqb_spec r N) as [->|Hne]; [done |].
      apply elem_of_cons in Hr as [?|Hr]; [done | apply (proj1 (Hfiles r Hr))].
    + by apply fmap_Permutation.
Qed.
End files.
