(* ===== verification/ShShzList.v ===== *)
(** * Archives: listing and extraction

    The theorem on [shz_list] and [shz_extract] of [share-lib/mem/shmem_shz.c]:
    the callback is called once for each file of the archive, with its name and
    its content, and the archive is left as it was.  The last part closes an
    archive to its file and opens that file again. *)

From Stdlib Require Import ZArith Lia.
From stdpp Require Import base numbers list sets gmap.
From S2P Require Import Prelude ShCrc ShKey ShBuf ShShz ShShzData ShShzIndex ShShzTree ShShzFile ShShzArchive.

Open Scope Z_scope.
Open Scope share_scope.

(** ** Subtrees *)

Fixpoint dnode_at (t : dtree) (path : list side) : dtree :=
  match path with [] => t | d :: p => dnode_at (dchild d t) p end.

Lemma dnode_at_app t p d : dnode_at t (p ++ [d]) = dchild d (dnode_at t p).
Proof. revert t. induction p as [|x p IH]; intros t; [done | apply IH]. Qed.

Lemma cached_at c t p : cached c t -> cached (node_at c p) (dnode_at t p).
Proof.
  revert c t. induction p as [|x p IH]; intros c t Hc; [done |]. cbn [node_at dnode_at]. apply IH.
  destruct c as [|q cl cr]; [by destruct x |]. destruct t as [|q' sl l r]; [done |]. destruct Hc as (_ & ? & ?). by destruct x.
Qed.

Lemma rep_at z N t p : rep z N t -> rep z N (dnode_at t p).
Proof.
  revert t. induction p as [|x p IH]; intros t Hr; [done |]. cbn [dnode_at]. apply IH.
  destruct t as [|q sl l r]; [done |]. destruct Hr as (_ & _ & _ & _ & ? & ?). by destruct x.
Qed.

Lemma cached_put c t p s : cached c t -> cached s (dnode_at t p) -> cached (put_at c p s) t.
Proof.
  revert c t. induction p as [|x p IH]; intros c t Hc Hs; [done |]. cbn [put_at]. destruct c as [|q cl cr]; [done |].
  destruct t as [|q' sl l r]; [done |]. destruct Hc as (-> & ? & ?). destruct x; cbn [cached]; (split; [done | split; try done]); by apply IH.
Qed.

(** A new node at a free place leaves the others. *)
Lemma node_at_put_free c p s q : node_at c p = TNil -> node_at c q <> TNil -> node_at (put_at c p s) q <> TNil.
Proof.
  revert c q. induction p as [|x p IH]; intros c q Hp Hq; [cbn in Hp; subst; by rewrite node_at_nil in Hq |].
  destruct c as [|a cl cr]; [by rewrite node_at_nil in Hq |]. destruct q as [|y q]; [by destruct x |].
  cbn [node_at] in *. destruct x, y; cbn [put_at child] in *; (done || by apply IH).
Qed.

Lemma put_at_keeps_root c p s : p <> [] -> c <> TNil -> put_at c p s <> TNil.
Proof. destruct p as [|x p]; [done |]. intros _ Hc. destruct c; [done |]. by destruct x. Qed.

Lemma entry_ok_page z z' N t K r : entry_ok z N t K r -> pg z' r = pg z r -> entry_ok z' N t K r.
Proof. intros (Hm & Hrest) Hp. split; [|done]. unfold mod_key. by rewrite Hp. Qed.

Lemma filter_names P `{!forall x, Decision (P x)} (l : list (bytes * bytes)) :
  NoDup l.*1 -> map_to_list (filter P (list_to_map l : gmap bytes bytes)) ≡ₚ filter P l.
Proof.
  intros Hnd. apply NoDup_Permutation.
  - apply NoDup_map_to_list.
  - apply NoDup_filter. by apply (NoDup_fmap_1 fst).
  - intros [k v]. rewrite elem_of_map_to_list, map_lookup_filter_Some, list_elem_of_filter, <- elem_of_list_to_map by done. tauto.
Qed.

(** ** What a listing changes *)

Section listing.
Context (E : env) (Hcalloc : forall n, calloc_ok E n = true) (Hmenv : mapped_env E).
Context {zl : zlib} {zlo : zlib_ok zl}.

(** The state has the table [t] of files. *)
Definition seen (N : Z) (t : dtree) (z : shz_t) : Prop :=
  arch N z /\ rep z N t /\ cached (get_table FTable z) t.

(** Only nodes in memory and free room were added. *)
Definition listed (N : Z) (t : dtree) (z z' : shz_t) : Prop :=
  seen N t z' /\ (forall c, 0 <= c < N -> pg z' c = pg z c) /\ z_flags z' = z_flags z /\
  (forall p, node_at (get_table FTable z) p <> TNil -> node_at (get_table FTable z') p <> TNil).

Lemma listed_refl N t z : seen N t z -> listed N t z z.
Proof. by intros. Qed.

Lemma listed_trans N t z1 z2 z3 : listed N t z1 z2 -> listed N t z2 z3 -> listed N t z1 z3.
Proof.
  intros (S1 & P1 & F1 & Q1) (S2 & P2 & F2 & Q2). split; [done |]. split_and!; [|congruence | auto].
  intros c Hc. rewrite P2, P1 by done. done.
Qed.

Lemma rep_listed z z' N t : (forall c, 0 <= c < N -> pg z' c = pg z c) -> rep z N t -> rep z' N t.
Proof.
  intros Hpg Hr. apply (rep_frame z z' N N); [lia | | done]. intros p Hp. pose proof (rep_pages _ _ _ Hr) as Hps.
  rewrite Forall_forall in Hps. pose proof (Hps p Hp). apply Hpg. lia.
Qed.

Lemma grown_listed N t z z' : seen N t z -> arch N z' -> grown z z' -> listed N t z z'.
Proof.
  intros (Hf & Hr & Hc) Ha Hg.
  assert (forall c, 0 <= c < N -> pg z' c = pg z c) as Hpg by (intros c; by apply (grown_pg N)).
  pose proof (grown_get FTable z z' Hg) as Hgt.
  split; [split; [done | split; [by apply (rep_listed z z') | by rewrite Hgt]] | split_and!; [done | apply g_flags, Hg | by rewrite Hgt]].
Qed.

(** The child on a side is in memory afterwards, when there is one. *)
Lemma load_child_listed N t z path d p cl cr :
  seen N t z -> node_at (get_table FTable z) path = TNode p cl cr ->
  exists z', load_child E FTable path d (at_page z p) z = Done (z', 0) /\ listed N t z z' /\ z_gen z' = z_gen z /\
    (dnode_at t (path ++ [d]) <> DNil -> node_at (get_table FTable z') (path ++ [d]) <> TNil).
Proof.
  intros (Hf & Hr & Hc) Hn. pose proof (cached_at _ _ path Hc) as Hcp. pose proof (rep_at z N t path Hr) as Hrp. rewrite Hn in Hcp.
  rewrite dnode_at_app. destruct (dnode_at t path) as [|p' sl l r] eqn:Hd; [done |]. assert (p = p') as -> by apply Hcp. cbn [dchild].
  destruct (load_child_ok E Hcalloc FTable path d N z p' cl cr sl l r Hf Hrp Hn Hcp) as (z' & E1 & C1 & cd & Hn1 & Hcd & Hcd0).
  exists z'. split; [done |]. destruct (decide (child d (TNode p' cl cr) = TNil)) as [Hcn|Hcn].
  - destruct C1 as (c' & -> & Hc' & Cc). rewrite get_set_table in Hn1. rewrite node_at_put in Hn1 by (by rewrite Hn). subst c'.
    replace (put_at (get_table FTable z) path (with_child d (TNode p' cl cr) cd)) with (put_at (get_table FTable z) (path ++ [d]) cd)
      by (by rewrite put_at_app, Hn).
    assert (node_at (get_table FTable z) (path ++ [d]) = TNil) as Hfree by (by rewrite node_at_app, Hn).
    assert (cached (put_at (get_table FTable z) (path ++ [d]) cd) t) as Hput by (apply cached_put; [done | by rewrite dnode_at_app, Hd]).
    unfold listed, seen. split_and!.
    + apply arch_set_table; [done |]. by apply (cached_below z N _ t).
    + apply (rep_listed z); [|done]. intros c _. apply set_table_pg.
    + by rewrite get_set_table.
    + intros c _. apply set_table_pg.
    + done.
    + intros q Hq. rewrite get_set_table. by apply node_at_put_free.
    + apply set_table_gen.
    + intros Hne. rewrite get_set_table, put_at_app, Hn, node_at_app, node_at_put by (by rewrite Hn).
      destruct d; cbn [with_child child]; intros Hz; by apply Hne, Hcd0.
  - assert (z' = z) as ->.
    { revert E1. unfold load_child. rewrite zget_step, Hn. destruct (child d (TNode p' cl cr)); [done |]. by intros [= ->]. }
    split_and!; try done. intros _. by rewrite node_at_app, Hn.
Qed.

Lemma node_same N t z z' path p cl cr :
  seen N t z -> listed N t z z' -> node_at (get_table FTable z) path = TNode p cl cr ->
  exists cl' cr', node_at (get_table FTable z') path = TNode p cl' cr'.
Proof.
  intros (_ & _ & Hc) ((_ & _ & Hc') & _ & _ & Hq) Hn. pose proof (cached_at _ _ path Hc) as H1. pose proof (cached_at _ _ path Hc') as H2.
  specialize (Hq path ltac:(by rewrite Hn)). rewrite Hn in H1.
  destruct (node_at (get_table FTable z') path) as [|q ql qr]; [done |]. destruct (dnode_at t path); [done |].
  destruct H1 as [-> _], H2 as [-> _]. by eexists _, _.
Qed.

(** Finding a page can count it and grow the buffer. *)
Lemma page_listed N t z b :
  seen N t z -> 0 <= b < N -> exists z', shz_page E b z = Done (z', Some (at_page z' b)) /\ listed N t z z'.
Proof.
  intros Hs Hb. destruct (page_ok E Hmenv N z b (proj1 Hs) Hb) as (z' & E1 & A1 & G1 & _).
  exists z'. split; [done | by apply grown_listed].
Qed.

Lemma map_load_listed N t z path p cl cr :
  seen N t z -> node_at (get_table FTable z) path = TNode p cl cr ->
  exists z', shz_map_load E FTable path z = Done (z', 0) /\ listed N t z z' /\
    (forall d, dnode_at t (path ++ [d]) <> DNil -> node_at (get_table FTable z') (path ++ [d]) <> TNil).
Proof.
  intros Hs Hn. pose proof Hs as (Hf & Hr & Hc). pose proof (cached_at _ _ path Hc) as Hcp. pose proof (rep_at z N t path Hr) as Hrp.
  rewrite Hn in Hcp. assert (0 < p < N) as Hp by (destruct (dnode_at t path); [done | destruct Hcp as [-> _]; apply Hrp]).
  unfold shz_map_load, shz_tree_data. rewrite zget_step, Hn. cbn iota.
  destruct (page_listed N t z p Hs ltac:(lia)) as (z0 & E0 & L0). zstep E0. cbn iota.
  destruct (node_same N t z z0 path p cl cr Hs L0 Hn) as (cl0 & cr0 & Hn0).
  destruct (load_child_listed N t z0 path false p cl0 cr0 (proj1 L0) Hn0) as (z1 & E1 & L1 & G1 & C1). zstep E1. cbn [Z.eqb negb].
  pose proof L1 as (S1 & _ & _ & Q1). destruct (node_same N t z0 z1 path p cl0 cr0 (proj1 L0) L1 Hn0) as (cl1 & cr1 & Hn1).
  destruct (load_child_listed N t z1 path true p cl1 cr1 S1 Hn1) as (z2 & E2 & L2 & G2 & C2).
  replace (at_page z1 p) with (at_page z0 p) in E2 by (unfold at_page; by rewrite G1).
  exists z2. split_and!; [done | by apply (listed_trans N t z z0); [| apply (listed_trans N t z0 z1)] |]. intros [|] Hd; [by apply C2 |]. apply L2. by apply C1.
Qed.

(** The name of a file. *)
Lemma cat_name name :
  (length name <= 1008)%nat ->
  exists b, shbuf_cat E shbuf_init name = Done b /\ data b = Some (name ++ replicate (Z.to_nat 8192 - length name) 0).
Proof.
  intros Hn. unfold shbuf_cat. cbn [data_of shbuf_init]. rewrite Z.add_0_l, (wrap_small 64 (Z.of_nat (length name))), wrap_small by rlia.
  unfold shbuf_grow. rewrite (wrap_small 64) by rlia.
  replace ((Z.of_nat (length name) + 1 + 1) / 8192) with 0 by (symmetry; apply Z.div_small; lia).
  change (sint 32 (0 + 1) * 8192) with 8192. change ((INT_MAX <? 8192) || (8192 <? - INT_MAX - 1)) with false. cbn iota.
  change (u64 8192) with 8192. change (8192 <=? data_max shbuf_init) with false. change (has_flag (ShBuf.flags shbuf_init) SHBUF_FMAP) with false.
  cbn iota. unfold grow_alloc. cbn [data shbuf_init]. rewrite Hcalloc. cbn [obind fst data data_of shbuf_init].
  change (Z.to_nat 0) with 0%nat. unfold mem_write. rewrite decide_True by (rewrite length_replicate; lia).
  cbn [obind]. rewrite take_0, app_nil_l, Nat.add_0_l, drop_replicate. by eexists.
Qed.

Lemma filename_ok N t z r n name :
  seen N t z -> 0 < r < N -> fget (pg z r) mod_name 4 = htonl n -> 0 < n < N -> raw_at (pg z n) name -> good_name name ->
  exists z', shz_filename E r PATH_MAX z = Done (z', (0, name)) /\ listed N t z z'.
Proof.
  intros Hs Hr Hm Hn (Hl & Hsz & Hd) (_ & _ & Hz). pose proof (a_N _ _ (proj1 Hs)) as HN. unfold MAX_PAGES in HN.
  unfold shz_filename. destruct (page_listed N t z r Hs ltac:(lia)) as (z1 & E1 & L1). zstep E1. cbn iota.
  pose proof (proj1 (proj2 L1)) as Pg1. assert (inside z1 r) as Hir by (apply (arch_inside N); [apply L1 | lia]).
  zstep (ldn_ok (at_page z1 r) z1 r mod_name 4 eq_refl Hir ltac:(olia)). rewrite Pg1, Hm, htonl_involutive by rlia.
  destruct (cat_name name Hl) as (b & Eb & Hb). destruct (page_listed N t z1 n (proj1 L1) ltac:(lia)) as (z2 & E2 & L2).
  pose proof (listed_trans N t z z1 z2 L1 L2) as L02. pose proof (proj1 (proj2 L02)) as Pg2.
  assert (inside z2 n) as Hin by (apply (arch_inside N); [apply L2 | lia]).
  assert (shz_raw_read E n shbuf_init z1 = Done (z2, (0, b))) as Er.
  { unfold shz_raw_read. zstep E2. cbn iota.
    zstep (@page_size_ok (at_page z2 n) z2 n eq_refl Hin). rewrite Pg2, Hsz by lia. change sizeof_data with 16. rewrite Z.add_simpl_r.
    rewrite sint_u64_small by lia. destruct (Z.ltb_spec (Z.of_nat (length name)) 0); [lia |]. rewrite Nat2Z.id.
    zstep (ld_ok (at_page z2 n) z2 n (Z.to_nat 16) (length name) eq_refl Hin ltac:(lia)). change (Z.to_nat 16) with 16%nat. rewrite Pg2, Hd by lia.
    unfold zlift, zbind. by rewrite Eb. }
  zstep Er. cbn [Z.eqb negb]. rewrite Hb. exists z2. split; [|done].
  assert (exists rest, replicate (Z.to_nat 8192 - length name) 0 = 0 :: rest) as (rest & Erest).
  { exists (replicate (Z.to_nat 8191 - length name) 0). replace (Z.to_nat 8192 - length name)%nat with (S (Z.to_nat 8191 - length name)) by lia. done. }
  rewrite length_app, length_replicate.
  destruct (Z.ltb_spec (Z.of_nat (length name + (Z.to_nat 8192 - length name))) PATH_MAX); [unfold PATH_MAX in *; lia |].
  cbn [andb]. rewrite Erest, cstring_zero by done. rewrite take_ge by (unfold PATH_MAX; lia). done.
Qed.

(** The content of a file. *)
Lemma mod_read_ok N z t r name content :
  arch N z -> 0 < r < N -> file_at E Hcalloc Hmenv (z_flags z) z N t r name content ->
  exists z' b, shz_mod_read E (at_page z r) shbuf_init z = Done (z', (0, b)) /\ arch N z' /\ grown z z' /\
    contents b = content /\ data_of b = Z.of_nat (length content).
Proof.
  intros Hf Hr (n & lo & hi & b & ds & _ & (_ & _ & Hroom) & (Hseq & Hb) & Hlo & Hhi & _ & Hix & Hds).
  pose proof (a_N _ _ Hf) as HN. unfold MAX_PAGES in HN.
  assert (inside z r) as Hir by (apply (arch_inside N); [done | lia]).
  unfold shz_mod_read. zstep (ldn_ok (at_page z r) z r mod_seq 4 eq_refl Hir ltac:(olia)). rewrite Hseq, htonl_involutive by rlia.
  change SHZ_PAGE_SIZE with 1024. rewrite (wrap_small 32 (b * 1024)), wrap_small by rlia.
  destruct (alloc_ok E Hmenv N z (b * 1024 + 1024) Hf) as (z1 & E1 & A1 & G1 & _); [lia | unfold GROW_LIMIT, INT_MAX; lia |].
  zstep E1. cbn [Z.eqb negb]. rewrite zget_step, (g_flags _ _ G1).
  assert (indexed (SIO := sel_io E Hcalloc Hmenv (z_flags z)) E z1 lo hi b ds) as Hix1.
  { apply (indexed_agree (SIO := sel_io E Hcalloc Hmenv (z_flags z)) E z); [|done]. intros c Hc. apply (grown_pg N); [done | done | lia]. }
  destruct (index_read_ok (SIO := sel_io E Hcalloc Hmenv (z_flags z)) E Hmenv N z1 lo hi b ds shbuf_init A1) as (z2 & buff & E2 & A2 & G2 & W2 & C2);
    [lia | lia | done | apply rbuf_init | cbn; by rewrite Hds |].
  cbn in C2. rewrite Hds in C2. exists z2, buff. split_and!; [done | done | by transitivity z1 | done |].
  rewrite <- C2. symmetry. apply contents_length, W2.
Qed.

(** ** The calls of a listing *)

Context (fnmatch : bytes -> bytes -> bool) (op : Z -> bytes -> bytes -> Z) (Hop : forall b p c, op b p c = 0).
Context (rel : bytes) (fspec : option bytes) (Hrel : Z.of_nat (length rel) + 1 + 1008 <= PATH_MAX).

Definition wanted (name : bytes) : bool := match fspec with Some p => fnmatch p name | None => true end.

Section table.
Context (N : Z) (t : dtree) (nm ct : Z -> bytes).

Definition call_of (r : Z) : list list_call := if wanted (nm r) then [(r, rel ++ 47 :: nm r, ct r)] else [].

(** The file of entry [r] is stored. *)
Definition holds (z : shz_t) (r : Z) : Prop :=
  0 < r < N /\ (r ∉ dpages t) /\ good_name (nm r) /\ file_at E Hcalloc Hmenv (z_flags z) z N t r (nm r) (ct r).

Lemma holds_listed z z' r : listed N t z z' -> holds z r -> holds z' r.
Proof.
  intros (_ & Hpg & Hfl & _) (Hr & Hn & Hg & Hf). split; [done |]. split; [done |]. split; [done |]. rewrite Hfl.
  apply (file_at_frame E Hcalloc Hmenv (z_flags z) z z' N N t t); try (done || lia).
  - intros p Hp. by left.
  - intros c Hc _. apply Hpg. lia.
Qed.

Lemma list_slot_ok z path p cl cr sl l r h :
  seen N t z -> node_at (get_table FTable z) path = TNode p cl cr -> dnode_at t path = DNode p sl l r -> 0 <= h < 240 ->
  (slot sl h <> 0 -> holds z (slot sl h)) ->
  exists z', list_slot E fnmatch op path rel fspec h z = Done (z', (0, if slot sl h =? 0 then [] else call_of (slot sl h))) /\
    listed N t z z'.
Proof.
  intros Hs Hn Hd Hh Hheld. pose proof Hs as (Hf & Hr & Hc). pose proof (rep_at z N t path Hr) as Hrp. rewrite Hd in Hrp.
  pose proof Hrp as (Hp & (_ & Hsl & Hslot) & _). pose proof (a_N _ _ Hf) as HN. unfold MAX_PAGES in HN.
  unfold list_slot, shz_tree_data. rewrite zget_step. change (z_ftable z) with (get_table FTable z). rewrite Hn. cbn iota.
  destruct (page_listed N t z p Hs ltac:(lia)) as (z1 & E1 & L1). zstep E1. cbn iota. pose proof (proj1 (proj2 L1)) as Pg1.
  assert (inside z1 p) as Hi by (apply (arch_inside N); [apply L1 | lia]).
  zstep (ldn_ok (at_page z1 p) z1 p (seg_off h) 4 eq_refl Hi ltac:(rewrite seg_off_val; lia)). rewrite Pg1, Hslot by lia.
  pose proof (slot_range sl h Hsl) as Hsr. destruct (Z.eqb_spec (slot sl h) 0) as [->|Hne].
  { by exists z1. }
  pose proof (htonl_nonzero (slot sl h) ltac:(lia)). destruct (Z.eqb_spec (htonl (slot sl h)) 0) as [|_]; [done |].
  rewrite htonl_involutive by rlia. specialize (Hheld Hne). apply (holds_listed z z1 _ L1) in Hheld as (Hrr & Hnp & Hg & Hfile).
  set (b := slot sl h) in *.
  pose proof Hfile as (nb & lo & hi & sq & ds & (F1 & F2 & F3 & F4) & _). pose proof Hg as (Hg1 & Hg2 & _).
  destruct (filename_ok N t z1 b nb (nm b) (proj1 L1) Hrr F1 F2 F4 Hg) as (z2 & E2 & L2). zstep E2. cbn [Z.eqb negb].
  destruct (page_listed N t z2 b (proj1 L2) ltac:(lia)) as (z3 & E3 & L3). zstep E3. cbn iota. unfold call_of, wanted.
  pose proof (listed_trans N t z1 z2 z3 L2 L3) as L13. pose proof (listed_trans N t z z1 z3 L1 L13) as L03.
  destruct (nm b) as [|c0 rest] eqn:Hnm; [done |]. rewrite <- Hnm in *.
  assert ((match fspec with Some p0 => negb (fnmatch p0 (nm b)) | None => false end) =
          negb (match fspec with Some p0 => fnmatch p0 (nm b) | None => true end)) as -> by (by destruct fspec).
  destruct (match fspec with Some p0 => fnmatch p0 (nm b) | None => true end); cbn [negb].
  2:{ by exists z3. }
  destruct (holds_listed z1 z3 b L13) as (_ & _ & _ & Hfile3); [exact (conj Hrr (conj Hnp (conj Hg Hfile))) |].
  pose proof Hfile3 as (_ & _ & _ & _ & _ & _ & (F5 & F6 & F7) & _).
  destruct (mod_read_ok N z3 t b (nm b) (ct b) (proj1 (proj1 L3)) Hrr Hfile3) as (z4 & buff & E4 & A4 & G4 & C4 & D4). zstep E4. cbn [Z.eqb negb].
  pose proof (grown_listed N t z3 z4 (proj1 L3) A4 G4) as L4. destruct (page_listed N t z4 b (proj1 L4) ltac:(lia)) as (z5 & E5 & L5).
  zstep E5. cbn iota. pose proof (listed_trans N t z3 z4 z5 L4 L5) as L35. pose proof (proj1 (proj2 L35)) as Pg5.
  assert (inside z5 b) as Hi5 by (apply (arch_inside N); [apply L5 | lia]).
  zstep (ldn_ok (at_page z5 b) z5 b mod_size 4 eq_refl Hi5 ltac:(olia)). rewrite Pg5, F5, D4 by lia.
  rewrite htonl_involutive by (unfold room_for, GROW_LIMIT, INT_MAX in F7; rlia). rewrite Z.eqb_refl. cbn [negb].
  zstep (ldn_ok (at_page z5 b) z5 b mod_crc 4 eq_refl Hi5 ltac:(olia)). rewrite Pg5, F6, C4, Z.eqb_refl by lia. cbn [negb].
  destruct (Z.ltb_spec PATH_MAX (Z.of_nat (length rel) + 1 + Z.of_nat (length (nm b)))); [lia |].
  rewrite Hop. exists z5. split; [done | by apply (listed_trans N t z z3)].
Qed.

(** The entries of the slots from [h] on. *)
Definition slot_refs (h : nat) (sl : list Z) : list Z := List.filter (fun r => negb (r =? 0)) (drop h sl).

Lemma slot_refs_step h sl :
  (h < length sl)%nat -> slot_refs h sl = (if slot sl (Z.of_nat h) =? 0 then [] else [slot sl (Z.of_nat h)]) ++ slot_refs (S h) sl.
Proof.
  intros Hh. unfold slot_refs, slot. rewrite Nat2Z.id. destruct (lookup_lt_is_Some_2 sl h Hh) as [x Hx].
  rewrite (drop_S sl x h Hx), (nth_lookup_Some sl h 0 x Hx). cbn [List.filter]. by destruct (x =? 0).
Qed.

Lemma list_slots_ok path p sl l r : forall n h z cl cr,
  seen N t z -> node_at (get_table FTable z) path = TNode p cl cr -> dnode_at t path = DNode p sl l r -> (h + n)%nat = 240%nat ->
  (forall x, x ∈ slot_refs h sl -> holds z x) ->
  exists z', list_slots E fnmatch op n path rel fspec (Z.of_nat h) z = Done (z', (0, concat (map call_of (slot_refs h sl)))) /\ listed N t z z'.
Proof.
  induction n as [|n IH]; intros h z cl cr Hs Hn Hd Hh Hheld.
  all: assert (length sl = 240%nat) as Hlen by (pose proof (rep_at z N t path (proj1 (proj2 Hs))) as Hrp; rewrite Hd in Hrp; apply Hrp).
  { exists z. split; [|by apply listed_refl]. unfold slot_refs. by rewrite drop_ge by lia. }
  cbn [list_slots]. rewrite slot_refs_step in * by lia.
  destruct (list_slot_ok z path p cl cr sl l r (Z.of_nat h) Hs Hn Hd) as (z1 & E1 & L1); [lia | |].
  { intros Hne. apply Hheld. destruct (Z.eqb_spec (slot sl (Z.of_nat h)) 0); [done |]. by apply elem_of_cons; left. }
  zstep E1. cbn beta iota. cbn [Z.eqb negb]. destruct (node_same N t z z1 path p cl cr Hs L1 Hn) as (cl1 & cr1 & Hn1).
  destruct (IH (S h) z1 cl1 cr1 (proj1 L1) Hn1 Hd) as (z2 & E2 & L2); [lia | |].
  { intros x Hx. apply (holds_listed z); [done |]. apply Hheld, elem_of_app. by right. }
  replace (Z.of_nat h + 1) with (Z.of_nat (S h)) by lia. zstep E2. exists z2. split; [|by apply (listed_trans N t z z1)].
  do 3 f_equal. rewrite map_app, concat_app. f_equal. destruct (slot sl (Z.of_nat h) =? 0); [done |]. cbn. by rewrite app_nil_r.
Qed.

Lemma list_r_ok : forall fuel s path z,
  seen N t z -> dnode_at t path = s -> s <> DNil -> node_at (get_table FTable z) path <> TNil -> (length (dpages s) < fuel)%nat ->
  (forall x, x ∈ drefs s -> holds z x) ->
  exists z', shz_list_r E fnmatch op fuel path rel fspec z = Done (z', (0, concat (map call_of (drefs s)))) /\ listed N t z z'.
Proof.
  induction fuel as [|fuel IH]; intros s path z Hs Hd Hne Hn Hfuel Hheld; [lia |].
  destruct s as [|p sl l r]; [done |].
  assert (exists cl cr, node_at (get_table FTable z) path = TNode p cl cr) as (cl & cr & Hnode).
  { pose proof (cached_at _ _ path (proj2 (proj2 Hs))) as Hc. rewrite Hd in Hc. destruct (node_at (get_table FTable z) path) as [|q ql qr]; [done |].
    destruct Hc as [-> _]. by eexists _, _. }
  cbn [shz_list_r]. destruct (map_load_listed N t z path p cl cr Hs Hnode) as (z1 & E1 & L1 & C1). zstep E1. cbn [Z.eqb negb].
  cbn [dpages length drefs] in *. rewrite length_app in Hfuel.
  set (sub := fun d : side => t0 <~ zget z_ftable;
    match child d (node_at t0 path) with TNil => zret (0, []) | _ => shz_list_r E fnmatch op fuel (path ++ [d]) rel fspec end).
  assert (forall d za, listed N t z za ->
    (dnode_at t (path ++ [d]) <> DNil -> node_at (get_table FTable za) (path ++ [d]) <> TNil) ->
    exists zb, sub d za = Done (zb, (0, concat (map call_of (drefs (if d then r else l))))) /\ listed N t za zb) as Hsub.
  { intros d za La Ha. assert (dnode_at t (path ++ [d]) = if d then r else l) as Hdd by (by rewrite dnode_at_app, Hd).
    unfold sub. rewrite zget_step. change (z_ftable za) with (get_table FTable za). rewrite <- node_at_app.
    destruct (node_at (get_table FTable za) (path ++ [d])) as [|q ql qr] eqn:Hna.
    - exists za. split; [|apply listed_refl, La]. destruct (if d then r else l) eqn:Hx; [done |]. exfalso. by apply Ha; [rewrite Hdd |].
    - apply IH; [apply La | done | | by rewrite Hna | destruct d; lia |].
      + intros Hx. pose proof (cached_at _ _ (path ++ [d]) (proj2 (proj2 (proj1 La)))) as Hc. by rewrite Hna, Hdd, Hx in Hc.
      + intros x Hx. apply (holds_listed z); [done |]. apply Hheld. rewrite !elem_of_app. destruct d; auto. }
  destruct (Hsub false z1 L1 (C1 false)) as (z2 & E2 & L2). unfold sub in E2. cbv beta in E2. zstep E2. cbn beta iota. cbn [Z.eqb negb].
  assert (listed N t z z2) as L02 by (by apply (listed_trans N t z z1)).
  destruct (Hsub true z2 L02) as (z3 & E3 & L3); [intros Hx; apply L2; by apply C1 |]. unfold sub in E3. cbv beta in E3. zstep E3. cbn beta iota. cbn [Z.eqb negb].
  assert (listed N t z z3) as L03 by (by apply (listed_trans N t z z2)).
  destruct (node_same N t z z3 path p cl cr Hs L03 Hnode) as (cl3 & cr3 & Hn3).
  destruct (list_slots_ok path p sl l r (Z.to_nat SHZ_HASH_MASK) 0 z3 cl3 cr3 (proj1 L03) Hn3 Hd eq_refl) as (z4 & E4 & L4).
  { intros x Hx. apply (holds_listed z); [done |]. apply Hheld. rewrite !elem_of_app. by right; right. }
  change (Z.of_nat 0) with 0 in E4. zstep E4. exists z4. split; [|by apply (listed_trans N t z z3)].
  do 3 f_equal. by rewrite !map_app, !concat_app.
Qed.
End table.

Lemma calls_perm nm ct (l : list Z) :
  map (fun c : list_call => (c.1.2, c.2)) (concat (map (call_of nm ct) l)) =
  map (fun f : bytes * bytes => (rel ++ 47 :: f.1, f.2)) (filter (fun f => wanted f.1 = true) (map (fun r => (nm r, ct r)) l)).
Proof.
  induction l as [|r l IH]; [done |]. cbn [map concat]. rewrite map_app, IH. unfold call_of at 1. rewrite filter_cons. cbn [fst].
  destruct (wanted (nm r)) eqn:Hw; [rewrite decide_True by done; done | rewrite decide_False by done; done].
Qed.

(** A listing leaves the files. *)
Lemma archive_listed N t K files z z' :
  archive E Hcalloc Hmenv N z t K files -> listed N t z z' -> archive E Hcalloc Hmenv N z' t K files.
Proof.
  intros (Hinv & (Hb1 & Hb2 & d & Hd & Hb3) & nm & ct & Hf & Hmap) Hl. pose proof Hl as ((Ha & Hr & Hc) & Hpg & Hfl & Hq).
  pose proof (a_N _ _ Ha) as HN. pose proof Hinv as ((Ht & Hg & _ & _ & Hnd) & He & Hk).
  split; [split; [split_and!; try done; by apply (Hq []) | split; [|done]] | split].
  - intros r Hrr. apply (entry_ok_page z); [by apply He |]. apply Hpg. destruct (He r Hrr) as ((M1 & _) & _). lia.
  - split_and!; [by rewrite Hpg by lia | by rewrite Hpg by lia |]. exists d. split; [done |]. by rewrite Hpg by lia.
  - exists nm, ct. split; [|done]. intros r Hrr. destruct (Hf r Hrr) as (H1 & H2 & H3). split; [done |]. split; [done |].
    destruct (He r Hrr) as ((M1 & _) & _ & M4 & _).
    destruct (holds_listed N t nm ct z z' r Hl) as (_ & _ & _ & H4); [|done]. exact (conj M1 (conj M4 (conj H2 H3))).
Qed.

Lemma list_files_ok N z t K files :
  arch N z -> archive E Hcalloc Hmenv N z t K files ->
  exists z' calls, shz_list_r E fnmatch op (walk_fuel z) [] rel fspec z = Done (z', (0, calls)) /\
    map (fun c : list_call => (c.1.2, c.2)) calls ≡ₚ
      map (fun f : bytes * bytes => (rel ++ 47 :: f.1, f.2)) (map_to_list (filter (fun f : bytes * bytes => wanted f.1 = true) files)) /\
    arch N z' /\ archive E Hcalloc Hmenv N z' t K files.
Proof.
  intros Ha Har. pose proof Har as (Hinv & _ & nm & ct & Hf & Hmap). pose proof Hinv as ((Ht & Hg & Hc & Hr & Hnd) & He & Hk).
  destruct (list_r_ok N t nm ct (walk_fuel z) t [] z) as (z' & E1 & L1); try done.
  { by apply (walk_fuel_ok N). }
  { intros r Hrr. destruct (Hf r Hrr) as (_ & H2 & H3). destruct (He r Hrr) as ((M1 & _) & _ & M4 & _). exact (conj M1 (conj M4 (conj H2 H3))). }
  exists z', (concat (map (call_of nm ct) (drefs t))). split; [done |]. split; [|split; [apply L1 | by apply (archive_listed N t K files z)]].
  rewrite calls_perm. apply fmap_Permutation. rewrite Hmap. symmetry. apply (filter_names (fun f => wanted f.1 = true)).
  rewrite <- list_fmap_compose. apply (names_nodup nm K); [|done]. intros r Hrr. by apply Hf.
Qed.
End listing.

(** ** Closing and opening again *)

Section reopening.
Context (E : env) (Hcalloc : forall n, calloc_ok E n = true) (Hmenv : mapped_env E).
Context {zl : zlib} {zlo : zlib_ok zl}.

(** A root page that is there is loaded. *)
Lemma table_open_ok tb N z p :
  arch N z -> 0 < p < N -> fget (pg z 0) (table_off tb) 4 = htonl p ->
  exists z', table_init E tb z = Done (set_table tb (TNode p TNil TNil) z', tt) /\ arch N z' /\ grown (set_table tb TNil z) z'.
Proof.
  intros Ha Hp Hv. unfold table_init. rewrite zset_step. set (z0 := set_table tb TNil z).
  assert (arch N z0) as A0 by (by apply arch_set_table). pose proof (a_N _ _ Ha) as HN. unfold MAX_PAGES in HN.
  assert (inside z0 0) as Hi by (apply (arch_inside N); [done | lia]).
  zstep (base_get_ok z0 (table_off tb) 4 Hi ltac:(destruct tb; cbn [table_off]; olia)). 
  assert (fget (pg z0 0) (table_off tb) 4 = htonl p) as -> by (unfold z0; by rewrite set_table_pg).
  pose proof (htonl_nonzero p ltac:(lia)). destruct (Z.eqb_spec (htonl p) 0); [done |]. rewrite htonl_involutive by rlia.
  destruct (page_ok E Hmenv N z0 p A0 ltac:(lia)) as (z1 & E1 & A1 & G1 & _). zstep E1. cbn iota. rewrite zret_step. cbn iota.
  exists z1. split_and!; try done. unfold zset, shz_tree_new. by rewrite (node_ok_true E Hcalloc).
Qed.

(** The file a closed archive leaves: its pages. *)
Definition archive_file (N : Z) (z : shz_t) : bytes := take (Z.to_nat (N * 1024)) (dat z).

Lemma length_archive_file N z : arch N z -> length (archive_file N z) = Z.to_nat (N * 1024).
Proof. intros []. unfold archive_file. rewrite length_take. lia. Qed.

Lemma close_ok N z : arch N z -> has_flag (z_flags z) SHZ_ALLOC = true -> shz_arch_free z = Done (None, archive_file N z).
Proof.
  intros Ha Hfl. unfold shz_arch_free. rewrite (size_ok N z Ha). cbn [obind snd]. rewrite Hfl.
  pose proof (a_data _ _ Ha) as Hda. destruct Ha. unfold MAX_PAGES in *. rewrite wrap_small by rlia. destruct (Z.eqb_spec (fd (z_buff z)) 0); [lia |].
  do 2 f_equal. unfold truncate_file, archive_file. rewrite Hda. rewrite length_app.
  replace (Z.to_nat (N * 1024) - _)%nat with 0%nat by lia. cbn [replicate]. rewrite app_nil_r, take_app_le by lia. done.
Qed.

(** An archive mapped from the file, with [j] zero bytes behind the pages, [d]
    of them in the mapping. *)
Definition mapped_arch (fdn : Z) (F : bytes) (d j : nat) (g : nat) : shz_t :=
  let max := Z.of_nat (length F + d) in
  mk_shz 0 0 (mk_buf (Some (F ++ replicate d 0)) max max 0 SHBUF_FMAP fdn) (F ++ replicate j 0) g TNil TNil.

Lemma mapped_arch_ok N z fdn d j g :
  arch N z -> 0 < fdn -> N * 1024 + Z.of_nat d <= INT_MAX ->
  arch N (mapped_arch fdn (archive_file N z) d j g) /\
  forall c, 0 <= c < N -> pg (mapped_arch fdn (archive_file N z) d j g) c = pg z c.
Proof.
  intros Ha Hfd Hmax. pose proof (length_archive_file N z Ha) as Hl. set (F := archive_file N z) in *.
  assert (dat (mapped_arch fdn F d j g) = F ++ replicate d 0) as Ed by done.
  assert (forall c, 0 <= c < N -> pg (mapped_arch fdn F d j g) c = pg z c) as Hpg.
  { intros c Hc. unfold pg. rewrite Ed, slice_app_l by lia. unfold F, archive_file, slice.
    rewrite skipn_firstn_comm, take_take. f_equal. lia. }
  split; [|done]. pose proof (a_N _ _ Ha) as HN. split; try done.
  - rewrite Ed. cbn [mapped_arch z_buff data_max]. llia.
  - cbn [mapped_arch z_buff data_max data_of]. lia.
  - exists (j - d)%nat. rewrite Ed. cbn [mapped_arch z_file]. rewrite length_app, length_replicate, <- drop_drop, drop_app_length.
    apply drop_replicate.
  - cbn [mapped_arch z_buff data_max]. lia.
  - cbn [mapped_arch z_bseq]. lia.
  - rewrite Hpg by lia. apply (a_size _ _ Ha).
  - rewrite Ed, <- Hl, drop_app_length. f_equal. llia.
Qed.

Lemma file_image (F : bytes) k n : (length F <= n)%nat -> (n <= length F + k)%nat -> take n (F ++ replicate k 0) = F ++ replicate (n - length F) 0.
Proof. intros H1 H2. rewrite take_app_ge by lia. rewrite take_replicate. do 2 f_equal. lia. Qed.

(** Opening the file of an archive maps all its pages if they fit the first
    allocation of 64 pages, or if they are a whole number of blocks: the mapping
    of a larger file is rounded down to blocks of eight pages. *)
Definition reopens (N : Z) : Prop := N <= 64 \/ N mod 8 = 0.

Lemma map_file_ok N z fdn :
  arch N z -> 0 < fdn -> reopens N ->
  exists buff file d j g, shbuf_file E fdn (archive_file N z) = Done (Some buff, file) /\ 1024 <= data_of buff /\
    shz_alloc E 65536 (mk_shz 0 0 buff file 0 TNil TNil) = Done (mapped_arch fdn (archive_file N z) d j g, 0) /\
    N * 1024 + Z.of_nat d <= INT_MAX.
Proof.
  intros Ha Hfd HN. pose proof (a_N _ _ Ha) as HN1. unfold MAX_PAGES in HN1. pose proof (length_archive_file N z Ha) as Hl.
  set (F := archive_file N z) in *. unfold shbuf_file. destruct (Z.eqb_spec fdn (-1)); [lia |].
  set (M := SHARE_PAGE_SIZE * _). assert (exists q, M = 8192 * q /\ 2 <= q /\ (q = 2 \/ q = N / 8) /\ N / 8 <= q) as (q & HM & Hq & Hq' & Hq2).
  { unfold M. change SHARE_PAGE_SIZE with 8192. eexists. split; [done |]. rewrite Hl, Z2Nat.id by lia.
    replace (N * 1024 / 8192) with (N / 8) by mlia. lia. }
  clearbody M. destruct (page_divides E Hmenv M) as [H1 H2]; [exists q; unfold SHARE_PAGE_SIZE; lia | lia |].
  destruct (growmap_file_ok E (mk_buf None 0 0 0 0 fdn) F M) as (k & Hk & ->); try (done || apply Hmenv); [cbn [data]; lia |].
  cbn [obind Z.eqb fd data_pos ShBuf.flags]. change (Z.lor 0 SHBUF_FMAP) with SHBUF_FMAP.
  set (file := F ++ replicate k 0). set (buff := mk_buf _ M M 0 SHBUF_FMAP fdn).
  assert (length (take (Z.to_nat M) file) = Z.to_nat M) as Hlt by (rewrite length_take; unfold file; llia).
  set (z0 := mk_shz 0 0 buff file 0 TNil TNil).
  enough (exists d j g, shz_alloc E 65536 z0 = Done (mapped_arch fdn F d j g, 0) /\ N * 1024 + Z.of_nat d <= INT_MAX) as (d & j & g & Ea & Hd).
  { exists buff, file, d, j, g. split; [done |]. split; [cbn [buff data_of]; lia |]. by split. }
  unfold shz_alloc, alloc_with. change (u64 ((u64 (65536 - 1) / SHZ_ALLOC_SIZE + 1) * SHZ_ALLOC_SIZE)) with 65536.
  assert (shz_avail z0 = M) as -> by (unfold shz_avail; cbn [z_buff z0 data_max buff z_bseq]; unfold SHZ_PAGE_SIZE;
    rewrite (wrap_small 32) by rlia; rewrite wrap_small by (ranges; mlia); lia).
  assert (forall len, M <= len -> (SHARE_PAGE_SIZE | len) -> N * 1024 <= len <= 2147483647 -> exists j g, grow_buff E len z0 = Done (mapped_arch fdn F (Z.to_nat (len - N * 1024)) j g, 0)) as Hgrow.
  { intros len Hn Hd Hb. unfold grow_buff. cbn [z_buff z0 fd buff data z_file]. destruct (Z.ltb_spec 0 fdn); [|lia].
    rewrite Hlt. rewrite take_drop.
    assert (forall j, len <= Z.of_nat (length F + j) -> mk_buf (Some (take (Z.to_nat len) (F ++ replicate j 0))) len len 0 SHBUF_FMAP fdn =
      z_buff (mapped_arch fdn F (Z.to_nat (len - N * 1024)) 0 0)) as Hb'.
    { intros j Hj. cbn [mapped_arch z_buff]. rewrite file_image by lia.
      replace (Z.to_nat len - length F)%nat with (Z.to_nat (len - N * 1024)) by lia.
      by replace (Z.of_nat (length F + Z.to_nat (len - N * 1024))) with len by lia. }
    destruct (Z_lt_le_dec M len) as [Hlt'|Hge].
    - destruct (page_divides E Hmenv len Hd ltac:(lia)) as [G1 G2].
      destruct (growmap_file_ok E buff file len) as (k' & Hk' & ->); try (done || apply Hmenv).
      unfold file in *. rewrite length_app, length_replicate in Hk'. rewrite <- app_assoc, <- replicate_add.
      cbn [buff data_pos ShBuf.flags fd]. change (Z.lor SHBUF_FMAP SHBUF_FMAP) with SHBUF_FMAP. rewrite Hb' by lia.
      eexists _, _. reflexivity.
    - unfold shbuf_growmap. cbn [buff data data_max]. destruct (Z.leb_spec len M); [|lia]. assert (len = M) as -> by lia.
      unfold buff, file. rewrite Hb' by lia. eexists _, _. reflexivity. }
  destruct (Z.ltb_spec 65536 M) as [Hlt'|Hge].
  - exists (Z.to_nat (M - N * 1024)), k, 0%nat.
    assert (N * 1024 <= M) by (unfold reopens in HN; mlia). split; [|unfold INT_MAX; mlia]. do 2 f_equal. unfold z0, mapped_arch. f_equal. unfold buff, file.
    rewrite file_image by (unfold file in Hlt; lia).
    replace (Z.to_nat M - length F)%nat with (Z.to_nat (M - N * 1024)) by lia.
    by replace (Z.of_nat (length F + Z.to_nat (M - N * 1024))) with M by lia.
  - destruct (Hgrow 65536) as (j & g & E1); [lia | by exists 8 | unfold reopens in HN; mlia |].
    exists (Z.to_nat (65536 - N * 1024)), j, g. split; [|unfold INT_MAX; mlia].
    zstep E1. rewrite zget_step. cbn [mapped_arch z_dtable reset_table]. rewrite zret_step, zget_step.
    cbn [mapped_arch z_ftable reset_table]. rewrite zret_step, zget_step. unfold shz_scan, zbind. change (z_bseq (mapped_arch _ _ _ _ _)) with 0.
    destruct (Z.leb_spec 0 (data_max (z_buff z0) / SHZ_PAGE_SIZE)) as [|Hneg]; [done |].
    cbn [z0 z_buff buff data_max] in Hneg. unfold SHZ_PAGE_SIZE in Hneg. mlia.
Qed.

Lemma reopen_ok N z t K files fdn fl rand now :
  arch N z -> archive E Hcalloc Hmenv N z t K files -> has_flag fl SHZ_RAW = has_flag (z_flags z) SHZ_RAW ->
  has_flag fl SHZ_TRUNC = false -> has_flag fl SHZ_FRESH = false -> 0 < fdn -> reopens N ->
  exists z', shz_arch_fopen E 0 fdn (archive_file N z) fl rand now = Done (Some z', 0) /\ arch N z' /\ z_flags z' = Z.lor fl SHZ_ALLOC /\
    archive E Hcalloc Hmenv N z' t K files.
Proof.
  intros Ha (Hinv & (Hb1 & Hb2 & d & Hd & Hb3) & nm & ct & Hf & Hmp) Hraw Htr Hfr Hfd Hre. pose proof Hinv as ((Ht & Hg & Hc & Hr & Hnd) & He & Hk).
  pose proof (a_N _ _ Ha) as HN. unfold shz_arch_fopen. cbn [Z.eqb negb andb].
  destruct (map_file_ok N z fdn Ha Hfd Hre) as (buff & file & dd & j & g & -> & Hbf & Ea & Hdd). cbn [obind].
  set (fl' := Z.lor fl SHZ_ALLOC).
  assert (has_flag fl' SHZ_TRUNC = false /\ has_flag fl' SHZ_FRESH = false /\ has_flag fl' SHZ_RAW = has_flag fl SHZ_RAW) as (Htr' & Hfr' & Hraw').
  { unfold fl', has_flag in *. rewrite !Z.land_lor_distr_l. change (Z.land SHZ_ALLOC SHZ_TRUNC) with 0.
    change (Z.land SHZ_ALLOC SHZ_FRESH) with 0. change (Z.land SHZ_ALLOC SHZ_RAW) with 0. by rewrite !Z.lor_0_r. }
  enough (exists z', shz_arch_init E (Some buff) file fl' rand now = Done (z', 0) /\ arch N z' /\ z_flags z' = fl' /\
    archive E Hcalloc Hmenv N z' t K files) as (z' & -> & H) by (exists z'; by split).
  rewrite <- Hraw' in Hraw. clear Hraw'. clearbody fl'. clear Htr Hfr fl. rename fl' into fl, Htr' into Htr, Hfr' into Hfr.
  unfold shz_arch_init. change SHZ_PAGE_SIZE with 1024.
  destruct (Z.ltb_spec (data_of buff) 1024); [lia |]. rewrite Htr, Hfr.
  set (z0 := mk_shz 0 0 buff file 0 TNil TNil) in *.
  rewrite (@zbind_done _ _ (shz_scan 0 (data_max buff)) _ z0 z0 tt) by done. rewrite zget_step. cbn [z_bseq z0].
  change (Z.max (u32 (0 * 1024)) SHZ_ALLOC_SIZE) with 65536.
  destruct (mapped_arch_ok N z fdn dd j g Ha Hfd Hdd) as [A1 P1]. rename Ea into E1.
  set (z1 := mapped_arch fdn (archive_file N z) dd j g) in *. clearbody z1.
  zstep E1. cbn [Z.eqb negb].
  assert (inside z1 0) as Hi1 by (apply (arch_inside N); [done | lia]).
  assert ((magic <~ base_get hdr_magic 2; if negb (magic =? SHMEM16_MAGIC) then zret SHERR_ILSEQ
           else size <~ base_get base_size 8; if size =? 0 then zret SHERR_ILSEQ else zret 0) z1 = Done (z1, 0)) as E2.
  { zstep (base_get_ok z1 hdr_magic 2 Hi1 ltac:(olia)). rewrite P1, Hb1, Z.eqb_refl by lia. cbn [negb].
    zstep (base_get_ok z1 base_size 8 Hi1 ltac:(olia)). rewrite (a_size _ _ A1).
    destruct (Z.eqb_spec (htonll (N * 1024)) 0) as [Hz|]; [|done]. apply (f_equal htonll) in Hz.
    rewrite htonll_involutive in Hz by (unfold MAX_PAGES in HN; rlia). change (htonll 0) with 0 in Hz. lia. }
  zstep E2. cbn [Z.eqb negb]. unfold shz_arch_dtable_init, shz_arch_ftable_init.
  destruct (table_open_ok DTable N z1 d A1 Hd) as (z2 & E3 & A2 & G2); [cbn [table_off]; by rewrite P1 by lia |]. zstep E3.
  set (z3 := set_table DTable (TNode d TNil TNil) z2). assert (arch N z3) as A3 by (apply arch_set_table; [done | cbn [tree_below]; lia]).
  assert (forall c, 0 <= c < N -> pg z3 c = pg z c) as P3.
  { intros c Hcc. unfold z3. rewrite set_table_pg. rewrite (grown_pg N (set_table DTable TNil z1)) by (done || by apply arch_set_table).
    rewrite set_table_pg. by apply P1. }
  assert (0 < droot t < N) as Hroot by (destruct t; [done | apply Hr]).
  destruct (table_open_ok FTable N z3 (droot t) A3 Hroot) as (z4 & E4 & A4 & G4); [cbn [table_off]; by rewrite P3 by lia |]. zstep E4. rewrite zset_step.
  set (z5 := set_flags fl _). assert (forall c, 0 <= c < N -> pg z5 c = pg z c) as P5.
  { intros c Hcc. transitivity (pg z4 c); [done |]. rewrite (grown_pg N (set_table FTable TNil z3)) by (done || by apply arch_set_table).
    rewrite set_table_pg. by apply P3. }
  assert (arch N z5) as A5 by (destruct (arch_set_table FTable (TNode (droot t) TNil TNil) N z4 A4) as []; [cbn [tree_below]; lia | by split]).
  exists z5. split; [done |]. split; [done |]. split; [done |]. split; [split; [split_and!; try done | split; [|done]] | split].
  - unfold z5. cbn [get_table]. destruct t; [done |]. by split_and!.
  - by apply (rep_listed z).
  - intros r Hrr. apply (entry_ok_page z); [by apply He |]. apply P5. destruct (He r Hrr) as ((M1 & _) & _). lia.
  - split_and!; [by rewrite P5 by lia | by rewrite P5 by lia |]. exists d. split; [done |]. by rewrite P5 by lia.
  - exists nm, ct. split; [|done]. intros r Hrr. destruct (Hf r Hrr) as (H1 & H2 & H3). split; [done |]. split; [done |].
    destruct (He r Hrr) as ((M1 & _) & _ & M4 & _). apply (file_at_flags E Hcalloc Hmenv (z_flags z)); [done |].
    apply (file_at_frame E Hcalloc Hmenv (z_flags z) z z5 N N t t); try (done || lia); [intros p Hp; by left |].
    intros c Hcc _. apply P5. lia.
Qed.
End reopening.
