(* ===== verification/ShShzRoundtrip.v ===== *)
(** * Archives: round trips

    The theorems that make the archives of [share-lib/mem/shmem_shz.c] correct,
    from the lemmas of the files on its layers: what the index of a file keeps,
    writing and listing files as operations on a map from names to contents, and
    the whole way from a list of files to an archive, to the file it is closed to,
    and back when that file is opened again; and the archives whose last pages are
    not mapped then. *)

From Stdlib Require Import ZArith Lia.
From Stdlib Require Import String.
From stdpp Require Import base numbers list sets gmap.
From S2P Require Import Prelude ShCrc ShKey ShBuf ShShz ShShzData ShShzIndex ShShzTree ShShzFile ShShzArchive ShShzList.

Open Scope Z_scope.
Open Scope share_scope.

(** ** The index of a file *)

Lemma kept_length ds k : (length (concat (kept k ds)) <= length (concat ds))%nat.
Proof.
  revert k. induction ds as [|d ds IH]; intros k; [done |]. cbn [kept concat]. rewrite length_app.
  destruct (k =? 252)%nat; [specialize (IH 0%nat); lia |]. cbn [concat]. rewrite length_app. specialize (IH (S k)). lia.
Qed.

Lemma cut_nonempty fuel n l : (0 < n)%nat -> Forall (fun d => d <> []) (cut fuel n l).
Proof.
  intros Hn. revert l. induction fuel as [|fuel IH]; intros l; cbn [cut]; [constructor |]. destruct l as [|x l]; [constructor |].
  constructor; [|apply IH]. destruct n; [lia | done].
Qed.

(** A list of more than 252 segments is not kept as a whole. *)
Lemma kept_shorter ds : Forall (fun d => d <> []) ds -> (252 < length ds)%nat -> (length (concat (kept 0 ds)) < length (concat ds))%nat.
Proof.
  intros Hne Hl. assert (length (take 252 ds) = 252%nat) as Ht by (rewrite length_take; lia). pose proof (take_drop 252 ds) as Hsplit.
  assert (length (drop 252 ds) <> 0)%nat as Hd by (rewrite length_drop; lia). destruct (drop 252 ds) as [|d ds']; [done |].
  set (a := take 252 ds) in *. clearbody a. subst ds. apply Forall_app in Hne as [_ Hne].
  rewrite kept_loses by lia. rewrite !concat_app, !length_app. cbn [concat]. rewrite length_app.
  pose proof (kept_length ds' 0). apply Forall_cons in Hne as [Hd0 _]. destruct d; [done |]. cbn [length]. lia.
Qed.

Section index.
Context (E : env) (Hcalloc : forall n, calloc_ok E n = true) (Hmenv : mapped_env E).
Context {write : bytes -> M (Z * option Z)} {read : Z -> shbuf_t -> M (Z * shbuf_t)} {SIO : segment_io E write read}.

Lemma segs_count content : (length (segs E content) <= 252)%nat <-> (length content <= 252 * seg_max)%nat.
Proof.
  unfold segs. pose proof seg_max_pos as Hp. set (fuel := (Datatypes.S (length content) + _)%nat).
  split; [|apply cut_le]. intros Hl. rewrite <- (concat_cut fuel seg_max content) by (done || unfold fuel; lia).
  assert (forall f l, length (concat (cut f seg_max l)) <= length (cut f seg_max l) * seg_max)%nat as H.
  { clear. intros fuel. induction fuel as [|fuel IH]; intros l; cbn [cut]; [done |]. destruct l as [|x l]; [done |].
    cbn [concat length]. rewrite length_app, length_take. specialize (IH (drop seg_max (x :: l))). lia. }
  specialize (H fuel content). nia.
Qed.

(** C21: Writing data to an archive and reading its index back returns no error,
    for raw and for compressed segments, and gives the data back exactly when
    it has at most 252 segments, the number one index page lists.  Of longer
    data the segment that comes when a page is full is written but not listed,
    so that what is read back is shorter. *)
Theorem shz_index_roundtrip (N : Z) (z : shz_t) (content : bytes) (bnum : Z) :
  full N z -> N + index_cost E (length (segs E content)) <= MAX_PAGES -> room_for (length content) ->
  exists z' N' b z'' buff, shz_index_write E write content bnum z = Done (z', (0, b)) /\ full N' z' /\
    shz_index_read E read shbuf_init b z' = Done (z'', (0, buff)) /\ arch N' z'' /\
    (contents buff = content <-> (length content <= 252 * seg_max)%nat) /\
    ((252 * seg_max < length content)%nat -> (length (contents buff) < length content)%nat).
Proof.
  intros Hf HM Hroom. pose proof (a_N _ _ (proj1 Hf)) as HN.
  destruct (index_write_ok E Hmenv N z content bnum Hf HM) as (z1 & N1 & b & E1 & F1 & B1 & _ & _ & I1 & _).
  pose proof (kept_length (segs E content) 0) as Hk. rewrite concat_segs in Hk.
  destruct (index_read_ok E Hmenv N1 z1 N N1 b _ shbuf_init (proj1 F1) ltac:(lia) ltac:(lia) I1 rbuf_init) as (z2 & buff & E2 & A2 & _ & _ & C2).
  { unfold room_for in *. cbn [contents shbuf_init data]. rewrite app_nil_l. lia. }
  cbn [contents shbuf_init data] in C2. rewrite app_nil_l in C2.
  assert ((252 * seg_max < length content)%nat -> (length (contents buff) < length content)%nat) as Hlt.
  { intros Hl. rewrite C2. rewrite <- (concat_segs E content) at 2. apply kept_shorter.
    - unfold segs. apply cut_nonempty, seg_max_pos.
    - pose proof (proj1 (segs_count content)). lia. }
  exists z1, N1, b, z2, buff. split_and!; try done. split.
  - intros Hc. destruct (le_lt_dec (length content) (252 * seg_max)) as [?|Hl]; [done |]. specialize (Hlt Hl). rewrite Hc in Hlt. lia.
  - intros Hl. rewrite C2, kept_all; [apply concat_segs |]. apply segs_count in Hl. lia.
Qed.
End index.

(** ** Files *)

Section archives.
Context (E : env) (Hcalloc : forall n, calloc_ok E n = true) (Hmenv : mapped_env E).
Context {zl : zlib} {zlo : zlib_ok zl}.


(** C20: Listing an archive, one that was just written or one that was opened
    again, calls the callback exactly once for every file of the map whose name
    matches the pattern, with the name below the given directory and the
    content, when the callback returns no error; the archive still holds the
    same files. *)
Theorem shz_list_refines (fnmatch : bytes -> bytes -> bool) (op : Z -> bytes -> bytes -> Z) (N : Z) (z : shz_t) (t : dtree)
    (K : Z -> shkey_t) (files : gmap bytes bytes) (cwd : bytes) (rel_path fspec : option bytes) :
  arch N z -> archive E Hcalloc Hmenv N z t K files -> (forall b p c, op b p c = 0) ->
  Z.of_nat (length (list_dir cwd rel_path)) + 1 + 1008 <= PATH_MAX ->
  exists z' calls, shz_list E fnmatch op cwd rel_path fspec z = Done (z', (0, calls)) /\
    map (fun c : list_call => (c.1.2, c.2)) calls ≡ₚ
      map (fun f : bytes * bytes => (list_dir cwd rel_path ++ 47 :: f.1, f.2))
        (map_to_list (filter (fun f : bytes * bytes => wanted fnmatch fspec f.1 = true) files)) /\
    arch N z' /\ archive E Hcalloc Hmenv N z' t K files.
Proof. intros Ha Har Hop Hrel. by apply (list_files_ok E Hcalloc Hmenv fnmatch op Hop (list_dir cwd rel_path) fspec Hrel). Qed.

(** ** A list of files *)

(** Writing files one after the other, until one fails. *)
Fixpoint write_files (fs : list (bytes * bytes)) (junk_bidx junk_bnum now : Z) : M Z :=
  match fs with
  | [] => zret 0
  | (name, content) :: fs' =>
      err <~ shz_file_write E name content junk_bidx junk_bnum now;
      if negb (err =? 0) then zret err else write_files fs' junk_bidx junk_bnum now
  end.

Definition name_hash (name : bytes) : Z := hash_num (shkey_bin (Some name)).

(** A bound on the pages of a file: its entry, its name and a page of the table,
    and for every segment of 1008 bytes two pages, or for every compressed segment
    of a megabyte the largest number of pages it can need. *)
Definition file_pages (fl : Z) (content : bytes) : Z :=
  let seg := if has_flag fl SHZ_RAW then 1008 else 1048576 in
  3 + (if has_flag fl SHZ_RAW then 2 else ZLIB_COST + 1) * ((Z.of_nat (length content) + seg - 1) / seg).
Definition all_pages (fl : Z) (fs : list (bytes * bytes)) : Z := foldr (fun f n => file_pages fl f.2 + n) 0 fs.

Lemma file_pages_cost fl content : 3 + file_cost E Hcalloc Hmenv fl content <= file_pages fl content.
Proof.
  unfold file_cost, file_pages, index_cost, file_segs, segs. unfold sel_io, io_of, shz_write_f, shz_read_f.
  destruct (has_flag fl SHZ_RAW); unfold raw_segment_io, zlib_segment_io; cbn [seg_cost seg_max].
  - pose proof (cut_le (S (length content) + Z.to_nat SHZ_MAX_INDEX_SIZE) 1008 content (Z.to_nat ((Z.of_nat (length content) + 1008 - 1) / 1008))) as H.
    assert (0 <= (Z.of_nat (length content) + 1008 - 1) / 1008) by (apply Z.div_pos; lia).
    specialize (H ltac:(mlia)). unfold ZLIB_COST. lia.
  - pose proof (cut_le (S (length content) + Z.to_nat SHZ_MAX_INDEX_SIZE) (Z.to_nat 1048576) content (Z.to_nat ((Z.of_nat (length content) + 1048576 - 1) / 1048576))) as H.
    assert (0 <= (Z.of_nat (length content) + 1048576 - 1) / 1048576) by (apply Z.div_pos; lia).
    specialize (H ltac:(mlia)). unfold ZLIB_COST. nia.
Qed.

(** The files are written to a table of one page, with a slot of its own for each. *)
Definition flat (t : dtree) (used : list Z) : Prop :=
  exists p sl, t = DNode p sl DNil DNil /\ length sl = 240%nat /\ forall h, 0 <= h < 240 -> (h ∉ used) -> slot sl h = 0.

Lemma flat_grows t used d h ref : flat t used -> 0 <= h < 240 -> h ∉ used -> dgrows d h ref t = false.
Proof. intros (p & sl & -> & _ & Hs) Hh Hu. cbn [dgrows]. by rewrite Hs. Qed.

Lemma flat_add t used d h ref n : flat t used -> 0 <= h < 240 -> h ∉ used -> flat (dadd d h ref n t) (h :: used).
Proof.
  intros (p & sl & -> & Hl & Hs) Hh Hu. cbn [dadd]. rewrite Hs by done. cbn [Z.eqb]. exists p, (<[Z.to_nat h := ref]> sl).
  split; [done |]. split; [by rewrite length_insert |]. intros h' Hh' Hn. apply not_elem_of_cons in Hn as [Hne Hn].
  rewrite slot_insert by (done || lia). destruct (Z.eqb_spec h' h); [done | by apply Hs].
Qed.

Lemma write_files_ok junk_bidx junk_bnum now : forall fs N z t K files used,
  full N z -> archive E Hcalloc Hmenv N z t K files -> flat t used -> (forall f, f ∈ dom files -> name_hash f ∈ used) ->
  Forall (fun f => good_name f.1 /\ name_hash f.1 <> 0 /\ Z.of_nat (length f.2) <= max_content (z_flags z)) fs ->
  NoDup (map (fun f => name_hash f.1) fs) -> (forall f, f ∈ fs -> name_hash f.1 ∉ used) ->
  N + all_pages (z_flags z) fs <= MAX_PAGES ->
  exists z' N' t' K', write_files fs junk_bidx junk_bnum now z = Done (z', 0) /\ full N' z' /\ z_flags z' = z_flags z /\
    N' <= N + all_pages (z_flags z) fs /\
    archive E Hcalloc Hmenv N' z' t' K' (list_to_map fs ∪ files).
Proof.
  assert (forall fl fs, 0 <= all_pages fl fs) as Hap.
  { intros fl. induction fs as [|f fs IH]; [done |]. cbn [all_pages foldr]. pose proof (file_pages_cost fl f.2).
    pose proof (index_cost_pos E (SIO := sel_io E Hcalloc Hmenv fl) (length (file_segs E Hcalloc Hmenv fl f.2))) as Hi. unfold file_cost in *. fold (all_pages fl fs). lia. }
  induction fs as [|[name content] fs IH]; intros N z t K files used Hf Har Hfl Hused Hok Hnd Hnew HM.
  { exists z, N, t, K. cbn [list_to_map all_pages foldr]. rewrite (left_id_L ∅ (∪)). split_and!; (done || lia). }
  apply Forall_cons in Hok as [(Hg & Hh & Hl) Hok]. cbn [map fst snd] in *. apply NoDup_cons in Hnd as [Hn0 Hnd].
  pose proof (hash_num_range (shkey_bin (Some name))) as Hr. fold (name_hash name) in Hr.
  assert (name_hash name ∉ used) as Hu by (by apply (Hnew (name, content)), elem_of_cons; left).
  destruct (file_segs_le E Hcalloc Hmenv (z_flags z) content Hl) as (H1 & H2 & H3). pose proof (file_pages_cost (z_flags z) content) as Hm0. pose proof (Hap (z_flags z) fs) as Hm1.
  change (all_pages (z_flags z) ((name, content) :: fs)) with (file_pages (z_flags z) content + all_pages (z_flags z) fs) in *.
  destruct (file_write_ok E Hcalloc Hmenv N z t K files name content junk_bidx junk_bnum now) as (z1 & N1 & E1 & F1 & B1 & L1 & A1); try (done || lia).
  { intros f Hd Heq. apply Hu. unfold name_hash. rewrite <- Heq. by apply Hused. }
  { rewrite (flat_grows t used); done. }
  cbn [write_files]. zstep E1. cbn [Z.eqb negb].
  destruct (IH N1 z1 _ _ _ (name_hash name :: used) F1 A1) as (z2 & N2 & t2 & K2 & E2 & F2 & L2 & B2 & A2).
  - by apply flat_add.
  - intros f Hd. rewrite dom_insert_L in Hd. apply elem_of_union in Hd as [->%elem_of_singleton|Hd]; apply elem_of_cons; [by left | right; by apply Hused].
  - by rewrite L1.
  - done.
  - intros f Hin. apply not_elem_of_cons. split; [|by apply Hnew, elem_of_cons; right]. intros Heq. apply Hn0. rewrite <- Heq.
    apply list_elem_of_fmap. by exists f.
  - rewrite L1. lia.
  - exists z2, N2, t2, K2. split; [done |]. split; [done |]. split; [congruence |]. split; [rewrite L1 in B2; lia |]. cbn [list_to_map foldr fst snd].
    rewrite <- insert_union_l, insert_union_r; [done |]. apply not_elem_of_list_to_map_1. intros (f & Hf1 & Hf2)%list_elem_of_fmap.
    apply Hn0. rewrite Hf1. apply list_elem_of_fmap. by exists f.
Qed.

(** Files written to a new archive file. *)
Lemma write_new_ok (fs : list (bytes * bytes)) (errno fdn fl rand now junk_bidx junk_bnum : Z) :
  errno <> 0 -> 0 < fdn -> has_flag fl SHZ_CREATE = true -> has_flag fl SHZ_TRUNC = false ->
  Forall (fun f => good_name f.1 /\ name_hash f.1 <> 0 /\ Z.of_nat (length f.2) <= max_content fl) fs ->
  NoDup (map (fun f => name_hash f.1) fs) -> 3 + all_pages fl fs <= MAX_PAGES ->
  exists z1 z2 N t K,
    shz_arch_fopen E errno fdn [] fl rand now = Done (Some z1, 0) /\ write_files fs junk_bidx junk_bnum now z1 = Done (z2, 0) /\
    full N z2 /\ z_flags z2 = new_flags fl /\ N <= 3 + all_pages fl fs /\ archive E Hcalloc Hmenv N z2 t K (list_to_map fs).
Proof.
  intros He Hfd Hcr Htr Hok Hnd HM.
  destruct (fopen_new_ok E Hcalloc Hmenv errno fdn fl rand now He Hfd Hcr Htr) as (z1 & E1 & F1 & L1 & _ & T1 & D1 & D2 & M1 & _).
  assert (has_flag (z_flags z1) SHZ_RAW = has_flag fl SHZ_RAW) as HR by (rewrite L1; by apply new_flag).
  assert (all_pages (z_flags z1) fs = all_pages fl fs) as HA.
  { unfold all_pages, file_pages. by rewrite HR. }
  assert (archive E Hcalloc Hmenv 3 z1 (DNode 2 blank_slots DNil DNil) (fun _ => shkey_bin None) ∅) as A1.
  { split; [split; [done | split; [intros r Hr; by apply not_elem_of_nil in Hr | constructor]] | split].
    - split_and!; [done | done |]. exists 1. split; [lia | done].
    - exists (fun _ => []), (fun _ => []). split; [intros r Hr; by apply not_elem_of_nil in Hr | done]. }
  destruct (write_files_ok junk_bidx junk_bnum now fs 3 z1 _ _ ∅ [] F1 A1) as (z2 & N2 & t2 & K2 & E2 & F2 & L2 & B2 & A2).
  { exists 2, blank_slots. split; [done |]. split; [done |]. intros h _ _. apply slot_blank. }
  { intros f Hf. rewrite dom_empty_L in Hf. by apply elem_of_empty in Hf. }
  { unfold max_content in *. by rewrite HR. }
  { done. }
  { intros f _. apply not_elem_of_nil. }
  { by rewrite HA. }
  rewrite HA in B2. rewrite (right_id_L ∅ (∪)) in A2. exists z1, z2, N2, t2, K2. by rewrite L2.
Qed.

End archives.

(** ** Pages behind the mapping *)

(** An archive file that is opened again is mapped in whole blocks of eight
    pages, rounded down.  Looking up a page behind the mapping counts it first,
    so that the difference [shz_avail] computes wraps: nothing is allocated, the
    page is reported as found, and reading it is outside the mapping. *)
Theorem shz_page_beyond_map (E : env) (N b : Z) (z : shz_t) :
  z_data z = Some (dat z) -> Z.of_nat (length (dat z)) = data_max (z_buff z) -> fget (pg z 0) base_size 8 = htonll (N * 1024) ->
  N <= MAX_PAGES -> 0 <= z_bseq z <= b -> b < N -> 1024 <= data_max (z_buff z) <= b * 1024 ->
  (exists z', shz_page E b z = Done (z', Some (at_page z' b)) /\ data_max (z_buff z') = data_max (z_buff z)) /\
  shz_read_page E b z = Fault.
Proof.
  intros Hd Hl Hs HN Hb1 Hb2 Hm. unfold MAX_PAGES in HN. assert (inside z 0) as Hi by (split_and!; (done || lia)).
  assert (shz_size z = Done (z, N * 1024)) as Es.
  { unfold shz_size, base_or. rewrite Hd. rewrite (zbind_done (base_get_ok z base_size 8 Hi ltac:(olia))).
    rewrite Hs, htonll_involutive by rlia. unfold sint. rewrite wrap_small by rlia.
    change (2 ^ (64 - 1)) with 9223372036854775808. destruct (Z.ltb_spec (N * 1024) 9223372036854775808); [done | lia]. }
  assert (shz_page E b z = Done (set_bseq (b + 1) z, Some (at_page z b))) as Ep.
  { unfold shz_page, page_fuel. cbn [page_loop]. rewrite sint_small by lia. rewrite (wrap_small 32 b) by rlia.
    destruct (Z.leb_spec (z_bseq z) b); [|lia]. zstep Es. unfold SHZ_PAGE_SIZE. rewrite Z.quot_mul by lia. rewrite !(wrap_small 64) by rlia.
    destruct (Z.leb_spec N b); [lia |]. rewrite zset_step, zget_step. cbn [z_bseq set_bseq].
    rewrite (wrap_small 32 (b + 1)), (wrap_small 32 ((b + 1) * 1024)), (wrap_small 32 ((b + 1) * 1024 + 1024)) by rlia.
    unfold zbind at 1, alloc_with. destruct (round_up ((b + 1) * 1024 + 1024)) as (k & -> & Hk & _); [unfold INT_MAX; lia |].
    unfold shz_avail. cbn [z_bseq z_buff set_bseq]. unfold SHZ_PAGE_SIZE. rewrite (wrap_small 32) by rlia.
    assert (u64 (data_max (z_buff z) - (b + 1) * 1024) = data_max (z_buff z) - (b + 1) * 1024 + 18446744073709551616) as ->.
    { unfold wrap. change (2 ^ 64) with 18446744073709551616. symmetry. apply (Z.mod_unique _ _ (-1)); lia. }
    destruct (Z.ltb_spec k (data_max (z_buff z) - (b + 1) * 1024 + 18446744073709551616)); [|lia]. cbn [Z.eqb].
    unfold page_ptr, INT_MAX, SHZ_PAGE_SIZE. destruct (Z.leb_spec 0 b); [|lia]. destruct (Z.leb_spec (b * 1024) 2147483647); [|lia]. done. }
  split; [exists (set_bseq (b + 1) z); by split |]. unfold shz_read_page. zstep Ep. cbn iota. unfold zbind at 1.
  unfold ldn, zbind at 1, ld, zbind at 1, deref, at_page. cbn [p_gen p_off z_gen set_bseq]. rewrite Nat.eqb_refl.
  unfold rd. change (z_data (set_bseq (b + 1) z)) with (z_data z). rewrite Hd.
  assert (mem_read (dat z) (Z.to_nat (b * 1024) + hdr_type) 2 = Fault) as ->; [|done].
  unfold mem_read. rewrite decide_False; [done | offs; lia].
Qed.

(** ** Examples *)

(** Pages of 4096 bytes; the memory [realloc] adds is not zero. *)
Definition unix_env : env := mk_env (fun _ => true) (fun _ => true) (fun _ => 170) 4096 (fun _ => true) (-28) true.

(** A library that stores the bytes behind a header of two. *)
Fixpoint pieces (fuel : nat) (d : bytes) : list bytes :=
  match fuel with
  | O => []
  | S fuel' => if Z.of_nat (length d) <? MAX_BUFFER_SIZE then [d] else take (Z.to_nat MAX_BUFFER_SIZE) d :: pieces fuel' (drop (Z.to_nat MAX_BUFFER_SIZE) d)
  end.
Definition deliver (d : bytes) : list (Z * bytes) := map (fun p => (Z_STREAM_END, p)) (pieces (S (length d)) d).
#[local] Instance stored_zlib : zlib :=
  {| deflateInit := 0; z_deflate d := deliver (120 :: 156 :: d); inflateInit2 := 0; z_inflate c := deliver (drop 2 c) |}.

Lemma deliver_ok (ok last : Z -> Prop) d : ok Z_STREAM_END -> last Z_STREAM_END -> delivers ok last (deliver d) d.
Proof.
  intros Ho Hl. unfold deliver. assert (forall fuel d, (length d < fuel)%nat -> delivers ok last (map (fun p => (Z_STREAM_END, p)) (pieces fuel d)) d) as H.
  { induction fuel as [|fuel IH]; intros e He; [lia |]. cbn [pieces]. unfold MAX_BUFFER_SIZE. destruct (Z.ltb_spec (Z.of_nat (length e)) 16384) as [Hlt|Hge].
    - by apply del_last.
    - cbn [map]. rewrite <- (take_drop (Z.to_nat 16384) e) at 3. apply del_more; [done | rewrite length_take; unfold MAX_BUFFER_SIZE; lia |].
      apply IH. rewrite length_drop. lia. }
  apply H. lia.
Qed.

#[local] Instance stored_zlib_ok : zlib_ok stored_zlib.
Proof.
  refine {| compress := fun d => 120 :: 156 :: d |}; try done.
  - intros d n. cbn [length]. unfold n. set (m := Z.of_nat (length d)). assert (0 <= m) by lia.
    pose proof (Z.div_pos m (2 ^ 12) ltac:(lia) ltac:(lia)). pose proof (Z.div_pos m (2 ^ 14) ltac:(lia) ltac:(lia)).
    pose proof (Z.div_pos m (2 ^ 25) ltac:(lia) ltac:(lia)). lia.
  - intros d. by apply deliver_ok.
  - intros d. cbn [drop z_inflate stored_zlib]. apply deliver_ok; [by right | done].
Qed.

Lemma unix_calloc n : calloc_ok unix_env n = true.
Proof. done. Qed.
Lemma unix_map : mapped_env unix_env.
Proof. split; [done | by exists 2 | done | done]. Qed.

Lemma empty_archive fl :
  has_flag fl SHZ_CREATE = true -> has_flag fl SHZ_TRUNC = false ->
  exists z, full 3 z /\ z_flags z = new_flags fl /\ data_max (z_buff z) = 65536 /\ tab_ok FTable z 3 (DNode 2 blank_slots DNil DNil) /\
    archive unix_env unix_calloc unix_map 3 z (DNode 2 blank_slots DNil DNil) (fun _ => shkey_bin None) ∅.
Proof.
  intros Hcr Htr. destruct (fopen_new_ok unix_env unix_calloc unix_map 2 3 fl 7 9 ltac:(done) ltac:(done) Hcr Htr) as (z & _ & F1 & L1 & _ & T1 & D1 & D2 & M1 & R1).
  exists z. split; [done |]. split; [done |]. split; [done |]. split; [done |].
  split; [split; [done | split; [intros r Hr; by apply not_elem_of_nil in Hr | constructor]] | split].
  - split_and!; [done | done |]. exists 1. split; [lia | done].
  - exists (fun _ => []), (fun _ => []). split; [intros r Hr; by apply not_elem_of_nil in Hr | done].
Qed.

(** More than one index page lists, in raw segments. *)
Definition long_text : bytes := replicate (Z.to_nat 254017) 65.
Lemma length_long : length long_text = Z.to_nat 254017.
Proof. apply length_replicate. Qed.

Lemma shz_index_roundtrip_witness :
  exists z z' N' b z'' buff, full 3 z /\
    shz_index_write unix_env (shz_raw_write unix_env) long_text 0 z = Done (z', (0, b)) /\
    full N' z' /\ shz_index_read unix_env (shz_raw_read unix_env) shbuf_init b z' = Done (z'', (0, buff)) /\
    (length (contents buff) < Z.to_nat 254017)%nat.
Proof.
  destruct (empty_archive 1 eq_refl eq_refl) as (z & Hf & _).
  assert (length long_text <= 253 * @seg_max _ _ _ (raw_segment_io unix_env unix_calloc unix_map))%nat as Hl
    by (rewrite length_long; unfold raw_segment_io; cbn [seg_max]; lia).
  pose proof (cut_le (S (length long_text) + Z.to_nat SHZ_MAX_INDEX_SIZE) _ _ _ Hl) as Hc.
  destruct (shz_index_roundtrip unix_env unix_map (SIO := raw_segment_io unix_env unix_calloc unix_map) 3 z
    long_text 0 Hf) as (z' & N' & b & z'' & buff & H1 & H2 & H3 & _ & _ & H5).
  - unfold index_cost, segs. unfold raw_segment_io in *. cbn [seg_cost seg_max] in *. unfold MAX_PAGES. lia.
  - unfold room_for, GROW_LIMIT, INT_MAX. rewrite length_long. lia.
  - exists z, z', N', b, z'', buff. repeat (split; [assumption |]). rewrite length_long in H5. apply H5.
    unfold raw_segment_io. cbn [seg_max]. lia.
Defined.

Lemma good_check (n : bytes) :
  (0 <? Z.of_nat (length n)) && (Z.of_nat (length n) <=? 1008) && forallb (fun c => negb (c =? 0)) n = true -> good_name n.
Proof.
  intros [[H1%Z.ltb_lt H2%Z.leb_le]%andb_true_iff H3]%andb_true_iff. split; [by destruct n |]. split; [lia |].
  rewrite List.forallb_forall in H3. apply Forall_forall. intros c Hc%list_elem_of_In. specialize (H3 c Hc). by destruct (Z.eqb_spec c 0).
Qed.


Definition two_files : list (bytes * bytes) := [(cstr "README", cstr "share"); (cstr "a.c", cstr "int x;")].

Lemma two_files_ok :
  Forall (fun f => good_name f.1 /\ name_hash f.1 <> 0 /\ Z.of_nat (length f.2) <= max_content 17) two_files /\
  NoDup (map (fun f => name_hash f.1) two_files).
Proof.
  split.
  - constructor; [|constructor; [|constructor]]; (split; [by apply good_check | split; vm_compute; discriminate]).
  - change (map (fun f => name_hash f.1) two_files) with [name_hash (cstr "README"); name_hash (cstr "a.c")].
    replace (name_hash (cstr "README")) with 23 by (vm_compute; reflexivity). replace (name_hash (cstr "a.c")) with 41 by (vm_compute; reflexivity).
    apply NoDup_cons. split; [intros H%list_elem_of_singleton; discriminate | apply NoDup_singleton].
Qed.

Lemma shz_list_refines_witness :
  exists z z' calls, shz_list unix_env (fun _ n => bool_decide (n = cstr "a.c")) (fun _ _ _ => 0) (cstr "/tmp/") None (Some (cstr "a.c")) z = Done (z', (0, calls)) /\
    map (fun c : list_call => (c.1.2, c.2)) calls ≡ₚ [(cstr "/tmp/a.c", cstr "int x;")].
Proof.
  destruct (write_new_ok unix_env unix_calloc unix_map two_files 2 3 17 7 9 0 0)
    as (_ & z & N & t & K & _ & _ & Hf & _ & _ & Har);
    [discriminate | reflexivity | reflexivity | reflexivity | apply two_files_ok | apply two_files_ok | vm_compute; discriminate |].
  destruct (shz_list_refines unix_env unix_calloc unix_map (fun _ n => bool_decide (n = cstr "a.c")) (fun _ _ _ => 0) N z _ _ _ (cstr "/tmp/") None (Some (cstr "a.c")) (proj1 Hf) Har)
    as (z' & calls & H1 & H2 & _); [reflexivity | vm_compute; discriminate |].
  exists z, z', calls. split; [assumption |]. rewrite H2. vm_compute. reflexivity.
Defined.


(** A page with a key that is in no table. *)
Definition readme_key : shkey_t := shkey_bin (Some (cstr "README")).
Lemma keyed_page (id : shkey_t) :
  valid_key id -> exists z, full 4 z /\ table_inv FTable z 4 (DNode 2 blank_slots DNil DNil) (fun _ => shkey_bin None) /\ mod_key z 4 3 id /\
    data_max (z_buff z) = 65536.
Proof.
  intros Hid. destruct (empty_archive 1 eq_refl eq_refl) as (z & Hf & _ & R1 & T1 & _).
  destruct (page_new_ok unix_env unix_map 3 z SHZ_PAGE_FILE Hf) as (z1 & _ & F1 & _ & K1 & S1 & R2 & _); [unfold MAX_PAGES; lia |].
  change (3 + 1) with 4 in F1. destruct R2 as [_ R2]; [rewrite R1; lia |].
  destruct (named_page_fields SHZ_PAGE_FILE 0 0 id Hid) as (Q1 & Q2 & _); [vm_compute; by split |].
  assert (inside z1 3) as Hi by (apply (arch_inside 4); [apply F1 | lia]). pose proof (length_named_page SHZ_PAGE_FILE 0 0 id Hid) as HP.
  set (P := named_page SHZ_PAGE_FILE 0 0 id) in *. clearbody P. exists (set_pg 3 P z1).
  split; [apply full_set_pg; (assumption || lia) |]. split; [split; [|split; [intros r Hr; by apply not_elem_of_nil in Hr | constructor]] | split].
  - destruct T1 as (Hn & Hg & Hc & Hr & Hnd). unfold tab_ok. change (get_table FTable (set_pg 3 P z1)) with (get_table FTable z1).
    rewrite (same_tables_get FTable z z1 S1). split; [done |]. split; [done |]. split; [done |]. split; [|done].
    apply (rep_frame z _ 3 4); [lia | | done]. intros p Hp. apply list_elem_of_singleton in Hp as ->.
    rewrite pg_set_other by (assumption || lia). apply (k_pg _ _ _ K1). lia.
  - split; [lia |]. rewrite pg_set_same by assumption. rewrite Q1. by split.
  - change (z_buff (set_pg 3 P z1)) with (mk_buf (Some (splice (dat z1) (Z.to_nat (3 * 1024)) P)) (data_of (z_buff z1)) (data_max (z_buff z1))
      (data_pos (z_buff z1)) (ShBuf.flags (z_buff z1)) (fd (z_buff z1))). cbn [data_max]. by rewrite R2.
Qed.

Lemma shz_table_refines_witness :
  exists z z' N' t', full 4 z /\ shz_tree_add unix_env FTable 3 readme_key z = Done (z', 0) /\ full N' z' /\
    entries (key_upd (fun _ => shkey_bin None) 3 readme_key) t' = <[readme_key := 3]> ∅.
Proof.
  destruct (keyed_page readme_key ltac:(apply valid_bin)) as (z & Hf & Hinv & Hmk & R1).
  destruct (shz_table_refines unix_env unix_calloc unix_map FTable 4 z (DNode 2 blank_slots DNil DNil) (fun _ => shkey_bin None) readme_key 3 Hf Hinv)
    as [_ H2]; [apply valid_bin | vm_compute; discriminate |].
  destruct H2 as (z' & N' & t' & H1 & H3 & _ & _ & H4 & _); [reflexivity | assumption | | apply not_elem_of_nil | unfold MAX_PAGES; lia | rewrite R1; lia |].
  - intros H%list_elem_of_singleton. discriminate.
  - exists z, z', N', t'. by repeat (split; [assumption |]).
Defined.

Lemma shz_tree_add_hash_zero_witness :
  exists z, full 3 z /\ shz_tree_add unix_env FTable 1 (shkey_bin (Some (cstr "lm"))) z = Fault.
Proof.
  destruct (empty_archive 1 eq_refl eq_refl) as (z & Hf & _ & R1 & T1 & _). exists z. split; [assumption |].
  apply (shz_tree_add_hash_zero unix_env unix_calloc unix_map FTable 3 z (DNode 2 blank_slots DNil DNil)); [assumption | assumption | | vm_compute; reflexivity].
  rewrite R1. unfold MAX_PAGES. lia.
Defined.

(** Four pages are recorded, and one is mapped. *)
Definition short_map : shz_t :=
  mk_shz 1 0 (mk_buf (Some (fput (replicate 1024 0) base_size 8 (htonll 4096))) 1024 1024 0 SHBUF_FMAP 3) [] 0 TNil TNil.
Lemma shz_page_beyond_map_witness :
  (exists z', shz_page unix_env 3 short_map = Done (z', Some (at_page z' 3)) /\ data_max (z_buff z') = 1024) /\
  shz_read_page unix_env 3 short_map = Fault.
Proof.
  apply (shz_page_beyond_map unix_env 4 3 short_map); [reflexivity | vm_compute; reflexivity | vm_compute; reflexivity
    | vm_compute; discriminate | vm_compute; split; discriminate | reflexivity | vm_compute; split; discriminate].
Defined.
