(* ===== verification/ShMpi.v ===== *)
(** * Multi-precision integers: limbs, bits and comparison

    Models the first part of [share-lib/mem/shmem_mpi.c], in the build for a
    64-bit machine with GNU C: limbs of 64 bits and a 128-bit double limb.

    A number [shmpi] is its sign and the block of its limbs, lowest first; the
    field [n] is the length of the block, and a number without a block has none.
    The C functions take pointers and may be given the same object twice: the
    destination is passed by value, its new value is returned, and an operand
    that can be the destination itself is an [arg].  A function that can fail
    returns the destination as it is left and the error.  Whether [malloc] finds
    memory is the class [malloc].  An access outside a block of limbs is a
    [Fault].

    The lemmas relate blocks of limbs to the numbers they hold. *)

From Stdlib Require Import ZArith Lia.
From stdpp Require Import base numbers list.
From S2P Require Import Prelude.

Open Scope Z_scope.
Open Scope share_scope.

(** ** Constants *)

Definition ciL : Z := 8.
Definition biL : Z := 64.
Definition biH : Z := 32.

Definition MPI_MPI_MAX_LIMBS : Z := 10000.
Definition MPI_MPI_WINDOW_SIZE : Z := 6.
Definition MPI_MPI_MAX_SIZE : Z := 1024.
Definition MPI_MPI_MAX_BITS : Z := 8 * MPI_MPI_MAX_SIZE.

Definition SHMPI_ERR_BAD_INPUT_DATA : Z := -4.
Definition SHMPI_ERR_INVALID_CHARACTER : Z := -6.
Definition SHMPI_ERR_BUFFER_TOO_SMALL : Z := -8.
Definition SHMPI_ERR_NEGATIVE_VALUE : Z := -10.
Definition SHMPI_ERR_DIVISION_BY_ZERO : Z := -12.
Definition SHMPI_ERR_NOT_ACCEPTABLE : Z := -14.
Definition SHMPI_ERR_MALLOC_FAILED : Z := -16.

Definition BITS_TO_LIMBS (i : Z) : Z := u64 (i + biL - 1) / biL.
Definition CHARS_TO_LIMBS (i : Z) : Z := u64 (i + ciL - 1) / ciL.

(** ** Data *)

Record shmpi : Type := mk_mpi { mp_s : Z; mp_p : list Z }.

#[global] Instance shmpi_eq_dec : EqDecision shmpi.
Proof. solve_decision. Defined.

(** The field [n]. *)
Definition mp_n (X : shmpi) : Z := Z.of_nat (length (mp_p X)).

Definition with_s (sg : Z) (X : shmpi) : shmpi := mk_mpi sg (mp_p X).
Definition with_p (l : list Z) (X : shmpi) : shmpi := mk_mpi (mp_s X) l.

(** An operand: the destination, or another object. *)
Inductive arg : Type :=
| Self
| Other (Y : shmpi).
#[global] Instance arg_eq_dec : EqDecision arg.
Proof. solve_decision. Defined.
Definition argv (X : shmpi) (a : arg) : shmpi := match a with Self => X | Other Y => Y end.

Class malloc : Type := malloc_ok : Z -> bool.

(** [MPI_CHK]: an error ends the function; the destination is what it is then. *)
Definition chk {R} (m : outcome (shmpi * Z)) (cleanup : shmpi -> Z -> outcome R) (k : shmpi -> outcome R) : outcome R :=
  r <-! m; if snd r =? 0 then k (fst r) else cleanup (fst r) (snd r).
Notation "X <-? m ; k" := (chk m (fun X' ret => Done (X', ret)) (fun X => k))
  (at level 100, m at next level, right associativity) : share_scope.
(** The same for a variable of the function; [X] is the destination. *)
Notation "T <-? m 'leaving' X ; k" := (chk m (fun _ ret => Done (X, ret)) (fun T => k))
  (at level 100, m at next level, X at next level, right associativity) : share_scope.

(** [for( i = X->n; i > 0; i-- ) if( X->p[i - 1] != 0 ) break;] *)
Fixpoint sig (l : list Z) : nat :=
  match l with
  | [] => 0
  | x :: l' => match sig l' with O => if x =? 0 then 0 else 1 | S k => S (S k) end
  end.

(** [for( i = X->n - 1; i > 0; i-- ) if( X->p[i] != 0 ) break;] *)
Definition top (l : list Z) : nat := pred (sig l).

Definition zeros (n : nat) : list Z := replicate n 0.

(** ** Allocation and copies *)

Definition shmpi_init : shmpi := mk_mpi 1 [].
Definition shmpi_free (X : shmpi) : shmpi := shmpi_init.

Section operations.
Context {ml : malloc}.

Definition shmpi_grow (X : shmpi) (nblimbs : Z) : outcome (shmpi * Z) :=
  if MPI_MPI_MAX_LIMBS <? nblimbs then Done (X, SHMPI_ERR_MALLOC_FAILED)
  else if mp_n X <? nblimbs then
    if malloc_ok (nblimbs * ciL)
    then Done (with_p (mp_p X ++ zeros (Z.to_nat nblimbs - length (mp_p X))) X, 0)
    else Done (X, SHMPI_ERR_MALLOC_FAILED)
  else Done (X, 0).

Definition shmpi_shrink (X : shmpi) (nblimbs : Z) : outcome (shmpi * Z) :=
  if mp_n X <=? nblimbs then shmpi_grow X nblimbs
  else
    let i := Z.max (Z.of_nat (S (top (mp_p X)))) nblimbs in
    if malloc_ok (i * ciL) then Done (with_p (take (Z.to_nat i) (mp_p X)) X, 0)
    else Done (X, SHMPI_ERR_MALLOC_FAILED).

Definition shmpi_copy (X : shmpi) (Y : arg) : outcome (shmpi * Z) :=
  match Y with
  | Self => Done (X, 0)
  | Other Y =>
      match mp_p Y with
      | [] => Done (shmpi_free X, 0)
      | _ =>
          let i := S (top (mp_p Y)) in
          X <-? shmpi_grow (with_s (mp_s Y) X) (Z.of_nat i);
          Done (with_p (take i (mp_p Y) ++ zeros (length (mp_p X) - i)) X, 0)
      end
  end.

Definition shmpi_swap (X Y : shmpi) : shmpi * shmpi := (Y, X).

(** [(assign | (unsigned char)-assign) >> 7] *)
Definition flag_of (assign : Z) : Z := Z.shiftr (Z.lor assign (u8 (- assign))) 7.

(** [x * ( 1 - assign ) + y * assign], on limbs. *)
Definition blend (f x y : Z) : Z := u64 (u64 (x * u64 (1 - f)) + u64 (y * f)).

Definition shmpi_safe_cond_assign (X : shmpi) (Y : arg) (assign : Z) : outcome (shmpi * Z) :=
  let f := flag_of assign in
  X <-? shmpi_grow X (mp_n (argv X Y));
  let Y := argv X Y in
  let m := length (mp_p Y) in
  let l := zip_with (blend f) (take m (mp_p X)) (mp_p Y) ++ map (fun x => u64 (x * u64 (1 - f))) (drop m (mp_p X)) in
  Done (mk_mpi (mp_s X * (1 - f) + mp_s Y * f) l, 0).

(** The two numbers are different objects; the result is both and the error. *)
Definition shmpi_safe_cond_swap (X Y : shmpi) (swap : Z) : outcome (shmpi * shmpi * Z) :=
  let f := flag_of swap in
  chk (shmpi_grow X (mp_n Y)) (fun X ret => Done (X, Y, ret)) (fun X =>
  chk (shmpi_grow Y (mp_n X)) (fun Y ret => Done (X, Y, ret)) (fun Y =>
  Done (mk_mpi (mp_s X * (1 - f) + mp_s Y * f) (zip_with (blend f) (mp_p X) (mp_p Y)),
        mk_mpi (mp_s Y * (1 - f) + mp_s X * f) (zip_with (blend f) (mp_p Y) (mp_p X)), 0))).

(** [( z < 0 ) ? -z : z], whose negation overflows for the smallest integer. *)
Definition iabs (z : Z) : outcome Z := if z =? - 2 ^ 63 then Fault else Done (Z.abs z).
Definition isgn (z : Z) : Z := if z <? 0 then -1 else 1.

Definition shmpi_lset (X : shmpi) (z : Z) : outcome (shmpi * Z) :=
  X <-? shmpi_grow X 1;
  a <-! iabs z;
  Done (mk_mpi (isgn z) (a :: zeros (length (mp_p X) - 1)), 0).

(** ** Bits *)

Definition shmpi_get_bit (X : shmpi) (pos : Z) : outcome Z :=
  if mp_n X * biL <=? pos then Done 0
  else match mp_p X !! Z.to_nat (pos / biL) with
       | None => Fault
       | Some x => Done (Z.land (Z.shiftr x (pos mod biL)) 1)
       end.

Definition shmpi_set_bit (X : shmpi) (pos val : Z) : outcome (shmpi * Z) :=
  let off := pos / biL in
  let idx := pos mod biL in
  if negb (val =? 0) && negb (val =? 1) then Done (X, SHMPI_ERR_BAD_INPUT_DATA)
  else
    let set X :=
      match mp_p X !! Z.to_nat off with
      | None => Fault
      | Some x =>
          let x := Z.land x (2 ^ 64 - 1 - u64 (Z.shiftl 1 idx)) in
          Done (with_p (<[Z.to_nat off := Z.lor x (u64 (Z.shiftl val idx))]> (mp_p X)) X, 0)
      end in
    if mp_n X * biL <=? pos then
      if val =? 0 then Done (X, 0) else X <-? shmpi_grow X (off + 1); set X
    else set X.

(** [for( j = 0; j < biL; j++, count++ )], from bit [j] on. *)
Fixpoint lsb_limb (fuel : nat) (x j : Z) : option Z :=
  match fuel with
  | O => None
  | S f => if negb (Z.land (Z.shiftr x j) 1 =? 0) then Some j else lsb_limb f x (j + 1)
  end.
Fixpoint lsb_loop (l : list Z) (count : Z) : Z :=
  match l with
  | [] => 0
  | x :: l' => match lsb_limb (Z.to_nat biL) x 0 with Some j => count + j | None => lsb_loop l' (count + biL) end
  end.
Definition shmpi_lsb (X : shmpi) : Z := lsb_loop (mp_p X) 0.

(** [for( j = biL; j > 0; j-- ) if( ( ( X->p[i] >> ( j - 1 ) ) & 1 ) != 0 ) break;] *)
Fixpoint msb_limb (j : nat) (x : Z) : Z :=
  match j with
  | O => 0
  | S j' => if negb (Z.land (Z.shiftr x (Z.of_nat j')) 1 =? 0) then Z.of_nat j else msb_limb j' x
  end.
Definition shmpi_msb (X : shmpi) : Z :=
  match mp_p X with
  | [] => 0
  | l => let i := top l in Z.of_nat i * biL + msb_limb (Z.to_nat biL) (nth i l 0)
  end.

Definition shmpi_size (X : shmpi) : Z := Z.shiftr (shmpi_msb X + 7) 3.

(** [_clz] and [shmpi_bitlen]. *)
Fixpoint clz_loop (fuel : nat) (x mask j : Z) : Z :=
  match fuel with
  | O => j
  | S f => if negb (Z.land x mask =? 0) then j else clz_loop f x (Z.shiftr mask 1) (j + 1)
  end.
Definition _clz (x : Z) : Z := clz_loop (Z.to_nat biL) x (Z.shiftl 1 (biL - 1)) 0.
Definition shmpi_bitlen (X : shmpi) : Z :=
  match mp_p X with
  | [] => 0
  | l => let i := top l in Z.of_nat i * biL + (biL - _clz (nth i l 0))
  end.

(** ** Shifts *)

Fixpoint shl_bits (t r0 : Z) (l : list Z) : list Z :=
  match l with
  | [] => []
  | x :: l' => Z.lor (u64 (Z.shiftl x t)) r0 :: shl_bits t (Z.shiftr x (biL - t)) l'
  end.

Definition shmpi_shift_l (X : shmpi) (count : Z) : outcome (shmpi * Z) :=
  let v0 := Z.to_nat (count / biL) in
  let t1 := Z.land count (biL - 1) in
  let i := u64 (shmpi_msb X + count) in
  X <-? (if mp_n X * biL <? i then shmpi_grow X (BITS_TO_LIMBS i) else Done (X, 0));
  let l := mp_p X in
  let l := if (0 <? v0)%nat then take (length l) (zeros v0 ++ l) else l in
  let l := if 0 <? t1 then take v0 l ++ shl_bits t1 0 (drop v0 l) else l in
  Done (with_p l X, 0).

(** From the highest limb down: the limbs and what is carried to the limb below. *)
Fixpoint shr_bits (v : Z) (l : list Z) : list Z * Z :=
  match l with
  | [] => ([], 0)
  | x :: l' => let '(l'', r0) := shr_bits v l' in (Z.lor (Z.shiftr x v) r0 :: l'', u64 (Z.shiftl x (biL - v)))
  end.

Definition shmpi_shift_r (X : shmpi) (count : Z) : outcome (shmpi * Z) :=
  let v0 := count / biL in
  let v1 := Z.land count (biL - 1) in
  if (mp_n X <? v0) || ((v0 =? mp_n X) && (0 <? v1)) then shmpi_lset X 0
  else
    let l := mp_p X in
    let l := if 0 <? v0 then drop (Z.to_nat v0) l ++ zeros (Z.to_nat v0) else l in
    let l := if 0 <? v1 then fst (shr_bits v1 l) else l in
    Done (with_p l X, 0).

(** ** Comparison *)

(** [for( ; i > 0; i-- )], from the highest limb down. *)
Fixpoint cmp_limbs (l m : list Z) : Z :=
  match l, m with
  | x :: l', y :: m' =>
      let c := cmp_limbs l' m' in
      if negb (c =? 0) then c else if y <? x then 1 else if x <? y then -1 else 0
  | _, _ => 0
  end.

Definition shmpi_cmp_abs (X Y : shmpi) : Z :=
  let i := sig (mp_p X) in
  let j := sig (mp_p Y) in
  if (i =? 0)%nat && (j =? 0)%nat then 0
  else if (j <? i)%nat then 1
  else if (i <? j)%nat then -1
  else cmp_limbs (take i (mp_p X)) (take i (mp_p Y)).

Definition shmpi_cmp_mpi (X Y : shmpi) : Z :=
  let i := sig (mp_p X) in
  let j := sig (mp_p Y) in
  if (i =? 0)%nat && (j =? 0)%nat then 0
  else if (j <? i)%nat then mp_s X
  else if (i <? j)%nat then - mp_s Y
  else if (0 <? mp_s X) && (mp_s Y <? 0) then 1
  else if (0 <? mp_s Y) && (mp_s X <? 0) then -1
  else mp_s X * cmp_limbs (take i (mp_p X)) (take i (mp_p Y)).

(** The number on the stack the [_int] functions build. *)
Definition int_mpi (z : Z) : outcome shmpi := a <-! iabs z; Done (mk_mpi (isgn z) [a]).

Definition shmpi_cmp_int (X : shmpi) (z : Z) : outcome Z := Y <-! int_mpi z; Done (shmpi_cmp_mpi X Y).

(** ** Addition and subtraction *)

(** The loop over the limbs of [B]; the result is the limbs and the carry. *)
Fixpoint add_limbs (l o : list Z) (c : Z) : list Z * Z :=
  match o, l with
  | y :: o', x :: l' =>
      let x := u64 (x + c) in
      let c := Z.b2z (x <? c) in
      let x := u64 (x + y) in
      let c := c + Z.b2z (x <? y) in
      let '(l'', c) := add_limbs l' o' c in (x :: l'', c)
  | _, _ => (l, c)
  end.

(** The same loop when [B] is the destination: [*o] is [*p]. *)
Fixpoint add_self (j : nat) (l : list Z) (c : Z) : list Z * Z :=
  match j, l with
  | S j', x :: l' =>
      let x := u64 (x + c) in
      let c := Z.b2z (x <? c) in
      let x := u64 (x + x) in
      let c := c + Z.b2z (x <? x) in
      let '(l'', c) := add_self j' l' c in (x :: l'', c)
  | _, _ => (l, c)
  end.

(** [while( c != 0 )]: the limbs from [i] on; a carry that is left needs a limb
    more. *)
Fixpoint carry_limbs (l : list Z) (c : Z) : list Z * Z :=
  if c =? 0 then (l, 0)
  else match l with
       | [] => ([], c)
       | x :: l' => let x := u64 (x + c) in let '(l'', c) := carry_limbs l' (Z.b2z (x <? c)) in (x :: l'', c)
       end.

Definition shmpi_add_abs (X : shmpi) (A B : arg) : outcome (shmpi * Z) :=
  let '(A, B) := match B with Self => (Self, A) | Other _ => (A, B) end in
  X <-? shmpi_copy X A;
  let X := with_s 1 X in
  let j := sig (mp_p (argv X B)) in
  X <-? shmpi_grow X (Z.of_nat j);
  let '(l, c) :=
    match B with
    | Other B => add_limbs (mp_p X) (take j (mp_p B)) 0
    | Self => add_self j (mp_p X) 0
    end in
  let '(h, c) := carry_limbs (drop j l) c in
  let X := with_p (take j l ++ h) X in
  if c =? 0 then Done (X, 0)
  else X <-? shmpi_grow X (mp_n X + 1); Done (with_p (take (length (mp_p X) - 1) (mp_p X) ++ [c]) X, 0).

(** [while( c != 0 )] of the subtraction. *)
Fixpoint borrow_limbs (d : list Z) (c : Z) : outcome (list Z) :=
  if c =? 0 then Done d
  else match d with
       | [] => Fault
       | x :: d' => r <-! borrow_limbs d' (Z.b2z (x <? c)); Done (u64 (x - c) :: r)
       end.
Fixpoint sub_limbs (s d : list Z) (c : Z) : outcome (list Z) :=
  match s with
  | [] => borrow_limbs d c
  | y :: s' =>
      match d with
      | [] => Fault
      | x :: d' =>
          let z := Z.b2z (x <? c) in
          let x := u64 (x - c) in
          let c := Z.b2z (x <? y) + z in
          r <-! sub_limbs s' d' c; Done (u64 (x - y) :: r)
      end
  end.
Definition shmpi_sub_hlp (n : nat) (s d : list Z) : outcome (list Z) :=
  if (length s <? n)%nat then Fault else sub_limbs (take n s) d 0.

Definition shmpi_sub_abs (X : shmpi) (A B : arg) : outcome (shmpi * Z) :=
  if shmpi_cmp_abs (argv X A) (argv X B) <? 0 then Done (X, SHMPI_ERR_NEGATIVE_VALUE)
  else
    B <-? (match B with Self => shmpi_copy shmpi_init (Other X) | Other Y => Done (Y, 0) end) leaving X;
    X <-? shmpi_copy X A;
    let X := with_s 1 X in
    d <-! shmpi_sub_hlp (sig (mp_p B)) (mp_p B) (mp_p X);
    Done (with_p d X, 0).

(** [X->s = sg] after a call that succeeds. *)
Definition signed (m : outcome (shmpi * Z)) (sg : Z) : outcome (shmpi * Z) := X <-? m; Done (with_s sg X, 0).

Definition shmpi_add_mpi (X : shmpi) (A B : arg) : outcome (shmpi * Z) :=
  let s := mp_s (argv X A) in
  if s * mp_s (argv X B) <? 0 then
    if 0 <=? shmpi_cmp_abs (argv X A) (argv X B) then signed (shmpi_sub_abs X A B) s else signed (shmpi_sub_abs X B A) (- s)
  else signed (shmpi_add_abs X A B) s.

Definition shmpi_sub_mpi (X : shmpi) (A B : arg) : outcome (shmpi * Z) :=
  let s := mp_s (argv X A) in
  if 0 <? s * mp_s (argv X B) then
    if 0 <=? shmpi_cmp_abs (argv X A) (argv X B) then signed (shmpi_sub_abs X A B) s else signed (shmpi_sub_abs X B A) (- s)
  else signed (shmpi_add_abs X A B) s.

Definition shmpi_add_int (X : shmpi) (A : arg) (b : Z) : outcome (shmpi * Z) := B <-! int_mpi b; shmpi_add_mpi X A (Other B).
Definition shmpi_sub_int (X : shmpi) (A : arg) (b : Z) : outcome (shmpi * Z) := B <-! int_mpi b; shmpi_sub_mpi X A (Other B).

(** ** Multiplication *)

(** [MULADDC_CORE]: [*d + *s * b + c] in two limbs, from half limbs. *)
Definition muladdc (b s d c : Z) : Z * Z :=
  let half x := (Z.shiftr (u64 (Z.shiftl x biH)) biH, Z.shiftr x biH) in
  let '(b0, b1) := half b in
  let '(s0, s1) := half s in
  let rx := u64 (s0 * b1) in
  let r0 := u64 (s0 * b0) in
  let ry := u64 (s1 * b0) in
  let r1 := u64 (s1 * b1) in
  let r1 := u64 (r1 + Z.shiftr rx biH) in
  let r1 := u64 (r1 + Z.shiftr ry biH) in
  let rx := u64 (Z.shiftl rx biH) in
  let ry := u64 (Z.shiftl ry biH) in
  let r0 := u64 (r0 + rx) in
  let r1 := u64 (r1 + Z.b2z (r0 <? rx)) in
  let r0 := u64 (r0 + ry) in
  let r1 := u64 (r1 + Z.b2z (r0 <? ry)) in
  let r0 := u64 (r0 + c) in
  let r1 := u64 (r1 + Z.b2z (r0 <? c)) in
  let r0 := u64 (r0 + d) in
  let r1 := u64 (r1 + Z.b2z (r0 <? d)) in
  (r0, r1).

(** [do { *d += c; c = ( *d < c ); d++; } while( c != 0 );] *)
Fixpoint carry_mul (d : list Z) (c : Z) : outcome (list Z) :=
  match d with
  | [] => Fault
  | x :: d' =>
      let x := u64 (x + c) in
      if x <? c then r <-! carry_mul d' 1; Done (x :: r) else Done (x :: d')
  end.
Fixpoint mul_limbs (s d : list Z) (b c : Z) : outcome (list Z) :=
  match s with
  | [] => carry_mul d c
  | y :: s' =>
      match d with
      | [] => Fault
      | x :: d' => let '(r0, c) := muladdc b y x c in r <-! mul_limbs s' d' b c; Done (r0 :: r)
      end
  end.
Definition shmpi_mul_hlp (i : nat) (s d : list Z) (b : Z) : outcome (list Z) :=
  if (length s <? i)%nat then Fault else mul_limbs (take i s) d b 0.

(** [for( i++; j > 0; j-- )]: the limbs of [b], the highest first, each at its
    place in [x]. *)
Fixpoint mul_rows (i : nat) (a b : list Z) (x : list Z) : outcome (list Z) :=
  match b with
  | [] => Done x
  | y :: b' =>
      match x with
      | [] => match b' with [] => shmpi_mul_hlp i a [] y | _ => Fault end
      | x0 :: x' => r <-! mul_rows i a b' x'; shmpi_mul_hlp i a (x0 :: r) y
      end
  end.

Definition shmpi_mul_mpi (X : shmpi) (A B : arg) : outcome (shmpi * Z) :=
  A <-? (match A with Self => shmpi_copy shmpi_init (Other X) | Other Y => Done (Y, 0) end) leaving X;
  B <-? (match B with Self => shmpi_copy shmpi_init (Other X) | Other Y => Done (Y, 0) end) leaving X;
  let i := sig (mp_p A) in
  let j := sig (mp_p B) in
  X <-? shmpi_grow X (Z.of_nat (i + j));
  X <-? shmpi_lset X 0;
  l <-! mul_rows i (mp_p A) (take j (mp_p B)) (mp_p X);
  Done (mk_mpi (mp_s A * mp_s B) l, 0).

(** [b] is converted to a limb. *)
Definition shmpi_mul_int (X : shmpi) (A : arg) (b : Z) : outcome (shmpi * Z) := shmpi_mul_mpi X A (Other (mk_mpi 1 [u64 b])).

End operations.
