(* ===== verification/ShMpiVal.v ===== *)
(** * Multi-precision integers: values

    The number a block of limbs holds, and the proof that the operations of
    [ShMpi.v] compute sums, differences, products, shifts and comparisons of these
    numbers.  Each operation either succeeds with the right value or reports that
    there is no memory, and the latter only when [malloc] refuses a block or the
    result needs more limbs than the code permits. *)

From Stdlib Require Import ZArith Lia.
From stdpp Require Import base numbers list.
From S2P Require Import Prelude ShMpi.

Open Scope Z_scope.
Open Scope share_scope.

(** ** Powers of the base *)

Definition beta : Z := 2 ^ 64.
Definition bp (n : nat) : Z := 2 ^ (64 * Z.of_nat n).

Lemma bp_0 : bp 0 = 1.
Proof. reflexivity. Qed.
Lemma bp_S n : bp (S n) = beta * bp n.
Proof. unfold bp, beta. rewrite <- Z.pow_add_r by lia. f_equal. lia. Qed.
Lemma bp_add n m : bp (n + m) = bp n * bp m.
Proof. unfold bp. rewrite <- Z.pow_add_r by lia. f_equal. lia. Qed.
Lemma bp_pos n : 0 < bp n.
Proof. unfold bp. apply Z.pow_pos_nonneg; lia. Qed.
Lemma bp_mono n m : (n <= m)%nat -> bp n <= bp m.
Proof. intros. apply Z.pow_le_mono_r; lia. Qed.
Lemma beta_pos : 0 < beta.
Proof. reflexivity. Qed.
Lemma bp_pow n : bp n = 2 ^ (64 * Z.of_nat n).
Proof. reflexivity. Qed.
Global Opaque bp.

(** ** The value of a block *)

Fixpoint lval (l : list Z) : Z := match l with [] => 0 | x :: l' => x + beta * lval l' end.

Definition limbs (l : list Z) : Prop := Forall (is_uint 64) l.

Lemma lval_app l m : lval (l ++ m) = lval l + bp (length l) * lval m.
Proof.
  induction l as [|x l IH]; cbn [app lval length]; [rewrite bp_0; lia |].
  rewrite IH, bp_S. ring.
Qed.

Lemma lval_zeros n : lval (zeros n) = 0.
Proof. induction n; cbn; [done |]. fold (zeros n). rewrite IHn. lia. Qed.

Lemma limbs_zeros n : limbs (zeros n).
Proof. apply Forall_replicate. split; [done | reflexivity]. Qed.

Lemma limbs_app l m : limbs (l ++ m) <-> limbs l /\ limbs m.
Proof. apply Forall_app. Qed.
Lemma limbs_cons x l : limbs (x :: l) <-> is_uint 64 x /\ limbs l.
Proof. apply Forall_cons. Qed.
Lemma limbs_take n l : limbs l -> limbs (take n l).
Proof. apply Forall_take. Qed.
Lemma limbs_drop n l : limbs l -> limbs (drop n l).
Proof. apply Forall_drop. Qed.

Lemma lval_range l : limbs l -> 0 <= lval l < bp (length l).
Proof.
  induction 1 as [|x l [Hx1 Hx2] Hl IH]; cbn [lval length]; [by rewrite bp_0 |].
  rewrite bp_S. fold beta in *. nia.
Qed.

Lemma length_zeros n : length (zeros n) = n.
Proof. apply length_replicate. Qed.

Lemma lval_split n l : lval l = lval (take n l) + bp (min n (length l)) * lval (drop n l).
Proof. rewrite <- (take_drop n l) at 1. rewrite lval_app, length_take. done. Qed.

(** Limbs above the value are zero. *)
Lemma lval_drop_zero n l : limbs l -> lval l < bp n -> lval (drop n l) = 0.
Proof.
  intros Hl Hv. destruct (decide (n <= length l)%nat) as [Hn|]; [|rewrite drop_ge by lia; done].
  pose proof (lval_split n l) as Hs. rewrite Nat.min_l in Hs by done.
  pose proof (bp_pos n). pose proof (lval_range _ (limbs_take n l Hl)). pose proof (lval_range _ (limbs_drop n l Hl)). nia.
Qed.
Lemma lval_take_fit n l : limbs l -> lval l < bp n -> lval (take n l) = lval l.
Proof. intros Hl Hv. rewrite (lval_split n l), (lval_drop_zero n l) by done. lia. Qed.

(** ** Significant limbs *)

Lemma sig_le l : (sig l <= length l)%nat.
Proof. induction l as [|x l IH]; cbn; [lia |]. destruct (sig l); [case_cmp; lia | lia]. Qed.

Lemma sig_zero l : limbs l -> sig l = 0%nat <-> lval l = 0.
Proof.
  induction 1 as [|x l [Hx1 Hx2] Hl IH]; cbn [sig lval]; [done |].
  pose proof (lval_range _ Hl). pose proof beta_pos. destruct (sig l) eqn:Es.
  - destruct IH as [IH _]. rewrite IH by done. case_cmp; split; intros; try lia; try nia.
  - split; [done |]. intros. assert (lval l = 0) as H9%IH by nia. done.
Qed.

Lemma sig_bounds l k : limbs l -> sig l = S k -> bp k <= lval l < bp (S k).
Proof.
  intros Hl. revert k. induction Hl as [|x l [Hx1 Hx2] Hl IH]; intros k; cbn [sig lval]; [done |].
  fold beta in *. pose proof (proj1 (sig_zero l Hl)) as H0. destruct (sig l) as [|j].
  - rewrite H0 by done. case_cmp as [->|]; [done |]. intros [= <-]. rewrite bp_S, bp_0. lia.
  - intros [= <-]. destruct (IH j eq_refl). rewrite (bp_S (S j)), (bp_S j) in *. nia.
Qed.

Lemma sig_upper l : limbs l -> lval l < bp (sig l).
Proof.
  intros Hl. destruct (sig l) eqn:E; [|by apply (sig_bounds l n)].
  apply sig_zero in E as ->; [|done]. by rewrite bp_0.
Qed.

Lemma sig_le_iff l k : limbs l -> (sig l <= k)%nat <-> lval l < bp k.
Proof.
  intros Hl. split; intros H.
  - pose proof (sig_upper l Hl). pose proof (bp_mono _ _ H). lia.
  - destruct (decide (sig l <= k)%nat); [done |]. destruct (sig l) as [|j] eqn:E; [lia |].
    destruct (sig_bounds l j Hl E). pose proof (bp_mono k j). lia.
Qed.

Lemma lval_sig l : limbs l -> lval (take (sig l) l) = lval l.
Proof. intros. apply lval_take_fit; [done | by apply sig_upper]. Qed.

Lemma length_take_sig l : length (take (sig l) l) = sig l.
Proof. rewrite length_take. pose proof (sig_le l). lia. Qed.

Lemma lval_top l : limbs l -> lval (take (S (top l)) l) = lval l.
Proof.
  intros Hl. apply lval_take_fit; [done |]. unfold top. pose proof (sig_upper l Hl).
  pose proof (bp_mono (sig l) (S (Nat.pred (sig l)))). lia.
Qed.
Lemma top_lt l : l <> [] -> (S (top l) <= length l)%nat.
Proof. intros. unfold top. pose proof (sig_le l). destruct l; [done |]. cbn [length] in *. lia. Qed.

(** ** Well-formed numbers *)

Definition sign (s : Z) : Prop := s = 1 \/ s = -1.

Record mpi_ok (X : shmpi) : Prop := mk_mpi_ok { ok_s : sign (mp_s X); ok_p : limbs (mp_p X) }.

(** The value of a number. *)
Definition mval (X : shmpi) : Z := mp_s X * lval (mp_p X).
(** The number of its limbs. *)
Abbreviation mlen X := (length (mp_p X)).

Lemma mpi_ok_init : mpi_ok shmpi_init.
Proof. split; [by left | constructor]. Qed.

(** Well-formedness by evaluation. *)
Definition mpi_okb (X : shmpi) : bool :=
  ((mp_s X =? 1) || (mp_s X =? -1)) && forallb (fun x => (0 <=? x) && (x <? 2 ^ 64)) (mp_p X).
Lemma mpi_okb_ok X : mpi_okb X = true -> mpi_ok X.
Proof.
  unfold mpi_okb. intros [Hs Hp]%andb_prop. split.
  - apply orb_prop in Hs as [H|H]; apply Z.eqb_eq in H; [by left | by right].
  - apply List.Forall_forall. intros x Hx. rewrite forallb_forall in Hp. specialize (Hp x Hx).
    apply andb_prop in Hp as [H1%Z.leb_le H2%Z.ltb_lt]. done.
Qed.

Create HintDb mpi discriminated.
#[export] Hint Resolve mk_mpi_ok ok_s ok_p mpi_ok_init limbs_zeros limbs_take limbs_drop : mpi.

Lemma mval_abs X : mpi_ok X -> Z.abs (mval X) = lval (mp_p X).
Proof. intros [[Hs|Hs] Hl]; unfold mval; rewrite Hs; pose proof (lval_range _ Hl); lia. Qed.

Lemma mval_pos X : mpi_ok X -> mp_s X = 1 -> mval X = lval (mp_p X).
Proof. intros _ Hs. unfold mval. rewrite Hs. lia. Qed.

(** ** Memory *)

Section memory.
Context {ml : malloc}.

(** A reason to report that there is no memory, in a call that needs blocks of [K]
    limbs at most: [malloc] refuses such a block, or the code does. *)
Definition nomem (K : Z) : Prop := (exists n, n <= K /\ malloc_ok (n * ciL) = false) \/ MPI_MPI_MAX_LIMBS < K.

(** A call succeeds with [P], or reports that there is no memory. *)
Definition spec (K : Z) (m : outcome (shmpi * Z)) (P : shmpi -> Prop) : Prop :=
  exists X e, m = Done (X, e) /\ (e = 0 /\ P X \/ e = SHMPI_ERR_MALLOC_FAILED /\ nomem K).

Lemma nomem_mono K K' : K <= K' -> nomem K -> nomem K'.
Proof. intros ? [(n & ? & ?)|?]; [left; exists n; split; [lia | done] | right; lia]. Qed.

Lemma spec_done K X P : P X -> spec K (Done (X, 0)) P.
Proof. intros. exists X, 0. auto. Qed.

Lemma spec_mono K K' m (P Q : shmpi -> Prop) : K <= K' -> (forall X, P X -> Q X) -> spec K m P -> spec K' m Q.
Proof.
  intros HK HPQ (X & e & -> & H). exists X, e. split; [done |].
  destruct H as [[-> H]|[-> H]]; [left; auto | right; eauto using nomem_mono].
Qed.

Lemma spec_chk K K' m c k (P Q : shmpi -> Prop) :
  spec K m P -> K <= K' -> (forall X e, exists X', c X e = Done (X', e)) -> (forall X, P X -> spec K' (k X) Q) -> spec K' (chk m c k) Q.
Proof.
  intros (X & e & -> & H) HK Hc Hk. unfold chk. cbn [obind fst snd]. destruct H as [[-> H]|[-> H]].
  - by apply Hk.
  - replace (SHMPI_ERR_MALLOC_FAILED =? 0) with false by reflexivity.
    destruct (Hc X SHMPI_ERR_MALLOC_FAILED) as [X' ->]. exists X', SHMPI_ERR_MALLOC_FAILED. split; [done |].
    right. split; [done |]. by apply (nomem_mono K).
Qed.

(** Without a reason to fail, a call succeeds. *)
Lemma spec_total K m P : spec K m P -> (forall n, malloc_ok n = true) -> K <= MPI_MPI_MAX_LIMBS -> exists X, m = Done (X, 0) /\ P X.
Proof.
  intros (X & e & -> & [[-> H]|[-> [(n & _ & Hn)|H]]]) Hm HK; [eauto | by rewrite Hm in Hn | lia].
Qed.

Lemma grow_spec X n K :
  0 <= n -> n <= K ->
  spec K (shmpi_grow X n) (fun X' => X' = with_p (mp_p X ++ zeros (Z.to_nat n - mlen X)) X).
Proof.
  intros Hn HK. unfold shmpi_grow, mp_n. case_cmp.
  - exists X, SHMPI_ERR_MALLOC_FAILED. split; [done |]. right. split; [done |]. right. lia.
  - case_cmp.
    + destruct (malloc_ok _) eqn:E; [by apply spec_done |].
      exists X, SHMPI_ERR_MALLOC_FAILED. split; [done |]. right. split; [done |]. left. exists n. split; [lia | done].
    + apply spec_done. replace (Z.to_nat n - mlen X)%nat with 0%nat by lia.
      rewrite app_nil_r. by destruct X.
Qed.


(** The smallest block for a value. *)
Definition msz (X : shmpi) : nat := Nat.max 1 (sig (mp_p X)).

Lemma msz_top X : S (top (mp_p X)) = msz X.
Proof. unfold top, msz. lia. Qed.

(** A copy of [Y]. *)
Record copied (X Y X' : shmpi) : Prop := mk_copied
  { cp_limbs : limbs (mp_p X'); cp_lval : lval (mp_p X') = lval (mp_p Y);
    cp_len : mp_p Y <> [] -> mlen X' = Nat.max (mlen X) (msz Y); cp_le : (mlen X' <= Nat.max (mlen X) (msz Y))%nat;
    cp_sig : (sig (mp_p Y) <= mlen X')%nat; cp_s : mp_p Y <> [] -> mp_s X' = mp_s Y; cp_sign : sign (mp_s Y) -> sign (mp_s X') }.

Lemma copy_spec X Y K :
  limbs (mp_p Y) -> Z.of_nat (msz Y) <= K -> spec K (shmpi_copy X (Other Y)) (copied X Y).
Proof.
  intros Hl HK. unfold shmpi_copy. destruct (mp_p Y) as [|y l] eqn:EY.
  - apply spec_done. split; rewrite ?EY; cbn; try done; try solve [constructor | lia | intros; by left].
  - rewrite <- EY in *. assert (mp_p Y <> []) as Hne by (by rewrite EY). rewrite msz_top.
    assert (msz Y <= mlen Y)%nat by (rewrite <- msz_top; by apply top_lt).
    assert (lval (take (msz Y) (mp_p Y)) = lval (mp_p Y)) as Hv by (rewrite <- msz_top; by apply lval_top).
    eapply spec_chk; [apply (grow_spec _ _ K); lia | lia | eauto |].
    intros X' ->. apply spec_done. cbn [mp_p with_p with_s mp_s].
    assert (length (take (msz Y) (mp_p Y)) = msz Y) as Ht by (rewrite length_take; lia).
    rewrite !length_app, length_zeros, Nat2Z.id.
    split; cbn [mp_p with_p mp_s]; try done.
    + apply limbs_app; auto using limbs_take, limbs_zeros.
    + rewrite lval_app, Hv, lval_zeros. lia.
    + intros _. rewrite !length_app, length_zeros, Ht. lia.
    + rewrite !length_app, length_zeros, Ht. lia.
    + rewrite !length_app, length_zeros, Ht. unfold msz. lia.
Qed.

Lemma lset_spec X z K :
  1 <= K -> - 2 ^ 63 < z < 2 ^ 63 ->
  spec K (shmpi_lset X z) (fun X' => X' = mk_mpi (isgn z) (Z.abs z :: zeros (Nat.max (mlen X) 1 - 1))).
Proof.
  intros HK Hz. unfold shmpi_lset, iabs.
  eapply spec_chk; [apply (grow_spec _ _ K); lia | lia | eauto |]. intros X' ->.
  destruct (Z.eqb_spec z (- 2 ^ 63)); [lia |]. cbn [obind]. apply spec_done.
  cbn [with_p mp_p]. rewrite !length_app, length_zeros. do 3 f_equal. lia.
Qed.

End memory.

(** ** Comparison *)

Lemma cmp_limbs_spec l m :
  limbs l -> limbs m -> length l = length m -> cmp_limbs l m = Z.sgn (lval l - lval m).
Proof.
  intros Hl. revert m. induction Hl as [|x l [Hx1 Hx2] Hl IH]; intros [|y m] Hm Hlen; try done.
  apply limbs_cons in Hm as [[Hy1 Hy2] Hm]. cbn [cmp_limbs lval length] in *. fold beta in *.
  rewrite IH by (done || lia). destruct (Z.eqb_spec (Z.sgn (lval l - lval m)) 0) as [E|E]; cbn [negb].
  - repeat case_cmp; lia.
  - destruct (Z.lt_trichotomy (lval l) (lval m)) as [H|[H|H]]; [|lia|]; nia.
Qed.

Lemma cmp_sig X Y :
  limbs (mp_p X) -> limbs (mp_p Y) -> (sig (mp_p X) < sig (mp_p Y))%nat -> lval (mp_p X) < lval (mp_p Y).
Proof.
  intros HX HY H. pose proof (sig_upper _ HX). destruct (sig (mp_p Y)) as [|k] eqn:E; [lia |].
  destruct (sig_bounds _ _ HY E). pose proof (bp_mono (sig (mp_p X)) k). lia.
Qed.

Lemma cmp_limbs_take X Y :
  limbs (mp_p X) -> limbs (mp_p Y) -> sig (mp_p X) = sig (mp_p Y) ->
  cmp_limbs (take (sig (mp_p X)) (mp_p X)) (take (sig (mp_p X)) (mp_p Y)) = Z.sgn (lval (mp_p X) - lval (mp_p Y)).
Proof.
  intros HX HY E. rewrite cmp_limbs_spec by (try apply limbs_take; try done; rewrite length_take_sig, E; symmetry; apply length_take_sig).
  rewrite lval_sig by done. by rewrite E, lval_sig.
Qed.

Lemma cmp_abs_spec X Y :
  limbs (mp_p X) -> limbs (mp_p Y) -> shmpi_cmp_abs X Y = Z.sgn (lval (mp_p X) - lval (mp_p Y)).
Proof.
  intros HX HY. unfold shmpi_cmp_abs. pose proof (sig_zero _ HX). pose proof (sig_zero _ HY).
  destruct (Nat.eqb_spec (sig (mp_p X)) 0), (Nat.eqb_spec (sig (mp_p Y)) 0); cbn [andb]; [intuition lia | | |];
    (destruct (Nat.ltb_spec (sig (mp_p Y)) (sig (mp_p X))) as [Hlt|]; [pose proof (cmp_sig _ _ HY HX Hlt); lia |];
     destruct (Nat.ltb_spec (sig (mp_p X)) (sig (mp_p Y))) as [Hlt|]; [pose proof (cmp_sig _ _ HX HY Hlt); lia |];
     apply cmp_limbs_take; [done..|lia]).
Qed.

Lemma cmp_mpi_spec X Y : mpi_ok X -> mpi_ok Y -> shmpi_cmp_mpi X Y = Z.sgn (mval X - mval Y).
Proof.
  intros [Hs HX] [Ht HY]. unfold shmpi_cmp_mpi, mval. pose proof (sig_zero _ HX). pose proof (sig_zero _ HY).
  pose proof (lval_range _ HX). pose proof (lval_range _ HY).
  destruct (Nat.eqb_spec (sig (mp_p X)) 0), (Nat.eqb_spec (sig (mp_p Y)) 0); cbn [andb]; [intuition lia | | |];
    (destruct (Nat.ltb_spec (sig (mp_p Y)) (sig (mp_p X))) as [Hlt|]; [pose proof (cmp_sig _ _ HY HX Hlt); destruct Hs as [-> | ->], Ht as [-> | ->]; lia |];
     destruct (Nat.ltb_spec (sig (mp_p X)) (sig (mp_p Y))) as [Hlt|]; [pose proof (cmp_sig _ _ HX HY Hlt); destruct Hs as [-> | ->], Ht as [-> | ->]; lia |];
     rewrite cmp_limbs_take by (done || lia); destruct Hs as [-> | ->], Ht as [-> | ->]; cbn; intuition lia).
Qed.

Lemma int_mpi_spec z : - 2 ^ 63 < z < 2 ^ 63 -> exists Y, int_mpi z = Done Y /\ mpi_ok Y /\ mval Y = z /\ mlen Y = 1%nat.
Proof.
  intros Hz. unfold int_mpi, iabs. destruct (Z.eqb_spec z (- 2 ^ 63)); [lia |]. cbn [obind].
  eexists. split; [done |]. split; [split|]; cbn [mp_s mp_p].
  - unfold isgn. case_cmp; [by right | by left].
  - apply limbs_cons. split; [|constructor]. rlia.
  - split; [|done]. unfold mval, isgn. cbn [mp_s mp_p lval]. case_cmp; lia.
Qed.

Lemma cmp_int_spec X z : mpi_ok X -> - 2 ^ 63 < z < 2 ^ 63 -> shmpi_cmp_int X z = Done (Z.sgn (mval X - z)).
Proof.
  intros HX Hz. unfold shmpi_cmp_int. destruct (int_mpi_spec z Hz) as (Y & -> & HY & HV & _). cbn [obind].
  rewrite cmp_mpi_spec by done. by rewrite HV.
Qed.
Lemma cmp_zero_spec X : mpi_ok X -> shmpi_cmp_int X 0 = Done (Z.sgn (mval X)).
Proof. intros. rewrite cmp_int_spec by (done || lia). by rewrite Z.sub_0_r. Qed.
