(* ===== verification/ShMpiArith.v ===== *)
(** * Multi-precision integers: sums, differences, products and shifts

    The operations of [ShMpi.v] compute the arithmetic of the integers, whatever of
    the destination and the operands is the same object; only a number that is
    added to itself in place is not. *)

From Stdlib Require Import ZArith Lia.
From stdpp Require Import base numbers list.
From S2P Require Import Prelude ShMpi ShMpiVal.

Open Scope Z_scope.
Open Scope share_scope.

(** ** Limbs *)

Lemma u64_range z : is_uint 64 (u64 z).
Proof. by apply wrap_range. Qed.
#[export] Hint Resolve u64_range : mpi.

(** A sum and its carry. *)
Lemma add_carry a b : is_uint 64 a -> is_uint 64 b -> a + b = u64 (a + b) + beta * Z.b2z (u64 (a + b) <? b).
Proof.
  intros [Ha1 Ha2] [Hb1 Hb2]. unfold wrap. fold beta in *. destruct (Z.lt_ge_cases (a + b) beta).
  - rewrite Z.mod_small by lia. case_cmp; cbn [Z.b2z]; lia.
  - rewrite <- (Z.mod_unique_pos (a + b) beta 1 (a + b - beta)) by lia. case_cmp; cbn [Z.b2z]; lia.
Qed.
(** A difference and its borrow. *)
Lemma sub_borrow a b : is_uint 64 a -> is_uint 64 b -> a - b = u64 (a - b) - beta * Z.b2z (a <? b).
Proof.
  intros [Ha1 Ha2] [Hb1 Hb2]. unfold wrap. fold beta in *. case_cmp; cbn [Z.b2z].
  - rewrite <- (Z.mod_unique_pos (a - b) beta (-1) (a - b + beta)) by lia. lia.
  - rewrite Z.mod_small by lia. lia.
Qed.

Lemma b2z_uint b : is_uint 64 (Z.b2z b).
Proof. destruct b; split; done. Qed.
#[export] Hint Resolve b2z_uint : mpi.

Lemma add_limbs_spec o l c l' c' :
  limbs o -> limbs l -> 0 <= c <= 1 -> (length o <= length l)%nat -> add_limbs l o c = (l', c') ->
  length l' = length l /\ limbs l' /\ 0 <= c' <= 1 /\
  drop (length o) l' = drop (length o) l /\ lval (take (length o) l') + c' * bp (length o) = lval (take (length o) l) + lval o + c.
Proof.
  intros Ho. revert l c l' c'. induction Ho as [|y o Hy Ho IH]; intros l c l' c' Hl Hc Hlen.
  - replace (add_limbs l [] c) with (l, c) by (by destruct l). intros [= <- <-]. cbn [length lval]. rewrite !drop_0, !take_0, bp_0. cbn [lval].
    repeat split; (done || lia).
  - destruct l as [|x l]; [cbn in Hlen; lia |]. apply limbs_cons in Hl as [Hx Hl]. cbn [add_limbs].
    destruct (add_limbs l o _) as [l1 c1] eqn:E. intros [= <- <-].
    assert (is_uint 64 c) as Hcu by rlia.
    pose proof (add_carry x c Hx Hcu) as E1. pose proof (add_carry (u64 (x + c)) y (u64_range _) Hy) as E2.
    pose proof (u64_range (x + c)) as R1. pose proof (u64_range (u64 (x + c) + y)) as R2.
    set (x1 := u64 (x + c)) in *. set (x2 := u64 (x1 + y)) in *.
    assert (0 <= Z.b2z (x1 <? c) + Z.b2z (x2 <? y) <= 1) as Hk.
    { unfold is_uint in *. fold beta in *. destruct (x1 <? c), (x2 <? y); cbn [Z.b2z] in *; lia. }
    eapply IH in E as (L & Hl1 & Hc1 & D & V); [|done..|cbn in Hlen; lia].
    cbn [length drop take lval]. rewrite L, D, bp_S. repeat split; (done || lia || nia || (by apply limbs_cons)).
Qed.

Lemma carry_limbs_spec l c l' c' :
  limbs l -> 0 <= c <= 1 -> carry_limbs l c = (l', c') ->
  length l' = length l /\ limbs l' /\ 0 <= c' <= 1 /\ lval l' + c' * bp (length l) = lval l + c.
Proof.
  intros Hl. revert c l' c'. induction Hl as [|x l Hx Hl IH]; intros c l' c' Hc; cbn [carry_limbs].
  - cbn [length]. rewrite bp_0. case_cmp as [->|]; intros [= <- <-]; repeat split; (constructor || done || cbn; lia).
  - case_cmp as [->|Hne].
    + intros [= <- <-]. repeat split; try done; try lia. by apply limbs_cons.
    + destruct (carry_limbs l _) as [l1 c1] eqn:E. intros [= <- <-].
      assert (is_uint 64 c) as Hcu by rlia. pose proof (add_carry x c Hx Hcu) as E1.
      eapply IH in E as (L & Hl1 & Hc1 & V); [|destruct (_ <? _); cbn; lia].
      cbn [length lval]. rewrite L, bp_S. repeat split; (done || lia || nia || (apply limbs_cons; auto with mpi)).
Qed.

Lemma borrow_limbs_spec d c :
  limbs d -> 0 <= c <= 1 -> c <= lval d ->
  exists d', borrow_limbs d c = Done d' /\ length d' = length d /\ limbs d' /\ lval d' = lval d - c.
Proof.
  intros Hd. revert c. induction Hd as [|x d Hx Hd IH]; intros c Hc Hv; cbn [borrow_limbs].
  - cbn in Hv. case_cmp; [|lia]. exists []. repeat split; [constructor | cbn; lia].
  - case_cmp as [->|Hne]; [exists (x :: d); repeat split; [by apply limbs_cons | lia] |].
    assert (is_uint 64 c) as Hcu by rlia. pose proof (sub_borrow x c Hx Hcu) as E1.
    pose proof (u64_range (x - c)) as R. pose proof (lval_range _ Hd) as Rd. cbn [lval] in Hv |- *.
    destruct (IH (Z.b2z (x <? c))) as (d1 & -> & L & Hd1 & V).
    { destruct (_ <? _); cbn; lia. }
    { unfold is_uint in *. fold beta in *. destruct (x <? c); cbn [Z.b2z] in *; nia. }
    cbn [obind]. eexists. split; [done |]. cbn [length lval]. rewrite L, V. repeat split; [|lia].
    apply limbs_cons; auto.
Qed.

Lemma sub_limbs_spec s d c :
  limbs s -> limbs d -> 0 <= c <= 1 -> (length s <= length d)%nat -> lval s + c <= lval d ->
  exists d', sub_limbs s d c = Done d' /\ length d' = length d /\ limbs d' /\ lval d' = lval d - lval s - c.
Proof.
  intros Hs. revert d c. induction Hs as [|y s Hy Hs IH]; intros d c Hd Hc Hlen Hv; cbn [sub_limbs].
  - cbn [lval] in *. destruct (borrow_limbs_spec d c) as (d' & H & ?); [done | lia | lia |]. exists d'. split; [done |]. intuition lia.
  - destruct d as [|x d]; [cbn in Hlen; lia |]. apply limbs_cons in Hd as [Hx Hd]. cbn [lval length] in *.
    assert (is_uint 64 c) as Hcu by rlia. pose proof (sub_borrow x c Hx Hcu) as E1.
    pose proof (sub_borrow (u64 (x - c)) y (u64_range _) Hy) as E2.
    pose proof (u64_range (x - c)) as R1. pose proof (u64_range (u64 (x - c) - y)) as R2.
    set (x1 := u64 (x - c)) in *. set (x2 := u64 (x1 - y)) in *.
    assert (0 <= Z.b2z (x1 <? y) + Z.b2z (x <? c) <= 1) as Hk.
    { unfold is_uint in *. fold beta in *. destruct (x1 <? y), (x <? c); cbn [Z.b2z] in *; lia. }
    destruct (IH d (Z.b2z (x1 <? y) + Z.b2z (x <? c))) as (d1 & -> & L & Hd1 & V); [done | done | lia | |].
    { unfold is_uint in *. fold beta in *. nia. }
    cbn [obind]. eexists. split; [done |]. cbn [length lval]. rewrite L, V. repeat split; [|nia].
    apply limbs_cons; auto.
Qed.

Lemma sub_hlp_spec n s d :
  limbs s -> limbs d -> (n <= length s)%nat -> (n <= length d)%nat -> lval (take n s) <= lval d ->
  exists d', shmpi_sub_hlp n s d = Done d' /\ length d' = length d /\ limbs d' /\ lval d' = lval d - lval (take n s).
Proof.
  intros Hs Hd Hn Hm Hv. unfold shmpi_sub_hlp. destruct (Nat.ltb_spec (length s) n); [lia |].
  destruct (sub_limbs_spec (take n s) d 0) as (d' & H1 & H2 & H3 & H4); [by apply limbs_take | done | lia | rewrite length_take; lia | lia |].
  exists d'. repeat split; try done. lia.
Qed.

(** ** Sums and differences *)

(** The result of an operation: its sign, its absolute value and bounds of its
    limbs. *)
Record res (s v : Z) (lo M : nat) (X : shmpi) : Prop := mk_res
  { res_s : mp_s X = s; res_p : limbs (mp_p X); res_v : lval (mp_p X) = v; res_lo : (lo <= mlen X)%nat; res_M : (mlen X <= M)%nat }.

Lemma res_ok s v lo M X : sign s -> res s v lo M X -> mpi_ok X.
Proof. intros Hs H. split; [by rewrite (res_s _ _ _ _ _ H) | by apply H]. Qed.
Lemma res_mval s v lo M X : res s v lo M X -> mval X = s * v.
Proof. intros []. unfold mval. congruence. Qed.

Lemma sig_msz X n : (1 <= n)%nat -> limbs (mp_p X) -> (msz X <= n)%nat <-> lval (mp_p X) < bp n.
Proof. intros. rewrite <- sig_le_iff by done. unfold msz. lia. Qed.

Section arithmetic.
Context {ml : malloc}.

(** The block does not shrink unless the operand has none. *)
Definition keeps (lo : nat) (X A : shmpi) : Prop := lo = 0%nat \/ (lo <= mlen X)%nat /\ mp_p A <> [].

Lemma copy_arg_spec X A lo M K :
  limbs (mp_p (argv X A)) -> keeps lo X (argv X A) -> (1 <= M)%nat -> (mlen X <= M)%nat -> lval (mp_p (argv X A)) < bp M -> Z.of_nat M <= K ->
  spec K (shmpi_copy X A)
    (fun X' => limbs (mp_p X') /\ lval (mp_p X') = lval (mp_p (argv X A)) /\ (lo <= mlen X' <= M)%nat /\ (sig (mp_p (argv X A)) <= mlen X')%nat /\ (sign (mp_s (argv X A)) -> sign (mp_s X'))).
Proof.
  intros HA Hlo HM1 HX HM HK. destruct A as [|A]; cbn [argv] in *.
  - apply spec_done. repeat split; try done; [destruct Hlo as [->|[]]; lia | apply sig_le].
  - pose proof (proj2 (sig_msz A M HM1 HA) HM) as Hs.
    eapply spec_mono; [| |apply (copy_spec X A K HA); lia]; [lia |].
    intros X' [Cl Cv Clen Cle Csig Cs Csign]. repeat split; auto; [|lia]. destruct Hlo as [->|[? Hne]]; [lia |]. rewrite (Clen Hne). lia.
Qed.

Lemma add_abs_other X A B lo M K :
  limbs (mp_p (argv X A)) -> limbs (mp_p B) -> keeps lo X (argv X A) -> (1 <= M)%nat -> (mlen X <= M)%nat ->
  lval (mp_p (argv X A)) + lval (mp_p B) < bp M -> Z.of_nat M <= K ->
  spec K (shmpi_add_abs X A (Other B)) (res 1 (lval (mp_p (argv X A)) + lval (mp_p B)) lo M).
Proof.
  intros HA HB Hlo HM1 HX HM HK. unfold shmpi_add_abs.
  pose proof (lval_range _ HA). pose proof (lval_range _ HB).
  eapply spec_chk; [apply (copy_arg_spec _ _ lo M K); try done; lia | lia | eauto |].
  intros X1 (HX1 & HV1 & HL1 & HS1 & _). cbn [argv]. set (j := sig (mp_p B)).
  assert (j <= M)%nat by (apply sig_le_iff; [done | lia]).
  eapply spec_chk; [apply (grow_spec _ _ K); lia | lia | eauto |]. intros X2 ->. cbn [with_p with_s mp_p mp_s]. rewrite Nat2Z.id.
  set (l0 := mp_p X1 ++ zeros (j - mlen X1)).
  assert (limbs l0) by (apply limbs_app; auto with mpi).
  assert (lval l0 = lval (mp_p X1)) as HV0 by (unfold l0; rewrite lval_app, lval_zeros; lia).
  assert (length l0 = Nat.max (mlen X1) j) as HL0 by (unfold l0; rewrite length_app, length_zeros; lia).
  pose proof (length_take_sig (mp_p B)) as Hj. fold j in Hj.
  destruct (add_limbs l0 (take j (mp_p B)) 0) as [l c] eqn:E.
  eapply add_limbs_spec in E as (L & Hl & Hc & D & V); [|auto with mpi|done|lia|rewrite Hj; lia].
  rewrite Hj in D, V. replace (lval (take j (mp_p B))) with (lval (mp_p B)) in V by (symmetry; by apply lval_sig).
  pose proof (lval_split j l0) as S0. rewrite Nat.min_l in S0 by lia. rewrite D.
  destruct (carry_limbs (drop j l0) c) as [h c'] eqn:E'.
  eapply carry_limbs_spec in E' as (L' & Hh & Hc' & V'); [|auto with mpi|done].
  rewrite length_drop in L', V'.
  assert (length (take j l) = j) as Ht by (rewrite length_take; lia).
  assert (lval (take j l ++ h) + c' * bp (length l0) = lval (mp_p X1) + lval (mp_p B)) as HV.
  { rewrite lval_app, Ht. replace (length l0) with (j + (length l0 - j))%nat by lia. rewrite bp_add. nia. }
  assert (limbs (take j l ++ h)) as HLL by (apply limbs_app; auto with mpi).
  assert (length (take j l ++ h) = length l0) as HLen by (rewrite length_app; lia).
  case_cmp as [->|Hne].
  - apply spec_done. split; cbn [mp_s mp_p with_p with_s]; try done; try lia.
  - assert (c' = 1) as -> by lia. unfold mp_n. cbn [mp_p with_p].
    assert (length l0 < M)%nat.
    { apply Nat.nle_gt. intros Hge. pose proof (bp_mono _ _ Hge). pose proof (lval_range _ HLL). lia. }
    eapply spec_chk; [apply (grow_spec _ _ K); lia | lia | eauto |]. intros X3 ->. cbn [mp_p mp_s with_p].
    replace (Z.to_nat _ - _)%nat with 1%nat by lia. cbn [zeros replicate].
    apply spec_done. rewrite length_app. cbn [length].
    replace (length (take j l ++ h) + 1 - 1)%nat with (length (take j l ++ h)) by lia. rewrite take_app_length.
    split; cbn [mp_s mp_p with_p]; rewrite ?length_app in *; cbn [length]; try done; try lia.
    + apply limbs_app. split; [done |]. apply limbs_cons. split; [split; done | constructor].
    + rewrite (lval_app (take j l ++ h)), length_app, HLen. cbn [lval]. lia.
Qed.

Lemma add_abs_spec X A B lo M K :
  A <> Self \/ B <> Self -> limbs (mp_p (argv X A)) -> limbs (mp_p (argv X B)) -> keeps lo X (argv X A) -> (1 <= M)%nat -> (mlen X <= M)%nat ->
  lval (mp_p (argv X A)) + lval (mp_p (argv X B)) < bp M -> Z.of_nat M <= K ->
  spec K (shmpi_add_abs X A B) (res 1 (lval (mp_p (argv X A)) + lval (mp_p (argv X B))) lo M).
Proof.
  intros HS HA HB Hlo HM1 HX HM HK. destruct B as [|B]; [|by apply add_abs_other].
  destruct A as [|A]; [by destruct HS |]. cbn [argv] in *. rewrite Z.add_comm in HM |- *.
  change (shmpi_add_abs X (Other A) Self) with (shmpi_add_abs X Self (Other A)).
  apply add_abs_other; try done. destruct Hlo as [->|[]]; [by left |]. destruct (decide (mp_p X = [])) as [E|]; [|by right]. left. rewrite E in *. cbn in *. lia.
Qed.

Lemma sub_abs_spec X A B lo M K :
  limbs (mp_p (argv X A)) -> limbs (mp_p (argv X B)) -> keeps lo X (argv X A) -> (1 <= M)%nat -> (mlen X <= M)%nat ->
  lval (mp_p (argv X B)) <= lval (mp_p (argv X A)) < bp M -> Z.of_nat M <= K ->
  spec K (shmpi_sub_abs X A B) (res 1 (lval (mp_p (argv X A)) - lval (mp_p (argv X B))) lo M).
Proof.
  intros HA HB Hlo HM1 HX HM HK. unfold shmpi_sub_abs. rewrite cmp_abs_spec by done. case_cmp; [lia |].
  assert (spec K (match B with Self => shmpi_copy shmpi_init (Other X) | Other Y => Done (Y, 0) end)
    (fun B' => limbs (mp_p B') /\ lval (mp_p B') = lval (mp_p (argv X B)))) as HC.
  { destruct B as [|B]; cbn [argv] in *; [|by apply spec_done].
    eapply spec_mono; [| |apply (copy_spec _ X K HB)]; [lia | by intros X' [] |].
    assert (msz X <= M)%nat by (apply sig_msz; (done || lia)). lia. }
  eapply spec_chk; [exact HC | lia | eauto |]. intros B' [HB' HVB].
  eapply spec_chk; [apply (copy_arg_spec _ _ lo M K); try done; lia | lia | eauto |].
  intros X1 (HX1 & HV1 & HL1 & HS1 & _). cbn [with_s mp_p].
  assert (sig (mp_p B') <= mlen X1)%nat.
  { apply sig_le_iff; [done |]. pose proof (lval_range _ HX1). lia. }
  destruct (sub_hlp_spec (sig (mp_p B')) (mp_p B') (mp_p X1)) as (d & -> & L & Hd & V); try done.
  { apply sig_le. } { rewrite lval_sig by done. lia. }
  cbn [obind]. apply spec_done. rewrite lval_sig in V by done.
  split; cbn [mp_s mp_p with_p]; try done; lia.
Qed.

Lemma signed_spec K m s v lo M s' : spec K m (res s v lo M) -> spec K (signed m s') (res s' v lo M).
Proof.
  intros H. unfold signed. eapply spec_chk; [exact H | lia | eauto |]. intros X []. apply spec_done. by split.
Qed.

(** A sum or a difference: the value, the sign and the bounds. *)
Record sum_res (v : Z) (lo M : nat) (X : shmpi) : Prop := mk_sum_res
  { sm_ok : mpi_ok X; sm_v : mval X = v; sm_lo : (lo <= mlen X)%nat; sm_M : (mlen X <= M)%nat }.

Lemma res_sum s v lo M X v' : res s v lo M X -> sign s -> v' = s * v -> sum_res v' lo M X.
Proof. intros H Hs ->. split; [by eapply res_ok | by eapply res_mval | by apply H..]. Qed.

Lemma sign_opp s : sign s -> sign (- s).
Proof. intros [-> | ->]; [by right | by left]. Qed.

(** The sum of numbers of one sign, and the difference of absolute values. *)
Lemma same_sign X A B lo M K :
  A <> Self \/ B <> Self -> mpi_ok (argv X A) -> mpi_ok (argv X B) -> keeps lo X (argv X A) -> (1 <= M)%nat -> (mlen X <= M)%nat ->
  Z.abs (mval (argv X A)) + Z.abs (mval (argv X B)) < bp M -> Z.of_nat M <= K ->
  spec K (signed (shmpi_add_abs X A B) (mp_s (argv X A)))
    (sum_res (mp_s (argv X A) * (lval (mp_p (argv X A)) + lval (mp_p (argv X B)))) lo M).
Proof.
  intros HS HA HB Hlo HM1 HX HM HK. rewrite !mval_abs in HM by done.
  eapply spec_mono; [reflexivity | |eapply signed_spec, (add_abs_spec X A B lo M K); auto with mpi].
  intros X' HR. apply (res_sum _ _ _ _ _ _ HR); auto with mpi.
Qed.

Lemma other_sign X A B lo M K s :
  mpi_ok (argv X A) -> mpi_ok (argv X B) -> keeps lo X (argv X A) -> keeps lo X (argv X B) -> (1 <= M)%nat -> (mlen X <= M)%nat ->
  Z.abs (mval (argv X A)) + Z.abs (mval (argv X B)) < bp M -> Z.of_nat M <= K -> sign s ->
  spec K (if 0 <=? shmpi_cmp_abs (argv X A) (argv X B) then signed (shmpi_sub_abs X A B) s else signed (shmpi_sub_abs X B A) (- s))
    (sum_res (s * (lval (mp_p (argv X A)) - lval (mp_p (argv X B)))) lo M).
Proof.
  intros HA HB Hlo Hlo' HM1 HX HM HK Hs. rewrite !mval_abs in HM by done.
  pose proof (lval_range _ (ok_p _ HA)). pose proof (lval_range _ (ok_p _ HB)).
  rewrite cmp_abs_spec by auto with mpi. case_cmp.
  - eapply spec_mono; [reflexivity | |eapply signed_spec, (sub_abs_spec X A B lo M K); auto with mpi; lia].
    intros X' HR. by apply (res_sum _ _ _ _ _ _ HR).
  - eapply spec_mono; [reflexivity | |eapply signed_spec, (sub_abs_spec X B A lo M K); auto with mpi; lia].
    intros X' HR. apply (res_sum _ _ _ _ _ _ HR); [by apply sign_opp | lia].
Qed.

Lemma add_mpi_spec X A B lo M K :
  A <> Self \/ B <> Self -> mpi_ok (argv X A) -> mpi_ok (argv X B) -> keeps lo X (argv X A) -> keeps lo X (argv X B) -> (1 <= M)%nat -> (mlen X <= M)%nat ->
  Z.abs (mval (argv X A)) + Z.abs (mval (argv X B)) < bp M -> Z.of_nat M <= K ->
  spec K (shmpi_add_mpi X A B) (sum_res (mval (argv X A) + mval (argv X B)) lo M).
Proof.
  intros HS HA HB Hlo Hlo' HM1 HX HM HK. unfold shmpi_add_mpi. pose proof (ok_s _ HA) as Sa. pose proof (ok_s _ HB) as Sb. case_cmp as [Hlt|Hge].
  - eapply spec_mono; [reflexivity | |apply (other_sign X A B lo M K); done].
    intros X' []. split; try done. rewrite sm_v0. unfold mval. destruct Sa as [Ha|Ha], Sb as [Hb|Hb]; rewrite Ha, Hb in *; lia.
  - eapply spec_mono; [reflexivity | |apply (same_sign X A B lo M K); done].
    intros X' []. split; try done. rewrite sm_v0. unfold mval. destruct Sa as [Ha|Ha], Sb as [Hb|Hb]; rewrite Ha, Hb in *; lia.
Qed.

Lemma sub_mpi_spec X A B lo M K :
  mpi_ok (argv X A) -> mpi_ok (argv X B) -> keeps lo X (argv X A) -> keeps lo X (argv X B) -> (1 <= M)%nat -> (mlen X <= M)%nat ->
  Z.abs (mval (argv X A)) + Z.abs (mval (argv X B)) < bp M -> Z.of_nat M <= K ->
  spec K (shmpi_sub_mpi X A B) (sum_res (mval (argv X A) - mval (argv X B)) lo M).
Proof.
  intros HA HB Hlo Hlo' HM1 HX HM HK. unfold shmpi_sub_mpi. pose proof (ok_s _ HA) as Sa. pose proof (ok_s _ HB) as Sb. case_cmp as [Hlt|Hge].
  - eapply spec_mono; [reflexivity | |apply (other_sign X A B lo M K); done].
    intros X' []. split; try done. rewrite sm_v0. unfold mval. destruct Sa as [Ha|Ha], Sb as [Hb|Hb]; rewrite Ha, Hb in *; lia.
  - assert (A <> Self \/ B <> Self) as HS.
    { destruct A, B; auto. cbn [argv] in *. destruct Sa as [Ha|Ha]; rewrite Ha in *; lia. }
    eapply spec_mono; [reflexivity | |apply (same_sign X A B lo M K); try done].
    intros X' []. split; try done. rewrite sm_v0. unfold mval. destruct Sa as [Ha|Ha], Sb as [Hb|Hb]; rewrite Ha, Hb in *; lia.
Qed.

End arithmetic.

(** ** Products *)

Lemma half_limb x : is_uint 64 x ->
  Z.shiftr (u64 (Z.shiftl x biH)) biH = x mod 2 ^ 32 /\ Z.shiftr x biH = x / 2 ^ 32.
Proof.
  intros [Hx1 Hx2]. unfold biH. rewrite Z.shiftl_mul_pow2, !Z.shiftr_div_pow2 by lia. split; [|done].
  unfold wrap. change (2 ^ 64) with (2 ^ 32 * 2 ^ 32). rewrite Z.mul_mod_distr_r by lia. by rewrite Z.div_mul by lia.
Qed.

Lemma mul_fits s b d c : is_uint 64 s -> is_uint 64 b -> is_uint 64 d -> is_uint 64 c -> s * b + d + c < beta * beta.
Proof. unfold is_uint. fold beta. intros. nia. Qed.

Lemma muladdc_spec b s d c :
  is_uint 64 b -> is_uint 64 s -> is_uint 64 d -> is_uint 64 c ->
  exists r0 r1, muladdc b s d c = (r0, r1) /\ is_uint 64 r0 /\ is_uint 64 r1 /\ r0 + beta * r1 = s * b + d + c.
Proof.
  intros Hb Hs Hd Hc. unfold muladdc. destruct (half_limb b Hb) as [-> ->], (half_limb s Hs) as [-> ->].
  assert (0 <= b mod 2 ^ 32 < 2 ^ 32 /\ 0 <= b / 2 ^ 32 < 2 ^ 32 /\ b = b mod 2 ^ 32 + 2 ^ 32 * (b / 2 ^ 32)) as (B0 & B1 & EB) by (unfold is_uint in *; mlia).
  assert (0 <= s mod 2 ^ 32 < 2 ^ 32 /\ 0 <= s / 2 ^ 32 < 2 ^ 32 /\ s = s mod 2 ^ 32 + 2 ^ 32 * (s / 2 ^ 32)) as (S0 & S1 & ES) by (unfold is_uint in *; mlia).
  set (b0 := b mod 2 ^ 32) in *. set (b1 := b / 2 ^ 32) in *. set (s0 := s mod 2 ^ 32) in *. set (s1 := s / 2 ^ 32) in *.
  assert (forall x y, 0 <= x < 2 ^ 32 -> 0 <= y < 2 ^ 32 -> is_uint 64 (x * y)) as HU by (intros; unfold is_uint; change (2 ^ 64) with (2 ^ 32 * 2 ^ 32); nia).
  rewrite !(wrap_small 64 (_ * _)) by (apply HU; lia).
  unfold biH. rewrite !Z.shiftr_div_pow2, !Z.shiftl_mul_pow2 by lia.
  assert (forall x, is_uint 64 x -> u64 (x * 2 ^ 32) = (x mod 2 ^ 32) * 2 ^ 32) as HW.
  { intros x _. unfold wrap. change (2 ^ 64) with (2 ^ 32 * 2 ^ 32). by rewrite Z.mul_mod_distr_r by lia. }
  rewrite !HW by (apply HU; lia).
  pose proof (HU _ _ S0 B1) as Ux. pose proof (HU _ _ S1 B0) as Uy. pose proof (HU _ _ S1 B1) as U1. pose proof (HU _ _ S0 B0) as U0.
  set (rx := s0 * b1) in *. set (ry := s1 * b0) in *.
  assert (0 <= rx mod 2 ^ 32 < 2 ^ 32 /\ 0 <= rx / 2 ^ 32 < 2 ^ 32 /\ rx = rx mod 2 ^ 32 + 2 ^ 32 * (rx / 2 ^ 32)) as (X0 & X1 & EX) by (unfold is_uint in *; mlia).
  assert (0 <= ry mod 2 ^ 32 < 2 ^ 32 /\ 0 <= ry / 2 ^ 32 < 2 ^ 32 /\ ry = ry mod 2 ^ 32 + 2 ^ 32 * (ry / 2 ^ 32)) as (Y0 & Y1 & EY) by (unfold is_uint in *; mlia).
  set (x0 := rx mod 2 ^ 32) in *. set (x1 := rx / 2 ^ 32) in *. set (y0 := ry mod 2 ^ 32) in *. set (y1 := ry / 2 ^ 32) in *.
  assert (is_uint 64 (x0 * 2 ^ 32)) as Ux0 by (unfold is_uint in *; lia).
  assert (is_uint 64 (y0 * 2 ^ 32)) as Uy0 by (unfold is_uint in *; lia).
  pose proof (add_carry (s0 * b0) (x0 * 2 ^ 32) U0 Ux0) as E1. set (a1 := u64 (s0 * b0 + x0 * 2 ^ 32)) in *.
  pose proof (u64_range (s0 * b0 + x0 * 2 ^ 32)) as Ua1. fold a1 in Ua1.
  pose proof (add_carry a1 (y0 * 2 ^ 32) Ua1 Uy0) as E2. set (a2 := u64 (a1 + y0 * 2 ^ 32)) in *.
  pose proof (u64_range (a1 + y0 * 2 ^ 32)) as Ua2. fold a2 in Ua2.
  pose proof (add_carry a2 c Ua2 Hc) as E3. set (a3 := u64 (a2 + c)) in *.
  pose proof (u64_range (a2 + c)) as Ua3. fold a3 in Ua3.
  pose proof (add_carry a3 d Ua3 Hd) as E4. set (a4 := u64 (a3 + d)) in *.
  pose proof (u64_range (a3 + d)) as Ua4. fold a4 in Ua4.
  set (c1 := Z.b2z (a1 <? x0 * 2 ^ 32)) in *. set (c2 := Z.b2z (a2 <? y0 * 2 ^ 32)) in *.
  set (c3 := Z.b2z (a3 <? c)) in *. set (c4 := Z.b2z (a4 <? d)) in *.
  assert (0 <= c1 /\ 0 <= c2 /\ 0 <= c3 /\ 0 <= c4) as (C1 & C2 & C3 & C4) by (repeat split; apply b2z_uint).
  assert (a4 + beta * (s1 * b1 + x1 + y1 + c1 + c2 + c3 + c4) = s * b + d + c) as HT.
  { assert (s * b = s0 * b0 + 2 ^ 32 * (rx + ry) + beta * (s1 * b1)) as -> by (rewrite ES, EB; unfold rx, ry, beta; ring).
    change beta with (2 ^ 32 * 2 ^ 32) in *. lia. }
  pose proof (mul_fits s b d c Hs Hb Hd Hc) as HB.
  assert (s1 * b1 + x1 + y1 + c1 + c2 + c3 + c4 < beta) as HR.
  { apply (Z.mul_lt_mono_pos_l beta); [reflexivity |]. destruct Ua4. lia. }
  assert (forall z, 0 <= z < beta -> u64 z = z) as HS by (intros; by apply wrap_small).
  assert (0 <= s1 * b1) by (unfold is_uint in *; lia).
  rewrite (HS (s1 * b1 + x1)) by lia. rewrite (HS (s1 * b1 + x1 + y1)) by lia. rewrite (HS (_ + c1)) by lia.
  rewrite (HS (_ + c2)) by lia. rewrite (HS (_ + c3)) by lia. rewrite (HS (_ + c4)) by lia.
  exists a4, (s1 * b1 + x1 + y1 + c1 + c2 + c3 + c4). split; [done |]. split; [done |]. split; [|lia].
  split; [lia | exact HR].
Qed.

Lemma carry_mul_spec d c :
  limbs d -> is_uint 64 c -> d <> [] -> lval d + c < bp (length d) ->
  exists d', carry_mul d c = Done d' /\ length d' = length d /\ limbs d' /\ lval d' = lval d + c.
Proof.
  intros Hd. revert c. induction Hd as [|x d Hx Hd IH]; intros c Hc Hne Hv; [done |]. cbn [carry_mul lval length] in *.
  pose proof (add_carry x c Hx Hc) as E. pose proof (u64_range (x + c)) as R. destruct (u64 (x + c) <? c); cbn [Z.b2z] in E.
  - rewrite bp_S in Hv. destruct d as [|y d].
    { exfalso. cbn [lval length] in Hv. rewrite bp_0 in Hv. destruct R. lia. }
    destruct (IH 1) as (d' & -> & L & Hd' & V); [split; done | done | unfold is_uint in *; fold beta in *; nia |].
    cbn [obind]. eexists. split; [done |]. cbn [length lval] in *. rewrite L, V. repeat split; [by apply limbs_cons | lia].
  - eexists. split; [done |]. cbn [length lval]. repeat split; [by apply limbs_cons | lia].
Qed.

Lemma mul_limbs_spec s d b c :
  limbs s -> limbs d -> is_uint 64 b -> is_uint 64 c -> (length s < length d)%nat -> lval d + lval s * b + c < bp (length d) ->
  exists d', mul_limbs s d b c = Done d' /\ length d' = length d /\ limbs d' /\ lval d' = lval d + lval s * b + c.
Proof.
  intros Hs. revert d c. induction Hs as [|y s Hy Hs IH]; intros d c Hd Hb Hc Hlen Hv; cbn [mul_limbs].
  - destruct (carry_mul_spec d c Hd Hc) as (d' & H & ?); [by destruct d; cbn in Hlen; [lia|] | cbn in Hv; lia |].
    exists d'. cbn [lval]. intuition lia.
  - destruct d as [|x d]; [cbn in Hlen; lia |]. apply limbs_cons in Hd as [Hx Hd]. cbn [lval length] in *. rewrite bp_S in Hv.
    destruct (muladdc_spec b y x c) as (r0 & r1 & -> & R0 & R1 & E); [done..|].
    destruct (IH d r1) as (d' & -> & L & Hd' & V); [done | done | done | lia | unfold is_uint in *; fold beta in *; nia |].
    cbn [obind]. eexists. split; [done |]. cbn [length lval]. rewrite L, V. repeat split; [by apply limbs_cons | nia].
Qed.

Lemma mul_hlp_spec i s d b :
  limbs s -> limbs d -> is_uint 64 b -> (i <= length s)%nat -> (i < length d)%nat -> lval d + lval (take i s) * b < bp (length d) ->
  exists d', shmpi_mul_hlp i s d b = Done d' /\ length d' = length d /\ limbs d' /\ lval d' = lval d + lval (take i s) * b.
Proof.
  intros Hs Hd Hb Hi Hlen Hv. unfold shmpi_mul_hlp. destruct (Nat.ltb_spec (length s) i); [lia |].
  destruct (mul_limbs_spec (take i s) d b 0) as (d' & H1 & H2 & H3 & H4);
    [by apply limbs_take | done | done | split; done | rewrite length_take; lia | lia |].
  exists d'. repeat split; try done. lia.
Qed.

Lemma mul_rows_spec i a b x :
  limbs a -> limbs b -> limbs x -> (i <= length a)%nat -> (i + length b <= length x)%nat -> lval x + lval (take i a) * lval b < bp (length x) ->
  exists x', mul_rows i a b x = Done x' /\ length x' = length x /\ limbs x' /\ lval x' = lval x + lval (take i a) * lval b.
Proof.
  intros Ha Hb. revert x. induction Hb as [|y b Hy Hb IH]; intros x Hx Hi Hlen Hv; cbn [mul_rows].
  - exists x. cbn [lval]. repeat split; (done || lia).
  - destruct x as [|x0 x]; [cbn in Hlen; lia |]. apply limbs_cons in Hx as [Hx0 Hx]. cbn [length lval] in *. rewrite bp_S in Hv.
    pose proof (lval_range _ (limbs_take i a Ha)) as Ra. pose proof (lval_range _ Hx) as Rx. pose proof (lval_range _ Hb) as Rb.
    destruct (IH x) as (r & -> & L & Hr & V); [done | lia | lia | unfold is_uint in *; fold beta in *; nia |]. cbn [obind].
    destruct (mul_hlp_spec i a (x0 :: r) y) as (x' & -> & L' & Hx' & V'); try done.
    { by apply limbs_cons. } { cbn [length]. lia. } { cbn [length lval]. rewrite L, V, bp_S. nia. }
    eexists. split; [done |]. cbn [length lval] in *. rewrite L', V', V, L. repeat split; (done || nia).
Qed.

Lemma copied_ok X Y X' : mpi_ok Y -> copied X Y X' -> mpi_ok X'.
Proof. intros [Hs Hl] HC. split; [by apply (cp_sign _ _ _ HC) | apply HC]. Qed.
Lemma copied_mval X Y X' : mpi_ok Y -> copied X Y X' -> mval X' = mval Y.
Proof.
  intros [Hs Hl] HC. unfold mval. rewrite (cp_lval _ _ _ HC). destruct (decide (mp_p Y = [])) as [E|Hne].
  - rewrite E. cbn. lia.
  - by rewrite (cp_s _ _ _ HC).
Qed.

Section products.
Context {ml : malloc}.

(** An operand is copied when it is the destination. *)
Lemma saved_spec X A K :
  mpi_ok (argv X A) -> Z.of_nat (msz (argv X A)) <= K ->
  spec K (match A with Self => shmpi_copy shmpi_init (Other X) | Other Y => Done (Y, 0) end)
    (fun A' => mpi_ok A' /\ mval A' = mval (argv X A)).
Proof.
  intros HA HK. destruct A as [|A]; cbn [argv] in *; [|apply spec_done; auto].
  eapply spec_mono; [reflexivity | |apply (copy_spec _ X K); auto with mpi].
  intros X' HC. split; [by eapply copied_ok | by eapply copied_mval].
Qed.

Lemma sig_mval X Y : mpi_ok X -> mpi_ok Y -> mval X = mval Y -> sig (mp_p X) = sig (mp_p Y).
Proof.
  intros HX HY E. assert (lval (mp_p X) = lval (mp_p Y)) as E' by (rewrite <- !mval_abs by done; congruence).
  pose proof (ok_p _ HX). pose proof (ok_p _ HY).
  apply Nat.le_antisymm; apply sig_le_iff; try done; [rewrite E' | rewrite <- E']; by apply sig_upper.
Qed.

Lemma mul_mpi_spec X A B n K :
  mpi_ok (argv X A) -> mpi_ok (argv X B) ->
  n = Nat.max (Nat.max (mlen X) 1) (sig (mp_p (argv X A)) + sig (mp_p (argv X B))) -> Z.of_nat n <= K ->
  spec K (shmpi_mul_mpi X A B) (sum_res (mval (argv X A) * mval (argv X B)) n n).
Proof.
  intros HA HB Hn HK. unfold shmpi_mul_mpi.
  eapply spec_chk; [apply (saved_spec X A K); [done | unfold msz; lia] | lia | eauto |]. intros A' [HA' EA].
  eapply spec_chk; [apply (saved_spec X B K); [done | unfold msz; lia] | lia | eauto |]. intros B' [HB' EB].
  rewrite <- (sig_mval _ _ HA' HA EA), <- (sig_mval _ _ HB' HB EB) in Hn. rewrite <- EA, <- EB. clear HA HB EA EB.
  set (i := sig (mp_p A')) in *. set (j := sig (mp_p B')) in *.
  eapply spec_chk; [apply (grow_spec _ _ K); lia | lia | eauto |]. intros X1 ->.
  eapply spec_chk; [apply (lset_spec _ 0 K); lia | lia | eauto |]. intros X2 ->. cbn [mp_p with_p].
  rewrite length_app, length_zeros, Nat2Z.id. change (Z.abs 0) with 0.
  set (x := 0 :: zeros (_ - 1)).
  assert (x = zeros n) as -> by (unfold x; change (0 :: zeros ?k) with (zeros (S k)); f_equal; lia).
  pose proof (ok_p _ HA') as LA. pose proof (ok_p _ HB') as LB.
  assert (lval (take i (mp_p A')) = lval (mp_p A')) as VA by (by apply lval_sig).
  assert (lval (take j (mp_p B')) = lval (mp_p B')) as VB by (by apply lval_sig).
  destruct (mul_rows_spec i (mp_p A') (take j (mp_p B')) (zeros n)) as (l & -> & L & Hl & V); auto with mpi.
  { apply sig_le. } { rewrite length_zeros. unfold j. rewrite length_take_sig. lia. }
  { rewrite length_zeros, lval_zeros, VA, VB. pose proof (sig_upper _ LA) as UA. pose proof (sig_upper _ LB) as UB. fold i in UA. fold j in UB.
    pose proof (lval_range _ LA). pose proof (lval_range _ LB). pose proof (bp_mono (i + j) n). rewrite bp_add in *. nia. }
  cbn [obind]. apply spec_done. rewrite lval_zeros, VA, VB in V. rewrite length_zeros in L.
  split; cbn [mp_s mp_p]; [split; cbn [mp_s mp_p]; [|done] | unfold mval; cbn [mp_s mp_p]; rewrite V; ring | by rewrite L..].
  pose proof (ok_s _ HA') as [-> | ->]; pose proof (ok_s _ HB') as [-> | ->]; by (left + right).
Qed.

Lemma limb_ok z : is_uint 64 z -> mpi_ok (mk_mpi 1 [z]) /\ mval (mk_mpi 1 [z]) = z /\ (sig [z] <= 1)%nat.
Proof.
  intros Hz. split; [split; [by left | apply limbs_cons; split; [done | constructor]] |]. split; [unfold mval; cbn; lia |].
  apply (sig_le [z]).
Qed.

Lemma mul_int_spec X A b n K :
  mpi_ok (argv X A) -> is_uint 64 b -> n = Nat.max (Nat.max (mlen X) 1) (sig (mp_p (argv X A)) + sig [b]) -> Z.of_nat n <= K ->
  spec K (shmpi_mul_int X A b) (sum_res (mval (argv X A) * b) n n).
Proof.
  intros HA Hb Hn HK. unfold shmpi_mul_int. rewrite (wrap_small 64 b) by done. destruct (limb_ok b Hb) as (Hok & Hv & _).
  rewrite <- Hv at 2. by apply (mul_mpi_spec X A (Other (mk_mpi 1 [b])) n K).
Qed.

End products.

(** ** The ring operations *)

(** A sum needs one limb more than its summands. *)
Lemma sum_fits a b M :
  mpi_ok a -> mpi_ok b -> (S (sig (mp_p a) + sig (mp_p b)) <= M)%nat -> Z.abs (mval a) + Z.abs (mval b) < bp M.
Proof.
  intros Ha Hb HM. rewrite !mval_abs by done. pose proof (sig_upper _ (ok_p _ Ha)). pose proof (sig_upper _ (ok_p _ Hb)).
  pose proof (bp_mono (sig (mp_p a)) (sig (mp_p a) + sig (mp_p b))). pose proof (bp_mono (sig (mp_p b)) (sig (mp_p a) + sig (mp_p b))).
  pose proof (bp_mono _ _ HM) as H9. rewrite bp_S in H9. unfold beta in H9.
  pose proof (bp_pos (sig (mp_p a) + sig (mp_p b))). lia.
Qed.

(** C16: whatever the destination holds, and also when it is an operand,
    addition, subtraction and multiplication of well-formed numbers leave a
    well-formed number whose value is the sum, the difference or the product, and
    the comparison is that of the values; only the sum of a number with itself into
    itself is excepted.  The calls fail only when a block of the stated size is
    refused. *)
Theorem shmpi_ring_refines {ml : malloc} X A B K :
  let a := argv X A in let b := argv X B in
  mpi_ok a -> mpi_ok b -> Z.of_nat (Nat.max (mlen X) (S (sig (mp_p a) + sig (mp_p b)))) <= K ->
  (A <> Self \/ B <> Self -> spec K (shmpi_add_mpi X A B) (fun X' => mpi_ok X' /\ mval X' = mval a + mval b)) /\
  spec K (shmpi_sub_mpi X A B) (fun X' => mpi_ok X' /\ mval X' = mval a - mval b) /\
  spec K (shmpi_mul_mpi X A B) (fun X' => mpi_ok X' /\ mval X' = mval a * mval b) /\
  shmpi_cmp_mpi a b = Z.sgn (mval a - mval b).
Proof.
  intros a b Ha Hb HK. set (M := Nat.max (mlen X) (S (sig (mp_p a) + sig (mp_p b)))) in *.
  assert (Z.abs (mval a) + Z.abs (mval b) < bp M) as Hsum by (subst M; apply sum_fits; [done | done | lia]).
  assert (forall v lo N X', sum_res v lo N X' -> mpi_ok X' /\ mval X' = v) as Hr by (intros v lo N X' [? ? _ _]; done).
  split; [|split; [|split]].
  - intros Hne. eapply spec_mono; [apply (Z.le_refl K) | apply Hr | apply (add_mpi_spec X A B 0 M K); try done; try (by left); lia].
  - eapply spec_mono; [apply (Z.le_refl K) | apply Hr | apply (sub_mpi_spec X A B 0 M K); try done; try (by left); lia].
  - eapply spec_mono; [apply (Z.le_refl K) | apply Hr | eapply (mul_mpi_spec X A B _ K Ha Hb eq_refl); subst a b; lia].
  - by apply cmp_mpi_spec.
Qed.

Definition ex_malloc : malloc := fun _ => true.
Definition ex_big : shmpi := mk_mpi 1 [2 ^ 64 - 1; 2 ^ 64 - 1].

(** [ex_big - 1] and [ex_big * 1], the first into [ex_big] itself. *)
Lemma shmpi_ring_refines_witness :
  mpi_ok ex_big /\ @spec ex_malloc 4 (@shmpi_sub_mpi ex_malloc ex_big Self (Other (mk_mpi 1 [1]))) (fun X' => mpi_ok X' /\ mval X' = 2 ^ 128 - 2).
Proof.
  assert (mpi_ok ex_big) as H1 by (by apply mpi_okb_ok).
  assert (mpi_ok (mk_mpi 1 [1])) as H2 by (by apply mpi_okb_ok).
  split; [exact H1 |]. exact (proj1 (proj2 (@shmpi_ring_refines ex_malloc ex_big Self (Other (mk_mpi 1 [1])) 4 H1 H2 ltac:(vm_compute; discriminate)))).
Defined.

(** The sum of a number with itself into itself loses the carries: a limb is
    compared with itself. *)
Theorem shmpi_add_self_loses (x : Z) :
  is_uint 64 x -> @shmpi_add_mpi ex_malloc (mk_mpi 1 [x]) Self Self = Done (mk_mpi 1 [u64 (x + x)], 0).
Proof.
  intros Hx. assert (add_self 1 [x] 0 = ([u64 (x + x)], 0)) as Hs.
  { cbn [add_self]. rewrite Z.add_0_r, (wrap_small 64 x) by done. destruct Hx.
    replace (x <? 0) with false by (symmetry; apply Z.ltb_ge; lia). by rewrite Z.ltb_irrefl. }
  unfold shmpi_add_mpi, shmpi_add_abs. cbn [argv mp_s mp_p shmpi_copy sig].
  destruct (Z.eqb_spec x 0) as [->|]; [reflexivity |].
  assert (@shmpi_grow ex_malloc (mk_mpi 1 [x]) (Z.of_nat 1) = Done (mk_mpi 1 [x], 0)) as Hg by reflexivity.
  unfold signed, chk, with_s. cbn -[add_self shmpi_grow Z.of_nat u64].
  rewrite (proj2 (Z.eqb_neq x 0)), Hg by done. cbn -[add_self u64]. by rewrite Hs.
Qed.
