(* ===== verification/ShMpiBits.v ===== *)
(** * Multi-precision integers: bits and shifts

    The bit counts of [ShMpi.v] are those of the value, and its shifts multiply and
    divide by powers of two. *)

From Stdlib Require Import ZArith Lia.
From stdpp Require Import base numbers list.
From S2P Require Import Prelude ShMpi ShMpiVal ShMpiArith.

Open Scope Z_scope.
Open Scope share_scope.

(** ** The length of a number in bits *)

Definition nbits (v : Z) : Z := if v =? 0 then 0 else Z.log2 v + 1.

Lemma nbits_nonneg v : 0 <= nbits v.
Proof. unfold nbits. case_cmp; [lia |]. pose proof (Z.log2_nonneg v). lia. Qed.
Lemma nbits_upper v : 0 <= v -> v < 2 ^ nbits v.
Proof. intros. unfold nbits. case_cmp; [lia |]. rewrite Z.add_1_r. apply Z.log2_spec. lia. Qed.
Lemma nbits_unique v k : 0 <= k -> 2 ^ k <= v < 2 ^ (k + 1) -> nbits v = k + 1.
Proof. intros Hk Hv. unfold nbits. case_cmp; [lia |]. f_equal. apply Z.log2_unique; [lia |]. by rewrite <- Z.add_1_r. Qed.
Lemma nbits_lower v : 0 < v -> 2 ^ (nbits v - 1) <= v.
Proof. intros. unfold nbits. case_cmp; [lia |]. rewrite Z.add_simpl_r. apply Z.log2_spec. lia. Qed.
Lemma nbits_pos v : 0 < v -> 1 <= nbits v.
Proof. intros. unfold nbits. case_cmp; [lia |]. pose proof (Z.log2_nonneg v). lia. Qed.
Lemma nbits_le v k : 0 <= k -> 0 <= v < 2 ^ k -> nbits v <= k.
Proof.
  intros Hk Hv. unfold nbits. case_cmp; [lia |]. assert (Z.log2 v < k) by (apply Z.log2_lt_pow2; lia). lia.
Qed.
Lemma nbits_mul v k : 0 < v -> 0 <= k -> nbits (v * 2 ^ k) = nbits v + k.
Proof.
  intros Hv Hk. unfold nbits. repeat case_cmp; try nia. rewrite Z.log2_mul_pow2 by lia. lia.
Qed.
Lemma nbits_mono v w : 0 <= v <= w -> nbits v <= nbits w.
Proof. intros. unfold nbits. repeat case_cmp; try lia; [pose proof (Z.log2_nonneg w); lia |]. pose proof (Z.log2_le_mono v w). lia. Qed.
Lemma nbits_limb i low x : 0 <= low < bp i -> 0 < x -> nbits (low + bp i * x) = 64 * Z.of_nat i + nbits x.
Proof.
  intros Hlow Hx. pose proof (nbits_lower x Hx) as Hl. pose proof (nbits_upper x ltac:(lia)) as Hu.
  pose proof (nbits_pos x Hx). replace (64 * Z.of_nat i + nbits x) with ((64 * Z.of_nat i + (nbits x - 1)) + 1) by lia.
  apply nbits_unique; [lia |]. replace (64 * Z.of_nat i + (nbits x - 1) + 1) with (64 * Z.of_nat i + nbits x) by lia.
  rewrite !Z.pow_add_r by lia. change (2 ^ (64 * Z.of_nat i)) with (bp i). pose proof (bp_pos i). nia.
Qed.

Lemma land_1 x : Z.land x 1 = x mod 2.
Proof. change 1 with (Z.ones 1). by rewrite Z.land_ones. Qed.

Lemma msb_limb_spec j x : 0 <= x < 2 ^ Z.of_nat j -> msb_limb j x = nbits x.
Proof.
  induction j as [|j IH]; intros Hx; cbn [msb_limb].
  - assert (x = 0) as -> by (cbn in Hx; lia). reflexivity.
  - rewrite land_1, Z.shiftr_div_pow2 by lia.
    assert (2 ^ Z.of_nat (S j) = 2 * 2 ^ Z.of_nat j) as E by (rewrite <- Z.pow_succ_r by lia; f_equal; lia). rewrite E in Hx.
    destruct (Z.lt_ge_cases x (2 ^ Z.of_nat j)).
    + rewrite (Z.div_small x) by lia. cbn [negb Z.modulo Z.eqb]. change (0 mod 2 =? 0) with true. cbn [negb]. apply IH. lia.
    + replace (x / 2 ^ Z.of_nat j) with 1 by (apply (Z.div_unique_pos x _ 1 (x - 2 ^ Z.of_nat j)); lia). change (1 mod 2 =? 0) with false. cbn [negb].
      rewrite (nbits_unique x (Z.of_nat j)); [lia | lia |]. rewrite Z.add_1_r, Z.pow_succ_r by lia. lia.
Qed.

(** The highest limb. *)
Lemma top_split l : limbs l -> l <> [] ->
  exists low, lval l = low + bp (top l) * nth (top l) l 0 /\ 0 <= low < bp (top l) /\ is_uint 64 (nth (top l) l 0) /\ (lval l <> 0 -> nth (top l) l 0 <> 0) /\ (lval l = 0 -> top l = 0%nat).
Proof.
  intros Hl Hne. pose proof (top_lt l Hne) as Ht. exists (lval (take (top l) l)).
  assert (nth (top l) l 0 = nth (top l) l 0) as _ by done.
  destruct (nth_lookup_or_length l (top l) 0) as [Hx|]; [|lia].
  assert (lval (take (S (top l)) l) = lval (take (top l) l) + bp (top l) * nth (top l) l 0) as E.
  { rewrite (take_S_r _ _ _ Hx), lval_app, length_take, Nat.min_l by lia. cbn [lval]. lia. }
  rewrite lval_top in E by done. pose proof (lval_range _ (limbs_take (top l) l Hl)) as R. rewrite length_take, Nat.min_l in R by lia.
  assert (is_uint 64 (nth (top l) l 0)) as U by (eapply (Forall_lookup_1 _ l); eauto).
  split; [done |]. split; [done |]. split; [done |]. split.
  - intros Hnz Hz. rewrite Hz in E. unfold top in *. destruct (sig l) as [|k] eqn:Es; [by apply sig_zero in Es |].
    destruct (sig_bounds l k Hl Es). cbn [Nat.pred] in *. lia.
  - intros Hz%sig_zero; [|done]. unfold top. by rewrite Hz.
Qed.

Lemma msb_spec X : limbs (mp_p X) -> shmpi_msb X = nbits (lval (mp_p X)).
Proof.
  intros Hl. unfold shmpi_msb. destruct (mp_p X) as [|x l] eqn:E; [reflexivity |]. rewrite <- E in *.
  destruct (top_split (mp_p X) Hl) as (low & HV & Hlow & HU & Hnz & Hz); [by rewrite E |].
  replace (match mp_p X with [] => 0 | _ => _ end) with (Z.of_nat (top (mp_p X)) * biL + msb_limb (Z.to_nat biL) (nth (top (mp_p X)) (mp_p X) 0)) by (by rewrite E).
  rewrite msb_limb_spec by exact HU. destruct (Z.eq_dec (lval (mp_p X)) 0) as [E0|E0].
  - specialize (Hz E0). rewrite E0, Hz in *. rewrite bp_0 in *. replace (nth 0 (mp_p X) 0) with 0 by lia. reflexivity.
  - rewrite HV, nbits_limb by (done || (destruct HU; specialize (Hnz E0); lia)). unfold biL. lia.
Qed.

(** ** The lowest bit that is set *)

Lemma lsb_limb_spec fuel x j :
  0 <= j -> match lsb_limb fuel x j with
  | Some k => j <= k < j + Z.of_nat fuel /\ Z.testbit x k = true /\ (forall i, j <= i < k -> Z.testbit x i = false)
  | None => forall i, j <= i < j + Z.of_nat fuel -> Z.testbit x i = false
  end.
Proof.
  revert j. induction fuel as [|f IH]; intros j Hj; cbn [lsb_limb]; [intros; lia |].
  rewrite land_1, Z.shiftr_div_pow2 by done. rewrite <- Z.testbit_spec' by done.
  destruct (Z.testbit x j) eqn:Eb; cbn [Z.b2z Z.eqb negb].
  - split; [lia |]. split; [done | intros; lia].
  - specialize (IH (j + 1) ltac:(lia)). destruct (lsb_limb f x (j + 1)) as [k|].
    + destruct IH as (H1 & H2 & H3). split; [lia |]. split; [done |]. intros i Hi. destruct (Z.eq_dec i j) as [->|]; [done | apply H3; lia].
    + intros i Hi. destruct (Z.eq_dec i j) as [->|]; [done | apply IH; lia].
Qed.

Lemma testbit_lval x l i : is_uint 64 x -> 0 <= i -> Z.testbit (x + beta * lval l) i = if i <? 64 then Z.testbit x i else Z.testbit (lval l) (i - 64).
Proof.
  intros Hx Hi. rewrite Z.add_comm, Z.mul_comm. unfold beta. rewrite <- (lor_add (lval l) x 64) by (done || lia).
  rewrite Z.lor_spec, Z.shiftl_spec by done. case_cmp.
  - by rewrite (Z.testbit_neg_r (lval l)) by lia.
  - rewrite (bits_above 64 x) by (done || lia). by rewrite orb_false_r.
Qed.

Lemma lsb_loop_spec l c :
  limbs l -> lval l <> 0 ->
  exists k, lsb_loop l c = c + k /\ 0 <= k /\ Z.testbit (lval l) k = true /\ forall i, 0 <= i < k -> Z.testbit (lval l) i = false.
Proof.
  intros Hl. revert c. induction Hl as [|x l Hx Hl IH]; intros c Hne; [done |]. cbn [lsb_loop lval] in *.
  pose proof (lsb_limb_spec (Z.to_nat biL) x 0 ltac:(lia)) as HS. destruct (lsb_limb _ x 0) as [k|].
  - destruct HS as (H1 & H2 & H3). change (0 + Z.of_nat (Z.to_nat biL)) with 64 in H1. exists k. split; [done |]. split; [lia |].
    rewrite testbit_lval by (done || lia). destruct (Z.ltb_spec k 64); [|lia]. split; [done |].
    intros i Hi. rewrite testbit_lval by (done || lia). destruct (Z.ltb_spec i 64); [|lia]. by apply H3.
  - change (0 + Z.of_nat (Z.to_nat biL)) with 64 in HS.
    assert (x = 0) as ->.
    { apply Z.bits_inj'. intros i Hi. rewrite Z.bits_0. destruct (Z.lt_ge_cases i 64); [apply HS; lia | by apply (bits_above 64)]. }
    destruct (IH (c + biL)) as (k & -> & Hk & Hb & Hlow); [lia |]. exists (64 + k). unfold biL. split; [lia |]. split; [lia |].
    rewrite testbit_lval by (done || lia). destruct (Z.ltb_spec (64 + k) 64); [lia |]. replace (64 + k - 64) with k by lia. split; [done |].
    intros i Hi. rewrite testbit_lval by (done || lia). case_cmp; [apply Z.bits_0 | apply Hlow; lia].
Qed.

(** The bits below the lowest one that is set are zero. *)
Lemma lsb_spec X :
  limbs (mp_p X) -> lval (mp_p X) <> 0 ->
  0 <= shmpi_lsb X /\ exists o, lval (mp_p X) = (2 * o + 1) * 2 ^ shmpi_lsb X.
Proof.
  intros Hl Hne. unfold shmpi_lsb. destruct (lsb_loop_spec (mp_p X) 0 Hl Hne) as (k & -> & Hk & Hb & Hlow). rewrite Z.add_0_l. split; [done |].
  exists (lval (mp_p X) / 2 ^ (k + 1)).
  assert (lval (mp_p X) mod 2 ^ k = 0) as H0.
  { apply Z.bits_inj'. intros i Hi. rewrite Z.bits_0. destruct (Z.lt_ge_cases i k).
    - rewrite Z.mod_pow2_bits_low by done. apply Hlow. lia.
    - by rewrite Z.mod_pow2_bits_high by lia. }
  pose proof (Z.testbit_spec' (lval (mp_p X)) k Hk) as H1. rewrite Hb in H1. cbn in H1.
  rewrite Z.pow_add_r by lia. rewrite <- Z.div_div by lia. change (2 ^ 1) with 2. assert (0 < 2 ^ k) by lia.
  pose proof (Z.div_mod (lval (mp_p X)) (2 ^ k) ltac:(lia)). pose proof (Z.div_mod (lval (mp_p X) / 2 ^ k) 2 ltac:(lia)). nia.
Qed.
Lemma lsb_zero X : limbs (mp_p X) -> lval (mp_p X) = 0 -> shmpi_lsb X = 0.
Proof.
  unfold shmpi_lsb. generalize 0 at 2. intros c Hl. revert c. induction Hl as [|x l Hx Hl IH]; intros c Hv; [done |]. cbn [lsb_loop lval] in *.
  pose proof (lval_range _ Hl). destruct Hx as [Hx1 Hx2]. assert (x = 0) as -> by (fold beta in *; nia).
  change (lsb_limb (Z.to_nat biL) 0 0) with (@None Z). apply IH. unfold beta in *. lia.
Qed.

(** ** Shifts of a block *)

Lemma shl_bits_spec t l r0 :
  limbs l -> 0 < t < 64 -> 0 <= r0 < 2 ^ t -> lval l * 2 ^ t + r0 < bp (length l) ->
  length (shl_bits t r0 l) = length l /\ limbs (shl_bits t r0 l) /\ lval (shl_bits t r0 l) = lval l * 2 ^ t + r0.
Proof.
  intros Hl Ht. revert r0. induction Hl as [|x l Hx Hl IH]; intros r0 Hr Hv; cbn [shl_bits length lval] in *.
  - rewrite bp_0 in Hv. repeat split; [constructor | lia].
  - unfold biL. rewrite Z.shiftr_div_pow2, Z.shiftl_mul_pow2 by lia.
    assert (beta = 2 ^ t * 2 ^ (64 - t)) as EB by (unfold beta; rewrite <- Z.pow_add_r by lia; f_equal; lia).
    assert (u64 (x * 2 ^ t) = (x mod 2 ^ (64 - t)) * 2 ^ t) as EU.
    { unfold wrap. fold beta. rewrite EB, (Z.mul_comm (2 ^ t) (2 ^ (64 - t))). apply Z.mul_mod_distr_r; lia. }
    assert (0 < 2 ^ t /\ 0 < 2 ^ (64 - t)) as [P1 P2] by lia.
    pose proof (Z.mod_pos_bound x (2 ^ (64 - t)) P2) as Rm. pose proof (Z.div_mod x (2 ^ (64 - t)) ltac:(lia)) as Ex.
    assert (0 <= x / 2 ^ (64 - t) < 2 ^ t) as Rq.
    { destruct Hx as [Hx1 Hx2]. fold beta in Hx2. split; [by apply Z.div_pos |]. apply Z.div_lt_upper_bound; lia. }
    rewrite EU, <- Z.shiftl_mul_pow2, lor_add by (done || lia).
    rewrite bp_S in Hv. destruct (IH (x / 2 ^ (64 - t)) Rq) as (L & HL & V).
    { destruct Hx. fold beta in *. nia. }
    rewrite L, V. split; [done |]. split; [apply limbs_cons; split; [|done] | nia].
    unfold is_uint. fold beta. rewrite EB. nia.
Qed.

Lemma shr_bits_spec v l :
  limbs l -> 0 < v < 64 ->
  length (fst (shr_bits v l)) = length l /\ limbs (fst (shr_bits v l)) /\ lval (fst (shr_bits v l)) = lval l / 2 ^ v /\
  snd (shr_bits v l) = (lval l mod 2 ^ v) * 2 ^ (64 - v).
Proof.
  intros Hl Hv. induction Hl as [|x l Hx Hl IH]; cbn [shr_bits length lval].
  - cbn [fst snd lval length]. rewrite Z.div_0_l, Z.mod_0_l by lia. repeat split; constructor.
  - destruct (shr_bits v l) as [l' r0]. cbn [fst snd] in *. destruct IH as (L & HL & V & ->). cbn [fst snd length lval].
    rewrite L, V. unfold biL. rewrite Z.shiftr_div_pow2, Z.shiftl_mul_pow2 by lia.
    assert (beta = 2 ^ v * 2 ^ (64 - v)) as EB by (unfold beta; rewrite <- Z.pow_add_r by lia; f_equal; lia).
    assert (0 < 2 ^ v /\ 0 < 2 ^ (64 - v)) as [P1 P2] by lia.
    assert (0 <= x / 2 ^ v < 2 ^ (64 - v)) as Rq.
    { destruct Hx as [Hx1 Hx2]. fold beta in Hx2. split; [by apply Z.div_pos |]. apply Z.div_lt_upper_bound; lia. }
    pose proof (Z.mod_pos_bound (lval l) (2 ^ v) P1) as Rm.
    rewrite Z.lor_comm, <- (Z.shiftl_mul_pow2 (lval l mod 2 ^ v)), lor_add by (done || lia).
    assert ((x + beta * lval l) / 2 ^ v = x / 2 ^ v + (lval l mod 2 ^ v) * 2 ^ (64 - v) + beta * (lval l / 2 ^ v)) as EV.
    { rewrite EB at 1. replace (x + 2 ^ v * 2 ^ (64 - v) * lval l) with (x + (2 ^ (64 - v) * lval l) * 2 ^ v) by ring.
      rewrite Z.div_add by lia. pose proof (Z.div_mod (lval l) (2 ^ v) ltac:(lia)). rewrite EB. nia. }
    split; [done |]. split; [apply limbs_cons; split; [|done] | split; [rewrite EV; ring |]].
    + unfold is_uint. fold beta. rewrite EB. nia.
    + unfold wrap. fold beta. rewrite EB at 1. rewrite Z.mul_mod_distr_r by lia. f_equal.
      rewrite EB. replace (x + 2 ^ v * 2 ^ (64 - v) * lval l) with (x + (2 ^ (64 - v) * lval l) * 2 ^ v) by ring. by rewrite Z.mod_add by lia.
Qed.

(** ** Shifts of a number *)

Lemma low_bits count : 0 <= count -> Z.land count (biL - 1) = count mod 64.
Proof. intros. change (biL - 1) with (Z.ones 6). by rewrite Z.land_ones. Qed.

Lemma bp_le_pow n i : 0 <= i -> i <= 64 * Z.of_nat n -> 2 ^ i <= bp n.
Proof. intros. rewrite bp_pow. apply Z.pow_le_mono_r; lia. Qed.

(** A shift to the left in a block with room for the result. *)
Lemma shl_block l count :
  limbs l -> 0 <= count -> count <= 64 * Z.of_nat (length l) -> lval l * 2 ^ count < bp (length l) ->
  let v0 := Z.to_nat (count / biL) in
  let t1 := Z.land count (biL - 1) in
  let l1 := if (0 <? v0)%nat then take (length l) (zeros v0 ++ l) else l in
  let l2 := if 0 <? t1 then take v0 l1 ++ shl_bits t1 0 (drop v0 l1) else l1 in
  length l2 = length l /\ limbs l2 /\ lval l2 = lval l * 2 ^ count.
Proof.
  intros Hl Hc Hroom Hv v0 t1 l1 l2. unfold biL in *.
  assert (t1 = count mod 64) as Et by (by apply low_bits). pose proof (Z.mod_pos_bound count 64 ltac:(lia)) as Rt. rewrite <- Et in Rt.
  assert (count = 64 * Z.of_nat v0 + t1) as Ec by (unfold v0, biL; rewrite Z2Nat.id by (apply Z.div_pos; lia); mlia).
  assert (2 ^ count = bp v0 * 2 ^ t1) as Ep by (rewrite Ec, Z.pow_add_r by lia; done).
  rewrite Ep in *. pose proof (lval_range l Hl). pose proof (bp_pos v0). assert (0 < 2 ^ t1) by lia.
  assert (v0 <= length l)%nat by lia.
  assert (bp (length l) = bp v0 * bp (length l - v0)) as Eb by (rewrite <- bp_add; f_equal; lia). rewrite Eb in Hv.
  assert (length l1 = length l /\ l1 = zeros v0 ++ take (length l - v0) l) as [L1 E1].
  { unfold l1. destruct (Nat.ltb_spec 0 v0) as [|Hv0].
    - rewrite length_take, length_app, length_zeros, take_app, length_zeros. split; [lia |]. f_equal. apply take_ge. rewrite length_zeros. lia.
    - replace v0 with 0%nat by lia. rewrite Nat.sub_0_r, firstn_all. done. }
  assert (lval (take (length l - v0) l) = lval l) as E2.
  { apply lval_take_fit; [done |]. nia. }
  assert (limbs l1) as HL1 by (rewrite E1; apply limbs_app; auto with mpi).
  assert (lval l1 = bp v0 * lval l) as V1 by (rewrite E1, lval_app, lval_zeros, length_zeros, E2; lia).
  subst l2. destruct (Z.ltb_spec 0 t1) as [Hpos|Hz].
  - assert (take v0 l1 = zeros v0) as ET by (rewrite E1, take_app_le, firstn_all2; rewrite ?length_zeros; done).
    assert (drop v0 l1 = take (length l - v0) l) as ED by (rewrite E1, drop_app_le, skipn_all2; rewrite ?length_zeros; done).
    rewrite ET, ED. destruct (shl_bits_spec t1 (take (length l - v0) l) 0) as (L & HL & V); [auto with mpi | lia | lia | |].
    { rewrite E2, length_take, Nat.min_l by lia. nia. }
    rewrite length_app, length_zeros, L, length_take. split; [lia |]. split; [apply limbs_app; auto with mpi |].
    rewrite lval_app, lval_zeros, length_zeros, V, E2. ring.
  - assert (t1 = 0) as -> by lia. rewrite V1. repeat split; [done | done | ring].
Qed.

Section shifts.
Context {ml : malloc}.

Lemma shift_l_spec X count M K :
  limbs (mp_p X) -> 0 <= count -> 64 * Z.of_nat (mlen X) + count < 2 ^ 63 -> (mlen X <= M)%nat -> nbits (lval (mp_p X)) + count <= 64 * Z.of_nat M -> Z.of_nat M <= K ->
  spec K (shmpi_shift_l X count) (fun X' => res (mp_s X) (lval (mp_p X) * 2 ^ count) (mlen X) M X' /\
    (nbits (lval (mp_p X)) + count <= 64 * Z.of_nat (mlen X) -> mlen X' = mlen X) /\
    (64 * Z.of_nat (mlen X) < nbits (lval (mp_p X)) + count -> Z.of_nat (mlen X') = (nbits (lval (mp_p X)) + count + 63) / 64)).
Proof.
  intros Hl Hc Hb HM HnM HK. unfold shmpi_shift_l. rewrite msb_spec by done. set (n := nbits (lval (mp_p X))) in *.
  pose proof (lval_range _ Hl) as Rl. pose proof (nbits_nonneg (lval (mp_p X))) as Hn. fold n in Hn.
  assert (n <= 64 * Z.of_nat (mlen X)) as Hnl by (apply nbits_le; [lia | exact Rl]).
  rewrite (wrap_small 64 (n + count)) by rlia. unfold BITS_TO_LIMBS. rewrite (wrap_small 64 (_ - 1)) by (unfold biL; rlia).
  assert (spec K (if mp_n X * biL <? n + count then shmpi_grow X ((n + count + biL - 1) / biL) else Done (X, 0))
    (fun X' => mp_s X' = mp_s X /\ limbs (mp_p X') /\ lval (mp_p X') = lval (mp_p X) /\ (mlen X <= mlen X' <= M)%nat /\ n + count <= 64 * Z.of_nat (mlen X') /\
      (n + count <= 64 * Z.of_nat (mlen X) -> mlen X' = mlen X) /\ (64 * Z.of_nat (mlen X) < n + count -> Z.of_nat (mlen X') = (n + count + 63) / 64))) as HG.
  { unfold mp_n, biL. case_cmp.
    - replace (n + count + 64 - 1) with (n + count + 63) by lia.
      assert (0 <= (n + count + 63) / 64 <= Z.of_nat M /\ n + count <= 64 * ((n + count + 63) / 64) /\ Z.of_nat (mlen X) <= (n + count + 63) / 64) as (D1 & D2 & D3) by mlia.
      eapply spec_mono; [reflexivity | |apply (grow_spec _ _ K); lia]. intros X' ->. cbn [mp_s mp_p with_p].
      rewrite lval_app, lval_zeros, length_app, length_zeros. repeat split; try lia. apply limbs_app; auto with mpi.
    - apply spec_done. repeat split; (done || lia). }
  eapply spec_chk; [exact HG | lia | eauto |]. intros X1 (Hs & HX1 & V1 & L1 & Hroom & HLe & HLt). apply spec_done.
  assert (lval (mp_p X1) * 2 ^ count < bp (mlen X1)) as Hfit.
  { rewrite V1. pose proof (nbits_upper (lval (mp_p X)) ltac:(lia)) as Hu. fold n in Hu.
    pose proof (bp_le_pow (mlen X1) (n + count) ltac:(lia) Hroom) as Hp. rewrite Z.pow_add_r in Hp by lia.
    assert (0 < 2 ^ count) by lia. nia. }
  destruct (shl_block (mp_p X1) count HX1 Hc ltac:(lia) Hfit) as (L2 & HL2 & V2).
  cbn [with_p mp_p]. cbv zeta in L2, HL2, V2. rewrite L2. split; [|split; [exact HLe | exact HLt]].
  split; cbn [with_p mp_p mp_s]; [done | done | by rewrite V2, V1 | lia | lia].
Qed.

Lemma shift_r_spec X count K :
  limbs (mp_p X) -> 0 <= count -> 1 <= K ->
  spec K (shmpi_shift_r X count) (fun X' => limbs (mp_p X') /\ lval (mp_p X') = lval (mp_p X) / 2 ^ count /\
    (mlen X' = mlen X \/ mlen X' = Nat.max (mlen X) 1 /\ mlen X = 0%nat) /\ (mp_s X' = mp_s X \/ mp_s X' = 1 /\ lval (mp_p X') = 0)).
Proof.
  intros Hl Hc HK. unfold shmpi_shift_r. rewrite low_bits by done. set (v0 := count / biL). set (v1 := count mod 64).
  assert (0 <= v1 < 64 /\ 0 <= v0 /\ count = 64 * v0 + v1) as (R1 & R0 & Ec) by (unfold v0, v1, biL; mlia).
  pose proof (lval_range _ Hl) as Rl.
  assert (2 ^ count = bp (Z.to_nat v0) * 2 ^ v1) as Ep.
  { rewrite Ec, Z.pow_add_r by lia. f_equal. rewrite <- (Z2Nat.id v0) at 1 by done. done. }
  assert (0 < 2 ^ v1) by lia. pose proof (bp_pos (Z.to_nat v0)). unfold mp_n.
  destruct (Z.ltb_spec (Z.of_nat (mlen X)) v0) as [Hgt|Hle]; [|destruct (Z.eqb_spec v0 (Z.of_nat (mlen X))) as [Heq|Hneq]; [destruct (Z.ltb_spec 0 v1)|]]; cbn [orb andb];
    [(eapply spec_mono; [reflexivity | |apply (lset_spec X 0 K); lia]; intros X' ->; cbn [mp_p mp_s lval]; rewrite lval_zeros; change (Z.abs 0) with 0;
      split; [by apply (limbs_zeros (S _)) |]; split; [rewrite Z.div_small; [lia|]; pose proof (bp_mono (mlen X) (Z.to_nat v0)); nia |];
      split; [cbn [length]; rewrite length_zeros; lia | right; split; [done | lia]])..| |].
  all: apply spec_done; cbn [with_p mp_p mp_s].
  all: set (l1 := if 0 <? v0 then drop (Z.to_nat v0) (mp_p X) ++ zeros (Z.to_nat v0) else mp_p X).
  all: assert (length l1 = mlen X /\ limbs l1 /\ lval l1 = lval (mp_p X) / bp (Z.to_nat v0)) as (L1 & HL1 & V1) by
    (unfold l1; destruct (Z.ltb_spec 0 v0);
     [rewrite length_app, length_drop, length_zeros; split; [lia |]; split; [apply limbs_app; auto with mpi |];
      rewrite lval_app, lval_zeros, Z.mul_0_r, Z.add_0_r;
      pose proof (lval_split (Z.to_nat v0) (mp_p X)) as HS; rewrite Nat.min_l in HS by lia;
      pose proof (lval_range _ (limbs_take (Z.to_nat v0) _ Hl)) as HT; rewrite length_take, Nat.min_l in HT by lia;
      apply (Z.div_unique_pos _ _ _ (lval (take (Z.to_nat v0) (mp_p X)))); lia
     |replace v0 with 0 by lia; change (Z.to_nat 0) with 0%nat; rewrite bp_0, Z.div_1_r; done]).
  all: rewrite Ep, <- Z.div_div, <- V1 by lia.
  - assert (v1 = 0) as -> by lia. change (0 <? 0) with false. cbv iota. rewrite Z.pow_0_r, Z.div_1_r. auto.
  - destruct (Z.ltb_spec 0 v1).
    + destruct (shr_bits_spec v1 l1 HL1 ltac:(lia)) as (L2 & HL2 & V2 & _). rewrite L2. auto.
    + assert (v1 = 0) as -> by lia. rewrite Z.pow_0_r, Z.div_1_r. auto.
Qed.

End shifts.
