(* ===== verification/ShMpiDiv.v ===== *)
(** * Multi-precision integers: division

    Models the division and the remainders of [share-lib/mem/shmem_mpi.c]: the
    long division that estimates each limb of the quotient from two limbs,
    corrects the estimate with three and repairs it once more when the remainder
    becomes negative.

    The quotient and the remainder are optional destinations, and an operand can
    be one of them. *)

From Stdlib Require Import ZArith Lia.
From stdpp Require Import base numbers list.
From S2P Require Import Prelude ShMpi.

Open Scope Z_scope.
Open Scope share_scope.

(** An operand of the division. *)
Inductive darg : Type :=
| DQ
| DR
| DOther (Y : shmpi).
#[global] Instance darg_eq_dec : EqDecision darg.
Proof. solve_decision. Defined.

Definition dargv (Q R : option shmpi) (a : darg) : outcome shmpi :=
  match a with
  | DQ => match Q with Some q => Done q | None => Fault end
  | DR => match R with Some r => Done r | None => Fault end
  | DOther Y => Done Y
  end.

(** [l[i]] and [l[i] = v]. *)
Definition limb (l : list Z) (i : nat) : outcome Z := match l !! i with Some x => Done x | None => Fault end.
Definition set_limb (X : shmpi) (i : nat) (v : Z) : outcome shmpi :=
  if (i <? length (mp_p X))%nat then Done (with_p (<[i := v]> (mp_p X)) X) else Fault.

Section operations.
Context {ml : malloc}.

(** A result of a part of the division: an error, or the values that follow. *)
Definition part (T : Type) : Type := outcome (Z + T).
Definition pbind {T R} (m : part T) (k : T -> part R) : part R :=
  r <-! m; match r with inl e => Done (inl e) | inr t => k t end.
Definition pcall (m : outcome (shmpi * Z)) : part shmpi :=
  r <-! m; if snd r =? 0 then Done (inr (fst r)) else Done (inl (snd r)).
Definition plift {T} (m : outcome T) : part T := t <-! m; Done (inr t).
Definition pret {T} (t : T) : part T := Done (inr t).
Local Notation "x <-: m ; k" := (pbind m (fun x => k)) (at level 100, m at next level, right associativity).

(** [while( shmpi_cmp_mpi( &X, &Y ) >= 0 )]: the count of the rounds is added to
    the limb [nt] of the quotient. *)
Fixpoint div_first (fuel : nat) (X Y ZQ : shmpi) (nt : nat) : part (shmpi * shmpi) :=
  if 0 <=? shmpi_cmp_mpi X Y then
    match fuel with
    | O => Fault
    | S f =>
        z <-: plift (limb (mp_p ZQ) nt);
        ZQ <-: plift (set_limb ZQ nt (u64 (z + 1)));
        X <-: pcall (shmpi_sub_mpi X Self (Other Y));
        div_first f X Y ZQ nt
    end
  else pret (X, ZQ).

(** The estimate of a limb. *)
Definition div_estimate (xi xi1 yt : Z) : Z :=
  if yt <=? xi then 2 ^ 64 - 1
  else
    let r := Z.lor (Z.shiftl xi biL) xi1 / yt in
    u64 (if 2 ^ biL - 1 <? r then 2 ^ biL - 1 else r).

(** [T1.p[0] = ...; T1.p[1] = ...; shmpi_mul_int( &T1, &T1, z )] and
    [T2.p[0..2] = ...]. *)
Definition div_t1 (T1 Y : shmpi) (t : nat) (z : Z) : part shmpi :=
  T1 <-: pcall (shmpi_lset T1 0);
  y1 <-: (if (t <? 1)%nat then pret 0 else plift (limb (mp_p Y) (t - 1)));
  T1 <-: plift (set_limb T1 0 y1);
  y0 <-: plift (limb (mp_p Y) t);
  T1 <-: plift (set_limb T1 1 y0);
  pcall (shmpi_mul_int T1 Self z).
Definition div_t2 (T2 X : shmpi) (i : nat) : part shmpi :=
  T2 <-: pcall (shmpi_lset T2 0);
  x2 <-: (if (i <? 2)%nat then pret 0 else plift (limb (mp_p X) (i - 2)));
  T2 <-: plift (set_limb T2 0 x2);
  x1 <-: (if (i <? 1)%nat then pret 0 else plift (limb (mp_p X) (i - 1)));
  T2 <-: plift (set_limb T2 1 x1);
  x0 <-: plift (limb (mp_p X) i);
  plift (set_limb T2 2 x0).

(** [do { z--; ... } while( shmpi_cmp_mpi( &T1, &T2 ) > 0 )]. *)
Fixpoint div_correct (fuel : nat) (X Y T1 T2 : shmpi) (i t : nat) (z : Z) : part (Z * shmpi * shmpi) :=
  match fuel with
  | O => Fault
  | S f =>
      let z := u64 (z - 1) in
      T1 <-: div_t1 T1 Y t z;
      T2 <-: div_t2 T2 X i;
      if 0 <? shmpi_cmp_mpi T1 T2 then div_correct f X Y T1 T2 i t z else pret (z, T1, T2)
  end.

(** At most four rounds bring the first limb down and at most six correct an
    estimate, since the highest limb of the divisor has 63 bits. *)
Definition DIV_FUEL : nat := 8.

(** One round of the main loop, for limb [i] of [X]. *)
Definition div_step (X Y ZQ T1 T2 : shmpi) (i t : nat) : part (shmpi * shmpi * shmpi * shmpi) :=
  let q := (i - t - 1)%nat in
  xi <-: plift (limb (mp_p X) i);
  yt <-: plift (limb (mp_p Y) t);
  xi1 <-: (if yt <=? xi then pret 0 else plift (limb (mp_p X) (i - 1)));
  ZQ <-: plift (set_limb ZQ q (div_estimate xi xi1 yt));
  r <-: div_correct DIV_FUEL X Y T1 T2 i t (u64 (div_estimate xi xi1 yt + 1));
  let '(z, T1, T2) := r in
  ZQ <-: plift (set_limb ZQ q z);
  T1 <-: pcall (shmpi_mul_int T1 (Other Y) z);
  T1 <-: pcall (shmpi_shift_l T1 (biL * Z.of_nat q));
  X <-: pcall (shmpi_sub_mpi X Self (Other T1));
  c <-: plift (shmpi_cmp_int X 0);
  if c <? 0 then
    T1 <-: pcall (shmpi_copy T1 (Other Y));
    T1 <-: pcall (shmpi_shift_l T1 (biL * Z.of_nat q));
    X <-: pcall (shmpi_add_mpi X Self (Other T1));
    ZQ <-: plift (set_limb ZQ q (u64 (z - 1)));
    pret (X, ZQ, T1, T2)
  else pret (X, ZQ, T1, T2).

(** [for( i = n; i > t ; i-- )]; [k] rounds are left. *)
Fixpoint div_loop (k : nat) (X Y ZQ T1 T2 : shmpi) (t : nat) : part (shmpi * shmpi) :=
  match k with
  | O => pret (X, ZQ)
  | S k' =>
      r <-: div_step X Y ZQ T1 T2 (t + k) t;
      let '(X, ZQ, T1, T2) := r in
      div_loop k' X Y ZQ T1 T2 t
  end.

(** From the copies to the quotient, the shifted remainder and the shift. *)
Definition div_main (A B : shmpi) : part (shmpi * shmpi * Z) :=
  X <-: pcall (shmpi_copy shmpi_init (Other A));
  Y <-: pcall (shmpi_copy shmpi_init (Other B));
  let X := with_s 1 X in
  let Y := with_s 1 Y in
  ZQ <-: pcall (shmpi_grow shmpi_init (mp_n A + 2));
  ZQ <-: pcall (shmpi_lset ZQ 0);
  T1 <-: pcall (shmpi_grow shmpi_init 2);
  T2 <-: pcall (shmpi_grow shmpi_init 3);
  let k := shmpi_msb Y mod biL in
  let shifts := k <? biL - 1 in
  let k := if shifts then biL - 1 - k else 0 in
  X <-: (if shifts then pcall (shmpi_shift_l X k) else pret X);
  Y <-: (if shifts then pcall (shmpi_shift_l Y k) else pret Y);
  let n := (length (mp_p X) - 1)%nat in
  let t := (length (mp_p Y) - 1)%nat in
  Y <-: pcall (shmpi_shift_l Y (biL * Z.of_nat (n - t)));
  r <-: div_first DIV_FUEL X Y ZQ (n - t);
  let '(X, ZQ) := r in
  Y <-: pcall (shmpi_shift_r Y (biL * Z.of_nat (n - t)));
  r <-: div_loop (n - t) X Y ZQ T1 T2 t;
  let '(X, ZQ) := r in
  pret (ZQ, X, k).

(** A call on an optional destination. *)
Definition ocall (D : option shmpi) (f : shmpi -> outcome (shmpi * Z)) : outcome (option shmpi * Z) :=
  match D with None => Done (None, 0) | Some d => r <-! f d; Done (Some (fst r), snd r) end.

(** The remainder: [X] shifted back, with the sign of the dividend. *)
Definition div_rest (R X : shmpi) (k sg : Z) : outcome (shmpi * Z) :=
  X <-? shmpi_shift_r X k leaving R;
  R <-? shmpi_copy R (Other (with_s sg X));
  c <-! shmpi_cmp_int R 0;
  Done (if c =? 0 then with_s 1 R else R, 0).

(** The result is the quotient, the remainder and the error. *)
Definition shmpi_div_mpi (Q R : option shmpi) (A B : darg) : outcome (option shmpi * option shmpi * Z) :=
  a <-! dargv Q R A;
  b <-! dargv Q R B;
  c <-! shmpi_cmp_int b 0;
  if c =? 0 then Done (Q, R, SHMPI_ERR_DIVISION_BY_ZERO)
  else if shmpi_cmp_abs a b <? 0 then
    r <-! ocall Q (fun q => shmpi_lset q 0);
    let '(Q, e) := r in
    if negb (e =? 0) then Done (Q, R, e)
    else
      a <-! dargv Q R A;
      r <-! ocall R (fun r => shmpi_copy r (match A with DR => Self | _ => Other a end));
      let '(R, e) := r in
      Done (Q, R, e)
  else
    m <-! div_main a b;
    match m with
    | inl e => Done (Q, R, e)
    | inr (ZQ, X, k) =>
        r <-! ocall Q (fun q => shmpi_copy q (Other ZQ));
        let '(Q, e) := r in
        if negb (e =? 0) then Done (Q, R, e)
        else
          a <-! dargv Q R A;
          b <-! dargv Q R B;
          let Q := option_map (with_s (mp_s a * mp_s b)) Q in
          match R with
          | None => Done (Q, None, 0)
          | Some r0 =>
              a <-! dargv Q R A;
              w <-! div_rest r0 X k (mp_s a);
              Done (Q, Some (fst w), snd w)
          end
    end.

Definition shmpi_div_int (Q R : option shmpi) (A : darg) (b : Z) : outcome (option shmpi * option shmpi * Z) :=
  B <-! int_mpi b; shmpi_div_mpi Q R A (DOther B).

(** ** Remainders *)

(** The result of the division as that of a function with the remainder as its
    destination. *)
Definition rem_of (R : shmpi) (m : outcome (option shmpi * option shmpi * Z)) : outcome (shmpi * Z) :=
  r <-! m; let '(_, r, e) := r in Done (default R r, e).

Definition rarg (a : arg) : darg := match a with Self => DR | Other Y => DOther Y end.

Fixpoint mod_up (fuel : nat) (R : shmpi) (B : arg) : outcome (shmpi * Z) :=
  c <-! shmpi_cmp_int R 0;
  if c <? 0 then match fuel with O => Fault | S f => R <-? shmpi_add_mpi R Self B; mod_up f R B end
  else Done (R, 0).
Fixpoint mod_down (fuel : nat) (R : shmpi) (B : arg) : outcome (shmpi * Z) :=
  if 0 <=? shmpi_cmp_mpi R (argv R B) then
    match fuel with O => Fault | S f => R <-? shmpi_sub_mpi R Self B; mod_down f R B end
  else Done (R, 0).

(** The remainder is smaller than the divisor: each loop has at most one round. *)
Definition shmpi_mod_mpi (R : shmpi) (A B : arg) : outcome (shmpi * Z) :=
  c <-! shmpi_cmp_int (argv R B) 0;
  if c <? 0 then Done (R, SHMPI_ERR_NEGATIVE_VALUE)
  else
    R <-? rem_of R (shmpi_div_mpi None (Some R) (rarg A) (rarg B));
    R <-? mod_up 2 R B;
    mod_down 2 R B.

(** Two half limbs of [x], from the highest limb down. *)
Definition mod_half (y h b : Z) : Z :=
  let y := Z.lor (u64 (Z.shiftl y biH)) h in
  let z := y / b in
  u64 (y - u64 (z * b)).
Fixpoint mod_limbs (l : list Z) (b : Z) : Z :=
  match l with
  | [] => 0
  | x :: l' =>
      let y := mod_half (mod_limbs l' b) (Z.shiftr x biH) b in
      mod_half y (Z.shiftr (u64 (Z.shiftl x biH)) biH) b
  end.

(** The result is the remainder, when it is set, and the error. *)
Definition shmpi_mod_int (A : shmpi) (b : Z) : outcome (option Z * Z) :=
  if b =? 0 then Done (None, SHMPI_ERR_DIVISION_BY_ZERO)
  else if b <? 0 then Done (None, SHMPI_ERR_NEGATIVE_VALUE)
  else if b =? 1 then Done (Some 0, 0)
  else if b =? 2 then x <-! limb (mp_p A) 0; Done (Some (Z.land x 1), 0)
  else
    let y := mod_limbs (mp_p A) b in
    Done (Some (if (mp_s A <? 0) && negb (y =? 0) then u64 (b - y) else y), 0).

End operations.
