(* ===== verification/ShMpiDivOk.v ===== *)
(** * Multi-precision integers: the division is right

    The long division of [ShMpiDiv.v] ends and computes the quotient, rounded
    towards zero, and the remainder: each estimate of a limb is never below the
    limb, five rounds at most correct it, and one addition repairs what is left. *)

From Stdlib Require Import ZArith Lia.
From stdpp Require Import base numbers list.
From S2P Require Import Prelude ShMpi ShMpiVal ShMpiArith ShMpiBits ShMpiDiv.

Open Scope Z_scope.
Open Scope share_scope.

(** ** Limbs of a value *)

Lemma lval_at l i x : l !! i = Some x -> lval l = lval (take i l) + bp i * (x + beta * lval (drop (S i) l)).
Proof.
  intros H. rewrite <- (take_drop_middle l i x H) at 1. rewrite lval_app, length_take. cbn [lval].
  apply lookup_lt_Some in H. by rewrite Nat.min_l by lia.
Qed.
Lemma limbs_lookup l i x : limbs l -> l !! i = Some x -> is_uint 64 x.
Proof. intros Hl. by apply Forall_lookup_1. Qed.
Lemma lval_take_range n l : limbs l -> 0 <= lval (take n l) < bp n.
Proof.
  intros Hl. pose proof (lval_range _ (limbs_take n l Hl)) as H. rewrite length_take in H. pose proof (bp_mono (min n (length l)) n). lia.
Qed.

Lemma limb_done l i : (i < length l)%nat -> exists x, limb l i = Done x /\ l !! i = Some x.
Proof. intros [x H]%lookup_lt_is_Some. exists x. unfold limb. by rewrite H. Qed.

Lemma set_limb_done X i v x :
  mp_p X !! i = Some x -> is_uint 64 v -> limbs (mp_p X) ->
  exists X', set_limb X i v = Done X' /\ X' = with_p (<[i := v]> (mp_p X)) X /\ limbs (mp_p X') /\ lval (mp_p X') = lval (mp_p X) + (v - x) * bp i.
Proof.
  intros H Hv Hl. pose proof (lookup_lt_Some _ _ _ H) as Hi. unfold set_limb. destruct (Nat.ltb_spec i (mlen X)); [|lia].
  eexists. split; [done |]. split; [done |]. cbn [mp_p with_p]. split; [by apply Forall_insert |].
  rewrite (lval_at (<[i:=v]> (mp_p X)) i v) by (by apply list_lookup_insert_eq).
  rewrite (lval_at (mp_p X) i x H), take_insert_ge by done. rewrite drop_insert_lt by lia. ring.
Qed.

(** ** The estimate of a limb *)

Section estimate.
(** [Y b = v b^t + yl] and [X b^2 = u b^i + xl], for the two highest limbs [v] of the
    divisor and the three limbs [u] of the dividend. *)
Context (b bt bq X Y yt y1 v u2 x2 u yl xl : Z).
Context (Hb : 1 < b) (Hbt : 0 < bt) (Hbq : 0 < bq) (Ev : v = yt * b + y1) (Hy1 : 0 <= y1 < b) (Hyt : 0 < yt) (Eu : u = u2 * b + x2) (Hx2 : 0 <= x2 < b).
Context (EY : Y * b = v * bt + yl) (Hyl : 0 <= yl < bt) (EX : X * (b * b) = u * (bt * bq * b) + xl) (Hxl : 0 <= xl < bt * bq * b).

Lemma digit_below Q : 0 <= Q -> Q * (Y * bq) <= X -> Q * v <= u.
Proof using All.
  intros HQ H. apply Z.lt_succ_r. apply (Z.mul_lt_mono_pos_r (bt * bq * b)); [nia |].
  assert (Q * v * (bt * bq * b) <= Q * (Y * bq) * (b * b)) by (replace (Q * (Y * bq) * (b * b)) with (Q * (Y * b) * (bq * b)) by ring; rewrite EY; nia).
  nia.
Qed.

Lemma digit_above z : 0 <= z < b -> z * v <= u -> z * (Y * bq) < X + Y * bq.
Proof using All.
  intros Hz H. apply (Z.mul_lt_mono_pos_r (b * b)); [nia |].
  assert (z * (Y * bq) * (b * b) <= (u + z) * (bt * bq * b)) as H1.
  { replace (z * (Y * bq) * (b * b)) with (z * (Y * b) * (bq * b)) by ring. rewrite EY.
    transitivity (z * (v + 1) * bt * (bq * b)); [|nia]. apply Z.mul_le_mono_nonneg_r; nia. }
  assert ((Y * bq) * (b * b) >= b * (bt * bq * b)) as H2.
  { replace (Y * bq * (b * b)) with ((Y * b) * (bq * b)) by ring. rewrite EY. assert (b <= v) by nia. nia. }
  assert (0 < bt * bq * b) by nia. nia.
Qed.

Lemma estimate_low Q : Q * v <= u -> 0 <= Q -> Q * yt <= u2.
Proof using Ev Eu Hb Hx2 Hy1 Hyt. intros H HQ. assert (Q * yt * b < (u2 + 1) * b) by nia. nia. Qed.

Lemma estimate_high e : 4 <= e < b -> e * yt <= u2 -> b <= 4 * yt -> (e - 4) * v <= u.
Proof using Ev Eu Hb Hx2 Hy1 Hyt. intros He H H4. assert ((e - 4) * y1 <= e * b) by nia. nia. Qed.
End estimate.

Lemma div_estimate_spec xi xi1 yt :
  is_uint 64 xi -> is_uint 64 xi1 -> is_uint 64 yt -> 0 < yt ->
  let e := div_estimate xi (if yt <=? xi then 0 else xi1) yt in
  0 <= e < beta /\ e * yt <= xi * beta + xi1 /\ (forall Q, 0 <= Q < beta -> Q * yt <= xi * beta + xi1 -> Q <= e).
Proof.
  intros Hxi Hxi1 Hyt Hpos. unfold div_estimate. cbv zeta. destruct (Z.leb_spec yt xi) as [Hge|Hlt].
  - unfold is_uint in *. fold beta in *. split; [lia |]. split; [|lia]. assert (beta * yt <= beta * xi) by (apply Z.mul_le_mono_nonneg_l; lia). lia.
  - unfold biL. rewrite lor_add by (done || lia). fold beta.
    assert (0 <= (xi * beta + xi1) / yt < beta) as R.
    { unfold is_uint in *. fold beta in *. split; [apply Z.div_pos; nia |]. apply Z.div_lt_upper_bound; nia. }
    destruct (Z.ltb_spec (beta - 1) ((xi * beta + xi1) / yt)); [lia |]. rewrite wrap_small by exact R.
    split; [done |]. split; [rewrite Z.mul_comm; by apply Z.mul_div_le |]. intros Q HQ HQ'. apply Z.div_le_lower_bound; lia.
Qed.

(** ** Parts of the division *)

Section parts.
Context {ml : malloc}.

Definition pspec {T} (K : Z) (m : part T) (P : T -> Prop) : Prop :=
  exists r, m = Done r /\ match r with inl e => e = SHMPI_ERR_MALLOC_FAILED /\ nomem K | inr t => P t end.

Lemma pspec_ret {T} K (t : T) (P : T -> Prop) : P t -> pspec K (pret t) P.
Proof. intros. by exists (inr t). Qed.
Lemma pspec_bind {T R} K (m : part T) (k : T -> part R) P Q : pspec K m P -> (forall t, P t -> pspec K (k t) Q) -> pspec K (pbind m k) Q.
Proof. intros ([e|t] & -> & H) Hk; unfold pbind; cbn [obind]; [by exists (inl e) | by apply Hk]. Qed.
Lemma pspec_call K m P : spec K m P -> pspec K (pcall m) P.
Proof.
  intros (X & e & -> & [[-> H]|[-> H]]); unfold pcall; cbn [obind fst snd].
  - by exists (inr X).
  - exists (inl SHMPI_ERR_MALLOC_FAILED). by split.
Qed.
Lemma pspec_lift {T} K (m : outcome T) t (P : T -> Prop) : m = Done t -> P t -> pspec K (plift m) P.
Proof. intros -> H. by exists (inr t). Qed.
Lemma pspec_mono {T} K (m : part T) (P Q : T -> Prop) : (forall t, P t -> Q t) -> pspec K m P -> pspec K m Q.
Proof. intros HPQ ([e|t] & -> & H); eexists; (split; [done |]); cbn in *; auto. Qed.

(** A chain of three calls, as one. *)
Lemma pspec_chain {A B C R} K (m1 : part A) (m2 : A -> part B) (m3 : B -> part C) (k : B -> C -> part R) P Q :
  pspec K (pbind m1 (fun a => pbind (m2 a) (fun b => pbind (m3 b) (fun c => pret (b, c))))) P -> (forall b c, P (b, c) -> pspec K (k b c) Q) ->
  pspec K (pbind m1 (fun a => pbind (m2 a) (fun b => pbind (m3 b) (fun c => k b c)))) Q.
Proof.
  intros (r & E & H) Hk. unfold pbind, pret in *. destruct m1 as [[e|a]|]; cbn [obind] in *; [injection E as <-; by exists (inl e) | |done].
  destruct (m2 a) as [[e|b]|]; cbn [obind] in *; [injection E as <-; by exists (inl e) | |done].
  destruct (m3 b) as [[e|c]|]; cbn [obind] in *; [injection E as <-; by exists (inl e) | injection E as <-; by apply Hk | done].
Qed.

(** A limb below one at [t], zero below the lowest. *)
Definition below (l : list Z) (t k : nat) (y : Z) : Prop := if (t <? k)%nat then y = 0 else l !! (t - k)%nat = Some y.

Lemma below_spec K l t k (m : part Z) :
  (t < length l)%nat -> m = (if (t <? k)%nat then pret 0 else plift (limb l (t - k))) -> pspec K m (below l t k).
Proof.
  intros Ht ->. unfold below. destruct (Nat.ltb_spec t k); [by apply pspec_ret |].
  destruct (limb_done l (t - k)) as (y & E & Hy); [lia |]. by eapply pspec_lift.
Qed.
Lemma below_uint l t k y : limbs l -> below l t k y -> is_uint 64 y.
Proof. unfold below. destruct (t <? k)%nat; [intros _ ->; split; done | by apply limbs_lookup]. Qed.

Lemma zeros_S n : 0 :: zeros n = zeros (S n).
Proof. reflexivity. Qed.
Lemma lookup_zeros n i : (i < n)%nat -> zeros n !! i = Some 0.
Proof. intros. by apply lookup_replicate_2. Qed.
Lemma bp_1 : bp 1 = beta.
Proof. rewrite bp_S, bp_0. lia. Qed.
Lemma bp_2 : bp 2 = beta * beta.
Proof. rewrite bp_S, bp_1. lia. Qed.

(** A number of which the lowest limbs are set after it is cleared. *)
Definition cleared (n : nat) (X X' : shmpi) : Prop := X' = mk_mpi 1 (zeros n) /\ n = mlen X.
Lemma cleared_spec K X : 1 <= K -> (1 <= mlen X)%nat -> pspec K (pcall (shmpi_lset X 0)) (cleared (mlen X) X).
Proof.
  intros HK HX. apply pspec_call. eapply spec_mono; [reflexivity | |apply (lset_spec X 0 K); lia].
  intros X' ->. split; [|done]. change (Z.abs 0) with 0. rewrite zeros_S. change (isgn 0) with 1. f_equal. f_equal. lia.
Qed.

Lemma pset_spec K X i v x :
  mp_p X !! i = Some x -> is_uint 64 v -> limbs (mp_p X) ->
  pspec K (plift (set_limb X i v)) (fun X' => X' = with_p (<[i := v]> (mp_p X)) X /\ limbs (mp_p X') /\ lval (mp_p X') = lval (mp_p X) + (v - x) * bp i).
Proof. intros H Hv Hl. destruct (set_limb_done X i v x H Hv Hl) as (X' & E & HX'). by eapply pspec_lift. Qed.

Lemma div_t1_spec K M T1 Y t yt y1 z :
  limbs (mp_p Y) -> mp_p Y !! t = Some yt -> below (mp_p Y) t 1 y1 -> is_uint 64 z -> (2 <= mlen T1 <= M)%nat -> (3 <= M)%nat -> Z.of_nat M <= K ->
  pspec K (div_t1 T1 Y t z) (sum_res ((yt * beta + y1) * z) 2 M).
Proof.
  intros HY Ht H1 Hz HT HM HK. pose proof (lookup_lt_Some _ _ _ Ht) as Hlt. unfold div_t1.
  eapply pspec_bind; [apply cleared_spec; lia |]. intros T [-> Hn].
  eapply pspec_bind; [by apply (below_spec K (mp_p Y) t 1) |]. intros y1' H1'.
  assert (y1' = y1) as -> by (unfold below in *; destruct (t <? 1)%nat; congruence).
  pose proof (below_uint _ _ _ _ HY H1) as U1. pose proof (limbs_lookup _ _ _ HY Ht) as Ut.
  eapply pspec_bind; [eapply (pset_spec K _ 0); cbn [mp_p]; [apply lookup_zeros; lia | done | apply limbs_zeros] |].
  intros T (-> & Hl & Hv). unfold with_p in *; cbn [mp_p mp_s] in *.
  eapply pspec_bind; [eapply pspec_lift; [unfold limb; by rewrite Ht |]; exact (eq_refl yt) |]. intros y0 <-.
  eapply pspec_bind; [eapply (pset_spec K _ 1); cbn [mp_p with_p];
    [rewrite list_lookup_insert_ne by lia; apply lookup_zeros; lia | done | done] |].
  intros T (-> & Hl' & Hv'). unfold with_p in *; cbn [mp_p mp_s] in *. rewrite Hv, lval_zeros, bp_0, bp_1 in Hv'.
  assert (mpi_ok (mk_mpi 1 (<[1%nat:=yt]> (<[0%nat:=y1]> (zeros (mlen T1)))))) as Hok by (split; [by left | done]).
  assert (sig (<[1%nat:=yt]> (<[0%nat:=y1]> (zeros (mlen T1)))) <= 2)%nat.
  { apply sig_le_iff; [done |]. rewrite Hv', bp_2. unfold is_uint in *. fold beta in *. nia. }
  apply pspec_call. eapply spec_mono; [reflexivity | |eapply (mul_int_spec _ Self z _ K)]; cbn [argv]; [|exact Hok|done|done|].
  - intros X' [So Sv Slo SM]. split; [done | | |].
    + rewrite Sv. unfold mval. cbn [mp_s mp_p]. rewrite Hv'. ring.
    + etransitivity; [|exact Slo]. cbn [mp_p]. rewrite !length_insert, length_zeros. lia.
    + etransitivity; [exact SM |]. cbn [mp_p]. rewrite !length_insert, length_zeros.
      pose proof (sig_le [z]). cbn [length] in *. lia.
  - cbn [mp_p]. rewrite !length_insert, length_zeros.
    pose proof (sig_le [z]). cbn [length] in *. lia.
Qed.

Lemma div_t2_spec K M T2 X i xi x1 x2 :
  limbs (mp_p X) -> mp_p X !! i = Some xi -> below (mp_p X) i 1 x1 -> below (mp_p X) i 2 x2 -> (3 <= mlen T2 <= M)%nat -> Z.of_nat M <= K ->
  pspec K (div_t2 T2 X i) (sum_res ((xi * beta + x1) * beta + x2) 3 M).
Proof.
  intros HX Hi H1 H2 HT HK. pose proof (lookup_lt_Some _ _ _ Hi) as Hlt. unfold div_t2.
  pose proof (below_uint _ _ _ _ HX H1) as U1. pose proof (below_uint _ _ _ _ HX H2) as U2. pose proof (limbs_lookup _ _ _ HX Hi) as Ui.
  eapply pspec_bind; [apply cleared_spec; lia |]. intros T [-> Hn].
  eapply pspec_bind; [by apply (below_spec K (mp_p X) i 2) |]. intros x2' H2'.
  assert (x2' = x2) as -> by (unfold below in *; destruct (i <? 2)%nat; congruence).
  eapply pspec_bind; [eapply (pset_spec K _ 0); cbn [mp_p]; [apply lookup_zeros; lia | done | apply limbs_zeros] |].
  intros T (-> & Hl & Hv). unfold with_p in *; cbn [mp_p mp_s] in *.
  eapply pspec_bind; [by apply (below_spec K (mp_p X) i 1) |]. intros x1' H1'.
  assert (x1' = x1) as -> by (unfold below in *; destruct (i <? 1)%nat; congruence).
  eapply pspec_bind; [eapply (pset_spec K _ 1); cbn [mp_p]; [rewrite list_lookup_insert_ne by lia; apply lookup_zeros; lia | done | done] |].
  intros T (-> & Hl' & Hv'). unfold with_p in *; cbn [mp_p mp_s] in *.
  eapply pspec_bind; [eapply pspec_lift; [unfold limb; by rewrite Hi |]; exact (eq_refl xi) |]. intros y0 <-.
  eapply pspec_mono; [|eapply (pset_spec K _ 2); cbn [mp_p]; [rewrite !list_lookup_insert_ne by lia; apply lookup_zeros; lia | done | done]].
  intros T (-> & Hl2 & Hv2). unfold with_p in *; cbn [mp_p mp_s] in *. rewrite Hv', Hv, lval_zeros, bp_0, bp_1, bp_2 in Hv2.
  split; cbn [mp_p mp_s]; [split; [by left | done] | | rewrite !length_insert, length_zeros; lia..].
  unfold mval. cbn [mp_s mp_p]. rewrite Hv2. ring.
Qed.

Lemma div_correct_spec K M fuel X Y T1 T2 i t yt y1 xi x1 x2 p z :
  limbs (mp_p Y) -> mp_p Y !! t = Some yt -> below (mp_p Y) t 1 y1 ->
  limbs (mp_p X) -> mp_p X !! i = Some xi -> below (mp_p X) i 1 x1 -> below (mp_p X) i 2 x2 ->
  (2 <= mlen T1 <= M)%nat -> (3 <= mlen T2 <= M)%nat -> Z.of_nat M <= K ->
  let v := yt * beta + y1 in let u := (xi * beta + x1) * beta + x2 in
  0 <= p <= z -> z < beta -> p * v <= u -> z - p < Z.of_nat fuel ->
  pspec K (div_correct fuel X Y T1 T2 i t (u64 (z + 1)))
    (fun r => let '(z', T1', T2') := r in p <= z' <= z /\ z' * v <= u /\ (2 <= mlen T1' <= M)%nat /\ (3 <= mlen T2' <= M)%nat).
Proof.
  intros HY Ht Hy1 HX Hi Hx1 Hx2 HT1 HT2 HK v u. revert z T1 T2 HT1 HT2. induction fuel as [|f IH]; intros z T1 T2 HT1 HT2 Hp Hz Hpv Hf; [lia |].
  cbn [div_correct]. rewrite wrap_sub_l, Z.add_simpl_r, (wrap_small 64 z) by (split; [lia | exact Hz]).
  eapply pspec_bind; [apply (div_t1_spec K M T1 Y t yt y1 z); try done; [split; [lia | exact Hz] | lia] |]. intros T1' [O1 V1 L1 M1].
  eapply pspec_bind; [apply (div_t2_spec K M T2 X i xi x1 x2); done |]. intros T2' [O2 V2 L2 M2].
  rewrite cmp_mpi_spec, V1, V2 by done. fold v u. case_cmp as [Hgt|Hle].
  - assert (p < z) by (destruct (Z.eq_dec p z) as [->|]; lia).
    replace z with (u64 (z - 1 + 1)) at 1 by (rewrite Z.sub_add; apply wrap_small; split; [lia | exact Hz]).
    eapply pspec_mono; [|apply (IH (z - 1) T1' T2'); lia]. intros [[z' T1''] T2'']. intuition lia.
  - apply pspec_ret. repeat split; lia.
Qed.
End parts.

(** ** Two and three limbs of a value *)

Lemma two_limbs l t x y :
  limbs l -> l !! t = Some x -> below l t 1 y -> lval l < bp (S t) ->
  lval l = x * bp t + lval (take t l) /\ lval (take t l) * beta = y * bp t + lval (take (t - 1) l) * beta /\ 0 <= lval (take (t - 1) l) * beta < bp t \/
  lval l = x * bp t + lval (take t l) /\ t = 0%nat /\ y = 0.
Proof.
  intros Hl Hx Hy Hv. pose proof (lval_at l t x Hx) as E. rewrite (lval_drop_zero (S t) l Hl Hv) in E. unfold below in Hy. destruct t as [|t].
  - right. cbn in Hy. repeat split; [lia | done].
  - left. split; [lia |]. cbn [Nat.ltb Nat.leb] in Hy. replace (S t - 1)%nat with t in * by lia.
    rewrite (take_S_r _ _ _ Hy), lval_app, length_take. apply lookup_lt_Some in Hx. rewrite Nat.min_l by lia.
    cbn [lval]. rewrite bp_S. pose proof (lval_take_range t l Hl). split; [ring | unfold beta in *; nia].
Qed.

Lemma split_two l t x y :
  limbs l -> l !! t = Some x -> below l t 1 y -> lval l < bp (S t) ->
  exists r, lval l * beta = (x * beta + y) * bp t + r /\ 0 <= r < bp t.
Proof.
  intros Hl Hx Hy Hv. destruct (two_limbs l t x y Hl Hx Hy Hv) as [(E1 & E2 & R)|(E1 & -> & ->)].
  - exists (lval (take (t - 1) l) * beta). split; [rewrite E1; lia | done].
  - exists 0. rewrite bp_0, take_0 in *. cbn [lval] in E1. rewrite E1. split; lia.
Qed.

Lemma split_three l i x x1 x2 :
  limbs l -> (1 <= i)%nat -> l !! i = Some x -> below l i 1 x1 -> below l i 2 x2 -> lval l < bp (S i) ->
  exists r, lval l * (beta * beta) = ((x * beta + x1) * beta + x2) * bp i + r /\ 0 <= r < bp i.
Proof.
  intros Hl Hi Hx H1 H2 Hv. destruct (two_limbs l i x x1 Hl Hx H1 Hv) as [(E1 & E2 & R)|(E1 & -> & ->)]; [|lia].
  destruct i as [|[|i]]; [lia | |].
  - unfold below in H2. cbn in H2. subst x2. cbn [Nat.sub] in *. rewrite take_0 in *. cbn [lval] in *. exists 0. rewrite bp_1 in *. split; [rewrite E1; transitivity (x * beta * (beta * beta) + lval (take 1 l) * beta * beta); [ring | rewrite E2; ring] | lia].
  - unfold below in H2. cbn [Nat.ltb Nat.leb] in H2. replace (S (S i) - 2)%nat with i in * by lia. replace (S (S i) - 1)%nat with (S i) in * by lia.
    pose proof (lookup_lt_Some _ _ _ Hx). rewrite (take_S_r _ _ _ H2), lval_app, length_take, Nat.min_l in E2 by lia. cbn [lval] in E2.
    pose proof (lval_take_range i l Hl) as Ri. exists (lval (take i l) * (beta * beta)). rewrite !bp_S in *.
    split; [|unfold beta in *; nia].
    rewrite E1. transitivity (x * (beta * (beta * bp i)) * (beta * beta) + lval (take (S (S i)) l) * beta * beta); [ring | rewrite E2; ring].
Qed.

(** ** One limb of the quotient *)

Lemma lead_bounds m r y a c : 0 < m -> 0 <= r < m -> a * m <= r + m * y < c * m -> a <= y < c.
Proof. nia. Qed.

Section step.
Context {ml : malloc} (K : Z) (M n t : nat) (Y : shmpi).
Context (HY : limbs (mp_p Y)) (HYs : mp_s Y = 1) (HYt : (t < mlen Y <= M)%nat) (HYv : 2 ^ 62 * bp t <= lval (mp_p Y) < 2 ^ 63 * bp t).
Context (HM : (n + 3 <= M)%nat) (HK : Z.of_nat M <= K) (HMb : Z.of_nat M < 2 ^ 50).

Lemma divisor_top : exists yt, mp_p Y !! t = Some yt /\ 2 ^ 62 <= yt < 2 ^ 63.
Proof using All.
  destruct (lookup_lt_is_Some_2 (mp_p Y) t) as [yt Ht]; [lia |]. exists yt. split; [done |].
  pose proof (lval_at _ _ _ Ht) as E. pose proof (lval_take_range t _ HY) as R. pose proof (lval_range _ (limbs_drop (S t) _ HY)) as Rd.
  destruct (limbs_lookup _ _ _ HY Ht) as [U1 U2]. rewrite E in HYv.
  pose proof (lead_bounds _ _ _ _ _ (bp_pos t) R HYv) as [B1 B2].
  assert (lval (drop (S t) (mp_p Y)) = 0) as E0 by (unfold beta in *; lia). rewrite E0 in *. lia.
Qed.

Lemma divisor_ok : mpi_ok Y.
Proof using All. split; [rewrite HYs; by left | done]. Qed.
Lemma divisor_val : mval Y = lval (mp_p Y).
Proof using All. unfold mval. rewrite HYs. lia. Qed.

Lemma divisor_sig : sig (mp_p Y) = S t.
Proof using All.
  pose proof (bp_pos t). apply Nat.le_antisymm.
  - apply sig_le_iff; [done |]. rewrite bp_S. assert (2 ^ 63 < beta) by reflexivity. nia.
  - apply Nat.nlt_ge. intros H1. assert (sig (mp_p Y) <= t)%nat as H2 by lia. apply sig_le_iff in H2; [|done]. lia.
Qed.

(** The divisor shifted by [q] limbs, in [T1]. *)
Lemma shifted_spec T1 q z :
  mpi_ok T1 -> mval T1 = lval (mp_p Y) * z -> 0 <= z < beta -> (t + q + 2 <= M)%nat -> (2 <= mlen T1 <= M)%nat ->
  pspec K (pcall (shmpi_shift_l T1 (biL * Z.of_nat q))) (sum_res (lval (mp_p Y) * z * bp q) 2 M).
Proof using All.
  intros HT HV Hz Hq HL. pose proof (lval_range _ HY) as RY. pose proof (mval_abs _ HT) as HA.
  assert (lval (mp_p T1) = lval (mp_p Y) * z) as EL by (rewrite <- HA, HV; apply Z.abs_eq; nia).
  assert (lval (mp_p T1) < bp (t + 2)) as Hfit.
  { rewrite EL. replace (t + 2)%nat with (S (S t)) by lia. rewrite !bp_S. pose proof (bp_pos t).
    assert (lval (mp_p Y) < beta * bp t) by (unfold beta; lia).
    apply Z.lt_le_trans with ((beta * bp t) * beta); [apply Z.mul_lt_mono_nonneg; lia | lia]. }
  rewrite bp_pow in Hfit. pose proof (lval_range _ (ok_p _ HT)) as RT.
  pose proof (nbits_le (lval (mp_p T1)) (64 * Z.of_nat (t + 2)) ltac:(lia) ltac:(lia)) as Hnb.
  apply pspec_call. unfold biL. eapply spec_mono; [reflexivity | |apply (shift_l_spec T1 _ M K); auto with mpi; lia].
  intros X' [HR _]. assert (bp q = 2 ^ (64 * Z.of_nat q)) as Eq by apply bp_pow.
  destruct (res_sum _ _ _ _ _ (lval (mp_p Y) * z * bp q) HR) as [A1 A2 A3 A4]; [apply HT | |split; (done || lia)].
  rewrite <- Eq, <- HV. unfold mval. ring.
Qed.

(** [z] times the divisor is taken from [X], and the divisor is added back when the
    result is negative. *)
Lemma take_off_spec X T1 q z :
  mpi_ok X -> 0 <= mval X -> (n + 1 <= mlen X <= M)%nat -> (t + q + 1 <= n)%nat -> lval (mp_p X) < bp (n + 1) -> 0 <= z < beta -> (2 <= mlen T1 <= M)%nat ->
  z * (lval (mp_p Y) * bp q) < mval X + lval (mp_p Y) * bp q ->
  pspec K (pbind (pcall (shmpi_mul_int T1 (Other Y) z)) (fun T1 =>
           pbind (pcall (shmpi_shift_l T1 (biL * Z.of_nat q))) (fun T1 =>
           pbind (pcall (shmpi_sub_mpi X Self (Other T1))) (fun X => pret (T1, X)))))
    (fun r => sum_res (lval (mp_p Y) * z * bp q) 2 M (fst r) /\ sum_res (mval X - lval (mp_p Y) * z * bp q) (n + 1) M (snd r)).
Proof using All.
  intros HX HX0 HXl Hq HXv Hz HT Hlt. pose proof divisor_ok as HYok. pose proof divisor_sig as HSig.
  assert (is_uint 64 z) as Uz by (split; [lia | apply Hz]). pose proof (sig_le [z]) as Hsz. cbn [length] in Hsz.
  eapply pspec_bind; [apply pspec_call; apply (mul_int_spec T1 (Other Y) z (Nat.max (Nat.max (mlen T1) 1) (S t + sig [z])) K); cbn [argv]; [done | done | by rewrite HSig | lia] |].
  intros T1' [O1 V1 L1 M1]. cbn [argv] in V1. rewrite divisor_val in V1.
  eapply pspec_bind; [apply (shifted_spec T1' q z); [done | done | done | lia | lia] |]. intros T2' [O2 V2 L2 M2].
  eapply pspec_bind; [apply pspec_call; apply (sub_mpi_spec X Self (Other T2') (n + 1) M K); cbn [argv]; try done; try lia |].
  - right. split; [lia |]. intros E. rewrite E in HXl. cbn in HXl. lia.
  - right. split; [lia |]. intros E. rewrite E in L2. cbn in L2. lia.
  - rewrite V2. rewrite (Z.abs_eq (mval X)) by done. rewrite Z.abs_eq by (pose proof (lval_range _ HY); pose proof (bp_pos q); nia).
    pose proof (mval_abs _ HX) as HA. rewrite Z.abs_eq in HA by done. rewrite <- HA in HXv.
    assert (lval (mp_p Y) * bp q < bp (n + 1)) as HYq.
    { apply Z.lt_le_trans with (bp (S t + q)); [|apply bp_mono; lia]. rewrite bp_add, bp_S. pose proof (bp_pos q).
      apply Z.mul_lt_mono_pos_r; [done |]. pose proof (bp_pos t). unfold beta. lia. }
    apply Z.lt_le_trans with (bp (S (n + 1))); [|apply bp_mono; lia]. rewrite bp_S. unfold beta. nia.
  - intros X' HX'. apply pspec_ret. cbn [fst snd]. split; [done |]. cbn [argv] in HX'. by rewrite V2 in HX'.
Qed.

Lemma digit_exists X T1 T2 i xi yt x1 :
  let q := (i - t - 1)%nat in let e := div_estimate xi (if yt <=? xi then 0 else x1) yt in
  (t < i <= n)%nat -> mpi_ok X -> 0 <= mval X < lval (mp_p Y) * bp (i - t) -> mp_p X !! i = Some xi -> mp_p Y !! t = Some yt -> below (mp_p X) i 1 x1 ->
  (2 <= mlen T1 <= M)%nat -> (3 <= mlen T2 <= M)%nat ->
  pspec K (div_correct DIV_FUEL X Y T1 T2 i t (u64 (e + 1))) (fun r => let '(z, T1', T2') := r in
    0 <= z < beta /\ mval X / (lval (mp_p Y) * bp q) <= z /\ z * (lval (mp_p Y) * bp q) < mval X + lval (mp_p Y) * bp q /\
    (2 <= mlen T1' <= M)%nat /\ (3 <= mlen T2' <= M)%nat).
Proof using All.
  intros q e Hi HX HXv Hxi Hyt Hx1 HT1 HT2. pose proof (ok_p _ HX) as HXp.
  assert (exists y1, below (mp_p Y) t 1 y1) as [y1 Hy1].
  { unfold below. destruct (Nat.ltb_spec t 1); [eauto |]. apply lookup_lt_is_Some_2. lia. }
  assert (exists x2, below (mp_p X) i 2 x2) as [x2 Hx2].
  { unfold below. destruct (Nat.ltb_spec i 2); [eauto |]. apply lookup_lt_is_Some_2. apply lookup_lt_Some in Hxi. lia. }
  pose proof (below_uint _ _ _ _ HY Hy1) as Uy1. pose proof (below_uint _ _ _ _ HXp Hx1) as Ux1. pose proof (below_uint _ _ _ _ HXp Hx2) as Ux2.
  pose proof (limbs_lookup _ _ _ HXp Hxi) as Uxi. pose proof (limbs_lookup _ _ _ HY Hyt) as Uyt.
  destruct divisor_top as (yt' & Hyt' & Ryt). assert (yt' = yt) as -> by congruence.
  pose proof (bp_pos t) as Pt. pose proof (bp_pos q) as Pq.
  assert (bp (i - t) = bp q * beta) as Eit by (replace (i - t)%nat with (S q) by lia; rewrite bp_S; lia).
  assert (bp i = bp t * bp q * beta) as Ei by (replace i with (t + S q)%nat by lia; rewrite bp_add, bp_S; ring).
  assert (lval (mp_p X) = mval X) as EX by (rewrite <- (mval_abs _ HX); lia).
  assert (lval (mp_p Y) < bp (S t)) as HYS by (rewrite bp_S; unfold beta; lia).
  assert (lval (mp_p X) < bp (S i)) as HXS.
  { rewrite EX, bp_S, Ei. apply Z.lt_le_trans with (lval (mp_p Y) * (bp q * beta)); [rewrite <- Eit; lia |].
    replace (beta * (bp t * bp q * beta)) with ((beta * bp t) * (bp q * beta)) by ring. apply Z.mul_le_mono_nonneg_r; [unfold beta; lia |]. unfold beta. lia. }
  destruct (split_two _ _ _ _ HY Hyt Hy1 HYS) as (yl & EY & Ryl).
  destruct (split_three (mp_p X) i xi x1 x2 HXp ltac:(lia) Hxi Hx1 Hx2 HXS) as (xl & EX3 & Rxl). rewrite Ei, EX in *.
  destruct (div_estimate_spec xi x1 yt Uxi Ux1 Uyt ltac:(lia)) as (Re & He1 & He2). fold e in Re, He1, He2.
  set (v := yt * beta + y1) in *. set (u := (xi * beta + x1) * beta + x2) in *. set (D := lval (mp_p Y) * bp q) in *.
  assert (0 < D) as PD by (unfold D; nia).
  pose proof (Z.mul_div_le (mval X) D PD) as HQ. set (Q := mval X / D) in *.
  assert (0 <= Q < beta) as RQ by (unfold Q; split; [apply Z.div_pos; lia | apply Z.div_lt_upper_bound; [done |]; unfold D; lia]).
  unfold is_uint in *. fold beta in *.
  assert (Q * v <= u) as HQv by (eapply (digit_below beta (bp t) (bp q) (mval X) (lval (mp_p Y)) yt y1 v (xi * beta + x1) x2 u yl xl); (done || reflexivity || lia)).
  assert (Q * yt <= xi * beta + x1) as HQy by (eapply (estimate_low beta yt y1 v (xi * beta + x1) x2 u); (done || reflexivity || lia)).
  assert (Q <= e) as HQe by (apply He2; lia).
  set (p := Z.max Q (e - 4)).
  assert (p * v <= u) as Hpv.
  { unfold p. destruct (Z.max_spec Q (e - 4)) as [[? ->]|[? ->]]; [|done].
    apply (estimate_high beta yt y1 v (xi * beta + x1) x2 u); (done || reflexivity || lia || unfold beta in *; lia). }
  eapply pspec_mono; [|eapply (div_correct_spec K M DIV_FUEL X Y T1 T2 i t yt y1 xi x1 x2 p e); try done; unfold DIV_FUEL; try lia].
  intros [[z T1'] T2'] (Rz & Hzv & L1 & L2). split; [lia |]. split; [lia |]. split; [|done].
  eapply (digit_above beta (bp t) (bp q) (mval X) (lval (mp_p Y)) yt y1 v (xi * beta + x1) x2 u yl xl); (done || reflexivity || lia).
Qed.

Lemma div_step_spec X ZQ T1 T2 i :
  let q := (i - t - 1)%nat in
  (t < i <= n)%nat -> mpi_ok X -> 0 <= mval X < lval (mp_p Y) * bp (i - t) -> (n + 1 <= mlen X <= M)%nat ->
  limbs (mp_p ZQ) -> mp_p ZQ !! q = Some 0 -> (2 <= mlen T1 <= M)%nat -> (3 <= mlen T2 <= M)%nat ->
  pspec K (div_step X Y ZQ T1 T2 i t) (fun r => let '(X', ZQ', T1', T2') := r in
    exists d, is_uint 64 d /\ ZQ' = with_p (<[q := d]> (mp_p ZQ)) ZQ /\ mpi_ok X' /\ mval X' = mval X - d * (lval (mp_p Y) * bp q) /\
      0 <= mval X' < lval (mp_p Y) * bp q /\ (n + 1 <= mlen X' <= M)%nat /\ (2 <= mlen T1' <= M)%nat /\ (3 <= mlen T2' <= M)%nat).
Proof using All.
  intros q Hi HX HXv HXl HZ Hq HT1 HT2. unfold div_step. fold q. pose proof (ok_p _ HX) as HXp.
  destruct (limb_done (mp_p X) i) as (xi & Exi & Hxi); [lia |]. destruct (limb_done (mp_p Y) t) as (yt & Eyt & Hyt); [lia |].
  destruct (limb_done (mp_p X) (i - 1)) as (x1 & Ex1 & Hx1); [lia |].
  assert (below (mp_p X) i 1 x1) as Hb1 by (unfold below; destruct (Nat.ltb_spec i 1); [lia | done]).
  eapply pspec_bind; [eapply pspec_lift; [exact Exi | exact (eq_refl xi)] |]. intros ? <-.
  eapply pspec_bind; [eapply pspec_lift; [exact Eyt | exact (eq_refl yt)] |]. intros ? <-.
  eapply (pspec_bind _ _ _ (fun z => z = if yt <=? xi then 0 else x1)).
  { destruct (yt <=? xi); [by apply pspec_ret | by eapply pspec_lift]. }
  intros ? ->. set (e := div_estimate xi _ yt).
  pose proof (digit_exists X T1 T2 i xi yt x1 Hi HX HXv Hxi Hyt Hb1 HT1 HT2) as HD. fold q e in HD.
  assert (is_uint 64 e) as Ue.
  { destruct divisor_top as (yt' & Hyt' & Ryt). assert (yt' = yt) as -> by congruence.
    destruct (div_estimate_spec xi x1 yt (limbs_lookup _ _ _ HXp Hxi) (limbs_lookup _ _ _ HXp Hx1) (limbs_lookup _ _ _ HY Hyt) ltac:(lia)) as [Re _]. exact Re. }
  eapply pspec_bind; [by eapply (pset_spec K ZQ q e) |]. intros Z1 (-> & HZ1 & _).
  eapply pspec_bind; [exact HD |]. clear HD. intros [[z T1'] T2'] (Rz & HQz & Hzt & L1 & L2).
  assert (mp_p (with_p (<[q:=e]> (mp_p ZQ)) ZQ) !! q = Some e) as HqE by (cbn [mp_p with_p]; apply list_lookup_insert_eq; by eapply lookup_lt_Some).
  eapply pspec_bind; [eapply (pset_spec K _ q z); [exact HqE | exact Rz | done] |]. intros Z2 (-> & HZ2 & _).
  cbn [with_p mp_p mp_s] in HZ2 |- *. rewrite list_insert_insert_eq in HZ2.
  assert (lval (mp_p X) = mval X) as EX by (rewrite <- (mval_abs _ HX); lia).
  assert (lval (mp_p X) < bp (n + 1)) as HXn.
  { rewrite EX. apply Z.lt_le_trans with (bp (S t + (i - t))); [|apply bp_mono; lia]. rewrite bp_add, bp_S. pose proof (bp_pos (i - t)).
    eapply Z.lt_le_trans; [apply HXv |]. apply Z.mul_le_mono_nonneg_r; [lia |]. unfold beta. pose proof (bp_pos t). lia. }
  pose proof (bp_pos q) as Pq. pose proof (bp_pos t) as Pt.
  eapply pspec_chain; [apply (take_off_spec X T1' q z); (done || lia) |]. cbn [fst snd]. intros T1'' X' [[O1 V1 Lo1 M1] [O2 V2 Lo2 M2]].
  set (D := lval (mp_p Y) * bp q) in *. assert (0 < D) as PD by (unfold D; apply Z.mul_pos_pos; lia).
  replace (lval (mp_p Y) * z * bp q) with (z * D) in * by (unfold D; ring).
  eapply pspec_bind; [eapply pspec_lift; [by apply cmp_zero_spec | exact (eq_refl (Z.sgn (mval X')))] |]. intros c <-.
  assert (mval X - z * D < D) as HzD.
  { pose proof (Z.mod_pos_bound (mval X) D PD). pose proof (Z.div_mod (mval X) D ltac:(lia)). nia. }
  case_cmp as [Hneg|Hpos].
  - assert (0 < z) by nia.
    eapply pspec_bind; [apply pspec_call; apply (copy_spec T1'' Y K HY); unfold msz; rewrite divisor_sig; lia |]. intros T3 HC.
    assert (mpi_ok T3) as O3 by (eapply copied_ok; [exact divisor_ok | exact HC]).
    assert (mval T3 = lval (mp_p Y) * 1) as V3 by (rewrite (copied_mval _ _ _ divisor_ok HC), divisor_val; lia).
    assert (2 <= mlen T3 <= M)%nat as L3.
    { rewrite (cp_len _ _ _ HC); [unfold msz; rewrite divisor_sig; lia |]. intros E. rewrite E in HYt. cbn in HYt. lia. }
    eapply pspec_bind; [apply (shifted_spec T3 q 1); try done; try lia; unfold beta; lia |]. intros T4 [O4 V4 Lo4 M4].
    replace (lval (mp_p Y) * 1 * bp q) with D in V4 by (unfold D; ring).
    eapply pspec_bind; [apply pspec_call; apply (add_mpi_spec X' Self (Other T4) (n + 1) M K); cbn [argv]; try done; try lia |].
    + by right.
    + right. split; [lia |]. intros E. rewrite E in Lo2. cbn in Lo2. lia.
    + right. split; [lia |]. intros E. rewrite E in Lo4. cbn in Lo4. lia.
    + rewrite V4, V2, (Z.abs_eq D) by lia.
      assert (D < bp (n + 1)).
      { apply Z.lt_le_trans with (bp (S t + q)); [|apply bp_mono; lia]. unfold D. rewrite bp_add, bp_S.
        apply Z.mul_lt_mono_pos_r; [done |]. unfold beta. lia. }
      apply Z.lt_le_trans with (bp (S (n + 1))); [|apply bp_mono; lia]. rewrite bp_S. unfold beta. lia.
    + intros X'' [O5 V5 Lo5 M5]. cbn [argv] in V5. rewrite V4, V2 in V5.
      rewrite wrap_small by (unfold is_uint; fold beta; lia).
      eapply pspec_bind; [eapply (pset_spec K _ q (z - 1)); cbn [mp_p]; [apply list_lookup_insert_eq | unfold is_uint; fold beta; lia |] |].
      * rewrite length_insert. by eapply lookup_lt_Some.
      * by rewrite list_insert_insert_eq.
      * intros Z3 (-> & _ & _). apply pspec_ret. exists (z - 1). unfold with_p. cbn [mp_p mp_s]. rewrite !list_insert_insert_eq.
        split; [unfold is_uint; fold beta; lia |]. split; [done |]. split; [done |]. split; [lia |]. repeat split; lia.
  - apply pspec_ret. exists z. unfold with_p. cbn [mp_p mp_s]. rewrite !list_insert_insert_eq.
    split; [exact Rz |]. split; [done |]. split; [done |]. split; [lia |]. repeat split; lia.
Qed.

(** ** All limbs of the quotient *)

Lemma div_loop_spec k X ZQ T1 T2 :
  (t + k <= n)%nat -> mpi_ok X -> 0 <= mval X < lval (mp_p Y) * bp k -> (n + 1 <= mlen X <= M)%nat ->
  limbs (mp_p ZQ) -> (forall j, (j < k)%nat -> mp_p ZQ !! j = Some 0) -> (2 <= mlen T1 <= M)%nat -> (3 <= mlen T2 <= M)%nat ->
  pspec K (div_loop k X Y ZQ T1 T2 t) (fun r => let '(X', ZQ') := r in
    mpi_ok X' /\ 0 <= mval X' < lval (mp_p Y) /\ (n + 1 <= mlen X' <= M)%nat /\ limbs (mp_p ZQ') /\ mlen ZQ' = mlen ZQ /\ mp_s ZQ' = mp_s ZQ /\
    mval X' + lval (mp_p ZQ') * lval (mp_p Y) = mval X + lval (mp_p ZQ) * lval (mp_p Y)).
Proof using All.
  revert X ZQ T1 T2. induction k as [|k IH]; intros X ZQ T1 T2 Hk HX HXv HXl HZ Hz HT1 HT2; cbn [div_loop].
  - apply pspec_ret. rewrite bp_0 in HXv. split_and!; (done || lia).
  - eapply pspec_bind.
    { apply (div_step_spec X ZQ T1 T2 (t + S k)); try done; try lia.
      - by replace (t + S k - t)%nat with (S k) by lia.
      - apply Hz. lia. }
    replace (t + S k - t - 1)%nat with k by lia. intros [[[X1 ZQ1] T1'] T2'] (d & Ud & -> & O1 & V1 & R1 & L1 & LT1 & LT2).
    destruct (set_limb_done ZQ k d 0) as (Z1 & _ & EZ & HZ1 & VZ1); [apply Hz; lia | done | done |]. rewrite EZ in HZ1, VZ1. clear Z1 EZ.
    eapply pspec_mono; [|apply (IH X1 _ T1' T2'); try done; [lia |]].
    + intros [X2 ZQ2] (A1 & A2 & A3 & A4 & A5 & A6 & A7). cbn [with_p mp_p mp_s] in *. rewrite length_insert in A5. rewrite VZ1 in A7.
      split_and!; (done || lia).
    + intros j Hj. cbn [with_p mp_p]. rewrite list_lookup_insert_ne by lia. apply Hz. lia.
Qed.
End step.

Section main.
Context {ml : malloc}.

Lemma div_first_spec K M fuel X Y ZQ nt z :
  mpi_ok X -> mpi_ok Y -> 0 <= mval X < Z.of_nat (S fuel) * mval Y -> 0 < mval Y -> mp_p X <> [] -> mp_p Y <> [] -> (mlen X <= M)%nat -> (1 <= M)%nat ->
  2 * mval X < bp M -> Z.of_nat M <= K -> limbs (mp_p ZQ) -> mp_p ZQ !! nt = Some z -> z + Z.of_nat fuel < beta ->
  pspec K (div_first fuel X Y ZQ nt) (fun r => let '(X', ZQ') := r in
    mpi_ok X' /\ 0 <= mval X' < mval Y /\ (mlen X <= mlen X' <= M)%nat /\ mp_s ZQ' = mp_s ZQ /\ limbs (mp_p ZQ') /\ mlen ZQ' = mlen ZQ /\
    (forall j, j <> nt -> mp_p ZQ' !! j = mp_p ZQ !! j) /\ mval X' + (lval (mp_p ZQ') - lval (mp_p ZQ)) / bp nt * mval Y = mval X /\ exists d, lval (mp_p ZQ') = lval (mp_p ZQ) + d * bp nt).
Proof.
  intros HX HY. revert X ZQ z HX. induction fuel as [|f IH]; intros X ZQ z HX HXv HYp HXne HYne HM HM1 HMb HK HZ Hz Hf;
    cbn [div_first]; rewrite cmp_mpi_spec by done; destruct (Z.leb_spec 0 (Z.sgn (mval X - mval Y))).
  1: lia.
  1,3: apply pspec_ret; rewrite Z.sub_diag, Z.div_0_l by (pose proof (bp_pos nt); lia); split; [done |]; split; [lia |]; split; [lia |];
    split; [done |]; split; [done |]; split; [done |]; split; [done |]; split; [lia |]; exists 0; lia.
  pose proof (limbs_lookup _ _ _ HZ Hz) as Uz.
  eapply pspec_bind; [eapply pspec_lift; [unfold limb; by rewrite Hz |]; exact (eq_refl z) |]. intros ? <-.
  assert (is_uint 64 (z + 1)) as Uz1 by (unfold is_uint in *; fold beta in *; lia). rewrite (wrap_small 64 (z + 1)) by done.
  eapply pspec_bind; [by eapply (pset_spec K ZQ nt (z + 1)) |]. intros Z1 (-> & HZ1 & VZ1).
  eapply pspec_bind; [apply pspec_call; apply (sub_mpi_spec X Self (Other Y) (mlen X) M K); cbn [argv]; try done; try lia; by right |].
  intros X1 [O1 V1 L1 M1]. cbn [argv] in V1.
  assert (mp_p X1 <> []) as Hne1 by (intros E; rewrite E in L1; destruct (mp_p X); [done | cbn in L1; lia]).
  eapply pspec_mono; [|apply (IH X1 (with_p (<[nt:=z + 1]> (mp_p ZQ)) ZQ) (z + 1)); try done; try lia].
  - intros [X2 ZQ2] (A1 & A2 & A3 & A4 & A5 & A6 & A7 & A8 & d & A9). cbn [with_p mp_p mp_s] in *. rewrite length_insert in A6.
    pose proof (bp_pos nt) as Pn.
    split; [done |]. split; [lia |]. split; [lia |]. split; [done |]. split; [done |]. split; [done |]. split.
    { intros j Hj. rewrite A7 by done. by rewrite list_lookup_insert_ne by done. }
    rewrite A9 in A8 |- *. rewrite VZ1 in *.
    split; [|exists (d + 1); ring].
    replace (lval (mp_p ZQ) + (z + 1 - z) * bp nt + d * bp nt - (lval (mp_p ZQ) + (z + 1 - z) * bp nt)) with (d * bp nt) in A8 by ring.
    replace (lval (mp_p ZQ) + (z + 1 - z) * bp nt + d * bp nt - lval (mp_p ZQ)) with ((d + 1) * bp nt) by ring.
    rewrite Z.div_mul in * by lia. lia.
  - cbn [with_p mp_p]. apply list_lookup_insert_eq. by eapply lookup_lt_Some.
Qed.

(** ** The whole division *)

(** A block without limbs to spare. *)
Definition tight (X : shmpi) : Prop := limbs (mp_p X) /\ 0 < lval (mp_p X) /\ Z.of_nat (mlen X) = (nbits (lval (mp_p X)) + 63) / 64.

Lemma sig_nbits l : limbs l -> 0 < lval l -> Z.of_nat (sig l) = (nbits (lval l) + 63) / 64.
Proof.
  intros Hl Hv. destruct (sig l) as [|k] eqn:E; [apply sig_zero in E; [lia | done] |].
  destruct (sig_bounds l k Hl E) as [H1 H2]. rewrite !bp_pow in *.
  assert (nbits (lval l) <= 64 * Z.of_nat (S k)) by (apply nbits_le; lia).
  assert (64 * Z.of_nat k < nbits (lval l)).
  { apply Z.nle_gt. intros Hle. pose proof (nbits_upper (lval l) ltac:(lia)) as Hu.
    pose proof (Z.pow_le_mono_r 2 (nbits (lval l)) (64 * Z.of_nat k) ltac:(lia) Hle). lia. }
  mlia.
Qed.

Lemma tight_copy X Y X' : limbs (mp_p Y) -> 0 < lval (mp_p Y) -> mlen X = 0%nat -> copied X Y X' -> tight X' /\ lval (mp_p X') = lval (mp_p Y) /\ mlen X' = sig (mp_p Y).
Proof.
  intros HY Hv HX HC. pose proof (cp_lval _ _ _ HC) as EV. pose proof (sig_nbits _ HY Hv) as ES.
  assert (mlen X' = sig (mp_p Y)) as EL.
  { rewrite (cp_len _ _ _ HC); [|intros E; rewrite E in Hv; cbn in Hv; lia]. rewrite HX. unfold msz.
    destruct (sig (mp_p Y)) eqn:E; [apply sig_zero in E; [lia | done] | lia]. }
  split; [|done]. split; [apply HC |]. rewrite EV, EL. split; [lia | done].
Qed.

Lemma tight_sign s X : tight X -> tight (with_s s X).
Proof. done. Qed.
Lemma tight_ok X : tight X -> mp_s X = 1 -> mpi_ok X /\ mval X = lval (mp_p X) /\ mp_p X <> [].
Proof.
  intros (H1 & H2 & _) Hs. split; [split; [rewrite Hs; by left | done] |]. unfold mval. rewrite Hs. split; [lia |].
  intros E. rewrite E in H2. cbn in H2. lia.
Qed.
Lemma tight_bound X : tight X -> lval (mp_p X) < bp (mlen X).
Proof. intros (H1 & _). by apply lval_range. Qed.

Lemma shift_tight X k M K :
  tight X -> 0 <= k -> 64 * Z.of_nat M + k < 2 ^ 63 -> nbits (lval (mp_p X)) + k <= 64 * Z.of_nat M -> Z.of_nat M <= K ->
  spec K (shmpi_shift_l X k) (fun X' => tight X' /\ lval (mp_p X') = lval (mp_p X) * 2 ^ k /\ mp_s X' = mp_s X).
Proof.
  intros (H1 & H2 & H3) Hk Hb Hn HK. assert (mlen X <= M)%nat by mlia.
  eapply spec_mono; [reflexivity | |apply (shift_l_spec X k M K); (done || lia)]. intros X' (HR & HLe & HLt).
  destruct HR as [R1 R2 R3 R4 R5]. split; [|done]. split; [done |]. assert (0 < 2 ^ k) by lia. rewrite R3. split; [nia |].
  rewrite nbits_mul by lia. destruct (Z.le_gt_cases (nbits (lval (mp_p X)) + k) (64 * Z.of_nat (mlen X))) as [Hle|Hgt].
  - rewrite (HLe Hle). mlia.
  - by apply HLt.
Qed.

(** The shift that leaves the highest limb of the divisor with 63 bits. *)
Definition norm (v : Z) : Z := if nbits v mod 64 <? 63 then 63 - nbits v mod 64 else 0.
Lemma norm_range v : 0 <= norm v < 64.
Proof. unfold norm. pose proof (Z.mod_pos_bound (nbits v) 64 ltac:(lia)). case_cmp; lia. Qed.
Lemma norm_nbits v : exists t, nbits v + norm v = 64 * t + 63.
Proof. exists (nbits v / 64). unfold norm. pose proof (Z.mod_pos_bound (nbits v) 64 ltac:(lia)). case_cmp; mlia. Qed.

Lemma norm_spec X v M K :
  tight X -> 64 * Z.of_nat M < 2 ^ 62 -> nbits (lval (mp_p X)) + 63 <= 64 * Z.of_nat M -> Z.of_nat M <= K ->
  pspec K (if nbits v mod biL <? biL - 1 then pcall (shmpi_shift_l X (if nbits v mod biL <? biL - 1 then biL - 1 - nbits v mod biL else 0)) else pret X)
    (fun X' => tight X' /\ lval (mp_p X') = lval (mp_p X) * 2 ^ norm v /\ mp_s X' = mp_s X).
Proof.
  intros HX Hb Hn HK. unfold norm, biL. change (64 - 1) with 63. pose proof (Z.mod_pos_bound (nbits v) 64 ltac:(lia)).
  destruct (Z.ltb_spec (nbits v mod 64) 63).
  - apply pspec_call. apply (shift_tight X _ M K); (done || lia).
  - apply pspec_ret. rewrite Z.pow_0_r. split; [done |]. split; [lia | done].
Qed.

Lemma normal_top X t : tight X -> nbits (lval (mp_p X)) = 64 * Z.of_nat t + 63 -> mlen X = S t /\ 2 ^ 62 * bp t <= lval (mp_p X) < 2 ^ 63 * bp t.
Proof.
  intros (H1 & H2 & H3) Hn. rewrite Hn in H3. split; [mlia |]. rewrite bp_pow, <- !Z.pow_add_r by lia.
  pose proof (nbits_lower _ H2) as Hl. pose proof (nbits_upper (lval (mp_p X)) ltac:(lia)) as Hu. rewrite Hn in *.
  replace (64 * Z.of_nat t + 63 - 1) with (62 + 64 * Z.of_nat t) in Hl by lia. replace (64 * Z.of_nat t + 63) with (63 + 64 * Z.of_nat t) in Hu by lia. done.
Qed.

(** From the normalized numbers on. *)
Lemma div_core_spec X Y T1 T2 (m t M : nat) (K k : Z) :
  let n := (mlen X - 1)%nat in
  tight X -> mp_s X = 1 -> tight Y -> mp_s Y = 1 -> nbits (lval (mp_p Y)) = 64 * Z.of_nat t + 63 -> lval (mp_p Y) <= lval (mp_p X) ->
  (mlen X + 2 <= M)%nat -> Z.of_nat M < 2 ^ 50 -> Z.of_nat M <= K -> (mlen X <= m)%nat -> mlen T1 = 2%nat -> mlen T2 = 3%nat ->
  pspec K
    (pbind (pcall (shmpi_shift_l Y (biL * Z.of_nat (n - t)))) (fun Y =>
     pbind (div_first DIV_FUEL X Y (mk_mpi 1 (zeros m)) (n - t)) (fun r => let '(X, ZQ) := r in
     pbind (pcall (shmpi_shift_r Y (biL * Z.of_nat (n - t)))) (fun Y =>
     pbind (div_loop (n - t) X Y ZQ T1 T2 t) (fun r => let '(X, ZQ) := r in
     pret (ZQ, X, k))))))
    (fun r => let '(ZQ, X', k') := r in k' = k /\ mp_s ZQ = 1 /\ limbs (mp_p ZQ) /\ mlen ZQ = m /\ mpi_ok X' /\ (1 <= mlen X' <= M)%nat /\
      0 <= mval X' < lval (mp_p Y) /\ lval (mp_p X) = lval (mp_p ZQ) * lval (mp_p Y) + mval X').
Proof.
  intros n HX HXs HY HYs Hnb Hle HM HMb HK Hm HT1 HT2.
  destruct (tight_ok X HX HXs) as (OX & VX & NX). destruct (normal_top Y t HY Hnb) as [LY BY]. pose proof (tight_bound X HX) as UX.
  assert (t <= n)%nat as Htn.
  { destruct HX as (_ & _ & EX), HY as (_ & PY & EY). pose proof (nbits_mono (lval (mp_p Y)) (lval (mp_p X)) ltac:(lia)). unfold n. mlia. }
  assert (mlen X = S n) as LX by (destruct (mp_p X); [done | unfold n; cbn [length]; lia]).
  pose proof (bp_pos t) as Pt. pose proof (bp_pos (n - t)) as Pn.
  assert (bp n = bp t * bp (n - t)) as En by (rewrite <- bp_add; f_equal; lia).
  eapply pspec_bind; [apply pspec_call; apply (shift_tight Y _ M K); try done; unfold biL; lia |]. intros Y2 (HY2 & VY2 & SY2). rewrite HYs in SY2.
  replace (2 ^ (biL * Z.of_nat (n - t))) with (bp (n - t)) in VY2 by (by rewrite bp_pow).
  destruct (tight_ok Y2 HY2 SY2) as (OY2 & WY2 & NY2).
  assert (lval (mp_p X) < 4 * lval (mp_p Y2)) as H4.
  { rewrite VY2. rewrite LX, bp_S, En in UX. unfold beta in UX. nia. }
  eapply pspec_bind.
  { apply (div_first_spec K M DIV_FUEL X Y2 (mk_mpi 1 (zeros m)) (n - t) 0); try done; rewrite ?VX, ?WY2; try lia.
    - pose proof (tight_bound _ HX). destruct HX as (_ & ? & _). unfold DIV_FUEL. lia.
    - apply Z.lt_le_trans with (bp (S (mlen X))); [|apply bp_mono; lia]. rewrite bp_S. unfold beta. destruct HX as (_ & ? & _). lia.
    - apply limbs_zeros.
    - apply lookup_zeros. lia. }
  intros [X3 ZQ3] (O3 & R3 & L3 & S3 & Z3 & LZ3 & K3 & E3 & d & D3). cbn [mp_p mp_s] in *. rewrite lval_zeros in *. rewrite length_zeros in LZ3.
  rewrite D3, Z.sub_0_r, Z.add_0_l, Z.div_mul in E3 by lia. rewrite VX, WY2 in *.
  eapply pspec_bind; [apply pspec_call; apply (shift_r_spec Y2 _ K); [apply HY2 | unfold biL; lia | lia] |]. intros Y4 (H4l & V4 & L4 & S4).
  replace (2 ^ (biL * Z.of_nat (n - t))) with (bp (n - t)) in V4 by (by rewrite bp_pow). rewrite VY2, Z.div_mul in V4 by lia.
  assert (mlen Y4 = mlen Y2) as L4' by (destruct L4 as [?|[? ?]]; [done | destruct (mp_p Y2); [done | cbn in *; lia]]).
  assert (mp_s Y4 = 1) as S4' by (destruct S4 as [->|[? _]]; done).
  assert (mlen Y2 = S n) as L2.
  { destruct HY2 as (_ & _ & E2). rewrite VY2, bp_pow, nbits_mul, Hnb in E2 by lia. mlia. }
  rewrite <- V4 in BY.
  eapply pspec_bind.
  { apply (div_loop_spec K M n t Y4); try done; try lia.
    - intros j Hj. rewrite K3 by lia. apply lookup_zeros. lia. }
  intros [X5 ZQ5] (O5 & R5 & L5 & Z5 & LZ5 & S5 & E5). apply pspec_ret. rewrite V4 in *. split_and!; try done; try lia; try congruence.
Qed.

Lemma div_main_spec A B K :
  limbs (mp_p A) -> limbs (mp_p B) -> 0 < lval (mp_p B) <= lval (mp_p A) -> Z.of_nat (mlen A) < 2 ^ 40 -> Z.of_nat (mlen A) + 4 <= K ->
  pspec K (div_main A B) (fun r => let '(ZQ, X, k) := r in
    0 <= k < 64 /\ mp_s ZQ = 1 /\ limbs (mp_p ZQ) /\ lval (mp_p ZQ) = lval (mp_p A) / lval (mp_p B) /\ mlen ZQ = (mlen A + 2)%nat /\
    mpi_ok X /\ (1 <= mlen X)%nat /\ mval X = (lval (mp_p A) mod lval (mp_p B)) * 2 ^ k).
Proof.
  intros HA HB HV Hsz HK. set (M := (mlen A + 4)%nat).
  assert (sig (mp_p A) <= mlen A)%nat by apply sig_le. pose proof (lval_range _ HA) as RA.
  assert (sig (mp_p B) <= mlen A)%nat by (apply sig_le_iff; [done | lia]).
  pose proof (nbits_mono (lval (mp_p B)) (lval (mp_p A)) ltac:(lia)) as Hnm. rewrite bp_pow in RA. pose proof (nbits_le (lval (mp_p A)) (64 * Z.of_nat (mlen A)) ltac:(lia) RA) as HnA.
  unfold div_main.
  eapply pspec_bind; [apply pspec_call; apply (copy_spec shmpi_init A K HA); unfold msz; lia |]. intros X0 HX0.
  destruct (tight_copy shmpi_init A X0 HA ltac:(lia) eq_refl HX0) as (TX & VX & LX). clear HX0.
  eapply pspec_bind; [apply pspec_call; apply (copy_spec shmpi_init B K HB); unfold msz; lia |]. intros Y0 HY0.
  destruct (tight_copy shmpi_init B Y0 HB ltac:(lia) eq_refl HY0) as (TY & VY & LY). clear HY0.
  eapply pspec_bind; [apply pspec_call; apply (grow_spec _ _ K); unfold mp_n; lia |]. intros Z0 EZ0.
  assert (mlen Z0 = mlen A + 2)%nat as LZ0 by (rewrite EZ0; cbn [with_p mp_p shmpi_init]; rewrite length_app, length_zeros; unfold mp_n; cbn [length]; lia).
  eapply pspec_bind; [apply cleared_spec; lia |]. intros Z1 [-> _]. rewrite LZ0.
  eapply pspec_bind; [apply pspec_call; apply (grow_spec shmpi_init 2 K); lia |]. intros T1 ET1.
  eapply pspec_bind; [apply pspec_call; apply (grow_spec shmpi_init 3 K); lia |]. intros T2 ET2.
  rewrite (msb_spec (with_s 1 Y0)) by apply TY. cbn [with_s mp_p]. rewrite VY. pose proof (norm_range (lval (mp_p B))) as Rk.
  eapply pspec_bind; [apply (norm_spec (with_s 1 X0) (lval (mp_p B)) M K); [apply tight_sign, TX | lia | cbn [with_s mp_p]; rewrite VX; lia | lia] |].
  intros X1 (TX1 & VX1 & SX1). cbn [with_s mp_p mp_s] in *.
  eapply pspec_bind; [apply (norm_spec (with_s 1 Y0) (lval (mp_p B)) M K); [apply tight_sign, TY | lia | cbn [with_s mp_p]; rewrite VY; lia | lia] |].
  intros Y1 (TY1 & VY1 & SY1). cbn [with_s mp_p mp_s] in *. rewrite VX, VY in *.
  destruct (norm_nbits (lval (mp_p B))) as [t0 Ht0]. set (kk := norm (lval (mp_p B))) in *. assert (0 < 2 ^ kk) as Pk by lia.
  assert (nbits (lval (mp_p Y1)) = 64 * Z.of_nat (mlen Y1 - 1) + 63) as Hnb.
  { assert (nbits (lval (mp_p Y1)) = 64 * t0 + 63) as E1 by (rewrite VY1, nbits_mul by lia; done). destruct TY1 as (_ & _ & E2).
    rewrite E1 in *. assert (0 <= t0) by (pose proof (nbits_nonneg (lval (mp_p B))); lia). mlia. }
  assert (mlen X1 <= mlen A + 1)%nat as LX1.
  { destruct TX1 as (_ & _ & E1). rewrite VX1, nbits_mul in E1 by lia. mlia. }
  assert ((if nbits (lval (mp_p B)) mod biL <? biL - 1 then biL - 1 - nbits (lval (mp_p B)) mod biL else 0) = kk) as -> by done.
  eapply pspec_mono; [|apply (div_core_spec X1 Y1 T1 T2 (mlen A + 2) (mlen Y1 - 1) M K kk); try done; rewrite ?ET1, ?ET2; try done; try lia; rewrite VX1, VY1; nia].
  intros [[ZQ X] k] (-> & S1 & L1 & LZ & O1 & N1 & R1 & E1). rewrite VX1, VY1 in *.
  assert (lval (mp_p A) * 2 ^ kk = lval (mp_p ZQ) * lval (mp_p B) * 2 ^ kk + mval X) as E2 by lia.
  assert (mval X = (lval (mp_p A) - lval (mp_p ZQ) * lval (mp_p B)) * 2 ^ kk) as E3 by lia. rewrite E3 in R1.
  assert (0 <= lval (mp_p A) - lval (mp_p ZQ) * lval (mp_p B) < lval (mp_p B)) as R2 by (clear - R1 Pk; nia).
  pose proof (Z.div_unique_pos (lval (mp_p A)) (lval (mp_p B)) (lval (mp_p ZQ)) _ R2 ltac:(lia)) as Eq.
  pose proof (Z.mod_unique_pos (lval (mp_p A)) (lval (mp_p B)) (lval (mp_p ZQ)) _ R2 ltac:(lia)) as Er.
  rewrite <- Er. split_and!; (done || lia || congruence).
Qed.
End main.

(** ** Quotient and remainder *)

Lemma quot_signs s s' a b : sign s -> sign s' -> 0 <= a -> 0 < b -> Z.quot (s * a) (s' * b) = s * s' * (a / b).
Proof.
  intros [-> | ->] [-> | ->] Ha Hb; rewrite ?Z.mul_1_l, ?Z.mul_opp_l, ?Z.mul_1_l, ?Z.quot_opp_l, ?Z.quot_opp_r, ?Z.quot_div_nonneg by lia; lia.
Qed.
Lemma rem_signs s s' a b : sign s -> sign s' -> 0 <= a -> 0 < b -> Z.rem (s * a) (s' * b) = s * (a mod b).
Proof.
  intros [-> | ->] [-> | ->] Ha Hb; rewrite ?Z.mul_1_l, ?Z.mul_opp_l, ?Z.mul_1_l, ?Z.rem_opp_l', ?Z.rem_opp_r', ?Z.rem_mod_nonneg by lia; lia.
Qed.

Section quotient.
Context {ml : malloc}.

(** What an optional destination becomes. *)
Definition odest (v : Z) (lo : shmpi -> nat) (M : nat) (D D' : option shmpi) : Prop :=
  match D, D' with None, None => True | Some d, Some d' => sum_res v (lo d) (Nat.max (mlen d) M) d' | _, _ => False end.

Definition dspec (K : Z) (m : outcome (option shmpi * option shmpi * Z)) (P : option shmpi -> option shmpi -> Prop) : Prop :=
  exists Q R e, m = Done (Q, R, e) /\ (e = 0 /\ P Q R \/ e = SHMPI_ERR_MALLOC_FAILED /\ nomem K).

(** An operand that is the quotient is overwritten before its sign is used. *)
Definition unaliased (A : darg) (a b : shmpi) (R : option shmpi) : Prop := A = DQ -> mp_s a = 1 /\ mp_s b = 1 /\ R = None.

Lemma dargv_keep A Q Q' R : A <> DQ -> dargv Q' R A = dargv Q R A.
Proof. by destruct A. Qed.
Lemma dargv_darg A Q R a : dargv Q R A = Done a -> A = DQ -> Q = Some a.
Proof. intros H ->. cbn in H. destruct Q; [congruence | done]. Qed.

Lemma ocall_spec K D f v lo M :
  (forall d, D = Some d -> spec K (f d) (sum_res v (lo d) (Nat.max (mlen d) M))) ->
  exists D' e, ocall D f = Done (D', e) /\ (e = 0 /\ odest v lo M D D' \/ e = SHMPI_ERR_MALLOC_FAILED /\ nomem K).
Proof.
  intros Hf. destruct D as [d|]; cbn [ocall].
  - destruct (Hf d eq_refl) as (d' & e & -> & H). cbn [obind fst snd]. by exists (Some d'), e.
  - exists None, 0. split; [done | by left].
Qed.

(** The dividend is smaller than the divisor. *)
Lemma div_small_spec Q R A B a b K (M : nat) :
  dargv Q R A = Done a -> dargv Q R B = Done b -> mpi_ok a -> mpi_ok b -> mval b <> 0 -> lval (mp_p a) < lval (mp_p b) ->
  unaliased A a b R -> (1 <= M)%nat -> lval (mp_p a) < bp M -> (forall r, R = Some r -> Z.of_nat (Nat.max (mlen r) M) <= K) -> 1 <= K ->
  dspec K (shmpi_div_mpi Q R A B)
    (fun Q' R' => odest (Z.quot (mval a) (mval b)) (fun _ => 1%nat) M Q Q' /\ odest (Z.rem (mval a) (mval b)) (fun r => match mp_p a with [] => 0%nat | _ => mlen r end) M R R').
Proof.
  intros EA EB HA HB Hb Hlt Hal HM HaM HK HK1. unfold shmpi_div_mpi. rewrite EA, EB. cbn [obind]. rewrite cmp_zero_spec by done. cbn [obind].
  destruct (Z.eqb_spec (Z.sgn (mval b)) 0); [lia |]. rewrite cmp_abs_spec by auto with mpi. destruct (Z.ltb_spec (Z.sgn (lval (mp_p a) - lval (mp_p b))) 0); [|lia].
  assert (Z.abs (mval a) < Z.abs (mval b)) as Habs by (rewrite !mval_abs by done; lia).
  assert (Z.quot (mval a) (mval b) = 0) as -> by (apply Z.quot_small_iff; lia).
  assert (Z.rem (mval a) (mval b) = mval a) as -> by (apply Z.rem_small_iff; lia).
  destruct (ocall_spec K Q (fun q => shmpi_lset q 0) 0 (fun _ => 1%nat) M) as (Q' & e & -> & HQ).
  { intros q _. eapply spec_mono; [reflexivity | |apply (lset_spec q 0 K); lia]. intros q' ->. change (Z.abs 0) with 0. rewrite zeros_S.
    split; cbn [mp_s mp_p]; [split; [by left | apply limbs_zeros] | unfold mval; cbn [mp_s mp_p]; rewrite lval_zeros; lia | rewrite length_zeros; lia..]. }
  cbn [obind]. destruct HQ as [[-> HQ]|[-> Hno]].
  2: { exists Q', R, SHMPI_ERR_MALLOC_FAILED. split; [done | by right]. }
  cbn [Z.eqb negb]. set (lo := fun r : shmpi => match mp_p a with [] => 0%nat | _ => mlen r end).
  assert (exists a', dargv Q' R A = Done a' /\ (R <> None -> a' = a)) as (a' & -> & Ea').
  { destruct (decide (A = DQ)) as [->|]; [|rewrite (dargv_keep A Q) by done; eauto].
    destruct (Hal eq_refl) as (_ & _ & ->). pose proof (dargv_darg _ _ _ _ EA eq_refl) as ->. destruct Q' as [q'|]; [|done]. exists q'. done. }
  cbn [obind]. destruct (ocall_spec K R (fun r => shmpi_copy r (match A with DR => Self | _ => Other a' end)) (mval a) lo M) as (R' & e & -> & HR).
  { intros r ER. rewrite Ea' by (by rewrite ER). specialize (HK r ER). set (arg := match A with DR => Self | _ => Other a end).
    assert (argv r arg = a) as Ear by (unfold arg; destruct A as [| |]; cbn [argv]; try done; cbn in EA; rewrite ER in EA; congruence).
    destruct arg as [|y]; cbn [argv] in Ear; subst.
    - apply spec_done. split; [done | done | unfold lo; destruct (mp_p a); lia | lia].
    - eapply spec_mono; [reflexivity | |apply (copy_spec r a K); [auto with mpi |]].
      + intros r' HC. split; [exact (copied_ok _ _ _ HA HC) | exact (copied_mval _ _ _ HA HC) | |].
        * unfold lo. destruct (mp_p a) as [|x l] eqn:Ep; [lia |]. rewrite (cp_len _ _ _ HC) by (by rewrite Ep). lia.
        * etransitivity; [apply (cp_le _ _ _ HC) |]. assert (msz a <= M)%nat by (apply sig_msz; auto with mpi). lia.
      + assert (msz a <= M)%nat by (apply sig_msz; auto with mpi). lia. }
  cbn [obind]. exists Q', R', e. split; [done |]. destruct HR as [[-> HR]|[-> Hno]]; [left | right]; auto.
Qed.

(** The remainder is shifted back, gets the sign of the dividend and is copied. *)
Lemma remainder_spec X k r0 sg v K (M : nat) :
  mpi_ok X -> mval X = v * 2 ^ k -> 0 <= k -> 0 <= v < bp M -> (1 <= M)%nat -> sign sg -> Z.of_nat M <= K ->
  (1 <= mlen X)%nat -> spec K (div_rest r0 X k sg) (sum_res (sg * v) (mlen r0) (Nat.max (mlen r0) M)).
Proof.
  intros HX HV Hk Hv HM Hs HK HN. assert (0 < 2 ^ k) as Pk by lia. unfold div_rest.
  eapply spec_chk; [apply (shift_r_spec X k K); [auto with mpi | done | lia] | lia | eauto |]. intros X1 (L1 & V1 & Len1 & _).
  assert (lval (mp_p X1) = v) as EV.
  { rewrite V1, <- (mval_abs X) by done. rewrite HV, Z.abs_eq, Z.div_mul by nia. done. }
  assert (mpi_ok (with_s sg X1)) as O1 by (split; done).
  assert (msz (with_s sg X1) <= M)%nat as Hm by (apply sig_msz; [done | done | cbn [with_s mp_p]; lia]).
  eapply spec_chk; [apply (copy_spec r0 (with_s sg X1) K); [done | lia] | lia | eauto |]. intros r1 HC.
  pose proof (copied_ok _ _ _ O1 HC) as O2. pose proof (copied_mval _ _ _ O1 HC) as V2. unfold mval in V2 at 2. cbn [with_s mp_s mp_p] in V2. rewrite EV in V2.
  assert (mlen r0 <= mlen r1 <= Nat.max (mlen r0) M)%nat as HL.
  { split; [|etransitivity; [apply (cp_le _ _ _ HC) |]; lia]. rewrite (cp_len _ _ _ HC); [lia |]. cbn [with_s mp_p]. intros E. rewrite E in Len1. cbn [length] in Len1. lia. }
  rewrite cmp_zero_spec by done. cbn [obind]. apply spec_done. destruct (Z.eqb_spec (Z.sgn (mval r1)) 0) as [E0|E0].
  - split; [split; [by left | apply O2] | | apply HL..]. unfold mval in *. cbn [with_s mp_s mp_p]. destruct (ok_s _ O2) as [E|E]; rewrite E in *; lia.
  - split; [done | done | apply HL..].
Qed.

Lemma div_big_spec Q R A B a b K (M : nat) :
  dargv Q R A = Done a -> dargv Q R B = Done b -> mpi_ok a -> mpi_ok b -> 0 < lval (mp_p b) <= lval (mp_p a) ->
  unaliased A a b R -> (B = DQ -> mp_s a = 1 /\ mp_s b = 1) -> (mlen a + 2 <= M)%nat -> Z.of_nat (mlen a) < 2 ^ 40 -> Z.of_nat (mlen a) + 4 <= K -> Z.of_nat M <= K ->
  dspec K (shmpi_div_mpi Q R A B)
    (fun Q' R' => odest (Z.quot (mval a) (mval b)) (fun _ => 1%nat) M Q Q' /\ odest (Z.rem (mval a) (mval b)) (fun r => match mp_p a with [] => 0%nat | _ => mlen r end) M R R').
Proof.
  intros EA EB HA HB Hb Hal HBq HM Hsz HK4 HK. unfold shmpi_div_mpi. rewrite EA, EB. cbn [obind]. rewrite cmp_zero_spec by done. cbn [obind].
  pose proof (mval_abs _ HB) as AB. destruct (Z.eqb_spec (Z.sgn (mval b)) 0); [lia |]. rewrite cmp_abs_spec by auto with mpi.
  destruct (Z.ltb_spec (Z.sgn (lval (mp_p a) - lval (mp_p b))) 0); [lia |].
  destruct (div_main_spec a b K) as (r & -> & Hr); [auto with mpi | auto with mpi | done | done | done |]. cbn [obind].
  destruct r as [e|[[ZQ X] k]]; [destruct Hr as [-> Hno]; exists Q, R, SHMPI_ERR_MALLOC_FAILED; split; [done | by right] |].
  destruct Hr as (Hk & S1 & L1 & V1 & Len1 & O1 & N1 & W1). pose proof (lval_range _ (ok_p _ HA)) as Ra.
  pose proof (Z.mod_pos_bound (lval (mp_p a)) (lval (mp_p b)) ltac:(lia)) as Rm.
  assert (mpi_ok ZQ) as OZ by (split; [rewrite S1; by left | done]).
  assert (mp_p ZQ <> []) as NZ by (intros E; rewrite E in Len1; cbn in Len1; lia).
  assert (msz ZQ <= M)%nat as HmZ by (unfold msz; pose proof (sig_le (mp_p ZQ)); lia).
  set (CQ := ocall Q (fun q => shmpi_copy q (Other ZQ))).
  assert (exists Q' e, CQ = Done (Q', e) /\ (e = SHMPI_ERR_MALLOC_FAILED /\ nomem K \/ e = 0 /\
    match Q, Q' with None, None => True | Some q, Some q' => limbs (mp_p q') /\ lval (mp_p q') = lval (mp_p ZQ) /\ mp_s q' = 1 /\ (1 <= mlen q' <= Nat.max (mlen q) M)%nat | _, _ => False end)) as (Q1 & e & EQ & HQ).
  { unfold CQ. destruct Q as [q|]; cbn [ocall]; [|exists None, 0; auto].
    destruct (copy_spec q ZQ K L1 ltac:(lia)) as (q' & e & -> & [[-> HC]|[-> Hno]]); cbn [obind fst snd]; [|exists (Some q'), SHMPI_ERR_MALLOC_FAILED; auto].
    exists (Some q'), 0. split; [done |]. right. split; [done |]. split; [apply HC |]. split; [apply HC |]. rewrite (cp_s _ _ _ HC NZ), (cp_len _ _ _ HC NZ). unfold msz in *. split; [done | lia]. }
  rewrite EQ. cbn [obind]. clear EQ CQ. destruct HQ as [[-> Hno]|[-> HQ]].
  { exists Q1, R, SHMPI_ERR_MALLOC_FAILED. split; [done | by right]. }
  cbn [Z.eqb negb].
  assert (forall Dx x, dargv Q R Dx = Done x -> (Dx = DQ -> mp_s x = 1) -> exists x', dargv Q1 R Dx = Done x' /\ mp_s x' = mp_s x) as HS.
  { intros Dx x Ex Hx. destruct (decide (Dx = DQ)) as [->|]; [|rewrite (dargv_keep Dx Q) by done; eauto].
    pose proof (dargv_darg _ _ _ _ Ex eq_refl) as ->. destruct Q1 as [q1|]; [|done]. exists q1. split; [done |]. rewrite Hx by done. apply HQ. }
  destruct (HS A a EA) as (a' & -> & Sa); [intros ->; by destruct (Hal eq_refl) |].
  destruct (HS B b EB) as (b' & -> & Sb); [intros ->; by destruct (HBq eq_refl) |]. cbn [obind].
  set (Q2 := option_map (with_s (mp_s a' * mp_s b')) Q1).
  assert (odest (Z.quot (mval a) (mval b)) (fun _ => 1%nat) M Q Q2) as HQ2.
  { unfold Q2, odest. destruct Q as [q|], Q1 as [q1|]; try done. cbn [option_map]. destruct HQ as (H1 & H2 & H3 & H4).
    split; cbn [with_s mp_s mp_p]; [split; cbn [with_s mp_s mp_p]; [|done] | | lia | lia].
    - rewrite Sa, Sb. destruct (ok_s _ HA) as [-> | ->], (ok_s _ HB) as [-> | ->]; by (left + right).
    - unfold mval. cbn [with_s mp_s mp_p]. rewrite H2, V1, quot_signs, Sa, Sb by (apply HA || apply HB || lia). done. }
  destruct R as [r0|]; [|exists Q2, None, 0; split; [done | by left]].
  assert (exists a'', dargv Q2 (Some r0) A = Done a'' /\ mp_s a'' = mp_s a) as (a'' & -> & Sa').
  { destruct (decide (A = DQ)) as [->|]; [by destruct (Hal eq_refl) as (_ & _ & ?) |]. rewrite (dargv_keep A Q) by done. eauto. }
  cbn [obind].
  rewrite Sa'. destruct (remainder_spec X k r0 (mp_s a) (lval (mp_p a) mod lval (mp_p b)) K M) as (r1 & e & -> & HR); try done; try lia; [|apply HA|].
  { pose proof (bp_mono (mlen a) M). lia. }
  cbn [obind fst snd]. exists Q2, (Some r1), e. split; [done |]. destruct HR as [[-> HR]|[-> Hno]]; [left | by right]. split; [done |]. split; [done |].
  unfold mval, odest. rewrite rem_signs by (apply HA || apply HB || lia). destruct HR as [H1 H2 H3 H4]. split; [done | done | destruct (mp_p a); lia | done].
Qed.


Lemma div_mpi_spec Q R A B a b K (M : nat) :
  dargv Q R A = Done a -> dargv Q R B = Done b -> mpi_ok a -> mpi_ok b -> mval b <> 0 ->
  unaliased A a b R -> (B = DQ -> mp_s a = 1 /\ mp_s b = 1) -> (mlen a + 2 <= M)%nat -> Z.of_nat (mlen a) < 2 ^ 40 -> Z.of_nat M + 4 <= K ->
  (forall r, R = Some r -> Z.of_nat (mlen r) <= K) ->
  dspec K (shmpi_div_mpi Q R A B)
    (fun Q' R' => odest (Z.quot (mval a) (mval b)) (fun _ => 1%nat) M Q Q' /\ odest (Z.rem (mval a) (mval b)) (fun r => match mp_p a with [] => 0%nat | _ => mlen r end) M R R').
Proof.
  intros EA EB HA HB Hb Hal HBq HM Hsz HK HR. pose proof (mval_abs _ HB). pose proof (lval_range _ (ok_p _ HA)). pose proof (bp_mono (mlen a) M).
  destruct (Z.lt_ge_cases (lval (mp_p a)) (lval (mp_p b))).
  - apply div_small_spec; try done; try lia. intros r Er. specialize (HR r Er). lia.
  - apply div_big_spec; (done || lia).
Qed.

Lemma div_zero_spec Q R A B a b :
  dargv Q R A = Done a -> dargv Q R B = Done b -> mpi_ok b -> mval b = 0 -> shmpi_div_mpi Q R A B = Done (Q, R, SHMPI_ERR_DIVISION_BY_ZERO).
Proof. intros EA EB HB Hb. unfold shmpi_div_mpi. rewrite EA, EB. cbn [obind]. rewrite cmp_zero_spec by done. by rewrite Hb. Qed.

(** ** Remainders *)

Lemma keeps_self X lo : (1 <= mlen X)%nat -> (lo <= mlen X)%nat -> keeps lo X X.
Proof. intros H ?. right. split; [done |]. intros E. rewrite E in H. cbn in H. lia. Qed.
Lemma keeps_other X B lo : (lo <= mlen X)%nat -> (1 <= mlen B)%nat -> keeps lo X B.
Proof. intros ? H. right. split; [done |]. intros E. rewrite E in H. cbn in H. lia. Qed.

Lemma pos_len X : mpi_ok X -> mval X <> 0 -> (1 <= mlen X)%nat.
Proof. intros _ H. unfold mval in H. destruct (mp_p X); cbn in *; [lia | lia]. Qed.

Lemma mod_up_spec fuel R B lo M K :
  mpi_ok R -> mpi_ok B -> 0 < mval B -> - (Z.of_nat fuel * mval B) <= mval R -> (lo <= mlen R <= M)%nat -> (1 <= M)%nat -> Z.abs (mval R) + mval B < bp M -> 2 * mval B < bp M -> Z.of_nat M <= K ->
  spec K (mod_up fuel R (Other B)) (sum_res (if mval R <? 0 then mval R mod mval B else mval R) lo M).
Proof.
  intros HR HB Hb. revert R HR. induction fuel as [|f IH]; intros R HR Hlow HL HM1 HM HM2 HK; cbn [mod_up]; rewrite cmp_zero_spec by done; cbn [obind];
    destruct (Z.ltb_spec (Z.sgn (mval R)) 0), (Z.ltb_spec (mval R) 0); try lia; try (apply spec_done; split; (done || lia)).
  pose proof (pos_len R HR ltac:(lia)). pose proof (pos_len B HB ltac:(lia)).
  eapply spec_chk; [apply (add_mpi_spec R Self (Other B) lo M K); cbn [argv]; try done; try lia; [by right | apply keeps_self; lia | apply keeps_other; lia] | lia | eauto |].
  intros R1 [O1 V1 L1 M1]. cbn [argv] in V1.
  eapply spec_mono; [reflexivity | |apply (IH R1); (done || lia)]. intros R2 [O2 V2 L2 M2]. split; try done. rewrite V2, V1.
  destruct (Z.ltb_spec (mval R + mval B) 0).
  - rewrite <- (Z_mod_plus_full (mval R) 1 (mval B)). f_equal. lia.
  - symmetry. rewrite <- (Z_mod_plus_full (mval R) 1 (mval B)). rewrite Z.mod_small by lia. lia.
Qed.

Lemma mod_down_spec fuel R B lo M K :
  mpi_ok R -> mpi_ok B -> 0 < mval B -> 0 <= mval R < (Z.of_nat fuel + 1) * mval B -> (lo <= mlen R <= M)%nat -> (1 <= M)%nat -> mval R + mval B < bp M -> Z.of_nat M <= K ->
  spec K (mod_down fuel R (Other B)) (sum_res (mval R mod mval B) lo M).
Proof.
  intros HR HB Hb. revert R HR. induction fuel as [|f IH]; intros R HR Hlow HL HM1 HM HK; cbn [mod_down argv]; rewrite cmp_mpi_spec by done;
    destruct (Z.leb_spec 0 (Z.sgn (mval R - mval B))); try lia; try (apply spec_done; split; [done | symmetry; apply Z.mod_small; lia | lia | lia]).
  pose proof (pos_len R HR ltac:(lia)). pose proof (pos_len B HB ltac:(lia)).
  eapply spec_chk; [apply (sub_mpi_spec R Self (Other B) lo M K); cbn [argv]; try done; try lia; [apply keeps_self; lia | apply keeps_other; lia] | lia | eauto |].
  intros R1 [O1 V1 L1 M1]. cbn [argv] in V1.
  eapply spec_mono; [reflexivity | |apply (IH R1); (done || lia)]. intros R2 [O2 V2 L2 M2]. split; try done. rewrite V2, V1.
  symmetry. rewrite <- (Z_mod_plus_full (mval R) (-1) (mval B)). by f_equal.
Qed.

Lemma rem_to_mod a b : 0 < b -> (if Z.rem a b <? 0 then Z.rem a b mod b else Z.rem a b) mod b = a mod b /\ - b <= Z.rem a b < b.
Proof.
  intros Hb. pose proof (Z.quot_rem' a b) as E. pose proof (Z.rem_bound_abs a b ltac:(lia)). split; [|lia].
  replace (a mod b) with (Z.rem a b mod b) by (rewrite E at 2; rewrite Z.add_comm, Z.mul_comm; symmetry; apply Z_mod_plus_full).
  case_cmp; [by rewrite Z.mod_mod by lia | done].
Qed.

Lemma mod_mpi_spec R A B K (M : nat) :
  let a := argv R A in
  mpi_ok a -> mpi_ok B -> 0 < mval B -> (mlen a + 2 <= M)%nat -> (mlen R <= M)%nat -> 2 * mval B < bp M -> Z.of_nat (mlen a) < 2 ^ 40 -> Z.of_nat M + 4 <= K ->
  spec K (shmpi_mod_mpi R A (Other B)) (sum_res (mval a mod mval B) (match mp_p a with [] => 0%nat | _ => mlen R end) M).
Proof.
  intros a HA HB Hb HM HR H2 Hsz HK. unfold shmpi_mod_mpi. cbn [argv]. rewrite cmp_zero_spec by done. cbn [obind].
  destruct (Z.ltb_spec (Z.sgn (mval B)) 0); [lia |]. destruct (rem_to_mod (mval a) (mval B) Hb) as [EM RM].
  set (lo := match mp_p a with [] => 0%nat | _ => mlen R end).
  assert (spec K (rem_of R (shmpi_div_mpi None (Some R) (rarg A) (rarg (Other B)))) (sum_res (Z.rem (mval a) (mval B)) lo M)) as HD.
  { destruct (div_mpi_spec None (Some R) (rarg A) (DOther B) a B K M) as (Q' & R' & e & E & HE); try done; try lia.
    - by destruct A.
    - by destruct A.
    - intros r [= <-]. lia.
    - unfold rem_of. cbn [rarg]. rewrite E. cbn [obind]. exists (default R R'), e. split; [done |]. destruct HE as [[-> [_ HE]]|HE]; [|by right].
      left. split; [done |]. unfold odest in HE. destruct R' as [r'|]; [|done]. cbn [default id from_option]. destruct HE as [H1 H3 H4 H5]. split; try done. rewrite Nat.max_r in H5 by lia. done. }
  eapply spec_chk; [exact HD | lia | eauto |]. intros R1 [O1 V1 L1 M1].
  eapply spec_chk; [apply (mod_up_spec 2 R1 B lo M K); (done || lia) | lia | eauto |]. intros R2 [O2 V2 L2 M2]. rewrite V1 in V2.
  pose proof (Z.mod_pos_bound (Z.rem (mval a) (mval B)) (mval B) Hb).
  eapply spec_mono; [reflexivity | |apply (mod_down_spec 2 R2 B lo M K); try done; try lia; rewrite V2; case_cmp; lia].
  intros R3 [O3 V3 L3 M3]. split; try done. by rewrite V3, V2, EM.
Qed.

End quotient.

(** ** Division *)

(** A destination that is given holds [v], one that is not stays away. *)
Definition holds (v : Z) (D D' : option shmpi) : Prop :=
  match D, D' with None, None => True | Some _, Some d => mpi_ok d /\ mval d = v | _, _ => False end.

Lemma odest_holds v lo M D D' : odest v lo M D D' -> holds v D D'.
Proof. destruct D, D'; cbn; [|done..]. by intros [? ? _ _]. Qed.

(** C5: the schoolbook division gives the quotient and the remainder of the
    values, rounded towards zero with the sign of the dividend on the remainder, for
    operands of any size and sign, also when an operand is the remainder; a divisor
    of zero is reported and changes nothing.  The estimate of a quotient limb is
    corrected in the stated number of rounds and no access leaves a block. *)
Theorem shmpi_div_refines {ml : malloc} Q R A B a b K :
  dargv Q R A = Done a -> dargv Q R B = Done b -> A <> DQ -> B <> DQ -> mpi_ok a -> mpi_ok b ->
  Z.of_nat (mlen a) < 2 ^ 40 -> Z.of_nat (mlen a) + 6 <= K -> (forall r, R = Some r -> Z.of_nat (mlen r) <= K) ->
  if mval b =? 0 then shmpi_div_mpi Q R A B = Done (Q, R, SHMPI_ERR_DIVISION_BY_ZERO)
  else dspec K (shmpi_div_mpi Q R A B) (fun Q' R' => holds (Z.quot (mval a) (mval b)) Q Q' /\ holds (Z.rem (mval a) (mval b)) R R').
Proof.
  intros Ha Hb HA HB Hoa Hob Hl HK HR. case_cmp as [E|E]; [by apply (div_zero_spec Q R A B a b) |].
  destruct (div_mpi_spec Q R A B a b K (mlen a + 2)) as (Q' & R' & e & -> & H); try done; [lia.. |].
  exists Q', R', e. split; [done |]. destruct H as [[-> [H1 H2]]|H]; [left | by right].
  split; [done |]. split; by eapply odest_holds.
Qed.

(** Minus the square of the base divided by a number of two limbs: both results. *)
Lemma shmpi_div_refines_witness :
  exists Q' R', @shmpi_div_mpi ex_malloc (Some shmpi_init) (Some shmpi_init) (DOther (mk_mpi (-1) [0; 0; 1])) (DOther (mk_mpi 1 [3; 5])) = Done (Q', R', 0) /\
    holds (Z.quot (- 2 ^ 128) (3 + 5 * 2 ^ 64)) (Some shmpi_init) Q' /\ holds (Z.rem (- 2 ^ 128) (3 + 5 * 2 ^ 64)) (Some shmpi_init) R'.
Proof.
  assert (mpi_ok (mk_mpi (-1) [0; 0; 1])) as Ha by (by apply mpi_okb_ok). assert (mpi_ok (mk_mpi 1 [3; 5])) as Hb by (by apply mpi_okb_ok).
  assert (forall r, Some shmpi_init = Some r -> Z.of_nat (mlen r) <= 9) as HR by (intros r [= <-]; done).
  pose proof (@shmpi_div_refines ex_malloc (Some shmpi_init) (Some shmpi_init) (DOther (mk_mpi (-1) [0; 0; 1])) (DOther (mk_mpi 1 [3; 5]))
    _ _ 9 eq_refl eq_refl ltac:(done) ltac:(done) Ha Hb ltac:(done) ltac:(done) HR) as H.
  replace (mval (mk_mpi 1 [3; 5]) =? 0) with false in H by reflexivity.
  destruct H as (Q' & R' & e & H1 & [[-> H2]|[_ [(n & _ & Hn)|H2]]]); [|discriminate|discriminate].
  exists Q', R'. split; [exact H1 | exact H2].
Defined.

(** When the dividend is the quotient its sign is read after it was set: [-7]
    divided by [2] in place is [3]. *)
Theorem shmpi_div_inplace_sign :
  @shmpi_div_mpi ex_malloc (Some (mk_mpi (-1) [7])) None DQ (DOther (mk_mpi 1 [2])) = Done (Some (mk_mpi 1 [3]), None, 0).
Proof. vm_compute. reflexivity. Qed.

(** ** The remainder by an integer *)

Lemma mod_half_spec y h b : 0 <= y < b -> b <= 2 ^ 32 -> 0 <= h < 2 ^ 32 -> mod_half y h b = (y * 2 ^ 32 + h) mod b.
Proof.
  intros Hy Hb Hh. unfold mod_half, biH. rewrite Z.shiftl_mul_pow2 by lia.
  rewrite (wrap_small 64 (y * 2 ^ 32)) by (split; nia).
  rewrite <- (Z.shiftl_mul_pow2 y 32), lor_add by (done || lia).
  rewrite ?Z.shiftl_mul_pow2 by lia. set (v := y * 2 ^ 32 + h). assert (0 <= v < 2 ^ 64) by (subst v; nia).
  pose proof (Z.div_mod v b ltac:(lia)). pose proof (Z.mod_pos_bound v b ltac:(lia)).
  assert (0 <= v / b * b) by (apply Z.mul_nonneg_nonneg; [apply Z.div_pos |]; lia).
  rewrite (wrap_small 64 (v / b * b)) by (split; lia). rewrite wrap_small by (split; lia). lia.
Qed.

Lemma mod_limbs_spec l b : limbs l -> 0 < b <= 2 ^ 32 -> mod_limbs l b = lval l mod b.
Proof.
  intros Hl Hb. induction Hl as [|x l [Hx1 Hx2] Hl IH]; cbn [mod_limbs lval]; [by rewrite Z.mod_0_l by lia |].
  rewrite IH. unfold biH. rewrite Z.shiftl_mul_pow2, !Z.shiftr_div_pow2 by lia.
  replace (u64 (x * 2 ^ 32) / 2 ^ 32) with (x mod 2 ^ 32)
    by (change u64 with (wrap 64); unfold wrap; change (2 ^ 64) with (2 ^ 32 * 2 ^ 32); rewrite Z.mul_mod_distr_r by lia; by rewrite Z.div_mul by lia).
  pose proof (Z.mod_pos_bound (lval l) b ltac:(lia)). pose proof (Z.mod_pos_bound x (2 ^ 32) ltac:(lia)).
  assert (0 <= x / 2 ^ 32 < 2 ^ 32) by (split; [apply Z.div_pos; lia | apply Z.div_lt_upper_bound; lia]).
  rewrite (mod_half_spec (lval l mod b)) by lia. rewrite mod_half_spec by (try apply Z.mod_pos_bound; lia).
  rewrite Z.add_mod, Z.mul_mod_idemp_l, <- Z.add_mod by lia. rewrite Z.mul_add_distr_r, <- Z.mul_assoc.
  rewrite <- Z.add_assoc, Z.add_mod, Z.mul_mod_idemp_l, <- Z.add_mod by lia. f_equal.
  pose proof (Z.div_mod x (2 ^ 32) ltac:(lia)). unfold beta. lia.
Qed.

(** For a divisor of at most 32 bits the remainder by an integer is that of the
    values, never negative. *)
Lemma mod_int_spec A b :
  mpi_ok A -> 0 < b <= 2 ^ 32 -> mp_p A <> [] \/ b <> 2 -> shmpi_mod_int A b = Done (Some (mval A mod b), 0).
Proof.
  intros HA Hb Hne. unfold shmpi_mod_int. pose proof (ok_p _ HA) as Hl.
  destruct (Z.eqb_spec b 0); [lia |]. destruct (Z.ltb_spec b 0); [lia |].
  destruct (Z.eqb_spec b 1) as [->|]; [by rewrite Z.mod_1_r |]. destruct (Z.eqb_spec b 2) as [->|].
  - destruct (mp_p A) as [|x l] eqn:E; [by destruct Hne |]. unfold limb. cbn [lookup list_lookup obind]. rewrite land_1. do 3 f_equal.
    unfold mval. rewrite E. cbn [lval]. unfold beta. change (2 ^ 64) with (2 * 2 ^ 63).
    destruct (ok_s _ HA) as [-> | ->]; [rewrite <- (Z_mod_plus_full x (2 ^ 63 * lval l) 2); f_equal; lia |].
    rewrite <- (Z_mod_plus_full (-1 * _) (x + 2 ^ 63 * lval l) 2). f_equal. lia.
  - rewrite mod_limbs_spec by (done || lia). do 3 f_equal. unfold mval.
    pose proof (Z.mod_pos_bound (lval (mp_p A)) b ltac:(lia)).
    destruct (ok_s _ HA) as [-> | ->]; cbn [Z.ltb Z.compare andb]; rewrite ?Z.mul_1_l; [done |].
    replace (-1 * lval (mp_p A)) with (- lval (mp_p A)) by lia. destruct (Z.eqb_spec (lval (mp_p A) mod b) 0) as [E|E]; cbn [negb].
    + symmetry. by rewrite Z.mod_opp_l_z by lia.
    + rewrite Z.mod_opp_l_nz by lia. apply wrap_small. split; lia.
Qed.

(** The quotient limbs of a larger divisor are cut off: [2^64] is taken for a
    multiple of [2^40 + 1]. *)
Theorem shmpi_mod_int_large :
  shmpi_mod_int (mk_mpi 1 [0; 1]) (2 ^ 40 + 1) = Done (Some 0, 0) /\ 2 ^ 64 mod (2 ^ 40 + 1) <> 0.
Proof. vm_compute. split; [reflexivity | discriminate]. Qed.
