(* ===== verification/ShMpiText.v ===== *)
(** * Multi-precision integers: text and binary forms

    Models the conversions of [share-lib/mem/shmem_mpi.c] between numbers and
    text in the bases 2 to 16, and between numbers and big-endian byte strings.

    A text is the list of its characters without the terminator.  A buffer is
    given by its size: a write behind its end is a [Fault]. *)

From Stdlib Require Import ZArith Lia String.
From stdpp Require Import base numbers list.
From S2P Require Import Prelude ShMpi ShMpiDiv.

Open Scope Z_scope.
Open Scope share_scope.

(** ** Reading text *)

(** The digit [255] stands for no digit. *)
Definition digit_of (c : Z) : Z :=
  let d := 255 in
  let d := if (48 <=? c) && (c <=? 57) then c - 48 else d in
  let d := if (65 <=? c) && (c <=? 70) then c - 55 else d in
  if (97 <=? c) && (c <=? 102) then c - 87 else d.

(** The digit and the error. *)
Definition shmpi_get_digit (radix c : Z) : Z * Z :=
  let d := digit_of c in (d, if u64 radix <=? d then SHMPI_ERR_INVALID_CHARACTER else 0).

Section operations.
Context {ml : malloc}.

(** [X->p[i] |= v]. *)
Definition or_limb (X : shmpi) (i : nat) (v : Z) : outcome shmpi :=
  match mp_p X !! i with
  | None => Fault
  | Some x => Done (with_p (<[i := Z.lor x v]> (mp_p X)) X)
  end.

(** Base 16: the characters from the last to the first, [j] of them read. *)
Fixpoint read_hex (X : shmpi) (s : list Z) (j : nat) : outcome (shmpi * Z) :=
  match s with
  | [] => Done (X, 0)
  | c :: s' =>
      if match s' with [] => c =? 45 | _ => false end then Done (with_s (-1) X, 0)
      else
        let '(d, e) := shmpi_get_digit 16 c in
        if negb (e =? 0) then Done (X, e)
        else
          X <-! or_limb X (j / 16) (u64 (Z.shiftl d (Z.shiftl (Z.of_nat (j mod 16)) 2)));
          read_hex X s' (S j)
  end.

(** The other bases: from the first character on. *)
Fixpoint read_digits (X T : shmpi) (radix : Z) (s : list Z) (first : bool) : outcome (shmpi * Z) :=
  match s with
  | [] => Done (X, 0)
  | c :: s' =>
      if first && (c =? 45) then read_digits (with_s (-1) X) T radix s' false
      else
        let '(d, e) := shmpi_get_digit radix c in
        if negb (e =? 0) then Done (X, e)
        else
          T <-? shmpi_mul_int T (Other X) radix leaving X;
          X <-? (if mp_s X =? 1 then shmpi_add_int X (Other T) d else shmpi_sub_int X (Other T) d);
          read_digits X T radix s' false
  end.

Definition shmpi_read_string (X : shmpi) (radix : Z) (s : list Z) : outcome (shmpi * Z) :=
  if (radix <? 2) || (16 <? radix) then Done (X, SHMPI_ERR_BAD_INPUT_DATA)
  else if radix =? 16 then
    X <-? shmpi_grow X (BITS_TO_LIMBS (u64 (Z.shiftl (Z.of_nat (length s)) 2)));
    X <-? shmpi_lset X 0;
    read_hex X (rev s) 0
  else
    X <-? shmpi_lset X 0;
    read_digits X shmpi_init radix s true.

(** ** Writing text *)

(** What is in the buffer so far, the last character first. *)
Definition put_char (size : Z) (c : Z) (out : list Z) : outcome (list Z) :=
  if Z.of_nat (length out) <? size then Done (c :: out) else Fault.

Definition hexdigit (c : Z) : Z := nth (Z.to_nat c) (cstr "0123456789ABCDEF") 0.

Definition digit_char (r : Z) : Z := if r <? 10 then r + 48 else r + 55.

(** The digits of [T]; [T] is divided by the base until it is zero.  The result
    is [T], what is written, and the error. *)
Fixpoint shmpi_write_hlp (fuel : nat) (T : shmpi) (radix size : Z) (out : list Z) : outcome (shmpi * list Z * Z) :=
  match fuel with
  | O => Fault
  | S f =>
      if (radix <? 2) || (16 <? radix) then Done (T, out, SHMPI_ERR_BAD_INPUT_DATA)
      else
        m <-! shmpi_mod_int T radix;
        match m with
        | (Some r, 0) =>
            w <-! shmpi_div_int (Some T) None DQ radix;
            let '(q, _, e) := w in
            let T := default T q in
            if negb (e =? 0) then Done (T, out, e)
            else
              c <-! shmpi_cmp_int T 0;
              w <-! (if negb (c =? 0) then shmpi_write_hlp f T radix size out else Done (T, out, 0));
              let '(T, out, e) := w in
              if negb (e =? 0) then Done (T, out, e)
              else out <-! put_char size (digit_char r) out; Done (T, out, 0)
        | (_, e) => Done (T, out, e)
        end
  end.

(** Base 16: byte [j - 1] of limb [i - 1]; [k] says that a digit is written. *)
Fixpoint write_hex_limb (i j : nat) (x size : Z) (k : bool) (out : list Z) : outcome (bool * list Z) :=
  match j with
  | O => Done (k, out)
  | S j' =>
      let c := Z.land (Z.shiftr x (Z.shiftl (Z.of_nat j') 3)) 255 in
      if (c =? 0) && negb k && negb (i + j =? 2)%nat then write_hex_limb i j' x size k out
      else
        out <-! put_char size (hexdigit (c / 16)) out;
        out <-! put_char size (hexdigit (c mod 16)) out;
        write_hex_limb i j' x size true out
  end.
Fixpoint write_hex (l : list Z) (size : Z) (k : bool) (out : list Z) : outcome (list Z) :=
  match l with
  | [] => Done out
  | x :: l' => r <-! write_hex_limb (length l) (Z.to_nat ciL) x size k out; write_hex l' size (fst r) (snd r)
  end.

(** The size a buffer must have. *)
Definition write_size (X : shmpi) (radix : Z) : Z :=
  let n := shmpi_msb X in
  let n := if 4 <=? radix then Z.shiftr n 1 else n in
  let n := if 16 <=? radix then Z.shiftr n 1 else n in
  n + 3.

(** The result is the text with its terminator, the new [slen], and the error;
    each digit takes at least one bit of the number. *)
Definition shmpi_write_string (X : shmpi) (radix slen : Z) : outcome (list Z * Z * Z) :=
  if (radix <? 2) || (16 <? radix) then Done ([], slen, SHMPI_ERR_BAD_INPUT_DATA)
  else if slen <? write_size X radix then Done ([], write_size X radix, SHMPI_ERR_BUFFER_TOO_SMALL)
  else
    out <-! (if mp_s X =? -1 then put_char slen 45 [] else Done []);
    let finish out := out <-! put_char slen 0 out; Done (rev out, Z.of_nat (length out), 0) in
    if radix =? 16 then out <-! write_hex (rev (mp_p X)) slen false out; finish out
    else
      w <-! shmpi_copy shmpi_init (Other X);
      let '(T, e) := w in
      if negb (e =? 0) then Done (rev out, slen, e)
      else
        let T := if mp_s T =? -1 then with_s 1 T else T in
        w <-! shmpi_write_hlp (S (Z.to_nat (shmpi_msb X))) T radix slen out;
        let '(_, out, e) := w in
        if negb (e =? 0) then Done (rev out, slen, e) else finish out.

(** ** Binary form *)

(** [for( n = 0; n < buflen; n++ ) if( buf[n] != 0 ) break;] *)
Fixpoint skip_zeros (buf : list Z) : list Z :=
  match buf with
  | [] => []
  | c :: buf' => if c =? 0 then skip_zeros buf' else buf
  end.

(** The bytes from the last on. *)
Fixpoint read_bytes (X : shmpi) (s : list Z) (j : nat) : outcome shmpi :=
  match s with
  | [] => Done X
  | c :: s' =>
      X <-! or_limb X (j / 8) (u64 (Z.shiftl c (Z.shiftl (Z.of_nat (j mod 8)) 3)));
      read_bytes X s' (S j)
  end.

Definition shmpi_read_binary (X : shmpi) (buf : list Z) : outcome (shmpi * Z) :=
  let rest := skip_zeros buf in
  X <-? shmpi_grow X (CHARS_TO_LIMBS (Z.of_nat (length rest)));
  X <-? shmpi_lset X 0;
  X <-! read_bytes X (rev rest) 0;
  Done (X, 0).

(** The last [n] bytes of the buffer, the lowest first. *)
Fixpoint bytes_out (l : list Z) (n j : nat) : outcome (list Z) :=
  match n with
  | O => Done []
  | S n' =>
      x <-! limb l (j / 8);
      r <-! bytes_out l n' (S j);
      Done (u8 (Z.shiftr x (Z.shiftl (Z.of_nat (j mod 8)) 3)) :: r)
  end.

(** The result is the buffer and the error. *)
Definition shmpi_write_binary (X : shmpi) (buf : list Z) : outcome (list Z * Z) :=
  let n := Z.to_nat (shmpi_size X) in
  if (length buf <? n)%nat then Done (buf, SHMPI_ERR_BUFFER_TOO_SMALL)
  else b <-! bytes_out (mp_p X) n 0; Done (zeros (length buf - n) ++ rev b, 0).

End operations.
