(* ===== verification/ShMpiTextOk.v ===== *)
(** * Multi-precision integers: the text and binary forms are read back

    The binary form of [ShMpiText.v] is the big-endian form of the absolute value,
    and the text form is the sign and the digits of the value; both are read back to
    the value that was written. *)

From Stdlib Require Import ZArith Lia String.
From stdpp Require Import base numbers list.
From S2P Require Import Prelude ShMpi ShMpiVal ShMpiArith ShMpiBits ShMpiDiv ShMpiDivOk ShMpiText.

Open Scope Z_scope.
Open Scope share_scope.

(** ** Digits at their place *)

(** [X->p[i] |= c << s], for bits above the value. *)
Lemma or_limb_spec X i s c :
  limbs (mp_p X) -> (i < mlen X)%nat -> 0 <= s -> 0 <= c -> c * 2 ^ s < 2 ^ 64 -> lval (mp_p X) < bp i * 2 ^ s ->
  exists X', or_limb X i (u64 (Z.shiftl c s)) = Done X' /\ limbs (mp_p X') /\ mp_s X' = mp_s X /\ mlen X' = mlen X /\ lval (mp_p X') = lval (mp_p X) + bp i * (c * 2 ^ s).
Proof.
  intros Hl Hi Hs Hc Hcs Hv. destruct (lookup_lt_is_Some_2 _ _ Hi) as [x Hx]. unfold or_limb. rewrite Hx.
  assert (0 < 2 ^ s) as Ps by lia. pose proof (limbs_lookup _ _ _ Hl Hx) as [Hx1 Hx2].
  pose proof (lval_at _ _ _ Hx) as Ha. pose proof (lval_take_range i _ Hl). pose proof (lval_range _ (limbs_drop (S i) _ Hl)).
  pose proof (bp_pos i) as Pb. pose proof beta_pos.
  assert (x < 2 ^ s) as Hxs.
  { apply (Z.mul_lt_mono_pos_l (bp i)); [done |]. assert (0 <= bp i * (beta * lval (drop (S i) (mp_p X)))) by (apply Z.mul_nonneg_nonneg; nia). lia. }
  rewrite wrap_small by (rewrite Z.shiftl_mul_pow2 by lia; split; nia). rewrite Z.lor_comm, lor_add by (done || lia).
  assert (is_uint 64 (c * 2 ^ s + x)) as Hu.
  { split; [nia |]. assert (s < 64 \/ c = 0) as [Hs64| ->] by (destruct (Z.lt_ge_cases s 64); [by left | right; pose proof (Z.pow_le_mono_r 2 64 s); nia]); [|lia].
    assert (2 ^ 64 = 2 ^ (64 - s) * 2 ^ s) as E64 by (rewrite <- Z.pow_add_r by lia; by replace (64 - s + s) with 64 by lia).
    rewrite E64 in *. assert (c + 1 <= 2 ^ (64 - s)) by (apply Z.le_succ_l; by apply (Z.mul_lt_mono_pos_r (2 ^ s))).
    pose proof (Z.mul_le_mono_nonneg_r (c + 1) (2 ^ (64 - s)) (2 ^ s)). lia. }
  destruct (set_limb_done X i (c * 2 ^ s + x) x Hx Hu Hl) as (X' & _ & -> & HL & HV).
  eexists. split; [done |]. cbn [mp_p mp_s with_p] in *. rewrite length_insert. split_and!; try done. rewrite HV. ring.
Qed.

(** ** Bytes *)

Lemma bp_byte i s : 0 <= s -> bp i * 2 ^ s = 2 ^ (64 * Z.of_nat i + s).
Proof. intros. rewrite bp_pow, <- Z.pow_add_r by lia. done. Qed.

Lemma byte_place j : 64 * Z.of_nat (j / 8) + Z.shiftl (Z.of_nat (j mod 8)) 3 = 8 * Z.of_nat j.
Proof. rewrite Z.shiftl_mul_pow2 by lia. rewrite Nat2Z.inj_div, Nat2Z.inj_mod. change (2 ^ 3) with 8. mlia. Qed.

Lemma read_bytes_spec s : forall X j,
  is_bytes s -> limbs (mp_p X) -> lval (mp_p X) < 2 ^ (8 * Z.of_nat j) -> (j + length s <= 8 * mlen X)%nat ->
  exists X', read_bytes X s j = Done X' /\ limbs (mp_p X') /\ mp_s X' = mp_s X /\ mlen X' = mlen X /\
    lval (mp_p X') = lval (mp_p X) + 2 ^ (8 * Z.of_nat j) * of_le s.
Proof.
  induction s as [|c s IH]; intros X j Hs Hl Hv Hj; cbn [read_bytes of_le length] in *.
  - exists X. split_and!; (done || lia).
  - apply Forall_cons in Hs as [Hc Hs]. pose proof (byte_place j) as Ep.
    assert (j / 8 < mlen X)%nat as Hi by (apply Nat.Div0.div_lt_upper_bound; lia).
    set (sh := Z.shiftl (Z.of_nat (j mod 8)) 3) in *. set (i := (j / 8)%nat) in *.
    assert (0 <= sh <= 56) as Hsh by (pose proof (Nat.mod_upper_bound j 8); unfold sh; rewrite Z.shiftl_mul_pow2 by lia; lia).
    assert (0 <= c < 256) as Hc' by rlia.
    assert (c * 2 ^ sh < 2 ^ 64) as Hcs.
    { pose proof (Z.pow_le_mono_r 2 sh 56 ltac:(lia) ltac:(lia)). assert (0 < 2 ^ sh) by lia. change (2 ^ 64) with (256 * 2 ^ 56). nia. }
    destruct (or_limb_spec X i sh c) as (X1 & -> & L1 & S1 & N1 & V1); try done; try lia; [by rewrite bp_byte, Ep by lia |].
    cbn [obind]. assert (lval (mp_p X1) = lval (mp_p X) + 2 ^ (8 * Z.of_nat j) * c) as E1.
    { rewrite V1, (Z.mul_comm c), Z.mul_assoc, bp_byte, Ep by lia. lia. }
    destruct (IH X1 (S j)) as (X2 & -> & L2 & S2 & N2 & V2); try done; try lia.
    { rewrite E1. replace (8 * Z.of_nat (S j)) with (8 * Z.of_nat j + 8) by lia. rewrite Z.pow_add_r by lia. nia. }
    exists X2. split_and!; try done; try congruence. rewrite V2, E1. replace (8 * Z.of_nat (S j)) with (8 * Z.of_nat j + 8) by lia.
    rewrite Z.pow_add_r by lia. change (2 ^ 8) with 256. ring.
Qed.

Lemma write_byte_spec l j :
  limbs l -> (j < 8 * length l)%nat ->
  exists x, limb l (j / 8) = Done x /\ u8 (Z.shiftr x (Z.shiftl (Z.of_nat (j mod 8)) 3)) = (lval l / 2 ^ (8 * Z.of_nat j)) mod 256.
Proof.
  intros Hl Hj. assert (j / 8 < length l)%nat as Hi by (apply Nat.Div0.div_lt_upper_bound; lia).
  pose proof (byte_place j) as Ep. set (sh := Z.shiftl (Z.of_nat (j mod 8)) 3) in *. set (i := (j / 8)%nat) in *.
  assert (0 <= sh <= 56) as Hsh by (pose proof (Nat.mod_upper_bound j 8); unfold sh; rewrite Z.shiftl_mul_pow2 by lia; lia).
  destruct (limb_done l i Hi) as (x & -> & Hx). exists x. split; [done |].
  rewrite (lval_at l i x Hx), Z.shiftr_div_pow2, <- Ep, <- bp_byte by lia.
  pose proof (lval_take_range i l Hl). pose proof (bp_pos i). assert (0 < 2 ^ sh) by lia.
  rewrite <- Z.div_div by lia. rewrite (Z.mul_comm (bp i)), Z.div_add, (Z.div_small (lval (take i l))) by lia. rewrite Z.add_0_l.
  unfold beta. replace (2 ^ 64) with (2 ^ (56 - sh) * 256 * 2 ^ sh) by (change 256 with (2 ^ 8); rewrite <- !Z.pow_add_r by lia; f_equal; lia).
  replace (2 ^ (56 - sh) * 256 * 2 ^ sh * lval (drop (S i) l)) with (2 ^ (56 - sh) * lval (drop (S i) l) * 256 * 2 ^ sh) by ring.
  rewrite Z.div_add, Z_mod_plus_full by lia. done.
Qed.

Lemma bytes_out_spec l n : forall j,
  limbs l -> (j + n <= 8 * length l)%nat -> bytes_out l n j = Done (le_bytes n (lval l / 2 ^ (8 * Z.of_nat j))).
Proof.
  induction n as [|n IH]; intros j Hl Hn; cbn [bytes_out le_bytes]; [done |].
  destruct (write_byte_spec l j Hl ltac:(lia)) as (x & -> & Ex). cbn [obind]. rewrite IH by (done || lia). cbn [obind]. rewrite Ex. do 3 f_equal.
  replace (8 * Z.of_nat (S j)) with (8 * Z.of_nat j + 8) by lia. rewrite Z.pow_add_r, <- Z.div_div by lia. done.
Qed.

Lemma le_bytes_zero n : le_bytes n 0 = zeros n.
Proof. induction n as [|n IH]; [done |]. cbn [le_bytes]. change (0 / 256) with 0. by rewrite IH. Qed.

Lemma le_bytes_pad n k v : 0 <= v < 2 ^ (8 * Z.of_nat n) -> le_bytes (n + k) v = le_bytes n v ++ zeros k.
Proof.
  revert v. induction n as [|n IH]; intros v Hv; cbn [le_bytes Nat.add app].
  - replace v with 0 by (cbn in Hv; lia). apply le_bytes_zero.
  - rewrite IH; [done |]. replace (8 * Z.of_nat (S n)) with (8 + 8 * Z.of_nat n) in Hv by lia. rewrite Z.pow_add_r in Hv by lia.
    change (2 ^ 8) with 256 in Hv. split; [apply Z.div_pos; lia | apply Z.div_lt_upper_bound; lia].
Qed.

Lemma of_le_pad l n : of_le (l ++ zeros n) = of_le l.
Proof.
  induction l as [|b l IH]; cbn [app of_le]; [|by rewrite IH].
  induction n as [|n IH]; [done |]. change (zeros (S n)) with (0 :: zeros n). cbn [of_le]. rewrite IH. done.
Qed.

Lemma skip_zeros_spec buf : exists n, buf = zeros n ++ skip_zeros buf.
Proof.
  induction buf as [|c buf [n IH]]; cbn [skip_zeros]; [by exists 0%nat |]. case_cmp as [->|]; [|by exists 0%nat].
  exists (S n). change (zeros (S n)) with (0 :: zeros n). cbn [app]. by rewrite <- IH.
Qed.

Lemma rev_zeros n : rev (zeros n) = zeros n.
Proof. unfold zeros. rewrite rev_alt. apply reverse_replicate. Qed.

Section conversions.
Context {ml : malloc}.

(** Reading gives the number whose big-endian form the bytes are. *)
Lemma read_binary_spec X buf K :
  is_bytes buf -> Z.of_nat (length buf) < 2 ^ 60 -> Z.of_nat (length buf) / 8 + 1 <= K ->
  spec K (shmpi_read_binary X buf) (fun X' => mpi_ok X' /\ mp_s X' = 1 /\ mval X' = of_le (rev buf) /\ (1 <= mlen X')%nat /\ Z.of_nat (mlen X') <= Z.max (Z.max (Z.of_nat (mlen X)) 1) ((Z.of_nat (length buf) + 7) / 8)).
Proof.
  intros Hb Hlen HK. destruct (skip_zeros_spec buf) as [n Hn]. unfold shmpi_read_binary. set (rest := skip_zeros buf) in *.
  assert (length rest <= length buf)%nat as Hr by (rewrite Hn, length_app; lia).
  assert (is_bytes rest) as Hbr by (rewrite Hn in Hb; by apply Forall_app in Hb as [_ ?]).
  assert (CHARS_TO_LIMBS (Z.of_nat (length rest)) = (Z.of_nat (length rest) + 7) / 8) as ->
    by (unfold CHARS_TO_LIMBS, ciL; rewrite wrap_small by (split; lia); f_equal; lia).
  assert (0 <= (Z.of_nat (length rest) + 7) / 8 <= Z.of_nat (length buf) / 8 + 1) as Hg by mlia.
  assert (1 <= K) by mlia. eapply spec_chk; [apply (grow_spec X _ K); lia | lia | eauto |]. intros X1 E1.
  assert (8 * Z.of_nat (mlen X1) >= Z.of_nat (length rest)) as HL1 by (rewrite E1; cbn [with_p mp_p]; rewrite length_app, length_zeros; mlia).
  eapply spec_chk; [apply (lset_spec X1 0 K); lia | lia | eauto |]. intros X2 ->. change (Z.abs 0) with 0. rewrite zeros_S.
  destruct (read_bytes_spec (rev rest) (mk_mpi (isgn 0) (zeros (S (mlen X1 `max` 1 - 1)))) 0) as (X3 & -> & L3 & S3 & N3 & V3);
    cbn [mp_p]; rewrite ?length_zeros, ?length_rev, ?lval_zeros; try apply limbs_zeros; try (by apply List.Forall_rev); try lia.
  cbn [obind]. apply spec_done. cbn [mp_s mp_p] in *. rewrite lval_zeros in V3. rewrite length_zeros in N3.
  split; [split; [rewrite S3; by left | done] |]. split; [done |]. split.
  - unfold mval. rewrite S3, V3, Hn, rev_app_distr, rev_zeros, of_le_pad. cbn. lia.
  - rewrite N3, E1. cbn [with_p mp_p]. rewrite length_app, length_zeros. split; [lia | mlia].
Qed.

(** Writing gives the big-endian form of the absolute value, filled with zeros. *)
Lemma write_binary_spec X buf :
  mpi_ok X -> shmpi_write_binary X buf =
    if 2 ^ (8 * Z.of_nat (length buf)) <=? Z.abs (mval X) then Done (buf, SHMPI_ERR_BUFFER_TOO_SMALL) else Done (rev (le_bytes (length buf) (Z.abs (mval X))), 0).
Proof.
  intros HX. pose proof (ok_p _ HX) as Hl. unfold shmpi_write_binary, shmpi_size. rewrite msb_spec, mval_abs, Z.shiftr_div_pow2 by (done || lia). change (2 ^ 3) with 8.
  set (v := lval (mp_p X)). pose proof (lval_range _ Hl) as Hv. fold v in Hv. set (n := (nbits v + 7) / 8).
  pose proof (nbits_nonneg v). assert (0 <= n) as Hn0 by (apply Z.div_pos; lia). pose proof (nbits_upper v ltac:(lia)) as Hu.
  assert (v < 2 ^ (8 * n)) as Hvn by (pose proof (Z.pow_le_mono_r 2 (nbits v) (8 * n) ltac:(lia) ltac:(subst n; mlia)); lia).
  destruct (Nat.ltb_spec (length buf) (Z.to_nat n)) as [H1|H1]; destruct (Z.leb_spec (2 ^ (8 * Z.of_nat (length buf))) v) as [H2|H2]; try done.
  - pose proof (nbits_le v (8 * Z.of_nat (length buf)) ltac:(lia) ltac:(lia)). subst n. mlia.
  - pose proof (Z.pow_le_mono_r 2 (8 * n) (8 * Z.of_nat (length buf)) ltac:(lia) ltac:(lia)). lia.
  - rewrite bytes_out_spec; [|done|].
    + cbn [obind]. rewrite Z.mul_0_r, Z.pow_0_r, Z.div_1_r. fold v. do 2 f_equal.
      replace (length buf) with (Z.to_nat n + (length buf - Z.to_nat n))%nat at 2 by lia.
      rewrite le_bytes_pad, rev_app_distr, rev_zeros by (rewrite Z2Nat.id; lia). done.
    + rewrite bp_pow in Hv. pose proof (nbits_le v (64 * Z.of_nat (mlen X)) ltac:(lia) Hv). subst n. mlia.
Qed.

(** ** Digits of a text *)

(** The value of a text, and what its characters are. *)
Definition dval (radix : Z) (s : list Z) : Z := fold_left (fun v c => v * radix + digit_of c) s 0.
Definition is_digit (radix c : Z) : Prop := 0 <= digit_of c < radix /\ c <> 45 /\ c <> 0.
Definition digits (radix : Z) (s : list Z) : Prop := Forall (is_digit radix) s.

Lemma dval_snoc radix s c : dval radix (s ++ [c]) = dval radix s * radix + digit_of c.
Proof. unfold dval. by rewrite fold_left_app. Qed.

Lemma digit_char_ok radix r : 0 <= r < radix -> radix <= 16 -> digit_of (digit_char r) = r /\ is_digit radix (digit_char r).
Proof.
  intros Hr Hx. assert (digit_of (digit_char r) = r) as E.
  { unfold digit_char, digit_of. destruct (Z.ltb_spec r 10); repeat (case_cmp; cbn [andb]; try lia). }
  split; [done |]. split; [by rewrite E |]. unfold digit_char. case_cmp; lia.
Qed.

Lemma hexdigit_char r : 0 <= r < 16 -> hexdigit r = digit_char r.
Proof.
  intros Hr. unfold hexdigit. rewrite <- (Z2Nat.id r) at 2 by lia. assert (Z.to_nat r < 16)%nat as H by lia. revert H. generalize (Z.to_nat r). intros n Hn.
  do 16 (destruct n as [|n]; [reflexivity |]). lia.
Qed.

(** ** Division in place *)

(** The dividend is the quotient: the block does not grow. *)
Lemma div_inplace_spec T b K :
  mpi_ok T -> mp_s T = 1 -> mpi_ok b -> mp_s b = 1 -> 0 < lval (mp_p b) -> Z.of_nat (mlen T) < 2 ^ 40 -> Z.of_nat (mlen T) + 4 <= K ->
  exists T' e, shmpi_div_mpi (Some T) None DQ (DOther b) = Done (Some T', None, e) /\
    (e = 0 /\ mp_s T' = 1 /\ limbs (mp_p T') /\ lval (mp_p T') = lval (mp_p T) / lval (mp_p b) /\ mlen T' = Nat.max (mlen T) 1 \/ e = SHMPI_ERR_MALLOC_FAILED /\ nomem K).
Proof.
  intros HT ST Hb Sb Hp Hsz HK. pose proof (ok_p _ HT) as LT. pose proof (ok_p _ Hb) as Lb. pose proof (lval_range _ LT) as RT.
  unfold shmpi_div_mpi. cbn [dargv obind]. rewrite cmp_zero_spec, (mval_pos b) by done. cbn [obind].
  destruct (Z.eqb_spec (Z.sgn (lval (mp_p b))) 0); [lia |]. rewrite cmp_abs_spec by done.
  destruct (Z.ltb_spec (Z.sgn (lval (mp_p T) - lval (mp_p b))) 0) as [Hlt|Hge].
  - cbn [ocall]. destruct (lset_spec T 0 K ltac:(lia) ltac:(lia)) as (T1 & e & -> & H). cbn [obind fst snd].
    destruct H as [[-> ->]|[-> H]]; cbn [Z.eqb negb obind]; [|exists T1, SHMPI_ERR_MALLOC_FAILED; auto].
    eexists _, 0. split; [done |]. left. change (Z.abs 0) with 0. rewrite zeros_S. cbn [mp_s mp_p]. rewrite lval_zeros, length_zeros, Z.div_small by lia.
    split_and!; try done; [apply limbs_zeros | lia].
  - destruct (div_main_spec T b K LT Lb ltac:(lia) Hsz HK) as (r & -> & Hr). cbn [obind].
    destruct r as [e|[[ZQ X] k]]; [destruct Hr as [-> ?]; exists T, SHMPI_ERR_MALLOC_FAILED; auto |].
    destruct Hr as (_ & S1 & L1 & V1 & N1 & _). cbn [ocall].
    assert (lval (mp_p ZQ) <= lval (mp_p T)) as Hle by (rewrite V1; apply Z.div_le_upper_bound; nia).
    assert (msz ZQ <= Nat.max (mlen T) 1)%nat as Hm by (apply sig_msz; [lia | done |]; pose proof (bp_mono (mlen T) (Nat.max (mlen T) 1)); lia).
    destruct (copy_spec T ZQ K L1 ltac:(lia)) as (T1 & e & -> & [[-> HC]|[-> Hno]]); cbn [obind fst snd Z.eqb negb dargv]; [|exists T1, SHMPI_ERR_MALLOC_FAILED; auto].
    assert (mp_p ZQ <> []) as NZ by (intros E; rewrite E in N1; cbn in N1; lia).
    pose proof (cp_s _ _ _ HC NZ) as ES. eexists _, 0. split; [done |]. left. cbn [option_map with_s mp_s mp_p]. rewrite ES, S1, Sb.
    split_and!; try done; [apply HC | by rewrite (cp_lval _ _ _ HC) |]. rewrite (cp_len _ _ _ HC NZ). unfold msz in *. lia.
Qed.

(** ** Bases other than 16 *)

(** The digits [ds] of [v]. *)
Definition written (radix v : Z) (ds : list Z) (m : nat) : Prop :=
  digits radix ds /\ dval radix ds = v /\ length ds = S m /\ (m = 0%nat \/ radix ^ Z.of_nat m <= v).

Lemma written_one radix r : 0 <= r < radix -> radix <= 16 -> written radix r [digit_char r] 0.
Proof.
  intros Hr Hx. destruct (digit_char_ok radix r Hr Hx) as [E D]. split_and!; [by apply Forall_singleton | unfold dval; cbn [fold_left]; rewrite E; lia | done | by left].
Qed.

Lemma written_snoc radix v ds m :
  2 <= radix <= 16 -> 0 < v / radix -> written radix (v / radix) ds m -> written radix v (ds ++ [digit_char (v mod radix)]) (S m).
Proof.
  intros Hx Hv (D & V & L & H). destruct (digit_char_ok radix (v mod radix)) as [E D']; [apply Z.mod_pos_bound; lia | lia |].
  split_and!.
  - apply Forall_app. split; [done | by apply Forall_singleton].
  - rewrite dval_snoc, V, E. mlia.
  - rewrite length_app, L. cbn [length]. lia.
  - right. assert (radix ^ Z.of_nat m <= v / radix) by (destruct H as [-> |H]; [cbn; lia | done]).
    rewrite Nat2Z.inj_succ, Z.pow_succ_r by lia. pose proof (Z.div_mod v radix ltac:(lia)). pose proof (Z.mod_pos_bound v radix ltac:(lia)). nia.
Qed.

(** A buffer has room for the digits of [v]. *)
Definition room (radix v size : Z) (out : list Z) : Prop :=
  forall m : nat, m = 0%nat \/ radix ^ Z.of_nat m <= v -> Z.of_nat (length out + m) < size.

Lemma put_spec size c out : Z.of_nat (length out) < size -> put_char size c out = Done (c :: out).
Proof. intros H. unfold put_char. by rewrite (proj2 (Z.ltb_lt _ _) H). Qed.

Lemma int_mpi_pos z : 0 <= z < 2 ^ 63 -> int_mpi z = Done (mk_mpi 1 [z]).
Proof.
  intros Hz. unfold int_mpi, iabs, isgn. destruct (Z.eqb_spec z (- 2 ^ 63)); [lia |]. cbn [obind].
  destruct (Z.ltb_spec z 0); [lia |]. by rewrite Z.abs_eq by lia.
Qed.

Lemma write_hlp_spec radix size K fuel : forall T out,
  2 <= radix <= 16 -> mpi_ok T -> mp_s T = 1 -> (1 <= mlen T)%nat -> Z.of_nat (mlen T) < 2 ^ 40 -> Z.of_nat (mlen T) + 4 <= K ->
  (1 <= fuel)%nat -> lval (mp_p T) < 2 ^ (Z.of_nat fuel - 1) -> room radix (lval (mp_p T)) size out ->
  exists T' out' e, shmpi_write_hlp fuel T radix size out = Done (T', out', e) /\
    (e = 0 /\ (exists ds m, out' = rev ds ++ out /\ written radix (lval (mp_p T)) ds m) \/ e = SHMPI_ERR_MALLOC_FAILED /\ nomem K).
Proof.
  induction fuel as [|fuel IH]; intros T out Hx HT ST NT Hsz HK Hf1 Hf Hroom; [lia |]. cbn [shmpi_write_hlp].
  destruct (Z.ltb_spec radix 2) as [?|_]; [lia |]. destruct (Z.ltb_spec 16 radix) as [?|_]; [lia |]. cbn [orb].
  rewrite mod_int_spec; [|done|lia|left; intros E; rewrite E in NT; cbn in NT; lia]. cbn [obind]. unfold shmpi_div_int.
  rewrite int_mpi_pos by lia. destruct (limb_ok radix) as (HB & _ & _); [split; lia |]. cbn [obind].
  destruct (div_inplace_spec T (mk_mpi 1 [radix]) K) as (T1 & e & -> & H); try done; cbn [mp_p lval]; [lia |].
  cbn [obind default id from_option]. cbn [mp_p lval] in H. rewrite Z.mul_0_r, Z.add_0_r in H. rewrite (mval_pos T) by done. set (v := lval (mp_p T)) in *.
  destruct H as [(-> & S1 & L1 & V1 & N1)|[-> Hno]]; cbn [Z.eqb negb]; [|exists T1, out, SHMPI_ERR_MALLOC_FAILED; auto].
  assert (mpi_ok T1) as O1 by (split; [rewrite S1; by left | done]).
  rewrite cmp_zero_spec, mval_pos, V1 by done. cbn [obind]. pose proof (lval_range _ (ok_p _ HT)) as Rv. fold v in Rv.
  assert (0 <= v / radix) as Hq by (apply Z.div_pos; lia).
  destruct (Z.eqb_spec (Z.sgn (v / radix)) 0) as [E|E]; cbn [negb obind].
  - rewrite put_spec by (specialize (Hroom 0%nat (or_introl eq_refl)); lia). eexists _, _, 0. split; [done |]. left. split; [done |].
    assert (v < radix) by (destruct (Z.lt_ge_cases v radix); [done | pose proof (Z.div_le_mono radix v radix ltac:(lia) ltac:(lia)) as H9; rewrite Z.div_same in H9 by lia; lia]).
    exists [digit_char v], 0%nat. rewrite Z.mod_small by lia. split; [done |]. apply written_one; lia.
  - assert (radix <= v) as Hrv by (destruct (Z.lt_ge_cases v radix); [rewrite Z.div_small in E by lia; done | lia]).
    destruct (decide (fuel = 0%nat)) as [->|Hf0]; [cbn in Hf; lia |].
    assert (v / radix < 2 ^ (Z.of_nat fuel - 1)) as Hv1.
    { apply Z.div_lt_upper_bound; [lia |]. replace (Z.of_nat (S fuel) - 1) with (1 + (Z.of_nat fuel - 1)) in Hf by lia. rewrite Z.pow_add_r in Hf by lia. nia. }
    destruct (IH T1 out) as (T2 & out2 & e & -> & H); try done; try lia.
    { rewrite V1. intros m [Hm|Hm]; apply Hroom; [by left | right]. pose proof (Z.div_le_upper_bound v radix v ltac:(lia) ltac:(nia)). lia. }
    cbn [obind]. destruct H as [[-> (ds & m & -> & W)]|[-> Hno]]; cbn [Z.eqb negb]; [|exists T2, out2, SHMPI_ERR_MALLOC_FAILED; auto].
    rewrite V1 in W. assert (written radix v (ds ++ [digit_char (v mod radix)]) (S m)) as W2 by (apply written_snoc; [done | lia | done]).
    rewrite put_spec.
    + cbn [obind]. eexists _, _, 0. split; [done |]. left. split; [done |]. exists (ds ++ [digit_char (v mod radix)]), (S m). split; [by rewrite rev_app_distr | done].
    + destruct W as (_ & _ & Lds & _). destruct W2 as (_ & _ & _ & W2). rewrite length_app, length_rev, Lds. specialize (Hroom (S m) W2). lia.
Qed.

(** The sign of a product and of a sum of numbers with one sign. *)
Lemma spec_and K m (P Q : shmpi -> Prop) : spec K m P -> (forall X, m = Done (X, 0) -> Q X) -> spec K m (fun X => P X /\ Q X).
Proof. intros (X & e & -> & [[-> H]|H]) HQ; exists X; [exists 0 | exists e]; auto 6. Qed.

Lemma chk_inv m c k (X : shmpi) :
  (forall Y e, e <> 0 -> c Y e <> Done (X, 0)) -> chk m c k = Done (X, 0) -> exists Y, m = Done (Y, 0) /\ k Y = Done (X, 0).
Proof.
  intros Hc. unfold chk. destruct m as [[Y e]|]; cbn [obind fst snd]; try done. case_cmp as [->|He]; [by exists Y |]. intros H. by destruct (Hc Y e He).
Qed.

Lemma signed_sign m sg X : signed m sg = Done (X, 0) -> mp_s X = sg.
Proof. intros (Y & _ & [= <-])%chk_inv; [done | congruence]. Qed.

Lemma mul_int_sign T X b T' : shmpi_mul_int T (Other X) b = Done (T', 0) -> mp_s T' = mp_s X.
Proof.
  unfold shmpi_mul_int, shmpi_mul_mpi. cbn [chk obind fst snd Z.eqb].
  intros (Y & _ & (Y' & _ & H)%chk_inv)%chk_inv; [|congruence..].
  destruct (mul_rows _ _ _ _); cbn [obind] in H; [|done..]. injection H as <-. cbn [mp_s]. lia.
Qed.

Lemma dval_from radix s : forall v, 1 <= radix -> digits radix s -> 0 <= v -> v <= fold_left (fun v c => v * radix + digit_of c) s v.
Proof.
  induction s as [|c s IH]; intros v Hx Hs Hv; cbn [fold_left]; [lia |]. apply Forall_cons in Hs as [[Hc _] Hs].
  specialize (IH (v * radix + digit_of c) Hx Hs ltac:(nia)). nia.
Qed.

Lemma get_digit_spec radix c : 2 <= radix <= 16 -> is_digit radix c -> shmpi_get_digit radix c = (digit_of c, 0).
Proof. intros Hx [Hc _]. unfold shmpi_get_digit. rewrite wrap_small by (split; lia). destruct (Z.leb_spec radix (digit_of c)); [lia | done]. Qed.

(** A digit more: [X * radix + d], away from zero. *)
Lemma read_step_spec X T radix d M K :
  2 <= radix <= 16 -> 0 <= d < radix -> mpi_ok X -> mpi_ok T -> (mlen X <= M)%nat -> (mlen T <= M)%nat -> (2 <= M)%nat ->
  lval (mp_p X) * radix + d < bp (M - 1) -> Z.of_nat M <= K ->
  spec K (shmpi_mul_int T (Other X) radix) (fun T' => mpi_ok T' /\ (mlen T' <= M)%nat /\
    spec K (if mp_s X =? 1 then shmpi_add_int X (Other T') d else shmpi_sub_int X (Other T') d)
      (fun X' => mpi_ok X' /\ (mlen X' <= M)%nat /\ mp_s X' = mp_s X /\ lval (mp_p X') = lval (mp_p X) * radix + d)).
Proof.
  intros Hx Hd HX HT NX NT HM Hv HK. pose proof (lval_range _ (ok_p _ HX)) as RX.
  assert (sig (mp_p X) <= M - 1)%nat as Hsig by (apply sig_le_iff; [apply HX | nia]).
  destruct (limb_ok radix) as (_ & _ & Hs1); [split; lia |].
  eapply spec_mono; [apply (Z.le_refl K) | |apply spec_and; [apply (mul_int_spec T (Other X) radix _ K HX ltac:(split; lia) eq_refl) | intros T'; apply mul_int_sign]]; [|cbn [argv]; lia].
  intros T' [[O1 V1 _ M1] S1]. cbn [argv] in *. split; [done |]. split; [lia |].
  destruct (limb_ok d) as (Od & Vd & _); [split; lia |].
  pose proof (bp_mono (M - 1) M ltac:(lia)). pose proof (mval_abs _ HX) as AX.
  assert (Z.abs (mval T') + Z.abs (mval (mk_mpi 1 [d])) < bp M) as Hfit by (rewrite Vd, V1, Z.abs_mul, AX; lia).
  assert (forall X', mpi_ok X' -> mp_s X' = mp_s X -> mval X' = mp_s X * (lval (mp_p X) * radix + d) -> lval (mp_p X') = lval (mp_p X) * radix + d) as Hval.
  { intros X' _ E1. unfold mval. rewrite E1. destruct (ok_s _ HX) as [-> | ->]; lia. }
  unfold shmpi_add_int, shmpi_sub_int. rewrite int_mpi_pos by lia. cbn [obind]. destruct (ok_s _ HX) as [ES|ES].
  - rewrite ES, Z.eqb_refl.
    eapply spec_mono; [apply (Z.le_refl K) | |eapply (spec_and K _ _ (fun X' => mp_s X' = 1)); [apply (add_mpi_spec X (Other T') (Other (mk_mpi 1 [d])) 0 M K); try done; try (by left); lia |]].
    + intros X' [[O2 V2 _ M2] S2]. split_and!; try done. apply Hval; [done | rewrite ES; exact S2 |]. cbn [argv] in V2. rewrite V2, V1, Vd, ES. unfold mval. rewrite ES. lia.
    + intros X'. unfold shmpi_add_mpi. cbn [argv mp_s]. rewrite S1, ES. apply signed_sign.
  - rewrite ES. change (-1 =? 1) with false. cbn iota.
    eapply spec_mono; [apply (Z.le_refl K) | |eapply (spec_and K _ _ (fun X' => mp_s X' = -1)); [apply (sub_mpi_spec X (Other T') (Other (mk_mpi 1 [d])) 0 M K); try done; try (by left); lia |]].
    + intros X' [[O2 V2 _ M2] S2]. split_and!; try done. apply Hval; [done | rewrite ES; exact S2 |]. cbn [argv] in V2. rewrite V2, V1, Vd, ES. unfold mval. rewrite ES. lia.
    + intros X'. unfold shmpi_sub_mpi. cbn [argv mp_s]. rewrite S1, ES. apply signed_sign.
Qed.

Lemma read_digits_spec radix M K s : forall X T,
  2 <= radix <= 16 -> digits radix s -> mpi_ok X -> mpi_ok T -> (mlen X <= M)%nat -> (mlen T <= M)%nat -> (2 <= M)%nat -> Z.of_nat M <= K ->
  fold_left (fun v c => v * radix + digit_of c) s (lval (mp_p X)) < bp (M - 1) ->
  spec K (read_digits X T radix s false) (fun X' => mpi_ok X' /\ mval X' = mp_s X * fold_left (fun v c => v * radix + digit_of c) s (lval (mp_p X))).
Proof.
  induction s as [|c s IH]; intros X T Hx Hs HX HT NX NT HM HK Hv; cbn [read_digits fold_left andb] in *; [by apply spec_done |].
  apply Forall_cons in Hs as [Hc Hs]. rewrite get_digit_spec by done. cbn [Z.eqb negb]. destruct Hc as [Hc _].
  pose proof (lval_range _ (ok_p _ HX)) as RX. pose proof (dval_from radix s (lval (mp_p X) * radix + digit_of c) ltac:(lia) Hs ltac:(nia)).
  eapply spec_chk; [apply (read_step_spec X T radix (digit_of c) M K); (done || lia) | lia | eauto |]. intros T1 (OT & NT1 & H1).
  eapply spec_chk; [exact H1 | lia | eauto |]. intros X1 (O1 & N1 & S1 & V1).
  rewrite <- S1, <- V1. apply IH; try done. by rewrite V1.
Qed.

(** ** Base 16 *)

Lemma hex_place j : 64 * Z.of_nat (j / 16) + Z.shiftl (Z.of_nat (j mod 16)) 2 = 4 * Z.of_nat j.
Proof. rewrite Z.shiftl_mul_pow2 by lia. rewrite Nat2Z.inj_div, Nat2Z.inj_mod. change (2 ^ 2) with 4. mlia. Qed.

Lemma dval_cons_rev radix c l : dval radix (rev (c :: l)) = dval radix (rev l) * radix + digit_of c.
Proof. cbn [rev]. apply dval_snoc. Qed.

Lemma dval_range radix s : 2 <= radix -> digits radix s -> 0 <= dval radix s.
Proof. intros Hx Hs. apply (dval_from radix s 0); (done || lia). Qed.

(** The digits [l], the last first, and the sign behind them. *)
Lemma read_hex_spec sg l : forall X j,
  digits 16 l -> limbs (mp_p X) -> lval (mp_p X) < 2 ^ (4 * Z.of_nat j) -> (j + length l <= 16 * mlen X)%nat ->
  exists X', read_hex X (l ++ (if sg : bool then [45] else [])) j = Done (X', 0) /\ limbs (mp_p X') /\ mp_s X' = (if sg then -1 else mp_s X) /\
    lval (mp_p X') = lval (mp_p X) + 2 ^ (4 * Z.of_nat j) * dval 16 (rev l).
Proof.
  induction l as [|c l IH]; intros X j Hd Hl Hv Hj.
  - destruct sg; cbn [app read_hex rev]; eexists; (split; [done |]); cbn [mp_p mp_s with_s]; split_and!; (done || unfold dval; cbn; lia).
  - apply Forall_cons in Hd as [Hc Hd]. cbn [app read_hex length] in *. pose proof Hc as (Hc1 & Hc2 & _).
    replace (match l ++ _ with [] => c =? 45 | _ => false end) with false by (destruct (l ++ _); [symmetry; by apply Z.eqb_neq | done]).
    rewrite get_digit_spec by (done || lia). cbn [Z.eqb negb]. pose proof (hex_place j) as Ep.
    assert (j / 16 < mlen X)%nat as Hi by (apply Nat.Div0.div_lt_upper_bound; lia).
    set (sh := Z.shiftl (Z.of_nat (j mod 16)) 2) in *. set (i := (j / 16)%nat) in *. set (d := digit_of c) in *.
    assert (0 <= sh <= 60) as Hsh by (pose proof (Nat.mod_upper_bound j 16); unfold sh; rewrite Z.shiftl_mul_pow2 by lia; lia).
    assert (d * 2 ^ sh < 2 ^ 64) as Hcs.
    { pose proof (Z.pow_le_mono_r 2 sh 60 ltac:(lia) ltac:(lia)). assert (0 < 2 ^ sh) by lia. change (2 ^ 64) with (16 * 2 ^ 60). nia. }
    destruct (or_limb_spec X i sh d) as (X1 & -> & L1 & S1 & N1 & V1); try done; try lia; [by rewrite bp_byte, Ep by lia |].
    cbn [obind]. assert (lval (mp_p X1) = lval (mp_p X) + 2 ^ (4 * Z.of_nat j) * d) as E1.
    { rewrite V1, (Z.mul_comm d), Z.mul_assoc, bp_byte, Ep by lia. lia. }
    assert (2 ^ (4 * Z.of_nat (S j)) = 2 ^ (4 * Z.of_nat j) * 16) as E2 by (replace (4 * Z.of_nat (S j)) with (4 * Z.of_nat j + 4) by lia; by rewrite Z.pow_add_r by lia).
    destruct (IH X1 (S j)) as (X2 & -> & L2 & S2 & V2); try done; try lia; [rewrite E1, E2; nia |].
    exists X2. split_and!; try done; [by rewrite S2, S1 |]. rewrite V2, E1, E2, dval_cons_rev. fold d. ring.
Qed.

(** What is written so far: [ds] of the value [v], and whether it is anything. *)
Definition hexed (v : Z) (ds : list Z) (k : bool) : Prop :=
  digits 16 ds /\ dval 16 ds = v /\ (if k then exists m : nat, length ds = (2 * S m)%nat /\ 256 ^ Z.of_nat m <= v else ds = [] /\ v = 0).

Lemma hexed_snoc v ds k c :
  0 <= c < 256 -> hexed v ds k -> ~ (c = 0 /\ k = false) -> hexed (v * 256 + c) (ds ++ [hexdigit (c / 16); hexdigit (c mod 16)]) true.
Proof.
  intros Hc (D & V & H) Hn. assert (0 <= c / 16 < 16 /\ 0 <= c mod 16 < 16) as [H1 H2] by mlia. rewrite !hexdigit_char by done.
  destruct (digit_char_ok 16 _ H1 ltac:(lia)) as [E1 D1], (digit_char_ok 16 _ H2 ltac:(lia)) as [E2 D2]. split_and!.
  - apply Forall_app. split; [done |]. by repeat apply Forall_cons_2.
  - replace (ds ++ [digit_char (c / 16); digit_char (c mod 16)]) with ((ds ++ [digit_char (c / 16)]) ++ [digit_char (c mod 16)]) by (by rewrite <- app_assoc).
    rewrite !dval_snoc, V, E1, E2. mlia.
  - rewrite length_app. destruct k.
    + destruct H as (m & -> & Hm). exists (S m). split; [cbn [length]; lia |]. rewrite Nat2Z.inj_succ, Z.pow_succ_r by lia. lia.
    + destruct H as [-> ->]. exists 0%nat. split; [done |]. cbn. assert (c <> 0) by (intros ->; by apply Hn). lia.
Qed.

Lemma byte_at x j : 0 <= x -> Z.land (Z.shiftr x (Z.shiftl (Z.of_nat j) 3)) 255 = (x / 256 ^ Z.of_nat j) mod 256.
Proof.
  intros Hx. change 255 with (Z.ones 8). rewrite Z.land_ones, Z.shiftl_mul_pow2, Z.shiftr_div_pow2 by lia. change 256 with (2 ^ 8). rewrite <- Z.pow_mul_r by lia.
  by rewrite Z.mul_comm.
Qed.

Lemma byte_split x j : 0 <= x -> (x / 256 ^ Z.of_nat j) mod 256 * 256 ^ Z.of_nat j + x mod 256 ^ Z.of_nat j = x mod 256 ^ Z.of_nat (S j).
Proof.
  intros Hx. rewrite Nat2Z.inj_succ, Z.pow_succ_r by lia. assert (0 < 256 ^ Z.of_nat j) by lia. rewrite (Z.mul_comm 256), Z.rem_mul_r by lia. lia.
Qed.

Definition hex_room (v size : Z) (out : list Z) : Prop :=
  forall m : nat, m = 0%nat \/ 256 ^ Z.of_nat m <= v -> Z.of_nat (length out) + 2 * (Z.of_nat m + 1) <= size.

Lemma put_two size a b ds out :
  Z.of_nat (length out) + Z.of_nat (length ds) + 2 <= size ->
  (out <-! put_char size a (rev ds ++ out); put_char size b out) = Done (rev (ds ++ [a; b]) ++ out).
Proof.
  intros H. rewrite put_spec by (rewrite length_app, length_rev; lia). cbn [obind].
  rewrite put_spec by (cbn [length]; rewrite length_app, length_rev; lia). by rewrite rev_app_distr.
Qed.

Lemma hexed_room v tot ds k size out : hexed v ds k -> hex_room tot size out -> v <= tot -> Z.of_nat (length out) + Z.of_nat (length ds) <= size.
Proof.
  intros (_ & _ & H) Hr Hv. destruct k.
  - destruct H as (m & -> & Hm). specialize (Hr m (or_intror (Z.le_trans _ _ _ Hm Hv))). lia.
  - destruct H as [-> _]. specialize (Hr 0%nat (or_introl eq_refl)). cbn [length]. lia.
Qed.

(** The bytes of a limb; a number that is zero is written as one zero byte. *)
Lemma write_hex_limb_spec i x tot size out j : forall v ds k,
  0 <= x -> 0 <= v -> hexed v ds k -> hex_room tot size out -> v * 256 ^ Z.of_nat j + x mod 256 ^ Z.of_nat j <= tot -> (1 <= i)%nat ->
  exists k' ds', write_hex_limb i j x size k (rev ds ++ out) = Done (k', rev ds' ++ out) /\
    (hexed (v * 256 ^ Z.of_nat j + x mod 256 ^ Z.of_nat j) ds' k' \/ i = 1%nat /\ v * 256 ^ Z.of_nat j + x mod 256 ^ Z.of_nat j = 0 /\ ds' = [48; 48]).
Proof.
  induction j as [|j IH]; intros v ds k Hx Hv H Hr Hw Hi; cbn [write_hex_limb].
  - exists k, ds. split; [done |]. left. change (Z.of_nat 0) with 0. rewrite Z.pow_0_r, Z.mod_1_r, Z.mul_1_r, Z.add_0_r. done.
  - rewrite byte_at by done. set (c := (x / 256 ^ Z.of_nat j) mod 256). pose proof (Z.mod_pos_bound (x / 256 ^ Z.of_nat j) 256 ltac:(lia)) as Hc. fold c in Hc.
    assert (v * 256 ^ Z.of_nat (S j) + x mod 256 ^ Z.of_nat (S j) = (v * 256 + c) * 256 ^ Z.of_nat j + x mod 256 ^ Z.of_nat j) as EW
      by (rewrite <- byte_split by done; fold c; rewrite Nat2Z.inj_succ, Z.pow_succ_r by lia; ring).
    rewrite EW in *. assert (0 < 256 ^ Z.of_nat j) as Pj by lia. pose proof (Z.mod_pos_bound x (256 ^ Z.of_nat j) ltac:(lia)) as Hm.
    assert (v * 256 + c <= tot) as Hvt by nia.
    assert (~ (c = 0 /\ k = false) -> exists k' ds', (out' <-! put_char size (hexdigit (c / 16)) (rev ds ++ out); out' <-! put_char size (hexdigit (c mod 16)) out'; write_hex_limb i j x size true out')
      = Done (k', rev ds' ++ out) /\ (hexed ((v * 256 + c) * 256 ^ Z.of_nat j + x mod 256 ^ Z.of_nat j) ds' k' \/ i = 1%nat /\ (v * 256 + c) * 256 ^ Z.of_nat j + x mod 256 ^ Z.of_nat j = 0 /\ ds' = [48; 48])) as Hstep.
    { intros Hne. pose proof (hexed_snoc v ds k c Hc H Hne) as H2. pose proof (hexed_room _ _ _ _ _ _ H2 Hr Hvt) as Hfit. rewrite length_app in Hfit. cbn [length] in Hfit.
      destruct (IH (v * 256 + c) _ true Hx ltac:(lia) H2 Hr Hw Hi) as (k' & ds' & E & HH). exists k', ds'. split; [|done]. rewrite <- E.
      pose proof (put_two size (hexdigit (c / 16)) (hexdigit (c mod 16)) ds out ltac:(lia)) as E2. unfold obind in *.
      destruct (put_char size (hexdigit (c / 16)) (rev ds ++ out)); [|done]. by rewrite E2. }
    destruct (Z.eqb_spec c 0) as [Ec|Ec]; cbn [andb]; [|apply Hstep; by intros [? _]].
    destruct k; cbn [negb andb]; [apply Hstep; by intros [_ ?] |].
    destruct H as (D & V & -> & ->). destruct (Nat.eqb_spec (i + S j) 2) as [Eij|Eij]; cbn [negb].
    + assert (i = 1%nat /\ j = 0%nat) as [-> ->] by lia. pose proof (Hr 0%nat (or_introl eq_refl)) as Hr0.
      rewrite Ec in *. exists true, [48; 48]. split.
      * pose proof (put_two size (hexdigit (0 / 16)) (hexdigit (0 mod 16)) [] out ltac:(cbn [length]; lia)) as E2. cbn [rev app] in *. unfold obind in *.
        destruct (put_char size (hexdigit (0 / 16)) out); [|done]. by rewrite E2.
      * right. split; [done |]. split; [|done]. change (Z.of_nat 0) with 0. rewrite Z.pow_0_r, Z.mod_1_r. done.
    + destruct (IH 0 [] false Hx ltac:(lia) ltac:(by split) Hr) as (k' & ds' & E & HH); [rewrite Ec in Hw; lia | done |]. exists k', ds'. split; [done |].
      rewrite Ec. exact HH.
Qed.

Lemma write_hex_spec tot size out l : forall v ds k,
  limbs l -> 0 <= v -> hexed v ds k -> hex_room tot size out -> v * bp (length l) + lval (rev l) <= tot ->
  exists ds', write_hex l size k (rev ds ++ out) = Done (rev ds' ++ out) /\ digits 16 ds' /\ dval 16 ds' = v * bp (length l) + lval (rev l) /\
    exists m : nat, (m = 0%nat \/ 256 ^ Z.of_nat m <= tot) /\ (length ds' <= 2 * S m)%nat.
Proof.
  induction l as [|x l IH]; intros v ds k Hl Hv H Hr Hw; cbn [write_hex rev].
  - exists ds. split; [done |]. cbn [rev lval length] in *. rewrite bp_0 in *. destruct H as (D & V & H). split_and!; [done | lia |].
    destruct k; [destruct H as (m & E & Hm); exists m; split; [right; lia | lia] | destruct H as [-> _]; exists 0%nat; split; [by left | cbn; lia]].
  - apply limbs_cons in Hl as [[Hx1 Hx2] Hl]. cbn [rev] in Hw. rewrite lval_app, length_rev in *. cbn [lval length] in *. rewrite bp_S, Z.mul_0_r, Z.add_0_r in *.
    pose proof (lval_range (rev l) ltac:(by apply List.Forall_rev)) as Rl. rewrite length_rev in Rl. pose proof (bp_pos (length l)).
    assert (256 ^ Z.of_nat (Z.to_nat ciL) = beta) as EB by reflexivity.
    assert (v * beta + x <= tot) as Hvt by nia.
    destruct (write_hex_limb_spec (S (length l)) x tot size out (Z.to_nat ciL) v ds k) as (k' & ds' & -> & HH); try done; try lia; [rewrite EB, Z.mod_small by done; done |].
    cbn [obind fst snd]. rewrite EB, (Z.mod_small x) in HH by done. destruct HH as [HH|(El & Ew & ->)].
    + destruct (IH (v * beta + x) ds' k' Hl ltac:(unfold beta in *; lia) HH Hr ltac:(lia)) as (ds2 & -> & D2 & V2 & H2). exists ds2. split_and!; try done. rewrite V2. ring.
    + destruct l as [|y l]; [|done]. cbn [write_hex rev lval length] in *. exists [48; 48]. rewrite bp_0 in *. split_and!; [done | | unfold dval; cbn; lia |].
      * apply Forall_cons. split; [|apply Forall_singleton]; by repeat split.
      * exists 0%nat. split; [by left | cbn; lia].
Qed.

(** ** Texts *)

(** A text of the value of [X] without its sign. *)
Definition text_of (radix : Z) (X : shmpi) (ds : list Z) : Prop :=
  digits radix ds /\ dval radix ds = lval (mp_p X) /\ (radix = 16 -> (length ds <= 16 * mlen X)%nat).

Definition minus (neg : bool) : list Z := if neg then [45] else [].

Lemma read_digits_first X T radix s : digits radix s -> read_digits X T radix s true = read_digits X T radix s false.
Proof. destruct s as [|c s]; [done |]. intros [(_ & Hc & _) _]%Forall_cons. cbn [read_digits andb]. by rewrite (proj2 (Z.eqb_neq _ _) Hc). Qed.

Lemma read_string_spec Y X radix (neg : bool) ds K :
  2 <= radix <= 16 -> limbs (mp_p X) -> text_of radix X ds -> Z.of_nat (mlen Y) <= K -> Z.of_nat (mlen X) + 2 <= K -> Z.of_nat (mlen X) < 2 ^ 40 ->
  spec K (shmpi_read_string Y radix (minus neg ++ ds)) (fun Y' => mpi_ok Y' /\ mval Y' = (if neg then -1 else 1) * lval (mp_p X)).
Proof.
  intros Hx HX (D & V & L) HY HK Hsz. unfold shmpi_read_string. destruct (Z.ltb_spec radix 2) as [?|_]; [lia |]. destruct (Z.ltb_spec 16 radix) as [?|_]; [lia |]. cbn [orb].
  pose proof (lval_range _ HX) as RX. destruct (Z.eqb_spec radix 16) as [->|Hne].
  - specialize (L eq_refl). assert (length (minus neg ++ ds) <= 16 * mlen X + 1)%nat as Hlen by (rewrite length_app; destruct neg; cbn [minus length]; lia).
    set (n := length (minus neg ++ ds)) in *. assert (length ds <= n)%nat as Hdn by (unfold n; rewrite length_app; lia).
    assert (BITS_TO_LIMBS (u64 (Z.shiftl (Z.of_nat n) 2)) = (4 * Z.of_nat n + 63) / 64) as ->.
    { rewrite Z.shiftl_mul_pow2 by lia. change (2 ^ 2) with 4. unfold BITS_TO_LIMBS, biL. rewrite !wrap_small by (split; lia || (rewrite wrap_small by (split; lia); lia)). f_equal. lia. }
    assert (0 <= (4 * Z.of_nat n + 63) / 64 <= Z.of_nat (mlen X) + 1) as Hg by mlia.
    eapply spec_chk; [apply (grow_spec Y _ K); lia | lia | eauto |]. intros X1 E1.
    assert (Z.of_nat n <= 16 * Z.of_nat (mlen X1)) as HL1 by (rewrite E1; cbn [with_p mp_p]; rewrite length_app, length_zeros; mlia).
    eapply spec_chk; [apply (lset_spec X1 0 K); lia | lia | eauto |]. intros X2 ->. change (Z.abs 0) with 0. rewrite zeros_S.
    rewrite rev_app_distr. replace (rev (minus neg)) with (if neg then [45] else []) by (by destruct neg).
    destruct (read_hex_spec neg (rev ds) (mk_mpi (isgn 0) (zeros (S (mlen X1 `max` 1 - 1)))) 0) as (X3 & -> & L3 & S3 & V3);
      cbn [mp_p]; rewrite ?length_zeros, ?length_rev, ?lval_zeros; try apply limbs_zeros; try (by apply List.Forall_rev); try lia.
    cbn [mp_p mp_s] in *. rewrite lval_zeros, rev_involutive, V in V3. apply spec_done. split; [split; [rewrite S3; destruct neg; [by right | by left] | done] |].
    unfold mval. rewrite S3, V3. destruct neg; cbn; lia.
  - set (M := Nat.max (Nat.max (mlen Y) 1) (S (Nat.max (mlen X) 1))).
    eapply spec_chk; [apply (lset_spec Y 0 K); lia | lia | eauto |]. intros Y1 ->. change (Z.abs 0) with 0. rewrite zeros_S.
    assert (forall sg, sign sg -> spec K (read_digits (mk_mpi sg (zeros (S (mlen Y `max` 1 - 1)))) shmpi_init radix ds false) (fun Y' => mpi_ok Y' /\ mval Y' = sg * lval (mp_p X))) as Hrd.
    { intros sg Hsg. rewrite <- V. unfold dval. pose proof (read_digits_spec radix M K ds (mk_mpi sg (zeros (S (mlen Y `max` 1 - 1)))) shmpi_init) as HH.
      cbn [mp_p mp_s shmpi_init length] in HH. rewrite lval_zeros, length_zeros in HH. apply HH; try done; try (subst M; lia).
      - split; [done | apply limbs_zeros].
      - apply mpi_ok_init.
      - fold (dval radix ds). rewrite V. pose proof (bp_mono (mlen X) (M - 1) ltac:(subst M; lia)). lia. }
    destruct neg; cbn [minus app].
    + cbn [read_digits andb]. change (45 =? 45) with true. cbn iota. unfold with_s. cbn [mp_p]. apply Hrd. by right.
    + rewrite read_digits_first by done. apply Hrd. by left.
Qed.

(** A power that is below the value has less bits. *)
Lemma pow_bits b m v : 0 < b -> 0 <= v -> (2 ^ b) ^ Z.of_nat m <= v -> b * Z.of_nat m < nbits v.
Proof.
  intros Hb Hv H. rewrite <- Z.pow_mul_r in H by lia. pose proof (nbits_upper v Hv) as Hu.
  destruct (Z.lt_ge_cases (b * Z.of_nat m) (nbits v)) as [|Hge]; [done |]. pose proof (Z.pow_le_mono_r 2 _ _ ltac:(lia) Hge). lia.
Qed.

Lemma write_size_room X radix size out :
  2 <= radix < 16 -> limbs (mp_p X) -> write_size X radix <= size -> (length out <= 1)%nat -> room radix (lval (mp_p X)) (size - 1) out.
Proof.
  intros Hx Hl Hsz Ho m Hm. unfold write_size in Hsz. rewrite msb_spec in Hsz by done. pose proof (lval_range _ Hl) as Rv. set (v := lval (mp_p X)) in *.
  destruct (Z.leb_spec 16 radix); [lia |]. pose proof (nbits_nonneg v). destruct (Z.leb_spec 4 radix).
  - rewrite Z.shiftr_div_pow2 in Hsz by lia. assert (2 * Z.of_nat m <= nbits v) as Hb; [|change (2 ^ 1) with 2 in Hsz; mlia].
    destruct Hm as [-> |Hm]; [lia |]. pose proof (pow_bits 2 m v ltac:(lia) ltac:(lia)) as Hp. pose proof (Z.pow_le_mono_l 4 radix (Z.of_nat m) ltac:(lia)). change (2 ^ 2) with 4 in Hp. lia.
  - assert (1 * Z.of_nat m <= nbits v) as Hb; [|lia].
    destruct Hm as [-> |Hm]; [lia |]. pose proof (pow_bits 1 m v ltac:(lia) ltac:(lia)) as Hp. pose proof (Z.pow_le_mono_l 2 radix (Z.of_nat m) ltac:(lia)). change (2 ^ 1) with 2 in Hp. lia.
Qed.

Lemma write_size_hex X size out :
  limbs (mp_p X) -> write_size X 16 + Z.of_nat (length out) <= size -> hex_room (lval (mp_p X)) (size - 1) out.
Proof.
  intros Hl Hsz m Hm. unfold write_size in Hsz. rewrite msb_spec in Hsz by done. pose proof (lval_range _ Hl) as Rv. set (v := lval (mp_p X)) in *.
  change (4 <=? 16) with true in Hsz. change (16 <=? 16) with true in Hsz. cbn iota in Hsz. rewrite !Z.shiftr_div_pow2 in Hsz by lia.
  change (2 ^ 1) with 2 in Hsz. pose proof (nbits_nonneg v). assert (8 * Z.of_nat m <= nbits v) as Hb; [|mlia].
  destruct Hm as [-> |Hm]; [lia |]. pose proof (pow_bits 8 m v ltac:(lia) ltac:(lia) Hm). lia.
Qed.

(** What is written: the sign, the digits and the terminator. *)
Lemma write_string_spec X radix slen K :
  mpi_ok X -> mp_p X <> [] -> 2 <= radix <= 16 -> Z.of_nat (mlen X) < 2 ^ 40 -> Z.of_nat (mlen X) + 4 <= K ->
  write_size X radix + (if (radix =? 16) && (mp_s X =? -1) then 1 else 0) <= slen ->
  exists t n e, shmpi_write_string X radix slen = Done (t, n, e) /\
    (e = 0 /\ n = Z.of_nat (length t) /\ n <= slen /\ (exists ds, t = minus (mp_s X =? -1) ++ ds ++ [0] /\ text_of radix X ds) \/ e = SHMPI_ERR_MALLOC_FAILED /\ nomem K).
Proof.
  intros HX Hne Hx Hsz HK Hs. pose proof (ok_p _ HX) as Hl. pose proof (lval_range _ Hl) as Rv. unfold shmpi_write_string.
  destruct (Z.ltb_spec radix 2) as [?|_]; [lia |]. destruct (Z.ltb_spec 16 radix) as [?|_]; [lia |]. cbn [orb].
  assert (write_size X radix <= slen) as Hw by (destruct ((radix =? 16) && (mp_s X =? -1)); lia). destruct (Z.ltb_spec slen (write_size X radix)) as [?|_]; [lia |].
  assert (3 <= write_size X radix) as Hw3.
  { unfold write_size. rewrite msb_spec by done. pose proof (nbits_nonneg (lval (mp_p X))). destruct (4 <=? radix), (16 <=? radix); rewrite ?Z.shiftr_div_pow2 by lia; mlia. }
  set (neg := mp_s X =? -1) in *. replace (if neg then put_char slen 45 [] else Done []) with (Done (minus neg)) by (destruct neg; [by rewrite put_spec by (cbn; lia) | done]).
  cbn [obind]. assert (length (minus neg) = if neg then 1 else 0)%nat as Lm by (by destruct neg).
  assert (forall out ds, out = rev ds ++ minus neg -> Z.of_nat (length (minus neg) + length ds) < slen -> text_of radix X ds ->
    exists t n e, (out <-! put_char slen 0 out; Done (rev out, Z.of_nat (length out), 0)) = Done (t, n, e) /\
    (e = 0 /\ n = Z.of_nat (length t) /\ n <= slen /\ (exists ds, t = minus neg ++ ds ++ [0] /\ text_of radix X ds) \/ e = SHMPI_ERR_MALLOC_FAILED /\ nomem K)) as Hfin.
  { intros out ds -> Hlt Ht. rewrite put_spec by (rewrite length_app, length_rev; lia). cbn [obind]. eexists _, _, 0. split; [done |]. left. split; [done |].
    rewrite length_rev. split; [done |]. split; [cbn [length]; rewrite length_app, length_rev; lia |]. exists ds. split; [|done].
    cbn [rev]. rewrite rev_app_distr, rev_involutive. replace (rev (minus neg)) with (minus neg) by (by destruct neg). by rewrite app_assoc. }
  destruct (Z.eqb_spec radix 16) as [->|H16].
  - assert (hex_room (lval (mp_p X)) (slen - 1) (minus neg)) as Hr by (apply write_size_hex; [done |]; rewrite Lm; destruct neg; cbn in Hs; lia).
    destruct (write_hex_spec (lval (mp_p X)) slen (minus neg) (rev (mp_p X)) 0 [] false) as (ds & E & D & V & m & Hm & Lds); rewrite ?rev_involutive; try done; try lia.
    { by apply List.Forall_rev. } { split_and!; by try apply Forall_nil. } { intros m Hm. specialize (Hr m Hm). lia. }
    cbn [rev app] in E. rewrite E. cbn [obind]. apply (Hfin _ ds); [done | specialize (Hr m Hm); lia |]. split_and!; [done | rewrite V, rev_involutive; lia |]. intros _.
    assert (mlen X <> 0%nat) by (destruct (mp_p X); [done | cbn; lia]). destruct Hm as [-> |Hm]; [lia |].
    pose proof (pow_bits 8 m (lval (mp_p X)) ltac:(lia) ltac:(lia) Hm). rewrite bp_pow in Rv. pose proof (nbits_le (lval (mp_p X)) (64 * Z.of_nat (mlen X)) ltac:(lia) Rv). lia.
  - assert (room radix (lval (mp_p X)) (slen - 1) (minus neg)) as Hr by (apply write_size_room; try done; [lia | rewrite Lm; destruct neg; lia]).
    destruct (copy_spec shmpi_init X K Hl) as (T & e & -> & HC); [unfold msz; pose proof (sig_le (mp_p X)); lia |]. cbn [obind].
    destruct HC as [[-> HC]|[-> Hno]]; cbn [Z.eqb negb]; [|eexists _, _, _; split; [done | by right]].
    set (T1 := if mp_s T =? -1 then with_s 1 T else T).
    assert (mp_s T1 = 1 /\ mp_p T1 = mp_p T) as [ST PT].
    { unfold T1. destruct (copied_ok _ _ _ HX HC) as [[E|E] _]; rewrite E; by split. }
    assert (mlen T = msz X) as LT by (rewrite (cp_len _ _ _ HC Hne); unfold msz; cbn [shmpi_init mp_p length]; lia).
    assert (msz X <= mlen X)%nat as Lmsz by (unfold msz; pose proof (sig_le (mp_p X)); destruct (mp_p X); [done | cbn [length] in *; lia]).
    assert (lval (mp_p T1) = lval (mp_p X)) as VT by (rewrite PT; apply HC).
    destruct (write_hlp_spec radix slen K (S (Z.to_nat (shmpi_msb X))) T1 (minus neg)) as (T' & out' & e & -> & HH); rewrite ?PT, ?LT, ?VT; try done; try lia.
    { split; [rewrite ST; by left | rewrite PT; apply HC]. } { unfold msz. lia. }
    { rewrite msb_spec by done. pose proof (nbits_nonneg (lval (mp_p X))). pose proof (nbits_upper (lval (mp_p X)) ltac:(lia)).
      replace (Z.of_nat (S (Z.to_nat (nbits (lval (mp_p X))))) - 1) with (nbits (lval (mp_p X))) by lia. by rewrite <- PT, VT. }
    { rewrite <- PT, VT. intros m Hm. specialize (Hr m Hm). lia. }
    cbn [obind]. destruct HH as [[-> (ds & m & -> & D & V & Lds & Hm)]|[-> Hno]]; cbn [Z.eqb negb]; [|eexists _, _, _; split; [done | by right]].
    rewrite VT in *. apply (Hfin _ ds); [done | specialize (Hr m Hm); lia |]. split_and!; [done | done | by intros ->].
Qed.

End conversions.

(** ** Round trips *)

(** C14: in every base from 2 to 16 the text of a number fits in a buffer of the
    size the function asks for, with one byte more for a negative number in base 16,
    and reading it, into whatever the destination holds, gives the value back. *)
Theorem shmpi_text_roundtrip {ml : malloc} X radix slen K :
  mpi_ok X -> mp_p X <> [] -> 2 <= radix <= 16 -> Z.of_nat (mlen X) < 2 ^ 40 -> Z.of_nat (mlen X) + 4 <= K ->
  write_size X radix + (if (radix =? 16) && (mp_s X =? -1) then 1 else 0) <= slen ->
  exists t n e, shmpi_write_string X radix slen = Done (t, n, e) /\
    (e = 0 /\ n = Z.of_nat (length t) /\ n <= slen /\
       (exists s, t = s ++ [0] /\ ~ In 0 s /\
          forall Y, Z.of_nat (mlen Y) <= K -> spec K (shmpi_read_string Y radix s) (fun Y' => mpi_ok Y' /\ mval Y' = mval X)) \/
     e = SHMPI_ERR_MALLOC_FAILED /\ nomem K).
Proof.
  intros HX Hne Hx Hsz HK Hs. destruct (write_string_spec X radix slen K HX Hne Hx Hsz HK Hs) as (t & n & e & -> & H).
  exists t, n, e. split; [done |]. destruct H as [(-> & -> & Hn & ds & -> & Ht)|H]; [left | by right]. split_and!; try done.
  exists (minus (mp_s X =? -1) ++ ds). split; [by rewrite app_assoc |]. split.
  - intros [H|H]%in_app_or; [destruct (mp_s X =? -1); cbn in H; lia |]. destruct Ht as (D & _). by destruct (proj1 (List.Forall_forall _ _) D 0 H) as (_ & _ & ?).
  - intros Y HY. assert (mval X = (if mp_s X =? -1 then -1 else 1) * lval (mp_p X)) as -> by (unfold mval; destruct (ok_s _ HX) as [-> | ->]; done).
    apply read_string_spec; (done || lia || apply HX).
Qed.

(** Minus [2^64] in base 10. *)
Lemma shmpi_text_roundtrip_witness :
  exists t n, @shmpi_write_string ex_malloc (mk_mpi (-1) [0; 1]) 10 36 = Done (t, n, 0) /\ exists s, t = s ++ [0] /\
    exists Y', @shmpi_read_string ex_malloc ex_big 10 s = Done (Y', 0) /\ mval Y' = - 2 ^ 64.
Proof.
  assert (mpi_ok (mk_mpi (-1) [0; 1])) as H by (by apply mpi_okb_ok).
  destruct (@shmpi_text_roundtrip ex_malloc (mk_mpi (-1) [0; 1]) 10 36 6 H ltac:(discriminate) ltac:(lia) eq_refl ltac:(discriminate) ltac:(vm_compute; discriminate))
    as (t & n & e & H1 & [(-> & _ & _ & s & -> & _ & HR)|[_ [(m & _ & Hm)|H2]]]); [|discriminate|discriminate].
  exists (s ++ [0]), n. split; [exact H1 |]. exists s. split; [reflexivity |].
  destruct (HR ex_big ltac:(discriminate)) as (Y' & e & E & [[-> [_ HV]]|[_ [(m & _ & Hm)|H2]]]); [|discriminate|discriminate].
  exists Y'. split; [exact E | exact HV].
Defined.

(** With the size it asks for, base 16 writes one byte behind the buffer for [-1]. *)
Theorem shmpi_write_string_overflow :
  write_size (mk_mpi (-1) [1]) 16 = 3 /\ @shmpi_write_string ex_malloc (mk_mpi (-1) [1]) 16 3 = Fault.
Proof. split; reflexivity. Qed.

(** C22: the binary form is the big-endian form of the absolute value, filled
    with zeros in front; a buffer that is too short is reported and left alone.
    Reading a buffer gives the number it is the form of, so that what was written is
    read back. *)
Theorem shmpi_binary_roundtrip {ml : malloc} X buf K :
  mpi_ok X -> Z.of_nat (length buf) < 2 ^ 60 -> Z.of_nat (length buf) / 8 + 1 <= K ->
  if 2 ^ (8 * Z.of_nat (length buf)) <=? Z.abs (mval X) then shmpi_write_binary X buf = Done (buf, SHMPI_ERR_BUFFER_TOO_SMALL)
  else exists b, shmpi_write_binary X buf = Done (b, 0) /\ length b = length buf /\ of_le (rev b) = Z.abs (mval X) /\
         forall Y, spec K (shmpi_read_binary Y b) (fun Y' => mpi_ok Y' /\ mval Y' = Z.abs (mval X)).
Proof.
  intros HX Hb HK. rewrite write_binary_spec by done. destruct (Z.leb_spec (2 ^ (8 * Z.of_nat (length buf))) (Z.abs (mval X))) as [|Hlt]; [done |].
  eexists. split; [done |]. assert (length (rev (le_bytes (length buf) (Z.abs (mval X)))) = length buf) as HL by (by rewrite length_rev, length_le_bytes).
  assert (of_le (rev (rev (le_bytes (length buf) (Z.abs (mval X))))) = Z.abs (mval X)) as HV by (rewrite rev_involutive; apply of_le_bytes; split; lia).
  split_and!; [done | done |]. intros Y.
  eapply spec_mono; [apply (Z.le_refl K) | |apply read_binary_spec; rewrite ?HL; try done; apply List.Forall_rev, le_bytes_bytes].
  intros Y' (HO & _ & -> & _). by split.
Qed.

Lemma shmpi_binary_roundtrip_witness :
  exists b, @shmpi_write_binary (mk_mpi 1 [258; 1]) (zeros 10) = Done (b, 0) /\
    exists Y', @shmpi_read_binary ex_malloc shmpi_init b = Done (Y', 0) /\ mval Y' = 2 ^ 64 + 258.
Proof.
  assert (mpi_ok (mk_mpi 1 [258; 1])) as H by (by apply mpi_okb_ok).
  pose proof (@shmpi_binary_roundtrip ex_malloc (mk_mpi 1 [258; 1]) (zeros 10) 2 H eq_refl ltac:(discriminate)) as HR.
  replace (2 ^ (8 * Z.of_nat (length (zeros 10))) <=? Z.abs (mval (mk_mpi 1 [258; 1]))) with false in HR by reflexivity.
  destruct HR as (b & H1 & _ & _ & HR). exists b. split; [exact H1 |].
  destruct (HR shmpi_init) as (Y' & e & E & [[-> [_ HV]]|[_ [(m & _ & Hm)|H2]]]); [|discriminate|discriminate].
  exists Y'. split; [exact E | exact HV].
Defined.
