(* ===== verification/ShMpiExp.v ===== *)
(** * Multi-precision integers: modular exponentiation

    Models the Montgomery multiplication and the sliding-window exponentiation of
    [share-lib/mem/shmem_mpi.c].

    The scratch number [T] is cleared by every Montgomery multiplication, so only
    the number of its limbs is passed on.  The exponent and the modulus are not the
    destination; the base can be. *)

From Stdlib Require Import ZArith Lia.
From stdpp Require Import base numbers list.
From S2P Require Import Prelude ShMpi ShMpiDiv.

Open Scope Z_scope.
Open Scope share_scope.

(** [for( i = biL; i >= 8; i /= 2 ) x *= ( 2 - ( m0 * x ) );] *)
Fixpoint montg_newton (k : nat) (m0 x : Z) : Z :=
  match k with
  | O => x
  | S k' => montg_newton k' m0 (u64 (x * u64 (2 - u64 (m0 * x))))
  end.
Definition shmpi_montg_init (N : shmpi) : outcome Z :=
  m0 <-! limb (mp_p N) 0;
  let x := u64 (m0 + u64 (Z.shiftl (Z.land (u64 (m0 + 2)) 4) 1)) in
  let x := montg_newton 4 m0 x in
  Done (u64 (2 ^ 64 - 1 - x + 1)).

(** One limb of [A]: the block from [d] on.  [*d++ = u0] leaves [u0] behind, and
    [d[n + 1] = 0] clears a limb of what follows. *)
Definition mont_round (m n : nat) (B N : list Z) (mm u0 : Z) (d : list Z) : outcome (list Z) :=
  d0 <-! limb d 0;
  b0 <-! limb B 0;
  let u1 := u64 (u64 (d0 + u64 (u0 * b0)) * mm) in
  d <-! shmpi_mul_hlp m B d u0;
  d <-! shmpi_mul_hlp n N d u1;
  match d with
  | [] => Fault
  | _ :: d' => if (n + 1 <? length d')%nat then Done (<[(n + 1)%nat := 0]> d') else Fault
  end.
Fixpoint mont_loop (m n : nat) (B N : list Z) (mm : Z) (a : list Z) (d : list Z) : outcome (list Z) :=
  match a with
  | [] => Done d
  | u0 :: a' => d <-! mont_round m n B N mm u0 d; mont_loop m n B N mm a' d
  end.

Definition shmpi_montmul (A : shmpi) (B : arg) (N : shmpi) (mm : Z) (tn : nat) : outcome shmpi :=
  let n := length (mp_p N) in
  let b := mp_p (argv A B) in
  let m := if (length b <? n)%nat then length b else n in
  if (length (mp_p A) <? n)%nat then Fault
  else
    let a := take n (mp_p A) in
    d <-! mont_loop m n b (mp_p N) mm a (zeros tn);
    if (length (mp_p A) <? n + 1)%nat || (length d <? n + 1)%nat then Fault
    else
      let A := with_p (take (n + 1) d ++ drop (n + 1) (mp_p A)) A in
      if 0 <=? shmpi_cmp_abs A N then
        l <-! shmpi_sub_hlp n (mp_p N) (mp_p A); Done (with_p l A)
      else
        _ <-! shmpi_sub_hlp n (mp_p A) (a ++ d); Done A.

Definition shmpi_montred (A N : shmpi) (mm : Z) (tn : nat) : outcome shmpi :=
  shmpi_montmul A (Other (mk_mpi 1 [1])) N mm tn.

(** ** Exponentiation *)

Section operations.
Context {ml : malloc}.

Definition window_size (i : Z) : nat :=
  if 671 <? i then 6 else if 239 <? i then 5 else if 79 <? i then 4 else if 23 <? i then 3 else 1.

(** [k] times [shmpi_montmul( X, X, N, mm, &T )]. *)
Fixpoint mont_square (k : nat) (X N : shmpi) (mm : Z) (tn : nat) : outcome shmpi :=
  match k with
  | O => Done X
  | S k' => X <-! shmpi_montmul X Self N mm tn; mont_square k' X N mm tn
  end.

(** [W[i]], for [i] below the size of the array. *)
Definition wget (W : list shmpi) (i : nat) : outcome shmpi := match W !! i with Some w => Done w | None => Fault end.

(** The entries from [W[i]] on, [k] of them: [W[i] = W[i - 1] * W[1]].  The result
    is the array and the error. *)
Fixpoint window_fill (k i : nat) (W : list shmpi) (N : shmpi) (mm : Z) (tn : nat) : outcome (list shmpi * Z) :=
  match k with
  | O => Done (W, 0)
  | S k' =>
      w <-! wget W i;
      chk (shmpi_grow w (mp_n N + 1)) (fun _ ret => Done (W, ret)) (fun w =>
      prev <-! wget W (i - 1);
      chk (shmpi_copy w (Other prev)) (fun _ ret => Done (W, ret)) (fun w =>
      w1 <-! wget W 1;
      w <-! shmpi_montmul w (Other w1) N mm tn;
      window_fill k' (S i) (<[i := w]> W) N mm tn))
  end.

(** The table, when the window has more than a bit. *)
Definition window_table (wsize : nat) (W : list shmpi) (N : shmpi) (mm : Z) (tn : nat) : outcome (list shmpi * Z) :=
  if (1 <? wsize)%nat then
    let j := (2 ^ (wsize - 1))%nat in
    w <-! wget W j;
    chk (shmpi_grow w (mp_n N + 1)) (fun _ ret => Done (W, ret)) (fun w =>
    w1 <-! wget W 1;
    chk (shmpi_copy w (Other w1)) (fun _ ret => Done (W, ret)) (fun w =>
    w <-! mont_square (wsize - 1) w N mm tn;
    window_fill (2 ^ wsize - (j + 1)) (j + 1) (<[j := w]> W) N mm tn))
  else Done (W, 0).

(** The bits of the exponent, the highest first. *)
Fixpoint limb_bits (k : nat) (x : Z) : list Z :=
  match k with O => [] | S k' => Z.land (Z.shiftr x (Z.of_nat k')) 1 :: limb_bits k' x end.
Fixpoint exp_bits (l : list Z) : list Z :=
  match l with [] => [] | x :: l' => exp_bits l' ++ limb_bits (Z.to_nat biL) x end.

(** The variables of the loop over the bits. *)
Record window : Type := mk_window { wd_X : shmpi; wd_nbits : nat; wd_wbits : Z; wd_state : Z }.

Definition window_bit (wsize : nat) (W : list shmpi) (N : shmpi) (mm : Z) (tn : nat) (ei : Z) (v : window) : outcome window :=
  let '(mk_window X nbits wbits state) := v in
  if (ei =? 0) && (state =? 0) then Done v
  else if (ei =? 0) && (state =? 1) then X <-! shmpi_montmul X Self N mm tn; Done (mk_window X nbits wbits state)
  else
    let nbits := S nbits in
    let wbits := Z.lor wbits (Z.shiftl ei (Z.of_nat (wsize - nbits))) in
    if (nbits =? wsize)%nat then
      X <-! mont_square wsize X N mm tn;
      w <-! wget W (Z.to_nat wbits);
      X <-! shmpi_montmul X (Other w) N mm tn;
      Done (mk_window X 0 0 1)
    else Done (mk_window X nbits wbits 2).

Fixpoint window_loop (wsize : nat) (W : list shmpi) (N : shmpi) (mm : Z) (tn : nat) (bits : list Z) (v : window) : outcome window :=
  match bits with
  | [] => Done v
  | ei :: bits' => v <-! window_bit wsize W N mm tn ei v; window_loop wsize W N mm tn bits' v
  end.

(** The bits of a window that is not full. *)
Fixpoint window_rest (k wsize : nat) (W : list shmpi) (N : shmpi) (mm : Z) (tn : nat) (wbits : Z) (X : shmpi) : outcome shmpi :=
  match k with
  | O => Done X
  | S k' =>
      X <-! shmpi_montmul X Self N mm tn;
      let wbits := u64 (Z.shiftl wbits 1) in
      X <-! (if negb (Z.land wbits (Z.shiftl 1 (Z.of_nat wsize)) =? 0)
             then w1 <-! wget W 1; shmpi_montmul X (Other w1) N mm tn else Done X);
      window_rest k' wsize W N mm tn wbits X
  end.

(** From [W[1]] and [RR] on. *)
Definition exp_run (wsize : nat) (W : list shmpi) (X E N RR : shmpi) (mm : Z) (tn : nat) (neg : bool) : outcome (shmpi * Z) :=
  w1 <-! wget W 1;
  w1 <-! shmpi_montmul w1 (Other RR) N mm tn;
  X <-? shmpi_copy X (Other RR);
  X <-! shmpi_montred X N mm tn;
  t <-! window_table wsize (<[1%nat := w1]> W) N mm tn;
  let '(W, e) := t in
  if negb (e =? 0) then Done (X, e)
  else
    v <-! window_loop wsize W N mm tn (exp_bits (mp_p E)) (mk_window X 0 0 0);
    X <-! window_rest (wd_nbits v) wsize W N mm tn (wd_wbits v) (wd_X v);
    X <-! shmpi_montred X N mm tn;
    if neg then shmpi_add_mpi (with_s (-1) X) (Other N) Self else Done (X, 0).

(** [R^2 mod N]. *)
Definition exp_rr (N : shmpi) : outcome (shmpi * Z) :=
  RR <-? shmpi_lset shmpi_init 1;
  RR <-? shmpi_shift_l RR (mp_n N * 2 * biL);
  shmpi_mod_mpi RR Self (Other N).

(** The result is [X], [_RR] and the error. *)
Definition shmpi_exp_mod (X : shmpi) (A : arg) (E N : shmpi) (_RR : option shmpi) : outcome (shmpi * option shmpi * Z) :=
  c <-! shmpi_cmp_int N 0;
  n0 <-! (if c <? 0 then Done 0 else limb (mp_p N) 0);
  if (c <? 0) || (Z.land n0 1 =? 0) then Done (X, _RR, SHMPI_ERR_BAD_INPUT_DATA)
  else
    c <-! shmpi_cmp_int E 0;
    if c <? 0 then Done (X, _RR, SHMPI_ERR_BAD_INPUT_DATA)
    else
      mm <-! shmpi_montg_init N;
      let wsize := window_size (shmpi_msb E) in
      let j := mp_n N + 1 in
      chk (shmpi_grow X j) (fun X ret => Done (X, _RR, ret)) (fun X =>
      chk (shmpi_grow (mk_mpi 0 []) j) (fun _ ret => Done (X, _RR, ret)) (fun w1 =>
      chk (shmpi_grow shmpi_init (j * 2)) (fun _ ret => Done (X, _RR, ret)) (fun T =>
      let A0 := argv X A in
      let neg := mp_s A0 =? -1 in
      chk (if neg then shmpi_copy shmpi_init (Other A0) else Done (A0, 0)) (fun _ ret => Done (X, _RR, ret)) (fun A1 =>
      let A1 := if neg then with_s 1 A1 else A1 in
      chk (match _RR with
           | Some (mk_mpi sg (x :: l)) => Done (mk_mpi sg (x :: l), 0)
           | _ => exp_rr N
           end) (fun _ ret => Done (X, _RR, ret)) (fun RR =>
      let _RR := match _RR with Some _ => Some RR | None => None end in
      chk (if 0 <=? shmpi_cmp_mpi A1 N then shmpi_mod_mpi w1 (Other A1) (Other N) else shmpi_copy w1 (Other A1))
        (fun _ ret => Done (X, _RR, ret)) (fun w1 =>
      let W := <[1%nat := w1]> (replicate 128 (mk_mpi 0 [])) in
      r <-! exp_run wsize W X E N RR mm (length (mp_p T)) neg;
      Done (fst r, _RR, snd r))))))).

End operations.
