(* ===== verification/ShMpiExpOk.v ===== *)
(** * Multi-precision integers: the exponentiation is right

    The Montgomery multiplication of [ShMpiExp.v] multiplies residues, and the
    sliding window computes the power of its base, or for a negative base the
    modulus less the power of the absolute value. *)

From Stdlib Require Import ZArith Lia.
From stdpp Require Import base numbers list.
From S2P Require Import Prelude ShMpi ShMpiVal ShMpiArith ShMpiBits ShMpiDiv ShMpiDivOk ShMpiExp.

Open Scope Z_scope.
Open Scope share_scope.

(** ** The inverse of the lowest limb *)

Lemma wrap_divide z : (2 ^ 64 | u64 z - z).
Proof. exists (- (z / 2 ^ 64)). unfold wrap. pose proof (Z.div_mod z (2 ^ 64) ltac:(lia)). lia. Qed.
Lemma pow_divide k : 0 <= k <= 64 -> (2 ^ k | 2 ^ 64).
Proof. intros. exists (2 ^ (64 - k)). rewrite <- Z.pow_add_r by lia. f_equal. lia. Qed.

(** The goal up to [ring]. *)
Ltac divides H :=
  match goal with |- (_ | ?g) => match type of H with (_ | ?h) => replace g with h by ring; exact H end end.

(** A factor modulo [2^k] wraps around. *)
Lemma mul_wrap k m z : 0 <= k <= 64 -> (2 ^ k | m * u64 z - m * z).
Proof.
  intros. rewrite <- Z.mul_sub_distr_l. apply Z.divide_mul_r. etransitivity; [by apply pow_divide | apply wrap_divide].
Qed.

Lemma newton_step k m x : 0 <= k -> 2 * k <= 64 -> (2 ^ k | m * x - 1) -> (2 ^ (2 * k) | m * u64 (x * u64 (2 - u64 (m * x))) - 1).
Proof.
  intros Hk H2 [q Hq]. assert (2 ^ (2 * k) = 2 ^ k * 2 ^ k) as E by (rewrite <- Z.pow_add_r by lia; f_equal; lia).
  assert (2 ^ (2 * k) | m * (x * (2 - m * x)) - 1) as D0.
  { rewrite E. exists (- (q * q)). transitivity (- ((m * x - 1) * (m * x - 1))); [ring |]. rewrite Hq. ring. }
  assert (2 ^ (2 * k) | m * u64 (x * u64 (2 - u64 (m * x))) - m * (x * (2 - m * x))) as D1.
  { pose proof (mul_wrap (2 * k) m (x * u64 (2 - u64 (m * x))) ltac:(lia)) as A1.
    pose proof (mul_wrap (2 * k) (m * x) (2 - u64 (m * x)) ltac:(lia)) as A2.
    pose proof (mul_wrap (2 * k) (m * x) (m * x) ltac:(lia)) as A3.
    pose proof (Z.divide_sub_r _ _ _ (Z.divide_add_r _ _ _ A1 A2) A3) as A4.
    divides A4. }
  pose proof (Z.divide_add_r _ _ _ D1 D0) as D2.
  divides D2.
Qed.

Lemma newton_start m : Z.odd m = true -> (2 ^ 4 | m * u64 (m + u64 (Z.shiftl (Z.land (u64 (m + 2)) 4) 1)) - 1).
Proof.
  intros Ho. set (r := (m + 2) mod 8). set (d := (m + 2) / 8).
  assert (Z.land (u64 (m + 2)) 4 = Z.land r 4) as ->.
  { change 4 with (Z.land (Z.ones 3) 4) at 1. rewrite Z.land_assoc, Z.land_ones by lia. f_equal. unfold wrap, r. apply Z.mod_mod_divide. by exists (2 ^ 61). }
  pose proof (Zmod_odd m) as Hm. rewrite Ho in Hm. assert (m = 8 * d + r - 2 /\ (r = 1 \/ r = 3 \/ r = 5 \/ r = 7)) as [Em Hr] by (unfold r, d; mlia).
  assert (2 ^ 4 | m * (m + Z.shiftl (Z.land r 4) 1) - 1) as D0.
  { rewrite Em. clearbody r d. destruct Hr as [-> |[-> |[-> | ->]]].
    - change (Z.shiftl (Z.land 1 4) 1) with 0. exists (4 * d * d - d). ring.
    - change (Z.shiftl (Z.land 3 4) 1) with 0. exists (4 * d * d + d). ring.
    - change (Z.shiftl (Z.land 5 4) 1) with 8. exists (4 * d * d + 7 * d + 2). ring.
    - change (Z.shiftl (Z.land 7 4) 1) with 8. exists (4 * d * d + 9 * d + 4). ring. }
  rewrite (wrap_small 64 (Z.shiftl _ 1)) by (destruct Hr as [-> |[-> |[-> | ->]]]; split; done).
  pose proof (Z.divide_add_r _ _ _ (mul_wrap 4 m (m + Z.shiftl (Z.land r 4) 1) ltac:(lia)) D0) as D2.
  divides D2.
Qed.

Lemma montg_init_spec N m0 :
  mp_p N !! 0%nat = Some m0 -> Z.odd m0 = true -> exists mm, shmpi_montg_init N = Done mm /\ is_uint 64 mm /\ (beta | m0 * mm + 1).
Proof.
  intros H0 Ho. unfold shmpi_montg_init, limb. rewrite H0. cbn [obind]. set (x0 := u64 (m0 + _)).
  assert (2 ^ 64 | m0 * montg_newton 4 m0 x0 - 1) as D.
  { cbn [montg_newton]. change 64 with (2 * 32). apply (newton_step 32); [lia | lia |]. change 32 with (2 * 16). apply (newton_step 16); [lia | lia |].
    change 16 with (2 * 8). apply (newton_step 8); [lia | lia |]. change 8 with (2 * 4). apply (newton_step 4); [lia | lia |]. by apply newton_start. }
  eexists. split; [done |]. split; [apply u64_range |]. set (x := montg_newton 4 m0 x0) in *. fold beta in *.
  pose proof (mul_wrap 64 m0 (beta - 1 - x + 1) ltac:(lia)) as A1. fold beta in A1.
  assert (beta | m0 * (beta - 1 - x + 1) + 1) as A2 by (destruct D as [q Hq]; exists (m0 - q); nia).
  pose proof (Z.divide_add_r _ _ _ A1 A2) as D2.
  divides D2.
Qed.

(** ** Montgomery multiplication *)

Lemma clear_limb l k i : limbs l -> lval l < bp k -> (k <= i)%nat -> (i < length l)%nat -> limbs (<[i := 0]> l) /\ lval (<[i := 0]> l) = lval l.
Proof.
  intros Hl Hv Hk Hi. destruct (lookup_lt_is_Some_2 l i Hi) as [x Hx].
  destruct (set_limb_done (mk_mpi 1 l) i 0 x) as (X' & _ & -> & HL & HV); [done | split; done | done |]. cbn [mp_p with_p] in *. split; [done |].
  assert (x = 0) as ->; [|lia]. pose proof (lval_at l i x Hx) as E. pose proof (lval_take_range i l Hl). pose proof (lval_range _ (limbs_drop (S i) l Hl)).
  destruct (limbs_lookup _ _ _ Hl Hx) as [U1 _]. pose proof (bp_mono k i Hk). pose proof (bp_pos i). unfold beta in *. nia.
Qed.

Lemma pow_of_nat k : 2 ^ Z.of_nat (S k) = 2 * 2 ^ Z.of_nat k.
Proof. rewrite Nat2Z.inj_succ, Z.pow_succ_r by lia. done. Qed.

Lemma land_bit z m : 0 <= m -> negb (Z.land z (Z.shiftl 1 m) =? 0) = Z.testbit z m.
Proof.
  intros Hm. rewrite Z.shiftl_mul_pow2, Z.mul_1_l by done. destruct (Z.testbit z m) eqn:E.
  - destruct (Z.eqb_spec (Z.land z (2 ^ m)) 0) as [E0|]; [|done]. apply (f_equal (fun t => Z.testbit t m)) in E0.
    rewrite Z.land_spec, E, Z.pow2_bits_true, Z.bits_0 in E0 by done. done.
  - replace (Z.land z (2 ^ m)) with 0; [done |]. symmetry. apply Z.bits_inj'. intros i Hi. rewrite Z.land_spec, Z.pow2_bits_eqb, Z.bits_0 by done.
    destruct (Z.eqb_spec m i) as [<-|]; [by rewrite E | apply andb_false_r].
Qed.

(** The value of bits, the highest first. *)
Fixpoint bits_val (P : Z) (bits : list Z) : Z := match bits with [] => P | e :: bits' => bits_val (2 * P + e) bits' end.

Lemma bits_val_app P l m : bits_val P (l ++ m) = bits_val (bits_val P l) m.
Proof. revert P. induction l as [|e l IH]; intros P; cbn [app bits_val]; [done | apply IH]. Qed.

Lemma limb_bits_spec k x P : 0 <= x -> Forall (fun e => e = 0 \/ e = 1) (limb_bits k x) /\ bits_val P (limb_bits k x) = P * 2 ^ Z.of_nat k + x mod 2 ^ Z.of_nat k.
Proof.
  intros Hx. revert P. induction k as [|k IH]; intros P; cbn [limb_bits bits_val].
  - split; [constructor |]. change (2 ^ Z.of_nat 0) with 1. rewrite Z.mod_1_r. lia.
  - rewrite land_1, Z.shiftr_div_pow2 by lia. destruct (IH (2 * P + (x / 2 ^ Z.of_nat k) mod 2)) as [H1 H2]. split; [constructor; [mlia | done] |].
    rewrite H2, pow_of_nat. rewrite (Z.mul_comm 2 (2 ^ Z.of_nat k)), Z.rem_mul_r by lia. ring.
Qed.

Lemma exp_bits_spec l P : limbs l -> Forall (fun e => e = 0 \/ e = 1) (exp_bits l) /\ bits_val P (exp_bits l) = P * bp (length l) + lval l.
Proof.
  intros Hl. induction Hl as [|x l [Hx1 Hx2] Hl IH]; cbn [exp_bits length lval]; [split; [constructor | cbn [bits_val]; rewrite bp_0; lia] |].
  destruct IH as [H1 H2]. destruct (limb_bits_spec (Z.to_nat biL) x (bits_val P (exp_bits l)) Hx1) as [H3 H4].
  split; [by apply Forall_app |]. rewrite bits_val_app, H4, H2. change (2 ^ Z.of_nat (Z.to_nat biL)) with beta. fold beta in Hx2. rewrite Z.mod_small, bp_S by lia. ring.
Qed.

(** The value the exponentiation gives to the base [v], or to [-v]: the power, or
    the modulus less the power. *)
Definition exp_value (neg : bool) (v e m : Z) : Z := if neg then m - v ^ e mod m else v ^ e mod m.

Section montgomery.
Context (N : shmpi) (n : nat) (n0 mm : Z).
Context (HN : limbs (mp_p N)) (Hn : mlen N = n) (H0 : mp_p N !! 0%nat = Some n0) (Hmm : is_uint 64 mm) (Hinv : (beta | n0 * mm + 1)) (HNp : 0 < lval (mp_p N)).

Section factor.
Context (b : list Z) (Hb : limbs b) (Hbne : b <> []) (HbN : lval b <= lval (mp_p N)).

Lemma low_limb l x : l !! 0%nat = Some x -> exists q, lval l = x + beta * q.
Proof using. destruct l as [|y l]; [done |]. intros [= ->]. by exists (lval l). Qed.

Lemma factor_take : lval (take (if (length b <? n)%nat then length b else n) b) = lval b.
Proof using All.
  destruct (Nat.ltb_spec (length b) n); [by rewrite firstn_all |]. apply lval_take_fit; [done |]. pose proof (lval_range _ HN) as R. rewrite Hn in R. lia.
Qed.

Lemma mont_round_spec u0 d :
  limbs d -> is_uint 64 u0 -> (n + 3 <= length d)%nat -> lval d < lval b + lval (mp_p N) ->
  exists d' u1, mont_round (if (length b <? n)%nat then length b else n) n b (mp_p N) mm u0 d = Done d' /\ limbs d' /\ S (length d') = length d /\
    lval d' < lval b + lval (mp_p N) /\ lval d' * beta = lval d + u0 * lval b + u1 * lval (mp_p N).
Proof using All.
  intros Hd Hu Hlen Hv. unfold mont_round. set (m := if (length b <? n)%nat then length b else n).
  assert (n <> 0)%nat as Hn0 by (apply lookup_lt_Some in H0; lia).
  destruct (limb_done d 0) as (d0 & -> & Hd0); [lia |]. destruct (limb_done b 0) as (b0 & -> & Hb0); [destruct b; [done | cbn; lia] |]. cbn [obind].
  set (u1 := u64 (u64 (d0 + u64 (u0 * b0)) * mm)). assert (is_uint 64 u1) as Hu1 by apply u64_range.
  pose proof (lval_range _ HN) as RN. rewrite Hn in RN. pose proof (lval_range _ Hb) as Rb. pose proof (lval_range _ Hd) as Rd.
  assert (bp (n + 2) <= bp (length d)) as Hbig by (apply bp_mono; lia). replace (n + 2)%nat with (S (S n)) in Hbig by lia. rewrite !bp_S in Hbig.
  assert (0 <= u0 < beta /\ 0 <= u1 < beta) as [Ru0 Ru1] by (split; [apply Hu | apply Hu1]).
  assert (lval d + u0 * lval b + u1 * lval (mp_p N) < beta * (lval b + lval (mp_p N))) as Htot by nia.
  assert (beta * (lval b + lval (mp_p N)) <= bp (length d)) as Hroom by (unfold beta in *; nia).
  destruct (mul_hlp_spec m b d u0) as (d1 & -> & L1 & Hd1 & V1); try done; [unfold m; destruct (Nat.ltb_spec (length b) n); lia | unfold m; destruct (Nat.ltb_spec (length b) n); lia | |].
  { unfold m. rewrite factor_take. nia. }
  unfold m in V1. rewrite factor_take in V1. cbn [obind].
  assert (lval (take n (mp_p N)) = lval (mp_p N)) as EN by (rewrite firstn_all2 by lia; done).
  destruct (mul_hlp_spec n (mp_p N) d1 u1) as (d2 & -> & L2 & Hd2 & V2); [done | done | done | lia | lia | rewrite EN, L1, V1; lia |]. rewrite EN in V2. cbn [obind].
  destruct d2 as [|x0 d']; [cbn in L2; lia |]. apply limbs_cons in Hd2 as [Hx0 Hd']. cbn [lval length] in *.
  assert (x0 = 0) as ->.
  { destruct (low_limb _ _ Hd0) as [q1 E1], (low_limb _ _ Hb0) as [q2 E2], (low_limb _ _ H0) as [q3 E3].
    assert (beta | x0) as Dx.
    { destruct Hinv as [q Hq].
      pose proof (mul_wrap 64 n0 (u64 (d0 + u64 (u0 * b0)) * mm) ltac:(lia)) as A1. fold u1 in A1. change (2 ^ 64) with beta in A1.
      pose proof (mul_wrap 64 (mm * n0) (d0 + u64 (u0 * b0)) ltac:(lia)) as A2. change (2 ^ 64) with beta in A2.
      pose proof (mul_wrap 64 (mm * n0) (u0 * b0) ltac:(lia)) as A3. change (2 ^ 64) with beta in A3.
      assert (beta | (d0 + u0 * b0) * (n0 * mm + 1)) as A4 by (apply Z.divide_mul_r; by exists q).
      pose proof (Z.divide_add_r _ _ _ (Z.divide_add_r _ _ _ A1 A2) (Z.divide_add_r _ _ _ A3 A4)) as A5.
      assert (beta | (q1 + u0 * q2 + u1 * q3 - lval d') * beta) as A6 by (by exists (q1 + u0 * q2 + u1 * q3 - lval d')).
      pose proof (Z.divide_add_r _ _ _ A5 A6) as A7.
      replace x0 with ((lval d + lval b * u0 + lval (mp_p N) * u1) - beta * lval d') by lia. rewrite E1, E2, E3. divides A7. }
    destruct Dx as [q Hq]. destruct Hx0 as [X1 X2]. fold beta in X2. unfold beta in *. nia. }
  destruct (Nat.ltb_spec (n + 1) (length d')); [|lia].
  assert (lval d' < lval b + lval (mp_p N)) as Hd'v by (unfold beta in *; nia).
  destruct (clear_limb d' (n + 1) (n + 1)) as [C1 C2]; [done | | lia | lia |].
  { rewrite Nat.add_1_r, bp_S. unfold beta. lia. }
  eexists _, u1. split; [done |]. rewrite C2, length_insert. split; [done |]. split; [lia |]. split; [done | lia].
Qed.

Lemma mont_loop_spec a d :
  limbs a -> limbs d -> (n + 2 + length a <= length d)%nat -> lval d < lval b + lval (mp_p N) ->
  exists d' k, mont_loop (if (length b <? n)%nat then length b else n) n b (mp_p N) mm a d = Done d' /\ limbs d' /\ (length d' + length a = length d)%nat /\
    lval d' < lval b + lval (mp_p N) /\ lval d' * bp (length a) = lval d + lval a * lval b + k * lval (mp_p N).
Proof using All.
  intros Ha. revert d. induction Ha as [|u0 a Hu Ha IH]; intros d Hd Hlen Hv; cbn [mont_loop length].
  - exists d, 0. rewrite bp_0. cbn [lval]. split_and!; (done || lia).
  - cbn [length] in Hlen. destruct (mont_round_spec u0 d Hd Hu) as (d1 & u1 & -> & H1 & L1 & V1 & E1); [lia | done |]. cbn [obind].
    destruct (IH d1 H1) as (d2 & k & -> & H2 & L2 & V2 & E2); [lia | done |].
    exists d2, (u1 + k * beta). split; [done |]. split; [done |]. split; [lia |]. split; [done |]. cbn [lval]. rewrite bp_S.
    replace (lval d2 * (beta * bp (length a))) with (lval d2 * bp (length a) * beta) by ring. rewrite E2.
    replace ((lval d1 + lval a * lval b + k * lval (mp_p N)) * beta) with (lval d1 * beta + beta * lval a * lval b + k * beta * lval (mp_p N)) by ring.
    rewrite E1. ring.
Qed.
End factor.

(** [A B / R mod N], for [R = b^n]. *)
Lemma montmul_spec A B :
  limbs (mp_p A) -> (n + 1 <= mlen A)%nat -> lval (mp_p A) < bp n -> limbs (mp_p (argv A B)) -> mp_p (argv A B) <> [] -> lval (mp_p (argv A B)) <= lval (mp_p N) ->
  exists A', shmpi_montmul A B N mm (2 * (n + 1)) = Done A' /\ mp_s A' = mp_s A /\ limbs (mp_p A') /\ mlen A' = mlen A /\ lval (mp_p A') < lval (mp_p N) /\
    (lval (mp_p A') * bp n) mod lval (mp_p N) = (lval (mp_p A) * lval (mp_p (argv A B))) mod lval (mp_p N).
Proof using All.
  intros HA HLA HAv HB HBne HBv. unfold shmpi_montmul. rewrite Hn. set (b := mp_p (argv A B)) in *.
  destruct (Nat.ltb_spec (mlen A) n); [lia |]. set (a := take n (mp_p A)).
  assert (limbs a) as Ha by (by apply limbs_take). assert (length a = n) as La by (unfold a; rewrite length_take; lia).
  assert (lval a = lval (mp_p A)) as Va by (by apply lval_take_fit). pose proof (lval_range _ HB) as Rb.
  destruct (mont_loop_spec b HB HBne HBv a (zeros (2 * (n + 1)))) as (d & k & -> & Hd & Ld & Vd & Ed); [done | apply limbs_zeros | rewrite length_zeros; lia | rewrite lval_zeros; lia |].
  rewrite length_zeros in Ld. rewrite La, lval_zeros in Ed. cbn [obind].
  destruct (Nat.ltb_spec (mlen A) (n + 1)); [lia |]. destruct (Nat.ltb_spec (length d) (n + 1)); [lia |]. cbn [orb].
  pose proof (lval_range _ HN) as RN. rewrite Hn in RN.
  assert (lval (take (n + 1) d) = lval d) as Vt by (apply lval_take_fit; [done |]; rewrite Nat.add_1_r, bp_S; unfold beta; lia).
  assert (lval (drop (n + 1) (mp_p A)) = 0) as Vz by (apply lval_drop_zero; [done |]; rewrite Nat.add_1_r, bp_S; unfold beta; pose proof (bp_pos n); lia).
  set (p := take (n + 1) d ++ drop (n + 1) (mp_p A)).
  assert (limbs p) as Hp by (apply limbs_app; split; [by apply limbs_take | by apply limbs_drop]).
  assert (lval p = lval d) as Vp by (unfold p; rewrite lval_app, Vz, Vt; lia).
  assert (length p = mlen A) as Lp by (unfold p; rewrite length_app, length_take, length_drop; lia).
  pose proof (lval_range _ Hd) as Rd.
  assert ((lval d * bp n) mod lval (mp_p N) = (lval (mp_p A) * lval b) mod lval (mp_p N)) as EM.
  { rewrite Ed, Va, Z.add_0_l. apply Z_mod_plus_full. }
  rewrite cmp_abs_spec by done. cbn [with_p mp_p]. rewrite Vp. destruct (Z.leb_spec 0 (Z.sgn (lval d - lval (mp_p N)))).
  - assert (lval (take n (mp_p N)) = lval (mp_p N)) as EN by (rewrite firstn_all2 by lia; done).
    destruct (sub_hlp_spec n (mp_p N) p) as (l & -> & Ll & Hl & Vl); [done | done | lia | lia | rewrite EN, Vp; lia |]. rewrite EN, Vp in Vl. cbn [obind].
    eexists. split; [done |]. cbn [with_p mp_p mp_s]. split; [done |]. split; [done |]. split; [congruence |]. split; [lia |].
    rewrite Vl, <- EM, Z.mul_sub_distr_r. replace (lval d * bp n - lval (mp_p N) * bp n) with (lval d * bp n + - bp n * lval (mp_p N)) by ring. apply Z_mod_plus_full.
  - assert (lval (take n p) <= lval (a ++ d)) as Hdum.
    { rewrite (lval_app a d), La. pose proof (lval_range _ Ha). pose proof (bp_pos n). pose proof (lval_split n p) as Hs.
      pose proof (lval_range _ (limbs_drop n p Hp)). pose proof (bp_pos (min n (length p))). nia. }
    destruct (sub_hlp_spec n p (a ++ d)) as (l & -> & _); [done | by apply limbs_app | lia | rewrite length_app; lia | done |]. cbn [obind].
    eexists. split; [done |]. cbn [with_p mp_p mp_s]. rewrite Vp. split; [done |]. split; [done |]. split; [done |]. split; [lia | done].
Qed.

(** ** Residues *)

Context (Hodd : Z.odd (lval (mp_p N)) = true).

Lemma radix_coprime : Z.coprime (bp n) (lval (mp_p N)).
Proof using All.
  rewrite bp_pow. apply Z.coprime_pow_l; [lia |]. apply Z.coprime_Bezout. pose proof (Zmod_odd (lval (mp_p N))) as Hm. rewrite Hodd in Hm.
  exists (- (lval (mp_p N) / 2)), 1. mlia.
Qed.

(** [X] is the residue of [x R]. *)
Record mont (x : Z) (X : shmpi) : Prop := mk_mont
  { mt_p : limbs (mp_p X); mt_len : (n + 1 <= mlen X)%nat; mt_lt : lval (mp_p X) < lval (mp_p N);
    mt_v : lval (mp_p X) mod lval (mp_p N) = (x * bp n) mod lval (mp_p N) }.

Lemma cancel_radix x y : (x * bp n) mod lval (mp_p N) = (y * bp n) mod lval (mp_p N) -> x mod lval (mp_p N) = y mod lval (mp_p N).
Proof using All.
  intros E. assert ((x - y) mod lval (mp_p N) = 0) as H1.
  { apply (Z.cong_mul_cancel_r_coprime _ (bp n)); [lia | apply radix_coprime |]. rewrite Z.mul_sub_distr_r, Zminus_mod, E, Z.sub_diag. apply Z.mod_0_l. lia. }
  replace x with (y + (x - y)) by ring. rewrite Zplus_mod, H1, Z.add_0_r. apply Z.mod_mod. lia.
Qed.

Lemma mont_ne x X : mont x X -> mp_p X <> [].
Proof using All. intros [_ HL _ _] E. rewrite E in HL. cbn in HL. lia. Qed.
Lemma mont_small x X : mont x X -> lval (mp_p X) < bp n.
Proof using All. intros [_ _ HL _]. pose proof (lval_range _ HN) as R. rewrite Hn in R. lia. Qed.

Lemma mont_mul x X y B :
  mont x X -> mont y (argv X B) -> exists X', shmpi_montmul X B N mm (2 * (n + 1)) = Done X' /\ mont (x * y) X' /\ mlen X' = mlen X /\ mp_s X' = mp_s X.
Proof using All.
  intros HX HB. pose proof (mont_small _ _ HX) as Hs.
  destruct (montmul_spec X B) as (X' & E & S1 & P1 & L1 & V1 & M1); [apply HX | apply HX | done | apply HB | by apply (mont_ne y) | pose proof (mt_lt _ _ HB); lia |].
  exists X'. split; [done |]. split; [|done]. split; [done | rewrite L1; apply HX | done |]. apply cancel_radix.
  rewrite M1, Z.mul_mod, (mt_v _ _ HX), (mt_v _ _ HB), <- Z.mul_mod by lia. f_equal. ring.
Qed.

(** Into and out of the residues. *)
Lemma mont_in X RR v :
  limbs (mp_p X) -> (n + 1 <= mlen X)%nat -> lval (mp_p X) < bp n -> limbs (mp_p RR) -> mp_p RR <> [] -> lval (mp_p RR) = (bp n * bp n) mod lval (mp_p N) -> lval (mp_p X) mod lval (mp_p N) = v mod lval (mp_p N) ->
  exists X', shmpi_montmul X (Other RR) N mm (2 * (n + 1)) = Done X' /\ mont v X' /\ mlen X' = mlen X.
Proof using All.
  intros HX HL HV HR HRne HRv Hv. pose proof (Z.mod_pos_bound (bp n * bp n) (lval (mp_p N)) HNp) as Rm.
  destruct (montmul_spec X (Other RR)) as (X' & E & S1 & P1 & L1 & V1 & M1); cbn [argv] in *; try done; [lia |]. exists X'. split; [done |]. split; [|done].
  split; [done | lia | done |]. apply cancel_radix. rewrite M1, HRv, Z.mul_mod_idemp_r by lia. rewrite Z.mul_mod, Hv, <- Z.mul_mod by lia. f_equal. ring.
Qed.

Lemma montred_spec x X :
  limbs (mp_p X) -> (n + 1 <= mlen X)%nat -> lval (mp_p X) < bp n -> lval (mp_p X) mod lval (mp_p N) = (x * bp n) mod lval (mp_p N) ->
  exists X', shmpi_montred X N mm (2 * (n + 1)) = Done X' /\ mp_s X' = mp_s X /\ limbs (mp_p X') /\ mlen X' = mlen X /\ lval (mp_p X') = x mod lval (mp_p N).
Proof using All.
  intros HX HL HV Hx. unfold shmpi_montred. destruct (limb_ok 1) as (H1 & _ & _); [split; done |].
  destruct (montmul_spec X (Other (mk_mpi 1 [1]))) as (X' & E & S1 & P1 & L1 & V1 & M1); cbn [argv mp_p] in *; try done; [apply H1 | cbn; lia |].
  exists X'. split; [done |]. split; [done |]. split; [done |]. split; [done |]. cbn [lval] in M1.
  pose proof (lval_range _ P1). rewrite <- (Z.mod_small (lval (mp_p X')) (lval (mp_p N))) by lia. apply cancel_radix. rewrite M1.
  replace (lval (mp_p X) * (1 + beta * 0)) with (lval (mp_p X)) by ring. done.
Qed.

(** ** The table of powers *)

Section power.
Context {ml : malloc} (K av : Z) (HK : Z.of_nat n + 1 <= K).

(** The residue of a power of the base. *)
Abbreviation pow e := (mont (av ^ e)).

Lemma mont_square_spec k X e : 0 <= e -> pow e X -> exists X', mont_square k X N mm (2 * (n + 1)) = Done X' /\ pow (e * 2 ^ Z.of_nat k) X' /\ mlen X' = mlen X /\ mp_s X' = mp_s X.
Proof using All.
  revert X e. induction k as [|k IH]; intros X e He HX; cbn [mont_square].
  - exists X. change (2 ^ Z.of_nat 0) with 1. by rewrite Z.mul_1_r.
  - destruct (mont_mul _ X _ Self HX HX) as (X1 & -> & H1 & L1 & S1). cbn [obind]. rewrite <- Z.pow_add_r in H1 by lia.
    destruct (IH X1 (e + e)) as (X2 & -> & H2 & L2 & S2); [lia | done |]. exists X2. split; [done |]. rewrite L2, S2. split; [|done].
    replace (e * 2 ^ Z.of_nat (S k)) with ((e + e) * 2 ^ Z.of_nat k); [done |]. rewrite Nat2Z.inj_succ, Z.pow_succ_r by lia. ring.
Qed.

Lemma pow_mul X e B f : pow e X -> pow f (argv X B) -> 0 <= e -> 0 <= f -> exists X', shmpi_montmul X B N mm (2 * (n + 1)) = Done X' /\ pow (e + f) X' /\ mlen X' = mlen X /\ mp_s X' = mp_s X.
Proof using All. intros HX HB He Hf. destruct (mont_mul _ X _ B HX HB) as (X' & E & H1 & ?). rewrite <- Z.pow_add_r in H1 by done. eauto. Qed.

Definition wspec (m : outcome (list shmpi * Z)) (P : list shmpi -> Prop) : Prop :=
  exists W e, m = Done (W, e) /\ (e = 0 /\ P W \/ e = SHMPI_ERR_MALLOC_FAILED /\ nomem K).

Lemma wspec_chk m W k (P : shmpi -> Prop) (Q : list shmpi -> Prop) :
  spec K m P -> (forall X, P X -> wspec (k X) Q) -> wspec (chk m (fun _ ret => Done (W, ret)) k) Q.
Proof using.
  intros (X & e & -> & [[-> H]|[-> H]]) Hk; unfold chk; cbn [obind fst snd]; [by apply Hk |].
  exists W, SHMPI_ERR_MALLOC_FAILED. split; [done | by right].
Qed.

(** An entry that becomes a copy of another. *)
Lemma entry_spec w prev x Q W k :
  mont x prev -> (forall w', mont x w' -> wspec (k w') Q) ->
  wspec (chk (shmpi_grow w (mp_n N + 1)) (fun _ ret => Done (W, ret)) (fun w => chk (shmpi_copy w (Other prev)) (fun _ ret => Done (W, ret)) k)) Q.
Proof using All.
  intros HP Hk. pose proof (mont_small _ _ HP) as Hs. unfold mp_n. rewrite Hn.
  eapply wspec_chk; [apply (grow_spec w _ K); lia |]. intros w1 ->.
  assert (1 <= n)%nat as Hn1 by (apply lookup_lt_Some in H0; lia).
  assert (msz prev <= n)%nat by (apply sig_msz; [done | apply HP | done]).
  eapply wspec_chk; [apply (copy_spec _ prev K); [apply HP | lia] |]. intros w2 HC. apply Hk. pose proof (mont_ne _ _ HP) as Hne.
  split; [apply HC | | rewrite (cp_lval _ _ _ HC); apply HP | rewrite (cp_lval _ _ _ HC); apply HP].
  rewrite (cp_len _ _ _ HC Hne). cbn [with_p mp_p]. rewrite length_app, length_zeros. lia.
Qed.

Definition entry (W : list shmpi) (i : nat) : Prop := exists w, W !! i = Some w /\ pow (Z.of_nat i) w.

Lemma entry_get W i : entry W i -> exists w, wget W i = Done w /\ pow (Z.of_nat i) w.
Proof using. intros (w & E & H). exists w. unfold wget. by rewrite E. Qed.

Lemma entry_insert W i j w : pow (Z.of_nat i) w -> (i < length W)%nat -> (j = i \/ entry W j) -> entry (<[i := w]> W) j.
Proof using.
  intros Hw Hi Hj. destruct (decide (j = i)) as [->|Hne]; [exists w; split; [by apply list_lookup_insert_eq | done] |].
  destruct Hj as [?|(w' & E & H)]; [done |]. exists w'. rewrite list_lookup_insert_ne by done. done.
Qed.

Lemma window_fill_spec k i lo W :
  entry W 1 -> (forall m, (lo <= m < i)%nat -> entry W m) -> (1 <= lo < i)%nat -> (i + k <= length W)%nat ->
  wspec (window_fill k i W N mm (2 * (n + 1))) (fun W' => length W' = length W /\ entry W' 1 /\ forall m, (lo <= m < i + k)%nat -> entry W' m).
Proof using All.
  revert i W. induction k as [|k IH]; intros i W H1 Hm Hi Hlen; cbn [window_fill].
  - exists W, 0. split; [done |]. left. split; [done |]. split; [done |]. split; [done |]. intros m Hr. apply Hm. lia.
  - destruct (lookup_lt_is_Some_2 W i) as [w Hw]; [lia |]. unfold wget at 1. rewrite Hw. cbn [obind].
    destruct (entry_get W (i - 1)) as (p & Ep & Hp); [apply Hm; lia |]. rewrite Ep.
    eapply (entry_spec w p _ _ W); [exact Hp |]. intros w' Hw'. cbn beta.
    destruct (entry_get W 1 H1) as (w1 & -> & Hw1). cbn [obind].
    destruct (pow_mul w' _ (Other w1) 1 Hw') as (w2 & -> & H2 & _); [done | lia | lia |]. cbn [obind].
    assert (pow (Z.of_nat i) w2) as H2' by (replace (Z.of_nat i) with (Z.of_nat (i - 1) + 1) by lia; done).
    destruct (IH (S i) (<[i := w2]> W)) as (W' & e & -> & HW'); [apply entry_insert; [done | lia | by right] | | lia | rewrite length_insert; lia |].
    + intros m Hr. apply entry_insert; [done | lia |]. destruct (decide (m = i)); [by left | right; apply Hm; lia].
    + exists W', e. split; [done |]. destruct HW' as [(-> & L & E1 & Em)|HW']; [left | by right]. split; [done |]. rewrite length_insert in L. split; [done |]. split; [done |].
      intros m Hr. apply Em. lia.
Qed.

(** The table for windows of [ws] bits. *)
Definition table (ws : nat) (W : list shmpi) : Prop := entry W 1 /\ forall m, (2 ^ (ws - 1) <= m < 2 ^ ws)%nat -> entry W m.

Lemma window_table_spec ws W :
  (1 <= ws <= 6)%nat -> length W = 128%nat -> entry W 1 -> wspec (window_table ws W N mm (2 * (n + 1))) (table ws).
Proof using All.
  intros Hws Hlen H1. unfold window_table. destruct (Nat.ltb_spec 1 ws) as [Hgt|Hle].
  - assert (2 ^ ws = 2 * 2 ^ (ws - 1))%nat as E2 by (replace ws with (S (ws - 1)) at 1 by lia; reflexivity).
    assert (2 ^ ws <= 64)%nat as E6 by (change 64%nat with (2 ^ 6)%nat; apply Nat.pow_le_mono_r; lia).
    assert (2 <= 2 ^ (ws - 1))%nat as Ej by (change 2%nat with (2 ^ 1)%nat at 1; apply Nat.pow_le_mono_r; lia).
    set (j := (2 ^ (ws - 1))%nat) in *. destruct (lookup_lt_is_Some_2 W j) as [w Hw]; [lia |]. unfold wget at 1. rewrite Hw. cbn [obind].
    destruct (entry_get W 1 H1) as (w1 & Ew1 & Hw1). rewrite Ew1.
    eapply (entry_spec w w1 _ _ W); [exact Hw1 |]. intros w' Hw'. cbn beta.
    destruct (mont_square_spec (ws - 1) w' 1) as (w2 & -> & H2 & _); [lia | done |]. cbn [obind].
    assert (pow (Z.of_nat j) w2) as H2' by (replace (Z.of_nat j) with (1 * 2 ^ Z.of_nat (ws - 1)); [done | unfold j; rewrite Nat2Z.inj_pow; lia]).
    destruct (window_fill_spec (2 ^ ws - (j + 1)) (j + 1) j (<[j := w2]> W)) as (W' & e & -> & HW').
    + apply entry_insert; [done | lia | by right].
    + intros m Hm. assert (m = j) as -> by lia. apply entry_insert; [done | lia | by left].
    + lia.
    + rewrite length_insert. lia.
    + exists W', e. split; [done |]. destruct HW' as [(-> & L & E1 & Em)|HW']; [left | by right]. split; [done |]. split; [done |]. intros m Hm. apply Em. fold j in Hm. lia.
  - assert (ws = 1%nat) as -> by lia. exists W, 0. split; [done |]. left. split; [done |]. split; [done |]. intros m Hm. change (2 ^ (1 - 1))%nat with 1%nat in Hm. change (2 ^ 1)%nat with 2%nat in Hm. by assert (m = 1%nat) as -> by lia.
Qed.

(** ** The loop over the bits *)

Context (ws : nat) (W : list shmpi) (Hws : (1 <= ws <= 6)%nat) (HW : table ws W).

(** The variables after bits with the value [P]: outside a window, or with [k] bits
    of a window that start with a one. *)
Inductive at_bits (P : Z) (L : nat) (sg : Z) (v : window) : Prop :=
| at_start : P = 0 -> wd_state v = 0 -> wd_nbits v = 0%nat -> wd_wbits v = 0 -> pow 0 (wd_X v) -> mlen (wd_X v) = L -> mp_s (wd_X v) = sg -> at_bits P L sg v
| at_out : wd_state v = 1 -> wd_nbits v = 0%nat -> wd_wbits v = 0 -> pow P (wd_X v) -> mlen (wd_X v) = L -> mp_s (wd_X v) = sg -> at_bits P L sg v
| at_in q w : wd_state v = 2 -> (1 <= wd_nbits v < ws)%nat -> 0 <= q -> 2 ^ (Z.of_nat (wd_nbits v) - 1) <= w < 2 ^ Z.of_nat (wd_nbits v) ->
    wd_wbits v = w * 2 ^ Z.of_nat (ws - wd_nbits v) -> P = q * 2 ^ Z.of_nat (wd_nbits v) + w -> pow q (wd_X v) -> mlen (wd_X v) = L -> mp_s (wd_X v) = sg -> at_bits P L sg v.

(** A bit joins a window of [k] bits with the value [w]. *)
Lemma window_add X k ei q w L sg :
  (k < ws)%nat -> ei = 0 \/ ei = 1 -> 0 <= q -> 0 <= w < 2 ^ Z.of_nat k -> (k = 0%nat -> ei = 1) -> ((1 <= k)%nat -> 2 ^ (Z.of_nat k - 1) <= w) ->
  pow q X -> mlen X = L -> mp_s X = sg ->
  exists v, (let nbits := S k in let wbits := Z.lor (w * 2 ^ Z.of_nat (ws - k)) (Z.shiftl ei (Z.of_nat (ws - nbits))) in
     if (nbits =? ws)%nat then X <-! mont_square ws X N mm (2 * (n + 1)); w <-! wget W (Z.to_nat wbits); X <-! shmpi_montmul X (Other w) N mm (2 * (n + 1)); Done (mk_window X 0 0 1)
     else Done (mk_window X nbits wbits 2)) = Done v /\ at_bits (2 * (q * 2 ^ Z.of_nat k + w) + ei) L sg v.
Proof using All.
  intros Hk Hei Hq Hw Hk0 Hk1 HX HL HS. cbv zeta. rewrite <- (Z.shiftl_mul_pow2 w) by lia.
  assert (0 <= ei * 2 ^ Z.of_nat (ws - S k) < 2 ^ Z.of_nat (ws - k)) as Rei.
  { replace (ws - k)%nat with (S (ws - S k)) by lia. rewrite pow_of_nat. assert (0 < 2 ^ Z.of_nat (ws - S k)) by lia. destruct Hei as [-> | ->]; lia. }
  rewrite (Z.shiftl_mul_pow2 ei) by lia. rewrite lor_add by (lia || exact Rei).
  assert (2 ^ Z.of_nat (ws - k) = 2 * 2 ^ Z.of_nat (ws - S k)) as Ek by (replace (ws - k)%nat with (S (ws - S k)) by lia; apply pow_of_nat).
  assert (2 ^ Z.of_nat k <= 2 * w + ei < 2 ^ Z.of_nat (S k)) as Rw.
  { rewrite pow_of_nat. destruct k as [|k]; [rewrite (Hk0 eq_refl); change (2 ^ Z.of_nat 0) with 1 in *; lia |].
    specialize (Hk1 ltac:(lia)). replace (Z.of_nat (S k) - 1) with (Z.of_nat k) in Hk1 by lia. rewrite pow_of_nat in *. lia. }
  destruct (Nat.eqb_spec (S k) ws) as [E|E].
  - destruct (mont_square_spec ws X q) as (X1 & -> & H1 & L1 & S1); [done | done |]. cbn [obind].
    replace (w * 2 ^ Z.of_nat (ws - k) + ei * 2 ^ Z.of_nat (ws - S k)) with (2 * w + ei).
    2: { rewrite Ek. replace (ws - S k)%nat with 0%nat by lia. change (2 ^ Z.of_nat 0) with 1. ring. }
    destruct (entry_get W (Z.to_nat (2 * w + ei))) as (w1 & -> & Hw1).
    { apply HW. replace (ws - 1)%nat with k by lia. rewrite <- E in *.
      assert (Z.of_nat (2 ^ k) <= 2 * w + ei < Z.of_nat (2 ^ S k)) by (rewrite !Nat2Z.inj_pow; lia). lia. }
    cbn [obind]. rewrite Z2Nat.id in Hw1 by lia.
    destruct (pow_mul X1 _ (Other w1) _ H1 Hw1) as (X2 & -> & H2 & L2 & S2); [lia | lia |]. cbn [obind].
    eexists. split; [done |]. apply at_out; cbn [wd_state wd_nbits wd_wbits wd_X]; try done; try congruence.
    replace (2 * (q * 2 ^ Z.of_nat k + w) + ei) with (q * 2 ^ Z.of_nat ws + (2 * w + ei)); [done |]. rewrite <- E, pow_of_nat. ring.
  - eexists. split; [done |]. apply (at_in _ _ _ _ q (2 * w + ei)); cbn [wd_state wd_nbits wd_wbits wd_X]; try done; try lia.
    all: first [rewrite Ek; ring | rewrite pow_of_nat; ring | replace (Z.of_nat (S k) - 1) with (Z.of_nat k) by lia; lia].
Qed.

Lemma window_bit_spec ei v P L sg :
  ei = 0 \/ ei = 1 -> 0 <= P -> at_bits P L sg v -> exists v', window_bit ws W N mm (2 * (n + 1)) ei v = Done v' /\ at_bits (2 * P + ei) L sg v'.
Proof using All.
  intros Hei HP Hv. destruct v as [X k wb st]. unfold window_bit. destruct Hv as [-> Hs Hn' Hw HX HL HS|Hs Hn' Hw HX HL HS|q w Hs Hn' Hq Hw Hwb -> HX HL HS]; cbn [wd_X wd_nbits wd_wbits wd_state] in *; subst.
  - destruct Hei as [-> | ->]; cbn [Z.eqb andb].
    + eexists. split; [done |]. by apply at_start.
    + destruct (window_add X 0 1 0 0 (mlen X) (mp_s X)) as (v' & E & H'); try done; try lia. eauto.
  - destruct Hei as [-> | ->]; cbn [Z.eqb andb].
    + destruct (pow_mul X P Self P HX HX) as (X1 & -> & H1 & L1 & S1); [done | done |]. cbn [obind]. eexists. split; [done |].
      apply at_out; cbn [wd_X wd_nbits wd_wbits wd_state]; try done. replace (2 * P + 0) with (P + P) by ring. done.
    + destruct (window_add X 0 1 P 0 (mlen X) (mp_s X)) as (v' & E & H'); try done; try lia. rewrite Z.mul_1_r, Z.add_0_r in H'. eauto.
  - replace ((ei =? 0) && (2 =? 0)) with false by (by rewrite andb_false_r). replace ((ei =? 0) && (2 =? 1)) with false by (by rewrite andb_false_r).
    apply (window_add X k ei q w (mlen X) (mp_s X)); try done; try lia.
Qed.

Lemma window_loop_spec bits v P L sg :
  Forall (fun e => e = 0 \/ e = 1) bits -> 0 <= P -> at_bits P L sg v ->
  exists v', window_loop ws W N mm (2 * (n + 1)) bits v = Done v' /\ at_bits (bits_val P bits) L sg v'.
Proof using All.
  intros HB. revert v P. induction HB as [|e bits He HB IH]; intros v P HP Hv; cbn [window_loop bits_val]; [eauto |].
  destruct (window_bit_spec e v P L sg He HP Hv) as (v1 & -> & H1). cbn [obind]. apply IH; [lia | done].
Qed.

(** The bits of a window that is not full; [h] are the bits that have left it. *)
Lemma window_rest_spec k X q w h :
  (k <= ws)%nat -> 0 <= q -> 0 <= w < 2 ^ Z.of_nat k -> 0 <= h -> (h * 2 ^ Z.of_nat ws + w * 2 ^ Z.of_nat (ws - k)) * 2 ^ Z.of_nat k < 2 ^ 64 -> pow q X ->
  exists X', window_rest k ws W N mm (2 * (n + 1)) (h * 2 ^ Z.of_nat ws + w * 2 ^ Z.of_nat (ws - k)) X = Done X' /\ pow (q * 2 ^ Z.of_nat k + w) X' /\ mlen X' = mlen X /\ mp_s X' = mp_s X.
Proof using All.
  revert X q w h. induction k as [|k IH]; intros X q w h Hk Hq Hw Hh Hb HX; cbn [window_rest].
  - change (2 ^ Z.of_nat 0) with 1 in *. assert (w = 0) as -> by lia. exists X. rewrite Z.mul_1_r, Z.add_0_r. done.
  - destruct (pow_mul X q Self q HX HX) as (X1 & -> & H1 & L1 & S1); [done | done |]. cbn [obind].
    set (b := w / 2 ^ Z.of_nat k). set (w' := w mod 2 ^ Z.of_nat k). assert (0 < 2 ^ Z.of_nat k) as Pk by lia. rewrite pow_of_nat in *.
    assert (0 <= b <= 1 /\ 0 <= w' < 2 ^ Z.of_nat k /\ w = b * 2 ^ Z.of_nat k + w') as (Rb & Rw & Ew).
    { unfold b, w'. pose proof (Z.mod_pos_bound w _ Pk). pose proof (Z.div_mod w (2 ^ Z.of_nat k) ltac:(lia)). split; [|lia].
      split; [apply Z.div_pos; lia |]. apply Z.lt_succ_r. apply Z.div_lt_upper_bound; lia. }
    assert (2 ^ Z.of_nat (ws - k) = 2 * 2 ^ Z.of_nat (ws - S k)) as Ek by (replace (ws - k)%nat with (S (ws - S k)) by lia; apply pow_of_nat).
    assert (2 ^ Z.of_nat ws = 2 ^ Z.of_nat k * 2 ^ Z.of_nat (ws - k)) as Ews by (rewrite <- Z.pow_add_r by lia; f_equal; lia).
    set (z := (2 * h + b) * 2 ^ Z.of_nat ws + w' * 2 ^ Z.of_nat (ws - k)).
    assert (0 < 2 ^ Z.of_nat (ws - S k)) as Ps by lia.
    assert (2 * (h * 2 ^ Z.of_nat ws + w * 2 ^ Z.of_nat (ws - S k)) = z) as Ez.
    { unfold z. rewrite Ew at 1. rewrite Ews, Ek. ring. }
    assert (0 <= w' * 2 ^ Z.of_nat (ws - k) < 2 ^ Z.of_nat ws) as Rt by (rewrite Ews, Ek; nia).
    assert (0 <= z /\ z * 2 ^ Z.of_nat k < 2 ^ 64) as [Pz Bz].
    { split; [unfold z; nia |]. rewrite <- Ez. lia. }
    rewrite Z.shiftl_mul_pow2 by lia. rewrite Z.pow_1_r, (Z.mul_comm _ 2), Ez, wrap_small by (split; [done | nia]).
    rewrite land_bit by lia. assert (Z.testbit z (Z.of_nat ws) = Z.odd b) as Et.
    { rewrite Z.testbit_odd, Z.shiftr_div_pow2 by lia. unfold z. rewrite Z.div_add_l, (Z.div_small (w' * _)), Z.add_0_r by lia. rewrite Z.odd_add, Z.odd_mul. done. }
    rewrite Et. destruct (Z.eq_dec b 0) as [E0|E0].
    + rewrite E0. cbn [Z.odd obind]. destruct (IH X1 (q + q) w' (2 * h + b)) as (X2 & E2 & H2 & L2 & S2); try done; try lia. fold z in E2. rewrite E2. exists X2. split; [done |]. rewrite L2, S2. split; [|done].
      replace (q * (2 * 2 ^ Z.of_nat k) + w) with ((q + q) * 2 ^ Z.of_nat k + w'); [done |]. rewrite Ew, E0. ring.
    + assert (b = 1) as E1 by lia. rewrite E1. cbn [Z.odd]. destruct (entry_get W 1 (proj1 HW)) as (w1 & -> & Hw1). cbn [obind].
      destruct (pow_mul X1 _ (Other w1) 1 H1) as (X3 & -> & H3 & L3 & S3); [done | lia | lia |]. cbn [obind].
      destruct (IH X3 (q + q + 1) w' (2 * h + b)) as (X2 & E2 & H2 & L2 & S2); try done; try lia. fold z in E2. rewrite E2. exists X2. split; [done |]. rewrite L2, S2, L3, S3. split; [|done].
      replace (q * (2 * 2 ^ Z.of_nat k) + w) with ((q + q + 1) * 2 ^ Z.of_nat k + w'); [done |]. rewrite Ew, E1. ring.
Qed.
End power.

Lemma exp_run_spec {ml : malloc} (K av : Z) ws W w1 X E RR (neg : bool) :
  (neg = true -> Z.of_nat (mlen X) <= K) -> mp_s N = 1 -> Z.of_nat n + 1 <= K -> (1 <= ws <= 6)%nat -> length W = 128%nat -> W !! 1%nat = Some w1 ->
  limbs (mp_p w1) -> (n + 1 <= mlen w1)%nat -> lval (mp_p w1) < bp n -> lval (mp_p w1) mod lval (mp_p N) = av mod lval (mp_p N) ->
  mpi_ok RR -> mp_p RR <> [] -> mval RR = (bp n * bp n) mod lval (mp_p N) -> (n + 1 <= mlen X)%nat -> limbs (mp_p E) ->
  spec K (exp_run ws W X E N RR mm (2 * (n + 1)) neg) (fun X' => mpi_ok X' /\ mval X' = exp_value neg av (lval (mp_p E)) (lval (mp_p N)) /\ (neg = false -> mlen X' = mlen X)).
Proof using All.
  intros Hneg HNs HK Hws HW Hw1 P1 L1 B1 V1 OR NR VR LX HE. unfold exp_run, wget. rewrite Hw1. cbn [obind].
  pose proof (Z.mod_pos_bound (bp n * bp n) (lval (mp_p N)) HNp) as Rm. pose proof (lval_range _ HN) as RN. rewrite Hn in RN.
  assert (lval (mp_p RR) = (bp n * bp n) mod lval (mp_p N)) as VR' by (rewrite <- (mval_abs _ OR), VR; lia).
  destruct (mont_in w1 RR av) as (w2 & -> & Hw2 & _); try done; [apply OR |]. cbn [obind].
  assert (1 <= n)%nat as Hn1 by (apply lookup_lt_Some in H0; lia).
  assert (msz RR <= n)%nat by (apply sig_msz; [done | apply OR | lia]).
  eapply spec_chk; [apply (copy_spec X RR K); [apply OR | lia] | lia | eauto |]. intros X1 HC.
  assert (mlen X1 = mlen X) as LX1 by (rewrite (cp_len _ _ _ HC NR); lia).
  pose proof (cp_lval _ _ _ HC) as VX1.
  destruct (montred_spec (bp n) X1) as (X2 & -> & S2 & P2 & L2 & V2); [apply HC | lia | rewrite VX1, VR'; lia | rewrite VX1, VR'; apply Z.mod_mod; lia |]. cbn [obind].
  assert (mont (av ^ 0) X2) as HX2.
  { split; [done | lia | rewrite V2; apply Z.mod_pos_bound; lia |]. rewrite V2, Z.pow_0_r, Z.mul_1_l. apply Z.mod_mod. lia. }
  assert (entry av (<[1%nat := w2]> W) 1) as HE1.
  { apply entry_insert; [|lia|by left]. change (Z.of_nat 1) with 1. by rewrite Z.pow_1_r. }
  destruct (window_table_spec K av HK ws (<[1%nat := w2]> W) Hws) as (W' & e & -> & HW'); [by rewrite length_insert | done |]. cbn [obind].
  destruct HW' as [[-> HT]|[-> Hno]].
  2: { exists X2, SHMPI_ERR_MALLOC_FAILED. split; [done | by right]. }
  cbn [Z.eqb negb]. destruct (exp_bits_spec (mp_p E) 0 HE) as [HB HV]. rewrite Z.mul_0_l, Z.add_0_l in HV.
  destruct (window_loop_spec K av HK ws W' Hws HT (exp_bits (mp_p E)) (mk_window X2 0 0 0) 0 (mlen X2) (mp_s X2) HB) as (v & -> & Hv); [lia | by apply at_start |].
  cbn [obind]. rewrite HV in Hv.
  assert (exists X3, window_rest (wd_nbits v) ws W' N mm (2 * (n + 1)) (wd_wbits v) (wd_X v) = Done X3 /\ mont (av ^ lval (mp_p E)) X3 /\ mlen X3 = mlen X2 /\ mp_s X3 = mp_s X2) as (X3 & -> & H3 & L3 & S3).
  { destruct Hv as [HP _ Hnb Hwb HX HL HS|_ Hnb Hwb HX HL HS|q w _ Hnb Hq Hw Hwb HP HX HL HS].
    - rewrite Hnb, Hwb. cbn [window_rest]. exists (wd_X v). rewrite HP. done.
    - rewrite Hnb, Hwb. cbn [window_rest]. exists (wd_X v). done.
    - rewrite Hwb. assert (0 < 2 ^ (Z.of_nat (wd_nbits v) - 1)) by (apply Z.pow_pos_nonneg; lia).
      destruct (window_rest_spec K av HK ws W' Hws HT (wd_nbits v) (wd_X v) q w 0) as (X3 & E3 & H3 & L3 & S3); try done; try lia.
      + assert (2 ^ Z.of_nat (wd_nbits v) <= 2 ^ 6) as B6 by (apply Z.pow_le_mono_r; lia). assert (2 ^ Z.of_nat (ws - wd_nbits v) <= 2 ^ 6) as B7 by (apply Z.pow_le_mono_r; lia).
        assert (0 < 2 ^ Z.of_nat (ws - wd_nbits v)) by lia. rewrite Z.mul_0_l, Z.add_0_l. change (2 ^ 6) with 64 in *.
        assert (w * 2 ^ Z.of_nat (ws - wd_nbits v) <= 64 * 64) by (apply Z.mul_le_mono_nonneg; lia). assert (0 <= w * 2 ^ Z.of_nat (ws - wd_nbits v)) by (apply Z.mul_nonneg_nonneg; lia).
        apply Z.le_lt_trans with (64 * 64 * 64); [apply Z.mul_le_mono_nonneg; lia | done].
      + rewrite Z.mul_0_l, Z.add_0_l in E3. exists X3. rewrite HP, E3, L3, S3. done. }
  cbn [obind]. destruct (montred_spec (av ^ lval (mp_p E)) X3) as (X4 & -> & S4 & P4 & L4 & V4); [apply H3 | apply H3 | by apply (mont_small (av ^ lval (mp_p E))) | apply H3 |].
  cbn [obind]. unfold exp_value. destruct neg.
  { specialize (Hneg eq_refl). set (pv := av ^ lval (mp_p E) mod lval (mp_p N)) in *.
    assert (0 <= pv < lval (mp_p N)) as Rv by (by apply Z.mod_pos_bound).
    assert (mval (with_s (-1) X4) = - pv) as VX by (unfold mval; cbn [with_s mp_s mp_p]; lia).
    assert (mval N = lval (mp_p N)) as VN by (unfold mval; lia).
    eapply spec_mono; [reflexivity | |apply (add_mpi_spec (with_s (-1) X4) (Other N) Self 0 (mlen X) K)]; cbn [argv].
    - intros X5 [A1 A2 A3 A4]. cbn [argv] in A2. split; [done |]. split; [lia | done].
    - by left.
    - split; [by rewrite HNs; left | done].
    - split; [by right | done].
    - by left.
    - by left.
    - lia.
    - cbn [with_s mp_p]. lia.
    - rewrite VX, VN. apply Z.lt_le_trans with (bp (S n)); [|apply bp_mono; lia]. rewrite bp_S. unfold beta. lia.
    - done. }
  apply spec_done. assert (mp_s X4 = mp_s RR) as SS by (rewrite S4, S3, S2; by apply (cp_s _ _ _ HC)).
  split; [split; [rewrite SS; apply OR | done] |]. split; [|intros _; lia]. unfold mval. rewrite SS, V4.
  destruct (ok_s _ OR) as [->|Hs]; [lia |]. unfold mval in VR. rewrite Hs in *. pose proof (lval_range _ (ok_p _ OR)).
  assert (lval (mp_p N) = 1) as EN1; [|rewrite EN1, Z.mod_1_r; done].
  assert ((bp n * bp n) mod lval (mp_p N) = 0) as Ez by lia. apply Z.mod_divide in Ez; [|lia].
  pose proof radix_coprime as Hc. unfold Z.coprime in Hc. rewrite Z.gcd_comm in Hc. pose proof (Z.gauss _ _ _ Ez Hc) as Hd.
  rewrite <- (Z.mul_1_r (bp n)) in Hd. pose proof (Z.gauss _ _ _ Hd Hc) as HN1. apply Z.divide_1_r_nonneg in HN1; lia.
Qed.
End montgomery.

(** ** The exponentiation *)

Section exponentiation.
Context {ml : malloc}.

(** The square of the radix, as the caller can keep it. *)
Definition radix2 (N : shmpi) : Z := (bp (mlen N) * bp (mlen N)) mod mval N.
Definition rr_ok (N : shmpi) (RR : option shmpi) : Prop :=
  match RR with Some (mk_mpi s (x :: l)) => mpi_ok (mk_mpi s (x :: l)) /\ mval (mk_mpi s (x :: l)) = radix2 N | _ => True end.

Lemma exp_rr_spec N K (M : nat) :
  mpi_ok N -> 0 < mval N -> (2 * mlen N + 3 <= M)%nat -> Z.of_nat M < 2 ^ 40 -> Z.of_nat M + 4 <= K -> spec K (exp_rr N) (sum_res (radix2 N) 1 M).
Proof.
  intros HN Hp HM Hb HK. unfold exp_rr. set (n := mlen N) in *.
  eapply spec_chk; [apply (lset_spec shmpi_init 1 K); lia | lia | eauto |]. intros R0 ->. cbn [Nat.max shmpi_init mp_p length Nat.sub zeros replicate]. change (Z.abs 1) with 1. change (isgn 1) with 1.
  destruct (limb_ok 1) as (O1 & V1 & _); [split; done |]. unfold mp_n. fold n. unfold biL.
  assert (lval [1] = 1) as VL by reflexivity.
  eapply spec_chk; [apply (shift_l_spec (mk_mpi 1 [1]) (Z.of_nat n * 2 * 64) (2 * n + 1) K); cbn [mp_p length]; rewrite ?VL; try lia; [apply O1 | change (nbits 1) with 1; lia] | lia | eauto |].
  intros R1 [[S1 P1 W1 L1 M1] _]. cbn [mp_s mp_p] in *. rewrite VL, Z.mul_1_l in W1.
  assert (mpi_ok R1) as O2 by (split; [rewrite S1; by left | done]).
  assert (mval R1 = bp n * bp n) as V2. { unfold mval. rewrite S1, W1, bp_pow, <- Z.pow_add_r, Z.mul_1_l by lia. f_equal. lia. }
  pose proof (lval_range _ (ok_p _ HN)) as RN. pose proof (mval_abs _ HN). fold n in RN.
  eapply spec_mono; [reflexivity | |apply (mod_mpi_spec R1 Self N K M); cbn [argv]; try done; try lia].
  - intros R2 [A1 A2 A3 A4]. cbn [argv] in *. rewrite V2 in A2. split; try done. destruct (mp_p R1); cbn in L1; [lia | cbn in A3; lia].
  - apply Z.lt_le_trans with (bp (S n)); [|apply bp_mono; lia]. rewrite bp_S. unfold beta. lia.
Qed.

Definition espec (K : Z) (m : outcome (shmpi * option shmpi * Z)) (P : shmpi -> option shmpi -> Prop) : Prop :=
  exists X RR e, m = Done (X, RR, e) /\ (e = 0 /\ P X RR \/ e = SHMPI_ERR_MALLOC_FAILED /\ nomem K).

Lemma espec_mono K m (P Q : shmpi -> option shmpi -> Prop) : (forall X RR, P X RR -> Q X RR) -> espec K m P -> espec K m Q.
Proof. intros HPQ (X & RR & e & -> & [[-> H]|H]); exists X, RR; [exists 0 | exists e]; auto 6. Qed.

Lemma espec_chk K m (c : shmpi -> Z -> outcome (shmpi * option shmpi * Z)) k P Q :
  spec K m P -> (forall X e, exists X' RR, c X e = Done (X', RR, e)) -> (forall X, P X -> espec K (k X) Q) -> espec K (chk m c k) Q.
Proof.
  intros (X & e & -> & [[-> H]|[-> H]]) Hc Hk; unfold chk; cbn [obind fst snd]; [by apply Hk |].
  replace (SHMPI_ERR_MALLOC_FAILED =? 0) with false by reflexivity. destruct (Hc X SHMPI_ERR_MALLOC_FAILED) as (X' & RR & ->).
  exists X', RR, SHMPI_ERR_MALLOC_FAILED. split; [done | by right].
Qed.

Lemma window_size_range i : (1 <= window_size i <= 6)%nat.
Proof. unfold window_size. repeat case_cmp; lia. Qed.

Lemma exp_mod_spec X A E N RR K (M : nat) :
  let a := argv X A in
  let neg := mp_s a =? -1 in
  mpi_ok a -> (neg = true -> Z.of_nat (mlen X) <= K) -> mp_p a <> [] -> mpi_ok E -> 0 <= mval E -> mpi_ok N -> 0 < mval N -> Z.odd (mval N) = true -> rr_ok N RR ->
  (mlen a + 2 <= M)%nat -> (2 * mlen N + 3 <= M)%nat -> Z.of_nat M < 2 ^ 40 -> Z.of_nat M + 4 <= K ->
  espec K (shmpi_exp_mod X A E N RR) (fun X' RR' => mpi_ok X' /\ mval X' = exp_value neg (Z.abs (mval a)) (mval E) (mval N) /\ rr_ok N RR' /\ (RR = None <-> RR' = None) /\ (neg = false -> mlen X' = Nat.max (mlen X) (mlen N + 1))).
Proof.
  intros a neg HA HAs HAne HE HEp HN HNp HNo HRR HMa HMn Hb HK. unfold shmpi_exp_mod. set (n := mlen N) in *.
  rewrite cmp_zero_spec by done. cbn [obind]. destruct (Z.ltb_spec (Z.sgn (mval N)) 0); [lia |].
  pose proof (mval_abs _ HN) as AN. rewrite Z.abs_eq in AN by lia. pose proof (lval_range _ (ok_p _ HN)) as RN. fold n in RN.
  pose proof (pos_len N HN ltac:(lia)) as LN. fold n in LN. destruct (limb_done (mp_p N) 0) as (n0 & En0 & Hn0); [fold n; lia |]. rewrite En0. cbn [obind orb].
  assert (Z.odd n0 = true) as Ho0.
  { destruct (low_limb _ _ Hn0) as [q Eq]. rewrite AN, Eq in HNo. replace (beta * q) with (2 * (2 ^ 63 * q)) in HNo by (unfold beta; ring). rewrite Z.odd_add, Z.odd_mul in HNo. by rewrite xorb_false_r in HNo. }
  rewrite land_1, Zmod_odd, Ho0. cbn [Z.eqb]. rewrite cmp_zero_spec by done. cbn [obind]. destruct (Z.ltb_spec (Z.sgn (mval E)) 0); [lia |].
  destruct (montg_init_spec N n0 Hn0 Ho0) as (mm & -> & Hmm & Hinv). cbn [obind]. unfold mp_n. fold n.
  eapply espec_chk; [apply (grow_spec X _ K); lia | eauto |]. intros X1 EX1.
  eapply espec_chk; [apply (grow_spec (mk_mpi 0 []) _ K); lia | eauto |]. intros w1 ->. cbn [mp_p with_p app length].
  eapply espec_chk; [apply (grow_spec shmpi_init _ K); lia | eauto |]. intros T ->.
  set (A0 := argv X1 A).
  assert (mp_s A0 = mp_s a /\ mpi_ok A0 /\ mval A0 = mval a /\ mp_p A0 <> [] /\ (mlen A0 + 2 <= M)%nat) as (S0 & O0 & V0 & N0 & L0).
  { unfold A0, a in *. destruct A as [|A']; cbn [argv] in *; [|done]. rewrite EX1. unfold mval. cbn [with_p mp_s mp_p]. rewrite lval_app, lval_zeros, length_app, length_zeros.
    split; [done |]. split; [split; [apply HA | apply limbs_app; split; [apply HA | apply limbs_zeros]] |]. split; [lia |]. split; [destruct (mp_p X); done | lia]. }
  assert (n + 1 <= mlen X1)%nat as LX1 by (rewrite EX1; cbn [with_p mp_p]; rewrite length_app, length_zeros; lia).
  rewrite S0. fold neg. assert (1 <= msz A0 <= mlen A0)%nat as LA0 by (split; [unfold msz; lia | rewrite <- msz_top; by apply top_lt]).
  eapply (espec_chk _ _ _ _ (fun A1 => let B := if neg then with_s 1 A1 else A1 in mp_s B = 1 /\ mpi_ok B /\ mval B = Z.abs (mval a) /\ mp_p B <> [] /\ (mlen B + 2 <= M)%nat)); [| eauto |].
  { rewrite <- V0. destruct (ok_s _ O0) as [Hs|Hs]; assert (neg = (mp_s A0 =? -1)) as -> by (by rewrite S0); rewrite Hs; cbn [Z.eqb Pos.eqb].
    - apply spec_done. pose proof (lval_range _ (ok_p _ O0)). split_and!; try done. unfold mval. rewrite Hs. lia.
    - eapply spec_mono; [reflexivity | |apply (copy_spec shmpi_init A0 K); [apply O0 | lia]]. intros A1 HC.
      pose proof (lval_range _ (cp_limbs _ _ _ HC)). pose proof (cp_len _ _ _ HC N0) as HL. cbn [shmpi_init mp_p length] in HL. unfold mval. cbn [with_s mp_s mp_p]. rewrite Hs, (cp_lval _ _ _ HC) in *.
      split_and!; try done; [split; [by left | apply HC] | lia | intros E0; rewrite E0 in HL; cbn in HL; lia | lia]. }
  intros A1 HA1. cbn beta iota zeta in HA1 |- *. set (A2 := if neg then with_s 1 A1 else A1) in *. clearbody A2. clear A1. destruct HA1 as (S1 & O1 & V1 & N1 & L1).
  eapply (espec_chk _ _ _ _ (fun R => mpi_ok R /\ mval R = radix2 N /\ mp_p R <> [])); [| eauto |].
  { destruct RR as [[s [|x l]]|]; [|apply spec_done; unfold rr_ok in HRR; destruct HRR; done |];
      (eapply spec_mono; [reflexivity | |apply (exp_rr_spec N K M); (done || lia)]; intros R [Q1 Q2 Q3 Q4]; split; [done |]; split; [done |]; intros E0; rewrite E0 in Q3; cbn in Q3; lia). }
  intros R (OR & VR & NR). cbn beta.
  assert (rr_ok N (match RR with Some _ => Some R | None => None end)) as HRR' by (destruct RR; [|done]; cbn; destruct R as [sr [|xr lr]]; [done |]; done).
  rewrite cmp_mpi_spec by done. rewrite V1. set (av := Z.abs (mval a)) in *.
  eapply (espec_chk _ _ _ _ (fun w => limbs (mp_p w) /\ (n + 1 <= mlen w)%nat /\ lval (mp_p w) < bp n /\ lval (mp_p w) mod lval (mp_p N) = av mod lval (mp_p N))); [| eauto |].
  { pose proof (mval_abs _ O1) as AA. pose proof (lval_range _ (ok_p _ O1)). assert (0 <= mval A2) by (unfold mval; rewrite S1; lia). rewrite V1 in *.
    destruct (Z.leb_spec 0 (Z.sgn (av - mval N))).
    - eapply spec_mono; [reflexivity | |apply (mod_mpi_spec _ (Other A2) N K M); cbn [argv with_p mp_p]; try done; rewrite ?length_zeros; try lia].
      + intros w [Q1 Q2 Q3 Q4]. cbn [argv] in *. rewrite V1 in Q2. pose proof (Z.mod_pos_bound av (mval N) HNp). pose proof (mval_abs _ Q1). cbn [with_p mp_p] in Q3. rewrite length_zeros in Q3.
        split; [apply Q1 |]. split; [destruct (mp_p A2); [done | lia] |]. assert (lval (mp_p w) = av mod mval N) as Ew by lia. rewrite Ew, <- AN. split; [lia | apply Z.mod_mod; lia].
      + apply Z.lt_le_trans with (bp (S n)); [|apply bp_mono; lia]. rewrite bp_S. unfold beta. lia.
    - assert (msz A2 <= n)%nat by (apply sig_msz; [done | apply O1 | lia]).
      eapply spec_mono; [reflexivity | |apply (copy_spec _ A2 K); [apply O1 | lia]]. intros w HC. rewrite (cp_lval _ _ _ HC), (cp_len _ _ _ HC N1). cbn [with_p mp_p]. rewrite length_zeros.
      split; [apply HC |]. split; [lia |]. split; [lia |]. f_equal. lia. }
  intros w (W1 & W2 & W3 & W4). cbn beta.
  assert (length (mp_p (with_p (mp_p shmpi_init ++ zeros (Z.to_nat ((Z.of_nat n + 1) * 2) - mlen shmpi_init)) shmpi_init)) = 2 * (n + 1))%nat as -> by (cbn [with_p mp_p shmpi_init app length]; rewrite length_zeros; lia).
  destruct (exp_run_spec N n n0 mm (ok_p _ HN) eq_refl Hn0 Hmm Hinv ltac:(lia) ltac:(by rewrite <- AN) K av (window_size (shmpi_msb E)) (<[1%nat := w]> (replicate 128 (mk_mpi 0 []))) w X1 E R neg) as (X2 & e & -> & HX2);
    try done; try lia; [intros Hneg; specialize (HAs Hneg); rewrite EX1; cbn [with_p mp_p]; rewrite length_app, length_zeros; lia | destruct (ok_s _ HN) as [|Hs]; [done | unfold mval in HNp; rewrite Hs in HNp; lia] | apply window_size_range | unfold radix2 in VR; fold n in VR; by rewrite <- AN | apply HE |].
  cbn [obind fst snd]. eexists _, _, e. split; [done |]. destruct HX2 as [(-> & O2 & V2 & L2)|HX2]; [left | by right]. split; [done |]. split; [done |]. rewrite V2, <- AN.
  split; [f_equal; rewrite <- (mval_abs _ HE); lia |]. split; [done |]. split; [by destruct RR |].
  intros Hneg. rewrite (L2 Hneg), EX1. cbn [with_p mp_p]. rewrite length_app, length_zeros. fold n. lia.
Qed.
End exponentiation.

(** ** Modular exponentiation *)

(** C3: for an odd positive modulus, an exponent that is not negative and a
    base that has been assigned (it has limbs), of any sizes, the sliding-window
    exponentiation in Montgomery form ends.  For a base that is not negative it
    gives the power of the base modulo the modulus.  For a negative base it gives
    the modulus less the power of the absolute value, whatever the exponent, which
    is the power of the base only for odd exponents, and is the modulus itself
    instead of zero.  All of this also when the base is the destination, when the
    square of the radix is given by an earlier call, and when it is to be kept for
    a later one. *)
Theorem shmpi_exp_mod_refines {ml : malloc} X A E N RR K :
  let a := argv X A in let M := Nat.max (mlen a + 2) (2 * mlen N + 3) in
  mpi_ok a -> mp_p a <> [] -> mpi_ok E -> 0 <= mval E -> mpi_ok N -> 0 < mval N -> Z.odd (mval N) = true -> rr_ok N RR ->
  Z.of_nat M < 2 ^ 40 -> Z.of_nat M + 4 <= K -> Z.of_nat (mlen X) <= K ->
  espec K (shmpi_exp_mod X A E N RR) (fun X' RR' =>
    mpi_ok X' /\ rr_ok N RR' /\ (RR = None <-> RR' = None) /\
    (mp_s a = 1 -> mval X' = mval a ^ mval E mod mval N) /\
    (mp_s a = -1 -> mval X' = mval N - (- mval a) ^ mval E mod mval N)).
Proof.
  intros a M Ha ? ? ? ? ? ? ? ? ? ?. apply (espec_mono K) with (2 := exp_mod_spec X A E N RR K M ltac:(done) ltac:(done) ltac:(done) ltac:(done) ltac:(done) ltac:(done) ltac:(done) ltac:(done) ltac:(done) ltac:(subst a M; lia) ltac:(subst a M; lia) ltac:(done) ltac:(done)).
  fold a. intros X' RR' (Q1 & Q2 & Q3 & Q4 & _). pose proof (lval_range _ (ok_p _ Ha)). unfold exp_value in Q2.
  split_and!; try done; intros Hs; rewrite Hs in Q2; cbn in Q2; rewrite Q2; repeat f_equal; unfold mval; rewrite Hs; lia.
Qed.

(** A power of a number of two limbs, into the base itself, and a power of a
    negative number. *)
Lemma shmpi_exp_mod_refines_witness :
  (exists X' RR', @shmpi_exp_mod ex_malloc ex_big Self (mk_mpi 1 [10]) (mk_mpi 1 [1; 7]) (Some shmpi_init) = Done (X', RR', 0) /\
    mval X' = (2 ^ 128 - 1) ^ 10 mod (1 + 7 * 2 ^ 64)) /\
  exists X' RR', @shmpi_exp_mod ex_malloc shmpi_init (Other (mk_mpi (-1) [2])) (mk_mpi 1 [3]) (mk_mpi 1 [7; 1]) None = Done (X', RR', 0) /\
    mval X' = (-2) ^ 3 mod (7 + 2 ^ 64).
Proof.
  assert (mpi_ok ex_big) as Ha by (by apply mpi_okb_ok). assert (mpi_ok (mk_mpi 1 [10])) as HE by (by apply mpi_okb_ok).
  assert (mpi_ok (mk_mpi 1 [1; 7])) as HN by (by apply mpi_okb_ok). assert (mpi_ok (mk_mpi (-1) [2])) as Hb by (by apply mpi_okb_ok).
  assert (mpi_ok (mk_mpi 1 [3])) as HE3 by (by apply mpi_okb_ok). assert (mpi_ok (mk_mpi 1 [7; 1])) as HN7 by (by apply mpi_okb_ok).
  split.
  - destruct (@shmpi_exp_mod_refines ex_malloc ex_big Self (mk_mpi 1 [10]) (mk_mpi 1 [1; 7]) (Some shmpi_init) 11
      Ha ltac:(discriminate) HE ltac:(discriminate) HN eq_refl eq_refl I eq_refl ltac:(discriminate) ltac:(discriminate))
      as (X' & RR' & e & H1 & [[-> (_ & _ & _ & H2 & _)]|[_ [(n & _ & Hn)|H2]]]); [|discriminate|discriminate].
    exists X', RR'. split; [exact H1 | exact (H2 eq_refl)].
  - destruct (@shmpi_exp_mod_refines ex_malloc shmpi_init (Other (mk_mpi (-1) [2])) (mk_mpi 1 [3]) (mk_mpi 1 [7; 1]) None 11
      Hb ltac:(discriminate) HE3 ltac:(discriminate) HN7 eq_refl eq_refl I eq_refl ltac:(discriminate) ltac:(discriminate))
      as (X' & RR' & e & H1 & [[-> (_ & _ & _ & _ & H2)]|[_ [(n & _ & Hn)|H2]]]); [|discriminate|discriminate].
    exists X', RR'. split; [exact H1 | exact (H2 eq_refl)].
Defined.

(** The compensation for a negative base is wrong for even exponents:
    [(-2)^2 mod 7] comes out as [3]. *)
Theorem shmpi_exp_mod_negative :
  exists X' RR', @shmpi_exp_mod ex_malloc shmpi_init (Other (mk_mpi (-1) [2])) (mk_mpi 1 [2]) (mk_mpi 1 [7]) None = Done (X', RR', 0) /\ mval X' = 3.
Proof. eexists _, _. split; vm_compute; reflexivity. Qed.

(** A base that was never assigned has no limbs, and its first one is tested. *)
Theorem shmpi_exp_mod_unset :
  @shmpi_exp_mod ex_malloc shmpi_init (Other shmpi_init) (mk_mpi 1 [2]) (mk_mpi 1 [7]) None = Fault.
Proof. vm_compute. reflexivity. Qed.
