(* ===== verification/ShMpiNum.v ===== *)
(** * Multi-precision integers: divisors, inverses and primes

    Models the number theory of [share-lib/mem/shmem_mpi.c]: the binary greatest
    common divisor, the modular inverse, the tests for primes and the search for
    primes.

    The source of random bytes [f_rng] is a parameter: it takes the state [p_rng]
    and a count, and returns the new state, the bytes and an error.  The loops of
    the divisor and of the inverse halve a number in each round, so the bits of
    their numbers bound the rounds; the search for a prime takes its fuel as an
    argument. *)

From Stdlib Require Import ZArith Lia.
From stdpp Require Import base numbers list.
From S2P Require Import Prelude ShMpi ShMpiDiv ShMpiText ShMpiExp.

Open Scope Z_scope.
Open Scope share_scope.

Section operations.
Context {ml : malloc}.

(** ** Greatest common divisor *)

(** The result is [TB] and the error. *)
Fixpoint gcd_loop (fuel : nat) (TA TB : shmpi) : outcome (shmpi * Z) :=
  c <-! shmpi_cmp_int TA 0;
  if c =? 0 then Done (TB, 0)
  else
    match fuel with
    | O => Fault
    | S f =>
        TA <-? shmpi_shift_r TA (shmpi_lsb TA) leaving TB;
        TB <-? shmpi_shift_r TB (shmpi_lsb TB);
        if 0 <=? shmpi_cmp_mpi TA TB then
          TA <-? shmpi_sub_abs TA Self (Other TB) leaving TB;
          TA <-? shmpi_shift_r TA 1 leaving TB;
          gcd_loop f TA TB
        else
          TB <-? shmpi_sub_abs TB Self (Other TA);
          TB <-? shmpi_shift_r TB 1;
          gcd_loop f TA TB
    end.

(** The operands are copied before [G] changes. *)
Definition shmpi_gcd (G : shmpi) (A B : arg) : outcome (shmpi * Z) :=
  TA <-? shmpi_copy shmpi_init (Other (argv G A)) leaving G;
  TB <-? shmpi_copy shmpi_init (Other (argv G B)) leaving G;
  let lz := Z.min (shmpi_lsb TA) (shmpi_lsb TB) in
  TA <-? shmpi_shift_r TA lz leaving G;
  TB <-? shmpi_shift_r TB lz leaving G;
  let TA := with_s 1 TA in
  let TB := with_s 1 TB in
  TB <-? gcd_loop (Z.to_nat (shmpi_msb TA + shmpi_msb TB)) TA TB leaving G;
  TB <-? shmpi_shift_l TB lz leaving G;
  shmpi_copy G (Other TB).

(** ** Modular inverse *)

(** The lowest bit of a number. *)
Definition odd_limb (X : shmpi) : outcome bool := x <-! limb (mp_p X) 0; Done (negb (Z.land x 1 =? 0)).

(** A number of the loop with its two coefficients: [TU], [U1], [U2] or [TV], [V1],
    [V2]. *)
Record triple : Type := mk_triple { tr_n : shmpi; tr_1 : shmpi; tr_2 : shmpi }.

(** A result, or the error that ends the function. *)
Definition inv_call {R} (m : outcome (shmpi * Z)) (k : shmpi -> outcome (R + Z)) : outcome (R + Z) :=
  chk m (fun _ ret => Done (inr ret)) k.
Definition inv_bind {R S} (m : outcome (R + Z)) (k : R -> outcome (S + Z)) : outcome (S + Z) :=
  r <-! m; match r with inl r => k r | inr e => Done (inr e) end.

(** [while( ( TU.p[0] & 1 ) == 0 )]. *)
Fixpoint inv_halve (fuel : nat) (u : triple) (TA TB : shmpi) : outcome (triple + Z) :=
  odd <-! odd_limb (tr_n u);
  if odd : bool then Done (inl u)
  else
    match fuel with
    | O => Fault
    | S f =>
        inv_call (shmpi_shift_r (tr_n u) 1) (fun TU =>
        o1 <-! odd_limb (tr_1 u);
        o2 <-! (if o1 : bool then Done true else odd_limb (tr_2 u));
        inv_call (if o2 : bool then shmpi_add_mpi (tr_1 u) Self (Other TB) else Done (tr_1 u, 0)) (fun U1 =>
        inv_call (if o2 : bool then shmpi_sub_mpi (tr_2 u) Self (Other TA) else Done (tr_2 u, 0)) (fun U2 =>
        inv_call (shmpi_shift_r U1 1) (fun U1 =>
        inv_call (shmpi_shift_r U2 1) (fun U2 =>
        inv_halve f (mk_triple TU U1 U2) TA TB)))))
    end.

(** [u - v], for the number and both coefficients. *)
Definition inv_sub (u v : triple) : outcome (triple + Z) :=
  inv_call (shmpi_sub_mpi (tr_n u) Self (Other (tr_n v))) (fun TU =>
  inv_call (shmpi_sub_mpi (tr_1 u) Self (Other (tr_1 v))) (fun U1 =>
  inv_call (shmpi_sub_mpi (tr_2 u) Self (Other (tr_2 v))) (fun U2 =>
  Done (inl (mk_triple TU U1 U2))))).

(** [do { ... } while( shmpi_cmp_int( &TU, 0 ) != 0 )]; the result is the triple of
    [TV]. *)
Fixpoint inv_loop (fuel : nat) (u v : triple) (TA TB : shmpi) : outcome (triple + Z) :=
  match fuel with
  | O => Fault
  | S f =>
      inv_bind (inv_halve (Z.to_nat (shmpi_msb (tr_n u))) u TA TB) (fun u =>
      inv_bind (inv_halve (Z.to_nat (shmpi_msb (tr_n v))) v TA TB) (fun v =>
      inv_bind (if 0 <=? shmpi_cmp_mpi (tr_n u) (tr_n v)
                then inv_bind (inv_sub u v) (fun u => Done (inl (u, v)))
                else inv_bind (inv_sub v u) (fun v => Done (inl (u, v)))) (fun uv =>
      let '(u, v) := uv in
      c <-! shmpi_cmp_int (tr_n u) 0;
      if negb (c =? 0) then inv_loop f u v TA TB else Done (inl v))))
  end.

(** Each round of the loop halves a number, and adds at most half the modulus to a
    coefficient: the bits of the numbers bound all three loops. *)
Definition shmpi_inv_mod (X : shmpi) (A : arg) (N : shmpi) : outcome (shmpi * Z) :=
  c <-! shmpi_cmp_int N 0;
  if c <=? 0 then Done (X, SHMPI_ERR_BAD_INPUT_DATA)
  else
    G <-? shmpi_gcd shmpi_init (Other (argv X A)) (Other N) leaving X;
    c <-! shmpi_cmp_int G 1;
    if negb (c =? 0) then Done (X, SHMPI_ERR_NOT_ACCEPTABLE)
    else
      TA <-? shmpi_mod_mpi shmpi_init (Other (argv X A)) (Other N) leaving X;
      TU <-? shmpi_copy shmpi_init (Other TA) leaving X;
      TB <-? shmpi_copy shmpi_init (Other N) leaving X;
      TV <-? shmpi_copy shmpi_init (Other N) leaving X;
      U1 <-? shmpi_lset shmpi_init 1 leaving X;
      U2 <-? shmpi_lset shmpi_init 0 leaving X;
      V1 <-? shmpi_lset shmpi_init 0 leaving X;
      V2 <-? shmpi_lset shmpi_init 1 leaving X;
      let fuel := S (Z.to_nat (shmpi_msb TU + shmpi_msb TV)) in
      r <-! inv_loop fuel (mk_triple TU U1 U2) (mk_triple TV V1 V2) TA TB;
      match r with
      | inr e => Done (X, e)
      | inl v =>
          V1 <-? mod_up fuel (tr_1 v) (Other N) leaving X;
          V1 <-? mod_down fuel V1 (Other N) leaving X;
          shmpi_copy X (Other V1)
      end.

(** ** Primes *)

Definition small_prime : list Z :=
  [3; 5; 7; 11; 13; 17; 19; 23;
   29; 31; 37; 41; 43; 47; 53; 59;
   61; 67; 71; 73; 79; 83; 89; 97;
   101; 103; 107; 109; 113; 127; 131; 137;
   139; 149; 151; 157; 163; 167; 173; 179;
   181; 191; 193; 197; 199; 211; 223; 227;
   229; 233; 239; 241; 251; 257; 263; 269;
   271; 277; 281; 283; 293; 307; 311; 313;
   317; 331; 337; 347; 349; 353; 359; 367;
   373; 379; 383; 389; 397; 401; 409; 419;
   421; 431; 433; 439; 443; 449; 457; 461;
   463; 467; 479; 487; 491; 499; 503; 509;
   521; 523; 541; 547; 557; 563; 569; 571;
   577; 587; 593; 599; 601; 607; 613; 617;
   619; 631; 641; 643; 647; 653; 659; 661;
   673; 677; 683; 691; 701; 709; 719; 727;
   733; 739; 743; 751; 757; 761; 769; 773;
   787; 797; 809; 811; 821; 823; 827; 829;
   839; 853; 857; 859; 863; 877; 881; 883;
   887; 907; 911; 919; 929; 937; 941; 947;
   953; 967; 971; 977; 983; 991; 997; -103].

(** [for( i = 0; small_prime[i] > 0; i++ )]. *)
Fixpoint small_factors (ps : list Z) (X : shmpi) : outcome Z :=
  match ps with
  | [] => Fault
  | p :: ps' =>
      if 0 <? p then
        c <-! shmpi_cmp_int X p;
        if c <=? 0 then Done 1
        else
          m <-! shmpi_mod_int X p;
          match m with
          | (Some r, 0) => if r =? 0 then Done SHMPI_ERR_NOT_ACCEPTABLE else small_factors ps' X
          | (_, e) => Done e
          end
      else Done 0
  end.
Definition shmpi_check_small_factors (X : shmpi) : outcome Z :=
  odd <-! odd_limb X;
  if odd : bool then small_factors small_prime X else Done SHMPI_ERR_NOT_ACCEPTABLE.

Section random.
Context {G : Type} (f_rng : G -> Z -> G * list Z * Z).

(** The result is [X], the state of the source, and the error. *)
Definition shmpi_fill_random (X : shmpi) (size : Z) (g : G) : outcome (shmpi * G * Z) :=
  if MPI_MPI_MAX_SIZE <? size then Done (X, g, SHMPI_ERR_BAD_INPUT_DATA)
  else
    let '(g, buf, e) := f_rng g size in
    if negb (e =? 0) then Done (X, g, e)
    else r <-! shmpi_read_binary X buf; Done (fst r, g, snd r).

(** [do { ... } while]: a base, at most [fuel] tries are left; [None] as the base
    ends the function with the error. *)
Fixpoint mr_base (fuel : nat) (A X W : shmpi) (g : G) : outcome (option shmpi * G * Z) :=
  r <-! shmpi_fill_random A (mp_n X * ciL) g;
  let '(A, g, e) := r in
  if negb (e =? 0) then Done (None, g, e)
  else
    let j := shmpi_msb A in
    let k := shmpi_msb W in
    chk (if k <? j then shmpi_shift_r A (j - k) else Done (A, 0)) (fun _ ret => Done (None, g, ret)) (fun A =>
    match fuel with
    | O => Done (None, g, SHMPI_ERR_NOT_ACCEPTABLE)
    | S f =>
        c <-! shmpi_cmp_int A 1;
        if (0 <=? shmpi_cmp_mpi A W) || (c <=? 0) then mr_base f A X W g else Done (Some A, g, 0)
    end).

(** [while( j < s && shmpi_cmp_mpi( &A, &W ) != 0 )]; [k] is [s - j].  The result is
    [A], [T] and the error. *)
Fixpoint mr_squares (k : nat) (A T X W : shmpi) : outcome (shmpi * shmpi * Z) :=
  match k with
  | O => Done (A, T, 0)
  | S k' =>
      if shmpi_cmp_mpi A W =? 0 then Done (A, T, 0)
      else
        chk (shmpi_mul_mpi T (Other A) (Other A)) (fun T ret => Done (A, T, ret)) (fun T =>
        chk (shmpi_mod_mpi A (Other T) (Other X)) (fun A ret => Done (A, T, ret)) (fun A =>
        c <-! shmpi_cmp_int A 1;
        if c =? 0 then Done (A, T, 0) else mr_squares k' A T X W))
  end.

(** [for( i = 0; i < n; i++ )], [n] rounds are left. *)
Fixpoint mr_rounds (n : nat) (A T X W R : shmpi) (RR : option shmpi) (s : Z) (g : G) : outcome (G * Z) :=
  match n with
  | O => Done (g, 0)
  | S n' =>
      b <-! mr_base 31 A X W g;
      match b with
      | (None, g, e) => Done (g, e)
      | (Some A, g, _) =>
          w <-! shmpi_exp_mod A Self R X RR;
          let '(A, RR, e) := w in
          if negb (e =? 0) then Done (g, e)
          else
            c <-! shmpi_cmp_int A 1;
            if (shmpi_cmp_mpi A W =? 0) || (c =? 0) then mr_rounds n' A T X W R RR s g
            else
              w <-! mr_squares (Z.to_nat (s - 1)) A T X W;
              let '(A, T, e) := w in
              if negb (e =? 0) then Done (g, e)
              else
                c <-! shmpi_cmp_int A 1;
                if negb (shmpi_cmp_mpi A W =? 0) || (c =? 0) then Done (g, SHMPI_ERR_NOT_ACCEPTABLE)
                else mr_rounds n' A T X W R RR s g
      end
  end.

Definition mr_count (i : Z) : nat :=
  if 1300 <=? i then 2 else if 850 <=? i then 3 else if 650 <=? i then 4 else if 350 <=? i then 8
  else if 250 <=? i then 12 else if 150 <=? i then 18 else 27.

(** The result is the state of the source and the error. *)
Definition shmpi_miller_rabin (X : shmpi) (g : G) : outcome (G * Z) :=
  let fail {T} (_ : T) (ret : Z) : outcome (G * Z) := Done (g, ret) in
  chk (shmpi_sub_int shmpi_init (Other X) 1) fail (fun W =>
  let s := shmpi_lsb W in
  chk (shmpi_copy shmpi_init (Other W)) fail (fun R =>
  chk (shmpi_shift_r R s) fail (fun R =>
  mr_rounds (mr_count (shmpi_msb X)) shmpi_init shmpi_init X W R (Some shmpi_init) s g))).

Definition shmpi_is_prime (X : shmpi) (g : G) : outcome (G * Z) :=
  let XX := with_s 1 X in
  c0 <-! shmpi_cmp_int XX 0;
  c1 <-! shmpi_cmp_int XX 1;
  if (c0 =? 0) || (c1 =? 0) then Done (g, SHMPI_ERR_NOT_ACCEPTABLE)
  else
    c2 <-! shmpi_cmp_int XX 2;
    if c2 =? 0 then Done (g, 0)
    else
      ret <-! shmpi_check_small_factors XX;
      if negb (ret =? 0) then Done (g, if ret =? 1 then 0 else ret)
      else shmpi_miller_rabin XX g.

(** [while( ( ret = shmpi_is_prime( ... ) ) != 0 )]. *)
Fixpoint gen_loop (fuel : nat) (X : shmpi) (g : G) : outcome (shmpi * G * Z) :=
  match fuel with
  | O => Fault
  | S f =>
      r <-! shmpi_is_prime X g;
      let '(g, ret) := r in
      if ret =? 0 then Done (X, g, 0)
      else if negb (ret =? SHMPI_ERR_NOT_ACCEPTABLE) then Done (X, g, ret)
      else chk (shmpi_add_int X Self 2) (fun X ret => Done (X, g, ret)) (fun X => gen_loop f X g)
  end.

(** The four tests, in their order. *)
Definition gen_safe_test (X Y : shmpi) (g : G) : outcome (G * Z) :=
  ret <-! shmpi_check_small_factors X;
  if negb (ret =? 0) then Done (g, ret)
  else
    ret <-! shmpi_check_small_factors Y;
    if negb (ret =? 0) then Done (g, ret)
    else
      r <-! shmpi_miller_rabin X g;
      let '(g, ret) := r in
      if negb (ret =? 0) then Done (g, ret) else shmpi_miller_rabin Y g.

Fixpoint gen_safe_loop (fuel : nat) (X Y : shmpi) (g : G) : outcome (shmpi * G * Z) :=
  match fuel with
  | O => Fault
  | S f =>
      r <-! gen_safe_test X Y g;
      let '(g, ret) := r in
      if ret =? 0 then Done (X, g, 0)
      else if negb (ret =? SHMPI_ERR_NOT_ACCEPTABLE) then Done (X, g, ret)
      else
        chk (shmpi_add_int X Self 12) (fun X ret => Done (X, g, ret)) (fun X =>
        chk (shmpi_add_int Y Self 6) (fun _ ret => Done (X, g, ret)) (fun Y =>
        gen_safe_loop f X Y g))
  end.

Definition shmpi_gen_prime (fuel : nat) (X : shmpi) (nbits dh_flag : Z) (g : G) : outcome (shmpi * G * Z) :=
  if (nbits <? 3) || (MPI_MPI_MAX_BITS <? nbits) then Done (X, g, SHMPI_ERR_BAD_INPUT_DATA)
  else
    let n := BITS_TO_LIMBS nbits in
    r <-! shmpi_fill_random X (n * ciL) g;
    let '(X, g, e) := r in
    if negb (e =? 0) then Done (X, g, e)
    else
      let fail X ret := Done (X, g, ret) in
      let k := shmpi_msb X in
      chk (if nbits <? k then shmpi_shift_r X (k - nbits + 1) else Done (X, 0)) fail (fun X =>
      r <-! shmpi_set_bit X (nbits - 1) 1;
      X <-! or_limb (fst r) 0 1;
      if dh_flag =? 0 then gen_loop fuel X g
      else
        X <-! or_limb X 0 2;
        m <-! shmpi_mod_int X 3;
        match m with
        | (Some r, 0) =>
            chk (if r =? 0 then shmpi_add_int X Self 8 else if r =? 1 then shmpi_add_int X Self 4 else Done (X, 0)) fail (fun X =>
            chk (shmpi_copy shmpi_init (Other X)) (fun _ ret => Done (X, g, ret)) (fun Y =>
            chk (shmpi_shift_r Y 1) (fun _ ret => Done (X, g, ret)) (fun Y =>
            gen_safe_loop fuel X Y g)))
        | (_, e) => Done (X, g, e)
        end).

End random.
End operations.
