(* ===== verification/ShMpiNumOk.v ===== *)
(** * Multi-precision integers: the divisor and the inverse are right

    The binary algorithms of [ShMpiNum.v] end within the rounds the bits of their
    numbers allow, and compute the greatest common divisor and the modular
    inverse. *)

From Stdlib Require Import ZArith Znumtheory Lia.
From stdpp Require Import base numbers list.
From S2P Require Import Prelude ShMpi ShMpiVal ShMpiArith ShMpiBits ShMpiDiv ShMpiDivOk ShMpiText ShMpiExp ShMpiNum.

Open Scope Z_scope.
Open Scope share_scope.

(** ** Divisors of odd numbers *)

Lemma odd_coprime_pow o k : 0 <= k -> Z.gcd (2 ^ k) (2 * o + 1) = 1.
Proof.
  intros Hk. apply Z.coprime_pow_l; [done |]. apply Z.coprime_Bezout. exists (- o), 1. lia.
Qed.

Lemma gcd_pow2 a o k : 0 <= k -> Z.gcd (a * 2 ^ k) (2 * o + 1) = Z.gcd a (2 * o + 1).
Proof.
  intros Hk. pose proof (odd_coprime_pow o k Hk) as H1. apply Z.gcd_unique; [apply Z.gcd_nonneg | | apply Z.gcd_divide_r |].
  - apply Z.divide_mul_l, Z.gcd_divide_l.
  - intros d Hd1 Hd2. apply Z.gcd_greatest; [|done]. rewrite Z.mul_comm in Hd1. apply (Z.gauss d (2 ^ k) a Hd1).
    apply Z.divide_1_r_nonneg; [apply Z.gcd_nonneg |]. rewrite <- H1.
    apply Z.gcd_greatest; [apply Z.gcd_divide_r |]. etransitivity; [apply Z.gcd_divide_l | done].
Qed.

Lemma nbits_half v : 0 < v -> nbits (v / 2) = nbits v - 1.
Proof.
  intros Hv. destruct (Z.eq_dec v 1) as [->|]; [reflexivity |]. pose proof (nbits_lower v Hv). pose proof (nbits_upper v ltac:(lia)).
  assert (2 <= nbits v). { destruct (Z.eq_dec (nbits v) 1) as [E|]; [rewrite E in *; lia |]. pose proof (nbits_pos v Hv). lia. }
  replace (nbits v - 1) with (nbits v - 2 + 1) by lia. apply nbits_unique; [lia |].
  replace (nbits v - 2 + 1) with (nbits v - 1) by lia.
  assert (2 ^ (nbits v - 1) = 2 * 2 ^ (nbits v - 2)) by (rewrite <- Z.pow_succ_r by lia; f_equal; lia).
  assert (2 ^ nbits v = 2 * 2 ^ (nbits v - 1)) by (rewrite <- Z.pow_succ_r by lia; f_equal; lia). mlia.
Qed.

(** A round: two odd numbers, the larger of which loses the smaller and is halved. *)
Lemma gcd_round o p : Z.gcd ((2 * o + 1 - (2 * p + 1)) / 2) (2 * p + 1) = Z.gcd (2 * o + 1) (2 * p + 1).
Proof.
  replace (2 * o + 1 - (2 * p + 1)) with ((o - p) * 2) by lia. rewrite Z.div_mul by lia.
  rewrite <- (gcd_pow2 (o - p) p 1) by lia. rewrite Z.pow_1_r, Z.gcd_comm.
  replace (2 * o + 1) with ((o - p) * 2 + 1 * (2 * p + 1)) by lia. rewrite (Z.gcd_comm ((o - p) * 2 + 1 * (2 * p + 1))), Z.gcd_add_mult_diag_r. done.
Qed.

Section divisor.
Context {ml : malloc}.

(** A number of the loops: not negative, in a block of a fixed size. *)
Definition plain (v : Z) (n : nat) (X : shmpi) : Prop := mp_s X = 1 /\ limbs (mp_p X) /\ lval (mp_p X) = v /\ mlen X = n.

Lemma plain_ok v n X : plain v n X -> mpi_ok X /\ mval X = v.
Proof. intros (H1 & H2 & H3 & _). split; [split; [rewrite H1; by left | done] |]. unfold mval. rewrite H1, H3. lia. Qed.

Lemma plain_len v n X : plain v n X -> 0 < v -> (1 <= n)%nat.
Proof. intros (_ & _ & H3 & <-) Hv. destruct (mp_p X); cbn in *; lia. Qed.

Lemma shift_plain X v n k K : plain v n X -> 0 <= k -> (1 <= n)%nat -> 1 <= K -> spec K (shmpi_shift_r X k) (plain (v / 2 ^ k) n).
Proof.
  intros (H1 & H2 & H3 & H4) Hk Hn HK. eapply spec_mono; [reflexivity | |apply (shift_r_spec X k K); done].
  intros X' (A1 & A2 & A3 & A4). rewrite H3 in A2. split; [destruct A4 as [->|[? _]]; done |]. split; [done |]. split; [done | lia].
Qed.

Lemma sub_plain X v n Y w m K :
  plain v n X -> plain w m Y -> w <= v -> (1 <= n)%nat -> Z.of_nat n <= K -> spec K (shmpi_sub_abs X Self (Other Y)) (plain (v - w) n).
Proof.
  intros (H1 & H2 & H3 & H4) (G1 & G2 & G3 & G4) Hle Hn HK. pose proof (lval_range _ H2) as R. rewrite H4 in R.
  eapply spec_mono; [reflexivity | |apply (sub_abs_spec X Self (Other Y) n n K); cbn [argv]; try done; try lia].
  - intros X' [A1 A2 A3 A4 A5]. cbn [argv] in A3. rewrite H3, G3 in A3. split; [done |]. split; [done |]. split; [done | lia].
  - apply keeps_self; lia.
Qed.

Lemma lsb_plain X v n : plain v n X -> 0 < v -> 0 <= shmpi_lsb X /\ exists o, v / 2 ^ shmpi_lsb X = 2 * o + 1 /\ v = (2 * o + 1) * 2 ^ shmpi_lsb X /\ 0 <= o.
Proof.
  intros (H1 & H2 & H3 & H4) Hv. destruct (lsb_spec X H2 ltac:(lia)) as (Hk & o & Ho). rewrite H3 in Ho. split; [done |]. exists o.
  assert (0 < 2 ^ shmpi_lsb X) by lia. split; [rewrite Ho at 1; by rewrite Z.div_mul by lia |]. split; [done | nia].
Qed.

Lemma gcd_loop_spec fuel a b n m TA TB K :
  plain a n TA -> plain b m TB -> 0 <= a -> 0 < b -> a = 0 \/ Z.odd a || Z.odd b -> nbits a + nbits b <= Z.of_nat fuel ->
  Z.of_nat (Nat.max n m) <= K -> spec K (gcd_loop fuel TA TB) (plain (Z.gcd a b) m).
Proof.
  revert a b TA TB. induction fuel as [|f IH]; intros a b TA TB HA HB Ha Hb Hodd Hf HK; cbn [gcd_loop];
    destruct (plain_ok _ _ _ HA) as [OA VA]; rewrite cmp_zero_spec, VA by done; cbn [obind]; destruct (Z.eqb_spec (Z.sgn a) 0) as [E|E];
    try (apply spec_done; assert (a = 0) as -> by lia; rewrite Z.gcd_0_l, Z.abs_eq by lia; done).
  { pose proof (nbits_pos a ltac:(lia)). pose proof (nbits_pos b Hb). lia. }
  destruct Hodd as [Hodd|Hodd]; [lia |]. pose proof (plain_len _ _ _ HA ltac:(lia)) as Hn. pose proof (plain_len _ _ _ HB Hb) as Hm.
  destruct (lsb_plain _ _ _ HA ltac:(lia)) as (Hka & o & Eo & Ea & Po). destruct (lsb_plain _ _ _ HB Hb) as (Hkb & p & Ep & Eb & Pp).
  assert (Z.gcd a b = Z.gcd (2 * o + 1) (2 * p + 1)) as EG.
  { destruct (Z.odd a) eqn:Oa.
    - assert (shmpi_lsb TA = 0) as Z0. { destruct (Z.eq_dec (shmpi_lsb TA) 0); [done |]. exfalso. rewrite Ea, Z.odd_mul, Z.odd_pow in Oa by lia. rewrite andb_false_r in Oa. done. }
      rewrite Z0, Z.pow_0_r, Z.mul_1_r in Ea. rewrite Ea, Eb, (Z.gcd_comm _ (_ * _)), gcd_pow2 by done. apply Z.gcd_comm.
    - cbn [orb] in Hodd. assert (shmpi_lsb TB = 0) as Z0. { destruct (Z.eq_dec (shmpi_lsb TB) 0); [done |]. exfalso. rewrite Eb, Z.odd_mul, Z.odd_pow in Hodd by lia. rewrite andb_false_r in Hodd. done. }
      rewrite Z0, Z.pow_0_r, Z.mul_1_r in Eb. rewrite Ea, Eb, gcd_pow2 by done. done. }
  rewrite EG. assert (nbits (2 * o + 1) <= nbits a) as Na by (apply nbits_mono; assert (0 < 2 ^ shmpi_lsb TA) by lia; nia).
  assert (nbits (2 * p + 1) <= nbits b) as Nb by (apply nbits_mono; assert (0 < 2 ^ shmpi_lsb TB) by lia; nia).
  eapply spec_chk; [apply (shift_plain TA a n _ K); (done || lia) | lia | eauto |]. intros TA1 HA1. rewrite Eo in HA1.
  eapply spec_chk; [apply (shift_plain TB b m _ K); (done || lia) | lia | eauto |]. intros TB1 HB1. rewrite Ep in HB1.
  destruct (plain_ok _ _ _ HA1) as [OA1 VA1], (plain_ok _ _ _ HB1) as [OB1 VB1]. rewrite cmp_mpi_spec, VA1, VB1 by done.
  destruct (Z.leb_spec 0 (Z.sgn (2 * o + 1 - (2 * p + 1)))).
  - eapply spec_chk; [apply (sub_plain TA1 (2 * o + 1) n TB1 (2 * p + 1) m K); (done || lia) | lia | eauto |]. intros TA2 HA2.
    eapply spec_chk; [eapply (shift_plain TA2 _ n 1 K); [exact HA2 | lia..] | lia | eauto |]. intros TA3 HA3. rewrite Z.pow_1_r in HA3.
    rewrite <- gcd_round. apply (IH _ _ TA3 TB1); try done; try lia.
    + apply Z.div_pos; lia.
    + right. rewrite orb_comm, Z.odd_add, Z.odd_mul. done.
    + pose proof (nbits_half (2 * o + 1) ltac:(lia)). pose proof (nbits_mono ((2 * o + 1 - (2 * p + 1)) / 2) ((2 * o + 1) / 2)) as Hmo.
      assert (0 <= (2 * o + 1 - (2 * p + 1)) / 2 <= (2 * o + 1) / 2) by mlia. lia.
  - eapply spec_chk; [apply (sub_plain TB1 (2 * p + 1) m TA1 (2 * o + 1) n K); (done || lia) | lia | eauto |]. intros TB2 HB2.
    eapply spec_chk; [eapply (shift_plain TB2 _ m 1 K); [exact HB2 | lia..] | lia | eauto |]. intros TB3 HB3. rewrite Z.pow_1_r in HB3.
    rewrite Z.gcd_comm, <- gcd_round, Z.gcd_comm. apply (IH _ _ TA1 TB3); try done; try lia.
    + mlia.
    + right. rewrite Z.odd_add, Z.odd_mul. done.
    + pose proof (nbits_half (2 * p + 1) ltac:(lia)). pose proof (nbits_mono ((2 * p + 1 - (2 * o + 1)) / 2) ((2 * p + 1) / 2)) as Hmo.
      assert (0 <= (2 * p + 1 - (2 * o + 1)) / 2 <= (2 * p + 1) / 2) by mlia. lia.
Qed.

Lemma shift_any X v n k K : plain v n X -> 0 <= k -> 1 <= K -> spec K (shmpi_shift_r X k) (fun X' => exists n', (n' <= Nat.max n 1)%nat /\ plain (v / 2 ^ k) n' X').
Proof.
  intros (H1 & H2 & H3 & H4) Hk HK. eapply spec_mono; [reflexivity | |apply (shift_r_spec X k K); done].
  intros X' (A1 & A2 & A3 & A4). rewrite H3 in A2. exists (mlen X'). split; [lia |]. split; [destruct A4 as [->|[? _]]; done |]. done.
Qed.

(** The power of two that both numbers have. *)
Lemma common_shift a b la lb o p :
  0 <= la -> 0 <= lb -> a = (2 * o + 1) * 2 ^ la -> b = (2 * p + 1) * 2 ^ lb ->
  let lz := Z.min la lb in Z.gcd a b = Z.gcd (a / 2 ^ lz) (b / 2 ^ lz) * 2 ^ lz /\ Z.odd (a / 2 ^ lz) || Z.odd (b / 2 ^ lz).
Proof.
  intros Hla Hlb Ea Eb lz.
  assert (forall l q, lz <= l -> 0 <= l -> (2 * q + 1) * 2 ^ l = (2 * q + 1) * 2 ^ (l - lz) * 2 ^ lz) as HE.
  { intros l q H1 H2. rewrite <- Z.mul_assoc, <- Z.pow_add_r by lia. do 2 f_equal. lia. }
  assert (0 < 2 ^ lz) by lia. rewrite Ea, Eb, (HE la o), (HE lb p) by lia. rewrite Z.gcd_mul_mono_r_nonneg, !Z.div_mul by lia. split; [done |].
  rewrite !Z.odd_mul, !Z.odd_add, !Z.odd_mul. cbn [Z.odd negb xorb andb].
  destruct (Z.min_spec la lb) as [[_ E]|[_ E]]; fold lz in E; rewrite E, Z.sub_diag, Z.pow_0_r; change (Z.odd 1) with true; [done | by rewrite orb_true_r].
Qed.

Lemma saved_plain X A K :
  mpi_ok A -> mlen X = 0%nat -> Z.of_nat (msz A) <= K ->
  spec K (shmpi_copy X (Other A)) (fun X' => limbs (mp_p X') /\ lval (mp_p X') = lval (mp_p A) /\ (mlen X' <= msz A)%nat).
Proof.
  intros HA HX HK. eapply spec_mono; [reflexivity | |apply (copy_spec X A K); [auto with mpi | done]].
  intros X' HC. split; [apply HC |]. split; [apply HC |]. pose proof (cp_le _ _ _ HC). lia.
Qed.

Lemma gcd_spec G A B K :
  let a := argv G A in let b := argv G B in
  mpi_ok a -> mpi_ok b -> mval b <> 0 -> Z.of_nat (Nat.max (msz a) (msz b)) <= K -> Z.of_nat (msz b) < 2 ^ 40 ->
  spec K (shmpi_gcd G A B) (sum_res (Z.gcd (mval a) (mval b)) (mlen G) (Nat.max (mlen G) (msz b))).
Proof.
  intros a b HA HB Hb HK Hsz. unfold shmpi_gcd. fold a b.
  assert (Z.gcd (mval a) (mval b) = Z.gcd (lval (mp_p a)) (lval (mp_p b))) as ->.
  { rewrite <- (Z.gcd_abs_l (mval a)), <- (Z.gcd_abs_r _ (mval b)), !mval_abs by done. done. }
  pose proof (mval_abs _ HB) as AB. pose proof (lval_range _ (ok_p _ HA)) as RA.
  set (va := lval (mp_p a)) in *. set (vb := lval (mp_p b)) in *. assert (0 < vb) as Pb by lia.
  eapply spec_chk; [apply (saved_plain shmpi_init a K); (done || lia) | lia | eauto |]. intros TA (L1 & V1 & M1). fold va in V1.
  eapply spec_chk; [apply (saved_plain shmpi_init b K); (done || lia) | lia | eauto |]. intros TB (L2 & V2 & M2). fold vb in V2.
  assert (plain va (mlen TA) (with_s 1 TA)) as PA by done. assert (plain vb (mlen TB) (with_s 1 TB)) as PB by done.
  pose proof (plain_len _ _ _ PB Pb) as NB.
  set (lz := Z.min (shmpi_lsb TA) (shmpi_lsb TB)).
  destruct (lsb_plain _ _ _ PB Pb) as (Hlb & p & Ep & Eb & Pp). change (shmpi_lsb (with_s 1 TB)) with (shmpi_lsb TB) in *.
  assert (0 <= lz /\ Z.gcd va vb = Z.gcd (va / 2 ^ lz) (vb / 2 ^ lz) * 2 ^ lz /\ (va / 2 ^ lz = 0 \/ Z.odd (va / 2 ^ lz) || Z.odd (vb / 2 ^ lz))) as (Hlz & EG & Hodd).
  { destruct (Z.eq_dec va 0) as [E0|E0].
    - assert (lz = 0) as -> by (unfold lz; rewrite (lsb_zero TA) by (done || lia); lia). rewrite Z.pow_0_r, !Z.div_1_r. split; [lia |]. split; [lia | by left].
    - destruct (lsb_plain _ _ _ PA ltac:(lia)) as (Hla & o & Eo & Ea & Po). change (shmpi_lsb (with_s 1 TA)) with (shmpi_lsb TA) in *.
      destruct (common_shift va vb _ _ o p Hla Hlb Ea Eb) as [H1 H2]. fold lz in H1, H2. split; [unfold lz; lia |]. split; [done | by right]. }
  assert (0 < 2 ^ lz) as Pz by lia.
  eapply spec_chk; [apply (shift_r_spec TA lz K); (done || lia) | lia | eauto |]. intros TA1 (A1 & A2 & A3 & _). rewrite V1 in A2.
  eapply spec_chk; [apply (shift_r_spec TB lz K); (done || lia) | lia | eauto |]. intros TB1 (B1 & B2 & B3 & _). rewrite V2 in B2.
  assert (plain (va / 2 ^ lz) (mlen TA1) (with_s 1 TA1)) as PA1 by done. assert (plain (vb / 2 ^ lz) (mlen TB1) (with_s 1 TB1)) as PB1 by done.
  assert (0 < vb / 2 ^ lz) as Pb1.
  { apply Z.div_str_pos. split; [done |]. rewrite Eb. assert (2 ^ lz <= 2 ^ shmpi_lsb TB) by (apply Z.pow_le_mono_r; unfold lz; lia). nia. }
  rewrite !msb_spec by done. cbn [with_s mp_p]. rewrite A2, B2.
  assert (msz a >= 1)%nat by (unfold msz; lia). assert (msz b >= 1)%nat by (unfold msz; lia).
  eapply spec_chk; [apply (gcd_loop_spec _ (va / 2 ^ lz) (vb / 2 ^ lz) (mlen TA1) (mlen TB1) _ _ K); try done | lia | eauto |].
  { apply Z.div_pos; lia. } { pose proof (nbits_nonneg (va / 2 ^ lz)). pose proof (nbits_nonneg (vb / 2 ^ lz)). lia. } { lia. }
  intros TB2 (C1 & C2 & C3 & C4).
  assert (Z.gcd va vb <= vb) as Hgl by (apply Z.divide_pos_le; [done | apply Z.gcd_divide_r]).
  pose proof (lval_range _ L2) as RB. rewrite V2, bp_pow in RB.
  assert (mlen TB1 = mlen TB) as LB by lia. assert (mlen TB2 = mlen TB) as LB2 by lia.
  assert (0 < Z.gcd va vb) as Pg by (pose proof (Z.gcd_nonneg va vb); assert (Z.gcd va vb <> 0) by (intros E0%Z.gcd_eq_0_r; lia); lia).
  assert (lval (mp_p TB2) * 2 ^ lz = Z.gcd va vb) as EV by (rewrite C3; done).
  assert (0 < lval (mp_p TB2)) as P2 by (rewrite C3 in *; clear - EV Pg Pz; nia).
  assert (nbits (lval (mp_p TB2)) + lz <= 64 * Z.of_nat (mlen TB)) as Hnb.
  { rewrite <- nbits_mul, EV by lia. apply nbits_le; lia. }
  pose proof (nbits_nonneg (lval (mp_p TB2))).
  eapply spec_chk; [apply (shift_l_spec TB2 lz (mlen TB) K); (done || lia) | lia | eauto |]. intros TB3 [[D1 D2 D3 D4 D5] _]. rewrite EV in D3. rewrite C1 in D1.
  assert (mpi_ok TB3) as O3 by (split; [rewrite D1; by left | done]).
  assert (msz TB3 <= msz b)%nat as HM3 by (unfold msz in *; pose proof (sig_le (mp_p TB3)); lia).
  eapply spec_mono; [reflexivity | |apply (copy_spec G TB3 K); [done | lia]]. intros G' HC.
  assert (mp_p TB3 <> []) as N3 by (intros E; rewrite E in D4; cbn in D4; lia).
  split; [by eapply copied_ok | | rewrite (cp_len _ _ _ HC N3); lia | etransitivity; [apply (cp_le _ _ _ HC) | lia]].
  rewrite (copied_mval _ _ _ O3 HC). unfold mval. rewrite D1, D3. lia.
Qed.
End divisor.

(** ** The modular inverse *)

Section inverse.
Context {ml : malloc}.

Definition ispec {R} (K : Z) (m : outcome (R + Z)) (P : R -> Prop) : Prop :=
  exists r, m = Done r /\ match r with inl r => P r | inr e => e = SHMPI_ERR_MALLOC_FAILED /\ nomem K end.

Lemma ispec_ret {R} K (r : R) (P : R -> Prop) : P r -> ispec K (Done (inl r)) P.
Proof. intros. by exists (inl r). Qed.
Lemma ispec_call {R} K m (k : shmpi -> outcome (R + Z)) P Q : spec K m P -> (forall X, P X -> ispec K (k X) Q) -> ispec K (inv_call m k) Q.
Proof.
  intros (X & e & -> & [[-> H]|[-> H]]) Hk; unfold inv_call, chk; cbn [obind fst snd]; [by apply Hk |].
  exists (inr SHMPI_ERR_MALLOC_FAILED). by split.
Qed.
Lemma ispec_bind {R S} K (m : outcome (R + Z)) (k : R -> outcome (S + Z)) P Q : ispec K m P -> (forall r, P r -> ispec K (k r) Q) -> ispec K (inv_bind m k) Q.
Proof. intros ([r|e] & -> & H) Hk; unfold inv_bind; cbn [obind]; [by apply Hk | by exists (inr e)]. Qed.
Lemma ispec_mono {R} K (m : outcome (R + Z)) (P Q : R -> Prop) : (forall r, P r -> Q r) -> ispec K m P -> ispec K m Q.
Proof. intros HPQ ([r|e] & -> & H); eexists; (split; [done |]); cbn in *; auto. Qed.

(** A number in a block of at most [M] limbs. *)
Abbreviation num v M := (sum_res v 1 M).

Lemma odd_limb_spec X v M : num v M X -> odd_limb X = Done (Z.odd v).
Proof.
  intros [[Hs Hl] Hv Hlo HM]. unfold odd_limb, limb. destruct (mp_p X) as [|x l] eqn:E; [cbn in Hlo; lia |]. cbn [lookup list_lookup obind].
  f_equal. rewrite land_1, <- Hv. unfold mval. rewrite E. cbn [lval].
  replace (x + beta * lval l) with (x + 2 * (2 ^ 63 * lval l)) by (unfold beta; lia).
  rewrite Z.odd_mul, Z.odd_add, Z.odd_mul. cbn [Z.odd andb]. rewrite xorb_false_r, Zmod_odd.
  destruct Hs as [-> | ->]; cbn [Z.odd andb]; by destruct (Z.odd x).
Qed.

Lemma half_spec X v M K : num v M X -> Z.odd v = false -> 1 <= K -> spec K (shmpi_shift_r X 1) (num (v / 2) M).
Proof.
  intros [[Hs Hl] Hv Hlo HM] Ho HK. eapply spec_mono; [reflexivity | |apply (shift_r_spec X 1 K); [done | lia | done]].
  intros X' (A1 & A2 & A3 & A4). rewrite Z.pow_1_r in A2. pose proof (lval_range _ A1).
  assert (lval (mp_p X) = 2 * (lval (mp_p X) / 2)) as Ev.
  { assert (Z.odd (lval (mp_p X)) = false) as H0 by (rewrite <- Hv in Ho; unfold mval in Ho; rewrite Z.odd_mul in Ho; destruct Hs as [E|E]; rewrite E in Ho; done).
    pose proof (Zmod_odd (lval (mp_p X))) as Hm. rewrite H0 in Hm. mlia. }
  assert (sign (mp_s X')) as HS by (destruct A4 as [->|[-> _]]; [done | by left]).
  assert (mval X' = v / 2) as HVV.
  { rewrite <- Hv. unfold mval. rewrite Ev at 1. replace (mp_s X * (2 * (lval (mp_p X) / 2))) with (mp_s X * (lval (mp_p X) / 2) * 2) by ring.
    rewrite Z.div_mul, A2 by lia. destruct A4 as [->|[-> H0]]; [done |]. rewrite A2 in H0. lia. }
  split; [by split | done | lia | lia].
Qed.

Section loop.
Context (K : Z) (M : nat) (TA TB : shmpi) (a n C : Z).
Context (HTA : num a M TA) (HTB : num n M TB) (Ha : 1 <= a < n) (Hcop : Z.odd a || Z.odd n) (HC : 0 < C) (HM : (C + 2) * n < bp M) (HK : Z.of_nat M <= K) (HM1 : (1 <= M)%nat).

Record trip (t c1 c2 : Z) (u : triple) : Prop := mk_trip
  { tp_n : num t M (tr_n u); tp_1 : num c1 M (tr_1 u); tp_2 : num c2 M (tr_2 u); tp_eq : c1 * a + c2 * n = t }.

(** The coefficients are at most [L] halves of the modulus. *)
Definition bound (L c1 c2 : Z) : Prop := 2 * Z.abs c1 <= L * n /\ 2 * Z.abs c2 <= L * n.

Lemma bound_mono L L' c1 c2 : L <= L' -> bound L c1 c2 -> bound L' c1 c2.
Proof using All. intros H [H1 H2]. assert (L * n <= L' * n) by (apply Z.mul_le_mono_nonneg_r; lia). split; lia. Qed.

Lemma both_even t c1 c2 : c1 * a + c2 * n = t -> Z.odd t = false -> Z.odd c1 || Z.odd c2 -> Z.odd (c1 + n) = false /\ Z.odd (c2 - a) = false.
Proof using Hcop.
  intros E Ht Ho. rewrite <- E, Z.odd_add, !Z.odd_mul in Ht. rewrite Z.odd_add, Z.odd_sub.
  destruct (Z.odd a), (Z.odd n), (Z.odd c1), (Z.odd c2); done.
Qed.

Lemma halve_coeff t c1 c2 : c1 * a + c2 * n = t -> Z.odd t = false ->
  let d1 := if Z.odd c1 || Z.odd c2 then c1 + n else c1 in let d2 := if Z.odd c1 || Z.odd c2 then c2 - a else c2 in
  Z.odd d1 = false /\ Z.odd d2 = false /\ d1 / 2 * a + d2 / 2 * n = t / 2 /\ 2 * Z.abs (d1 / 2) <= Z.abs c1 + n /\ 2 * Z.abs (d2 / 2) <= Z.abs c2 + n.
Proof using All.
  intros E Ht d1 d2.
  assert (Z.odd d1 = false /\ Z.odd d2 = false) as [O1 O2].
  { unfold d1, d2. destruct (Z.odd c1 || Z.odd c2) eqn:Ho; [apply (both_even t); (done || by rewrite Ho) |]. by apply orb_false_elim in Ho. }
  split; [done |]. split; [done |]. pose proof (Zmod_odd d1) as M1. pose proof (Zmod_odd d2) as M2. rewrite O1 in M1. rewrite O2 in M2.
  assert (d1 = 2 * (d1 / 2)) as E1 by mlia. assert (d2 = 2 * (d2 / 2)) as E2 by mlia.
  assert (d1 * a + d2 * n = t) as E3 by (unfold d1, d2; rewrite <- E; destruct (Z.odd c1 || Z.odd c2); ring).
  split.
  - apply (Z.mul_cancel_l _ _ 2); [lia |]. pose proof (Zmod_odd t) as Mt. rewrite Ht in Mt. assert (t = 2 * (t / 2)) as Et by mlia. rewrite <- Et, <- E3. rewrite E1 at 2. rewrite E2 at 2. ring.
  - assert (Z.abs d1 <= Z.abs c1 + n /\ Z.abs d2 <= Z.abs c2 + n) by (unfold d1, d2; destruct (Z.odd c1 || Z.odd c2); lia). lia.
Qed.

Lemma num_len v X : num v M X -> (1 <= mlen X <= M)%nat.
Proof using All. intros []. lia. Qed.

(** A coefficient plus or minus one of the numbers. *)
Lemma add_coeff X c Y d : num c M X -> num d M Y -> Z.abs c + Z.abs d < bp M -> spec K (shmpi_add_mpi X Self (Other Y)) (num (c + d) M).
Proof using All.
  intros HX HY Hb. pose proof (num_len _ _ HX). pose proof (num_len _ _ HY). destruct HX as [OX VX LX MX], HY as [OY VY LY MY].
  eapply spec_mono; [reflexivity | |apply (add_mpi_spec X Self (Other Y) 1 M K); cbn [argv]; try done; try lia].
  - intros X' HX'. cbn [argv] in HX'. by rewrite VX, VY in HX'.
  - by right.
  - apply keeps_self; lia.
  - apply keeps_other; lia.
Qed.
Lemma sub_coeff X c Y d : num c M X -> num d M Y -> Z.abs c + Z.abs d < bp M -> spec K (shmpi_sub_mpi X Self (Other Y)) (num (c - d) M).
Proof using All.
  intros HX HY Hb. pose proof (num_len _ _ HX). pose proof (num_len _ _ HY). destruct HX as [OX VX LX MX], HY as [OY VY LY MY].
  eapply spec_mono; [reflexivity | |apply (sub_mpi_spec X Self (Other Y) 1 M K); cbn [argv]; try done; try lia].
  - intros X' HX'. cbn [argv] in HX'. by rewrite VX, VY in HX'.
  - apply keeps_self; lia.
  - apply keeps_other; lia.
Qed.

Lemma inv_halve_spec fuel u t c1 c2 B L :
  trip t c1 c2 u -> 0 < t <= n -> nbits t <= Z.of_nat fuel -> bound B c1 c2 -> B <= (if Z.odd t then L + 1 else 2 * L) -> 1 <= L <= C ->
  ispec K (inv_halve fuel u TA TB) (fun u' => exists t' c1' c2', trip t' c1' c2' u' /\ Z.odd t' /\ 0 < t' <= t /\ (t' | t) /\ (Z.odd t = false -> nbits t' < nbits t) /\ bound (L + 1) c1' c2').
Proof using All.
  revert u t c1 c2 B. induction fuel as [|f IH]; intros u t c1 c2 B Hu Ht Hf Hb HB HL; cbn [inv_halve]; rewrite (odd_limb_spec _ _ _ (tp_n _ _ _ _ Hu)); cbn [obind]; destruct (Z.odd t) eqn:Ot.
  1,3: apply ispec_ret; exists t, c1, c2; split; [done |]; split; [by rewrite Ot |]; split; [lia |]; split; [reflexivity |]; split; [done |]; unfold bound in *; nia.
  { pose proof (nbits_pos t ltac:(lia)). lia. }
  destruct Hu as [Hn H1 H2 He]. destruct (halve_coeff t c1 c2 He Ot) as (O1 & O2 & E & B1 & B2).
  eapply ispec_call; [apply (half_spec _ t M K); (done || lia) |]. intros TU HTU.
  rewrite (odd_limb_spec _ _ _ H1). cbn [obind].
  replace (if Z.odd c1 then Done true else odd_limb (tr_2 u)) with (Done (Z.odd c1 || Z.odd c2)) by (rewrite (odd_limb_spec _ _ _ H2); by destruct (Z.odd c1)). cbn [obind].
  assert (Z.abs c1 <= L * n /\ Z.abs c2 <= L * n) as [Bc1 Bc2] by (unfold bound in Hb; nia). assert (L * n <= C * n) by nia.
  eapply (ispec_call _ _ _ (num (if Z.odd c1 || Z.odd c2 then c1 + n else c1) M)).
  { destruct (Z.odd c1 || Z.odd c2); [apply add_coeff; (done || lia) | by apply spec_done]. }
  intros U1 HU1. eapply (ispec_call _ _ _ (num (if Z.odd c1 || Z.odd c2 then c2 - a else c2) M)).
  { destruct (Z.odd c1 || Z.odd c2); [apply sub_coeff; (done || lia) | by apply spec_done]. }
  intros U2 HU2. eapply ispec_call; [apply (half_spec _ _ M K HU1); (done || lia) |]. intros U1' HU1'.
  eapply ispec_call; [apply (half_spec _ _ M K HU2); (done || lia) |]. intros U2' HU2'.
  pose proof (Zmod_odd t) as Mt. rewrite Ot in Mt. assert (t = 2 * (t / 2)) as Et by mlia.
  pose proof (nbits_half t ltac:(lia)) as Nh.
  eapply ispec_mono; [|eapply (IH _ (t / 2) _ _ (L + 1)); [split; cbn [tr_n tr_1 tr_2]; [exact HTU | exact HU1' | exact HU2' | done] | lia | lia | unfold bound in *; nia | destruct (Z.odd (t / 2)); lia | done]].
  intros u' (t' & d1 & d2 & A1 & A2 & A3 & A4 & A5 & A6). exists t', d1, d2. split; [done |]. split; [done |]. split; [lia |].
  split; [rewrite Et; by apply Z.divide_mul_r |]. split; [|done]. intros _. pose proof (nbits_mono t' (t / 2)). lia.
Qed.

Lemma num_msb v X : num v M X -> 0 <= v -> shmpi_msb X = nbits v.
Proof using All. intros [HO HV _ _] Hv. rewrite msb_spec by apply HO. by rewrite <- (mval_abs X HO), HV, Z.abs_eq. Qed.

Lemma inv_sub_spec u v tu c1 c2 tv d1 d2 L :
  trip tu c1 c2 u -> trip tv d1 d2 v -> 0 < tu <= n -> 0 < tv <= n -> bound (L + 1) c1 c2 -> bound (L + 1) d1 d2 -> 1 <= L < C ->
  ispec K (inv_sub u v) (fun w => trip (tu - tv) (c1 - d1) (c2 - d2) w /\ bound (2 * (L + 1)) (c1 - d1) (c2 - d2)).
Proof using All.
  intros [Un U1 U2 Ue] [Vn V1 V2 Ve] Hu Hv [Bc1 Bc2] [Bd1 Bd2] HL. unfold inv_sub. assert ((L + 1) * n <= C * n) by nia. assert (1 * n <= C * n) by nia.
  eapply ispec_call; [apply (sub_coeff _ tu _ tv); (done || lia) |]. intros TU HTU.
  eapply ispec_call; [apply (sub_coeff _ c1 _ d1); (done || lia) |]. intros W1 HW1.
  eapply ispec_call; [apply (sub_coeff _ c2 _ d2); (done || lia) |]. intros W2 HW2.
  apply ispec_ret. split; [split; cbn [tr_n tr_1 tr_2]; try done; lia |]. split; lia.
Qed.

Lemma inv_loop_spec fuel u v tu c1 c2 tv d1 d2 Bu Bv L :
  trip tu c1 c2 u -> trip tv d1 d2 v -> 0 < tu <= n -> 0 < tv <= n -> Z.gcd tu tv = 1 ->
  bound Bu c1 c2 -> bound Bv d1 d2 -> Bu <= (if Z.odd tu then L + 1 else 2 * L) -> Bv <= (if Z.odd tv then L + 1 else 2 * L) ->
  1 <= L -> L + Z.of_nat fuel <= C -> nbits tu + nbits tv + (if Z.odd tu && Z.odd tv then 1 else 0) <= Z.of_nat fuel ->
  ispec K (inv_loop fuel u v TA TB) (fun w => exists d1' d2', trip 1 d1' d2' w /\ bound C d1' d2').
Proof using All.
  revert u v tu c1 c2 tv d1 d2 Bu Bv L. induction fuel as [|f IH]; intros u v tu c1 c2 tv d1 d2 Bu Bv L Hu Hv Htu Htv Hg HBu HBv HLu HLv HL HC' Hf;
    pose proof (nbits_pos tu ltac:(lia)); pose proof (nbits_pos tv ltac:(lia)); [destruct (_ && _); lia |]. cbn [inv_loop].
  rewrite (num_msb tu _ (tp_n _ _ _ _ Hu)), (num_msb tv _ (tp_n _ _ _ _ Hv)) by lia.
  eapply ispec_bind; [eapply (inv_halve_spec _ u tu c1 c2 Bu L); (done || lia) |]. intros u1 (xu & e1 & e2 & Tu & Ou & Ru & Du & Nu & Eu).
  eapply ispec_bind; [eapply (inv_halve_spec _ v tv d1 d2 Bv L); (done || lia) |]. intros v1 (xv & g1 & g2 & Tv & Ov & Rv & Dv & Nv & Ev).
  assert (Z.gcd xu xv = 1) as Hg'.
  { apply Z.divide_1_r_nonneg; [apply Z.gcd_nonneg |]. rewrite <- Hg. apply Z.gcd_greatest; [etransitivity; [apply Z.gcd_divide_l | done] | etransitivity; [apply Z.gcd_divide_r | done]]. }
  assert (nbits xu <= nbits tu /\ nbits xv <= nbits tv) as [Mu Mv] by (split; apply nbits_mono; lia).
  assert (nbits xu + nbits xv <= Z.of_nat f) as Hf'.
  { destruct (Z.odd tu) eqn:O1; [destruct (Z.odd tv) eqn:O2 |]; cbn [andb] in Hf; [lia | specialize (Nv eq_refl); lia | specialize (Nu eq_refl); lia]. }
  rewrite cmp_mpi_spec, (sm_v _ _ _ _ (tp_n _ _ _ _ Tu)), (sm_v _ _ _ _ (tp_n _ _ _ _ Tv)) by apply Tu || apply Tv.
  assert (forall x y, Z.odd x -> Z.odd y -> Z.odd (x - y) = false) as Hodd by (intros x y Hx Hy; rewrite Z.odd_sub; by destruct (Z.odd x), (Z.odd y)).
  destruct (Z.leb_spec 0 (Z.sgn (xu - xv))).
  - eapply (ispec_bind _ _ _ (fun r => (trip (xu - xv) (e1 - g1) (e2 - g2) (fst r) /\ bound (2 * (L + 1)) (e1 - g1) (e2 - g2)) /\ snd r = v1)).
    { eapply ispec_bind; [eapply (inv_sub_spec u1 v1 xu e1 e2 xv g1 g2 L); (done || lia) |]. intros w Hw. by apply ispec_ret. }
    intros [w v2] [[Tw Bw] E2]. cbn [fst snd] in *. subst v2. rewrite cmp_zero_spec by apply Tw. cbn [obind]. rewrite (sm_v _ _ _ _ (tp_n _ _ _ _ Tw)).
    destruct (Z.eqb_spec (Z.sgn (xu - xv)) 0) as [E0|E0]; cbn [negb].
    + assert (xu = xv) as -> by lia. rewrite Z.gcd_diag, Z.abs_eq in Hg' by lia. apply ispec_ret. exists g1, g2. rewrite Hg' in Tv. split; [done |]. apply (bound_mono (L + 1)); (done || lia).
    + eapply (IH w v1 _ _ _ xv g1 g2 (2 * (L + 1)) (L + 1) (L + 1)); try done; try lia.
      * rewrite <- Hg'. rewrite Z.gcd_comm, (Z.gcd_comm xu xv). apply Z.gcd_sub_diag_r.
      * rewrite Hodd by done. lia.
      * destruct (Z.odd xv); lia.
      * rewrite Hodd by done. cbn [andb]. pose proof (nbits_mono (xu - xv) xu). lia.
  - eapply (ispec_bind _ _ _ (fun r => (trip (xv - xu) (g1 - e1) (g2 - e2) (snd r) /\ bound (2 * (L + 1)) (g1 - e1) (g2 - e2)) /\ fst r = u1)).
    { eapply ispec_bind; [eapply (inv_sub_spec v1 u1 xv g1 g2 xu e1 e2 L); (done || lia) |]. intros w Hw. by apply ispec_ret. }
    intros [u2 w] [[Tw Bw] E2]. cbn [fst snd] in *. subst u2. rewrite cmp_zero_spec by apply Tu. cbn [obind]. rewrite (sm_v _ _ _ _ (tp_n _ _ _ _ Tu)).
    destruct (Z.eqb_spec (Z.sgn xu) 0) as [E0|E0]; [lia |]; cbn [negb].
    eapply (IH u1 w xu e1 e2 _ _ _ (L + 1) (2 * (L + 1)) (L + 1)); try done; try lia.
    + rewrite <- Hg'. apply Z.gcd_sub_diag_r.
    + destruct (Z.odd xu); lia.
    + rewrite Hodd by done. lia.
    + rewrite (Hodd xv xu) by done. rewrite andb_false_r. pose proof (nbits_mono (xv - xu) xv). lia.
Qed.
End loop.

Lemma copy_num A v M K : mpi_ok A -> mval A = v -> v <> 0 -> (1 <= M)%nat -> Z.abs v < bp M -> Z.of_nat M <= K -> spec K (shmpi_copy shmpi_init (Other A)) (num v M).
Proof.
  intros HA HV Hv HM1 HM HK. rewrite <- HV, mval_abs in HM by done. assert (msz A <= M)%nat by (apply sig_msz; auto with mpi).
  eapply spec_mono; [reflexivity | |apply (copy_spec shmpi_init A K); [auto with mpi | lia]]. intros X HC.
  assert (mp_p A <> []) as Hne by (intros E; pose proof (pos_len A HA ltac:(lia)) as HL; rewrite E in HL; cbn in HL; lia).
  split; [by eapply copied_ok | by rewrite (copied_mval _ _ _ HA HC) | rewrite (cp_len _ _ _ HC Hne); unfold msz; lia | etransitivity; [apply (cp_le _ _ _ HC) |]; cbn; lia].
Qed.
Lemma lset_num z M K : - 2 ^ 63 < z < 2 ^ 63 -> (1 <= M)%nat -> Z.of_nat M <= K -> spec K (shmpi_lset shmpi_init z) (num z M).
Proof.
  intros Hz HM HK. eapply spec_mono; [reflexivity | |apply (lset_spec shmpi_init z K); lia]. intros X ->. cbn [Nat.max shmpi_init mp_p length Nat.sub zeros replicate].
  split; cbn [mp_p mp_s length]; [split; cbn [mp_s mp_p] | | lia | lia].
  - unfold isgn. case_cmp; [by right | by left].
  - apply limbs_cons. split; [rlia | constructor].
  - unfold mval, isgn. cbn [mp_s mp_p lval]. case_cmp; lia.
Qed.

(** [x] is the inverse of [a] modulo [n]. *)
Definition inverse (x a n : Z) : Prop := 0 <= x < n /\ (x * a) mod n = 1.

Lemma coprime_odd a n : Z.gcd a n = 1 -> Z.odd (a mod n) || Z.odd n.
Proof.
  intros Hg. destruct (Z.odd n) eqn:On; [by rewrite orb_true_r |]. rewrite orb_false_r.
  destruct (Z.odd (a mod n)) eqn:Oa; [done |]. exfalso.
  assert (2 | n) as D1 by (apply Z.mod_divide; [done |]; rewrite Zmod_odd, On; done).
  assert (2 | a) as D2.
  { assert (2 | a mod n) as D3 by (apply Z.mod_divide; [done |]; rewrite Zmod_odd, Oa; done). destruct (Z.eq_dec n 0) as [->|Hn]; [by rewrite Z.mod_0_r in D3 |].
    rewrite (Z.div_mod a n Hn). apply Z.divide_add_r; [by apply Z.divide_mul_l | done]. }
  assert (2 | 1) as D by (rewrite <- Hg; by apply Z.gcd_greatest). by apply Z.divide_1_r_nonneg in D.
Qed.

Lemma inv_mod_spec X A N K (M : nat) :
  let a := argv X A in
  mpi_ok a -> mpi_ok N -> 1 < mval N -> Z.gcd (mval a) (mval N) = 1 -> (mlen a + 2 <= M)%nat -> (mlen N + 1 <= M)%nat -> (mlen X <= M)%nat -> Z.of_nat M < 2 ^ 40 -> Z.of_nat M + 4 <= K ->
  spec K (shmpi_inv_mod X A N) (fun X' => mpi_ok X' /\ inverse (mval X') (mval a) (mval N)).
Proof.
  intros a HA HN Hn Hg HMa HMn HMx Hsz HK. unfold shmpi_inv_mod. fold a. set (n := mval N) in *. set (va := mval a mod n).
  rewrite cmp_zero_spec by done. cbn [obind]. fold n. destruct (Z.leb_spec (Z.sgn n) 0); [lia |].
  assert (1 <= va < n) as Ra.
  { pose proof (Z.mod_pos_bound (mval a) n ltac:(lia)).  assert (va <> 0); [|unfold va in *; lia]. intros E. unfold va in E. apply Z.mod_divide in E; [|lia].
    assert (n | 1) as D by (rewrite <- Hg; apply Z.gcd_greatest; [done | reflexivity]). apply Z.divide_1_r_nonneg in D; lia. }
  pose proof (lval_range _ (ok_p _ HN)) as RN. pose proof (mval_abs _ HN) as AN. fold n in AN. rewrite Z.abs_eq in AN by lia. rewrite <- AN in RN.
  assert (n * beta <= bp M) as HbM.
  { apply Z.le_trans with (bp (S (mlen N))); [rewrite bp_S; unfold beta; lia | apply bp_mono; lia]. }
  assert (n * (2 ^ 60) < bp M) as HbM' by (unfold beta in HbM; lia).
  pose proof (sig_le (mp_p a)). pose proof (sig_le (mp_p N)). pose proof (pos_len N HN ltac:(lia)).
  eapply spec_chk; [apply (gcd_spec shmpi_init (Other a) (Other N) K); cbn [argv]; (done || unfold msz; lia) | lia | eauto |]. intros G [OG VG _ _]. cbn [argv] in VG.
  rewrite cmp_int_spec, VG by (done || lia). fold n. rewrite Hg. cbn [obind]. change (Z.sgn (1 - 1) =? 0) with true. cbn [negb].
  eapply spec_chk; [apply (mod_mpi_spec shmpi_init (Other a) N K M); cbn [argv]; try done; fold n; (lia || (cbn; lia)) | lia | eauto |]. intros TA [OA VA _ MA]. cbn [argv] in VA. fold n va in VA.
  pose proof (pos_len TA OA ltac:(lia)) as LA. assert (num va M TA) as HTA by (split; done).
  eapply spec_chk; [apply (copy_num TA va M K); (done || lia) | lia | eauto |]. intros TU HTU.
  eapply spec_chk; [apply (copy_num N n M K); (done || lia) | lia | eauto |]. intros TB HTB.
  eapply spec_chk; [apply (copy_num N n M K); (done || lia) | lia | eauto |]. intros TV HTV.
  eapply spec_chk; [apply (lset_num 1 M K); lia | lia | eauto |]. intros U1 HU1.
  eapply spec_chk; [apply (lset_num 0 M K); lia | lia | eauto |]. intros U2 HU2.
  eapply spec_chk; [apply (lset_num 0 M K); lia | lia | eauto |]. intros V1 HV1.
  eapply spec_chk; [apply (lset_num 1 M K); lia | lia | eauto |]. intros V2 HV2.
  assert (shmpi_msb TU = nbits va) as MU by (destruct HTU as [HO HV' _ _]; rewrite msb_spec by apply HO; rewrite <- (mval_abs TU HO), HV', Z.abs_eq by lia; done).
  assert (shmpi_msb TV = nbits n) as MV by (destruct HTV as [HO HV' _ _]; rewrite msb_spec by apply HO; rewrite <- (mval_abs TV HO), HV', Z.abs_eq by lia; done).
  rewrite MU, MV. set (fuel := S (Z.to_nat (nbits va + nbits n))). set (C := 1 + Z.of_nat fuel).
  pose proof (nbits_nonneg va). pose proof (nbits_nonneg n). pose proof (nbits_mono va n ltac:(lia)).
  assert (nbits n <= 64 * Z.of_nat (mlen N)) by (apply nbits_le; [lia | rewrite <- bp_pow; lia]).
  assert (Z.of_nat fuel <= 2 ^ 50) as Hfu by (unfold fuel; lia).
  assert ((C + 2) * n < bp M) as HCM by (apply Z.le_lt_trans with (n * 2 ^ 60); [rewrite Z.mul_comm; apply Z.mul_le_mono_nonneg_l; unfold C; lia | done]).
  assert (Z.gcd va n = 1) as Hg' by (unfold va; by rewrite Z.gcd_mod_l).
  assert (2 <= (if Z.odd va then 1 + 1 else 2 * 1)) by (destruct (Z.odd va); lia). assert (2 <= (if Z.odd n then 1 + 1 else 2 * 1)) by (destruct (Z.odd n); lia).
  assert (nbits va + nbits n + (if Z.odd va && Z.odd n then 1 else 0) <= Z.of_nat fuel) by (unfold fuel; destruct (Z.odd va && Z.odd n); lia).
  assert (1 + Z.of_nat fuel <= C) by (unfold C; lia).
  assert (trip M va n va 1 0 (mk_triple TU U1 U2)) as Tu by (split; cbn [tr_n tr_1 tr_2]; (done || lia)).
  assert (trip M va n n 0 1 (mk_triple TV V1 V2)) as Tv by (split; cbn [tr_n tr_1 tr_2]; (done || lia)).
  destruct (inv_loop_spec K M TA TB va n C HTA HTB Ra (coprime_odd _ _ Hg) ltac:(unfold C; lia) HCM ltac:(lia) ltac:(lia) fuel (mk_triple TU U1 U2) (mk_triple TV V1 V2) va 1 0 n 0 1 2 2 1) as (r & -> & Hr);
    try done; try lia; try (unfold bound; lia).
  cbn [obind]. destruct r as [w|e]; [|destruct Hr as [-> Hno]; exists X, SHMPI_ERR_MALLOC_FAILED; split; [done | by right]].
  destruct Hr as (d1 & d2 & [_ T1 _ Te] & [B1 _]). destruct T1 as [O1 W1 L1 M1].
  assert (C * n <= 2 * (Z.of_nat fuel * n)) as HCn by (replace (2 * (Z.of_nat fuel * n)) with ((2 * Z.of_nat fuel) * n) by ring; apply Z.mul_le_mono_nonneg_r; unfold C, fuel; lia).
  eapply spec_chk; [apply (mod_up_spec fuel (tr_1 w) N 1 M K); rewrite ?W1; fold n; (done || lia) | lia | eauto |]. intros V3 [O3 W3 L3 M3]. rewrite W1 in W3. fold n in W3.
  pose proof (Z.mod_pos_bound d1 n ltac:(lia)) as Rd.
  eapply spec_chk; [apply (mod_down_spec fuel V3 N 1 M K); rewrite ?W3; fold n; try done; try lia; destruct (Z.ltb_spec d1 0); lia | lia | eauto |]. intros V4 [O4 W4 L4 M4]. fold n in W4.
  assert (mval V4 = d1 mod n) as E4.
  { rewrite W4, W3. destruct (Z.ltb_spec d1 0); [by rewrite Z.mod_mod by lia | done]. }
  assert (msz V4 <= M)%nat by (unfold msz; pose proof (sig_le (mp_p V4)); lia).
  eapply spec_mono; [reflexivity | |apply (copy_spec X V4 K); [apply O4 | lia]]. intros X' HC'.
  split; [by eapply copied_ok |]. rewrite (copied_mval _ _ _ O4 HC'), E4. split; [done |].
  rewrite Z.mul_mod_idemp_l by lia. rewrite <- Z.mul_mod_idemp_r by lia. fold va. replace (d1 * va) with (1 + - d2 * n) by lia.
  rewrite Z_mod_plus_full. apply Z.mod_small. lia.
Qed.
End inverse.

(** ** Greatest common divisor and inverse *)

(** the binary algorithm ends and gives the greatest common divisor of the
    values, also in place and for operands of any sign; the second operand must not
    be zero. *)
Theorem shmpi_gcd_refines {ml : malloc} G A B K :
  let a := argv G A in let b := argv G B in
  mpi_ok a -> mpi_ok b -> mval b <> 0 -> Z.of_nat (Nat.max (msz a) (msz b)) <= K -> Z.of_nat (msz b) < 2 ^ 40 ->
  spec K (shmpi_gcd G A B) (fun G' => mpi_ok G' /\ mval G' = Z.gcd (mval a) (mval b)).
Proof.
  intros a b Ha Hb H0 HK Hs. eapply spec_mono; [apply (Z.le_refl K) | | by apply (gcd_spec G A B K)].
  by intros G' [? ? _ _].
Qed.

Lemma shmpi_gcd_refines_witness :
  exists G', @shmpi_gcd ex_malloc shmpi_init (Other (mk_mpi (-1) [0; 12])) (Other (mk_mpi 1 [90])) = Done (G', 0) /\ mval G' = 6.
Proof.
  assert (mpi_ok (mk_mpi (-1) [0; 12])) as Ha by (by apply mpi_okb_ok). assert (mpi_ok (mk_mpi 1 [90])) as Hb by (by apply mpi_okb_ok).
  destruct (@shmpi_gcd_refines ex_malloc shmpi_init (Other (mk_mpi (-1) [0; 12])) (Other (mk_mpi 1 [90])) 2
    Ha Hb ltac:(discriminate) ltac:(discriminate) eq_refl) as (G' & e & H1 & [[-> [_ H2]]|[_ [(n & _ & Hn)|H2]]]); [|discriminate|discriminate].
  exists G'. split; [exact H1 | exact H2].
Defined.

(** With zero as the second operand the result is zero instead of the first. *)
Theorem shmpi_gcd_zero : exists G', @shmpi_gcd ex_malloc shmpi_init (Other (mk_mpi 1 [12])) (Other (mk_mpi 1 [0])) = Done (G', 0) /\ mval G' = 0.
Proof. eexists. split; vm_compute; reflexivity. Qed.

Lemma msz_le X : (msz X <= S (mlen X))%nat.
Proof. unfold msz. pose proof (sig_le (mp_p X)). lia. Qed.

(** A common factor is reported. *)
Lemma inv_mod_common {ml : malloc} X A N K :
  let a := argv X A in
  mpi_ok a -> mpi_ok N -> 0 < mval N -> Z.gcd (mval a) (mval N) <> 1 -> Z.of_nat (Nat.max (msz a) (msz N)) <= K -> Z.of_nat (msz N) < 2 ^ 40 ->
  exists e, shmpi_inv_mod X A N = Done (X, e) /\ (e = SHMPI_ERR_NOT_ACCEPTABLE \/ e = SHMPI_ERR_MALLOC_FAILED /\ nomem K).
Proof.
  intros a Ha HN Hp Hg HK Hs. unfold shmpi_inv_mod. rewrite cmp_zero_spec by done. cbn [obind].
  destruct (Z.leb_spec (Z.sgn (mval N)) 0); [lia |]. fold a.
  destruct (gcd_spec shmpi_init (Other a) (Other N) K) as (G & e & -> & HG); try done; [cbn [argv]; lia |].
  unfold chk at 1. cbn [obind fst snd]. destruct HG as [[-> [O1 V1 _ _]]|[-> HG]]; [|eauto].
  cbn [argv] in V1. rewrite Z.eqb_refl, cmp_int_spec, V1 by (done || lia). cbn [obind].
  destruct (Z.eqb_spec (Z.sgn (Z.gcd (mval a) (mval N) - 1)) 0); [lia |]. cbn [negb]. eauto.
Qed.

(** C15: for a number that is coprime to a modulus greater than one the extended
    binary algorithm ends and gives the inverse, between zero and the modulus; a
    modulus that is not positive and operands with a common factor are reported and
    change nothing. *)
Theorem shmpi_inv_mod_refines {ml : malloc} X A N K :
  let a := argv X A in let M := Nat.max (mlen X) (Nat.max (mlen a + 2) (mlen N + 1)) in
  mpi_ok a -> mpi_ok N -> Z.of_nat M < 2 ^ 40 -> Z.of_nat M + 4 <= K ->
  (mval N <= 0 -> shmpi_inv_mod X A N = Done (X, SHMPI_ERR_BAD_INPUT_DATA)) /\
  (0 < mval N -> Z.gcd (mval a) (mval N) <> 1 ->
    exists e, shmpi_inv_mod X A N = Done (X, e) /\ (e = SHMPI_ERR_NOT_ACCEPTABLE \/ e = SHMPI_ERR_MALLOC_FAILED /\ nomem K)) /\
  (1 < mval N -> Z.gcd (mval a) (mval N) = 1 ->
    spec K (shmpi_inv_mod X A N) (fun X' => mpi_ok X' /\ 0 <= mval X' < mval N /\ (mval X' * mval a) mod mval N = 1)).
Proof.
  intros a M Ha HN HM HK. pose proof (msz_le a) as H1. pose proof (msz_le N) as H2. split; [|split].
  - intros H. unfold shmpi_inv_mod. rewrite cmp_zero_spec by done. cbn [obind]. by rewrite (proj2 (Z.leb_le _ _)) by lia.
  - intros Hp Hg. apply inv_mod_common; try done; subst a M; lia.
  - intros. apply (inv_mod_spec X A N K M); try done; subst a M; lia.
Qed.

Lemma shmpi_inv_mod_refines_witness :
  exists X', @shmpi_inv_mod ex_malloc shmpi_init (Other (mk_mpi (-1) [3])) (mk_mpi 1 [1; 7]) = Done (X', 0) /\ (mval X' * -3) mod (1 + 7 * 2 ^ 64) = 1.
Proof.
  assert (mpi_ok (mk_mpi (-1) [3])) as Ha by (by apply mpi_okb_ok). assert (mpi_ok (mk_mpi 1 [1; 7])) as HN by (by apply mpi_okb_ok).
  destruct (@shmpi_inv_mod_refines ex_malloc shmpi_init (Other (mk_mpi (-1) [3])) (mk_mpi 1 [1; 7]) 7
    Ha HN eq_refl ltac:(discriminate)) as (_ & _ & H).
  destruct (H eq_refl eq_refl) as (X' & e & H1 & [[-> (_ & _ & H2)]|[_ [(n & _ & Hn)|H2]]]); [|discriminate|discriminate].
  exists X'. split; [exact H1 | exact H2].
Defined.

(** For the modulus one the second number of the algorithm stays zero and is halved
    for ever. *)
Theorem shmpi_inv_mod_one (fuel : nat) :
  @inv_halve ex_malloc fuel (mk_triple (mk_mpi 1 [0]) (mk_mpi 1 [1]) (mk_mpi 1 [0])) (mk_mpi 1 [0]) (mk_mpi 1 [1]) = Fault.
Proof. induction fuel as [|f IH]; [reflexivity |]. etransitivity; [|exact IH]. reflexivity. Qed.
