(* ===== verification/ShMpiPrime.v ===== *)
(** * Multi-precision integers: primality

    The tests of [ShMpiNum.v] for primes.  The test for small factors decides
    primality of the numbers below its bound and finds every small factor of the
    others; no prime is ever rejected by the test of Miller and Rabin: the only way
    for a prime to be rejected is that 31 bases in a row fall outside the range. *)

From Stdlib Require Import ZArith Lia.
From Stdlib Require Zmod.ZmodInv.
From stdpp Require Import base numbers list.
From S2P Require Import Prelude ShMpi ShMpiVal ShMpiArith ShMpiBits ShMpiDiv ShMpiDivOk ShMpiText ShMpiTextOk ShMpiExp ShMpiExpOk ShMpiNum ShMpiNumOk.

Open Scope Z_scope.
Open Scope share_scope.

(** ** Square roots of one *)

Lemma square_one p x : Z.prime p -> 0 <= x < p -> (x * x) mod p = 1 -> x = 1 \/ x = p - 1.
Proof.
  intros Hp Hx H. pose proof (Z.prime_ge_2 p Hp).
  assert ((p | (x - 1) * (x + 1))) as Hd.
  { apply Z.mod_divide; [lia |]. replace ((x - 1) * (x + 1)) with (x * x - 1) by ring. rewrite Zminus_mod, H, (Z.mod_small 1) by lia. apply Z.mod_0_l. lia. }
  apply Z.divide_prime_mul in Hd as [Hd|Hd]; [| |done].
  - destruct (Z.eq_dec x 1); [by left |]. destruct (Z.eq_dec x 0) as [->|]; [rewrite Z.mod_0_l in H by lia; lia |]. apply Z.divide_pos_le in Hd; lia.
  - right. apply Z.divide_pos_le in Hd; lia.
Qed.

Lemma fermat_small p a : Z.prime p -> 0 < a < p -> a ^ (p - 1) mod p = 1.
Proof. intros Hp Ha. apply ZmodInv.Z.fermat_nz; [done |]. rewrite Z.mod_small; lia. Qed.

(** ** Small factors *)

(** The test on the value: [1] for a prime, [0] for no small factor. *)
Fixpoint small_test (ps : list Z) (v : Z) : Z :=
  match ps with
  | [] => 0
  | p :: ps' => if 0 <? p then if v <=? p then 1 else if v mod p =? 0 then SHMPI_ERR_NOT_ACCEPTABLE else small_test ps' v else 0
  end.

Lemma small_factors_spec ps X :
  mpi_ok X -> mp_p X <> [] -> Forall (fun p => p < 2 ^ 31) ps -> last ps = Some (-103) -> small_factors ps X = Done (small_test ps (mval X)).
Proof.
  intros HX Hne. induction ps as [|p ps IH]; intros Hp Hl; [done |]. apply Forall_cons in Hp as [Hp1 Hp]. cbn [small_factors small_test].
  destruct (Z.ltb_spec 0 p) as [H0|H0]; [|done]. rewrite cmp_int_spec by (done || lia). cbn [obind].
  replace (Z.sgn (mval X - p) <=? 0) with (mval X <=? p) by (destruct (Z.leb_spec (mval X) p), (Z.leb_spec (Z.sgn (mval X - p)) 0); lia).
  destruct (mval X <=? p); [done |]. rewrite mod_int_spec by (done || lia || by left). cbn [obind].
  destruct (mval X mod p =? 0); [done |]. apply IH; [done |]. destruct ps; [|done]. cbn in Hl. injection Hl. lia.
Qed.

(** Below 1000 the test decides primality: by evaluation, against the definition. *)
Definition naive_prime (v : Z) : bool := forallb (fun d => negb (v mod d =? 0)) (map Z.of_nat (seq 2 (Z.to_nat v - 2))).

Lemma naive_prime_spec v : 1 < v -> naive_prime v = true <-> Z.prime v.
Proof.
  intros Hv. unfold naive_prime. rewrite forallb_forall. split.
  - intros H. split; [done |]. intros n Hn Hd. specialize (H n). rewrite in_map_iff in H. apply Z.mod_divide in Hd; [|lia]. rewrite Hd in H.
    discriminate H. exists (Z.to_nat n). split; [lia |]. apply in_seq. lia.
  - intros [_ H] d (n & <- & Hn)%in_map_iff. apply in_seq in Hn. apply negb_true_iff, Z.eqb_neq. intros E. apply Z.mod_divide in E; [|lia]. apply (H (Z.of_nat n)); [lia | done].
Qed.

Definition small_check (v : Z) : bool :=
  if Z.even v then true else small_test small_prime v =? (if naive_prime v then 1 else SHMPI_ERR_NOT_ACCEPTABLE).

Lemma small_check_all : forallb small_check (map Z.of_nat (seq 3 995)) = true.
Proof. vm_compute. reflexivity. Qed.

(** Every number up to 1008 has a small prime factor, or is even. *)
Lemma small_prime_covers : forallb (fun d => Z.even d || existsb (fun p => (0 <? p) && (d mod p =? 0)) small_prime) (map Z.of_nat (seq 2 1007)) = true.
Proof. vm_compute. reflexivity. Qed.

Lemma small_test_large qs v :
  Forall (fun q => 0 < q < v) qs -> small_test (qs ++ [-103]) v = if existsb (fun q => v mod q =? 0) qs then SHMPI_ERR_NOT_ACCEPTABLE else 0.
Proof.
  induction 1 as [|q qs [H1 H2] _ IH]; [done |]. cbn [app small_test existsb]. destruct (Z.ltb_spec 0 q); [|lia]. destruct (Z.leb_spec v q); [lia |].
  destruct (v mod q =? 0); [done |]. exact IH.
Qed.

Definition small_primes : list Z := removelast small_prime.

Lemma small_primes_range : Forall (fun q => 1 < q < 998) small_primes.
Proof.
  apply (List.Forall_forall (fun q => 1 < q < 998)). intros q Hq. assert (forallb (fun q => (1 <? q) && (q <? 998)) small_primes = true) as H by reflexivity.
  rewrite forallb_forall in H. specialize (H q Hq). lia.
Qed.

Lemma odd_limb_val X : mpi_ok X -> 0 < mval X -> odd_limb X = Done (Z.odd (mval X)).
Proof. intros HX Hp. apply (odd_limb_spec X (mval X) (mlen X)). split; [done | done | apply pos_len; (done || lia) | done]. Qed.

(** The test for small factors: a prime, a number that is not, or one without a
    small factor. *)
Lemma check_small_factors_spec X :
  mpi_ok X -> 2 < mval X -> exists r, shmpi_check_small_factors X = Done r /\
    (r = 1 /\ mval X < 998 /\ Z.prime (mval X) \/ r = SHMPI_ERR_NOT_ACCEPTABLE /\ ~ Z.prime (mval X) \/
     r = 0 /\ 997 < mval X /\ Z.odd (mval X) = true /\ forall d, 1 < d < 1009 -> ~ (d | mval X)).
Proof.
  intros HX Hv. unfold shmpi_check_small_factors. rewrite odd_limb_val by (done || lia). cbn [obind]. set (v := mval X) in *.
  destruct (Z.odd v) eqn:Eo.
  2: { exists SHMPI_ERR_NOT_ACCEPTABLE. split; [done |]. right. left. split; [done |]. intros [_ H]. apply (H 2); [lia |].
       rewrite <- Z.negb_even in Eo. apply negb_false_iff, Z.even_spec in Eo as [k ->]. by exists k; lia. }
  rewrite small_factors_spec; [|done| | |done].
  2: { intros E. pose proof (pos_len X HX ltac:(fold v; lia)) as HL. rewrite E in HL. cbn in HL. lia. }
  2: { apply (List.Forall_forall (fun p => p < 2 ^ 31)). intros p Hp. assert (forallb (fun p => p <? 2 ^ 31) small_prime = true) as H by reflexivity. rewrite forallb_forall in H. specialize (H p Hp). lia. }
  fold v. exists (small_test small_prime v). split; [done |]. destruct (Z.lt_ge_cases v 998) as [Hs|Hs].
  - pose proof small_check_all as H. rewrite forallb_forall in H. specialize (H v). assert (In v (map Z.of_nat (seq 3 995))) as Hin.
    { apply in_map_iff. exists (Z.to_nat v). split; [lia |]. apply in_seq. lia. }
    specialize (H Hin). unfold small_check in H. rewrite <- Z.negb_odd, Eo in H. cbn [negb] in H. apply Z.eqb_eq in H. rewrite H.
    pose proof (naive_prime_spec v ltac:(lia)) as HN. destruct (naive_prime v); [left | right; left]; split_and!; try done; [by apply HN | by intros ?%HN].
  - change small_prime with (small_primes ++ [-103]). rewrite small_test_large by (eapply Forall_impl; [apply small_primes_range | cbn; lia]).
    destruct (existsb _ small_primes) eqn:Ex.
    + right. left. split; [done |]. apply existsb_exists in Ex as (q & Hq & Hd). pose proof (proj1 (List.Forall_forall _ _) small_primes_range q Hq) as Rq. cbn beta in Rq.
      intros [_ H]. apply (H q); [lia |]. apply Z.mod_divide; [lia |]. by apply Z.eqb_eq.
    + right. right. split_and!; [done | lia | done |]. intros d Hd Hdv. pose proof small_prime_covers as H. rewrite forallb_forall in H. specialize (H d).
      assert (In d (map Z.of_nat (seq 2 1007))) as Hin by (apply in_map_iff; exists (Z.to_nat d); split; [lia | apply in_seq; lia]). specialize (H Hin).
      apply orb_prop in H as [H|H].
      * apply Z.even_spec in H as [k ->]. destruct Hdv as [m Hm]. rewrite Hm in Eo. rewrite Z.odd_mul, Z.odd_mul in Eo. cbn in Eo. by rewrite andb_false_r in Eo.
      * apply existsb_exists in H as (q & Hq & H). apply andb_prop in H as [H1%Z.ltb_lt H2%Z.eqb_eq]. assert (In q small_primes) as Hq'.
        { change small_prime with (small_primes ++ [-103]) in Hq. apply in_app_or in Hq as [Hq|[<- |[]]]; [done | lia]. }
        apply not_true_iff_false in Ex. apply Ex. apply existsb_exists. exists q. split; [done |]. apply Z.eqb_eq, Z.mod_divide; [lia |].
        transitivity d; [apply Z.mod_divide; lia | done].
Qed.

(** ** The bases *)

Section source.
Context {ml : malloc} {G : Type} (f_rng : G -> Z -> G * list Z * Z).

(** The base that is made of the bytes of the source, for the number [w + 1]. *)
Definition base_of (w : Z) (buf : list Z) : Z := let v := of_le (rev buf) in v / 2 ^ Z.max 0 (nbits v - nbits w).

(** The next [n] bases all fall outside the range. *)
Fixpoint unlucky (n : nat) (size w : Z) (g : G) : Prop :=
  match n with
  | O => True
  | S n' => let '(g', buf, e) := f_rng g size in e = 0 /\ ~ (1 < base_of w buf < w) /\ unlucky n' size w g'
  end.

(** The source gives as many bytes as it is asked for. *)
Definition source_ok : Prop := forall g n g' buf, f_rng g n = (g', buf, 0) -> is_bytes buf /\ Z.of_nat (length buf) = n.

(** The state of the source after [k] requests for [size] bytes. *)
Definition after (size : Z) (k : nat) (g : G) : G := Nat.iter k (fun g => fst (fst (f_rng g size))) g.

Lemma after_after size j k g : after size k (after size j g) = after size (k + j) g.
Proof. unfold after. by rewrite Nat.iter_add. Qed.
Lemma after_one size g g' buf e : f_rng g size = (g', buf, e) -> g' = after size 1 g.
Proof. intros H. cbn. by rewrite H. Qed.

(** What ends a test that started in [g] and stopped in [g'], for reasons outside
    of it: no memory, or an error of the source at one of the requests made. *)
Definition stopped (K size : Z) (g g' : G) (e : Z) : Prop :=
  e = SHMPI_ERR_MALLOC_FAILED /\ nomem K \/
  e <> 0 /\ exists k, snd (f_rng (after size k g) size) = e /\ g' = after size (S k) g.

Lemma stopped_after K size j g g' e : stopped K size (after size j g) g' e -> stopped K size g g' e.
Proof.
  intros [H|(He & k & Hk & ->)]; [by left | right]. split; [done |]. exists (k + j)%nat. rewrite <- after_after. split; [done |].
  by rewrite after_after.
Qed.

(** The test rejects after the 31 bases drawn from request [k] on, and a last one
    that is not looked at, and stops there. *)
Definition gave_up (size w : Z) (k : nat) (g g' : G) : Prop := unlucky 31 size w (after size k g) /\ g' = after size (k + 32) g.

Context (Hrng : source_ok) (X W : shmpi) (K : Z) (n : nat).
Hypothesis (HX : mpi_ok X) (Hn : n = mlen X) (Hn1 : (1 <= n)%nat) (Hn2 : (n <= 128)%nat) (HW : mpi_ok W) (HW1 : 1 < mval W) (HK : Z.of_nat (2 * n + 9) <= K).

Definition base_ok (A : shmpi) : Prop := mpi_ok A /\ mp_s A = 1 /\ mp_p A <> [] /\ (mlen A <= 2 * n + 3)%nat /\ 1 < mval A < mval W.

(** A base is drawn and shortened. *)
Lemma draw_spec A g (k : shmpi -> G -> outcome (option shmpi * G * Z)) :
  (mlen A <= 2 * n + 3)%nat ->
  let m := (r <-! shmpi_fill_random f_rng A (mp_n X * ciL) g;
    let '(A, g, e) := r in
    if negb (e =? 0) then Done (None, g, e)
    else chk (if shmpi_msb W <? shmpi_msb A then shmpi_shift_r A (shmpi_msb A - shmpi_msb W) else Done (A, 0)) (fun _ ret => Done (None, g, ret)) (fun A => k A g)) in
  (exists g' e, m = Done (None, g', e) /\ stopped K (8 * Z.of_nat n) g g' e) \/
  (exists g' buf A', f_rng g (8 * Z.of_nat n) = (g', buf, 0) /\ m = k A' g' /\ mpi_ok A' /\ mp_s A' = 1 /\ mp_p A' <> [] /\ (mlen A' <= 2 * n + 3)%nat /\ mval A' = base_of (mval W) buf).
Proof using All.
  intros HA m. subst m. unfold shmpi_fill_random, mp_n, ciL. rewrite <- Hn, (Z.mul_comm (Z.of_nat n) 8).
  destruct (Z.ltb_spec MPI_MPI_MAX_SIZE (8 * Z.of_nat n)); [unfold MPI_MPI_MAX_SIZE in *; lia |].
  destruct (f_rng g (8 * Z.of_nat n)) as [[g1 buf] e] eqn:Er. destruct (Z.eqb_spec e 0) as [->|He]; cbn [negb obind].
  2: { left. exists g1, e. rewrite (proj2 (Z.eqb_neq _ _) He). split; [done |]. right. split; [done |]. exists 0%nat. split; [change (snd (f_rng g (8 * Z.of_nat n)) = e); by rewrite Er | by apply (after_one _ _ _ buf e)]. }
  destruct (Hrng _ _ _ _ Er) as [Hb Hl].
  destruct (read_binary_spec A buf K Hb ltac:(lia) ltac:(mlia)) as (A1 & e & -> & [(-> & O1 & S1 & V1 & L1 & M1)|[-> Hno]]); cbn [obind fst snd Z.eqb negb].
  2: { left. exists g1, SHMPI_ERR_MALLOC_FAILED. split; [done |]. by left. }
  assert (mlen A1 <= 2 * n + 3)%nat as L2 by mlia. pose proof (mval_abs _ O1) as AA. pose proof (lval_range _ (ok_p _ O1)) as RA.
  assert (mval A1 = lval (mp_p A1)) as VA by (unfold mval; rewrite S1; lia).
  rewrite !msb_spec by (apply O1 || apply HW). rewrite <- VA, V1, <- (mval_abs W), (Z.abs_eq (mval W)) by (done || lia). set (v := of_le (rev buf)) in *.
  destruct (Z.ltb_spec (nbits (mval W)) (nbits v)) as [Hlt|Hge].
  - destruct (shift_r_spec A1 (nbits v - nbits (mval W)) K) as (A2 & e & -> & [(-> & P2 & V2 & N2 & S2)|[-> Hno]]); [apply O1 | lia | lia | |];
      unfold chk; cbn [obind fst snd Z.eqb]; [right | left; exists g1, SHMPI_ERR_MALLOC_FAILED; split; [done | by left]].
    assert (mlen A2 = mlen A1) as N3 by lia. assert (mp_s A2 = 1) as S3 by (destruct S2 as [S2|[S2 _]]; congruence).
    exists g1, buf, A2. split; [done |]. split; [done |]. split; [split; [rewrite S3; by left | done] |]. split; [done |].
    split; [intros E; rewrite E in N3; cbn in N3; lia |]. split; [lia |]. unfold base_of. fold v. rewrite Z.max_r by lia. unfold mval at 1. rewrite S3, V2, <- VA, V1. lia.
  - unfold chk. cbn [obind fst snd Z.eqb]. right. exists g1, buf, A1. split_and!; try done; [intros E; rewrite E in L1; cbn in L1; lia |].
    unfold base_of. fold v. by rewrite Z.max_l, Z.pow_0_r, Z.div_1_r by lia.
Qed.

Lemma mr_base_spec fuel : forall A g, (mlen A <= 2 * n + 3)%nat ->
  exists r g' e, mr_base f_rng fuel A X W g = Done (r, g', e) /\
    match r with
    | Some A' => e = 0 /\ base_ok A' /\ exists j, (j <= fuel)%nat /\ g' = after (8 * Z.of_nat n) j g
    | None => stopped K (8 * Z.of_nat n) g g' e \/
              e = SHMPI_ERR_NOT_ACCEPTABLE /\ unlucky fuel (8 * Z.of_nat n) (mval W) g /\ g' = after (8 * Z.of_nat n) (S fuel) g
    end.
Proof using All.
  induction fuel as [|fuel IH]; intros A g HA; cbn [mr_base unlucky].
  - destruct (draw_spec A g (fun A g => Done (None, g, SHMPI_ERR_NOT_ACCEPTABLE)) HA) as [(g' & e & -> & H)|(g' & buf & A' & Er & -> & _)]; (eexists None, g', _; split; [done |]); [by left | right].
    split; [done |]. split; [done |]. by apply (after_one _ _ _ buf 0).
  - destruct (draw_spec A g (fun A g => c <-! shmpi_cmp_int A 1; if (0 <=? shmpi_cmp_mpi A W) || (c <=? 0) then mr_base f_rng fuel A X W g else Done (Some A, g, 0)) HA)
      as [(g' & e & -> & H)|(g' & buf & A' & Er & -> & O1 & S1 & N1 & L1 & V1)]; [by eexists None, g', _; auto |].
    pose proof (after_one _ _ _ _ _ Er) as Eg. rewrite Er, cmp_int_spec, cmp_mpi_spec by (done || lia). cbn [obind].
    destruct (Z.leb_spec 0 (Z.sgn (mval A' - mval W))); destruct (Z.leb_spec (Z.sgn (mval A' - 1)) 0); cbn [orb].
    4: { eexists _, _, _. split; [done |]. split; [done |]. split; [split_and!; (done || lia) |]. exists 1%nat. split; [lia | done]. }
    all: destruct (IH A' g' L1) as (r & g2 & e & -> & H2); exists r, g2, e; (split; [done |]); destruct r as [A2|].
    all: try (destruct H2 as (-> & H2 & j & Hj & ->); split; [done |]; split; [done |]; exists (j + 1)%nat; split; [lia |];
      rewrite Eg; by rewrite after_after).
    all: destruct H2 as [H2|(-> & H2 & ->)]; [left; rewrite Eg in H2; by apply stopped_after in H2 | right; split; [done |]].
    all: split; [split; [done |]; split; [lia | done] |]; rewrite Eg, after_after; f_equal; lia.
Qed.

(** ** The rounds *)

Hypothesis (Hprime : Z.prime (mval X)) (Hodd : Z.odd (mval X) = true) (HWX : mval W = mval X - 1).

Lemma mr_value_range : 2 < mval X < bp n.
Proof using All. pose proof (mval_abs _ HX) as H. pose proof (lval_range _ (ok_p _ HX)). rewrite Z.abs_eq in H by lia. rewrite <- Hn in *. lia. Qed.

Lemma mr_fits : 2 * mval X < bp (2 * n + 3).
Proof using All. pose proof mr_value_range. apply Z.lt_le_trans with (bp (S n)); [rewrite bp_S; unfold beta; lia | apply bp_mono; lia]. Qed.

(** A number whose repeated square is one meets minus one on the way. *)
Lemma mr_squares_spec k : forall A T,
  mpi_ok A -> mpi_ok T -> (mlen A <= 2 * n + 3)%nat -> (mlen T <= 2 * n)%nat -> 0 <= mval A < mval X -> mval A <> 1 -> mval A ^ 2 ^ Z.of_nat (S k) mod mval X = 1 ->
  exists A' T' e, mr_squares k A T X W = Done (A', T', e) /\
    (e = 0 /\ mpi_ok A' /\ mpi_ok T' /\ (mlen A' <= 2 * n + 3)%nat /\ (mlen T' <= 2 * n)%nat /\ mval A' = mval W \/ e = SHMPI_ERR_MALLOC_FAILED /\ nomem K).
Proof using All.
  pose proof mr_value_range as Hv. pose proof mr_fits as Hf. induction k as [|k IH]; intros A T HA HT LA LT RA NA HP; cbn [mr_squares].
  - exists A, T, 0. split; [done |]. left. split_and!; try done. change (2 ^ Z.of_nat 1) with 2 in HP. rewrite Z.pow_2_r in HP. destruct (square_one _ _ Hprime RA HP); [done | lia].
  - rewrite cmp_mpi_spec by done. destruct (Z.eqb_spec (Z.sgn (mval A - mval W)) 0) as [E|E]; [exists A, T, 0; split; [done |]; left; split_and!; (done || lia) |].
    pose proof (mval_abs _ HA) as AA. assert (sig (mp_p A) <= n)%nat as SA by (apply sig_le_iff; [apply HA | lia]).
    destruct (mul_mpi_spec T (Other A) (Other A) _ K HA HA eq_refl) as (T1 & e & -> & [(-> & [O1 V1 _ M1])|[-> Hno]]); [cbn [argv]; lia | |];
      unfold chk at 1; cbn [obind fst snd Z.eqb]; [|eexists _, _, _; split; [done | by right]].
    cbn [argv] in *. assert (mlen T1 <= 2 * n)%nat as LT1 by lia.
    destruct (mod_mpi_spec A (Other T1) X K (2 * n + 3)) as (A1 & e & -> & [(-> & [O2 V2 _ M2])|[-> Hno]]); cbn [argv]; try done; try lia;
      unfold chk at 1; cbn [obind fst snd Z.eqb]; [|eexists _, _, _; split; [done | by right]].
    cbn [argv] in *. rewrite cmp_int_spec by (done || lia). cbn [obind]. pose proof (Z.mod_pos_bound (mval T1) (mval X) ltac:(lia)). rewrite V1 in V2, H.
    destruct (Z.eqb_spec (Z.sgn (mval A1 - 1)) 0) as [E1|E1].
    + destruct (square_one _ _ Hprime RA) as [?|?]; [lia | done | lia].
    + apply IH; try done; try lia. rewrite V2, Z.mod_pow_l, <- Z.pow_2_r, <- Z.pow_mul_r by lia.
      replace (2 * 2 ^ Z.of_nat (S k)) with (2 ^ Z.of_nat (S (S k))) by (rewrite (Nat2Z.inj_succ (S k)), Z.pow_succ_r by lia; done). done.
Qed.

Lemma mr_rounds_spec R s rounds : forall A T RR g,
  mpi_ok R -> 0 < mval R -> 1 <= s -> mval R * 2 ^ s = mval W -> mpi_ok T -> (mlen A <= 2 * n + 3)%nat -> (mlen T <= 2 * n)%nat -> rr_ok X RR ->
  exists g' e, mr_rounds f_rng rounds A T X W R RR s g = Done (g', e) /\
    (e = 0 \/ stopped K (8 * Z.of_nat n) g g' e \/
     e = SHMPI_ERR_NOT_ACCEPTABLE /\ exists k, (k < 31 * rounds)%nat /\ gave_up (8 * Z.of_nat n) (mval W) k g g').
Proof using All.
  pose proof mr_value_range as Hv. induction rounds as [|rounds IH]; intros A T RR g HR HRp Hs HRs HT LA LT HRR; cbn [mr_rounds]; [exists g, 0; auto |].
  destruct (mr_base_spec 31 A g LA) as (r & g1 & e & -> & Hr). cbn [obind]. destruct r as [A1|].
  2: { exists g1, e. split; [done |]. right. destruct Hr as [Hr|(-> & Hr & ->)]; [by left | right]. split; [done |]. exists 0%nat. split; [lia |]. by split. }
  destruct Hr as (-> & (O1 & S1 & N1 & L1 & V1) & j & Hj & Eg).
  assert (forall A T RR, mpi_ok T -> (mlen A <= 2 * n + 3)%nat -> (mlen T <= 2 * n)%nat -> rr_ok X RR ->
    exists g' e, mr_rounds f_rng rounds A T X W R RR s g1 = Done (g', e) /\
      (e = 0 \/ stopped K (8 * Z.of_nat n) g g' e \/
       e = SHMPI_ERR_NOT_ACCEPTABLE /\ exists k, (k < 31 * S rounds)%nat /\ gave_up (8 * Z.of_nat n) (mval W) k g g')) as Hnext.
  { intros B U Q HU LB LU HQ. destruct (IH B U Q g1 HR HRp Hs HRs HU LB LU HQ) as (g2 & e & -> & H2). exists g2, e. split; [done |].
    destruct H2 as [->|[H2|(-> & k & Hk & H2 & H3)]]; [by left | right; left; rewrite Eg in H2; by apply stopped_after in H2 | right; right].
    split; [done |]. exists (k + j)%nat. split; [lia |]. rewrite Eg in H2, H3. rewrite after_after in H2, H3. split; [done |]. rewrite H3. f_equal. lia. }
  clear IH.
  destruct (exp_mod_spec A1 Self R X RR K (2 * n + 5)) as (A2 & RR2 & e & -> & [(-> & O2 & V2 & HRR2 & _ & L2)|[-> Hno]]); cbn [argv]; try done; try lia;
    cbn [obind Z.eqb negb]; [|eexists _, _; split; [done |]; right; left; by left].
  cbn [argv] in *. rewrite S1 in V2, L2. specialize (L2 eq_refl). cbn in V2. rewrite Z.abs_eq in V2 by lia.
  rewrite cmp_int_spec, cmp_mpi_spec by (done || lia). cbn [obind].
  pose proof (Z.mod_pos_bound (mval A1 ^ mval R) (mval X) ltac:(lia)) as RA2. rewrite <- V2 in RA2.
  destruct (Z.eqb_spec (Z.sgn (mval A2 - mval W)) 0) as [E1|E1]; cbn [orb]; [apply Hnext; (done || lia) |].
  destruct (Z.eqb_spec (Z.sgn (mval A2 - 1)) 0) as [E2|E2]; [apply Hnext; (done || lia) |].
  destruct (mr_squares_spec (Z.to_nat (s - 1)) A2 T) as (A3 & T3 & e & -> & H3); try done; try lia.
  { rewrite V2, Z.mod_pow_l, <- Z.pow_mul_r by lia. replace (Z.of_nat (S (Z.to_nat (s - 1)))) with s by lia. rewrite HRs, HWX. apply fermat_small; [done | lia]. }
  cbn [obind]. destruct H3 as [(-> & O3 & OT3 & L3 & LT3 & V3)|[-> Hno]]; cbn [Z.eqb negb]; [|eexists _, _; split; [done |]; right; left; by left].
  rewrite cmp_int_spec, cmp_mpi_spec, V3, Z.sub_diag by (done || lia). cbn [obind Z.sgn Z.eqb negb orb].
  destruct (Z.eqb_spec (Z.sgn (mval W - 1)) 0); [lia |]. apply Hnext; (done || lia).
Qed.

End source.

Section primality.
Context {ml : malloc} {G : Type} (f_rng : G -> Z -> G * list Z * Z) (Hrng : source_ok f_rng).

(** A prime passes. *)
Lemma miller_rabin_spec X K g :
  mpi_ok X -> 2 < mval X -> Z.prime (mval X) -> Z.odd (mval X) = true -> (mlen X <= 128)%nat -> Z.of_nat (2 * mlen X + 9) <= K ->
  exists g' e, shmpi_miller_rabin f_rng X g = Done (g', e) /\
    (e = 0 \/ stopped f_rng K (8 * Z.of_nat (mlen X)) g g' e \/
     e = SHMPI_ERR_NOT_ACCEPTABLE /\ exists k, (k < 31 * mr_count (shmpi_msb X))%nat /\ gave_up f_rng (8 * Z.of_nat (mlen X)) (mval X - 1) k g g').
Proof using All.
  intros HX Hv Hp Ho Hn HK. pose proof (pos_len X HX ltac:(lia)) as Hn1. pose proof (mval_abs _ HX) as AX. pose proof (lval_range _ (ok_p _ HX)) as RX.
  unfold shmpi_miller_rabin, shmpi_sub_int. rewrite int_mpi_pos by lia. cbn [obind]. destruct (limb_ok 1) as (O1 & V1 & _); [by split |].
  pose proof (bp_mono (S (mlen X)) (S (mlen X)) ltac:(lia)) as HB. rewrite bp_S in HB.
  destruct (sub_mpi_spec shmpi_init (Other X) (Other (mk_mpi 1 [1])) 0 (S (mlen X)) K) as (W & e & -> & [(-> & [OW VW _ LW])|[-> Hno]]); cbn [argv]; try done; try (by left); try lia;
    [cbn; lia | rewrite V1, bp_S; unfold beta; lia | |]; unfold chk at 1; cbn [obind fst snd Z.eqb]; [|exists g, SHMPI_ERR_MALLOC_FAILED; split; [done |]; right; left; by left].
  cbn [argv] in VW. rewrite V1 in VW. pose proof (mval_abs _ OW) as AW. rewrite Z.abs_eq in AW by lia.
  destruct (lsb_spec W (ok_p _ OW) ltac:(lia)) as (Hs0 & o & Ho2). set (s := shmpi_lsb W) in *.
  destruct (copy_spec shmpi_init W K (ok_p _ OW)) as (R & e & -> & [[-> HC]|[-> Hno]]); [unfold msz; pose proof (sig_le (mp_p W)); lia | |];
    unfold chk at 1; cbn [obind fst snd Z.eqb]; [|exists g, SHMPI_ERR_MALLOC_FAILED; split; [done |]; right; left; by left].
  destruct (shift_r_spec R s K) as (R1 & e & -> & [(-> & P1 & VR & _ & SR)|[-> Hno]]); [apply HC | done | lia | |];
    unfold chk at 1; cbn [obind fst snd Z.eqb]; [|exists g, SHMPI_ERR_MALLOC_FAILED; split; [done |]; right; left; by left].
  assert (mp_p W <> []) as NW by (intros E; rewrite E in AW; cbn in AW; lia).
  assert (mp_s W = 1) as SW by (destruct (ok_s _ OW) as [|E]; [done |]; assert (0 < lval (mp_p W)) by lia; unfold mval in AW; rewrite E in AW; lia).
  assert (mp_s R1 = 1) as SR1 by (pose proof (cp_s _ _ _ HC NW); destruct SR as [SR|[SR _]]; congruence).
  assert (0 < 2 ^ s) as Ps by lia. rewrite (cp_lval _ _ _ HC), Ho2, Z.div_mul in VR by lia. rewrite <- AW in Ho2.
  assert (mval R1 = 2 * o + 1) as VR1 by (unfold mval; rewrite SR1, VR; lia).
  rewrite <- VW. apply (mr_rounds_spec f_rng Hrng X W K (mlen X)); try done; try lia.
  - split; [rewrite SR1; by left | done].
  - rewrite VR1. clear - Ho2 Ps VW Hv. nia.
  - destruct (Z.eq_dec s 0) as [E|]; [|lia]. rewrite E, Z.pow_0_r, Z.mul_1_r in Ho2. replace (mval X) with (2 * (o + 1)) in Ho by lia. by rewrite Z.odd_mul in Ho.
  - apply mpi_ok_init.
  - cbn. lia.
  - cbn. lia.
Qed.

(** C7: a number of at most 128 limbs and below 998 is accepted exactly when it is
    prime; a larger number with a divisor up to 1008 is rejected; and a larger
    prime is rejected only when the source, from the state this test started in,
    gave 31 bases in a row outside the range, at which the test then stopped.
    The test ends for every source that gives the bytes it is asked for; other
    errors are those of the source at one of the requests of this test, and of
    the allocation. *)
Theorem shmpi_is_prime_sound X K g :
  mpi_ok X -> (mlen X <= 128)%nat -> Z.of_nat (2 * mlen X + 9) <= K ->
  let v := Z.abs (mval X) in
  (v < 998 -> exists e, shmpi_is_prime f_rng X g = Done (g, e) /\ (e = 0 /\ Z.prime v \/ e = SHMPI_ERR_NOT_ACCEPTABLE /\ ~ Z.prime v)) /\
  (997 < v -> (exists d, 1 < d < 1009 /\ (d | v)) -> shmpi_is_prime f_rng X g = Done (g, SHMPI_ERR_NOT_ACCEPTABLE)) /\
  (997 < v -> Z.prime v -> exists g' e, shmpi_is_prime f_rng X g = Done (g', e) /\
    (e = 0 \/ stopped f_rng K (8 * Z.of_nat (mlen X)) g g' e \/
     e = SHMPI_ERR_NOT_ACCEPTABLE /\ exists k, (k < 31 * mr_count (shmpi_msb X))%nat /\ gave_up f_rng (8 * Z.of_nat (mlen X)) (v - 1) k g g')).
Proof using All.
  intros HX Hn HK v. unfold shmpi_is_prime. assert (mpi_ok (with_s 1 X)) as HXX by (split; [by left | apply HX]).
  assert (mval (with_s 1 X) = v) as V by (unfold v; rewrite mval_abs by done; unfold mval; cbn [with_s mp_s mp_p]; lia).
  rewrite !cmp_int_spec, V by (done || lia). cbn [obind].
  destruct (Z.eqb_spec (Z.sgn (v - 0)) 0) as [E0|E0]; [|destruct (Z.eqb_spec (Z.sgn (v - 1)) 0) as [E1|E1]]; cbn [orb].
  1,2: split_and!; [|lia|lia]; intros _; eexists; split; [done |]; right; split; [done |]; intros [? _]; lia.
  destruct (Z.eqb_spec (Z.sgn (v - 2)) 0) as [E2|E2].
  { split_and!; [|lia|lia]. intros _. eexists. split; [done |]. left. split; [done |]. replace v with 2 by lia. apply Z.prime_2. }
  destruct (check_small_factors_spec (with_s 1 X) HXX ltac:(lia)) as (r & -> & Hr). rewrite V in Hr. cbn [obind].
  destruct Hr as [(-> & Hs & Hp)|[(-> & Hp)|(-> & Hl & Ho & Hd)]]; cbn [Z.eqb negb].
  - split_and!; [|lia|lia]. intros _. exists 0. split; [done | by left].
  - split_and!; [|done|done]. intros _. exists SHMPI_ERR_NOT_ACCEPTABLE. split; [done | by right].
  - split_and!; [lia | intros _ (d & H1 & H2); by destruct (Hd d) |]. intros _ Hp. rewrite <- V. apply (miller_rabin_spec (with_s 1 X)); rewrite ?V; (done || lia).
Qed.

End primality.

(** A source that gives the same byte again and again. *)
Definition ex_rng (g : unit) (n : Z) : unit * list Z * Z := if 0 <=? n then (g, replicate (Z.to_nat n) 85, 0) else (g, [], -1).

Lemma ex_rng_ok : source_ok ex_rng.
Proof.
  intros g n g' buf. unfold ex_rng. destruct (Z.leb_spec 0 n); [|done]. intros [= <- <-]. rewrite length_replicate. split; [|lia].
  apply Forall_replicate. split; [done | reflexivity].
Qed.

Lemma prime_1009 : Z.prime 1009.
Proof. apply naive_prime_spec; [lia |]. vm_compute. reflexivity. Qed.

(** The product of 17 and 59 is rejected, and the prime 1009 is accepted: the one
    request for eight bytes gives a base in the range, and so do the others. *)
Lemma shmpi_is_prime_sound_witness :
  source_ok ex_rng /\ @shmpi_is_prime ex_malloc unit ex_rng (mk_mpi 1 [1003]) tt = Done (tt, SHMPI_ERR_NOT_ACCEPTABLE) /\
  @shmpi_is_prime ex_malloc unit ex_rng (mk_mpi 1 [1009]) tt = Done (tt, 0).
Proof.
  split; [exact ex_rng_ok |]. assert (mpi_ok (mk_mpi 1 [1003]) /\ mpi_ok (mk_mpi 1 [1009])) as [HX HY] by (split; by apply mpi_okb_ok). split.
  - destruct (@shmpi_is_prime_sound ex_malloc unit ex_rng ex_rng_ok (mk_mpi 1 [1003]) 11 tt HX ltac:(cbn; lia) ltac:(cbn; lia)) as (_ & H & _).
    apply H; [reflexivity |]. exists 17. split; [lia |]. exists 59. reflexivity.
  - destruct (@shmpi_is_prime_sound ex_malloc unit ex_rng ex_rng_ok (mk_mpi 1 [1009]) 11 tt HY ltac:(cbn; lia) ltac:(cbn; lia)) as (_ & _ & H).
    destruct (H eq_refl prime_1009) as ([] & e & E & [->|[[[-> [[n [_ Hn]]|Hn]]|(He & k & Hk & _)]|(-> & k & _ & Hk & _)]]).
    + exact E.
    + discriminate Hn.
    + discriminate Hn.
    + exfalso. apply He. symmetry. exact Hk.
    + exfalso. destruct (after ex_rng 8 k tt). destruct Hk as (_ & Hk & _). apply Hk. vm_compute. by split.
Defined.

(** The prime [65537] is rejected by every source whose bytes do not start with
    zero bits enough: a base is shortened to the length of [65536], which is then the
    smallest number of that length. *)
Theorem shmpi_is_prime_rejects : @shmpi_is_prime ex_malloc unit ex_rng (mk_mpi 1 [65537]) tt = Done (tt, SHMPI_ERR_NOT_ACCEPTABLE).
Proof. vm_compute. reflexivity. Qed.
